(* ===== verification/_CoqProject ===== *)
-Q . S2P
Prelude.v
Utf8.v
CriticTypes.v
Mote.v
ContextItems.v
Entry.v
EntryEncode.v
EntryDecode.v
EntryRoundtrip.v
EntrySound.v
Journal.v
Migration.v
Sqlite.v
Warrant.v
Content.v
DemoCodec.v
ProjState.v
ProjIndex.v
ProjFold.v
ProjHistory.v
ProjQuery.v
Tiering.v
Materializer.v
Memoizer.v
Scheduler.v
Refusal.v
Checkpoint.v
DemoCheckpoint.v
Recovery.v
Critic.v
Effects.v
Broker.v
CommitProtocol.v
Lifecycle.v
Slots.v
ExactlyOnce.v
NativeCritic.v
Wire.v
Digits.v
ParamSchema.v
Text.v
ToolRegistry.v
ToolStore.v
Toolcall.v
ToolcallFacts.v
Workers.v
Coordinator.v
CoordSync.v
Cascade.v
Timers.v
TimerFacts.v
ReactShape.v
Rerank.v
RerankFacts.v
Lease.v
LeaseFacts.v
Replan.v
Submit.v
SubmitFacts.v
Pricing.v
React.v
ReactFacts.v
ReactChain.v
Loop.v
Partition.v
LoopFacts.v
ReplanFacts.v
Workflow.v
WorkflowFacts.v
Prompt.v
Planner.v
PlannerFacts.v
Recipes.v
RecipeFacts.v
Chunk.v
Normalizer.v
Assembler.v
WorkCache.v
Grants.v
Fleet.v
