(* ===== verification/Prelude.v ===== *)
(** * Verification of the kortecx runtime core

    kortecx runs workflows as graphs of Motes (atomic execution units). Its
    only truth is an append-only journal of facts; everything else is derived
    from it. The crates under src/crates/ that carry this core are:

    - kx-mote: the Mote, its content-derived identity, parent edges, the
      per-attempt lifecycle, attached context items;
    - kx-critic-types: the check specifications a critic Mote carries and the
      verdicts it commits;
    - kx-journal: the journal entry and its wire format, the Journal trait, its
      in-memory and SQLite backends, forward migration of older files;
    - kx-warrant: the capability granted to a Mote and its monotone narrowing
      along delegations;
    - kx-content: the content-addressed store results and warrants live in;
    - kx-projection: the fold of the journal into per-Mote state, the reverse
      dependency index, the ready set the scheduler dispatches from, the poison
      cascade, the off-graph records of agent rounds and approvals, and the
      materializer that turns a committed topology decision into new Motes;
    - kx-refusal: the predicates a submission must satisfy before it runs;
    - kx-scheduler, kx-memoizer, kx-tiering: clients of the projection that
      dispatch ready Motes, serve committed results again, and drop payloads
      that can be recomputed;
    - kx-critic, kx-capability, kx-executor: the deterministic critic, the
      broker between a Mote and the outside world, and the executor that runs a
      Mote through its commit protocol and recovers it after a crash;
    - kx-coordinator: the one thread that writes the journal, the workers it
      leases Motes to, and the operator commands it serves;
    - kx-proto: the conversions between these types and their wire messages;
    - kx-tool-registry: the tools a warrant may grant, their review, and the check
      of the arguments a model proposes;
    - kx-toolcall: the gate that decodes tool calls from a model's text and lets
      through only what the warrant grants;
    - kx-workflow: workflows authored as steps and edges, prompt templates, the
      recipes built from them, and the compilation to a graph of Motes;
    - kx-planner: a model's plan, decoded and lowered to such a workflow;
    - kx-context-assembler: what a model is shown: its parents' results, attached
      items and tools; kx-chunk and kx-normalizer: texts cut into passages, and
      command lines brought to one spelling; kx-work-cache: results of PURE work
      served across runs;
    - kx-catalog: who owns a catalogued asset and who may do what with it, by
      grants delegated from the owner; kx-fleet: teams, their members, and the
      warrants a member gets through them.

    A submission passes the refusal gate and waits in the scheduler; a
    coordinator appends facts to the journal; the projection folds them; the
    scheduler asks the projection what is ready and what may be re-dispatched;
    a delegated or dynamically introduced Mote runs under a warrant narrowed
    from its parent's.

    ** Files and what they model

    - Prelude: results with a panic outcome, machine widths, byte strings and
      their order, BTreeMap iteration, stable sort, little-endian integers,
      checked indexing and slicing. Utf8: str validity and char boundaries.
    - CriticTypes: kx-critic-types spec.rs and verdict.rs.
    - Mote, ContextItems: kx-mote.
    - Entry, EntryEncode, EntryDecode: kx-journal entry.rs. Each arm of
      encode_entry and decode_entry is a definition; a read past the end is the
      source's error, a slice out of range is the Panic outcome.
      EntryRoundtrip and EntrySound hold the theorems on the wire format.
    - Journal: kx-journal lib.rs, in_memory.rs, watch.rs. The trait is the
      class Journal; JournalLaws states what a backend promises, against an
      abstract log (log_append), and the theorems of the clients are proved
      from it. A journal may refuse an entry ([accepts] says which it takes): the
      in-memory one takes all, SQLite those that encode within 4500 bytes. Migration:
      migration.rs. Sqlite: sqlite.rs, and JournalTotal, what the clients on the
      owner thread rely on (an append of an entry that can be read back does what the
      abstract log does, or is refused), with both backends as instances (SQLite fed
      well-typed entries, Typed).
    - Warrant: kx-warrant.
    - ProjState, ProjIndex, ProjFold, ProjHistory, ProjQuery: kx-projection
      state.rs, projection.rs, helpers.rs, promotion.rs, errors.rs, enums.rs,
      register.rs. State is the source's struct State; each method is a
      function on it; proj_step is one fold (also a failed one) or one
      registration. Its clients' steps (sys_step of Scheduler) contain it.
    - Content: kx-content. The trait is the class ContentStore; its laws say
      which map from references to contents a store holds, and are discharged
      by the in-memory map and by the directory of files.
    - Materializer: kx-projection materializer.rs, child_resolver.rs and
      mote_def_registry.rs. Tiering, Memoizer, Scheduler, Refusal: the crates
      of these names. DemoCodec gives the codec the witnesses compute with.
    - Checkpoint: kx-projection checkpoint.rs, the serialized fold and its
      digest; Recovery: the checkpointed construction of a projection and the
      engine's cadence (kx-runtime). DemoCheckpoint: a codec for witnesses.
    - Critic: kx-critic, one function per check kind, the text scanners of other
      crates as the class Scanners. NativeCritic: the verdict codec and the
      executor's in-process critic.
    - Effects: the state-and-error monad comp of the code that calls a journal,
      a store and the world in turn; an error keeps the changes made before it.
    - Broker: kx-capability. CommitProtocol, Lifecycle: kx-executor; the
      environment record Env holds journal, store, slots and world. Slots and
      ExactlyOnce hold the theorems on them.
    - Workers: kx-coordinator registry.rs, placement.rs, reschedule.rs.
      Coordinator: the handlers of state.rs with commit.rs, repudiation.rs and
      materialize.rs on the record Core. CoordSync: the invariant in_sync of the
      writer thread and what every handler does to it; Cascade: repudiation,
      approvals and shaper children end to end. Timers: the steps the
      coordinator settles itself (waits, conditional arms, policied launches)
      and the timers of state.rs; TimerFacts: the theorems on them.
    - Wire: kx-proto convert.rs and error.rs, a record per message.
    - ParamSchema: kx-tool-registry param_schema.rs, with serde_json as the class
      SerdeJson; ToolRegistry: the crate's other files, the trait as the class
      ToolRegistry with its two instances; ToolStore: the theorems on the durable
      one. Digits: decimal text of integers.
    - Text: the str methods and JSON values the parsers use. Toolcall: kx-toolcall
      parse.rs, types.rs and dedup.rs, serde_json as the class ToolcallJson;
      ToolcallFacts: the theorems on it.
    - ReactShape: kx-coordinator react_shape.rs and replan_shape.rs, the Motes the
      coordinator builds. Rerank, Lease, Submit: the parts of state.rs that settle
      reranks, hand out work and admit submissions, with their theorems in
      RerankFacts, LeaseFacts and SubmitFacts.
    - Replan: re-planning after failed children (settle_replan_rounds and its
      recovery); ReplanFacts: its theorems. Pricing: kx-pricing. React: the agent
      loop (settle_react_rounds with all it calls, launches and recovery);
      ReactFacts: what a turn is decided to; ReactChain: the grammar Chain of a
      chain's facts, its budget, and what every pass keeps of it.
    - Loop: core_loop, handle_command and run_settle_passes, the owner thread as a
      whole; LoopFacts: its round and its restart. Partition: flush, commands and
      each settle pass of the loop as the steps serve_step from core_boot, and the
      invariant of the dispatch tables.
    - Workflow: kx-workflow def.rs, compile.rs, error.rs; WorkflowFacts: the
      compiler's theorems. Prompt: prompt.rs. Recipes: synthesis.rs, retrieval.rs,
      recipes.rs and share.rs; RecipeFacts: their theorems.
    - Planner: kx-planner, serde_json as the class PlanJson; PlannerFacts: the
      theorems on it.
    - Chunk: kx-chunk. Normalizer: kx-normalizer. Assembler: kx-context-assembler
      and sniff.rs of kx-content. WorkCache: kx-work-cache, the trait as the class
      WorkCache with the laws WorkCacheLaws and its two backends as instances.
    - Grants: the grant ledger of kx-catalog (action.rs, party.rs, path.rs, grant.rs,
      ledger.rs, in_memory_ledger.rs, sqlite_grant_ledger.rs, sqlite_util.rs), the
      trait as the class GrantLedger with laws. Fleet: kx-fleet, likewise.

    ** What the theorems show

    - Wire format: entries round-trip (EntryRoundtrip), the decoder is total and
      only returns well-formed entries (EntrySound), truncated failure
      details read back unchanged, and a timer with an unknown purpose byte is
      encoded but cannot be read back.
    - Journal: seqs are contiguous and facts unique in every reachable state,
      batches equal sequential appends, facts are idempotent, range reads
      compose, SQLite refines the same abstract log as the in-memory backend, but
      for batches it refuses because an entry cannot be encoded,
      and migration preserves every entry of an older file.
    - Warrant: narrowing is a meet, delegation never amplifies, the default
      grants nothing.
    - Projection: the incremental index equals its rebuild, committed facts are
      permanent, a repudiation acts exactly on the commit it names, a world
      effect may be re-dispatched exactly when the history allows it, the fold
      of a lawful journal is total, the cascade is exactly reachability, the
      ready set is exactly its specification with the memo and the shortcut
      removed, the derived indices answer like scans.
    - Dynamic topology: the children of a shaper are those of its stored
      decision, confined to its warrant, and reached by the poison cascade.
    - Content and tiering: both stores agree and everything read hashes to its
      reference; a pass drops only payloads no live commit but a PURE one needs.
    - Dispatch: every accepted submission is pending or was dispatched exactly
      once, and only when ready; memoized results are stable; a submission is
      accepted exactly when the safety conditions hold.
    - Identity: context items encode as sets, check specifications feed
      self-delimiting bytes to the hasher.
    - Recovery: a checkpoint round-trips, a due one is used, and whatever
      sidecar is presented recovery ends where the full fold of the journal does.
    - Critic: verdicts are right about the payload and their evidence is exact;
      the native critic commits such a verdict about its producer's bytes.
    - Effects: the broker runs a capability once and only within contract and
      warrant; a Mote's effect fires once across runs and recoveries, a crash
      leaves the intent recovery needs, and slots are returned on every path but
      the one the findings name.
    - Coordinator: the projection stays the fold of the journal and a restart
      rebuilds it, commands meet no fault, the first commit of a Mote wins
      within and across batches, a repudiation reaches exactly the committed
      consumers, an approval is decided once, dispatched children are the
      registered ones, lease tables mirror each other and retries are bounded.
      A drain of the timers fires the due, pending waits once each and nothing
      else, also across a restart, and the settle passes keep the projection the
      journal's fold;
      a wait whose parent crashed is dead-lettered although the parent is
      retried (a finding).
      A poll hands out exactly what may run: nothing committed, held elsewhere,
      parked or held back, and every runnable Mote when there is room; from a boot
      on, whatever the loop does, each Mote is leased to one worker at a time.
      Admission keeps the core in step and anchors what
      it accepts; a refused plain submission changes nothing, a refused seed may
      stay admitted (a finding). A rerank settles once and delivers the same
      passages; one of more than 64 candidates never settles (a finding). The
      Motes the coordinator builds have distinct identities.
    - Agents: what a turn is frozen to fire was proposed, granted, registered and
      fits its schema, and resolves at its lease; every pass keeps a chain in its
      grammar, so it ends within its budget whatever the model writes. A decision
      the journal refuses to record is only logged, and the chain goes on without
      it (a finding): the grammar names such a decision lost, and the budget counts
      those on record. A turn in
      flight is the same Mote after a restart, but for the first turn of a budget
      of one (a finding).
    - Re-planning: at most three corrective rounds, each for exactly the failed
      children of the last; a recorded shaper is rebuilt after a restart; a second
      shaper is planned with the first one's prompt and authority (a finding).
    - Owner loop: a round answers every command once, on its channel with a reply
      of its kind and a commit with its seq, and returns with the core in step with
      its journal and every chain well formed; so does a boot.
    - Workflows: compilation accepts exactly the acyclic ones and emits the
      authored graph, each step after what it depends on; templates parse to the
      segments they are the text of, and rendering fills every slot; every recipe
      compiles, but the ones with critics are refused on submission (a finding); a
      manifest's hashed bytes determine it.
    - Planning: decoding accepts exactly the proposals within the caps; a plan
      compiles exactly when its roles, producers and edges allow it, into steps
      within the parent's authority and built from registered recipes.
    - Content for models: a context is exactly the Mote's closure, in one order,
      within its window or refused (text that begins like a bitmap escapes the
      window, a finding); chunks are bounded, overlap and cover the text; two
      command lines normalize alike exactly when they have the same words.
    - Work cache: both backends serve the first result recorded since the last
      eviction, and work of one class never gets the result of another.
    - Grants: authority is exactly an unrevoked chain of delegations from the owner;
      the warrant of an action is the owner's narrowed along such a chain, and a
      revocation is final; the durable ledger answers as the in-memory one and is
      reopened as it was. A forged grant can keep a party from its warrant (a
      finding).
    - Teams: every membership goes back to the team's owner, and a warrant through
      teams is within that of a team which holds the action. The same party cannot
      remove a member a second time, and the choice among several paths is not the
      documented one (findings).
    - Wire: a Mote crosses the wire unchanged under the identity of its content,
      and a warrant is never wider on the other side.
    - Tools: what resolves is the last registration under its name, fits the
      warrant and was approved since, by its own token or that of a registration it
      replaced (a finding); the durable registry serves what the in-memory one does, also after a restart; the argument check
      accepts exactly what the schema says, with null and the empty string as
      absent, and refuses what the parser refuses; the repair of argument text is
      idempotent and leaves JSON alone. Whatever a model writes, decoding its
      calls ends, does not panic and yields only granted calls within the cap,
      and an observation is leased only with such a call's arguments.

    ** Modelling choices

    Fixed-width integers are Z; wrap-around is written where the source can
    reach it (u64_add), and the widths of inputs are hypotheses (entry_typed).
    Arrays of n bytes are byte lists, their length a hypothesis (arr). HashMap
    and BTreeMap are gmap, iterated through btree_iter in key order. BLAKE3 and
    bincode are foreign code: the classes Blake3 and Bincode give their
    operations, with the one law each is documented to have: a digest has 32
    bytes, and decoding an encoded value returns it and consumes all of it. No
    theorem assumes that hashing is injective; built_identities_distinct assumes
    that six given texts have no colliding digests. serde_json is a parameter
    too (SerdeJson, SerdeValue, ToolcallJson, SerdeScalar, PlanJson).
    Fuel: utf8_chars and from_utf8_lossy use the byte length (each step consumes
    a byte), decode_context_items the buffer length (each item consumes 36 or
    more), bfs one more than the number of Motes that occur as a child (each is
    queued at most once), prefixed_loop, fixed_loop and valid_up_to of Critic the
    payload length, decimal 20 digits (a u64 has no more), walk_attempts the
    source's own bound of at most 16 attempts, repair_loop and needs_loop the text
    length (each step consumes a byte), gemma_loop and marked_loop of Toolcall the
    text length (each segment consumes its opening delimiter, batch_scans_end),
    topo_loop one more than the number of steps (each is taken once), chunk_loop
    one more than the number of chars (each chunk starts further on), collect_chain
    and edges_of the source's depth bounds of 64, walk and auth_walk of Fleet two
    more than the 4096 steps the source allows (a round takes a frame from the
    stack, and one is put there only by a step);
    the theorems show the result, not only its shape. The
    depth limit of the critic walk in Refusal is the source's own.

    Locks are held for a whole operation in the source, so operations are atomic
    steps. Theorems about the owner thread hold on a journal that may refuse
    entries, with room below its seq limit (room); those on a repudiation and on a
    group commit say what must be taken. Not modelled: tokio wake-ups, SQLite pragmas and file renames, I/O
    errors of the operating system (a lawful store takes every put), logging, and the crates that PROJECT.json
    lists as such (transports, model back ends, CLI, bindings, UI), the dialects
    of kx-toolcall, and of kx-catalog what is not about grants. *)

From stdpp Require Export prelude list gmap sorting strings.
From Stdlib Require Export ZArith Lia.
#[global] Open Scope Z_scope.

(** * Outcomes of Rust computations

    A fallible Rust function returns [Result<A, E>]; an index or slice out of
    range, an [expect] on [None] or [Err] and an [unreachable!] abort instead.
    [outcome] keeps the two apart, so that "never panics" is a theorem. *)
Inductive outcome (A E : Type) : Type :=
| Ok (a : A)
| Err (e : E)
| Panic.
Arguments Ok {A E} a.
Arguments Err {A E} e.
Arguments Panic {A E}.

Definition obind {A B E : Type} (m : outcome A E) (k : A -> outcome B E) : outcome B E :=
  match m with
  | Ok a => k a
  | Err e => Err e
  | Panic => Panic
  end.

Declare Scope outcome_scope.
Delimit Scope outcome_scope with outcome.
Notation "'let*' x ':=' m 'in' k" := (obind m (fun x => k))
  (at level 10, x pattern, m at level 100, k at level 200) : outcome_scope.
#[global] Open Scope outcome_scope.

(** [ok_or] of an [Option]. *)
Definition ok_or {A E : Type} (o : option A) (e : E) : outcome A E :=
  match o with Some a => Ok a | None => Err e end.

(** [map_err]: the [?] operator's error conversion. *)
Definition omap_err {A E F : Type} (f : E -> F) (m : outcome A E) : outcome A F :=
  match m with Ok a => Ok a | Err e => Err (f e) | Panic => Panic end.

Definition is_ok {A E : Type} (m : outcome A E) : bool :=
  match m with Ok _ => true | _ => false end.

Definition no_panic {A E : Type} (m : outcome A E) : Prop := m <> Panic.

Create HintDb outcome.

Lemma no_panic_ok {A E} (a : A) : no_panic (Ok a : outcome A E).
Proof. intros H; discriminate H. Qed.
Lemma no_panic_err {A E} (e : E) : no_panic (Err e : outcome A E).
Proof. intros H; discriminate H. Qed.
Lemma no_panic_ok_or {A E} (o : option A) (e : E) : no_panic (ok_or o e).
Proof. destruct o; intros H; discriminate H. Qed.
Lemma no_panic_bind {A B E} (m : outcome A E) (k : A -> outcome B E) :
  no_panic m -> (forall a, m = Ok a -> no_panic (k a)) -> no_panic (obind m k).
Proof. destruct m; intros Hm Hk; simpl; [by apply Hk|apply no_panic_err|done]. Qed.
Lemma no_panic_if {A E} (b : bool) (x y : outcome A E) :
  (b = true -> no_panic x) -> (b = false -> no_panic y) -> no_panic (if b then x else y).
Proof. destruct b; auto. Qed.
#[export] Hint Resolve no_panic_ok no_panic_err no_panic_ok_or : outcome.

Lemma obind_ok_inv {A B E} (m : outcome A E) (k : A -> outcome B E) b :
  obind m k = Ok b -> exists a, m = Ok a /\ k a = Ok b.
Proof. destruct m; simpl; intros; try discriminate; eauto. Qed.

Lemma ok_inj {A E} (a b : A) : (Ok a : outcome A E) = Ok b -> a = b.
Proof. congruence. Qed.

(** Invert every [obind ... = Ok _] of the context. *)
Ltac ok_inv :=
  repeat match goal with
  | H : obind _ _ = Ok _ |- _ =>
      let a := fresh "v" in let H1 := fresh "Hok" in
      apply obind_ok_inv in H; destruct H as (a & H1 & H)
  | H : Ok _ = Ok _ |- _ => apply ok_inj in H; subst
  | H : Err _ = Ok _ |- _ => discriminate H
  | H : Panic = Ok _ |- _ => discriminate H
  end.

(** * Machine integers

    An unsigned [w]-bit integer is a [Z] in [0, 2^w). *)
Definition in_width (w : Z) (v : Z) : Prop := 0 <= v < 2 ^ w.
Abbreviation u8 := (in_width 8).
Abbreviation u16 := (in_width 16).
Abbreviation u32 := (in_width 32).
Abbreviation u64 := (in_width 64).
Abbreviation u128 := (in_width 128).
Definition in_width_b (w v : Z) : bool := (0 <=? v) && (v <? 2 ^ w).
Lemma in_width_b_spec w v : in_width_b w v = true <-> in_width w v.
Proof. unfold in_width_b, in_width. rewrite andb_true_iff, Z.leb_le, Z.ltb_lt. done. Qed.
#[export] Instance in_width_dec w v : Decision (in_width w v).
Proof. unfold in_width. apply _. Defined.

(** Release-mode [+] on [u64] wraps around. *)
Definition u64_add (a b : Z) : Z := (a + b) mod 2 ^ 64.
Lemma u64_add_small a b : 0 <= a -> 0 <= b -> a + b < 2 ^ 64 -> u64_add a b = a + b.
Proof. intros. unfold u64_add. apply Z.mod_small. lia. Qed.

(** * Byte strings

    A [u8] is a [Z]; a byte string is a list of them. Rust's [String] is its
    UTF-8 bytes, so both orders are the lexicographic order of the bytes. *)
Abbreviation bytes := (list Z).
Definition bytes_ok (l : bytes) : Prop := Forall u8 l.

Definition str (s : string) : bytes :=
  (fun a => Z.of_N (Ascii.N_of_ascii a)) <$> String.list_ascii_of_string s.

(** A fixed-size array [[u8; n]]. *)
Definition array_ok (n : nat) (l : bytes) : Prop := length l = n /\ bytes_ok l.

Fixpoint bytes_le (a b : bytes) : bool :=
  match a, b with
  | [], _ => true
  | _ :: _, [] => false
  | x :: a', y :: b' => (x <? y) || ((x =? y) && bytes_le a' b')
  end.

Lemma bytes_le_refl a : bytes_le a a = true.
Proof. induction a as [|x a IH]; simpl; [done|]. rewrite Z.eqb_refl, IH. apply orb_true_r. Qed.

Lemma bytes_le_cons x y a b :
  bytes_le (x :: a) (y :: b) = true <-> x < y \/ (x = y /\ bytes_le a b = true).
Proof. simpl. rewrite orb_true_iff, andb_true_iff, Z.ltb_lt, Z.eqb_eq. done. Qed.

Lemma bytes_le_trans a b c :
  bytes_le a b = true -> bytes_le b c = true -> bytes_le a c = true.
Proof.
  revert b c. induction a as [|x a IH]; intros [|y b] [|z c]; try done.
  rewrite !bytes_le_cons. intros [?|[-> ?]] [?|[-> ?]]; [left; lia|left; lia|by left|].
  right. split; [done|]. by eapply IH.
Qed.

Lemma bytes_le_total a b : bytes_le a b = true \/ bytes_le b a = true.
Proof.
  revert b. induction a as [|x a IH]; intros [|y b]; [by left|by left|by right|].
  rewrite !bytes_le_cons. destruct (Z.lt_trichotomy x y) as [?|[->|?]]; [by left; left| |by right; left].
  destruct (IH b); [left|right]; by right.
Qed.

Lemma bytes_le_antisymm a b : bytes_le a b = true -> bytes_le b a = true -> a = b.
Proof.
  revert b. induction a as [|x a IH]; intros [|y b]; try done.
  rewrite !bytes_le_cons. intros [?|[-> ?]] [?|[? ?]]; try lia. f_equal. by apply IH.
Qed.

(** * [BTreeMap]s keyed by byte strings

    A [BTreeMap] is a [gmap]; its iteration order is the key order. *)
Definition key_le {V : Type} (p q : bytes * V) : Prop := bytes_le p.1 q.1 = true.
#[export] Instance key_le_dec {V} : RelDecision (@key_le V).
Proof. intros p q. unfold key_le. apply _. Defined.
#[export] Instance key_le_total {V} : Total (@key_le V).
Proof. intros p q. apply bytes_le_total. Qed.
#[export] Instance key_le_trans {V} : Transitive (@key_le V).
Proof. intros p q r. apply bytes_le_trans. Qed.

Definition btree_iter {V : Type} (m : gmap bytes V) : list (bytes * V) :=
  merge_sort key_le (map_to_list m).
Definition btree_keys {V : Type} (m : gmap bytes V) : list bytes := (btree_iter m).*1.
Definition btree_values {V : Type} (m : gmap bytes V) : list V := (btree_iter m).*2.

Lemma btree_iter_perm {V} (m : gmap bytes V) : btree_iter m ≡ₚ map_to_list m.
Proof. apply merge_sort_Permutation. Qed.
Lemma btree_iter_sorted {V} (m : gmap bytes V) : StronglySorted key_le (btree_iter m).
Proof. apply StronglySorted_merge_sort; apply _. Qed.
Lemma elem_of_btree_iter {V} (m : gmap bytes V) k v :
  (k, v) ∈ btree_iter m <-> m !! k = Some v.
Proof. rewrite btree_iter_perm. apply elem_of_map_to_list. Qed.
Lemma elem_of_btree_keys {V} (m : gmap bytes V) k : k ∈ btree_keys m <-> is_Some (m !! k).
Proof.
  unfold btree_keys. rewrite list_elem_of_fmap. split.
  - intros ([k' v] & -> & H). apply elem_of_btree_iter in H. eauto.
  - intros [v H]. exists (k, v). split; [done|]. by apply elem_of_btree_iter.
Qed.
Lemma NoDup_btree_keys {V} (m : gmap bytes V) : NoDup (btree_keys m).
Proof.
  unfold btree_keys. rewrite btree_iter_perm. apply NoDup_fst_map_to_list.
Qed.

(** * Sorting and filtering *)
Lemma StronglySorted_lookup {A} (R : A -> A -> Prop) (l : list A) :
  (forall i j x y, (i < j)%nat -> l !! i = Some x -> l !! j = Some y -> R x y) ->
  StronglySorted R l.
Proof.
  induction l as [|x l IH]; intros HR; constructor.
  - apply IH. intros i j y z Hij Hy Hz. apply (HR (S i) (S j)); [lia|done..].
  - apply Forall_lookup. intros i y Hy. apply (HR O (S i)); [lia|done..].
Qed.
Lemma StronglySorted_filter {A} (R : A -> A -> Prop) (p : A -> bool) l :
  StronglySorted R l -> StronglySorted R (List.filter p l).
Proof.
  induction 1 as [|x l Hl IH Hx]; cbn; [constructor|]. case_match; [|done].
  constructor; [done|]. rewrite Forall_forall in *. intros y Hy. apply Hx.
  apply list_elem_of_In, filter_In in Hy as [Hy _]. by apply list_elem_of_In.
Qed.
(** Sorting a list whose keys already increase strictly changes nothing. *)
Lemma merge_sort_increasing {A} (f : A -> Z) (R : A -> A -> Prop) `{!RelDecision R} l :
  (forall x y, R x y <-> f x <= f y) ->
  StronglySorted (fun x y => f x < f y) l -> merge_sort R l = l.
Proof.
  intros HR Hs. apply (StronglySorted_unique_strong R).
  - intros x y Hx Hy. rewrite !HR. intros ? ?. rewrite merge_sort_Permutation in Hx.
    assert (f x = f y) as E by lia. clear -Hs Hx Hy E.
    induction Hs as [|z l Hl IH Hz]; [set_solver|]. rewrite Forall_forall in Hz.
    apply elem_of_cons in Hx as [->|Hx], Hy as [->|Hy]; [done| | |auto].
    + specialize (Hz _ Hy). cbn in Hz. lia.
    + specialize (Hz _ Hx). cbn in Hz. lia.
  - apply StronglySorted_merge_sort.
    + intros x y z. rewrite !HR. lia.
    + intros x y. rewrite !HR. lia.
  - clear -HR Hs. induction Hs as [|x l _ IH Hx]; constructor; [done|].
    eapply Forall_impl; [exact Hx|]. intros y Hy. cbn in Hy. apply HR. lia.
  - apply merge_sort_Permutation.
Qed.

(** [sort_by]: the stable sort. *)
Fixpoint insert_sorted {A} (le : A -> A -> bool) (x : A) (l : list A) : list A :=
  match l with
  | [] => [x]
  | y :: l' => if le x y then x :: l else y :: insert_sorted le x l'
  end.
Definition stable_sort {A} (le : A -> A -> bool) (l : list A) : list A :=
  foldr (insert_sorted le) [] l.
Lemma insert_sorted_perm {A} (le : A -> A -> bool) x l : insert_sorted le x l ≡ₚ x :: l.
Proof.
  induction l as [|y l IH]; [done|]. cbn. destruct (le x y); [done|]. rewrite IH. apply Permutation_swap.
Qed.
Lemma stable_sort_perm {A} (le : A -> A -> bool) l : stable_sort le l ≡ₚ l.
Proof. induction l as [|x l IH]; [done|]. cbn. rewrite insert_sorted_perm. by constructor. Qed.
Section StableSort.
Context {A : Type} (le : A -> A -> bool).
Hypothesis le_total : forall x y, le x y = true \/ le y x = true.
Hypothesis le_trans : forall x y z, le x y = true -> le y z = true -> le x z = true.
Lemma insert_sorted_strongly x k :
  StronglySorted (fun x y => le x y = true) k ->
  StronglySorted (fun x y => le x y = true) (insert_sorted le x k).
Proof.
  induction 1 as [|y k Hk IH Hy]; [repeat constructor|]. cbn. destruct (le x y) eqn:E.
  - constructor; [by constructor|]. constructor; [done|]. eapply Forall_impl; [exact Hy|]. eauto.
  - constructor; [done|]. rewrite insert_sorted_perm. constructor; [|done].
    destruct (le_total x y); congruence.
Qed.
Lemma stable_sort_strongly l : StronglySorted (fun x y => le x y = true) (stable_sort le l).
Proof. induction l as [|x l IH]; [constructor|]. by apply insert_sorted_strongly. Qed.
End StableSort.
Lemma stable_sort_sorted {A} (le : A -> A -> bool) l :
  StronglySorted (fun x y => le x y = true) l -> stable_sort le l = l.
Proof.
  induction 1 as [|x l Hl IH Hx]; [done|]. cbn. fold (stable_sort le l). rewrite IH.
  destruct l as [|y l]; [done|]. cbn. inversion_clear Hx as [|?? H _]. by rewrite H.
Qed.

(** * Indexing and slicing, which panic out of range *)
Definition index {E} (l : bytes) (i : nat) : outcome Z E :=
  match l !! i with Some x => Ok x | None => Panic end.
Definition slice {E} (l : bytes) (i j : nat) : outcome bytes E :=
  if (i <=? j)%nat && (j <=? length l)%nat then Ok (take (j - i) (drop i l)) else Panic.

Lemma slice_in_range {E} (l : bytes) i j :
  (i <= j)%nat -> (j <= length l)%nat -> slice (E := E) l i j = Ok (take (j - i) (drop i l)).
Proof.
  intros. unfold slice.
  destruct (Nat.leb_spec i j), (Nat.leb_spec j (length l)); simpl; done || lia.
Qed.
Lemma no_panic_slice {E} (l : bytes) i j :
  (i <= j)%nat -> (j <= length l)%nat -> no_panic (slice (E := E) l i j).
Proof. intros. rewrite slice_in_range by done. apply no_panic_ok. Qed.
Lemma no_panic_index {E} (l : bytes) i : (i < length l)%nat -> no_panic (index (E := E) l i).
Proof. intros [x Hx]%lookup_lt_is_Some. unfold index. rewrite Hx. apply no_panic_ok. Qed.

(** [l.get(i..j)] *)
Definition get_range (l : bytes) (i j : nat) : option bytes :=
  if (i <=? j)%nat && (j <=? length l)%nat then Some (take (j - i) (drop i l)) else None.
Lemma get_range_mid (a b c : bytes) i j :
  length a = i -> (j = i + length b)%nat -> get_range (a ++ b ++ c) i j = Some b.
Proof.
  intros <- ->. unfold get_range. rewrite !length_app.
  rewrite (proj2 (Nat.leb_le _ _)), (proj2 (Nat.leb_le _ _)) by lia. cbn [andb].
  rewrite drop_app_length. replace (length a + length b - length a)%nat with (length b) by lia.
  by rewrite take_app_length.
Qed.
Lemma get_range_split l i j x :
  get_range l i j = Some x -> drop i l = x ++ drop j l /\ length x = (j - i)%nat.
Proof.
  unfold get_range. destruct (Nat.leb_spec i j) as [Hij|]; [|done].
  destruct (Nat.leb_spec j (length l)) as [Hj|]; [|done]. intros [= <-]. split.
  - rewrite <- (take_drop (j - i) (drop i l)) at 1. f_equal. rewrite drop_drop. f_equal. lia.
  - rewrite length_take, length_drop. lia.
Qed.

(** * Little-endian integers *)
Fixpoint to_le (n : nat) (v : Z) : bytes :=
  match n with
  | O => []
  | S n' => v mod 256 :: to_le n' (v / 256)
  end.
Fixpoint from_le (l : bytes) : Z :=
  match l with
  | [] => 0
  | b :: l' => b + 256 * from_le l'
  end.

Lemma to_le_S n v : to_le (S n) v = v mod 256 :: to_le n (v / 256).
Proof. done. Qed.
Lemma length_to_le n v : length (to_le n v) = n.
Proof. revert v. induction n; intros; cbn [to_le length]; auto. Qed.
Lemma to_le_ok n v : bytes_ok (to_le n v).
Proof.
  revert v. induction n as [|n IH]; intros v; cbn [to_le]; constructor; [|apply IH].
  split; [|change (2 ^ 8) with 256]; pose proof (Z.mod_pos_bound v 256); lia.
Qed.
Lemma from_le_bound l : bytes_ok l -> 0 <= from_le l < 256 ^ Z.of_nat (length l).
Proof.
  induction 1 as [|b l [Hb1 Hb2] Hl IH]; [cbn; lia|]. change (2 ^ 8) with 256 in Hb2.
  cbn [from_le length]. rewrite Nat2Z.inj_succ, Z.pow_succ_r by lia. lia.
Qed.
Lemma from_to_le n v : 0 <= v < 256 ^ Z.of_nat n -> from_le (to_le n v) = v.
Proof.
  revert v. induction n as [|n IH]; intros v Hv; [cbn in *; lia|].
  rewrite Nat2Z.inj_succ, Z.pow_succ_r in Hv by lia. cbn [to_le from_le].
  rewrite IH; [pose proof (Z.div_mod v 256); lia|].
  split; [apply Z.div_pos; lia|]. apply Z.div_lt_upper_bound; lia.
Qed.
Lemma to_from_le l : bytes_ok l -> to_le (length l) (from_le l) = l.
Proof.
  induction 1 as [|b l [Hb1 Hb2] Hl IH]; [done|]. change (2 ^ 8) with 256 in Hb2.
  cbn [from_le length to_le]. f_equal.
  - rewrite (Z.mul_comm 256), Z.mod_add, Z.mod_small by lia. done.
  - rewrite (Z.mul_comm 256), Z.div_add, Z.div_small by lia. done.
Qed.

#[global] Opaque to_le from_le.
