(* ===== verification/Utf8.v ===== *)
(** UTF-8 as the standard library's [str::from_utf8] accepts it, and the
    [chars] of a valid string as the byte strings they occupy. Every [String]
    of the model is the list of its bytes and satisfies [utf8_valid]. *)
From S2P Require Import Prelude.

Definition in_range (lo hi b : Z) : bool := (lo <=? b) && (b <=? hi).
Definition cont (b : Z) : bool := in_range 128 191 b.

(** The second-byte ranges of the three- and four-byte lead bytes. *)
Definition second3 (b0 b1 : Z) : bool :=
  if b0 =? 224 then in_range 160 191 b1
  else if b0 =? 237 then in_range 128 159 b1
  else in_range 225 239 b0 && cont b1.
Definition second4 (b0 b1 : Z) : bool :=
  if b0 =? 240 then in_range 144 191 b1
  else if b0 =? 244 then in_range 128 143 b1
  else in_range 241 243 b0 && cont b1.

(** Byte length of the first char, [None] when no valid char starts here. *)
Definition utf8_char_len (l : bytes) : option nat :=
  match l with
  | [] => None
  | b0 :: r =>
      if in_range 0 127 b0 then Some 1%nat
      else match r with
      | [] => None
      | b1 :: r =>
          if in_range 194 223 b0 && cont b1 then Some 2%nat
          else match r with
          | [] => None
          | b2 :: r =>
              if second3 b0 b1 && cont b2 then Some 3%nat
              else match r with
              | [] => None
              | b3 :: _ => if second4 b0 b1 && cont b2 && cont b3 then Some 4%nat else None
              end
          end
      end
  end.

Fixpoint utf8_chars_fuel (fuel : nat) (l : bytes) : option (list bytes) :=
  match l, fuel with
  | [], _ => Some []
  | _ :: _, O => None
  | _ :: _, S f =>
      match utf8_char_len l with
      | Some n =>
          match utf8_chars_fuel f (drop n l) with
          | Some cs => Some (take n l :: cs)
          | None => None
          end
      | None => None
      end
  end.
(** A char takes at least one byte: [length l] steps are enough. *)
Definition utf8_chars (l : bytes) : option (list bytes) := utf8_chars_fuel (length l) l.
Definition utf8_valid (l : bytes) : bool :=
  match utf8_chars l with Some _ => true | None => false end.

Definition is_char (c : bytes) : Prop := utf8_char_len c = Some (length c).

Lemma utf8_char_len_bound l n :
  utf8_char_len l = Some n -> (1 <= n <= 4 /\ n <= length l)%nat.
Proof.
  unfold utf8_char_len. intros H.
  repeat (case_match; simplify_eq); simpl; lia.
Qed.

(** The verdict on the first char looks at that char only. *)
Lemma utf8_char_len_take l n r :
  utf8_char_len l = Some n -> utf8_char_len (take n l ++ r) = Some n.
Proof.
  destruct l as [|b0 [|b1 [|b2 [|b3 l]]]]; simpl; intros H;
    repeat (case_match; simplify_eq/=);
    repeat match goal with H : _ = true |- _ => rewrite H in * end;
    simplify_eq/=; done.
Qed.

Lemma is_char_take l n : utf8_char_len l = Some n -> is_char (take n l).
Proof.
  intros H. pose proof (utf8_char_len_bound _ _ H).
  pose proof (utf8_char_len_take _ _ [] H) as Ht. rewrite app_nil_r in Ht.
  unfold is_char. rewrite Ht, length_take. f_equal. lia.
Qed.

Lemma utf8_char_len_app c r : is_char c -> utf8_char_len (c ++ r) = Some (length c).
Proof.
  intros H. pose proof (utf8_char_len_take c _ r H) as Ht.
  rewrite take_ge in Ht by lia. done.
Qed.

Lemma utf8_chars_fuel_concat cs fuel :
  Forall is_char cs -> (length (concat cs) <= fuel)%nat ->
  utf8_chars_fuel fuel (concat cs) = Some cs.
Proof.
  intros Hcs. revert fuel.
  induction Hcs as [|c cs Hc _ IH]; intros fuel Hf; [by destruct fuel|].
  pose proof (utf8_char_len_bound _ _ Hc) as [[? _] _]. cbn [concat] in *.
  rewrite length_app in Hf.
  pose proof (utf8_char_len_app c (concat cs) Hc) as Hlen.
  destruct c as [|b c]; [simpl in *; lia|]. destruct fuel as [|f]; [simpl in *; lia|].
  cbn [app utf8_chars_fuel] in *. rewrite Hlen.
  rewrite app_comm_cons, drop_app_length, take_app_length, IH; [done|].
  simpl in Hf. lia.
Qed.

Lemma utf8_chars_fuel_sound fuel l cs :
  utf8_chars_fuel fuel l = Some cs -> Forall is_char cs /\ concat cs = l.
Proof.
  revert l cs. induction fuel as [|f IH]; intros [|b l] cs H;
    cbn [utf8_chars_fuel] in H; simplify_eq; try done.
  destruct (utf8_char_len (b :: l)) as [n|] eqn:Hn; [|done].
  destruct (utf8_chars_fuel f (drop n (b :: l))) as [cs'|] eqn:Hr; [|done].
  simplify_eq. apply IH in Hr as [Hcs Hcat]. split.
  - constructor; [|done]. by apply is_char_take.
  - cbn [concat]. rewrite Hcat. apply take_drop.
Qed.

Lemma utf8_chars_sound l cs : utf8_chars l = Some cs -> Forall is_char cs /\ concat cs = l.
Proof. apply utf8_chars_fuel_sound. Qed.
Lemma utf8_chars_concat cs : Forall is_char cs -> utf8_chars (concat cs) = Some cs.
Proof. intros. by apply utf8_chars_fuel_concat. Qed.
Lemma utf8_valid_concat cs : Forall is_char cs -> utf8_valid (concat cs) = true.
Proof. intros. unfold utf8_valid. by rewrite utf8_chars_concat. Qed.

(** A prefix of [n] chars is at most [4 * n] bytes. *)
Lemma concat_chars_length cs :
  Forall is_char cs -> (length (concat cs) <= 4 * length cs)%nat.
Proof.
  induction 1 as [|c cs Hc _ IH]; [done|]. cbn [concat length]. rewrite length_app.
  apply utf8_char_len_bound in Hc. lia.
Qed.

(** ASCII text is valid UTF-8. *)
Lemma utf8_valid_ascii l : Forall (fun b => 0 <= b <= 127) l -> utf8_valid l = true.
Proof.
  intros H. assert (l = concat ((fun b => [b]) <$> l)) as ->.
  { clear H. induction l as [|b l IH]; [done|]. cbn. by f_equal. }
  apply utf8_valid_concat. apply Forall_fmap. eapply Forall_impl; [exact H|].
  intros b [Hlo Hhi]. unfold compose, is_char, utf8_char_len, in_range.
  rewrite (proj2 (Z.leb_le 0 b) Hlo), (proj2 (Z.leb_le b 127) Hhi). done.
Qed.
