(* ===== verification/CriticTypes.v ===== *)
(** The declarative critic vocabulary of kx-critic-types: check
    specifications, verdicts, and the byte stream a [CheckSpec] feeds to the
    hasher of the enclosing identity ([hash_into]). *)
From S2P Require Import Prelude.

Inductive TensorDTypeTag := F32 | F16 | BF16 | I64 | I32 | U8 | Bool.
#[export] Instance TensorDTypeTag_eq_dec : EqDecision TensorDTypeTag.
Proof. solve_decision. Defined.

Definition TensorDTypeTag_as_u8 (t : TensorDTypeTag) : Z :=
  match t with F32 => 0 | F16 => 1 | BF16 => 2 | I64 => 3 | I32 => 4 | U8 => 5 | Bool => 6 end.
Definition byte_width (t : TensorDTypeTag) : Z :=
  match t with F32 | I32 => 4 | F16 | BF16 => 2 | I64 => 8 | U8 | Bool => 1 end.

Module SchemaTag.
Inductive SchemaTag :=
| Blob | Text | Json
| Tensor (dtype : TensorDTypeTag) (shape : list Z)
| Vector (dim : Z)
| Image | Audio.
End SchemaTag.
Abbreviation SchemaTag := SchemaTag.SchemaTag.
#[export] Instance SchemaTag_eq_dec : EqDecision SchemaTag.
Proof. solve_decision. Defined.

Inductive StatKind := RecordCount | MeanScaled | MinScaled | MaxScaled.
#[export] Instance StatKind_eq_dec : EqDecision StatKind.
Proof. solve_decision. Defined.

Inductive PiiClass := Email | IpV4 | CreditCardLuhn | UsSsn.
#[export] Instance PiiClass_eq_dec : EqDecision PiiClass.
Proof. solve_decision. Defined.
Definition pii_tag (c : PiiClass) : Z :=
  match c with Email => 0 | IpV4 => 1 | CreditCardLuhn => 2 | UsSsn => 3 end.
Definition pii_of_tag (z : Z) : PiiClass :=
  if z =? 0 then Email else if z =? 1 then IpV4 else if z =? 2 then CreditCardLuhn else UsSsn.
#[export] Instance PiiClass_countable : Countable PiiClass.
Proof. refine (inj_countable' pii_tag pii_of_tag _). by intros []. Defined.
(** The declaration order, which is the derived [Ord]. *)
Definition all_pii : list PiiClass := [Email; IpV4; CreditCardLuhn; UsSsn].

Inductive CheckKind := KSchema | KDedup | KStatBounds | KPiiLeak | KLlmJudge.
#[export] Instance CheckKind_eq_dec : EqDecision CheckKind.
Proof. solve_decision. Defined.

Inductive RecordFraming := LinesLf | LengthPrefixedU32 | FixedWidth (width : Z).
#[export] Instance RecordFraming_eq_dec : EqDecision RecordFraming.
Proof. solve_decision. Defined.

Record SchemaSpec := { expected : SchemaTag }.
Record DedupSpec := { dedup_framing : RecordFraming; key_range : option (Z * Z) }.
Record StatBoundsSpec := {
  stat_framing : RecordFraming;
  stat : StatKind;
  scale : Z;
  lo_scaled : Z;
  hi_scaled : Z;
  numeric_field_range : option (Z * Z)
}.
Record PiiSpec := { forbidden : gset PiiClass }.
Record LlmJudgeSpec := { judge_max_output_tokens : Z }.
#[export] Instance SchemaSpec_eq_dec : EqDecision SchemaSpec.
Proof. solve_decision. Defined.
#[export] Instance DedupSpec_eq_dec : EqDecision DedupSpec.
Proof. solve_decision. Defined.
#[export] Instance StatBoundsSpec_eq_dec : EqDecision StatBoundsSpec.
Proof. solve_decision. Defined.
#[export] Instance PiiSpec_eq_dec : EqDecision PiiSpec.
Proof. solve_decision. Defined.
#[export] Instance LlmJudgeSpec_eq_dec : EqDecision LlmJudgeSpec.
Proof. solve_decision. Defined.

Module CheckSpec.
Inductive CheckSpec :=
| Schema (s : SchemaSpec)
| Dedup (s : DedupSpec)
| StatBounds (s : StatBoundsSpec)
| PiiLeak (s : PiiSpec)
| LlmJudge (s : LlmJudgeSpec).
End CheckSpec.
Abbreviation CheckSpec := CheckSpec.CheckSpec.
#[export] Instance CheckSpec_eq_dec : EqDecision CheckSpec.
Proof. solve_decision. Defined.

Definition CheckSpec_kind (c : CheckSpec) : CheckKind :=
  match c with
  | CheckSpec.Schema _ => KSchema
  | CheckSpec.Dedup _ => KDedup
  | CheckSpec.StatBounds _ => KStatBounds
  | CheckSpec.PiiLeak _ => KPiiLeak
  | CheckSpec.LlmJudge _ => KLlmJudge
  end.
Definition is_llm_judge (c : CheckSpec) : bool :=
  match c with CheckSpec.LlmJudge _ => true | _ => false end.

Inductive SchemaFault :=
| TagMismatch
| ShapeMismatch (expected_elems actual_bytes : Z)
| NotUtf8 (at_offset : Z)
| NotJson (at_offset : Z).

Module CriticReason.
Inductive CriticReason :=
| SchemaMismatch (expected : SchemaTag) (detail : SchemaFault)
| DuplicateDetected (duplicate_count first_duplicate_index : Z)
| StatOutOfBounds (stat : StatKind) (observed_scaled lo_scaled hi_scaled : Z)
| PiiLeak (class : PiiClass) (match_offset match_len : Z)
| Unparseable (check : CheckKind) (at_offset : Z)
| JudgeRejected (reason_code : Z).
End CriticReason.
Abbreviation CriticReason := CriticReason.CriticReason.

Inductive CriticVerdict := Valid | Invalid (reason : CriticReason).
Definition is_valid (v : CriticVerdict) : bool :=
  match v with Valid => true | Invalid _ => false end.

(** ** [hash_into]: the bytes given to the hasher, in order *)
Definition SchemaTag_hash_into (t : SchemaTag) : bytes :=
  match t with
  | SchemaTag.Blob => [0]
  | SchemaTag.Text => [1]
  | SchemaTag.Json => [2]
  | SchemaTag.Tensor dtype shape =>
      [3; TensorDTypeTag_as_u8 dtype] ++ to_le 8 (Z.of_nat (length shape))
        ++ concat (to_le 8 <$> shape)
  | SchemaTag.Vector dim => [4] ++ to_le 4 dim
  | SchemaTag.Image => [5]
  | SchemaTag.Audio => [6]
  end.

Definition RecordFraming_hash_into (f : RecordFraming) : bytes :=
  match f with
  | LinesLf => [0]
  | LengthPrefixedU32 => [1]
  | FixedWidth width => [2] ++ to_le 4 width
  end.

Definition hash_key_range (r : option (Z * Z)) : bytes :=
  match r with
  | None => [0]
  | Some (start, stop) => [1] ++ to_le 4 start ++ to_le 4 stop
  end.

Definition stat_tag (s : StatKind) : Z :=
  match s with RecordCount => 0 | MeanScaled => 1 | MinScaled => 2 | MaxScaled => 3 end.

(** [i64::to_le_bytes]: two's complement. *)
Definition i64_le (v : Z) : bytes := to_le 8 (v mod 2 ^ 64).

(** A [BTreeSet<PiiClass>] iterates in the derived order. *)
Definition pii_iter (s : gset PiiClass) : list PiiClass := filter (fun c => c ∈ s) all_pii.

Definition CheckSpec_hash_into (c : CheckSpec) : bytes :=
  match c with
  | CheckSpec.Schema s => [0] ++ SchemaTag_hash_into s.(expected)
  | CheckSpec.Dedup s =>
      [1] ++ RecordFraming_hash_into s.(dedup_framing) ++ hash_key_range s.(key_range)
  | CheckSpec.StatBounds s =>
      [2] ++ RecordFraming_hash_into s.(stat_framing) ++ [stat_tag s.(stat)]
        ++ to_le 4 s.(scale) ++ i64_le s.(lo_scaled) ++ i64_le s.(hi_scaled)
        ++ hash_key_range s.(numeric_field_range)
  | CheckSpec.PiiLeak s =>
      [3] ++ to_le 8 (Z.of_nat (size s.(forbidden)))
        ++ (pii_tag <$> pii_iter s.(forbidden))
  | CheckSpec.LlmJudge s => [4] ++ to_le 4 s.(judge_max_output_tokens)
  end.

(** ** Range invariants of the Rust types *)
Definition SchemaTag_ok (t : SchemaTag) : Prop :=
  match t with
  | SchemaTag.Tensor _ shape => Forall u64 shape /\ u64 (Z.of_nat (length shape))
  | SchemaTag.Vector dim => u32 dim
  | _ => True
  end.
Definition RecordFraming_ok (f : RecordFraming) : Prop :=
  match f with FixedWidth w => u32 w | _ => True end.
Definition range_ok (r : option (Z * Z)) : Prop :=
  match r with Some (a, b) => u32 a /\ u32 b | None => True end.
Definition i64 (v : Z) : Prop := - 2 ^ 63 <= v < 2 ^ 63.
Definition CheckSpec_ok (c : CheckSpec) : Prop :=
  match c with
  | CheckSpec.Schema s => SchemaTag_ok s.(expected)
  | CheckSpec.Dedup s => RecordFraming_ok s.(dedup_framing) /\ range_ok s.(key_range)
  | CheckSpec.StatBounds s =>
      RecordFraming_ok s.(stat_framing) /\ u32 s.(scale) /\ i64 s.(lo_scaled)
      /\ i64 s.(hi_scaled) /\ range_ok s.(numeric_field_range)
  | CheckSpec.PiiLeak _ => True
  | CheckSpec.LlmJudge s => u32 s.(judge_max_output_tokens)
  end.

(** ** The stream determines the specification *)
Lemma to_le_app_inj n v w r s :
  0 <= v < 256 ^ Z.of_nat n -> 0 <= w < 256 ^ Z.of_nat n ->
  to_le n v ++ r = to_le n w ++ s -> v = w /\ r = s.
Proof.
  intros Hv Hw H. apply app_inj_1 in H as [H ->]; [|by rewrite !length_to_le].
  apply (f_equal from_le) in H. by rewrite !from_to_le in H.
Qed.
Lemma i64_le_app_inj v w r s :
  i64 v -> i64 w -> i64_le v ++ r = i64_le w ++ s -> v = w /\ r = s.
Proof.
  unfold i64, i64_le. intros Hv Hw H.
  apply to_le_app_inj in H as [H ->]; [|apply Z.mod_pos_bound; lia..].
  split; [|done]. rewrite (Z.div_mod v (2 ^ 64)), (Z.div_mod w (2 ^ 64)), H by lia.
  assert (v / 2 ^ 64 = w / 2 ^ 64 \/ v / 2^64 <> w / 2^64) as [->|Hne] by lia; [done|].
  exfalso. pose proof (Z.div_mod v (2 ^ 64)). pose proof (Z.div_mod w (2 ^ 64)). lia.
Qed.

Lemma concat_le_inj n (l k : list Z) r s :
  Forall (fun v => 0 <= v < 256 ^ Z.of_nat n) l ->
  Forall (fun v => 0 <= v < 256 ^ Z.of_nat n) k ->
  length l = length k ->
  concat (to_le n <$> l) ++ r = concat (to_le n <$> k) ++ s -> l = k /\ r = s.
Proof.
  intros Hl. revert k. induction Hl as [|v l Hv _ IH]; intros [|w k] Hk Hlen H;
    simplify_eq/=; [done|].
  inversion_clear Hk as [|?? Hw Hk']. rewrite <- !app_assoc in H.
  apply to_le_app_inj in H as [-> H]; [|done..]. apply IH in H as [-> ->]; done.
Qed.

Lemma TensorDTypeTag_as_u8_inj d d' :
  TensorDTypeTag_as_u8 d = TensorDTypeTag_as_u8 d' -> d = d'.
Proof. by destruct d, d'. Qed.

Lemma SchemaTag_hash_into_inj t t' r s :
  SchemaTag_ok t -> SchemaTag_ok t' ->
  SchemaTag_hash_into t ++ r = SchemaTag_hash_into t' ++ s -> t = t' /\ r = s.
Proof.
  destruct t as [| | |d sh|dim| |], t' as [| | |d' sh'|dim'| |];
    intros Ht Ht' H; cbn [SchemaTag_hash_into app] in H; apply cons_eq_inj in H as [Hh H];
    try discriminate Hh; try (by subst).
  - destruct Ht as [Ht Hn], Ht' as [Ht' Hn']. rewrite <- !app_assoc in H.
    apply cons_eq_inj in H as [Hd H]. apply TensorDTypeTag_as_u8_inj in Hd as ->.
    apply to_le_app_inj in H as [Hl H]; [|done..].
    apply concat_le_inj in H as [-> ->]; [done..|lia].
  - by apply to_le_app_inj in H as [-> ->].
Qed.

Lemma RecordFraming_hash_into_inj f f' r s :
  RecordFraming_ok f -> RecordFraming_ok f' ->
  RecordFraming_hash_into f ++ r = RecordFraming_hash_into f' ++ s -> f = f' /\ r = s.
Proof.
  destruct f, f'; intros ? ? H; cbn [RecordFraming_hash_into app] in H;
    apply cons_eq_inj in H as [Hh H]; try discriminate Hh; try (by subst).
  by apply to_le_app_inj in H as [-> ->].
Qed.

Lemma hash_key_range_inj k k' r s :
  range_ok k -> range_ok k' ->
  hash_key_range k ++ r = hash_key_range k' ++ s -> k = k' /\ r = s.
Proof.
  destruct k as [[]|], k' as [[]|]; intros Hk Hk' H; cbn [hash_key_range app] in H;
    apply cons_eq_inj in H as [Hh H]; try discriminate Hh; try (by subst).
  destruct Hk, Hk'. rewrite <- !app_assoc in H.
  apply to_le_app_inj in H as [-> H]; [|done..]. by apply to_le_app_inj in H as [-> ->].
Qed.

Lemma stat_tag_inj a b : stat_tag a = stat_tag b -> a = b.
Proof. by destruct a, b. Qed.
#[export] Instance pii_tag_inj : Inj (=) (=) pii_tag.
Proof. by intros [] []. Qed.

Lemma elem_of_pii_iter s c : c ∈ pii_iter s <-> c ∈ s.
Proof.
  unfold pii_iter. rewrite list_elem_of_filter. split; [by intros []|].
  intros. split; [done|]. destruct c; set_solver.
Qed.

Lemma length_pii_iter f : length (pii_iter f) = size f.
Proof.
  rewrite <- (size_list_to_set (C := gset PiiClass) (pii_iter f)).
  - f_equal. apply set_eq. intros c. by rewrite elem_of_list_to_set, elem_of_pii_iter.
  - apply NoDup_filter. unfold all_pii. repeat constructor; set_solver.
Qed.
Lemma size_pii_bound f : 0 <= Z.of_nat (size (f : gset PiiClass)) < 256 ^ Z.of_nat 8.
Proof.
  assert (length (pii_iter f) <= length all_pii)%nat by apply length_filter.
  rewrite length_pii_iter in *. cbn in *. lia.
Qed.
Lemma PiiSpec_hash_into_inj (f f' : gset PiiClass) r s :
  to_le 8 (Z.of_nat (size f)) ++ (pii_tag <$> pii_iter f) ++ r
  = to_le 8 (Z.of_nat (size f')) ++ (pii_tag <$> pii_iter f') ++ s -> f = f' /\ r = s.
Proof.
  intros H. apply to_le_app_inj in H as [Hn H]; [|apply size_pii_bound..].
  apply app_inj_1 in H as [H ->]; [|rewrite !length_fmap, !length_pii_iter; lia].
  apply (inj (fmap pii_tag)) in H. split; [|done]. apply set_eq. intros x.
  by rewrite <- !elem_of_pii_iter, H.
Qed.

Lemma single_app_inj (x y : Z) l k : [x] ++ l = [y] ++ k -> x = y /\ l = k.
Proof. by intros [= -> ->]. Qed.

(** Identity discrimination: the bytes a check specification feeds to a
    hasher are self-delimiting. Whatever is hashed after it, two specifications
    (of in-range fields) that feed the same bytes are equal, and so is what
    follows them. *)
Theorem check_spec_stream_prefix_free c c' r r' :
  CheckSpec_ok c -> CheckSpec_ok c' ->
  CheckSpec_hash_into c ++ r = CheckSpec_hash_into c' ++ r' -> c = c' /\ r = r'.
Proof.
  destruct c as [[e]|[f k]|[f st sc lo hi k]|[fb]|[m]],
    c' as [[e']|[f' k']|[f' st' sc' lo' hi' k']|[fb']|[m']];
    intros Hc Hc' H; cbn in Hc, Hc'; cbn [CheckSpec_hash_into] in H; rewrite <- ?app_assoc in H;
    apply single_app_inj in H as [Hh H]; try discriminate Hh; clear Hh;
    cbn [expected dedup_framing key_range stat_framing stat scale lo_scaled hi_scaled
         numeric_field_range forbidden judge_max_output_tokens] in H.
  - by apply SchemaTag_hash_into_inj in H as [-> ->].
  - destruct Hc, Hc'. apply RecordFraming_hash_into_inj in H as [-> H]; [|done..].
    by apply hash_key_range_inj in H as [-> ->].
  - destruct Hc as (? & ? & ? & ? & ?), Hc' as (? & ? & ? & ? & ?).
    apply RecordFraming_hash_into_inj in H as [-> H]; [|done..].
    apply single_app_inj in H as [Hst H]. apply stat_tag_inj in Hst as ->.
    apply to_le_app_inj in H as [-> H]; [|done..].
    apply i64_le_app_inj in H as [-> H]; [|done..].
    apply i64_le_app_inj in H as [-> H]; [|done..].
    by apply hash_key_range_inj in H as [-> ->].
  - by apply PiiSpec_hash_into_inj in H as [-> ->].
  - by apply to_le_app_inj in H as [-> ->].
Qed.

Definition demo_check : CheckSpec := CheckSpec.PiiLeak {| forbidden := {[UsSsn; Email]} |}.
Lemma check_spec_stream_prefix_free_witness :
  CheckSpec_hash_into demo_check = [3; 2; 0; 0; 0; 0; 0; 0; 0; 0; 3]
  /\ demo_check = demo_check /\ [7] = [7].
Proof.
  split; [by vm_compute|].
  exact (check_spec_stream_prefix_free demo_check demo_check [7] [7] I I eq_refl).
Defined.
