(* ===== verification/Mote.v ===== *)
(** kx-mote: the identity substrate. Non-determinism classes, dependency edges,
    effect patterns, the per-attempt lifecycle, the definition and identity of
    a Mote, the author-side graph container and the context-item codec. *)
From S2P Require Import Prelude Utf8 CriticTypes.

(** ** External code: blake3 and bincode

    Both are third-party crates; a definition that calls them takes them as a
    class argument. What is used: a digest is 32 bytes, and the frozen bincode
    configuration decodes what it encodes. *)
Class Blake3 := {
  blake3 : bytes -> bytes;
  blake3_array : forall x, array_ok 32 (blake3 x)
}.
(** A concrete hash to evaluate the development on. *)
Definition demo_blake3 : Blake3.
Proof.
  refine {| blake3 := fun x => to_le 32 (from_le x) |}.
  intros x. split; [apply length_to_le|apply to_le_ok].
Defined.
Class Bincode (A : Type) := {
  bincode_encode : A -> bytes;
  bincode_decode : bytes -> option (A * nat);
  bincode_decode_encode : forall a,
    bincode_decode (bincode_encode a) = Some (a, length (bincode_encode a))
}.

Inductive NdClass := Pure | ReadOnlyNondet | WorldMutating.
#[export] Instance NdClass_eq_dec : EqDecision NdClass.
Proof. solve_decision. Defined.
Definition NdClass_as_u8 (n : NdClass) : Z :=
  match n with Pure => 0 | ReadOnlyNondet => 1 | WorldMutating => 2 end.

Inductive EffectPattern := IdempotentByConstruction | StageThenCommit | ValidateThenCommit.
#[export] Instance EffectPattern_eq_dec : EqDecision EffectPattern.
Proof. solve_decision. Defined.

(** ** Edges *)
Inductive EdgeKind := Data | Control.
#[export] Instance EdgeKind_eq_dec : EqDecision EdgeKind.
Proof. solve_decision. Defined.
Definition EdgeKind_as_u8 (k : EdgeKind) : Z := match k with Data => 0 | Control => 1 end.

Record EdgeMeta := { kind : EdgeKind; non_cascade : bool }.
#[export] Instance EdgeMeta_eq_dec : EqDecision EdgeMeta.
Proof. solve_decision. Defined.
Definition EdgeMeta_data : EdgeMeta := {| kind := Data; non_cascade := false |}.
Definition EdgeMeta_control : EdgeMeta := {| kind := Control; non_cascade := false |}.
Definition EdgeMeta_control_non_cascading : EdgeMeta :=
  {| kind := Control; non_cascade := true |}.
(** The rule the constructors uphold: a Data edge always cascades. *)
Definition EdgeMeta_ok (e : EdgeMeta) : bool :=
  negb (bool_decide (e.(kind) = Data) && e.(non_cascade)).

(** Identities are 32-byte strings. *)
Abbreviation MoteId := bytes.
Abbreviation ContentRef := bytes.
Record ParentRef := { parent_id : MoteId; edge : EdgeMeta }.
#[export] Instance ParentRef_eq_dec : EqDecision ParentRef.
Proof. solve_decision. Defined.

(** ** The per-attempt lifecycle *)
Module AttemptState.
Inductive AttemptState := Pending | Scheduled | Running | Committed | Failed | Repudiated.
End AttemptState.
Abbreviation AttemptState := AttemptState.AttemptState.
#[export] Instance AttemptState_eq_dec : EqDecision AttemptState.
Proof. solve_decision. Defined.

Record IllegalTransition := { from : AttemptState; to : AttemptState }.

Definition transition (f t : AttemptState) : outcome AttemptState IllegalTransition :=
  let legal :=
    match f, t with
    | AttemptState.Pending, AttemptState.Scheduled
    | AttemptState.Scheduled, AttemptState.Running
    | AttemptState.Running, AttemptState.Committed
    | AttemptState.Running, AttemptState.Failed
    | AttemptState.Committed, AttemptState.Repudiated => true
    | _, _ => false
    end in
  if legal then Ok t else Err {| from := f; to := t |}.
Definition is_legal_transition (f t : AttemptState) : bool := is_ok (transition f t).
Definition ALL_ATTEMPT_STATES : list AttemptState :=
  [AttemptState.Pending; AttemptState.Scheduled; AttemptState.Running;
   AttemptState.Committed; AttemptState.Failed; AttemptState.Repudiated].

(** ** Definitions and identity *)
Record InferenceParams := {
  max_output_tokens : Z;
  temperature_bps : Z;
  top_p_bps : Z;
  top_k : Z;
  seed : Z;
  stop_tokens : list bytes;
  grammar : option bytes
}.
Definition InferenceParams_default : InferenceParams := {|
  max_output_tokens := 512; temperature_bps := 0; top_p_bps := 10000; top_k := 0;
  seed := 0; stop_tokens := []; grammar := None |}.

Record MoteDef := {
  logic_ref : bytes;
  model_id : bytes;
  prompt_template_hash : bytes;
  tool_contract : gmap bytes bytes;
  nd_class : NdClass;
  config_subset : gmap bytes bytes;
  effect_pattern : EffectPattern;
  critic_for : option MoteId;
  is_topology_shaper : bool;
  inference_params : InferenceParams;
  critic_check : option CheckSpec;
  schema_version : Z
}.

Definition MoteDef_hash `{Blake3, Bincode MoteDef} (d : MoteDef) : bytes :=
  blake3 (bincode_encode d).
Definition MoteDef_decode `{Bincode MoteDef} (b : bytes) : option MoteDef :=
  fst <$> bincode_decode b.

(** The hasher is fed the definition hash, the input identity, the position. *)
Definition derive_mote_id `{Blake3} (mote_def_hash input_data_id graph_position : bytes) : MoteId :=
  blake3 (mote_def_hash ++ input_data_id ++ graph_position).

Record Mote := {
  mote_id : MoteId;
  def : MoteDef;
  input_data_id : bytes;
  graph_position : bytes;
  parents : list ParentRef
}.
Definition Mote_new `{Blake3, Bincode MoteDef} (d : MoteDef) (inp pos : bytes)
    (ps : list ParentRef) : Mote :=
  let def_hash := MoteDef_hash d in
  {| mote_id := derive_mote_id def_hash inp pos; def := d; input_data_id := inp;
     graph_position := pos; parents := ps |}.

Record MoteGraph := { nodes : gmap bytes Mote; edges : gmap bytes (list ParentRef) }.
Definition MoteGraph_new : MoteGraph := {| nodes := ∅; edges := ∅ |}.
Definition MoteGraph_insert (g : MoteGraph) (m : Mote) : MoteGraph :=
  {| nodes := <[mote_id m := m]> g.(nodes); edges := <[mote_id m := parents m]> g.(edges) |}.
Definition MoteGraph_parents_of (g : MoteGraph) (i : MoteId) : option (list ParentRef) :=
  g.(edges) !! i.

(** ** Topology decisions *)
Record ChildDescriptor := {
  role_id : bytes;
  child_logic_ref : bytes;
  child_nd_class : NdClass;
  child_effect_pattern : EffectPattern;
  intent : bytes
}.
Record TopologyDecision := { children : list ChildDescriptor }.
Definition TopologyDecision_encode `{Bincode TopologyDecision} (t : TopologyDecision) : bytes :=
  bincode_encode t.
Definition TopologyDecision_hash `{Blake3, Bincode TopologyDecision} (t : TopologyDecision) : bytes :=
  blake3 (bincode_encode t).
Definition TopologyDecision_decode `{Bincode TopologyDecision} (b : bytes)
    : option TopologyDecision :=
  fst <$> bincode_decode b.

(** ** Lifecycle lemmas *)
Definition attempt_step (f t : AttemptState) : Prop := transition f t = Ok t.

Lemma transition_ok_eq f t s : transition f t = Ok s -> s = t.
Proof. unfold transition. by destruct f, t; intros [=]. Qed.

(** An order no legal step decreases: the lifecycle has no cycle. *)
Definition attempt_rank (s : AttemptState) : nat :=
  match s with
  | AttemptState.Pending => 0 | AttemptState.Scheduled => 1 | AttemptState.Running => 2
  | AttemptState.Committed | AttemptState.Failed => 3 | AttemptState.Repudiated => 4
  end.
Lemma attempt_step_rank f t : attempt_step f t -> attempt_rank t = S (attempt_rank f).
Proof. unfold attempt_step, transition. by destruct f, t. Qed.

Lemma attempt_reachable_rank f t :
  rtc attempt_step f t -> f = t \/ (attempt_rank f < attempt_rank t)%nat.
Proof.
  induction 1 as [|x y z Hxy _ IH]; [by left|]. apply attempt_step_rank in Hxy.
  right. destruct IH as [->|]; lia.
Qed.
