(* ===== verification/ContextItems.v ===== *)
(** kx-mote's context-item codec (context_items.rs): the canonical, order
    independent encoding that enters a Mote's identity, its order preserving
    sibling, and the total decoder. *)
From S2P Require Import Prelude Utf8.

(** ** [String::from_utf8_lossy]

    Each maximal invalid sequence becomes U+FFFD. *)
Definition invalid_len (l : bytes) : nat :=
  match l with
  | b0 :: b1 :: r =>
      if second3 b0 b1 then 2%nat
      else if second4 b0 b1 then
        match r with b2 :: _ => if cont b2 then 3%nat else 2%nat | [] => 2%nat end
      else 1%nat
  | _ => 1%nat
  end.
Fixpoint from_utf8_lossy_fuel (fuel : nat) (l : bytes) : bytes :=
  match l, fuel with
  | [], _ | _, O => []
  | _ :: _, S f =>
      match utf8_char_len l with
      | Some n => take n l ++ from_utf8_lossy_fuel f (drop n l)
      | None => [239; 191; 189] ++ from_utf8_lossy_fuel f (drop (invalid_len l) l)
      end
  end.
Definition from_utf8_lossy (l : bytes) : bytes := from_utf8_lossy_fuel (length l) l.

Record ContextItemRef := { name : bytes; content_ref : bytes }.
#[export] Instance ContextItemRef_eq_dec : EqDecision ContextItemRef.
Proof. solve_decision. Defined.

(** [a.content_ref.cmp(&b.content_ref).then_with(|| a.name.cmp(&b.name))] *)
Definition item_le (a b : ContextItemRef) : Prop :=
  if decide (a.(content_ref) = b.(content_ref))
  then bytes_le a.(name) b.(name) = true
  else bytes_le a.(content_ref) b.(content_ref) = true.
#[export] Instance item_le_dec : RelDecision item_le.
Proof. intros a b. unfold item_le. case_decide; apply _. Defined.

(** [Vec::dedup_by]: drop an element equal to the last one kept. *)
Fixpoint dedup_from (prev : ContextItemRef) (l : list ContextItemRef) : list ContextItemRef :=
  match l with
  | [] => []
  | x :: l' =>
      if bool_decide (x.(content_ref) = prev.(content_ref))
         && bool_decide (x.(name) = prev.(name))
      then dedup_from prev l' else x :: dedup_from x l'
  end.
Definition dedup (l : list ContextItemRef) : list ContextItemRef :=
  match l with [] => [] | x :: l' => x :: dedup_from x l' end.

(** [u32::try_from(name.len()).unwrap_or(u32::MAX)] *)
Definition name_len_u32 (n : bytes) : Z :=
  let l := Z.of_nat (length n) in if l <? 2 ^ 32 then l else 2 ^ 32 - 1.
Definition encode_item (it : ContextItemRef) : bytes :=
  to_le 4 (name_len_u32 it.(name)) ++ it.(name) ++ it.(content_ref).

Definition encode_context_items_ordered (items : list ContextItemRef) : bytes :=
  concat (encode_item <$> items).
Definition encode_context_items (items : list ContextItemRef) : bytes :=
  concat (encode_item <$> dedup (merge_sort item_le items)).

(** The [while] loop; every round consumes at least 36 bytes. *)
Fixpoint decode_loop (fuel : nat) (b : bytes) (i : nat) : list ContextItemRef :=
  match fuel with
  | O => []
  | S f =>
      if (i + 4 <=? length b)%nat then
        let len := Z.to_nat (from_le (take 4 (drop i b))) in
        let i := (i + 4)%nat in
        if (length b <? i + len + 32)%nat then []
        else
          let nm := from_utf8_lossy (take len (drop i b)) in
          let i := (i + len)%nat in
          {| name := nm; content_ref := take 32 (drop i b) |} :: decode_loop f b (i + 32)
      else []
  end.
Definition decode_context_items (b : bytes) : list ContextItemRef :=
  decode_loop (length b) b 0.

(** ** Lemmas *)
Definition item_ok (it : ContextItemRef) : Prop :=
  utf8_valid it.(name) = true /\ Z.of_nat (length it.(name)) < 2 ^ 32
  /\ length it.(content_ref) = 32%nat.

#[export] Instance item_le_total : Total item_le.
Proof.
  intros a b. unfold item_le.
  destruct (decide (content_ref a = content_ref b)) as [e|n].
  - rewrite decide_True by done. apply bytes_le_total.
  - rewrite decide_False by congruence. apply bytes_le_total.
Qed.
#[export] Instance item_le_trans : Transitive item_le.
Proof.
  intros a b c. unfold item_le.
  destruct (decide (content_ref a = content_ref b)) as [e1|n1],
    (decide (content_ref b = content_ref c)) as [e2|n2]; intros H1 H2.
  - rewrite decide_True by congruence. by eapply bytes_le_trans.
  - rewrite decide_False by congruence. by rewrite e1.
  - rewrite decide_False by congruence. by rewrite <- e2.
  - case_decide as e3.
    + exfalso. apply n1. apply bytes_le_antisymm; [done|]. by rewrite e3.
    + by eapply bytes_le_trans.
Qed.
#[export] Instance item_le_antisymm : AntiSymm (=) item_le.
Proof.
  intros [na ra] [nb rb]. unfold item_le. cbn.
  destruct (decide (ra = rb)) as [->|n].
  - rewrite decide_True by done. intros. f_equal. by apply bytes_le_antisymm.
  - rewrite decide_False by congruence. intros H1 H2. destruct n. by apply bytes_le_antisymm.
Qed.

Lemma dedup_from_elem p l x : x ∈ p :: dedup_from p l <-> x ∈ p :: l.
Proof.
  revert p. induction l as [|y l IH]; intros p; [done|]. cbn [dedup_from].
  destruct (bool_decide_reflect (content_ref y = content_ref p)) as [Hr|];
    [destruct (bool_decide_reflect (name y = name p)) as [Hn|]|]; cbn [andb].
  - assert (y = p) as -> by (destruct y, p; cbn in *; congruence).
    rewrite IH, !elem_of_cons. tauto.
  - specialize (IH y). rewrite !elem_of_cons in *. tauto.
  - specialize (IH y). rewrite !elem_of_cons in *. tauto.
Qed.
Lemma dedup_elem l x : x ∈ dedup l <-> x ∈ l.
Proof. destruct l; [done|]. apply dedup_from_elem. Qed.

(** On a sorted list [dedup] removes every duplicate. *)
Lemma dedup_from_strict p l :
  StronglySorted item_le (p :: l) ->
  StronglySorted item_le (p :: dedup_from p l) /\ NoDup (p :: dedup_from p l).
Proof.
  revert p. induction l as [|y l IH]; intros p Hs.
  { split; [done|]. apply NoDup_singleton. }
  apply StronglySorted_inv in Hs as [Hs Hp]. rewrite Forall_forall in Hp.
  pose proof (IH _ Hs) as [Hxs Hxn]. cbn [dedup_from].
  destruct (bool_decide_reflect (content_ref y = content_ref p)) as [Hr|Hr];
    [destruct (bool_decide_reflect (name y = name p)) as [Hn|Hn]|]; cbn [andb].
  { assert (y = p) as -> by (destruct y, p; cbn in *; congruence). done. }
  all: split; [constructor; [done|]; apply Forall_forall; intros z Hz; apply Hp;
    by apply dedup_from_elem|].
  all: constructor; [|done]; intros Hin; rewrite dedup_from_elem in Hin; apply StronglySorted_inv in Hs as [_ Hy];
    rewrite Forall_forall in Hy; apply elem_of_cons in Hin as [->|Hin]; [done|];
    assert (p = y) as -> by (apply (anti_symm item_le); [apply Hp; by left|exact (Hy _ Hin)]); done.
Qed.
Lemma dedup_sorted l :
  StronglySorted item_le l -> StronglySorted item_le (dedup l) /\ NoDup (dedup l).
Proof.
  destruct l as [|p l]; [split; constructor|]. apply dedup_from_strict.
Qed.

Definition canonical (items : list ContextItemRef) : list ContextItemRef :=
  dedup (merge_sort item_le items).
Lemma canonical_sorted items :
  StronglySorted item_le (canonical items) /\ NoDup (canonical items).
Proof. apply dedup_sorted, StronglySorted_merge_sort; apply _. Qed.
Lemma elem_of_canonical items x : x ∈ canonical items <-> x ∈ items.
Proof. unfold canonical. by rewrite dedup_elem, (merge_sort_Permutation item_le). Qed.

(** The canonical list is a function of the set of items. *)
Lemma canonical_set_eq items items' :
  (forall x, x ∈ items <-> x ∈ items') -> canonical items = canonical items'.
Proof.
  intros Heq. destruct (canonical_sorted items) as [Hs Hn], (canonical_sorted items') as [Hs' Hn'].
  apply (StronglySorted_unique item_le); [done..|]. apply NoDup_Permutation; [done..|].
  intros x. by rewrite !elem_of_canonical.
Qed.

Lemma from_utf8_lossy_chars cs fuel :
  Forall is_char cs -> (length (concat cs) <= fuel)%nat ->
  from_utf8_lossy_fuel fuel (concat cs) = concat cs.
Proof.
  intros Hcs. revert fuel.
  induction Hcs as [|c cs Hc _ IH]; intros fuel Hf; [by destruct fuel|].
  pose proof (utf8_char_len_bound _ _ Hc) as [[? _] _]. cbn [concat] in *.
  rewrite length_app in Hf. pose proof (utf8_char_len_app c (concat cs) Hc) as Hlen.
  destruct c as [|b c]; [simpl in *; lia|]. destruct fuel as [|f]; [simpl in *; lia|].
  cbn [app from_utf8_lossy_fuel] in *. rewrite Hlen.
  rewrite app_comm_cons, drop_app_length, take_app_length, IH; [done|]. simpl in Hf. lia.
Qed.
Lemma from_utf8_lossy_valid l : utf8_valid l = true -> from_utf8_lossy l = l.
Proof.
  unfold utf8_valid. destruct (utf8_chars l) as [cs|] eqn:Hcs; [|done]. intros _.
  apply utf8_chars_sound in Hcs as [Hcs <-]. by apply from_utf8_lossy_chars.
Qed.

Lemma length_encode_item it :
  length (encode_item it) = (4 + length it.(name) + length it.(content_ref))%nat.
Proof. unfold encode_item. rewrite !length_app, length_to_le. lia. Qed.

(** One loop round reads one encoded item. *)
Lemma decode_loop_item fuel pre it rest :
  item_ok it ->
  decode_loop (S fuel) (pre ++ encode_item it ++ rest) (length pre)
  = it :: decode_loop fuel (pre ++ encode_item it ++ rest) (length pre + length (encode_item it)).
Proof.
  intros (Hu & Hl & Hr). cbn [decode_loop]. rewrite drop_app_length.
  set (b := pre ++ encode_item it ++ rest).
  assert (length b = (length pre + (4 + length (name it) + 32) + length rest)%nat) as Hlen.
  { subst b. rewrite !length_app, length_encode_item, Hr. lia. }
  assert (take 4 (encode_item it ++ rest) = to_le 4 (Z.of_nat (length (name it)))) as ->.
  { unfold encode_item, name_len_u32. rewrite (proj2 (Z.ltb_lt _ _) Hl), <- !app_assoc.
    by rewrite take_app_length' by by rewrite length_to_le. }
  rewrite from_to_le by (change (256 ^ Z.of_nat 4) with (2 ^ 32); lia). rewrite Nat2Z.id.
  destruct (Nat.leb_spec (length pre + 4) (length b)); [|lia].
  destruct (Nat.ltb_spec (length b) (length pre + 4 + length (name it) + 32)); [lia|].
  assert (drop (length pre + 4) b = name it ++ content_ref it ++ rest) as Hd.
  { subst b. rewrite <- drop_drop, drop_app_length. unfold encode_item.
    rewrite <- !app_assoc. by rewrite drop_app_length' by by rewrite length_to_le. }
  f_equal.
  - rewrite Hd, take_app_length, from_utf8_lossy_valid by done.
    rewrite <- (drop_drop b), Hd, drop_app_length, take_app_length' by done.
    by destruct it.
  - f_equal. rewrite length_encode_item, Hr. lia.
Qed.

Lemma decode_loop_ordered items pre fuel :
  Forall item_ok items -> (length items < fuel)%nat ->
  decode_loop fuel (pre ++ encode_context_items_ordered items) (length pre) = items.
Proof.
  intros Hok. revert pre fuel.
  induction Hok as [|it items Hit _ IH]; intros pre fuel Hf; destruct fuel as [|fuel]; try lia.
  - cbn [decode_loop]. unfold encode_context_items_ordered. cbn. rewrite app_nil_r.
    destruct (Nat.leb_spec (length pre + 4) (length pre)); [lia|done].
  - unfold encode_context_items_ordered in *. cbn [fmap list_fmap concat].
    rewrite decode_loop_item by done. f_equal.
    rewrite app_assoc, <- length_app. apply IH. cbn in Hf. lia.
Qed.

(** The order-preserving codec round-trips. *)
Lemma decode_encode_ordered items :
  Forall item_ok items -> decode_context_items (encode_context_items_ordered items) = items.
Proof.
  intros Hok. unfold decode_context_items. destruct items as [|it items]; [done|].
  apply (decode_loop_ordered (it :: items) []); [done|].
  assert (Hlen : forall l, Forall item_ok l -> (length l <= length (concat (encode_item <$> l)))%nat).
  { clear. induction 1 as [|x l (_ & _ & Hx) _ IH]; [done|]. cbn [fmap list_fmap concat length].
    rewrite length_app, length_encode_item, Hx. change (list_fmap _ _ encode_item l) with (encode_item <$> l). lia. }
  inversion_clear Hok as [|?? (_ & _ & Hx) Hl]. specialize (Hlen _ Hl).
  unfold encode_context_items_ordered. cbn [fmap list_fmap concat length].
  rewrite length_app, length_encode_item, Hx. change (list_fmap _ _ encode_item items) with (encode_item <$> items). lia.
Qed.

(** The identity-bearing encoding is a function of the SET of attached
    items, and decoding it gives exactly that set, duplicate free and in
    canonical order: neither the order nor the multiplicity in which items are
    attached can change the bytes, and no item is lost. *)
Theorem context_items_canonical (items items' : list ContextItemRef) :
  Forall item_ok items ->
  (forall x, x ∈ items <-> x ∈ items') ->
  encode_context_items items = encode_context_items items'
  /\ (forall x, x ∈ decode_context_items (encode_context_items items) <-> x ∈ items)
  /\ NoDup (decode_context_items (encode_context_items items))
  /\ StronglySorted item_le (decode_context_items (encode_context_items items)).
Proof.
  intros Hok Heq.
  assert (decode_context_items (encode_context_items items) = canonical items) as ->.
  { apply (decode_encode_ordered (canonical items)). apply Forall_forall. intros x Hx.
    rewrite elem_of_canonical in Hx. rewrite Forall_forall in Hok. by apply Hok. }
  destruct (canonical_sorted items) as [Hs Hn]. split; [|split; [|done]].
  - unfold encode_context_items. do 2 f_equal. by apply canonical_set_eq.
  - intros x. apply elem_of_canonical.
Qed.

Definition demo_item (tag : Z) (label : string) : ContextItemRef :=
  {| name := str label; content_ref := replicate 32 tag |}.
Lemma context_items_canonical_witness :
  encode_context_items [demo_item 34 "b"; demo_item 17 "a"; demo_item 34 "b"]
  = encode_context_items [demo_item 17 "a"; demo_item 34 "b"].
Proof.
  apply (context_items_canonical [demo_item 34 "b"; demo_item 17 "a"; demo_item 34 "b"]
           [demo_item 17 "a"; demo_item 34 "b"]).
  - repeat constructor.
  - intros x. set_solver.
Defined.
