(* ===== verification/Entry.v ===== *)
(** kx-journal's entry vocabulary (entry.rs): reason codes, branches, parents,
    the thirteen kinds of [JournalEntry] and their accessors. *)
From S2P Require Import Prelude Utf8 Mote.

Definition JOURNAL_SCHEMA_VERSION : Z := 18.
Definition HEADER_LEN : nat := 74.
Definition MAX_ENTRY_LEN : nat := 4500.
Definition MAX_PARENTS : nat := 128.
Definition MAX_RERANK_CANDIDATES : nat := 64.
Definition MAX_REPLAN_FAILED_STEPS : nat := 64.
Definition MAX_TOOL_BATCH_CALLS : nat := 20.
Definition MAX_FAILURE_DETAIL_LEN : nat := 512.
Definition APPROVAL_REQUEST_ID_LEN : nat := 16.
Definition INSTANCE_ID_LEN : nat := 16.
Definition KIND_PROPOSED : Z := 0.
Definition KIND_COMMITTED : Z := 1.
Definition KIND_REPUDIATED : Z := 2.
Definition KIND_FAILED : Z := 3.
Definition KIND_EFFECT_STAGED : Z := 4.
Definition KIND_RUN_REGISTERED : Z := 5.
Definition KIND_RUN_VERSIONS_RESOLVED : Z := 6.
Definition KIND_DIGEST_SEALED : Z := 7.
Definition KIND_REPLAN_ROUND : Z := 8.
Definition KIND_REACT_ROUND : Z := 9.
Definition KIND_APPROVAL : Z := 10.
Definition KIND_RERANK_ROUND : Z := 11.
Definition KIND_TIMER_ARMED : Z := 12.

(** ** Closed enumerations with their byte tags *)
Module ReactBranch.
Inductive ReactBranch :=
| Answer
| Tool (tool_id tool_version : bytes)
| DeadLettered
| Pending
| Rejected (reason : bytes)
| ToolBatch (calls : list (bytes * bytes)).
Definition as_u8 (b : ReactBranch) : Z :=
  match b with
  | Answer => 0 | Tool _ _ => 1 | DeadLettered => 2
  | Pending => 3 | Rejected _ => 4 | ToolBatch _ => 5
  end.
End ReactBranch.
Abbreviation ReactBranch := ReactBranch.ReactBranch.
#[export] Instance ReactBranch_eq_dec : EqDecision ReactBranch.
Proof. solve_decision. Defined.

Module ReRankOutcome.
Inductive ReRankOutcome :=
| Pending
| Reranked (permutation : list Z)
| FailedClosed.
Definition as_u8 (o : ReRankOutcome) : Z :=
  match o with Pending => 0 | Reranked _ => 1 | FailedClosed => 2 end.
End ReRankOutcome.
Abbreviation ReRankOutcome := ReRankOutcome.ReRankOutcome.
#[export] Instance ReRankOutcome_eq_dec : EqDecision ReRankOutcome.
Proof. solve_decision. Defined.

Module ResolvedKindTag.
Inductive ResolvedKindTag := Builtin | LocalScript | External | Mcp | SelfGenerated.
Definition as_u8 (t : ResolvedKindTag) : Z :=
  match t with Builtin => 0 | LocalScript => 1 | External => 2 | Mcp => 3 | SelfGenerated => 4 end.
Definition from_u8 (b : Z) : option ResolvedKindTag :=
  match b with
  | 0 => Some Builtin | 1 => Some LocalScript | 2 => Some External
  | 3 => Some Mcp | 4 => Some SelfGenerated | _ => None
  end.
End ResolvedKindTag.
Abbreviation ResolvedKindTag := ResolvedKindTag.ResolvedKindTag.
#[export] Instance ResolvedKindTag_eq_dec : EqDecision ResolvedKindTag.
Proof. solve_decision. Defined.

Module IdempotencyClassTag.
Inductive IdempotencyClassTag := Token | Readback | Staged | AtLeastOnce.
Definition as_u8 (t : IdempotencyClassTag) : Z :=
  match t with Token => 0 | Readback => 1 | Staged => 2 | AtLeastOnce => 3 end.
Definition from_u8 (b : Z) : option IdempotencyClassTag :=
  match b with
  | 0 => Some Token | 1 => Some Readback | 2 => Some Staged | 3 => Some AtLeastOnce | _ => None
  end.
End IdempotencyClassTag.
Abbreviation IdempotencyClassTag := IdempotencyClassTag.IdempotencyClassTag.
#[export] Instance IdempotencyClassTag_eq_dec : EqDecision IdempotencyClassTag.
Proof. solve_decision. Defined.

Module ApprovalState.
Inductive ApprovalState :=
| Requested (tool_id tool_version intent : bytes) (deadline_unix_ms created_unix_ms : Z)
| Granted (approver_id : Z) (reason : bytes) (decided_unix_ms : Z)
| Denied (approver_id : Z) (reason : bytes) (decided_unix_ms : Z)
| Expired (expired_unix_ms : Z).
Definition as_u8 (s : ApprovalState) : Z :=
  match s with
  | Requested _ _ _ _ _ => 0 | Granted _ _ _ => 1 | Denied _ _ _ => 2 | Expired _ => 3
  end.
Definition is_terminal_refusal (s : ApprovalState) : bool :=
  match s with Denied _ _ _ | Expired _ => true | _ => false end.
End ApprovalState.
Abbreviation ApprovalState := ApprovalState.ApprovalState.
#[export] Instance ApprovalState_eq_dec : EqDecision ApprovalState.
Proof. solve_decision. Defined.

Record ResolvedCapabilityRecord := {
  tool_id : bytes;
  tool_version : bytes;
  resolved_kind : ResolvedKindTag;
  resolved_def_hash : ContentRef;
  idempotency_class : IdempotencyClassTag
}.
#[export] Instance ResolvedCapabilityRecord_eq_dec : EqDecision ResolvedCapabilityRecord.
Proof. solve_decision. Defined.

Module RepudiationReason.
Inductive RepudiationReason :=
| OperatorAction | CriticInvalidated | DefinitionLevelRepudiation
| UpstreamCascade | SafetyInvariantBreach | ExternalSystemReportedFailure.
Definition as_u8 (r : RepudiationReason) : Z :=
  match r with
  | OperatorAction => 0 | CriticInvalidated => 1 | DefinitionLevelRepudiation => 2
  | UpstreamCascade => 3 | SafetyInvariantBreach => 4 | ExternalSystemReportedFailure => 5
  end.
Definition from_u8 (b : Z) : option RepudiationReason :=
  match b with
  | 0 => Some OperatorAction | 1 => Some CriticInvalidated
  | 2 => Some DefinitionLevelRepudiation | 3 => Some UpstreamCascade
  | 4 => Some SafetyInvariantBreach | 5 => Some ExternalSystemReportedFailure
  | _ => None
  end.
End RepudiationReason.
Abbreviation RepudiationReason := RepudiationReason.RepudiationReason.
#[export] Instance RepudiationReason_eq_dec : EqDecision RepudiationReason.
Proof. solve_decision. Defined.

Module FailureReason.
Inductive FailureReason :=
| TimedOut | ExecutorRefused | ValidatorRejected | WorkerCrashed | UpstreamRepudiated
| UnsafeWorldMutatingConstruction | CompensatedAtLeastOnce | QuarantinedAtLeastOnce
| DeadLettered.
Definition as_u8 (r : FailureReason) : Z :=
  match r with
  | TimedOut => 0 | ExecutorRefused => 1 | ValidatorRejected => 2 | WorkerCrashed => 3
  | UpstreamRepudiated => 4 | UnsafeWorldMutatingConstruction => 5
  | CompensatedAtLeastOnce => 6 | QuarantinedAtLeastOnce => 7 | DeadLettered => 8
  end.
Definition from_u8 (b : Z) : option FailureReason :=
  match b with
  | 0 => Some TimedOut | 1 => Some ExecutorRefused | 2 => Some ValidatorRejected
  | 3 => Some WorkerCrashed | 4 => Some UpstreamRepudiated
  | 5 => Some UnsafeWorldMutatingConstruction | 6 => Some CompensatedAtLeastOnce
  | 7 => Some QuarantinedAtLeastOnce | 8 => Some DeadLettered | _ => None
  end.
End FailureReason.
Abbreviation FailureReason := FailureReason.FailureReason.
#[export] Instance FailureReason_eq_dec : EqDecision FailureReason.
Proof. solve_decision. Defined.

Definition is_pre_commit_crash (r : FailureReason) : bool :=
  match r with FailureReason.TimedOut | FailureReason.WorkerCrashed => true | _ => false end.

(** [chars] of a string that is valid UTF-8 by its type. *)
Definition chars (s : bytes) : list bytes := default [] (utf8_chars s).
Definition bounded_failure_detail (detail : bytes) : bytes :=
  if (length (chars detail) <=? MAX_FAILURE_DETAIL_LEN)%nat then detail
  else concat (take MAX_FAILURE_DETAIL_LEN (chars detail)).

(** ** Parents as they are on disk *)
Module ParentEntry.
Record ParentEntry := { parent_id : MoteId; edge_kind : Z; non_cascade : Z }.
Definition ENCODED_LEN : nat := 34.
Definition from_parent_ref (p : ParentRef) : ParentEntry := {|
  parent_id := p.(Mote.parent_id);
  edge_kind := EdgeKind_as_u8 p.(edge).(kind);
  non_cascade := if p.(edge).(Mote.non_cascade) then 1 else 0 |}.
Definition to_parent_ref (p : ParentEntry) : option ParentRef :=
  let kind :=
    match p.(edge_kind) with 0 => Some Data | 1 => Some Control | _ => None end in
  match kind with
  | None => None
  | Some k =>
      if bool_decide (k = Data) && negb (p.(non_cascade) =? 0) then None
      else if 1 <? p.(non_cascade) then None
      else Some {| Mote.parent_id := p.(parent_id);
                   edge := {| kind := k; Mote.non_cascade := p.(non_cascade) =? 1 |} |}
  end.
End ParentEntry.
Abbreviation ParentEntry := ParentEntry.ParentEntry.
#[export] Instance ParentEntry_eq_dec : EqDecision ParentEntry.
Proof. solve_decision. Defined.

(** ** The journal entry *)
Module JournalEntry.
Inductive JournalEntry :=
| Proposed (mote_id : MoteId) (idempotency_key : bytes) (seq : Z)
    (nondeterminism : NdClass) (placement_hint : Z) (warrant_ref : ContentRef)
| Committed (mote_id : MoteId) (idempotency_key : bytes) (seq : Z)
    (nondeterminism : NdClass) (result_ref : ContentRef) (parents : list ParentEntry)
    (warrant_ref : ContentRef) (mote_def_hash : bytes)
| Repudiated (target_mote_id : MoteId) (idempotency_key : bytes) (seq : Z)
    (target_committed_seq : Z) (reason_class : RepudiationReason) (repudiator_id : Z)
| Failed (mote_id : MoteId) (idempotency_key : bytes) (seq : Z)
    (reason_class : FailureReason) (reporter_id : Z) (detail : bytes)
| EffectStaged (mote_id : MoteId) (idempotency_key : bytes) (seq : Z)
| RunRegistered (instance_id recipe_fingerprint : bytes) (ts seq : Z)
| RunVersionsResolved (instance_id : bytes) (warrant_ref : ContentRef) (model_id : bytes)
    (capability : option ResolvedCapabilityRecord) (seq : Z)
| DigestSealed (through_seq : Z) (state_digest : bytes) (seq : Z)
| ReplanRound (round : Z) (shaper_mote_id : MoteId)
    (base_prompt_ref corrected_prompt_ref warrant_ref : ContentRef) (model_id : bytes)
    (failed_steps : list MoteId) (escalation_reason_ref : option ContentRef) (seq : Z)
| ReactRound (turn : Z) (turn_mote_id : MoteId) (instance_id : bytes)
    (base_prompt_ref warrant_ref : ContentRef) (model_id : bytes) (branch : ReactBranch)
    (max_turns max_tool_calls : Z) (step_salt : option bytes) (is_agentic_launch : bool)
    (context_items_ref image_ref : option ContentRef) (require_approval : bool) (seq : Z)
| Approval (instance_id request_id : bytes) (awaiting_mote_id : MoteId)
    (state : ApprovalState) (seq : Z)
| ReRankRound (round : Z) (rerank_mote_id : MoteId) (instance_id : bytes)
    (base_results_ref query_ref warrant_ref : ContentRef) (model_id : bytes)
    (candidate_count : Z) (outcome : ReRankOutcome) (seq : Z)
| TimerArmed (instance_id : bytes) (subject_mote_id : MoteId) (purpose attempt : Z)
    (fire_at_unix_ms : Z) (anchor_ref : ContentRef) (seq : Z).
End JournalEntry.
Abbreviation JournalEntry := JournalEntry.JournalEntry.
Import JournalEntry.
#[export] Instance JournalEntry_eq_dec : EqDecision JournalEntry.
Proof. solve_decision. Defined.

Definition ZERO_IDEMPOTENCY_KEY : bytes := replicate 32 0.

Section Hashed.
Context `{Blake3}.

Definition run_root_id (instance_id : bytes) : MoteId := blake3 (str "kx-run-root" ++ instance_id).
Definition seal_root_id (through_seq : Z) : MoteId :=
  blake3 (str "kx-digest-seal-root" ++ to_le 8 through_seq).
Definition approval_request_id (instance_id awaiting_mote_id : bytes) : bytes :=
  take APPROVAL_REQUEST_ID_LEN (blake3 (str "kx-approval-req" ++ instance_id ++ awaiting_mote_id)).
Definition repudiation_idempotency_key (target_mote_id : MoteId) (target_committed_seq : Z) : bytes :=
  blake3 (str "repudiation" ++ target_mote_id ++ to_le 8 target_committed_seq).

Definition entry_mote_id (e : JournalEntry) : MoteId :=
  match e with
  | Proposed mote_id _ _ _ _ _ | Committed mote_id _ _ _ _ _ _ _
  | Failed mote_id _ _ _ _ _ | EffectStaged mote_id _ _ => mote_id
  | Repudiated target_mote_id _ _ _ _ _ => target_mote_id
  | RunRegistered instance_id _ _ _ | RunVersionsResolved instance_id _ _ _ _ =>
      run_root_id instance_id
  | DigestSealed through_seq _ _ => seal_root_id through_seq
  | ReplanRound _ shaper_mote_id _ _ _ _ _ _ _ => shaper_mote_id
  | ReactRound _ turn_mote_id _ _ _ _ _ _ _ _ _ _ _ _ _ => turn_mote_id
  | Approval _ _ awaiting_mote_id _ _ => awaiting_mote_id
  | ReRankRound _ rerank_mote_id _ _ _ _ _ _ _ _ => rerank_mote_id
  | TimerArmed _ subject_mote_id _ _ _ _ _ => subject_mote_id
  end.
End Hashed.

Definition entry_seq (e : JournalEntry) : Z :=
  match e with
  | Proposed _ _ seq _ _ _ | Committed _ _ seq _ _ _ _ _ | Repudiated _ _ seq _ _ _
  | Failed _ _ seq _ _ _ | EffectStaged _ _ seq | RunRegistered _ _ _ seq
  | RunVersionsResolved _ _ _ _ seq | DigestSealed _ _ seq
  | ReplanRound _ _ _ _ _ _ _ _ seq | ReactRound _ _ _ _ _ _ _ _ _ _ _ _ _ _ seq
  | Approval _ _ _ _ seq | ReRankRound _ _ _ _ _ _ _ _ _ seq
  | TimerArmed _ _ _ _ _ _ seq => seq
  end.

Definition entry_idempotency_key (e : JournalEntry) : bytes :=
  match e with
  | Proposed _ key _ _ _ _ | Committed _ key _ _ _ _ _ _ | Repudiated _ key _ _ _ _
  | Failed _ key _ _ _ _ | EffectStaged _ key _ => key
  | _ => ZERO_IDEMPOTENCY_KEY
  end.

Definition entry_kind (e : JournalEntry) : Z :=
  match e with
  | Proposed _ _ _ _ _ _ => KIND_PROPOSED
  | Committed _ _ _ _ _ _ _ _ => KIND_COMMITTED
  | Repudiated _ _ _ _ _ _ => KIND_REPUDIATED
  | Failed _ _ _ _ _ _ => KIND_FAILED
  | EffectStaged _ _ _ => KIND_EFFECT_STAGED
  | RunRegistered _ _ _ _ => KIND_RUN_REGISTERED
  | RunVersionsResolved _ _ _ _ _ => KIND_RUN_VERSIONS_RESOLVED
  | DigestSealed _ _ _ => KIND_DIGEST_SEALED
  | ReplanRound _ _ _ _ _ _ _ _ _ => KIND_REPLAN_ROUND
  | ReactRound _ _ _ _ _ _ _ _ _ _ _ _ _ _ _ => KIND_REACT_ROUND
  | Approval _ _ _ _ _ => KIND_APPROVAL
  | ReRankRound _ _ _ _ _ _ _ _ _ _ => KIND_RERANK_ROUND
  | TimerArmed _ _ _ _ _ _ _ => KIND_TIMER_ARMED
  end.

(** ** Errors *)
Module DecodeError.
Inductive DecodeError :=
| HeaderTooShort (got : nat)
| BodyTooShort (kind : Z) (got expected : nat)
| TooLarge (got : nat)
| UnknownKind (b : Z)
| UnknownNdClass (b : Z)
| UnknownReason (b : Z)
| UnknownEdgeKind (b : Z)
| DataEdgeNonCascade
| NonBooleanNonCascade (b : Z)
| RepudiatedHeaderMismatch
| RunRegisteredHeaderMismatch
| RunVersionsHeaderMismatch
| DigestSealedHeaderMismatch
| UnknownResolvedKind (b : Z)
| UnknownIdempotencyClass (b : Z)
| NonBooleanHasCap (b : Z)
| RunVersionsInvalidUtf8
| ReplanRoundTooManyFailedSteps (got : nat)
| NonBooleanHasEscalation (b : Z)
| UnknownReactBranch (b : Z)
| ReactRoundTooManyBatchCalls (got : nat)
| UnknownReRankOutcome (b : Z)
| ReRankRoundTooManyCandidates (got : nat)
| UnknownReactAgenticLaunchTag (b : Z)
| UnknownReactContextItemsTag (b : Z)
| UnknownReactImageRefTag (b : Z)
| UnknownReactStepSaltTag (b : Z)
| UnknownReactRequireApprovalTag (b : Z)
| UnknownApprovalStateTag (b : Z)
| TrailingBytes (n : nat).
End DecodeError.
Abbreviation DecodeError := DecodeError.DecodeError.

Module EncodeError.
Inductive EncodeError :=
| TooManyParents (got : nat)
| DataEdgeNonCascade
| RunVersionsFieldTooLong (got : nat)
| RunVersionsTooLarge (got : nat)
| ReplanRoundTooManyFailedSteps (got : nat)
| ReplanRoundTooLarge (got : nat)
| ReactRoundTooLarge (got : nat)
| ReRankRoundTooLarge (got : nat).
End EncodeError.
Abbreviation EncodeError := EncodeError.EncodeError.

(** ** Tag round trips *)
Lemma resolved_kind_from_as t : ResolvedKindTag.from_u8 (ResolvedKindTag.as_u8 t) = Some t.
Proof. by destruct t. Qed.
Lemma idempotency_class_from_as t :
  IdempotencyClassTag.from_u8 (IdempotencyClassTag.as_u8 t) = Some t.
Proof. by destruct t. Qed.
Lemma repudiation_reason_from_as t : RepudiationReason.from_u8 (RepudiationReason.as_u8 t) = Some t.
Proof. by destruct t. Qed.
Lemma failure_reason_from_as t : FailureReason.from_u8 (FailureReason.as_u8 t) = Some t.
Proof. by destruct t. Qed.

(** A parent edge that obeys the Data-cascades rule survives the disk form. *)
Lemma parent_ref_roundtrip p :
  EdgeMeta_ok p.(edge) = true ->
  ParentEntry.to_parent_ref (ParentEntry.from_parent_ref p) = Some p.
Proof. by destruct p as [i [[] []]]. Qed.

(** ** The truncated failure detail *)
Lemma bounded_failure_detail_valid d :
  utf8_valid d = true ->
  utf8_valid (bounded_failure_detail d) = true
  /\ (length (bounded_failure_detail d) <= 4 * MAX_FAILURE_DETAIL_LEN)%nat
  /\ bounded_failure_detail d `prefix_of` d.
Proof.
  unfold utf8_valid, bounded_failure_detail, chars.
  destruct (utf8_chars d) as [cs|] eqn:Hcs; [|done]. intros _.
  apply utf8_chars_sound in Hcs as [Hcs <-]. cbn [from_option id].
  destruct (Nat.leb_spec (length cs) MAX_FAILURE_DETAIL_LEN) as [Hle|Hgt].
  - rewrite utf8_chars_concat by done. split; [done|]. split; [|done].
    pose proof (concat_chars_length cs Hcs). unfold MAX_FAILURE_DETAIL_LEN in *. lia.
  - assert (Forall is_char (take MAX_FAILURE_DETAIL_LEN cs)) as Ht by by apply Forall_take.
    rewrite utf8_chars_concat by done. split; [done|]. split.
    + pose proof (concat_chars_length _ Ht) as Hl. rewrite length_take in Hl. lia.
    + rewrite <- (take_drop MAX_FAILURE_DETAIL_LEN cs) at 2. rewrite concat_app. by eexists.
Qed.
