(* ===== verification/EntryEncode.v ===== *)
(** kx-journal's [encode_entry]: the 74-byte header followed by a body per
    kind. Each arm of the body match is a definition that extends the output
    buffer [out], with the arm's guards in the order of the code. *)
From S2P Require Import Prelude Utf8 Mote Entry.
Import JournalEntry.

Definition push_len_prefixed_str (out s : bytes) : outcome bytes EncodeError :=
  let len := Z.of_nat (length s) in
  if len <? 2 ^ 16 then Ok (out ++ to_le 2 len ++ s)
  else Err (EncodeError.RunVersionsFieldTooLong (length s)).

(** [u16::try_from(n).expect("checked above")]. *)
Definition u16_expect (n : nat) : outcome Z EncodeError :=
  if Z.of_nat n <? 2 ^ 16 then Ok (Z.of_nat n) else Panic.

Definition push_opt32 (out : bytes) (r : option bytes) : bytes :=
  match r with
  | None => out ++ [0]
  | Some r => out ++ [1] ++ r
  end.
Definition u8_from_bool (b : bool) : Z := if b then 1 else 0.

Definition encode_proposed (out : bytes) (placement_hint : Z) (warrant_ref : bytes)
    : outcome bytes EncodeError :=
  Ok (out ++ to_le 16 placement_hint ++ warrant_ref).

Fixpoint encode_parents (out : bytes) (ps : list ParentEntry) : outcome bytes EncodeError :=
  match ps with
  | [] => Ok out
  | p :: ps =>
      if (p.(ParentEntry.edge_kind) =? 0) && negb (p.(ParentEntry.non_cascade) =? 0)
      then Err EncodeError.DataEdgeNonCascade
      else encode_parents
             (out ++ p.(ParentEntry.parent_id)
                  ++ [p.(ParentEntry.edge_kind)] ++ [p.(ParentEntry.non_cascade)]) ps
  end.
Definition encode_committed (out result_ref : bytes) (parents : list ParentEntry)
    (warrant_ref : bytes) : outcome bytes EncodeError :=
  if (MAX_PARENTS <? length parents)%nat then Err (EncodeError.TooManyParents (length parents))
  else
    let out := out ++ result_ref ++ warrant_ref in
    let* count := u16_expect (length parents) in
    encode_parents (out ++ to_le 2 count) parents.

Definition encode_repudiated (out target_mote_id : bytes) (target_committed_seq : Z)
    (reason_class : RepudiationReason) (repudiator_id : Z) : outcome bytes EncodeError :=
  Ok (out ++ target_mote_id ++ to_le 8 target_committed_seq
        ++ [RepudiationReason.as_u8 reason_class] ++ to_le 16 repudiator_id).

Definition encode_failed (out : bytes) (reason_class : FailureReason) (reporter_id : Z)
    (detail : bytes) : outcome bytes EncodeError :=
  push_len_prefixed_str (out ++ [FailureReason.as_u8 reason_class] ++ to_le 16 reporter_id) detail.

Definition encode_run_registered (out instance_id recipe_fingerprint : bytes) (ts : Z)
    : outcome bytes EncodeError :=
  Ok (out ++ instance_id ++ recipe_fingerprint ++ to_le 8 ts).

Definition encode_run_versions (out instance_id warrant_ref model_id : bytes)
    (capability : option ResolvedCapabilityRecord) : outcome bytes EncodeError :=
  let* out := push_len_prefixed_str (out ++ instance_id ++ warrant_ref) model_id in
  let* out :=
    match capability with
    | None => Ok (out ++ [0])
    | Some cap =>
        let* out := push_len_prefixed_str (out ++ [1]) cap.(tool_id) in
        let* out := push_len_prefixed_str out cap.(tool_version) in
        Ok (out ++ [ResolvedKindTag.as_u8 cap.(resolved_kind)] ++ cap.(resolved_def_hash)
              ++ [IdempotencyClassTag.as_u8 cap.(idempotency_class)])
    end in
  if (MAX_ENTRY_LEN <? length out)%nat then Err (EncodeError.RunVersionsTooLarge (length out))
  else Ok out.

Definition encode_digest_sealed (out : bytes) (through_seq : Z) (state_digest : bytes)
    : outcome bytes EncodeError :=
  Ok (out ++ to_le 8 through_seq ++ state_digest).

Definition encode_replan_round (out : bytes) (round : Z)
    (base_prompt_ref corrected_prompt_ref warrant_ref model_id : bytes)
    (failed_steps : list MoteId) (escalation_reason_ref : option bytes)
    : outcome bytes EncodeError :=
  if (MAX_REPLAN_FAILED_STEPS <? length failed_steps)%nat
  then Err (EncodeError.ReplanRoundTooManyFailedSteps (length failed_steps))
  else
    let out := out ++ to_le 4 round ++ base_prompt_ref ++ corrected_prompt_ref ++ warrant_ref in
    let* out := push_len_prefixed_str out model_id in
    let* count := u16_expect (length failed_steps) in
    let out := out ++ to_le 2 count ++ concat failed_steps in
    let out := push_opt32 out escalation_reason_ref in
    if (MAX_ENTRY_LEN <? length out)%nat then Err (EncodeError.ReplanRoundTooLarge (length out))
    else Ok out.

Fixpoint encode_calls (out : bytes) (calls : list (bytes * bytes)) : outcome bytes EncodeError :=
  match calls with
  | [] => Ok out
  | (tool_id, tool_version) :: calls =>
      let* out := push_len_prefixed_str out tool_id in
      let* out := push_len_prefixed_str out tool_version in
      encode_calls out calls
  end.
Definition encode_react_branch (out : bytes) (branch : ReactBranch) : outcome bytes EncodeError :=
  match branch with
  | ReactBranch.Tool tool_id tool_version =>
      let* out := push_len_prefixed_str out tool_id in
      push_len_prefixed_str out tool_version
  | ReactBranch.Rejected reason => push_len_prefixed_str out reason
  | ReactBranch.ToolBatch calls =>
      if Z.of_nat (length calls) <? 2 ^ 16
      then encode_calls (out ++ to_le 2 (Z.of_nat (length calls))) calls
      else Err (EncodeError.ReactRoundTooLarge (length calls))
  | ReactBranch.Answer | ReactBranch.DeadLettered | ReactBranch.Pending => Ok out
  end.
Definition encode_react_round (out : bytes) (turn : Z)
    (instance_id base_prompt_ref warrant_ref model_id : bytes) (branch : ReactBranch)
    (max_turns max_tool_calls : Z) (step_salt : option bytes) (is_agentic_launch : bool)
    (context_items_ref image_ref : option bytes) (require_approval : bool)
    : outcome bytes EncodeError :=
  let out := out ++ to_le 4 turn ++ instance_id ++ base_prompt_ref ++ warrant_ref in
  let* out := push_len_prefixed_str out model_id in
  let* out := encode_react_branch (out ++ [ReactBranch.as_u8 branch]) branch in
  let out := out ++ to_le 4 max_turns ++ to_le 4 max_tool_calls in
  let out := push_opt32 out step_salt in
  let out := out ++ [u8_from_bool is_agentic_launch] in
  let out := push_opt32 out context_items_ref in
  let out := push_opt32 out image_ref in
  let out := out ++ [u8_from_bool require_approval] in
  if (MAX_ENTRY_LEN <? length out)%nat then Err (EncodeError.ReactRoundTooLarge (length out))
  else Ok out.

Definition encode_rerank_round (out : bytes) (round : Z)
    (instance_id base_results_ref query_ref warrant_ref model_id : bytes)
    (candidate_count : Z) (oc : ReRankOutcome) : outcome bytes EncodeError :=
  let out := out ++ to_le 4 round ++ instance_id ++ base_results_ref ++ query_ref ++ warrant_ref in
  let* out := push_len_prefixed_str out model_id in
  let out := out ++ to_le 4 candidate_count ++ [ReRankOutcome.as_u8 oc] in
  let* out :=
    match oc with
    | ReRankOutcome.Reranked permutation =>
        if (MAX_RERANK_CANDIDATES <? length permutation)%nat
        then Err (EncodeError.ReRankRoundTooLarge (length permutation))
        else if Z.of_nat (length permutation) <? 2 ^ 16
        then Ok (out ++ to_le 2 (Z.of_nat (length permutation)) ++ concat (to_le 4 <$> permutation))
        else Err (EncodeError.ReRankRoundTooLarge (length permutation))
    | _ => Ok out
    end in
  if (MAX_ENTRY_LEN <? length out)%nat then Err (EncodeError.ReRankRoundTooLarge (length out))
  else Ok out.

Definition encode_timer_armed (out instance_id : bytes) (purpose attempt fire_at_unix_ms : Z)
    (anchor_ref : bytes) : outcome bytes EncodeError :=
  Ok (out ++ instance_id ++ [purpose] ++ to_le 4 attempt ++ to_le 8 fire_at_unix_ms ++ anchor_ref).

Definition encode_approval_state (out : bytes) (state : ApprovalState) : outcome bytes EncodeError :=
  match state with
  | ApprovalState.Requested tool_id tool_version intent deadline_unix_ms created_unix_ms =>
      let* out := push_len_prefixed_str out tool_id in
      let* out := push_len_prefixed_str out tool_version in
      let* out := push_len_prefixed_str out intent in
      Ok (out ++ to_le 8 deadline_unix_ms ++ to_le 8 created_unix_ms)
  | ApprovalState.Granted approver_id reason decided_unix_ms
  | ApprovalState.Denied approver_id reason decided_unix_ms =>
      let* out := push_len_prefixed_str (out ++ to_le 8 approver_id) reason in
      Ok (out ++ to_le 8 decided_unix_ms)
  | ApprovalState.Expired expired_unix_ms => Ok (out ++ to_le 8 expired_unix_ms)
  end.
Definition encode_approval (out instance_id request_id : bytes) (state : ApprovalState)
    : outcome bytes EncodeError :=
  let* out := encode_approval_state
                (out ++ instance_id ++ request_id ++ [ApprovalState.as_u8 state]) state in
  if (MAX_ENTRY_LEN <? length out)%nat then Err (EncodeError.ReactRoundTooLarge (length out))
  else Ok out.

Section Encode.
Context `{Blake3}.

(** The four header slots after the kind byte. *)
Definition header_slots (e : JournalEntry) : bytes * bytes * Z * Z :=
  match e with
  | Proposed mote_id key seq nd _ _ | Committed mote_id key seq nd _ _ _ _ =>
      (mote_id, key, seq, NdClass_as_u8 nd)
  | Repudiated target_mote_id key seq _ _ _ => (target_mote_id, key, seq, 0)
  | Failed mote_id key seq _ _ _ | EffectStaged mote_id key seq => (mote_id, key, seq, 0)
  | RunRegistered instance_id _ _ seq | RunVersionsResolved instance_id _ _ _ seq =>
      (run_root_id instance_id, ZERO_IDEMPOTENCY_KEY, seq, 0)
  | DigestSealed through_seq _ seq => (seal_root_id through_seq, ZERO_IDEMPOTENCY_KEY, seq, 0)
  | ReplanRound _ shaper_mote_id _ _ _ _ _ _ seq =>
      (shaper_mote_id, ZERO_IDEMPOTENCY_KEY, seq, 0)
  | ReactRound _ turn_mote_id _ _ _ _ _ _ _ _ _ _ _ _ seq =>
      (turn_mote_id, ZERO_IDEMPOTENCY_KEY, seq, 0)
  | Approval _ _ awaiting_mote_id _ seq => (awaiting_mote_id, ZERO_IDEMPOTENCY_KEY, seq, 0)
  | ReRankRound _ rerank_mote_id _ _ _ _ _ _ _ seq =>
      (rerank_mote_id, ZERO_IDEMPOTENCY_KEY, seq, 0)
  | TimerArmed _ subject_mote_id _ _ _ _ seq => (subject_mote_id, ZERO_IDEMPOTENCY_KEY, seq, 0)
  end.
Definition encode_header (e : JournalEntry) : bytes :=
  let '(mote_id_for_header, idempotency_key, seq, nd_byte) := header_slots e in
  [entry_kind e] ++ mote_id_for_header ++ idempotency_key ++ to_le 8 seq ++ [nd_byte].

Definition encode_entry (e : JournalEntry) : outcome bytes EncodeError :=
  let out := encode_header e in
  match e with
  | Proposed _ _ _ _ placement_hint warrant_ref => encode_proposed out placement_hint warrant_ref
  | Committed _ _ _ _ result_ref parents warrant_ref _ =>
      encode_committed out result_ref parents warrant_ref
  | Repudiated target_mote_id _ _ target_committed_seq reason_class repudiator_id =>
      encode_repudiated out target_mote_id target_committed_seq reason_class repudiator_id
  | Failed _ _ _ reason_class reporter_id detail =>
      encode_failed out reason_class reporter_id detail
  | EffectStaged _ _ _ => Ok out
  | RunRegistered instance_id recipe_fingerprint ts _ =>
      encode_run_registered out instance_id recipe_fingerprint ts
  | RunVersionsResolved instance_id warrant_ref model_id capability _ =>
      encode_run_versions out instance_id warrant_ref model_id capability
  | DigestSealed through_seq state_digest _ => encode_digest_sealed out through_seq state_digest
  | ReplanRound round _ base_prompt_ref corrected_prompt_ref warrant_ref model_id
      failed_steps escalation_reason_ref _ =>
      encode_replan_round out round base_prompt_ref corrected_prompt_ref warrant_ref model_id
        failed_steps escalation_reason_ref
  | ReactRound turn _ instance_id base_prompt_ref warrant_ref model_id branch max_turns
      max_tool_calls step_salt is_agentic_launch context_items_ref image_ref require_approval _ =>
      encode_react_round out turn instance_id base_prompt_ref warrant_ref model_id branch
        max_turns max_tool_calls step_salt is_agentic_launch context_items_ref image_ref
        require_approval
  | ReRankRound round _ instance_id base_results_ref query_ref warrant_ref model_id
      candidate_count oc _ =>
      encode_rerank_round out round instance_id base_results_ref query_ref warrant_ref model_id
        candidate_count oc
  | TimerArmed instance_id _ purpose attempt fire_at_unix_ms anchor_ref _ =>
      encode_timer_armed out instance_id purpose attempt fire_at_unix_ms anchor_ref
  | Approval instance_id request_id _ state _ => encode_approval out instance_id request_id state
  end.
End Encode.

(** ** Panic freedom of the encoder *)
Lemma no_panic_push_str out s : no_panic (push_len_prefixed_str out s).
Proof. unfold push_len_prefixed_str. case_match; auto with outcome. Qed.
Lemma no_panic_encode_parents out ps : no_panic (encode_parents out ps).
Proof.
  revert out. induction ps as [|p ps IH]; intros out; cbn; [auto with outcome|].
  case_match; auto with outcome.
Qed.
Lemma no_panic_encode_calls out cs : no_panic (encode_calls out cs).
Proof.
  revert out. induction cs as [|[a b] cs IH]; intros out; cbn [encode_calls]; [auto with outcome|].
  apply no_panic_bind; [apply no_panic_push_str|]. intros o1 _.
  apply no_panic_bind; [apply no_panic_push_str|]. intros o2 _. apply IH.
Qed.
#[export] Hint Resolve no_panic_push_str no_panic_encode_parents no_panic_encode_calls : outcome.

(** Split a [no_panic] goal along binds, conditionals and matches. *)
Ltac no_panic_step :=
  first
    [ solve [auto with outcome]
    | apply no_panic_bind; [|let a := fresh "a" in let E := fresh "Ea" in intros a E]
    | apply no_panic_if; intros ?
    | case_match ].
Ltac no_panic_solve := repeat no_panic_step.

Lemma no_panic_encode_entry `{Blake3} e : no_panic (encode_entry e).
Proof.
  destruct e; cbn [encode_entry];
    unfold encode_proposed, encode_repudiated, encode_failed, encode_run_registered,
      encode_run_versions, encode_digest_sealed, encode_react_round, encode_react_branch,
      encode_rerank_round, encode_timer_armed, encode_approval, encode_approval_state;
    no_panic_solve.
  all: unfold MAX_PARENTS, MAX_REPLAN_FAILED_STEPS in *;
    rewrite ?Nat.ltb_ge, ?Z.ltb_ge in *; lia.
Qed.
