(* ===== verification/EntryDecode.v ===== *)
(** kx-journal's [decode_entry_with_def_hash]: the bounds-checked cursor reads,
    one definition per arm of the kind match, and the proof that no input makes
    the decoder panic. *)
From S2P Require Import Prelude Utf8 Mote Entry EntryEncode.
Import JournalEntry.

Definition decoded (A : Type) : Type := outcome A DecodeError.
Definition too_short {A} (kind : Z) (body : bytes) (expected : nat) : decoded A :=
  Err (DecodeError.BodyTooShort kind (length body) expected).

(** ** Cursor reads: the value and the advanced cursor *)
Definition read_u8 (body : bytes) (cursor : nat) (kind : Z) : decoded (Z * nat) :=
  if (length body <? cursor + 1)%nat then too_short kind body (cursor + 1)
  else let* b := index body cursor in Ok (b, (cursor + 1)%nat).
Definition read_u16 (body : bytes) (cursor : nat) (kind : Z) : decoded (Z * nat) :=
  if (length body <? cursor + 2)%nat then too_short kind body (cursor + 2)
  else let* s := slice body cursor (cursor + 2) in Ok (from_le s, (cursor + 2)%nat).
Definition read_u32 (body : bytes) (cursor : nat) (kind : Z) : decoded (Z * nat) :=
  if (length body <? cursor + 4)%nat then too_short kind body (cursor + 4)
  else let* s := slice body cursor (cursor + 4) in Ok (from_le s, (cursor + 4)%nat).
Definition read_u64 (body : bytes) (cursor : nat) (kind : Z) : decoded (Z * nat) :=
  if (length body <? cursor + 8)%nat then too_short kind body (cursor + 8)
  else let* s := slice body cursor (cursor + 8) in Ok (from_le s, (cursor + 8)%nat).
Definition read_array32 (body : bytes) (cursor : nat) (kind : Z) : decoded (bytes * nat) :=
  if (length body <? cursor + 32)%nat then too_short kind body (cursor + 32)
  else let* s := slice body cursor (cursor + 32) in Ok (s, (cursor + 32)%nat).
Definition read_len_prefixed_str (body : bytes) (cursor : nat) (kind : Z) : decoded (bytes * nat) :=
  if (length body <? cursor + 2)%nat then too_short kind body (cursor + 2)
  else
    let* l := slice body cursor (cursor + 2) in
    let len := Z.to_nat (from_le l) in
    let cursor := (cursor + 2)%nat in
    if (length body <? cursor + len)%nat then too_short kind body (cursor + len)
    else
      let* s := slice body cursor (cursor + len) in
      if utf8_valid s then Ok (s, (cursor + len)%nat)
      else Err DecodeError.RunVersionsInvalidUtf8.

(** [for _ in 0..n { xs.push(read(..)?) }] *)
Fixpoint read_many {A} (read : nat -> decoded (A * nat)) (n cursor : nat) : decoded (list A * nat) :=
  match n with
  | O => Ok ([], cursor)
  | S n =>
      let* (x, cursor) := read cursor in
      let* (xs, cursor) := read_many read n cursor in
      Ok (x :: xs, cursor)
  end.

Definition nd_class_from_byte (b : Z) : decoded NdClass :=
  match b with
  | 0 => Ok Pure | 1 => Ok ReadOnlyNondet | 2 => Ok WorldMutating
  | _ => Err (DecodeError.UnknownNdClass b)
  end.

(** The end-of-body fence of the cursor-based arms. *)
Definition finish {A} (body : bytes) (cursor : nat) (a : A) : decoded A :=
  if (cursor =? length body)%nat then Ok a
  else Err (DecodeError.TrailingBytes (length body - cursor)).

(** ** The arms *)
Definition decode_proposed (mote_id key : bytes) (seq nd_byte : Z) (body : bytes)
    : decoded JournalEntry :=
  if (length body <? 48)%nat then too_short KIND_PROPOSED body 48
  else
    let* nondeterminism := nd_class_from_byte nd_byte in
    let* ph := slice body 0 16 in
    let* warrant_ref := slice body 16 48 in
    if (48 <? length body)%nat then Err (DecodeError.TrailingBytes (length body - 48))
    else Ok (Proposed mote_id key seq nondeterminism (from_le ph) warrant_ref).

Definition COMMITTED_PREFIX_LEN : nat := 66.
Definition decode_parent (body : bytes) (base : nat) : decoded ParentEntry :=
  let* pid := slice body base (base + 32) in
  let* edge_kind := index body (base + 32) in
  let* non_cascade := index body (base + 33) in
  if 1 <? edge_kind then Err (DecodeError.UnknownEdgeKind edge_kind)
  else if (edge_kind =? 0) && negb (non_cascade =? 0) then Err DecodeError.DataEdgeNonCascade
  else if 1 <? non_cascade then Err (DecodeError.NonBooleanNonCascade non_cascade)
  else Ok {| ParentEntry.parent_id := pid; ParentEntry.edge_kind := edge_kind;
             ParentEntry.non_cascade := non_cascade |}.
(** [for i in i0..i0+n]. *)
Fixpoint decode_parents (body : bytes) (n i : nat) : decoded (list ParentEntry) :=
  match n with
  | O => Ok []
  | S n =>
      let* p := decode_parent body (COMMITTED_PREFIX_LEN + i * ParentEntry.ENCODED_LEN) in
      let* ps := decode_parents body n (S i) in
      Ok (p :: ps)
  end.
Definition decode_committed (mote_id key : bytes) (seq nd_byte : Z) (body mote_def_hash : bytes)
    : decoded JournalEntry :=
  if (length body <? COMMITTED_PREFIX_LEN)%nat
  then too_short KIND_COMMITTED body COMMITTED_PREFIX_LEN
  else
    let* nondeterminism := nd_class_from_byte nd_byte in
    let* result_ref := slice body 0 32 in
    let* warrant_ref := slice body 32 64 in
    let* nb := slice body 64 66 in
    let n := Z.to_nat (from_le nb) in
    let expected_parents_len := (COMMITTED_PREFIX_LEN + n * ParentEntry.ENCODED_LEN)%nat in
    if (length body <? expected_parents_len)%nat
    then too_short KIND_COMMITTED body expected_parents_len
    else if (expected_parents_len <? length body)%nat
    then Err (DecodeError.TrailingBytes (length body - expected_parents_len))
    else
      let* parents := decode_parents body n 0 in
      Ok (Committed mote_id key seq nondeterminism result_ref parents warrant_ref mote_def_hash).

Definition decode_repudiated (mote_id key : bytes) (seq : Z) (body : bytes) : decoded JournalEntry :=
  if negb (length body =? 57)%nat then too_short KIND_REPUDIATED body 57
  else
    let* target_mote_id := slice body 0 32 in
    if negb (bool_decide (target_mote_id = mote_id)) then Err DecodeError.RepudiatedHeaderMismatch
    else
      let* tcs := slice body 32 40 in
      let* rb := index body 40 in
      let* reason_class := ok_or (RepudiationReason.from_u8 rb) (DecodeError.UnknownReason rb) in
      let* rid := slice body 41 57 in
      Ok (Repudiated target_mote_id key seq (from_le tcs) reason_class (from_le rid)).

Definition FAILED_PREFIX_LEN : nat := 17.
Definition decode_failed (mote_id key : bytes) (seq : Z) (body : bytes) : decoded JournalEntry :=
  if (length body <? FAILED_PREFIX_LEN)%nat then too_short KIND_FAILED body FAILED_PREFIX_LEN
  else
    let* rb := index body 0 in
    let* reason_class := ok_or (FailureReason.from_u8 rb) (DecodeError.UnknownReason rb) in
    let* rid := slice body 1 17 in
    let cursor := FAILED_PREFIX_LEN in
    let* (detail, cursor) :=
      if (cursor <? length body)%nat then read_len_prefixed_str body cursor KIND_FAILED
      else Ok ([], cursor) in
    finish body cursor (Failed mote_id key seq reason_class (from_le rid) detail).

Definition decode_effect_staged (mote_id key : bytes) (seq : Z) (body : bytes)
    : decoded JournalEntry :=
  if negb (length body =? 0)%nat then Err (DecodeError.TrailingBytes (length body))
  else Ok (EffectStaged mote_id key seq).

Definition RUN_REGISTERED_BODY_LEN : nat := INSTANCE_ID_LEN + 32 + 8.
Definition DIGEST_SEALED_BODY_LEN : nat := 8 + 32.
Definition REPLAN_ROUND_PREFIX_LEN : nat := 4 + 32 + 32 + 32 + 2 + 2.
Definition REACT_ROUND_PREFIX_LEN : nat := 4 + INSTANCE_ID_LEN + 32 + 32 + 2.
Definition RERANK_ROUND_PREFIX_LEN : nat := 4 + INSTANCE_ID_LEN + 32 + 32 + 32 + 2.
Definition APPROVAL_PREFIX_LEN : nat := INSTANCE_ID_LEN + APPROVAL_REQUEST_ID_LEN + 1.
Definition TIMER_ARMED_BODY_LEN : nat := INSTANCE_ID_LEN + 1 + 4 + 8 + 32.

Section Decode.
Context `{Blake3}.

Definition decode_run_registered (mote_id : bytes) (seq : Z) (body : bytes) : decoded JournalEntry :=
  if negb (length body =? RUN_REGISTERED_BODY_LEN)%nat
  then too_short KIND_RUN_REGISTERED body RUN_REGISTERED_BODY_LEN
  else
    let* instance_id := slice body 0 INSTANCE_ID_LEN in
    if negb (bool_decide (mote_id = run_root_id instance_id))
    then Err DecodeError.RunRegisteredHeaderMismatch
    else
      let* recipe_fingerprint := slice body INSTANCE_ID_LEN (INSTANCE_ID_LEN + 32) in
      let* ts := slice body (INSTANCE_ID_LEN + 32) RUN_REGISTERED_BODY_LEN in
      Ok (RunRegistered instance_id recipe_fingerprint (from_le ts) seq).

Definition decode_run_versions (mote_id : bytes) (seq : Z) (body : bytes) : decoded JournalEntry :=
  let kind := KIND_RUN_VERSIONS_RESOLVED in
  let PREFIX_LEN := (INSTANCE_ID_LEN + 32)%nat in
  if (length body <? PREFIX_LEN + 2 + 1)%nat then too_short kind body (PREFIX_LEN + 2 + 1)
  else
    let* instance_id := slice body 0 INSTANCE_ID_LEN in
    if negb (bool_decide (mote_id = run_root_id instance_id))
    then Err DecodeError.RunVersionsHeaderMismatch
    else
      let* warrant_ref := slice body INSTANCE_ID_LEN PREFIX_LEN in
      let* (model_id, cursor) := read_len_prefixed_str body PREFIX_LEN kind in
      let* (has_cap, cursor) := read_u8 body cursor kind in
      let* (capability, cursor) :=
        if has_cap =? 0 then Ok (None, cursor)
        else if has_cap =? 1 then
          let* (tool_id, cursor) := read_len_prefixed_str body cursor kind in
          let* (tool_version, cursor) := read_len_prefixed_str body cursor kind in
          let* (tag_byte, cursor) := read_u8 body cursor kind in
          let* resolved_kind :=
            ok_or (ResolvedKindTag.from_u8 tag_byte) (DecodeError.UnknownResolvedKind tag_byte) in
          let* (def_hash, cursor) := read_array32 body cursor kind in
          let* (class_byte, cursor) := read_u8 body cursor kind in
          let* idempotency_class :=
            ok_or (IdempotencyClassTag.from_u8 class_byte)
              (DecodeError.UnknownIdempotencyClass class_byte) in
          Ok (Some {| tool_id := tool_id; tool_version := tool_version;
                      resolved_kind := resolved_kind; resolved_def_hash := def_hash;
                      idempotency_class := idempotency_class |}, cursor)
        else Err (DecodeError.NonBooleanHasCap has_cap) in
      finish body cursor (RunVersionsResolved instance_id warrant_ref model_id capability seq).

Definition decode_digest_sealed (mote_id : bytes) (seq : Z) (body : bytes) : decoded JournalEntry :=
  if negb (length body =? DIGEST_SEALED_BODY_LEN)%nat
  then too_short KIND_DIGEST_SEALED body DIGEST_SEALED_BODY_LEN
  else
    let* ts := slice body 0 8 in
    let through_seq := from_le ts in
    if negb (bool_decide (mote_id = seal_root_id through_seq))
    then Err DecodeError.DigestSealedHeaderMismatch
    else
      let* state_digest := slice body 8 DIGEST_SEALED_BODY_LEN in
      Ok (DigestSealed through_seq state_digest seq).
End Decode.

(** [present(0|1) ‖ [if 1: 32 bytes]], with the arm's own error for other tags. *)
Definition read_opt32 (bad : Z -> DecodeError) (body : bytes) (cursor : nat) (kind : Z)
    : decoded (option bytes * nat) :=
  let* (tag, cursor) := read_u8 body cursor kind in
  if tag =? 0 then Ok (None, cursor)
  else if tag =? 1 then
    let* (r, cursor) := read_array32 body cursor kind in Ok (Some r, cursor)
  else Err (bad tag).
Definition read_bool (bad : Z -> DecodeError) (body : bytes) (cursor : nat) (kind : Z)
    : decoded (bool * nat) :=
  let* (tag, cursor) := read_u8 body cursor kind in
  if tag =? 0 then Ok (false, cursor)
  else if tag =? 1 then Ok (true, cursor)
  else Err (bad tag).
(** A trailing field absent from older bodies: [if cursor < body.len()]. *)
Definition or_absent {A} (body : bytes) (cursor : nat) (absent : A)
    (read : decoded (A * nat)) : decoded (A * nat) :=
  if (cursor <? length body)%nat then read else Ok (absent, cursor).

Definition decode_replan_round (mote_id : bytes) (seq : Z) (body : bytes) : decoded JournalEntry :=
  let kind := KIND_REPLAN_ROUND in
  if (length body <? REPLAN_ROUND_PREFIX_LEN)%nat then too_short kind body REPLAN_ROUND_PREFIX_LEN
  else
    let* rb := slice body 0 4 in
    let* (base_prompt_ref, cursor) := read_array32 body 4 kind in
    let* (corrected_prompt_ref, cursor) := read_array32 body cursor kind in
    let* (warrant_ref, cursor) := read_array32 body cursor kind in
    let* (model_id, cursor) := read_len_prefixed_str body cursor kind in
    let* (fc, cursor) := read_u16 body cursor kind in
    let failed_count := Z.to_nat fc in
    if (MAX_REPLAN_FAILED_STEPS <? failed_count)%nat
    then Err (DecodeError.ReplanRoundTooManyFailedSteps failed_count)
    else
      let* (failed_steps, cursor) :=
        read_many (fun c => read_array32 body c kind) failed_count cursor in
      let* (escalation_reason_ref, cursor) :=
        read_opt32 DecodeError.NonBooleanHasEscalation body cursor kind in
      finish body cursor
        (ReplanRound (from_le rb) mote_id base_prompt_ref corrected_prompt_ref warrant_ref
           model_id failed_steps escalation_reason_ref seq).

Definition read_call (body : bytes) (cursor : nat) (kind : Z) : decoded ((bytes * bytes) * nat) :=
  let* (tool_id, cursor) := read_len_prefixed_str body cursor kind in
  let* (tool_version, cursor) := read_len_prefixed_str body cursor kind in
  Ok ((tool_id, tool_version), cursor).
Definition decode_react_branch (body : bytes) (cursor : nat) (kind : Z)
    : decoded (ReactBranch * nat) :=
  let* (tag, cursor) := read_u8 body cursor kind in
  if tag =? 0 then Ok (ReactBranch.Answer, cursor)
  else if tag =? 1 then
    let* ((tool_id, tool_version), cursor) := read_call body cursor kind in
    Ok (ReactBranch.Tool tool_id tool_version, cursor)
  else if tag =? 2 then Ok (ReactBranch.DeadLettered, cursor)
  else if tag =? 3 then Ok (ReactBranch.Pending, cursor)
  else if tag =? 4 then
    let* (reason, cursor) := read_len_prefixed_str body cursor kind in
    Ok (ReactBranch.Rejected reason, cursor)
  else if tag =? 5 then
    let* (c, cursor) := read_u16 body cursor kind in
    let count := Z.to_nat c in
    if (MAX_TOOL_BATCH_CALLS <? count)%nat
    then Err (DecodeError.ReactRoundTooManyBatchCalls count)
    else
      let* (calls, cursor) := read_many (fun c => read_call body c kind) count cursor in
      Ok (ReactBranch.ToolBatch calls, cursor)
  else Err (DecodeError.UnknownReactBranch tag).
Definition decode_react_round (mote_id : bytes) (seq : Z) (body : bytes) : decoded JournalEntry :=
  let kind := KIND_REACT_ROUND in
  if (length body <? REACT_ROUND_PREFIX_LEN)%nat then too_short kind body REACT_ROUND_PREFIX_LEN
  else
    let* tb := slice body 0 4 in
    let* instance_id := slice body 4 (4 + INSTANCE_ID_LEN) in
    let cursor := (4 + INSTANCE_ID_LEN)%nat in
    let* (base_prompt_ref, cursor) := read_array32 body cursor kind in
    let* (warrant_ref, cursor) := read_array32 body cursor kind in
    let* (model_id, cursor) := read_len_prefixed_str body cursor kind in
    let* (branch, cursor) := decode_react_branch body cursor kind in
    let* (max_turns, cursor) := read_u32 body cursor kind in
    let* (max_tool_calls, cursor) := read_u32 body cursor kind in
    let* (step_salt, cursor) := read_opt32 DecodeError.UnknownReactStepSaltTag body cursor kind in
    let* (is_agentic_launch, cursor) :=
      or_absent body cursor (bool_decide (is_Some step_salt))
        (read_bool DecodeError.UnknownReactAgenticLaunchTag body cursor kind) in
    let* (context_items_ref, cursor) :=
      or_absent body cursor None
        (read_opt32 DecodeError.UnknownReactContextItemsTag body cursor kind) in
    let* (image_ref, cursor) :=
      or_absent body cursor None
        (read_opt32 DecodeError.UnknownReactImageRefTag body cursor kind) in
    let* (require_approval, cursor) :=
      or_absent body cursor false
        (read_bool DecodeError.UnknownReactRequireApprovalTag body cursor kind) in
    finish body cursor
      (ReactRound (from_le tb) mote_id instance_id base_prompt_ref warrant_ref model_id branch
         max_turns max_tool_calls step_salt is_agentic_launch context_items_ref image_ref
         require_approval seq).

Definition decode_rerank_outcome (body : bytes) (cursor : nat) (kind : Z)
    : decoded (ReRankOutcome * nat) :=
  let* (outcome_tag, cursor) := read_u8 body cursor kind in
  if outcome_tag =? 0 then Ok (ReRankOutcome.Pending, cursor)
  else if outcome_tag =? 1 then
    let* (pc, cursor) := read_u16 body cursor kind in
    let perm_count := Z.to_nat pc in
    if (MAX_RERANK_CANDIDATES <? perm_count)%nat
    then Err (DecodeError.ReRankRoundTooManyCandidates perm_count)
    else
      let* (permutation, cursor) := read_many (fun c => read_u32 body c kind) perm_count cursor in
      Ok (ReRankOutcome.Reranked permutation, cursor)
  else if outcome_tag =? 2 then Ok (ReRankOutcome.FailedClosed, cursor)
  else Err (DecodeError.UnknownReRankOutcome outcome_tag).
Definition decode_rerank_round (mote_id : bytes) (seq : Z) (body : bytes) : decoded JournalEntry :=
  let kind := KIND_RERANK_ROUND in
  if (length body <? RERANK_ROUND_PREFIX_LEN)%nat then too_short kind body RERANK_ROUND_PREFIX_LEN
  else
    let* rb := slice body 0 4 in
    let* instance_id := slice body 4 (4 + INSTANCE_ID_LEN) in
    let cursor := (4 + INSTANCE_ID_LEN)%nat in
    let* (base_results_ref, cursor) := read_array32 body cursor kind in
    let* (query_ref, cursor) := read_array32 body cursor kind in
    let* (warrant_ref, cursor) := read_array32 body cursor kind in
    let* (model_id, cursor) := read_len_prefixed_str body cursor kind in
    let* (candidate_count, cursor) := read_u32 body cursor kind in
    let* (oc, cursor) := decode_rerank_outcome body cursor kind in
    finish body cursor
      (ReRankRound (from_le rb) mote_id instance_id base_results_ref query_ref warrant_ref
         model_id candidate_count oc seq).

Definition decode_approval_state (body : bytes) (cursor : nat) (kind : Z)
    : decoded (ApprovalState * nat) :=
  let* (tag, cursor) := read_u8 body cursor kind in
  if tag =? 0 then
    let* (tool_id, cursor) := read_len_prefixed_str body cursor kind in
    let* (tool_version, cursor) := read_len_prefixed_str body cursor kind in
    let* (intent, cursor) := read_len_prefixed_str body cursor kind in
    let* (deadline_unix_ms, cursor) := read_u64 body cursor kind in
    let* (created_unix_ms, cursor) := read_u64 body cursor kind in
    Ok (ApprovalState.Requested tool_id tool_version intent deadline_unix_ms created_unix_ms, cursor)
  else if (tag =? 1) || (tag =? 2) then
    let* (approver_id, cursor) := read_u64 body cursor kind in
    let* (reason, cursor) := read_len_prefixed_str body cursor kind in
    let* (decided_unix_ms, cursor) := read_u64 body cursor kind in
    Ok (if tag =? 1 then ApprovalState.Granted approver_id reason decided_unix_ms
        else ApprovalState.Denied approver_id reason decided_unix_ms, cursor)
  else if tag =? 3 then
    let* (expired_unix_ms, cursor) := read_u64 body cursor kind in
    Ok (ApprovalState.Expired expired_unix_ms, cursor)
  else Err (DecodeError.UnknownApprovalStateTag tag).
Definition decode_approval (mote_id : bytes) (seq : Z) (body : bytes) : decoded JournalEntry :=
  let kind := KIND_APPROVAL in
  if (length body <? APPROVAL_PREFIX_LEN)%nat then too_short kind body APPROVAL_PREFIX_LEN
  else
    let* instance_id := slice body 0 INSTANCE_ID_LEN in
    let* request_id := slice body INSTANCE_ID_LEN (INSTANCE_ID_LEN + APPROVAL_REQUEST_ID_LEN) in
    let cursor := (INSTANCE_ID_LEN + APPROVAL_REQUEST_ID_LEN)%nat in
    let* (state, cursor) := decode_approval_state body cursor kind in
    finish body cursor (Approval instance_id request_id mote_id state seq).

Definition decode_timer_armed (mote_id : bytes) (seq : Z) (body : bytes) : decoded JournalEntry :=
  let kind := KIND_TIMER_ARMED in
  if negb (length body =? TIMER_ARMED_BODY_LEN)%nat
  then too_short kind body TIMER_ARMED_BODY_LEN
  else
    let* instance_id := slice body 0 INSTANCE_ID_LEN in
    let cursor := INSTANCE_ID_LEN in
    let* (purpose, cursor) := read_u8 body cursor kind in
    if 1 <? purpose then Err (DecodeError.UnknownKind kind)
    else
      let* (attempt, cursor) := read_u32 body cursor kind in
      let* (fire_at_unix_ms, cursor) := read_u64 body cursor kind in
      let* (anchor_ref, cursor) := read_array32 body cursor kind in
      Ok (TimerArmed instance_id mote_id purpose attempt fire_at_unix_ms anchor_ref seq).

(** ** The decoder *)
Section Decoder.
Context `{Blake3}.

Definition decode_body (kind : Z) (mote_id idempotency_key : bytes) (seq nd_byte : Z)
    (body mote_def_hash : bytes) : decoded JournalEntry :=
  if kind =? KIND_PROPOSED then decode_proposed mote_id idempotency_key seq nd_byte body
  else if kind =? KIND_COMMITTED
  then decode_committed mote_id idempotency_key seq nd_byte body mote_def_hash
  else if kind =? KIND_REPUDIATED then decode_repudiated mote_id idempotency_key seq body
  else if kind =? KIND_FAILED then decode_failed mote_id idempotency_key seq body
  else if kind =? KIND_EFFECT_STAGED then decode_effect_staged mote_id idempotency_key seq body
  else if kind =? KIND_RUN_REGISTERED then decode_run_registered mote_id seq body
  else if kind =? KIND_RUN_VERSIONS_RESOLVED then decode_run_versions mote_id seq body
  else if kind =? KIND_DIGEST_SEALED then decode_digest_sealed mote_id seq body
  else if kind =? KIND_REPLAN_ROUND then decode_replan_round mote_id seq body
  else if kind =? KIND_REACT_ROUND then decode_react_round mote_id seq body
  else if kind =? KIND_RERANK_ROUND then decode_rerank_round mote_id seq body
  else if kind =? KIND_APPROVAL then decode_approval mote_id seq body
  else if kind =? KIND_TIMER_ARMED then decode_timer_armed mote_id seq body
  else Err (DecodeError.UnknownKind kind).

Definition decode_entry_with_def_hash (b mote_def_hash : bytes) : decoded JournalEntry :=
  if (MAX_ENTRY_LEN <? length b)%nat then Err (DecodeError.TooLarge (length b))
  else if (length b <? HEADER_LEN)%nat then Err (DecodeError.HeaderTooShort (length b))
  else
    let* kind := index b 0 in
    let* mote_id := slice b 1 33 in
    let* idempotency_key := slice b 33 65 in
    let* sb := slice b 65 73 in
    let seq := from_le sb in
    let* nd_byte := index b 73 in
    let* body := slice b HEADER_LEN (length b) in
    decode_body kind mote_id idempotency_key seq nd_byte body mote_def_hash.
Definition decode_entry (b : bytes) : decoded JournalEntry :=
  decode_entry_with_def_hash b (replicate 32 0).
End Decoder.

(** ** Panic freedom

    Every slice and index the decoder performs is covered by a length check. *)
Ltac bool_arith :=
  repeat match goal with
  | H : (_ <? _)%nat = false |- _ => apply Nat.ltb_ge in H
  | H : (_ <? _)%nat = true |- _ => apply Nat.ltb_lt in H
  | H : negb _ = false |- _ => apply negb_false_iff in H
  | H : (_ =? _)%nat = true |- _ => apply Nat.eqb_eq in H
  end.
Ltac decode_arith :=
  bool_arith;
  unfold HEADER_LEN, FAILED_PREFIX_LEN, RUN_REGISTERED_BODY_LEN, DIGEST_SEALED_BODY_LEN,
    REPLAN_ROUND_PREFIX_LEN, REACT_ROUND_PREFIX_LEN, RERANK_ROUND_PREFIX_LEN, APPROVAL_PREFIX_LEN,
    TIMER_ARMED_BODY_LEN, COMMITTED_PREFIX_LEN, APPROVAL_REQUEST_ID_LEN, INSTANCE_ID_LEN,
    ParentEntry.ENCODED_LEN in *; lia.

#[export] Hint Extern 1 (no_panic (slice _ _ _)) =>
  apply no_panic_slice; decode_arith : outcome.
#[export] Hint Extern 1 (no_panic (index _ _)) =>
  apply no_panic_index; decode_arith : outcome.

Lemma no_panic_too_short {A} k body n : no_panic (@too_short A k body n).
Proof. apply no_panic_err. Qed.
#[export] Hint Resolve no_panic_too_short : outcome.
Lemma no_panic_read_u8 body c k : no_panic (read_u8 body c k).
Proof. unfold read_u8. no_panic_solve. Qed.
Lemma no_panic_read_u16 body c k : no_panic (read_u16 body c k).
Proof. unfold read_u16. no_panic_solve. Qed.
Lemma no_panic_read_u32 body c k : no_panic (read_u32 body c k).
Proof. unfold read_u32. no_panic_solve. Qed.
Lemma no_panic_read_u64 body c k : no_panic (read_u64 body c k).
Proof. unfold read_u64. no_panic_solve. Qed.
Lemma no_panic_read_array32 body c k : no_panic (read_array32 body c k).
Proof. unfold read_array32. no_panic_solve. Qed.
Lemma no_panic_read_str body c k : no_panic (read_len_prefixed_str body c k).
Proof. unfold read_len_prefixed_str. no_panic_solve. Qed.
Lemma no_panic_nd_class b : no_panic (nd_class_from_byte b).
Proof. unfold nd_class_from_byte. no_panic_solve. Qed.
Lemma no_panic_finish {A} body c (a : A) : no_panic (finish body c a).
Proof. unfold finish. no_panic_solve. Qed.
#[export] Hint Resolve no_panic_read_u8 no_panic_read_u16 no_panic_read_u32 no_panic_read_u64
  no_panic_read_array32 no_panic_read_str no_panic_nd_class no_panic_finish : outcome.

Lemma no_panic_read_many {A} (read : nat -> decoded (A * nat)) n c :
  (forall c, no_panic (read c)) -> no_panic (read_many read n c).
Proof.
  intros Hr. revert c. induction n as [|n IH]; intros c; cbn [read_many]; no_panic_solve.
Qed.
Lemma no_panic_read_call body c k : no_panic (read_call body c k).
Proof. unfold read_call. no_panic_solve. Qed.
#[export] Hint Resolve no_panic_read_many no_panic_read_call : outcome.

Lemma no_panic_decode_parents body n i :
  (COMMITTED_PREFIX_LEN + (i + n) * ParentEntry.ENCODED_LEN <= length body)%nat ->
  no_panic (decode_parents body n i).
Proof.
  revert i. induction n as [|n IH]; intros i Hlen; cbn [decode_parents]; [auto with outcome|].
  apply no_panic_bind.
  - unfold decode_parent. no_panic_solve.
  - intros p _. apply no_panic_bind; [|auto with outcome].
    apply IH. decode_arith.
Qed.

Lemma no_panic_decode_entry `{Blake3} b h : no_panic (decode_entry_with_def_hash b h).
Proof.
  unfold decode_entry_with_def_hash, decode_body, decode_proposed, decode_repudiated, decode_failed,
    decode_effect_staged, decode_run_registered, decode_run_versions, decode_digest_sealed,
    decode_replan_round, decode_react_round, decode_rerank_round, decode_approval,
    decode_timer_armed, decode_react_branch, decode_rerank_outcome, decode_approval_state,
    read_opt32, read_bool, or_absent.
  repeat first [ match goal with |- no_panic (decode_committed _ _ _ _ _ _) => fail 1 end
               | no_panic_step ].
  unfold decode_committed. no_panic_solve.
  apply no_panic_decode_parents. decode_arith.
Qed.
