(* ===== verification/EntryRoundtrip.v ===== *)
(** The journal's wire format read back: the type invariant of entries, the
    extra conditions under which an encoded entry is readable, and
    [decode ∘ encode = Ok] for every kind. *)
From S2P Require Import Prelude Utf8 Mote Entry EntryEncode EntryDecode.
Import JournalEntry.

(** ** What the Rust types guarantee of an entry *)
Definition arr (n : nat) (l : bytes) : Prop := length l = n.
Definition opt_arr (n : nat) (o : option bytes) : Prop := from_option (arr n) True o.
Definition string_ok (s : bytes) : Prop := utf8_valid s = true.

Definition capability_typed (c : ResolvedCapabilityRecord) : Prop :=
  string_ok c.(tool_id) /\ string_ok c.(tool_version) /\ arr 32 c.(resolved_def_hash).
Definition branch_typed (b : ReactBranch) : Prop :=
  match b with
  | ReactBranch.Tool t v => string_ok t /\ string_ok v
  | ReactBranch.Rejected r => string_ok r
  | ReactBranch.ToolBatch calls => Forall (fun c => string_ok c.1 /\ string_ok c.2) calls
  | _ => True
  end.
Definition approval_typed (s : ApprovalState) : Prop :=
  match s with
  | ApprovalState.Requested t v i d c =>
      string_ok t /\ string_ok v /\ string_ok i /\ u64 d /\ u64 c
  | ApprovalState.Granted a r d | ApprovalState.Denied a r d => u64 a /\ string_ok r /\ u64 d
  | ApprovalState.Expired d => u64 d
  end.
Definition rerank_typed (o : ReRankOutcome) : Prop :=
  match o with ReRankOutcome.Reranked p => Forall u32 p | _ => True end.
Definition parent_typed (p : ParentEntry) : Prop :=
  arr 32 p.(ParentEntry.parent_id) /\ u8 p.(ParentEntry.edge_kind) /\ u8 p.(ParentEntry.non_cascade).

Definition entry_typed (e : JournalEntry) : Prop :=
  match e with
  | Proposed id key seq _ hint w => arr 32 id /\ arr 32 key /\ u64 seq /\ u128 hint /\ arr 32 w
  | Committed id key seq _ r ps w h =>
      arr 32 id /\ arr 32 key /\ u64 seq /\ arr 32 r /\ Forall parent_typed ps /\ arr 32 w /\ arr 32 h
  | Repudiated id key seq tseq _ rid => arr 32 id /\ arr 32 key /\ u64 seq /\ u64 tseq /\ u128 rid
  | Failed id key seq _ rid detail =>
      arr 32 id /\ arr 32 key /\ u64 seq /\ u128 rid /\ string_ok detail
  | EffectStaged id key seq => arr 32 id /\ arr 32 key /\ u64 seq
  | RunRegistered inst fp ts seq => arr 16 inst /\ arr 32 fp /\ u64 ts /\ u64 seq
  | RunVersionsResolved inst w m cap seq =>
      arr 16 inst /\ arr 32 w /\ string_ok m /\ from_option capability_typed True cap /\ u64 seq
  | DigestSealed t d seq => u64 t /\ arr 32 d /\ u64 seq
  | ReplanRound r id b c w m steps esc seq =>
      u32 r /\ arr 32 id /\ arr 32 b /\ arr 32 c /\ arr 32 w /\ string_ok m
      /\ Forall (arr 32) steps /\ opt_arr 32 esc /\ u64 seq
  | ReactRound t id inst b w m br mt mc salt _ ctx img _ seq =>
      u32 t /\ arr 32 id /\ arr 16 inst /\ arr 32 b /\ arr 32 w /\ string_ok m /\ branch_typed br
      /\ u32 mt /\ u32 mc /\ opt_arr 32 salt /\ opt_arr 32 ctx /\ opt_arr 32 img /\ u64 seq
  | Approval inst rid id st seq =>
      arr 16 inst /\ arr 16 rid /\ arr 32 id /\ approval_typed st /\ u64 seq
  | ReRankRound r id inst b q w m cc oc seq =>
      u32 r /\ arr 32 id /\ arr 16 inst /\ arr 32 b /\ arr 32 q /\ arr 32 w /\ string_ok m
      /\ u32 cc /\ rerank_typed oc /\ u64 seq
  | TimerArmed inst id p a f anchor seq =>
      arr 16 inst /\ arr 32 id /\ u8 p /\ u32 a /\ u64 f /\ arr 32 anchor /\ u64 seq
  end.

(** ** What the decoder demands beyond the types and the encoder's own guards *)
Definition parent_legal (p : ParentEntry) : Prop :=
  p.(ParentEntry.edge_kind) <= 1 /\ p.(ParentEntry.non_cascade) <= 1.
Definition entry_readable (e : JournalEntry) : Prop :=
  match e with
  | Committed _ _ _ _ _ ps _ _ => Forall parent_legal ps
  | Failed _ _ _ _ _ detail => (length detail <= MAX_ENTRY_LEN - HEADER_LEN - FAILED_PREFIX_LEN - 2)%nat
  | ReactRound _ _ _ _ _ _ (ReactBranch.ToolBatch calls) _ _ _ _ _ _ _ _ =>
      (length calls <= MAX_TOOL_BATCH_CALLS)%nat
  | TimerArmed _ _ purpose _ _ _ _ => purpose <= 1
  | _ => True
  end.

(** The definition hash travels beside the bytes; kinds without one get zeros. *)
Definition entry_def_hash (e : JournalEntry) : bytes :=
  match e with Committed _ _ _ _ _ _ _ h => h | _ => replicate 32 0 end.

(** ** Reading at a cursor *)
Definition at_cursor (body : bytes) (c : nat) (rest : bytes) : Prop :=
  exists pre, body = pre ++ rest /\ length pre = c.

Lemma at_cursor_0 body : at_cursor body 0 body.
Proof. by exists []. Qed.
Lemma at_cursor_app body c x rest n :
  at_cursor body c (x ++ rest) -> n = (c + length x)%nat -> at_cursor body n rest.
Proof. intros (pre & -> & <-) ->. exists (pre ++ x). by rewrite <- app_assoc, length_app. Qed.
Lemma at_cursor_length body c rest : at_cursor body c rest -> length body = (c + length rest)%nat.
Proof. intros (pre & -> & <-). by rewrite length_app. Qed.

Lemma slice_at {E} body i j x rest :
  at_cursor body i (x ++ rest) -> j = (i + length x)%nat -> slice (E := E) body i j = Ok x.
Proof.
  intros (pre & -> & <-) ->. rewrite slice_in_range by (rewrite ?length_app; lia).
  rewrite drop_app_length. f_equal. rewrite take_app_le by lia. rewrite take_ge; [done|lia].
Qed.
Lemma slice_to_end {E} body i rest :
  at_cursor body i rest -> slice (E := E) body i (length body) = Ok rest.
Proof.
  intros H. apply (slice_at _ _ _ _ []); [by rewrite app_nil_r|]. by apply at_cursor_length.
Qed.
Lemma index_at {E} body i b rest : at_cursor body i (b :: rest) -> index (E := E) body i = Ok b.
Proof. intros (pre & -> & <-). unfold index. by rewrite list_lookup_middle. Qed.

Lemma ltb_length_at body c x rest n :
  at_cursor body c (x ++ rest) -> n = (c + length x)%nat -> (length body <? n)%nat = false.
Proof. intros H%at_cursor_length ->. rewrite length_app in H. apply Nat.ltb_ge. lia. Qed.

(** [yields body m a rest]: the read [m] returns [a] and leaves [rest] unread. *)
Definition yields {A} (body : bytes) (m : decoded (A * nat)) (a : A) (rest : bytes) : Prop :=
  exists c, m = Ok (a, c) /\ at_cursor body c rest.

Lemma yields_bind {A B} body (m : decoded (A * nat)) a rest (k : A * nat -> decoded B) r :
  yields body m a rest -> (forall c, at_cursor body c rest -> k (a, c) = r) -> obind m k = r.
Proof. intros (c & -> & Hc) Hk. by apply Hk. Qed.
Lemma yields_seq {A B} body (m : decoded (A * nat)) a rest (k : A * nat -> decoded (B * nat)) b rest' :
  yields body m a rest -> (forall c, at_cursor body c rest -> yields body (k (a, c)) b rest') ->
  yields body (obind m k) b rest'.
Proof. intros (c & -> & Hc) Hk. by apply Hk. Qed.
Lemma yields_ok {A} body (a : A) c rest : at_cursor body c rest -> yields body (Ok (a, c)) a rest.
Proof. intros. by exists c. Qed.
Lemma slice_bind {B E} body i j x rest (k : bytes -> outcome B E) r :
  at_cursor body i (x ++ rest) -> j = (i + length x)%nat ->
  (at_cursor body j rest -> k x = r) -> obind (slice body i j) k = r.
Proof. intros H -> Hk. erewrite slice_at by done. apply Hk. by eapply at_cursor_app. Qed.
Lemma index_bind {B E} body i b rest (k : Z -> outcome B E) r :
  at_cursor body i ([b] ++ rest) ->
  (at_cursor body (i + 1) rest -> k b = r) -> obind (index body i) k = r.
Proof. intros H Hk. erewrite index_at by done. apply Hk. by eapply at_cursor_app. Qed.
Lemma finish_at {A} body c (a : A) : at_cursor body c [] -> finish body c a = Ok a.
Proof. intros H%at_cursor_length. unfold finish. simpl in H. by rewrite H, Nat.add_0_r, Nat.eqb_refl. Qed.
Lemma or_absent_at {A} body c (d : A) m x rest :
  at_cursor body c (x ++ rest) -> (0 < length x)%nat -> or_absent body c d m = m.
Proof.
  intros H%at_cursor_length. rewrite length_app in H. unfold or_absent. intros ?.
  destruct (Nat.ltb_spec c (length body)); [done|lia].
Qed.

Lemma or_absent_end {A} body c (d : A) m : at_cursor body c [] -> or_absent body c d m = Ok (d, c).
Proof.
  intros H%at_cursor_length. cbn [length] in H. unfold or_absent.
  by rewrite (proj2 (Nat.ltb_ge _ _)) by lia.
Qed.

Lemma read_u8_at body c k b rest :
  at_cursor body c ([b] ++ rest) -> yields body (read_u8 body c k) b rest.
Proof.
  intros H. exists (c + 1)%nat. unfold read_u8. rewrite (ltb_length_at _ _ [b] rest _ H) by done.
  erewrite index_at by done. split; [done|]. by eapply at_cursor_app.
Qed.

(** The four fixed-width reads are one read of [n] bytes. *)
Lemma read_fixed_at {A} body c n (err : decoded (A * nat)) (f : bytes -> A) x rest :
  at_cursor body c (x ++ rest) -> length x = n ->
  yields body
    (if (length body <? c + n)%nat then err
     else let* s := slice body c (c + n) in Ok (f s, (c + n)%nat)) (f x) rest.
Proof.
  intros H <-. exists (c + length x)%nat. rewrite (ltb_length_at _ _ x rest _ H) by done.
  erewrite slice_at by done. split; [done|]. by eapply at_cursor_app.
Qed.
Lemma read_u16_at body c k v rest :
  u16 v -> at_cursor body c (to_le 2 v ++ rest) -> yields body (read_u16 body c k) v rest.
Proof.
  intros Hv H. rewrite <- (from_to_le 2 v) at 1 by exact Hv.
  by apply (read_fixed_at body c 2 _ from_le); [|apply length_to_le].
Qed.
Lemma read_u32_at body c k v rest :
  u32 v -> at_cursor body c (to_le 4 v ++ rest) -> yields body (read_u32 body c k) v rest.
Proof.
  intros Hv H. rewrite <- (from_to_le 4 v) at 1 by exact Hv.
  by apply (read_fixed_at body c 4 _ from_le); [|apply length_to_le].
Qed.
Lemma read_u64_at body c k v rest :
  u64 v -> at_cursor body c (to_le 8 v ++ rest) -> yields body (read_u64 body c k) v rest.
Proof.
  intros Hv H. rewrite <- (from_to_le 8 v) at 1 by exact Hv.
  by apply (read_fixed_at body c 8 _ from_le); [|apply length_to_le].
Qed.
Lemma read_array32_at body c k x rest :
  arr 32 x -> at_cursor body c (x ++ rest) -> yields body (read_array32 body c k) x rest.
Proof. intros Hx H. by apply (read_fixed_at body c 32 _ (fun s => s)). Qed.

Definition short (s : bytes) : Prop := u16 (Z.of_nat (length s)).
Definition str_layout (s : bytes) : bytes := to_le 2 (Z.of_nat (length s)) ++ s.
Lemma read_str_at body c k s rest :
  string_ok s -> short s -> at_cursor body c (str_layout s ++ rest) ->
  yields body (read_len_prefixed_str body c k) s rest.
Proof.
  intros Hs Hl H. unfold str_layout in H. rewrite <- app_assoc in H.
  pose proof (at_cursor_app _ _ _ _ (c + 2) H ltac:(by rewrite length_to_le)) as H2.
  unfold read_len_prefixed_str.
  rewrite (ltb_length_at _ _ _ _ (c + 2) H) by (by rewrite length_to_le).
  erewrite (slice_at body c (c + 2)) by (done || by rewrite length_to_le). cbn [obind].
  rewrite from_to_le, Nat2Z.id by exact Hl.
  rewrite (ltb_length_at _ _ _ _ _ H2) by done. erewrite (slice_at body (c + 2)) by done. cbn [obind].
  rewrite Hs. exists (c + 2 + length s)%nat. split; [done|]. by eapply at_cursor_app.
Qed.

Create HintDb reads.
#[export] Hint Resolve read_u8_at read_u16_at read_u32_at read_u64_at read_array32_at read_str_at : reads.

Lemma read_many_at {A} body (read : nat -> decoded (A * nat)) (layout : A -> bytes) xs rest c :
  Forall (fun x => forall c rest, at_cursor body c (layout x ++ rest) -> yields body (read c) x rest) xs ->
  at_cursor body c (concat (layout <$> xs) ++ rest) ->
  yields body (read_many read (length xs) c) xs rest.
Proof.
  intros Hxs. revert c. induction Hxs as [|x xs Hx Hxs IH]; intros c H.
  - by apply yields_ok.
  - cbn in H. rewrite <- app_assoc in H. cbn [length read_many].
    eapply yields_seq; [by apply Hx|]. clear c H. intros c H.
    eapply yields_seq; [by apply IH|]. intros c' H'. by apply yields_ok.
Qed.

Definition opt32_layout (o : option bytes) : bytes :=
  match o with None => [0] | Some r => [1] ++ r end.
Lemma opt32_layout_nonempty o : (0 < length (opt32_layout o))%nat.
Proof. destruct o; cbn [opt32_layout app length]; lia. Qed.
Lemma push_opt32_layout out o : push_opt32 out o = out ++ opt32_layout o.
Proof. by destruct o. Qed.
Lemma read_opt32_at bad body c k o rest :
  opt_arr 32 o -> at_cursor body c (opt32_layout o ++ rest) ->
  yields body (read_opt32 bad body c k) o rest.
Proof.
  intros Ho H. unfold read_opt32. destruct o as [r|]; cbn [opt32_layout] in H;
    rewrite <- ?app_assoc in H; (eapply yields_seq; [by eauto with reads|]); clear c H; intros c H; cbn.
  - eapply yields_seq; [by eauto with reads|]. intros c' H'. by apply yields_ok.
  - by apply yields_ok.
Qed.
Lemma read_bool_at bad body c k b rest :
  at_cursor body c ([u8_from_bool b] ++ rest) -> yields body (read_bool bad body c k) b rest.
Proof.
  intros H. unfold read_bool. eapply yields_seq; [by eauto with reads|].
  clear c H. intros c H. destruct b; by apply yields_ok.
Qed.
#[export] Hint Resolve read_opt32_at read_bool_at : reads.

(** ** The layouts the encoder writes *)
Lemma push_str_inv out s o :
  push_len_prefixed_str out s = Ok o -> o = out ++ str_layout s /\ short s.
Proof.
  unfold push_len_prefixed_str. case_match eqn:E; [|done]. intros [= <-].
  split; [done|]. apply Z.ltb_lt in E. unfold short, in_width. lia.
Qed.
Lemma u16_expect_inv n v : u16_expect n = Ok v -> v = Z.of_nat n /\ u16 v.
Proof.
  unfold u16_expect. case_match eqn:E; [|done]. intros [= <-]. apply Z.ltb_lt in E.
  split; [done|]. unfold in_width. lia.
Qed.

(** Invert an encoder run: the pushes, the guards and the buffer equation. *)
Ltac enc_inv :=
  repeat first
    [ progress ok_inv
    | match goal with
      | H : push_len_prefixed_str _ _ = Ok _ |- _ => apply push_str_inv in H as [-> ?]
      | H : u16_expect _ = Ok _ |- _ => apply u16_expect_inv in H as [-> ?]
      | H : (if (?x <? ?y)%nat then _ else _) = Ok _ |- _ => destruct (Nat.ltb_spec x y)
      | H : (if Z.ltb ?x ?y then _ else _) = Ok _ |- _ => destruct (Z.ltb_spec x y)
      end ].
Ltac layout_eq := rewrite ?push_opt32_layout, <- ?app_assoc; reflexivity.
Ltac lens :=
  unfold arr, opt_arr in *;
  repeat match goal with H : at_cursor _ _ _ |- _ => apply at_cursor_length in H end;
  rewrite ?push_opt32_layout in *; unfold str_layout in *; 
  rewrite ?length_app, ?length_to_le in *; cbn [length] in *; decode_arith.

(** Run one read, slice or index of a decoder against the unread suffix. *)
Ltac rd_step H :=
  first
    [ eapply slice_bind; [exact H|lens|clear H; intros H; cbn beta]
    | eapply index_bind; [exact H|clear H; intros H; cbn beta]
    | rewrite (or_absent_at _ _ _ _ _ _ H) by (apply opt32_layout_nonempty || (cbn [length]; lia))
    | eapply yields_bind; [solve [eauto with reads]|clear H; intros ? H; cbn beta iota]
    | eapply yields_seq; [solve [eauto with reads]|clear H; intros ? H; cbn beta iota] ].

Definition calls_layout (calls : list (bytes * bytes)) : bytes :=
  concat ((fun c => str_layout c.1 ++ str_layout c.2) <$> calls).
Lemma encode_calls_inv out calls o :
  encode_calls out calls = Ok o ->
  o = out ++ calls_layout calls /\ Forall (fun c => short c.1 /\ short c.2) calls.
Proof.
  revert out. induction calls as [|[t v] calls IH]; intros out; cbn [encode_calls]; intros H.
  - enc_inv. by rewrite app_nil_r.
  - enc_inv. apply IH in H as [-> Hf]. split; [|by constructor].
    unfold calls_layout. cbn. by rewrite <- !app_assoc.
Qed.

Definition branch_layout (b : ReactBranch) : bytes :=
  [ReactBranch.as_u8 b] ++
  match b with
  | ReactBranch.Tool t v => str_layout t ++ str_layout v
  | ReactBranch.Rejected r => str_layout r
  | ReactBranch.ToolBatch calls => to_le 2 (Z.of_nat (length calls)) ++ calls_layout calls
  | _ => []
  end.
Definition branch_short (b : ReactBranch) : Prop :=
  match b with
  | ReactBranch.Tool t v => short t /\ short v
  | ReactBranch.Rejected r => short r
  | ReactBranch.ToolBatch calls =>
      u16 (Z.of_nat (length calls)) /\ Forall (fun c => short c.1 /\ short c.2) calls
  | _ => True
  end.
Lemma encode_react_branch_inv out b o :
  encode_react_branch (out ++ [ReactBranch.as_u8 b]) b = Ok o ->
  o = out ++ branch_layout b /\ branch_short b.
Proof.
  unfold branch_layout. destruct b; cbn [encode_react_branch branch_short]; intros H; enc_inv;
    rewrite <- ?app_assoc; try done.
  apply encode_calls_inv in H as [-> ?]. rewrite <- !app_assoc.
  split; [done|]. split; [|done]. unfold in_width. lia.
Qed.

Lemma read_call_at body c k call rest :
  string_ok call.1 /\ string_ok call.2 -> short call.1 /\ short call.2 ->
  at_cursor body c ((str_layout call.1 ++ str_layout call.2) ++ rest) ->
  yields body (read_call body c k) call rest.
Proof.
  destruct call as [t v]. cbn. intros [Ht Hv] [Hst Hsv] H. rewrite <- app_assoc in H.
  unfold read_call. do 2 rd_step H. by apply yields_ok.
Qed.
Lemma read_calls_at body c k calls rest :
  branch_typed (ReactBranch.ToolBatch calls) -> Forall (fun c => short c.1 /\ short c.2) calls ->
  at_cursor body c (calls_layout calls ++ rest) ->
  yields body (read_many (fun c => read_call body c k) (length calls) c) calls rest.
Proof.
  intros Ht Hs. apply read_many_at. apply Forall_forall. intros call Hin c' rest' H'.
  rewrite Forall_forall in Hs. cbn in Ht. rewrite Forall_forall in Ht.
  apply read_call_at; auto.
Qed.
#[export] Hint Resolve read_call_at read_calls_at : reads.

Lemma decode_react_branch_at body c k b rest :
  branch_typed b -> branch_short b ->
  (forall calls, b = ReactBranch.ToolBatch calls -> (length calls <= MAX_TOOL_BATCH_CALLS)%nat) ->
  at_cursor body c (branch_layout b ++ rest) ->
  yields body (decode_react_branch body c k) b rest.
Proof.
  intros Ht Hs Hb H. unfold branch_layout in H. rewrite <- app_assoc in H.
  unfold decode_react_branch. rd_step H.
  destruct b as [|t v| | |r|calls]; cbn [ReactBranch.as_u8 Z.eqb Pos.eqb]; try by apply yields_ok.
  - cbn in Ht, Hs. eapply (yields_seq _ _ (t, v)); [by apply read_call_at|].
    intros ? H'. by apply yields_ok.
  - rd_step H. by apply yields_ok.
  - cbn [branch_short] in Hs. destruct Hs as [Hc Hs]. rewrite <- app_assoc in H. rd_step H.
    rewrite Nat2Z.id, (proj2 (Nat.ltb_ge _ _) (Hb calls eq_refl)).
    rd_step H. by apply yields_ok.
Qed.
#[export] Hint Resolve decode_react_branch_at : reads.

Definition approval_layout (s : ApprovalState) : bytes :=
  [ApprovalState.as_u8 s] ++
  match s with
  | ApprovalState.Requested t v i d c =>
      str_layout t ++ str_layout v ++ str_layout i ++ to_le 8 d ++ to_le 8 c
  | ApprovalState.Granted a r d | ApprovalState.Denied a r d =>
      to_le 8 a ++ str_layout r ++ to_le 8 d
  | ApprovalState.Expired d => to_le 8 d
  end.
Definition approval_short (s : ApprovalState) : Prop :=
  match s with
  | ApprovalState.Requested t v i _ _ => short t /\ short v /\ short i
  | ApprovalState.Granted _ r _ | ApprovalState.Denied _ r _ => short r
  | ApprovalState.Expired _ => True
  end.
Lemma encode_approval_state_inv out s o :
  encode_approval_state (out ++ [ApprovalState.as_u8 s]) s = Ok o ->
  o = out ++ approval_layout s /\ approval_short s.
Proof.
  unfold approval_layout. destruct s; cbn [encode_approval_state approval_short]; intros H; enc_inv;
    rewrite <- ?app_assoc; done.
Qed.
Lemma decode_approval_state_at body c k s rest :
  approval_typed s -> approval_short s -> at_cursor body c (approval_layout s ++ rest) ->
  yields body (decode_approval_state body c k) s rest.
Proof.
  intros Ht Hs H. unfold approval_layout in H. rewrite <- app_assoc in H.
  unfold decode_approval_state. rd_step H.
  destruct s; cbn [ApprovalState.as_u8 Z.eqb Pos.eqb orb]; cbn [approval_typed approval_short] in *;
    destruct_and?; rewrite <- ?app_assoc in H; repeat rd_step H; by apply yields_ok.
Qed.

Definition rerank_layout (o : ReRankOutcome) : bytes :=
  [ReRankOutcome.as_u8 o] ++
  match o with
  | ReRankOutcome.Reranked p => to_le 2 (Z.of_nat (length p)) ++ concat (to_le 4 <$> p)
  | _ => []
  end.
Lemma decode_rerank_outcome_at body c k o rest :
  rerank_typed o ->
  (forall p, o = ReRankOutcome.Reranked p -> (length p <= MAX_RERANK_CANDIDATES)%nat) ->
  at_cursor body c (rerank_layout o ++ rest) ->
  yields body (decode_rerank_outcome body c k) o rest.
Proof.
  intros Ht Hp H. unfold rerank_layout in H. rewrite <- app_assoc in H.
  unfold decode_rerank_outcome. rd_step H.
  destruct o as [|p|]; cbn [ReRankOutcome.as_u8 Z.eqb Pos.eqb]; try by apply yields_ok.
  specialize (Hp p eq_refl). rewrite <- app_assoc in H.
  assert (u16 (Z.of_nat (length p))) by (unfold in_width, MAX_RERANK_CANDIDATES in *; lia).
  rd_step H. rewrite Nat2Z.id, (proj2 (Nat.ltb_ge _ _) Hp).
  eapply yields_seq.
  - apply (read_many_at _ _ (to_le 4)); [|exact H]. eapply Forall_impl; [exact Ht|].
    intros v Hv c' rest' H'. eauto with reads.
  - intros ? H'. by apply yields_ok.
Qed.
#[export] Hint Resolve decode_approval_state_at decode_rerank_outcome_at : reads.

(** ** Parents *)
Definition parents_layout (ps : list ParentEntry) : bytes :=
  concat ((fun p => p.(ParentEntry.parent_id) ++ [p.(ParentEntry.edge_kind)]
                      ++ [p.(ParentEntry.non_cascade)]) <$> ps).
Definition data_cascades (p : ParentEntry) : Prop :=
  p.(ParentEntry.edge_kind) = 0 -> p.(ParentEntry.non_cascade) = 0.
Lemma encode_parents_inv out ps o :
  encode_parents out ps = Ok o -> o = out ++ parents_layout ps /\ Forall data_cascades ps.
Proof.
  revert out. induction ps as [|p ps IH]; intros out; cbn [encode_parents]; intros H.
  - ok_inv. by rewrite app_nil_r.
  - case_match eqn:E; [done|]. apply IH in H as [-> Hf]. split.
    + unfold parents_layout. cbn [fmap list_fmap concat]. by rewrite <- !app_assoc.
    + constructor; [|done]. intros Hk. rewrite Hk, Z.eqb_refl in E.
      apply negb_false_iff, Z.eqb_eq in E. done.
Qed.
Lemma decode_parent_at body base p rest :
  parent_typed p -> parent_legal p -> data_cascades p ->
  at_cursor body base
    (p.(ParentEntry.parent_id) ++ [p.(ParentEntry.edge_kind)] ++ [p.(ParentEntry.non_cascade)] ++ rest) ->
  decode_parent body base = Ok p /\ at_cursor body (base + ParentEntry.ENCODED_LEN) rest.
Proof.
  intros [Hid _] [Hk Hn] Hp H. unfold decode_parent.
  rewrite (slice_at _ _ _ _ _ H) by lens. cbn [obind].
  pose proof (at_cursor_app _ _ _ _ (base + 32) H ltac:(lens)) as H1.
  pose proof (at_cursor_app _ _ _ _ (base + 33) H1 ltac:(cbn [length]; lia)) as H2.
  pose proof (at_cursor_app _ _ _ _ (base + 34) H2 ltac:(cbn [length]; lia)) as H3.
  rewrite (index_at _ _ _ _ H1), (index_at _ _ _ _ H2). cbn [obind].
  rewrite (proj2 (Z.ltb_ge _ _) Hk), (proj2 (Z.ltb_ge _ _) Hn). split; [|exact H3].
  unfold data_cascades in Hp. destruct p as [i k n]. cbn in *.
  destruct (Z.eqb_spec k 0) as [->|]; [|done]. by rewrite (Hp eq_refl).
Qed.
Lemma decode_parents_at body ps i rest :
  Forall parent_typed ps -> Forall parent_legal ps -> Forall data_cascades ps ->
  at_cursor body (COMMITTED_PREFIX_LEN + i * ParentEntry.ENCODED_LEN) (parents_layout ps ++ rest) ->
  decode_parents body (length ps) i = Ok ps.
Proof.
  revert i. induction ps as [|p ps IH]; intros i Ht Hl Hd H; [done|].
  inversion_clear Ht. inversion_clear Hl. inversion_clear Hd.
  unfold parents_layout in H. cbn [fmap list_fmap concat] in H.
  change (concat _) with (parents_layout ps) in H. rewrite <- !app_assoc in H.
  apply decode_parent_at in H as [Hp H]; [|done..].
  cbn [decode_parents length]. rewrite Hp. cbn [obind].
  rewrite (IH (S i)); [done..|]. by rewrite Nat.mul_succ_l, Nat.add_assoc.
Qed.

(** ** Each arm: the body written is the body read *)
Definition max_len (out o : bytes) : Prop :=
  length out = HEADER_LEN -> (length o <= MAX_ENTRY_LEN)%nat.
Definition arm_ok (out o : bytes) (dec : bytes -> decoded JournalEntry) (e : JournalEntry) : Prop :=
  exists body, o = out ++ body /\ dec body = Ok e /\ max_len out o.

Lemma arm_intro out o body dec e :
  o = out ++ body -> max_len out o ->
  (forall b, at_cursor b 0 (body ++ []) -> dec b = Ok e) -> arm_ok out o dec e.
Proof.
  intros -> Hl Hd. exists body. split; [done|]. split; [|done].
  apply Hd. rewrite app_nil_r. apply at_cursor_0.
Qed.

(** Open an [arm_ok] goal on a layout: the buffer equation, the size, the read. *)
Ltac arm_start H :=
  eapply arm_intro;
  [layout_eq|unfold max_len, MAX_ENTRY_LEN in *; intros ?; lens|];
  let b := fresh "b" in intros b H; rewrite <- ?app_assoc in H.
Ltac arm_guard :=
  match goal with
  | |- context [if (?x <? ?y)%nat then _ else _] =>
      destruct (Nat.ltb_spec x y) as [?|_]; [lens|]
  | |- context [if negb (?x =? ?y)%nat then _ else _] =>
      destruct (Nat.eqb_spec x y) as [_|?]; [|lens]
  end; cbn [negb].
Ltac arm_done :=
  rewrite ?finish_at by done; rewrite ?from_to_le by assumption; reflexivity.
Ltac arm_run H := repeat first [rd_step H | arm_guard]; arm_done.

Lemma nd_class_from_as nd : nd_class_from_byte (NdClass_as_u8 nd) = Ok nd.
Proof. by destruct nd. Qed.

Lemma proposed_arm out hint w o id key seq nd :
  u128 hint -> arr 32 w -> encode_proposed out hint w = Ok o ->
  arm_ok out o (decode_proposed id key seq (NdClass_as_u8 nd)) (Proposed id key seq nd hint w).
Proof.
  unfold encode_proposed. intros Hh Hw ?; ok_inv. arm_start Hc. unfold decode_proposed.
  rewrite nd_class_from_as. cbn [obind]. arm_run Hc.
Qed.

Lemma committed_arm out r ps w o id key seq nd h :
  arr 32 r -> arr 32 w -> Forall parent_typed ps -> Forall parent_legal ps ->
  encode_committed out r ps w = Ok o ->
  arm_ok out o (fun b => decode_committed id key seq (NdClass_as_u8 nd) b h)
    (Committed id key seq nd r ps w h).
Proof.
  unfold encode_committed. intros Hr Hw Ht Hl ?. enc_inv.
  apply encode_parents_inv in H as [-> Hd].
  assert (length (parents_layout ps) = ParentEntry.ENCODED_LEN * length ps)%nat as Hlen.
  { clear -Ht. induction Ht as [|p ps [Hp _] _ IH]; [done|]. unfold arr in Hp.
    unfold parents_layout in *. cbn [fmap list_fmap concat length]. rewrite !length_app, IH, Hp.
    cbn [length]. decode_arith. }
  unfold MAX_PARENTS in *. arm_start Hc. unfold decode_committed.
  rewrite nd_class_from_as. cbn [obind].
  arm_guard. do 3 rd_step Hc. rewrite from_to_le, Nat2Z.id by done. do 2 arm_guard.
  by rewrite (decode_parents_at _ _ 0 []).
Qed.

Lemma repudiated_arm out id t rs rid o key seq :
  arr 32 id -> u64 t -> u128 rid -> encode_repudiated out id t rs rid = Ok o ->
  arm_ok out o (decode_repudiated id key seq) (Repudiated id key seq t rs rid).
Proof.
  unfold encode_repudiated. intros Hid Ht Hrid ?; ok_inv. arm_start Hc. unfold decode_repudiated.
  arm_guard. rd_step Hc. rewrite bool_decide_true by done. cbn [negb]. do 2 rd_step Hc.
  rewrite repudiation_reason_from_as. cbn [ok_or obind]. arm_run Hc.
Qed.

Lemma failed_arm out rs rid d o id key seq :
  u128 rid -> string_ok d -> (length d <= MAX_ENTRY_LEN - HEADER_LEN - FAILED_PREFIX_LEN - 2)%nat ->
  encode_failed out rs rid d = Ok o ->
  arm_ok out o (decode_failed id key seq) (Failed id key seq rs rid d).
Proof.
  unfold encode_failed, MAX_ENTRY_LEN. intros Hr Hd Hlen ?; enc_inv. arm_start Hc. unfold decode_failed.
  arm_guard. rd_step Hc. rewrite failure_reason_from_as. cbn [ok_or obind]. rd_step Hc.
  rewrite (proj2 (Nat.ltb_lt _ _)) by lens. arm_run Hc.
Qed.

Lemma effect_staged_arm out id key seq :
  arm_ok out out (decode_effect_staged id key seq) (EffectStaged id key seq).
Proof.
  exists []. rewrite app_nil_r. repeat split. unfold max_len, MAX_ENTRY_LEN, HEADER_LEN. lia.
Qed.

Lemma digest_sealed_arm `{Blake3} out t d o seq :
  u64 t -> arr 32 d -> encode_digest_sealed out t d = Ok o ->
  arm_ok out o (decode_digest_sealed (seal_root_id t) seq) (DigestSealed t d seq).
Proof.
  unfold encode_digest_sealed. intros Ht Hd ?; ok_inv. arm_start Hc. unfold decode_digest_sealed.
  arm_guard. rd_step Hc. rewrite from_to_le by done. rewrite bool_decide_true by done. cbn [negb].
  arm_run Hc.
Qed.
Lemma run_registered_arm `{Blake3} out inst fp ts o seq :
  arr 16 inst -> arr 32 fp -> u64 ts -> encode_run_registered out inst fp ts = Ok o ->
  arm_ok out o (decode_run_registered (run_root_id inst) seq) (RunRegistered inst fp ts seq).
Proof.
  unfold encode_run_registered. intros Hi Hf Ht ?; ok_inv. arm_start Hc. unfold decode_run_registered.
  arm_guard. rd_step Hc. rewrite bool_decide_true by done. cbn [negb]. arm_run Hc.
Qed.
Lemma timer_armed_arm out inst p a f anchor o id seq :
  arr 16 inst -> p <= 1 -> u32 a -> u64 f -> arr 32 anchor ->
  encode_timer_armed out inst p a f anchor = Ok o ->
  arm_ok out o (decode_timer_armed id seq) (TimerArmed inst id p a f anchor seq).
Proof.
  unfold encode_timer_armed. intros Hi Hp Ha Hf Han ?; ok_inv. arm_start Hc. unfold decode_timer_armed.
  arm_guard. do 2 rd_step Hc. rewrite (proj2 (Z.ltb_ge _ _) Hp). arm_run Hc.
Qed.

Lemma run_versions_arm `{Blake3} out inst w m cap o seq :
  arr 16 inst -> arr 32 w -> string_ok m -> from_option capability_typed True cap ->
  encode_run_versions out inst w m cap = Ok o ->
  arm_ok out o (decode_run_versions (run_root_id inst) seq) (RunVersionsResolved inst w m cap seq).
Proof.
  unfold encode_run_versions. intros Hi Hw Hm Hcap He. enc_inv.
  destruct cap as [[t v k dh ic]|]; enc_inv; cbn [resolved_kind resolved_def_hash idempotency_class
    tool_id tool_version from_option capability_typed] in *; [destruct Hcap as (Ht & Hv & Hdh)|].
  - cbn in Ht, Hv, Hdh. arm_start Hc. unfold decode_run_versions. arm_guard. rd_step Hc.
    rewrite bool_decide_true by done. cbn [negb]. do 3 rd_step Hc. cbn [Z.eqb Pos.eqb].
    eapply (yields_bind _ _ (Some _) []).
    + do 3 rd_step Hc. rewrite resolved_kind_from_as. cbn [ok_or obind]. do 2 rd_step Hc.
      rewrite idempotency_class_from_as. by apply yields_ok.
    + clear Hc. intros c' Hc. arm_run Hc.
  - arm_start Hc. unfold decode_run_versions. arm_guard. rd_step Hc.
    rewrite bool_decide_true by done. cbn [negb]. do 3 rd_step Hc. cbn [Z.eqb obind]. arm_run Hc.
Qed.

Lemma replan_arm out r b c w m steps esc o id seq :
  u32 r -> arr 32 b -> arr 32 c -> arr 32 w -> string_ok m -> Forall (arr 32) steps ->
  opt_arr 32 esc -> encode_replan_round out r b c w m steps esc = Ok o ->
  arm_ok out o (decode_replan_round id seq) (ReplanRound r id b c w m steps esc seq).
Proof.
  unfold encode_replan_round. intros Hr Hb Hcr Hw Hm Hs He Henc. enc_inv.
  arm_start Hc. unfold decode_replan_round. 
  arm_guard. do 6 rd_step Hc. rewrite Nat2Z.id. arm_guard.
  eapply yields_bind.
  - apply (read_many_at _ _ (fun x => x)); [|by rewrite list_fmap_id].
    eapply Forall_impl; [exact Hs|]. intros x Hx c' rest' H'. eauto with reads.
  - clear Hc. intros c' Hc. arm_run Hc.
Qed.

Lemma react_arm out t inst b w m br mt mc salt ag ctx img ra o id seq :
  u32 t -> arr 16 inst -> arr 32 b -> arr 32 w -> string_ok m -> branch_typed br ->
  (forall calls, br = ReactBranch.ToolBatch calls -> (length calls <= MAX_TOOL_BATCH_CALLS)%nat) ->
  u32 mt -> u32 mc -> opt_arr 32 salt -> opt_arr 32 ctx -> opt_arr 32 img ->
  encode_react_round out t inst b w m br mt mc salt ag ctx img ra = Ok o ->
  arm_ok out o (decode_react_round id seq)
    (ReactRound t id inst b w m br mt mc salt ag ctx img ra seq).
Proof.
  unfold encode_react_round. intros Ht Hi Hb Hw Hm Hbr Hbatch Hmt Hmc Hsalt Hctx Himg Henc. enc_inv.
  apply encode_react_branch_inv in Hok0 as [-> Hbs].
  arm_start Hc. unfold decode_react_round. arm_guard. arm_run Hc.
Qed.

Lemma rerank_arm out r inst b q w m cc oc o id seq :
  u32 r -> arr 16 inst -> arr 32 b -> arr 32 q -> arr 32 w -> string_ok m -> u32 cc ->
  rerank_typed oc -> encode_rerank_round out r inst b q w m cc oc = Ok o ->
  arm_ok out o (decode_rerank_round id seq) (ReRankRound r id inst b q w m cc oc seq).
Proof.
  unfold encode_rerank_round. intros Hr Hi Hb Hq Hw Hm Hcc Ht Henc. enc_inv.
  assert (o = out ++ (to_le 4 r ++ inst ++ b ++ q ++ w) ++ str_layout m ++ to_le 4 cc
               ++ rerank_layout oc
    /\ (forall p, oc = ReRankOutcome.Reranked p -> (length p <= MAX_RERANK_CANDIDATES)%nat)) as [-> Hp].
  { destruct oc; enc_inv; unfold rerank_layout; rewrite <- ?app_assoc;
      (split; [done|]); intros p' Hp'; [discriminate Hp'|by injection Hp' as <-|discriminate Hp']. }
  arm_start Hc. unfold decode_rerank_round. arm_run Hc.
Qed.

Lemma approval_arm out inst rid st o id seq :
  arr 16 inst -> arr 16 rid -> approval_typed st -> encode_approval out inst rid st = Ok o ->
  arm_ok out o (decode_approval id seq) (Approval inst rid id st seq).
Proof.
  unfold encode_approval. intros Hi Hr Hst Henc. enc_inv.
  rewrite !app_assoc in Hok. apply encode_approval_state_inv in Hok as [-> Hs].
  assert (0 < length (approval_layout st))%nat
    by (unfold approval_layout; rewrite length_app; cbn [length]; lia).
  arm_start Hc. unfold decode_approval. arm_run Hc.
Qed.

(** ** The header, and the whole entry *)
Section Roundtrip.
Context `{Blake3}.

Lemma header_slots_typed e :
  entry_typed e ->
  let '(id, key, seq, nd) := header_slots e in arr 32 id /\ arr 32 key /\ u64 seq.
Proof.
  pose proof (fun l => proj1 (blake3_array l)).
  destruct e; cbn [entry_typed header_slots]; intros; destruct_and?; unfold arr in *;
    repeat match goal with |- _ /\ _ => split end; unfold run_root_id, seal_root_id; auto.
Qed.

Lemma encode_header_length e : entry_typed e -> length (encode_header e) = HEADER_LEN.
Proof.
  intros Ht%header_slots_typed. unfold encode_header.
  destruct (header_slots e) as [[[id key] seq] nd]. destruct Ht as (Hid & Hkey & Hseq). lens.
Qed.

Lemma decode_header e b body h :
  entry_typed e -> at_cursor b 0 (encode_header e ++ body) -> (length b <= MAX_ENTRY_LEN)%nat ->
  decode_entry_with_def_hash b h =
    let '(id, key, seq, nd) := header_slots e in
    decode_body (entry_kind e) id key seq nd body h.
Proof.
  intros Ht%header_slots_typed Hc Hl. unfold encode_header in *.
  destruct (header_slots e) as [[[id key] seq] nd]. destruct Ht as (Hid & Hkey & Hseq).
  unfold decode_entry_with_def_hash. rewrite (proj2 (Nat.ltb_ge _ _) Hl).
  rewrite <- !app_assoc in Hc. arm_guard. do 5 rd_step Hc.
  rewrite from_to_le by done. by rewrite (slice_to_end b HEADER_LEN body Hc).
Qed.

(** The arm of an entry's kind writes what the decoder's arm reads. *)
Lemma entry_arm e o :
  entry_typed e -> entry_readable e -> encode_entry e = Ok o ->
  let '(id, key, seq, nd) := header_slots e in
  arm_ok (encode_header e) o
    (fun b => decode_body (entry_kind e) id key seq nd b (entry_def_hash e)) e.
Proof.
  intros Ht Hr He. destruct e; cbn [encode_entry] in He;
    cbn [entry_typed entry_readable header_slots entry_def_hash] in *; destruct_and?;
    unfold decode_body; cbn [entry_kind]; cbn [Z.eqb Pos.eqb KIND_PROPOSED KIND_COMMITTED
      KIND_REPUDIATED KIND_FAILED KIND_EFFECT_STAGED KIND_RUN_REGISTERED KIND_RUN_VERSIONS_RESOLVED
      KIND_DIGEST_SEALED KIND_REPLAN_ROUND KIND_REACT_ROUND KIND_APPROVAL KIND_RERANK_ROUND
      KIND_TIMER_ARMED].
  - by eapply proposed_arm.
  - by eapply committed_arm.
  - by eapply repudiated_arm.
  - by eapply failed_arm.
  - ok_inv. by apply effect_staged_arm.
  - by eapply run_registered_arm.
  - by eapply run_versions_arm.
  - by eapply digest_sealed_arm.
  - by eapply replan_arm.
  - eapply react_arm; try done. intros calls ->. done.
  - by eapply approval_arm.
  - by eapply rerank_arm.
  - by eapply timer_armed_arm.
Qed.

(** The bytes of an entry: its header, then a body that its own arm reads. *)
Lemma encode_entry_split e b :
  entry_typed e -> entry_readable e -> encode_entry e = Ok b ->
  exists body, b = encode_header e ++ body /\ (HEADER_LEN <= length b <= MAX_ENTRY_LEN)%nat
    /\ (let '(id, key, seq, nd) := header_slots e in
        decode_body (entry_kind e) id key seq nd body (entry_def_hash e) = Ok e).
Proof.
  intros Ht Hr He. pose proof (entry_arm e b Ht Hr He) as Ha.
  pose proof (encode_header_length e Ht) as Hh.
  destruct (header_slots e) as [[[id key] seq] nd]. destruct Ha as (body & Hb & Hdec & Hmax).
  exists body. split; [done|]. split; [|done]. split; [rewrite Hb, length_app; lia|by apply Hmax].
Qed.
Lemma decode_encode_entry e b :
  entry_typed e -> entry_readable e -> encode_entry e = Ok b ->
  decode_entry_with_def_hash b (entry_def_hash e) = Ok e.
Proof.
  intros Ht Hr He. destruct (encode_entry_split e b Ht Hr He) as (body & Hb & Hl & Hdec).
  rewrite (decode_header e b body _ Ht); [|rewrite Hb; apply at_cursor_0|lia].
  by destruct (header_slots e) as [[[id key] seq] nd].
Qed.

(** [C1] Wire round trip: every well-typed entry that the encoder accepts and
    that meets the decoder's extra conditions fits the 4500-byte entry bound and
    decodes, from its own bytes and its definition hash, to exactly itself,
    whatever its kind. *)
Theorem encode_decode_roundtrip e b :
  entry_typed e -> entry_readable e -> encode_entry e = Ok b ->
  decode_entry_with_def_hash b (entry_def_hash e) = Ok e
  /\ (HEADER_LEN <= length b <= MAX_ENTRY_LEN)%nat.
Proof.
  intros Ht Hr He. split; [by apply decode_encode_entry|].
  by destruct (encode_entry_split e b Ht Hr He) as (body & _ & Hl & _).
Qed.
End Roundtrip.

(** ** Witnesses *)
Definition demo_react : JournalEntry :=
  ReactRound 3 (replicate 32 1) (replicate 16 2) (replicate 32 3) (replicate 32 4) (str "m")
    (ReactBranch.ToolBatch [(str "fs", str "1"); (str "net", str "2")])
    8 16 (Some (replicate 32 5)) true None (Some (replicate 32 6)) false 77.
Lemma demo_react_typed : entry_typed demo_react.
Proof. by repeat constructor. Qed.
Lemma demo_react_readable : entry_readable demo_react.
Proof. apply (bool_decide_unpack _). by vm_compute. Qed.

Lemma encode_decode_roundtrip_witness :
  exists b, encode_entry (H := demo_blake3) demo_react = Ok b
            /\ decode_entry (H := demo_blake3) b = Ok demo_react.
Proof.
  eexists. split; [vm_compute; reflexivity|].
  eapply (encode_decode_roundtrip (H := demo_blake3) demo_react).
  - apply demo_react_typed.
  - apply demo_react_readable.
  - vm_compute; reflexivity.
Defined.
