(* ===== verification/EntrySound.v ===== *)
(** What the journal decoder accepts: every decoded entry is well typed and
    meets the decoder's own conditions, the truncated failure detail always
    survives the disk, and the entries that the encoder writes but the decoder
    refuses. *)
From S2P Require Import Prelude Utf8 Mote Entry EntryEncode EntryDecode EntryRoundtrip.
Import JournalEntry.

Section Reads.
Context (body : bytes) (Hbody : bytes_ok body).

Lemma slice_inv {E} i j x : slice (E := E) body i j = Ok x -> arr (j - i) x /\ bytes_ok x.
Proof.
  unfold slice. case_match eqn:G; [|done]. intros [= <-].
  apply andb_true_iff in G as [G1%Nat.leb_le G2%Nat.leb_le]. split.
  - unfold arr. rewrite length_take, length_drop. lia.
  - by apply Forall_take, Forall_drop.
Qed.
Lemma index_inv {E} i b : index (E := E) body i = Ok b -> u8 b.
Proof.
  unfold index. case_match eqn:G; [|done]. intros [= <-]. by eapply Forall_lookup_1 in G.
Qed.
Lemma read_u8_inv c k b c' : read_u8 body c k = Ok (b, c') -> u8 b.
Proof.
  unfold read_u8. case_match; [done|]. intros H0; ok_inv. simplify_eq. by eapply index_inv.
Qed.
Lemma slice_le_inv {E} i n x : slice (E := E) body i (i + n) = Ok x -> in_width (8 * Z.of_nat n) (from_le x).
Proof.
  intros [Hl Hx]%slice_inv. pose proof (from_le_bound x Hx) as Hb. unfold arr in Hl. rewrite Hl in Hb.
  replace (i + n - i)%nat with n in Hb by lia. unfold in_width.
  by rewrite Z.pow_mul_r by lia.
Qed.
Lemma read_u16_inv c k b c' : read_u16 body c k = Ok (b, c') -> u16 b.
Proof.
  unfold read_u16. case_match; [done|]. intros H0; ok_inv. simplify_eq. by apply slice_le_inv in Hok.
Qed.
Lemma read_u32_inv c k b c' : read_u32 body c k = Ok (b, c') -> u32 b.
Proof.
  unfold read_u32. case_match; [done|]. intros H0; ok_inv. simplify_eq. by apply slice_le_inv in Hok.
Qed.
Lemma read_u64_inv c k b c' : read_u64 body c k = Ok (b, c') -> u64 b.
Proof.
  unfold read_u64. case_match; [done|]. intros H0; ok_inv. simplify_eq. by apply slice_le_inv in Hok.
Qed.
Lemma read_array32_inv c k x c' : read_array32 body c k = Ok (x, c') -> arr 32 x.
Proof.
  unfold read_array32. case_match; [done|]. intros H0; ok_inv. simplify_eq.
  apply slice_inv in Hok as [Hl _]. unfold arr in *. lia.
Qed.
Lemma read_str_inv c k x c' : read_len_prefixed_str body c k = Ok (x, c') -> string_ok x.
Proof.
  unfold read_len_prefixed_str. case_match; [done|]. intros H0; ok_inv.
  case_match; [done|]. ok_inv. case_match; [|done]. by simplify_eq.
Qed.
Lemma read_str_length c k x c' :
  read_len_prefixed_str body c k = Ok (x, c') -> (c + 2 + length x <= length body)%nat.
Proof.
  unfold read_len_prefixed_str. case_match; [done|]. intros H0; ok_inv.
  case_match eqn:G; [done|]. ok_inv. apply slice_inv in Hok0 as [Hl _]. unfold arr in Hl.
  case_match; [|done]. apply Nat.ltb_ge in G. simplify_eq. lia.
Qed.
Lemma read_opt32_inv bad c k o c' : read_opt32 bad body c k = Ok (o, c') -> opt_arr 32 o.
Proof.
  unfold read_opt32. intros H0; ok_inv. destruct v as [t c1]. repeat case_match; try done; ok_inv.
  - by simplify_eq.
  - destruct v as [r c2]. ok_inv. simplify_eq. by eapply read_array32_inv.
Qed.
Lemma read_many_inv {A} (P : A -> Prop) (read : nat -> decoded (A * nat)) n c xs c' :
  (forall c x c', read c = Ok (x, c') -> P x) -> read_many read n c = Ok (xs, c') ->
  Forall P xs /\ length xs = n.
Proof.
  intros HP. revert c xs. induction n as [|n IH]; intros c xs; cbn [read_many]; intros H0; ok_inv.
  - simplify_eq. by split.
  - destruct v as [x c1]. ok_inv. destruct v as [xs' c2]. ok_inv. simplify_eq.
    apply IH in Hok0 as [Hf Hl]. split; [|by cbn; f_equal]. constructor; eauto.
Qed.
End Reads.

(** Invert a decoder run: binds, pairs, guards, then the facts of each read. *)
Ltac dec_split :=
  repeat first
    [ progress ok_inv
    | match goal with
      | H : (match ?v with (x, y) => _ end) = Ok _ |- _ => destruct v
      | H : (if ?b then _ else _) = Ok _ |- _ => let G := fresh "G" in destruct b eqn:G
      | H : finish _ _ _ = Ok _ |- _ => unfold finish in H
      | H : too_short _ _ _ = Ok _ |- _ => discriminate H
      | H : ok_or ?o _ = Ok _ |- _ => destruct o eqn:?; cbn [ok_or] in H
      | H : (_, _) = (_, _) |- _ => apply pair_equal_spec in H as [? ?]; subst
      end ].
Ltac dec_facts Hb :=
  repeat match goal with
  | H : slice _ ?i ?j = Ok ?x |- _ =>
      apply (slice_inv _ Hb) in H as [? ?]
  | H : index _ _ = Ok _ |- _ => apply (index_inv _ Hb) in H
  | H : read_u8 _ _ _ = Ok _ |- _ => apply (read_u8_inv _ Hb) in H
  | H : read_u16 _ _ _ = Ok _ |- _ => apply (read_u16_inv _ Hb) in H
  | H : read_u32 _ _ _ = Ok _ |- _ => apply (read_u32_inv _ Hb) in H
  | H : read_u64 _ _ _ = Ok _ |- _ => apply (read_u64_inv _ Hb) in H
  | H : read_array32 _ _ _ = Ok _ |- _ => apply (read_array32_inv _ Hb) in H
  | H : read_len_prefixed_str _ _ _ = Ok _ |- _ => apply (read_str_inv _) in H
  | H : read_opt32 _ _ _ _ = Ok _ |- _ => apply (read_opt32_inv _ Hb) in H
  end.

Lemma from_le_width x n w : arr n x -> bytes_ok x -> w = 8 * Z.of_nat n -> in_width w (from_le x).
Proof.
  intros <- Hx ->. pose proof (from_le_bound x Hx) as Hb. unfold in_width.
  by rewrite Z.pow_mul_r by lia.
Qed.

Definition sound (e : JournalEntry) : Prop := entry_typed e /\ entry_readable e.

Ltac sound_solve Hb :=
  dec_split; dec_facts Hb;
  unfold sound; cbn [entry_typed entry_readable];
  repeat match goal with |- _ /\ _ => split end;
  try assumption; try exact I;
  try (eapply from_le_width; [eassumption|assumption|reflexivity]).

Section Arms.
Context (body : bytes) (Hbody : bytes_ok body) (id key : bytes) (seq : Z).
Context (Hid : arr 32 id) (Hkey : arr 32 key) (Hseq : u64 seq).

Lemma proposed_sound nd e : decode_proposed id key seq nd body = Ok e -> sound e.
Proof. unfold decode_proposed. intros H. sound_solve Hbody. Qed.
Lemma repudiated_sound e : decode_repudiated id key seq body = Ok e -> sound e.
Proof. unfold decode_repudiated. intros H. sound_solve Hbody. Qed.
Lemma timer_armed_sound e : decode_timer_armed id seq body = Ok e -> sound e.
Proof. unfold decode_timer_armed. intros H. sound_solve Hbody. by apply Z.ltb_ge. Qed.
Lemma effect_staged_sound e : decode_effect_staged id key seq body = Ok e -> sound e.
Proof. unfold decode_effect_staged. intros H. sound_solve Hbody. Qed.

Lemma decode_parent_sound base p :
  decode_parent body base = Ok p -> parent_typed p /\ parent_legal p.
Proof.
  unfold decode_parent. intros H. dec_split. dec_facts Hbody.
  unfold parent_typed, parent_legal, arr in *. cbn. rewrite ?Z.ltb_ge in *.
  split_and!; try done. lia.
Qed.
Lemma decode_parents_sound n i ps :
  decode_parents body n i = Ok ps -> Forall parent_typed ps /\ Forall parent_legal ps.
Proof.
  revert i ps. induction n as [|n IH]; intros i ps; cbn [decode_parents]; intros H; ok_inv; [done|].
  apply decode_parent_sound in Hok as []. apply IH in Hok0 as []. split; by constructor.
Qed.
Lemma committed_sound nd h e :
  arr 32 h -> decode_committed id key seq nd body h = Ok e -> sound e.
Proof.
  unfold decode_committed. intros Hh H. dec_split. apply decode_parents_sound in Hok3 as [].
  sound_solve Hbody.
Qed.
Lemma failed_sound e :
  (length body <= MAX_ENTRY_LEN - HEADER_LEN)%nat ->
  decode_failed id key seq body = Ok e -> sound e.
Proof.
  unfold decode_failed. intros Hlen H. dec_split;
    [pose proof (read_str_length _ Hbody _ _ _ _ Hok2)|]; sound_solve Hbody; unfold FAILED_PREFIX_LEN in *; cbn [length]; done || lia.
Qed.
Lemma replan_sound e : decode_replan_round id seq body = Ok e -> sound e.
Proof.
  unfold decode_replan_round. intros H. dec_split.
  apply (read_many_inv (arr 32)) in Hok5 as [? _]; [|by eauto using read_array32_inv].
  sound_solve Hbody.
Qed.
Lemma react_branch_sound c k b c' :
  decode_react_branch body c k = Ok (b, c') ->
  branch_typed b
  /\ (forall calls, b = ReactBranch.ToolBatch calls -> (length calls <= MAX_TOOL_BATCH_CALLS)%nat).
Proof.
  unfold decode_react_branch, read_call at 1. intros H. dec_split.
  all: try (split; [|intros calls' [=]]; dec_facts Hbody; cbn; auto; fail).
  apply (read_many_inv (fun c => string_ok c.1 /\ string_ok c.2)) in Hok1 as [Hf Hl].
  - split; [exact Hf|]. intros calls [= <-]. apply Nat.ltb_ge in G5. lia.
  - intros c1 [t v'] c2. unfold read_call. intros H. dec_split. dec_facts Hbody. done.
Qed.
Lemma react_sound e : decode_react_round id seq body = Ok e -> sound e.
Proof.
  unfold decode_react_round, or_absent. intros H. dec_split.
  all: apply react_branch_sound in Hok4 as [Hb1 Hb2]; sound_solve Hbody;
    by case_match; auto.
Qed.
Lemma rerank_sound e : decode_rerank_round id seq body = Ok e -> sound e.
Proof.
  unfold decode_rerank_round, decode_rerank_outcome. intros H. dec_split.
  2: apply (read_many_inv u32) in Hok9 as [? _]; [|by eauto using read_u32_inv].
  all: sound_solve Hbody.
Qed.
Lemma approval_sound e : decode_approval id seq body = Ok e -> sound e.
Proof. unfold decode_approval, decode_approval_state. intros H. sound_solve Hbody; try case_match; done. Qed.
Lemma run_registered_sound `{Blake3} e : decode_run_registered id seq body = Ok e -> sound e.
Proof. unfold decode_run_registered. intros H0. sound_solve Hbody. Qed.
Lemma digest_sealed_sound `{Blake3} e : decode_digest_sealed id seq body = Ok e -> sound e.
Proof. unfold decode_digest_sealed. intros H0. sound_solve Hbody. Qed.
Lemma run_versions_sound `{Blake3} e : decode_run_versions id seq body = Ok e -> sound e.
Proof.
  unfold decode_run_versions. intros H0. sound_solve Hbody. cbn. unfold capability_typed. done.
Qed.
End Arms.

Section Sound.
Context `{Blake3}.


(** The failure detail: whatever valid string a worker reports, the entry
    that carries its truncation is accepted by the encoder and reads back
    unchanged. *)
Theorem failed_detail_survives id key seq rs rid d :
  arr 32 id -> arr 32 key -> u64 seq -> u128 rid -> string_ok d ->
  let e := Failed id key seq rs rid (bounded_failure_detail d) in
  exists b, encode_entry e = Ok b /\ decode_entry b = Ok e.
Proof.
  intros Hid Hkey Hseq Hrid Hd e.
  destruct (bounded_failure_detail_valid d Hd) as (Hv & Hlen & _).
  assert (entry_typed e) as Ht by done.
  assert (entry_readable e) as Hr.
  { cbn. unfold MAX_FAILURE_DETAIL_LEN, MAX_ENTRY_LEN, HEADER_LEN, FAILED_PREFIX_LEN in *. lia. }
  destruct (encode_entry e) as [b|?|] eqn:He.
  - exists b. split; [done|]. pose proof (entry_arm e b Ht Hr He) as (body & Hb & Hdec & Hmax).
    unfold decode_entry. rewrite (decode_header e b body _ Ht); [exact Hdec| |].
    + rewrite Hb. apply at_cursor_0.
    + by apply Hmax, encode_header_length.
  - exfalso. revert He. cbn [encode_entry e]. unfold encode_failed, push_len_prefixed_str.
    unfold MAX_FAILURE_DETAIL_LEN in Hlen. destruct (Z.ltb_spec (Z.of_nat (length (bounded_failure_detail d))) (2 ^ 16)); [done|lia].
  - by apply no_panic_encode_entry in He.
Qed.

(** Unreadable writes: a timer with a purpose byte above 1 is accepted by
    the encoder, yet the bytes it produces are refused by the decoder. *)
Theorem timer_purpose_unreadable inst id p a f anchor seq :
  entry_typed (TimerArmed inst id p a f anchor seq) -> 1 < p ->
  exists b, encode_entry (TimerArmed inst id p a f anchor seq) = Ok b
            /\ decode_entry b = Err (DecodeError.UnknownKind KIND_TIMER_ARMED).
Proof.
  intros Ht Hp. set (e := TimerArmed inst id p a f anchor seq).
  pose proof (encode_header_length e Ht) as Hh. pose proof Ht as (Hi & Hid & _ & Ha & Hf & Han & _).
  eexists. split; [reflexivity|]. unfold decode_entry.
  erewrite (decode_header e _ (inst ++ [p] ++ to_le 4 a ++ to_le 8 f ++ anchor)); [|done|apply at_cursor_0|].
  - change (decode_timer_armed id seq (inst ++ [p] ++ to_le 4 a ++ to_le 8 f ++ anchor)
            = Err (DecodeError.UnknownKind KIND_TIMER_ARMED)).
    pose proof (at_cursor_0 (inst ++ [p] ++ to_le 4 a ++ to_le 8 f ++ anchor)) as Hc.
    unfold decode_timer_armed. rewrite (proj2 (Nat.eqb_eq _ _)) by lens. cbn [negb].
    do 2 rd_step Hc. by rewrite (proj2 (Z.ltb_lt _ _) Hp).
  - unfold MAX_ENTRY_LEN. fold e. lens.
Qed.
End Sound.

Definition demo_bytes : bytes :=
  [3] ++ replicate 32 7 ++ replicate 32 8 ++ to_le 8 5 ++ [0]
    ++ [0] ++ to_le 16 9 ++ to_le 2 2 ++ str "no".
Lemma failed_detail_survives_witness :
  exists b, encode_entry (H := demo_blake3) (Failed (replicate 32 1) (replicate 32 2) 5
              FailureReason.TimedOut 9 (bounded_failure_detail (str "timed out"))) = Ok b.
Proof.
  destruct (failed_detail_survives (H := demo_blake3) (replicate 32 1) (replicate 32 2) 5
              FailureReason.TimedOut 9 (str "timed out")) as (b & Hb & _); [done..|].
  by exists b.
Defined.
Lemma timer_purpose_unreadable_witness :
  exists b, decode_entry (H := demo_blake3) b = Err (DecodeError.UnknownKind KIND_TIMER_ARMED).
Proof.
  destruct (timer_purpose_unreadable (H := demo_blake3) (replicate 16 1) (replicate 32 2) 2 0 7
              (replicate 32 3) 5) as (b & _ & Hb); [by repeat constructor|lia|].
  by exists b.
Defined.
