(* ===== verification/Journal.v ===== *)
(** kx-journal's log: the [Journal] trait with its laws, the watch cell, and the
    in-memory backend (lib.rs, watch.rs, in_memory.rs). *)
From S2P Require Import Prelude Utf8 Mote Entry.
Import JournalEntry.

Module JournalError.
Inductive JournalError :=
| SchemaVersionMismatch (expected found : Z)
| EntryTooLarge (got : nat)
| Encode (e : EncodeError)
| Decode (e : DecodeError)
| Sqlite
| Invariant (what : bytes).
End JournalError.
Abbreviation JournalError := JournalError.JournalError.

Definition set_seq (entry : JournalEntry) (new_seq : Z) : JournalEntry :=
  match entry with
  | Proposed a b _ c d e => Proposed a b new_seq c d e
  | Committed a b _ c d e f g => Committed a b new_seq c d e f g
  | Repudiated a b _ c d e => Repudiated a b new_seq c d e
  | Failed a b _ c d e => Failed a b new_seq c d e
  | EffectStaged a b _ => EffectStaged a b new_seq
  | RunRegistered a b c _ => RunRegistered a b c new_seq
  | RunVersionsResolved a b c d _ => RunVersionsResolved a b c d new_seq
  | DigestSealed a b _ => DigestSealed a b new_seq
  | ReplanRound a b c d e f g h _ => ReplanRound a b c d e f g h new_seq
  | ReactRound a b c d e f g h i j k l m n _ => ReactRound a b c d e f g h i j k l m n new_seq
  | Approval a b c d _ => Approval a b c d new_seq
  | ReRankRound a b c d e f g h i _ => ReRankRound a b c d e f g h i new_seq
  | TimerArmed a b c d e f _ => TimerArmed a b c d e f new_seq
  end.

(** [if let Repudiated { ref mut idempotency_key, .. } = entry]: the derived key. *)
Definition derive_key `{Blake3} (entry : JournalEntry) : JournalEntry :=
  match entry with
  | Repudiated target _ seq tseq reason by_ =>
      Repudiated target (repudiation_idempotency_key target tseq) seq tseq reason by_
  | _ => entry
  end.
Definition is_deduped (kind : Z) : bool :=
  (kind =? KIND_COMMITTED) || (kind =? KIND_REPUDIATED) || (kind =? KIND_EFFECT_STAGED).
Definition same_fact (kind : Z) (key : bytes) (e : JournalEntry) : bool :=
  (entry_kind e =? kind) && bool_decide (entry_idempotency_key e = key).
(** [iter().find(p)] *)
Fixpoint find_entry (p : JournalEntry -> bool) (l : list JournalEntry) : option JournalEntry :=
  match l with
  | [] => None
  | e :: l => if p e then Some e else find_entry p l
  end.
Definition existing_fact (l : list JournalEntry) (entry : JournalEntry) : option JournalEntry :=
  let kind := entry_kind entry in
  if is_deduped kind then find_entry (same_fact kind (entry_idempotency_key entry)) l else None.

Definition is_committed_of (mote_id : MoteId) (e : JournalEntry) : bool :=
  match e with Committed m _ _ _ _ _ _ _ => bool_decide (m = mote_id) | _ => false end.
Definition committed_ref (e : JournalEntry) : option ContentRef :=
  match e with Committed _ _ _ _ r _ _ _ => Some r | _ => None end.
Definition has_def_hash (h : bytes) (e : JournalEntry) : bool :=
  match e with Committed _ _ _ _ _ _ _ h' => bool_decide (h' = h) | _ => false end.
Definition in_range (start stop : Z) (e : JournalEntry) : bool :=
  (start <=? entry_seq e) && (entry_seq e <? stop).
Definition filter_entries (p : JournalEntry -> bool) (l : list JournalEntry) : list JournalEntry :=
  List.filter p l.

(** ** The watch cell: a published head that only grows *)
Record JournalWatch := { head : Z }.
Definition JournalWatch_new : JournalWatch := {| head := 0 |}.
Definition publish (w : JournalWatch) (h : Z) : JournalWatch :=
  if head w <? h then {| head := h |} else w.

(** ** The [Journal] trait *)
Class Journal (J : Type) := {
  append : J -> JournalEntry -> outcome (JournalEntry * J) JournalError;
  append_batch : J -> list JournalEntry -> outcome (list JournalEntry * J) JournalError;
  read_committed : J -> MoteId -> outcome (option JournalEntry) JournalError;
  read_entries_by_seq : J -> Z -> Z -> outcome (list JournalEntry) JournalError;
  list_committed_refs : J -> outcome (list ContentRef) JournalError;
  list_committed_by_mote_def_hash : J -> bytes -> outcome (list JournalEntry) JournalError;
  current_seq : J -> outcome Z JournalError;
  count_entries : J -> outcome Z JournalError
}.

(** The trait's default batch: a loop over [append]. *)
Fixpoint default_append_batch `{Journal J} (j : J) (entries : list JournalEntry)
    : outcome (list JournalEntry * J) JournalError :=
  match entries with
  | [] => Ok ([], j)
  | e :: es =>
      let* (d, j) := append j e in
      let* (ds, j) := default_append_batch j es in
      Ok (d :: ds, j)
  end.

(** ** The in-memory backend *)
Record State := { entries : list JournalEntry; next_seq : Z }.
Record InMemoryJournal := { state : State; watch : JournalWatch }.
Definition InMemoryJournal_new : InMemoryJournal :=
  {| state := {| entries := []; next_seq := 0 |}; watch := JournalWatch_new |}.

Section InMemory.
Context `{Blake3}.

Definition mem_append (j : InMemoryJournal) (entry : JournalEntry)
    : outcome (JournalEntry * InMemoryJournal) JournalError :=
  let entry := derive_key entry in
  let st := j.(state) in
  match existing_fact st.(entries) entry with
  | Some existing => Ok (existing, j)
  | None =>
      let next := u64_add st.(next_seq) 1 in
      let entry := set_seq entry next in
      let st := {| entries := st.(entries) ++ [entry]; next_seq := next |} in
      Ok (entry, {| state := st; watch := publish j.(watch) next |})
  end.

(** The batch loop's locals: [next_seq], [staged], [durable]. *)
Definition batch_step (committed : list JournalEntry)
    (acc : Z * list JournalEntry * list JournalEntry) (entry : JournalEntry)
    : Z * list JournalEntry * list JournalEntry :=
  let '(next, staged, durable) := acc in
  let entry := derive_key entry in
  match existing_fact (committed ++ staged) entry with
  | Some existing => (next, staged, durable ++ [existing])
  | None =>
      let next := u64_add next 1 in
      let entry := set_seq entry next in
      (next, staged ++ [entry], durable ++ [entry])
  end.
Definition mem_append_batch (j : InMemoryJournal) (es : list JournalEntry)
    : outcome (list JournalEntry * InMemoryJournal) JournalError :=
  match es with
  | [] => Ok ([], j)
  | _ =>
      let st := j.(state) in
      let '(next, staged, durable) :=
        foldl (batch_step st.(entries)) (st.(next_seq), [], []) es in
      Ok (durable, {| state := {| entries := st.(entries) ++ staged; next_seq := next |};
                      watch := publish j.(watch) next |})
  end.

Definition seq_le (a b : JournalEntry) : Prop := entry_seq a <= entry_seq b.
#[export] Instance seq_le_dec : RelDecision seq_le.
Proof. intros a b. unfold seq_le. apply _. Defined.

Definition mem_read_committed (j : InMemoryJournal) (mote_id : MoteId)
    : outcome (option JournalEntry) JournalError :=
  Ok (find_entry (is_committed_of mote_id) j.(state).(entries)).
Definition mem_read_entries_by_seq (j : InMemoryJournal) (start stop : Z)
    : outcome (list JournalEntry) JournalError :=
  Ok (merge_sort seq_le (filter_entries (in_range start stop) j.(state).(entries))).
Definition mem_list_committed_refs (j : InMemoryJournal) : outcome (list ContentRef) JournalError :=
  Ok (omap committed_ref j.(state).(entries)).
Definition mem_list_committed_by_mote_def_hash (j : InMemoryJournal) (h : bytes)
    : outcome (list JournalEntry) JournalError :=
  Ok (filter_entries (has_def_hash h) j.(state).(entries)).
Definition mem_current_seq (j : InMemoryJournal) : outcome Z JournalError :=
  Ok j.(state).(next_seq).
Definition mem_count_entries (j : InMemoryJournal) : outcome Z JournalError :=
  Ok (Z.of_nat (length j.(state).(entries))).

#[export] Instance InMemoryJournal_Journal : Journal InMemoryJournal := {|
  append := mem_append;
  append_batch := mem_append_batch;
  read_committed := mem_read_committed;
  read_entries_by_seq := mem_read_entries_by_seq;
  list_committed_refs := mem_list_committed_refs;
  list_committed_by_mote_def_hash := mem_list_committed_by_mote_def_hash;
  current_seq := mem_current_seq;
  count_entries := mem_count_entries
|}.

(** ** The abstract log every backend implements

    A log is the list of its entries; the entry at index [i] has seq [i + 1]. *)
Definition log_append (l : list JournalEntry) (e : JournalEntry)
    : JournalEntry * list JournalEntry :=
  let e := derive_key e in
  match existing_fact l e with
  | Some x => (x, l)
  | None => let e := set_seq e (Z.of_nat (length l) + 1) in (e, l ++ [e])
  end.
Fixpoint log_append_all (l es : list JournalEntry) : list JournalEntry * list JournalEntry :=
  match es with
  | [] => ([], l)
  | e :: es =>
      let '(d, l) := log_append l e in
      let '(ds, l) := log_append_all l es in
      (d :: ds, l)
  end.

Definition contiguous (l : list JournalEntry) : Prop :=
  forall i e, l !! i = Some e -> entry_seq e = Z.of_nat i + 1.
Definition facts_unique (l : list JournalEntry) : Prop :=
  forall i j a b, l !! i = Some a -> l !! j = Some b ->
    is_deduped (entry_kind a) = true -> entry_kind a = entry_kind b ->
    entry_idempotency_key a = entry_idempotency_key b -> i = j.
Definition log_wf (l : list JournalEntry) : Prop := contiguous l /\ facts_unique l.

Lemma set_seq_kind e n : entry_kind (set_seq e n) = entry_kind e.
Proof. by destruct e. Qed.
Lemma set_seq_key e n : entry_idempotency_key (set_seq e n) = entry_idempotency_key e.
Proof. by destruct e. Qed.
Lemma set_seq_seq e n : entry_seq (set_seq e n) = n.
Proof. by destruct e. Qed.

Lemma find_entry_some p l e : find_entry p l = Some e -> e ∈ l /\ p e = true.
Proof.
  induction l as [|x l IH]; cbn; [done|]. case_match; [intros [= ->]; set_solver|set_solver].
Qed.
Lemma find_entry_none p l e : find_entry p l = None -> e ∈ l -> p e = false.
Proof. induction l as [|x l IH]; cbn; [set_solver|]. case_match; [done|set_solver]. Qed.
Lemma existing_fact_none l e x :
  existing_fact l e = None -> is_deduped (entry_kind e) = true -> x ∈ l ->
  entry_kind x = entry_kind e -> entry_idempotency_key x <> entry_idempotency_key e.
Proof.
  unfold existing_fact. intros Hf Hd Hx Hk. rewrite Hd in Hf. eapply find_entry_none in Hf; [|done].
  unfold same_fact in Hf. rewrite Hk, Z.eqb_refl in Hf. by apply bool_decide_eq_false in Hf.
Qed.
Lemma existing_fact_some l e x :
  existing_fact l e = Some x ->
  x ∈ l /\ is_deduped (entry_kind e) = true /\ entry_kind x = entry_kind e
  /\ entry_idempotency_key x = entry_idempotency_key e.
Proof.
  unfold existing_fact. case_match eqn:G; [|done]. intros [Hx Hs]%find_entry_some.
  apply andb_true_iff in Hs as [?%Z.eqb_eq ?%bool_decide_eq_true]. done.
Qed.

Lemma log_append_wf l e : log_wf l -> log_wf (log_append l e).2.
Proof.
  intros [Hc Hu]. unfold log_append. case_match eqn:G; [done|]. cbn [snd]. split.
  - intros i x Hx. apply lookup_app_Some in Hx as [Hx|[Hle Hx]]; [by apply Hc|].
    apply list_lookup_singleton_Some in Hx as [? <-]. rewrite set_seq_seq. lia.
  - assert (Hnew : forall i x, l !! i = Some x -> is_deduped (entry_kind x) = true ->
      entry_kind x = entry_kind (derive_key e) ->
      entry_idempotency_key x <> entry_idempotency_key (derive_key e)).
    { intros i x Hx Hd Hk. eapply existing_fact_none; [done|by rewrite <- Hk| |done].
      by eapply list_elem_of_lookup_2. }
    intros i j a b Ha Hb Hd Hk He.
    apply lookup_app_Some in Ha as [Ha|[Hi Ha]], Hb as [Hb|[Hj Hb]];
      [by eapply Hu| | |];
      repeat match goal with
      | H : [_] !! _ = Some _ |- _ => apply list_lookup_singleton_Some in H as [? <-]
      end; rewrite ?set_seq_kind, ?set_seq_key in *.
    + exfalso. by eapply Hnew.
    + exfalso. symmetry in Hk, He. eapply Hnew; [done|by rewrite Hk|done..].
    + lia.
Qed.
Lemma log_append_all_wf l es : log_wf l -> log_wf (log_append_all l es).2.
Proof.
  revert l. induction es as [|e es IH]; intros l Hl; cbn [log_append_all]; [done|].
  pose proof (log_append_wf l e Hl). destruct (log_append l e) as [d l'].
  specialize (IH l'). destruct (log_append_all l' es) as [ds l'']. by apply IH.
Qed.
Lemma log_wf_nil : log_wf [].
Proof. split; intros ?; intros; by rewrite lookup_nil in *. Qed.
End InMemory.

(** ** Reading a contiguous log in order *)
Lemma elem_of_filter_entries p l x : x ∈ filter_entries p l <-> x ∈ l /\ p x = true.
Proof. unfold filter_entries. rewrite !list_elem_of_In, filter_In. done. Qed.

Lemma contiguous_sorted l : contiguous l -> StronglySorted (fun a b => entry_seq a < entry_seq b) l.
Proof.
  intros Hc. apply StronglySorted_lookup. intros i j x y Hij Hx Hy.
  rewrite (Hc i x Hx), (Hc j y Hy). lia.
Qed.
(** Sorting what is filtered from a contiguous log changes nothing. *)
Lemma sort_filter_contiguous p l :
  contiguous l -> merge_sort seq_le (filter_entries p l) = filter_entries p l.
Proof.
  intros Hc. apply (merge_sort_increasing entry_seq); [done|].
  by apply StronglySorted_filter, contiguous_sorted.
Qed.
Lemma filter_range_app l a b c :
  StronglySorted (fun x y => entry_seq x < entry_seq y) l -> a <= b -> b <= c ->
  filter_entries (in_range a c) l
  = filter_entries (in_range a b) l ++ filter_entries (in_range b c) l.
Proof.
  intros Hs Hab Hbc. induction Hs as [|x l Hl IH Hx]; [done|].
  unfold filter_entries in *. cbn [List.filter].
  replace (in_range a c x) with (in_range a b x || in_range b c x)
    by (unfold in_range; lia).
  destruct (in_range a b x) eqn:E1, (in_range b c x) eqn:E2; cbn [orb app]; rewrite ?IH; try done.
  - unfold in_range in *; lia.
  - replace (List.filter (in_range a b) l) with (@nil JournalEntry); [done|].
    symmetry. apply elem_of_nil_inv. intros y [Hy Hin]%elem_of_filter_entries.
    rewrite Forall_forall in Hx. specialize (Hx y Hy). unfold in_range in *. cbn in Hx. lia.
Qed.
Lemma filter_range_all l :
  contiguous l -> filter_entries (in_range 0 (Z.of_nat (length l) + 1)) l = l.
Proof.
  intros Hc. assert (forall l', (forall x, x ∈ l' -> in_range 0 (Z.of_nat (length l) + 1) x = true) ->
    filter_entries (in_range 0 (Z.of_nat (length l) + 1)) l' = l') as Hf.
  { induction l' as [|x l' IH]; intros Hl'; [done|]. unfold filter_entries in *. cbn [List.filter].
    rewrite (Hl' x) by set_solver. f_equal. apply IH. set_solver. }
  apply Hf. intros x [i Hi]%list_elem_of_lookup_1. pose proof (Hc i x Hi).
  apply lookup_lt_Some in Hi. unfold in_range. lia.
Qed.

(** ** What a backend promises *)
Definition MAX_LOG : Z := 2 ^ 63.
Class JournalLaws (J : Type) `{Blake3} `{Journal J} := {
  represents : J -> list JournalEntry -> Prop;
  accepts : JournalEntry -> Prop;
  represents_wf : forall j l, represents j l -> log_wf l;
  append_law : forall j l e,
    represents j l -> accepts e -> Z.of_nat (length l) + 1 < MAX_LOG ->
    exists j', append j e = Ok ((log_append l e).1, j') /\ represents j' (log_append l e).2;
  append_batch_law : forall j l es,
    represents j l -> Forall accepts es -> Z.of_nat (length l + length es) < MAX_LOG ->
    exists j', append_batch j es = Ok ((log_append_all l es).1, j')
               /\ represents j' (log_append_all l es).2;
  read_entries_law : forall j l a b,
    represents j l -> 0 <= a < MAX_LOG -> 0 <= b < MAX_LOG ->
    read_entries_by_seq j a b = Ok (filter_entries (in_range a b) l);
  read_committed_law : forall j l m,
    represents j l ->
    (forall x y, x ∈ l -> y ∈ l -> is_committed_of m x = true -> is_committed_of m y = true -> x = y) ->
    read_committed j m = Ok (find_entry (is_committed_of m) l);
  refs_law : forall j l, represents j l -> list_committed_refs j = Ok (omap committed_ref l);
  def_hash_law : forall j l h,
    represents j l -> length h = 32%nat ->
    list_committed_by_mote_def_hash j h = Ok (filter_entries (has_def_hash h) l);
  current_seq_law : forall j l, represents j l -> current_seq j = Ok (Z.of_nat (length l));
  count_law : forall j l, represents j l -> count_entries j = Ok (Z.of_nat (length l))
}.

(** ** The in-memory backend keeps the promise *)
Section InMemoryLaws.
Context `{Blake3}.

Record mem_represents (j : InMemoryJournal) (l : list JournalEntry) : Prop := {
  mr_entries : j.(state).(entries) = l;
  mr_next : j.(state).(next_seq) = Z.of_nat (length l);
  mr_watch : j.(watch).(head) = Z.of_nat (length l);
  mr_small : Z.of_nat (length l) < MAX_LOG;
  mr_wf : log_wf l
}.

Lemma mem_represents_new : mem_represents InMemoryJournal_new [].
Proof. split; try done; apply log_wf_nil. Qed.

Lemma log_append_length l e :
  (length l <= length (log_append l e).2 <= length l + 1)%nat.
Proof. unfold log_append. case_match; cbn [snd]; rewrite ?length_app; cbn [length]; lia. Qed.

Lemma log_append_all_length l es :
  (length l <= length (log_append_all l es).2 <= length l + length es)%nat.
Proof.
  revert l. induction es as [|e es IH]; intros l; cbn [log_append_all length]; [cbn; lia|].
  pose proof (log_append_length l e). destruct (log_append l e) as [d l']. specialize (IH l').
  destruct (log_append_all l' es) as [ds l'']. cbn [fst snd] in *. lia.
Qed.

Lemma mem_append_refines j l e :
  mem_represents j l -> Z.of_nat (length l) + 1 < MAX_LOG ->
  exists j', mem_append j e = Ok ((log_append l e).1, j') /\ mem_represents j' (log_append l e).2.
Proof.
  intros Hr Hlt. pose proof (log_append_wf l e (mr_wf _ _ Hr)) as Hwf. revert Hwf.
  destruct Hr as [He Hn Hw Hs Hl]. unfold mem_append, log_append. rewrite He.
  case_match; cbn [fst snd]; intros Hwf; [by eexists|].
  rewrite Hn, u64_add_small by (unfold MAX_LOG in *; lia).
  eexists. split; [reflexivity|]. split; cbn; rewrite ?length_app; cbn [length]; try done; try lia.
  unfold publish. rewrite Hw, (proj2 (Z.ltb_lt _ _)) by lia. cbn. lia.
Qed.

(** The batch loop's invariant: the locals are the log grown so far. *)
Lemma batch_loop l es st next dur :
  next = Z.of_nat (length (l ++ st)) -> Z.of_nat (length (l ++ st) + length es) < MAX_LOG ->
  exists st' next', foldl (batch_step l) (next, st, dur) es
      = (next', st', dur ++ (log_append_all (l ++ st) es).1)
    /\ (log_append_all (l ++ st) es).2 = l ++ st' /\ next' = Z.of_nat (length (l ++ st')).
Proof.
  revert st next dur. induction es as [|e es IH]; intros st next dur Hn Hlt.
  { cbn. rewrite app_nil_r. eauto. }
  cbn [foldl log_append_all length] in *. unfold batch_step at 2, log_append.
  destruct (existing_fact (l ++ st) (derive_key e)) as [x|].
  - destruct (IH st next (dur ++ [x])) as (st' & next' & -> & Hl & Hn'); [done|lia|].
    exists st', next'. destruct (log_append_all (l ++ st) es) as [ds l']. cbn in *.
    by rewrite <- app_assoc.
  - rewrite u64_add_small by (unfold MAX_LOG in *; lia). rewrite Hn, <- app_assoc.
    set (e' := set_seq _ _).
    destruct (IH (st ++ [e']) (Z.of_nat (length (l ++ st)) + 1) (dur ++ [e'])) as (st' & next' & -> & Hl & Hn').
    { rewrite !length_app. cbn. lia. }
    { rewrite !length_app in *. cbn. lia. }
    exists st', next'. destruct (log_append_all (l ++ st ++ [e']) es) as [ds l']. cbn in *.
    by rewrite <- app_assoc.
Qed.
Lemma mem_append_batch_refines j l es :
  mem_represents j l -> Z.of_nat (length l + length es) < MAX_LOG ->
  exists j', mem_append_batch j es = Ok ((log_append_all l es).1, j')
             /\ mem_represents j' (log_append_all l es).2.
Proof.
  intros Hr Hlt. pose proof (log_append_all_wf l es (mr_wf _ _ Hr)) as Hwf.
  destruct es as [|e es]; [by eexists|]. destruct Hr as [He Hn Hw Hs Hl].
  unfold mem_append_batch. rewrite He.
  destruct (batch_loop l (e :: es) [] (next_seq (state j)) []) as (st' & next' & -> & Hl' & Hn');
    rewrite ?app_nil_r in *; [done|done|].
  rewrite Hl' in *. eexists. split; [reflexivity|].
  assert (length l <= length (l ++ st') <= length l + length (e :: es))%nat as Hlen.
  { rewrite <- Hl'. apply log_append_all_length. }
  split; cbn [state entries next_seq watch]; try done; [|lia].
  unfold publish. rewrite Hw, Hn'. destruct (Z.ltb_spec (Z.of_nat (length l)) (Z.of_nat (length (l ++ st'))));
    cbn [head]; [done|]. rewrite Hw. lia.
Qed.

#[export] Instance InMemoryJournal_laws : JournalLaws InMemoryJournal.
Proof.
  refine {| represents := mem_represents; accepts := fun _ => True |}.
  - intros j l Hr. apply Hr.
  - intros j l e Hr _ Hlt. by apply mem_append_refines.
  - intros j l es Hr _ Hlt. by apply mem_append_batch_refines.
  - intros j l a b Hr _ _. cbn. unfold mem_read_entries_by_seq.
    rewrite (mr_entries _ _ Hr), sort_filter_contiguous; [done|apply Hr].
  - intros j l m Hr _. cbn. unfold mem_read_committed. by rewrite (mr_entries _ _ Hr).
  - intros j l Hr. cbn. unfold mem_list_committed_refs. by rewrite (mr_entries _ _ Hr).
  - intros j l h Hr _. cbn. unfold mem_list_committed_by_mote_def_hash.
    by rewrite (mr_entries _ _ Hr).
  - intros j l Hr. cbn. unfold mem_current_seq. by rewrite (mr_next _ _ Hr).
  - intros j l Hr. cbn. unfold mem_count_entries. by rewrite (mr_entries _ _ Hr).
Defined.

(** A journal's life: single appends and batches, while seqs remain. *)
Inductive mem_step : InMemoryJournal -> InMemoryJournal -> Prop :=
| step_append j e d j' :
    Z.of_nat (length (entries (state j))) + 1 < MAX_LOG ->
    mem_append j e = Ok (d, j') -> mem_step j j'
| step_batch j es ds j' :
    Z.of_nat (length (entries (state j)) + length es) < MAX_LOG ->
    mem_append_batch j es = Ok (ds, j') -> mem_step j j'.

(** No step removes or rewrites an entry. *)
Lemma mem_step_prefix j j' : mem_step j j' -> entries (state j) `prefix_of` entries (state j').
Proof.
  destruct 1 as [j e d j' _ Hs|j es ds j' _ Hs].
  - unfold mem_append in Hs. case_match; simplify_eq; cbn; [done|by eexists].
  - unfold mem_append_batch in Hs. destruct es as [|e es]; [by simplify_eq|].
    destruct (foldl _ _ (e :: es)) as [[n st] dur]. simplify_eq. cbn. by eexists.
Qed.
Lemma mem_step_represents j j' l :
  mem_represents j l -> mem_step j j' -> exists l', mem_represents j' l'.
Proof.
  intros Hr Hs. destruct Hs as [j e d j' Hlt Hs|j es ds j' Hlt Hs]; rewrite (mr_entries _ _ Hr) in Hlt.
  - destruct (mem_append_refines j l e Hr Hlt) as (j1 & H1 & Hr1). rewrite Hs in H1. simplify_eq. eauto.
  - destruct (mem_append_batch_refines j l es Hr Hlt) as (j1 & H1 & Hr1). rewrite Hs in H1.
    simplify_eq. eauto.
Qed.
Lemma mem_reachable_represents j l j' :
  mem_represents j l -> rtc mem_step j j' -> exists l', mem_represents j' l'.
Proof.
  intros Hr Hs. revert l Hr. induction Hs as [j|j j1 j2 Hs Hss IH]; intros l Hr; [eauto|].
  destruct (mem_step_represents _ _ _ Hr Hs) as [l1 Hr1]. eauto.
Qed.

(** [C2] Log invariant of the in-memory journal: in every state reached from
    the empty journal by appends and batches, the entry at index i has seq i+1,
    no two Committed, Repudiated or EffectStaged entries share kind and key,
    and [current_seq], [count_entries] and the published watch head agree; and
    entries once written are never removed or altered by later steps. *)
Theorem journal_log_invariant j j' :
  rtc mem_step InMemoryJournal_new j -> rtc mem_step j j' ->
  contiguous j.(state).(entries) /\ facts_unique j.(state).(entries)
  /\ current_seq j = Ok j.(watch).(head) /\ count_entries j = Ok j.(watch).(head)
  /\ j.(state).(entries) `prefix_of` j'.(state).(entries).
Proof.
  intros Hj Hj'. destruct (mem_reachable_represents _ _ _ mem_represents_new Hj) as [l [He Hn Hw _ [Hc Hu]]].
  cbn. unfold mem_current_seq, mem_count_entries. rewrite He, Hn, Hw. split_and!; try done.
  rewrite <- He. clear -Hj'. induction Hj' as [j|j j1 j2 Hs _ IH]; [done|].
  etrans; [by apply mem_step_prefix|done].
Qed.

(** Group commit: the in-memory batch, which stages entries under one lock
    and publishes once, returns the same durable entries and leaves the same
    journal as appending the entries one at a time. *)
Theorem append_batch_sequential j l es :
  mem_represents j l -> Z.of_nat (length l + length es) < MAX_LOG ->
  mem_append_batch j es = default_append_batch j es.
Proof.
  intros Hr Hlt. destruct (mem_append_batch_refines j l es Hr Hlt) as (j1 & -> & Hr1).
  assert (exists j2, default_append_batch j es = Ok ((log_append_all l es).1, j2)
                     /\ mem_represents j2 (log_append_all l es).2) as (j2 & -> & Hr2).
  { clear j1 Hr1. revert j l Hr Hlt. induction es as [|e es IH]; intros j l Hr Hlt; [by eexists|].
    cbn [default_append_batch log_append_all length] in *.
    destruct (mem_append_refines j l e Hr) as (j1 & Ha & Hr1); [lia|]. cbn [append InMemoryJournal_Journal].
    rewrite Ha. cbn [obind]. pose proof (log_append_length l e) as Hll.
    destruct (log_append l e) as [d l1]. cbn [fst snd] in *.
    destruct (IH j1 l1 Hr1) as (j2 & -> & Hr2); [lia|]. cbn [obind].
    destruct (log_append_all l1 es) as [ds l2]. by eexists. }
  do 2 f_equal. destruct Hr1 as [E1 N1 W1 _ _], Hr2 as [E2 N2 W2 _ _].
  destruct j1 as [[? ?] [?]], j2 as [[? ?] [?]]. cbn in *. congruence.
Qed.
End InMemoryLaws.

(** ** Theorems of every lawful backend *)
Section AnyBackend.
Context `{JournalLaws J}.

Lemma log_append_again l e :
  is_deduped (entry_kind e) = true ->
  log_append (log_append l e).2 e = ((log_append l e).1, (log_append l e).2).
Proof.
  intros Hd. assert (is_deduped (entry_kind (derive_key e)) = true) as Hd' by by destruct e.
  unfold log_append at 2 3 4. destruct (existing_fact l (derive_key e)) as [x|] eqn:G.
  { cbn. unfold log_append. by rewrite G. }
  cbn. set (e' := set_seq _ _). unfold log_append.
  assert (existing_fact (l ++ [e']) (derive_key e) = Some e') as ->; [|done].
  revert G. unfold existing_fact. rewrite Hd'. intros G.
  assert (forall p l, find_entry p l = None -> p e' = true -> find_entry p (l ++ [e']) = Some e') as Hf.
  { intros p l0. induction l0 as [|x l0 IH]; cbn; [by intros _ ->|]. case_match; [done|]. auto. }
  apply Hf; [done|]. unfold same_fact, e'. rewrite set_seq_kind, set_seq_key, Z.eqb_refl.
  by rewrite bool_decide_true.
Qed.

(** Idempotent facts: on any lawful backend, re-appending a Committed,
    Repudiated or EffectStaged entry returns the durable entry of the first
    append and changes neither the log nor its length. *)
Theorem append_idempotent j l e :
  represents j l -> accepts e -> is_deduped (entry_kind e) = true ->
  Z.of_nat (length l) + 2 < MAX_LOG ->
  exists d j1 j2 l', append j e = Ok (d, j1) /\ append j1 e = Ok (d, j2)
    /\ represents j1 l' /\ represents j2 l'.
Proof.
  intros Hr Ha Hd Hlt. destruct (append_law j l e Hr Ha) as (j1 & H1' & Hr1); [lia|].
  pose proof (log_append_length l e).
  destruct (append_law j1 _ e Hr1 Ha) as (j2 & H2' & Hr2); [lia|].
  rewrite log_append_again in H2', Hr2 by done. cbn in H2', Hr2. eauto 10.
Qed.

(** Range reads: a lawful backend returns the entries of a half-open seq
    range in ascending order, adjacent ranges concatenate, and the range
    [0, current_seq + 1) is the whole log. *)
Theorem read_ranges_concat j l a b c :
  represents j l -> 0 <= a -> a <= b -> b <= c -> c < MAX_LOG -> Z.of_nat (length l) + 1 < MAX_LOG ->
  (exists r1 r2, read_entries_by_seq j a b = Ok r1 /\ read_entries_by_seq j b c = Ok r2
     /\ read_entries_by_seq j a c = Ok (r1 ++ r2)
     /\ StronglySorted (fun x y => entry_seq x < entry_seq y) (r1 ++ r2))
  /\ (let* h := current_seq j in read_entries_by_seq j 0 (h + 1)) = Ok l.
Proof.
  intros Hr Ha Hab Hbc Hc Hlen. destruct (represents_wf j l Hr) as [Hcont _].
  pose proof (contiguous_sorted l Hcont) as Hs. split.
  - exists (filter_entries (in_range a b) l), (filter_entries (in_range b c) l).
    rewrite !(read_entries_law j l) by (done || lia).
    rewrite <- filter_range_app by done. split_and!; try done.
    by apply StronglySorted_filter.
  - rewrite (current_seq_law j l Hr). cbn [obind].
    rewrite (read_entries_law j l) by (done || lia). f_equal. by apply filter_range_all.
Qed.
End AnyBackend.

(** ** Witnesses *)
Definition demo_staged : JournalEntry := EffectStaged (replicate 32 1) (replicate 32 2) 0.
Definition demo_failed : JournalEntry :=
  Failed (replicate 32 1) (replicate 32 3) 0 FailureReason.TimedOut 7 [].
Definition demo_journal : InMemoryJournal :=
  {| state := {| entries := [set_seq demo_staged 1]; next_seq := 1 |}; watch := {| head := 1 |} |}.
Lemma demo_reachable : rtc (mem_step (H := demo_blake3)) InMemoryJournal_new demo_journal.
Proof.
  eapply rtc_once, (step_append _ demo_staged); [by vm_compute|]. vm_compute. reflexivity.
Qed.
Lemma demo_represents : mem_represents demo_journal [set_seq demo_staged 1].
Proof.
  destruct (mem_reachable_represents (H := demo_blake3) _ _ _ mem_represents_new demo_reachable)
    as [l Hr]. pose proof (mr_entries _ _ Hr) as <-. exact Hr.
Qed.

Lemma journal_log_invariant_witness :
  contiguous (entries (state demo_journal)) /\ facts_unique (entries (state demo_journal)).
Proof.
  destruct (journal_log_invariant (H := demo_blake3) demo_journal demo_journal) as (H1 & H2 & _).
  - apply demo_reachable.
  - apply rtc_refl.
  - by split.
Defined.
Lemma append_batch_sequential_witness :
  mem_append_batch (H := demo_blake3) demo_journal [demo_failed; demo_staged; demo_failed]
  = default_append_batch (H := InMemoryJournal_Journal (H := demo_blake3)) demo_journal [demo_failed; demo_staged; demo_failed].
Proof.
  apply (append_batch_sequential (H := demo_blake3) demo_journal [set_seq demo_staged 1]).
  - apply demo_represents.
  - by vm_compute.
Defined.
Lemma append_idempotent_witness :
  exists d j1 j2, mem_append (H := demo_blake3) InMemoryJournal_new demo_staged = Ok (d, j1)
    /\ mem_append (H := demo_blake3) j1 demo_staged = Ok (d, j2).
Proof.
  destruct (append_idempotent (H1 := InMemoryJournal_laws (H := demo_blake3))
              InMemoryJournal_new [] demo_staged) as (d & j1 & j2 & _ & H1 & H2 & _).
  - apply mem_represents_new.
  - exact I.
  - reflexivity.
  - by vm_compute.
  - exists d, j1, j2. split; [exact H1|exact H2].
Defined.
Lemma read_ranges_concat_witness :
  exists r1 r2, mem_read_entries_by_seq demo_journal 0 1 = Ok r1
    /\ mem_read_entries_by_seq demo_journal 1 2 = Ok r2
    /\ mem_read_entries_by_seq demo_journal 0 2 = Ok (r1 ++ r2).
Proof.
  destruct (read_ranges_concat (H1 := InMemoryJournal_laws (H := demo_blake3)) demo_journal
              [set_seq demo_staged 1] 0 1 2) as ((r1 & r2 & H1 & H2 & H3 & _) & _);
    [apply demo_represents|lia..|by vm_compute|by vm_compute|].
  exists r1, r2. done.
Defined.
