(* ===== verification/Migration.v ===== *)
(** kx-journal's forward migration (migration.rs): entries encoded under schema
    versions 5 to 17 read as current entries. *)
From S2P Require Import Prelude Utf8 Mote Entry EntryEncode EntryDecode EntryRoundtrip EntrySound Journal.
Import JournalEntry.

Definition MIN_SUPPORTED_SCHEMA_VERSION : Z := 5.
Definition V5_ABSENT_IDEMPOTENCY_CLASS : IdempotencyClassTag := IdempotencyClassTag.AtLeastOnce.

(** [body.get(i..j)] *)
Definition get_range (l : bytes) (i j : nat) : option bytes :=
  if (i <=? j)%nat && (j <=? length l)%nat then Some (take (j - i) (drop i l)) else None.

Definition v5_run_versions_has_capability (b : bytes) : bool :=
  let PREFIX := (INSTANCE_ID_LEN + 32)%nat in
  if negb (bool_decide (b !! 0%nat = Some KIND_RUN_VERSIONS_RESOLVED)) then false
  else
    match get_range b HEADER_LEN (length b) with
    | None => false
    | Some body =>
        match get_range body PREFIX (PREFIX + 2) with
        | None => false
        | Some model_id_len_bytes =>
            let model_id_len := Z.to_nat (from_le model_id_len_bytes) in
            let has_cap_offset := (PREFIX + 2 + model_id_len)%nat in
            bool_decide (body !! has_cap_offset = Some 1)
        end
    end.

Section Migrate.
Context `{Blake3}.

Definition decode_current (b def_hash : bytes) : outcome JournalEntry JournalError :=
  omap_err JournalError.Decode (decode_entry_with_def_hash b def_hash).
Definition upconvert_v8_to_current (b def_hash : bytes) : outcome JournalEntry JournalError :=
  if bool_decide (b !! 0%nat = Some KIND_REACT_ROUND) then decode_current (b ++ [0]) def_hash
  else decode_current b def_hash.
Definition upconvert_v5_to_current (b def_hash : bytes) : outcome JournalEntry JournalError :=
  if v5_run_versions_has_capability b
  then decode_current (b ++ [IdempotencyClassTag.as_u8 V5_ABSENT_IDEMPOTENCY_CLASS]) def_hash
  else decode_current b def_hash.

Definition migrate_entry (b : bytes) (from_version : Z) (def_hash : bytes)
    : outcome JournalEntry JournalError :=
  if negb ((MIN_SUPPORTED_SCHEMA_VERSION <=? from_version) && (from_version <=? JOURNAL_SCHEMA_VERSION))
  then Err (JournalError.SchemaVersionMismatch JOURNAL_SCHEMA_VERSION from_version)
  else
    match from_version with
    | 18 => decode_current b def_hash
    | 17 => decode_current b def_hash
    | 16 => decode_current b def_hash
    | 15 => decode_current b def_hash
    | 14 => decode_current b def_hash
    | 13 => decode_current b def_hash
    | 12 => decode_current b def_hash
    | 11 => decode_current b def_hash
    | 10 => decode_current b def_hash
    | 9 => decode_current b def_hash
    | 8 => upconvert_v8_to_current b def_hash
    | 7 => decode_current b def_hash
    | 6 => decode_current b def_hash
    | 5 => upconvert_v5_to_current b def_hash
    | other => Err (JournalError.SchemaVersionMismatch JOURNAL_SCHEMA_VERSION other)
    end.

(** ** Entries as an older binary wrote them

    A version-5 entry is the current one without the idempotency-class byte of
    a resolved capability; a version-8 ReAct round ends after the tool budget. *)
Definition encoded_v5 (e : JournalEntry) (b : bytes) : Prop :=
  match e with
  | RunVersionsResolved _ _ _ (Some cap) _ =>
      cap.(idempotency_class) = V5_ABSENT_IDEMPOTENCY_CLASS
      /\ encode_entry e = Ok (b ++ [IdempotencyClassTag.as_u8 cap.(idempotency_class)])
  | _ => encode_entry e = Ok b
  end.
Definition react_defaults (e : JournalEntry) : Prop :=
  match e with
  | ReactRound _ _ _ _ _ _ _ _ _ salt agentic ctx img approval _ =>
      salt = None /\ agentic = false /\ ctx = None /\ img = None /\ approval = false
  | _ => True
  end.
Definition encoded_v8 (e : JournalEntry) (b : bytes) : Prop :=
  match e with
  | ReactRound _ _ _ _ _ _ _ _ _ _ _ _ _ _ _ => encode_entry e = Ok (b ++ [0; 0; 0; 0; 0])
  | _ => encode_entry e = Ok b
  end.

Lemma decode_current_ok e b :
  entry_typed e -> entry_readable e -> encode_entry e = Ok b ->
  decode_current b (entry_def_hash e) = Ok e.
Proof. intros. unfold decode_current. by rewrite (decode_encode_entry e b). Qed.
Lemma encode_header_head e rest : (encode_header e ++ rest) !! 0%nat = Some (entry_kind e).
Proof. unfold encode_header. by destruct (header_slots e) as [[[id key] seq] nd]. Qed.
Lemma encode_head e b :
  entry_typed e -> entry_readable e -> encode_entry e = Ok b -> b !! 0%nat = Some (entry_kind e).
Proof.
  intros Ht Hr (body & -> & _)%encode_entry_split; try done. apply encode_header_head.
Qed.
Lemma get_range_at body i j x rest :
  at_cursor body i (x ++ rest) -> j = (i + length x)%nat -> get_range body i j = Some x.
Proof.
  intros H0 Hj. pose proof (slice_at (E := unit) _ _ _ _ _ H0 Hj) as Hs. unfold slice in Hs.
  unfold get_range. case_match; [|done]. by injection Hs as ->.
Qed.
Lemma lookup_at body i x rest : at_cursor body i (x :: rest) -> body !! i = Some x.
Proof. intros (pre & -> & <-). by apply list_lookup_middle. Qed.

(** The capability probe finds the flag of a RunVersionsResolved body. *)
Lemma v5_probe inst w m cap seq b flag rest :
  entry_typed (RunVersionsResolved inst w m cap seq) -> short m ->
  b = encode_header (RunVersionsResolved inst w m cap seq) ++ inst ++ w ++ str_layout m ++ flag :: rest ->
  v5_run_versions_has_capability b = bool_decide (flag = 1).
Proof.
  intros Ht Hm Hb. pose proof (encode_header_length _ Ht) as Hh.
  destruct Ht as (Hi & Hw & _). unfold v5_run_versions_has_capability.
  assert (b !! 0%nat = Some KIND_RUN_VERSIONS_RESOLVED) as H0 by (rewrite Hb; apply encode_header_head).
  rewrite bool_decide_true by done. cbn [negb].
  pose proof (at_cursor_0 b) as Hc. rewrite Hb in Hc at 2.
  eapply (at_cursor_app _ _ _ _ HEADER_LEN) in Hc; [|by rewrite Hh].
  rewrite <- (app_nil_r (inst ++ _)) in Hc.
  rewrite (get_range_at _ _ _ _ _ Hc) by (apply at_cursor_length in Hc; rewrite app_nil_r in Hc; lia).
  clear Hc. set (body := inst ++ w ++ str_layout m ++ flag :: rest).
  pose proof (at_cursor_0 body) as Hc. unfold body at 2 in Hc.
  eapply (at_cursor_app _ _ _ _ 16) in Hc; [|by rewrite Hi].
  eapply (at_cursor_app _ _ _ _ 48) in Hc; [|by rewrite Hw].
  unfold str_layout in Hc. rewrite <- app_assoc in Hc.
  rewrite (get_range_at _ _ _ _ _ Hc) by (by rewrite length_to_le).
  eapply (at_cursor_app _ _ _ _ 50) in Hc; [|by rewrite length_to_le].
  rewrite from_to_le, Nat2Z.id by exact Hm.
  eapply at_cursor_app in Hc; [|reflexivity]. apply lookup_at in Hc.
  change (INSTANCE_ID_LEN + 32 + 2)%nat with 50%nat. rewrite Hc. apply bool_decide_ext. split; [by intros [= ->]|by intros ->].
Qed.

Lemma run_versions_encoded inst w m cap seq b :
  encode_entry (RunVersionsResolved inst w m cap seq) = Ok b ->
  short m /\ exists flag rest,
    flag = (match cap with Some _ => 1 | None => 0 end) /\
    b = encode_header (RunVersionsResolved inst w m cap seq) ++ inst ++ w ++ str_layout m ++ flag :: rest
    /\ (is_Some cap -> rest <> []).
Proof.
  cbn [encode_entry]. unfold encode_run_versions. intros He. enc_inv.
  split; [done|]. destruct cap as [c|]; enc_inv; eexists _, _; (split; [reflexivity|]);
    rewrite <- ?app_assoc; (split; [reflexivity|]); intros [? [=]]; by destruct (tool_id c).
Qed.

Lemma kind_run_versions e :
  entry_kind e = KIND_RUN_VERSIONS_RESOLVED ->
  exists inst w m cap seq, e = RunVersionsResolved inst w m cap seq.
Proof. destruct e; intros [=]; eauto 10. Qed.
Lemma kind_react e :
  entry_kind e = KIND_REACT_ROUND ->
  exists t id inst b w m br mt mc salt ag ctx img ra seq,
    e = ReactRound t id inst b w m br mt mc salt ag ctx img ra seq.
Proof. destruct e; intros [=]. do 15 eexists. done. Qed.

Lemma upconvert_v5_ok e b :
  entry_typed e -> entry_readable e -> encoded_v5 e b ->
  upconvert_v5_to_current b (entry_def_hash e) = Ok e.
Proof.
  intros Ht Hr He. unfold upconvert_v5_to_current.
  destruct (decide (entry_kind e = KIND_RUN_VERSIONS_RESOLVED)) as [Hk|Hk].
  - destruct (kind_run_versions e Hk) as (inst & w & m & cap & seq & ->).
    destruct cap as [cap|]; cbn [encoded_v5] in He.
    + destruct He as [Hcls He]. destruct (run_versions_encoded _ _ _ _ _ _ He) as (Hm & flag & rest & -> & Hb & Hne).
      destruct (exists_last (Hne ltac:(eauto))) as (rest' & x & ->).
      assert (b = encode_header (RunVersionsResolved inst w m (Some cap) seq)
                  ++ inst ++ w ++ str_layout m ++ 1 :: rest') as Hb'.
      { rewrite !app_comm_cons, !app_assoc in Hb. apply app_inj_tail in Hb as [-> _].
        by rewrite <- !app_assoc. }
      rewrite (v5_probe _ _ _ _ _ _ _ _ Ht Hm Hb'), bool_decide_true by done.
      rewrite Hcls in He. by apply decode_current_ok.
    + destruct (run_versions_encoded _ _ _ _ _ _ He) as (Hm & flag & rest & -> & Hb & _).
      rewrite (v5_probe _ _ _ _ _ _ _ _ Ht Hm Hb), bool_decide_false by done.
      by apply decode_current_ok.
  - assert (encode_entry e = Ok b) as He' by (destruct e; done).
    unfold v5_run_versions_has_capability. rewrite (encode_head e b), bool_decide_false by (done || congruence).
    by apply decode_current_ok.
Qed.

(** A ReAct round cut after its salt tag reads with every later field absent. *)
Lemma react_cut t id inst bp w m br mt mc seq b :
  let e := ReactRound t id inst bp w m br mt mc None false None None false seq in
  entry_typed e -> entry_readable e -> encode_entry e = Ok (b ++ [0; 0; 0; 0; 0]) ->
  decode_current (b ++ [0]) (entry_def_hash e) = Ok e.
Proof.
  intros e Ht Hr He. pose proof Ht as (H1 & H2 & H3 & H4 & H5 & H6 & H7 & H8 & H9 & _).
  pose proof He as He2. cbn [encode_entry e] in He2. unfold encode_react_round in He2. enc_inv.
  apply encode_react_branch_inv in Hok0 as [-> Hbs].
  set (body := to_le 4 t ++ inst ++ bp ++ w ++ str_layout m ++ branch_layout br
                 ++ to_le 4 mt ++ to_le 4 mc).
  assert (b = encode_header e ++ body) as ->.
  { rewrite !push_opt32_layout in He2. cbn [opt32_layout u8_from_bool] in He2.
    apply (app_inv_tail [0; 0; 0; 0; 0]). rewrite <- He2. unfold body. by rewrite <- !app_assoc. }
  unfold decode_current. rewrite (decode_header e _ (body ++ [0]) _ Ht).
  - change (omap_err JournalError.Decode (decode_react_round id seq (body ++ [0])) = Ok e).
    assert (decode_react_round id seq (body ++ [0]) = Ok e) as ->; [|done].
    pose proof (at_cursor_0 (body ++ [0])) as Hc. revert Hc.
    generalize (body ++ [0]) at 1 3. intros b0 Hc. unfold body in Hc. rewrite <- !app_assoc in Hc.
    rewrite <- (app_nil_r [0]) in Hc. change [0] with (opt32_layout None) in Hc.
    assert (forall calls, br = ReactBranch.ToolBatch calls -> (length calls <= MAX_TOOL_BATCH_CALLS)%nat)
      by (intros calls ->; exact Hr).
    assert (opt_arr 32 None) by done.
    unfold decode_react_round. arm_guard. repeat rd_step Hc.
    do 4 (rewrite (or_absent_end _ _ _ _ Hc); cbn [obind]).
    rewrite finish_at, from_to_le by done. by rewrite bool_decide_false by (by intros [? [=]]).
  - rewrite <- app_assoc. apply at_cursor_0.
  - destruct (encode_entry_split e _ Ht Hr He) as (_ & _ & Hl & _). rewrite !length_app in *. cbn [length] in *. lia.
Qed.

Lemma upconvert_v8_ok e b :
  entry_typed e -> entry_readable e -> react_defaults e -> encoded_v8 e b ->
  upconvert_v8_to_current b (entry_def_hash e) = Ok e.
Proof.
  intros Ht Hr Hd He. unfold upconvert_v8_to_current.
  destruct (decide (entry_kind e = KIND_REACT_ROUND)) as [Hk|Hk].
  - destruct (kind_react e Hk) as (t & id & inst & bp & w & m & br & mt & mc & salt & ag & ctx & img & ra & seq & ->).
    destruct Hd as (-> & -> & -> & -> & ->). cbn [encoded_v8] in He.
    rewrite bool_decide_true; [by apply react_cut|].
    pose proof (encode_head _ _ Ht Hr He) as Hh. destruct b as [|x b]; [discriminate Hh|]. exact Hh.
  - assert (encode_entry e = Ok b) as He' by (destruct e; done).
    rewrite bool_decide_false; [by apply decode_current_ok|].
    rewrite (encode_head e b) by done. congruence.
Qed.

(** What version [v] wrote for an entry. *)
Definition encoded_at (v : Z) (e : JournalEntry) (b : bytes) : Prop :=
  if v =? 5 then encoded_v5 e b
  else if v =? 8 then react_defaults e /\ encoded_v8 e b
  else encode_entry e = Ok b.

(** Forward migration: an entry written under any supported version reads
    as the current entry, with the fields that version lacked at their
    documented defaults; every other version is refused without decoding. *)
Theorem migrate_entry_preserves e b v :
  entry_typed e -> entry_readable e -> encoded_at v e b ->
  migrate_entry b v (entry_def_hash e)
  = if (5 <=? v) && (v <=? 18) then Ok e
    else Err (JournalError.SchemaVersionMismatch JOURNAL_SCHEMA_VERSION v).
Proof.
  intros Ht Hr He. unfold migrate_entry, MIN_SUPPORTED_SCHEMA_VERSION, JOURNAL_SCHEMA_VERSION.
  destruct ((5 <=? v) && (v <=? 18)) eqn:Hv; cbn [negb]; [|done].
  assert (exists n, (n < 14)%nat /\ v = 5 + Z.of_nat n) as (n & Hn & ->).
  { exists (Z.to_nat (v - 5)). apply andb_true_iff in Hv as [?%Z.leb_le ?%Z.leb_le]. lia. }
  unfold encoded_at in He.
  do 14 (destruct n as [|n]; [cbn in He |- *; first
    [by apply decode_current_ok | by apply upconvert_v5_ok | destruct He; by apply upconvert_v8_ok]|]).
  lia.
Qed.
End Migrate.

Definition demo_versions (ic : IdempotencyClassTag) : JournalEntry :=
  RunVersionsResolved (replicate 16 1) (replicate 32 2) (str "m")
    (Some {| tool_id := str "fs"; tool_version := str "1"; resolved_kind := ResolvedKindTag.Mcp;
             resolved_def_hash := replicate 32 3; idempotency_class := ic |}) 4.
Lemma migrate_entry_preserves_witness :
  exists b, encode_entry (H := demo_blake3) (demo_versions IdempotencyClassTag.AtLeastOnce) = Ok (b ++ [3])
    /\ migrate_entry (H := demo_blake3) b 5 (replicate 32 0)
       = Ok (demo_versions IdempotencyClassTag.AtLeastOnce).
Proof.
  destruct (encode_entry (H := demo_blake3) (demo_versions IdempotencyClassTag.AtLeastOnce)) as [l| |] eqn:He;
    [|vm_compute in He; discriminate He..].
  exists (removelast l).
  assert (l = removelast l ++ [3]) as Hl by (vm_compute in He; injection He as <-; vm_compute; reflexivity).
  split; [by f_equal|].
  apply (migrate_entry_preserves (H := demo_blake3) (demo_versions IdempotencyClassTag.AtLeastOnce) (removelast l) 5).
  - by repeat constructor.
  - exact I.
  - split; [reflexivity|]. cbn [demo_versions idempotency_class IdempotencyClassTag.as_u8].
    rewrite <- Hl. exact He.
Defined.
