(* ===== verification/Sqlite.v ===== *)
(** kx-journal's durable backend (sqlite.rs). The table is a list of rows; each
    SQL statement of the source is its meaning on that list, a transaction is
    the new list (an error drops it, so the table is unchanged), and integers
    cross the boundary through [as i64] and [as u64]. *)
From S2P Require Import Prelude Utf8 Mote Entry EntryEncode EntryDecode EntryRoundtrip EntrySound Journal Migration.
Import JournalEntry.

Record Row := {
  row_seq : Z;
  row_kind : Z;
  row_mote_id : bytes;
  row_idempotency_key : bytes;
  row_nondeterminism : Z;
  row_mote_def_hash : option bytes;
  row_entry_bytes : bytes
}.
Record Database := { metadata_schema_version : option bytes; table : list Row }.
Record SqliteJournal := { conn : Database; sq_watch : JournalWatch }.

Definition as_i64 (v : Z) : Z := if v <? 2 ^ 63 then v else v - 2 ^ 64.
Definition as_u64 (v : Z) : Z := v mod 2 ^ 64.

(** ** SQL over the rows *)
Definition row_seq_le (a b : Row) : Prop := row_seq a <= row_seq b.
#[export] Instance row_seq_le_dec : RelDecision row_seq_le.
Proof. intros a b. unfold row_seq_le. apply _. Defined.
(** [SELECT ... WHERE p ORDER BY seq ASC] *)
Definition select_ordered (p : Row -> bool) (rows : list Row) : list Row :=
  merge_sort row_seq_le (List.filter p rows).
(** [SELECT COALESCE(MAX(seq), 0)] *)
Definition max_seq (rows : list Row) : Z :=
  match row_seq <$> rows with [] => 0 | s :: ss => foldl Z.max s ss end.
(** The partial unique index covers kinds 1, 2 and 4. *)
Definition dedupe_conflict (a b : Row) : bool :=
  is_deduped (row_kind a) && (row_kind a =? row_kind b)
  && bool_decide (row_idempotency_key a = row_idempotency_key b).
Definition insert_row (rows : list Row) (r : Row) : outcome (list Row) JournalError :=
  if existsb (fun x => (row_seq x =? row_seq r) || dedupe_conflict r x) rows
  then Err JournalError.Sqlite else Ok (rows ++ [r]).

Definition vec_to_mote_def_hash (v : option bytes) : bytes :=
  match v with
  | None => replicate 32 0
  | Some b => if (length b =? 32)%nat then b else replicate 32 0
  end.
(** [.map(f).collect::<Result<Vec<_>, _>>()] *)
Fixpoint collect {A B E} (f : A -> outcome B E) (l : list A) : outcome (list B) E :=
  match l with
  | [] => Ok []
  | x :: l => let* y := f x in let* ys := collect f l in Ok (y :: ys)
  end.

Section Sqlite.
Context `{Blake3}.

Definition decode_row (r : Row) : outcome JournalEntry JournalError :=
  omap_err JournalError.Decode
    (decode_entry_with_def_hash r.(row_entry_bytes) (vec_to_mote_def_hash r.(row_mote_def_hash))).

Definition nd_byte_of (e : JournalEntry) : Z :=
  match e with
  | Proposed _ _ _ nd _ _ | Committed _ _ _ nd _ _ _ _ => NdClass_as_u8 nd
  | _ => 0
  end.
Definition def_hash_of (e : JournalEntry) : option bytes :=
  match e with Committed _ _ _ _ _ _ _ h => Some h | _ => None end.

Definition append_one (rows : list Row) (entry : JournalEntry)
    : outcome (JournalEntry * list Row) JournalError :=
  let entry := derive_key entry in
  let kind := entry_kind entry in
  let existing :=
    if is_deduped kind then
      List.find (fun r => (row_kind r =? kind)
                          && bool_decide (row_idempotency_key r = entry_idempotency_key entry)
                          && is_deduped (row_kind r)) rows
    else None in
  match existing with
  | Some r => let* e := decode_row r in Ok (e, rows)
  | None =>
      (* MAX(seq) + 1 past i64::MAX is a REAL, which the i64 column read refuses *)
      if 2 ^ 63 <=? max_seq rows + 1 then Err JournalError.Sqlite
      else
        let next_seq := max_seq rows + 1 in
        let entry := set_seq entry (as_u64 next_seq) in
        let* b := omap_err JournalError.Encode (encode_entry entry) in
        if (MAX_ENTRY_LEN <? length b)%nat then Err (JournalError.EntryTooLarge (length b))
        else
          let* rows := insert_row rows
            {| row_seq := next_seq; row_kind := kind; row_mote_id := entry_mote_id entry;
               row_idempotency_key := entry_idempotency_key entry;
               row_nondeterminism := nd_byte_of entry; row_mote_def_hash := def_hash_of entry;
               row_entry_bytes := b |} in
          Ok (entry, rows)
  end.

Definition with_rows (j : SqliteJournal) (rows : list Row) (w : JournalWatch) : SqliteJournal :=
  {| conn := {| metadata_schema_version := j.(conn).(metadata_schema_version); table := rows |};
     sq_watch := w |}.
Definition sq_append (j : SqliteJournal) (entry : JournalEntry)
    : outcome (JournalEntry * SqliteJournal) JournalError :=
  let* (durable, rows) := append_one j.(conn).(table) entry in
  Ok (durable, with_rows j rows (publish j.(sq_watch) (entry_seq durable))).

Fixpoint append_many (rows : list Row) (es : list JournalEntry)
    : outcome (list JournalEntry * list Row) JournalError :=
  match es with
  | [] => Ok ([], rows)
  | e :: es =>
      let* (d, rows) := append_one rows e in
      let* (ds, rows) := append_many rows es in
      Ok (d :: ds, rows)
  end.
(** [iter().map(seq).max()] *)
Definition max_entry_seq (es : list JournalEntry) : option Z :=
  match entry_seq <$> es with [] => None | s :: ss => Some (foldl Z.max s ss) end.
Definition sq_append_batch (j : SqliteJournal) (es : list JournalEntry)
    : outcome (list JournalEntry * SqliteJournal) JournalError :=
  match es with
  | [] => Ok ([], j)
  | _ =>
      let* (durable, rows) := append_many j.(conn).(table) es in
      let w := match max_entry_seq durable with
               | Some h => publish j.(sq_watch) h
               | None => j.(sq_watch)
               end in
      Ok (durable, with_rows j rows w)
  end.

Definition row_is_committed (mote_id : bytes) (r : Row) : bool :=
  bool_decide (row_mote_id r = mote_id) && (row_kind r =? KIND_COMMITTED).
Definition sq_read_committed (j : SqliteJournal) (mote_id : MoteId)
    : outcome (option JournalEntry) JournalError :=
  match List.find (row_is_committed mote_id) j.(conn).(table) with
  | None => Ok None
  | Some r => let* e := decode_row r in Ok (Some e)
  end.
Definition row_in_range (start stop : Z) (r : Row) : bool :=
  (as_i64 start <=? row_seq r) && (row_seq r <? as_i64 stop).
Definition sq_read_entries_by_seq (j : SqliteJournal) (start stop : Z)
    : outcome (list JournalEntry) JournalError :=
  collect decode_row (select_ordered (row_in_range start stop) j.(conn).(table)).
Definition sq_list_committed_refs (j : SqliteJournal) : outcome (list ContentRef) JournalError :=
  let* es := collect (fun r => omap_err JournalError.Decode
                        (decode_entry_with_def_hash r.(row_entry_bytes) (replicate 32 0)))
               (select_ordered (fun r => row_kind r =? KIND_COMMITTED) j.(conn).(table)) in
  Ok (omap committed_ref es).
Definition sq_list_committed_by_mote_def_hash (j : SqliteJournal) (h : bytes)
    : outcome (list JournalEntry) JournalError :=
  collect decode_row
    (select_ordered (fun r => (row_kind r =? KIND_COMMITTED)
                              && bool_decide (row_mote_def_hash r = Some h)) j.(conn).(table)).
Definition sq_current_seq (j : SqliteJournal) : outcome Z JournalError :=
  Ok (as_u64 (max_seq j.(conn).(table))).
Definition sq_count_entries (j : SqliteJournal) : outcome Z JournalError :=
  Ok (as_u64 (Z.of_nat (length j.(conn).(table)))).

#[export] Instance SqliteJournal_Journal : Journal SqliteJournal := {|
  append := sq_append;
  append_batch := sq_append_batch;
  read_committed := sq_read_committed;
  read_entries_by_seq := sq_read_entries_by_seq;
  list_committed_refs := sq_list_committed_refs;
  list_committed_by_mote_def_hash := sq_list_committed_by_mote_def_hash;
  current_seq := sq_current_seq;
  count_entries := sq_count_entries
|}.

(** ** Opening: stamp a fresh file, verify the stamp *)
Definition initialize (db : Database) : Database :=
  {| metadata_schema_version :=
       match db.(metadata_schema_version) with
       | Some v => Some v
       | None => Some (to_le 2 JOURNAL_SCHEMA_VERSION)
       end;
     table := db.(table) |}.
Definition read_schema_version (db : Database) : outcome Z JournalError :=
  match db.(metadata_schema_version) with
  | None => Err JournalError.Sqlite
  | Some stored =>
      if negb (length stored =? 2)%nat
      then Err (JournalError.Invariant (str "metadata.schema_version is not 2 bytes"))
      else Ok (from_le stored)
  end.
Definition verify_schema_version (db : Database) : outcome unit JournalError :=
  let* found := read_schema_version db in
  if negb (found =? JOURNAL_SCHEMA_VERSION)
  then Err (JournalError.SchemaVersionMismatch JOURNAL_SCHEMA_VERSION found)
  else Ok tt.
Definition SqliteJournal_open (db : Database) (w : JournalWatch) : outcome SqliteJournal JournalError :=
  let db := initialize db in
  let* _ := verify_schema_version db in
  Ok {| conn := db; sq_watch := w |}.
End Sqlite.

(** ** The table represents a log *)
Section SqliteLaws.
Context `{Blake3}.

Record row_encodes (r : Row) (e : JournalEntry) : Prop := {
  re_seq : row_seq r = entry_seq e;
  re_kind : row_kind r = entry_kind e;
  re_mote_id : row_mote_id r = entry_mote_id e;
  re_key : row_idempotency_key r = entry_idempotency_key e;
  re_def_hash : row_mote_def_hash r = def_hash_of e;
  re_bytes : encode_entry e = Ok (row_entry_bytes r);
  re_typed : entry_typed e;
  re_readable : entry_readable e
}.
Record rows_represent (rows : list Row) (l : list JournalEntry) : Prop := {
  rr_rows : Forall2 row_encodes rows l;
  rr_wf : log_wf l;
  rr_small : Z.of_nat (length l) < MAX_LOG
}.
Definition sq_represents (j : SqliteJournal) (l : list JournalEntry) : Prop :=
  rows_represent j.(conn).(table) l.
Definition sq_accepts (e : JournalEntry) : Prop :=
  entry_typed e /\ entry_readable e
  /\ forall s, u64 s -> is_ok (encode_entry (set_seq e s)) = true.

Lemma def_hash_of_typed e :
  entry_typed e -> vec_to_mote_def_hash (def_hash_of e) = entry_def_hash e.
Proof.
  destruct e; try done. cbn. intros Ht. destruct_and?. unfold arr in *.
  by rewrite (proj2 (Nat.eqb_eq _ _)).
Qed.
Lemma decode_row_ok r e : row_encodes r e -> decode_row r = Ok e.
Proof.
  intros [_ _ _ _ Hd Hb Ht Hr]. unfold decode_row. rewrite Hd, def_hash_of_typed by done.
  by rewrite (decode_encode_entry e _ Ht Hr Hb).
Qed.
Lemma collect_decode rows l : Forall2 row_encodes rows l -> collect decode_row rows = Ok l.
Proof.
  induction 1 as [|r e rows l Hr _ IH]; [done|]. cbn [collect].
  by rewrite (decode_row_ok r e Hr), IH.
Qed.

Lemma filter_rows P p rows l :
  Forall2 row_encodes rows l -> (forall r e, row_encodes r e -> P r = p e) ->
  Forall2 row_encodes (List.filter P rows) (filter_entries p l).
Proof.
  intros Hf HP. induction Hf as [|r e rows l Hr Hf IH]; [constructor|].
  unfold filter_entries in *. cbn [List.filter]. rewrite (HP r e Hr).
  case_match; [by constructor|done].
Qed.
Lemma find_rows P p rows l :
  Forall2 row_encodes rows l -> (forall r e, row_encodes r e -> P r = p e) ->
  match List.find P rows, find_entry p l with
  | Some r, Some e => row_encodes r e
  | None, None => True
  | _, _ => False
  end.
Proof.
  intros Hf HP. induction Hf as [|r e rows l Hr Hf IH]; [done|].
  cbn [List.find find_entry]. rewrite (HP r e Hr). by destruct (p e).
Qed.
Lemma rows_sorted rows l :
  Forall2 row_encodes rows l -> contiguous l -> StronglySorted (fun a b => row_seq a < row_seq b) rows.
Proof.
  intros Hf Hc. apply StronglySorted_lookup. intros i j x y Hij Hx Hy.
  destruct (Forall2_lookup_l _ _ _ _ _ Hf Hx) as (ex & Hex & Hrx).
  destruct (Forall2_lookup_l _ _ _ _ _ Hf Hy) as (ey & Hey & Hry).
  rewrite (re_seq _ _ Hrx), (re_seq _ _ Hry), (Hc _ _ Hex), (Hc _ _ Hey). lia.
Qed.
Lemma select_rows P p rows l :
  rows_represent rows l -> (forall r e, row_encodes r e -> P r = p e) ->
  Forall2 row_encodes (select_ordered P rows) (filter_entries p l).
Proof.
  intros [Hf [Hc _] _] HP. unfold select_ordered.
  rewrite (merge_sort_increasing row_seq); [by apply filter_rows|done|].
  by eapply StronglySorted_filter, rows_sorted.
Qed.

Lemma max_seq_numbered rows :
  (forall i r, rows !! i = Some r -> row_seq r = Z.of_nat i + 1) -> max_seq rows = Z.of_nat (length rows).
Proof.
  induction rows as [|r rows IH] using rev_ind; [done|]. intros Hn.
  assert (row_seq r = Z.of_nat (length rows) + 1) as Hr
    by (apply Hn; by rewrite lookup_app_r, Nat.sub_diag by lia).
  assert (max_seq (rows ++ [r]) = Z.max (max_seq rows) (row_seq r)) as ->.
  { unfold max_seq. rewrite fmap_app. destruct rows as [|r0 rows]; cbn [fmap list_fmap app].
    - cbn. rewrite Hr. cbn. lia.
    - by rewrite foldl_app. }
  rewrite IH, length_app by (intros i x Hx; apply Hn; by apply lookup_app_l_Some). cbn [length]. lia.
Qed.
Lemma max_seq_represent rows l : rows_represent rows l -> max_seq rows = Z.of_nat (length l).
Proof.
  intros [Hf [Hc _] _]. rewrite <- (Forall2_length _ _ _ Hf). apply max_seq_numbered.
  intros i r Hr. destruct (Forall2_lookup_l _ _ _ _ _ Hf Hr) as (e & He & Hre).
  rewrite (re_seq _ _ Hre). by apply Hc.
Qed.

(** ** Accepted entries stay accepted through key derivation and numbering *)
Lemma set_seq_typed e s : entry_typed e -> u64 s -> entry_typed (set_seq e s).
Proof. intros Ht Hs. destruct e; cbn in *; destruct_and?; split_and!; done. Qed.
Lemma set_seq_readable e s : entry_readable e -> entry_readable (set_seq e s).
Proof. by destruct e. Qed.
Lemma derive_key_accepts e : sq_accepts e -> sq_accepts (derive_key e).
Proof.
  intros (Ht & Hr & He). destruct e; try done. split_and!; [|done|done].
  cbn in *. destruct_and?. split_and!; try done. apply (blake3_array _).
Qed.

Lemma as_u64_small v : 0 <= v < 2 ^ 64 -> as_u64 v = v.
Proof. intros. by apply Z.mod_small. Qed.
Lemma as_i64_small v : 0 <= v < MAX_LOG -> as_i64 v = v.
Proof. intros. unfold as_i64, MAX_LOG in *. by rewrite (proj2 (Z.ltb_lt _ _)) by lia. Qed.

(** The row the insert writes neither reuses a seq nor breaks the unique index. *)
Lemma insert_row_fresh rows l r e :
  rows_represent rows l -> row_seq r = Z.of_nat (length l) + 1 ->
  row_kind r = entry_kind e -> row_idempotency_key r = entry_idempotency_key e ->
  existing_fact l e = None -> insert_row rows r = Ok (rows ++ [r]).
Proof.
  intros [Hf [Hc _] _] Hs Hk Hkey Hn. unfold insert_row.
  assert (existsb (fun x => (row_seq x =? row_seq r) || dedupe_conflict r x) rows = false) as ->; [|done].
  apply not_true_is_false. intros (x & Hx & Hbad)%existsb_exists.
  apply list_elem_of_In, list_elem_of_lookup_1 in Hx as [i Hi].
  destruct (Forall2_lookup_l _ _ _ _ _ Hf Hi) as (ex & Hex & Hrx).
  apply orb_true_iff in Hbad as [Hbad%Z.eqb_eq|Hbad].
  - rewrite (re_seq _ _ Hrx), (Hc _ _ Hex), Hs in Hbad. apply lookup_lt_Some in Hex. lia.
  - unfold dedupe_conflict in Hbad. rewrite Hk, Hkey, (re_kind _ _ Hrx), (re_key _ _ Hrx) in Hbad.
    apply andb_true_iff in Hbad as [[Hd Hkk%Z.eqb_eq]%andb_true_iff Hkey2%bool_decide_eq_true].
    eapply (existing_fact_none l e ex); try done. by eapply list_elem_of_lookup_2.
Qed.

Lemma existing_row rows l e :
  rows_represent rows l ->
  match (if is_deduped (entry_kind e) then
           List.find (fun r => (row_kind r =? entry_kind e)
                               && bool_decide (row_idempotency_key r = entry_idempotency_key e)
                               && is_deduped (row_kind r)) rows
         else None), existing_fact l e with
  | Some r, Some x => row_encodes r x
  | None, None => True
  | _, _ => False
  end.
Proof.
  intros Hrr. unfold existing_fact. destruct (is_deduped (entry_kind e)) eqn:Hd; [|done].
  apply find_rows; [apply Hrr|]. intros r x Hr. unfold same_fact.
  rewrite (re_kind _ _ Hr), (re_key _ _ Hr).
  destruct (Z.eqb_spec (entry_kind x) (entry_kind e)) as [->|]; [|done].
  by rewrite Hd, andb_true_r.
Qed.

(** An append finds the fact, encodes the entry and stores it, or refuses. *)
Lemma append_one_cases rows l e :
  rows_represent rows l -> entry_typed (derive_key e) -> entry_readable (derive_key e) -> Z.of_nat (length l) + 1 < MAX_LOG ->
  (exists rows', append_one rows e = Ok ((log_append l e).1, rows') /\ rows_represent rows' (log_append l e).2)
  \/ (exists x, append_one rows e = Err x /\ is_ok (encode_entry (set_seq (derive_key e) (Z.of_nat (length l) + 1))) = false).
Proof.
  intros Hrr Ht Hr Hlt. pose proof (log_append_wf l e (rr_wf _ _ Hrr)) as Hwf.
  revert Hwf. unfold append_one, log_append. set (e1 := derive_key e) in *.
  pose proof (existing_row rows l e1 Hrr) as Hex.
  pose proof (insert_row_fresh rows l) as Hins.
  destruct (if is_deduped (entry_kind e1) then _ else _) as [r|];
    destruct (existing_fact l e1) as [x|] eqn:Hfact; try done; cbn [fst snd]; intros Hwf.
  { left. rewrite (decode_row_ok _ _ Hex). by eexists. }
  unfold MAX_LOG in *. rewrite (max_seq_represent _ _ Hrr), (proj2 (Z.leb_gt _ _)) by lia.
  rewrite as_u64_small by lia. set (n := Z.of_nat (length l) + 1) in *.
  assert (u64 n) as Hn by (unfold in_width; lia).
  pose proof (no_panic_encode_entry (set_seq e1 n)) as Hnp. destruct (encode_entry (set_seq e1 n)) as [b|x|] eqn:Hb; [left|right|done].
  2: { eexists. by split. }
  cbn [omap_err obind]. assert (entry_typed (set_seq e1 n)) as Ht' by by apply set_seq_typed.
  assert (entry_readable (set_seq e1 n)) as Hr' by by apply set_seq_readable.
  destruct (encode_entry_split _ _ Ht' Hr' Hb) as (_ & _ & Hlen & _).
  rewrite (proj2 (Nat.ltb_ge _ _)) by lia.
  erewrite (Hins _ e1 Hrr); [cbn [obind]; eexists; split; [reflexivity|]|done|done|apply set_seq_key|done].
  split; [|done|rewrite length_app; cbn [length]; unfold MAX_LOG; lia].
  apply Forall2_app; [apply Hrr|]. constructor; [|constructor].
  split; cbn; try done; [by rewrite set_seq_seq|by rewrite set_seq_kind].
Qed.
Lemma append_one_refines rows l e :
  rows_represent rows l -> sq_accepts e -> Z.of_nat (length l) + 1 < MAX_LOG ->
  exists rows', append_one rows e = Ok ((log_append l e).1, rows')
                /\ rows_represent rows' (log_append l e).2.
Proof.
  intros Hrr (Ht & Hr & He)%derive_key_accepts Hlt.
  destruct (append_one_cases rows l e Hrr Ht Hr Hlt) as [H1|(x & _ & Hno)]; [done|].
  rewrite He in Hno; [done|]. unfold in_width, MAX_LOG in *. lia.
Qed.

Lemma append_many_refines rows l es :
  rows_represent rows l -> Forall sq_accepts es -> Z.of_nat (length l + length es) < MAX_LOG ->
  exists rows', append_many rows es = Ok ((log_append_all l es).1, rows')
                /\ rows_represent rows' (log_append_all l es).2.
Proof.
  intros Hrr Ha. revert rows l Hrr. induction Ha as [|e es He Hes IH]; intros rows l Hrr Hlt; [by eexists|].
  cbn [append_many log_append_all length] in *.
  destruct (append_one_refines rows l e Hrr He) as (rows1 & -> & Hrr1); [lia|]. cbn [obind].
  pose proof (log_append_length l e) as Hll. destruct (log_append l e) as [d l1]. cbn [fst snd] in *.
  destruct (IH rows1 l1 Hrr1) as (rows2 & -> & Hrr2); [lia|]. cbn [obind].
  destruct (log_append_all l1 es) as [ds l2]. by eexists.
Qed.
Lemma derive_key_sound e : entry_typed e -> entry_readable e -> entry_typed (derive_key e) /\ entry_readable (derive_key e).
Proof. destruct e; try done. cbn. intros; destruct_and?. split_and!; try done. apply (blake3_array _). Qed.
Lemma append_many_cases rows l es :
  rows_represent rows l -> Forall entry_typed es -> Forall entry_readable es -> Z.of_nat (length l + length es) < MAX_LOG ->
  (exists rows', append_many rows es = Ok ((log_append_all l es).1, rows') /\ rows_represent rows' (log_append_all l es).2)
  \/ exists x, append_many rows es = Err x.
Proof.
  intros Hrr Ht. revert rows l Hrr. induction Ht as [|e es He Hes IH]; intros rows l Hrr Hrd Hlt; [left; by eexists|].
  apply Forall_cons in Hrd as [Hrd Hrds]. cbn [append_many log_append_all length] in *. destruct (derive_key_sound e He Hrd) as [Hk1 Hk2].
  destruct (append_one_cases rows l e Hrr Hk1 Hk2) as [(rows1 & -> & Hrr1)|(x & -> & _)]; [lia| |right; by eexists]. cbn [obind].
  pose proof (log_append_length l e) as Hll. destruct (log_append l e) as [d l1]. cbn [fst snd] in *.
  destruct (IH rows1 l1 Hrr1 Hrds) as [(rows2 & -> & Hrr2)|(x & ->)]; [lia| |right; by eexists]. cbn [obind].
  destruct (log_append_all l1 es) as [ds l2]. left. by eexists.
Qed.

(** ** Reads *)
Lemma decode_zero_hash r e :
  row_encodes r e -> entry_kind e = KIND_COMMITTED ->
  exists e', omap_err JournalError.Decode
    (decode_entry_with_def_hash (row_entry_bytes r) (replicate 32 0)) = Ok e'
    /\ committed_ref e' = committed_ref e.
Proof.
  intros [_ _ _ _ _ Hb Ht Hr] Hk. destruct e; try discriminate Hk.
  exists (Committed mote_id idempotency_key seq nondeterminism result_ref parents warrant_ref (replicate 32 0)).
  split; [|done].
  set (e' := Committed _ _ _ _ _ _ _ (replicate 32 0)).
  assert (entry_typed e') as Ht' by (cbn in *; destruct_and?; split_and!; done).
  by rewrite (decode_encode_entry e' _ Ht' Hr Hb).
Qed.
Lemma collect_refs rows l :
  Forall2 row_encodes rows l -> Forall (fun e => entry_kind e = KIND_COMMITTED) l ->
  exists l', collect (fun r => omap_err JournalError.Decode
               (decode_entry_with_def_hash (row_entry_bytes r) (replicate 32 0))) rows = Ok l'
    /\ omap committed_ref l' = omap committed_ref l.
Proof.
  induction 1 as [|r e rows l Hr Hf IH]; intros Hk; [by exists []|].
  inversion_clear Hk as [|?? Hk1 Hk2]. destruct (decode_zero_hash r e Hr Hk1) as (e' & He & Hc).
  destruct (IH Hk2) as (l' & Hl & Ho). cbn [collect]. rewrite He. cbn [obind]. rewrite Hl.
  cbn [obind]. exists (e' :: l'). split; [done|]. cbn. by rewrite Hc, Ho.
Qed.
Lemma omap_committed_filter l :
  omap committed_ref (filter_entries (fun e => entry_kind e =? KIND_COMMITTED) l) = omap committed_ref l.
Proof.
  unfold filter_entries. induction l as [|e l IH]; [done|]. cbn [List.filter].
  destruct (Z.eqb_spec (entry_kind e) KIND_COMMITTED) as [Hk|Hk]; cbn; rewrite IH; [done|].
  by destruct e.
Qed.

Lemma row_is_committed_spec m r e : row_encodes r e -> row_is_committed m r = is_committed_of m e.
Proof.
  intros Hre. unfold row_is_committed. rewrite (re_mote_id _ _ Hre), (re_kind _ _ Hre).
  destruct e; cbn; rewrite ?andb_false_r, ?andb_true_r; done.
Qed.

#[export] Instance SqliteJournal_laws : JournalLaws SqliteJournal.
Proof.
  refine {| represents := sq_represents; accepts := sq_accepts |}.
  - intros j l Hr. apply Hr.
  - intros j l e Hr Ha Hlt. cbn. unfold sq_append.
    destruct (append_one_refines _ _ _ Hr Ha Hlt) as (rows & -> & Hrr). by eexists.
  - intros j l es Hr Ha Hlt. cbn. unfold sq_append_batch. destruct es as [|e es]; [by eexists|].
    destruct (append_many_refines _ _ _ Hr Ha Hlt) as (rows & -> & Hrr). by eexists.
  - intros j l a b Hr Hab Hbb. cbn. unfold sq_read_entries_by_seq. apply collect_decode.
    apply select_rows; [done|]. intros r e Hre. unfold row_in_range, in_range.
    by rewrite !as_i64_small, (re_seq _ _ Hre).
  - intros j l m Hr _. cbn. unfold sq_read_committed.
    pose proof (find_rows (row_is_committed m) (is_committed_of m) _ _ (rr_rows _ _ Hr)
                  (row_is_committed_spec m)) as Hf.
    destruct (List.find _ _) as [r|], (find_entry _ _) as [e|]; try done.
    by rewrite (decode_row_ok r e).
  - intros j l Hr. cbn. unfold sq_list_committed_refs.
    destruct (collect_refs (select_ordered (fun r => row_kind r =? KIND_COMMITTED) (table (conn j)))
      (filter_entries (fun e => entry_kind e =? KIND_COMMITTED) l)) as (l' & -> & Ho).
    + apply select_rows; [done|]. intros r e Hre. by rewrite (re_kind _ _ Hre).
    + apply Forall_forall. intros e [_ He%Z.eqb_eq]%elem_of_filter_entries. done.
    + cbn [obind]. by rewrite Ho, omap_committed_filter.
  - intros j l h Hr Hh. cbn. unfold sq_list_committed_by_mote_def_hash. apply collect_decode.
    apply select_rows; [done|]. intros r e Hre. rewrite (re_kind _ _ Hre), (re_def_hash _ _ Hre).
    destruct e; try done. cbn. apply bool_decide_ext. split; congruence.
  - intros j l Hr. cbn. unfold sq_current_seq. rewrite (max_seq_represent _ _ Hr), as_u64_small; [done|].
    pose proof (rr_small _ _ Hr). unfold MAX_LOG in *. lia.
  - intros j l Hr. cbn. unfold sq_count_entries. rewrite (Forall2_length _ _ _ (rr_rows _ _ Hr)), as_u64_small; [done|].
    pose proof (rr_small _ _ Hr). unfold MAX_LOG in *. lia.
Defined.

(** Where one backend ends after a batch, the other does too. *)
Lemma same_log_same_reads {J K} `{!Journal J} `{!JournalLaws J} `{!Journal K} `{!JournalLaws K} (j : J) (k : K) l :
  represents j l -> represents k l -> current_seq j = current_seq k
  /\ forall a b, 0 <= a < MAX_LOG -> 0 <= b < MAX_LOG -> read_entries_by_seq j a b = read_entries_by_seq k a b.
Proof.
  intros Hj Hk. split; [by rewrite (current_seq_law j _ Hj), (current_seq_law k _ Hk)|].
  intros a b Ha Hb. by rewrite (read_entries_law j _ a b Hj), (read_entries_law k _ a b Hk).
Qed.
Lemma log_append_all_len es : forall l, length (log_append_all l es).1 = length es.
Proof.
  induction es as [|e es IH]; intros l; [done|]. cbn [log_append_all length]. destruct (log_append l e) as [d l1].
  specialize (IH l1). destruct (log_append_all l1 es) as [ds l2]. cbn in *. by rewrite IH.
Qed.

(** ** Entries as Rust types them
    A [JournalEntry] of the source holds arrays, machine integers and [String]s; the
    model's byte lists and [Z] have more values. [Typed J] is the backend [J] as
    Rust can call it: an entry that Rust cannot build does not reach it. *)
#[export] Instance arr_dec n l : Decision (arr n l).
Proof. unfold arr. apply _. Defined.
#[export] Instance opt_arr_dec n o : Decision (opt_arr n o).
Proof. unfold opt_arr. destruct o; apply _. Defined.
#[export] Instance string_ok_dec s : Decision (string_ok s).
Proof. unfold string_ok. apply _. Defined.
#[export] Instance in_width_dec w n : Decision (in_width w n).
Proof. unfold in_width. apply _. Defined.
#[export] Instance parent_typed_dec x : Decision (parent_typed x).
Proof. unfold parent_typed. apply _. Defined.
#[export] Instance branch_typed_dec b : Decision (branch_typed b).
Proof. destruct b; cbn; apply _. Defined.
#[export] Instance approval_typed_dec s : Decision (approval_typed s).
Proof. destruct s; cbn; apply _. Defined.
#[export] Instance rerank_typed_dec o : Decision (rerank_typed o).
Proof. destruct o; cbn; apply _. Defined.
#[export] Instance capability_typed_dec o : Decision (from_option capability_typed True o).
Proof. destruct o; cbn; [unfold capability_typed|]; apply _. Defined.
#[export] Instance entry_typed_dec e : Decision (entry_typed e).
Proof. destruct e; cbn; apply _. Defined.
Record Typed (J : Type) := { raw : J }.
Arguments raw {J}.
Definition unbuildable : JournalError := JournalError.Invariant (str "not a value of the entry type").
#[export] Instance Typed_Journal {J} `{!Journal J} : Journal (Typed J) := {|
  append j e := if decide (entry_typed e) then let* (d, j) := append j.(raw) e in Ok (d, {| raw := j |}) else Err unbuildable;
  append_batch j es :=
    if decide (Forall entry_typed es) then let* (ds, j) := append_batch j.(raw) es in Ok (ds, {| raw := j |}) else Err unbuildable;
  read_committed j := read_committed j.(raw);
  read_entries_by_seq j := read_entries_by_seq j.(raw);
  list_committed_refs j := list_committed_refs j.(raw);
  list_committed_by_mote_def_hash j := list_committed_by_mote_def_hash j.(raw);
  current_seq j := current_seq j.(raw);
  count_entries j := count_entries j.(raw)
|}.
#[export] Instance Typed_laws {J} `{!Journal J} `{!JournalLaws J} : JournalLaws (Typed J).
Proof.
  refine {| represents := fun j l => represents j.(raw) l; accepts := fun e => entry_typed e /\ accepts e |};
    intros [j]; cbn; [apply represents_wf| | |apply read_entries_law|apply read_committed_law|apply refs_law|apply def_hash_law
      |apply current_seq_law|apply count_law].
  - intros l e Hr [Ht Ha] Hlt. rewrite decide_True by done. destruct (append_law j l e Hr Ha Hlt) as (j' & -> & Hr'). by eexists.
  - intros l es Hr [Ht Ha]%Forall_and Hlt. rewrite decide_True by done.
    destruct (append_batch_law j l es Hr Ha Hlt) as (j' & -> & Hr'). by eexists.
Defined.

(** ** Backends that may refuse
    What every caller may count on: with room left, an append of an entry that can
    be read back does what the log does, or refuses and leaves the journal alone. *)
Class JournalTotal (J : Type) `{!Journal J} `{!JournalLaws J} := {
  append_total : forall (j : J) l e, represents j l -> entry_readable e -> Z.of_nat (length l) + 1 < MAX_LOG ->
    (exists j', append j e = Ok ((log_append l e).1, j') /\ represents j' (log_append l e).2)
    \/ exists x, append j e = Err x;
  append_batch_total : forall (j : J) l es, represents j l -> Forall entry_readable es -> Z.of_nat (length l + length es) < MAX_LOG ->
    (exists j', append_batch j es = Ok ((log_append_all l es).1, j') /\ represents j' (log_append_all l es).2)
    \/ exists x, append_batch j es = Err x
}.
#[export] Instance InMemoryJournal_total : JournalTotal InMemoryJournal.
Proof.
  split; intros j l e Hr _ Hlt; left; [by apply append_law|]. apply append_batch_law; [done| |done]. by apply Forall_true.
Qed.
#[export] Instance SqliteJournal_total : JournalTotal (Typed SqliteJournal).
Proof.
  split; intros [j] l e Hr Hrd Hlt; cbn in *; (case_decide as Ht; [|right; by eexists]).
  - destruct (derive_key_sound e Ht Hrd) as [H1 H2]. unfold sq_append.
    destruct (append_one_cases _ _ _ Hr H1 H2 Hlt) as [(rows & -> & Hrr)|(x & -> & _)]; [left; by eexists|right; by eexists].
  - unfold sq_append_batch. destruct e as [|e es]; [left; by eexists|].
    destruct (append_many_cases _ _ _ Hr Ht Hrd Hlt) as [(rows & -> & Hrr)|(x & ->)]; [left; by eexists|right; by eexists].
Qed.
End SqliteLaws.

(** ** Replay of an older file, and migration into a fresh one *)
Record ReplayJournal := { rp_conn : Database; from_version : Z }.
Record MigrationReport := {
  report_from_version : Z; to_version : Z; entries_migrated : Z; entries_upconverted : Z }.

Section Replay.
Context `{Blake3}.

Definition ReplayJournal_open (db : Database) : outcome ReplayJournal JournalError :=
  let* v := read_schema_version db in
  if negb ((MIN_SUPPORTED_SCHEMA_VERSION <=? v) && (v <=? JOURNAL_SCHEMA_VERSION))
  then Err (JournalError.SchemaVersionMismatch JOURNAL_SCHEMA_VERSION v)
  else Ok {| rp_conn := db; from_version := v |}.
Definition migrate_row (v : Z) (r : Row) : outcome JournalEntry JournalError :=
  migrate_entry r.(row_entry_bytes) v (vec_to_mote_def_hash r.(row_mote_def_hash)).
Definition rp_read_entries_by_seq (j : ReplayJournal) (start stop : Z)
    : outcome (list JournalEntry) JournalError :=
  collect (migrate_row j.(from_version)) (select_ordered (row_in_range start stop) j.(rp_conn).(table)).
Definition rp_current_seq (j : ReplayJournal) : outcome Z JournalError :=
  Ok (as_u64 (max_seq j.(rp_conn).(table))).
Definition rp_append (j : ReplayJournal) (_ : JournalEntry)
    : outcome (JournalEntry * ReplayJournal) JournalError :=
  Err (JournalError.Invariant
    (str "ReplayJournal is read-only; use migrate_to to obtain a writable current-version journal")).

Definition is_upconverted (v : Z) (e : JournalEntry) : bool :=
  ((v <? 6) && match e with RunVersionsResolved _ _ _ (Some _) _ => true | _ => false end)
  || ((v <? JOURNAL_SCHEMA_VERSION)
      && match e with ReactRound _ _ _ _ _ _ _ _ _ _ _ _ _ _ _ => true | _ => false end).
Fixpoint migrate_loop (v : Z) (es : list JournalEntry) (rows : list Row) (migrated upconverted : Z)
    : outcome (Z * Z * list Row) JournalError :=
  match es with
  | [] => Ok (migrated, upconverted, rows)
  | e :: es =>
      let src_seq := entry_seq e in
      let up := is_upconverted v e in
      let* (durable, rows) := append_one rows e in
      if negb (entry_seq durable =? src_seq)
      then Err (JournalError.Invariant
                  (str "migrate_to: source seq not preserved (non-contiguous journal)"))
      else migrate_loop v es rows (u64_add migrated 1) (if up then u64_add upconverted 1 else upconverted)
  end.
Definition migrate_into_temp (replay : ReplayJournal) (v : Z)
    : outcome (Z * Z * Database) JournalError :=
  let* out := SqliteJournal_open {| metadata_schema_version := None; table := [] |} JournalWatch_new in
  let* hd := rp_current_seq replay in
  let* es := rp_read_entries_by_seq replay 0 (u64_add hd 1) in
  let* (migrated, upconverted, rows) := migrate_loop v es out.(conn).(table) 0 0 in
  Ok (migrated, upconverted,
      {| metadata_schema_version := out.(conn).(metadata_schema_version); table := rows |}).
Definition migrate_to (src : Database) : outcome (MigrationReport * Database) JournalError :=
  let* replay := ReplayJournal_open src in
  let* (migrated, upconverted, dst) := migrate_into_temp replay replay.(from_version) in
  Ok ({| report_from_version := replay.(from_version); to_version := JOURNAL_SCHEMA_VERSION;
         entries_migrated := migrated; entries_upconverted := upconverted |}, dst).

(** A row of the old file reads, under its version, as the entry. *)
Record row_migrates (v : Z) (r : Row) (e : JournalEntry) : Prop := {
  rm_seq : row_seq r = entry_seq e;
  rm_reads : migrate_row v r = Ok e
}.

Lemma log_append_next l e :
  log_wf (l ++ [e]) -> derive_key e = e -> log_append l e = (e, l ++ [e]).
Proof.
  intros [Hc Hu] Hd. unfold log_append. rewrite Hd.
  destruct (existing_fact l e) as [x|] eqn:Hf.
  - exfalso. apply existing_fact_some in Hf as (Hx & Hdd & Hk & Hkey).
    apply list_elem_of_lookup_1 in Hx as [i Hi]. pose proof (lookup_lt_Some _ _ _ Hi).
    assert (i = length l); [|lia].
    eapply (Hu i (length l) x e); [by apply lookup_app_l_Some| |by rewrite Hk|done..].
    by rewrite lookup_app_r, Nat.sub_diag by lia.
  - assert (set_seq e (Z.of_nat (length l) + 1) = e) as ->; [|done].
    assert (entry_seq e = Z.of_nat (length l) + 1) as <-; [|by destruct e].
    apply Hc. by rewrite lookup_app_r, Nat.sub_diag by lia.
Qed.
Lemma log_wf_prefix l k : log_wf (l ++ k) -> log_wf l.
Proof.
  intros [Hc Hu]. split.
  - intros i e He. apply Hc. by apply lookup_app_l_Some.
  - intros i j a b Hi Hj. apply Hu; by apply lookup_app_l_Some.
Qed.

Lemma migrate_loop_ok v es rows l m u :
  rows_represent rows l -> log_wf (l ++ es) -> Forall sq_accepts es ->
  Forall (fun e => derive_key e = e) es -> Z.of_nat (length l + length es) < MAX_LOG ->
  0 <= m -> m + Z.of_nat (length es) < MAX_LOG ->
  exists u' rows', migrate_loop v es rows m u = Ok (m + Z.of_nat (length es), u', rows')
                   /\ rows_represent rows' (l ++ es).
Proof.
  intros Hrr Hwf Ha Hd. revert rows l m u Hrr Hwf.
  induction Ha as [|e es He Hes IH]; intros rows l m u Hrr Hwf Hlt Hm Hm'.
  { cbn. rewrite app_nil_r, Z.add_0_r. eauto. }
  inversion_clear Hd as [|?? Hde Hd']. cbn [migrate_loop length] in *.
  destruct (append_one_refines rows l e Hrr He) as (rows1 & -> & Hrr1); [lia|]. cbn [obind].
  rewrite (cons_middle e l es), app_assoc in Hwf.
  assert (log_append l e = (e, l ++ [e])) as Hn by eauto using log_append_next, log_wf_prefix.
  rewrite Hn in *. cbn [fst snd] in *. rewrite Z.eqb_refl. cbn [negb].
  rewrite u64_add_small by (unfold MAX_LOG in *; lia).
  destruct (IH Hd' rows1 (l ++ [e]) (m + 1) (if is_upconverted v e then u64_add u 1 else u))
    as (u' & rows' & -> & Hrr'); rewrite ?length_app; cbn [length]; try done; try lia.
  exists u', rows'. rewrite <- app_assoc in Hrr'. split; [|done].
  by replace (m + 1 + Z.of_nat (length es)) with (m + Z.of_nat (S (length es))) by lia.
Qed.

Lemma replay_reads v rows es :
  Forall2 (row_migrates v) rows es -> contiguous es -> Z.of_nat (length es) + 1 < MAX_LOG ->
  let j := {| rp_conn := {| metadata_schema_version := Some (to_le 2 v); table := rows |}; from_version := v |} in
  rp_read_entries_by_seq j 0 (u64_add (as_u64 (max_seq rows)) 1) = Ok es.
Proof.
  intros Hf Hc Hlt j.
  assert (Hnum : forall i r, rows !! i = Some r -> row_seq r = Z.of_nat i + 1).
  { intros i r Hr. destruct (Forall2_lookup_l _ _ _ _ _ Hf Hr) as (e & He & Hre).
    rewrite (rm_seq _ _ _ Hre). by apply Hc. }
  pose proof (Forall2_length _ _ _ Hf) as Hlen. unfold MAX_LOG in *.
  rewrite (max_seq_numbered rows Hnum), as_u64_small, u64_add_small by lia.
  unfold rp_read_entries_by_seq, j. cbn [rp_conn table from_version]. unfold select_ordered.
  assert (List.filter (row_in_range 0 (Z.of_nat (length rows) + 1)) rows = rows) as ->.
  { apply forallb_filter_id, forallb_forall. intros r Hr.
    apply list_elem_of_In, list_elem_of_lookup_1 in Hr as [i Hi]. pose proof (Hnum i r Hi).
    apply lookup_lt_Some in Hi. unfold row_in_range. rewrite !as_i64_small by (unfold MAX_LOG; lia). lia. }
  rewrite (merge_sort_increasing row_seq); [|done|].
  - clear -Hf. induction Hf as [|r e rows es Hr _ IH]; [done|]. cbn [collect].
    by rewrite (rm_reads _ _ _ Hr), IH.
  - apply StronglySorted_lookup. intros i k x y Hik Hx Hy. rewrite (Hnum i x Hx), (Hnum k y Hy). lia.
Qed.

(** File migration: migrating an older journal whose rows read, under its
    own version, as a well-formed log of writable entries produces a file
    stamped with the current version that represents exactly that log, with
    every seq preserved and every entry counted. *)
Theorem migrate_to_preserves v rows es :
  5 <= v <= 18 -> Forall2 (row_migrates v) rows es -> log_wf es ->
  Forall sq_accepts es -> Forall (fun e => derive_key e = e) es ->
  Z.of_nat (length es) + 1 < MAX_LOG ->
  exists report dst,
    migrate_to {| metadata_schema_version := Some (to_le 2 v); table := rows |} = Ok (report, dst)
    /\ rows_represent dst.(table) es
    /\ read_schema_version dst = Ok JOURNAL_SCHEMA_VERSION
    /\ report.(entries_migrated) = Z.of_nat (length es).
Proof.
  intros Hv Hf Hwf Ha Hd Hlt. unfold migrate_to, ReplayJournal_open, read_schema_version at 1.
  cbn [metadata_schema_version]. rewrite length_to_le, from_to_le by (cbn; lia). cbn [Nat.eqb negb obind].
  unfold MIN_SUPPORTED_SCHEMA_VERSION, JOURNAL_SCHEMA_VERSION.
  rewrite !(proj2 (Z.leb_le _ _)) by lia. cbn [andb negb obind].
  unfold migrate_into_temp, rp_current_seq. cbn [rp_conn table from_version].
  assert (SqliteJournal_open {| metadata_schema_version := None; table := [] |} JournalWatch_new
    = Ok {| conn := {| metadata_schema_version := Some (to_le 2 18); table := [] |};
            sq_watch := JournalWatch_new |}) as -> by (vm_compute; reflexivity).
  cbn [obind conn table metadata_schema_version].
  rewrite (replay_reads v rows es Hf (proj1 Hwf) Hlt). cbn [obind].
  assert (rows_represent [] []) as Hnil by (split; [constructor|apply log_wf_nil|by vm_compute]).
  destruct (migrate_loop_ok v es [] [] 0 0 Hnil Hwf Ha Hd) as (u' & rows' & -> & Hrr);
    cbn [length]; try lia.
  cbn [obind]. eexists _, _. split; [reflexivity|]. split_and!; [exact Hrr|by vm_compute|done].
Qed.
End Replay.

(** ** Witnesses *)
Definition demo_sqlite : SqliteJournal :=
  {| conn := {| metadata_schema_version := Some (to_le 2 18); table := [] |}; sq_watch := JournalWatch_new |}.
Lemma demo_sqlite_represents : sq_represents (H := demo_blake3) demo_sqlite [].
Proof. split; [constructor|apply log_wf_nil|by vm_compute]. Qed.
Lemma demo_accepts : Forall (sq_accepts (H := demo_blake3)) [demo_staged; demo_failed].
Proof.
  repeat constructor; try done.
Qed.
Definition demo_old_row : Row := {|
  row_seq := 1; row_kind := 4; row_mote_id := replicate 32 1; row_idempotency_key := replicate 32 2;
  row_nondeterminism := 0; row_mote_def_hash := None;
  row_entry_bytes := [4] ++ replicate 32 1 ++ replicate 32 2 ++ to_le 8 1 ++ [0] |}.
Lemma migrate_to_preserves_witness :
  exists report dst,
    migrate_to (H := demo_blake3) {| metadata_schema_version := Some (to_le 2 6); table := [demo_old_row] |}
      = Ok (report, dst) /\ entries_migrated report = 1.
Proof.
  destruct (migrate_to_preserves (H := demo_blake3) 6 [demo_old_row] [set_seq demo_staged 1])
    as (report & dst & Hm & _ & _ & Hc).
  - lia.
  - repeat constructor.
  - apply demo_represents.
  - repeat constructor; done.
  - repeat constructor.
  - by vm_compute.
  - exists report, dst. split; [exact Hm|exact Hc].
Defined.
