(* ===== verification/Warrant.v ===== *)
(** kx-warrant: the authority a Mote runs under, its monotone narrowing when a
    role delegates, and the admission check of a tool against it. *)
From S2P Require Import Prelude Mote.

(** ** Classes (classes.rs) *)
Module MoteClass.
Inductive MoteClass := Pure | ReadOnlyNondet | WorldMutating.
Definition from_nd_class (nd : NdClass) : MoteClass :=
  match nd with Mote.Pure => Pure | Mote.ReadOnlyNondet => ReadOnlyNondet
           | Mote.WorldMutating => WorldMutating end.
Definition to_nd_class (c : MoteClass) : NdClass :=
  match c with Pure => Mote.Pure | ReadOnlyNondet => Mote.ReadOnlyNondet
          | WorldMutating => Mote.WorldMutating end.
End MoteClass.
Abbreviation MoteClass := MoteClass.MoteClass.
Inductive ExecutorClass := Bwrap | OciDaemon | CloudMicroVm | MacOsSandbox.

Module FsMode.
Inductive FsMode := ReadOnly | ReadWrite | ExecOnly.
Definition is_subset_of (m parent : FsMode) : bool :=
  match m, parent with
  | ReadOnly, (ReadOnly | ReadWrite) | ReadWrite, ReadWrite | ExecOnly, ExecOnly => true
  | _, _ => false
  end.
End FsMode.
Abbreviation FsMode := FsMode.FsMode.

(** ** Scopes (scope.rs, secret.rs) *)
Module FsScope.
(** A mount is keyed by its path as bytes. The source's PathBuf keys compare by
    components, so paths stand here in the form that has one spelling per path (no
    doubled or trailing separator, no inner dot), for which the two agree. *)
Record FsScope := { mounts : gmap bytes FsMode }.
Definition empty : FsScope := {| mounts := ∅ |}.
Definition is_subset_of (s parent : FsScope) : bool :=
  forallb (fun '(path, mode) =>
             match parent.(mounts) !! path with
             | Some p_mode => FsMode.is_subset_of mode p_mode
             | None => false
             end) (map_to_list s.(mounts)).
End FsScope.
Abbreviation FsScope := FsScope.FsScope.

Module NetScope.
Inductive NetScope := None | EgressAllowlist (hosts : gset bytes).
Definition is_subset_of (s parent : NetScope) : bool :=
  match s, parent with
  | None, _ => true
  | EgressAllowlist _, None => false
  | EgressAllowlist child, EgressAllowlist parent => bool_decide (child ⊆ parent)
  end.
End NetScope.
Abbreviation NetScope := NetScope.NetScope.

Module SecretScope.
Inductive SecretScope := None | AllowList (refs : gset bytes).
Definition is_subset_of (s parent : SecretScope) : bool :=
  match s, parent with
  | None, _ => true
  | AllowList _, None => false
  | AllowList child, AllowList parent => bool_decide (child ⊆ parent)
  end.
End SecretScope.
Abbreviation SecretScope := SecretScope.SecretScope.

(** ** Ceilings and the warrant (spec.rs) *)
Module ToolGrant.
Record ToolGrant := { tool_id : bytes; tool_version : bytes }.
End ToolGrant.
Abbreviation ToolGrant := ToolGrant.ToolGrant.
#[export] Instance ToolGrant_eq_dec : EqDecision ToolGrant.
Proof. solve_decision. Defined.
#[export] Instance ToolGrant_countable : Countable ToolGrant.
Proof.
  apply (inj_countable' (fun g => (ToolGrant.tool_id g, ToolGrant.tool_version g))
           (fun p => {| ToolGrant.tool_id := p.1; ToolGrant.tool_version := p.2 |})).
  by intros [].
Defined.

Module ModelRoute.
Record ModelRoute := {
  model_id : bytes; max_input_tokens : Z; max_output_tokens : Z; max_calls : Z }.
Definition is_within (r parent : ModelRoute) : bool :=
  (r.(max_input_tokens) <=? parent.(max_input_tokens))
  && (r.(max_output_tokens) <=? parent.(max_output_tokens))
  && (r.(max_calls) <=? parent.(max_calls)).
Definition narrow_quantitative (r parent : ModelRoute) : ModelRoute := {|
  model_id := r.(model_id);
  max_input_tokens := Z.min r.(max_input_tokens) parent.(max_input_tokens);
  max_output_tokens := Z.min r.(max_output_tokens) parent.(max_output_tokens);
  max_calls := Z.min r.(max_calls) parent.(max_calls) |}.
End ModelRoute.
Abbreviation ModelRoute := ModelRoute.ModelRoute.

Module ResourceCeiling.
Record ResourceCeiling := {
  cpu_milli : Z; mem_bytes : Z; wall_clock_ms : Z; fd_count : Z; disk_bytes : Z }.
Definition narrow (r parent : ResourceCeiling) : ResourceCeiling := {|
  cpu_milli := Z.min r.(cpu_milli) parent.(cpu_milli);
  mem_bytes := Z.min r.(mem_bytes) parent.(mem_bytes);
  wall_clock_ms := Z.min r.(wall_clock_ms) parent.(wall_clock_ms);
  fd_count := Z.min r.(fd_count) parent.(fd_count);
  disk_bytes := Z.min r.(disk_bytes) parent.(disk_bytes) |}.
Definition zero : ResourceCeiling := {|
  cpu_milli := 0; mem_bytes := 0; wall_clock_ms := 0; fd_count := 0; disk_bytes := 0 |}.
End ResourceCeiling.
Abbreviation ResourceCeiling := ResourceCeiling.ResourceCeiling.

Module CostCeiling.
Record CostCeiling := { micro_usd : Z }.
Definition narrow (c parent : CostCeiling) : CostCeiling :=
  {| micro_usd := Z.min c.(micro_usd) parent.(micro_usd) |}.
End CostCeiling.
Abbreviation CostCeiling := CostCeiling.CostCeiling.

Module WarrantSpec.
Record WarrantSpec := {
  mote_class : MoteClass;
  nd_class : MoteClass;
  fs_scope : FsScope;
  net_scope : NetScope;
  syscall_profile_ref : ContentRef;
  tool_grants : gset ToolGrant;
  model_route : ModelRoute;
  resource_ceiling : ResourceCeiling;
  environment_ref : option ContentRef;
  executor_class : ExecutorClass;
  secret_scope : SecretScope;
  cost_ceiling : CostCeiling;
  tls_required : bool
}.
Definition default : WarrantSpec := {|
  mote_class := MoteClass.Pure;
  nd_class := MoteClass.Pure;
  fs_scope := FsScope.empty;
  net_scope := NetScope.None;
  syscall_profile_ref := replicate 32 0;
  tool_grants := ∅;
  model_route := {| ModelRoute.model_id := []; ModelRoute.max_input_tokens := 0;
                    ModelRoute.max_output_tokens := 0; ModelRoute.max_calls := 0 |};
  resource_ceiling := ResourceCeiling.zero;
  environment_ref := None;
  executor_class := Bwrap;
  secret_scope := SecretScope.None;
  cost_ceiling := {| CostCeiling.micro_usd := 0 |};
  tls_required := true |}.
End WarrantSpec.
Abbreviation WarrantSpec := WarrantSpec.WarrantSpec.
Import WarrantSpec.

Module Role.
Record Role := { name : bytes; version : Z; spec : WarrantSpec; description : bytes }.
End Role.
Abbreviation Role := Role.Role.

Module ToolRequirement.
Record ToolRequirement := {
  net_scope_required : NetScope;
  fs_scope_required : FsScope;
  syscall_profile_ref : ContentRef;
  min_resource_ceiling : ResourceCeiling
}.
End ToolRequirement.
Abbreviation ToolRequirement := ToolRequirement.ToolRequirement.

(** ** Errors (fields.rs, errors.rs) *)
Module WarrantField.
Inductive WarrantField :=
| FsScope | NetScope | SyscallProfile | ToolGrants | ModelRoute | ResourceCeiling
| ExecutorClass | EnvironmentRef | SecretScope | CostCeiling | TlsRequired.
End WarrantField.
Abbreviation WarrantField := WarrantField.WarrantField.
(** The value whose [{:?}] rendering an error carries. *)
Inductive Rendered :=
| RFs (s : FsScope) | RNet (s : NetScope) | RTools (s : gset ToolGrant) | RSecret (s : SecretScope).
Module NarrowingError.
Inductive NarrowingError :=
| AttemptedWiden (field : WarrantField) (parent proposed : Rendered)
| EmptyIntersect (field : WarrantField)
| SyscallProfileNotASubset (profile_ref : ContentRef)
| InvalidModelRoute (reason : bytes).
End NarrowingError.
Abbreviation NarrowingError := NarrowingError.NarrowingError.
Record ToolDenied := { field : WarrantField }.

(** ** Narrowing (narrow.rs) *)
Definition INVALID_ROUTE_REASON : bytes :=
  str "max_input_tokens, max_output_tokens, and max_calls must all be > 0".
Definition intersect (parent : WarrantSpec) (role : Role) : outcome WarrantSpec NarrowingError :=
  let proposed := role.(Role.spec) in
  if negb (FsScope.is_subset_of proposed.(fs_scope) parent.(fs_scope))
  then Err (NarrowingError.AttemptedWiden WarrantField.FsScope
              (RFs parent.(fs_scope)) (RFs proposed.(fs_scope)))
  else if negb (NetScope.is_subset_of proposed.(net_scope) parent.(net_scope))
  then Err (NarrowingError.AttemptedWiden WarrantField.NetScope
              (RNet parent.(net_scope)) (RNet proposed.(net_scope)))
  else if negb (bool_decide (proposed.(syscall_profile_ref) = parent.(syscall_profile_ref)))
  then Err (NarrowingError.SyscallProfileNotASubset proposed.(syscall_profile_ref))
  else if negb (bool_decide (proposed.(tool_grants) ⊆ parent.(tool_grants)))
  then Err (NarrowingError.AttemptedWiden WarrantField.ToolGrants
              (RTools parent.(tool_grants)) (RTools proposed.(tool_grants)))
  else if negb (SecretScope.is_subset_of proposed.(secret_scope) parent.(secret_scope))
  then Err (NarrowingError.AttemptedWiden WarrantField.SecretScope
              (RSecret parent.(secret_scope)) (RSecret proposed.(secret_scope)))
  else if (proposed.(model_route).(ModelRoute.max_input_tokens) =? 0)
          || (proposed.(model_route).(ModelRoute.max_output_tokens) =? 0)
          || (proposed.(model_route).(ModelRoute.max_calls) =? 0)
  then Err (NarrowingError.InvalidModelRoute INVALID_ROUTE_REASON)
  else Ok {|
    mote_class := proposed.(mote_class);
    nd_class := proposed.(nd_class);
    fs_scope := proposed.(fs_scope);
    net_scope := proposed.(net_scope);
    syscall_profile_ref := proposed.(syscall_profile_ref);
    tool_grants := proposed.(tool_grants);
    model_route := ModelRoute.narrow_quantitative proposed.(model_route) parent.(model_route);
    resource_ceiling := ResourceCeiling.narrow proposed.(resource_ceiling) parent.(resource_ceiling);
    environment_ref := proposed.(environment_ref);
    executor_class := proposed.(executor_class);
    secret_scope := proposed.(secret_scope);
    cost_ceiling := CostCeiling.narrow proposed.(cost_ceiling) parent.(cost_ceiling);
    tls_required := proposed.(tls_required) || parent.(tls_required) |}.
Definition narrow (parent : WarrantSpec) (child_role : Role) : outcome WarrantSpec NarrowingError :=
  intersect parent child_role.

(** ** Tool admission (check.rs) *)
Definition check_tool_requirement (req : ToolRequirement) (warrant : WarrantSpec)
    : outcome unit ToolDenied :=
  if negb (FsScope.is_subset_of req.(ToolRequirement.fs_scope_required) warrant.(fs_scope))
  then Err {| field := WarrantField.FsScope |}
  else if negb (NetScope.is_subset_of req.(ToolRequirement.net_scope_required) warrant.(net_scope))
  then Err {| field := WarrantField.NetScope |}
  else if negb (bool_decide (req.(ToolRequirement.syscall_profile_ref) = warrant.(syscall_profile_ref)))
  then Err {| field := WarrantField.SyscallProfile |}
  else
    let need := req.(ToolRequirement.min_resource_ceiling) in
    let have := warrant.(resource_ceiling) in
    if (have.(ResourceCeiling.cpu_milli) <? need.(ResourceCeiling.cpu_milli))
       || (have.(ResourceCeiling.mem_bytes) <? need.(ResourceCeiling.mem_bytes))
       || (have.(ResourceCeiling.wall_clock_ms) <? need.(ResourceCeiling.wall_clock_ms))
       || (have.(ResourceCeiling.fd_count) <? need.(ResourceCeiling.fd_count))
       || (have.(ResourceCeiling.disk_bytes) <? need.(ResourceCeiling.disk_bytes))
    then Err {| field := WarrantField.ResourceCeiling |}
    else Ok tt.

(** ** The role registry (registry.rs) *)
Record InMemoryRoleRegistry := { roles : gmap bytes Role }.
Definition InMemoryRoleRegistry_new : InMemoryRoleRegistry := {| roles := ∅ |}.
Definition register (r : InMemoryRoleRegistry) (role_id : bytes) (role : Role) : InMemoryRoleRegistry :=
  {| roles := <[role_id := role]> r.(roles) |}.
Definition resolve (r : InMemoryRoleRegistry) (role_id : bytes) : option Role :=
  r.(roles) !! role_id.

(** ** Content identity of warrants and roles (refs.rs) *)
Definition warrant_ref_of `{Blake3, Bincode WarrantSpec} (spec : WarrantSpec) : ContentRef :=
  blake3 (bincode_encode spec).
Definition decode_warrant `{Bincode WarrantSpec} (b : bytes) : option WarrantSpec :=
  fst <$> bincode_decode b.
Definition role_id_of `{Blake3, Bincode Role} (role : Role) : ContentRef :=
  blake3 (bincode_encode role).

(** ** The order of authority *)
Lemma FsMode_refl m : FsMode.is_subset_of m m = true.
Proof. by destruct m. Qed.
Lemma FsMode_trans a b c :
  FsMode.is_subset_of a b = true -> FsMode.is_subset_of b c = true -> FsMode.is_subset_of a c = true.
Proof. by destruct a, b, c. Qed.

(** Path by path: what the boolean scan decides. *)
Lemma FsScope_subset_spec s p :
  FsScope.is_subset_of s p = true <->
  forall path m, s.(FsScope.mounts) !! path = Some m ->
    exists m', p.(FsScope.mounts) !! path = Some m' /\ FsMode.is_subset_of m m' = true.
Proof.
  unfold FsScope.is_subset_of. rewrite forallb_forall. split.
  - intros H path m Hm. apply elem_of_map_to_list, list_elem_of_In in Hm. specialize (H _ Hm). cbn in H.
    case_match; [by eauto|done].
  - intros H [path m] Hm%list_elem_of_In%elem_of_map_to_list.
    destruct (H path m Hm) as (m' & -> & Hs). done.
Qed.
Lemma FsScope_refl s : FsScope.is_subset_of s s = true.
Proof. apply FsScope_subset_spec. intros path m Hm. exists m. split; [done|apply FsMode_refl]. Qed.
Lemma FsScope_trans a b c :
  FsScope.is_subset_of a b = true -> FsScope.is_subset_of b c = true -> FsScope.is_subset_of a c = true.
Proof.
  rewrite !FsScope_subset_spec. intros Hab Hbc path m Hm.
  destruct (Hab path m Hm) as (m1 & H1 & Hs1). destruct (Hbc path m1 H1) as (m2 & H2 & Hs2).
  exists m2. split; [done|]. by eapply FsMode_trans.
Qed.
Lemma NetScope_refl s : NetScope.is_subset_of s s = true.
Proof. destruct s; cbn; [done|]. by apply bool_decide_eq_true. Qed.
Lemma NetScope_trans a b c :
  NetScope.is_subset_of a b = true -> NetScope.is_subset_of b c = true -> NetScope.is_subset_of a c = true.
Proof. destruct a, b, c; cbn; try done. rewrite !bool_decide_eq_true. set_solver. Qed.
Lemma SecretScope_refl s : SecretScope.is_subset_of s s = true.
Proof. destruct s; cbn; [done|]. by apply bool_decide_eq_true. Qed.
Lemma SecretScope_trans a b c :
  SecretScope.is_subset_of a b = true -> SecretScope.is_subset_of b c = true ->
  SecretScope.is_subset_of a c = true.
Proof. destruct a, b, c; cbn; try done. rewrite !bool_decide_eq_true. set_solver. Qed.

Definition route_le (a b : ModelRoute) : Prop := ModelRoute.is_within a b = true.
Definition resources_le (a b : ResourceCeiling) : Prop :=
  a.(ResourceCeiling.cpu_milli) <= b.(ResourceCeiling.cpu_milli)
  /\ a.(ResourceCeiling.mem_bytes) <= b.(ResourceCeiling.mem_bytes)
  /\ a.(ResourceCeiling.wall_clock_ms) <= b.(ResourceCeiling.wall_clock_ms)
  /\ a.(ResourceCeiling.fd_count) <= b.(ResourceCeiling.fd_count)
  /\ a.(ResourceCeiling.disk_bytes) <= b.(ResourceCeiling.disk_bytes).

(** [warrant_le w p]: on every narrowed axis, [w] grants no more than [p]. *)
Record warrant_le (w p : WarrantSpec) : Prop := {
  wl_fs : FsScope.is_subset_of w.(fs_scope) p.(fs_scope) = true;
  wl_net : NetScope.is_subset_of w.(net_scope) p.(net_scope) = true;
  wl_syscall : w.(syscall_profile_ref) = p.(syscall_profile_ref);
  wl_tools : w.(tool_grants) ⊆ p.(tool_grants);
  wl_secret : SecretScope.is_subset_of w.(secret_scope) p.(secret_scope) = true;
  wl_route : route_le w.(model_route) p.(model_route);
  wl_resources : resources_le w.(resource_ceiling) p.(resource_ceiling);
  wl_cost : w.(cost_ceiling).(CostCeiling.micro_usd) <= p.(cost_ceiling).(CostCeiling.micro_usd);
  wl_tls : p.(tls_required) = true -> w.(tls_required) = true
}.
#[export] Instance warrant_le_preorder : PreOrder warrant_le.
Proof.
  split.
  - intros w. split; auto using FsScope_refl, NetScope_refl, SecretScope_refl; try done;
      unfold route_le, ModelRoute.is_within, resources_le; lia.
  - intros a b c [] []. split; eauto using FsScope_trans, NetScope_trans, SecretScope_trans.
    + congruence.
    + by etrans.
    + unfold route_le, ModelRoute.is_within in *. lia.
    + unfold resources_le in *. lia.
    + lia.
Qed.

Lemma intersect_ok_inv parent role w :
  intersect parent role = Ok w ->
  let q := role.(Role.spec) in
  FsScope.is_subset_of q.(fs_scope) parent.(fs_scope) = true
  /\ NetScope.is_subset_of q.(net_scope) parent.(net_scope) = true
  /\ q.(syscall_profile_ref) = parent.(syscall_profile_ref)
  /\ q.(tool_grants) ⊆ parent.(tool_grants)
  /\ SecretScope.is_subset_of q.(secret_scope) parent.(secret_scope) = true
  /\ q.(model_route).(ModelRoute.max_input_tokens) <> 0
  /\ q.(model_route).(ModelRoute.max_output_tokens) <> 0
  /\ q.(model_route).(ModelRoute.max_calls) <> 0.
Proof.
  unfold intersect. intros H.
  repeat (match type of H with (if ?b then _ else _) = _ => destruct b eqn:? end; [discriminate H|]).
  repeat match goal with
  | G : negb _ = false |- _ => apply negb_false_iff in G
  | G : bool_decide _ = true |- _ => apply bool_decide_eq_true in G
  | G : (_ || _) = false |- _ => apply orb_false_iff in G as [G ?]
  | G : (_ =? _) = false |- _ => apply Z.eqb_neq in G
  end. split_and!; done.
Qed.

Lemma intersect_le parent role w : intersect parent role = Ok w -> warrant_le w parent.
Proof.
  intros H. pose proof (intersect_ok_inv _ _ _ H) as (Hf & Hn & Hs & Ht & Hsec & _).
  unfold intersect in H.
  repeat (match type of H with (if ?b then _ else _) = _ => destruct b eqn:? end; [discriminate H|]).
  ok_inv. split; try done; unfold route_le, ModelRoute.is_within, resources_le; cbn; try lia.
  intros ->. by rewrite orb_true_r.
Qed.

Lemma intersect_fits parent role :
  let q := role.(Role.spec) in
  FsScope.is_subset_of q.(fs_scope) parent.(fs_scope) = true ->
  NetScope.is_subset_of q.(net_scope) parent.(net_scope) = true ->
  q.(syscall_profile_ref) = parent.(syscall_profile_ref) ->
  q.(tool_grants) ⊆ parent.(tool_grants) ->
  SecretScope.is_subset_of q.(secret_scope) parent.(secret_scope) = true ->
  q.(model_route).(ModelRoute.max_input_tokens) <> 0 ->
  q.(model_route).(ModelRoute.max_output_tokens) <> 0 ->
  q.(model_route).(ModelRoute.max_calls) <> 0 ->
  exists w, intersect parent role = Ok w.
Proof.
  intros q Hf Hn Hs Ht Hsec H1 H2 H3. unfold intersect. fold q.
  rewrite Hf, Hn, Hsec, !bool_decide_true by done. cbn [negb].
  rewrite !(proj2 (Z.eqb_neq _ _)) by done. by eexists.
Qed.

(** The chain of roles a Mote was spawned through. *)
Fixpoint delegate (w : WarrantSpec) (chain : list Role) : outcome WarrantSpec NarrowingError :=
  match chain with
  | [] => Ok w
  | role :: chain => let* w := narrow w role in delegate w chain
  end.
Lemma delegate_le root chain w : delegate root chain = Ok w -> warrant_le w root.
Proof.
  revert root. induction chain as [|r chain IH]; intros root; cbn [delegate]; intros H; ok_inv; [done|].
  etrans; [by eapply IH|by eapply intersect_le].
Qed.
(** Admission is monotone in the warrant. *)
Lemma check_tool_mono req w p :
  warrant_le w p -> check_tool_requirement req w = Ok tt -> check_tool_requirement req p = Ok tt.
Proof.
  intros [Hf Hn Hs _ _ _ Hr _ _]. unfold check_tool_requirement, resources_le in *. intros H.
  repeat (match type of H with (if ?b then _ else _) = _ => destruct b eqn:? end; [discriminate H|]).
  repeat match goal with
  | G : negb _ = false |- _ => apply negb_false_iff in G
  | G : bool_decide _ = true |- _ => apply bool_decide_eq_true in G
  end.
  rewrite (FsScope_trans _ _ _ Heqb Hf), (NetScope_trans _ _ _ Heqb0 Hn), bool_decide_true by congruence.
  cbn [negb]. case_match; [lia|done].
Qed.

(** [C6] No privilege amplification: along any chain of delegations the final
    warrant grants no more than the root on any narrowed axis (filesystem,
    network, tools, secrets, syscall profile, model budgets, resources, cost,
    TLS), and every tool the final warrant admits the root admits too. *)
Theorem delegation_never_amplifies root chain w :
  delegate root chain = Ok w ->
  warrant_le w root
  /\ forall req, check_tool_requirement req w = Ok tt -> check_tool_requirement req root = Ok tt.
Proof.
  intros H%delegate_le. split; [done|]. intros req. by apply check_tool_mono.
Qed.

(** Narrowing is the meet: it succeeds exactly when the proposal widens no
    qualitative axis, keeps the syscall profile and has non-zero model budgets;
    the result is below the parent and below the proposal, and it is the
    greatest such warrant. *)
Theorem intersect_is_meet parent role :
  let q := role.(Role.spec) in
  ((exists w, intersect parent role = Ok w) <->
   FsScope.is_subset_of q.(fs_scope) parent.(fs_scope) = true
   /\ NetScope.is_subset_of q.(net_scope) parent.(net_scope) = true
   /\ q.(syscall_profile_ref) = parent.(syscall_profile_ref)
   /\ q.(tool_grants) ⊆ parent.(tool_grants)
   /\ SecretScope.is_subset_of q.(secret_scope) parent.(secret_scope) = true
   /\ q.(model_route).(ModelRoute.max_input_tokens) <> 0
   /\ q.(model_route).(ModelRoute.max_output_tokens) <> 0
   /\ q.(model_route).(ModelRoute.max_calls) <> 0)
  /\ forall w, intersect parent role = Ok w ->
     warrant_le w parent /\ warrant_le w q
     /\ forall v, warrant_le v parent -> warrant_le v q -> warrant_le v w.
Proof.
  intros q. split; [split|].
  - intros [w Hw]. exact (intersect_ok_inv _ _ _ Hw).
  - intros (? & ? & ? & ? & ? & ? & ? & ?). by apply intersect_fits.
  - intros w Hw. split; [by eapply intersect_le|].
    unfold intersect in Hw. fold q in Hw.
    repeat (match type of Hw with (if ?b then _ else _) = _ => destruct b eqn:? end; [discriminate Hw|]).
    ok_inv. split.
    + split; cbn; auto using FsScope_refl, NetScope_refl, SecretScope_refl;
        unfold route_le, ModelRoute.is_within, resources_le; cbn; try lia. by intros ->.
    + intros v [Hf Hn Hs Ht Hsec Hr Hres Hc Htls] [Hf' Hn' Hs' Ht' Hsec' Hr' Hres' Hc' Htls'].
      split; cbn; auto; unfold route_le, ModelRoute.is_within, resources_le in *; cbn; try lia.
      intros [?|?]%orb_true_iff; auto.
Qed.

(** Fail-closed default: a warrant obtained from the default by any chain
    of delegations has no mount, no egress host, no tool, no secret, no resource
    and no spend, and still requires TLS. *)
Theorem default_grants_nothing chain w :
  delegate WarrantSpec.default chain = Ok w ->
  w.(fs_scope).(FsScope.mounts) = ∅ /\ w.(net_scope) = NetScope.None
  /\ w.(tool_grants) = ∅ /\ w.(secret_scope) = SecretScope.None
  /\ resources_le w.(resource_ceiling) ResourceCeiling.zero
  /\ w.(cost_ceiling).(CostCeiling.micro_usd) <= 0 /\ w.(tls_required) = true.
Proof.
  intros [Hf Hn _ Ht Hsec _ Hres Hc Htls]%delegate_le. cbn in *. split_and!; try done.
  - apply map_eq. intros path. rewrite lookup_empty.
    destruct (FsScope.mounts (fs_scope w) !! path) as [m|] eqn:E; [|done].
    rewrite FsScope_subset_spec in Hf. destruct (Hf path m E) as (m' & Hm' & _).
    cbn in Hm'. by rewrite lookup_empty in Hm'.
  - by destruct (net_scope w).
  - set_solver.
  - by destruct (secret_scope w).
  - by apply Htls.
Qed.

(** ** Witnesses *)
Definition demo_warrant (calls : Z) (mode : FsMode) : WarrantSpec := {|
  mote_class := MoteClass.Pure; nd_class := MoteClass.Pure;
  fs_scope := {| FsScope.mounts := {[ str "/data" := mode ]} |};
  net_scope := NetScope.None; syscall_profile_ref := replicate 32 0; tool_grants := ∅;
  model_route := {| ModelRoute.model_id := str "m"; ModelRoute.max_input_tokens := 8;
                    ModelRoute.max_output_tokens := 8; ModelRoute.max_calls := calls |};
  resource_ceiling := ResourceCeiling.zero; environment_ref := None; executor_class := Bwrap;
  secret_scope := SecretScope.None; cost_ceiling := {| CostCeiling.micro_usd := 5 |};
  tls_required := false |}.
Definition demo_role (calls : Z) (mode : FsMode) : Role :=
  {| Role.name := str "r"; Role.version := 1; Role.spec := demo_warrant calls mode;
     Role.description := [] |}.
Definition empty_role : Role :=
  {| Role.name := str "none"; Role.version := 1; Role.description := [];
     Role.spec := {| mote_class := MoteClass.Pure; nd_class := MoteClass.Pure;
       fs_scope := FsScope.empty; net_scope := NetScope.None;
       syscall_profile_ref := replicate 32 0; tool_grants := ∅;
       model_route := {| ModelRoute.model_id := []; ModelRoute.max_input_tokens := 1;
                         ModelRoute.max_output_tokens := 1; ModelRoute.max_calls := 1 |};
       resource_ceiling := ResourceCeiling.zero; environment_ref := None; executor_class := Bwrap;
       secret_scope := SecretScope.None; cost_ceiling := {| CostCeiling.micro_usd := 9 |};
       tls_required := false |} |}.

Lemma delegation_never_amplifies_witness :
  exists w, delegate (demo_warrant 10 FsMode.ReadWrite)
              [demo_role 7 FsMode.ReadWrite; demo_role 9 FsMode.ReadOnly] = Ok w
    /\ warrant_le w (demo_warrant 10 FsMode.ReadWrite).
Proof.
  eexists. split; [vm_compute; reflexivity|].
  eapply (delegation_never_amplifies (demo_warrant 10 FsMode.ReadWrite)
            [demo_role 7 FsMode.ReadWrite; demo_role 9 FsMode.ReadOnly]).
  vm_compute. reflexivity.
Defined.
Lemma default_grants_nothing_witness :
  exists w, delegate WarrantSpec.default [empty_role] = Ok w /\ w.(tls_required) = true.
Proof.
  eexists. split; [vm_compute; reflexivity|].
  eapply (default_grants_nothing [empty_role]). vm_compute. reflexivity.
Defined.
