(* ===== verification/Content.v ===== *)
(** kx-content: content references with their hexadecimal form, the
    [ContentStore] trait with its laws, and its two backends: the in-memory map
    and the directory of files named by reference (in_memory.rs, local_fs.rs).
    The directory is a map from file names to contents; the operating system's
    I/O errors are not modelled. *)
From S2P Require Import Prelude Utf8 Mote.

(** ** References *)
Definition ContentRef_of `{Blake3} (b : bytes) : ContentRef := blake3 b.
(** [blake3::Hash::to_hex]: lower case. *)
Definition hex_digit (n : Z) : Z := if n <? 10 then 48 + n else 87 + n.
Definition to_hex (r : ContentRef) : bytes :=
  concat ((fun b => [hex_digit (b / 16); hex_digit (b mod 16)]) <$> r).
(** [char::to_digit(16)]: either case. *)
Definition to_digit16 (c : Z) : option Z :=
  if (48 <=? c) && (c <=? 57) then Some (c - 48)
  else if (97 <=? c) && (c <=? 102) then Some (c - 87)
  else if (65 <=? c) && (c <=? 70) then Some (c - 55)
  else None.
Fixpoint from_hex_pairs (b : bytes) : option bytes :=
  match b with
  | p0 :: p1 :: b =>
      match to_digit16 p0, to_digit16 p1 with
      | Some hi, Some lo =>
          if hi * 16 + lo <? 256 then (fun out => hi * 16 + lo :: out) <$> from_hex_pairs b else None
      | _, _ => None
      end
  | _ => Some []
  end.
Definition from_hex (s : bytes) : option ContentRef :=
  if negb (length s =? 64)%nat then None else from_hex_pairs s.

(** local_fs.rs: lower case only. *)
Definition hex_nibble (c : Z) : option Z :=
  if (48 <=? c) && (c <=? 57) then Some (c - 48)
  else if (97 <=? c) && (c <=? 102) then Some (10 + c - 97)
  else None.
Fixpoint decode_pairs (b : bytes) : option bytes :=
  match b with
  | c0 :: c1 :: b =>
      match hex_nibble c0, hex_nibble c1 with
      | Some hi, Some lo => (fun out => Z.lor (Z.shiftl hi 4) lo :: out) <$> decode_pairs b
      | _, _ => None
      end
  | _ => Some []
  end.
Definition decode_hex_hash (s : bytes) : option bytes :=
  if negb (length s =? 64)%nat then None else decode_pairs s.

(** ** The trait *)
Inductive StoreError := StoreIo | HashMismatch.
Class ContentStore (S : Type) := {
  put : S -> bytes -> outcome (ContentRef * S) StoreError;
  get : S -> ContentRef -> option bytes;
  delete_ref : S -> ContentRef -> outcome S StoreError;
  list_refs : S -> list ContentRef;
  contains : S -> ContentRef -> bool
}.

(** ** In memory *)
Record InMemoryContentStore := { objects : gmap bytes bytes }.
Definition InMemoryContentStore_new : InMemoryContentStore := {| objects := ∅ |}.
(** [map.entry(k).or_insert(v)] *)
Definition or_insert (k v : bytes) (m : gmap bytes bytes) : gmap bytes bytes :=
  match m !! k with Some _ => m | None => <[k := v]> m end.
Definition mem_put `{Blake3} (s : InMemoryContentStore) (b : bytes)
    : outcome (ContentRef * InMemoryContentStore) StoreError :=
  let r := ContentRef_of b in Ok (r, {| objects := or_insert r b s.(objects) |}).
Definition mem_get (s : InMemoryContentStore) (r : ContentRef) : option bytes := s.(objects) !! r.
Definition mem_delete (s : InMemoryContentStore) (r : ContentRef)
    : outcome InMemoryContentStore StoreError := Ok {| objects := delete r s.(objects) |}.
Definition mem_list_refs (s : InMemoryContentStore) : list ContentRef := (map_to_list s.(objects)).*1.
Definition mem_contains (s : InMemoryContentStore) (r : ContentRef) : bool :=
  bool_decide (is_Some (s.(objects) !! r)).
#[export] Instance InMemoryContentStore_store `{Blake3} : ContentStore InMemoryContentStore := {|
  put := mem_put; get := mem_get; delete_ref := mem_delete; list_refs := mem_list_refs;
  contains := mem_contains |}.

(** ** A directory *)
Record LocalFsContentStore := { files : gmap bytes bytes }.
Definition path_for (r : ContentRef) : bytes := to_hex r.
Definition fs_put `{Blake3} (s : LocalFsContentStore) (b : bytes)
    : outcome (ContentRef * LocalFsContentStore) StoreError :=
  let r := ContentRef_of b in
  if bool_decide (is_Some (s.(files) !! path_for r)) then Ok (r, s)
  else Ok (r, {| files := <[path_for r := b]> s.(files) |}).
Definition fs_get (s : LocalFsContentStore) (r : ContentRef) : option bytes := s.(files) !! path_for r.
Definition fs_delete (s : LocalFsContentStore) (r : ContentRef)
    : outcome LocalFsContentStore StoreError := Ok {| files := delete (path_for r) s.(files) |}.
Definition fs_list_refs (s : LocalFsContentStore) : list ContentRef :=
  omap decode_hex_hash (map_to_list s.(files)).*1.
Definition fs_contains (s : LocalFsContentStore) (r : ContentRef) : bool :=
  bool_decide (is_Some (s.(files) !! path_for r)).
#[export] Instance LocalFsContentStore_store `{Blake3} : ContentStore LocalFsContentStore := {|
  put := fs_put; get := fs_get; delete_ref := fs_delete; list_refs := fs_list_refs;
  contains := fs_contains |}.

(** ** What a store promises: a map from references to contents
    The laws are those of a store whose device answers: its put and delete succeed.
    The error paths of the clients (a put that fails) are in their definitions and
    are not excluded there; what is proved from these laws does not exercise them. *)
Class ContentStoreLaws (S : Type) `{Blake3} `{ContentStore S} := {
  holds : S -> gmap bytes bytes -> Prop;
  holds_refs : forall s m r b, holds s m -> m !! r = Some b -> array_ok 32 r;
  put_law : forall s m b, holds s m ->
    exists s', put s b = Ok (blake3 b, s') /\ holds s' (or_insert (blake3 b) b m);
  get_law : forall s m r, holds s m -> array_ok 32 r -> get s r = m !! r;
  delete_law : forall s m r, holds s m -> array_ok 32 r ->
    exists s', delete_ref s r = Ok s' /\ holds s' (delete r m);
  list_law : forall s m r, holds s m -> r ∈ list_refs s <-> is_Some (m !! r);
  list_nodup : forall s m, holds s m -> NoDup (list_refs s);
  contains_law : forall s m r, holds s m -> array_ok 32 r ->
    contains s r = bool_decide (is_Some (m !! r))
}.

(** ** The file name is the reference *)
Lemma hex_digit_nibble n : 0 <= n < 16 -> hex_nibble (hex_digit n) = Some n.
Proof.
  intros Hn. unfold hex_nibble, hex_digit. destruct (Z.ltb_spec n 10).
  - rewrite (proj2 (andb_true_iff _ _)) by (split; apply Z.leb_le; lia). f_equal. lia.
  - rewrite (proj2 (andb_false_iff _ _)) by (right; apply Z.leb_gt; lia).
    rewrite (proj2 (andb_true_iff _ _)) by (split; apply Z.leb_le; lia). f_equal. lia.
Qed.
Lemma hex_nibble_digit c n : hex_nibble c = Some n -> 0 <= n < 16 /\ hex_digit n = c.
Proof.
  unfold hex_nibble, hex_digit.
  destruct ((48 <=? c) && (c <=? 57)) eqn:E1; [|destruct ((97 <=? c) && (c <=? 102)) eqn:E2; [|done]].
  - intros [= <-]. destruct (Z.ltb_spec (c - 48) 10); lia.
  - intros [= <-]. destruct (Z.ltb_spec (10 + c - 97) 10); lia.
Qed.
Lemma lor_nibbles hi lo : 0 <= hi -> 0 <= lo < 16 -> Z.lor (Z.shiftl hi 4) lo = hi * 16 + lo.
Proof.
  intros Hhi Hlo. pose proof (Z.add_lor_land (Z.shiftl hi 4) lo) as H.
  replace (Z.land (Z.shiftl hi 4) lo) with 0 in H.
  { rewrite Z.shiftl_mul_pow2 in * by lia. lia. }
  symmetry. apply Z.bits_inj'. intros n Hn. rewrite Z.bits_0, Z.land_spec.
  destruct (Z.lt_ge_cases n 4).
  - by rewrite Z.shiftl_spec_low by lia.
  - replace (Z.testbit lo n) with false; [by rewrite andb_false_r|]. symmetry.
    apply (Z.bounded_iff_bits_nonneg 4 lo); lia.
Qed.
Lemma to_hex_cons b r : to_hex (b :: r) = hex_digit (b / 16) :: hex_digit (b mod 16) :: to_hex r.
Proof. done. Qed.
Lemma length_to_hex r : length (to_hex r) = (2 * length r)%nat.
Proof. induction r as [|b r IH]; [done|]. rewrite to_hex_cons. cbn [length]. lia. Qed.
Lemma decode_pairs_to_hex r : bytes_ok r -> decode_pairs (to_hex r) = Some r.
Proof.
  induction 1 as [|b r Hb _ IH]; [done|]. rewrite to_hex_cons. cbn [decode_pairs].
  unfold in_width in Hb. rewrite !hex_digit_nibble by (apply Z.mod_pos_bound || (split; [apply Z.div_pos|apply Z.div_lt_upper_bound]); lia).
  rewrite IH. cbn. f_equal. f_equal.
  rewrite lor_nibbles by (apply Z.mod_pos_bound || apply Z.div_pos; lia).
  pose proof (Z.div_mod b 16). lia.
Qed.
Lemma decode_hex_hash_to_hex r : array_ok 32 r -> decode_hex_hash (to_hex r) = Some r.
Proof.
  intros [Hl Hr]. unfold decode_hex_hash. rewrite length_to_hex, Hl. cbn [negb Nat.eqb Nat.mul Nat.add].
  by apply decode_pairs_to_hex.
Qed.
Lemma pair_ind (P : bytes -> Prop) :
  P [] -> (forall a, P [a]) -> (forall a b l, P l -> P (a :: b :: l)) -> forall l, P l.
Proof. intros H0 H1 H2. fix go 1. intros [|a [|b l]]; [done|done|]. apply H2, go. Qed.
Lemma decode_pairs_inv s r :
  Nat.even (length s) = true -> decode_pairs s = Some r -> to_hex r = s /\ bytes_ok r.
Proof.
  revert r. induction s as [| |c0 c1 s IH] using pair_ind; intros r Hev H;
    [injection H as <-; by split; [|constructor]|done|].
  cbn [decode_pairs] in H. destruct (hex_nibble c0) as [hi|] eqn:E0; [|done].
  destruct (hex_nibble c1) as [lo|] eqn:E1; [|done].
  destruct (decode_pairs s) as [out|] eqn:Hs; [|done]. injection H as <-.
  apply hex_nibble_digit in E0 as [Hhi <-], E1 as [Hlo <-].
  destruct (IH out Hev eq_refl) as [<- Hout]. rewrite lor_nibbles by lia. split.
  - rewrite to_hex_cons. f_equal; [|f_equal].
    + f_equal. rewrite Z.div_add_l by lia. rewrite Z.div_small by lia. lia.
    + f_equal. rewrite Z.add_comm, Z.mod_add by lia. by apply Z.mod_small.
  - constructor; [|done]. unfold in_width. lia.
Qed.
Lemma decode_hex_hash_inv s r : decode_hex_hash s = Some r -> to_hex r = s /\ array_ok 32 r.
Proof.
  unfold decode_hex_hash. destruct (Nat.eqb_spec (length s) 64) as [Hl|]; [|done]. cbn [negb].
  intros [<- Hr]%decode_pairs_inv; [|by rewrite Hl]. rewrite length_to_hex in Hl.
  split; [done|split; [lia|done]].
Qed.
Lemma to_hex_inj r r' : array_ok 32 r -> array_ok 32 r' -> to_hex r = to_hex r' -> r = r'.
Proof.
  intros H%decode_hex_hash_to_hex H'%decode_hex_hash_to_hex E. rewrite E in H. congruence.
Qed.

(** ** The two backends keep the promise *)
Section Backends.
Context `{Blake3}.

Lemma or_insert_refs (m : gmap bytes bytes) k v r b :
  array_ok 32 k -> (forall r b, m !! r = Some b -> array_ok 32 r) ->
  or_insert k v m !! r = Some b -> array_ok 32 r.
Proof.
  intros Hk Hm. unfold or_insert. destruct (m !! k); [apply Hm|].
  intros [[<- _]|[_ Hr]]%lookup_insert_Some; [done|by eapply Hm].
Qed.
Lemma delete_refs (m : gmap bytes bytes) k r b :
  (forall r b, m !! r = Some b -> array_ok 32 r) -> delete k m !! r = Some b -> array_ok 32 r.
Proof. intros Hm [_ Hr]%lookup_delete_Some. by eapply Hm. Qed.

#[export] Instance InMemoryContentStore_laws : ContentStoreLaws InMemoryContentStore.
Proof.
  refine {| holds := fun s m => objects s = m /\ forall r b, m !! r = Some b -> array_ok 32 r |}.
  - intros s m r b [_ Hm]. apply Hm.
  - intros s m b [<- Hm]. eexists. split; [reflexivity|]. split; [done|].
    intros r b'. apply or_insert_refs; [apply blake3_array|done].
  - by intros s m r [<- _] _.
  - intros s m r [<- Hm] _. eexists. split; [reflexivity|]. split; [done|].
    intros r' b'. by apply delete_refs.
  - intros s m r [<- _]. cbn. unfold mem_list_refs. rewrite list_elem_of_fmap. split.
    + intros ([r' b] & -> & Hr). apply elem_of_map_to_list in Hr. eauto.
    + intros [b Hb]. exists (r, b). split; [done|]. by apply elem_of_map_to_list.
  - intros s m [<- _]. apply NoDup_fst_map_to_list.
  - by intros s m r [<- _] _.
Defined.

(** A directory holds [m] when the file of each reference is its content. *)
Definition fs_holds (s : LocalFsContentStore) (m : gmap bytes bytes) : Prop :=
  (forall r, array_ok 32 r -> files s !! to_hex r = m !! r)
  /\ (forall r b, m !! r = Some b -> array_ok 32 r).
Lemma fs_list_refs_elem s m r : fs_holds s m -> r ∈ fs_list_refs s <-> is_Some (m !! r).
Proof.
  intros [Hm Hr]. unfold fs_list_refs. rewrite list_elem_of_omap. split.
  - intros (name & Hn & Hd). apply decode_hex_hash_inv in Hd as [<- Ha].
    apply list_elem_of_fmap in Hn as ([n b] & En & Hb). cbn in En. subst n.
    apply elem_of_map_to_list in Hb. rewrite <- Hm by done. eauto.
  - intros [b Hb]. pose proof (Hr _ _ Hb) as Ha. exists (to_hex r).
    split; [|by apply decode_hex_hash_to_hex]. apply list_elem_of_fmap. exists (to_hex r, b).
    split; [done|]. apply elem_of_map_to_list. by rewrite Hm.
Qed.
Lemma fs_list_refs_nodup s : NoDup (fs_list_refs s).
Proof.
  unfold fs_list_refs. pose proof (NoDup_fst_map_to_list (files s)) as Hn. revert Hn.
  generalize (map_to_list (files s)).*1. induction 1 as [|name l Hnin _ IH]; [constructor|].
  cbn. destruct (decode_hex_hash name) as [r|] eqn:Hd; [|done]. constructor; [|done].
  intros (name' & Hin & Hd')%list_elem_of_omap. apply Hnin.
  apply decode_hex_hash_inv in Hd as [<- _], Hd' as [<- _]. done.
Qed.

#[export] Instance LocalFsContentStore_laws : ContentStoreLaws LocalFsContentStore.
Proof.
  refine {| holds := fs_holds |}.
  - intros s m r b [_ Hm]. apply Hm.
  - intros s m b [Hm Hr]. cbn [put LocalFsContentStore_store]. unfold fs_put, path_for, ContentRef_of.
    rewrite Hm by apply blake3_array. unfold or_insert.
    destruct (m !! blake3 b) as [x|] eqn:Hx.
    + rewrite bool_decide_true by eauto. eexists. split; [reflexivity|]. by split.
    + rewrite bool_decide_false by (by intros [? [=]]). eexists. split; [reflexivity|]. split.
      * intros r Ha. cbn [files]. destruct (decide (r = blake3 b)) as [->|Hne].
        -- by rewrite !lookup_insert_eq.
        -- rewrite !lookup_insert_ne; [by apply Hm|done|].
           intros E. apply Hne. symmetry. by apply to_hex_inj; [apply blake3_array|..].
      * intros r b' [[<- _]|[_ Hb]]%lookup_insert_Some; [apply blake3_array|by eapply Hr].
  - intros s m r [Hm _] Ha. by apply Hm.
  - intros s m r [Hm Hr] Ha. eexists. split; [reflexivity|]. split; [|by intros r' b'; apply delete_refs].
    intros r' Ha'. cbn [files]. destruct (decide (r' = r)) as [->|Hne].
    + by rewrite !lookup_delete_eq.
    + rewrite !lookup_delete_ne; [by apply Hm|done|]. intros E. apply Hne. symmetry. by apply to_hex_inj.
  - apply fs_list_refs_elem.
  - intros s m _. apply fs_list_refs_nodup.
  - intros s m r [Hm _] Ha. cbn. unfold fs_contains, path_for. by rewrite Hm.
Defined.
End Backends.

(** ** Sequences of writes *)
Inductive StoreOp := OpPut (b : bytes) | OpDelete (r : ContentRef).
Definition op_ok (o : StoreOp) : Prop := match o with OpPut _ => True | OpDelete r => array_ok 32 r end.

Section Sequences.
Context `{Blake3}.
Definition run_op {S : Type} `{ContentStore S} (s : S) (o : StoreOp) : outcome S StoreError :=
  match o with
  | OpPut b => let* (_, s) := put s b in Ok s
  | OpDelete r => delete_ref s r
  end.
Fixpoint run_ops {S : Type} `{ContentStore S} (s : S) (os : list StoreOp) : outcome S StoreError :=
  match os with
  | [] => Ok s
  | o :: os => let* s := run_op s o in run_ops s os
  end.
(** The contents a sequence of writes leaves. *)
Definition op_map (m : gmap bytes bytes) (o : StoreOp) : gmap bytes bytes :=
  match o with OpPut b => or_insert (blake3 b) b m | OpDelete r => delete r m end.

Lemma run_ops_holds {S : Type} `{!ContentStore S} `{!ContentStoreLaws S} (s : S) m os :
  holds s m -> Forall op_ok os -> exists s', run_ops s os = Ok s' /\ holds s' (foldl op_map m os).
Proof.
  intros Hs Hos. revert s m Hs. induction Hos as [|o os Ho _ IH]; intros s m Hs; [by exists s|].
  cbn [run_ops foldl]. destruct o as [b|r]; cbn [run_op op_map].
  - destruct (put_law s m b Hs) as (s' & -> & Hs'). cbn [obind]. by apply IH.
  - destruct (delete_law s m r Hs Ho) as (s' & -> & Hs'). cbn [obind]. by apply IH.
Qed.
Lemma op_maps_addressed os m :
  (forall r b, m !! r = Some b -> blake3 b = r) ->
  forall r b, foldl op_map m os !! r = Some b -> blake3 b = r.
Proof.
  revert m. induction os as [|o os IH]; intros m Hm; [done|]. cbn [foldl]. apply IH.
  intros r b. destruct o as [b'|r']; cbn [op_map].
  - unfold or_insert. destruct (m !! blake3 b'); [apply Hm|].
    intros [[<- <-]|[_ Hb]]%lookup_insert_Some; auto.
  - intros [_ Hb]%lookup_delete_Some. auto.
Qed.

(** Content addressing: after any sequence of puts and deletes on an empty
    store, both backends hold the same contents under the same references (the
    directory listing shows each exactly once, whatever other files lie
    around), everything a store returns hashes to the reference it was asked
    for, and a put makes its reference readable. *)
Theorem stores_content_addressed os foreign :
  Forall op_ok os -> (forall name, is_Some (foreign !! name) -> decode_hex_hash name = None) ->
  exists sm sf,
    run_ops InMemoryContentStore_new os = Ok sm
    /\ run_ops {| files := foreign |} os = Ok sf
    /\ (forall r, array_ok 32 r -> get sf r = get sm r /\ contains sf r = contains sm r)
    /\ list_refs sf ≡ₚ list_refs sm
    /\ (forall r b, get sm r = Some b -> blake3 b = r)
    /\ (forall b, exists s', put sf b = Ok (blake3 b, s') /\ contains s' (blake3 b) = true).
Proof.
  intros Hos Hf.
  destruct (run_ops_holds InMemoryContentStore_new ∅ os) as (sm & Hm & Hsm); [by split|done|].
  destruct (run_ops_holds {| files := foreign |} ∅ os) as (sf & Hr & Hsf); [|done|].
  { split; [|done]. intros r Ha. rewrite lookup_empty. cbn [files].
    destruct (foreign !! to_hex r) eqn:E; [|done].
    specialize (Hf (to_hex r)). rewrite decode_hex_hash_to_hex in Hf by done.
    rewrite E in Hf. by discriminate Hf. }
  exists sm, sf. split_and!; [done|done|..].
  - intros r Ha. by rewrite !(get_law _ _ r Hsf), !(get_law _ _ r Hsm), !(contains_law _ _ r Hsf), !(contains_law _ _ r Hsm).
  - apply NoDup_Permutation; [by eapply list_nodup..|]. intros r.
    by rewrite (list_law _ _ r Hsf), (list_law _ _ r Hsm).
  - intros r b Hb. destruct Hsm as [Hobj _]. cbn in Hb. unfold mem_get in Hb. rewrite Hobj in Hb.
    revert Hb. by apply op_maps_addressed.
  - intros b. destruct (put_law sf _ b Hsf) as (s' & Hp & Hs'). exists s'. split; [done|].
    rewrite (contains_law _ _ _ Hs') by apply blake3_array. apply bool_decide_eq_true.
    unfold or_insert. destruct (foldl op_map ∅ os !! blake3 b) eqn:E; [by rewrite E; eauto|].
    rewrite lookup_insert_eq. eauto.
Qed.
End Sequences.

Lemma stores_content_addressed_witness :
  exists sm sf,
    run_ops (H0 := InMemoryContentStore_store (H := demo_blake3)) InMemoryContentStore_new
      [OpPut [1]; OpPut [2]; OpDelete (to_le 32 1)] = Ok sm
    /\ run_ops (H0 := LocalFsContentStore_store (H := demo_blake3))
         {| files := {[ str ".tmp" := [] ]} |} [OpPut [1]; OpPut [2]; OpDelete (to_le 32 1)] = Ok sf
    /\ fs_list_refs sf = [to_le 32 2].
Proof.
  destruct (stores_content_addressed (H := demo_blake3) [OpPut [1]; OpPut [2]; OpDelete (to_le 32 1)]
              {[ str ".tmp" := [] ]}) as (sm & sf & Hm & Hf & _).
  - do 3 (constructor; [first [exact I|split; [done|apply to_le_ok]]|]). constructor.
  - intros name [b [<- _]%lookup_singleton_Some]. by vm_compute.
  - exists sm, sf. split_and!; [exact Hm|exact Hf|]. vm_compute in Hf. injection Hf as <-. by vm_compute.
Defined.
