(* ===== verification/DemoCodec.v ===== *)
(** A concrete codec for the types the runtime serializes with bincode, so that
    theorems parametric in the codec have inhabited instances: each type is
    counted (stdpp's [Countable]) and a value is written as its number. *)
From S2P Require Import Prelude CriticTypes Mote Warrant.

(** Count a type through an injection with a left inverse. *)
Ltac count f g := apply (inj_countable' f g); intros []; repeat case_match; simplify_eq/=; done.

(** ** kx-mote *)
#[export] Instance NdClass_countable : Countable NdClass.
Proof.
  count (fun n => match n with Pure => 0 | ReadOnlyNondet => 1 | WorldMutating => 2 end)
    (fun z => if z =? 0 then Pure else if z =? 1 then ReadOnlyNondet else WorldMutating).
Defined.
#[export] Instance EffectPattern_countable : Countable EffectPattern.
Proof.
  count (fun n => match n with IdempotentByConstruction => 0 | StageThenCommit => 1 | ValidateThenCommit => 2 end)
    (fun z => if z =? 0 then IdempotentByConstruction else if z =? 1 then StageThenCommit
              else ValidateThenCommit).
Defined.
#[export] Instance TensorDTypeTag_countable : Countable TensorDTypeTag.
Proof.
  count TensorDTypeTag_as_u8
    (fun z => if z =? 0 then F32 else if z =? 1 then F16 else if z =? 2 then BF16
              else if z =? 3 then I64 else if z =? 4 then I32 else if z =? 5 then U8 else Bool).
Defined.
#[export] Instance SchemaTag_countable : Countable SchemaTag.
Proof.
  count (fun t => match t with
                  | SchemaTag.Blob => inl 0 | SchemaTag.Text => inl 1 | SchemaTag.Json => inl 2
                  | SchemaTag.Image => inl 3 | SchemaTag.Audio => inl 4
                  | SchemaTag.Tensor d s => inr (inl (d, s))
                  | SchemaTag.Vector n => inr (inr n)
                  end)
    (fun x : Z + (TensorDTypeTag * list Z + Z) => match x with
              | inl z => if z =? 0 then SchemaTag.Blob else if z =? 1 then SchemaTag.Text
                         else if z =? 2 then SchemaTag.Json else if z =? 3 then SchemaTag.Image
                         else SchemaTag.Audio
              | inr (inl (d, s)) => SchemaTag.Tensor d s
              | inr (inr n) => SchemaTag.Vector n
              end).
Defined.
#[export] Instance RecordFraming_countable : Countable RecordFraming.
Proof.
  count (fun f => match f with LinesLf => inl true | LengthPrefixedU32 => inl false | FixedWidth w => inr w end)
    (fun x : bool + Z => match x with inl b => if b then LinesLf else LengthPrefixedU32 | inr w => FixedWidth w end).
Defined.
#[export] Instance StatKind_countable : Countable StatKind.
Proof.
  count stat_tag (fun z => if z =? 0 then RecordCount else if z =? 1 then MeanScaled
                           else if z =? 2 then MinScaled else MaxScaled).
Defined.
#[export] Instance CheckSpec_countable : Countable CheckSpec.
Proof.
  apply (inj_countable'
    (fun c => match c with
              | CheckSpec.Schema s => inl (inl (expected s))
              | CheckSpec.Dedup s => inl (inr (dedup_framing s, key_range s))
              | CheckSpec.StatBounds s =>
                  inr (inl ((stat_framing s, stat s, scale s), (lo_scaled s, hi_scaled s, numeric_field_range s)))
              | CheckSpec.PiiLeak s => inr (inr (inl (forbidden s)))
              | CheckSpec.LlmJudge s => inr (inr (inr (judge_max_output_tokens s)))
              end)
    (fun x => match x with
              | inl (inl t) => CheckSpec.Schema {| expected := t |}
              | inl (inr (f, k)) => CheckSpec.Dedup {| dedup_framing := f; key_range := k |}
              | inr (inl ((f, st, sc), (lo, hi, r))) =>
                  CheckSpec.StatBounds {| stat_framing := f; stat := st; scale := sc; lo_scaled := lo;
                                          hi_scaled := hi; numeric_field_range := r |}
              | inr (inr (inl f)) => CheckSpec.PiiLeak {| forbidden := f |}
              | inr (inr (inr n)) => CheckSpec.LlmJudge {| judge_max_output_tokens := n |}
              end)).
  by intros [[]|[]|[]|[]|[]].
Defined.
#[export] Instance InferenceParams_eq_dec : EqDecision InferenceParams.
Proof. solve_decision. Defined.
#[export] Instance InferenceParams_countable : Countable InferenceParams.
Proof.
  apply (inj_countable'
    (fun p => ((max_output_tokens p, temperature_bps p, top_p_bps p), (top_k p, seed p, stop_tokens p, grammar p)))
    (fun '((a, b, c), (d, e, f, g)) =>
       {| max_output_tokens := a; temperature_bps := b; top_p_bps := c; top_k := d; seed := e;
          stop_tokens := f; grammar := g |})).
  by intros [].
Defined.
#[export] Instance MoteDef_eq_dec : EqDecision MoteDef.
Proof. solve_decision. Defined.
#[export] Instance MoteDef_countable : Countable MoteDef.
Proof.
  apply (inj_countable'
    (fun d : MoteDef => ((logic_ref d, Mote.model_id d, prompt_template_hash d, tool_contract d),
              (Mote.nd_class d, config_subset d, effect_pattern d, critic_for d),
              (is_topology_shaper d, inference_params d, critic_check d, schema_version d)))
    (fun '((a, b, c, d), (e, f, g, h), (i, j, k, l)) =>
       {| logic_ref := a; Mote.model_id := b; prompt_template_hash := c; tool_contract := d;
          Mote.nd_class := e; config_subset := f; effect_pattern := g; critic_for := h;
          is_topology_shaper := i; inference_params := j; critic_check := k; schema_version := l |})).
  by intros [].
Defined.
#[export] Instance ChildDescriptor_eq_dec : EqDecision ChildDescriptor.
Proof. solve_decision. Defined.
#[export] Instance ChildDescriptor_countable : Countable ChildDescriptor.
Proof.
  apply (inj_countable'
    (fun d => (role_id d, child_logic_ref d, child_nd_class d, child_effect_pattern d, intent d))
    (fun '(a, b, c, d, e) => {| role_id := a; child_logic_ref := b; child_nd_class := c;
                                child_effect_pattern := d; intent := e |})).
  by intros [].
Defined.
#[export] Instance TopologyDecision_eq_dec : EqDecision TopologyDecision.
Proof. solve_decision. Defined.
#[export] Instance TopologyDecision_countable : Countable TopologyDecision.
Proof. apply (inj_countable' children (fun l => {| children := l |})). by intros []. Defined.

(** ** kx-warrant *)
#[export] Instance MoteClass_eq_dec : EqDecision MoteClass.
Proof. solve_decision. Defined.
#[export] Instance MoteClass_countable : Countable MoteClass.
Proof. count MoteClass.to_nd_class MoteClass.from_nd_class. Defined.
#[export] Instance ExecutorClass_eq_dec : EqDecision ExecutorClass.
Proof. solve_decision. Defined.
#[export] Instance ExecutorClass_countable : Countable ExecutorClass.
Proof.
  count (fun c => match c with Bwrap => 0 | OciDaemon => 1 | CloudMicroVm => 2 | MacOsSandbox => 3 end)
    (fun z => if z =? 0 then Bwrap else if z =? 1 then OciDaemon else if z =? 2 then CloudMicroVm
              else MacOsSandbox).
Defined.
#[export] Instance FsMode_eq_dec : EqDecision FsMode.
Proof. solve_decision. Defined.
#[export] Instance FsMode_countable : Countable FsMode.
Proof.
  count (fun m => match m with FsMode.ReadOnly => 0 | FsMode.ReadWrite => 1 | FsMode.ExecOnly => 2 end)
    (fun z => if z =? 0 then FsMode.ReadOnly else if z =? 1 then FsMode.ReadWrite else FsMode.ExecOnly).
Defined.
#[export] Instance FsScope_eq_dec : EqDecision FsScope.
Proof. solve_decision. Defined.
#[export] Instance FsScope_countable : Countable FsScope.
Proof. apply (inj_countable' FsScope.mounts (fun m => {| FsScope.mounts := m |})). by intros []. Defined.
#[export] Instance NetScope_eq_dec : EqDecision NetScope.
Proof. solve_decision. Defined.
#[export] Instance NetScope_countable : Countable NetScope.
Proof.
  count (fun n => match n with NetScope.None => None | NetScope.EgressAllowlist h => Some h end)
    (fun o : option (gset bytes) =>
       match o with None => NetScope.None | Some h => NetScope.EgressAllowlist h end).
Defined.
#[export] Instance SecretScope_eq_dec : EqDecision SecretScope.
Proof. solve_decision. Defined.
#[export] Instance SecretScope_countable : Countable SecretScope.
Proof.
  count (fun n => match n with SecretScope.None => None | SecretScope.AllowList h => Some h end)
    (fun o : option (gset bytes) =>
       match o with None => SecretScope.None | Some h => SecretScope.AllowList h end).
Defined.
#[export] Instance ModelRoute_eq_dec : EqDecision ModelRoute.
Proof. solve_decision. Defined.
#[export] Instance ModelRoute_countable : Countable ModelRoute.
Proof.
  apply (inj_countable'
    (fun r => (ModelRoute.model_id r, ModelRoute.max_input_tokens r, ModelRoute.max_output_tokens r, ModelRoute.max_calls r))
    (fun '(a, b, c, d) => {| ModelRoute.model_id := a; ModelRoute.max_input_tokens := b;
                             ModelRoute.max_output_tokens := c; ModelRoute.max_calls := d |})).
  by intros [].
Defined.
#[export] Instance ResourceCeiling_eq_dec : EqDecision ResourceCeiling.
Proof. solve_decision. Defined.
#[export] Instance ResourceCeiling_countable : Countable ResourceCeiling.
Proof.
  apply (inj_countable'
    (fun r => (ResourceCeiling.cpu_milli r, ResourceCeiling.mem_bytes r, ResourceCeiling.wall_clock_ms r,
               ResourceCeiling.fd_count r, ResourceCeiling.disk_bytes r))
    (fun '(a, b, c, d, e) =>
       {| ResourceCeiling.cpu_milli := a; ResourceCeiling.mem_bytes := b; ResourceCeiling.wall_clock_ms := c;
          ResourceCeiling.fd_count := d; ResourceCeiling.disk_bytes := e |})).
  by intros [].
Defined.
#[export] Instance CostCeiling_eq_dec : EqDecision CostCeiling.
Proof. solve_decision. Defined.
#[export] Instance CostCeiling_countable : Countable CostCeiling.
Proof. apply (inj_countable' CostCeiling.micro_usd (fun m => {| CostCeiling.micro_usd := m |})). by intros []. Defined.
#[export] Instance WarrantSpec_eq_dec : EqDecision WarrantSpec.
Proof. solve_decision. Defined.
#[export] Instance WarrantSpec_countable : Countable WarrantSpec.
Proof.
  apply (inj_countable'
    (fun w => ((WarrantSpec.mote_class w, WarrantSpec.nd_class w, WarrantSpec.fs_scope w, WarrantSpec.net_scope w),
               (WarrantSpec.syscall_profile_ref w, WarrantSpec.tool_grants w, WarrantSpec.model_route w,
                WarrantSpec.resource_ceiling w),
               (WarrantSpec.environment_ref w, WarrantSpec.executor_class w, WarrantSpec.secret_scope w,
                WarrantSpec.cost_ceiling w, WarrantSpec.tls_required w)))
    (fun '((a, b, c, d), (e, f, g, h), (i, j, k, l, m)) =>
       {| WarrantSpec.mote_class := a; WarrantSpec.nd_class := b; WarrantSpec.fs_scope := c;
          WarrantSpec.net_scope := d; WarrantSpec.syscall_profile_ref := e; WarrantSpec.tool_grants := f;
          WarrantSpec.model_route := g; WarrantSpec.resource_ceiling := h; WarrantSpec.environment_ref := i;
          WarrantSpec.executor_class := j; WarrantSpec.secret_scope := k; WarrantSpec.cost_ceiling := l;
          WarrantSpec.tls_required := m |})).
  by intros [].
Defined.

(** A value's number, written as one little-endian integer. *)
Definition number_bytes (p : positive) : bytes := to_le (Pos.size_nat p) (Z.pos p).
Lemma pos_size_bound p : Z.pos p < 256 ^ Z.of_nat (Pos.size_nat p).
Proof.
  induction p as [p IH|p IH|]; [| |done]; cbn [Pos.size_nat];
    rewrite Nat2Z.inj_succ, Z.pow_succ_r by lia; lia.
Qed.
Definition demo_bincode `{Countable A} : Bincode A.
Proof.
  refine {| bincode_encode := fun a => number_bytes (encode a);
            bincode_decode := fun b => (fun a => (a, length b)) <$> decode (Z.to_pos (from_le b)) |}.
  intros a. unfold number_bytes. rewrite from_to_le.
  - cbn [Z.to_pos]. by rewrite decode_encode.
  - split; [lia|apply pos_size_bound].
Defined.
(** A codec that writes the bits of a value's number, one to a byte. *)
Fixpoint pos_bits (p : positive) : bytes :=
  match p with xH => [] | xO p => 0 :: pos_bits p | xI p => 1 :: pos_bits p end.
Fixpoint bits_pos (l : bytes) : positive :=
  match l with [] => xH | b :: l => if b =? 0 then xO (bits_pos l) else xI (bits_pos l) end.
Lemma bits_pos_bits p : bits_pos (pos_bits p) = p.
Proof. induction p as [p IH|p IH|]; cbn; by rewrite ?IH. Qed.
Definition bit_bincode `{Countable A} : Bincode A.
Proof.
  refine {| bincode_encode := fun a => pos_bits (encode a);
            bincode_decode := fun b => (fun a => (a, length b)) <$> decode (bits_pos b) |}.
  intros a. by rewrite bits_pos_bits, decode_encode.
Defined.
