(* ===== verification/ProjState.v ===== *)
(** kx-projection's in-memory state (state.rs, enums.rs, register.rs): per-Mote
    facts, the parent-to-children index with its incremental maintenance, the
    off-DAG records with their indices, and the derived state of a Mote. *)
From S2P Require Import Prelude Utf8 Mote Entry.

(** ** Enumerations *)
Module MoteState.
Inductive MoteState := Pending | Scheduled | Committed | Failed | Repudiated | Inconsistent.
End MoteState.
Abbreviation MoteState := MoteState.MoteState.
#[export] Instance MoteState_eq_dec : EqDecision MoteState.
Proof. solve_decision. Defined.
Module AnomalyKind.
Inductive AnomalyKind := EffectStagedThenRepudiatedNoCommitted | QuarantinedAtLeastOnceEffect.
End AnomalyKind.
Abbreviation AnomalyKind := AnomalyKind.AnomalyKind.
Module PromotionState.
Inductive PromotionState := NotApplicable | Unpromoted | Promoted.
End PromotionState.
Abbreviation PromotionState := PromotionState.PromotionState.
#[export] Instance PromotionState_eq_dec : EqDecision PromotionState.
Proof. solve_decision. Defined.

(** ** Per-Mote facts *)
Module CommittedInfo.
Record CommittedInfo := {
  seq : Z;
  result_ref : ContentRef;
  nondeterminism : NdClass;
  parents_in_entry : list ParentEntry;
  warrant_ref : ContentRef;
  mote_def_hash : bytes;
  repudiated : bool
}.
Definition repudiate (c : CommittedInfo) : CommittedInfo := {|
  seq := c.(seq); result_ref := c.(result_ref); nondeterminism := c.(nondeterminism);
  parents_in_entry := c.(parents_in_entry); warrant_ref := c.(warrant_ref);
  mote_def_hash := c.(mote_def_hash); repudiated := true |}.
End CommittedInfo.
Abbreviation CommittedInfo := CommittedInfo.CommittedInfo.
#[export] Instance CommittedInfo_eq_dec : EqDecision CommittedInfo.
Proof. solve_decision. Defined.

Module DeclaredInfo.
Record DeclaredInfo := {
  nd_class : NdClass;
  effect_pattern : EffectPattern;
  critic_for : option MoteId;
  is_topology_shaper : bool;
  parents : list ParentRef;
  warrant_ref : ContentRef
}.
End DeclaredInfo.
Abbreviation DeclaredInfo := DeclaredInfo.DeclaredInfo.
#[export] Instance DeclaredInfo_eq_dec : EqDecision DeclaredInfo.
Proof. solve_decision. Defined.

Record MoteInfo := {
  declared : option DeclaredInfo;
  committed : option CommittedInfo;
  has_proposed : bool;
  failed_pending_reattempt : bool;
  effect_staged_observed : bool;
  terminal_failure_observed : bool;
  inconsistent : bool;
  quarantined : bool;
  failure_reason : option FailureReason;
  failure_detail : bytes
}.
#[export] Instance MoteInfo_eq_dec : EqDecision MoteInfo.
Proof. solve_decision. Defined.
Definition MoteInfo_default : MoteInfo := {|
  declared := None; committed := None; has_proposed := false; failed_pending_reattempt := false;
  effect_staged_observed := false; terminal_failure_observed := false; inconsistent := false;
  quarantined := false; failure_reason := None; failure_detail := [] |}.

(** Field assignments of a [&mut MoteInfo]. *)
Definition set_declared_field (d : option DeclaredInfo) (i : MoteInfo) : MoteInfo := {|
  declared := d; committed := i.(committed); has_proposed := i.(has_proposed);
  failed_pending_reattempt := i.(failed_pending_reattempt);
  effect_staged_observed := i.(effect_staged_observed);
  terminal_failure_observed := i.(terminal_failure_observed); inconsistent := i.(inconsistent);
  quarantined := i.(quarantined); failure_reason := i.(failure_reason);
  failure_detail := i.(failure_detail) |}.
Definition set_committed_field (c : option CommittedInfo) (i : MoteInfo) : MoteInfo := {|
  declared := i.(declared); committed := c; has_proposed := i.(has_proposed);
  failed_pending_reattempt := i.(failed_pending_reattempt);
  effect_staged_observed := i.(effect_staged_observed);
  terminal_failure_observed := i.(terminal_failure_observed); inconsistent := i.(inconsistent);
  quarantined := i.(quarantined); failure_reason := i.(failure_reason);
  failure_detail := i.(failure_detail) |}.
Definition set_flags (proposed reattempt staged terminal incons quar : bool) (i : MoteInfo)
    : MoteInfo := {|
  declared := i.(declared); committed := i.(committed); has_proposed := proposed;
  failed_pending_reattempt := reattempt; effect_staged_observed := staged;
  terminal_failure_observed := terminal; inconsistent := incons; quarantined := quar;
  failure_reason := i.(failure_reason); failure_detail := i.(failure_detail) |}.
Definition set_failure (reason : option FailureReason) (detail : bytes) (i : MoteInfo) : MoteInfo := {|
  declared := i.(declared); committed := i.(committed); has_proposed := i.(has_proposed);
  failed_pending_reattempt := i.(failed_pending_reattempt);
  effect_staged_observed := i.(effect_staged_observed);
  terminal_failure_observed := i.(terminal_failure_observed); inconsistent := i.(inconsistent);
  quarantined := i.(quarantined); failure_reason := reason; failure_detail := detail |}.

(** ** Off-DAG records *)
Record RunRegistration := { rr_instance_id : bytes; rr_recipe_fingerprint : bytes }.
Record RunResolvedVersions := {
  rv_instance_id : bytes; rv_warrant_ref : ContentRef; rv_model_id : bytes;
  rv_capability : option ResolvedCapabilityRecord }.
Module ReplanRoundRecord.
Record ReplanRoundRecord := {
  round : Z; shaper_mote_id : MoteId; base_prompt_ref : ContentRef;
  corrected_prompt_ref : ContentRef; warrant_ref : ContentRef; model_id : bytes;
  failed_steps : list MoteId; escalation_reason_ref : option ContentRef; seq : Z }.
End ReplanRoundRecord.
Abbreviation ReplanRoundRecord := ReplanRoundRecord.ReplanRoundRecord.
Module ReactRoundRecord.
Record ReactRoundRecord := {
  turn : Z; turn_mote_id : MoteId; instance_id : bytes; base_prompt_ref : ContentRef;
  warrant_ref : ContentRef; model_id : bytes; branch : ReactBranch; max_turns : Z;
  max_tool_calls : Z; step_salt : option bytes; is_agentic_launch : bool;
  context_items_ref : option ContentRef; image_ref : option ContentRef;
  require_approval : bool; seq : Z }.
End ReactRoundRecord.
Abbreviation ReactRoundRecord := ReactRoundRecord.ReactRoundRecord.
Module ReRankRoundRecord.
Record ReRankRoundRecord := {
  round : Z; rerank_mote_id : MoteId; instance_id : bytes; base_results_ref : ContentRef;
  query_ref : ContentRef; warrant_ref : ContentRef; model_id : bytes; candidate_count : Z;
  outcome : ReRankOutcome; seq : Z }.
End ReRankRoundRecord.
Abbreviation ReRankRoundRecord := ReRankRoundRecord.ReRankRoundRecord.
Module ApprovalRecord.
Record ApprovalRecord := {
  instance_id : bytes; request_id : bytes; awaiting_mote_id : MoteId; state : ApprovalState; seq : Z }.
End ApprovalRecord.
Abbreviation ApprovalRecord := ApprovalRecord.ApprovalRecord.
Module TimerRecord.
Record TimerRecord := {
  instance_id : bytes; subject_mote_id : MoteId; purpose : Z; attempt : Z;
  fire_at_unix_ms : Z; anchor_ref : ContentRef; seq : Z }.
End TimerRecord.
Abbreviation TimerRecord := TimerRecord.TimerRecord.

(** ** The state *)
Abbreviation Children := (gmap bytes (list (MoteId * EdgeMeta))).
Record State := {
  motes : gmap bytes MoteInfo;
  children : Children;
  last_seq : Z;
  run_registration : option RunRegistration;
  run_resolved_versions : list RunResolvedVersions;
  replan_rounds : list ReplanRoundRecord;
  react_rounds : list ReactRoundRecord;
  react_index : gmap bytes (gmap (option bytes) (list nat));
  react_turn_motes : gset bytes;
  react_tool_round_of_turn : gmap bytes nat;
  approvals : list ApprovalRecord;
  approval_index : gmap bytes nat;
  rerank_rounds : list ReRankRoundRecord;
  timers : list TimerRecord
}.
Definition State_default : State := {|
  motes := ∅; children := ∅; last_seq := 0; run_registration := None;
  run_resolved_versions := []; replan_rounds := []; react_rounds := []; react_index := ∅;
  react_turn_motes := ∅; react_tool_round_of_turn := ∅; approvals := []; approval_index := ∅;
  rerank_rounds := []; timers := [] |}.

Definition with_motes (m : gmap bytes MoteInfo) (s : State) : State := {|
  motes := m; children := s.(children); last_seq := s.(last_seq);
  run_registration := s.(run_registration); run_resolved_versions := s.(run_resolved_versions);
  replan_rounds := s.(replan_rounds); react_rounds := s.(react_rounds);
  react_index := s.(react_index); react_turn_motes := s.(react_turn_motes);
  react_tool_round_of_turn := s.(react_tool_round_of_turn); approvals := s.(approvals);
  approval_index := s.(approval_index); rerank_rounds := s.(rerank_rounds); timers := s.(timers) |}.
Definition with_children (c : Children) (s : State) : State := {|
  motes := s.(motes); children := c; last_seq := s.(last_seq);
  run_registration := s.(run_registration); run_resolved_versions := s.(run_resolved_versions);
  replan_rounds := s.(replan_rounds); react_rounds := s.(react_rounds);
  react_index := s.(react_index); react_turn_motes := s.(react_turn_motes);
  react_tool_round_of_turn := s.(react_tool_round_of_turn); approvals := s.(approvals);
  approval_index := s.(approval_index); rerank_rounds := s.(rerank_rounds); timers := s.(timers) |}.
(** [self.state.last_seq = self.state.last_seq.max(seq)] *)
Definition bump_seq (n : Z) (s : State) : State := {|
  motes := s.(motes); children := s.(children); last_seq := Z.max s.(last_seq) n;
  run_registration := s.(run_registration); run_resolved_versions := s.(run_resolved_versions);
  replan_rounds := s.(replan_rounds); react_rounds := s.(react_rounds);
  react_index := s.(react_index); react_turn_motes := s.(react_turn_motes);
  react_tool_round_of_turn := s.(react_tool_round_of_turn); approvals := s.(approvals);
  approval_index := s.(approval_index); rerank_rounds := s.(rerank_rounds); timers := s.(timers) |}.
Definition with_run (r : option RunRegistration) (v : list RunResolvedVersions)
    (rp : list ReplanRoundRecord) (rr : list ReRankRoundRecord) (t : list TimerRecord) (s : State)
    : State := {|
  motes := s.(motes); children := s.(children); last_seq := s.(last_seq);
  run_registration := r; run_resolved_versions := v; replan_rounds := rp;
  react_rounds := s.(react_rounds); react_index := s.(react_index);
  react_turn_motes := s.(react_turn_motes);
  react_tool_round_of_turn := s.(react_tool_round_of_turn); approvals := s.(approvals);
  approval_index := s.(approval_index); rerank_rounds := rr; timers := t |}.
Definition with_react (rounds : list ReactRoundRecord)
    (idx : gmap bytes (gmap (option bytes) (list nat))) (turns : gset bytes)
    (tools : gmap bytes nat) (s : State) : State := {|
  motes := s.(motes); children := s.(children); last_seq := s.(last_seq);
  run_registration := s.(run_registration); run_resolved_versions := s.(run_resolved_versions);
  replan_rounds := s.(replan_rounds); react_rounds := rounds; react_index := idx;
  react_turn_motes := turns; react_tool_round_of_turn := tools; approvals := s.(approvals);
  approval_index := s.(approval_index); rerank_rounds := s.(rerank_rounds); timers := s.(timers) |}.
Definition with_approvals (a : list ApprovalRecord) (idx : gmap bytes nat) (s : State) : State := {|
  motes := s.(motes); children := s.(children); last_seq := s.(last_seq);
  run_registration := s.(run_registration); run_resolved_versions := s.(run_resolved_versions);
  replan_rounds := s.(replan_rounds); react_rounds := s.(react_rounds);
  react_index := s.(react_index); react_turn_motes := s.(react_turn_motes);
  react_tool_round_of_turn := s.(react_tool_round_of_turn); approvals := a;
  approval_index := idx; rerank_rounds := s.(rerank_rounds); timers := s.(timers) |}.

Definition mote_info (s : State) (id : MoteId) : MoteInfo := default MoteInfo_default (s.(motes) !! id).
(** [f(self.moteinfo_mut(id))] *)
Definition moteinfo_mut (id : MoteId) (f : MoteInfo -> MoteInfo) (s : State) : State :=
  with_motes (<[id := f (mote_info s id)]> s.(motes)) s.

Definition index_last_react_round (s : State) : State :=
  match last s.(react_rounds) with
  | None => s
  | Some record =>
      let idx := (length s.(react_rounds) - 1)%nat in
      let inst := record.(ReactRoundRecord.instance_id) in
      let salt := record.(ReactRoundRecord.step_salt) in
      let chains := default ∅ (s.(react_index) !! inst) in
      let chain := default [] (chains !! salt) in
      with_react s.(react_rounds)
        (<[inst := <[salt := chain ++ [idx]]> chains]> s.(react_index))
        ({[record.(ReactRoundRecord.turn_mote_id)]} ∪ s.(react_turn_motes))
        (match record.(ReactRoundRecord.branch) with
         | ReactBranch.Tool _ _ | ReactBranch.ToolBatch _ =>
             <[record.(ReactRoundRecord.turn_mote_id) := idx]> s.(react_tool_round_of_turn)
         | _ => s.(react_tool_round_of_turn)
         end) s
  end.
Definition index_last_approval (s : State) : State :=
  match last s.(approvals) with
  | None => s
  | Some record =>
      let idx := (length s.(approvals) - 1)%nat in
      with_approvals s.(approvals) (<[record.(ApprovalRecord.request_id) := idx]> s.(approval_index)) s
  end.
Definition has_approval (s : State) : bool := negb (bool_decide (s.(approvals) = [])).
Definition approval_latest_for (s : State) (request_id : bytes) : option ApprovalRecord :=
  match s.(approval_index) !! request_id with
  | Some idx => s.(approvals) !! idx
  | None => None
  end.
Definition has_declared_critic (s : State) : bool :=
  existsb (fun i => match i.(declared) with
                    | Some d => bool_decide (is_Some d.(DeclaredInfo.critic_for))
                    | None => false
                    end) (btree_values s.(motes)).
Definition has_react_turn (s : State) : bool :=
  match s.(react_rounds) with [] => false | _ => true end.

(** ** Derived state *)
Definition info_state (info : MoteInfo) : MoteState :=
  if info.(inconsistent) then MoteState.Inconsistent
  else match info.(committed) with
       | Some c => if c.(CommittedInfo.repudiated) then MoteState.Repudiated else MoteState.Committed
       | None =>
           if info.(terminal_failure_observed) then MoteState.Failed
           else if info.(effect_staged_observed) then MoteState.Pending
           else if info.(failed_pending_reattempt) then MoteState.Failed
           else if info.(has_proposed) then MoteState.Scheduled
           else MoteState.Pending
       end.
Definition state_of_id (s : State) (id : MoteId) : MoteState :=
  match s.(motes) !! id with
  | None => MoteState.Pending
  | Some info => info_state info
  end.
Definition can_redispatch_world_effect_id (s : State) (id : MoteId) : bool :=
  match s.(motes) !! id with
  | None => false
  | Some info =>
      if info.(inconsistent) then false
      else if info.(terminal_failure_observed) then false
      else if bool_decide (is_Some info.(committed)) then false
      else info.(effect_staged_observed)
  end.
Definition anomaly_motes_iter (s : State) : list (MoteId * AnomalyKind) :=
  concat ((fun '(id, info) =>
    (fun k => (id, k)) <$>
      ((if info.(inconsistent) then [AnomalyKind.EffectStagedThenRepudiatedNoCommitted] else [])
       ++ (if info.(quarantined) then [AnomalyKind.QuarantinedAtLeastOnceEffect] else [])))
    <$> btree_iter s.(motes)).

(** ** Parents and the reverse index *)
Definition info_parents (info : MoteInfo) : list (MoteId * EdgeMeta) :=
  match info.(declared) with
  | Some d => (fun p => (p.(parent_id), p.(edge))) <$> d.(DeclaredInfo.parents)
  | None =>
      match info.(committed) with
      | Some c => omap (fun p => (fun pr => (pr.(parent_id), pr.(edge))) <$> ParentEntry.to_parent_ref p)
                    c.(CommittedInfo.parents_in_entry)
      | None => []
      end
  end.
Definition parents_of_id (s : State) (id : MoteId) : list (MoteId * EdgeMeta) :=
  match s.(motes) !! id with
  | None => []
  | Some info => info_parents info
  end.

Definition child_le (a b : MoteId * EdgeMeta) : Prop := bytes_le a.1 b.1 = true.
#[export] Instance child_le_dec : RelDecision child_le.
Proof. intros a b. unfold child_le. apply _. Defined.

(** [idx.entry(p).or_default().push(x)] *)
Definition push_child (parent : MoteId) (x : MoteId * EdgeMeta) (idx : Children) : Children :=
  <[parent := default [] (idx !! parent) ++ [x]]> idx.
Definition rebuild_children_index (s : State) : State :=
  let idx :=
    foldl (fun idx id =>
             foldl (fun idx '(parent_id, edge) => push_child parent_id (id, edge) idx)
               idx (parents_of_id s id))
      ∅ (btree_keys s.(motes)) in
  with_children (stable_sort (fun a b => bytes_le a.1 b.1) <$> idx) s.

(** [v.partition_point(p)] on a partitioned slice. *)
Fixpoint partition_point {A} (p : A -> bool) (v : list A) : nat :=
  match v with
  | [] => O
  | x :: v => if p x then S (partition_point p v) else O
  end.
Definition insert_child_edge (parent child : MoteId) (e : EdgeMeta) (ch : Children) : Children :=
  let v := default [] (ch !! parent) in
  let pos := partition_point (fun probe => bytes_le probe.1 child) v in
  <[parent := take pos v ++ (child, e) :: drop pos v]> ch.
Definition remove_child_entries (parent child : MoteId) (ch : Children) : Children :=
  match ch !! parent with
  | None => ch
  | Some v =>
      let v := List.filter (fun x => negb (bool_decide (x.1 = child))) v in
      match v with
      | [] => delete parent ch
      | _ => <[parent := v]> ch
      end
  end.
Definition reindex (child : MoteId) (old new : list (MoteId * EdgeMeta)) (ch : Children) : Children :=
  let ch := foldl (fun ch '(parent, _) => remove_child_entries parent child ch) ch old in
  foldl (fun ch '(parent, e) => insert_child_edge parent child e ch) ch new.
Definition reindex_child_edges (child_id : MoteId) (old_effective : list (MoteId * EdgeMeta)) (s : State)
    : State :=
  with_children (reindex child_id old_effective (parents_of_id s child_id) s.(children)) s.
Definition set_declared (mote_id : MoteId) (d : DeclaredInfo) (s : State) : State :=
  let old_effective := parents_of_id s mote_id in
  reindex_child_edges mote_id old_effective
    (moteinfo_mut mote_id (set_declared_field (Some d)) s).
Definition index_committed (mote_id : MoteId) (old_effective : list (MoteId * EdgeMeta)) (s : State)
    : State := reindex_child_edges mote_id old_effective s.
