(* ===== verification/ProjIndex.v ===== *)
(** The reverse index of the projection: inserting and removing a Mote's edges
    one at a time keeps the adjacency lists equal to a full rebuild. *)
From S2P Require Import Prelude Utf8 Mote Entry ProjState.

Abbreviation Edge := (MoteId * EdgeMeta)%type.
Definition of_child (c : MoteId) (x : Edge) : bool := bool_decide (x.1 = c).
(** The entries of child [c] under parent [p], in the order it declares them. *)
Definition edges_to (par : list Edge) (c p : MoteId) : list Edge :=
  (fun x => (c, x.2)) <$> List.filter (of_child p) par.

(** What the index must hold for the effective parents [par]. *)
Record index_for (par : MoteId -> list Edge) (ch : Children) : Prop := {
  if_nonempty : forall p, ch !! p <> Some [];
  if_sorted : forall p, StronglySorted child_le (default [] (ch !! p));
  if_edges : forall p c, List.filter (of_child c) (default [] (ch !! p)) = edges_to (par c) c p
}.

Lemma filter_child_eq c e l :
  List.filter (of_child c) ((c, e) :: l) = (c, e) :: List.filter (of_child c) l.
Proof. cbn. unfold of_child at 1. by rewrite bool_decide_true. Qed.
Lemma filter_child_ne c c' e l :
  c' <> c -> List.filter (of_child c) ((c', e) :: l) = List.filter (of_child c) l.
Proof. intros. cbn. unfold of_child at 1. by rewrite bool_decide_false. Qed.
Lemma elem_of_filter_child c x l : x ∈ List.filter (of_child c) l -> x ∈ l.
Proof. rewrite !list_elem_of_In, filter_In. by intros []. Qed.

(** Of two sorted lists with the same entries per child, each head bounds the other. *)
Lemma sorted_head_le c e l1 c2 e2 l2 :
  StronglySorted child_le ((c, e) :: l1) ->
  List.filter (of_child c2) ((c, e) :: l1) = List.filter (of_child c2) ((c2, e2) :: l2) ->
  bytes_le c c2 = true.
Proof.
  intros Hs Hf. rewrite filter_child_eq in Hf.
  assert ((c2, e2) ∈ (c, e) :: l1) as Hin by (eapply elem_of_filter_child; rewrite Hf; by left).
  apply elem_of_cons in Hin as [[= <- <-]|Hin]; [apply bytes_le_refl|].
  inversion_clear Hs as [|?? _ Hc]. rewrite Forall_forall in Hc. exact (Hc _ Hin).
Qed.

(** A list sorted by child is determined by its entries per child. *)
Lemma sorted_by_child_unique (l1 l2 : list Edge) :
  StronglySorted child_le l1 -> StronglySorted child_le l2 ->
  (forall c, List.filter (of_child c) l1 = List.filter (of_child c) l2) -> l1 = l2.
Proof.
  intros H1. revert l2. induction H1 as [|[c e] l1 H1 IH Hc]; intros [|[c2 e2] l2] H2 Hf.
  - done.
  - specialize (Hf c2). by rewrite filter_child_eq in Hf.
  - specialize (Hf c). by rewrite filter_child_eq in Hf.
  - assert (c = c2) as ->.
    { apply bytes_le_antisymm.
      - eapply (sorted_head_le c e l1); [by constructor|apply Hf].
      - eapply sorted_head_le; [exact H2|symmetry; apply Hf]. }
    pose proof (Hf c2) as G. rewrite !filter_child_eq in G. injection G as -> G. f_equal.
    inversion_clear H2. apply IH; [done|]. intros c.
    destruct (decide (c2 = c)) as [<-|Hne]; [exact G|].
    specialize (Hf c). by rewrite !filter_child_ne in Hf.
Qed.

(** The index is a function of the effective parents. *)
Lemma index_for_unique par ch1 ch2 : index_for par ch1 -> index_for par ch2 -> ch1 = ch2.
Proof.
  intros [N1 S1 E1] [N2 S2 E2]. apply map_eq. intros p.
  assert (default [] (ch1 !! p) = default [] (ch2 !! p)) as Heq.
  { apply sorted_by_child_unique; [done..|]. intros c. by rewrite E1, E2. }
  specialize (N1 p). specialize (N2 p).
  revert N1 N2 Heq. destruct (ch1 !! p) as [l1|], (ch2 !! p) as [l2|]; cbn; congruence.
Qed.

(** ** One edge in, one child out *)
Lemma filter_partition c (v : list Edge) :
  StronglySorted child_le v ->
  let pos := partition_point (fun x => bytes_le x.1 c) v in
  Forall (fun x => bytes_le x.1 c = true) (take pos v)
  /\ Forall (fun x => bytes_le x.1 c = false) (drop pos v).
Proof.
  cbn. induction 1 as [|x v Hv [IH1 IH2] Hx]; [done|]. cbn [partition_point].
  destruct (bytes_le x.1 c) eqn:E; cbn [take drop].
  - split; [by constructor|done].
  - split; [done|]. constructor; [done|]. rewrite Forall_forall in *. intros y Hy.
    specialize (Hx y Hy). destruct (bytes_le y.1 c) eqn:E2; [|done].
    unfold child_le in Hx. by rewrite (bytes_le_trans _ _ _ Hx E2) in E.
Qed.
Lemma filter_none_gt c (v : list Edge) :
  Forall (fun x => bytes_le x.1 c = false) v -> List.filter (of_child c) v = [].
Proof.
  induction 1 as [|x v Hx _ IH]; [done|]. cbn. unfold of_child at 1.
  rewrite bool_decide_false; [done|]. intros E. by rewrite E, bytes_le_refl in Hx.
Qed.

Lemma insert_child_edge_other p c e ch q :
  q <> p -> insert_child_edge p c e ch !! q = ch !! q.
Proof. intros. unfold insert_child_edge. by rewrite lookup_insert_ne. Qed.
Lemma insert_child_edge_at p c e ch :
  StronglySorted child_le (default [] (ch !! p)) ->
  exists v, insert_child_edge p c e ch !! p = Some v /\ v <> [] /\ StronglySorted child_le v
    /\ List.filter (of_child c) v = List.filter (of_child c) (default [] (ch !! p)) ++ [(c, e)]
    /\ forall c', c' <> c -> List.filter (of_child c') v = List.filter (of_child c') (default [] (ch !! p)).
Proof.
  set (v := default [] (ch !! p)). intros Hs. unfold insert_child_edge. fold v.
  set (pos := partition_point _ v). eexists. split; [by rewrite lookup_insert_eq|].
  destruct (filter_partition c v Hs) as [Hle Hgt]. fold pos in Hle, Hgt.
  assert (StronglySorted child_le (take pos v ++ drop pos v)) as Hs' by by rewrite take_drop.
  rewrite StronglySorted_app in Hs'. destruct Hs' as (Hcross & Hs1 & Hs2). split_and!.
  - by destruct (take pos v).
  - apply StronglySorted_app. split_and!; [|done|].
    + intros x y Hx Hy. rewrite Forall_forall in Hle. apply elem_of_cons in Hy as [->|Hy];
        [exact (Hle x Hx)|by apply Hcross].
    + constructor; [done|]. eapply Forall_impl; [exact Hgt|]. intros y Hy. unfold child_le. cbn.
      destruct (bytes_le_total c y.1) as [?|?]; [done|congruence].
  - rewrite List.filter_app, filter_child_eq, (filter_none_gt c (drop pos v) Hgt).
    rewrite <- (take_drop pos v) at 2. rewrite List.filter_app, (filter_none_gt c (drop pos v) Hgt).
    by rewrite app_nil_r.
  - intros c' Hne. rewrite List.filter_app, filter_child_ne, <- List.filter_app by done.
    by rewrite take_drop.
Qed.

Lemma remove_child_entries_other p c ch q :
  q <> p -> remove_child_entries p c ch !! q = ch !! q.
Proof.
  intros. unfold remove_child_entries. case_match; [|done].
  case_match; [by rewrite lookup_delete_ne|by rewrite lookup_insert_ne].
Qed.
Lemma remove_child_entries_at p c ch :
  ch !! p <> Some [] ->
  remove_child_entries p c ch !! p <> Some []
  /\ default [] (remove_child_entries p c ch !! p)
     = List.filter (fun x => negb (of_child c x)) (default [] (ch !! p)).
Proof.
  intros Hne. unfold remove_child_entries. destruct (ch !! p) as [v|] eqn:Hv; [|by rewrite Hv].
  cbn [default from_option id]. change (fun x => negb (bool_decide (x.1 = c))) with (fun x => negb (of_child c x)).
  destruct (List.filter _ v) as [|x v'].
  - by rewrite lookup_delete_eq.
  - by rewrite lookup_insert_eq.
Qed.
Lemma filter_of_removed c c' (v : list Edge) :
  List.filter (of_child c') (List.filter (fun x => negb (of_child c x)) v)
  = if decide (c' = c) then [] else List.filter (of_child c') v.
Proof.
  induction v as [|[d e] v IH]; [by case_decide|].
  destruct (decide (d = c)) as [->|Hd].
  - replace (List.filter (fun x => negb (of_child c x)) ((c, e) :: v))
      with (List.filter (fun x => negb (of_child c x)) v)
      by (cbn; unfold of_child at 2; by rewrite bool_decide_true).
    rewrite IH. case_decide; [done|]. by rewrite filter_child_ne.
  - replace (List.filter (fun x => negb (of_child c x)) ((d, e) :: v))
      with ((d, e) :: List.filter (fun x => negb (of_child c x)) v)
      by (cbn; unfold of_child at 2; by rewrite bool_decide_false).
    destruct (decide (d = c')) as [->|Hd'].
    + rewrite !filter_child_eq, IH. by rewrite !decide_False by done.
    + by rewrite !filter_child_ne, IH.
Qed.

(** ** Reindexing a child *)
Lemma index_remove par c p ch :
  index_for par ch ->
  index_for (fun d => if decide (d = c) then List.filter (fun x => negb (of_child p x)) (par d) else par d)
    (remove_child_entries p c ch).
Proof.
  intros [Hn Hs He]. split.
  - intros q. destruct (decide (q = p)) as [->|Hq].
    + by apply remove_child_entries_at.
    + rewrite remove_child_entries_other by done. apply Hn.
  - intros q. destruct (decide (q = p)) as [->|Hq].
    + destruct (remove_child_entries_at p c ch (Hn p)) as [_ ->]. by apply StronglySorted_filter.
    + rewrite remove_child_entries_other by done. apply Hs.
  - intros q d. destruct (decide (q = p)) as [->|Hq].
    + destruct (remove_child_entries_at p c ch (Hn p)) as [_ ->]. rewrite filter_of_removed.
      destruct (decide (d = c)) as [->|Hd]; [|apply He].
      unfold edges_to. rewrite filter_of_removed. by rewrite decide_True.
    + rewrite remove_child_entries_other, He by done.
      destruct (decide (d = c)) as [->|Hd]; [|done].
      unfold edges_to. rewrite filter_of_removed. by rewrite decide_False.
Qed.
Lemma index_remove_all c (old : list Edge) : forall par ch,
  index_for par ch ->
  exists par', index_for par' (foldl (fun ch '(parent, _) => remove_child_entries parent c ch) ch old)
    /\ (forall d, d <> c -> par' d = par d)
    /\ (forall x, x ∈ par' c -> x ∈ par c /\ x.1 ∉ old.*1).
Proof.
  induction old as [|[p e] old IH]; intros par ch Hi; cbn [foldl fmap list_fmap].
  - exists par. split_and!; [done|done|]. intros x Hx. split; [done|]. apply not_elem_of_nil.
  - destruct (IH _ _ (index_remove par c p ch Hi)) as (par' & Hi' & Hother & Hc).
    exists par'. split_and!; [done| |].
    + intros d Hd. rewrite Hother by done. by rewrite decide_False.
    + intros x Hx. destruct (Hc x Hx) as [Hin Hnotin]. rewrite decide_True in Hin by done.
      apply list_elem_of_In, filter_In in Hin as [Hin Hneg]. rewrite <- list_elem_of_In in Hin.
      split; [done|]. apply not_elem_of_cons. split; [|done].
      unfold of_child in Hneg. apply negb_true_iff, bool_decide_eq_false in Hneg. exact Hneg.
Qed.
Lemma index_insert par c p e ch :
  index_for par ch ->
  index_for (fun d => if decide (d = c) then par d ++ [(p, e)] else par d) (insert_child_edge p c e ch).
Proof.
  intros [Hn Hs He]. destruct (insert_child_edge_at p c e ch (Hs p)) as (v & Hv & Hv0 & Hvs & Hvc & Hvo).
  split.
  - intros q. destruct (decide (q = p)) as [->|Hq]; [rewrite Hv; congruence|].
    rewrite insert_child_edge_other by done. apply Hn.
  - intros q. destruct (decide (q = p)) as [->|Hq]; [by rewrite Hv|].
    rewrite insert_child_edge_other by done. apply Hs.
  - intros q d. destruct (decide (q = p)) as [->|Hq].
    + rewrite Hv. cbn [default from_option id]. destruct (decide (d = c)) as [->|Hd].
      * rewrite Hvc, He. unfold edges_to. rewrite List.filter_app, filter_child_eq, fmap_app. done.
      * by rewrite Hvo, He.
    + rewrite insert_child_edge_other, He by done. destruct (decide (d = c)) as [->|Hd]; [|done].
      unfold edges_to. rewrite List.filter_app, filter_child_ne by done. cbn [List.filter].
      by rewrite app_nil_r.
Qed.
Lemma index_insert_all c (new : list Edge) : forall par ch,
  index_for par ch ->
  index_for (fun d => if decide (d = c) then par d ++ new else par d)
    (foldl (fun ch '(parent, e) => insert_child_edge parent c e ch) ch new).
Proof.
  induction new as [|[p e] new IH]; intros par ch Hi; cbn [foldl].
  - destruct Hi as [Hn Hs He]. split; [done..|]. intros q d. rewrite He.
    case_decide; [by rewrite app_nil_r|done].
  - pose proof (IH _ _ (index_insert par c p e ch Hi)) as [Hn Hs He]. split; [done..|].
    intros q d. rewrite He. case_decide; [|done]. by rewrite <- app_assoc.
Qed.

(** Re-deriving one child's edges turns the index of the old parents into the
    index of the new ones. *)
Lemma reindex_correct par par' c ch :
  index_for par ch -> (forall d, d <> c -> par' d = par d) ->
  index_for par' (reindex c (par c) (par' c) ch).
Proof.
  intros Hi Hother. unfold reindex.
  destruct (index_remove_all c (par c) par ch Hi) as (par1 & Hi1 & Ho1 & Hc1).
  assert (par1 c = []) as Hnil.
  { apply elem_of_nil_inv. intros x Hx. destruct (Hc1 x Hx) as [Hin Hno]. apply Hno.
    by apply list_elem_of_fmap_2. }
  destruct (index_insert_all c (par' c) par1 _ Hi1) as [Hn Hs He]. split; [done..|].
  intros q d. rewrite He. destruct (decide (d = c)) as [->|Hd]; [by rewrite Hnil|].
  by rewrite Ho1, Hother.
Qed.

(** ** The full rebuild *)
Section Rebuild.
Context (par : MoteId -> list Edge).

Definition push_edges (idx : Children) (id : MoteId) : Children :=
  foldl (fun idx '(parent, e) => push_child parent (id, e) idx) idx (par id).
Definition adjacency (ids : list MoteId) (p : MoteId) : list Edge :=
  concat ((fun id => edges_to (par id) id p) <$> ids).

Lemma push_child_default p x idx q :
  default [] (push_child p x idx !! q) = default [] (idx !! q) ++ (if decide (q = p) then [x] else []).
Proof.
  unfold push_child. destruct (decide (q = p)) as [->|Hq].
  - by rewrite lookup_insert_eq.
  - by rewrite lookup_insert_ne, app_nil_r.
Qed.
Lemma push_child_nonempty p x idx :
  (forall q, idx !! q <> Some []) -> forall q, push_child p x idx !! q <> Some [].
Proof.
  intros Hn q. unfold push_child. destruct (decide (q = p)) as [->|Hq].
  - rewrite lookup_insert_eq. intros [= E]. by apply app_eq_nil in E as [_ ?].
  - rewrite lookup_insert_ne by done. apply Hn.
Qed.
Lemma push_edges_spec id idx :
  (forall q, idx !! q <> Some []) ->
  (forall q, push_edges idx id !! q <> Some [])
  /\ forall q, default [] (push_edges idx id !! q) = default [] (idx !! q) ++ edges_to (par id) id q.
Proof.
  unfold push_edges, edges_to. revert idx. induction (par id) as [|[p e] l IH]; intros idx Hn.
  - split; [done|]. intros q. cbn. by rewrite app_nil_r.
  - cbn [foldl]. destruct (IH (push_child p (id, e) idx)) as [H1 H2]; [by apply push_child_nonempty|].
    split; [done|]. intros q. rewrite H2, push_child_default, <- app_assoc. f_equal.
    destruct (decide (q = p)) as [->|Hq]; [by rewrite filter_child_eq|by rewrite filter_child_ne].
Qed.
Lemma foldl_push ids idx :
  (forall q, idx !! q <> Some []) ->
  (forall q, foldl push_edges idx ids !! q <> Some [])
  /\ forall q, default [] (foldl push_edges idx ids !! q) = default [] (idx !! q) ++ adjacency ids q.
Proof.
  revert idx. induction ids as [|id ids IH]; intros idx Hn; cbn [foldl].
  - split; [done|]. intros q. cbn. by rewrite app_nil_r.
  - destruct (push_edges_spec id idx Hn) as [H1 H2]. destruct (IH _ H1) as [H3 H4]. split; [done|].
    intros q. rewrite H4, H2, <- app_assoc. done.
Qed.

Lemma edges_to_child c p x : x ∈ edges_to (par c) c p -> x.1 = c.
Proof. unfold edges_to. intros (y & -> & _)%list_elem_of_fmap. done. Qed.
Lemma elem_of_adjacency ids p x : x ∈ adjacency ids p -> x.1 ∈ ids /\ x ∈ edges_to (par x.1) x.1 p.
Proof.
  unfold adjacency. induction ids as [|id ids IH]; cbn; [set_solver|].
  rewrite elem_of_app. intros [Hx|Hx].
  - rewrite (edges_to_child _ _ _ Hx). split; [by left|done].
  - destruct (IH Hx). split; [by right|done].
Qed.
Lemma edges_sorted c p : StronglySorted child_le (edges_to (par c) c p).
Proof.
  apply StronglySorted_lookup. intros i j x y _ Hx Hy.
  apply list_elem_of_lookup_2, edges_to_child in Hx. apply list_elem_of_lookup_2, edges_to_child in Hy.
  unfold child_le. rewrite Hx, Hy. apply bytes_le_refl.
Qed.
Lemma adjacency_sorted ids p :
  StronglySorted (fun a b => bytes_le a b = true) ids -> StronglySorted child_le (adjacency ids p).
Proof.
  unfold adjacency. induction 1 as [|id ids Hids IH Hid]; cbn; [constructor|].
  apply StronglySorted_app. split_and!; [|apply edges_sorted|done].
  intros x y Hx%edges_to_child [Hy _]%elem_of_adjacency. unfold child_le. rewrite Hx.
  rewrite Forall_forall in Hid. by apply Hid.
Qed.
Lemma filter_edges c d p :
  List.filter (of_child d) (edges_to (par c) c p) = if decide (c = d) then edges_to (par c) c p else [].
Proof.
  unfold edges_to. induction (List.filter (of_child p) (par c)) as [|[q e] l IH]; [by case_decide|].
  cbn [fmap list_fmap snd]. destruct (decide (c = d)) as [->|Hne].
  - rewrite filter_child_eq. f_equal. exact IH.
  - rewrite filter_child_ne by done. exact IH.
Qed.
Lemma filter_adjacency ids c p :
  NoDup ids -> List.filter (of_child c) (adjacency ids p)
  = if decide (c ∈ ids) then edges_to (par c) c p else [].
Proof.
  unfold adjacency. induction 1 as [|id ids Hid Hnd IH]; [done|]. cbn [fmap list_fmap concat].
  rewrite List.filter_app, filter_edges. change (list_fmap _ _ ?f ids) with (f <$> ids). rewrite IH.
  destruct (decide (id = c)) as [->|Hne].
  - rewrite (decide_False (P := c ∈ ids)), (decide_True (P := c ∈ c :: ids)) by set_solver.
    by rewrite app_nil_r.
  - cbn [app]. destruct (decide (c ∈ ids)).
    + by rewrite decide_True by set_solver.
    + by rewrite decide_False by set_solver.
Qed.
End Rebuild.

Lemma btree_keys_sorted {V} (m : gmap bytes V) :
  StronglySorted (fun a b => bytes_le a b = true) (btree_keys m).
Proof.
  unfold btree_keys. eapply StronglySorted_fmap; [|apply btree_iter_sorted]. intros x y Hxy. exact Hxy.
Qed.

Lemma rebuild_index_for s : index_for (parents_of_id s) (rebuild_children_index s).(children).
Proof.
  unfold rebuild_children_index. cbn [children with_children].
  change (foldl _ ∅ (btree_keys (motes s)))
    with (foldl (push_edges (parents_of_id s)) ∅ (btree_keys (motes s))).
  destruct (foldl_push (parents_of_id s) (btree_keys (motes s)) ∅) as [Hn Hd].
  { intros q. by rewrite lookup_empty. }
  set (idx := foldl _ _ _) in *.
  assert (Heq : forall p, (stable_sort (fun a b => bytes_le a.1 b.1) <$> idx) !! p = idx !! p).
  { intros p. rewrite lookup_fmap. destruct (idx !! p) as [v|] eqn:Hv; [|done]. cbn. f_equal.
    apply stable_sort_sorted. specialize (Hd p). rewrite Hv, lookup_empty in Hd. cbn in Hd. rewrite Hd.
    apply (adjacency_sorted (parents_of_id s)), btree_keys_sorted. }
  split.
  - intros p. rewrite Heq. apply Hn.
  - intros p. rewrite Heq, Hd, lookup_empty. apply adjacency_sorted, btree_keys_sorted.
  - intros p c. rewrite Heq, Hd, lookup_empty. cbn [default from_option id app].
    rewrite filter_adjacency by apply NoDup_btree_keys. case_decide as Hc; [done|].
    rewrite elem_of_btree_keys in Hc. unfold parents_of_id.
    destruct (motes s !! c) as [info|]; [exfalso; eauto|done].
Qed.

(** The index of a state is the one a rebuild gives. *)
Definition index_ok (s : State) : Prop := index_for (parents_of_id s) s.(children).
Lemma index_ok_rebuild s : index_ok s <-> rebuild_children_index s = s.
Proof.
  split.
  - intros Hi. pose proof (index_for_unique _ _ _ (rebuild_index_for s) Hi) as E.
    unfold rebuild_children_index in *. cbn in E. destruct s. unfold with_children in *. cbn in *. by rewrite E.
  - intros <-. unfold index_ok. exact (rebuild_index_for s).
Qed.

(** ** The operations that touch the index keep it *)
Lemma parents_of_moteinfo_mut id f s d :
  parents_of_id (moteinfo_mut id f s) d
  = if decide (d = id) then info_parents (f (mote_info s id)) else parents_of_id s d.
Proof.
  unfold parents_of_id, moteinfo_mut, with_motes. cbn [motes]. case_decide as Hd.
  - subst. by rewrite lookup_insert_eq.
  - by rewrite lookup_insert_ne.
Qed.
Lemma info_parents_mote_info s id : info_parents (mote_info s id) = parents_of_id s id.
Proof. unfold mote_info, parents_of_id. by destruct (motes s !! id). Qed.

(** An update that leaves the effective parents alone leaves the index right. *)
Lemma index_ok_update id f s :
  info_parents (f (mote_info s id)) = parents_of_id s id -> index_ok s -> index_ok (moteinfo_mut id f s).
Proof.
  intros Hf [Hn Hs He]. split; [done..|]. intros p c.
  change (children (moteinfo_mut id f s)) with (children s). rewrite He, parents_of_moteinfo_mut.
  case_decide; [by subst; rewrite Hf|done].
Qed.
(** An update followed by a reindex from the old parents restores it. *)
Lemma index_ok_reindex id f s :
  index_ok s -> index_ok (reindex_child_edges id (parents_of_id s id) (moteinfo_mut id f s)).
Proof.
  intros Hi. unfold index_ok, reindex_child_edges. cbn [children with_children].
  apply (reindex_correct (parents_of_id s)); [exact Hi|]. intros d Hd.
  change (parents_of_id (with_children ?c ?s0) d) with (parents_of_id s0 d).
  rewrite parents_of_moteinfo_mut. by rewrite decide_False.
Qed.
Lemma index_ok_set_declared id d s : index_ok s -> index_ok (set_declared id d s).
Proof. apply index_ok_reindex. Qed.
Lemma index_ok_default : index_ok State_default.
Proof. by apply index_ok_rebuild. Qed.
