(* ===== verification/ProjFold.v ===== *)
(** kx-projection's fold (projection.rs): one journal entry at a time into the
    state, the run metadata it keeps beside the DAG, and what the fold
    guarantees over any history. *)
From S2P Require Import Prelude Utf8 Mote Entry Journal ProjState ProjIndex.
Import JournalEntry.

Module RegisterMote.
Record RegisterMote := {
  mote_id : MoteId;
  nd_class : NdClass;
  effect_pattern : EffectPattern;
  critic_for : option MoteId;
  is_topology_shaper : bool;
  parents : list ParentRef;
  warrant_ref : ContentRef
}.
End RegisterMote.
Abbreviation RegisterMote := RegisterMote.RegisterMote.

Module ProjectionError.
Inductive ProjectionError :=
| DuplicateCommitted (id : MoteId)
| Journal (e : JournalError)
| ContentStoreFetch (result_ref : ContentRef) (details : bytes)
| TopologyDecodeFailed (result_ref : ContentRef) (details : bytes)
| WarrantStoreFetch (warrant_ref : ContentRef) (details : bytes)
| WarrantDecodeFailed (warrant_ref : ContentRef) (details : bytes)
| RoleNotRegistered (role_id : bytes) (descriptor_index : nat)
| NarrowingFailed (descriptor_index : nat) (details : bytes).
End ProjectionError.
Abbreviation ProjectionError := ProjectionError.ProjectionError.

(** The materializer a projection is built with: the children a committed
    topology shaper introduces. *)
Definition Materializer : Type :=
  MoteId -> bytes -> ContentRef -> ContentRef -> outcome (option (list RegisterMote)) ProjectionError.

Definition register_mote (reg : RegisterMote) (s : State) : State :=
  set_declared reg.(RegisterMote.mote_id) {|
    DeclaredInfo.nd_class := reg.(RegisterMote.nd_class);
    DeclaredInfo.effect_pattern := reg.(RegisterMote.effect_pattern);
    DeclaredInfo.critic_for := reg.(RegisterMote.critic_for);
    DeclaredInfo.is_topology_shaper := reg.(RegisterMote.is_topology_shaper);
    DeclaredInfo.parents := reg.(RegisterMote.parents);
    DeclaredInfo.warrant_ref := reg.(RegisterMote.warrant_ref) |} s.

Definition fold_failed (reason_class : FailureReason) (detail : bytes) (info : MoteInfo) : MoteInfo :=
  if bool_decide (is_Some info.(committed)) then info
  else
    let terminal := negb (is_pre_commit_crash reason_class) in
    let first := terminal && negb (bool_decide (is_Some info.(failure_reason))) in
    let info := if first then set_failure (Some reason_class) detail info else info in
    set_flags info.(has_proposed) true info.(effect_staged_observed)
      (terminal || info.(terminal_failure_observed)) info.(inconsistent)
      (bool_decide (reason_class = FailureReason.QuarantinedAtLeastOnce) || info.(quarantined)) info.

Definition fold_proposed (info : MoteInfo) : MoteInfo :=
  set_flags true false info.(effect_staged_observed) info.(terminal_failure_observed)
    info.(inconsistent) info.(quarantined) info.
Definition fold_effect_staged (info : MoteInfo) : MoteInfo :=
  set_flags info.(has_proposed) info.(failed_pending_reattempt) true
    info.(terminal_failure_observed) info.(inconsistent) info.(quarantined) info.
Definition fold_repudiated (target_committed_seq : Z) (info : MoteInfo) : MoteInfo :=
  match info.(committed) with
  | Some c =>
      if c.(CommittedInfo.seq) =? target_committed_seq
      then set_committed_field (Some (CommittedInfo.repudiate c)) info
      else info
  | None =>
      if info.(effect_staged_observed)
      then set_flags info.(has_proposed) info.(failed_pending_reattempt)
             info.(effect_staged_observed) info.(terminal_failure_observed) true
             info.(quarantined) info
      else info
  end.

(** [ReactRound] and [Approval]. *)
Definition fold_react_metadata (entry : JournalEntry) (s : State) : State :=
  match entry with
  | ReactRound turn turn_mote_id instance_id base_prompt_ref warrant_ref model_id branch
      max_turns max_tool_calls step_salt is_agentic_launch context_items_ref image_ref
      require_approval seq =>
      bump_seq seq (index_last_react_round
        (with_react (s.(react_rounds) ++ [{|
           ReactRoundRecord.turn := turn; ReactRoundRecord.turn_mote_id := turn_mote_id;
           ReactRoundRecord.instance_id := instance_id;
           ReactRoundRecord.base_prompt_ref := base_prompt_ref;
           ReactRoundRecord.warrant_ref := warrant_ref; ReactRoundRecord.model_id := model_id;
           ReactRoundRecord.branch := branch; ReactRoundRecord.max_turns := max_turns;
           ReactRoundRecord.max_tool_calls := max_tool_calls;
           ReactRoundRecord.step_salt := step_salt;
           ReactRoundRecord.is_agentic_launch := is_agentic_launch;
           ReactRoundRecord.context_items_ref := context_items_ref;
           ReactRoundRecord.image_ref := image_ref;
           ReactRoundRecord.require_approval := require_approval;
           ReactRoundRecord.seq := seq |}])
           s.(react_index) s.(react_turn_motes) s.(react_tool_round_of_turn) s))
  | Approval instance_id request_id awaiting_mote_id state seq =>
      bump_seq seq (index_last_approval
        (with_approvals (s.(approvals) ++ [{|
           ApprovalRecord.instance_id := instance_id; ApprovalRecord.request_id := request_id;
           ApprovalRecord.awaiting_mote_id := awaiting_mote_id; ApprovalRecord.state := state;
           ApprovalRecord.seq := seq |}]) s.(approval_index) s))
  | _ => s
  end.
Definition fold_run_metadata (entry : JournalEntry) (s : State) : State :=
  match entry with
  | RunRegistered instance_id recipe_fingerprint _ seq =>
      bump_seq seq (with_run (Some {| rr_instance_id := instance_id;
                                      rr_recipe_fingerprint := recipe_fingerprint |})
        s.(run_resolved_versions) s.(replan_rounds) s.(rerank_rounds) s.(timers) s)
  | RunVersionsResolved instance_id warrant_ref model_id capability seq =>
      bump_seq seq (with_run s.(run_registration)
        (s.(run_resolved_versions) ++ [{| rv_instance_id := instance_id;
           rv_warrant_ref := warrant_ref; rv_model_id := model_id; rv_capability := capability |}])
        s.(replan_rounds) s.(rerank_rounds) s.(timers) s)
  | DigestSealed _ _ seq => bump_seq seq s
  | ReplanRound round shaper_mote_id base_prompt_ref corrected_prompt_ref warrant_ref model_id
      failed_steps escalation_reason_ref seq =>
      bump_seq seq (with_run s.(run_registration) s.(run_resolved_versions)
        (s.(replan_rounds) ++ [{|
           ReplanRoundRecord.round := round; ReplanRoundRecord.shaper_mote_id := shaper_mote_id;
           ReplanRoundRecord.base_prompt_ref := base_prompt_ref;
           ReplanRoundRecord.corrected_prompt_ref := corrected_prompt_ref;
           ReplanRoundRecord.warrant_ref := warrant_ref; ReplanRoundRecord.model_id := model_id;
           ReplanRoundRecord.failed_steps := failed_steps;
           ReplanRoundRecord.escalation_reason_ref := escalation_reason_ref;
           ReplanRoundRecord.seq := seq |}])
        s.(rerank_rounds) s.(timers) s)
  | ReactRound _ _ _ _ _ _ _ _ _ _ _ _ _ _ _ | Approval _ _ _ _ _ => fold_react_metadata entry s
  | ReRankRound round rerank_mote_id instance_id base_results_ref query_ref warrant_ref model_id
      candidate_count oc seq =>
      bump_seq seq (with_run s.(run_registration) s.(run_resolved_versions) s.(replan_rounds)
        (s.(rerank_rounds) ++ [{|
           ReRankRoundRecord.round := round; ReRankRoundRecord.rerank_mote_id := rerank_mote_id;
           ReRankRoundRecord.instance_id := instance_id;
           ReRankRoundRecord.base_results_ref := base_results_ref;
           ReRankRoundRecord.query_ref := query_ref; ReRankRoundRecord.warrant_ref := warrant_ref;
           ReRankRoundRecord.model_id := model_id;
           ReRankRoundRecord.candidate_count := candidate_count;
           ReRankRoundRecord.outcome := oc; ReRankRoundRecord.seq := seq |}]) s.(timers) s)
  | TimerArmed instance_id subject_mote_id purpose attempt fire_at_unix_ms anchor_ref seq =>
      bump_seq seq (with_run s.(run_registration) s.(run_resolved_versions) s.(replan_rounds)
        s.(rerank_rounds)
        (s.(timers) ++ [{|
           TimerRecord.instance_id := instance_id; TimerRecord.subject_mote_id := subject_mote_id;
           TimerRecord.purpose := purpose; TimerRecord.attempt := attempt;
           TimerRecord.fire_at_unix_ms := fire_at_unix_ms; TimerRecord.anchor_ref := anchor_ref;
           TimerRecord.seq := seq |}]) s)
  | _ => s
  end.

Section Fold.
Context (materializer : option Materializer).

(** The state after the call (also after an error) and the call's result. *)
Definition fold_committed (mote_id : MoteId) (seq : Z) (nondeterminism : NdClass)
    (result_ref : ContentRef) (parents : list ParentEntry) (warrant_ref : ContentRef)
    (mote_def_hash : bytes) (s : State) : State * outcome unit ProjectionError :=
  let old_effective := parents_of_id s mote_id in
  if bool_decide (is_Some (mote_info s mote_id).(committed))
  then (moteinfo_mut mote_id (fun i => i) s, Err (ProjectionError.DuplicateCommitted mote_id))
  else
    let s := moteinfo_mut mote_id (set_committed_field (Some {|
               CommittedInfo.seq := seq; CommittedInfo.result_ref := result_ref;
               CommittedInfo.nondeterminism := nondeterminism;
               CommittedInfo.parents_in_entry := parents;
               CommittedInfo.warrant_ref := warrant_ref;
               CommittedInfo.mote_def_hash := mote_def_hash;
               CommittedInfo.repudiated := false |})) s in
    let s := index_committed mote_id old_effective (bump_seq seq s) in
    match (match materializer with
           | Some m => m mote_id mote_def_hash result_ref warrant_ref
           | None => Ok None
           end) with
    | Ok None => (s, Ok tt)
    | Ok (Some regs) => (foldl (fun s reg => register_mote reg s) s regs, Ok tt)
    | Err e => (s, Err e)
    | Panic => (s, Panic)
    end.

Definition fold (entry : JournalEntry) (s : State) : State * outcome Z ProjectionError :=
  let prev := s.(last_seq) in
  match entry with
  | Proposed mote_id _ seq _ _ _ => (bump_seq seq (moteinfo_mut mote_id fold_proposed s), Ok prev)
  | Committed mote_id _ seq nondeterminism result_ref parents warrant_ref mote_def_hash =>
      let '(s, r) := fold_committed mote_id seq nondeterminism result_ref parents warrant_ref
                       mote_def_hash s in
      (s, let* _ := r in Ok prev)
  | Failed mote_id _ seq reason_class _ detail =>
      (bump_seq seq (moteinfo_mut mote_id (fold_failed reason_class detail) s), Ok prev)
  | Repudiated target_mote_id _ seq target_committed_seq _ _ =>
      (bump_seq seq (moteinfo_mut target_mote_id (fold_repudiated target_committed_seq) s), Ok prev)
  | EffectStaged mote_id _ seq =>
      (bump_seq seq (moteinfo_mut mote_id fold_effect_staged s), Ok prev)
  | _ => (fold_run_metadata entry s, Ok prev)
  end.

(** [for entry in entries { p.fold(&entry)?; }] *)
Fixpoint fold_entries (entries : list JournalEntry) (s : State) : State * outcome unit ProjectionError :=
  match entries with
  | [] => (s, Ok tt)
  | e :: entries =>
      match fold e s with
      | (s, Ok _) => fold_entries entries s
      | (s, Err err) => (s, Err err)
      | (s, Panic) => (s, Panic)
      end
  end.
Definition fold_many (entries : list JournalEntry) (s : State) : State * outcome Z ProjectionError :=
  let '(s, r) := fold_entries entries s in (s, let* _ := r in Ok s.(last_seq)).

Definition from_journal `{Journal J} (j : J) : outcome State ProjectionError :=
  let* max_seq := omap_err ProjectionError.Journal (current_seq j) in
  let* es := omap_err ProjectionError.Journal (read_entries_by_seq j 0 (u64_add max_seq 1)) in
  let '(s, r) := fold_entries es State_default in
  let* _ := r in Ok s.
End Fold.

(** ** Steps of a projection *)
Section Steps.
Context (materializer : option Materializer).

Inductive proj_step : State -> State -> Prop :=
| step_fold entry s : proj_step s (fold materializer entry s).1
| step_register reg s : proj_step s (register_mote reg s).

Lemma index_ok_bump n s : index_ok s -> index_ok (bump_seq n s).
Proof. done. Qed.
Lemma index_ok_metadata e s : index_ok s -> index_ok (fold_run_metadata e s).
Proof.
  destruct e; try done; cbn [fold_run_metadata fold_react_metadata];
    unfold index_last_react_round, index_last_approval; cbn -[last]; by repeat case_match.
Qed.
Lemma index_ok_register reg s : index_ok s -> index_ok (register_mote reg s).
Proof. apply index_ok_set_declared. Qed.
Lemma index_ok_registers regs s :
  index_ok s -> index_ok (foldl (fun s reg => register_mote reg s) s regs).
Proof. revert s. induction regs as [|reg regs IH]; intros s Hs; [done|]. apply IH, index_ok_register, Hs. Qed.

Lemma fold_failed_parents r d i : info_parents (fold_failed r d i) = info_parents i.
Proof. unfold fold_failed. repeat case_match; done. Qed.
Lemma fold_repudiated_parents n i : info_parents (fold_repudiated n i) = info_parents i.
Proof.
  unfold fold_repudiated. destruct (committed i) as [c|] eqn:Hc; repeat case_match; try done.
  unfold info_parents. cbn. by rewrite Hc.
Qed.

Lemma index_ok_fold e s : index_ok s -> index_ok (fold materializer e s).1.
Proof.
  intros Hi. destruct e; cbn [fold fst]; try by apply index_ok_metadata.
  - apply index_ok_bump, index_ok_update; [|done]. apply info_parents_mote_info.
  - unfold fold_committed. case_bool_decide.
    { cbn. apply index_ok_update; [|done]. apply info_parents_mote_info. }
    match goal with |- context [index_committed ?id ?old (bump_seq ?n ?s0)] =>
      assert (index_ok (index_committed id old (bump_seq n s0))) as Hi' by exact (index_ok_reindex _ _ _ Hi)
    end.
    repeat case_match; cbn [fst] in *; simplify_eq; try done. by apply index_ok_registers.
  - apply index_ok_bump, index_ok_update; [|done]. by rewrite fold_repudiated_parents, info_parents_mote_info.
  - apply index_ok_bump, index_ok_update; [|done]. by rewrite fold_failed_parents, info_parents_mote_info.
  - apply index_ok_bump, index_ok_update; [|done]. apply info_parents_mote_info.
Qed.
Lemma index_ok_step s s' : proj_step s s' -> index_ok s -> index_ok s'.
Proof. destruct 1; [apply index_ok_fold|apply index_ok_register]. Qed.

Lemma index_ok_reachable s : rtc proj_step State_default s -> index_ok s.
Proof.
  intros Hs. cut (forall s0, rtc proj_step s0 s -> index_ok s0 -> index_ok s); [eauto using index_ok_default|].
  clear. induction 1; eauto using index_ok_step.
Qed.

(** [C4] The reverse index: after any sequence of folded entries and
    registrations, failed folds included, the incrementally maintained
    parent-to-children index is the one a full rebuild from the Motes gives,
    byte for byte and in the same order. *)
Theorem incremental_index_is_rebuild s :
  rtc proj_step State_default s -> rebuild_children_index s = s.
Proof. intros Hs. by apply index_ok_rebuild, index_ok_reachable. Qed.
End Steps.

(** ** A concrete DAG: [1] feeds [2] by data and [3] by a non-cascading edge *)
Definition demo_reg (id : MoteId) (ps : list ParentRef) : RegisterMote := {|
  RegisterMote.mote_id := id; RegisterMote.nd_class := Pure;
  RegisterMote.effect_pattern := IdempotentByConstruction; RegisterMote.critic_for := None;
  RegisterMote.is_topology_shaper := false; RegisterMote.parents := ps;
  RegisterMote.warrant_ref := [] |}.
Definition demo_commit (id : MoteId) (n : Z) : JournalEntry :=
  Committed id id n Pure [7] [] [8] [9].
Definition demo_dag : State :=
  (fold None (demo_commit [1] 1)
    (register_mote (demo_reg [3] [{| parent_id := [1]; edge := EdgeMeta_control_non_cascading |}])
      (register_mote (demo_reg [2] [{| parent_id := [1]; edge := EdgeMeta_data |}]) State_default))).1.
Lemma demo_dag_reachable : rtc (proj_step None) State_default demo_dag.
Proof.
  eapply rtc_l; [apply step_register|]. eapply rtc_l; [apply step_register|].
  eapply rtc_l; [apply step_fold|]. apply rtc_refl.
Qed.
Lemma incremental_index_is_rebuild_witness :
  rebuild_children_index demo_dag = demo_dag
  /\ children demo_dag !! [1]
     = Some [([2], EdgeMeta_data); ([3], EdgeMeta_control_non_cascading)].
Proof.
  split; [|by vm_compute]. apply (incremental_index_is_rebuild None). apply demo_dag_reachable.
Defined.
