(* ===== verification/ProjHistory.v ===== *)
(** What the projection never forgets: the per-Mote facts that survive every
    later step, and the safety of re-dispatching a world effect. *)
From S2P Require Import Prelude Utf8 Mote Entry Journal ProjState ProjIndex ProjFold.
Import JournalEntry.

(** [committed_le c c']: the same commit, repudiated at most once more. *)
Definition committed_le (c c' : CommittedInfo) : Prop :=
  c' = c \/ c' = CommittedInfo.repudiate c.

(** [info_le i i']: every fact recorded in [i] is still recorded in [i']. *)
Record info_le (i i' : MoteInfo) : Prop := {
  il_committed : forall c, committed i = Some c ->
    inconsistent i' = inconsistent i /\ exists c', committed i' = Some c' /\ committed_le c c';
  il_staged : effect_staged_observed i = true -> effect_staged_observed i' = true;
  il_terminal : terminal_failure_observed i = true -> terminal_failure_observed i' = true;
  il_inconsistent : inconsistent i = true -> inconsistent i' = true;
  il_quarantined : quarantined i = true -> quarantined i' = true;
  il_reason : forall r, failure_reason i = Some r ->
    failure_reason i' = Some r /\ failure_detail i' = failure_detail i
}.

Lemma repudiate_idem c : CommittedInfo.repudiate (CommittedInfo.repudiate c) = CommittedInfo.repudiate c.
Proof. done. Qed.
#[export] Instance info_le_preorder : PreOrder info_le.
Proof.
  split.
  - intros i. split; eauto. intros c Hc. split; [done|]. exists c. split; [done|by left].
  - intros i j k [C1 S1 T1 I1 Q1 R1] [C2 S2 T2 I2 Q2 R2]. split; auto.
    + intros c Hc. destruct (C1 c Hc) as (Hi1 & c1 & Hc1 & Hl1).
      destruct (C2 c1 Hc1) as (Hi2 & c2 & Hc2 & Hl2). split; [congruence|]. exists c2. split; [done|].
      destruct Hl1 as [->| ->], Hl2 as [->| ->]; [by left|by right..].
    + intros r Hr. destruct (R1 r Hr) as [Hr1 Hd1]. destruct (R2 r Hr1) as [Hr2 Hd2].
      split; [done|congruence].
Qed.

Create HintDb facts.
Lemma fold_proposed_le i : info_le i (fold_proposed i).
Proof. split; cbn; eauto. intros c Hc. split; [done|]. exists c. by split; [|left]. Qed.
Lemma fold_effect_staged_le i : info_le i (fold_effect_staged i).
Proof. split; cbn; eauto. intros c Hc. split; [done|]. exists c. by split; [|left]. Qed.
Lemma fold_repudiated_le n i : info_le i (fold_repudiated n i).
Proof.
  unfold fold_repudiated. destruct (committed i) as [c|] eqn:Hc.
  - case_match; [|done]. split; cbn; eauto. intros c0 [= <-]%(eq_trans (eq_sym Hc)).
    split; [done|]. exists (CommittedInfo.repudiate c). by split; [|right].
  - case_match; [|done]. split; cbn; eauto. intros c Hc'. congruence.
Qed.
Lemma fold_failed_le r d i : info_le i (fold_failed r d i).
Proof.
  unfold fold_failed. case_bool_decide as Hc; [done|].
  assert (Hnc : forall c, committed i <> Some c) by (intros c E; apply Hc; eauto).
  destruct (negb (is_pre_commit_crash r)); cbn [andb orb].
  - destruct (bool_decide (is_Some (failure_reason i))) eqn:Hr; cbn [negb].
    + split; cbn; auto; [by intros c ?%Hnc|]. intros ->. apply orb_true_r.
    + split; cbn; auto; [by intros c ?%Hnc|intros ->; apply orb_true_r|].
      intros r0 Hr0. apply bool_decide_eq_false in Hr. exfalso. eauto.
  - split; cbn; auto; [by intros c ?%Hnc|]. intros ->. apply orb_true_r.
Qed.
Lemma set_declared_field_le d i : info_le i (set_declared_field d i).
Proof. split; cbn; eauto. intros c Hc. split; [done|]. exists c. by split; [|left]. Qed.
Lemma set_committed_field_le c i : committed i = None -> info_le i (set_committed_field (Some c) i).
Proof. intros Hn. split; cbn; eauto. intros c' Hc'. congruence. Qed.
#[export] Hint Resolve fold_proposed_le fold_effect_staged_le fold_repudiated_le fold_failed_le
  set_declared_field_le set_committed_field_le : facts.

(** ** Steps only add facts *)
Lemma mote_info_mut id f s d :
  mote_info (moteinfo_mut id f s) d = if decide (d = id) then f (mote_info s id) else mote_info s d.
Proof.
  unfold mote_info, moteinfo_mut, with_motes. cbn [motes]. case_decide as Hd.
  - subst. by rewrite lookup_insert_eq.
  - by rewrite lookup_insert_ne.
Qed.
Lemma mut_le id f s d : info_le (mote_info s id) (f (mote_info s id)) ->
  info_le (mote_info s d) (mote_info (moteinfo_mut id f s) d).
Proof. intros Hf. rewrite mote_info_mut. case_decide; [by subst|done]. Qed.
Lemma metadata_motes e s : motes (fold_run_metadata e s) = motes s.
Proof.
  destruct e; try done; cbn [fold_run_metadata fold_react_metadata];
    unfold index_last_react_round, index_last_approval; cbn -[last]; by repeat case_match.
Qed.
Lemma register_le reg s d : info_le (mote_info s d) (mote_info (register_mote reg s) d).
Proof. apply (mut_le (RegisterMote.mote_id reg)). auto with facts. Qed.
Lemma registers_le regs s d :
  info_le (mote_info s d) (mote_info (foldl (fun s reg => register_mote reg s) s regs) d).
Proof.
  revert s. induction regs as [|reg regs IH]; intros s; [done|]. cbn [foldl].
  etrans; [apply register_le|apply IH].
Qed.

Section History.
Context (materializer : option Materializer).

Lemma fold_committed_le id n nd r ps w h s d :
  info_le (mote_info s d) (mote_info (fold_committed materializer id n nd r ps w h s).1 d).
Proof.
  unfold fold_committed. case_bool_decide as Hc; [by apply mut_le|].
  match goal with |- context [index_committed ?id ?old ?s0] =>
    assert (info_le (mote_info s d) (mote_info (index_committed id old s0) d)) as Hle
  end.
  { change (mote_info (index_committed ?i ?o (bump_seq ?n ?s0)) d) with (mote_info s0 d).
    apply mut_le, set_committed_field_le. destruct (committed _) eqn:E; [|done]. exfalso. eauto. }
  repeat case_match; cbn [fst] in *; simplify_eq; try done. etrans; [exact Hle|apply registers_le].
Qed.
Lemma fold_le e s d : info_le (mote_info s d) (mote_info (fold materializer e s).1 d).
Proof.
  destruct e; cbn [fold fst];
    try (unfold mote_info at 2; by rewrite metadata_motes);
    try (apply mut_le; by auto with facts).
  pose proof (fold_committed_le mote_id seq nondeterminism result_ref parents warrant_ref mote_def_hash s d) as Hle.
  by destruct (fold_committed _ _ _ _ _ _ _ _ _) as [s' r].
Qed.
Lemma step_le s s' d : proj_step materializer s s' -> info_le (mote_info s d) (mote_info s' d).
Proof. destruct 1; [apply fold_le|apply register_le]. Qed.
Lemma steps_le s s' d : rtc (proj_step materializer) s s' -> info_le (mote_info s d) (mote_info s' d).
Proof. induction 1 as [|s s1 s2 Hs _ IH]; [done|]. etrans; [by eapply step_le|done]. Qed.

Lemma state_of_mote_info s d : state_of_id s d = info_state (mote_info s d).
Proof. unfold state_of_id, mote_info. by destruct (motes s !! d). Qed.
Lemma can_redispatch_mote_info s d :
  can_redispatch_world_effect_id s d = true <->
  let i := mote_info s d in
  inconsistent i = false /\ terminal_failure_observed i = false /\ committed i = None
  /\ effect_staged_observed i = true.
Proof.
  unfold can_redispatch_world_effect_id, mote_info. destruct (motes s !! d) as [i|]; cbn.
  - destruct (inconsistent i), (terminal_failure_observed i), (committed i), (effect_staged_observed i);
      cbn; naive_solver.
  - naive_solver.
Qed.
Lemma result_ref_committed s d c : committed (mote_info s d) = Some c ->
  exists i, motes s !! d = Some i /\ committed i = Some c.
Proof. unfold mote_info. destruct (motes s !! d) as [i|]; cbn; [eauto|done]. Qed.

(** Permanence: whatever is folded or registered later, a committed Mote
    stays Committed or becomes Repudiated and keeps its commit (seq, result,
    class, parents, warrant, definition), Repudiated and Inconsistent are final,
    and a Mote with an observed terminal failure is never again Pending or
    Scheduled, never re-dispatchable, and keeps its first failure reason. *)
Theorem facts_are_permanent s s' d :
  rtc (proj_step materializer) s s' ->
  (state_of_id s d = MoteState.Committed ->
     state_of_id s' d = MoteState.Committed \/ state_of_id s' d = MoteState.Repudiated)
  /\ (state_of_id s d = MoteState.Repudiated -> state_of_id s' d = MoteState.Repudiated)
  /\ (state_of_id s d = MoteState.Inconsistent -> state_of_id s' d = MoteState.Inconsistent)
  /\ (forall c, committed (mote_info s d) = Some c ->
        exists c', committed (mote_info s' d) = Some c' /\ committed_le c c')
  /\ (terminal_failure_observed (mote_info s d) = true ->
        can_redispatch_world_effect_id s' d = false
        /\ state_of_id s' d <> MoteState.Pending /\ state_of_id s' d <> MoteState.Scheduled)
  /\ (forall r, failure_reason (mote_info s d) = Some r -> failure_reason (mote_info s' d) = Some r).
Proof.
  intros Hs. apply (steps_le s s' d) in Hs as [HC HS HT HI HQ HR].
  rewrite !state_of_mote_info. unfold info_state. split_and!.
  - destruct (inconsistent (mote_info s d)); [done|]. destruct (committed (mote_info s d)) as [c|].
    + destruct (HC c eq_refl) as (-> & c' & -> & _). intros _. case_match; auto.
    + repeat case_match; done.
  - destruct (inconsistent (mote_info s d)); [done|]. destruct (committed (mote_info s d)) as [c|].
    + destruct (HC c eq_refl) as (-> & c' & -> & [->| ->]); [done|]. by case_match.
    + repeat case_match; done.
  - destruct (inconsistent (mote_info s d)); [by rewrite HI|]. by repeat case_match.
  - intros c Hc. destruct (HC c Hc) as (_ & c' & Hc' & Hl). eauto.
  - intros Ht. specialize (HT Ht). split.
    + destruct (can_redispatch_world_effect_id s' d) eqn:E; [|done].
      apply can_redispatch_mote_info in E as (_ & E & _). congruence.
    + rewrite HT. split; repeat case_match; done.
  - intros r Hr. by destruct (HR r Hr).
Qed.

(** ** A commit is repudiated only by name *)
Lemma registers_committed regs s d :
  committed (mote_info (foldl (fun s reg => register_mote reg s) s regs) d) = committed (mote_info s d).
Proof.
  revert s. induction regs as [|reg regs IH]; intros s; [done|]. cbn [foldl]. rewrite IH.
  unfold register_mote, set_declared, reindex_child_edges.
  change (mote_info (with_children ?c ?s0) d) with (mote_info s0 d).
  rewrite mote_info_mut. by case_decide; subst.
Qed.
Lemma fold_committed_keeps id n nd r ps w h s d c :
  committed (mote_info s d) = Some c ->
  committed (mote_info (fold_committed materializer id n nd r ps w h s).1 d) = Some c.
Proof.
  intros Hc. unfold fold_committed. case_bool_decide as Hb.
  { cbn [fst]. rewrite mote_info_mut. by case_decide; subst. }
  assert (d <> id) as Hd by (intros ->; apply Hb; eauto).
  match goal with |- context [index_committed ?i ?o ?s0] =>
    assert (committed (mote_info (index_committed i o s0) d) = Some c) as Hk
  end.
  { change (mote_info (index_committed ?i ?o (bump_seq ?n ?s0)) d) with (mote_info s0 d).
    rewrite mote_info_mut. by rewrite decide_False. }
  repeat case_match; cbn [fst] in *; simplify_eq; try done. by rewrite registers_committed.
Qed.
Lemma fold_committed_case e s d c :
  committed (mote_info s d) = Some c ->
  committed (mote_info (fold materializer e s).1 d) = Some c
  \/ exists key n reason by_, e = Repudiated d key n c.(CommittedInfo.seq) reason by_
     /\ committed (mote_info (fold materializer e s).1 d) = Some (CommittedInfo.repudiate c).
Proof.
  intros Hc. destruct e; cbn [fold fst];
    try (left; unfold mote_info at 1; by rewrite metadata_motes).
  - left. change (mote_info (bump_seq ?n ?s0) d) with (mote_info s0 d). rewrite mote_info_mut.
    by case_decide; subst.
  - left. pose proof (fold_committed_keeps mote_id seq nondeterminism result_ref parents warrant_ref
                        mote_def_hash s d c Hc) as Hk.
    by destruct (fold_committed _ _ _ _ _ _ _ _ _) as [s' r].
  - change (mote_info (bump_seq ?n ?s0) d) with (mote_info s0 d). rewrite mote_info_mut.
    case_decide as Hd; [subst|by left]. unfold fold_repudiated. rewrite Hc.
    destruct (Z.eqb_spec (CommittedInfo.seq c) target_committed_seq) as [<-|]; [|by left].
    right. eauto 10.
  - left. change (mote_info (bump_seq ?n ?s0) d) with (mote_info s0 d). rewrite mote_info_mut.
    case_decide; [subst|done]. unfold fold_failed. by rewrite bool_decide_true by eauto.
  - left. change (mote_info (bump_seq ?n ?s0) d) with (mote_info s0 d). rewrite mote_info_mut.
    by case_decide; subst.
Qed.

(** Repudiation is by name: a fold moves a Committed Mote to Repudiated
    exactly when the entry is a Repudiated entry for that Mote that names the
    seq of its commit; any other entry, a Failed or a second Committed for the
    same Mote included, leaves it Committed. *)
Theorem repudiation_names_commit e s d c :
  state_of_id s d = MoteState.Committed -> committed (mote_info s d) = Some c ->
  state_of_id (fold materializer e s).1 d =
    match e with
    | Repudiated target _ _ target_committed_seq _ _ =>
        if decide (target = d /\ target_committed_seq = c.(CommittedInfo.seq))
        then MoteState.Repudiated else MoteState.Committed
    | _ => MoteState.Committed
    end.
Proof.
  intros Hst Hc. pose proof (fold_le e s d) as [HC _ _ _ _ _].
  destruct (HC c Hc) as (Hinc & _). rewrite state_of_mote_info in Hst |- *.
  unfold info_state in *. rewrite Hinc. rewrite Hc in Hst.
  destruct (inconsistent (mote_info s d)); [done|].
  destruct (CommittedInfo.repudiated c) eqn:Hr; [done|].
  destruct (fold_committed_case e s d c Hc) as [Hk|(key & n & reason & b & -> & Hk)]; rewrite Hk.
  - rewrite Hr. destruct e; try done. rewrite decide_False; [done|]. intros [-> ->].
    cbn [fold fst] in Hk. change (mote_info (bump_seq ?n ?s0) d) with (mote_info s0 d) in Hk.
    rewrite mote_info_mut, decide_True in Hk by done. unfold fold_repudiated in Hk.
    rewrite Hc, Z.eqb_refl in Hk. cbn in Hk. injection Hk as Hk. by rewrite <- Hk in Hr.
  - by rewrite decide_True.
Qed.

(** ** Re-dispatch of a world effect, against the history *)
Definition is_committed_entry (d : MoteId) (e : JournalEntry) : bool :=
  match e with Committed m _ _ _ _ _ _ _ => bool_decide (m = d) | _ => false end.
Definition is_staged_entry (d : MoteId) (e : JournalEntry) : bool :=
  match e with EffectStaged m _ _ => bool_decide (m = d) | _ => false end.
Definition is_terminal_entry (d : MoteId) (e : JournalEntry) : bool :=
  match e with
  | Failed m _ _ r _ _ => bool_decide (m = d) && negb (is_pre_commit_crash r)
  | _ => false
  end.
Definition is_repudiated_entry (d : MoteId) (e : JournalEntry) : bool :=
  match e with Repudiated m _ _ _ _ _ => bool_decide (m = d) | _ => false end.

Lemma fold_entries_app l1 l2 s :
  fold_entries materializer (l1 ++ l2) s
  = match fold_entries materializer l1 s with
    | (s', Ok _) => fold_entries materializer l2 s'
    | r => r
    end.
Proof.
  revert s. induction l1 as [|e l1 IH]; intros s; cbn [fold_entries app]; [done|].
  destruct (fold materializer e s) as [s' [x|err|]]; [apply IH|done..].
Qed.
Lemma fold_entries_le l s d :
  info_le (mote_info s d) (mote_info (fold_entries materializer l s).1 d).
Proof.
  revert s. induction l as [|e l IH]; intros s; cbn [fold_entries]; [done|].
  pose proof (fold_le e s d) as Hle. destruct (fold materializer e s) as [s' [x|err|]]; cbn in *; try done.
  etrans; [exact Hle|apply IH].
Qed.
Lemma fold_entries_split l e l' s s' :
  fold_entries materializer (l ++ e :: l') s = (s', Ok tt) ->
  exists s1, fold_entries materializer l s = (s1, Ok tt)
    /\ is_ok (fold materializer e s1).2 = true
    /\ forall d, info_le (mote_info (fold materializer e s1).1 d) (mote_info s' d).
Proof.
  rewrite fold_entries_app. destruct (fold_entries materializer l s) as [s1 [[]|err|]] eqn:E; [|done..].
  cbn [fold_entries]. destruct (fold materializer e s1) as [s2 [x|err|]] eqn:E2; [|done..].
  intros Hl. exists s1. rewrite E2. split_and!; [done..|]. intros d.
  pose proof (fold_entries_le l' s2 d) as Hle. by rewrite Hl in Hle.
Qed.

(** The four facts a step records about a Mote. *)
Record flags_step (d : MoteId) (e : JournalEntry) (i i' : MoteInfo) : Prop := {
  fs_staged : effect_staged_observed i' = effect_staged_observed i || is_staged_entry d e;
  fs_committed : is_Some (committed i') <-> is_Some (committed i) \/ is_committed_entry d e = true;
  fs_terminal : terminal_failure_observed i'
    = terminal_failure_observed i || (is_terminal_entry d e && negb (bool_decide (is_Some (committed i))));
  fs_inconsistent : inconsistent i'
    = inconsistent i || (is_repudiated_entry d e && effect_staged_observed i
                         && negb (bool_decide (is_Some (committed i))))
}.
Definition same_flags (i i' : MoteInfo) : Prop :=
  effect_staged_observed i' = effect_staged_observed i /\ committed i' = committed i
  /\ terminal_failure_observed i' = terminal_failure_observed i /\ inconsistent i' = inconsistent i.
Lemma flags_step_same d e i i' :
  same_flags i i' -> is_staged_entry d e = false -> is_committed_entry d e = false ->
  is_terminal_entry d e = false -> is_repudiated_entry d e = false -> flags_step d e i i'.
Proof.
  intros (H1 & H2 & H3 & H4) E1 E2 E3 E4. split; rewrite ?H1, ?H2, ?H3, ?H4, ?E1, ?E2, ?E3, ?E4.
  - by rewrite orb_false_r.
  - naive_solver.
  - by rewrite orb_false_r.
  - by rewrite orb_false_r.
Qed.
Lemma same_flags_trans i j k : same_flags i j -> same_flags j k -> same_flags i k.
Proof. unfold same_flags. intuition congruence. Qed.
Lemma register_flags reg s d : same_flags (mote_info s d) (mote_info (register_mote reg s) d).
Proof.
  unfold register_mote, set_declared, reindex_child_edges.
  change (mote_info (with_children ?c ?s0) d) with (mote_info s0 d).
  rewrite mote_info_mut. by case_decide; subst.
Qed.
Lemma registers_flags regs s d :
  same_flags (mote_info s d) (mote_info (foldl (fun s reg => register_mote reg s) s regs) d).
Proof.
  revert s. induction regs as [|reg regs IH]; intros s; [done|]. cbn [foldl].
  eapply same_flags_trans; [apply register_flags|apply IH].
Qed.
Lemma fold_committed_flags id k n nd r ps w h s d :
  is_ok (fold_committed materializer id n nd r ps w h s).2 = true ->
  flags_step d (Committed id k n nd r ps w h) (mote_info s d)
    (mote_info (fold_committed materializer id n nd r ps w h s).1 d).
Proof.
  unfold fold_committed. case_bool_decide as Hb; [done|].
  match goal with |- context [index_committed ?i ?o ?s0] => set (s1 := index_committed i o s0) end.
  assert (flags_step d (Committed id k n nd r ps w h) (mote_info s d) (mote_info s1 d)) as Hf.
  { unfold s1. change (mote_info (index_committed ?i ?o (bump_seq ?n ?s0)) d) with (mote_info s0 d).
    rewrite mote_info_mut. case_decide as Hd.
    - subst. split; cbn [is_staged_entry is_committed_entry is_terminal_entry is_repudiated_entry];
        rewrite ?orb_false_r; try done. cbn. rewrite bool_decide_true by done. naive_solver.
    - apply flags_step_same; try done. cbn. by rewrite bool_decide_false. }
  intros Hok.
  destruct (match materializer with Some m => _ | None => _ end) as [[regs|]|err|]; cbn [fst snd] in *; try done.
  destruct (registers_flags regs s1 d) as (E1 & E2 & E3 & E4). destruct Hf as [F1 F2 F3 F4].
  split; rewrite ?E1, ?E2, ?E3, ?E4; done.
Qed.
Lemma fold_flags e s d :
  is_ok (fold materializer e s).2 = true ->
  flags_step d e (mote_info s d) (mote_info (fold materializer e s).1 d).
Proof.
  destruct e; cbn [fold fst snd]; intros Hok;
    try (apply flags_step_same; [|done..]; unfold mote_info at 2; rewrite metadata_motes; done);
    try (change (mote_info (bump_seq ?n ?s0) d) with (mote_info s0 d); rewrite mote_info_mut;
         case_decide as Hd; [subst|apply flags_step_same; [done|cbn; rewrite ?bool_decide_false; done..]]).
  - by apply flags_step_same.
  - pose proof (fold_committed_flags mote_id idempotency_key seq nondeterminism result_ref parents
                  warrant_ref mote_def_hash s d) as Hf.
    destruct (fold_committed _ _ _ _ _ _ _ _ _) as [s' [[]|?|]]; [by apply Hf|done..].
  - generalize (mote_info s target_mote_id). intros i. unfold fold_repudiated.
    destruct (committed i) as [c|] eqn:Hc; [case_match|destruct (effect_staged_observed i) eqn:Hs];
      split; cbn; rewrite ?Hc, ?Hs, ?bool_decide_true, ?andb_false_r, ?orb_false_r, ?orb_true_r by eauto; try done;
      naive_solver.
  - generalize (mote_info s mote_id). intros i. unfold fold_failed.
    case_bool_decide as Hc; destruct (is_pre_commit_crash reason_class) eqn:Hp;
      split; repeat case_match; cbn; rewrite ?Hp, ?bool_decide_true, ?andb_false_r, ?orb_false_r by done;
      try done; try (rewrite bool_decide_true by done; done); try naive_solver.
    all: cbn; rewrite (bool_decide_false (is_Some (committed i))) by done; by rewrite ?orb_true_r.
  - split; cbn; rewrite ?bool_decide_true, ?orb_true_r, ?orb_false_r by done; try done; naive_solver.
Qed.

(** [d]'s facts after a whole history. *)
Record history_facts (d : MoteId) (es : list JournalEntry) (i : MoteInfo) : Prop := {
  hf_staged : effect_staged_observed i = existsb (is_staged_entry d) es;
  hf_committed : is_Some (committed i) <-> existsb (is_committed_entry d) es = true;
  hf_terminal : committed i = None -> terminal_failure_observed i = existsb (is_terminal_entry d) es;
  hf_inconsistent : committed i = None -> (inconsistent i = true <->
    exists l1 e l2, es = l1 ++ e :: l2 /\ is_repudiated_entry d e = true
                    /\ existsb (is_staged_entry d) l1 = true)
}.
Lemma history_facts_of es s d :
  fold_entries materializer es State_default = (s, Ok tt) -> history_facts d es (mote_info s d).
Proof.
  revert s. induction es as [|e es IH] using rev_ind; intros s.
  - intros [= <-]. split; try done; cbn.
    + split; [by intros [? [=]]|done].
    + intros _. split; [done|]. intros (l1 & e & l2 & E & _). by destruct l1.
  - rewrite fold_entries_app. destruct (fold_entries materializer es State_default) as [s1 [[]|?|]] eqn:Ef; [|done..].
    cbn [fold_entries]. pose proof (fold_flags e s1 d) as Hfl.
    destruct (fold materializer e s1) as [s2 [x|?|]]; [|done..]. intros [= <-].
    specialize (Hfl eq_refl). destruct Hfl as [F1 F2 F3 F4]. destruct (IH s1 eq_refl) as [H1 H2 H3 H4].
    cbn [fst] in *. assert (Hnone : committed (mote_info s2 d) = None -> committed (mote_info s1 d) = None).
    { intros Hn. destruct (committed (mote_info s1 d)) eqn:E; [|done]. exfalso.
      assert (is_Some (committed (mote_info s2 d))) as [? ?] by (apply F2; eauto). congruence. }
    split.
    + rewrite F1, H1, existsb_app. cbn. by rewrite orb_false_r.
    + rewrite F2, H2, existsb_app. cbn. rewrite orb_false_r, orb_true_iff. done.
    + intros Hn. specialize (Hnone Hn). rewrite F3, (H3 Hnone), existsb_app. cbn.
      rewrite Hnone, bool_decide_false by (by intros [? [=]]). by rewrite orb_false_r, andb_true_r.
    + intros Hn. specialize (Hnone Hn). rewrite F4, orb_true_iff, (H4 Hnone), H1, Hnone.
      rewrite bool_decide_false by (by intros [? [=]]). rewrite andb_true_r, andb_true_iff. split.
      * intros [(l1 & e' & l2 & -> & Hr & Hs)|[Hr Hs]].
        -- exists l1, e', (l2 ++ [e]). by rewrite <- app_assoc.
        -- by exists es, e, [].
      * intros (l1 & e' & l2 & E & Hr & Hs). destruct l2 as [|x2 l2 _] using rev_ind.
        -- apply app_inj_tail in E as [-> ->]. by right.
        -- rewrite app_comm_cons, app_assoc in E. apply app_inj_tail in E as [-> _]. left. eauto 10.
Qed.

(** [C3] Re-dispatch safety and completeness: after folding a journal from the
    start, a Mote's world effect may be re-dispatched if and only if the journal
    holds an EffectStaged for it, no Committed, no Failed with a terminal
    reason, and no Repudiated after an EffectStaged. *)
Theorem redispatch_iff_history es s d :
  fold_entries materializer es State_default = (s, Ok tt) ->
  (can_redispatch_world_effect_id s d = true <->
   existsb (is_staged_entry d) es = true /\ existsb (is_committed_entry d) es = false
   /\ existsb (is_terminal_entry d) es = false
   /\ ~ exists l1 e l2, es = l1 ++ e :: l2 /\ is_repudiated_entry d e = true
                        /\ existsb (is_staged_entry d) l1 = true).
Proof.
  intros [H1 H2 H3 H4]%(history_facts_of es s d). rewrite can_redispatch_mote_info. cbn.
  destruct (committed (mote_info s d)) as [c|] eqn:Hc.
  - assert (existsb (is_committed_entry d) es = true) as E by (apply H2; eauto). rewrite E. naive_solver.
  - assert (existsb (is_committed_entry d) es = false) as E.
    { apply not_true_is_false. intros E. apply H2 in E as [? [=]]. }
    rewrite H1, H3, E by done. rewrite <- (H4 eq_refl).
    destruct (inconsistent (mote_info s d)); naive_solver.
Qed.
End History.

(** ** Building from a journal *)
Section FromJournal.
Context (materializer : option Materializer).

Lemma registers_last_seq regs s :
  last_seq (foldl (fun s reg => register_mote reg s) s regs) = last_seq s.
Proof. revert s. induction regs as [|reg regs IH]; intros s; [done|]. cbn [foldl]. by rewrite IH. Qed.
Lemma fold_last_seq e s :
  is_ok (fold materializer e s).2 = true ->
  last_seq (fold materializer e s).1 = Z.max (last_seq s) (entry_seq e).
Proof.
  destruct e; cbn [fold fst snd]; try done.
  - unfold fold_committed. case_bool_decide; [done|].
    destruct (match materializer with Some m => _ | None => _ end) as [[regs|]|?|]; try done.
    intros _. cbn [fst]. by rewrite registers_last_seq.
  - intros _. cbn [fold_run_metadata fold_react_metadata]. cbn [bump_seq last_seq entry_seq].
    unfold index_last_react_round. by case_match.
  - intros _. cbn [fold_run_metadata fold_react_metadata]. cbn [bump_seq last_seq entry_seq].
    unfold index_last_approval. by case_match.
Qed.
(** Only a second commit of the same Mote, or the materializer, can fail a fold. *)
Lemma fold_ok_unless e s :
  (forall d, is_committed_entry d e = true -> committed (mote_info s d) = None) ->
  (forall m a b c d, materializer = Some m -> is_ok (m a b c d) = true) ->
  is_ok (fold materializer e s).2 = true.
Proof.
  intros Hnew Hm. destruct e; try done. cbn [fold]. unfold fold_committed.
  rewrite bool_decide_false; [|rewrite (Hnew mote_id) by (cbn; by apply bool_decide_eq_true); by intros [? [=]]].
  destruct materializer as [m|]; [|done]. specialize (Hm m mote_id mote_def_hash result_ref warrant_ref eq_refl).
  by destruct (m mote_id mote_def_hash result_ref warrant_ref) as [[regs|]|?|].
Qed.

(** The Motes of a log commit under one key each. *)
Definition one_key_per_mote (l : list JournalEntry) : Prop :=
  forall d a b, a ∈ l -> b ∈ l -> is_committed_entry d a = true -> is_committed_entry d b = true ->
    entry_idempotency_key a = entry_idempotency_key b.

Lemma fold_log l :
  log_wf l -> one_key_per_mote l ->
  (forall m a b c d, materializer = Some m -> is_ok (m a b c d) = true) ->
  exists s, fold_entries materializer l State_default = (s, Ok tt) /\ last_seq s = Z.of_nat (length l).
Proof.
  intros Hwf Hkey Hm. induction l as [|e l IH] using rev_ind; [by exists State_default|].
  destruct IH as (s & Hs & Hlast).
  - destruct Hwf as [Hc Hu]. split.
    + intros i x Hx. apply Hc. by apply lookup_app_l_Some.
    + intros i j a b Hi Hj. apply Hu; by apply lookup_app_l_Some.
  - intros d a b Ha Hb. apply Hkey; by apply elem_of_app; left.
  - rewrite fold_entries_app, Hs. cbn [fold_entries].
    assert (Hend : (l ++ [e]) !! length l = Some e) by (by rewrite lookup_app_r, Nat.sub_diag by lia).
    assert (is_ok (fold materializer e s).2 = true) as Hok.
    { apply fold_ok_unless; [|done]. intros d Hd.
      destruct (committed (mote_info s d)) as [c|] eqn:Hc; [|done]. exfalso.
      destruct (history_facts_of materializer l s d Hs) as [_ H2 _ _].
      assert (existsb (is_committed_entry d) l = true) as (x & Hx & Hxd)%existsb_exists by (apply H2; eauto).
      apply list_elem_of_In in Hx. pose proof (list_elem_of_lookup_1 _ _ Hx) as [i Hi].
      assert (i = length l); [|apply lookup_lt_Some in Hi; lia].
      destruct Hwf as [_ Hu]. eapply (Hu i (length l) x e); [by apply lookup_app_l_Some|done| | |].
      - by destruct x.
      - by destruct x, e.
      - eapply (Hkey d); [by apply elem_of_app; left| |done|done]. apply elem_of_app. right. by left. }
    pose proof (fold_last_seq e s Hok) as Hl2. destruct (fold materializer e s) as [s2 [x|?|]]; [|done..].
    exists s2. split; [done|]. cbn in Hl2. rewrite Hl2, Hlast, length_app.
    destruct Hwf as [Hc _]. rewrite (Hc _ _ Hend). cbn [length]. lia.
Qed.

(** Rebuild from the journal: on any lawful backend whose Motes commit
    under one key each, the projection folds the whole log without error and
    ends at the journal's current seq; the dedup rule of the journal is what
    rules the duplicate-commit error out. *)
Theorem from_journal_total `{JournalLaws J} (j : J) l :
  represents j l -> one_key_per_mote l -> Z.of_nat (length l) + 1 < MAX_LOG ->
  (forall m a b c d, materializer = Some m -> is_ok (m a b c d) = true) ->
  exists s, from_journal materializer j = Ok s /\ current_seq j = Ok s.(last_seq)
    /\ fold_entries materializer l State_default = (s, Ok tt).
Proof.
  intros Hr Hkey Hlen Hm. pose proof (represents_wf j l Hr) as Hwf.
  destruct (fold_log l Hwf Hkey Hm) as (s & Hs & Hlast). exists s.
  unfold from_journal. rewrite (current_seq_law j l Hr). cbn [omap_err obind].
  unfold MAX_LOG in *. rewrite u64_add_small by lia.
  rewrite (read_entries_law j l) by (done || unfold MAX_LOG; lia). cbn [omap_err obind].
  rewrite filter_range_all by apply Hwf. rewrite Hs, Hlast. done.
Qed.
End FromJournal.

(** ** Concrete histories *)
Definition demo_repudiate (id : MoteId) (n target : Z) : JournalEntry :=
  Repudiated id id n target RepudiationReason.OperatorAction 0.
Lemma facts_are_permanent_witness :
  state_of_id demo_dag [1] = MoteState.Committed
  /\ (state_of_id (fold None (demo_repudiate [1] 2 1) demo_dag).1 [1] = MoteState.Committed
      \/ state_of_id (fold None (demo_repudiate [1] 2 1) demo_dag).1 [1] = MoteState.Repudiated).
Proof.
  split; [by vm_compute|].
  destruct (facts_are_permanent None demo_dag (fold None (demo_repudiate [1] 2 1) demo_dag).1 [1])
    as (H & _); [apply rtc_once, step_fold|]. apply H. by vm_compute.
Defined.
Lemma repudiation_names_commit_witness :
  state_of_id (fold None (demo_repudiate [1] 2 1) demo_dag).1 [1] = MoteState.Repudiated
  /\ state_of_id (fold None (demo_repudiate [1] 2 3) demo_dag).1 [1] = MoteState.Committed.
Proof.
  destruct (committed (mote_info demo_dag [1])) as [c|] eqn:Hc; [|by vm_compute in Hc].
  split.
  - rewrite (repudiation_names_commit None (demo_repudiate [1] 2 1) demo_dag [1] c);
      [|by vm_compute|done]. vm_compute in Hc. injection Hc as <-. by vm_compute.
  - rewrite (repudiation_names_commit None (demo_repudiate [1] 2 3) demo_dag [1] c);
      [|by vm_compute|done]. vm_compute in Hc. injection Hc as <-. by vm_compute.
Defined.
Lemma redispatch_iff_history_witness :
  exists s, fold_entries None [set_seq demo_staged 1] State_default = (s, Ok tt)
    /\ can_redispatch_world_effect_id s (replicate 32 1) = true.
Proof.
  eexists. split; [reflexivity|].
  apply (redispatch_iff_history None [set_seq demo_staged 1]); [reflexivity|].
  split_and!; [by vm_compute..|]. intros (l1 & e & l2 & Hl & He & Hs).
  destruct l1 as [|x l1]; [done|]. by destruct l1.
Defined.
Lemma from_journal_total_witness :
  exists s, from_journal (H := InMemoryJournal_Journal (H := demo_blake3)) None demo_journal = Ok s
    /\ last_seq s = 1.
Proof.
  destruct (from_journal_total (H1 := InMemoryJournal_laws (H := demo_blake3)) None
              demo_journal [set_seq demo_staged 1]) as (s & Hs & Hl & _).
  - apply demo_represents.
  - intros d a b ->%list_elem_of_singleton ->%list_elem_of_singleton. done.
  - by vm_compute.
  - done.
  - exists s. split; [exact Hs|]. cbn in Hl. by injection Hl.
Defined.
