(* ===== verification/ProjQuery.v ===== *)
(** Queries over the projection (helpers.rs, promotion.rs, projection.rs,
    snapshot.rs): the poison cascade, the ready set with its promotion gate, and
    the lookups through the derived indices. *)
From S2P Require Import Prelude Utf8 CriticTypes Mote Entry Journal ProjState ProjIndex ProjFold ProjHistory.

(** ** The cascade: breadth-first over non-suppressed edges *)
Definition should_walk (e : EdgeMeta) : bool :=
  match e.(kind) with Data => true | Control => negb e.(non_cascade) end.
(** The loop's [visited], [order] and [queue]. *)
Definition Bfs : Type := gset bytes * list MoteId * list MoteId.
Definition visit_child (st : Bfs) (x : MoteId * EdgeMeta) : Bfs :=
  let '(visited, order, queue) := st in
  let '(child, e) := x in
  if negb (should_walk e) then st
  else if bool_decide (child ∈ visited) then st
  else ({[child]} ∪ visited, order ++ [child], queue ++ [child]).
Fixpoint bfs (fuel : nat) (ch : Children) (visited : gset bytes) (order queue : list MoteId)
    : option (list MoteId) :=
  match queue with
  | [] => Some order
  | current :: queue =>
      match fuel with
      | O => None
      | S fuel =>
          let '(visited, order, queue) :=
            foldl visit_child (visited, order, queue) (default [] (ch !! current)) in
          bfs fuel ch visited order queue
      end
  end.
(** Every Mote that occurs as a child: each is queued at most once. *)
Definition all_children (ch : Children) : gset bytes :=
  list_to_set (concat ((fun x : MoteId * list (MoteId * EdgeMeta) => x.2.*1) <$> map_to_list ch)).
Definition transitive_consumers_impl (s : State) (root : MoteId) : option (list MoteId) :=
  bfs (S (size (all_children s.(children)))) s.(children) ∅ [] [root].

(** ** Promotion of a producer's result by its critics *)
Definition VerdictLookup : Type := ContentRef -> option CriticVerdict.
Definition NoVerdicts : VerdictLookup := fun _ => None.
Definition promotion_state_impl (_ : State) (_ : MoteId) : PromotionState := PromotionState.NotApplicable.
Definition critic_passes (lookup : VerdictLookup) (info : MoteInfo) : bool :=
  match info.(committed) with
  | None => false
  | Some c =>
      if c.(CommittedInfo.repudiated) then false
      else match lookup c.(CommittedInfo.result_ref) with Some v => is_valid v | None => false end
  end.
Definition is_critic_of (producer_id : MoteId) (info : MoteInfo) : bool :=
  match info.(declared) with
  | Some d => bool_decide (d.(DeclaredInfo.critic_for) = Some producer_id)
  | None => false
  end.
Definition promotion_state_with (s : State) (producer_id : MoteId) (lookup : VerdictLookup)
    : PromotionState :=
  let '(saw_critic, all_valid) :=
    foldl (fun '(saw, valid) info =>
             if is_critic_of producer_id info then (true, valid && critic_passes lookup info)
             else (saw, valid))
      (false, true) (btree_values s.(motes)) in
  if negb saw_critic then PromotionState.NotApplicable
  else if all_valid then PromotionState.Promoted
  else PromotionState.Unpromoted.

(** ** The ready set, with its memo of promotion states *)
Abbreviation Memo := (gmap bytes PromotionState).
Section Ready.
Context (s : State) (promotion : State -> MoteId -> PromotionState).

Definition memo_promotion (memo : Memo) (p : MoteId) : PromotionState * Memo :=
  match memo !! p with
  | Some v => (v, memo)
  | None => let v := promotion s p in (v, <[p := v]> memo)
  end.
(** [(all_parents_committed, all_wm_parents_promoted)] after the parents loop. *)
Fixpoint check_parents (critic_for : option MoteId) (ps : list ParentRef) (memo : Memo)
    : bool * bool * Memo :=
  match ps with
  | [] => (true, true, memo)
  | p :: ps =>
      if negb (bool_decide (state_of_id s p.(parent_id) = MoteState.Committed)) then (false, true, memo)
      else if bool_decide (critic_for = Some p.(parent_id)) then check_parents critic_for ps memo
      else
        match s.(motes) !! p.(parent_id) with
        | Some pinfo =>
            match pinfo.(committed) with
            | Some c =>
                if bool_decide (c.(CommittedInfo.nondeterminism) = WorldMutating) then
                  let '(promo, memo) := memo_promotion memo p.(parent_id) in
                  match promo with
                  | PromotionState.Unpromoted => (true, false, memo)
                  | _ => check_parents critic_for ps memo
                  end
                else check_parents critic_for ps memo
            | None => check_parents critic_for ps memo
            end
        | None => check_parents critic_for ps memo
        end
  end.
Definition ready_step (acc : list MoteId * Memo) (x : MoteId * MoteInfo) : list MoteId * Memo :=
  let '(out, memo) := acc in
  let '(id, info) := x in
  if negb (bool_decide (state_of_id s id = MoteState.Pending)) then (out, memo)
  else match info.(declared) with
       | None => (out, memo)
       | Some d =>
           let '(all_committed, all_promoted, memo) :=
             check_parents d.(DeclaredInfo.critic_for) d.(DeclaredInfo.parents) memo in
           (if all_committed && all_promoted then out ++ [id] else out, memo)
       end.
Definition ready_set_impl_with : list MoteId :=
  (foldl ready_step ([], ∅) (btree_iter s.(motes))).1.
End Ready.
Definition ready_set_impl (s : State) : list MoteId := ready_set_impl_with s promotion_state_impl.
Definition ready_set_promoted (s : State) (verdicts : VerdictLookup) : list MoteId :=
  ready_set_impl_with s (fun s id => promotion_state_with s id verdicts).
Definition ready_set_auto (s : State) (verdicts : option VerdictLookup) : list MoteId :=
  if negb (has_declared_critic s) then ready_set_impl s
  else match verdicts with
       | Some v => ready_set_promoted s v
       | None => ready_set_promoted s NoVerdicts
       end.

(** ** Point lookups *)
Definition result_ref_of (s : State) (id : MoteId) : option ContentRef :=
  s.(motes) !! id ≫= (fun i => CommittedInfo.result_ref <$> i.(committed)).
Definition nondeterminism_of (s : State) (id : MoteId) : option NdClass :=
  s.(motes) !! id ≫= (fun i => CommittedInfo.nondeterminism <$> i.(committed)).
Definition failure_reason_of (s : State) (id : MoteId) : option FailureReason :=
  s.(motes) !! id ≫= failure_reason.
Definition failure_detail_of (s : State) (id : MoteId) : bytes :=
  match s.(motes) !! id with Some i => i.(failure_detail) | None => [] end.
Definition committed_seq_of (s : State) (id : MoteId) : option Z :=
  s.(motes) !! id ≫= (fun i => CommittedInfo.seq <$> i.(committed)).
Definition warrant_ref_of (s : State) (id : MoteId) : option ContentRef :=
  s.(motes) !! id ≫= (fun i =>
    match i.(declared) with
    | Some d => Some d.(DeclaredInfo.warrant_ref)
    | None => CommittedInfo.warrant_ref <$> i.(committed)
    end).
Definition is_repudiated (s : State) (id : MoteId) : bool :=
  bool_decide (state_of_id s id = MoteState.Repudiated).
Definition children_of (s : State) (id : MoteId) : list (MoteId * EdgeMeta) :=
  default [] (s.(children) !! id).
Definition iter_motes (s : State) : list (MoteId * MoteState) :=
  (fun id => (id, state_of_id s id)) <$> btree_keys s.(motes).
Definition iter_motes_in_state (s : State) (st : MoteState) : list MoteId :=
  List.filter (fun id => bool_decide (state_of_id s id = st)) (btree_keys s.(motes)).
Definition count_in_state (s : State) (st : MoteState) : nat := length (iter_motes_in_state s st).

(** ** Off-DAG lookups *)
(** [Iterator::max_by]: the last of the greatest. *)
Definition max_by {A} (cmp : A -> A -> comparison) (l : list A) : option A :=
  foldl (fun acc x => match acc with
                      | None => Some x
                      | Some a => match cmp a x with Gt => Some a | _ => Some x end
                      end) None l.
Definition then_cmp (a b : comparison) : comparison := match a with Eq => b | _ => a end.
Definition latest_replan_round (s : State) : option ReplanRoundRecord :=
  max_by (fun a b => then_cmp (Z.compare a.(ReplanRoundRecord.round) b.(ReplanRoundRecord.round))
                       (Z.compare b.(ReplanRoundRecord.seq) a.(ReplanRoundRecord.seq)))
    s.(replan_rounds).
Definition rerank_rounds_of (s : State) (instance_id : bytes) : list ReRankRoundRecord :=
  List.filter (fun r => bool_decide (r.(ReRankRoundRecord.instance_id) = instance_id)) s.(rerank_rounds).
Definition timers_of (s : State) (instance_id : bytes) : list TimerRecord :=
  List.filter (fun t => bool_decide (t.(TimerRecord.instance_id) = instance_id)) s.(timers).
Definition latest_rerank_round (s : State) (rerank_mote_id : MoteId) : option ReRankRoundRecord :=
  max_by (fun a b => Z.compare a.(ReRankRoundRecord.seq) b.(ReRankRoundRecord.seq))
    (List.filter (fun r => bool_decide (r.(ReRankRoundRecord.rerank_mote_id) = rerank_mote_id))
       s.(rerank_rounds)).
Definition latest_rerank_round_by_base (s : State) (instance_id base_results_ref : bytes)
    : option ReRankRoundRecord :=
  max_by (fun a b => Z.compare a.(ReRankRoundRecord.seq) b.(ReRankRoundRecord.seq))
    (List.filter (fun r => bool_decide (r.(ReRankRoundRecord.instance_id) = instance_id)
                           && bool_decide (r.(ReRankRoundRecord.base_results_ref) = base_results_ref))
       s.(rerank_rounds)).
(** [&self.state.react_rounds[idx]] panics past the end. *)
Definition react_rounds_of (s : State) (instance_id : bytes) (step_salt : option bytes)
    : outcome (list ReactRoundRecord) unit :=
  let idxs := default [] (s.(react_index) !! instance_id ≫= (fun chains => chains !! step_salt)) in
  match mapM (fun idx => s.(react_rounds) !! idx) idxs with
  | Some rs => Ok rs
  | None => Panic
  end.
Definition react_chains (s : State) : gset (bytes * option bytes) :=
  list_to_set (concat
    ((fun x : bytes * gmap (option bytes) (list nat) =>
        (fun y : option bytes * list nat => (x.1, y.1)) <$> map_to_list x.2)
     <$> map_to_list s.(react_index))).
Definition is_react_turn_mote (s : State) (id : MoteId) : bool :=
  bool_decide (id ∈ s.(react_turn_motes)).
Definition react_tool_round (s : State) (id : MoteId) : outcome (option ReactRoundRecord) unit :=
  match s.(react_tool_round_of_turn) !! id with
  | None => Ok None
  | Some idx => match s.(react_rounds) !! idx with Some r => Ok (Some r) | None => Panic end
  end.
Definition latest_react_round (s : State) (instance_id : bytes) (step_salt : option bytes)
    : outcome (option ReactRoundRecord) unit :=
  let* rs := react_rounds_of s instance_id step_salt in
  Ok (max_by (fun a b => then_cmp (Z.compare a.(ReactRoundRecord.turn) b.(ReactRoundRecord.turn))
                           (Z.compare a.(ReactRoundRecord.seq) b.(ReactRoundRecord.seq))) rs).
Definition pending_approvals (s : State) : list ApprovalRecord :=
  List.filter (fun r => match r.(ApprovalRecord.state) with
                        | ApprovalState.Requested _ _ _ _ _ => true | _ => false end)
    (omap (fun idx => s.(approvals) !! idx) (btree_values s.(approval_index))).
Definition idempotency_class_for_tool (s : State) (tool_id_ : bytes) : option IdempotencyClassTag :=
  idempotency_class <$>
    List.find (fun cap => bool_decide (cap.(tool_id) = tool_id_))
      (omap rv_capability s.(run_resolved_versions)).

(** ** The cascade is exactly the walkable closure *)
Definition walk (ch : Children) (x y : MoteId) : Prop :=
  exists e, (y, e) ∈ default [] (ch !! x) /\ should_walk e = true.

(** The state of the search after [processed] have been dequeued. *)
Record bfs_inv (ch : Children) (root : MoteId) (processed : list MoteId)
    (visited : gset bytes) (order queue : list MoteId) : Prop := {
  bi_split : root :: order = processed ++ queue;
  bi_visited : forall x, x ∈ visited <-> x ∈ order;
  bi_nodup : NoDup order;
  bi_sound : forall x, x ∈ order -> tc (walk ch) root x;
  bi_closed : forall x y, x ∈ processed -> walk ch x y -> y ∈ order
}.

Lemma elem_of_all_children ch x y : walk ch x y -> y ∈ all_children ch.
Proof.
  intros (e & Hy & _). destruct (ch !! x) as [v|] eqn:Hv; [|by apply elem_of_nil in Hy].
  unfold all_children. apply elem_of_list_to_set, list_elem_of_In, in_concat.
  exists (v.*1). rewrite <- !list_elem_of_In. split.
  - apply list_elem_of_fmap. exists (x, v). split; [done|]. by apply elem_of_map_to_list.
  - apply list_elem_of_fmap. by exists (y, e).
Qed.

(** Scanning the children of the dequeued Mote. *)
Lemma visit_children_inv ch root P xs : forall visited order queue,
  (forall y e, (y, e) ∈ xs -> should_walk e = true -> tc (walk ch) root y) ->
  root :: order = P ++ queue -> (forall x, x ∈ visited <-> x ∈ order) -> NoDup order ->
  (forall x, x ∈ order -> tc (walk ch) root x) ->
  exists visited' order' queue',
    foldl visit_child (visited, order, queue) xs = (visited', order', queue')
    /\ root :: order' = P ++ queue' /\ (forall x, x ∈ visited' <-> x ∈ order') /\ NoDup order'
    /\ (forall x, x ∈ order' -> tc (walk ch) root x)
    /\ (forall x, x ∈ order -> x ∈ order')
    /\ (forall y e, (y, e) ∈ xs -> should_walk e = true -> y ∈ order').
Proof.
  induction xs as [|[c e] xs IH]; intros visited order queue Hxs Hsplit Hvis Hnd Hsound.
  { exists visited, order, queue. split_and!; try done. intros y e Hy. by apply elem_of_nil in Hy. }
  assert (Hxs' : forall y e, (y, e) ∈ xs -> should_walk e = true -> tc (walk ch) root y)
    by (intros; eapply Hxs; [by right|done]).
  cbn [foldl visit_child]. destruct (should_walk e) eqn:Hw; cbn [negb].
  - case_bool_decide as Hc.
    + destruct (IH visited order queue) as (v' & o' & q' & -> & H1 & H2 & H3 & H4 & H5 & H6); try done.
      exists v', o', q'. split_and!; try done. intros y e' [[= -> ->]|Hy]%elem_of_cons Hw'; [|eauto].
      apply H5, Hvis, Hc.
    + assert (c ∉ order) as Hco by by rewrite <- Hvis.
      destruct (IH ({[c]} ∪ visited) (order ++ [c]) (queue ++ [c]))
        as (v' & o' & q' & -> & H1 & H2 & H3 & H4 & H5 & H6); try done.
      * by rewrite app_assoc, <- Hsplit.
      * intros x. rewrite elem_of_union, elem_of_app, elem_of_singleton, list_elem_of_singleton, Hvis. tauto.
      * apply NoDup_app. split_and!; [done| |apply NoDup_singleton]. intros x Hx ->%list_elem_of_singleton. done.
      * intros x [Hx| ->%list_elem_of_singleton]%elem_of_app; [auto|]. eapply Hxs; [by left|done].
      * exists v', o', q'. split_and!; try done.
        -- intros x Hx. apply H5, elem_of_app. by left.
        -- intros y e' [[= -> ->]|Hy]%elem_of_cons Hw'; [|eauto]. apply H5, elem_of_app. right. by left.
  - destruct (IH visited order queue) as (v' & o' & q' & -> & H1 & H2 & H3 & H4 & H5 & H6); try done.
    exists v', o', q'. split_and!; try done.
    intros y e' [[= -> ->]|Hy]%elem_of_cons Hw'; [congruence|eauto].
Qed.

Lemma tc_all_children ch x y : tc (walk ch) x y -> y ∈ all_children ch.
Proof. induction 1; [by eapply elem_of_all_children|done]. Qed.

Lemma closed_contains_tc ch root (order : list MoteId) :
  (forall x y, x ∈ root :: order -> walk ch x y -> y ∈ order) ->
  forall x, tc (walk ch) root x -> x ∈ order.
Proof.
  intros Hcl. cut (forall x y, tc (walk ch) x y -> x ∈ root :: order -> y ∈ order).
  { intros H x Hx. eapply H; [done|by left]. }
  induction 1 as [x y Hxy|x y z Hxy _ IH]; intros Hx; [by eapply Hcl|].
  apply IH. right. by eapply Hcl.
Qed.

(** With one unit of fuel per possible child and one for the root, the search
    ends, and it ends with the closure. *)
Lemma bfs_correct ch root : forall fuel processed visited order queue,
  bfs_inv ch root processed visited order queue ->
  (S (size (all_children ch)) <= fuel + length processed)%nat ->
  exists result, bfs fuel ch visited order queue = Some result /\ NoDup result
    /\ forall x, x ∈ result <-> tc (walk ch) root x.
Proof.
  intros fuel. induction fuel as [|fuel IH]; intros processed visited order [|current queue] [H1 H2 H3 H4 H5] Hfuel.
  1, 3: exists order; split_and!; try done; intros x; split; [apply H4|];
    rewrite app_nil_r in H1; subst processed; by apply closed_contains_tc.
  - exfalso. assert (length order <= size (all_children ch))%nat.
    { rewrite <- (size_list_to_set (C := gset bytes) order) by done. apply subseteq_size.
      intros x Hx%elem_of_list_to_set. by eapply tc_all_children, H4. }
    apply (f_equal length) in H1. rewrite length_app in H1. cbn in H1, Hfuel. lia.
  - cbn [bfs].
    assert (Hreach : forall y, walk ch current y -> tc (walk ch) root y).
    { intros y Hy. assert (current ∈ root :: order) as [->|Hin]%elem_of_cons.
      - rewrite H1. apply elem_of_app. right. by left.
      - by apply tc_once.
      - eapply tc_r; [by apply H4|done]. }
    destruct (visit_children_inv ch root (processed ++ [current]) (default [] (ch !! current))
                visited order queue) as (v' & o' & q' & -> & G1 & G2 & G3 & G4 & G5 & G6); try done.
    { intros y e Hy Hw. apply Hreach. by exists e. }
    { by rewrite <- app_assoc. }
    apply (IH (processed ++ [current])).
    + split; try done. intros x y [Hx| ->%list_elem_of_singleton]%elem_of_app Hxy.
      * apply G5. by eapply H5.
      * destruct Hxy as (e & He & Hw). by eapply G6.
    + rewrite length_app. cbn. lia.
Qed.

Lemma bfs_start ch root : bfs_inv ch root [] ∅ [] [root].
Proof.
  split; try done; [set_solver|constructor|..]; intros x; set_solver.
Qed.

(** A walkable edge of the index is a declared (or committed) parent edge. *)
Lemma walk_parents s x y :
  index_ok s -> walk s.(children) x y <-> exists e, (x, e) ∈ parents_of_id s y /\ should_walk e = true.
Proof.
  intros [_ _ He]. specialize (He x y). split.
  - intros (e & Hin & Hw). exists e. split; [|done].
    assert ((y, e) ∈ List.filter (of_child y) (default [] (children s !! x))) as Hf.
    { apply list_elem_of_In, filter_In. rewrite <- list_elem_of_In. split; [done|].
      by apply bool_decide_eq_true. }
    rewrite He in Hf. unfold edges_to in Hf. apply list_elem_of_fmap in Hf as ([p e'] & [= ->] & Hf).
    apply list_elem_of_In, filter_In in Hf as [Hf Hp%bool_decide_eq_true]. cbn in Hp. subst p.
    by apply list_elem_of_In.
  - intros (e & Hin & Hw). exists e. split; [|done].
    assert ((y, e) ∈ edges_to (parents_of_id s y) y x) as Hf.
    { unfold edges_to. apply list_elem_of_fmap. exists (x, e). split; [done|].
      apply list_elem_of_In, filter_In. rewrite <- list_elem_of_In. split; [done|].
      by apply bool_decide_eq_true. }
    rewrite <- He in Hf. by apply elem_of_filter_child in Hf.
Qed.

Lemma consumers_of_index s root :
  index_ok s ->
  exists result, transitive_consumers_impl s root = Some result /\ NoDup result
    /\ forall x, x ∈ result <->
         tc (fun p c => exists e, (p, e) ∈ parents_of_id s c /\ should_walk e = true) root x.
Proof.
  intros Hi.
  destruct (bfs_correct (children s) root (S (size (all_children (children s)))) [] ∅ [] [root])
    as (result & Hr & Hnd & Hx); [apply bfs_start|cbn; lia|].
  exists result. split_and!; [done|done|]. intros x. rewrite Hx.
  split; (apply (tc_congruence id); intros a b; by rewrite walk_parents).
Qed.

(** [C8] The poison cascade: from any reachable state the breadth-first walk
    terminates and returns, without repetition, exactly the Motes that depend on
    the root through one or more effective parent edges that cascade (Data, or
    Control without the non-cascade flag). *)
Theorem transitive_consumers_correct materializer s root :
  rtc (proj_step materializer) State_default s ->
  exists result, transitive_consumers_impl s root = Some result /\ NoDup result
    /\ forall x, x ∈ result <->
         tc (fun p c => exists e, (p, e) ∈ parents_of_id s c /\ should_walk e = true) root x.
Proof. intros Hs. by eapply consumers_of_index, index_ok_reachable. Qed.

(** ** The ready set, memo removed *)
Section ReadySpec.
Context (s : State) (promotion : State -> MoteId -> PromotionState).

Definition parent_ok (critic_for : option MoteId) (p : ParentRef) : bool :=
  bool_decide (state_of_id s p.(parent_id) = MoteState.Committed)
  && (bool_decide (critic_for = Some p.(parent_id))
      || negb (bool_decide (nondeterminism_of s p.(parent_id) = Some WorldMutating))
      || negb (bool_decide (promotion s p.(parent_id) = PromotionState.Unpromoted))).
Definition is_ready (x : MoteId * MoteInfo) : bool :=
  bool_decide (state_of_id s x.1 = MoteState.Pending)
  && match x.2.(declared) with
     | Some d => forallb (parent_ok d.(DeclaredInfo.critic_for)) d.(DeclaredInfo.parents)
     | None => false
     end.
Definition memo_ok (memo : Memo) : Prop := forall p v, memo !! p = Some v -> v = promotion s p.

Lemma memo_promotion_ok memo p :
  memo_ok memo -> (memo_promotion s promotion memo p).1 = promotion s p
                  /\ memo_ok (memo_promotion s promotion memo p).2.
Proof.
  intros Hm. unfold memo_promotion. destruct (memo !! p) as [v|] eqn:E; cbn [fst snd].
  - split; [by apply Hm|done].
  - split; [done|]. intros q v Hq. destruct (decide (q = p)) as [->|Hne].
    + rewrite lookup_insert_eq in Hq. by injection Hq as <-.
    + rewrite lookup_insert_ne in Hq by done. by apply Hm.
Qed.
Lemma check_parents_ok critic_for ps memo :
  memo_ok memo ->
  exists a b memo', check_parents s promotion critic_for ps memo = (a, b, memo')
    /\ a && b = forallb (parent_ok critic_for) ps /\ memo_ok memo'.
Proof.
  revert memo. induction ps as [|p ps IH]; intros memo Hm; cbn [check_parents forallb]; [by eexists _, _, _|].
  unfold parent_ok at 1, nondeterminism_of. case_bool_decide as Hc; cbn [negb andb]; [|by eexists _, _, _].
  case_bool_decide as Hf; cbn [orb]; [by apply IH|].
  destruct (motes s !! parent_id p) as [pinfo|]; cbn [mbind option_bind]; [|by apply IH].
  destruct (committed pinfo) as [c|]; cbn [fmap option_fmap option_map]; [|by apply IH].
  case_bool_decide as Hw.
  - rewrite Hw, bool_decide_true by done. cbn [negb orb].
    destruct (memo_promotion_ok memo (parent_id p) Hm) as [Hv Hm'].
    destruct (memo_promotion s promotion memo (parent_id p)) as [promo memo']. cbn [fst snd] in *. subst promo.
    destruct (promotion s (parent_id p)) eqn:Hp; [|by eexists _, _, _|].
    all: rewrite bool_decide_false by done; by apply IH.
  - rewrite bool_decide_false by congruence. by apply IH.
Qed.
Lemma ready_steps l out memo :
  memo_ok memo -> (foldl (ready_step s promotion) (out, memo) l).1 = out ++ (List.filter is_ready l).*1.
Proof.
  revert out memo. induction l as [|[id info] l IH]; intros out memo Hm; cbn [foldl List.filter].
  { by rewrite app_nil_r. }
  unfold is_ready at 1. cbn [fst snd ready_step].
  case_bool_decide as Hp; cbn [negb andb]; [|by apply IH].
  destruct (declared info) as [d|]; [|by apply IH].
  destruct (check_parents_ok (DeclaredInfo.critic_for d) (DeclaredInfo.parents d) memo Hm)
    as (a & b & memo' & -> & -> & Hm').
  rewrite IH by done. destruct (forallb _ _); [by rewrite <- app_assoc|done].
Qed.
(** The memoised loop is the plain filter of the Motes in key order. *)
Lemma ready_set_filter : ready_set_impl_with s promotion = (List.filter is_ready (btree_iter s.(motes))).*1.
Proof. unfold ready_set_impl_with. by rewrite ready_steps by (intros p v; by rewrite lookup_empty). Qed.
Lemma elem_of_ready_set id :
  id ∈ ready_set_impl_with s promotion <->
  exists info d, s.(motes) !! id = Some info /\ info.(declared) = Some d
    /\ state_of_id s id = MoteState.Pending
    /\ forall p, p ∈ d.(DeclaredInfo.parents) ->
         state_of_id s p.(parent_id) = MoteState.Committed
         /\ (d.(DeclaredInfo.critic_for) <> Some p.(parent_id) ->
             nondeterminism_of s p.(parent_id) = Some WorldMutating ->
             promotion s p.(parent_id) <> PromotionState.Unpromoted).
Proof.
  rewrite ready_set_filter, list_elem_of_fmap. split.
  - intros ([id' info] & -> & Hin). apply list_elem_of_In, filter_In in Hin as [Hin Hr].
    rewrite <- list_elem_of_In, elem_of_btree_iter in Hin. unfold is_ready in Hr. cbn [fst snd] in Hr.
    apply andb_true_iff in Hr as [Hp%bool_decide_eq_true Hr].
    destruct (declared info) as [d|] eqn:Hd; [|done]. exists info, d. split_and!; try done.
    rewrite forallb_forall in Hr. intros p Hpp%list_elem_of_In. specialize (Hr p Hpp). unfold parent_ok in Hr.
    apply andb_true_iff in Hr as [Hc%bool_decide_eq_true Hr]. split; [done|]. intros Hne Hw.
    rewrite (bool_decide_false _ Hne), (bool_decide_true _ Hw) in Hr. cbn in Hr.
    by apply negb_true_iff, bool_decide_eq_false in Hr.
  - intros (info & d & Hm & Hd & Hp & Hps). exists (id, info). split; [done|].
    apply list_elem_of_In, filter_In. rewrite <- list_elem_of_In, elem_of_btree_iter. split; [done|].
    unfold is_ready. cbn [fst snd]. rewrite bool_decide_true, Hd by done. cbn [andb].
    apply forallb_forall. intros p Hpp%list_elem_of_In. destruct (Hps p Hpp) as [Hc Hg]. unfold parent_ok.
    rewrite bool_decide_true by done. cbn [andb].
    case_bool_decide as E1; [done|]. case_bool_decide as E2; [|done]. cbn [orb negb].
    by rewrite bool_decide_false by auto.
Qed.
End ReadySpec.

(** ** Promotion *)
Lemma promotion_foldl producer lookup l saw valid :
  foldl (fun '(saw, valid) info =>
           if is_critic_of producer info then (true, valid && critic_passes lookup info) else (saw, valid))
    (saw, valid) l
  = (saw || existsb (is_critic_of producer) l,
     valid && forallb (fun i => negb (is_critic_of producer i) || critic_passes lookup i) l).
Proof.
  revert saw valid. induction l as [|i l IH]; intros saw valid; cbn [foldl existsb forallb].
  { by rewrite orb_false_r, andb_true_r. }
  destruct (is_critic_of producer i); cbn [negb orb]; rewrite IH; f_equal.
  - by rewrite orb_true_r.
  - by rewrite andb_assoc.
Qed.
Lemma elem_of_btree_values {V} (m : gmap bytes V) v : v ∈ btree_values m <-> exists k, m !! k = Some v.
Proof.
  unfold btree_values. rewrite list_elem_of_fmap. split.
  - intros ([k v'] & -> & H). apply elem_of_btree_iter in H. eauto.
  - intros [k H]. exists (k, v). split; [done|]. by apply elem_of_btree_iter.
Qed.
Lemma promotion_cases s producer lookup :
  match promotion_state_with s producer lookup with
  | PromotionState.NotApplicable =>
      forall id info, s.(motes) !! id = Some info -> is_critic_of producer info = false
  | PromotionState.Promoted =>
      (exists id info, s.(motes) !! id = Some info /\ is_critic_of producer info = true)
      /\ forall id info, s.(motes) !! id = Some info -> is_critic_of producer info = true ->
           critic_passes lookup info = true
  | PromotionState.Unpromoted =>
      exists id info, s.(motes) !! id = Some info /\ is_critic_of producer info = true
        /\ critic_passes lookup info = false
  end.
Proof.
  unfold promotion_state_with. rewrite promotion_foldl. cbn [orb andb].
  destruct (existsb _ _) eqn:He; cbn [negb].
  - apply existsb_exists in He as (i & Hi & Hc). apply list_elem_of_In, elem_of_btree_values in Hi as [id Hid].
    destruct (forallb _ _) eqn:Hf.
    + split; [eauto|]. intros id' info Hm Hcr. rewrite forallb_forall in Hf.
      assert (info ∈ btree_values (motes s)) as Hin%list_elem_of_In by (apply elem_of_btree_values; eauto).
      specialize (Hf info Hin). by rewrite Hcr in Hf.
    + apply not_true_iff_false in Hf. rewrite forallb_forall in Hf.
      destruct (existsb (fun i => is_critic_of producer i && negb (critic_passes lookup i)) (btree_values (motes s))) eqn:Hx.
      * apply existsb_exists in Hx as (j & Hj & [Hj1 Hj2%negb_true_iff]%andb_true_iff).
        apply list_elem_of_In, elem_of_btree_values in Hj as [idj Hidj]. eauto 10.
      * exfalso. apply Hf. intros j Hj. apply not_true_iff_false in Hx. rewrite existsb_exists in Hx.
        destruct (is_critic_of producer j) eqn:E1; [|done]. cbn. destruct (critic_passes lookup j) eqn:E2; [done|].
        exfalso. apply Hx. exists j. by rewrite E1, E2.
  - intros id info Hm. apply not_true_is_false. intros Hc. apply not_true_iff_false in He. apply He.
    apply existsb_exists. exists info. split; [|done]. apply list_elem_of_In, elem_of_btree_values. eauto.
Qed.
Lemma has_declared_critic_of s id info producer :
  s.(motes) !! id = Some info -> is_critic_of producer info = true -> has_declared_critic s = true.
Proof.
  intros Hm Hc. unfold has_declared_critic. apply existsb_exists. exists info. split.
  - apply list_elem_of_In, elem_of_btree_values. eauto.
  - unfold is_critic_of in Hc. destruct (declared info) as [d|]; [|done].
    apply bool_decide_eq_true in Hc. rewrite Hc. by apply bool_decide_eq_true.
Qed.

Lemma is_critic_of_spec producer info :
  is_critic_of producer info = true <->
  exists d, info.(declared) = Some d /\ d.(DeclaredInfo.critic_for) = Some producer.
Proof.
  unfold is_critic_of. destruct (declared info) as [d|]; [|naive_solver].
  rewrite bool_decide_eq_true. naive_solver.
Qed.
Lemma critic_passes_spec lookup info :
  critic_passes lookup info = true <->
  exists c v, info.(committed) = Some c /\ c.(CommittedInfo.repudiated) = false
    /\ lookup c.(CommittedInfo.result_ref) = Some v /\ is_valid v = true.
Proof.
  unfold critic_passes. destruct (committed info) as [c|]; [|naive_solver].
  destruct (CommittedInfo.repudiated c) eqn:Hr; [naive_solver|].
  destruct (lookup (CommittedInfo.result_ref c)) as [v|] eqn:Hl; naive_solver.
Qed.

Lemma not_unpromoted_iff s producer lookup :
  promotion_state_with s producer lookup <> PromotionState.Unpromoted <->
  forall cid cinfo cd, s.(motes) !! cid = Some cinfo -> cinfo.(declared) = Some cd ->
    cd.(DeclaredInfo.critic_for) = Some producer ->
    exists c v, cinfo.(committed) = Some c /\ c.(CommittedInfo.repudiated) = false
      /\ lookup c.(CommittedInfo.result_ref) = Some v /\ is_valid v = true.
Proof.
  pose proof (promotion_cases s producer lookup) as Hc.
  destruct (promotion_state_with s producer lookup).
  - split; [|done]. intros _ cid cinfo cd Hm Hd Hf. specialize (Hc cid cinfo Hm).
    apply not_true_iff_false in Hc. exfalso. apply Hc, is_critic_of_spec. by exists cd.
  - split; [done|]. intros Hall. destruct Hc as (i & info & Hm & Hcr & Hf).
    apply is_critic_of_spec in Hcr as (cd & Hd & Hcf).
    apply not_true_iff_false in Hf. exfalso. by apply Hf, critic_passes_spec, (Hall i info cd).
  - destruct Hc as [_ Hc]. split; [|done]. intros _ cid cinfo cd Hm Hd Hcf.
    apply critic_passes_spec, (Hc cid cinfo Hm), is_critic_of_spec. by exists cd.
Qed.

(** [C7] Dispatch gate: a Mote is in the automatic ready set exactly when it is
    declared, Pending, every declared parent is Committed, and every
    world-mutating parent that it is not itself the critic of has each of its
    declared critics committed, not repudiated, with a valid verdict; with no
    verdict source at hand, no such critic counts as having passed. *)
Theorem ready_set_auto_gated s verdicts id :
  id ∈ ready_set_auto s verdicts <->
  exists info d, s.(motes) !! id = Some info /\ info.(declared) = Some d
    /\ state_of_id s id = MoteState.Pending
    /\ forall p, p ∈ d.(DeclaredInfo.parents) ->
         state_of_id s p.(parent_id) = MoteState.Committed
         /\ (d.(DeclaredInfo.critic_for) <> Some p.(parent_id) ->
             nondeterminism_of s p.(parent_id) = Some WorldMutating ->
             forall cid cinfo cd, s.(motes) !! cid = Some cinfo -> cinfo.(declared) = Some cd ->
               cd.(DeclaredInfo.critic_for) = Some p.(parent_id) ->
               exists c v, cinfo.(committed) = Some c /\ c.(CommittedInfo.repudiated) = false
                 /\ default NoVerdicts verdicts c.(CommittedInfo.result_ref) = Some v
                 /\ is_valid v = true).
Proof.
  assert (Heq : forall producer lookup,
    promotion_state_with s producer lookup <> PromotionState.Unpromoted <->
    forall cid cinfo cd, s.(motes) !! cid = Some cinfo -> cinfo.(declared) = Some cd ->
      cd.(DeclaredInfo.critic_for) = Some producer ->
      exists c v, cinfo.(committed) = Some c /\ c.(CommittedInfo.repudiated) = false
        /\ lookup c.(CommittedInfo.result_ref) = Some v /\ is_valid v = true)
    by apply not_unpromoted_iff.
  unfold ready_set_auto. destruct (has_declared_critic s) eqn:Hd; cbn [negb].
  - replace (id ∈ match verdicts with Some v => ready_set_promoted s v | None => ready_set_promoted s NoVerdicts end)
      with (id ∈ ready_set_promoted s (default NoVerdicts verdicts)) by by destruct verdicts.
    unfold ready_set_promoted. rewrite elem_of_ready_set. by setoid_rewrite Heq.
  - unfold ready_set_impl. rewrite elem_of_ready_set. unfold promotion_state_impl.
    split; intros (info & d & Hm & Hdd & Hp & Hps); exists info, d; split_and!; try done;
      intros p Hpp; destruct (Hps p Hpp) as [Hc Hg]; (split; [done|]); [|done].
    intros _ _ cid cinfo cd Hcm Hcd Hcf. exfalso.
    rewrite (has_declared_critic_of s cid cinfo (parent_id p) Hcm) in Hd; [done|].
    apply is_critic_of_spec. by exists cd.
Qed.

(** ** The derived indices answer like a scan *)
Definition on_chain (inst : bytes) (salt : option bytes) (r : ReactRoundRecord) : bool :=
  bool_decide (r.(ReactRoundRecord.instance_id) = inst) && bool_decide (r.(ReactRoundRecord.step_salt) = salt).
Definition is_tool_turn (id : MoteId) (r : ReactRoundRecord) : bool :=
  bool_decide (r.(ReactRoundRecord.turn_mote_id) = id)
  && match r.(ReactRoundRecord.branch) with
     | ReactBranch.Tool _ _ | ReactBranch.ToolBatch _ => true | _ => false end.
Definition for_request (rid : bytes) (a : ApprovalRecord) : bool :=
  bool_decide (a.(ApprovalRecord.request_id) = rid).

Record indices_ok (s : State) : Prop := {
  io_chain : forall inst salt,
    Forall2 (fun i r => s.(react_rounds) !! i = Some r)
      (default [] (s.(react_index) !! inst ≫= (fun chains => chains !! salt)))
      (List.filter (on_chain inst salt) s.(react_rounds));
  io_turns : forall id, id ∈ s.(react_turn_motes) <->
    exists r, r ∈ s.(react_rounds) /\ r.(ReactRoundRecord.turn_mote_id) = id;
  io_tool : forall id,
    (s.(react_tool_round_of_turn) !! id = None /\ List.filter (is_tool_turn id) s.(react_rounds) = [])
    \/ exists i r, s.(react_tool_round_of_turn) !! id = Some i /\ s.(react_rounds) !! i = Some r
       /\ last (List.filter (is_tool_turn id) s.(react_rounds)) = Some r;
  io_approval : forall rid,
    approval_latest_for s rid = last (List.filter (for_request rid) s.(approvals));
  io_bound : forall rid i, s.(approval_index) !! rid = Some i -> (i < length s.(approvals))%nat
}.
(** The fields the indices are about. *)
Definition same_offdag (s s' : State) : Prop :=
  react_rounds s' = react_rounds s /\ react_index s' = react_index s
  /\ react_turn_motes s' = react_turn_motes s
  /\ react_tool_round_of_turn s' = react_tool_round_of_turn s
  /\ approvals s' = approvals s /\ approval_index s' = approval_index s.
Lemma indices_ok_same s s' : same_offdag s s' -> indices_ok s -> indices_ok s'.
Proof.
  intros (E1 & E2 & E3 & E4 & E5 & E6) [H1 H2 H3 H4 H5].
  split; unfold approval_latest_for in *; rewrite ?E1, ?E2, ?E3, ?E4, ?E5, ?E6; done.
Qed.

Lemma filter_snoc {A} (p : A -> bool) l x :
  List.filter p (l ++ [x]) = List.filter p l ++ (if p x then [x] else []).
Proof. by rewrite List.filter_app. Qed.
Lemma lookup_snoc {A} (l : list A) x : (l ++ [x]) !! length l = Some x.
Proof. by rewrite lookup_app_r, Nat.sub_diag by lia. Qed.

Lemma indices_ok_react r s :
  indices_ok s ->
  indices_ok (index_last_react_round
    (with_react (s.(react_rounds) ++ [r]) s.(react_index) s.(react_turn_motes)
       s.(react_tool_round_of_turn) s)).
Proof.
  intros [H1 H2 H3 H4 H5]. unfold index_last_react_round. cbn [react_rounds with_react].
  rewrite last_snoc, length_app. replace (length (react_rounds s) + length [r] - 1)%nat
    with (length (react_rounds s)) by (cbn; lia).
  split; cbn [react_rounds react_index react_turn_motes react_tool_round_of_turn with_react].
  - intros inst salt. rewrite filter_snoc.
    assert (Hold : Forall2 (fun i x => (react_rounds s ++ [r]) !! i = Some x)
      (default [] (react_index s !! inst ≫= (fun chains => chains !! salt)))
      (List.filter (on_chain inst salt) (react_rounds s))).
    { eapply Forall2_impl; [apply H1|]. intros i x Hi. by apply lookup_app_l_Some. }
    unfold on_chain at 2. destruct (decide (ReactRoundRecord.instance_id r = inst)) as [<-|Hi].
    + rewrite lookup_insert_eq, (bool_decide_true (_ = _)) by done. cbn [mbind option_bind andb].
      destruct (decide (ReactRoundRecord.step_salt r = salt)) as [<-|Hs].
      * rewrite lookup_insert_eq, bool_decide_true by done. cbn [default from_option id].
        apply Forall2_app; [|constructor; [apply lookup_snoc|constructor]].
        by destruct (react_index s !! ReactRoundRecord.instance_id r).
      * rewrite lookup_insert_ne, bool_decide_false, app_nil_r by done.
        by destruct (react_index s !! ReactRoundRecord.instance_id r).
    + rewrite lookup_insert_ne, (bool_decide_false (_ = inst)), app_nil_r by done. exact Hold.
  - intros id. rewrite elem_of_union, elem_of_singleton, H2. split.
    + intros [->|(x & Hx & Ex)].
      * exists r. split; [|done]. apply elem_of_app. right. by left.
      * exists x. split; [|done]. apply elem_of_app. by left.
    + intros (x & [Hx|Hx]%elem_of_app & Ex); [right; eauto|].
      apply list_elem_of_singleton in Hx as ->. by left.
  - intros id. rewrite filter_snoc.
    assert (Hcase : is_tool_turn id r = false ->
      (react_tool_round_of_turn s !! id = None
         /\ List.filter (is_tool_turn id) (react_rounds s) ++ [] = [])
      \/ exists i x, react_tool_round_of_turn s !! id = Some i
         /\ (react_rounds s ++ [r]) !! i = Some x
         /\ last (List.filter (is_tool_turn id) (react_rounds s) ++ []) = Some x).
    { intros _. rewrite app_nil_r. destruct (H3 id) as [?|(i & x & Hi & Hx & Hl)]; [by left|right].
      exists i, x. split_and!; [done| |done]. by apply lookup_app_l_Some. }
    assert (Hnew : forall m : gmap bytes nat, id = ReactRoundRecord.turn_mote_id r -> is_tool_turn id r = true ->
      exists i x, <[ReactRoundRecord.turn_mote_id r := length (react_rounds s)]> m !! id = Some i
         /\ (react_rounds s ++ [r]) !! i = Some x
         /\ last (List.filter (is_tool_turn id) (react_rounds s) ++ [r]) = Some x).
    { intros m -> _. exists (length (react_rounds s)), r.
      by rewrite lookup_insert_eq, lookup_snoc, last_snoc. }
    destruct (is_tool_turn id r) eqn:Ht.
    + right. unfold is_tool_turn in Ht. apply andb_true_iff in Ht as [Hid%bool_decide_eq_true Hb].
      destruct (ReactRoundRecord.branch r); try done; by apply Hnew.
    + destruct (decide (ReactRoundRecord.turn_mote_id r = id)) as [Hid|Hid].
      * unfold is_tool_turn in Ht. rewrite bool_decide_true in Ht by done.
        destruct (ReactRoundRecord.branch r); try done; by apply Hcase.
      * destruct (ReactRoundRecord.branch r); rewrite ?lookup_insert_ne by done; by apply Hcase.
  - exact H4.
  - exact H5.
Qed.
Lemma indices_ok_approval a s :
  indices_ok s ->
  indices_ok (index_last_approval (with_approvals (s.(approvals) ++ [a]) s.(approval_index) s)).
Proof.
  intros [H1 H2 H3 H4 H5]. unfold index_last_approval. cbn [approvals with_approvals].
  rewrite last_snoc, length_app. replace (length (approvals s) + length [a] - 1)%nat
    with (length (approvals s)) by (cbn; lia).
  split; [done..| |].
  - intros rid. specialize (H4 rid). unfold approval_latest_for in *.
    cbn [approvals approval_index with_approvals]. rewrite filter_snoc. unfold for_request at 2.
    destruct (decide (ApprovalRecord.request_id a = rid)) as [<-|Hne].
    + rewrite lookup_insert_eq, bool_decide_true by done. by rewrite lookup_snoc, last_snoc.
    + rewrite lookup_insert_ne, bool_decide_false, app_nil_r by done. rewrite <- H4.
      destruct (approval_index s !! rid) as [i|] eqn:Hi; [|done].
      apply lookup_app_l. by eapply H5.
  - intros rid i. cbn [approvals approval_index with_approvals]. rewrite length_app. cbn [length].
    intros [[? <-]|[? Hi]]%lookup_insert_Some; [lia|]. specialize (H5 _ _ Hi). lia.
Qed.
Lemma indices_ok_default : indices_ok State_default.
Proof.
  split; cbn.
  - intros inst salt. by rewrite lookup_empty.
  - intros id. split; [set_solver|]. intros (r & Hr & _). by apply elem_of_nil in Hr.
  - intros id. left. by rewrite lookup_empty.
  - intros rid. unfold approval_latest_for. cbn. by rewrite lookup_empty.
  - intros rid i. by rewrite lookup_empty.
Qed.
Lemma same_offdag_refl s : same_offdag s s.
Proof. by split_and!. Qed.
Lemma same_offdag_registers regs s :
  same_offdag s (foldl (fun s reg => register_mote reg s) s regs).
Proof.
  revert s. induction regs as [|reg regs IH]; intros s; [apply same_offdag_refl|].
  exact (IH (register_mote reg s)).
Qed.
(** An invariant of the off-DAG fields holds in every reachable state when
    appending a round or an approval keeps it. *)
Section OffDag.
Context (materializer : option Materializer) (P : State -> Prop).
Context (P_same : forall s s', same_offdag s s' -> P s -> P s').
Context (P_react : forall r s, P s -> P (index_last_react_round
  (with_react (s.(react_rounds) ++ [r]) s.(react_index) s.(react_turn_motes)
     s.(react_tool_round_of_turn) s))).
Context (P_approval : forall a s, P s ->
  P (index_last_approval (with_approvals (s.(approvals) ++ [a]) s.(approval_index) s))).
Lemma offdag_step s s' : proj_step materializer s s' -> P s -> P s'.
Proof.
  intros [e s0|reg s0] Hok; [|by apply (P_same s0)].
  destruct e; cbn [fold fst]; try (apply (P_same s0); [by split_and!|done]).
  - unfold fold_committed. case_bool_decide; [by apply (P_same s0)|].
    repeat case_match; simplify_eq; cbn [fst] in *; simplify_eq; try by apply (P_same s0).
    eapply P_same; [apply same_offdag_registers|]. by apply (P_same s0).
  - eapply P_same; [|apply P_react, Hok]. by split_and!.
  - eapply P_same; [|apply P_approval, Hok]. by split_and!.
Qed.
Lemma offdag_reachable s : P State_default -> rtc (proj_step materializer) State_default s -> P s.
Proof.
  intros H0 Hs. cut (forall s0, rtc (proj_step materializer) s0 s -> P s0 -> P s); [eauto|].
  clear - P_same P_react P_approval. induction 1; eauto using offdag_step.
Qed.
End OffDag.
Lemma indices_ok_reachable materializer s :
  rtc (proj_step materializer) State_default s -> indices_ok s.
Proof.
  apply offdag_reachable; auto using indices_ok_default, indices_ok_react, indices_ok_approval.
  apply indices_ok_same.
Qed.
Lemma react_rounds_of_scan s inst salt :
  indices_ok s -> react_rounds_of s inst salt = Ok (List.filter (on_chain inst salt) s.(react_rounds)).
Proof.
  intros [H1 _ _ _ _]. unfold react_rounds_of.
  by rewrite (proj2 (mapM_Some (fun idx => react_rounds s !! idx) _ _) (H1 inst salt)).
Qed.

(** The off-DAG indices are caches: in every reachable state the indexed
    queries never index out of range and answer what a scan of the recorded
    rounds and approvals answers: a chain's rounds in journal order, the motes
    that are turns, the last tool round of a turn, the latest approval of a
    request. *)
Theorem derived_indices_are_scans materializer s :
  rtc (proj_step materializer) State_default s ->
  (forall inst salt,
     react_rounds_of s inst salt = Ok (List.filter (on_chain inst salt) s.(react_rounds)))
  /\ (forall id, is_react_turn_mote s id
        = existsb (fun r => bool_decide (r.(ReactRoundRecord.turn_mote_id) = id)) s.(react_rounds))
  /\ (forall id, react_tool_round s id = Ok (last (List.filter (is_tool_turn id) s.(react_rounds))))
  /\ (forall rid, approval_latest_for s rid = last (List.filter (for_request rid) s.(approvals))).
Proof.
  intros Hok%indices_ok_reachable. split_and!.
  - intros inst salt. by apply react_rounds_of_scan.
  - intros id. apply eq_true_iff_eq. unfold is_react_turn_mote.
    rewrite bool_decide_eq_true, (io_turns s Hok id), existsb_exists. split.
    + intros (r & Hr & E). exists r. split; [by apply list_elem_of_In|by apply bool_decide_eq_true].
    + intros (r & Hr & E). exists r. split; [by apply list_elem_of_In|by apply bool_decide_eq_true in E].
  - intros id. unfold react_tool_round.
    destruct (io_tool s Hok id) as [[-> ->]|(i & r & -> & -> & ->)]; done.
  - apply (io_approval s Hok).
Qed.

(** ** Concrete histories *)
Definition demo_react (turn : Z) : JournalEntry :=
  JournalEntry.ReactRound turn [1] [2] [3] [4] [] (ReactBranch.Tool [5] [6]) 4 4 None false None None
    false turn.
Definition demo_rounds : State :=
  (fold None (demo_react 2) (fold None (demo_react 1) State_default).1).1.
Lemma demo_rounds_reachable : rtc (proj_step None) State_default demo_rounds.
Proof.
  eapply rtc_l; [apply (step_fold None (demo_react 1))|].
  eapply rtc_l; [apply (step_fold None (demo_react 2))|]. apply rtc_refl.
Qed.
Lemma derived_indices_are_scans_witness :
  react_rounds_of demo_rounds [2] None = Ok (react_rounds demo_rounds)
  /\ length (react_rounds demo_rounds) = 2%nat.
Proof.
  destruct (derived_indices_are_scans None demo_rounds) as (H & _); [apply demo_rounds_reachable|].
  split; [|by vm_compute]. rewrite H. by vm_compute.
Defined.
Lemma transitive_consumers_correct_witness :
  exists result, transitive_consumers_impl demo_dag [1] = Some result /\ [2] ∈ result /\ [3] ∉ result.
Proof.
  destruct (transitive_consumers_correct None demo_dag [1] demo_dag_reachable)
    as (result & Hr & _ & Hx).
  exists result. split; [done|]. split.
  - apply Hx, tc_once. exists EdgeMeta_data. split; [|done]. by vm_compute; left.
  - vm_compute in Hr. injection Hr as <-. intros H.
    apply list_elem_of_singleton in H. done.
Defined.
