(* ===== verification/Tiering.v ===== *)
(** kx-tiering (candidate.rs, policy.rs, pass.rs): under memory pressure, drop
    the payloads that only PURE commits refer to, oldest commit first. *)
From S2P Require Import Prelude Utf8 Mote Entry Journal Content ProjState ProjFold ProjHistory ProjQuery.

(** ** Candidates *)
Module EvictionCandidate.
Record EvictionCandidate := { result_ref : ContentRef; min_seq : Z }.
End EvictionCandidate.
Abbreviation EvictionCandidate := EvictionCandidate.EvictionCandidate.
Record RefTally := { all_pure : bool; tally_seq : Z }.

(** [refs.entry(r).and_modify(..).or_insert(..)] *)
Definition tally (refs : gmap bytes RefTally) (r : ContentRef) (is_pure : bool) (seq : Z)
    : gmap bytes RefTally :=
  <[r := match refs !! r with
         | Some t => {| all_pure := t.(all_pure) && is_pure; tally_seq := Z.min t.(tally_seq) seq |}
         | None => {| all_pure := is_pure; tally_seq := seq |}
         end]> refs.
Definition U64_MAX : Z := 2 ^ 64 - 1.
Definition tally_mote (s : State) (refs : gmap bytes RefTally) (x : MoteId * MoteState)
    : gmap bytes RefTally :=
  let '(mote_id, st) := x in
  if negb (bool_decide (st = MoteState.Committed)) then refs
  else match result_ref_of s mote_id, nondeterminism_of s mote_id with
       | Some result_ref, Some nd =>
           tally refs result_ref (bool_decide (nd = Pure)) (default U64_MAX (committed_seq_of s mote_id))
       | _, _ => refs
       end.
Definition candidate_le (a b : EvictionCandidate) : bool :=
  (a.(EvictionCandidate.min_seq) <? b.(EvictionCandidate.min_seq))
  || (a.(EvictionCandidate.min_seq) =? b.(EvictionCandidate.min_seq))
     && bytes_le a.(EvictionCandidate.result_ref) b.(EvictionCandidate.result_ref).
Definition select_candidates (snapshot : State) : list EvictionCandidate :=
  let refs := foldl (tally_mote snapshot) ∅ (iter_motes snapshot) in
  let candidates :=
    (fun '(r, t) => {| EvictionCandidate.result_ref := r; EvictionCandidate.min_seq := t.(tally_seq) |})
      <$> List.filter (fun x : bytes * RefTally => x.2.(all_pure)) (btree_iter refs) in
  stable_sort candidate_le candidates.

(** ** The budget *)
Inductive TieringBudget := MaxObjects (n : nat) | MaxBytes (b : Z).
Record ResidentUsage := { objects_used : nat; bytes_used : Z }.
Definition is_satisfied (budget : TieringBudget) (usage : ResidentUsage) : bool :=
  match budget with
  | MaxObjects n => (usage.(objects_used) <=? n)%nat
  | MaxBytes b => usage.(bytes_used) <=? b
  end.

(** ** The pass *)
Record EvictionReport := {
  evicted : list ContentRef;
  bytes_reclaimed : Z;
  candidates_considered : nat;
  skipped_absent : nat;
  usage_before : ResidentUsage;
  usage_after : ResidentUsage
}.
Record Resident := { resident_ref : ContentRef; size_of : Z }.
Inductive TieringError := Delete (e : StoreError).

Section Pass.
Context {S : Type} `{ContentStore S}.

(** Absent candidates are skipped. *)
Definition residents (store : S) (candidates : list EvictionCandidate) : list Resident :=
  omap (fun c => (fun payload => {| resident_ref := c.(EvictionCandidate.result_ref);
                                    size_of := Z.of_nat (length payload) |})
                   <$> get store c.(EvictionCandidate.result_ref)) candidates.
(** The loop's [store], [current], [evicted] and [bytes_reclaimed]. *)
Fixpoint evict (budget : TieringBudget) (iter : list Resident) (store : S) (current : ResidentUsage)
    (out : list ContentRef) (reclaimed : Z)
    : outcome (S * ResidentUsage * list ContentRef * Z) TieringError :=
  if is_satisfied budget current then Ok (store, current, out, reclaimed)
  else match iter with
       | [] => Ok (store, current, out, reclaimed)
       | r :: iter =>
           let* store := omap_err Delete (delete_ref store r.(resident_ref)) in
           evict budget iter store
             {| objects_used := (current.(objects_used) - 1)%nat;
                bytes_used := (current.(bytes_used) - r.(size_of)) mod 2 ^ 64 |}
             (out ++ [r.(resident_ref)]) (u64_add reclaimed r.(size_of))
       end.
Definition run_pass (snapshot : State) (store : S) (budget : TieringBudget)
    : outcome (EvictionReport * S) TieringError :=
  let candidates := select_candidates snapshot in
  let resident := residents store candidates in
  let usage_before := {| objects_used := length resident;
                         bytes_used := foldl u64_add 0 (size_of <$> resident) |} in
  let* (store, current, out, reclaimed) := evict budget resident store usage_before [] 0 in
  Ok ({| evicted := out; bytes_reclaimed := reclaimed; candidates_considered := length candidates;
         skipped_absent := (length candidates - length resident)%nat;
         usage_before := usage_before; usage_after := current |}, store).
End Pass.

(** ** Who votes for a reference *)
Definition votes (s : State) (r : ContentRef) (id : MoteId) : Prop :=
  state_of_id s id = MoteState.Committed /\ result_ref_of s id = Some r.
(** Droppable: some commit refers to it and every one that does is PURE. *)
Definition droppable (s : State) (r : ContentRef) : Prop :=
  (exists id, votes s r id)
  /\ forall id, votes s r id -> nondeterminism_of s id = Some Pure.

Lemma committed_lookups s id :
  state_of_id s id = MoteState.Committed ->
  exists info c, s.(motes) !! id = Some info /\ info.(committed) = Some c
    /\ result_ref_of s id = Some c.(CommittedInfo.result_ref)
    /\ nondeterminism_of s id = Some c.(CommittedInfo.nondeterminism).
Proof.
  unfold state_of_id, result_ref_of, nondeterminism_of. destruct (motes s !! id) as [info|]; [|done].
  unfold info_state. destruct (inconsistent info); [done|].
  destruct (committed info) as [c|] eqn:Hc; [|repeat case_match; done].
  intros _. exists info, c. cbn. by rewrite Hc.
Qed.
Definition tally_pure (t : option RefTally) : bool := match t with Some t => t.(all_pure) | None => true end.
Lemma tally_mote_lookup s refs id st r :
  tally_mote s refs (id, st) !! r =
  match (if decide (st = MoteState.Committed) then result_ref_of s id else None), nondeterminism_of s id with
  | Some r', Some nd => if decide (r' = r) then tally refs r (bool_decide (nd = Pure))
                          (default U64_MAX (committed_seq_of s id)) !! r else refs !! r
  | _, _ => refs !! r
  end.
Proof.
  cbn [tally_mote]. destruct (decide (st = MoteState.Committed)) as [->|Hne].
  - rewrite bool_decide_true by done. cbn [negb].
    destruct (result_ref_of s id) as [r'|], (nondeterminism_of s id) as [nd|]; try done.
    destruct (decide (r' = r)) as [->|Hr]; [done|]. unfold tally. by rewrite lookup_insert_ne.
  - by rewrite bool_decide_false.
Qed.
Lemma nondeterminism_of_some s id r :
  result_ref_of s id = Some r -> exists nd, nondeterminism_of s id = Some nd.
Proof.
  unfold result_ref_of, nondeterminism_of. destruct (motes s !! id) as [info|]; [|done]. cbn.
  destruct (committed info); [eauto|done].
Qed.
(** One step of the tally. *)
Lemma tally_mote_spec s refs id st r :
  (is_Some (tally_mote s refs (id, st) !! r) <->
   is_Some (refs !! r) \/ st = MoteState.Committed /\ result_ref_of s id = Some r)
  /\ (tally_pure (tally_mote s refs (id, st) !! r) = true <->
      tally_pure (refs !! r) = true
      /\ (st = MoteState.Committed -> result_ref_of s id = Some r -> nondeterminism_of s id = Some Pure)).
Proof.
  rewrite tally_mote_lookup. destruct (decide (st = MoteState.Committed)) as [->|Hne]; [|naive_solver].
  destruct (result_ref_of s id) as [r'|] eqn:Hr; [|naive_solver].
  destruct (nondeterminism_of_some s id r' Hr) as [nd Hnd]. rewrite Hnd.
  destruct (decide (r' = r)) as [->|Hne]; [|naive_solver].
  unfold tally. rewrite lookup_insert_eq. split; [naive_solver|].
  destruct (refs !! r) as [t|]; cbn [tally_pure all_pure].
  - rewrite andb_true_iff, bool_decide_eq_true. naive_solver.
  - rewrite bool_decide_eq_true. naive_solver.
Qed.
Lemma tallies_spec s l : forall refs r,
  (is_Some (foldl (tally_mote s) refs l !! r) <->
   is_Some (refs !! r) \/ exists id, (id, MoteState.Committed) ∈ l /\ result_ref_of s id = Some r)
  /\ (tally_pure (foldl (tally_mote s) refs l !! r) = true <->
      tally_pure (refs !! r) = true
      /\ forall id, (id, MoteState.Committed) ∈ l -> result_ref_of s id = Some r ->
           nondeterminism_of s id = Some Pure).
Proof.
  induction l as [|[id st] l IH]; intros refs r; cbn [foldl].
  { split; [|split; [|by intros [? _]]].
    - split; [by left|]. intros [?|(id & H & _)]; [done|by apply elem_of_nil in H].
    - intros H. split; [done|]. by intros id Hid%elem_of_nil. }
  destruct (IH (tally_mote s refs (id, st)) r) as [-> ->].
  destruct (tally_mote_spec s refs id st r) as [-> ->]. setoid_rewrite elem_of_cons. naive_solver.
Qed.
Lemma elem_of_iter_motes s id st :
  (id, st) ∈ iter_motes s <-> is_Some (s.(motes) !! id) /\ state_of_id s id = st.
Proof.
  unfold iter_motes. rewrite list_elem_of_fmap. split.
  - intros (id' & [= -> ->] & Hin). by rewrite <- elem_of_btree_keys.
  - intros [Hin <-]. exists id. by rewrite elem_of_btree_keys.
Qed.
Lemma voters s r id :
  (id, MoteState.Committed) ∈ iter_motes s /\ result_ref_of s id = Some r <-> votes s r id.
Proof.
  unfold votes. rewrite elem_of_iter_motes. split; [naive_solver|]. intros [Hst Hr].
  destruct (committed_lookups s id Hst) as (info & c & -> & _). naive_solver.
Qed.
Definition candidate_refs (s : State) : list ContentRef :=
  EvictionCandidate.result_ref <$> select_candidates s.
Lemma candidate_refs_perm s :
  candidate_refs s ≡ₚ
  (List.filter (fun x : bytes * RefTally => x.2.(all_pure))
     (btree_iter (foldl (tally_mote s) ∅ (iter_motes s)))).*1.
Proof.
  unfold candidate_refs, select_candidates. rewrite stable_sort_perm.
  rewrite <- list_fmap_compose. apply Permutation_refl'. apply list_fmap_ext. by intros ? [].
Qed.
(** The tag logic: the candidates are exactly the droppable references. *)
Lemma elem_of_candidate_refs s r : r ∈ candidate_refs s <-> droppable s r.
Proof.
  rewrite candidate_refs_perm. destruct (tallies_spec s (iter_motes s) ∅ r) as [Hsome Hpure].
  rewrite lookup_empty in Hsome, Hpure. set (refs := foldl _ _ _) in *.
  transitivity (is_Some (refs !! r) /\ tally_pure (refs !! r) = true).
  - rewrite list_elem_of_fmap. split.
    + intros ([r' t] & -> & Hin). apply list_elem_of_In, filter_In in Hin as [Hin Hp].
      rewrite <- list_elem_of_In, elem_of_btree_iter in Hin. cbn [fst]. rewrite Hin. eauto.
    + intros [[t Ht] Hp]. exists (r, t). split; [done|]. rewrite Ht in Hp.
      apply list_elem_of_In, filter_In. by rewrite <- list_elem_of_In, elem_of_btree_iter.
  - rewrite Hsome, Hpure. unfold droppable. setoid_rewrite <- voters.
    split; [intros [[[? [=]]|?] [_ ?]]; naive_solver|naive_solver].
Qed.
Lemma NoDup_candidate_refs s : NoDup (candidate_refs s).
Proof.
  rewrite candidate_refs_perm. set (m := foldl _ _ _). pose proof (NoDup_btree_keys m) as Hn.
  unfold btree_keys in Hn. revert Hn. generalize (btree_iter m).
  induction l as [|[r t] l IH]; [done|]. cbn. intros [Hnin Hn]%NoDup_cons.
  destruct (all_pure t); [|by apply IH]. cbn. constructor; [|by apply IH].
  intros Hin. apply Hnin. apply list_elem_of_fmap in Hin as (x & -> & Hx).
  apply list_elem_of_In, filter_In in Hx as [Hx _]. apply list_elem_of_fmap. exists x.
  by rewrite list_elem_of_In.
Qed.

(** ** The loop *)
Definition usage (l : list Resident) : ResidentUsage :=
  {| objects_used := length l; bytes_used := foldr Z.add 0 (size_of <$> l) |}.
Definition sizes_ok (l : list Resident) : Prop := Forall (fun r => 0 <= size_of r) l.
Lemma sum_sizes l acc :
  sizes_ok l -> 0 <= acc -> acc + foldr Z.add 0 (size_of <$> l) < 2 ^ 64 ->
  foldl u64_add acc (size_of <$> l) = acc + foldr Z.add 0 (size_of <$> l)
  /\ 0 <= foldr Z.add 0 (size_of <$> l).
Proof.
  intros Hl. revert acc. induction Hl as [|r l Hr _ IH]; intros acc Ha Hb; cbn [fmap list_fmap foldl foldr] in *; [lia|].
  assert (0 <= foldr Z.add 0 (size_of <$> l)) as Hp.
  { destruct (decide (0 <= foldr Z.add 0 (size_of <$> l))); [done|].
    destruct (IH 0) as [_ ?]; [lia| |done]. unfold fmap in *. lia. }
  destruct (IH (acc + size_of r)) as [IH1 _]; [lia|unfold fmap in *; lia|].
  rewrite u64_add_small by (unfold fmap in *; lia). rewrite IH1. unfold fmap in *. lia.
Qed.

Section PassSpec.
Context `{Blake3} {S : Type} `{!ContentStore S} `{!ContentStoreLaws S}.

Definition delete_all (refs : list ContentRef) (m : gmap bytes bytes) : gmap bytes bytes :=
  foldl (fun m r => delete r m) m refs.
Lemma lookup_delete_all refs m r :
  delete_all refs m !! r = if decide (r ∈ refs) then None else m !! r.
Proof.
  revert m. induction refs as [|x refs IH]; intros m; [by rewrite decide_False by apply not_elem_of_nil|].
  cbn. change (foldl _ (delete x m) refs) with (delete_all refs (delete x m)). rewrite IH.
  destruct (decide (r ∈ refs)); [by rewrite decide_True by (by right)|].
  destruct (decide (r = x)) as [->|Hne].
  - by rewrite lookup_delete_eq, decide_True by left.
  - rewrite lookup_delete_ne by done. rewrite decide_False; [done|]. by intros [|]%elem_of_cons.
Qed.

Lemma evict_spec budget : forall iter store m out reclaimed,
  holds store m -> Forall (fun r => array_ok 32 (resident_ref r)) iter -> sizes_ok iter ->
  bytes_used (usage iter) < 2 ^ 64 ->
  exists k store' reclaimed',
    evict budget iter store (usage iter) out reclaimed
      = Ok (store', usage (drop k iter), out ++ (resident_ref <$> take k iter), reclaimed')
    /\ holds store' (delete_all (resident_ref <$> take k iter) m)
    /\ (is_satisfied budget (usage (drop k iter)) = true \/ drop k iter = [])
    /\ (forall j, (j < k)%nat -> is_satisfied budget (usage (drop j iter)) = false).
Proof.
  induction iter as [|r iter IH]; intros store m out reclaimed Hs Ha Hz Hb; cbn [evict].
  { destruct (is_satisfied budget (usage [])) eqn:E; exists 0%nat, store, reclaimed;
      cbn [drop take fmap list_fmap]; rewrite app_nil_r; (split_and!; [done|done|auto|lia]). }
  destruct (is_satisfied budget (usage (r :: iter))) eqn:E.
  { exists 0%nat, store, reclaimed. cbn [drop take fmap list_fmap]. rewrite app_nil_r.
    split_and!; [done|done|auto|lia]. }
  inversion_clear Ha as [|?? Hr Ha']. inversion_clear Hz as [|?? Hzr Hz'].
  destruct (delete_law store m (resident_ref r) Hs Hr) as (store1 & -> & Hs1). cbn [omap_err obind].
  pose proof (sum_sizes iter 0 Hz' ltac:(lia)) as Hsum. cbn [usage bytes_used fmap list_fmap foldr] in Hb.
  change (list_fmap _ _ size_of iter) with (size_of <$> iter) in Hb. destruct Hsum as [_ Hpos]; [lia|].
  replace {| objects_used := _; bytes_used := _ |} with (usage iter).
  2: { unfold usage. f_equal; [cbn; lia|]. cbn [bytes_used fmap list_fmap foldr].
       change (list_fmap _ _ size_of iter) with (size_of <$> iter).
       rewrite Z.mod_small by lia. lia. }
  destruct (IH store1 (delete (resident_ref r) m) (out ++ [resident_ref r]) (u64_add reclaimed (size_of r)))
    as (k & store' & rec' & -> & Hs' & Hend & Hmin); [done|done|done|cbn; lia|].
  exists (Datatypes.S k), store', rec'. cbn [drop take fmap list_fmap]. split_and!; [|done|done|].
  - by rewrite <- app_assoc.
  - intros [|j] Hj; [done|]. cbn [drop]. apply Hmin. lia.
Qed.

(** The residents, read off the contents. *)
Definition resident_of (m : gmap bytes bytes) (c : EvictionCandidate) : option Resident :=
  (fun b => {| resident_ref := c.(EvictionCandidate.result_ref); size_of := Z.of_nat (length b) |})
    <$> m !! c.(EvictionCandidate.result_ref).
Lemma residents_eq store m (cands : list EvictionCandidate) :
  holds store m -> Forall (fun c => array_ok 32 c.(EvictionCandidate.result_ref)) cands ->
  residents store cands = omap (resident_of m) cands.
Proof.
  intros Hs. induction 1 as [|c cands Hc _ IH]; [done|]. unfold residents in *. cbn.
  rewrite (get_law store m _ Hs Hc), IH. done.
Qed.
Lemma omap_resident_ext m m' (cands : list EvictionCandidate) :
  (forall c, c ∈ cands -> m !! c.(EvictionCandidate.result_ref) = m' !! c.(EvictionCandidate.result_ref)) ->
  omap (resident_of m) cands = omap (resident_of m') cands.
Proof.
  induction cands as [|c cands IH]; intros Heq; [done|]. cbn [omap list_omap].
  assert (resident_of m c = resident_of m' c) as -> by (unfold resident_of; by rewrite (Heq c) by left).
  change (list_omap ?A ?B) with (@omap list _ A B). rewrite IH; [done|]. intros x Hx. apply Heq. by right.
Qed.
Lemma elem_of_residents m (cands : list EvictionCandidate) r :
  r ∈ omap (resident_of m) cands ->
  exists c b, c ∈ cands /\ m !! c.(EvictionCandidate.result_ref) = Some b
    /\ resident_ref r = c.(EvictionCandidate.result_ref) /\ size_of r = Z.of_nat (length b).
Proof.
  intros (c & Hc & Hr)%list_elem_of_omap. unfold resident_of in Hr.
  destruct (m !! _) as [b|] eqn:Hb; [|done]. injection Hr as <-. eauto 10.
Qed.
Lemma resident_of_delete X m c :
  resident_of (delete_all X m) c
  = if decide (c.(EvictionCandidate.result_ref) ∈ X) then None else resident_of m c.
Proof. unfold resident_of. rewrite lookup_delete_all. by destruct (decide _). Qed.
Lemma resident_of_ref m c r : resident_of m c = Some r -> resident_ref r = c.(EvictionCandidate.result_ref).
Proof. unfold resident_of. destruct (m !! _); [|done]. by intros [= <-]. Qed.
(** After dropping the first [k] residents, the rest are what a rescan finds. *)
Lemma residents_after m (cands : list EvictionCandidate) : forall k,
  NoDup (EvictionCandidate.result_ref <$> cands) ->
  omap (resident_of (delete_all (resident_ref <$> take k (omap (resident_of m) cands)) m)) cands
  = drop k (omap (resident_of m) cands).
Proof.
  induction cands as [|c cands IH]; intros k; [by destruct k|]. cbn [fmap list_fmap].
  intros [Hnin Hnd]%NoDup_cons. cbn [omap list_omap]. rewrite resident_of_delete.
  destruct (resident_of m c) as [r|] eqn:Hr.
  - destruct k as [|k].
    { cbn [take drop fmap list_fmap]. by rewrite decide_False by apply not_elem_of_nil. }
    cbn [take drop fmap list_fmap]. rewrite (resident_of_ref _ _ _ Hr), decide_True by left.
    rewrite <- (IH k Hnd). apply omap_resident_ext. intros x Hx. rewrite !lookup_delete_all.
    apply decide_ext. rewrite elem_of_cons.
    assert (EvictionCandidate.result_ref x <> EvictionCandidate.result_ref c); [|naive_solver].
    intros Heq. apply Hnin. rewrite <- Heq. by apply (list_elem_of_fmap_2 EvictionCandidate.result_ref).
  - destruct (decide _); by apply IH.
Qed.

Lemma NoDup_residents m (cands : list EvictionCandidate) :
  NoDup (EvictionCandidate.result_ref <$> cands) -> NoDup (resident_ref <$> omap (resident_of m) cands).
Proof.
  induction cands as [|c cands IH]; [done|]. cbn [fmap list_fmap omap list_omap].
  intros [Hnin Hnd]%NoDup_cons. destruct (resident_of m c) as [r|] eqn:Hr; [|by apply IH].
  cbn [fmap list_fmap]. constructor; [|by apply IH]. rewrite (resident_of_ref _ _ _ Hr).
  intros (x & Ex & (c' & b & Hc' & _ & Ex' & _)%elem_of_residents)%list_elem_of_fmap.
  apply Hnin. rewrite Ex, Ex'. by apply (list_elem_of_fmap_2 EvictionCandidate.result_ref).
Qed.
(** Nothing resident is left when the rescan is empty. *)
Lemma residents_nil store m (cands : list EvictionCandidate) c :
  holds store m -> Forall (fun c => array_ok 32 c.(EvictionCandidate.result_ref)) cands ->
  residents store cands = [] -> c ∈ cands -> get store c.(EvictionCandidate.result_ref) = None.
Proof.
  intros Hs Ha Hn Hc. rewrite (residents_eq store m cands Hs Ha) in Hn.
  rewrite (get_law store m _ Hs) by (by rewrite Forall_forall in Ha; apply Ha).
  destruct (m !! EvictionCandidate.result_ref c) as [b|] eqn:Hb; [|done]. exfalso.
  destruct (resident_of m c) as [r|] eqn:Hr; [|unfold resident_of in Hr; by rewrite Hb in Hr].
  assert (r ∈ omap (resident_of m) cands) as Hin by (apply list_elem_of_omap; eauto).
  rewrite Hn in Hin. by apply elem_of_nil in Hin.
Qed.

(** A tiering pass is safe: on any lawful store it succeeds, and
    - it deletes only payloads that some PURE commit refers to and no live
      commit of another class does, each once, and leaves every other object
      of the store as it was;
    - it stops at the first point where the budget holds, or when no droppable
      payload is left, and the usage it reports is what a rescan would find. *)
Theorem tiering_pass_safe s store m budget :
  holds store m ->
  (forall r, droppable s r -> array_ok 32 r) ->
  bytes_used (usage (residents store (select_candidates s))) < 2 ^ 64 ->
  exists report store',
    run_pass s store budget = Ok (report, store')
    /\ holds store' (delete_all report.(evicted) m)
    /\ NoDup report.(evicted)
    /\ (forall r, r ∈ report.(evicted) -> is_Some (m !! r) /\ droppable s r)
    /\ report.(usage_after) = usage (residents store' (select_candidates s))
    /\ (is_satisfied budget report.(usage_after) = true
        \/ forall r, droppable s r -> get store' r = None)
    /\ (forall k, (k < length report.(evicted))%nat -> is_satisfied budget
          (usage (drop k (residents store (select_candidates s)))) = false).
Proof.
  intros Hs Hd Hb. set (cands := select_candidates s) in *.
  assert (Forall (fun c => array_ok 32 c.(EvictionCandidate.result_ref)) cands) as Ha.
  { apply Forall_forall. intros c Hc. apply Hd, elem_of_candidate_refs. by apply list_elem_of_fmap_2. }
  pose proof (residents_eq store m cands Hs Ha) as Hres. rewrite Hres in *.
  set (rs := omap (resident_of m) cands) in *.
  assert (Hrs : forall r, r ∈ rs -> is_Some (m !! resident_ref r) /\ droppable s (resident_ref r) /\ 0 <= size_of r).
  { intros r (c & b & Hc & Hm & -> & ->)%elem_of_residents. split_and!; [eauto| |lia].
    apply elem_of_candidate_refs. by apply list_elem_of_fmap_2. }
  destruct (evict_spec budget rs store m [] 0 Hs) as (k & store' & rec & He & Hs' & Hend & Hmin); [..|done|].
  { apply Forall_forall. intros r Hr. by apply Hd, Hrs. }
  { apply Forall_forall. intros r Hr. by apply Hrs. }
  unfold run_pass. fold cands. rewrite Hres. fold rs.
  rewrite (proj1 (sum_sizes rs 0 ltac:(apply Forall_forall; intros r Hr; by apply Hrs) ltac:(lia) Hb)).
  rewrite Z.add_0_l. change {| objects_used := length rs; bytes_used := _ |} with (usage rs).
  rewrite He. cbn [obind]. eexists _, store'. split; [reflexivity|].
  cbn [evicted usage_after app].
  assert (Hafter : residents store' cands = drop k rs).
  { rewrite (residents_eq store' _ cands Hs' Ha). apply residents_after, NoDup_candidate_refs. }
  assert (Hin : forall r, r ∈ resident_ref <$> take k rs -> exists x, x ∈ rs /\ r = resident_ref x).
  { intros r (x & -> & Hx)%list_elem_of_fmap. exists x. split; [|done].
    rewrite <- (take_drop k rs). apply elem_of_app. by left. }
  split_and!; [done| | |by rewrite Hafter| |].
  - assert (NoDup (resident_ref <$> rs)) as Hnd by apply NoDup_residents, NoDup_candidate_refs.
    rewrite <- (take_drop k rs), fmap_app in Hnd. by apply NoDup_app in Hnd as [? _].
  - intros r (x & Hx & ->)%Hin. by destruct (Hrs x Hx) as (? & ? & _).
  - destruct Hend as [?|Hn]; [by left|right]. intros r Hr. apply elem_of_candidate_refs in Hr.
    apply list_elem_of_fmap in Hr as (c & -> & Hc). eapply residents_nil; [done|done| |done].
    by rewrite Hafter.
  - intros j Hj. apply Hmin. rewrite length_fmap, length_take in Hj. lia.
Qed.
End PassSpec.

(** ** A concrete pass *)
#[local] Existing Instance demo_blake3.
Definition demo_pure_commit (n : Z) : JournalEntry :=
  JournalEntry.Committed [n] [n] n Pure (replicate 32 n) [] [8] [9].
Definition demo_world_commit (n : Z) : JournalEntry :=
  JournalEntry.Committed [n] [n] n WorldMutating (replicate 32 n) [] [8] [9].
Definition demo_snapshot : State :=
  (fold_entries None [demo_pure_commit 1; demo_world_commit 2; demo_pure_commit 3] State_default).1.
Definition demo_objects : InMemoryContentStore :=
  {| objects := list_to_map [(replicate 32 1, [1]); (replicate 32 2, [2]); (replicate 32 3, [3])] |}.
Lemma demo_objects_hold : holds demo_objects (objects demo_objects).
Proof.
  split; [done|]. intros r b Hr. apply elem_of_list_to_map_2 in Hr.
  repeat (apply elem_of_cons in Hr as [[= -> ->]|Hr]; [by apply (bool_decide_unpack _); vm_compute|]).
  by apply elem_of_nil in Hr.
Qed.
Lemma tiering_pass_safe_witness :
  exists report store', run_pass demo_snapshot demo_objects (MaxObjects 1) = Ok (report, store')
    /\ report.(evicted) = [replicate 32 1] /\ get store' (replicate 32 2) = Some [2].
Proof.
  destruct (tiering_pass_safe demo_snapshot demo_objects (objects demo_objects) (MaxObjects 1))
    as (report & store' & Hp & _).
  - apply demo_objects_hold.
  - intros r Hr%elem_of_candidate_refs. change (candidate_refs demo_snapshot) with [replicate 32 1; replicate 32 3] in Hr.
    repeat (apply elem_of_cons in Hr as [->|Hr]; [by apply (bool_decide_unpack _); vm_compute|]).
    by apply elem_of_nil in Hr.
  - by vm_compute.
  - exists report, store'. split; [done|]. vm_compute in Hp. injection Hp as <- <-. by vm_compute.
Defined.
