(* ===== verification/Materializer.v ===== *)
(** The topology materializer of kx-projection (materializer.rs,
    child_resolver.rs, mote_def_registry.rs): a committed topology shaper
    introduces the children its decision names, each under a warrant narrowed
    from the shaper's own. *)
From S2P Require Import Prelude Utf8 CriticTypes Mote Entry Journal Warrant Content DemoCodec ProjState ProjIndex ProjFold ProjHistory ProjQuery.

(** ** Definition registry *)
Record InMemoryMoteDefRegistry := { inner : gmap bytes MoteDef }.
Definition InMemoryMoteDefRegistry_new : InMemoryMoteDefRegistry := {| inner := ∅ |}.
Definition register_def `{Blake3, Bincode MoteDef} (reg : InMemoryMoteDefRegistry) (d : MoteDef)
    : InMemoryMoteDefRegistry := {| inner := <[MoteDef_hash d := d]> reg.(inner) |}.
Definition get_def (reg : InMemoryMoteDefRegistry) (hash : bytes) : option MoteDef :=
  reg.(inner) !! hash.

(** ** Child resolvers *)
Definition MOTE_DEF_SCHEMA_VERSION : Z := 5.
Definition PROMPT_KEY : bytes := str "prompt".
Definition ChildResolver : Type := MoteDef -> ChildDescriptor -> MoteDef.
Definition InheritFromShaperResolver : ChildResolver := fun shaper d =>
  let config_subset :=
    match d.(intent) with
    | [] => shaper.(config_subset)
    | _ => <[PROMPT_KEY := d.(intent)]> shaper.(config_subset)
    end in
  {| critic_check := None;
     model_id := shaper.(model_id);
     prompt_template_hash := shaper.(prompt_template_hash);
     tool_contract := shaper.(tool_contract);
     config_subset := config_subset;
     inference_params := shaper.(inference_params);
     Mote.critic_for := None;
     Mote.is_topology_shaper := false;
     schema_version := MOTE_DEF_SCHEMA_VERSION;
     logic_ref := d.(child_logic_ref);
     Mote.nd_class := d.(child_nd_class);
     Mote.effect_pattern := d.(child_effect_pattern) |}.

(** ** Identity of a child *)
Section Child.
Context `{Blake3, Bincode MoteDef}.

Definition derive_child_identity (shaper_mote_id : MoteId) (shaper_def : MoteDef)
    (shaper_result_ref : ContentRef) (descriptor : ChildDescriptor) (index : nat)
    (resolver : ChildResolver) : MoteId * bytes * NdClass * EffectPattern :=
  let child_def := resolver shaper_def descriptor in
  let child_def_hash := MoteDef_hash child_def in
  let child_input_data_id := blake3 shaper_result_ref in
  let gp_bytes := shaper_mote_id ++ to_le 4 (Z.of_nat index mod 2 ^ 32) in
  (derive_mote_id child_def_hash child_input_data_id gp_bytes, child_def_hash,
   child_def.(Mote.nd_class), child_def.(Mote.effect_pattern)).

Definition derive_child_register_mote (shaper_mote_id : MoteId) (shaper_def : MoteDef)
    (shaper_result_ref : ContentRef) (descriptor : ChildDescriptor) (index : nat)
    (resolver : ChildResolver) (child_warrant_ref : ContentRef) : RegisterMote :=
  let child_def := resolver shaper_def descriptor in
  let child_def_hash := MoteDef_hash child_def in
  let child_input_data_id := blake3 shaper_result_ref in
  let gp_bytes := shaper_mote_id ++ to_le 4 (Z.of_nat index mod 2 ^ 32) in
  {| RegisterMote.mote_id := derive_mote_id child_def_hash child_input_data_id gp_bytes;
     RegisterMote.nd_class := child_def.(Mote.nd_class);
     RegisterMote.effect_pattern := child_def.(Mote.effect_pattern);
     RegisterMote.critic_for := None;
     RegisterMote.is_topology_shaper := false;
     RegisterMote.parents :=
       [{| parent_id := shaper_mote_id; edge := {| Mote.kind := Control; non_cascade := false |} |}];
     RegisterMote.warrant_ref := child_warrant_ref |}.
End Child.

(** ** The materializer *)
Section Materializer.
Context `{Blake3, Bincode MoteDef, Bincode WarrantSpec, Bincode TopologyDecision}.
Context {S : Type} `{ContentStore S}.
Context (store : S) (def_registry : bytes -> option MoteDef) (role_registry : bytes -> option Role)
  (resolver : ChildResolver).
(** The rendered text of a decode error and of a narrowing error. *)
Context (decode_text : bytes -> bytes) (narrowing_text : NarrowingError -> bytes).

Fixpoint materialize_children (shaper_mote_id : MoteId) (shaper_def : MoteDef)
    (shaper_result_ref : ContentRef) (shaper_warrant : WarrantSpec) (index : nat)
    (descriptors : list ChildDescriptor) : outcome (list RegisterMote) ProjectionError :=
  match descriptors with
  | [] => Ok []
  | descriptor :: descriptors =>
      let* role := ok_or (role_registry descriptor.(role_id))
                     (ProjectionError.RoleNotRegistered descriptor.(role_id) index) in
      let* child_warrant :=
        omap_err (fun e => ProjectionError.NarrowingFailed index (narrowing_text e))
          (intersect shaper_warrant role) in
      let child :=
        derive_child_register_mote shaper_mote_id shaper_def shaper_result_ref descriptor index
          resolver (Warrant.warrant_ref_of child_warrant) in
      let* children := materialize_children shaper_mote_id shaper_def shaper_result_ref
                         shaper_warrant (Datatypes.S index) descriptors in
      Ok (child :: children)
  end.

Definition try_materialize : Materializer :=
  fun shaper_mote_id shaper_def_hash shaper_result_ref shaper_warrant_ref =>
  match def_registry shaper_def_hash with
  | None => Ok None
  | Some shaper_def =>
      if negb shaper_def.(Mote.is_topology_shaper) then Ok None
      else
        let* payload := ok_or (get store shaper_result_ref)
          (ProjectionError.ContentStoreFetch shaper_result_ref (str "NotFound")) in
        let* decision := ok_or (TopologyDecision_decode payload)
          (ProjectionError.TopologyDecodeFailed shaper_result_ref (decode_text payload)) in
        let* warrant_payload := ok_or (get store shaper_warrant_ref)
          (ProjectionError.WarrantStoreFetch shaper_warrant_ref (str "NotFound")) in
        let* shaper_warrant := ok_or (decode_warrant warrant_payload)
          (ProjectionError.WarrantDecodeFailed shaper_warrant_ref (decode_text warrant_payload)) in
        let* children := materialize_children shaper_mote_id shaper_def shaper_result_ref
                           shaper_warrant 0 decision.(Mote.children) in
        Ok (Some children)
  end.

(** What a child of the decision is registered as. *)
Record confined (shaper_mote_id : MoteId) (shaper_def : MoteDef) (shaper_result_ref : ContentRef)
    (shaper_warrant : WarrantSpec) (index : nat) (d : ChildDescriptor) (reg : RegisterMote) : Prop := {
  cf_parents : reg.(RegisterMote.parents)
    = [{| parent_id := shaper_mote_id; edge := EdgeMeta_control |}];
  cf_plain : reg.(RegisterMote.critic_for) = None /\ reg.(RegisterMote.is_topology_shaper) = false;
  cf_identity : exists hash,
    derive_child_identity shaper_mote_id shaper_def shaper_result_ref d index resolver
    = (reg.(RegisterMote.mote_id), hash, reg.(RegisterMote.nd_class), reg.(RegisterMote.effect_pattern));
  cf_warrant : exists role w, role_registry d.(role_id) = Some role
    /\ intersect shaper_warrant role = Ok w
    /\ reg.(RegisterMote.warrant_ref) = Warrant.warrant_ref_of w /\ warrant_le w shaper_warrant
}.

Lemma ok_or_inv {A E} (o : option A) (e : E) a : ok_or o e = Ok a -> o = Some a.
Proof. destruct o; cbn; [|done]. by intros [= ->]. Qed.
Lemma omap_err_inv {A E F} (f : E -> F) (m : outcome A E) a : omap_err f m = Ok a -> m = Ok a.
Proof. destruct m; cbn; [|done..]. by intros [= ->]. Qed.

Lemma materialize_children_confined id def rr w ds : forall index regs,
  materialize_children id def rr w index ds = Ok regs ->
  length regs = length ds
  /\ forall i d reg, ds !! i = Some d -> regs !! i = Some reg -> confined id def rr w (index + i) d reg.
Proof.
  induction ds as [|d ds IH]; intros index regs; cbn [materialize_children].
  { intros <-%ok_inj. split; [done|]. intros i d reg. by rewrite lookup_nil. }
  intros (role & Hrole%ok_or_inv & H')%obind_ok_inv.
  apply obind_ok_inv in H' as (cw & Hcw%omap_err_inv & H').
  apply obind_ok_inv in H' as (rest & Hrest & <-%ok_inj).
  destruct (IH _ _ Hrest) as [Hlen Hall]. split; [cbn; lia|].
  intros [|i] d' reg; cbn [lookup list_lookup].
  - intros [= <-] [= <-]. rewrite Nat.add_0_r. split; cbn; [done|done|by eexists|].
    exists role, cw. split_and!; try done. by eapply intersect_le.
  - intros Hd Hreg. rewrite Nat.add_succ_r. apply (Hall i d' reg Hd Hreg).
Qed.

(** The outcome of a materialization that yields children. *)
Lemma try_materialize_inv id dh rr wr regs :
  try_materialize id dh rr wr = Ok (Some regs) ->
  exists shaper_def payload decision warrant_payload shaper_warrant,
    def_registry dh = Some shaper_def /\ shaper_def.(Mote.is_topology_shaper) = true
    /\ get store rr = Some payload /\ TopologyDecision_decode payload = Some decision
    /\ get store wr = Some warrant_payload /\ decode_warrant warrant_payload = Some shaper_warrant
    /\ materialize_children id shaper_def rr shaper_warrant 0 decision.(Mote.children) = Ok regs.
Proof.
  unfold try_materialize. destruct (def_registry dh) as [def|]; [|done].
  destruct (Mote.is_topology_shaper def) eqn:Hsh; [|done]. cbn [negb].
  intros (payload & Hp%ok_or_inv & H')%obind_ok_inv.
  apply obind_ok_inv in H' as (decision & Hd%ok_or_inv & H').
  apply obind_ok_inv in H' as (wp & Hwp%ok_or_inv & H').
  apply obind_ok_inv in H' as (w & Hw%ok_or_inv & H').
  apply obind_ok_inv in H' as (children & Hc & [= <-]%ok_inj).
  by exists def, payload, decision, wp, w.
Qed.

(** Dynamic topology stays under authority: the children a committed
    shaper introduces are exactly those of its stored decision, in order, each
    with the identity derived from the shaper, its result and its index, with
    the shaper as its one cascading parent, neither critic nor shaper, and
    under a warrant that is the shaper's narrowed by the child's registered
    role, hence no wider than the shaper's on any narrowed axis. *)
Theorem materialized_children_confined id dh rr wr regs :
  try_materialize id dh rr wr = Ok (Some regs) ->
  exists shaper_def payload decision warrant_payload shaper_warrant,
    def_registry dh = Some shaper_def /\ shaper_def.(Mote.is_topology_shaper) = true
    /\ get store rr = Some payload /\ TopologyDecision_decode payload = Some decision
    /\ get store wr = Some warrant_payload /\ decode_warrant warrant_payload = Some shaper_warrant
    /\ length regs = length decision.(Mote.children)
    /\ forall i d reg, decision.(Mote.children) !! i = Some d -> regs !! i = Some reg ->
         confined id shaper_def rr shaper_warrant i d reg.
Proof.
  intros (def & payload & decision & wp & w & Hdef & Hsh & Hp & Hd & Hwp & Hw & Hc)%try_materialize_inv.
  apply materialize_children_confined in Hc as [Hlen Hall].
  exists def, payload, decision, wp, w. by split_and!.
Qed.

Lemma children_parents id dh rr wr regs reg :
  try_materialize id dh rr wr = Ok (Some regs) -> reg ∈ regs ->
  reg.(RegisterMote.parents) = [{| parent_id := id; edge := EdgeMeta_control |}].
Proof.
  intros (def & payload & decision & wp & w & _ & _ & _ & _ & _ & _ & Hc)%try_materialize_inv Hin.
  apply materialize_children_confined in Hc as [Hlen Hall].
  apply list_elem_of_lookup_1 in Hin as [i Hi].
  destruct (lookup_lt_is_Some_2 (Mote.children decision) i) as [d Hd].
  { rewrite <- Hlen. by eapply lookup_lt_Some. }
  by destruct (Hall i d reg Hd Hi).
Qed.
Lemma register_parents reg s d :
  parents_of_id (register_mote reg s) d =
  if decide (d = reg.(RegisterMote.mote_id))
  then (fun p => (p.(parent_id), p.(edge))) <$> reg.(RegisterMote.parents) else parents_of_id s d.
Proof.
  unfold register_mote, set_declared, reindex_child_edges, parents_of_id, moteinfo_mut. cbn [motes with_children with_motes].
  destruct (decide (d = RegisterMote.mote_id reg)) as [->|Hne].
  - by rewrite lookup_insert_eq.
  - by rewrite lookup_insert_ne.
Qed.
(** Registering a batch whose members all have the parents [ps]. *)
Lemma registers_parents ps regs s d :
  (forall reg, reg ∈ regs -> reg.(RegisterMote.parents) = ps) ->
  (d ∈ RegisterMote.mote_id <$> regs \/ parents_of_id s d = (fun p => (p.(parent_id), p.(edge))) <$> ps) ->
  parents_of_id (foldl (fun s reg => register_mote reg s) s regs) d
  = (fun p => (p.(parent_id), p.(edge))) <$> ps.
Proof.
  revert s. induction regs as [|reg regs IH]; intros s Hps Hd.
  { destruct Hd as [Hd|Hd]; [by apply elem_of_nil in Hd|done]. }
  cbn [foldl]. apply IH; [intros r Hr; apply Hps; by right|].
  destruct (decide (d = RegisterMote.mote_id reg)) as [->|Hne].
  - right. rewrite register_parents, decide_True by done. by rewrite Hps by left.
  - destruct Hd as [Hd|Hd].
    + cbn [fmap list_fmap] in Hd. apply elem_of_cons in Hd as [->|Hd]; [done|by left].
    + right. by rewrite register_parents, decide_False.
Qed.

(** The cascade reaches dynamic topology: once a shaper's commit has been
    folded, every child it introduced is among the transitive consumers of the
    shaper, so repudiating the shaper's result poisons all of them. *)
Theorem cascade_reaches_children s s' id key seq nd rr ps wr dh regs prev :
  rtc (proj_step (Some try_materialize)) State_default s ->
  fold (Some try_materialize) (JournalEntry.Committed id key seq nd rr ps wr dh) s = (s', Ok prev) ->
  try_materialize id dh rr wr = Ok (Some regs) ->
  exists result, transitive_consumers_impl s' id = Some result
    /\ forall reg, reg ∈ regs -> reg.(RegisterMote.mote_id) ∈ result.
Proof.
  intros Hs Hfold Hm.
  assert (index_ok s') as Hi.
  { replace s' with (fold (Some try_materialize) (JournalEntry.Committed id key seq nd rr ps wr dh) s).1
      by (by rewrite Hfold). apply index_ok_fold. by eapply index_ok_reachable. }
  destruct (consumers_of_index s' id Hi) as (result & Hr & _ & Hx).
  exists result. split; [done|]. intros reg Hreg. apply Hx, tc_once.
  exists EdgeMeta_control. split; [|done].
  cbn [fold] in Hfold. unfold fold_committed in Hfold. case_bool_decide; [done|].
  rewrite Hm in Hfold. injection Hfold as <- _.
  rewrite (registers_parents [{| parent_id := id; edge := EdgeMeta_control |}]); [by left|..].
  - intros r. by eapply children_parents.
  - left. by apply list_elem_of_fmap_2.
Qed.
End Materializer.

(** ** A concrete shaper *)
#[local] Existing Instance demo_blake3.
#[local] Existing Instance demo_bincode.
Definition demo_shaper : MoteDef := {|
  logic_ref := [1]; model_id := str "m"; prompt_template_hash := [2]; tool_contract := ∅;
  Mote.nd_class := Pure; config_subset := ∅; Mote.effect_pattern := IdempotentByConstruction;
  Mote.critic_for := None; Mote.is_topology_shaper := true;
  inference_params := InferenceParams_default; critic_check := None;
  schema_version := MOTE_DEF_SCHEMA_VERSION |}.
Definition demo_decision : TopologyDecision := {| Mote.children := [{|
  role_id := str "worker"; child_logic_ref := [5]; child_nd_class := ReadOnlyNondet;
  child_effect_pattern := StageThenCommit; intent := str "look" |}] |}.
Definition demo_store : InMemoryContentStore := {|
  objects := <[ [7] := bincode_encode demo_decision ]>
               {[ [8] := bincode_encode (demo_warrant 10 FsMode.ReadWrite) ]} |}.
Definition demo_materializer : Materializer :=
  try_materialize demo_store (fun _ => Some demo_shaper)
    (fun _ => Some (demo_role 7 FsMode.ReadOnly)) InheritFromShaperResolver (fun b => b) (fun _ => []).
Lemma demo_materializes :
  exists reg, demo_materializer [1] [9] [7] [8] = Ok (Some [reg]).
Proof.
  eexists. unfold demo_materializer, try_materialize. cbn [demo_shaper Mote.is_topology_shaper negb].
  cbn [get InMemoryContentStore_store]. unfold mem_get, demo_store. cbn [objects].
  rewrite lookup_insert_eq. cbn [ok_or obind].
  unfold TopologyDecision_decode. rewrite bincode_decode_encode. cbn [fmap option_fmap option_map fst ok_or obind].
  rewrite lookup_insert_ne by done. rewrite lookup_singleton_eq. cbn [ok_or obind].
  unfold decode_warrant. rewrite bincode_decode_encode. cbn [fmap option_fmap option_map fst ok_or obind].
  cbn [demo_decision Mote.children materialize_children ok_or obind].
  set (w := intersect _ _). vm_compute in w. subst w. cbn [omap_err obind]. reflexivity.
Qed.
Lemma materialized_children_confined_witness :
  exists reg, demo_materializer [1] [9] [7] [8] = Ok (Some [reg])
    /\ reg.(RegisterMote.parents) = [{| parent_id := [1]; edge := EdgeMeta_control |}].
Proof.
  destruct demo_materializes as [reg Hreg]. exists reg. split; [done|].
  destruct (materialized_children_confined _ _ _ _ _ _ _ _ _ _ _ Hreg)
    as (def & payload & decision & wp & w & _ & _ & _ & _ & _ & _ & Hlen & Hall).
  destruct decision as [[|d [|d' ds]]]; [done| |done].
  by destruct (Hall 0%nat d reg eq_refl eq_refl).
Defined.
Lemma cascade_reaches_children_witness :
  exists s reg result, demo_materializer [1] [9] [7] [8] = Ok (Some [reg])
    /\ transitive_consumers_impl s [1] = Some result /\ reg.(RegisterMote.mote_id) ∈ result.
Proof.
  destruct demo_materializes as [reg Hreg].
  destruct (fold (Some demo_materializer) (demo_commit [1] 1) State_default) as [s r] eqn:Hf.
  exists s, reg.
  destruct (cascade_reaches_children demo_store (fun _ => Some demo_shaper)
              (fun _ => Some (demo_role 7 FsMode.ReadOnly)) InheritFromShaperResolver (fun b => b)
              (fun _ => []) State_default s [1] [1] 1 Pure [7] [] [8] [9] [reg] 0)
    as (result & Hr & Hin).
  - apply rtc_refl.
  - fold demo_materializer. change (JournalEntry.Committed _ _ _ _ _ _ _ _) with (demo_commit [1] 1).
    rewrite Hf. f_equal. cbn [fold demo_commit] in Hf. unfold fold_committed in Hf.
    case_bool_decide as Hc; [by vm_compute in Hc; destruct Hc as [? [=]]|].
    rewrite Hreg in Hf. cbn [obind] in Hf. by injection Hf as _ <-.
  - exact Hreg.
  - exists result. split_and!; [done|done|]. apply Hin. by left.
Defined.
