(* ===== verification/Memoizer.v ===== *)
(** kx-memoizer (lib.rs): the result of a committed Mote is served again, by
    exact identity, unless it or one of its data parents was repudiated. *)
From S2P Require Import Prelude Utf8 Mote Entry Journal ProjState ProjIndex ProjFold ProjHistory ProjQuery.

Module CacheHit.
Inductive CacheHit :=
| Pure (result_ref : ContentRef)
| ReadOnlyNondet (result_ref : ContentRef)
| WorldMutating (result_ref : ContentRef) (redispatch_effect : bool).
Definition result_ref (h : CacheHit) : ContentRef :=
  match h with Pure r | ReadOnlyNondet r | WorldMutating r _ => r end.
Definition requires_redispatch (h : CacheHit) : bool :=
  match h with WorldMutating _ true => true | _ => false end.
End CacheHit.
Abbreviation CacheHit := CacheHit.CacheHit.

Definition hit_of (nd : NdClass) (r : ContentRef) : CacheHit :=
  match nd with
  | Pure => CacheHit.Pure r
  | ReadOnlyNondet => CacheHit.ReadOnlyNondet r
  | WorldMutating => CacheHit.WorldMutating r true
  end.
(** The loop over the parents, with its early return. *)
Fixpoint data_parent_repudiated (snapshot : State) (ps : list ParentRef) : bool :=
  match ps with
  | [] => false
  | p :: ps =>
      if negb (bool_decide (p.(edge).(kind) = Data)) then data_parent_repudiated snapshot ps
      else if bool_decide (state_of_id snapshot p.(parent_id) = MoteState.Repudiated) then true
      else data_parent_repudiated snapshot ps
  end.
Definition lookup_hit (mote : Mote) (snapshot : State) : option CacheHit :=
  if negb (bool_decide (state_of_id snapshot mote.(mote_id) = MoteState.Committed)) then None
  else if data_parent_repudiated snapshot mote.(parents) then None
  else match result_ref_of snapshot mote.(mote_id) with
       | None => None
       | Some r => Some (hit_of mote.(def).(nd_class) r)
       end.

Lemma data_parent_repudiated_spec s ps :
  data_parent_repudiated s ps = true <->
  exists p, p ∈ ps /\ p.(edge).(kind) = Data /\ state_of_id s p.(parent_id) = MoteState.Repudiated.
Proof.
  induction ps as [|p ps IH]; cbn [data_parent_repudiated].
  { split; [done|]. by intros (p & H%elem_of_nil & _). }
  setoid_rewrite elem_of_cons. case_bool_decide; cbn [negb]; [case_bool_decide|]; naive_solver.
Qed.
Lemma committed_info s id :
  state_of_id s id = MoteState.Committed ->
  exists c, committed (mote_info s id) = Some c /\ result_ref_of s id = Some c.(CommittedInfo.result_ref).
Proof.
  unfold state_of_id, mote_info, result_ref_of. destruct (motes s !! id) as [info|]; [|done]. cbn.
  unfold info_state. destruct (inconsistent info); [done|].
  destruct (committed info) as [c|]; [by eauto|repeat case_match; done].
Qed.
Lemma lookup_hit_spec mote s h :
  lookup_hit mote s = Some h <->
  state_of_id s mote.(mote_id) = MoteState.Committed
  /\ data_parent_repudiated s mote.(parents) = false
  /\ exists c, committed (mote_info s mote.(mote_id)) = Some c
       /\ h = hit_of mote.(def).(nd_class) c.(CommittedInfo.result_ref).
Proof.
  unfold lookup_hit. case_bool_decide as Hst; cbn [negb]; [|naive_solver].
  destruct (committed_info s (mote_id mote) Hst) as (c & Hc & ->).
  destruct (data_parent_repudiated s (parents mote)); naive_solver.
Qed.
Lemma repudiated_result c : CommittedInfo.result_ref (CommittedInfo.repudiate c) = CommittedInfo.result_ref c.
Proof. done. Qed.

(** Memoized results are stable: once a Mote has a cache hit, every later
    lookup gives the very same hit, or none because the Mote itself or one of
    its data parents has been repudiated. The hit asks for a re-dispatch of the
    effect exactly for a world-mutating Mote, while the projection never
    permits one for it again. *)
Theorem memo_hits_are_stable materializer s s' mote h :
  rtc (proj_step materializer) s s' -> lookup_hit mote s = Some h ->
  (lookup_hit mote s' = Some h
   \/ lookup_hit mote s' = None
      /\ (state_of_id s' mote.(mote_id) = MoteState.Repudiated
          \/ exists p, p ∈ mote.(parents) /\ p.(edge).(kind) = Data
               /\ state_of_id s' p.(parent_id) = MoteState.Repudiated))
  /\ (CacheHit.requires_redispatch h = true <-> mote.(def).(nd_class) = WorldMutating)
  /\ can_redispatch_world_effect_id s' mote.(mote_id) = false.
Proof.
  intros Hs (Hst & Hp & c & Hc & ->)%lookup_hit_spec.
  pose proof (steps_le materializer s s' (mote_id mote) Hs) as [HC _ _ _ _ _].
  destruct (HC c Hc) as (Hinc & c' & Hc' & Hle).
  assert (Hst' : state_of_id s' (mote_id mote)
                 = if CommittedInfo.repudiated c' then MoteState.Repudiated else MoteState.Committed).
  { rewrite state_of_mote_info in Hst |- *. unfold info_state in *. rewrite Hinc, Hc'.
    by destruct (inconsistent (mote_info s (mote_id mote))). }
  assert (Hres : CommittedInfo.result_ref c' = CommittedInfo.result_ref c) by (by destruct Hle as [->| ->]).
  split_and!.
  - destruct (CommittedInfo.repudiated c').
    { right. split; [|by left]. unfold lookup_hit. by rewrite bool_decide_false by congruence. }
    destruct (data_parent_repudiated s' (parents mote)) eqn:Hd.
    + right. split; [|right; by apply data_parent_repudiated_spec].
      unfold lookup_hit. rewrite bool_decide_true by done. by rewrite Hd.
    + left. apply lookup_hit_spec. split_and!; [done|done|]. exists c'. by rewrite Hres.
  - by destruct (nd_class (def mote)).
  - apply not_true_is_false. intros (_ & _ & Hn & _)%can_redispatch_mote_info. cbn in Hn. congruence.
Qed.

Definition demo_world_mote : Mote := {|
  mote_id := [1];
  def := {| logic_ref := []; model_id := []; prompt_template_hash := []; tool_contract := ∅;
            nd_class := WorldMutating; config_subset := ∅; effect_pattern := StageThenCommit;
            critic_for := None; is_topology_shaper := false;
            inference_params := InferenceParams_default; critic_check := None; schema_version := 5 |};
  input_data_id := []; graph_position := []; parents := [] |}.
Lemma memo_hits_are_stable_witness :
  lookup_hit demo_world_mote demo_dag = Some (CacheHit.WorldMutating [7] true)
  /\ can_redispatch_world_effect_id demo_dag [1] = false.
Proof.
  split; [by vm_compute|].
  exact (proj2 (proj2 (memo_hits_are_stable None demo_dag demo_dag demo_world_mote
           (CacheHit.WorldMutating [7] true) (rtc_refl _ _) ltac:(by vm_compute)))).
Defined.
