(* ===== verification/Scheduler.v ===== *)
(** kx-scheduler (placement.rs, scheduler.rs): submissions wait in a pending map
    until the projection reports them ready; a tick hands each ready one to the
    executor once. The executor is an argument; what it returns is recorded, not
    interpreted. *)
From S2P Require Import Prelude Utf8 Mote Entry Journal Warrant DemoCodec ProjState ProjIndex ProjFold ProjHistory ProjQuery.

(** ** Placement *)
Abbreviation WorkerId := Z.
Class Placement (P : Type) := { place : P -> MoteId -> WorkerId * P }.
Inductive LocalPlacement := Local.
#[export] Instance LocalPlacement_placement : Placement LocalPlacement :=
  {| place := fun p _ => (0, p) |}.
Record RoundRobinPlacement := { n_workers : Z; next : Z }.
(** [assert!(n_workers > 0)] *)
Definition RoundRobinPlacement_new (n : Z) : outcome RoundRobinPlacement unit :=
  if 0 <? n then Ok {| n_workers := n; next := 0 |} else Panic.
Definition rr_place (p : RoundRobinPlacement) (_ : MoteId) : WorkerId * RoundRobinPlacement :=
  (p.(next) mod p.(n_workers), {| n_workers := p.(n_workers); next := u64_add p.(next) 1 |}).
#[export] Instance RoundRobinPlacement_placement : Placement RoundRobinPlacement := {| place := rr_place |}.

(** ** Scheduler *)
Inductive SchedulerError := DuplicateSubmission (id : MoteId).
Record Scheduler (P : Type) := { placement : P; pending : gmap bytes (Mote * WarrantSpec) }.
Arguments placement {P} _.
Arguments pending {P} _.
Definition Scheduler_new {P} (p : P) : Scheduler P := {| placement := p; pending := ∅ |}.
Definition pending_count {P} (s : Scheduler P) : nat := size s.(pending).

Section Scheduler.
Context `{Blake3, Bincode WarrantSpec}.
Context {P : Type} `{Placement P}.
(** The result of [executor.run(&mote, &warrant, None)]. *)
Context {R : Type} (run : Mote -> WarrantSpec -> R).

Record DispatchedMote := { d_mote_id : MoteId; d_worker : WorkerId; d_result : R }.

Definition submit (mote : Mote) (warrant : WarrantSpec) (sch : Scheduler P) (projection : State)
    : outcome (Scheduler P * State) SchedulerError :=
  if bool_decide (is_Some (sch.(pending) !! mote.(mote_id)))
  then Err (DuplicateSubmission mote.(mote_id))
  else
    let projection := register_mote {|
      RegisterMote.mote_id := mote.(mote_id);
      RegisterMote.nd_class := mote.(def).(Mote.nd_class);
      RegisterMote.effect_pattern := mote.(def).(Mote.effect_pattern);
      RegisterMote.critic_for := mote.(def).(Mote.critic_for);
      RegisterMote.is_topology_shaper := mote.(def).(Mote.is_topology_shaper);
      RegisterMote.parents := mote.(parents);
      RegisterMote.warrant_ref := Warrant.warrant_ref_of warrant |} projection in
    Ok ({| placement := sch.(placement);
           pending := <[mote.(mote_id) := (mote, warrant)]> sch.(pending) |}, projection).

Definition tick_one (acc : Scheduler P * list DispatchedMote) (id : MoteId)
    : Scheduler P * list DispatchedMote :=
  let '(sch, dispatched) := acc in
  match sch.(pending) !! id with
  | None => acc
  | Some (mote, warrant) =>
      let '(worker, placement) := place sch.(placement) id in
      ({| placement := placement; pending := delete id sch.(pending) |},
       dispatched ++ [{| d_mote_id := id; d_worker := worker; d_result := run mote warrant |}])
  end.
Definition tick (projection : State) (sch : Scheduler P) : Scheduler P * list DispatchedMote :=
  foldl tick_one (sch, []) (ready_set_impl projection).

(** ** A run of the system: submissions, ticks, and journal entries folded in
    between, with the dispatches and the accepted submissions so far. *)
Record System := {
  scheduler : Scheduler P;
  projection : State;
  dispatched : list DispatchedMote;
  accepted : list (Mote * WarrantSpec)
}.
Inductive sys_step (materializer : option Materializer) : System -> System -> Prop :=
| sys_submit mote warrant sys sch' proj' :
    submit mote warrant sys.(scheduler) sys.(projection) = Ok (sch', proj') ->
    sys_step materializer sys
      {| scheduler := sch'; projection := proj'; dispatched := sys.(dispatched);
         accepted := sys.(accepted) ++ [(mote, warrant)] |}
| sys_tick sys :
    sys_step materializer sys
      {| scheduler := (tick sys.(projection) sys.(scheduler)).1; projection := sys.(projection);
         dispatched := sys.(dispatched) ++ (tick sys.(projection) sys.(scheduler)).2;
         accepted := sys.(accepted) |}
| sys_fold e sys :
    sys_step materializer sys
      {| scheduler := sys.(scheduler); projection := (fold materializer e sys.(projection)).1;
         dispatched := sys.(dispatched); accepted := sys.(accepted) |}.
Definition sys_init (p : P) : System :=
  {| scheduler := Scheduler_new p; projection := State_default; dispatched := []; accepted := [] |}.

(** ** One tick *)
Definition of_id (id : MoteId) (d : DispatchedMote) : bool := bool_decide (d.(d_mote_id) = id).
Definition is_pending (sch : Scheduler P) (id : MoteId) : nat :=
  if bool_decide (is_Some (sch.(pending) !! id)) then 1 else 0.
Definition count_of (id : MoteId) (l : list DispatchedMote) : nat := length (List.filter (of_id id) l).
Definition accepted_of (id : MoteId) (l : list (Mote * WarrantSpec)) : nat :=
  length (List.filter (fun x => bool_decide (mote_id x.1 = id)) l).

Lemma tick_one_conserves acc x id :
  (count_of id (tick_one acc x).2 + is_pending (tick_one acc x).1 id
   = count_of id acc.2 + is_pending acc.1 id)%nat.
Proof.
  destruct acc as [sch out]. cbn [tick_one]. destruct (pending sch !! x) as [[mote w]|] eqn:Hx; [|done].
  destruct (place (placement sch) x) as [worker p']. cbn [fst snd]. unfold count_of, is_pending.
  rewrite List.filter_app, length_app. cbn [List.filter pending]. unfold of_id at 2. cbn [d_mote_id].
  destruct (decide (x = id)) as [->|Hne].
  - rewrite bool_decide_true, lookup_delete_eq, Hx by done. cbn [length].
    rewrite bool_decide_false by (by intros [? [=]]). rewrite bool_decide_true by eauto. lia.
  - rewrite (bool_decide_false (x = id)), lookup_delete_ne by done. cbn [length]. lia.
Qed.
Lemma tick_conserves proj sch id :
  (count_of id (tick proj sch).2 + is_pending (tick proj sch).1 id = is_pending sch id)%nat.
Proof.
  unfold tick.
  cut (forall l acc, (count_of id (foldl tick_one acc l).2 + is_pending (foldl tick_one acc l).1 id
                      = count_of id acc.2 + is_pending acc.1 id)%nat).
  { intros Hl. by rewrite (Hl _ (sch, [])). }
  induction l as [|x l IH]; intros acc; [done|]. cbn [foldl]. by rewrite IH, tick_one_conserves.
Qed.
(** Who is dispatched, and with what. *)
Lemma tick_one_shape acc x :
  exists new, (tick_one acc x).2 = acc.2 ++ new
    /\ pending (tick_one acc x).1 = match pending acc.1 !! x with Some _ => delete x (pending acc.1) | None => pending acc.1 end
    /\ forall d, d ∈ new <-> d_mote_id d = x /\ d ∈ new
         /\ exists mote w, pending acc.1 !! x = Some (mote, w) /\ d_result d = run mote w.
Proof.
  destruct acc as [sch out]. cbn [tick_one]. destruct (pending sch !! x) as [[mote w]|] eqn:Hx.
  - destruct (place (placement sch) x) as [worker p']. eexists. split; [reflexivity|].
    cbn [fst snd pending]. rewrite Hx. split; [done|]. intros d. rewrite list_elem_of_singleton.
    split; [|naive_solver]. intros ->. cbn. eauto 10.
  - exists []. cbn [fst snd]. rewrite app_nil_r, Hx. split_and!; [done|done|]. intros d.
    split; [by intros ?%elem_of_nil|naive_solver].
Qed.
Lemma tick_sound l : forall acc d,
  d ∈ (foldl tick_one acc l).2 ->
  d ∈ acc.2 \/ d_mote_id d ∈ l /\ exists mote w, pending acc.1 !! d_mote_id d = Some (mote, w)
                                              /\ d_result d = run mote w.
Proof.
  induction l as [|x l IH]; intros acc d; [by left|]. cbn [foldl]. intros Hd.
  destruct (tick_one_shape acc x) as (new & E2 & E1 & Hnew).
  apply IH in Hd as [Hd|(Hin & mote & w & Hp & Hr)].
  - rewrite E2 in Hd. apply elem_of_app in Hd as [Hd|Hd]; [by left|right].
    apply Hnew in Hd as (<- & _ & mote & w & Hp & Hr). split; [by left|]. eauto.
  - right. split; [by right|]. exists mote, w. split; [|done]. rewrite E1 in Hp.
    destruct (pending acc.1 !! x); [|done]. by apply lookup_delete_Some in Hp as [_ ?].
Qed.
Lemma tick_leaves l : forall acc id,
  id ∈ l -> pending (foldl tick_one acc l).1 !! id = None.
Proof.
  induction l as [|x l IH]; intros acc id; [by intros ?%elem_of_nil|]. cbn [foldl].
  intros [->|Hin]%elem_of_cons; [|by apply IH].
  assert (Hn : pending (tick_one acc x).1 !! x = None).
  { destruct (tick_one_shape acc x) as (_ & _ & -> & _).
    destruct (pending acc.1 !! x) eqn:E; [apply lookup_delete_eq|done]. }
  revert Hn. generalize (tick_one acc x) as acc'. clear IH. induction l as [|y l IH]; intros acc' Hn; [done|].
  cbn [foldl]. apply IH. destruct (tick_one_shape acc' y) as (_ & _ & -> & _).
  destruct (pending acc'.1 !! y); [|done]. by apply lookup_delete_None; right.
Qed.
Lemma tick_pending proj sch id mw :
  pending (tick proj sch).1 !! id = Some mw -> pending sch !! id = Some mw /\ id ∉ ready_set_impl proj.
Proof.
  unfold tick. intros Hp. split.
  - revert Hp. generalize (ready_set_impl proj). intros l.
    cut (forall acc : Scheduler P * list DispatchedMote,
           pending (foldl tick_one acc l).1 !! id = Some mw -> pending acc.1 !! id = Some mw);
      [intros Hl; apply (Hl (sch, []))|].
    induction l as [|x l IH]; intros acc Hp; [done|]. cbn [foldl] in Hp. apply IH in Hp.
    destruct (tick_one_shape acc x) as (_ & _ & E & _). rewrite E in Hp.
    destruct (pending acc.1 !! x); [|done]. by apply lookup_delete_Some in Hp as [_ ?].
  - intros Hin. rewrite (tick_leaves _ _ _ Hin) in Hp. done.
Qed.

(** What holds along every run. *)
Record sys_ok (sys : System) : Prop := {
  so_pending : forall id mote w, pending sys.(scheduler) !! id = Some (mote, w) ->
    mote_id mote = id /\ (mote, w) ∈ sys.(accepted);
  so_dispatched : forall d, d ∈ sys.(dispatched) ->
    exists mote w, (mote, w) ∈ sys.(accepted) /\ mote_id mote = d_mote_id d /\ d_result d = run mote w;
  so_count : forall id, (count_of id sys.(dispatched) + is_pending sys.(scheduler) id
                         = accepted_of id sys.(accepted))%nat
}.
Lemma sys_ok_init p : sys_ok (sys_init p).
Proof. split; cbn; [by intros id|by intros d ?%elem_of_nil|done]. Qed.
Lemma sys_ok_step materializer sys sys' : sys_step materializer sys sys' -> sys_ok sys -> sys_ok sys'.
Proof.
  intros [mote w sys0 sch' proj' Hsub|sys0|e sys0] [Hp Hd Hc].
  - unfold submit in Hsub. case_bool_decide as Hnew; [done|]. apply ok_inj in Hsub as [= <- <-].
    split; cbn [scheduler pending accepted dispatched].
    + intros id m' w' [[<- [= <- <-]]|[_ Hl]]%lookup_insert_Some.
      * split; [done|]. apply elem_of_app. right. by left.
      * destruct (Hp _ _ _ Hl) as [? ?]. split; [done|]. apply elem_of_app. by left.
    + intros d Hin. destruct (Hd d Hin) as (m' & w' & ? & ? & ?). exists m', w'.
      split_and!; [apply elem_of_app; by left|done|done].
    + intros id. unfold accepted_of, is_pending in *. cbn [pending].
      rewrite List.filter_app, length_app. cbn [List.filter fst]. specialize (Hc id).
      destruct (decide (mote_id mote = id)) as [<-|Hne].
      * rewrite lookup_insert_eq, (bool_decide_true (_ = _)) by done. cbn [length].
        rewrite (bool_decide_false _ Hnew) in Hc. rewrite bool_decide_true by eauto. lia.
      * rewrite lookup_insert_ne, (bool_decide_false (_ = id)) by done. cbn [length]. lia.
  - split; cbn [scheduler accepted dispatched].
    + intros id m' w' [Hl _]%tick_pending. by apply Hp.
    + intros d [Hin|Hin]%elem_of_app; [by apply Hd|]. unfold tick in Hin.
      apply tick_sound in Hin as [Hin|(_ & m' & w' & Hl & Hr)]; [by apply elem_of_nil in Hin|].
      cbn [fst] in Hl. destruct (Hp _ _ _ Hl). by exists m', w'.
    + intros id. unfold count_of at 1. rewrite List.filter_app, length_app. specialize (Hc id).
      pose proof (tick_conserves (projection sys0) (scheduler sys0) id). unfold count_of in *. lia.
  - by split.
Qed.

(** Dispatch accounting: along any run of submissions, ticks and journal
    folds, every accepted submission is either still pending or dispatched
    exactly once, with its own Mote and warrant; a tick dispatches only Motes
    that are pending and in the ready set, and leaves no ready Mote pending. *)
Theorem dispatch_exactly_once materializer p sys :
  rtc (sys_step materializer) (sys_init p) sys ->
  (forall id, (count_of id sys.(dispatched) + is_pending sys.(scheduler) id
               = accepted_of id sys.(accepted))%nat)
  /\ (forall d, d ∈ sys.(dispatched) ->
        exists mote w, (mote, w) ∈ sys.(accepted) /\ mote_id mote = d_mote_id d
                       /\ d_result d = run mote w)
  /\ (forall d, d ∈ (tick sys.(projection) sys.(scheduler)).2 ->
        d_mote_id d ∈ ready_set_impl sys.(projection)
        /\ is_Some (pending sys.(scheduler) !! d_mote_id d))
  /\ (forall id, is_Some (pending (tick sys.(projection) sys.(scheduler)).1 !! id) ->
        id ∉ ready_set_impl sys.(projection)).
Proof.
  intros Hs. assert (sys_ok sys) as [Hp Hd Hc].
  { cut (forall sys0, rtc (sys_step materializer) sys0 sys -> sys_ok sys0 -> sys_ok sys);
      [eauto using sys_ok_init|]. clear. induction 1; eauto using sys_ok_step. }
  split_and!; [done|done| |].
  - intros d Hin. unfold tick in Hin.
    apply tick_sound in Hin as [Hin|(Hin & m' & w' & Hl & _)]; [by apply elem_of_nil in Hin|]. eauto.
  - intros id [mw Hl]. by apply tick_pending in Hl as [_ ?].
Qed.
End Scheduler.

(** ** A concrete run: one submission, one tick *)
Definition demo_pure_mote : Mote := {|
  mote_id := [1];
  def := {| logic_ref := []; model_id := []; prompt_template_hash := []; tool_contract := ∅;
            Mote.nd_class := Pure; config_subset := ∅; Mote.effect_pattern := IdempotentByConstruction;
            Mote.critic_for := None; Mote.is_topology_shaper := false;
            inference_params := InferenceParams_default; critic_check := None; schema_version := 5 |};
  input_data_id := []; graph_position := []; parents := [] |}.
Definition demo_system : System (R := unit) :=
  match submit (H := demo_blake3) (H0 := demo_bincode) demo_pure_mote (demo_warrant 1 FsMode.ReadOnly)
          (Scheduler_new Local) State_default with
  | Ok (sch, proj) =>
      {| scheduler := (tick (fun _ _ => tt) proj sch).1; projection := proj;
         dispatched := (tick (fun _ _ => tt) proj sch).2;
         accepted := [(demo_pure_mote, demo_warrant 1 FsMode.ReadOnly)] |}
  | _ => sys_init Local
  end.
Lemma demo_system_reachable :
  rtc (sys_step (H := demo_blake3) (H0 := demo_bincode) (fun _ _ => tt) None) (sys_init Local) demo_system.
Proof.
  eapply rtc_l; [by apply (sys_submit _ _ demo_pure_mote (demo_warrant 1 FsMode.ReadOnly))|].
  eapply rtc_l; [apply sys_tick|]. apply rtc_refl.
Qed.
Lemma dispatch_exactly_once_witness :
  (count_of [1%Z] demo_system.(dispatched) + is_pending demo_system.(scheduler) [1%Z] = 1)%nat
  /\ is_pending demo_system.(scheduler) [1] = 0%nat.
Proof.
  destruct (dispatch_exactly_once (H := demo_blake3) (H0 := demo_bincode) (fun _ _ => tt) None Local
              demo_system demo_system_reachable) as (Hc & _).
  split; [rewrite Hc|]; by vm_compute.
Defined.
