(* ===== verification/Refusal.v ===== *)
(** kx-refusal (refusal.rs): the predicates a workflow submission is checked
    against before anything of it runs. *)
From S2P Require Import Prelude Utf8 CriticTypes Mote Warrant.

Module IdempotencyClass.
Inductive IdempotencyClass := Token | Readback | Staged | AtLeastOnce.
End IdempotencyClass.
Abbreviation IdempotencyClass := IdempotencyClass.IdempotencyClass.

Module SubmissionRefusal.
Inductive SubmissionRefusal :=
| R1NoIdempotentTool (mote_id : MoteId)
| R2NoCritic (mote_id : MoteId)
| R3EffectPatternMissing (mote_id : MoteId)
| R4CriticTargetMissing (mote_id target : MoteId)
| R5CriticTargetWrongClass (mote_id target : MoteId) (target_class : NdClass)
| R6MultiCritic (first_critic second_critic target : MoteId)
| R7WorldMutatingCritic (mote_id : MoteId)
| R8ShaperAndCritic (mote_id : MoteId)
| R8bShaperImperativeSpawn (mote_id : MoteId)
| R9CriticChainNotTerminating (mote_id : MoteId)
| ValidatorTypeError (mote_id : MoteId) (missing_summary : bytes)
| AttemptedWiden (mote_id : MoteId) (narrowing_error : bytes)
| R10AtLeastOnceWithoutAccept (mote_id : MoteId)
| R14WorldMutatingShaper (mote_id : MoteId)
| R15NativeCheckShape (mote_id : MoteId)
| D66UnresolvableWorldMutatingTools (mote_id : MoteId).
Definition code (r : SubmissionRefusal) : bytes :=
  str match r with
      | R1NoIdempotentTool _ => "R-1" | R2NoCritic _ => "R-2" | R3EffectPatternMissing _ => "R-3"
      | R4CriticTargetMissing _ _ => "R-4" | R5CriticTargetWrongClass _ _ _ => "R-5"
      | R6MultiCritic _ _ _ => "R-6" | R7WorldMutatingCritic _ => "R-7"
      | R8ShaperAndCritic _ => "R-8" | R8bShaperImperativeSpawn _ => "R-8b"
      | R9CriticChainNotTerminating _ => "R-9" | ValidatorTypeError _ _ => "ValidatorTypeError"
      | AttemptedWiden _ _ => "AttemptedWiden" | R10AtLeastOnceWithoutAccept _ => "R-10"
      | R14WorldMutatingShaper _ => "R-14" | R15NativeCheckShape _ => "R-15"
      | D66UnresolvableWorldMutatingTools _ => "D66"
      end.
End SubmissionRefusal.
Abbreviation SubmissionRefusal := SubmissionRefusal.SubmissionRefusal.
Import SubmissionRefusal.

Record WorkflowSubmission := {
  run_id : bytes;
  master_warrant : WarrantSpec;
  motes : gmap bytes Mote;
  accept_at_least_once : gmap bytes bool
}.
Inductive ToolResolution := Resolved (classes : list IdempotencyClass) | Unresolved.

(** [for x in l { f(x)?; }] *)
Fixpoint for_each {A E} (f : A -> outcome unit E) (l : list A) : outcome unit E :=
  match l with
  | [] => Ok tt
  | x :: l => let* _ := f x in for_each f l
  end.

Abbreviation is_wm m := (bool_decide (m.(def).(nd_class) = WorldMutating)).
Definition check_r1 (mote : Mote) : outcome unit SubmissionRefusal :=
  if negb (is_wm mote) then Ok tt
  else if negb (bool_decide (mote.(def).(effect_pattern) = IdempotentByConstruction)) then Ok tt
  else if bool_decide (mote.(def).(tool_contract) = ∅) then Err (R1NoIdempotentTool mote.(mote_id))
  else Ok tt.
Definition is_critic_for (target : MoteId) (m : Mote) : bool :=
  bool_decide (m.(def).(critic_for) = Some target).
Definition check_r2 (mote : Mote) (ms : gmap bytes Mote) : outcome unit SubmissionRefusal :=
  if negb (is_wm mote) then Ok tt
  else if negb (bool_decide (mote.(def).(effect_pattern) = ValidateThenCommit)) then Ok tt
  else if existsb (is_critic_for mote.(mote_id)) (btree_values ms) then Ok tt
  else Err (R2NoCritic mote.(mote_id)).
(** R-3 and R-8b have no refusing path. *)
Definition check_r3 (_ : Mote) : unit := tt.
Definition check_r8b (_ : Mote) (_ : gmap bytes Mote) : unit := tt.
Definition check_r4_r5_r7 (mote : Mote) (ms : gmap bytes Mote) : outcome unit SubmissionRefusal :=
  match mote.(def).(critic_for) with
  | None => Ok tt
  | Some target_id =>
      if is_wm mote then Err (R7WorldMutatingCritic mote.(mote_id))
      else match ms !! target_id with
           | None => Err (R4CriticTargetMissing mote.(mote_id) target_id)
           | Some target =>
               if negb (is_wm target)
               then Err (R5CriticTargetWrongClass mote.(mote_id) target_id target.(def).(nd_class))
               else Ok tt
           end
  end.
Fixpoint check_r6_loop (targets : gmap bytes MoteId) (l : list Mote) : outcome unit SubmissionRefusal :=
  match l with
  | [] => Ok tt
  | critic :: l =>
      match critic.(def).(critic_for) with
      | None => check_r6_loop targets l
      | Some target =>
          match targets !! target with
          | Some first_critic => Err (R6MultiCritic first_critic critic.(mote_id) target)
          | None => check_r6_loop (<[target := critic.(mote_id)]> targets) l
          end
      end
  end.
Definition check_r6 (ms : gmap bytes Mote) : outcome unit SubmissionRefusal :=
  check_r6_loop ∅ (btree_values ms).
Definition check_r8 (mote : Mote) : outcome unit SubmissionRefusal :=
  if mote.(def).(is_topology_shaper) && bool_decide (is_Some mote.(def).(critic_for))
  then Err (R8ShaperAndCritic mote.(mote_id)) else Ok tt.
Definition check_r14 (mote : Mote) : outcome unit SubmissionRefusal :=
  if mote.(def).(is_topology_shaper) && is_wm mote
  then Err (R14WorldMutatingShaper mote.(mote_id)) else Ok tt.
Definition shape_ok (want : NdClass) (mote : Mote) : outcome unit SubmissionRefusal :=
  if negb (bool_decide (mote.(def).(nd_class) = want))
     || bool_decide (mote.(def).(critic_for) = None) || mote.(def).(is_topology_shaper)
  then Err (R15NativeCheckShape mote.(mote_id)) else Ok tt.
Definition native_critic_shape (mote : Mote) : outcome unit SubmissionRefusal :=
  match mote.(def).(critic_check) with
  | None => Ok tt
  | Some c => if is_llm_judge c then Ok tt else shape_ok Pure mote
  end.
Definition native_judge_shape (mote : Mote) : outcome unit SubmissionRefusal :=
  match mote.(def).(critic_check) with
  | Some c => if is_llm_judge c then shape_ok ReadOnlyNondet mote else Ok tt
  | None => Ok tt
  end.
Definition check_r15 (mote : Mote) : outcome unit SubmissionRefusal :=
  if (match mote.(def).(critic_check) with Some c => is_llm_judge c | None => false end)
  then native_judge_shape mote else native_critic_shape mote.
(** The walk up the critic chain, at most [depth] steps. *)
Fixpoint r9_walk (ms : gmap bytes Mote) (id : MoteId) (depth : nat) (visited : gset bytes)
    (current_target : MoteId) : outcome unit SubmissionRefusal :=
  match depth with
  | O => Err (R9CriticChainNotTerminating id)
  | S depth =>
      match List.find (is_critic_for current_target) (btree_values ms) with
      | Some c =>
          if bool_decide (c.(def).(nd_class) = Pure) then Ok tt
          else if bool_decide (c.(mote_id) ∈ visited) then Err (R9CriticChainNotTerminating id)
          else r9_walk ms id depth ({[c.(mote_id)]} ∪ visited) c.(mote_id)
      | None => Err (R9CriticChainNotTerminating id)
      end
  end.
Definition check_r9 (mote : Mote) (ms : gmap bytes Mote) : outcome unit SubmissionRefusal :=
  if negb (is_wm mote) then Ok tt
  else if negb (bool_decide (mote.(def).(effect_pattern) = ValidateThenCommit)) then Ok tt
  else r9_walk ms mote.(mote_id) 8 {[mote.(mote_id)]} mote.(mote_id).
Definition has_at_least_once (classes : list IdempotencyClass) : bool :=
  existsb (fun c => match c with IdempotencyClass.AtLeastOnce => true | _ => false end) classes.
Definition check_r10 (mote : Mote) (submission : WorkflowSubmission)
    (resolved : gmap bytes (list IdempotencyClass)) : outcome unit SubmissionRefusal :=
  if negb (is_wm mote) then Ok tt
  else match resolved !! mote.(mote_id) with
       | None => Ok tt
       | Some classes =>
           if negb (has_at_least_once classes) then Ok tt
           else if bool_decide (submission.(accept_at_least_once) !! mote.(mote_id) = Some true) then Ok tt
           else Err (R10AtLeastOnceWithoutAccept mote.(mote_id))
       end.
Definition check_r7_self (mote : Mote) : outcome unit SubmissionRefusal :=
  if bool_decide (is_Some mote.(def).(critic_for)) && is_wm mote
  then Err (R7WorldMutatingCritic mote.(mote_id)) else Ok tt.
Definition check_r10_resolved (mote : Mote) (accept : bool) (resolution : ToolResolution)
    : outcome unit SubmissionRefusal :=
  if negb (is_wm mote) then Ok tt
  else match resolution with
       | Unresolved => Err (D66UnresolvableWorldMutatingTools mote.(mote_id))
       | Resolved classes =>
           if has_at_least_once classes && negb accept
           then Err (R10AtLeastOnceWithoutAccept mote.(mote_id)) else Ok tt
       end.

Definition validate_submission (submission : WorkflowSubmission) : outcome unit SubmissionRefusal :=
  let ms := submission.(motes) in
  let values := btree_values ms in
  let* _ := for_each (fun m => let _ := check_r3 m in Ok tt) values in
  let* _ := for_each (fun m => let* _ := check_r1 m in check_r2 m ms) values in
  let* _ := for_each (fun m => check_r4_r5_r7 m ms) values in
  let* _ := check_r6 ms in
  let* _ := for_each (fun m => let* _ := check_r8 m in let _ := check_r8b m ms in
                               let* _ := check_r14 m in check_r15 m) values in
  for_each (fun m => check_r9 m ms) values.
Definition validate_submission_with_idempotency (submission : WorkflowSubmission)
    (resolved : gmap bytes (list IdempotencyClass)) : outcome unit SubmissionRefusal :=
  let* _ := validate_submission submission in
  for_each (fun m => check_r10 m submission resolved) (btree_values submission.(motes)).
Definition validate_mote_submission (mote : Mote) (accept : bool) (resolution : ToolResolution)
    : outcome unit SubmissionRefusal :=
  let _ := check_r3 mote in
  let* _ := check_r1 mote in
  let* _ := check_r7_self mote in
  let* _ := check_r8 mote in
  let _ := check_r8b mote ∅ in
  let* _ := check_r14 mote in
  let* _ := check_r15 mote in
  check_r10_resolved mote accept resolution.
Definition refusal_from_narrowing (narrowing_text : NarrowingError -> bytes) (id : MoteId)
    (err : NarrowingError) : SubmissionRefusal := AttemptedWiden id (narrowing_text err).

(** ** What an accepted submission satisfies *)
Record mote_safe (m : Mote) : Prop := {
  ms_tool : m.(def).(nd_class) = WorldMutating -> m.(def).(effect_pattern) = IdempotentByConstruction ->
    m.(def).(tool_contract) <> ∅;
  ms_critic : is_Some m.(def).(critic_for) -> m.(def).(nd_class) <> WorldMutating;
  ms_shaper : m.(def).(is_topology_shaper) = true ->
    m.(def).(critic_for) = None /\ m.(def).(nd_class) <> WorldMutating;
  ms_check : forall c, m.(def).(critic_check) = Some c ->
    m.(def).(nd_class) = (if is_llm_judge c then ReadOnlyNondet else Pure)
    /\ is_Some m.(def).(critic_for) /\ m.(def).(is_topology_shaper) = false
}.
Record submission_safe (ms : gmap bytes Mote) : Prop := {
  ss_motes : forall k m, ms !! k = Some m -> mote_safe m;
  ss_targets : forall k m t, ms !! k = Some m -> m.(def).(critic_for) = Some t ->
    exists target, ms !! t = Some target /\ target.(def).(nd_class) = WorldMutating;
  ss_unique : forall k k' m m' t, ms !! k = Some m -> ms !! k' = Some m' ->
    m.(def).(critic_for) = Some t -> m'.(def).(critic_for) = Some t -> k = k';
  ss_validated : forall k m, ms !! k = Some m -> m.(def).(nd_class) = WorldMutating ->
    m.(def).(effect_pattern) = ValidateThenCommit ->
    exists k' critic, ms !! k' = Some critic /\ critic.(def).(critic_for) = Some k
      /\ critic.(def).(nd_class) = Pure
}.

Lemma for_each_ok {A E} (f : A -> outcome unit E) l :
  for_each f l = Ok tt <-> forall x, x ∈ l -> f x = Ok tt.
Proof.
  induction l as [|x l IH]; cbn [for_each].
  { split; [by intros _ x ?%elem_of_nil|done]. }
  setoid_rewrite elem_of_cons. destruct (f x) as [[]|e|] eqn:Hx; cbn [obind].
  - rewrite IH. naive_solver.
  - split; [done|]. intros H. specialize (H x (or_introl eq_refl)). congruence.
  - split; [done|]. intros H. specialize (H x (or_introl eq_refl)). congruence.
Qed.
Lemma obind_unit {E} (m k : outcome unit E) :
  (let* _ := m in k) = Ok tt <-> m = Ok tt /\ k = Ok tt.
Proof. destruct m as [[]|e|]; cbn [obind]; naive_solver. Qed.
Lemma elem_of_values {V} (m : gmap bytes V) (v : V) : v ∈ btree_values m <-> exists k, m !! k = Some v.
Proof.
  unfold btree_values. rewrite list_elem_of_fmap. split.
  - intros ([k v'] & -> & Hin%elem_of_btree_iter). eauto.
  - intros [k Hk]. exists (k, v). split; [done|]. by apply elem_of_btree_iter.
Qed.

(** Case analysis on the guards of one check. *)
Ltac guards := repeat case_bool_decide; cbn [negb andb orb]; try naive_solver.

Lemma check_r1_ok m : check_r1 m = Ok tt <->
  (m.(def).(nd_class) = WorldMutating -> m.(def).(effect_pattern) = IdempotentByConstruction ->
   m.(def).(tool_contract) <> ∅).
Proof. unfold check_r1. guards. Qed.
Lemma check_r2_ok m ms : check_r2 m ms = Ok tt <->
  (m.(def).(nd_class) = WorldMutating -> m.(def).(effect_pattern) = ValidateThenCommit ->
   exists k c, ms !! k = Some c /\ c.(def).(critic_for) = Some m.(mote_id)).
Proof.
  unfold check_r2. guards. destruct (existsb _ _) eqn:He.
  - split; [|done]. intros _ _ _. apply existsb_exists in He as (c & Hc & Hf).
    apply list_elem_of_In, elem_of_values in Hc as [k Hk]. unfold is_critic_for in Hf.
    apply bool_decide_eq_true in Hf. eauto.
  - split; [done|]. intros Hex. destruct Hex as (k & c & Hk & Hf); [done..|].
    apply not_true_iff_false in He. exfalso. apply He. apply existsb_exists. exists c. split.
    + apply list_elem_of_In, elem_of_values. eauto.
    + by apply bool_decide_eq_true.
Qed.
Lemma check_r4_r5_r7_ok m ms : check_r4_r5_r7 m ms = Ok tt <->
  forall t, m.(def).(critic_for) = Some t ->
    m.(def).(nd_class) <> WorldMutating
    /\ exists target, ms !! t = Some target /\ target.(def).(nd_class) = WorldMutating.
Proof.
  unfold check_r4_r5_r7. destruct (critic_for (def m)) as [t|]; [|naive_solver].
  guards. destruct (ms !! t) as [target|] eqn:Ht; guards.
Qed.
Lemma check_r8_ok m : check_r8 m = Ok tt <->
  (m.(def).(is_topology_shaper) = true -> m.(def).(critic_for) = None).
Proof.
  unfold check_r8. destruct (is_topology_shaper (def m)); [|naive_solver]. cbn [andb].
  destruct (critic_for (def m)); guards.
Qed.
Lemma check_r14_ok m : check_r14 m = Ok tt <->
  (m.(def).(is_topology_shaper) = true -> m.(def).(nd_class) <> WorldMutating).
Proof. unfold check_r14. destruct (is_topology_shaper (def m)); guards. Qed.
Lemma shape_ok_iff want m : shape_ok want m = Ok tt <->
  m.(def).(nd_class) = want /\ is_Some m.(def).(critic_for) /\ m.(def).(is_topology_shaper) = false.
Proof.
  unfold shape_ok. destruct (critic_for (def m)), (is_topology_shaper (def m)); guards;
    (split; [done|]; intros (? & [? [=]] & ?)).
Qed.
Lemma check_r15_ok m : check_r15 m = Ok tt <->
  forall c, m.(def).(critic_check) = Some c ->
    m.(def).(nd_class) = (if is_llm_judge c then ReadOnlyNondet else Pure)
    /\ is_Some m.(def).(critic_for) /\ m.(def).(is_topology_shaper) = false.
Proof.
  unfold check_r15, native_judge_shape, native_critic_shape.
  destruct (critic_check (def m)) as [c|]; [|naive_solver].
  destruct (is_llm_judge c) eqn:Hj; rewrite shape_ok_iff; split.
  - intros H c' [= <-]. by rewrite Hj.
  - intros H. specialize (H c eq_refl). by rewrite Hj in H.
  - intros H c' [= <-]. by rewrite Hj.
  - intros H. specialize (H c eq_refl). by rewrite Hj in H.
Qed.
Lemma check_r6_loop_ok l : forall targets,
  check_r6_loop targets l = Ok tt <->
  NoDup (omap (fun m => m.(def).(critic_for)) l)
  /\ forall t, t ∈ omap (fun m => m.(def).(critic_for)) l -> targets !! t = None.
Proof.
  induction l as [|m l IH]; intros targets; cbn [check_r6_loop omap list_omap].
  { split; [|done]. intros _. split; [constructor|]. by intros t ?%elem_of_nil. }
  destruct (critic_for (def m)) as [t|]; [|apply IH].
  rewrite NoDup_cons. setoid_rewrite elem_of_cons.
  destruct (targets !! t) as [first|] eqn:Ht; [naive_solver|]. rewrite IH. split.
  - intros [Hnd Hnew]. split_and!; [|done|].
    + intros Hin. specialize (Hnew t Hin). by rewrite lookup_insert_eq in Hnew.
    + intros t' [->|Hin]; [done|]. specialize (Hnew t' Hin). by apply lookup_insert_None in Hnew as [? _].
  - intros ((Hnin & Hnd) & Hnew). split; [done|]. intros t' Hin. apply lookup_insert_None.
    split; [by apply Hnew; right|]. intros ->. done.
Qed.
Lemma NoDup_omap_keys {V T} (g : V -> option T) (l : list (bytes * V)) :
  NoDup l.*1 ->
  NoDup (omap g l.*2) <->
  forall k k' v v' t, (k, v) ∈ l -> (k', v') ∈ l -> g v = Some t -> g v' = Some t -> k = k'.
Proof.
  induction l as [|[k v] l IH]; cbn [fmap list_fmap omap list_omap fst snd].
  { split; [by intros _ k k' v v' t ?%elem_of_nil|constructor]. }
  intros [Hk Hnd]%NoDup_cons. specialize (IH Hnd).
  assert (Hin : forall t, t ∈ omap g l.*2 <-> exists k' v', (k', v') ∈ l /\ g v' = Some t).
  { intros t. rewrite list_elem_of_omap. split.
    - intros (v' & Hv & Hg). apply list_elem_of_fmap in Hv as ([k' v''] & -> & Hkv). eauto.
    - intros (k' & v' & Hkv & Hg). exists v'. split; [|done]. apply list_elem_of_fmap. by exists (k', v'). }
  setoid_rewrite elem_of_cons. change (list_omap ?A ?B g l.*2) with (omap g l.*2).
  destruct (g v) as [t|] eqn:Hg.
  - rewrite NoDup_cons, IH, Hin. split.
    + intros [Hnin Hall] k1 k2 v1 v2 t' [[= -> ->]|H1] [[= -> ->]|H2] E1 E2; [done| | |by eapply Hall].
      * exfalso. apply Hnin. rewrite Hg in E1. injection E1 as <-. eauto.
      * exfalso. apply Hnin. rewrite Hg in E2. injection E2 as <-. eauto.
    + intros Hall. split; [|intros; eapply Hall; eauto]. intros (k' & v' & Hkv & Hg'). apply Hk.
      apply list_elem_of_fmap. exists (k', v'). split; [|done]. cbn.
      eapply (Hall k k' v v' t); eauto.
  - rewrite IH. split; [|intros; eapply H; eauto].
    intros Hall k1 k2 v1 v2 t' [[= -> ->]|H1] [[= -> ->]|H2] E1 E2; [done|congruence..|by eapply Hall].
Qed.
Lemma check_r6_ok ms : check_r6 ms = Ok tt <->
  forall k k' m m' t, ms !! k = Some m -> ms !! k' = Some m' ->
    m.(def).(critic_for) = Some t -> m'.(def).(critic_for) = Some t -> k = k'.
Proof.
  unfold check_r6. rewrite check_r6_loop_ok. unfold btree_values.
  rewrite NoDup_omap_keys by apply NoDup_btree_keys. setoid_rewrite elem_of_btree_iter.
  split; [by intros [? _]|]. intros H. split; [done|]. intros t _. apply lookup_empty.
Qed.

(** In a submission that passed the earlier checks, a chain of critics has
    length one: a critic is never world-mutating, so nothing may criticise it. *)
Lemma r9_walk_ok ms m :
  (forall k m t, ms !! k = Some m -> m.(def).(critic_for) = Some t ->
     m.(def).(nd_class) <> WorldMutating
     /\ exists target, ms !! t = Some target /\ target.(def).(nd_class) = WorldMutating) ->
  (forall k m, ms !! k = Some m -> m.(mote_id) = k) ->
  (forall k k' m m' t, ms !! k = Some m -> ms !! k' = Some m' ->
     m.(def).(critic_for) = Some t -> m'.(def).(critic_for) = Some t -> k = k') ->
  r9_walk ms m.(mote_id) 8 {[m.(mote_id)]} m.(mote_id) = Ok tt <->
  exists k critic, ms !! k = Some critic /\ critic.(def).(critic_for) = Some m.(mote_id)
    /\ critic.(def).(nd_class) = Pure.
Proof.
  intros Hc Hkeys Huniq.
  assert (Hfind : forall t c, List.find (is_critic_for t) (btree_values ms) = Some c ->
            exists k, ms !! k = Some c /\ c.(def).(critic_for) = Some t).
  { intros t c Hf. apply find_some in Hf as [Hin Hf]. apply list_elem_of_In, elem_of_values in Hin as [k Hk].
    apply bool_decide_eq_true in Hf. eauto. }
  cbn [r9_walk]. destruct (List.find (is_critic_for (mote_id m)) (btree_values ms)) as [c|] eqn:Hf.
  - destruct (Hfind _ _ Hf) as (k & Hk & Ht). case_bool_decide as Hp.
    { split; [|done]. intros _. eauto. }
    destruct (List.find (is_critic_for (mote_id c)) (btree_values ms)) as [c2|] eqn:Hf2.
    { exfalso. destruct (Hfind _ _ Hf2) as (k2 & Hk2 & Ht2).
      destruct (Hc _ _ _ Hk2 Ht2) as (_ & target & Htg & Hw). rewrite (Hkeys _ _ Hk), Hk in Htg.
      injection Htg as <-. by destruct (Hc _ _ _ Hk Ht). }
    split; [by case_bool_decide|]. intros (k' & critic & Hk' & Ht' & Hp').
    assert (k' = k) as -> by eauto. rewrite Hk in Hk'. by injection Hk' as <-.
  - split; [done|]. intros (k & critic & Hk & Ht & _). exfalso.
    assert (is_critic_for (mote_id m) critic = false) as Hn.
    { apply (find_none _ _ Hf). apply list_elem_of_In, elem_of_values. eauto. }
    unfold is_critic_for in Hn. by apply bool_decide_eq_false in Hn.
Qed.

Lemma mote_checks_ok m :
  mote_safe m <->
  check_r1 m = Ok tt /\ check_r7_self m = Ok tt /\ check_r8 m = Ok tt /\ check_r14 m = Ok tt
  /\ check_r15 m = Ok tt.
Proof.
  rewrite check_r1_ok, check_r8_ok, check_r14_ok, check_r15_ok.
  assert (check_r7_self m = Ok tt <-> (is_Some m.(def).(critic_for) -> m.(def).(nd_class) <> WorldMutating)) as ->
    by (unfold check_r7_self; guards).
  split.
  - intros [H1 H2 H3 H4]. split_and!; try done; intros Hsh; by destruct (H3 Hsh).
  - intros (H1 & H2 & H3 & H4 & H5). split; auto.
Qed.

Lemma check_r7_self_ok m :
  check_r7_self m = Ok tt <-> (is_Some m.(def).(critic_for) -> m.(def).(nd_class) <> WorldMutating).
Proof. unfold check_r7_self. guards. Qed.
Lemma check_r9_ok ms m :
  (forall k m t, ms !! k = Some m -> m.(def).(critic_for) = Some t ->
     m.(def).(nd_class) <> WorldMutating
     /\ exists target, ms !! t = Some target /\ target.(def).(nd_class) = WorldMutating) ->
  (forall k m, ms !! k = Some m -> m.(mote_id) = k) ->
  (forall k k' m m' t, ms !! k = Some m -> ms !! k' = Some m' ->
     m.(def).(critic_for) = Some t -> m'.(def).(critic_for) = Some t -> k = k') ->
  check_r9 m ms = Ok tt <->
  (m.(def).(nd_class) = WorldMutating -> m.(def).(effect_pattern) = ValidateThenCommit ->
   exists k critic, ms !! k = Some critic /\ critic.(def).(critic_for) = Some m.(mote_id)
     /\ critic.(def).(nd_class) = Pure).
Proof.
  intros Hc Hkeys Huniq. unfold check_r9.
  case_bool_decide; cbn [negb]; [|naive_solver]. case_bool_decide; cbn [negb]; [|naive_solver].
  rewrite r9_walk_ok by done. naive_solver.
Qed.
Lemma accepted_safe ms :
  (forall k x, ms !! k = Some x -> x.(mote_id) = k) ->
  (forall k m, ms !! k = Some m -> mote_safe m /\ check_r2 m ms = Ok tt
     /\ check_r4_r5_r7 m ms = Ok tt /\ check_r9 m ms = Ok tt) ->
  check_r6 ms = Ok tt -> submission_safe ms.
Proof.
  setoid_rewrite check_r4_r5_r7_ok. rewrite check_r6_ok. intros Hkeys Hall H6.
  assert (Hc : forall k m t, ms !! k = Some m -> m.(def).(critic_for) = Some t ->
     m.(def).(nd_class) <> WorldMutating
     /\ exists target, ms !! t = Some target /\ target.(def).(nd_class) = WorldMutating).
  { intros k m t Hk Ht. destruct (Hall k m Hk) as (_ & _ & H & _). by apply H. }
  split; [|by intros k m t Hk Ht; destruct (Hc k m t Hk Ht)|done|].
  - intros k m Hk. by destruct (Hall k m Hk).
  - intros k m Hk Hw Hv. destruct (Hall k m Hk) as (_ & _ & _ & H9).
    rewrite (check_r9_ok ms m Hc Hkeys H6), (Hkeys k m Hk) in H9. by apply H9.
Qed.
Lemma safe_accepted ms k m :
  (forall k x, ms !! k = Some x -> x.(mote_id) = k) -> submission_safe ms -> ms !! k = Some m ->
  check_r2 m ms = Ok tt /\ check_r4_r5_r7 m ms = Ok tt /\ check_r9 m ms = Ok tt.
Proof.
  intros Hkeys [Hm Ht Hu Hv] Hk.
  assert (Hc : forall k m t, ms !! k = Some m -> m.(def).(critic_for) = Some t ->
     m.(def).(nd_class) <> WorldMutating
     /\ exists target, ms !! t = Some target /\ target.(def).(nd_class) = WorldMutating).
  { intros k' m' t Hk' Ht'. split; [|by eapply Ht]. apply (ms_critic m' (Hm k' m' Hk')). by exists t. }
  rewrite check_r2_ok, check_r4_r5_r7_ok, (check_r9_ok ms m Hc Hkeys Hu), (Hkeys k m Hk).
  split_and!; [|intros t; by apply (Hc k)|by apply Hv].
  intros Hw Hp. destruct (Hv k m Hk Hw Hp) as (k' & c & ? & ? & _). eauto.
Qed.

(** [C36] Submission gate: a workflow whose Motes are filed under their own ids
    is accepted exactly when it is safe: every world-mutating Mote that relies
    on tool idempotency has a tool, critics target existing world-mutating
    Motes, are not world-mutating and unique per target, a shaper is neither
    critic nor world-mutating, a check is carried only by a critic of the
    matching class, and each validate-then-commit Mote has a PURE critic. The
    gate on a single Mote accepts exactly the same per-Mote conditions, and
    refuses a world-mutating Mote whose tools are unresolved or at-least-once
    without consent. *)
Theorem submission_accepted_iff submission m accept resolution :
  (forall k x, submission.(motes) !! k = Some x -> x.(mote_id) = k) ->
  (validate_submission submission = Ok tt <-> submission_safe submission.(motes))
  /\ (validate_mote_submission m accept resolution = Ok tt <->
      mote_safe m
      /\ (m.(def).(nd_class) = WorldMutating ->
          exists classes, resolution = Resolved classes
            /\ (has_at_least_once classes = true -> accept = true))).
Proof.
  intros Hkeys. split.
  - unfold validate_submission. rewrite !obind_unit, !for_each_ok.
    setoid_rewrite elem_of_values. setoid_rewrite obind_unit. setoid_rewrite obind_unit. split.
    + intros (_ & H12 & H457 & H6 & H8 & H9). apply accepted_safe; [done| |done].
      intros k x Hk. destruct (H12 x), (H8 x) as (? & ? & ?); [by eauto..|].
      pose proof (H457 x ltac:(eauto)) as H457x. pose proof (H9 x ltac:(eauto)). split_and!; try done.
      rewrite mote_checks_ok, check_r7_self_ok. rewrite check_r4_r5_r7_ok in H457x.
      split_and!; try done. intros [t Ht]. by destruct (H457x t Ht).
    + intros Hs. pose proof Hs as [Hm Ht Hu Hv].
      split_and!; [done| | |by rewrite check_r6_ok| |]; intros x [k Hk];
        destruct (safe_accepted _ k x Hkeys Hs Hk) as (? & ? & ?);
        destruct (proj1 (mote_checks_ok x) (Hm k x Hk)) as (? & ? & ? & ? & ?); by split_and?.
  - unfold validate_mote_submission. rewrite !obind_unit, mote_checks_ok.
    assert (check_r10_resolved m accept resolution = Ok tt <->
      (m.(def).(nd_class) = WorldMutating ->
       exists classes, resolution = Resolved classes /\ (has_at_least_once classes = true -> accept = true))) as ->.
    { unfold check_r10_resolved. case_bool_decide; cbn [negb]; [|naive_solver].
      destruct resolution as [classes|]; [|naive_solver].
      destruct (has_at_least_once classes) eqn:Ha, accept; cbn [andb negb]; naive_solver. }
    naive_solver.
Qed.

(** ** A producer and its critic *)
Definition demo_def (nd : NdClass) (ep : EffectPattern) (critic : option MoteId) : MoteDef := {|
  logic_ref := []; model_id := []; prompt_template_hash := []; tool_contract := ∅;
  nd_class := nd; config_subset := ∅; effect_pattern := ep; critic_for := critic;
  is_topology_shaper := false; inference_params := InferenceParams_default; critic_check := None;
  schema_version := 5 |}.
Definition demo_mote (id : MoteId) (d : MoteDef) : Mote :=
  {| mote_id := id; def := d; input_data_id := []; graph_position := []; parents := [] |}.
Definition demo_submission : WorkflowSubmission := {|
  run_id := []; master_warrant := WarrantSpec.default; accept_at_least_once := ∅;
  motes := <[ [1] := demo_mote [1] (demo_def WorldMutating ValidateThenCommit None) ]>
             {[ [2] := demo_mote [2] (demo_def Pure IdempotentByConstruction (Some [1])) ]} |}.
Lemma submission_accepted_iff_witness :
  validate_submission demo_submission = Ok tt /\ submission_safe demo_submission.(motes).
Proof.
  assert (validate_submission demo_submission = Ok tt) as Hok by (by vm_compute).
  split; [done|].
  apply (submission_accepted_iff demo_submission (demo_mote [1] (demo_def Pure StageThenCommit None))
           true Unresolved); [|done].
  intros k x. cbn [motes demo_submission].
  intros [[<- <-]|[_ [<- <-]%lookup_singleton_Some]]%lookup_insert_Some; done.
Defined.
