(* ===== verification/Checkpoint.v ===== *)
(** kx-projection's discardable fold checkpoint (checkpoint.rs): the serialized
    form of the state, the digest envelope around it, and the way back. The
    derived indices are not serialized; decoding rebuilds them. *)
From S2P Require Import Prelude Utf8 Mote Entry Journal ProjState ProjIndex ProjFold ProjHistory ProjQuery.

(** ** The serialized form: one record per record of the state *)
Record DeclaredInfoDto := {
  di_nd_class : NdClass; di_effect_pattern : EffectPattern; di_critic_for : option MoteId;
  di_is_topology_shaper : bool; di_parents : list ParentRef; di_warrant_ref : ContentRef }.
Record CommittedInfoDto := {
  ci_seq : Z; ci_result_ref : ContentRef; ci_nondeterminism : NdClass;
  ci_parents_in_entry : list (MoteId * Z * Z); ci_warrant_ref : ContentRef;
  ci_mote_def_hash : bytes; ci_repudiated : bool }.
Record MoteInfoDto := {
  mi_declared : option DeclaredInfoDto; mi_committed : option CommittedInfoDto;
  mi_has_proposed : bool; mi_failed_pending_reattempt : bool; mi_effect_staged_observed : bool;
  mi_terminal_failure_observed : bool; mi_inconsistent : bool; mi_quarantined : bool;
  mi_failure_reason : option FailureReason; mi_failure_detail : bytes }.
Record RunRegistrationDto := { rd_instance_id : bytes; rd_recipe_fingerprint : bytes }.
Record RunResolvedVersionsDto := {
  vd_instance_id : bytes; vd_warrant_ref : ContentRef; vd_model_id : bytes;
  vd_capability : option ResolvedCapabilityRecord }.
Record ReplanRoundRecordDto := {
  pd_round : Z; pd_shaper_mote_id : MoteId; pd_base_prompt_ref : ContentRef;
  pd_corrected_prompt_ref : ContentRef; pd_warrant_ref : ContentRef; pd_model_id : bytes;
  pd_failed_steps : list MoteId; pd_escalation_reason_ref : option ContentRef; pd_seq : Z }.
Record ReactRoundRecordDto := {
  xd_turn : Z; xd_turn_mote_id : MoteId; xd_instance_id : bytes; xd_base_prompt_ref : ContentRef;
  xd_warrant_ref : ContentRef; xd_model_id : bytes; xd_branch : ReactBranch; xd_max_turns : Z;
  xd_max_tool_calls : Z; xd_step_salt : option bytes; xd_is_agentic_launch : bool;
  xd_context_items_ref : option ContentRef; xd_image_ref : option ContentRef;
  xd_require_approval : bool; xd_seq : Z }.
Record ApprovalRecordDto := {
  ad_instance_id : bytes; ad_request_id : bytes; ad_awaiting_mote_id : MoteId;
  ad_state : ApprovalState; ad_seq : Z }.
Record TimerRecordDto := {
  td_instance_id : bytes; td_subject_mote_id : MoteId; td_purpose : Z; td_attempt : Z;
  td_fire_at_unix_ms : Z; td_anchor_ref : ContentRef; td_seq : Z }.
Record ReRankRoundRecordDto := {
  kd_round : Z; kd_rerank_mote_id : MoteId; kd_instance_id : bytes; kd_base_results_ref : ContentRef;
  kd_query_ref : ContentRef; kd_warrant_ref : ContentRef; kd_model_id : bytes;
  kd_candidate_count : Z; kd_outcome : ReRankOutcome; kd_seq : Z }.
Record CheckpointState := {
  cs_motes : gmap bytes MoteInfoDto;
  cs_children : Children;
  cs_last_seq : Z;
  cs_run_registration : option RunRegistrationDto;
  cs_run_resolved_versions : list RunResolvedVersionsDto;
  cs_replan_rounds : list ReplanRoundRecordDto;
  cs_react_rounds : list ReactRoundRecordDto;
  cs_approvals : list ApprovalRecordDto;
  cs_rerank_rounds : list ReRankRoundRecordDto;
  cs_timers : list TimerRecordDto
}.

Module CheckpointError.
(** The text of a decoding error is not modelled. *)
Inductive CheckpointError :=
| TooShort (got need : nat)
| UnsupportedVersion (got : Z)
| UnsupportedCodec (got : Z)
| DigestMismatch
| Decode
| MalformedParent (edge_kind non_cascade : Z).
End CheckpointError.
Abbreviation CheckpointError := CheckpointError.CheckpointError.

(** ** State to its serialized form *)
Definition DeclaredInfoDto_from (d : DeclaredInfo) : DeclaredInfoDto := {|
  di_nd_class := d.(DeclaredInfo.nd_class); di_effect_pattern := d.(DeclaredInfo.effect_pattern);
  di_critic_for := d.(DeclaredInfo.critic_for);
  di_is_topology_shaper := d.(DeclaredInfo.is_topology_shaper);
  di_parents := d.(DeclaredInfo.parents); di_warrant_ref := d.(DeclaredInfo.warrant_ref) |}.
Definition CommittedInfoDto_from (c : CommittedInfo) : CommittedInfoDto := {|
  ci_seq := c.(CommittedInfo.seq); ci_result_ref := c.(CommittedInfo.result_ref);
  ci_nondeterminism := c.(CommittedInfo.nondeterminism);
  ci_parents_in_entry :=
    (fun p => (p.(ParentEntry.parent_id), p.(ParentEntry.edge_kind), p.(ParentEntry.non_cascade)))
      <$> c.(CommittedInfo.parents_in_entry);
  ci_warrant_ref := c.(CommittedInfo.warrant_ref);
  ci_mote_def_hash := c.(CommittedInfo.mote_def_hash); ci_repudiated := c.(CommittedInfo.repudiated) |}.
Definition MoteInfoDto_from (mi : MoteInfo) : MoteInfoDto := {|
  mi_declared := DeclaredInfoDto_from <$> mi.(declared);
  mi_committed := CommittedInfoDto_from <$> mi.(committed);
  mi_has_proposed := mi.(has_proposed); mi_failed_pending_reattempt := mi.(failed_pending_reattempt);
  mi_effect_staged_observed := mi.(effect_staged_observed);
  mi_terminal_failure_observed := mi.(terminal_failure_observed);
  mi_inconsistent := mi.(inconsistent); mi_quarantined := mi.(quarantined);
  mi_failure_reason := mi.(failure_reason); mi_failure_detail := mi.(failure_detail) |}.
Definition RunRegistrationDto_from (r : RunRegistration) : RunRegistrationDto := {|
  rd_instance_id := r.(rr_instance_id); rd_recipe_fingerprint := r.(rr_recipe_fingerprint) |}.
Definition RunResolvedVersionsDto_from (r : RunResolvedVersions) : RunResolvedVersionsDto := {|
  vd_instance_id := r.(rv_instance_id); vd_warrant_ref := r.(rv_warrant_ref);
  vd_model_id := r.(rv_model_id); vd_capability := r.(rv_capability) |}.
Definition ReplanRoundRecordDto_from (r : ReplanRoundRecord) : ReplanRoundRecordDto := {|
  pd_round := r.(ReplanRoundRecord.round); pd_shaper_mote_id := r.(ReplanRoundRecord.shaper_mote_id);
  pd_base_prompt_ref := r.(ReplanRoundRecord.base_prompt_ref);
  pd_corrected_prompt_ref := r.(ReplanRoundRecord.corrected_prompt_ref);
  pd_warrant_ref := r.(ReplanRoundRecord.warrant_ref); pd_model_id := r.(ReplanRoundRecord.model_id);
  pd_failed_steps := r.(ReplanRoundRecord.failed_steps);
  pd_escalation_reason_ref := r.(ReplanRoundRecord.escalation_reason_ref);
  pd_seq := r.(ReplanRoundRecord.seq) |}.
Definition ReactRoundRecordDto_from (r : ReactRoundRecord) : ReactRoundRecordDto := {|
  xd_turn := r.(ReactRoundRecord.turn); xd_turn_mote_id := r.(ReactRoundRecord.turn_mote_id);
  xd_instance_id := r.(ReactRoundRecord.instance_id);
  xd_base_prompt_ref := r.(ReactRoundRecord.base_prompt_ref);
  xd_warrant_ref := r.(ReactRoundRecord.warrant_ref); xd_model_id := r.(ReactRoundRecord.model_id);
  xd_branch := r.(ReactRoundRecord.branch); xd_max_turns := r.(ReactRoundRecord.max_turns);
  xd_max_tool_calls := r.(ReactRoundRecord.max_tool_calls);
  xd_step_salt := r.(ReactRoundRecord.step_salt);
  xd_is_agentic_launch := r.(ReactRoundRecord.is_agentic_launch);
  xd_context_items_ref := r.(ReactRoundRecord.context_items_ref);
  xd_image_ref := r.(ReactRoundRecord.image_ref);
  xd_require_approval := r.(ReactRoundRecord.require_approval); xd_seq := r.(ReactRoundRecord.seq) |}.
Definition ApprovalRecordDto_from (r : ApprovalRecord) : ApprovalRecordDto := {|
  ad_instance_id := r.(ApprovalRecord.instance_id); ad_request_id := r.(ApprovalRecord.request_id);
  ad_awaiting_mote_id := r.(ApprovalRecord.awaiting_mote_id);
  ad_state := r.(ApprovalRecord.state); ad_seq := r.(ApprovalRecord.seq) |}.
Definition TimerRecordDto_from (t : TimerRecord) : TimerRecordDto := {|
  td_instance_id := t.(TimerRecord.instance_id); td_subject_mote_id := t.(TimerRecord.subject_mote_id);
  td_purpose := t.(TimerRecord.purpose); td_attempt := t.(TimerRecord.attempt);
  td_fire_at_unix_ms := t.(TimerRecord.fire_at_unix_ms); td_anchor_ref := t.(TimerRecord.anchor_ref);
  td_seq := t.(TimerRecord.seq) |}.
Definition ReRankRoundRecordDto_from (r : ReRankRoundRecord) : ReRankRoundRecordDto := {|
  kd_round := r.(ReRankRoundRecord.round); kd_rerank_mote_id := r.(ReRankRoundRecord.rerank_mote_id);
  kd_instance_id := r.(ReRankRoundRecord.instance_id);
  kd_base_results_ref := r.(ReRankRoundRecord.base_results_ref);
  kd_query_ref := r.(ReRankRoundRecord.query_ref); kd_warrant_ref := r.(ReRankRoundRecord.warrant_ref);
  kd_model_id := r.(ReRankRoundRecord.model_id);
  kd_candidate_count := r.(ReRankRoundRecord.candidate_count);
  kd_outcome := r.(ReRankRoundRecord.outcome); kd_seq := r.(ReRankRoundRecord.seq) |}.
(** The four derived indices are left out. *)
Definition CheckpointState_from (s : State) : CheckpointState := {|
  cs_motes := MoteInfoDto_from <$> s.(motes);
  cs_children := s.(children);
  cs_last_seq := s.(last_seq);
  cs_run_registration := RunRegistrationDto_from <$> s.(run_registration);
  cs_run_resolved_versions := RunResolvedVersionsDto_from <$> s.(run_resolved_versions);
  cs_replan_rounds := ReplanRoundRecordDto_from <$> s.(replan_rounds);
  cs_react_rounds := ReactRoundRecordDto_from <$> s.(react_rounds);
  cs_approvals := ApprovalRecordDto_from <$> s.(approvals);
  cs_rerank_rounds := ReRankRoundRecordDto_from <$> s.(rerank_rounds);
  cs_timers := TimerRecordDto_from <$> s.(timers) |}.

(** ** And back *)
Definition TimerRecord_from (t : TimerRecordDto) : TimerRecord := {|
  TimerRecord.instance_id := t.(td_instance_id); TimerRecord.subject_mote_id := t.(td_subject_mote_id);
  TimerRecord.purpose := t.(td_purpose); TimerRecord.attempt := t.(td_attempt);
  TimerRecord.fire_at_unix_ms := t.(td_fire_at_unix_ms); TimerRecord.anchor_ref := t.(td_anchor_ref);
  TimerRecord.seq := t.(td_seq) |}.
Definition DeclaredInfo_from (d : DeclaredInfoDto) : DeclaredInfo := {|
  DeclaredInfo.nd_class := d.(di_nd_class); DeclaredInfo.effect_pattern := d.(di_effect_pattern);
  DeclaredInfo.critic_for := d.(di_critic_for);
  DeclaredInfo.is_topology_shaper := d.(di_is_topology_shaper);
  DeclaredInfo.parents := d.(di_parents); DeclaredInfo.warrant_ref := d.(di_warrant_ref) |}.
Fixpoint parents_try_from (parents : list ParentEntry) (l : list (MoteId * Z * Z))
    : outcome (list ParentEntry) CheckpointError :=
  match l with
  | [] => Ok parents
  | (parent_id, edge_kind, non_cascade) :: l =>
      let pe := {| ParentEntry.parent_id := parent_id; ParentEntry.edge_kind := edge_kind;
                   ParentEntry.non_cascade := non_cascade |} in
      match ParentEntry.to_parent_ref pe with
      | None => Err (CheckpointError.MalformedParent edge_kind non_cascade)
      | Some _ => parents_try_from (parents ++ [pe]) l
      end
  end.
Definition CommittedInfo_try_from (c : CommittedInfoDto) : outcome CommittedInfo CheckpointError :=
  let* parents := parents_try_from [] c.(ci_parents_in_entry) in
  Ok {| CommittedInfo.seq := c.(ci_seq); CommittedInfo.result_ref := c.(ci_result_ref);
        CommittedInfo.nondeterminism := c.(ci_nondeterminism);
        CommittedInfo.parents_in_entry := parents; CommittedInfo.warrant_ref := c.(ci_warrant_ref);
        CommittedInfo.mote_def_hash := c.(ci_mote_def_hash);
        CommittedInfo.repudiated := c.(ci_repudiated) |}.
Definition MoteInfo_try_from (mi : MoteInfoDto) : outcome MoteInfo CheckpointError :=
  let* c := match mi.(mi_committed) with
            | None => Ok None
            | Some c => let* c := CommittedInfo_try_from c in Ok (Some c)
            end in
  Ok {| declared := DeclaredInfo_from <$> mi.(mi_declared); committed := c;
        has_proposed := mi.(mi_has_proposed);
        failed_pending_reattempt := mi.(mi_failed_pending_reattempt);
        effect_staged_observed := mi.(mi_effect_staged_observed);
        terminal_failure_observed := mi.(mi_terminal_failure_observed);
        inconsistent := mi.(mi_inconsistent); quarantined := mi.(mi_quarantined);
        failure_reason := mi.(mi_failure_reason); failure_detail := mi.(mi_failure_detail) |}.
Definition RunRegistration_from (r : RunRegistrationDto) : RunRegistration := {|
  rr_instance_id := r.(rd_instance_id); rr_recipe_fingerprint := r.(rd_recipe_fingerprint) |}.
Definition RunResolvedVersions_from (r : RunResolvedVersionsDto) : RunResolvedVersions := {|
  rv_instance_id := r.(vd_instance_id); rv_warrant_ref := r.(vd_warrant_ref);
  rv_model_id := r.(vd_model_id); rv_capability := r.(vd_capability) |}.
Definition ReplanRoundRecord_from (r : ReplanRoundRecordDto) : ReplanRoundRecord := {|
  ReplanRoundRecord.round := r.(pd_round); ReplanRoundRecord.shaper_mote_id := r.(pd_shaper_mote_id);
  ReplanRoundRecord.base_prompt_ref := r.(pd_base_prompt_ref);
  ReplanRoundRecord.corrected_prompt_ref := r.(pd_corrected_prompt_ref);
  ReplanRoundRecord.warrant_ref := r.(pd_warrant_ref); ReplanRoundRecord.model_id := r.(pd_model_id);
  ReplanRoundRecord.failed_steps := r.(pd_failed_steps);
  ReplanRoundRecord.escalation_reason_ref := r.(pd_escalation_reason_ref);
  ReplanRoundRecord.seq := r.(pd_seq) |}.
Definition ReactRoundRecord_from (r : ReactRoundRecordDto) : ReactRoundRecord := {|
  ReactRoundRecord.turn := r.(xd_turn); ReactRoundRecord.turn_mote_id := r.(xd_turn_mote_id);
  ReactRoundRecord.instance_id := r.(xd_instance_id);
  ReactRoundRecord.base_prompt_ref := r.(xd_base_prompt_ref);
  ReactRoundRecord.warrant_ref := r.(xd_warrant_ref); ReactRoundRecord.model_id := r.(xd_model_id);
  ReactRoundRecord.branch := r.(xd_branch); ReactRoundRecord.max_turns := r.(xd_max_turns);
  ReactRoundRecord.max_tool_calls := r.(xd_max_tool_calls);
  ReactRoundRecord.step_salt := r.(xd_step_salt);
  ReactRoundRecord.is_agentic_launch := r.(xd_is_agentic_launch);
  ReactRoundRecord.context_items_ref := r.(xd_context_items_ref);
  ReactRoundRecord.image_ref := r.(xd_image_ref);
  ReactRoundRecord.require_approval := r.(xd_require_approval); ReactRoundRecord.seq := r.(xd_seq) |}.
Definition ApprovalRecord_from (r : ApprovalRecordDto) : ApprovalRecord := {|
  ApprovalRecord.instance_id := r.(ad_instance_id); ApprovalRecord.request_id := r.(ad_request_id);
  ApprovalRecord.awaiting_mote_id := r.(ad_awaiting_mote_id);
  ApprovalRecord.state := r.(ad_state); ApprovalRecord.seq := r.(ad_seq) |}.
Definition ReRankRoundRecord_from (r : ReRankRoundRecordDto) : ReRankRoundRecord := {|
  ReRankRoundRecord.round := r.(kd_round); ReRankRoundRecord.rerank_mote_id := r.(kd_rerank_mote_id);
  ReRankRoundRecord.instance_id := r.(kd_instance_id);
  ReRankRoundRecord.base_results_ref := r.(kd_base_results_ref);
  ReRankRoundRecord.query_ref := r.(kd_query_ref); ReRankRoundRecord.warrant_ref := r.(kd_warrant_ref);
  ReRankRoundRecord.model_id := r.(kd_model_id);
  ReRankRoundRecord.candidate_count := r.(kd_candidate_count);
  ReRankRoundRecord.outcome := r.(kd_outcome); ReRankRoundRecord.seq := r.(kd_seq) |}.

(** One turn of the loop of [derive_react_index], with the record's position. *)
Definition derive_react_step (s : State) (x : nat * ReactRoundRecord) : State :=
  let '(idx, record) := x in
  let inst := record.(ReactRoundRecord.instance_id) in
  let salt := record.(ReactRoundRecord.step_salt) in
  let chains := default ∅ (s.(react_index) !! inst) in
  let chain := default [] (chains !! salt) in
  with_react s.(react_rounds)
    (<[inst := <[salt := chain ++ [idx]]> chains]> s.(react_index))
    ({[record.(ReactRoundRecord.turn_mote_id)]} ∪ s.(react_turn_motes))
    (match record.(ReactRoundRecord.branch) with
     | ReactBranch.Tool _ _ | ReactBranch.ToolBatch _ =>
         <[record.(ReactRoundRecord.turn_mote_id) := idx]> s.(react_tool_round_of_turn)
     | _ => s.(react_tool_round_of_turn)
     end) s.
Definition derive_react_index (s : State) : State :=
  foldl derive_react_step (with_react s.(react_rounds) ∅ ∅ ∅ s) (imap pair s.(react_rounds)).
Definition derive_approval_index (s : State) : State :=
  with_approvals s.(approvals)
    (foldl (fun idx '(i, record) => <[record.(ApprovalRecord.request_id) := i]> idx)
       ∅ (imap pair s.(approvals))) s.
Fixpoint motes_try_from (acc : gmap bytes MoteInfo) (l : list (bytes * MoteInfoDto))
    : outcome (gmap bytes MoteInfo) CheckpointError :=
  match l with
  | [] => Ok acc
  | (id, mi) :: l => let* i := MoteInfo_try_from mi in motes_try_from (<[id := i]> acc) l
  end.
Definition State_try_from (dto : CheckpointState) : outcome State CheckpointError :=
  let* decoded_motes := motes_try_from ∅ (btree_iter dto.(cs_motes)) in
  let state := {|
    motes := decoded_motes; children := dto.(cs_children); last_seq := dto.(cs_last_seq);
    run_registration := RunRegistration_from <$> dto.(cs_run_registration);
    run_resolved_versions := RunResolvedVersions_from <$> dto.(cs_run_resolved_versions);
    replan_rounds := ReplanRoundRecord_from <$> dto.(cs_replan_rounds);
    react_rounds := ReactRoundRecord_from <$> dto.(cs_react_rounds);
    react_index := ∅; react_turn_motes := ∅; react_tool_round_of_turn := ∅;
    approvals := ApprovalRecord_from <$> dto.(cs_approvals); approval_index := ∅;
    rerank_rounds := ReRankRoundRecord_from <$> dto.(cs_rerank_rounds);
    timers := TimerRecord_from <$> dto.(cs_timers) |} in
  Ok (derive_approval_index (derive_react_index state)).

(** ** The envelope *)
Definition CURRENT_FORMAT_VERSION : Z := 11.
Definition PAYLOAD_CODEC : Z := 0.
Definition ENVELOPE_LEN : nat := 2 + 1 + 8 + 32.
Record FoldCheckpoint := {
  format_version : Z;
  payload_codec : Z;
  journal_offset : Z;
  digest : bytes;
  payload : bytes
}.

Section Codec.
Context `{Blake3} `{!Bincode CheckpointState}.

Definition envelope_digest (version codec offset : Z) (payload : bytes) : bytes :=
  blake3 (to_le 2 version ++ [codec] ++ to_le 8 offset ++ payload).
Definition encode_state (s : State) : bytes := bincode_encode (CheckpointState_from s).
Definition state_content_digest (s : State) : bytes := blake3 (encode_state s).
Definition payload_state_digest (cp : FoldCheckpoint) : bytes := blake3 cp.(payload).
Definition from_state (s : State) : FoldCheckpoint := {|
  format_version := CURRENT_FORMAT_VERSION;
  payload_codec := PAYLOAD_CODEC;
  journal_offset := s.(last_seq);
  digest := envelope_digest CURRENT_FORMAT_VERSION PAYLOAD_CODEC s.(last_seq) (encode_state s);
  payload := encode_state s |}.
Definition verify (cp : FoldCheckpoint) : bool :=
  (cp.(format_version) =? CURRENT_FORMAT_VERSION)
  && (cp.(payload_codec) =? PAYLOAD_CODEC)
  && bool_decide (envelope_digest cp.(format_version) cp.(payload_codec) cp.(journal_offset) cp.(payload)
                  = cp.(digest)).
Definition to_bytes (cp : FoldCheckpoint) : bytes :=
  to_le 2 cp.(format_version) ++ [cp.(payload_codec)] ++ to_le 8 cp.(journal_offset)
    ++ cp.(digest) ++ cp.(payload).
Definition from_bytes (b : bytes) : outcome FoldCheckpoint CheckpointError :=
  let too_short := CheckpointError.TooShort (length b) ENVELOPE_LEN in
  if (length b <? ENVELOPE_LEN)%nat then Err too_short
  else
    let* version := ok_or (from_le <$> get_range b 0 2) too_short in
    if negb (version =? CURRENT_FORMAT_VERSION) then Err (CheckpointError.UnsupportedVersion version)
    else
      let* codec := ok_or (b !! 2%nat) too_short in
      if negb (codec =? PAYLOAD_CODEC) then Err (CheckpointError.UnsupportedCodec codec)
      else
        let* offset := ok_or (from_le <$> get_range b 3 11) too_short in
        let* dig := ok_or (get_range b 11 43) too_short in
        let* pay := ok_or (get_range b ENVELOPE_LEN (length b)) too_short in
        if bool_decide (envelope_digest version codec offset pay = dig)
        then Ok {| format_version := version; payload_codec := codec; journal_offset := offset;
                   digest := dig; payload := pay |}
        else Err CheckpointError.DigestMismatch.
Definition decode_state (cp : FoldCheckpoint) : outcome State CheckpointError :=
  match bincode_decode cp.(payload) with
  | None => Err CheckpointError.Decode
  | Some (dto, consumed) =>
      if negb (consumed =? length cp.(payload))%nat then Err CheckpointError.Decode
      else State_try_from dto
  end.
(** [Projection::fold_checkpoint] and [Projection::state_digest]. *)
Definition fold_checkpoint (s : State) : FoldCheckpoint := from_state s.
Definition state_digest (s : State) : bytes := state_content_digest s.
End Codec.

(** ** Records survive *)
Lemma declared_dto d : DeclaredInfo_from (DeclaredInfoDto_from d) = d.
Proof. by destruct d. Qed.
Lemma registration_dto r : RunRegistration_from (RunRegistrationDto_from r) = r.
Proof. by destruct r. Qed.
Lemma versions_dto r : RunResolvedVersions_from (RunResolvedVersionsDto_from r) = r.
Proof. by destruct r. Qed.
Lemma replan_dto r : ReplanRoundRecord_from (ReplanRoundRecordDto_from r) = r.
Proof. by destruct r. Qed.
Lemma react_dto r : ReactRoundRecord_from (ReactRoundRecordDto_from r) = r.
Proof. by destruct r. Qed.
Lemma approval_dto r : ApprovalRecord_from (ApprovalRecordDto_from r) = r.
Proof. by destruct r. Qed.
Lemma timer_dto r : TimerRecord_from (TimerRecordDto_from r) = r.
Proof. by destruct r. Qed.
Lemma rerank_dto r : ReRankRoundRecord_from (ReRankRoundRecordDto_from r) = r.
Proof. by destruct r. Qed.
Lemma fmap_inverse {A B} (f : A -> B) (g : B -> A) (l : list A) :
  (forall x, g (f x) = x) -> g <$> (f <$> l) = l.
Proof. intros Hg. induction l as [|x l IH]; [done|]. cbn. f_equal; [apply Hg|exact IH]. Qed.
Lemma option_fmap_inverse {A B} (f : A -> B) (g : B -> A) (o : option A) :
  (forall x, g (f x) = x) -> g <$> (f <$> o) = o.
Proof. intros Hg. destruct o; cbn; by rewrite ?Hg. Qed.

(** A commit whose parents are well formed on the wire. *)
Definition parents_wf (i : MoteInfo) : Prop :=
  forall c p, committed i = Some c -> p ∈ c.(CommittedInfo.parents_in_entry) ->
    is_Some (ParentEntry.to_parent_ref p).
Definition parent_tuple (p : ParentEntry) : MoteId * Z * Z :=
  (p.(ParentEntry.parent_id), p.(ParentEntry.edge_kind), p.(ParentEntry.non_cascade)).
Lemma parents_dto l : forall acc,
  parents_try_from acc (parent_tuple <$> l) = Ok (acc ++ l)
    /\ (forall p, p ∈ l -> is_Some (ParentEntry.to_parent_ref p))
  \/ (exists e, parents_try_from acc (parent_tuple <$> l) = Err e)
     /\ exists p, p ∈ l /\ ParentEntry.to_parent_ref p = None.
Proof.
  induction l as [|[a b c] l IH]; intros acc; cbn [fmap list_fmap parents_try_from parent_tuple
    ParentEntry.parent_id ParentEntry.edge_kind ParentEntry.non_cascade].
  - left. rewrite app_nil_r. split; [done|]. intros p ?%elem_of_nil. done.
  - destruct (ParentEntry.to_parent_ref _) eqn:Hp.
    + destruct (IH (acc ++ [{| ParentEntry.parent_id := a; ParentEntry.edge_kind := b;
                               ParentEntry.non_cascade := c |}])) as [[E Hall]|[E (q & Hq & Hn)]].
      * left. rewrite <- app_assoc in E. split; [exact E|].
        intros q [->|Hq]%elem_of_cons; [eauto|by apply Hall].
      * right. split; [exact E|]. exists q. split; [by right|done].
    + right. split; [eauto|]. eexists. split; [by left|done].
Qed.
(** A record decodes to itself, or not at all because of a malformed parent. *)
Lemma mote_info_dto i :
  MoteInfo_try_from (MoteInfoDto_from i) = Ok i /\ parents_wf i
  \/ (exists e, MoteInfo_try_from (MoteInfoDto_from i) = Err e) /\ ~ parents_wf i.
Proof.
  destruct i as [d c]. unfold MoteInfo_try_from, MoteInfoDto_from, parents_wf. cbn.
  rewrite (option_fmap_inverse _ _ _ declared_dto).
  destruct c as [c|]; cbn; [|left; split; [done|by intros ?? [=]]].
  unfold CommittedInfo_try_from. cbn [CommittedInfoDto_from ci_parents_in_entry].
  destruct (parents_dto c.(CommittedInfo.parents_in_entry) []) as [[E Hall]|[[e E] (p & Hp & Hn)]];
    unfold parent_tuple in E; rewrite E; cbn.
  - left. split; [by destruct c|]. intros c' p [= <-]. apply Hall.
  - right. split; [eauto|]. intros Hwf. destruct (Hwf c p eq_refl Hp). congruence.
Qed.
Lemma motes_dto (m : gmap bytes MoteInfo) l : forall acc,
  Forall (fun x => exists i, m !! x.1 = Some i /\ x.2 = MoteInfoDto_from i) l ->
  (exists m', motes_try_from acc l = Ok m'
     /\ (forall k, m' !! k = if decide (k ∈ l.*1) then m !! k else acc !! k)
     /\ forall k i, k ∈ l.*1 -> m !! k = Some i -> parents_wf i)
  \/ (exists e, motes_try_from acc l = Err e)
     /\ exists k i, m !! k = Some i /\ ~ parents_wf i.
Proof.
  induction l as [|[k x] l IH]; intros acc Hl.
  { left. exists acc. split_and!; [done|done|]. by intros k i ?%elem_of_nil. }
  apply Forall_cons in Hl as [(i & Hi & Hx) Hl]. cbn in Hi, Hx. subst x. cbn [motes_try_from].
  destruct (mote_info_dto i) as [[-> Hwf]|[[e ->] Hwf]]; cbn [obind]; [|right; eauto 10].
  destruct (IH (<[k:=i]> acc) Hl) as [(m' & Hm & Hk & Hw)|?]; [left|by right].
  exists m'. split; [done|]. cbn [fmap list_fmap fst]. split.
  - intros k'. rewrite Hk. destruct (decide (k' = k)) as [->|Hne].
    + rewrite (decide_True (P := k ∈ k :: _)) by set_solver. rewrite lookup_insert_eq. by case_decide.
    + rewrite lookup_insert_ne by done. change (list_fmap _ _ fst l) with (l.*1).
      destruct (decide (k' ∈ l.*1)); [by rewrite decide_True by set_solver|by rewrite decide_False by set_solver].
  - intros k' i' [->|Hin]%elem_of_cons Hi'; [by simplify_eq|by eapply Hw].
Qed.
Lemma state_motes_dto (m : gmap bytes MoteInfo) :
  motes_try_from ∅ (btree_iter (MoteInfoDto_from <$> m)) = Ok m
    /\ (forall k i, m !! k = Some i -> parents_wf i)
  \/ (exists e, motes_try_from ∅ (btree_iter (MoteInfoDto_from <$> m)) = Err e)
     /\ exists k i, m !! k = Some i /\ ~ parents_wf i.
Proof.
  set (l := btree_iter (MoteInfoDto_from <$> m)).
  assert (forall k, k ∈ l.*1 <-> is_Some (m !! k)) as Hkeys.
  { intros k. change (l.*1) with (btree_keys (MoteInfoDto_from <$> m)).
    by rewrite elem_of_btree_keys, lookup_fmap, fmap_is_Some. }
  destruct (motes_dto m l ∅) as [(m' & -> & Hm & Hw)|?]; [|left|by right].
  - apply Forall_forall. intros [k x] Hin. apply elem_of_btree_iter in Hin.
    rewrite lookup_fmap, fmap_Some in Hin. destruct Hin as (i & Hi & ->). eauto.
  - split.
    + f_equal. apply map_eq. intros k. rewrite Hm. case_decide as Hk; [done|].
      rewrite lookup_empty. rewrite Hkeys in Hk. destruct (m !! k) eqn:E; [exfalso; eauto|done].
    + intros k i Hk. apply (Hw k i); [|done]. apply Hkeys. eauto.
Qed.

(** ** The derived indices of a reachable state are the ones decoding rebuilds *)
Definition indices_derived (s : State) : Prop :=
  derive_react_index s = s /\ derive_approval_index s = s.
Lemma imap_pair_snoc {A} (l : list A) x : imap pair (l ++ [x]) = imap pair l ++ [(length l, x)].
Proof. rewrite imap_app. cbn. by rewrite Nat.add_0_r. Qed.

(** The steps of the rebuild act on the three react indices alone. *)
Definition ReactIdx : Type := gmap bytes (gmap (option bytes) (list nat)) * gset bytes * gmap bytes nat.
Definition react_idx_step (a : ReactIdx) (x : nat * ReactRoundRecord) : ReactIdx :=
  let '(ri, turns, tools) := a in
  let '(idx, record) := x in
  let inst := record.(ReactRoundRecord.instance_id) in
  let salt := record.(ReactRoundRecord.step_salt) in
  let chains := default ∅ (ri !! inst) in
  (<[inst := <[salt := default [] (chains !! salt) ++ [idx]]> chains]> ri,
   {[record.(ReactRoundRecord.turn_mote_id)]} ∪ turns,
   match record.(ReactRoundRecord.branch) with
   | ReactBranch.Tool _ _ | ReactBranch.ToolBatch _ =>
       <[record.(ReactRoundRecord.turn_mote_id) := idx]> tools
   | _ => tools
   end).
Definition react_idx_of (rounds : list ReactRoundRecord) : ReactIdx :=
  foldl react_idx_step (∅, ∅, ∅) (imap pair rounds).
Lemma derive_steps l : forall s,
  foldl derive_react_step s l
  = let '(ri, turns, tools) :=
      foldl react_idx_step (s.(react_index), s.(react_turn_motes), s.(react_tool_round_of_turn)) l in
    with_react s.(react_rounds) ri turns tools s.
Proof.
  induction l as [|[idx r] l IH]; intros s; cbn [foldl]; [by destruct s|].
  rewrite IH. cbn [derive_react_step react_idx_step react_index react_turn_motes
    react_tool_round_of_turn with_react react_rounds]. by destruct (foldl react_idx_step _ l) as [[ri tu] to].
Qed.
Lemma derive_react_idx s :
  derive_react_index s
  = let '(ri, turns, tools) := react_idx_of s.(react_rounds) in with_react s.(react_rounds) ri turns tools s.
Proof.
  unfold derive_react_index. rewrite derive_steps. cbn [react_index react_turn_motes
    react_tool_round_of_turn with_react react_rounds]. fold (react_idx_of (react_rounds s)).
  by destruct (react_idx_of (react_rounds s)) as [[ri tu] to].
Qed.
Definition approval_idx_of (l : list ApprovalRecord) : gmap bytes nat :=
  foldl (fun idx '(i, record) => <[record.(ApprovalRecord.request_id) := i]> idx) ∅ (imap pair l).
Lemma indices_derived_iff s :
  indices_derived s <->
  (s.(react_index), s.(react_turn_motes), s.(react_tool_round_of_turn)) = react_idx_of s.(react_rounds)
  /\ s.(approval_index) = approval_idx_of s.(approvals).
Proof.
  unfold indices_derived, derive_approval_index. rewrite derive_react_idx. fold (approval_idx_of (approvals s)).
  destruct (react_idx_of (react_rounds s)) as [[ri tu] to]. destruct s.
  unfold with_react, with_approvals. cbn. split; [intros [[=] [=]]|intros [[=] ->]]; by subst.
Qed.
Lemma indices_derived_same s s' : same_offdag s s' -> indices_derived s -> indices_derived s'.
Proof.
  intros (E1 & E2 & E3 & E4 & E5 & E6). rewrite !indices_derived_iff. by rewrite E1, E2, E3, E4, E5, E6.
Qed.
Lemma indices_derived_react r s :
  indices_derived s ->
  indices_derived (index_last_react_round
    (with_react (s.(react_rounds) ++ [r]) s.(react_index) s.(react_turn_motes)
       s.(react_tool_round_of_turn) s)).
Proof.
  rewrite !indices_derived_iff. intros [Hr Ha]. unfold index_last_react_round. cbn [react_rounds with_react].
  rewrite last_snoc, length_app. replace (length (react_rounds s) + length [r] - 1)%nat
    with (length (react_rounds s)) by (cbn; lia).
  split; [|exact Ha]. cbn [react_rounds react_index react_turn_motes react_tool_round_of_turn with_react].
  unfold react_idx_of. rewrite imap_pair_snoc, foldl_app. fold (react_idx_of (react_rounds s)). by rewrite <- Hr.
Qed.
Lemma indices_derived_approval a s :
  indices_derived s ->
  indices_derived (index_last_approval (with_approvals (s.(approvals) ++ [a]) s.(approval_index) s)).
Proof.
  rewrite !indices_derived_iff. intros [Hr Ha]. unfold index_last_approval. cbn [approvals with_approvals].
  rewrite last_snoc, length_app. replace (length (approvals s) + length [a] - 1)%nat
    with (length (approvals s)) by (cbn; lia).
  split; [exact Hr|]. cbn [approval_index approvals with_approvals].
  unfold approval_idx_of. rewrite imap_pair_snoc, foldl_app. fold (approval_idx_of (approvals s)). by rewrite <- Ha.
Qed.
Lemma indices_derived_reachable materializer s :
  rtc (proj_step materializer) State_default s -> indices_derived s.
Proof.
  apply offdag_reachable; [apply indices_derived_same|auto using indices_derived_react, indices_derived_approval..|].
  by apply indices_derived_iff.
Qed.

(** ** The codec *)
Section Roundtrip.
Context `{Blake3} `{!Bincode CheckpointState}.

(** What decoding an encoded state gives: the state, with its indices derived
    anew, or a failure because some commit has a malformed parent. *)
Lemma decode_encode_state s :
  indices_derived s ->
  decode_state (from_state s) = Ok s /\ (forall k i, s.(motes) !! k = Some i -> parents_wf i)
  \/ (exists e, decode_state (from_state s) = Err e)
     /\ exists k i, s.(motes) !! k = Some i /\ ~ parents_wf i.
Proof.
  intros [Hr Ha]. unfold decode_state. cbn [payload from_state]. unfold encode_state.
  rewrite bincode_decode_encode, Nat.eqb_refl. cbn [negb]. unfold State_try_from.
  cbn [cs_motes CheckpointState_from].
  destruct (state_motes_dto (motes s)) as [[-> Hwf]|[[e ->] Hwf]]; cbn [obind]; [left|right; eauto].
  split; [|done]. f_equal. cbn [cs_children cs_last_seq cs_run_registration cs_run_resolved_versions
    cs_replan_rounds cs_react_rounds cs_approvals cs_rerank_rounds cs_timers CheckpointState_from].
  rewrite (option_fmap_inverse _ _ _ registration_dto), (fmap_inverse _ _ _ versions_dto),
    (fmap_inverse _ _ _ replan_dto), (fmap_inverse _ _ _ react_dto), (fmap_inverse _ _ _ approval_dto),
    (fmap_inverse _ _ _ rerank_dto), (fmap_inverse _ _ _ timer_dto).
  rewrite derive_react_idx in *. unfold derive_approval_index in *. cbn [react_rounds approvals].
  destruct (react_idx_of (react_rounds s)) as [[ri tu] to]. destruct s.
  unfold with_react, with_approvals in *. cbn in *. congruence.
Qed.
Lemma decode_state_no_panic cp : no_panic (decode_state cp).
Proof.
  unfold decode_state, State_try_from. destruct (bincode_decode _) as [[dto n]|]; [|auto with outcome].
  apply no_panic_if; intros _; [auto with outcome|]. apply no_panic_bind; [|auto with outcome].
  generalize (∅ : gmap bytes MoteInfo). induction (btree_iter _) as [|[k x] l IH]; intros acc;
    cbn [motes_try_from]; [auto with outcome|]. apply no_panic_bind; [|intros; apply IH].
  unfold MoteInfo_try_from. apply no_panic_bind; [|auto with outcome].
  destruct (mi_committed x) as [c|]; [|auto with outcome]. unfold CommittedInfo_try_from.
  repeat (apply no_panic_bind; [|auto with outcome]).
  generalize (@nil ParentEntry). induction (ci_parents_in_entry c) as [|[[a b] d] ps IHp]; intros acc';
    cbn [parents_try_from]; [auto with outcome|]. destruct (ParentEntry.to_parent_ref _); auto with outcome.
Qed.
(** The payload determines the decoded state. *)
Lemma decode_state_payload cp cp' : payload cp = payload cp' -> decode_state cp = decode_state cp'.
Proof. unfold decode_state. by intros ->. Qed.

Lemma to_bytes_pieces cp :
  length cp.(digest) = 32%nat ->
  length (to_bytes cp) = (43 + length (payload cp))%nat
  /\ get_range (to_bytes cp) 0 2 = Some (to_le 2 cp.(format_version))
  /\ to_bytes cp !! 2%nat = Some cp.(payload_codec)
  /\ get_range (to_bytes cp) 3 11 = Some (to_le 8 cp.(journal_offset))
  /\ get_range (to_bytes cp) 11 43 = Some cp.(digest)
  /\ get_range (to_bytes cp) 43 (43 + length cp.(payload)) = Some cp.(payload).
Proof.
  intros Hd. unfold to_bytes. split_and!.
  - rewrite !length_app, !length_to_le, Hd. cbn [length]. lia.
  - by apply (get_range_mid []).
  - done.
  - rewrite (app_assoc (to_le 2 _)). by apply get_range_mid.
  - rewrite (app_assoc (to_le 2 _)), (app_assoc (_ ++ _)). apply get_range_mid; [|by rewrite Hd].
    rewrite !length_app, !length_to_le. done.
  - rewrite (app_assoc (to_le 2 _)), (app_assoc (_ ++ _) (to_le 8 _)), (app_assoc (_ ++ _) (digest cp)).
    rewrite <- (app_nil_r (payload cp)) at 1. apply get_range_mid; [|done].
    rewrite !length_app, !length_to_le, Hd. done.
Qed.
Lemma from_bytes_to_bytes cp :
  u64 cp.(journal_offset) -> length cp.(digest) = 32%nat -> verify cp = true ->
  from_bytes (to_bytes cp) = Ok cp.
Proof.
  intros Ho Hd Hv. destruct (to_bytes_pieces cp Hd) as (Hl & H0 & H2 & H3 & H11 & H43).
  unfold verify in Hv. apply andb_true_iff in Hv as [[Hv Hc]%andb_true_iff Hdig].
  apply Z.eqb_eq in Hv, Hc. rewrite Hv, Hc in Hdig.
  unfold from_bytes. rewrite Hl, H0, H2, H3, H11. unfold ENVELOPE_LEN. cbn [Nat.add] in *. rewrite H43.
  rewrite (proj2 (Nat.ltb_ge _ _)) by lia. cbn [fmap option_fmap option_map ok_or obind].
  rewrite Hv, Hc. cbn [Z.eqb negb CURRENT_FORMAT_VERSION PAYLOAD_CODEC].
  rewrite (from_to_le 2), (from_to_le 8) by (exact Ho || done). cbn [obind negb Z.eqb Pos.eqb].
  rewrite Hdig. destruct cp; cbn in *. by subst.
Qed.
(** Whatever [from_bytes] accepts is the serialized form of what it returns. *)
Lemma from_bytes_sound b cp :
  bytes_ok b -> from_bytes b = Ok cp -> verify cp = true /\ to_bytes cp = b.
Proof.
  intros Hb. unfold from_bytes. destruct (length b <? ENVELOPE_LEN)%nat; [done|].
  destruct (get_range b 0 2) as [v|] eqn:H0; [|done]. cbn [fmap option_fmap option_map ok_or obind].
  destruct (Z.eqb_spec (from_le v) CURRENT_FORMAT_VERSION) as [Hv|]; [|done]. cbn [negb].
  destruct (b !! 2%nat) as [c|] eqn:H2; [|done]. cbn [ok_or obind].
  destruct (Z.eqb_spec c PAYLOAD_CODEC) as [Hc|]; [|done]. cbn [negb].
  destruct (get_range b 3 11) as [o|] eqn:H3; [|done]. cbn [fmap option_fmap option_map ok_or obind].
  destruct (get_range b 11 43) as [d|] eqn:H11; [|done]. cbn [ok_or obind].
  destruct (get_range b ENVELOPE_LEN (length b)) as [p|] eqn:H43; [|done]. cbn [ok_or obind].
  case_bool_decide as Hd; [|done]. intros [= <-].
  apply get_range_split in H0 as [E0 L0], H3 as [E3 L3], H11 as [E11 _], H43 as [E43 _].
  apply drop_S in H2. rewrite drop_all, app_nil_r in E43. rewrite drop_0 in E0.
  change ENVELOPE_LEN with 43%nat in E43. rewrite E43 in E11. rewrite E11 in E3. rewrite E3 in H2. rewrite H2 in E0.
  assert (bytes_ok v /\ bytes_ok o) as [Hbv Hbo].
  { rewrite E0 in Hb. unfold bytes_ok in *. rewrite !Forall_app, Forall_cons, !Forall_app in Hb. naive_solver. }
  split.
  - unfold verify. cbn. by rewrite (bool_decide_true _ Hd), Hv, Hc, !Z.eqb_refl.
  - unfold to_bytes. cbn [format_version payload_codec journal_offset digest payload].
    pose proof (to_from_le v Hbv) as Tv. pose proof (to_from_le o Hbo) as To.
    rewrite L0 in Tv. rewrite L3 in To. cbn [Nat.sub] in Tv, To. by rewrite Tv, To, E0.
Qed.

(** [C37] Checkpoints round-trip: a checkpoint of any reachable state whose
    commits have well-formed parents verifies, survives serialization to bytes,
    and decodes to the very state, rebuilt indices included. Conversely every
    byte string the parser accepts is the serialized form of the verified
    checkpoint it returns. *)
Theorem checkpoint_roundtrip materializer s :
  rtc (proj_step materializer) State_default s -> u64 s.(last_seq) ->
  (forall k i, s.(motes) !! k = Some i -> parents_wf i) ->
  (verify (fold_checkpoint s) = true
   /\ from_bytes (to_bytes (fold_checkpoint s)) = Ok (fold_checkpoint s)
   /\ decode_state (fold_checkpoint s) = Ok s
   /\ payload_state_digest (fold_checkpoint s) = state_digest s)
  /\ (forall b cp, bytes_ok b -> from_bytes b = Ok cp -> verify cp = true /\ to_bytes cp = b).
Proof.
  intros Hs Hseq Hwf. split; [|intros b cp; apply from_bytes_sound].
  assert (verify (fold_checkpoint s) = true) as Hv by (unfold verify; cbn; by rewrite bool_decide_true).
  split_and!; [done| | |done].
  - apply from_bytes_to_bytes; [done| |done]. cbn. unfold envelope_digest. by destruct (blake3_array
      (to_le 2 CURRENT_FORMAT_VERSION ++ [PAYLOAD_CODEC] ++ to_le 8 s.(last_seq) ++ encode_state s)).
  - destruct (decode_encode_state s) as [[E _]|[_ (k & i & Hk & Hn)]]; [|done|].
    + by eapply indices_derived_reachable.
    + by destruct Hn; eapply Hwf.
Qed.
End Roundtrip.
