(* ===== verification/DemoCheckpoint.v ===== *)
(** The concrete codec of DemoCodec at the checkpoint's serialized form. *)
From S2P Require Import Prelude Utf8 Mote Entry DemoCodec ProjState Checkpoint.

#[export] Instance EdgeKind_countable : Countable EdgeKind.
Proof. count EdgeKind_as_u8 (fun z => if z =? 0 then Data else Control). Defined.
#[export] Instance EdgeMeta_countable : Countable EdgeMeta.
Proof. count (fun e => (kind e, non_cascade e)) (fun '(k, n) => {| kind := k; non_cascade := n |}). Defined.
#[export] Instance ParentRef_countable : Countable ParentRef.
Proof. count (fun p : ParentRef => (parent_id p, edge p)) (fun '(p, e) => {| parent_id := p; edge := e |}). Defined.
#[export] Instance FailureReason_countable : Countable FailureReason.
Proof.
  count FailureReason.as_u8 (fun z => default FailureReason.TimedOut (FailureReason.from_u8 z)).
Defined.
#[export] Instance ResolvedKindTag_countable : Countable ResolvedKindTag.
Proof. count ResolvedKindTag.as_u8 (fun z => default ResolvedKindTag.Builtin (ResolvedKindTag.from_u8 z)). Defined.
#[export] Instance IdempotencyClassTag_countable : Countable IdempotencyClassTag.
Proof.
  count IdempotencyClassTag.as_u8 (fun z => default IdempotencyClassTag.Token (IdempotencyClassTag.from_u8 z)).
Defined.
#[export] Instance ReactBranch_countable : Countable ReactBranch.
Proof.
  count (fun b => match b with
                  | ReactBranch.Answer => inl 0 | ReactBranch.DeadLettered => inl 1 | ReactBranch.Pending => inl 2
                  | ReactBranch.Tool i v => inr (inl (i, v))
                  | ReactBranch.Rejected r => inr (inr (inl r))
                  | ReactBranch.ToolBatch c => inr (inr (inr c))
                  end)
    (fun x : Z + (bytes * bytes + (bytes + list (bytes * bytes))) => match x with
              | inl z => if z =? 0 then ReactBranch.Answer else if z =? 1 then ReactBranch.DeadLettered
                         else ReactBranch.Pending
              | inr (inl (i, v)) => ReactBranch.Tool i v
              | inr (inr (inl r)) => ReactBranch.Rejected r
              | inr (inr (inr c)) => ReactBranch.ToolBatch c
              end).
Defined.
#[export] Instance ReRankOutcome_countable : Countable ReRankOutcome.
Proof.
  count (fun o => match o with
                  | ReRankOutcome.Pending => inl true | ReRankOutcome.FailedClosed => inl false
                  | ReRankOutcome.Reranked p => inr p
                  end)
    (fun x : bool + list Z => match x with
              | inl b => if b then ReRankOutcome.Pending else ReRankOutcome.FailedClosed
              | inr p => ReRankOutcome.Reranked p
              end).
Defined.
#[export] Instance ApprovalState_countable : Countable ApprovalState.
Proof.
  count (fun a => match a with
                  | ApprovalState.Requested i v t d c => inl (i, v, t, d, c)
                  | ApprovalState.Granted a r d => inr (inl (a, r, d))
                  | ApprovalState.Denied a r d => inr (inr (inl (a, r, d)))
                  | ApprovalState.Expired e => inr (inr (inr e))
                  end)
    (fun x : (bytes * bytes * bytes * Z * Z) + ((Z * bytes * Z) + ((Z * bytes * Z) + Z)) => match x with
              | inl (i, v, t, d, c) => ApprovalState.Requested i v t d c
              | inr (inl (a, r, d)) => ApprovalState.Granted a r d
              | inr (inr (inl (a, r, d))) => ApprovalState.Denied a r d
              | inr (inr (inr e)) => ApprovalState.Expired e
              end).
Defined.
#[export] Instance ResolvedCapabilityRecord_countable : Countable ResolvedCapabilityRecord.
Proof.
  count (fun r => (tool_id r, tool_version r, resolved_kind r, resolved_def_hash r, idempotency_class r))
    (fun '(a, b, c, d, e) => {| tool_id := a; tool_version := b; resolved_kind := c; resolved_def_hash := d;
                                idempotency_class := e |}).
Defined.

(** ** The serialized records *)
#[export] Instance DeclaredInfoDto_eq_dec : EqDecision DeclaredInfoDto.
Proof. solve_decision. Defined.
#[export] Instance DeclaredInfoDto_countable : Countable DeclaredInfoDto.
Proof.
  count (fun d => ((di_nd_class d, di_effect_pattern d, di_critic_for d),
                   (di_is_topology_shaper d, di_parents d, di_warrant_ref d)))
    (fun '((a, b, c), (d, e, f)) =>
       {| di_nd_class := a; di_effect_pattern := b; di_critic_for := c; di_is_topology_shaper := d;
          di_parents := e; di_warrant_ref := f |}).
Defined.
#[export] Instance CommittedInfoDto_eq_dec : EqDecision CommittedInfoDto.
Proof. solve_decision. Defined.
#[export] Instance CommittedInfoDto_countable : Countable CommittedInfoDto.
Proof.
  count (fun c => ((ci_seq c, ci_result_ref c, ci_nondeterminism c, ci_parents_in_entry c),
                   (ci_warrant_ref c, ci_mote_def_hash c, ci_repudiated c)))
    (fun '((a, b, c, d), (e, f, g)) =>
       {| ci_seq := a; ci_result_ref := b; ci_nondeterminism := c; ci_parents_in_entry := d;
          ci_warrant_ref := e; ci_mote_def_hash := f; ci_repudiated := g |}).
Defined.
#[export] Instance MoteInfoDto_eq_dec : EqDecision MoteInfoDto.
Proof. solve_decision. Defined.
#[export] Instance MoteInfoDto_countable : Countable MoteInfoDto.
Proof.
  count (fun m => ((mi_declared m, mi_committed m, mi_has_proposed m, mi_failed_pending_reattempt m),
                   (mi_effect_staged_observed m, mi_terminal_failure_observed m, mi_inconsistent m),
                   (mi_quarantined m, mi_failure_reason m, mi_failure_detail m)))
    (fun '((a, b, c, d), (e, f, g), (h, i, j)) =>
       {| mi_declared := a; mi_committed := b; mi_has_proposed := c; mi_failed_pending_reattempt := d;
          mi_effect_staged_observed := e; mi_terminal_failure_observed := f; mi_inconsistent := g;
          mi_quarantined := h; mi_failure_reason := i; mi_failure_detail := j |}).
Defined.
#[export] Instance RunRegistrationDto_eq_dec : EqDecision RunRegistrationDto.
Proof. solve_decision. Defined.
#[export] Instance RunRegistrationDto_countable : Countable RunRegistrationDto.
Proof.
  count (fun r => (rd_instance_id r, rd_recipe_fingerprint r))
    (fun '(a, b) => {| rd_instance_id := a; rd_recipe_fingerprint := b |}).
Defined.
#[export] Instance RunResolvedVersionsDto_eq_dec : EqDecision RunResolvedVersionsDto.
Proof. solve_decision. Defined.
#[export] Instance RunResolvedVersionsDto_countable : Countable RunResolvedVersionsDto.
Proof.
  count (fun r => (vd_instance_id r, vd_warrant_ref r, vd_model_id r, vd_capability r))
    (fun '(a, b, c, d) => {| vd_instance_id := a; vd_warrant_ref := b; vd_model_id := c; vd_capability := d |}).
Defined.
#[export] Instance ReplanRoundRecordDto_eq_dec : EqDecision ReplanRoundRecordDto.
Proof. solve_decision. Defined.
#[export] Instance ReplanRoundRecordDto_countable : Countable ReplanRoundRecordDto.
Proof.
  count (fun r => ((pd_round r, pd_shaper_mote_id r, pd_base_prompt_ref r, pd_corrected_prompt_ref r),
                   (pd_warrant_ref r, pd_model_id r, pd_failed_steps r, pd_escalation_reason_ref r, pd_seq r)))
    (fun '((a, b, c, d), (e, f, g, h, i)) =>
       {| pd_round := a; pd_shaper_mote_id := b; pd_base_prompt_ref := c; pd_corrected_prompt_ref := d;
          pd_warrant_ref := e; pd_model_id := f; pd_failed_steps := g; pd_escalation_reason_ref := h;
          pd_seq := i |}).
Defined.
#[export] Instance ReactRoundRecordDto_eq_dec : EqDecision ReactRoundRecordDto.
Proof. solve_decision. Defined.
#[export] Instance ReactRoundRecordDto_countable : Countable ReactRoundRecordDto.
Proof.
  count (fun r => ((xd_turn r, xd_turn_mote_id r, xd_instance_id r, xd_base_prompt_ref r, xd_warrant_ref r),
                   (xd_model_id r, xd_branch r, xd_max_turns r, xd_max_tool_calls r, xd_step_salt r),
                   (xd_is_agentic_launch r, xd_context_items_ref r, xd_image_ref r, xd_require_approval r, xd_seq r)))
    (fun '((a, b, c, d, e), (f, g, h, i, j), (k, l, m, n, o)) =>
       {| xd_turn := a; xd_turn_mote_id := b; xd_instance_id := c; xd_base_prompt_ref := d;
          xd_warrant_ref := e; xd_model_id := f; xd_branch := g; xd_max_turns := h; xd_max_tool_calls := i;
          xd_step_salt := j; xd_is_agentic_launch := k; xd_context_items_ref := l; xd_image_ref := m;
          xd_require_approval := n; xd_seq := o |}).
Defined.
#[export] Instance ApprovalRecordDto_eq_dec : EqDecision ApprovalRecordDto.
Proof. solve_decision. Defined.
#[export] Instance ApprovalRecordDto_countable : Countable ApprovalRecordDto.
Proof.
  count (fun r => (ad_instance_id r, ad_request_id r, ad_awaiting_mote_id r, ad_state r, ad_seq r))
    (fun '(a, b, c, d, e) => {| ad_instance_id := a; ad_request_id := b; ad_awaiting_mote_id := c;
                                ad_state := d; ad_seq := e |}).
Defined.
#[export] Instance TimerRecordDto_eq_dec : EqDecision TimerRecordDto.
Proof. solve_decision. Defined.
#[export] Instance TimerRecordDto_countable : Countable TimerRecordDto.
Proof.
  count (fun t => ((td_instance_id t, td_subject_mote_id t, td_purpose t, td_attempt t),
                   (td_fire_at_unix_ms t, td_anchor_ref t, td_seq t)))
    (fun '((a, b, c, d), (e, f, g)) =>
       {| td_instance_id := a; td_subject_mote_id := b; td_purpose := c; td_attempt := d;
          td_fire_at_unix_ms := e; td_anchor_ref := f; td_seq := g |}).
Defined.
#[export] Instance ReRankRoundRecordDto_eq_dec : EqDecision ReRankRoundRecordDto.
Proof. solve_decision. Defined.
#[export] Instance ReRankRoundRecordDto_countable : Countable ReRankRoundRecordDto.
Proof.
  count (fun r => ((kd_round r, kd_rerank_mote_id r, kd_instance_id r, kd_base_results_ref r, kd_query_ref r),
                   (kd_warrant_ref r, kd_model_id r, kd_candidate_count r, kd_outcome r, kd_seq r)))
    (fun '((a, b, c, d, e), (f, g, h, i, j)) =>
       {| kd_round := a; kd_rerank_mote_id := b; kd_instance_id := c; kd_base_results_ref := d;
          kd_query_ref := e; kd_warrant_ref := f; kd_model_id := g; kd_candidate_count := h;
          kd_outcome := i; kd_seq := j |}).
Defined.
#[export] Instance CheckpointState_eq_dec : EqDecision CheckpointState.
Proof. solve_decision. Defined.
#[export] Instance CheckpointState_countable : Countable CheckpointState.
Proof.
  count (fun s => ((cs_motes s, cs_children s, cs_last_seq s, cs_run_registration s, cs_run_resolved_versions s),
                   (cs_replan_rounds s, cs_react_rounds s, cs_approvals s, cs_rerank_rounds s, cs_timers s)))
    (fun '((a, b, c, d, e), (f, g, h, i, j)) =>
       {| cs_motes := a; cs_children := b; cs_last_seq := c; cs_run_registration := d;
          cs_run_resolved_versions := e; cs_replan_rounds := f; cs_react_rounds := g; cs_approvals := h;
          cs_rerank_rounds := i; cs_timers := j |}).
Defined.
Definition demo_checkpoint_codec : Bincode CheckpointState := demo_bincode.
