(* ===== verification/Recovery.v ===== *)
(** Cold recovery: kx-projection's checkpoint-aware construction
    (projection.rs) and the checkpoint cadence of the runtime engine
    (kx-runtime engine.rs, checkpoint_io.rs). A checkpoint may be stale, foreign
    or forged; recovery must give what folding the whole journal gives. *)
From S2P Require Import Prelude Utf8 CriticTypes Mote Entry Journal ProjState ProjIndex ProjFold ProjHistory ProjQuery Checkpoint DemoCheckpoint.
Import JournalEntry.

Module FullFoldReason.
Inductive FullFoldReason :=
| NoCheckpoint | IntegrityFailed | OffsetAheadOfHead | DecodeFailed | OffsetMismatch | WrongRun
| SealMissing | SealMismatch.
End FullFoldReason.
Abbreviation FullFoldReason := FullFoldReason.FullFoldReason.
Module CheckpointOutcome.
Inductive CheckpointOutcome :=
| Seeded (offset tail_entries : Z)
| FullFold (reason : FullFoldReason).
End CheckpointOutcome.
Abbreviation CheckpointOutcome := CheckpointOutcome.CheckpointOutcome.

(** The loops of [journal_seal_at] and [journal_run_instance]. *)
Fixpoint find_seal (through : Z) (es : list JournalEntry) : option bytes :=
  match es with
  | [] => None
  | DigestSealed through_seq state_digest _ :: es =>
      if through_seq =? through then Some state_digest else find_seal through es
  | _ :: es => find_seal through es
  end.
Fixpoint find_instance (es : list JournalEntry) : option bytes :=
  match es with
  | [] => None
  | RunRegistered instance_id _ _ _ :: _ => Some instance_id
  | _ :: es => find_instance es
  end.

Section Build.
Context `{Blake3} `{!Bincode CheckpointState} `{Journal J}.
Context (materializer : option Materializer).

Definition journal_seal_at (j : J) (through : Z) : outcome (option bytes) ProjectionError :=
  let* es := omap_err ProjectionError.Journal
               (read_entries_by_seq j (u64_add through 1) (u64_add through 2)) in
  Ok (find_seal through es).
Definition journal_run_instance (j : J) : outcome (option bytes) ProjectionError :=
  let* es := omap_err ProjectionError.Journal (read_entries_by_seq j 1 2) in
  Ok (find_instance es).
(** Gate 5: the registered run of the seed is not the journal's. *)
Definition wrong_run (j : J) (s : State) : outcome bool ProjectionError :=
  match s.(run_registration) with
  | None => Ok false
  | Some reg =>
      let* instance := journal_run_instance j in
      Ok (match instance with
          | Some journal_instance => negb (bool_decide (journal_instance = reg.(rr_instance_id)))
          | None => false
          end)
  end.
Definition try_seed_state (j : J) (cp : FoldCheckpoint) (current : Z)
    : outcome (State + FullFoldReason) ProjectionError :=
  if negb (verify cp) then Ok (inr FullFoldReason.IntegrityFailed)
  else if current <? cp.(journal_offset) then Ok (inr FullFoldReason.OffsetAheadOfHead)
  else
    match decode_state cp with
    | Err _ => Ok (inr FullFoldReason.DecodeFailed)
    | Panic => Panic
    | Ok state =>
        if negb (state.(last_seq) =? cp.(journal_offset)) then Ok (inr FullFoldReason.OffsetMismatch)
        else
          let* wrong := wrong_run j state in
          if wrong then Ok (inr FullFoldReason.WrongRun)
          else
            let* seal := journal_seal_at j cp.(journal_offset) in
            match seal with
            | None => Ok (inr FullFoldReason.SealMissing)
            | Some sealed_digest =>
                if negb (bool_decide (sealed_digest = payload_state_digest cp))
                then Ok (inr FullFoldReason.SealMismatch)
                else Ok (inl state)
            end
    end.
(** [from_journal_with_checkpoint] and its three variants are this function
    with the materializer given or not and the outcome kept or dropped. *)
Definition build_from_journal (j : J) (checkpoint : option FoldCheckpoint)
    : outcome (State * CheckpointOutcome) ProjectionError :=
  let* current := omap_err ProjectionError.Journal (current_seq j) in
  let* seed := match checkpoint with
               | Some cp => try_seed_state j cp current
               | None => Ok (inr FullFoldReason.NoCheckpoint)
               end in
  let '(p, start_exclusive, out) :=
    match seed with
    | inl state =>
        let offset := state.(last_seq) in
        (state, offset, CheckpointOutcome.Seeded offset (Z.max 0 (current - offset)))
    | inr reason => (State_default, 0, CheckpointOutcome.FullFold reason)
    end in
  let* es := omap_err ProjectionError.Journal
               (read_entries_by_seq j (u64_add start_exclusive 1) (u64_add current 1)) in
  let '(s, r) := fold_entries materializer es p in
  let* _ := r in Ok (s, out).

(** ** The engine's side *)
(** [fs::read] of the sidecar, then the parser; any failure is no checkpoint. *)
Definition read_checkpoint (sidecar : option bytes) : option FoldCheckpoint :=
  match sidecar with
  | None => None
  | Some b => match from_bytes b with Ok cp => Some cp | _ => None end
  end.
(** [persisted]: whether [write_atomic] succeeded; it leaves the old sidecar
    otherwise. The seal follows the sidecar; its failure is only logged. *)
Definition write_checkpoint (persisted : bool) (s : State) (j : J) (sidecar : option bytes)
    (folded_through : Z) : option bytes * J :=
  if negb persisted then (sidecar, j)
  else
    (Some (to_bytes (fold_checkpoint s)),
     match append j (DigestSealed folded_through (state_digest s) 0) with
     | Ok (_, j') => j'
     | _ => j
     end).
(** Returns the sidecar, the journal and [last_checkpoint_at]. *)
Definition maybe_checkpoint (checkpoint_every : option Z) (persisted : bool) (s : State) (j : J)
    (sidecar : option bytes) (folded_through last_checkpoint_at : Z) : option bytes * J * Z :=
  match checkpoint_every with
  | None => (sidecar, j, last_checkpoint_at)
  | Some cadence =>
      if (folded_through =? 0) || (Z.max 0 (folded_through - last_checkpoint_at) <? cadence)
      then (sidecar, j, last_checkpoint_at)
      else (write_checkpoint persisted s j sidecar folded_through, folded_through)
  end.
End Build.

(** ** Registration and folding commute *)
Definition register_all (regs : list RegisterMote) (s : State) : State :=
  foldl (fun s reg => register_mote reg s) s regs.
(** The last registration of a Mote. *)
Fixpoint declared_by (regs : list RegisterMote) (d : MoteId) (o : option RegisterMote) : option RegisterMote :=
  match regs with
  | [] => o
  | r :: regs => declared_by regs d (if decide (d = r.(RegisterMote.mote_id)) then Some r else o)
  end.
Definition declares (r : RegisterMote) : DeclaredInfo := {|
  DeclaredInfo.nd_class := r.(RegisterMote.nd_class);
  DeclaredInfo.effect_pattern := r.(RegisterMote.effect_pattern);
  DeclaredInfo.critic_for := r.(RegisterMote.critic_for);
  DeclaredInfo.is_topology_shaper := r.(RegisterMote.is_topology_shaper);
  DeclaredInfo.parents := r.(RegisterMote.parents);
  DeclaredInfo.warrant_ref := r.(RegisterMote.warrant_ref) |}.
(** Two states with the same fields but motes and children. *)
Record same_run (s s' : State) : Prop := {
  sr_seq : last_seq s' = last_seq s;
  sr_registration : run_registration s' = run_registration s;
  sr_versions : run_resolved_versions s' = run_resolved_versions s;
  sr_replan : replan_rounds s' = replan_rounds s;
  sr_rerank : rerank_rounds s' = rerank_rounds s;
  sr_timers : timers s' = timers s;
  sr_offdag : same_offdag s s'
}.
(** Equal up to what is declared of the Motes of [regs]. *)
Record sim (regs : list RegisterMote) (s s' : State) : Prop := {
  sim_run : same_run s s';
  sim_other : forall d, declared_by regs d None = None -> s'.(motes) !! d = s.(motes) !! d;
  sim_info : forall d,
    set_declared_field None (mote_info s' d) = set_declared_field None (mote_info s d)
}.

#[export] Instance same_run_equivalence : Equivalence same_run.
Proof.
  split.
  - intros s. split; [done..|apply same_offdag_refl].
  - intros s s' [H1 H2 H3 H4 H5 H6 (E1 & E2 & E3 & E4 & E5 & E6)]. by split.
  - intros s1 s2 s3 [A1 A2 A3 A4 A5 A6 (E1 & E2 & E3 & E4 & E5 & E6)]
      [B1 B2 B3 B4 B5 B6 (F1 & F2 & F3 & F4 & F5 & F6)].
    split; [congruence..|]. split_and!; congruence.
Qed.
#[export] Instance sim_equivalence regs : Equivalence (sim regs).
Proof.
  split.
  - intros s. by split.
  - intros s s' [H1 H2 H3]. split; [by symmetry|intros; by rewrite H2|done].
  - intros s1 s2 s3 [H1 H2 H3] [G1 G2 G3].
    split; [by etrans|intros; by rewrite G2, H2|intros; by rewrite G3, H3].
Qed.

(** A state is its motes and run fields; the index follows. *)
Lemma state_eq s s' : same_run s s' -> motes s' = motes s -> index_ok s -> index_ok s' -> s' = s.
Proof.
  intros [H1 H2 H3 H4 H5 H6 (E1 & E2 & E3 & E4 & E5 & E6)] Hm Hi Hi'.
  assert (children s' = children s) as Hc.
  { eapply index_for_unique; [exact Hi'|]. unfold index_ok in Hi. destruct Hi as [A B C]. split; [done..|].
    intros p c. rewrite C. unfold parents_of_id. by rewrite Hm. }
  destruct s, s'. cbn in *. by subst.
Qed.

Lemma declared_by_some regs d r :
  declared_by regs d (Some r) = Some (default r (declared_by regs d None)).
Proof.
  revert r. induction regs as [|x regs IH]; intros r; cbn [declared_by]; [done|]. case_decide; [|apply IH].
  by rewrite IH.
Qed.
Lemma mote_info_register r s d :
  mote_info (register_mote r s) d
  = if decide (d = r.(RegisterMote.mote_id)) then set_declared_field (Some (declares r)) (mote_info s d)
    else mote_info s d.
Proof.
  unfold register_mote, set_declared, reindex_child_edges.
  change (mote_info (with_children ?c ?s0) d) with (mote_info s0 d).
  rewrite mote_info_mut. by case_decide; subst.
Qed.
Lemma motes_register r s d :
  motes (register_mote r s) !! d
  = if decide (d = r.(RegisterMote.mote_id))
    then Some (set_declared_field (Some (declares r)) (mote_info s d)) else motes s !! d.
Proof.
  unfold register_mote, set_declared, reindex_child_edges, moteinfo_mut. cbn [motes with_children with_motes].
  case_decide; [subst; by rewrite lookup_insert_eq|by rewrite lookup_insert_ne].
Qed.
Lemma register_all_lookup regs s d :
  motes (register_all regs s) !! d
  = match declared_by regs d None with
    | Some r => Some (set_declared_field (Some (declares r)) (mote_info s d))
    | None => motes s !! d
    end.
Proof.
  revert s. induction regs as [|r regs IH]; intros s; [done|]. cbn [register_all foldl declared_by].
  fold (register_all regs (register_mote r s)). rewrite IH, mote_info_register, motes_register.
  case_decide as Hd.
  - rewrite declared_by_some. by destruct (declared_by regs d None).
  - done.
Qed.
Lemma same_run_register_all regs s : same_run s (register_all regs s).
Proof.
  revert s. induction regs as [|r regs IH]; intros s; [done|].
  destruct (IH (register_mote r s)). by split.
Qed.

(** Registering what is missing makes similar states equal. *)
Lemma sim_register_all regs s s' :
  sim regs s s' -> index_ok s -> index_ok s' -> register_all regs s' = register_all regs s.
Proof.
  intros [Hr Ho Hi] Hs Hs'. apply state_eq; [| |by apply index_ok_registers..].
  - etrans; [|apply same_run_register_all]. etrans; [|exact Hr]. symmetry. apply same_run_register_all.
  - apply map_eq. intros d. rewrite !register_all_lookup. specialize (Hi d).
    destruct (declared_by regs d None) eqn:E; [|by apply Ho]. f_equal.
    destruct (mote_info s' d), (mote_info s d). unfold set_declared_field in *. cbn in *. congruence.
Qed.
Lemma sim_register regs r s : r ∈ regs -> sim regs s (register_mote r s).
Proof.
  intros Hr. split; [by split| |].
  - intros d Hd. rewrite motes_register, decide_False; [done|]. intros ->.
    revert Hd. induction Hr as [r regs|r x regs _ IH]; cbn [declared_by].
    + rewrite decide_True by done. by rewrite declared_by_some.
    + case_decide; [by rewrite declared_by_some|done].
  - intros d. rewrite mote_info_register. by case_decide.
Qed.

Lemma sim_mote_info regs s s' d :
  sim regs s s' -> declared_by regs d None = None -> mote_info s' d = mote_info s d.
Proof. intros [_ Ho _] Hd. unfold mote_info. by rewrite Ho. Qed.
Lemma sim_mut regs id f s s' :
  (forall i, set_declared_field None (f i) = f (set_declared_field None i)) ->
  sim regs s s' -> sim regs (moteinfo_mut id f s) (moteinfo_mut id f s').
Proof.
  intros Hf Hs. pose proof Hs as [[H1 H2 H3 H4 H5 H6 H7] Ho Hi]. split; [by split| |].
  - intros d Hd. unfold moteinfo_mut. cbn [motes with_motes]. destruct (decide (d = id)) as [->|Hne].
    + by rewrite !lookup_insert_eq, (sim_mote_info _ _ _ _ Hs).
    + rewrite !lookup_insert_ne by done. by apply Ho.
  - intros d. rewrite !mote_info_mut. case_decide; [by rewrite !Hf, Hi|apply Hi].
Qed.
Lemma sim_registers regs children s s' :
  (forall r, r ∈ children -> declared_by regs r.(RegisterMote.mote_id) None = None) ->
  sim regs s s' -> sim regs (register_all children s) (register_all children s').
Proof.
  intros Hc Hs. pose proof Hs as [Hr Ho Hi]. split.
  - etrans; [|apply same_run_register_all]. etrans; [|exact Hr]. symmetry. apply same_run_register_all.
  - intros d Hd. rewrite !register_all_lookup, (sim_mote_info _ _ _ _ Hs) by done.
    destruct (declared_by children d None); [done|by apply Ho].
  - intros d. unfold mote_info. rewrite !register_all_lookup.
    destruct (declared_by children d None); [cbn|apply Hi]. exact (Hi d).
Qed.

Section Live.
Context (materializer : option Materializer) (regs : list RegisterMote).
(** The materializer introduces no Mote the workflow declares itself. *)
Definition children_fresh : Prop :=
  forall m a b c d children r, materializer = Some m -> m a b c d = Ok (Some children) -> r ∈ children ->
    declared_by regs r.(RegisterMote.mote_id) None = None.
Context (fresh : children_fresh).

Lemma sim_committed_info s s' d : sim regs s s' -> committed (mote_info s' d) = committed (mote_info s d).
Proof.
  intros [_ _ Hi]. specialize (Hi d).
  destruct (mote_info s' d), (mote_info s d). unfold set_declared_field in Hi. cbn in *. congruence.
Qed.
Lemma sim_bump n s s' : sim regs s s' -> sim regs (bump_seq n s) (bump_seq n s').
Proof.
  intros [[H1 H2 H3 H4 H5 H6 H7] Ho Hi]. split; [|exact Ho|exact Hi]. split; try done. cbn. by rewrite H1.
Qed.
Lemma sim_metadata e s s' : sim regs s s' -> sim regs (fold_run_metadata e s) (fold_run_metadata e s').
Proof.
  intros Hs. pose proof Hs as [[H1 H2 H3 H4 H5 H6 (E1 & E2 & E3 & E4 & E5 & E6)] Ho Hi].
  destruct e; cbn [fold_run_metadata fold_react_metadata]; try exact Hs; try by apply sim_bump.
  all: try (apply sim_bump; split; [split; cbn; rewrite ?H1, ?H2, ?H3, ?H4, ?H5, ?H6; done|exact Ho|exact Hi]).
  - apply sim_bump. unfold index_last_react_round. cbn [react_rounds with_react]. rewrite !last_snoc.
    split; [|exact Ho|exact Hi]. split; try done. unfold same_offdag. cbn. by rewrite E1, E2, E3, E4, E5, E6.
  - apply sim_bump. unfold index_last_approval. cbn [approvals with_approvals]. rewrite !last_snoc.
    split; [|exact Ho|exact Hi]. split; try done. unfold same_offdag. cbn. by rewrite E1, E2, E3, E4, E5, E6.
Qed.
Lemma sim_index_committed id o o' s s' :
  sim regs s s' -> sim regs (index_committed id o s) (index_committed id o' s').
Proof. intros [[H1 H2 H3 H4 H5 H6 H7] Ho Hi]. split; [by split|exact Ho|exact Hi]. Qed.
Lemma sim_fold_committed id n nd r ps w h s s' :
  sim regs s s' ->
  sim regs (fold_committed materializer id n nd r ps w h s).1 (fold_committed materializer id n nd r ps w h s').1
  /\ (fold_committed materializer id n nd r ps w h s').2 = (fold_committed materializer id n nd r ps w h s).2.
Proof.
  intros Hs. unfold fold_committed. rewrite (sim_committed_info _ _ _ Hs).
  case_bool_decide; [split; [by apply sim_mut|done]|].
  set (c := CommittedInfo.Build_CommittedInfo _ _ _ _ _ _ _).
  assert (Hm : forall i, set_declared_field None (set_committed_field (Some c) i)
                         = set_committed_field (Some c) (set_declared_field None i)) by done.
  pose proof (sim_index_committed id (parents_of_id s id) (parents_of_id s' id) _ _
    (sim_bump n _ _ (sim_mut regs id _ _ _ Hm Hs))) as Hs1.
  destruct materializer as [m|] eqn:Em; [|done].
  destruct (m id h r w) as [[children|]|e|] eqn:E; try done. split; [|done].
  apply sim_registers; [|done]. intros x Hx. by eapply fresh.
Qed.
Lemma sim_fold e s s' :
  sim regs s s' ->
  sim regs (fold materializer e s).1 (fold materializer e s').1
  /\ (fold materializer e s').2 = (fold materializer e s).2.
Proof.
  intros Hs. assert (Hl : last_seq s' = last_seq s) by apply Hs.
  destruct e; cbn [fold fst snd]; rewrite ?Hl;
    try (split; [by apply sim_metadata|done]);
    try (split; [apply sim_bump, sim_mut; [|done]; intros i; by destruct i|done]).
  - destruct (sim_fold_committed mote_id seq nondeterminism result_ref parents warrant_ref mote_def_hash s s' Hs)
      as [H1 H2].
    destruct (fold_committed _ _ _ _ _ _ _ _ s) as [s1 r1], (fold_committed _ _ _ _ _ _ _ _ s') as [s2 r2].
    cbn in *. by rewrite H2.
  - split; [|done]. apply sim_bump, sim_mut; [|done]. intros i. unfold fold_repudiated.
    cbn [committed effect_staged_observed set_declared_field]. by repeat case_match.
  - split; [|done]. apply sim_bump, sim_mut; [|done]. intros i. unfold fold_failed.
    cbn [committed failure_reason set_declared_field]. by repeat case_match.
Qed.
Lemma sim_fold_entries es : forall s s',
  sim regs s s' ->
  sim regs (fold_entries materializer es s).1 (fold_entries materializer es s').1
  /\ (fold_entries materializer es s').2 = (fold_entries materializer es s).2.
Proof.
  induction es as [|e es IH]; intros s s' Hs; cbn [fold_entries]; [done|].
  destruct (sim_fold e s s' Hs) as [H1 H2].
  destruct (fold materializer e s) as [s1 r1], (fold materializer e s') as [s2 r2]. cbn in *. subst.
  destruct r1; [by apply IH|done..].
Qed.

(** [live l s]: the writer's projection after folding [l] in order, with the
    workflow's Motes registered at any point. *)
Inductive live : list JournalEntry -> State -> Prop :=
| live_start : live [] State_default
| live_fold l e s s' prev : live l s -> fold materializer e s = (s', Ok prev) -> live (l ++ [e]) s'
| live_register l r s : r ∈ regs -> live l s -> live l (register_mote r s).
Lemma live_reachable l s : live l s -> rtc (proj_step materializer) State_default s.
Proof.
  induction 1 as [|l e s s' prev _ IH E|l r s _ _ IH]; [done| |].
  - eapply rtc_r; [exact IH|]. replace s' with (fold materializer e s).1 by (by rewrite E). apply step_fold.
  - eapply rtc_r; [exact IH|apply step_register].
Qed.
Lemma live_sim l s :
  live l s -> exists s0, fold_entries materializer l State_default = (s0, Ok tt) /\ sim regs s0 s.
Proof.
  induction 1 as [|l e s s' prev _ (s0 & H0 & Hs) E|l r s Hr _ (s0 & H0 & Hs)]; [by exists State_default| |].
  - destruct (sim_fold e s0 s Hs) as [H1 H2]. rewrite E in H1, H2. rewrite fold_entries_app, H0. cbn [fold_entries].
    destruct (fold materializer e s0) as [s1 r1]. cbn in *. subst. eauto.
  - exists s0. split; [done|]. etrans; [exact Hs|by apply sim_register].
Qed.
Lemma fold_entries_reachable l s0 s r :
  rtc (proj_step materializer) State_default s0 -> fold_entries materializer l s0 = (s, r) ->
  rtc (proj_step materializer) State_default s.
Proof.
  revert s0. induction l as [|e l IH]; intros s0 Hs; cbn [fold_entries]; [by intros [= <- _]|].
  assert (rtc (proj_step materializer) State_default (fold materializer e s0).1) as H1
    by (eapply rtc_r; [exact Hs|apply step_fold]).
  destruct (fold materializer e s0) as [s1 [x|err|]]; [by apply IH|by intros [= <- _]..].
Qed.
End Live.

(** ** Reading the tail of a log *)
Lemma filter_entries_all p l : (forall x, x ∈ l -> p x = true) -> filter_entries p l = l.
Proof.
  unfold filter_entries. induction l as [|x l IH]; intros Hl; [done|]. cbn [List.filter].
  rewrite (Hl x) by set_solver. f_equal. apply IH. set_solver.
Qed.
Lemma filter_entries_none p l : (forall x, x ∈ l -> p x = false) -> filter_entries p l = [].
Proof.
  unfold filter_entries. induction l as [|x l IH]; intros Hl; [done|]. cbn [List.filter].
  rewrite (Hl x) by set_solver. apply IH. set_solver.
Qed.
Lemma filter_range_drop l a :
  contiguous l -> filter_entries (in_range (Z.of_nat a + 1) (Z.of_nat (length l) + 1)) l = drop a l.
Proof.
  intros Hc. rewrite <- (take_drop a l) at 2. unfold filter_entries. rewrite List.filter_app.
  fold (filter_entries (in_range (Z.of_nat a + 1) (Z.of_nat (length l) + 1)) (take a l)).
  fold (filter_entries (in_range (Z.of_nat a + 1) (Z.of_nat (length l) + 1)) (drop a l)).
  rewrite filter_entries_none, filter_entries_all; [done|..]; intros x [i Hi]%list_elem_of_lookup_1.
  - rewrite lookup_drop in Hi. pose proof (Hc _ _ Hi). apply lookup_lt_Some in Hi. unfold in_range. lia.
  - apply lookup_take_Some in Hi as [Hi Hlt]. pose proof (Hc _ _ Hi). unfold in_range. lia.
Qed.
Lemma filter_range_one l a e :
  contiguous l -> l !! a = Some e -> filter_entries (in_range (Z.of_nat a + 1) (Z.of_nat a + 2)) l = [e].
Proof.
  intros Hc He. pose proof (lookup_lt_Some _ _ _ He).
  pose proof (filter_range_app l (Z.of_nat a + 1) (Z.of_nat a + 2) (Z.of_nat (length l) + 1)
    (contiguous_sorted l Hc) ltac:(lia) ltac:(lia)) as E.
  rewrite filter_range_drop in E by done. rewrite (drop_S _ _ _ He) in E.
  replace (Z.of_nat a + 2) with (Z.of_nat (S a) + 1) in E |- * by lia. rewrite filter_range_drop in E by done.
  change (e :: drop (S a) l) with ([e] ++ drop (S a) l) in E. by apply app_inv_tail in E.
Qed.
Lemma find_seal_elem through es d :
  find_seal through es = Some d -> exists seq, DigestSealed through d seq ∈ es.
Proof.
  induction es as [|e es IH]; [done|].
  destruct e; cbn [find_seal]; try (intros [n0 ?]%IH; exists n0; by right).
  case_match eqn:E; [|intros [n0 ?]%IH; exists n0; by right].
  intros [= <-]. apply Z.eqb_eq in E as ->. eexists. by left.
Qed.

Section Recovery.
Context `{JournalLaws J} `{!Bincode CheckpointState}.
Context (materializer : option Materializer) (regs : list RegisterMote).

(** Each seal in place (the entry after the frontier it names) carries the
    digest of a projection the writer held at that frontier. *)
Definition seals_honest (l : list JournalEntry) : Prop :=
  forall i d seq, l !! i = Some (DigestSealed (Z.of_nat i) d seq) ->
    exists s, live materializer regs (take i l) s /\ d = state_digest s.
(** The checkpoint's payload does not collide under the hash with an encoded
    projection of the writer. *)
Definition no_collision (l : list JournalEntry) (cp : FoldCheckpoint) : Prop :=
  forall i s, live materializer regs (take i l) s ->
    payload_state_digest cp = state_digest s -> cp.(payload) = encode_state s.

(** A checkpoint that passes every gate decodes to a projection of the writer. *)
Lemma seed_is_live j l cp s :
  represents j l -> Z.of_nat (length l) + 2 < MAX_LOG -> 0 <= cp.(journal_offset) ->
  seals_honest l -> no_collision l cp ->
  try_seed_state j cp (Z.of_nat (length l)) = Ok (inl s) ->
  exists i, last_seq s = Z.of_nat i /\ (i <= length l)%nat /\ live materializer regs (take i l) s.
Proof.
  intros Hr Hlen Ho Hh Hn. unfold try_seed_state.
  destruct (verify cp); [|done]. cbn [negb].
  destruct (Z.ltb_spec (Z.of_nat (length l)) (journal_offset cp)) as [|Hle]; [done|].
  destruct (decode_state cp) as [s'|?|] eqn:Hd; [|done..].
  destruct (Z.eqb_spec (last_seq s') (journal_offset cp)) as [Hls|]; [|done]. cbn [negb].
  destruct (wrong_run j s') as [[]|?|]; [done| |done..]. cbn [obind].
  unfold journal_seal_at, MAX_LOG in *. rewrite !u64_add_small by lia.
  rewrite (read_entries_law j l) by (done || unfold MAX_LOG; lia). cbn [omap_err obind].
  destruct (find_seal _ _) as [d|] eqn:Hf; [|done]. case_bool_decide as Hdig; [|done]. cbn [negb].
  intros [= ->]. apply find_seal_elem in Hf as [seq [Hin Hrange]%elem_of_filter_entries].
  apply list_elem_of_lookup_1 in Hin as [i Hi].
  pose proof (proj1 (represents_wf j l Hr) _ _ Hi) as Hseq. unfold in_range in Hrange. cbn in Hseq, Hrange.
  assert (journal_offset cp = Z.of_nat i) as Hoff by lia. rewrite Hoff in *.
  destruct (Hh i d seq Hi) as (s0 & Hs0 & ->). exists i. split; [done|]. split; [lia|].
  pose proof (Hn i s0 Hs0 (eq_sym Hdig)) as Hp.
  rewrite (decode_state_payload cp (from_state s0) Hp) in Hd.
  destruct (decode_encode_state s0) as [[E _]|[[e E] _]].
  - eapply indices_derived_reachable, live_reachable, Hs0.
  - rewrite E in Hd. by injection Hd as <-.
  - by rewrite E in Hd.
Qed.

Lemma read_one j l a :
  represents j l -> 0 <= a -> a + 2 < MAX_LOG ->
  exists es, read_entries_by_seq j (a + 1) (a + 2) = Ok es.
Proof. intros Hr Ha Hlen. rewrite (read_entries_law j l) by (done || lia). eauto. Qed.
Lemma try_seed_total j l cp current :
  represents j l -> 0 <= cp.(journal_offset) -> 0 <= current -> current + 2 < MAX_LOG ->
  exists seed, try_seed_state j cp current = Ok seed.
Proof.
  intros Hr Ho Hcur Hlen. unfold try_seed_state.
  destruct (verify cp); [|cbn; eauto]. cbn [negb].
  destruct (Z.ltb_spec current (journal_offset cp)) as [|Hle]; [eauto|].
  destruct (decode_state cp) as [s|?|] eqn:Hd; [|eauto|by destruct (decode_state_no_panic cp)].
  case_match; [eauto|]. unfold wrong_run, journal_run_instance, journal_seal_at.
  assert (cp.(journal_offset) + 2 < 2 ^ 64) by (unfold MAX_LOG in *; lia).
  rewrite !u64_add_small by lia.
  destruct (read_one j l (journal_offset cp)) as [es ->]; [done|lia..|].
  destruct (read_one j l 0) as [es0 E0]; [done|unfold MAX_LOG in *; lia..|].
  change (0 + 1) with 1 in E0. change (0 + 2) with 2 in E0. rewrite E0.
  cbn [omap_err obind]. destruct (run_registration s); cbn [obind]; repeat case_match; eauto.
Qed.
Lemma seeded_full_fold i l s :
  children_fresh materializer regs -> live materializer regs (take i l) s ->
  (let* _ := (fold_entries materializer (drop i l) s).2 in
   Ok (register_all regs (fold_entries materializer (drop i l) s).1))
  = (let* _ := (fold_entries materializer l State_default).2 in
     Ok (register_all regs (fold_entries materializer l State_default).1)).
Proof.
  intros Hfresh Hs. destruct (live_sim _ _ Hfresh _ _ Hs) as (s0 & Hf0 & Hsim).
  assert (fold_entries materializer l State_default = fold_entries materializer (drop i l) s0) as ->.
  { rewrite <- (take_drop i l) at 1. by rewrite fold_entries_app, Hf0. }
  destruct (sim_fold_entries _ _ Hfresh (drop i l) s0 s Hsim) as [Hsim' ->].
  destruct (fold_entries materializer (drop i l) s0) as [s1 [[]|?|]] eqn:E1,
    (fold_entries materializer (drop i l) s) as [s2 r2] eqn:E2; cbn [obind fst snd] in *; [|done..].
  f_equal. apply sim_register_all; [done|..]; apply (index_ok_reachable materializer).
  - eapply fold_entries_reachable; [|exact E1]. by eapply (fold_entries_reachable _ (take i l) State_default).
  - eapply fold_entries_reachable; [|exact E2]. by eapply live_reachable.
Qed.

(** [C9] Recovery ignores the checkpoint: whatever sidecar is presented, stale,
    foreign or forged, recovery with it ends, after the workflow's Motes are
    registered again, in the same projection as folding the whole journal, or
    fails with the same error. With no Mote registered outside the journal the
    two projections are equal outright. The journal's seals are the writer's own
    and the sidecar does not collide with them under the hash. *)
Theorem recovery_is_full_fold j l checkpoint :
  represents j l -> Z.of_nat (length l) + 2 < MAX_LOG ->
  children_fresh materializer regs -> seals_honest l ->
  (forall cp, checkpoint = Some cp -> 0 <= cp.(journal_offset) /\ no_collision l cp) ->
  (let* r := build_from_journal materializer j checkpoint in Ok (register_all regs r.1))
  = (let* s := from_journal materializer j in Ok (register_all regs s)).
Proof.
  intros Hr Hlen Hfresh Hh Hcp. pose proof (represents_wf j l Hr) as [Hc _].
  assert (Hlen' : Z.of_nat (length l) + 2 < 2 ^ 64) by (unfold MAX_LOG in *; lia).
  assert (Hread : forall i, (i <= length l)%nat -> read_entries_by_seq j (u64_add (Z.of_nat i) 1)
            (u64_add (Z.of_nat (length l)) 1) = Ok (drop i l)).
  { intros i Hi. rewrite !u64_add_small by lia.
    rewrite (read_entries_law j l) by (done || lia). by rewrite filter_range_drop. }
  assert (Hfull : forall reason,
    (let* r := (let* es := omap_err ProjectionError.Journal
                  (read_entries_by_seq j (u64_add 0 1) (u64_add (Z.of_nat (length l)) 1)) in
                let '(s, r) := fold_entries materializer es State_default in
                let* _ := r in Ok (s, CheckpointOutcome.FullFold reason)) in
     Ok (register_all regs r.1))
    = (let* _ := (fold_entries materializer l State_default).2 in
       Ok (register_all regs (fold_entries materializer l State_default).1))).
  { intros reason. change (u64_add 0 1) with (u64_add (Z.of_nat 0) 1). rewrite Hread by lia. cbn [omap_err obind]. rewrite drop_0.
    by destruct (fold_entries materializer l State_default) as [s [[]|?|]]. }
  trans (let* _ := (fold_entries materializer l State_default).2 in
         (Ok (register_all regs (fold_entries materializer l State_default).1) : outcome State ProjectionError)).
  - unfold build_from_journal. rewrite (current_seq_law j l Hr). cbn [omap_err obind].
    destruct checkpoint as [cp|]; [|by apply Hfull]. destruct (Hcp cp eq_refl) as [Ho Hn].
    destruct (try_seed_total j l cp (Z.of_nat (length l))) as [[s|reason] Hseed]; [done|done|lia|done| |]; rewrite Hseed;
      cbn [obind]; [|by apply Hfull].
    destruct (seed_is_live j l cp s) as (i & Hi & Hil & Hlive); [done..|]. rewrite Hi, Hread by done.
    cbn [omap_err obind]. rewrite <- (seeded_full_fold i l s Hfresh Hlive).
    by destruct (fold_entries materializer (drop i l) s) as [s1 [[]|?|]].
  - unfold from_journal. rewrite (current_seq_law j l Hr). cbn [omap_err obind].
    rewrite u64_add_small by lia. rewrite (read_entries_law j l) by (done || lia). cbn [omap_err obind].
    rewrite filter_range_all by done. by destruct (fold_entries materializer l State_default) as [s [[]|?|]].
Qed.

(** ** A checkpoint of the live projection is used *)
Lemma contiguous_prefix l l' : contiguous (l ++ l') -> contiguous l.
Proof. intros Hc i e Hi. apply Hc. by apply lookup_app_l_Some. Qed.
Lemma live_last_seq l s : live materializer regs l s -> contiguous l -> last_seq s = Z.of_nat (length l).
Proof.
  induction 1 as [|l e s s' prev _ IH E|l r s _ _ IH]; intros Hc; [done| |by apply IH].
  pose proof (fold_last_seq materializer e s) as Hl. rewrite E in Hl. cbn in Hl. rewrite Hl by done.
  rewrite IH by (by eapply contiguous_prefix).
  rewrite (Hc (length l) e) by (by rewrite lookup_app_r, Nat.sub_diag by lia).
  rewrite length_app. cbn [length]. lia.
Qed.
Lemma registers_registration rs s : run_registration (register_all rs s) = run_registration s.
Proof. apply same_run_register_all. Qed.
Lemma fold_registration e s :
  run_registration (fold materializer e s).1
  = match e with
    | RunRegistered inst fp _ _ => Some {| rr_instance_id := inst; rr_recipe_fingerprint := fp |}
    | _ => run_registration s
    end.
Proof.
  destruct e; cbn [fold fst fold_run_metadata fold_react_metadata]; try done.
  - unfold fold_committed. case_bool_decide; [done|].
    destruct (match materializer with Some m => _ | None => _ end) as [[rs|]|?|]; try done.
    cbn [fst]. exact (registers_registration rs _).
  - unfold index_last_react_round. cbn [react_rounds with_react]. by rewrite last_snoc.
  - unfold index_last_approval. cbn [approvals with_approvals]. by rewrite last_snoc.
Qed.
Lemma live_registration l s reg :
  live materializer regs l s -> run_registration s = Some reg ->
  exists fp ts n, RunRegistered reg.(rr_instance_id) fp ts n ∈ l.
Proof.
  induction 1 as [|l e s s' prev _ IH E|l r s _ _ IH]; intros Hreg; [done| |by apply IH].
  pose proof (fold_registration e s) as Hf. rewrite E in Hf. cbn [fst] in Hf. rewrite Hreg in Hf.
  destruct e; try (destruct (IH (eq_sym Hf)) as (fp & t0 & n & Hin); exists fp, t0, n; apply elem_of_app; by left).
  injection Hf as ->. eexists _, _, _. apply elem_of_app. right. by left.
Qed.
Definition one_run (l : list JournalEntry) : Prop :=
  forall a b fa fb ta tb na nb, RunRegistered a fa ta na ∈ l -> RunRegistered b fb tb nb ∈ l -> a = b.
Lemma find_instance_elem es inst :
  find_instance es = Some inst -> exists fp ts n, RunRegistered inst fp ts n ∈ es.
Proof.
  induction es as [|e es IH]; [done|].
  destruct e; cbn [find_instance]; try (intros (fp & t0 & n0 & ?)%IH; exists fp, t0, n0; by right).
  intros [= <-]. eexists _, _, _. by left.
Qed.
Lemma right_run j l s :
  represents j l -> one_run l ->
  (forall reg, run_registration s = Some reg -> exists fp ts n, RunRegistered reg.(rr_instance_id) fp ts n ∈ l) ->
  wrong_run j s = Ok false.
Proof.
  intros Hr Hone Hreg. unfold wrong_run. destruct (run_registration s) as [reg|]; [|done].
  unfold journal_run_instance. rewrite (read_entries_law j l) by done. cbn [omap_err obind].
  destruct (find_instance _) as [inst|] eqn:Hf; [|done]. apply find_instance_elem in Hf as (fp & ts & n & Hin).
  apply elem_of_filter_entries in Hin as [Hin _]. destruct (Hreg reg eq_refl) as (fp' & ts' & n' & Hin').
  rewrite (Hone _ _ _ _ _ _ _ _ Hin Hin'). by rewrite bool_decide_true.
Qed.

(** The journal after the seal. *)
Definition seal_entry (s : State) (through seq : Z) : JournalEntry := DigestSealed through (state_digest s) seq.
Lemma log_append_seal l s n :
  log_append l (seal_entry s n 0)
  = (seal_entry s n (Z.of_nat (length l) + 1), l ++ [seal_entry s n (Z.of_nat (length l) + 1)]).
Proof. done. Qed.
Lemma fold_checkpoint_verifies s : verify (fold_checkpoint s) = true.
Proof. unfold verify. cbn. by rewrite bool_decide_true. Qed.
Lemma read_written_checkpoint s :
  u64 s.(last_seq) -> read_checkpoint (Some (to_bytes (fold_checkpoint s))) = Some (fold_checkpoint s).
Proof.
  intros Hseq. unfold read_checkpoint. rewrite from_bytes_to_bytes; [done|done| |apply fold_checkpoint_verifies].
  cbn. apply blake3_array.
Qed.
Lemma seed_accepted j l s :
  let n := Z.of_nat (length l) in
  represents j (l ++ [seal_entry s n (n + 1)]) -> n + 3 < MAX_LOG ->
  live materializer regs l s -> last_seq s = n ->
  (forall k i, s.(motes) !! k = Some i -> parents_wf i) -> one_run l ->
  try_seed_state j (fold_checkpoint s) (n + 1) = Ok (inl s).
Proof.
  intros n Hr Hlen Hlive Hseq Hwf Hone. pose proof (represents_wf j _ Hr) as [Hc _].
  assert (n + 3 < 2 ^ 64) by (unfold MAX_LOG in *; lia).
  unfold try_seed_state. rewrite fold_checkpoint_verifies. cbn [negb journal_offset fold_checkpoint from_state].
  rewrite Hseq. rewrite (proj2 (Z.ltb_ge _ _)) by lia.
  destruct (decode_encode_state s) as [[E _]|[_ (k & i & Hk & Hn)]].
  { eapply indices_derived_reachable, live_reachable, Hlive. }
  2: { by destruct Hn; eapply Hwf. }
  unfold fold_checkpoint. rewrite E, Hseq, Z.eqb_refl. cbn [negb].
  rewrite (right_run j (l ++ [seal_entry s n (n + 1)])); [|done| |].
  - cbn [obind]. unfold journal_seal_at. rewrite !u64_add_small by lia.
    rewrite (read_entries_law j (l ++ [seal_entry s n (n + 1)])) by (done || lia).
    unfold n. rewrite (filter_range_one _ _ (seal_entry s n (n + 1))); [|done|].
    + cbn [omap_err obind find_seal seal_entry]. rewrite Z.eqb_refl. by rewrite bool_decide_true.
    + by rewrite lookup_app_r, Nat.sub_diag by lia.
  - intros a b fa fb ta tb na nb [Ha|Ha]%elem_of_app [Hb|Hb]%elem_of_app;
      [by eapply Hone|by apply list_elem_of_singleton in Hb|by apply list_elem_of_singleton in Ha..].
  - intros reg Hreg. destruct (live_registration _ _ _ Hlive Hreg) as (fp & ts & k & Hin).
    exists fp, ts, k. apply elem_of_app. by left.
Qed.

(** The checkpoint cadence pays off: when the cadence is due, the engine's
    checkpoint and seal let the next recovery start from the live projection
    itself and fold one entry, the seal. *)
Theorem due_checkpoint_seeds j l s sidecar cadence last_at :
  let n := Z.of_nat (length l) in
  represents j l -> n + 3 < MAX_LOG -> accepts (seal_entry s n 0) ->
  live materializer regs l s -> 0 < n -> cadence <= n - last_at ->
  (forall k i, s.(motes) !! k = Some i -> parents_wf i) -> one_run l ->
  let '(sidecar', j', at') := maybe_checkpoint (Some cadence) true s j sidecar n last_at in
  at' = n
  /\ build_from_journal materializer j' (read_checkpoint sidecar')
     = Ok (bump_seq (n + 1) s, CheckpointOutcome.Seeded n 1).
Proof.
  intros n Hr Hlen Hacc Hlive Hn Hdue Hwf Hone. pose proof (represents_wf j _ Hr) as [Hc _].
  pose proof (live_last_seq l s Hlive Hc) as Hseq. fold n in Hseq.
  assert (n + 3 < 2 ^ 64) by (unfold MAX_LOG in *; lia).
  unfold maybe_checkpoint. rewrite (proj2 (Z.eqb_neq _ _)) by lia. rewrite (proj2 (Z.ltb_ge _ _)) by lia.
  cbn [orb]. unfold write_checkpoint. cbn [negb]. split; [done|].
  fold (seal_entry s n 0). destruct (append_law j l (seal_entry s n 0)) as (j' & -> & Hr'); [done|done|lia|].
  rewrite log_append_seal in *. fold n in Hr' |- *. cbn [fst snd] in *.
  rewrite read_written_checkpoint by (rewrite Hseq; unfold u64, in_width; lia).
  unfold build_from_journal. rewrite (current_seq_law j' _ Hr'). cbn [omap_err obind].
  replace (Z.of_nat (length (l ++ [seal_entry s n (n + 1)]))) with (n + 1) by (rewrite length_app; cbn; lia).
  pose proof (seed_accepted j' l s Hr' Hlen Hlive Hseq Hwf Hone) as Hseed. fold n in Hseed. rewrite Hseed.
  cbn [obind]. rewrite Hseq, !u64_add_small by lia. replace (n + 1 + 1) with (n + 2) by lia.
  rewrite (read_entries_law j' (l ++ [seal_entry s n (n + 1)])) by (done || lia). cbn [omap_err obind].
  unfold n at 1 2. rewrite (filter_range_one _ _ (seal_entry s n (n + 1)));
    [|apply (represents_wf j' _ Hr')|by rewrite lookup_app_r, Nat.sub_diag by lia].
  cbn. by replace (Z.max 0 (n + 1 - n)) with 1 by lia.
Qed.
End Recovery.

(** ** A sealed journal

    Mote [1] is committed in the journal, its consumer [2] is declared by the
    workflow. The hash tells the writer's payload from every other string. *)
Definition indicator_blake3 (p : bytes) : Blake3.
Proof.
  refine {| blake3 := fun x => replicate 32 (if bool_decide (x = p) then 1 else 0) |}.
  intros x. split; [by rewrite length_replicate|]. apply Forall_replicate. by case_bool_decide.
Defined.
Definition demo_consumer : RegisterMote := demo_reg [2] [{| parent_id := [1]; edge := EdgeMeta_data |}].
Definition demo_live : State := register_mote demo_consumer (fold None (demo_commit [1] 1) State_default).1.
#[local] Existing Instance demo_checkpoint_codec.
#[local] Instance sealing_blake3 : Blake3 := indicator_blake3 (encode_state demo_live).
Definition seal_of (e : JournalEntry) : bytes := match e with DigestSealed _ d _ => d | _ => [] end.
Definition demo_log : list JournalEntry := [demo_commit [1] 1; seal_entry demo_live 1 2].
Definition mem_journal (l : list JournalEntry) : InMemoryJournal :=
  {| state := {| entries := l; next_seq := Z.of_nat (length l) |}; watch := {| head := Z.of_nat (length l) |} |}.

Lemma demo_live_ok : live None [demo_consumer] [demo_commit [1] 1] demo_live.
Proof.
  apply live_register; [by left|]. eapply (live_fold _ _ []); [apply live_start|]. reflexivity.
Qed.
Lemma demo_log_represents : represents (mem_journal demo_log) demo_log.
Proof.
  split; try done. split.
  - intros [|[|i]] e; cbn; [by intros [= <-]..|done].
  - intros [|[|i]] [|[|k]] a b; cbn; try done; by intros [= <-] [= <-].
Qed.
Lemma demo_prefix_represents : represents (mem_journal [demo_commit [1] 1]) [demo_commit [1] 1].
Proof.
  split; try done. split.
  - intros [|i] e; cbn; [by intros [= <-]|done].
  - intros [|i] [|k] a b; cbn; try done; by intros [= <-] [= <-].
Qed.
Lemma demo_parents_wf k i : demo_live.(motes) !! k = Some i -> parents_wf i.
Proof.
  intros Hi c p Hc. assert (motes demo_live = {[ [1] := mote_info demo_live [1]; [2] := mote_info demo_live [2] ]})
    as Em by (by vm_compute). rewrite Em in Hi.
  apply lookup_insert_Some in Hi as [[<- <-]|[_ [<- <-]%lookup_singleton_Some]]; vm_compute in Hc; [|done].
  injection Hc as <-. by intros ?%elem_of_nil.
Qed.

Lemma checkpoint_roundtrip_witness :
  from_bytes (to_bytes (fold_checkpoint demo_live)) = Ok (fold_checkpoint demo_live)
  /\ decode_state (fold_checkpoint demo_live) = Ok demo_live.
Proof.
  destruct (checkpoint_roundtrip None demo_live) as ((_ & H1 & H2 & _) & _).
  - eapply live_reachable, demo_live_ok.
  - by vm_compute.
  - apply demo_parents_wf.
  - by split.
Defined.
Lemma recovery_is_full_fold_witness :
  (let* r := build_from_journal None (mem_journal demo_log) (Some (fold_checkpoint demo_live)) in
   Ok (register_all [demo_consumer] r.1))
  = (let* s := from_journal None (mem_journal demo_log) in Ok (register_all [demo_consumer] s)).
Proof.
  apply (recovery_is_full_fold None [demo_consumer] (mem_journal demo_log) demo_log).
  - apply demo_log_represents.
  - reflexivity.
  - done.
  - intros [|[|i]] d seq Hl; [discriminate Hl| |discriminate Hl].
    exists demo_live. split; [apply demo_live_ok|]. symmetry. exact (f_equal (from_option seal_of []) Hl).
  - intros cp [= <-]. split; [change (0 <= last_seq demo_live); by vm_compute|]. intros i s _. unfold payload_state_digest, state_digest, state_content_digest.
    cbn [blake3 sealing_blake3 indicator_blake3 payload fold_checkpoint from_state].
    rewrite bool_decide_true by done. case_bool_decide; [done|]. by intros [=].
Defined.
Lemma due_checkpoint_seeds_witness :
  let '(sidecar, j, _) := maybe_checkpoint (Some 1) true demo_live (mem_journal [demo_commit [1] 1]) None 1 0 in
  build_from_journal None j (read_checkpoint sidecar)
  = Ok (bump_seq 2 demo_live, CheckpointOutcome.Seeded 1 1).
Proof.
  pose proof (due_checkpoint_seeds None [demo_consumer] (mem_journal [demo_commit [1] 1]) [demo_commit [1] 1]
    demo_live None 1 0 demo_prefix_represents) as Hs. cbn [length Z.of_nat] in Hs.
  destruct (maybe_checkpoint _ _ _ _ _ _ _) as [[sidecar j] n]. apply Hs.
  - by vm_compute.
  - exact I.
  - apply demo_live_ok.
  - lia.
  - lia.
  - apply demo_parents_wf.
  - intros a b fa fb ta tb na nb Ha. by apply list_elem_of_singleton in Ha.
Defined.

(** Before the workflow is registered again, the seeded projection is not the
    one a full fold gives: the checkpoint carries the registrations, the journal
    does not. *)
Lemma seeded_keeps_registrations :
  exists s s', build_from_journal None (mem_journal demo_log) (Some (fold_checkpoint demo_live))
      = Ok (s, CheckpointOutcome.Seeded 1 1)
    /\ from_journal None (mem_journal demo_log) = Ok s'
    /\ is_Some (s.(motes) !! [2]) /\ s'.(motes) !! [2] = None.
Proof.
  pose proof (seed_accepted None [demo_consumer] (mem_journal demo_log) [demo_commit [1] 1] demo_live
    demo_log_represents eq_refl demo_live_ok eq_refl demo_parents_wf) as Hseed.
  change (Z.of_nat (length [demo_commit [1] 1]) + 1) with 2 in Hseed.
  pose proof (proj1 (represents_wf _ _ demo_log_represents)) as Hc.
  exists (bump_seq 2 demo_live), (fold_entries None demo_log State_default).1. split_and!.
  - unfold build_from_journal. rewrite (current_seq_law _ _ demo_log_represents).
    change (Z.of_nat (length demo_log)) with 2. cbn [omap_err obind].
    rewrite Hseed by (intros a b fa fb ta tb na nb Ha; by apply list_elem_of_singleton in Ha). cbn [obind].
    assert (last_seq demo_live = 1) as -> by (by vm_compute).
    change (u64_add 1 1) with (Z.of_nat 1 + 1). change (u64_add 2 1) with (Z.of_nat 1 + 2).
    rewrite (read_entries_law _ _ _ _ demo_log_represents) by (unfold MAX_LOG; lia). cbn [omap_err obind].
    rewrite (filter_range_one demo_log 1 (seal_entry demo_live 1 2)) by done. done.
  - unfold from_journal. rewrite (current_seq_law _ _ demo_log_represents). cbn [omap_err obind].
    change (Z.of_nat (length demo_log)) with 2. rewrite u64_add_small by lia.
    rewrite (read_entries_law _ _ _ _ demo_log_represents) by (unfold MAX_LOG; lia).
    cbn [omap_err obind]. change 2 with (Z.of_nat (length demo_log)). rewrite filter_range_all by done.
    reflexivity.
  - eexists. reflexivity.
  - reflexivity.
Qed.
