(* ===== verification/Critic.v ===== *)
(** kx-critic: the deterministic evaluator of check specifications (evaluate.rs,
    framing.rs, checks/). The JSON parser and the regular expressions are
    foreign code and come as parameters. *)
From S2P Require Import Prelude Utf8 CriticTypes.

(** ** Framing

    An error carries the byte offset. [Panic] stands for a slice out of range
    and for a loop that outlives its fuel; both are shown impossible. *)
Fixpoint lines_loop (input rest : bytes) (i start : nat) (out : list bytes) : outcome (list bytes) Z :=
  match rest with
  | [] =>
      if (start <? length input)%nat
      then let* r := slice input start (length input) in Ok (out ++ [r])
      else Ok out
  | b :: rest =>
      if b =? 10
      then let* r := slice input start i in lines_loop input rest (S i) (S i) (out ++ [r])
      else lines_loop input rest (S i) start out
  end.
(** Each turn consumes at least the four bytes of a length. *)
Fixpoint prefixed_loop (fuel : nat) (input : bytes) (pos : nat) (out : list bytes)
    : outcome (list bytes) Z :=
  if (length input <=? pos)%nat then Ok out
  else
    match fuel with
    | O => Panic
    | S fuel =>
        match get_range input pos (pos + 4) with
        | None => Err (Z.of_nat pos)
        | Some len_bytes =>
            let len := Z.to_nat (from_le len_bytes) in
            let body_start := (pos + 4)%nat in
            match get_range input body_start (body_start + len) with
            | None => Err (Z.of_nat body_start)
            | Some body => prefixed_loop fuel input (body_start + len) (out ++ [body])
            end
        end
    end.
Fixpoint fixed_loop (fuel : nat) (input : bytes) (width pos : nat) (out : list bytes)
    : outcome (list bytes) Z :=
  if (length input <=? pos)%nat then Ok out
  else
    match fuel with
    | O => Panic
    | S fuel =>
        let* r := slice input pos (pos + width) in
        fixed_loop fuel input width (pos + width) (out ++ [r])
    end.
Definition frame (framing : RecordFraming) (input : bytes) : outcome (list bytes) Z :=
  match framing with
  | LinesLf => lines_loop input input 0 0 []
  | LengthPrefixedU32 => prefixed_loop (length input) input 0 []
  | FixedWidth width =>
      let w := Z.to_nat width in
      if (w =? 0)%nat then Err 0
      else if negb (length input mod w =? 0)%nat then Err (Z.of_nat (length input / w * w))
      else fixed_loop (length input) input w 0 []
  end.
Definition key_of (record : bytes) (range : option (Z * Z)) : option bytes :=
  match range with
  | None => Some record
  | Some (start, stop) =>
      let start := Z.to_nat start in let stop := Z.to_nat stop in
      if (stop <? start)%nat then None else get_range record start stop
  end.

Definition unparseable (k : CheckKind) (at_offset : Z) : CriticVerdict :=
  Invalid (CriticReason.Unparseable k at_offset).

(** ** Duplicates *)
(** The loop's [seen], [first_duplicate_index] and [duplicate_count]. *)
Fixpoint dedup_loop (range : option (Z * Z)) (idx : Z) (records : list bytes)
    (seen : gset bytes) (first : option Z) (count : Z) : CriticVerdict :=
  match records with
  | [] =>
      match first with
      | None => Valid
      | Some i => Invalid (CriticReason.DuplicateDetected count i)
      end
  | record :: records =>
      match key_of record range with
      | None => unparseable KDedup idx
      | Some key =>
          if bool_decide (key ∈ seen)
          then dedup_loop range (idx + 1) records seen
                 (match first with None => Some idx | Some _ => first end) (count + 1)
          else dedup_loop range (idx + 1) records ({[key]} ∪ seen) first count
      end
  end.
Definition dedup_eval (spec : DedupSpec) (input : bytes) : outcome CriticVerdict Z :=
  match frame spec.(dedup_framing) input with
  | Ok records => Ok (dedup_loop spec.(key_range) 0 records ∅ None 0)
  | Err at_offset => Ok (unparseable KDedup at_offset)
  | Panic => Panic
  end.

(** ** Statistics *)
Definition i64_min : Z := - 2 ^ 63.
Definition i64_max : Z := 2 ^ 63 - 1.
(** [str::parse::<i64>]: an optional sign, then one or more digits, in range. *)
Fixpoint parse_digits (acc : Z) (l : bytes) : option Z :=
  match l with
  | [] => Some acc
  | b :: l => if (48 <=? b) && (b <=? 57) then parse_digits (10 * acc + (b - 48)) l else None
  end.
Definition parse_i64 (s : bytes) : option Z :=
  let '(sign, digits) :=
    match s with
    | 43 :: l => (1, l)
    | 45 :: l => (-1, l)
    | _ => (1, s)
    end in
  match digits with
  | [] => None
  | _ =>
      match parse_digits 0 digits with
      | None => None
      | Some n => if (i64_min <=? sign * n) && (sign * n <=? i64_max) then Some (sign * n) else None
      end
  end.
Definition parse_scaled_int (field : bytes) : option Z :=
  if utf8_valid field then parse_i64 field else None.
(** The loop's [sum] (an [i128], which 2^63 values of 64 bits cannot leave),
    [min] and [max]; a record without a number stops it. *)
Fixpoint stat_loop (range : option (Z * Z)) (idx : Z) (records : list bytes)
    (sum : Z) (mn mx : option Z) : (Z * option Z * option Z) + Z :=
  match records with
  | [] => inl (sum, mn, mx)
  | record :: records =>
      match key_of record range with
      | None => inr idx
      | Some field =>
          match parse_scaled_int field with
          | None => inr idx
          | Some value =>
              stat_loop range (idx + 1) records (sum + value)
                (Some (match mn with Some m => Z.min m value | None => value end))
                (Some (match mx with Some m => Z.max m value | None => value end))
          end
      end
  end.
(** [i64::try_from(v).unwrap_or(...)] *)
Definition to_i64 (v fallback : Z) : Z :=
  if (i64_min <=? v) && (v <=? i64_max) then v else fallback.
Definition observed (spec : StatBoundsSpec) (records : list bytes) : Z + Z :=
  match spec.(stat) with
  | RecordCount => inl (to_i64 (Z.of_nat (length records)) i64_max)
  | _ =>
      match stat_loop spec.(numeric_field_range) 0 records 0 None None with
      | inr idx => inr idx
      | inl (sum, mn, mx) =>
          inl (match spec.(stat) with
               | MeanScaled =>
                   let count := Z.of_nat (length records) in
                   if count =? 0 then 0
                   else to_i64 (Z.quot sum count) (if sum <? 0 then i64_min else i64_max)
               | MinScaled => default 0 mn
               | _ => default 0 mx
               end)
      end
  end.
Definition stat_eval (spec : StatBoundsSpec) (input : bytes) : outcome CriticVerdict Z :=
  match frame spec.(stat_framing) input with
  | Err at_offset => Ok (unparseable KStatBounds at_offset)
  | Panic => Panic
  | Ok records =>
      Ok (match observed spec records with
          | inr idx => unparseable KStatBounds idx
          | inl v =>
              if (spec.(lo_scaled) <=? v) && (v <=? spec.(hi_scaled)) then Valid
              else Invalid (CriticReason.StatOutOfBounds spec.(stat) v spec.(lo_scaled) spec.(hi_scaled))
          end)
  end.

(** ** Schemas *)
Definition u64_max : Z := 2 ^ 64 - 1.
Definition saturating_mul (a b : Z) : Z := Z.min u64_max (a * b).
(** [Utf8Error::valid_up_to]: the length of the longest prefix of whole chars. *)
Fixpoint valid_up_to (fuel : nat) (l : bytes) : nat :=
  match fuel, utf8_char_len l with
  | S fuel, Some n => (n + valid_up_to fuel (drop n l))%nat
  | _, _ => O
  end.
Definition utf8_fault (input : bytes) : option SchemaFault :=
  if utf8_valid input then None else Some (NotUtf8 (Z.of_nat (valid_up_to (length input) input))).
Definition schema_invalid (tag : SchemaTag) (detail : SchemaFault) : CriticVerdict :=
  Invalid (CriticReason.SchemaMismatch tag detail).
Definition check_len (expected_bytes actual_bytes expected_elems : Z) (tag : SchemaTag) : CriticVerdict :=
  if expected_bytes =? actual_bytes then Valid
  else schema_invalid tag (ShapeMismatch expected_elems actual_bytes).
(** [json_error_offset] of the error's column. *)
Definition json_error_offset (column : Z) (len : nat) : Z :=
  Z.min (Z.max 0 (column - 1)) (Z.of_nat len).

(** The foreign parsers: where a JSON document stops being one (the column of
    the error), the leftmost match of a pattern as a start and an end, and all
    matches of the card-number pattern from left to right. Matches lie within
    the input; card candidates are digits. *)
Class Scanners := {
  json_error : bytes -> option Z;
  re_find : PiiClass -> bytes -> option (nat * nat);
  cc_candidates : bytes -> list (nat * nat);
  re_find_range : forall c l s e, re_find c l = Some (s, e) -> (s <= e <= length l)%nat;
  cc_range : forall l s e, (s, e) ∈ cc_candidates l -> (s <= e <= length l)%nat
}.

Section Scan.
Context `{Scanners}.

Definition schema_eval (spec : SchemaSpec) (input : bytes) : CriticVerdict :=
  match spec.(expected) with
  | SchemaTag.Blob | SchemaTag.Image | SchemaTag.Audio => Valid
  | SchemaTag.Text =>
      match utf8_fault input with
      | None => Valid
      | Some detail => schema_invalid SchemaTag.Text detail
      end
  | SchemaTag.Json =>
      match utf8_fault input with
      | Some detail => schema_invalid SchemaTag.Json detail
      | None =>
          match json_error input with
          | None => Valid
          | Some column =>
              schema_invalid SchemaTag.Json (NotJson (json_error_offset column (length input)))
          end
      end
  | SchemaTag.Tensor dtype shape =>
      let elems := foldl saturating_mul 1 shape in
      let expected_bytes := saturating_mul elems (byte_width dtype) in
      check_len expected_bytes (Z.of_nat (length input)) elems (SchemaTag.Tensor dtype shape)
  | SchemaTag.Vector dim =>
      let expected_bytes := saturating_mul dim 4 in
      check_len expected_bytes (Z.of_nat (length input)) dim (SchemaTag.Vector dim)
  end.

(** ** Leaks *)
(** The digits are walked from the right; [b - b'0'] is a [u8] subtraction. *)
Definition luhn_digit (i : nat) (b : Z) : Z :=
  let d := (b - 48) mod 256 in
  if (i mod 2 =? 1)%nat then (let d := d * 2 in if 9 <? d then d - 9 else d) else d.
Definition luhn_ok (digits : bytes) : bool :=
  foldl (fun sum '(i, b) => sum + luhn_digit i b) 0 (imap pair (reverse digits)) mod 10 =? 0.
Fixpoint first_luhn (input : bytes) (l : list (nat * nat)) : outcome (option (nat * nat)) Z :=
  match l with
  | [] => Ok None
  | (s, e) :: l =>
      let* m := slice input s e in
      if luhn_ok m then Ok (Some (s, (e - s)%nat)) else first_luhn input l
  end.
Definition find_first (class : PiiClass) (input : bytes) : outcome (option (nat * nat)) Z :=
  match class with
  | CreditCardLuhn => first_luhn input (cc_candidates input)
  | _ => Ok ((fun '(s, e) => (s, (e - s)%nat)) <$> re_find class input)
  end.
Fixpoint pii_loop (input : bytes) (classes : list PiiClass) (best : option (PiiClass * nat * nat))
    : outcome (option (PiiClass * nat * nat)) Z :=
  match classes with
  | [] => Ok best
  | class :: classes =>
      let* m := find_first class input in
      pii_loop input classes
        (match m with
         | None => best
         | Some (start, len) =>
             match best with
             | Some (_, best_start, _) =>
                 if (start <? best_start)%nat then Some (class, start, len) else best
             | None => Some (class, start, len)
             end
         end)
  end.
Definition pii_eval (spec : PiiSpec) (input : bytes) : outcome CriticVerdict Z :=
  let* best := pii_loop input (pii_iter spec.(forbidden)) None in
  Ok (match best with
      | None => Valid
      | Some (class, start, len) =>
          Invalid (CriticReason.PiiLeak class (Z.of_nat start) (Z.of_nat len))
      end).

Definition JUDGE_UNPARSEABLE_CODE : Z := 1.
Definition evaluate (spec : CheckSpec) (input : bytes) : outcome CriticVerdict Z :=
  match spec with
  | CheckSpec.Schema s => Ok (schema_eval s input)
  | CheckSpec.Dedup s => dedup_eval s input
  | CheckSpec.StatBounds s => stat_eval s input
  | CheckSpec.PiiLeak s => pii_eval s input
  | CheckSpec.LlmJudge _ => Ok (Invalid (CriticReason.JudgeRejected JUDGE_UNPARSEABLE_CODE))
  end.
End Scan.

(** ** What a framing means *)
Definition framed_by (f : RecordFraming) (recs : list bytes) (input : bytes) : Prop :=
  match f with
  | LinesLf =>
      Forall (fun r => 10 ∉ r) recs
      /\ (input = concat ((fun r => r ++ [10]) <$> recs)
          \/ exists l r, recs = l ++ [r] /\ r <> [] /\ input = concat ((fun r => r ++ [10]) <$> l) ++ r)
  | LengthPrefixedU32 =>
      Forall (fun r => Z.of_nat (length r) < 2 ^ 32) recs
      /\ input = concat ((fun r => to_le 4 (Z.of_nat (length r)) ++ r) <$> recs)
  | FixedWidth w =>
      0 < w /\ Forall (fun r => length r = Z.to_nat w) recs /\ input = concat recs
  end.

Lemma slice_mid {E} (a b c : bytes) i j :
  length a = i -> (j = i + length b)%nat -> slice (E := E) (a ++ b ++ c) i j = Ok b.
Proof.
  intros Hi Hj. pose proof (get_range_mid a b c i j Hi Hj) as Hg. unfold get_range in Hg. unfold slice.
  case_match; [by injection Hg as ->|done].
Qed.

(** *** Lines *)
Fixpoint lines_ref (cur rest : bytes) : list bytes :=
  match rest with
  | [] => if decide (cur = []) then [] else [cur]
  | b :: rest => if b =? 10 then cur :: lines_ref [] rest else lines_ref (cur ++ [b]) rest
  end.
Lemma lines_loop_ref rest : forall pre cur out,
  lines_loop (pre ++ cur ++ rest) rest (length pre + length cur) (length pre) out
  = Ok (out ++ lines_ref cur rest).
Proof.
  induction rest as [|b rest IH]; intros pre cur out; cbn [lines_loop lines_ref].
  - rewrite app_nil_r, length_app. destruct cur as [|b cur].
    + rewrite (proj2 (Nat.ltb_ge _ _)) by (cbn; lia). by rewrite app_nil_r.
    + rewrite (proj2 (Nat.ltb_lt _ _)) by (cbn; lia). cbn [decide].
      pose proof (slice_mid (E := Z) pre (b :: cur) [] _ _ eq_refl eq_refl) as Hs.
      rewrite app_nil_r in Hs. by rewrite Hs.
  - destruct (Z.eqb_spec b 10) as [->|Hb].
    + rewrite slice_mid by done. cbn [obind].
      specialize (IH (pre ++ cur ++ [10]) [] (out ++ [cur])). cbn [app length] in IH.
      rewrite Nat.add_0_r, !length_app in IH. cbn [length] in IH.
      rewrite <- !app_assoc in IH. cbn [app] in IH.
      replace (length pre + (length cur + 1))%nat with (S (length pre + length cur)) in IH by lia. exact IH.
    + specialize (IH pre (cur ++ [b]) out). rewrite length_app in IH. cbn [length] in IH.
      rewrite <- (app_assoc cur) in IH. cbn [app] in IH.
      replace (length pre + (length cur + 1))%nat with (S (length pre + length cur)) in IH by lia. exact IH.
Qed.
Lemma lines_ref_app r : forall cur s, 10 ∉ r -> lines_ref cur (r ++ s) = lines_ref (cur ++ r) s.
Proof.
  induction r as [|b r IH]; intros cur s Hr; cbn [app]; [by rewrite app_nil_r|].
  apply not_elem_of_cons in Hr as [Hb Hr]. cbn [lines_ref]. rewrite (proj2 (Z.eqb_neq _ _)) by done.
  rewrite IH by done. by rewrite <- app_assoc.
Qed.
Lemma lines_ref_complete l s :
  Forall (fun r => 10 ∉ r) l ->
  lines_ref [] (concat ((fun r => r ++ [10]) <$> l) ++ s) = l ++ lines_ref [] s.
Proof.
  induction 1 as [|r l Hr _ IH]; [done|]. cbn [fmap list_fmap concat].
  rewrite <- !app_assoc. cbn [app]. rewrite lines_ref_app by done. cbn [app lines_ref]. by rewrite IH.
Qed.
Lemma lines_ref_sound rest : forall cur,
  10 ∉ cur -> framed_by LinesLf (lines_ref cur rest) (cur ++ rest).
Proof.
  induction rest as [|b rest IH]; intros cur Hc; cbn [lines_ref].
  - rewrite app_nil_r. case_decide as Hn; [subst; split; [done|by left]|]. split; [by constructor|].
    right. by exists [], cur.
  - destruct (Z.eqb_spec b 10) as [->|Hb].
    + destruct (IH []) as [Hall Hin]; [set_solver|]. split; [by constructor|]. cbn [app] in Hin.
      destruct Hin as [E|(l & r & El & Hr & E)]; cbn [fmap list_fmap concat].
      * left. rewrite <- app_assoc. cbn [app]. by rewrite E at 1.
      * right. exists (cur :: l), r. rewrite El. split_and!; [done|done|]. cbn [fmap list_fmap concat].
        rewrite <- !app_assoc. cbn [app]. by rewrite E at 1.
    + specialize (IH (cur ++ [b])). rewrite <- app_assoc in IH. apply IH. set_solver.
Qed.
Lemma frame_lines input recs : frame LinesLf input = Ok recs <-> framed_by LinesLf recs input.
Proof.
  cbn [frame]. pose proof (lines_loop_ref input [] [] []) as E. cbn [app length Nat.add] in E. rewrite E.
  split; [intros [= <-]; apply (lines_ref_sound input []); set_solver|].
  intros [Hall [->|(l & r & -> & Hr & ->)]].
  - pose proof (lines_ref_complete recs [] Hall) as Hl. rewrite !app_nil_r in Hl. by rewrite Hl.
  - apply Forall_app in Hall as [Hl Hrl]. rewrite Forall_singleton in Hrl.
    rewrite lines_ref_complete by done. f_equal. f_equal.
    pose proof (lines_ref_app r [] [] Hrl) as Er. rewrite app_nil_r in Er. rewrite Er. cbn [lines_ref app].
    by rewrite decide_False.
Qed.

(** *** Length prefixes *)
Definition prefixed (recs : list bytes) : bytes :=
  concat ((fun r => to_le 4 (Z.of_nat (length r)) ++ r) <$> recs).
Lemma prefixed_loop_spec fuel : forall pre rest out,
  bytes_ok rest -> (length rest <= fuel)%nat ->
  match prefixed_loop fuel (pre ++ rest) (length pre) out with
  | Ok res => exists recs, res = out ++ recs /\ framed_by LengthPrefixedU32 recs rest
  | Err at_offset => Z.of_nat (length pre) <= at_offset <= Z.of_nat (length (pre ++ rest))
  | Panic => False
  end.
Proof.
  induction fuel as [|fuel IH]; intros pre rest out Hb Hf; cbn [prefixed_loop]; rewrite length_app.
  - destruct rest; [|cbn in Hf; lia]. rewrite (proj2 (Nat.leb_le _ _)) by (cbn; lia).
    exists []. by rewrite app_nil_r.
  - destruct (Nat.leb_spec (length pre + length rest) (length pre)) as [Hle|Hgt].
    { destruct rest; [|cbn in Hle; lia]. exists []. by rewrite app_nil_r. }
    destruct (get_range (pre ++ rest) (length pre) (length pre + 4)) as [lb|] eqn:Hl; [|lia].
    apply get_range_split in Hl as [El Ll]. rewrite drop_app_length in El.
    replace (length pre + 4 - length pre)%nat with 4%nat in Ll by lia.
    destruct (get_range (pre ++ rest) (length pre + 4) _) as [body|] eqn:Hr.
    2: { assert (length rest = 4 + length (drop (length pre + 4) (pre ++ rest)))%nat by (rewrite El at 1; rewrite length_app; lia). lia. }
    apply get_range_split in Hr as [Er Lr]. rewrite Er in El.
    set (rest' := drop _ (pre ++ rest)) in El.
    assert (bytes_ok lb /\ bytes_ok rest') as [Hlb Hrest'].
    { rewrite El in Hb. unfold bytes_ok in *. rewrite !Forall_app in Hb. naive_solver. }
    pose proof (from_le_bound lb Hlb) as Hbound. rewrite Ll in Hbound. change (256 ^ Z.of_nat 4) with (2 ^ 32) in Hbound.
    assert (Z.of_nat (length body) = from_le lb) as Hlen by lia.
    specialize (IH (pre ++ lb ++ body) rest' (out ++ [body]) Hrest').
    rewrite El in Hf |- *. rewrite !length_app in Hf. rewrite !length_app in IH. rewrite <- !app_assoc in IH.
    replace (length pre + 4 + Z.to_nat (from_le lb))%nat with (length pre + (length lb + length body))%nat by lia.
    destruct (prefixed_loop _ _ _ _) as [res|o|].
    + destruct IH as (recs & -> & Hall & ->); [lia|]. exists (body :: recs). rewrite <- app_assoc.
      split; [done|]. split; [constructor; [lia|done]|]. cbn [fmap list_fmap concat].
      rewrite <- app_assoc. f_equal. rewrite Hlen. rewrite <- Ll at 1. symmetry. by apply to_from_le.
    + rewrite !length_app. lia.
    + apply IH. lia.
Qed.
Lemma prefixed_loop_complete recs : forall fuel pre out,
  Forall (fun r => Z.of_nat (length r) < 2 ^ 32) recs -> (length (prefixed recs) <= fuel)%nat ->
  prefixed_loop fuel (pre ++ prefixed recs) (length pre) out = Ok (out ++ recs).
Proof.
  induction recs as [|r recs IH]; intros fuel pre out Hall Hf; unfold prefixed in *; cbn [fmap list_fmap concat] in *.
  - destruct fuel; cbn [prefixed_loop]; by rewrite !app_nil_r, Nat.leb_refl.
  - apply Forall_cons in Hall as [Hr Hall]. rewrite !length_app, length_to_le in Hf.
    destruct fuel as [|fuel]; [lia|]. cbn [prefixed_loop].
    rewrite (proj2 (Nat.leb_gt _ _)) by (rewrite !length_app, length_to_le; lia).
    rewrite <- app_assoc, get_range_mid by (done || by rewrite length_to_le).
    rewrite from_to_le, Nat2Z.id by (cbn; lia).
    rewrite (app_assoc pre), get_range_mid by (rewrite ?length_app, ?length_to_le; lia).
    specialize (IH fuel ((pre ++ to_le 4 (Z.of_nat (length r))) ++ r) (out ++ [r]) Hall).
    rewrite !length_app, length_to_le, <- !app_assoc in IH. rewrite <- !app_assoc.
    apply IH. clear -Hf. lia.
Qed.

Lemma frame_prefixed input recs :
  bytes_ok input -> frame LengthPrefixedU32 input = Ok recs <-> framed_by LengthPrefixedU32 recs input.
Proof.
  intros Hb. split.
  - intros Hf. pose proof (prefixed_loop_spec (length input) [] input [] Hb (le_n _)) as Hs.
    cbn [frame] in Hf. cbn [app length] in Hs. rewrite Hf in Hs. by destruct Hs as (recs' & -> & ?).
  - intros [Hall ->]. by apply (prefixed_loop_complete recs (length (prefixed recs)) []).
Qed.

(** *** Fixed width *)
Lemma fixed_loop_spec w recs : forall fuel pre out,
  (0 < w)%nat -> Forall (fun r => length r = w) recs -> (length (concat recs) <= fuel)%nat ->
  fixed_loop fuel (pre ++ concat recs) w (length pre) out = Ok (out ++ recs).
Proof.
  induction recs as [|r recs IH]; intros fuel pre out Hw Hall Hf; cbn [concat] in *.
  - destruct fuel; cbn [fixed_loop]; by rewrite !app_nil_r, Nat.leb_refl.
  - apply Forall_cons in Hall as [Hr Hall]. rewrite length_app in Hf. destruct fuel as [|fuel]; [lia|].
    cbn [fixed_loop]. rewrite (proj2 (Nat.leb_gt _ _)) by (rewrite !length_app; lia).
    rewrite slice_mid by (done || lia). cbn [obind].
    specialize (IH fuel (pre ++ r) (out ++ [r]) Hw Hall).
    rewrite length_app, Hr, <- !app_assoc in IH. apply IH. lia.
Qed.
(** Any input whose length is a multiple of the width is a sequence of records. *)
Lemma fixed_records w n : forall input : bytes,
  (0 < w)%nat -> length input = (n * w)%nat ->
  exists recs, Forall (fun r => length r = w) recs /\ concat recs = input.
Proof.
  induction n as [|n IH]; intros input Hw Hl; [exists []; by destruct input|].
  destruct (IH (drop w input)) as (recs & Hall & Hc); [done|rewrite length_drop; lia|].
  exists (take w input :: recs). split; [constructor; [rewrite length_take; lia|done]|].
  cbn [concat]. by rewrite Hc, take_drop.
Qed.
Lemma concat_width w (recs : list bytes) : Forall (fun r => length r = w) recs -> length (concat recs) = (length recs * w)%nat.
Proof. induction 1 as [|r recs Hr _ IH]; [done|]. cbn [concat length]. rewrite length_app. lia. Qed.
Lemma concat_width_inj w (recs recs' : list bytes) :
  (0 < w)%nat -> Forall (fun r => length r = w) recs -> Forall (fun r => length r = w) recs' ->
  concat recs = concat recs' -> recs = recs'.
Proof.
  intros Hw H. revert recs'. induction H as [|r recs Hr Ha IH]; intros [|r' recs'] H' E; [done|..].
  - apply Forall_cons in H' as [Hr' _]. destruct r'; cbn in *; [lia|done].
  - destruct r; cbn in *; [lia|done].
  - apply Forall_cons in H' as [Hr' H']. cbn [concat] in E. apply app_inj_1 in E as [-> E]; [|lia].
    f_equal. by apply IH.
Qed.
Lemma frame_fixed w input recs : frame (FixedWidth w) input = Ok recs <-> framed_by (FixedWidth w) recs input.
Proof.
  cbn [frame framed_by]. destruct (Nat.eqb_spec (Z.to_nat w) 0) as [Hz|Hz]; [split; [done|lia]|].
  destruct (Nat.eqb_spec (length input mod Z.to_nat w) 0) as [Hm|Hm]; cbn [negb].
  - apply Nat.Div0.mod_divides in Hm as [n Hn].
    destruct (fixed_records (Z.to_nat w) n input) as (rs & Hall & Hc); [lia|lia|].
    pose proof (fixed_loop_spec (Z.to_nat w) rs (length input) [] [] ltac:(lia) Hall) as Hl.
    rewrite Hc in Hl. cbn [app length] in Hl. rewrite Hl by done. split.
    + intros [= <-]. split; [lia|done].
    + intros (_ & Hall' & E). f_equal. apply (concat_width_inj (Z.to_nat w)); [lia|done|done|]. congruence.
  - split; [done|]. intros (_ & Hall & ->). exfalso. apply Hm. rewrite (concat_width _ _ Hall).
    apply Nat.Div0.mod_mul.
Qed.

Lemma frame_iff f input recs : bytes_ok input -> frame f input = Ok recs <-> framed_by f recs input.
Proof. destruct f; intros; [apply frame_lines|by apply frame_prefixed|apply frame_fixed]. Qed.
(** Framing always answers; an error points into the input. *)
Lemma frame_total f input :
  bytes_ok input -> (exists recs, frame f input = Ok recs)
  \/ exists o, frame f input = Err o /\ 0 <= o <= Z.of_nat (length input).
Proof.
  intros Hb. destruct f as [| |w].
  - left. exists (lines_ref [] input). apply (lines_loop_ref input [] [] []).
  - pose proof (prefixed_loop_spec (length input) [] input [] Hb (le_n _)) as Hs. cbn [app length frame] in *.
    destruct (prefixed_loop _ _ _ _) as [res|o|]; [left; eauto|right; exists o; split; [done|lia]|done].
  - cbn [frame]. destruct (Nat.eqb_spec (Z.to_nat w) 0) as [Hz|Hz]; [right; exists 0; split; [done|lia]|].
    destruct (Nat.eqb_spec (length input mod Z.to_nat w) 0) as [Hm|Hm]; cbn [negb].
    + left. apply Nat.Div0.mod_divides in Hm as [n Hn].
      destruct (fixed_records (Z.to_nat w) n input) as (rs & Hall & Hc); [lia|lia|].
      exists rs. pose proof (fixed_loop_spec (Z.to_nat w) rs (length input) [] [] ltac:(lia) Hall) as Hl.
      rewrite Hc in Hl. by apply Hl.
    + right. eexists. split; [done|]. pose proof (Nat.Div0.div_mod (length input) (Z.to_nat w)). nia.
Qed.

(** ** Duplicates, declaratively *)
(** The positions whose key was seen before. *)
Fixpoint repeats (seen : gset bytes) (idx : Z) (keys : list bytes) : list Z :=
  match keys with
  | [] => []
  | k :: keys =>
      if bool_decide (k ∈ seen) then idx :: repeats seen (idx + 1) keys
      else repeats ({[k]} ∪ seen) (idx + 1) keys
  end.
Definition dup_verdict (first : option Z) (count : Z) (reps : list Z) : CriticVerdict :=
  match (match first with None => head reps | Some _ => first end) with
  | None => Valid
  | Some i => Invalid (CriticReason.DuplicateDetected (count + Z.of_nat (length reps)) i)
  end.
Lemma dedup_loop_keys range records : forall keys idx seen first count,
  (first = None -> count = 0) ->
  mapM (fun r => key_of r range) records = Some keys ->
  dedup_loop range idx records seen first count = dup_verdict first count (repeats seen idx keys).
Proof.
  induction records as [|r records IH]; intros keys idx seen first count Hc Hm.
  - injection Hm as <-. cbn. unfold dup_verdict. cbn. rewrite Z.add_0_r. by destruct first.
  - apply mapM_Some_1 in Hm. apply Forall2_cons_inv_l in Hm as (k & ks & Hk & Hks & ->).
    apply mapM_Some_2 in Hks. cbn [dedup_loop repeats]. rewrite Hk.
    case_bool_decide; rewrite (IH ks) by (done || by destruct first); [|done].
    unfold dup_verdict. cbn [head length]. destruct first; f_equal; f_equal; lia.
Qed.
Lemma dedup_loop_unparseable range records : forall idx seen first count,
  mapM (fun r => key_of r range) records = None ->
  exists n, dedup_loop range idx records seen first count = unparseable KDedup (idx + Z.of_nat n)
    /\ (n < length records)%nat
    /\ (records !! n ≫= fun r => key_of r range) = None
    /\ forall i r, (i < n)%nat -> records !! i = Some r -> is_Some (key_of r range).
Proof.
  induction records as [|r records IH]; intros idx seen first count Hm; [done|]. cbn [dedup_loop].
  destruct (key_of r range) as [k|] eqn:Hk.
  - assert (mapM (fun r => key_of r range) records = None) as Hn.
    { cbn in Hm. rewrite Hk in Hm. cbn in Hm. by destruct (mapM _ records). }
    assert (Hgo : forall seen first count, exists n,
      dedup_loop range (idx + 1) records seen first count = unparseable KDedup (idx + Z.of_nat n)
      /\ (n < length (r :: records))%nat /\ ((r :: records) !! n ≫= fun r => key_of r range) = None
      /\ forall i r', (i < n)%nat -> (r :: records) !! i = Some r' -> is_Some (key_of r' range)).
    { intros seen' first' count'. destruct (IH (idx + 1) seen' first' count' Hn) as (n & E & Hl & Hf & Hb).
      exists (S n). split_and!; [rewrite E; f_equal; lia|cbn; lia|done|].
      intros [|i] r' Hi; [intros [= <-]; eauto|]. apply Hb. lia. }
    case_bool_decide; apply Hgo.
  - exists O. rewrite Z.add_0_r. split_and!; [done|cbn; lia|done|lia].
Qed.
Lemma elem_of_repeats keys : forall seen idx i,
  i ∈ repeats seen idx keys <->
  exists n k, i = idx + Z.of_nat n /\ keys !! n = Some k /\ (k ∈ seen \/ k ∈ take n keys).
Proof.
  induction keys as [|k keys IH]; intros seen idx i; cbn [repeats].
  { split; [by intros ?%elem_of_nil|]. by intros (n & k & _ & ? & _). }
  assert (Hshift : forall seen' : gset bytes, (exists n k', i = idx + 1 + Z.of_nat n /\ keys !! n = Some k'
      /\ (k' ∈ seen' \/ k' ∈ take n keys)) <->
      exists n k', i = idx + Z.of_nat (S n) /\ keys !! n = Some k' /\ (k' ∈ seen' \/ k' ∈ take n keys)).
  { intros seen'. split; intros (n & k' & -> & H); exists n, k'; (split; [lia|exact H]). }
  case_bool_decide as Hk; rewrite ?elem_of_cons, IH, Hshift.
  - split.
    + intros [->|(n & k' & -> & Hl & H)]; [exists O, k; split_and!; [lia|done|by left]|].
      exists (S n), k'. split_and!; [done|done|]. destruct H; [by left|right; cbn; by right].
    + intros ([|n] & k' & -> & Hl & H); [left; lia|right]. exists n, k'. split_and!; [done|done|].
      destruct H as [H|H]; [by left|]. cbn in H. apply elem_of_cons in H as [->|H]; [by left|by right].
  - split.
    + intros (n & k' & -> & Hl & H). exists (S n), k'. split_and!; [done|done|]. set_solver.
    + intros ([|n] & k' & -> & Hl & H).
      * injection Hl as <-. cbn in H. set_solver.
      * exists n, k'. split_and!; [done|done|]. cbn in H. set_solver.
Qed.
Lemma repeats_head keys seen idx i :
  head (repeats seen idx keys) = Some i -> forall i', i' ∈ repeats seen idx keys -> i <= i'.
Proof.
  assert (Hlow : forall keys seen idx i, i ∈ repeats seen idx keys -> idx <= i).
  { intros ks sn ix j (n & k & -> & _)%elem_of_repeats. lia. }
  revert seen idx. induction keys as [|k keys IH]; intros seen idx; [done|]. cbn [repeats].
  case_bool_decide; [|apply IH]. intros [= ->] i' [->|H']%elem_of_cons; [lia|]. apply Hlow in H'. lia.
Qed.
Lemma repeats_count keys : forall seen idx,
  (length (repeats seen idx keys) + size (seen ∪ list_to_set keys) = length keys + size seen)%nat.
Proof.
  induction keys as [|k keys IH]; intros seen idx; cbn [repeats list_to_set length]; [by rewrite union_empty_r_L|].
  case_bool_decide as Hk.
  - specialize (IH seen (idx + 1)). replace (seen ∪ ({[k]} ∪ list_to_set keys)) with (seen ∪ list_to_set keys)
      by (apply set_eq; set_solver). cbn [length]. lia.
  - specialize (IH ({[k]} ∪ seen) (idx + 1)). 
    pose proof (size_union ({[k]} : gset bytes) seen ltac:(set_solver)) as Hu. rewrite size_singleton in Hu.
    replace (seen ∪ ({[k]} ∪ list_to_set keys)) with ({[k]} ∪ seen ∪ list_to_set keys) by (apply set_eq; set_solver). lia.
Qed.
Lemma repeats_nil keys : repeats ∅ 0 keys = [] <-> NoDup keys.
Proof.
  split.
  - intros E. apply NoDup_alt. intros i j x Hi Hj.
    destruct (Nat.lt_trichotomy i j) as [Hlt|[?|Hlt]]; [|done|]; exfalso;
      [assert (Z.of_nat j ∈ repeats ∅ 0 keys) as Hin|assert (Z.of_nat i ∈ repeats ∅ 0 keys) as Hin];
      try (rewrite E in Hin; by apply elem_of_nil in Hin); apply elem_of_repeats.
    + exists j, x. split_and!; [lia|done|]. right. apply (list_elem_of_lookup_2 _ i). by rewrite lookup_take_lt.
    + exists i, x. split_and!; [lia|done|]. right. apply (list_elem_of_lookup_2 _ j). by rewrite lookup_take_lt.
  - intros Hnd. apply elem_of_nil_inv. intros i (n & k & _ & Hn & [H|H])%elem_of_repeats; [set_solver|].
    apply list_elem_of_lookup_1 in H as [m [Hm Hlt]%lookup_take_Some].
    pose proof (NoDup_lookup _ _ _ _ Hnd Hm Hn). lia.
Qed.

(** ** Statistics, declaratively *)
Definition value_of (range : option (Z * Z)) (r : bytes) : option Z := key_of r range ≫= parse_scaled_int.
Definition statistic (k : StatKind) (count : nat) (values : list Z) (v : Z) : Prop :=
  match k with
  | RecordCount => v = Z.min (Z.of_nat count) i64_max
  | MeanScaled => v = Z.quot (foldr Z.add 0 values) (Z.of_nat count)
  | MinScaled => (values = [] /\ v = 0) \/ (v ∈ values /\ forall x, x ∈ values -> v <= x)
  | MaxScaled => (values = [] /\ v = 0) \/ (v ∈ values /\ forall x, x ∈ values -> x <= v)
  end.
Lemma parse_scaled_int_range f v : parse_scaled_int f = Some v -> i64_min <= v <= i64_max.
Proof.
  unfold parse_scaled_int, parse_i64. destruct (utf8_valid f); [|done].
  destruct (match f with 43 :: l => _ | 45 :: l => _ | _ => _ end) as [sg ds].
  destruct ds; [done|]. destruct (parse_digits 0 _); [|done]. case_match eqn:E; [|done].
  intros [= <-]. apply andb_true_iff in E as [E1%Z.leb_le E2%Z.leb_le]. done.
Qed.
Definition extend (op : Z -> Z -> Z) (o : option Z) (values : list Z) : option Z :=
  foldl (fun o v => Some (match o with Some m => op m v | None => v end)) o values.
Lemma stat_loop_values range records : forall values idx sum mn mx,
  mapM (value_of range) records = Some values ->
  stat_loop range idx records sum mn mx
  = inl (sum + foldr Z.add 0 values, extend Z.min mn values, extend Z.max mx values).
Proof.
  induction records as [|r records IH]; intros values idx sum mn mx Hm.
  - injection Hm as <-. cbn. by rewrite Z.add_0_r.
  - apply mapM_Some_1, Forall2_cons_inv_l in Hm as (v & vs & Hv & Hvs & ->). apply mapM_Some_2 in Hvs.
    unfold value_of in Hv. cbn [stat_loop]. destruct (key_of r range) as [f|]; [|done]. cbn in Hv. rewrite Hv.
    rewrite (IH vs) by done. unfold extend. cbn [foldl foldr]. by rewrite Z.add_assoc.
Qed.
Lemma stat_loop_unparseable range records : forall idx sum mn mx,
  mapM (value_of range) records = None ->
  exists n, stat_loop range idx records sum mn mx = inr (idx + Z.of_nat n) /\ (n < length records)%nat
    /\ (records !! n ≫= value_of range) = None
    /\ forall i r, (i < n)%nat -> records !! i = Some r -> is_Some (value_of range r).
Proof.
  induction records as [|r records IH]; intros idx sum mn mx Hm; [done|]. cbn [stat_loop].
  destruct (value_of range r) as [v|] eqn:Hv.
  - assert (mapM (value_of range) records = None) as Hn.
    { cbn in Hm. rewrite Hv in Hm. cbn in Hm. by destruct (mapM _ records). }
    pose proof Hv as Hv'. unfold value_of in Hv'. destruct (key_of r range) as [f|]; [|done]. cbn in Hv'. rewrite Hv'.
    edestruct (IH (idx + 1)) as (n & E & Hl & Hf & Hb); [done|]. exists (S n). rewrite E.
    split_and!; [f_equal; lia|cbn; lia|done|]. intros [|i] r' Hi; [intros [= <-]; eauto|]. apply Hb. lia.
  - exists O. rewrite Z.add_0_r. split_and!; [|cbn; lia|done|lia].
    unfold value_of in Hv. destruct (key_of r range) as [f|]; [|done]. cbn in Hv. by rewrite Hv.
Qed.
Lemma extend_min values : forall m, exists v, extend Z.min (Some m) values = Some v
  /\ v ∈ m :: values /\ forall x, x ∈ m :: values -> v <= x.
Proof.
  induction values as [|a values IH]; intros m; [exists m; set_solver by lia|]. unfold extend. cbn [foldl].
  destruct (IH (Z.min m a)) as (v & E & Hin & Hle). exists v. split; [exact E|].
  assert (v <= m /\ v <= a) by (pose proof (Hle (Z.min m a) ltac:(by left)); lia). split.
  - apply elem_of_cons in Hin as [->|Hin]; [|set_solver]. destruct (Z.min_spec m a) as [[_ ->]|[_ ->]]; set_solver.
  - intros x. rewrite !elem_of_cons. intros [->|[->|Hx]]; [lia..|]. apply Hle. by right.
Qed.
Lemma extend_max values : forall m, exists v, extend Z.max (Some m) values = Some v
  /\ v ∈ m :: values /\ forall x, x ∈ m :: values -> x <= v.
Proof.
  induction values as [|a values IH]; intros m; [exists m; set_solver by lia|]. unfold extend. cbn [foldl].
  destruct (IH (Z.max m a)) as (v & E & Hin & Hle). exists v. split; [exact E|].
  assert (m <= v /\ a <= v) by (pose proof (Hle (Z.max m a) ltac:(by left)); lia). split.
  - apply elem_of_cons in Hin as [->|Hin]; [|set_solver]. destruct (Z.max_spec m a) as [[_ ->]|[_ ->]]; set_solver.
  - intros x. rewrite !elem_of_cons. intros [->|[->|Hx]]; [lia..|]. apply Hle. by right.
Qed.
(** The mean of 64-bit values is a 64-bit value. *)
Lemma sum_bounds values lo hi :
  (forall x, x ∈ values -> lo <= x <= hi) ->
  lo * Z.of_nat (length values) <= foldr Z.add 0 values <= hi * Z.of_nat (length values).
Proof.
  induction values as [|a values IH]; intros Hv; cbn [foldr length]; [lia|].
  pose proof (Hv a ltac:(by left)). specialize (IH ltac:(intros; apply Hv; by right)). lia.
Qed.
Lemma mean_in_range values :
  values <> [] -> (forall x, x ∈ values -> i64_min <= x <= i64_max) ->
  i64_min <= Z.quot (foldr Z.add 0 values) (Z.of_nat (length values)) <= i64_max.
Proof.
  intros Hne Hv. pose proof (sum_bounds _ _ _ Hv) as Hs.
  assert (0 < Z.of_nat (length values)) as Hn by (destruct values; [done|cbn; lia]).
  set (n := Z.of_nat (length values)) in *. set (sum := foldr Z.add 0 values) in *.
  rewrite <- (Z.quot_mul i64_min n), <- (Z.quot_mul i64_max n) by lia.
  split; apply Z.quot_le_mono; lia.
Qed.
Definition stat_values (spec : StatBoundsSpec) (recs : list bytes) : option (list Z) :=
  match spec.(stat) with RecordCount => Some [] | _ => mapM (value_of spec.(numeric_field_range)) recs end.
Lemma statistic_unique k n values v v' : statistic k n values v -> statistic k n values v' -> v = v'.
Proof.
  destruct k; cbn; [congruence..| |].
  all: intros [[-> ->]|[H1 H2]] [[E ->]|[H3 H4]]; subst; try done; try (by apply elem_of_nil in H1 || by apply elem_of_nil in H3).
  all: specialize (H2 v' H3); specialize (H4 v H1); lia.
Qed.
Lemma observed_spec spec recs :
  (exists values v, stat_values spec recs = Some values /\ observed spec recs = inl v
     /\ statistic spec.(stat) (length recs) values v)
  \/ (exists n, stat_values spec recs = None /\ observed spec recs = inr (Z.of_nat n)
      /\ (n < length recs)%nat /\ (recs !! n ≫= value_of spec.(numeric_field_range)) = None
      /\ forall i r, (i < n)%nat -> recs !! i = Some r -> is_Some (value_of spec.(numeric_field_range) r)).
Proof.
  unfold observed, stat_values.
  destruct (decide (stat spec = RecordCount)) as [->|Hk].
  { left. exists [], (Z.min (Z.of_nat (length recs)) i64_max). split_and!; [done| |done].
    f_equal. unfold to_i64. destruct (Z.leb_spec i64_min (Z.of_nat (length recs))) as [_|Hlt];
      [|unfold i64_min in Hlt; lia]. cbn [andb]. case_match; lia. }
  destruct (mapM (value_of (numeric_field_range spec)) recs) as [values|] eqn:Hm.
  - left. rewrite (stat_loop_values _ _ values) by done. cbn [fst snd]. rewrite Z.add_0_l.
    assert (Hlen : length recs = length values) by (eapply Forall2_length, mapM_Some_1, Hm).
    assert (Hr : forall x, x ∈ values -> i64_min <= x <= i64_max).
    { intros x [i Hi]%list_elem_of_lookup_1. apply mapM_Some_1 in Hm.
      destruct (Forall2_lookup_r _ _ _ _ _ Hm Hi) as (r & _ & Hv). unfold value_of in Hv.
      apply bind_Some in Hv as (f & _ & Hv). by eapply parse_scaled_int_range. }
    rewrite Hlen. destruct values as [|a values].
    + exists [], 0. destruct (stat spec); try done; (split_and!; [done|done|]); cbn; auto.
    + destruct (extend_min values a) as (mn & Emin & Hmin), (extend_max values a) as (mx & Emax & Hmax).
      unfold extend in *. cbn [foldl] in *. rewrite Emin, Emax. cbn [default from_option id].
      destruct (stat spec); try done.
      * eexists _, _. split_and!; [done|done|]. rewrite (proj2 (Z.eqb_neq _ _)) by (cbn; lia).
        unfold to_i64. pose proof (mean_in_range (a :: values) ltac:(done) Hr) as [H1%Z.leb_le H2%Z.leb_le].
        by rewrite H1, H2.
      * eexists _, _. split_and!; [done|done|]. by right.
      * eexists _, _. split_and!; [done|done|]. by right.
  - right. destruct (stat_loop_unparseable _ _ 0 0 None None Hm) as (n & E & H1 & H2 & H3). rewrite E.
    exists n. by destruct (stat spec).
Qed.

(** ** Shapes, declaratively *)
Lemma saturating_product shape : forall acc,
  0 <= acc -> Forall (fun d => 0 <= d) shape ->
  foldl saturating_mul (Z.min u64_max acc) shape = Z.min u64_max (foldl Z.mul acc shape).
Proof.
  induction shape as [|d shape IH]; intros acc Ha Hs; cbn [foldl]; [done|].
  apply Forall_cons in Hs as [Hd Hs]. rewrite <- IH by (done || lia). f_equal. unfold saturating_mul.
  destruct (Z.le_gt_cases acc u64_max) as [Hle|Hgt]; [by rewrite (Z.min_r _ acc)|].
  rewrite (Z.min_l _ acc) by lia. destruct (Z.eq_dec d 0) as [->|Hnz]; [by rewrite !Z.mul_0_r|].
  rewrite !Z.min_l; [done|..]; unfold u64_max in *; nia.
Qed.
Lemma sat_len_eq a w (l : bytes) :
  0 <= a -> 0 < w -> Z.of_nat (length l) < u64_max ->
  saturating_mul (Z.min u64_max a) w = Z.of_nat (length l) <-> a * w = Z.of_nat (length l).
Proof.
  intros Ha Hw Hl. unfold saturating_mul. destruct (Z.le_gt_cases a u64_max) as [Hle|Hgt].
  - rewrite (Z.min_r _ a) by done. lia.
  - rewrite (Z.min_l _ a) by lia. unfold u64_max in *. nia.
Qed.

(** ** Leaks, declaratively *)
Section Leaks.
Context `{Scanners}.
(** The match a detector reports: its leftmost one; for card numbers the first
    candidate whose checksum holds. *)
Definition leak (class : PiiClass) (input : bytes) (s e : nat) : Prop :=
  match class with
  | CreditCardLuhn => exists l1 l2, cc_candidates input = l1 ++ (s, e) :: l2
      /\ luhn_ok (take (e - s) (drop s input)) = true
      /\ forall s' e', (s', e') ∈ l1 -> luhn_ok (take (e' - s') (drop s' input)) = false
  | _ => re_find class input = Some (s, e)
  end.
Definition leak_free (class : PiiClass) (input : bytes) : Prop :=
  match class with
  | CreditCardLuhn => forall s e, (s, e) ∈ cc_candidates input -> luhn_ok (take (e - s) (drop s input)) = false
  | _ => re_find class input = None
  end.
Lemma first_luhn_spec input l :
  (forall s e, (s, e) ∈ l -> (s <= e <= length input)%nat) ->
  (first_luhn input l = Ok None /\ forall s e, (s, e) ∈ l -> luhn_ok (take (e - s) (drop s input)) = false)
  \/ exists l1 s e l2, first_luhn input l = Ok (Some (s, (e - s)%nat)) /\ l = l1 ++ (s, e) :: l2
     /\ luhn_ok (take (e - s) (drop s input)) = true
     /\ forall s' e', (s', e') ∈ l1 -> luhn_ok (take (e' - s') (drop s' input)) = false.
Proof.
  induction l as [|[s e] l IH]; intros Hl; cbn [first_luhn].
  { left. split; [done|]. by intros s e ?%elem_of_nil. }
  destruct (Hl s e ltac:(by left)). rewrite slice_in_range by done. cbn [obind].
  destruct (luhn_ok _) eqn:E.
  - right. exists [], s, e, l. split_and!; [done..|]. by intros s' e' ?%elem_of_nil.
  - destruct IH as [[E' Hf]|(l1 & s1 & e1 & l2 & E' & -> & Hok & Hf)]; [intros; apply Hl; by right|left|right].
    + split; [done|]. intros s' e' [[= -> ->]|Hin]%elem_of_cons; [done|by apply Hf].
    + exists ((s, e) :: l1), s1, e1, l2. split_and!; [done..|].
      intros s' e' [[= -> ->]|Hin]%elem_of_cons; [done|by apply Hf].
Qed.
Lemma find_first_spec class input :
  (find_first class input = Ok None /\ leak_free class input)
  \/ exists s e, find_first class input = Ok (Some (s, (e - s)%nat)) /\ leak class input s e
                 /\ (s <= e <= length input)%nat.
Proof.
  destruct class; cbn [find_first leak leak_free];
    try (destruct (re_find _ input) as [[s e]|] eqn:E; [right; exists s, e|left]; cbn; eauto using re_find_range).
  destruct (first_luhn_spec input (cc_candidates input)) as [?|(l1 & s & e & l2 & E & Hl & Hok & Hf)];
    [apply cc_range|by left|right].
  exists s, e. split; [done|]. split; [eauto 10|]. apply cc_range. rewrite Hl. apply elem_of_app. right. by left.
Qed.
(** [best_of seen o]: [o] is the earliest match of the classes of [seen], the
    first of them in canonical order among equals. *)
Definition best_of (input : bytes) (seen : list PiiClass) (o : option (PiiClass * nat * nat)) : Prop :=
  match o with
  | None => forall c, c ∈ seen -> leak_free c input
  | Some (c, s, n) =>
      exists i, seen !! i = Some c /\ leak c input s (s + n) /\ (s + n <= length input)%nat
      /\ forall k c' s' e', seen !! k = Some c' -> leak c' input s' e' -> (s <= s')%nat /\ (s' = s -> (i <= k)%nat)
  end.
Lemma leak_fun c input s e s' e' : leak c input s e -> leak c input s' e' -> s = s' /\ e = e'.
Proof.
  destruct c; cbn [leak]; try (intros E1 E2; rewrite E1 in E2; by injection E2).
  intros (l1 & l2 & E & Hok & Hf) (k1 & k2 & E' & Hok' & Hf'). rewrite E in E'.
  assert (l1 = k1) as ->; [|by simplify_list_eq].
  clear E. revert k1 E' Hf'. induction l1 as [|[a b] l1 IH]; intros [|[a' b'] k1] E' Hf'; [done|..].
  - injection E' as <- <- _. rewrite (Hf' s e) in Hok by set_solver. done.
  - injection E' as -> -> _. rewrite (Hf s' e') in Hok' by set_solver. done.
  - injection E' as <- <- E'. f_equal. apply IH; [|done|]; intros; [apply Hf|apply Hf']; set_solver.
Qed.
Lemma leak_not_free c input s e : leak c input s e -> leak_free c input -> False.
Proof.
  destruct c; cbn [leak leak_free]; try congruence. intros (l1 & l2 & E & Hok & _) Hf.
  rewrite (Hf s e) in Hok; [done|]. rewrite E. set_solver.
Qed.
Lemma pii_loop_spec input classes : forall seen best,
  best_of input seen best -> exists best', pii_loop input classes best = Ok best' /\ best_of input (seen ++ classes) best'.
Proof.
  induction classes as [|c classes IH]; intros seen best Hb; cbn [pii_loop].
  { exists best. by rewrite app_nil_r. }
  cut (exists m, find_first c input = Ok m /\ best_of input (seen ++ [c])
    match m with
    | None => best
    | Some (start, len) => match best with
        | Some (_, bs, _) => if (start <? bs)%nat then Some (c, start, len) else best
        | None => Some (c, start, len) end end).
  { intros (m & -> & Hm). cbn [obind]. destruct (IH _ _ Hm) as (b & E & Hb'). exists b.
    rewrite <- app_assoc in Hb'. by split. }
  assert (Hend : (seen ++ [c]) !! length seen = Some c) by (by rewrite lookup_app_r, Nat.sub_diag).
  assert (Hsplit : forall k c', (seen ++ [c]) !! k = Some c' ->
    seen !! k = Some c' /\ (k < length seen)%nat \/ k = length seen /\ c' = c).
  { intros k c' [Hk|[Hge Hk]]%lookup_app_Some; [left; split; [done|by eapply lookup_lt_Some]|right].
    apply list_lookup_singleton_Some in Hk as [? ->]. split; [lia|done]. }
  destruct (find_first_spec c input) as [[-> Hfree]|(s & e & -> & Hleak & Hr)]; eexists; (split; [done|]).
  - destruct best as [[[bc bs] bn]|]; cbn [best_of] in *.
    + destruct Hb as (i & Hi & Hl & Hbn & Hall). exists i. split_and!; [by apply lookup_app_l_Some|done|done|].
      intros k c' s' e' [[Hk _]|[-> ->]]%Hsplit Hl'; [by eapply Hall|].
      exfalso. by eapply leak_not_free.
    + intros c' [Hc| ->%list_elem_of_singleton]%elem_of_app; [by apply Hb|done].
  - assert (Hse : (s + (e - s) = e)%nat) by lia.
    destruct best as [[[bc bs] bn]|]; cbn [best_of] in *; [destruct (Nat.ltb_spec s bs) as [Hlt|Hge]|].
    + destruct Hb as (i & Hi & Hl & Hbn & Hall). exists (length seen). rewrite Hse. split_and!; [done|done|lia|].
      intros k c' s' e' [[Hk _]|[-> ->]]%Hsplit Hl'; [destruct (Hall _ _ _ _ Hk Hl'); lia|].
      destruct (leak_fun _ _ _ _ _ _ Hleak Hl') as [-> _]. lia.
    + destruct Hb as (i & Hi & Hl & Hbn & Hall). pose proof (lookup_lt_Some _ _ _ Hi).
      exists i. split_and!; [by apply lookup_app_l_Some|done|done|].
      intros k c' s' e' [[Hk _]|[-> ->]]%Hsplit Hl'; [by eapply Hall|].
      destruct (leak_fun _ _ _ _ _ _ Hleak Hl') as [-> _]. lia.
    + exists (length seen). rewrite Hse. split_and!; [done|done|lia|].
      intros k c' s' e' [[Hk _]|[-> ->]]%Hsplit Hl'.
      * exfalso. eapply leak_not_free; [exact Hl'|]. apply Hb. by eapply list_elem_of_lookup_2.
      * destruct (leak_fun _ _ _ _ _ _ Hleak Hl') as [-> _]. lia.
Qed.
End Leaks.

(** ** What a check asks of a payload *)
Section Verdicts.
Context `{Scanners}.
Definition schema_conforms (t : SchemaTag) (input : bytes) : Prop :=
  match t with
  | SchemaTag.Blob | SchemaTag.Image | SchemaTag.Audio => True
  | SchemaTag.Text => utf8_valid input = true
  | SchemaTag.Json => utf8_valid input = true /\ json_error input = None
  | SchemaTag.Tensor dtype shape => foldl Z.mul 1 shape * byte_width dtype = Z.of_nat (length input)
  | SchemaTag.Vector dim => dim * 4 = Z.of_nat (length input)
  end.
Definition conforms (spec : CheckSpec) (input : bytes) : Prop :=
  match spec with
  | CheckSpec.Schema s => schema_conforms s.(expected) input
  | CheckSpec.Dedup s => exists recs keys, framed_by s.(dedup_framing) recs input
      /\ mapM (fun r => key_of r s.(key_range)) recs = Some keys /\ NoDup keys
  | CheckSpec.StatBounds s => exists recs values v, framed_by s.(stat_framing) recs input
      /\ stat_values s recs = Some values /\ statistic s.(stat) (length recs) values v
      /\ s.(lo_scaled) <= v <= s.(hi_scaled)
  | CheckSpec.PiiLeak s => forall c, c ∈ s.(forbidden) -> leak_free c input
  | CheckSpec.LlmJudge _ => False
  end.
(** What the evidence of a rejection says. *)
Definition evidence (spec : CheckSpec) (input : bytes) (r : CriticReason) : Prop :=
  match r, spec with
  | CriticReason.SchemaMismatch tag detail, CheckSpec.Schema s =>
      tag = s.(expected)
      /\ match detail with
         | NotUtf8 o => exists n, o = Z.of_nat n /\ utf8_valid (take n input) = true
             /\ (n < length input)%nat /\ utf8_char_len (drop n input) = None
         | NotJson o => is_Some (json_error input) /\ 0 <= o <= Z.of_nat (length input)
         | ShapeMismatch _ actual => actual = Z.of_nat (length input)
         | TagMismatch => False
         end
  | CriticReason.DuplicateDetected count first, CheckSpec.Dedup s =>
      exists recs keys n k, framed_by s.(dedup_framing) recs input
      /\ mapM (fun r => key_of r s.(key_range)) recs = Some keys
      /\ count = Z.of_nat (length keys) - Z.of_nat (size (list_to_set keys : gset bytes))
      /\ first = Z.of_nat n /\ keys !! n = Some k /\ k ∈ take n keys /\ NoDup (take n keys)
  | CriticReason.StatOutOfBounds k v lo hi, CheckSpec.StatBounds s =>
      k = s.(stat) /\ lo = s.(lo_scaled) /\ hi = s.(hi_scaled)
      /\ exists recs values, framed_by s.(stat_framing) recs input
         /\ stat_values s recs = Some values /\ statistic k (length recs) values v
  | CriticReason.PiiLeak class start len, CheckSpec.PiiLeak s =>
      class ∈ s.(forbidden)
      /\ exists a n, start = Z.of_nat a /\ len = Z.of_nat n /\ leak class input a (a + n)
         /\ (a + n <= length input)%nat
         /\ forall c' s' e', c' ∈ s.(forbidden) -> leak c' input s' e' ->
              (a <= s')%nat /\ (s' = a -> pii_tag class <= pii_tag c')
  | CriticReason.Unparseable KDedup o, CheckSpec.Dedup s =>
      (forall recs, ~ framed_by s.(dedup_framing) recs input) /\ 0 <= o <= Z.of_nat (length input)
      \/ exists recs n, framed_by s.(dedup_framing) recs input /\ o = Z.of_nat n /\ (n < length recs)%nat
         /\ (recs !! n ≫= fun r => key_of r s.(key_range)) = None
         /\ forall i r, (i < n)%nat -> recs !! i = Some r -> is_Some (key_of r s.(key_range))
  | CriticReason.Unparseable KStatBounds o, CheckSpec.StatBounds s =>
      (forall recs, ~ framed_by s.(stat_framing) recs input) /\ 0 <= o <= Z.of_nat (length input)
      \/ exists recs n, framed_by s.(stat_framing) recs input /\ o = Z.of_nat n /\ (n < length recs)%nat
         /\ (recs !! n ≫= value_of s.(numeric_field_range)) = None
         /\ forall i r, (i < n)%nat -> recs !! i = Some r -> is_Some (value_of s.(numeric_field_range) r)
  | CriticReason.JudgeRejected code, CheckSpec.LlmJudge _ => code = JUDGE_UNPARSEABLE_CODE
  | _, _ => False
  end.
Definition verdict_right (spec : CheckSpec) (input : bytes) (v : CriticVerdict) : Prop :=
  match v with
  | Valid => conforms spec input
  | Invalid r => ~ conforms spec input /\ evidence spec input r
  end.

Lemma frame_cases f input :
  bytes_ok input ->
  (exists recs, frame f input = Ok recs /\ framed_by f recs input
     /\ forall recs', framed_by f recs' input -> recs' = recs)
  \/ exists o, frame f input = Err o /\ 0 <= o <= Z.of_nat (length input)
     /\ forall recs, ~ framed_by f recs input.
Proof.
  intros Hb. destruct (frame_total f input Hb) as [[recs E]|(o & E & Ho)]; [left|right].
  - exists recs. split; [done|]. split; [by apply frame_iff|]. intros recs' Hr%frame_iff; [congruence|done].
  - exists o. split_and!; [done|lia|lia|]. intros recs Hr%frame_iff; [congruence|done].
Qed.
Lemma dedup_right s input :
  bytes_ok input -> exists v, dedup_eval s input = Ok v /\ verdict_right (CheckSpec.Dedup s) input v.
Proof.
  intros Hb. unfold dedup_eval.
  destruct (frame_cases (dedup_framing s) input Hb) as [(recs & -> & Hf & Hu)|(o & -> & Ho & Hn)]; eexists; (split; [done|]).
  2: { split; [intros (recs & ? & Hf & _); by eapply Hn|]. by left. }
  destruct (mapM (fun r => key_of r (key_range s)) recs) as [keys|] eqn:Hm.
  - rewrite (dedup_loop_keys _ _ keys) by done. unfold dup_verdict. destruct (repeats ∅ 0 keys) as [|i reps] eqn:Er.
    + exists recs, keys. split_and!; [done|done|by apply repeats_nil].
    + cbn [head]. split.
      * intros (recs' & keys' & Hf' & Hm' & Hnd). rewrite (Hu _ Hf'), Hm in Hm'. injection Hm' as <-.
        apply repeats_nil in Hnd. congruence.
      * assert (i ∈ repeats ∅ 0 keys) as (n & k & Hi & Hn & Hk)%elem_of_repeats by (rewrite Er; by left).
        rewrite Z.add_0_l in Hi. destruct Hk as [?|Hk]; [set_solver|]. exists recs, keys, n, k.
        split_and!; try done.
        -- pose proof (repeats_count keys ∅ 0) as Hc. rewrite Er, union_empty_l_L, size_empty in Hc. lia.
        -- apply repeats_nil. apply elem_of_nil_inv. intros j (m & x & -> & Hm1 & Hx)%elem_of_repeats.
           apply lookup_take_Some in Hm1 as [Hm1 Hlt].
           assert (Z.of_nat m ∈ repeats ∅ 0 keys) as Hin.
           { apply elem_of_repeats. exists m, x. rewrite Z.add_0_l. split_and!; [done|done|].
             destruct Hx as [Hx|Hx]; [by left|right]. by rewrite take_take, Nat.min_l in Hx by lia. }
           pose proof (repeats_head keys ∅ 0 i ltac:(by rewrite Er) _ Hin). lia.
  - destruct (dedup_loop_unparseable _ _ 0 ∅ None 0 Hm) as (n & -> & Hl & Hnone & Hb4). split.
    + intros (recs' & keys' & Hf' & Hm' & _). rewrite (Hu _ Hf') in Hm'. congruence.
    + right. exists recs, n. by split_and!.
Qed.
Lemma stat_right s input :
  bytes_ok input -> exists v, stat_eval s input = Ok v /\ verdict_right (CheckSpec.StatBounds s) input v.
Proof.
  intros Hb. unfold stat_eval.
  destruct (frame_cases (stat_framing s) input Hb) as [(recs & -> & Hf & Hu)|(o & -> & Ho & Hn)]; eexists; (split; [done|]).
  2: { split; [intros (recs & ? & ? & Hf & _); by eapply Hn|]. by left. }
  destruct (observed_spec s recs) as [(values & v & Hv & -> & Hs)|(n & Hv & -> & Hl & Hnone & Hb4)].
  - destruct ((lo_scaled s <=? v) && (v <=? hi_scaled s)) eqn:E.
    + exists recs, values, v. split_and!; [done..|lia|lia].
    + split; [|cbn; eauto 10]. intros (recs' & values' & v' & Hf' & Hv' & Hs' & Hr).
      rewrite (Hu _ Hf') in *. rewrite Hv in Hv'. injection Hv' as <-.
      rewrite (statistic_unique _ _ _ _ _ Hs' Hs) in Hr. lia.
  - split; [|right; exists recs, n; by split_and!].
    intros (recs' & values' & v' & Hf' & Hv' & _). rewrite (Hu _ Hf') in *. congruence.
Qed.
Lemma pii_iter_elem (s : gset PiiClass) c : c ∈ pii_iter s <-> c ∈ s.
Proof. unfold pii_iter. rewrite list_elem_of_filter. destruct c; set_solver. Qed.
Lemma pii_iter_sorted (s : gset PiiClass) i k c c' :
  pii_iter s !! i = Some c -> pii_iter s !! k = Some c' -> (i <= k)%nat -> pii_tag c <= pii_tag c'.
Proof.
  unfold pii_iter, all_pii. rewrite !filter_cons, filter_nil.
  repeat case_decide; destruct i as [|[|[|[|i]]]], k as [|[|[|[|k]]]]; cbn; intros; simplify_eq; cbn; lia.
Qed.
Lemma pii_right s input : exists v, pii_eval s input = Ok v /\ verdict_right (CheckSpec.PiiLeak s) input v.
Proof.
  unfold pii_eval. destruct (pii_loop_spec input (pii_iter (forbidden s)) [] None) as (best & -> & Hb);
    [by intros c ?%elem_of_nil|]. cbn [obind app] in *. eexists. split; [done|].
  destruct best as [[[class a] n]|]; cbn [best_of] in Hb.
  - destruct Hb as (i & Hi & Hl & Hn & Hall).
    assert (class ∈ forbidden s) as Hc by (apply pii_iter_elem; by eapply list_elem_of_lookup_2). split.
    + intros Hfree. eapply leak_not_free; [exact Hl|by apply Hfree].
    + split; [done|]. exists a, n. split_and!; [done..|]. intros c' s' e' Hc' Hl'.
      apply pii_iter_elem, list_elem_of_lookup_1 in Hc' as [k Hk].
      destruct (Hall _ _ _ _ Hk Hl') as [Hle Htie]. split; [done|]. intros ->. eapply pii_iter_sorted; eauto.
  - intros c Hc. apply Hb. by apply pii_iter_elem.
Qed.
Lemma valid_up_to_spec fuel : forall l,
  (length l <= fuel)%nat ->
  (valid_up_to fuel l <= length l)%nat /\ utf8_char_len (drop (valid_up_to fuel l) l) = None
  /\ exists cs, Forall is_char cs /\ concat cs = take (valid_up_to fuel l) l.
Proof.
  induction fuel as [|fuel IH]; intros l Hf; cbn [valid_up_to].
  { destruct l; [|cbn in Hf; lia]. split_and!; [done|done|by exists []]. }
  destruct (utf8_char_len l) as [n|] eqn:Hn; [|split_and!; [lia|done|by exists []]].
  pose proof (utf8_char_len_bound _ _ Hn). destruct (IH (drop n l)) as (H1 & H2 & cs & H3 & H4); [rewrite length_drop; lia|].
  rewrite length_drop in H1. rewrite drop_drop in H2. split_and!; [lia|done|].
  exists (take n l :: cs). split; [constructor; [by apply is_char_take|done]|]. cbn [concat].
  by rewrite H4, take_take_drop.
Qed.
Lemma utf8_fault_spec input :
  match utf8_fault input with
  | None => utf8_valid input = true
  | Some (NotUtf8 o) => utf8_valid input = false
      /\ exists n, o = Z.of_nat n /\ utf8_valid (take n input) = true
         /\ (n < length input)%nat /\ utf8_char_len (drop n input) = None
  | _ => False
  end.
Proof.
  unfold utf8_fault. destruct (utf8_valid input) eqn:Hv; [done|]. split; [done|].
  destruct (valid_up_to_spec (length input) input (le_n _)) as (Hle & Hnone & cs & Hcs & Hc).
  eexists. split; [done|]. split; [rewrite <- Hc; by apply utf8_valid_concat|]. split; [|done].
  destruct (Nat.eq_dec (valid_up_to (length input) input) (length input)) as [E|]; [|lia].
  rewrite E, take_ge in Hc by lia. rewrite <- Hc, utf8_valid_concat in Hv by done. done.
Qed.
Lemma check_len_right spec input expected_bytes elems tag :
  expected spec = tag -> (expected_bytes = Z.of_nat (length input) <-> schema_conforms tag input) ->
  verdict_right (CheckSpec.Schema spec) input (check_len expected_bytes (Z.of_nat (length input)) elems tag).
Proof.
  intros Ht Hiff. unfold check_len. destruct (Z.eqb_spec expected_bytes (Z.of_nat (length input))) as [E|E]; cbn.
  - rewrite Ht. by apply Hiff.
  - rewrite Ht, <- Hiff. done.
Qed.
Lemma schema_right s input :
  SchemaTag_ok s.(expected) -> Z.of_nat (length input) < u64_max ->
  verdict_right (CheckSpec.Schema s) input (schema_eval s input).
Proof.
  intros Hok Hlen. unfold schema_eval. pose proof (utf8_fault_spec input) as Hf.
  destruct (expected s) as [| | |dtype shape|dim| |] eqn:Et;
    try (cbn; rewrite Et; done).
  - destruct (utf8_fault input) as [[]|]; try done; cbn; rewrite Et; [|done]. destruct Hf as [Hv Hn].
    cbn. rewrite Hv. split; [done|]. by split.
  - destruct (utf8_fault input) as [[]|]; try done.
    + destruct Hf as [Hv Hn]. cbn. rewrite Et. cbn. rewrite Hv. split; [by intros []|by split].
    + destruct (json_error input) as [col|] eqn:Ej; cbn; rewrite Et; cbn; [|done].
      rewrite Ej. split; [by intros []|]. split; [done|]. unfold json_error_offset. split; [eauto|lia].
  - apply check_len_right; [done|]. cbn [schema_conforms]. cbn in Hok.
    assert (Hs : Forall (fun d => 0 <= d) shape).
    { eapply Forall_impl; [apply Hok|]. intros d Hd. apply Hd. }
    change 1 with (Z.min u64_max 1) at 1. rewrite saturating_product by (done || lia).
    apply sat_len_eq; [|by destruct dtype|done].
    clear -Hs. enough (forall acc, 0 <= acc -> 0 <= foldl Z.mul acc shape) by auto with lia.
    induction Hs; cbn [foldl]; [done|]. intros acc Hacc. apply IHHs. lia.
  - apply check_len_right; [done|]. cbn [schema_conforms]. cbn in Hok.
    rewrite <- (sat_len_eq dim 4) by (done || apply Hok). unfold in_width in Hok.
    by rewrite (Z.min_r u64_max dim) by (unfold u64_max; lia).
Qed.

Lemma evaluate_right spec input :
  bytes_ok input -> Z.of_nat (length input) < u64_max -> CheckSpec_ok spec ->
  exists v, evaluate spec input = Ok v /\ verdict_right spec input v.
Proof.
  intros Hb Hl Hs. destruct spec as [s|s|s|s|s]; cbn [evaluate].
  - eexists. split; [done|]. by apply schema_right.
  - by apply dedup_right.
  - by apply stat_right.
  - apply pii_right.
  - eexists. split; [done|]. split; [by intros []|done].
Qed.

(** The critic is right about every payload: it always answers, it answers
    Valid exactly for the payloads that satisfy the check (encoding and shape,
    distinct keys, an aggregate within bounds, no forbidden leak), it never
    accepts under a model-graded check, and the evidence of a rejection is
    accurate: the first repeated key and the number of repeats, the aggregate
    it found, the earliest leak in canonical order, the first unreadable
    record or byte. *)
Theorem verdicts_are_right spec input :
  bytes_ok input -> Z.of_nat (length input) < u64_max -> CheckSpec_ok spec ->
  exists v, evaluate spec input = Ok v /\ verdict_right spec input v.
Proof. apply evaluate_right. Qed.
End Verdicts.

(** ** A concrete check: line keys must be distinct *)
Definition demo_scanners : Scanners.
Proof.
  refine {| json_error := fun _ => None; re_find := fun _ _ => None; cc_candidates := fun _ => [] |}.
  - done.
  - by intros l s e ?%elem_of_nil.
Defined.
Definition demo_dedup : CheckSpec := CheckSpec.Dedup {| dedup_framing := LinesLf; key_range := Some (0, 1) |}.
Definition demo_payload : bytes := str "a1" ++ [10] ++ str "b2" ++ [10] ++ str "a3".
Lemma verdicts_are_right_witness :
  verdict_right (H := demo_scanners) demo_dedup demo_payload (Invalid (CriticReason.DuplicateDetected 1 2)).
Proof.
  destruct (verdicts_are_right (H := demo_scanners) demo_dedup demo_payload) as (v & Hv & Hr).
  - unfold bytes_ok. apply (bool_decide_unpack _). by vm_compute.
  - by vm_compute.
  - apply (bool_decide_unpack (_ /\ (_ /\ _))). by vm_compute.
  - vm_compute in Hv. by injection Hv as <-.
Defined.
