(* ===== verification/Effects.v ===== *)
(** Computations that change state and may fail: the shape of the code that
    calls a journal, a store and the outside world in turn. A failing step keeps
    the changes made before it, so an error path is a result together with the
    state it leaves. *)
From S2P Require Import Prelude.

Definition comp (St A E : Type) : Type := St -> outcome A E * St.

Section Operations.
Context {St : Type}.
Definition cret {A E} (a : A) : comp St A E := fun s => (Ok a, s).
Definition cerr {A E} (e : E) : comp St A E := fun s => (Err e, s).
Definition cbind {A B E} (m : comp St A E) (k : A -> comp St B E) : comp St B E :=
  fun s => match m s with
           | (Ok a, s) => k a s
           | (Err e, s) => (Err e, s)
           | (Panic, s) => (Panic, s)
           end.
(** A [Result] already computed, and a read of the state that may fail. *)
Definition clift {A E} (r : outcome A E) : comp St A E := fun s => (r, s).
Definition cask {A E} (f : St -> outcome A E) : comp St A E := fun s => (f s, s).
(** A step whose failure leaves the state as it was. *)
Definition cstep {A E} (f : St -> outcome (A * St) E) : comp St A E :=
  fun s => match f s with
           | Ok (a, s) => (Ok a, s)
           | Err e => (Err e, s)
           | Panic => (Panic, s)
           end.
(** [map_err] *)
Definition cmap_err {A E F} (f : E -> F) (m : comp St A E) : comp St A F :=
  fun s => let '(r, s) := m s in (omap_err f r, s).
(** [match m { Ok(a) => a, Err(e) => { h(e) } }] *)
Definition ccatch {A E F} (m : comp St A E) (h : E -> comp St A F) : comp St A F :=
  fun s => match m s with
           | (Ok a, s) => (Ok a, s)
           | (Err e, s) => h e s
           | (Panic, s) => (Panic, s)
           end.
(** [let _ = m;] *)
Definition cignore {A E F} (m : comp St A E) : comp St unit F :=
  fun s => match m s with
           | (Panic, s) => (Panic, s)
           | (_, s) => (Ok tt, s)
           end.
End Operations.
(** A computation on a part of the state. *)
Definition czoom {T St A E : Type} (get : T -> St) (put : St -> T -> T)
    (m : comp St A E) : comp T A E :=
  fun t => let '(r, s) := m (get t) in (r, put s t).

Declare Scope comp_scope.
Delimit Scope comp_scope with comp.
Notation "'do!' x ':=' m 'in' k" := (cbind m (fun x => k))
  (at level 10, x pattern, m at level 100, k at level 200) : comp_scope.
#[global] Open Scope comp_scope.

(** ** Inversion *)
Lemma cbind_ok_inv {St A B E} (m : comp St A E) (k : A -> comp St B E) s b s' :
  cbind m k s = (Ok b, s') -> exists a s1, m s = (Ok a, s1) /\ k a s1 = (Ok b, s').
Proof. unfold cbind. destruct (m s) as [[a|e|] s1]; [eauto|done..]. Qed.

Lemma cbind_assoc {St A B C E} (m : comp St A E) (k : A -> comp St B E) (k' : B -> comp St C E) s :
  cbind (cbind m k) k' s = cbind m (fun a => cbind (k a) k') s.
Proof. unfold cbind. by destruct (m s) as [[a|e|] s1]. Qed.

(** Every run of [m] from a state in [P] ends in a state and result in [Q]. *)
Definition ctriple {St A E} (P : St -> Prop) (m : comp St A E) (Q : outcome A E -> St -> Prop) : Prop :=
  forall s, P s -> Q (m s).1 (m s).2.
Lemma cbind_triple {St A B E} (P : St -> Prop) (m : comp St A E) (k : A -> comp St B E)
    (R : A -> St -> Prop) (Q : outcome B E -> St -> Prop) :
  ctriple P m (fun r s => match r with
                          | Ok a => R a s | Err e => Q (Err e) s | Panic => Q Panic s end) ->
  (forall a, ctriple (R a) (k a) Q) -> ctriple P (cbind m k) Q.
Proof.
  intros Hm Hk s Hs. specialize (Hm s Hs). unfold cbind.
  destruct (m s) as [[a|e|] s1]; cbn [fst snd] in *; [by apply Hk|done..].
Qed.
Lemma ctriple_conseq {St A E} (P P' : St -> Prop) (m : comp St A E) (Q Q' : outcome A E -> St -> Prop) :
  ctriple P' m Q' -> (forall s, P s -> P' s) -> (forall r s, Q' r s -> Q r s) -> ctriple P m Q.
Proof. intros H HP HQ s Hs. apply HQ, H, HP, Hs. Qed.
