(* ===== verification/Broker.v ===== *)
(** kx-capability: the broker through which every effect on the outside world
    is dispatched (request.rs, errors.rs, capability.rs, broker.rs, local.rs,
    token.rs). A capability is foreign code that acts on the outside world: a
    record of functions on an abstract world. *)
From S2P Require Import Prelude Effects Utf8 CriticTypes Mote Warrant Content.

Module EffectRequest.
Record EffectRequest := {
  payload : bytes;
  pattern : EffectPattern;
  idempotency_key : option bytes;
  net_scope : NetScope;
  fs_scope : FsScope;
  secret_scope : SecretScope
}.
End EffectRequest.
Abbreviation EffectRequest := EffectRequest.EffectRequest.
Module BrokerHandle.
Record BrokerHandle := { staged_ref : ContentRef; capability : bytes; capability_version : bytes }.
End BrokerHandle.
Abbreviation BrokerHandle := BrokerHandle.BrokerHandle.

(** ** Errors *)
Module CapabilityFailureReason.
Inductive CapabilityFailureReason :=
| AuthDenied | RateLimited | NetworkUnreachable | Timeout | InvalidResponse
| CredentialUnresolved (name : bytes)
| Other (detail : bytes).
End CapabilityFailureReason.
Abbreviation CapabilityFailureReason := CapabilityFailureReason.CapabilityFailureReason.
Module BrokerError.
Inductive BrokerError :=
| UnknownCapability (name : bytes)
| UnsupportedPattern (capability : bytes) (requested : EffectPattern)
| CapabilityExceedsWarrant (axis : WarrantField.WarrantField)
| CapabilityFailure (capability : bytes) (reason : CapabilityFailureReason)
| SandboxRefused (capability : bytes) (reason : bytes)
| StageWriteFailed (capability : bytes) (e : StoreError).
End BrokerError.
Abbreviation BrokerError := BrokerError.BrokerError.
Import BrokerError.

(** The sentence for an unresolved credential quotes its name. *)
Inductive ModelDetail := Sentence (text : bytes) | MissingCredential (name : bytes).
Definition model_facing_detail (e : BrokerError) : ModelDetail :=
  match e with
  | CapabilityFailure _ reason =>
      match reason with
      | CapabilityFailureReason.Other detail => Sentence detail
      | CapabilityFailureReason.AuthDenied =>
          Sentence (str "the external system denied authentication")
      | CapabilityFailureReason.RateLimited =>
          Sentence (str "the external system rate-limited this call")
      | CapabilityFailureReason.NetworkUnreachable =>
          Sentence (str "the external system was unreachable")
      | CapabilityFailureReason.Timeout => Sentence (str "the call exceeded its time budget")
      | CapabilityFailureReason.InvalidResponse =>
          Sentence (str "the external system's response did not match the expected shape")
      | CapabilityFailureReason.CredentialUnresolved name => MissingCredential name
      end
  | _ => Sentence []
  end.
Definition is_permanent (e : BrokerError) : bool :=
  match e with
  | UnknownCapability _ | UnsupportedPattern _ _ | CapabilityExceedsWarrant _
  | SandboxRefused _ _ => true
  | StageWriteFailed _ _ => false
  | CapabilityFailure _ reason =>
      match reason with
      | CapabilityFailureReason.AuthDenied => true
      | CapabilityFailureReason.CredentialUnresolved _ => true
      | CapabilityFailureReason.RateLimited | CapabilityFailureReason.NetworkUnreachable
      | CapabilityFailureReason.Timeout | CapabilityFailureReason.InvalidResponse => false
      | CapabilityFailureReason.Other _ => false
      end
  end.

(** ** Tokens *)
Definition RUN_SCOPED_TOKEN_DOMAIN : bytes := str "kx-run-scoped-token".
Definition run_scoped_token `{Blake3} (instance_id : bytes) (mote : Mote) : bytes :=
  blake3 (RUN_SCOPED_TOKEN_DOMAIN ++ instance_id ++ mote.(mote_id)).
Definition idempotency_token_for (mote : Mote) : bytes := mote.(mote_id).

(** ** Capabilities and the broker's interface *)
Record Capability (W : Type) := {
  cap_name : bytes;
  cap_version : bytes;
  supported_patterns : list EffectPattern;
  required_secret_scope : SecretScope;
  invoke : EffectRequest -> comp W bytes CapabilityFailureReason;
  probe : EffectRequest -> comp W (option bytes) CapabilityFailureReason;
  cap_compensate : EffectRequest -> comp W (option bytes) CapabilityFailureReason
}.
Arguments cap_name {W}. Arguments cap_version {W}. Arguments supported_patterns {W}.
Arguments required_secret_scope {W}. Arguments invoke {W}. Arguments probe {W}.
Arguments cap_compensate {W}.
(** The trait's default methods. *)
Definition default_probe {W} (_ : EffectRequest) : comp W (option bytes) CapabilityFailureReason :=
  cret None.
Definition default_compensate {W} (_ : EffectRequest) : comp W (option bytes) CapabilityFailureReason :=
  cret None.

(** A broker acts on the content store and on the world. *)
Record CapabilityBroker (S W : Type) := {
  dispatch : Mote -> WarrantSpec -> bytes -> EffectRequest -> comp (S * W) BrokerHandle BrokerError;
  probe_readback : Mote -> WarrantSpec -> bytes -> EffectRequest ->
    comp (S * W) (option BrokerHandle) BrokerError;
  compensate : Mote -> WarrantSpec -> bytes -> EffectRequest ->
    comp (S * W) (option BrokerHandle) BrokerError
}.
Arguments dispatch {S W}. Arguments probe_readback {S W}. Arguments compensate {S W}.

(** ** The local broker *)
Section Local.
Context {S W : Type} `{ContentStore S}.
Abbreviation Capabilities := (gmap bytes (Capability W)).

Definition register_capability (caps : Capabilities) (c : Capability W) : Capabilities :=
  <[cap_name c := c]> caps.
Definition registered_count (caps : Capabilities) : nat := size caps.
Definition registered_grants (caps : Capabilities) : gset (bytes * bytes) :=
  list_to_set ((fun '(name, cap) => (name, cap_version cap)) <$> btree_iter caps).
Definition registered_secret_scopes (caps : Capabilities) : gmap (bytes * bytes) SecretScope :=
  list_to_map ((fun '(name, cap) => ((name, cap_version cap), required_secret_scope cap))
                 <$> btree_iter caps).

Definition precheck (caps : Capabilities) (mote : Mote) (warrant : WarrantSpec) (capability_name : bytes)
    (request : EffectRequest) : outcome (Capability W) BrokerError :=
  if negb (bool_decide (is_Some (mote.(def).(tool_contract) !! capability_name)))
  then Err (UnknownCapability capability_name)
  else match caps !! capability_name with
  | None => Err (UnknownCapability capability_name)
  | Some capability =>
      if negb (bool_decide (request.(EffectRequest.pattern) ∈ supported_patterns capability))
      then Err (UnsupportedPattern capability_name request.(EffectRequest.pattern))
      else
      let grant := {| ToolGrant.tool_id := capability_name;
                      ToolGrant.tool_version := cap_version capability |} in
      if negb (bool_decide (grant ∈ warrant.(WarrantSpec.tool_grants)))
      then Err (CapabilityExceedsWarrant WarrantField.ToolGrants)
      else if negb (NetScope.is_subset_of request.(EffectRequest.net_scope) warrant.(WarrantSpec.net_scope))
      then Err (CapabilityExceedsWarrant WarrantField.NetScope)
      else if negb (FsScope.is_subset_of request.(EffectRequest.fs_scope) warrant.(WarrantSpec.fs_scope))
      then Err (CapabilityExceedsWarrant WarrantField.FsScope)
      else if negb (SecretScope.is_subset_of request.(EffectRequest.secret_scope)
                      warrant.(WarrantSpec.secret_scope))
              || negb (SecretScope.is_subset_of (required_secret_scope capability)
                         warrant.(WarrantSpec.secret_scope))
      then Err (CapabilityExceedsWarrant WarrantField.SecretScope)
      else Ok capability
  end.

Definition stage (capability_name capability_version b : bytes)
    : comp (S * W) BrokerHandle BrokerError :=
  do! staged_ref := czoom fst (fun s t => (s, t.2))
                      (cmap_err (StageWriteFailed capability_name) (cstep (fun s => put s b))) in
  cret {| BrokerHandle.staged_ref := staged_ref; BrokerHandle.capability := capability_name;
          BrokerHandle.capability_version := capability_version |}.

(** A call of the capability, on the world only. *)
Definition on_world {A E} (m : comp W A E) : comp (S * W) A E :=
  czoom snd (fun w t => (t.1, w)) m.
Definition local_dispatch (caps : Capabilities) (mote : Mote) (warrant : WarrantSpec) (capability : bytes)
    (request : EffectRequest) : comp (S * W) BrokerHandle BrokerError :=
  do! cap := clift (precheck caps mote warrant capability request) in
  do! b := on_world (cmap_err (CapabilityFailure (cap_name cap)) (invoke cap request)) in
  stage (cap_name cap) (cap_version cap) b.
(** [probe_readback] and [compensate] differ in the method they call. *)
Definition local_optional (method : Capability W -> EffectRequest -> comp W (option bytes) CapabilityFailureReason)
    (caps : Capabilities) (mote : Mote) (warrant : WarrantSpec) (capability : bytes)
    (request : EffectRequest) : comp (S * W) (option BrokerHandle) BrokerError :=
  do! cap := clift (precheck caps mote warrant capability request) in
  do! o := on_world (cmap_err (CapabilityFailure (cap_name cap)) (method cap request)) in
  match o with
  | None => cret None
  | Some b => do! handle := stage (cap_name cap) (cap_version cap) b in cret (Some handle)
  end.
Definition local_probe_readback := local_optional probe.
Definition local_compensate := local_optional cap_compensate.
Definition LocalCapabilityBroker (caps : Capabilities) : CapabilityBroker S W := {|
  dispatch := local_dispatch caps;
  probe_readback := local_probe_readback caps;
  compensate := local_compensate caps |}.
End Local.

(** ** What the broker enforces *)
Section Enforcement.
Context {S W : Type} `{ContentStoreLaws S}.
Abbreviation Capabilities := (gmap bytes (Capability W)).

(** Every capability is registered under its own name. *)
Definition own_names (caps : Capabilities) : Prop := forall k c, caps !! k = Some c -> cap_name c = k.
Lemma own_names_empty : own_names ∅.
Proof. intros k c. by rewrite lookup_empty. Qed.
Lemma own_names_register caps c : own_names caps -> own_names (register_capability caps c).
Proof. unfold register_capability. intros Hc k c' [[<- <-]|[_ ?]]%lookup_insert_Some; [done|by apply Hc]. Qed.

(** What a Mote must hold to have capability [c] act on [request]. *)
Record authorised (caps : Capabilities) (mote : Mote) (w : WarrantSpec) (name : bytes)
    (request : EffectRequest) (c : Capability W) : Prop := {
  au_contract : is_Some (mote.(def).(tool_contract) !! name);
  au_registered : caps !! name = Some c;
  au_pattern : request.(EffectRequest.pattern) ∈ supported_patterns c;
  au_grant : {| ToolGrant.tool_id := name; ToolGrant.tool_version := cap_version c |}
               ∈ w.(WarrantSpec.tool_grants);
  au_net : NetScope.is_subset_of request.(EffectRequest.net_scope) w.(WarrantSpec.net_scope) = true;
  au_fs : FsScope.is_subset_of request.(EffectRequest.fs_scope) w.(WarrantSpec.fs_scope) = true;
  au_secret : SecretScope.is_subset_of request.(EffectRequest.secret_scope)
                w.(WarrantSpec.secret_scope) = true;
  au_needs : SecretScope.is_subset_of (required_secret_scope c) w.(WarrantSpec.secret_scope) = true
}.
(** Delegation only takes authority away. *)
Lemma authorised_mono caps mote w p name request c :
  warrant_le w p -> authorised caps mote w name request c -> authorised caps mote p name request c.
Proof.
  intros [] []. split; eauto using NetScope_trans, FsScope_trans, SecretScope_trans.
Qed.

Lemma precheck_spec caps mote w name request :
  (exists c, precheck caps mote w name request = Ok c /\ authorised caps mote w name request c)
  \/ (exists e, precheck caps mote w name request = Err e /\ is_permanent e = true
        /\ forall c, ~ authorised caps mote w name request c).
Proof.
  unfold precheck. case_bool_decide as Hc; cbn [negb]; [|right; eexists; by split_and!; [..|intros c []]].
  destruct (caps !! name) as [c|] eqn:Hn; [|right; eexists; split_and!; [done..|intros c []; congruence]].
  assert (Hno : forall P : Prop, (authorised caps mote w name request c -> P) -> ~ P ->
    forall c', ~ authorised caps mote w name request c').
  { intros P HP HnP c' Ha. apply HnP, HP. pose proof (au_registered _ _ _ _ _ _ Ha). by simplify_eq. }
  case_bool_decide as Hp; cbn [negb]; [|right; eexists; split_and!; [done..|by apply (Hno _ (au_pattern _ _ _ _ _ _))]].
  case_bool_decide as Hg; cbn [negb]; [|right; eexists; split_and!; [done..|by apply (Hno _ (au_grant _ _ _ _ _ _))]].
  destruct (NetScope.is_subset_of _ _) eqn:Hnet; cbn [negb];
    [|right; eexists; split_and!; [done..|apply (Hno _ (au_net _ _ _ _ _ _)); congruence]].
  destruct (FsScope.is_subset_of _ _) eqn:Hfs; cbn [negb];
    [|right; eexists; split_and!; [done..|apply (Hno _ (au_fs _ _ _ _ _ _)); congruence]].
  destruct (SecretScope.is_subset_of (EffectRequest.secret_scope request) _) eqn:Hs; cbn [negb orb];
    [|right; eexists; split_and!; [done..|apply (Hno _ (au_secret _ _ _ _ _ _)); congruence]].
  destruct (SecretScope.is_subset_of (required_secret_scope c) _) eqn:Hr; cbn [negb];
    [|right; eexists; split_and!; [done..|apply (Hno _ (au_needs _ _ _ _ _ _)); congruence]].
  left. exists c. by split.
Qed.

(** Staging puts the bytes under their hash and cannot fail on a lawful store. *)
Lemma stage_spec name version b s m (wd : W) :
  holds s m ->
  exists s', stage name version b (s, wd)
      = (Ok {| BrokerHandle.staged_ref := blake3 b; BrokerHandle.capability := name;
               BrokerHandle.capability_version := version |}, (s', wd))
    /\ holds s' (or_insert (blake3 b) b m) /\ contains s' (blake3 b) = true.
Proof.
  intros Hs. destruct (put_law s m b Hs) as (s' & Hp & Hs'). exists s'.
  unfold stage, cbind, czoom, cmap_err, cstep, cret. cbn [fst snd]. rewrite Hp. split_and!; [done..|].
  rewrite (contains_law _ _ _ Hs') by apply blake3_array. apply bool_decide_eq_true.
  unfold or_insert. destruct (m !! blake3 b) eqn:E; [by rewrite E; eauto|]. rewrite lookup_insert_eq. eauto.
Qed.

(** What a call does when it is authorised: the capability runs once on the
    world, and what it returns is staged under its hash. *)
Definition staged_by (name version : bytes) (m : gmap bytes bytes) (b : bytes)
    (h : BrokerHandle) (s' : S) : Prop :=
  h = {| BrokerHandle.staged_ref := blake3 b; BrokerHandle.capability := name;
         BrokerHandle.capability_version := version |}
  /\ holds s' (or_insert (blake3 b) b m) /\ contains s' (blake3 b) = true.
Definition ran_once (name version : bytes) (s : S) (m : gmap bytes bytes)
    (call : outcome (option bytes) CapabilityFailureReason)
    (r : outcome (option BrokerHandle) BrokerError) (s' : S) : Prop :=
  match call with
  | Ok (Some b) => exists h, r = Ok (Some h) /\ staged_by name version m b h s'
  | Ok None => r = Ok None /\ s' = s
  | Err reason => r = Err (CapabilityFailure name reason) /\ s' = s
  | Panic => r = Panic /\ s' = s
  end.
Definition omap_ok {A B E} (f : A -> B) (r : outcome A E) : outcome B E :=
  match r with Ok a => Ok (f a) | Err e => Err e | Panic => Panic end.

Definition enforced (caps : Capabilities) (mote : Mote) (w : WarrantSpec) (name : bytes)
    (request : EffectRequest) (s : S) (m : gmap bytes bytes) (wd : W)
    (call : Capability W -> outcome (option bytes) CapabilityFailureReason * W)
    (r : outcome (option BrokerHandle) BrokerError) (st : S * W) : Prop :=
  (exists c, authorised caps mote w name request c /\ st.2 = (call c).2
     /\ ran_once name (cap_version c) s m (call c).1 r st.1)
  \/ (st = (s, wd) /\ (exists e, r = Err e /\ is_permanent e = true)
      /\ forall p c, warrant_le p w -> ~ authorised caps mote p name request c).

Lemma local_optional_enforced method caps mote w name request s m wd :
  own_names caps -> holds s m ->
  let out := local_optional method caps mote w name request (s, wd) in
  enforced caps mote w name request s m wd (fun c => method c request wd) out.1 out.2.
Proof.
  intros Hnames Hs. cbn zeta. unfold local_optional, enforced, cbind at 1 3 5, clift.
  destruct (precheck_spec caps mote w name request) as [(c & -> & Ha)|(e & -> & Hp & Hno)].
  - left. exists c. split; [done|].
    unfold cbind, on_world, czoom, cmap_err. cbn [fst snd].
    rewrite (Hnames _ _ (au_registered _ _ _ _ _ _ Ha)).
    destruct (method c request wd) as [[[b|]|e|] wd'] eqn:Hm; cbn [fst snd omap_err]; try done.
    destruct (stage_spec name (cap_version c) b s m wd' Hs) as (s' & -> & Hst).
    cbn. split; [done|]. by eexists.
  - right. cbn. split_and!; [done|eauto|]. intros p c Hle Ha.
    by apply (Hno c), (authorised_mono _ _ p).
Qed.
Lemma local_dispatch_optional (caps : Capabilities) mote w name request (st : S * W) :
  let out := local_dispatch caps mote w name request st in
  local_optional (fun c r => do! b := invoke c r in cret (Some b)) caps mote w name request st
  = (omap_ok Some out.1, out.2).
Proof.
  cbn zeta. unfold local_dispatch, local_optional, cbind at 1 5, clift.
  destruct (precheck caps mote w name request) as [c|e|]; [|done..].
  unfold on_world, czoom, cmap_err, cbind, cret. cbn [fst snd].
  destruct (invoke c request st.2) as [[b|e|] wd']; cbn [fst snd omap_err]; try done.
  by destruct (stage (cap_name c) (cap_version c) b (st.1, wd')) as [[h|e|] st'].
Qed.

(** [C38] Least authority at the broker: dispatch, readback and compensation run
    the capability exactly once on the world, and only for a Mote whose contract
    names the tool and whose warrant grants the tool at the registered version
    and covers the request's network, filesystem and secret scopes and the
    capability's own secrets; what it returns is in the store under its hash.
    Any other call is refused with a permanent error, the store and the world
    are untouched, and no delegation of the warrant would be authorised. *)
Theorem broker_enforces_warrant caps mote w name request s m (wd : W) :
  own_names caps -> holds s m ->
  let b := LocalCapabilityBroker caps in
  let d := dispatch b mote w name request (s, wd) in
  let p := probe_readback b mote w name request (s, wd) in
  let c := compensate b mote w name request (s, wd) in
  enforced caps mote w name request s m wd
    (fun cap => let i := invoke cap request wd in (omap_ok Some i.1, i.2)) (omap_ok Some d.1) d.2
  /\ enforced caps mote w name request s m wd (fun cap => probe cap request wd) p.1 p.2
  /\ enforced caps mote w name request s m wd (fun cap => cap_compensate cap request wd) c.1 c.2.
Proof.
  intros Hn Hs. cbn. split_and!; try by apply local_optional_enforced.
  pose proof (local_optional_enforced (fun c r => do! b := invoke c r in cret (Some b))
    caps mote w name request s m wd Hn Hs) as He. cbn zeta in He.
  rewrite local_dispatch_optional in He. cbn [fst snd] in He.
  destruct He as [(c & Ha & Hw & Hr)|Hr]; [left; exists c|by right].
  unfold cbind, cret in *. by destruct (invoke c request wd) as [[b|e|] wd'].
Qed.
End Enforcement.

(** ** A concrete capability: the world is the list of payloads it was sent. *)
Definition demo_capability : Capability (list bytes) := {|
  cap_name := str "echo"; cap_version := str "1";
  supported_patterns := [IdempotentByConstruction; StageThenCommit; ValidateThenCommit];
  required_secret_scope := SecretScope.None;
  invoke := fun r wd => (Ok (EffectRequest.payload r), wd ++ [EffectRequest.payload r]);
  probe := default_probe; cap_compensate := default_compensate |}.
Definition demo_caps : gmap bytes (Capability (list bytes)) := register_capability ∅ demo_capability.
Definition demo_request : EffectRequest := {|
  EffectRequest.payload := [7]; EffectRequest.pattern := StageThenCommit;
  EffectRequest.idempotency_key := None; EffectRequest.net_scope := NetScope.None;
  EffectRequest.fs_scope := FsScope.empty; EffectRequest.secret_scope := SecretScope.None |}.
Definition demo_effect_def (p : EffectPattern) : MoteDef := {|
  logic_ref := [1]; model_id := []; prompt_template_hash := [];
  tool_contract := {[ str "echo" := str "1" ]}; nd_class := WorldMutating; config_subset := ∅;
  effect_pattern := p; critic_for := None; is_topology_shaper := false;
  inference_params := InferenceParams_default; critic_check := None; schema_version := 4 |}.
Definition demo_effect_mote (p : EffectPattern) : Mote := {|
  mote_id := replicate 32 3; def := demo_effect_def p; input_data_id := []; graph_position := [];
  Mote.parents := [] |}.
Definition demo_grant : WarrantSpec := {|
  WarrantSpec.mote_class := MoteClass.WorldMutating; WarrantSpec.nd_class := MoteClass.WorldMutating;
  WarrantSpec.fs_scope := FsScope.empty; WarrantSpec.net_scope := NetScope.None;
  WarrantSpec.syscall_profile_ref := replicate 32 0;
  WarrantSpec.tool_grants := {[ {| ToolGrant.tool_id := str "echo"; ToolGrant.tool_version := str "1" |} ]};
  WarrantSpec.model_route := WarrantSpec.model_route WarrantSpec.default;
  WarrantSpec.resource_ceiling := ResourceCeiling.zero; WarrantSpec.environment_ref := None;
  WarrantSpec.executor_class := Bwrap; WarrantSpec.secret_scope := SecretScope.None;
  WarrantSpec.cost_ceiling := {| CostCeiling.micro_usd := 0 |}; WarrantSpec.tls_required := true |}.

Lemma broker_enforces_warrant_witness :
  let b := @LocalCapabilityBroker _ _ (InMemoryContentStore_store (H := demo_blake3)) demo_caps in
  let call w := dispatch b (demo_effect_mote StageThenCommit) w (str "echo") demo_request
                  (InMemoryContentStore_new, []) in
  (call demo_grant).2.2 = [[7]]
  /\ (call WarrantSpec.default).1 = Err (CapabilityExceedsWarrant WarrantField.ToolGrants)
  /\ (call WarrantSpec.default).2 = (InMemoryContentStore_new, []).
Proof.
  assert (Hn : own_names demo_caps) by apply own_names_register, own_names_empty.
  assert (Hs : @holds _ demo_blake3 _ InMemoryContentStore_laws InMemoryContentStore_new ∅) by done.
  cbn zeta. split_and!.
  - destruct (broker_enforces_warrant (H := demo_blake3) demo_caps (demo_effect_mote StageThenCommit) demo_grant
      (str "echo") demo_request InMemoryContentStore_new ∅ [] Hn Hs)
      as ([(c & [_ Hc _ _ _ _ _ _] & Hw & _)|(_ & (e & He & _) & _)] & _).
    + rewrite Hw. unfold demo_caps, register_capability in Hc.
      change (str "echo") with (cap_name demo_capability) in Hc.
      rewrite lookup_insert_eq in Hc. by injection Hc as <-.
    + by vm_compute in He.
  - by vm_compute.
  - by vm_compute.
Defined.
