(* ===== verification/CommitProtocol.v ===== *)
(** kx-executor's commit protocol (commit_protocol.rs): how a Mote with an effect
    is dispatched, checked against the content store and recorded. The journal,
    the store, the world and the resource manager are shared by everything the
    executor calls: one record of their states. Where the source stores the
    [{:?}] rendering of an error, the error itself is kept. *)
From S2P Require Import Prelude Effects Utf8 CriticTypes Mote Entry Journal Warrant Content Refusal Broker.
Import JournalEntry.

Module CommitProtocolError.
Inductive CommitProtocolError :=
| R11ResultRefIncomplete (mote_id : MoteId) (result_ref : ContentRef)
| R12CommittedNotProofOfValidity (mote_id : MoteId) (context : bytes)
| R13WmReDispatchRefused (mote_id : MoteId) (reason : bytes)
| ProbeFailed (mote_id : MoteId) (reason : BrokerError)
| CompensateFailed (mote_id : MoteId) (reason : BrokerError)
| BrokerDispatchFailed (mote_id : MoteId) (reason : BrokerError) (model_detail : ModelDetail)
    (permanent : bool)
| ContentStorePutFailed (mote_id : MoteId) (reason : StoreError)
| JournalAppendCommittedFailed (mote_id : MoteId) (reason : JournalError)
| JournalAppendEffectStagedFailed (mote_id : MoteId) (reason : JournalError)
| Internal (mote_id : MoteId) (reason : JournalError).
Definition error_mote_id (e : CommitProtocolError) : MoteId :=
  match e with
  | R11ResultRefIncomplete m _ | R12CommittedNotProofOfValidity m _ | R13WmReDispatchRefused m _
  | ProbeFailed m _ | CompensateFailed m _ | BrokerDispatchFailed m _ _ _
  | ContentStorePutFailed m _ | JournalAppendCommittedFailed m _
  | JournalAppendEffectStagedFailed m _ | Internal m _ => m
  end.
Definition is_recovery_refusal (e : CommitProtocolError) : bool :=
  match e with
  | R13WmReDispatchRefused _ _ | ProbeFailed _ _ | CompensateFailed _ _ => true
  | _ => false
  end.
End CommitProtocolError.
Abbreviation CommitProtocolError := CommitProtocolError.CommitProtocolError.
Import CommitProtocolError.

Module CommitInput.
Record CommitInput := {
  mote : Mote;
  warrant : WarrantSpec;
  capability : bytes;
  effect_request : EffectRequest;
  warrant_ref : ContentRef;
  mote_def_hash : bytes;
  idempotency_key : bytes;
  parents : list ParentEntry;
  diagnostic_context : bytes;
  idempotency_class : option IdempotencyClass
}.
End CommitInput.
Abbreviation CommitInput := CommitInput.CommitInput.
Import CommitInput.

(** ** The state the executor works on *)
Record Env (J S R W : Type) := { env_journal : J; env_store : S; env_slots : R; env_world : W }.
Arguments env_journal {J S R W}. Arguments env_store {J S R W}.
Arguments env_slots {J S R W}. Arguments env_world {J S R W}.
Arguments Build_Env {J S R W}.
Section Parts.
Context {J S R W : Type}.
Definition with_journal (j : J) (env : Env J S R W) : Env J S R W :=
  {| env_journal := j; env_store := env.(env_store); env_slots := env.(env_slots);
     env_world := env.(env_world) |}.
Definition with_slots (r : R) (env : Env J S R W) : Env J S R W :=
  {| env_journal := env.(env_journal); env_store := env.(env_store); env_slots := r;
     env_world := env.(env_world) |}.
Definition outside (env : Env J S R W) : S * W := (env.(env_store), env.(env_world)).
Definition with_outside (p : S * W) (env : Env J S R W) : Env J S R W :=
  {| env_journal := env.(env_journal); env_store := p.1; env_slots := env.(env_slots);
     env_world := p.2 |}.
Definition journal_append `{Journal J} (e : JournalEntry) : comp (Env J S R W) JournalEntry JournalError :=
  czoom env_journal with_journal (cstep (fun j => append j e)).
(** A call of the broker or of an executor. *)
Definition on_outside {A E} (m : comp (S * W) A E) : comp (Env J S R W) A E :=
  czoom outside with_outside m.
End Parts.

(** ** The trait *)
Record CommitProtocol (St : Type) := {
  cp_commit : CommitInput -> comp St Z CommitProtocolError;
  cp_try_commit_from_readback : CommitInput -> comp St (option Z) CommitProtocolError;
  cp_try_compensate : CommitInput -> comp St (option Z) CommitProtocolError
}.
Arguments cp_commit {St}. Arguments cp_try_commit_from_readback {St}. Arguments cp_try_compensate {St}.
Definition default_try_commit_from_readback {St} (_ : CommitInput)
    : comp St (option Z) CommitProtocolError := cret None.
Definition default_try_compensate {St} (_ : CommitInput)
    : comp St (option Z) CommitProtocolError := cret None.

(** ** The entries it writes *)
Definition staged_entry (input : CommitInput) : JournalEntry :=
  EffectStaged input.(mote).(mote_id) input.(idempotency_key) 0.
Definition committed_entry (input : CommitInput) (result_ref : ContentRef) : JournalEntry :=
  Committed input.(mote).(mote_id) input.(idempotency_key) 0 input.(mote).(def).(nd_class)
    result_ref input.(parents) input.(warrant_ref) input.(mote_def_hash).
Definition compensated_entry (input : CommitInput) : JournalEntry :=
  Failed input.(mote).(mote_id) input.(idempotency_key) 0 FailureReason.CompensatedAtLeastOnce 0 [].

Section Standard.
Context {J S R W : Type} `{Journal J} `{ContentStore S} (broker : CapabilityBroker S W).
Abbreviation M := (comp (Env J S R W)).

Definition enforce_r11 (mote_id : MoteId) (result_ref : ContentRef) : M unit CommitProtocolError :=
  cask (fun env =>
    if negb (contains env.(env_store) result_ref)
    then Err (R11ResultRefIncomplete mote_id result_ref)
    else match get env.(env_store) result_ref with
         | None => Err (R11ResultRefIncomplete mote_id result_ref)
         | Some _ => Ok tt
         end).
Definition dispatch_failed (mote_id : MoteId) (e : BrokerError) : CommitProtocolError :=
  BrokerDispatchFailed mote_id e (model_facing_detail e) (is_permanent e).

Definition commit_idempotent (input : CommitInput) : M Z CommitProtocolError :=
  let mote_id := input.(mote).(mote_id) in
  do! handle := cmap_err (dispatch_failed mote_id)
                  (on_outside (dispatch broker input.(mote) input.(warrant) input.(capability)
                                 input.(effect_request))) in
  let result_ref := handle.(BrokerHandle.staged_ref) in
  do! _ := enforce_r11 mote_id result_ref in
  let entry := committed_entry input result_ref in
  do! written := cmap_err (JournalAppendCommittedFailed mote_id) (journal_append entry) in
  cret (entry_seq written).

Definition commit_stage_then_commit (input : CommitInput) : M Z CommitProtocolError :=
  let mote_id := input.(mote).(mote_id) in
  let staged := staged_entry input in
  do! _ := cmap_err (JournalAppendEffectStagedFailed mote_id) (journal_append staged) in
  do! handle := cmap_err (dispatch_failed mote_id)
                  (on_outside (dispatch broker input.(mote) input.(warrant) input.(capability)
                                 input.(effect_request))) in
  let result_ref := handle.(BrokerHandle.staged_ref) in
  do! _ := enforce_r11 mote_id result_ref in
  let entry := committed_entry input result_ref in
  do! written := cmap_err (JournalAppendCommittedFailed mote_id) (journal_append entry) in
  cret (entry_seq written).

Definition commit_validate_then_commit (input : CommitInput) : M Z CommitProtocolError :=
  let mote_id := input.(mote).(mote_id) in
  do! handle := cmap_err (dispatch_failed mote_id)
                  (on_outside (dispatch broker input.(mote) input.(warrant) input.(capability)
                                 input.(effect_request))) in
  let result_ref := handle.(BrokerHandle.staged_ref) in
  do! _ := enforce_r11 mote_id result_ref in
  let entry := committed_entry input result_ref in
  do! written := cmap_err (JournalAppendCommittedFailed mote_id) (journal_append entry) in
  cret (entry_seq written).

Definition commit (input : CommitInput) : M Z CommitProtocolError :=
  match input.(mote).(def).(effect_pattern) with
  | IdempotentByConstruction => commit_idempotent input
  | StageThenCommit => commit_stage_then_commit input
  | ValidateThenCommit => commit_validate_then_commit input
  end.

Definition try_commit_from_readback (input : CommitInput) : M (option Z) CommitProtocolError :=
  let mote_id := input.(mote).(mote_id) in
  do! found := cmap_err (ProbeFailed mote_id)
                 (on_outside (probe_readback broker input.(mote) input.(warrant) input.(capability)
                                input.(effect_request))) in
  match found with
  | None => cret None
  | Some handle =>
      let result_ref := handle.(BrokerHandle.staged_ref) in
      do! _ := enforce_r11 mote_id result_ref in
      let entry := committed_entry input result_ref in
      do! written := cmap_err (JournalAppendCommittedFailed mote_id) (journal_append entry) in
      cret (Some (entry_seq written))
  end.

Definition try_compensate (input : CommitInput) : M (option Z) CommitProtocolError :=
  let mote_id := input.(mote).(mote_id) in
  do! undone := cmap_err (CompensateFailed mote_id)
                  (on_outside (compensate broker input.(mote) input.(warrant) input.(capability)
                                 input.(effect_request))) in
  match undone with
  | None => cret None
  | Some handle =>
      do! _ := enforce_r11 mote_id handle.(BrokerHandle.staged_ref) in
      let entry := compensated_entry input in
      do! written := cmap_err (Internal mote_id) (journal_append entry) in
      cret (Some (entry_seq written))
  end.

Definition StandardCommitProtocol : CommitProtocol (Env J S R W) := {|
  cp_commit := commit;
  cp_try_commit_from_readback := try_commit_from_readback;
  cp_try_compensate := try_compensate |}.
End Standard.

(** ** What each operation does to the log *)
Section Runs.
Context {J S R W : Type} `{JournalLaws J} `{ContentStore S} (broker : CapabilityBroker S W).
Implicit Types (env : Env J S R W) (l : list JournalEntry).

Definition readable (s : S) (r : ContentRef) : bool :=
  contains s r && bool_decide (is_Some (get s r)).
Lemma enforce_r11_run mote_id r env :
  enforce_r11 mote_id r env
  = (if readable env.(env_store) r then Ok tt else Err (R11ResultRefIncomplete mote_id r), env).
Proof.
  unfold enforce_r11, cask, readable. destruct (contains (env_store env) r); cbn [negb andb]; [|done].
  destruct (get (env_store env) r); [by rewrite bool_decide_true|by rewrite bool_decide_false by (by intros [? [=]])].
Qed.
Lemma journal_append_run e env l :
  represents env.(env_journal) l -> accepts e -> Z.of_nat (length l) + 1 < MAX_LOG ->
  exists j, journal_append e env = (Ok (log_append l e).1, with_journal j env)
    /\ represents j (log_append l e).2.
Proof.
  intros Hr Ha Hl. destruct (append_law _ _ e Hr Ha Hl) as (j & Hj & Hr'). exists j.
  unfold journal_append, czoom, cstep. by rewrite Hj.
Qed.

(** The entries of an input are ones the journal takes. *)
Record entries_accepted (input : CommitInput) : Prop := {
  ea_staged : accepts (staged_entry input);
  ea_committed : forall r, array_ok 32 r -> accepts (committed_entry input r);
  ea_compensated : accepts (compensated_entry input)
}.
(** A reference is 32 bytes by its type. *)
Definition typed_handle {E} (r : outcome BrokerHandle E) : Prop :=
  forall h, r = Ok h -> array_ok 32 h.(BrokerHandle.staged_ref).
Definition typed_handle_opt {E} (r : outcome (option BrokerHandle) E) : Prop :=
  forall h, r = Ok (Some h) -> array_ok 32 h.(BrokerHandle.staged_ref).
Record typed_broker : Prop := {
  tb_dispatch : forall m w c q st, typed_handle (dispatch broker m w c q st).1;
  tb_probe : forall m w c q st, typed_handle_opt (probe_readback broker m w c q st).1;
  tb_compensate : forall m w c q st, typed_handle_opt (compensate broker m w c q st).1
}.

(** The log when the effect fires: staged intent first, where the pattern asks. *)
Definition intent_log (input : CommitInput) l : list JournalEntry :=
  match input.(mote).(def).(effect_pattern) with
  | StageThenCommit => (log_append l (staged_entry input)).2
  | _ => l
  end.
(** The result and log of a commit, from what the effect returned and whether
    its result can be read back from the store. *)
Definition commit_result (input : CommitInput) l (d : outcome BrokerHandle BrokerError) (s : S)
    : outcome Z CommitProtocolError * list JournalEntry :=
  let m := input.(mote).(mote_id) in
  match d with
  | Ok h =>
      let r := h.(BrokerHandle.staged_ref) in
      if readable s r
      then (Ok (entry_seq (log_append l (committed_entry input r)).1),
            (log_append l (committed_entry input r)).2)
      else (Err (R11ResultRefIncomplete m r), l)
  | Err e => (Err (dispatch_failed m e), l)
  | Panic => (Panic, l)
  end.

Lemma with_journal_self env : with_journal env.(env_journal) env = env.
Proof. by destruct env. Qed.
Lemma commit_result_grows input l d s :
  (length l <= length (commit_result input l d s).2 <= length l + 1)%nat.
Proof.
  unfold commit_result. destruct d as [h|e|]; cbn [snd]; [|lia..].
  case_match; cbn [snd]; [apply log_append_length|lia].
Qed.
Lemma intent_log_grows input l : (length l <= length (intent_log input l) <= length l + 1)%nat.
Proof. unfold intent_log. case_match; [lia|apply log_append_length|lia]. Qed.

Lemma commit_idempotent_run input env l :
  typed_broker -> entries_accepted input -> represents env.(env_journal) l ->
  Z.of_nat (length l) + 1 < MAX_LOG ->
  let d := dispatch broker input.(mote) input.(warrant) input.(capability)
             input.(effect_request) (outside env) in
  let out := commit_result input l d.1 d.2.1 in
  exists j, commit_idempotent broker input env = (out.1, with_journal j (with_outside d.2 env))
    /\ represents j out.2.
Proof.
  intros Ht Ha Hr Hl. cbn zeta. pose proof (tb_dispatch Ht input.(mote) input.(warrant)
    input.(capability) input.(effect_request) (outside env)) as Htd.
  unfold commit_idempotent, cbind at 1, cmap_err at 1, on_outside, czoom.
  destruct (dispatch _ _ _ _ _ _) as [[h|e|] st]; cbn [fst snd omap_err commit_result];
    [|exists env.(env_journal); by split..].
  unfold cbind at 1. rewrite enforce_r11_run. cbn [with_outside env_store].
  destruct (readable st.1 (BrokerHandle.staged_ref h)); cbn [fst snd]; [|exists env.(env_journal); by split].
  destruct (journal_append_run (committed_entry input (BrokerHandle.staged_ref h))
              (with_outside st env) l) as (j & Hj & Hr'); [done|by apply Ha, Htd|done|].
  exists j. unfold cbind, cmap_err. rewrite Hj. by split.
Qed.
Lemma commit_run input env l :
  typed_broker -> entries_accepted input -> represents env.(env_journal) l ->
  Z.of_nat (length l) + 2 < MAX_LOG ->
  let d := dispatch broker input.(mote) input.(warrant) input.(capability)
             input.(effect_request) (outside env) in
  let out := commit_result input (intent_log input l) d.1 d.2.1 in
  exists j, commit broker input env = (out.1, with_journal j (with_outside d.2 env))
    /\ represents j out.2.
Proof.
  intros Ht Ha Hr Hl. unfold commit, intent_log.
  destruct (effect_pattern (def (mote input))) eqn:Hp.
  - apply commit_idempotent_run; [done..|lia].
  - destruct (journal_append_run (staged_entry input) env l) as (j & Hj & Hr'); [done|apply Ha|lia|].
    pose proof (log_append_length l (staged_entry input)) as Hg.
    destruct (commit_idempotent_run input (with_journal j env) (log_append l (staged_entry input)).2)
      as (j' & Hj' & Hr''); [done..|lia|].
    exists j'. split; [|done]. unfold commit_stage_then_commit, cbind at 1, cmap_err at 1.
    rewrite Hj. cbn [omap_err]. exact Hj'.
  - apply commit_idempotent_run; [done..|lia].
Qed.

Definition readback_result (input : CommitInput) l (d : outcome (option BrokerHandle) BrokerError) (s : S)
    : outcome (option Z) CommitProtocolError * list JournalEntry :=
  let m := input.(mote).(mote_id) in
  match d with
  | Ok (Some h) =>
      let r := h.(BrokerHandle.staged_ref) in
      if readable s r
      then (Ok (Some (entry_seq (log_append l (committed_entry input r)).1)),
            (log_append l (committed_entry input r)).2)
      else (Err (R11ResultRefIncomplete m r), l)
  | Ok None => (Ok None, l)
  | Err e => (Err (ProbeFailed m e), l)
  | Panic => (Panic, l)
  end.
Definition compensate_result (input : CommitInput) l (d : outcome (option BrokerHandle) BrokerError) (s : S)
    : outcome (option Z) CommitProtocolError * list JournalEntry :=
  let m := input.(mote).(mote_id) in
  match d with
  | Ok (Some h) =>
      if readable s h.(BrokerHandle.staged_ref)
      then (Ok (Some (entry_seq (log_append l (compensated_entry input)).1)),
            (log_append l (compensated_entry input)).2)
      else (Err (R11ResultRefIncomplete m h.(BrokerHandle.staged_ref)), l)
  | Ok None => (Ok None, l)
  | Err e => (Err (CompensateFailed m e), l)
  | Panic => (Panic, l)
  end.
Lemma readback_run input env l :
  typed_broker -> entries_accepted input -> represents env.(env_journal) l ->
  Z.of_nat (length l) + 1 < MAX_LOG ->
  let d := probe_readback broker input.(mote) input.(warrant) input.(capability)
             input.(effect_request) (outside env) in
  let out := readback_result input l d.1 d.2.1 in
  exists j, try_commit_from_readback broker input env = (out.1, with_journal j (with_outside d.2 env))
    /\ represents j out.2.
Proof.
  intros Ht Ha Hr Hl. cbn zeta. pose proof (tb_probe Ht input.(mote) input.(warrant)
    input.(capability) input.(effect_request) (outside env)) as Htd.
  unfold try_commit_from_readback, cbind at 1, cmap_err at 1, on_outside, czoom.
  destruct (probe_readback _ _ _ _ _ _) as [[[h|]|e|] st]; cbn [fst snd omap_err readback_result];
    [|exists env.(env_journal); by split..].
  unfold cbind at 1. rewrite enforce_r11_run. cbn [with_outside env_store].
  destruct (readable st.1 (BrokerHandle.staged_ref h)); cbn [fst snd]; [|exists env.(env_journal); by split].
  destruct (journal_append_run (committed_entry input (BrokerHandle.staged_ref h))
              (with_outside st env) l) as (j & Hj & Hr'); [done|by apply Ha, Htd|done|].
  exists j. unfold cbind, cmap_err. rewrite Hj. by split.
Qed.
Lemma compensate_run input env l :
  typed_broker -> entries_accepted input -> represents env.(env_journal) l ->
  Z.of_nat (length l) + 1 < MAX_LOG ->
  let d := compensate broker input.(mote) input.(warrant) input.(capability)
             input.(effect_request) (outside env) in
  let out := compensate_result input l d.1 d.2.1 in
  exists j, try_compensate broker input env = (out.1, with_journal j (with_outside d.2 env))
    /\ represents j out.2.
Proof.
  intros Ht Ha Hr Hl. cbn zeta.
  unfold try_compensate, cbind at 1, cmap_err at 1, on_outside, czoom.
  destruct (compensate _ _ _ _ _ _) as [[[h|]|e|] st]; cbn [fst snd omap_err compensate_result];
    [|exists env.(env_journal); by split..].
  unfold cbind at 1. rewrite enforce_r11_run. cbn [with_outside env_store].
  destruct (readable st.1 (BrokerHandle.staged_ref h)); cbn [fst snd]; [|exists env.(env_journal); by split].
  destruct (journal_append_run (compensated_entry input) (with_outside st env) l)
    as (j & Hj & Hr'); [done|by apply Ha|done|].
  exists j. unfold cbind, cmap_err. rewrite Hj. by split.
Qed.
End Runs.
