(* ===== verification/Lifecycle.v ===== *)
(** kx-executor: resource slots (resource_manager.rs), the executor interface
    (executor_trait.rs), the run of a Mote from its slot to its commit and its
    recovery after a crash (lifecycle.rs), and verification by re-run
    (verify.rs). *)
From S2P Require Import Prelude Effects Utf8 CriticTypes Mote Entry Journal Warrant Content Refusal ProjState Broker CommitProtocol.
Import JournalEntry.

(** ** Resource slots *)
Module ResourceError.
Inductive ResourceError :=
| CpuCapExceeded (requested cap : Z)
| MemCapExceeded (requested cap : Z)
| FdCapExceeded (requested cap : Z)
| NoCapacity
| UnknownSlot (id : Z)
| Internal.
End ResourceError.
Abbreviation ResourceError := ResourceError.ResourceError.
Class ResourceManager (R : Type) := {
  acquire : R -> ResourceCeiling -> outcome (Z * R) ResourceError;
  release : R -> Z -> outcome R ResourceError
}.
Record LocalResourceManager := {
  cpu_cap_milli : Z;
  mem_cap_bytes : Z;
  fd_cap : Z;
  next_slot_id : Z;
  outstanding : gset Z
}.
Definition LocalResourceManager_new (cpu mem fd : Z) : LocalResourceManager :=
  {| cpu_cap_milli := cpu; mem_cap_bytes := mem; fd_cap := fd; next_slot_id := 1; outstanding := ∅ |}.
Definition dev_defaults : LocalResourceManager :=
  LocalResourceManager_new (2 ^ 32 - 1) (2 ^ 64 - 1) (2 ^ 32 - 1).
Definition local_acquire (st : LocalResourceManager) (ceiling : ResourceCeiling)
    : outcome (Z * LocalResourceManager) ResourceError :=
  if st.(cpu_cap_milli) <? ceiling.(ResourceCeiling.cpu_milli)
  then Err (ResourceError.CpuCapExceeded ceiling.(ResourceCeiling.cpu_milli) st.(cpu_cap_milli))
  else if st.(mem_cap_bytes) <? ceiling.(ResourceCeiling.mem_bytes)
  then Err (ResourceError.MemCapExceeded ceiling.(ResourceCeiling.mem_bytes) st.(mem_cap_bytes))
  else if st.(fd_cap) <? ceiling.(ResourceCeiling.fd_count)
  then Err (ResourceError.FdCapExceeded ceiling.(ResourceCeiling.fd_count) st.(fd_cap))
  else
    let id := st.(next_slot_id) in
    Ok (id, {| cpu_cap_milli := st.(cpu_cap_milli); mem_cap_bytes := st.(mem_cap_bytes);
               fd_cap := st.(fd_cap);
               next_slot_id := Z.min (st.(next_slot_id) + 1) (2 ^ 64 - 1);
               outstanding := {[id]} ∪ st.(outstanding) |}).
Definition local_release (st : LocalResourceManager) (id : Z) : outcome LocalResourceManager ResourceError :=
  if bool_decide (id ∈ st.(outstanding))
  then Ok {| cpu_cap_milli := st.(cpu_cap_milli); mem_cap_bytes := st.(mem_cap_bytes);
             fd_cap := st.(fd_cap); next_slot_id := st.(next_slot_id);
             outstanding := st.(outstanding) ∖ {[id]} |}
  else Err (ResourceError.UnknownSlot id).
#[export] Instance LocalResourceManager_manager : ResourceManager LocalResourceManager := {|
  acquire := local_acquire; release := local_release |}.

(** ** Executors *)
Record Rootfs := { rootfs_ref : ContentRef; materialized_at : option bytes }.
Record MoteExecutionResult := {
  exec_result_ref : ContentRef; started_at_epoch_ms : Z; finished_at_epoch_ms : Z }.
Module MoteExecutorError.
Inductive MoteExecutorError :=
| BackendUnsupported (class : ExecutorClass) (reason : bytes)
| RootfsExtractFailed (reason : bytes)
| SandboxLoadFailed (reason : bytes)
| ProfileSyntaxError (offset : Z)
| RlimitFailed (axis : bytes) (errno : Z)
| ProcessSpawnFailed (errno : Z)
| WallClockTimedOut (budget_ms : Z)
| BodyExited (code : Z)
| Internal (reason : bytes).
End MoteExecutorError.
Abbreviation MoteExecutorError := MoteExecutorError.MoteExecutorError.
(** An executor runs a Mote's body, which may write to the store. *)
Record MoteExecutor (S W : Type) := {
  exec_run : Mote -> WarrantSpec -> option Rootfs -> comp (S * W) MoteExecutionResult MoteExecutorError;
  supports : ExecutorClass -> bool
}.
Arguments exec_run {S W}. Arguments supports {S W}.

(** ** Results *)
Inductive JournalStep :=
| ReadGate | WriteProposed | WriteCommitted | WriteProducerProposed | WriteQuarantined
| WriteCriticProposed (label : bytes) | ReadCommitted.
Inductive InternalFault :=
| NotPure (class : NdClass) | PureRefused (mote_id : MoteId) | CommittedNotVisible (seq : Z)
| NoCriticCheck | CriticShape | NoCriticFor | ProducerNotCommitted | ReadProducer | PutVerdict.
Module LifecycleError.
Inductive LifecycleError :=
| Refused (r : SubmissionRefusal)
| ResourceAcquire (e : ResourceError)
| ExecutorRun (e : MoteExecutorError)
| JournalAppend (at_step : JournalStep) (e : JournalError)
| CommitProtocol (e : CommitProtocolError)
| Internal (what : InternalFault).
End LifecycleError.
Abbreviation LifecycleError := LifecycleError.LifecycleError.
Import LifecycleError.
Record LifecycleCommit := {
  committed_seq : Z; commit_result_ref : ContentRef; commit_mote_id : MoteId }.
Record WmLifecycleCommit := {
  wm_commit : LifecycleCommit;
  critic_proposed_seq : option Z
}.
Inductive RecoveryAction := Redispatch | CommitFromReadback | Compensate | Quarantine.
Inductive RecoveryRoute := ProbeThenRedispatch | CompensateOrQuarantine.
Definition recovery_route_for (class : option IdempotencyClass) : RecoveryRoute :=
  match class with
  | Some IdempotencyClass.AtLeastOnce => CompensateOrQuarantine
  | Some (IdempotencyClass.Token | IdempotencyClass.Readback | IdempotencyClass.Staged)
  | None => ProbeThenRedispatch
  end.
Module WmRecoveryOutcome.
Inductive WmRecoveryOutcome :=
| Committed (commit : WmLifecycleCommit) (action : RecoveryAction)
| TerminallyFailed (mote_id : MoteId) (failed_seq : Z) (action : RecoveryAction).
End WmRecoveryOutcome.
Abbreviation WmRecoveryOutcome := WmRecoveryOutcome.WmRecoveryOutcome.

Section Lifecycle.
Context `{Blake3} `{!Bincode MoteDef} `{!Bincode WarrantSpec}.
Context {J S R W : Type} `{Journal J} `{ContentStore S} `{ResourceManager R}.
Abbreviation M := (comp (Env J S R W)).

Definition acquire_slot (ceiling : ResourceCeiling) : M Z ResourceError :=
  czoom env_slots with_slots (cstep (fun r => acquire r ceiling)).
Definition release_slot (slot : Z) : M unit ResourceError :=
  czoom env_slots with_slots (cstep (fun r => let* r := release r slot in Ok (tt, r))).
(** [let _ = resource_manager.release(slot); return Err(e);] *)
Definition release_and_fail {A} (slot : Z) (e : LifecycleError) : M A LifecycleError :=
  do! _ := cignore (release_slot slot) in cerr e.

Definition seq_and_ref (o : option JournalEntry) : option (Z * ContentRef) :=
  match o with
  | Some (Committed _ _ seq _ result_ref _ _ _) => Some (seq, result_ref)
  | _ => None
  end.
Definition serve_if_committed (id : MoteId) : M (option (Z * ContentRef)) LifecycleError :=
  cask (fun env =>
    let* o := omap_err (JournalAppend ReadGate) (read_committed env.(env_journal) id) in
    Ok (seq_and_ref o)).

Definition pure_proposed (mote : Mote) (warrant_ref : ContentRef) : JournalEntry :=
  Proposed mote.(mote_id) mote.(mote_id) 0 Pure 0 warrant_ref.
Definition pure_committed (mote : Mote) (warrant_ref result_ref : ContentRef) : JournalEntry :=
  Committed mote.(mote_id) mote.(mote_id) 0 Pure result_ref [] warrant_ref (MoteDef_hash mote.(def)).

Definition run_pure_mote (mote : Mote) (warrant : WarrantSpec) (executor : MoteExecutor S W)
    : M LifecycleCommit LifecycleError :=
  if negb (bool_decide (mote.(def).(nd_class) = Pure))
  then cerr (Internal (NotPure mote.(def).(nd_class)))
  else
  do! served := serve_if_committed mote.(mote_id) in
  match served with
  | Some (committed_seq, result_ref) =>
      cret {| committed_seq := committed_seq; commit_result_ref := result_ref;
              commit_mote_id := mote.(mote_id) |}
  | None =>
      do! slot := cmap_err ResourceAcquire (acquire_slot warrant.(WarrantSpec.resource_ceiling)) in
      do! res := ccatch (on_outside (exec_run executor mote warrant None))
                   (fun e => release_and_fail slot (ExecutorRun e)) in
      let result_ref := res.(exec_result_ref) in
      let warrant_ref := warrant_ref_of warrant in
      do! _ := cmap_err (JournalAppend WriteProposed)
                 (journal_append (pure_proposed mote warrant_ref)) in
      do! committed_entry := cmap_err (JournalAppend WriteCommitted)
                 (journal_append (pure_committed mote warrant_ref result_ref)) in
      do! _ := cmap_err ResourceAcquire (release_slot slot) in
      cret {| committed_seq := entry_seq committed_entry; commit_result_ref := result_ref;
              commit_mote_id := mote.(mote_id) |}
  end.

(** ** Effects *)
Definition schedule_sibling_critic (mote : Mote) (submission_motes : gmap bytes Mote)
    (warrant_ref : ContentRef) (label : bytes) : M (option Z) LifecycleError :=
  if negb (bool_decide (mote.(def).(effect_pattern) = ValidateThenCommit)) then cret None
  else match List.find (is_critic_for mote.(mote_id)) (btree_values submission_motes) with
  | None => cret None
  | Some critic_mote =>
      do! entry := cmap_err (JournalAppend (WriteCriticProposed label))
                     (journal_append (Proposed critic_mote.(mote_id) critic_mote.(mote_id) 0
                                        critic_mote.(def).(nd_class) 0 warrant_ref)) in
      cret (Some (entry_seq entry))
  end.
Definition read_committed_result_ref (id : MoteId) (seq : Z) : M ContentRef LifecycleError :=
  cask (fun env =>
    let* o := omap_err (JournalAppend ReadCommitted) (read_committed env.(env_journal) id) in
    ok_or (match o with Some e => committed_ref e | None => None end)
      (Internal (CommittedNotVisible seq))).

Definition lifecycle_input (mote : Mote) (warrant : WarrantSpec) (capability : bytes)
    (effect_request : EffectRequest) (context : bytes) (class : option IdempotencyClass) : CommitInput := {|
  CommitInput.mote := mote; CommitInput.warrant := warrant; CommitInput.capability := capability;
  CommitInput.effect_request := effect_request; CommitInput.warrant_ref := warrant_ref_of warrant;
  CommitInput.mote_def_hash := MoteDef_hash mote.(def);
  CommitInput.idempotency_key := mote.(mote_id); CommitInput.parents := [];
  CommitInput.diagnostic_context := context; CommitInput.idempotency_class := class |}.
Definition wm_proposed (mote : Mote) (warrant_ref : ContentRef) : JournalEntry :=
  Proposed mote.(mote_id) mote.(mote_id) 0 mote.(def).(nd_class) 0 warrant_ref.

(** After the commit: schedule the critic, read the result back, free the slot. *)
Definition finish_wm (mote : Mote) (submission_motes : gmap bytes Mote) (warrant_ref : ContentRef)
    (label : bytes) (slot seq : Z) : M WmLifecycleCommit LifecycleError :=
  do! critic_seq := ccatch (schedule_sibling_critic mote submission_motes warrant_ref label)
                      (release_and_fail slot) in
  do! result_ref := ccatch (read_committed_result_ref mote.(mote_id) seq) (release_and_fail slot) in
  do! _ := cmap_err ResourceAcquire (release_slot slot) in
  cret {| wm_commit := {| committed_seq := seq; commit_result_ref := result_ref;
                          commit_mote_id := mote.(mote_id) |};
          critic_proposed_seq := critic_seq |}.

Definition run_wm_mote (mote : Mote) (warrant : WarrantSpec) (capability : bytes)
    (effect_request : EffectRequest) (submission_motes : gmap bytes Mote)
    (protocol : CommitProtocol.CommitProtocol (Env J S R W)) : M WmLifecycleCommit LifecycleError :=
  if bool_decide (mote.(def).(nd_class) = Pure) then cerr (Internal (PureRefused mote.(mote_id)))
  else
  do! served := serve_if_committed mote.(mote_id) in
  match served with
  | Some (committed_seq, result_ref) =>
      cret {| wm_commit := {| committed_seq := committed_seq; commit_result_ref := result_ref;
                              commit_mote_id := mote.(mote_id) |};
              critic_proposed_seq := None |}
  | None =>
      do! slot := cmap_err ResourceAcquire (acquire_slot warrant.(WarrantSpec.resource_ceiling)) in
      let warrant_ref := warrant_ref_of warrant in
      do! _ := ccatch (journal_append (wm_proposed mote warrant_ref))
                 (fun e => release_and_fail slot (JournalAppend WriteProducerProposed e)) in
      let commit_input := lifecycle_input mote warrant capability effect_request
                            (str "lifecycle::run_wm_mote") None in
      do! seq := ccatch (cp_commit protocol commit_input)
                   (fun e => release_and_fail slot (CommitProtocol e)) in
      finish_wm mote submission_motes warrant_ref [] slot seq
  end.

(** ** Recovery *)
Definition R13_REASON : bytes :=
  str "WmRedispatchOracle returned false (terminal_failure_observed / inconsistent / already committed / no effect_staged_observed)".
Definition quarantined_entry (mote : Mote) (idempotency_key : bytes) : JournalEntry :=
  Failed mote.(mote_id) idempotency_key 0 FailureReason.QuarantinedAtLeastOnce 0 [].
Definition compensate_or_quarantine (mote : Mote) (idempotency_key : bytes)
    (protocol : CommitProtocol.CommitProtocol (Env J S R W)) (commit_input : CommitInput)
    : M WmRecoveryOutcome LifecycleError :=
  do! undone := cmap_err CommitProtocol (cp_try_compensate protocol commit_input) in
  match undone with
  | Some failed_seq => cret (WmRecoveryOutcome.TerminallyFailed mote.(mote_id) failed_seq Compensate)
  | None =>
      do! written := cmap_err (JournalAppend WriteQuarantined)
                       (journal_append (quarantined_entry mote idempotency_key)) in
      cret (WmRecoveryOutcome.TerminallyFailed mote.(mote_id) (entry_seq written) Quarantine)
  end.
(** [let outcome = m; let _ = release(slot); return outcome;] *)
Definition then_release {A} (slot : Z) (m : M A LifecycleError) : M A LifecycleError :=
  do! a := ccatch m (release_and_fail slot) in
  do! _ := cignore (release_slot slot) in cret a.

Definition redispatch_wm_mote (mote : Mote) (warrant : WarrantSpec) (capability : bytes)
    (effect_request : EffectRequest) (idempotency_class : option IdempotencyClass)
    (submission_motes : gmap bytes Mote) (protocol : CommitProtocol.CommitProtocol (Env J S R W))
    (oracle : MoteId -> bool) : M WmRecoveryOutcome LifecycleError :=
  if bool_decide (mote.(def).(nd_class) = Pure) then cerr (Internal (PureRefused mote.(mote_id)))
  else if negb (oracle mote.(mote_id))
  then cerr (CommitProtocol (CommitProtocolError.R13WmReDispatchRefused mote.(mote_id) R13_REASON))
  else
  do! slot := cmap_err ResourceAcquire (acquire_slot warrant.(WarrantSpec.resource_ceiling)) in
  let warrant_ref := warrant_ref_of warrant in
  let commit_input := lifecycle_input mote warrant capability effect_request
                        (str "lifecycle::redispatch_wm_mote") idempotency_class in
  match recovery_route_for idempotency_class with
  | CompensateOrQuarantine =>
      then_release slot (compensate_or_quarantine mote mote.(mote_id) protocol commit_input)
  | ProbeThenRedispatch =>
      do! found := ccatch (cp_try_commit_from_readback protocol commit_input)
                     (fun e => release_and_fail slot (CommitProtocol e)) in
      do! (seq, action) :=
        match found with
        | Some seq => cret (seq, CommitFromReadback)
        | None =>
            do! seq := ccatch (cp_commit protocol commit_input)
                         (fun e => release_and_fail slot (CommitProtocol e)) in
            cret (seq, Redispatch)
        end in
      do! commit := finish_wm mote submission_motes warrant_ref (str " (recovery)") slot seq in
      cret (WmRecoveryOutcome.Committed commit action)
  end.
(** The projection as an oracle. *)
Definition projection_oracle (s : State) : MoteId -> bool := can_redispatch_world_effect_id s.

(** ** Verification by re-run *)
Inductive VerifyOutcome :=
| Confirmed (result_ref : ContentRef)
| Diverged (expected observed : ContentRef).
Definition is_confirmed (v : VerifyOutcome) : bool :=
  match v with Confirmed _ => true | _ => false end.
Inductive VerifyError :=
| VerifyNotPure (class : NdClass)
| VerifyResource (e : ResourceError)
| VerifyExecutorRun (e : MoteExecutorError).
(** The run's error goes before the release's. *)
Definition verify_pure_rerun (mote : Mote) (warrant : WarrantSpec) (expected : ContentRef)
    (executor : MoteExecutor S W) : M VerifyOutcome VerifyError :=
  if negb (bool_decide (mote.(def).(nd_class) = Pure)) then cerr (VerifyNotPure mote.(def).(nd_class))
  else
  do! slot := cmap_err VerifyResource (acquire_slot warrant.(WarrantSpec.resource_ceiling)) in
  do! run_result := ccatch (cmap_err VerifyExecutorRun (on_outside (exec_run executor mote warrant None)))
                      (fun e => do! _ := cignore (release_slot slot) in cerr e) in
  do! _ := cmap_err VerifyResource (release_slot slot) in
  let result_ref := run_result.(exec_result_ref) in
  cret (if bool_decide (result_ref = expected) then Confirmed result_ref
        else Diverged expected result_ref).
End Lifecycle.
