(* ===== verification/Slots.v ===== *)
(** Slot accounting of kx-executor: what a resource manager promises, and that
    every path through the lifecycle gives its slot back. *)
From S2P Require Import Prelude Effects Utf8 CriticTypes Mote Entry Journal Warrant Content Refusal DemoCodec ProjState Broker CommitProtocol Lifecycle.
Import JournalEntry LifecycleError.

(** ** What a resource manager promises *)
Class ResourceManagerLaws (R : Type) `{ResourceManager R} := {
  held : R -> gset Z;
  (** A slot identifier is still free. *)
  room : R -> Prop;
  acquire_law : forall r c s r', room r -> acquire r c = Ok (s, r') ->
    s ∉ held r /\ held r' = {[s]} ∪ held r;
  acquire_no_panic : forall r c, acquire r c <> Panic;
  release_law : forall r s, s ∈ held r ->
    exists r', release r s = Ok r' /\ held r' = held r ∖ {[s]};
  release_unknown : forall r s, s ∉ held r -> exists e, release r s = Err e
}.

(** Identifiers are given in order and the counter saturates at [u64::MAX]. *)
Record local_room (r : LocalResourceManager) : Prop := {
  lr_fresh : forall s, s ∈ outstanding r -> s < next_slot_id r;
  lr_max : next_slot_id r < 2 ^ 64 - 1
}.
#[export] Instance LocalResourceManager_laws : ResourceManagerLaws LocalResourceManager.
Proof.
  refine {| held := outstanding; room := local_room |}; cbn [acquire release LocalResourceManager_manager].
  - intros r c s r' [Hf _]. unfold local_acquire. repeat case_match; try done.
    intros [= <- <-]. split; [|done]. intros Hin%Hf. lia.
  - intros r c. unfold local_acquire. by repeat case_match.
  - intros r s Hs. unfold local_release. rewrite bool_decide_true by done. by eexists.
  - intros r s Hs. unfold local_release. rewrite bool_decide_false by done. by eexists.
Defined.
Lemma local_room_acquire r c s r' :
  local_room r -> acquire r c = Ok (s, r') -> next_slot_id r + 1 < 2 ^ 64 - 1 -> local_room r'.
Proof.
  intros [Hf Hm]. cbn. unfold local_acquire. repeat case_match; try done. intros [= <- <-] Hn.
  split; cbn [outstanding next_slot_id]; [|lia]. intros i [->%elem_of_singleton|Hi%Hf]%elem_of_union; lia.
Qed.

Section Accounting.
Context `{Blake3} `{!Bincode MoteDef} `{!Bincode WarrantSpec}.
Context {J S R W : Type} `{Journal J} `{ContentStore S} `{ResourceManagerLaws R}.
Implicit Types (env : Env J S R W) (base : gset Z).

(** ** Steps that do not touch the slots *)
Definition keeps_slots {A E} (m : comp (Env J S R W) A E) : Prop :=
  forall env, env_slots (m env).2 = env_slots env.
Lemma keeps_ret {A E} (a : A) : keeps_slots (cret (E := E) a).
Proof. done. Qed.
Lemma keeps_ask {A E} f : keeps_slots (cask (A := A) (E := E) f).
Proof. done. Qed.
Lemma keeps_bind {A B E} (m : comp (Env J S R W) A E) (k : A -> comp (Env J S R W) B E) :
  keeps_slots m -> (forall a, keeps_slots (k a)) -> keeps_slots (cbind m k).
Proof.
  intros Hm Hk env. unfold cbind. specialize (Hm env). destruct (m env) as [[a|e|] env1]; [|done..].
  by rewrite (Hk a env1).
Qed.
Lemma keeps_map_err {A E F} (f : E -> F) (m : comp (Env J S R W) A E) :
  keeps_slots m -> keeps_slots (cmap_err f m).
Proof. intros Hm env. unfold cmap_err. specialize (Hm env). by destruct (m env). Qed.
Lemma keeps_append e : keeps_slots (journal_append e).
Proof. intros env. unfold journal_append, czoom, cstep. by destruct (append _ e) as [[]|?|]. Qed.
Lemma keeps_outside {A E} (m : comp (S * W) A E) : keeps_slots (on_outside m).
Proof. intros env. unfold on_outside, czoom. by destruct (m (outside env)). Qed.
Hint Resolve keeps_ret keeps_ask keeps_map_err keeps_append keeps_outside : slots.
Ltac keeps := repeat first [apply keeps_bind; [eauto with slots|intros ?]|case_match|by eauto with slots].
Lemma keeps_commit broker input : keeps_slots (commit broker input).
Proof. unfold commit. case_match; unfold commit_idempotent, commit_stage_then_commit, commit_validate_then_commit, enforce_r11; keeps. Qed.
Lemma keeps_readback broker input : keeps_slots (try_commit_from_readback broker input).
Proof. unfold try_commit_from_readback, enforce_r11. keeps. Qed.
Lemma keeps_compensate broker input : keeps_slots (try_compensate broker input).
Proof. unfold try_compensate, enforce_r11. keeps. Qed.
Lemma keeps_critic mote motes wr label : keeps_slots (schedule_sibling_critic mote motes wr label).
Proof. unfold schedule_sibling_critic. keeps. Qed.
Lemma keeps_read id seq : keeps_slots (read_committed_result_ref id seq).
Proof. apply keeps_ask. Qed.
Hint Resolve keeps_commit keeps_readback keeps_compensate keeps_critic keeps_read : slots.

(** ** Holding one slot more than [base], and ending with [base] *)
Definition holding (base : gset Z) (slot : Z) env : Prop :=
  slot ∉ base /\ held (env_slots env) = {[slot]} ∪ base.
Definition ends {A E} (base : gset Z) (out : outcome A E * Env J S R W) : Prop :=
  out.1 <> Panic -> held (env_slots out.2) = base.

Lemma release_run base slot env :
  holding base slot env ->
  exists r, release_slot slot env = (Ok tt, with_slots r env) /\ held r = base.
Proof.
  intros [Hn Hh]. destruct (release_law (env_slots env) slot) as (r & Hr & Hheld); [set_solver|].
  exists r. unfold release_slot, czoom, cstep. rewrite Hr. cbn. split; [done|].
  rewrite Hheld, Hh. set_solver.
Qed.
Lemma release_and_fail_run {A} base slot e env :
  holding base slot env ->
  exists r, release_and_fail (A := A) slot e env = (Err e, with_slots r env) /\ held r = base.
Proof.
  intros (r & Hr & Hb)%release_run. exists r. unfold release_and_fail, cbind, cignore. by rewrite Hr.
Qed.
Lemma release_last_ends {A E} base slot (f : ResourceError -> E) (a : A) env :
  holding base slot env ->
  ends base ((do! _ := cmap_err f (release_slot slot) in cret a) env).
Proof. intros (env' & Hr & Hb)%release_run _. unfold cbind, cmap_err. by rewrite Hr. Qed.
Lemma then_release_ends {A} base slot (m : comp (Env J S R W) A LifecycleError) env :
  keeps_slots m -> holding base slot env -> ends base (then_release slot m env).
Proof.
  intros Hm [Hn Hh]. unfold then_release, cbind at 1, ccatch. specialize (Hm env).
  destruct (m env) as [[a|e|] env1]; cbn [snd] in Hm.
  - destruct (release_run base slot env1) as (env' & Hr & Hb); [split; congruence|].
    intros _. unfold cbind, cignore. by rewrite Hr.
  - destruct (release_and_fail_run (A := A) base slot e env1) as (env2 & -> & Hb); [split; congruence|by intros _].
  - by intros [].
Qed.
(** A step that frees the slot when it fails. *)
Lemma bracket_ends {A B E} base slot (m : comp (Env J S R W) A E) (f : E -> LifecycleError)
    (k : A -> comp (Env J S R W) B LifecycleError) env :
  keeps_slots m -> holding base slot env ->
  (forall a env1, holding base slot env1 -> ends base (k a env1)) ->
  ends base ((do! a := ccatch m (fun e => release_and_fail slot (f e)) in k a) env).
Proof.
  intros Hm [Hn Hh] Hk. unfold cbind at 1, ccatch. specialize (Hm env).
  destruct (m env) as [[a|e|] env1]; cbn [snd] in Hm.
  - apply Hk. split; congruence.
  - destruct (release_and_fail_run (A := A) base slot (f e) env1) as (env2 & -> & Hb); [split; congruence|by intros _].
  - by intros [].
Qed.
Lemma acquire_ends {A E} (f : ResourceError -> E) ceiling (k : Z -> comp (Env J S R W) A E) env :
  room (env_slots env) ->
  (forall slot env1, holding (held (env_slots env)) slot env1 -> ends (held (env_slots env)) (k slot env1)) ->
  ends (held (env_slots env)) ((do! slot := cmap_err f (acquire_slot ceiling) in k slot) env).
Proof.
  intros Hroom Hk. unfold cbind, cmap_err, acquire_slot, czoom, cstep.
  destruct (acquire (env_slots env) ceiling) as [[s r]|e|] eqn:Ha; cbn [omap_err].
  - apply Hk. by apply (acquire_law _ ceiling) in Ha.
  - by intros _.
  - by intros [].
Qed.
Lemma ask_ends {A B E} base (f : Env J S R W -> outcome A E) (k : A -> comp (Env J S R W) B E) env :
  held (env_slots env) = base -> (forall a, ends base (k a env)) ->
  ends base ((do! a := cask f in k a) env).
Proof. intros Hb Hk. unfold cbind, cask. destruct (f env); [apply Hk|by intros _|by intros _]. Qed.

Lemma finish_wm_ends base mote motes wr label slot seq env :
  holding base slot env -> ends base (finish_wm mote motes wr label slot seq env).
Proof.
  intros Hh. unfold finish_wm. apply (bracket_ends base slot _ (fun e => e)); [apply keeps_critic|done|].
  intros cs env1 Hh1. apply (bracket_ends base slot _ (fun e => e)); [apply keeps_read|done|].
  intros rr env2 Hh2. by apply release_last_ends.
Qed.
Lemma run_wm_ends broker mote w cap q motes env :
  room (env_slots env) ->
  ends (held (env_slots env)) (run_wm_mote mote w cap q motes (StandardCommitProtocol broker) env).
Proof.
  intros Hroom. unfold run_wm_mote. case_match; [by intros _|]. apply ask_ends; [done|].
  intros [[seq r]|]; [by intros _|]. apply acquire_ends; [done|]. intros slot env1 Hh1.
  apply bracket_ends; [apply keeps_append|done|]. intros _ env2 Hh2.
  apply bracket_ends; [apply keeps_commit|done|]. intros seq env3 Hh3. by apply finish_wm_ends.
Qed.
Lemma ret_after_ends {A B E} base (m : comp (Env J S R W) A E) (f : A -> B) env :
  ends base (m env) -> ends base ((do! a := m in cret (f a)) env).
Proof.
  unfold ends, cbind. destruct (m env) as [[a|e|] env1]; cbn [fst snd]; intros Hm Hp;
    [by apply Hm|by apply Hm|by destruct Hp].
Qed.
Lemma redispatch_ends broker mote w cap q class motes oracle env :
  room (env_slots env) ->
  ends (held (env_slots env))
    (redispatch_wm_mote mote w cap q class motes (StandardCommitProtocol broker) oracle env).
Proof.
  intros Hroom. unfold redispatch_wm_mote. case_match; [by intros _|]. case_match; [by intros _|].
  apply acquire_ends; [done|]. intros slot env1 Hh1. case_match.
  - apply bracket_ends; [apply keeps_readback|done|]. intros found env2 Hh2.
    destruct found as [seq|]; cbn [cbind cret].
    + unfold cbind at 1, cret at 1. by apply ret_after_ends, finish_wm_ends.
    + rewrite cbind_assoc. apply bracket_ends; [apply keeps_commit|done|]. intros seq env3 Hh3.
      unfold cbind at 1, cret at 1. by apply ret_after_ends, finish_wm_ends.
  - apply then_release_ends; [|done]. unfold compensate_or_quarantine. cbn [cp_try_compensate StandardCommitProtocol]. keeps.
Qed.
Lemma verify_ends mote w expected executor env :
  room (env_slots env) ->
  ends (held (env_slots env)) (verify_pure_rerun (J := J) mote w expected executor env).
Proof.
  intros Hroom. unfold verify_pure_rerun. case_match; [by intros _|].
  apply acquire_ends; [done|]. intros slot env1 [Hn Hh].
  unfold cbind at 1, ccatch.
  assert (keeps_slots (cmap_err VerifyExecutorRun (on_outside (J := J) (R := R) (exec_run executor mote w None))))
    as Hk by keeps. specialize (Hk env1).
  destruct (cmap_err VerifyExecutorRun _ env1) as [[res|e|] env2]; cbn [snd] in Hk; [| |by intros []].
  - apply release_last_ends. split; congruence.
  - destruct (release_run (held (env_slots env)) slot env2) as (env' & Hr & Hb); [split; congruence|].
    intros _. unfold cbind, cignore. by rewrite Hr.
Qed.

(** [run_pure_mote] propagates a failed journal write with [?], past the release. *)
Definition journal_write_failed {A} (r : outcome A LifecycleError) : bool :=
  match r with
  | Err (JournalAppend (WriteProposed | WriteCommitted) _) => true
  | _ => false
  end.
Definition ends_pure {A} (base : gset Z) (out : outcome A LifecycleError * Env J S R W) : Prop :=
  out.1 <> Panic ->
  if journal_write_failed out.1
  then exists slot, slot ∉ base /\ held (env_slots out.2) = {[slot]} ∪ base
  else held (env_slots out.2) = base.
Lemma write_ends_pure {A} base slot e step (k : JournalEntry -> comp (Env J S R W) A LifecycleError) env :
  step = WriteProposed \/ step = WriteCommitted -> holding base slot env ->
  (forall x env1, holding base slot env1 -> ends_pure base (k x env1)) ->
  ends_pure base ((do! x := cmap_err (JournalAppend step) (journal_append e) in k x) env).
Proof.
  intros Hstep [Hn Hh] Hk. unfold cbind, cmap_err. pose proof (keeps_append e env) as Hkeep.
  destruct (journal_append e env) as [[x|err|] env1]; cbn [snd omap_err] in *.
  - apply Hk. split; congruence.
  - intros _. destruct Hstep as [-> | ->]; exists slot; split; cbn [snd]; congruence.
  - by intros [].
Qed.
Lemma run_pure_ends mote w executor env :
  room (env_slots env) -> ends_pure (held (env_slots env)) (run_pure_mote mote w executor env).
Proof.
  intros Hroom. unfold run_pure_mote. case_match; [by intros _|].
  unfold cbind at 1, serve_if_committed, cask.
  destruct (read_committed (env_journal env) (mote_id mote)) as [o|e|]; cbn [omap_err obind];
    [|by intros _|by intros []].
  destruct (seq_and_ref o) as [[seq r]|]; [by intros _|].
  unfold cbind at 1, cmap_err at 1, acquire_slot, czoom, cstep.
  destruct (acquire (env_slots env) _) as [[slot rm]|e|] eqn:Ha; cbn [omap_err]; [|by intros _|by intros []].
  apply acquire_law in Ha as [Hn Hh]; [|done].
  unfold cbind at 1, ccatch.
  pose proof (keeps_outside (exec_run executor mote w None) (with_slots rm env)) as Hk.
  destruct (on_outside _ (with_slots rm env)) as [[res|e|] env2]; cbn [snd env_slots with_slots] in Hk.
  - assert (holding (held (env_slots env)) slot env2) as Hhold by (split; congruence).
    apply (write_ends_pure _ slot); [by left|done|]. intros _ env3 Hh3.
    apply (write_ends_pure _ slot); [by right|done|]. intros x env4 Hh4.
    apply release_run in Hh4 as (env5 & Hr & Hb). intros _. unfold cbind, cmap_err. by rewrite Hr.
  - destruct (release_and_fail_run (A := MoteExecutionResult) (held (env_slots env)) slot (ExecutorRun e) env2)
      as (env3 & -> & Hb); [split; congruence|by intros _].
  - by intros [].
Qed.

(** Slots are returned: with any journal, store, broker and executor,
    running an effectful Mote, recovering one and verifying a pure one each end
    with the slots they started with, whatever fails in between. Running a pure
    Mote does too, except that when the journal refuses its Proposed or
    Committed entry exactly the one slot it took stays taken. *)
Theorem slots_are_returned broker executor mote w cap q class motes oracle expected env :
  room (env_slots env) ->
  ends (held (env_slots env)) (run_wm_mote mote w cap q motes (StandardCommitProtocol broker) env)
  /\ ends (held (env_slots env))
       (redispatch_wm_mote mote w cap q class motes (StandardCommitProtocol broker) oracle env)
  /\ ends (held (env_slots env)) (verify_pure_rerun mote w expected executor env)
  /\ ends_pure (held (env_slots env)) (run_pure_mote mote w executor env).
Proof.
  intros Hroom. split_and!;
    [by apply run_wm_ends|by apply redispatch_ends|by apply verify_ends|by apply run_pure_ends].
Qed.
End Accounting.

(** ** A journal that refuses every write *)
Inductive FullJournal := Full.
#[export] Instance FullJournal_journal : Journal FullJournal := {|
  append := fun _ _ => Err JournalError.Sqlite; append_batch := fun _ _ => Err JournalError.Sqlite;
  read_committed := fun _ _ => Ok None; read_entries_by_seq := fun _ _ _ => Ok [];
  list_committed_refs := fun _ => Ok []; list_committed_by_mote_def_hash := fun _ _ => Ok [];
  current_seq := fun _ => Ok 0; count_entries := fun _ => Ok 0 |}.
Definition demo_executor {S W} : MoteExecutor S W := {|
  exec_run := fun m _ _ => cret {| exec_result_ref := mote_id m; started_at_epoch_ms := 0;
                                   finished_at_epoch_ms := 0 |};
  supports := fun _ => true |}.
#[local] Existing Instance demo_blake3.
#[local] Existing Instance demo_bincode.
Definition demo_pure_mote : Mote := {|
  mote_id := replicate 32 5;
  def := {| logic_ref := [1]; model_id := []; prompt_template_hash := []; tool_contract := ∅;
            nd_class := Pure; config_subset := ∅; effect_pattern := IdempotentByConstruction;
            critic_for := None; is_topology_shaper := false;
            inference_params := InferenceParams_default; critic_check := None; schema_version := 4 |};
  input_data_id := []; graph_position := []; Mote.parents := [] |}.
Definition full_env : Env FullJournal InMemoryContentStore LocalResourceManager (list bytes) :=
  {| env_journal := Full; env_store := InMemoryContentStore_new; env_slots := dev_defaults; env_world := [] |}.
Lemma slots_are_returned_witness :
  held (env_slots (run_pure_mote demo_pure_mote WarrantSpec.default demo_executor full_env).2) <> ∅
  /\ held (env_slots (run_wm_mote (demo_effect_mote StageThenCommit) demo_grant (str "echo") demo_request ∅
                        (StandardCommitProtocol (LocalCapabilityBroker demo_caps)) full_env).2) = ∅.
Proof.
  destruct (slots_are_returned (LocalCapabilityBroker demo_caps) demo_executor (demo_effect_mote StageThenCommit)
    demo_grant (str "echo") demo_request None ∅ (fun _ => false) [] full_env) as (Hw & _).
  { split; [|done]. set_solver. }
  destruct (slots_are_returned (LocalCapabilityBroker demo_caps) demo_executor demo_pure_mote
    WarrantSpec.default (str "echo") demo_request None ∅ (fun _ => false) [] full_env) as (_ & _ & _ & Hp).
  { split; [|done]. set_solver. }
  split.
  - destruct Hp as (slot & _ & ->); [done|]. set_solver.
  - by apply Hw.
Defined.
