(* ===== verification/ExactlyOnce.v ===== *)
(** A Mote's effect happens once: the composition of kx-executor's lifecycle and
    commit protocol with the journal, the content store, the broker and the
    projection that decides recovery. *)
From S2P Require Import Prelude Effects Utf8 CriticTypes Mote Entry Journal Warrant Content DemoCodec ProjState ProjIndex ProjFold ProjHistory Refusal Broker CommitProtocol Lifecycle Slots.
Import JournalEntry LifecycleError.

(** ** Reading commits from a log *)
Lemma find_entry_app_some p l k x : find_entry p l = Some x -> find_entry p (l ++ k) = Some x.
Proof. induction l as [|y l IH]; cbn; [done|]. by destruct (p y). Qed.
Lemma find_entry_app_none p l k : find_entry p l = None -> find_entry p (l ++ k) = find_entry p k.
Proof. induction l as [|y l IH]; cbn; [done|]. by destruct (p y). Qed.

(** The executor keys a commit by its Mote. *)
Definition keyed (l : list JournalEntry) : Prop :=
  forall id e, e ∈ l -> is_committed_of id e = true -> entry_idempotency_key e = id.
Lemma is_committed_of_kind id e : is_committed_of id e = true -> entry_kind e = KIND_COMMITTED.
Proof. by destruct e. Qed.
Lemma is_committed_of_set_seq id e n : is_committed_of id (set_seq e n) = is_committed_of id e.
Proof. by destruct e. Qed.
Lemma keyed_app l k : keyed (l ++ k) -> keyed l.
Proof. intros Hk id e He. apply Hk. set_solver. Qed.
Lemma keyed_one_key l : keyed l -> one_key_per_mote l.
Proof. intros Hk d a b Ha Hb Hda Hdb. by rewrite (Hk d a), (Hk d b). Qed.
Lemma keyed_unique l id x y :
  log_wf l -> keyed l -> x ∈ l -> y ∈ l -> is_committed_of id x = true -> is_committed_of id y = true -> x = y.
Proof.
  intros [_ Hu] Hk Hx Hy Hcx Hcy. pose proof Hx as [i Hi]%list_elem_of_lookup_1.
  pose proof Hy as [j Hj]%list_elem_of_lookup_1.
  assert (i = j) as ->; [|congruence].
  eapply (Hu i j x y); [done|done| | |].
  - by rewrite (is_committed_of_kind id).
  - by rewrite !(is_committed_of_kind id).
  - by rewrite (Hk id x), (Hk id y).
Qed.

Section Log.
Context `{Blake3}.
Lemma derive_key_committed id e : is_committed_of id e = true -> derive_key e = e.
Proof. by destruct e. Qed.
Lemma log_append_keyed l e :
  keyed l -> (forall id, is_committed_of id e = true -> entry_idempotency_key e = id) ->
  keyed (log_append l e).2.
Proof.
  intros Hk He id x. unfold log_append. case_match; cbn [snd]; [by apply Hk|].
  intros [Hx|Hx%list_elem_of_singleton]%elem_of_app; [by apply Hk|]. subst x.
  rewrite is_committed_of_set_seq, set_seq_key. intros Hid.
  assert (is_committed_of id e = true) as Hide by (by destruct e).
  rewrite (derive_key_committed id) by done. by apply He.
Qed.
(** Appending a commit makes it the one that is read. *)
Lemma log_append_found l id e :
  log_wf l -> keyed l -> is_committed_of id e = true -> entry_idempotency_key e = id ->
  find_entry (is_committed_of id) (log_append l e).2 = Some (log_append l e).1.
Proof.
  intros Hwf Hk Hc Hkey. unfold log_append. rewrite (derive_key_committed id e Hc).
  destruct (existing_fact l e) as [x|] eqn:Hx; cbn [fst snd].
  - apply existing_fact_some in Hx as (Hin & _ & Hkind & Hkeys).
    assert (is_committed_of id x = true) as Hcx.
    { rewrite (is_committed_of_kind id e Hc) in Hkind. destruct x; try done.
      specialize (Hk mote_id _ Hin). cbn in *. apply bool_decide_eq_true.
      rewrite <- Hk by (by apply bool_decide_eq_true). congruence. }
    destruct (find_entry (is_committed_of id) l) as [y|] eqn:Hy.
    + apply find_entry_some in Hy as [Hyin Hyc]. by rewrite (keyed_unique l id x y).
    + eapply find_entry_none in Hy; [|done]. congruence.
  - rewrite find_entry_app_none; [cbn; by rewrite is_committed_of_set_seq, Hc|].
    destruct (find_entry (is_committed_of id) l) as [y|] eqn:Hy; [|done]. exfalso.
    apply find_entry_some in Hy as [Hyin Hyc].
    eapply existing_fact_none in Hx; [..|by apply Hyin|].
    + by rewrite (Hk id y) in Hx by done.
    + by rewrite (is_committed_of_kind id e Hc).
    + by rewrite !(is_committed_of_kind id).
Qed.
Lemma log_append_prefix l e : l `prefix_of` (log_append l e).2.
Proof. unfold log_append. case_match; cbn [snd]; [done|by apply prefix_app_r]. Qed.
Lemma log_append_in l e : (log_append l e).1 ∈ (log_append l e).2.
Proof.
  unfold log_append. destruct (existing_fact l (derive_key e)) as [x|] eqn:Hx; cbn [fst snd]; [|set_solver].
  by apply existing_fact_some in Hx as [Hx _].
Qed.
Lemma read_committed_run `{!Journal J} `{!JournalLaws J} (j : J) l id :
  represents j l -> keyed l -> read_committed j id = Ok (find_entry (is_committed_of id) l).
Proof.
  intros Hr Hk. apply read_committed_law; [done|]. intros x y Hx Hy Hcx Hcy.
  by eapply (keyed_unique l id); [eapply represents_wf|..].
Qed.
Lemma seq_and_ref_committed id e :
  is_committed_of id e = true -> exists r, committed_ref e = Some r /\ seq_and_ref (Some e) = Some (entry_seq e, r).
Proof. destruct e; try done. cbn. eauto. Qed.
End Log.

Section Once.
Context `{Blake3} `{!Bincode MoteDef} `{!Bincode WarrantSpec}.
Context {J S R W : Type} `{!Journal J} `{!JournalLaws J} `{!ContentStore S}.
Context `{!ResourceManager R} `{!ResourceManagerLaws R}.
Implicit Types (env : Env J S R W) (l : list JournalEntry) (broker : CapabilityBroker S W).

(** What a commit record says of entry [x]. *)
Definition records (id : MoteId) (x : JournalEntry) (c : LifecycleCommit) : Prop :=
  is_committed_of id x = true /\ c.(committed_seq) = entry_seq x
  /\ committed_ref x = Some c.(commit_result_ref) /\ c.(commit_mote_id) = id.
(** The entries a run of [mote] may write are ones the journal takes. *)
Record entries_taken (mote : Mote) (w : WarrantSpec) (motes : gmap bytes Mote) : Prop := {
  et_input : forall cap q ctx class,
    entries_accepted (J := J) (lifecycle_input mote w cap q ctx class);
  et_proposed : accepts (wm_proposed mote (warrant_ref_of w));
  et_quarantined : accepts (quarantined_entry mote mote.(mote_id));
  et_critic : forall c, In c (btree_values motes) ->
    accepts (Proposed c.(mote_id) c.(mote_id) 0 c.(def).(nd_class) 0 (warrant_ref_of w))
}.

(** ** A committed Mote is served *)
Lemma served_run mote w cap q motes protocol env l x :
  represents env.(env_journal) l -> keyed l -> nd_class (def mote) <> Pure ->
  find_entry (is_committed_of mote.(mote_id)) l = Some x ->
  exists c, records mote.(mote_id) x c
    /\ run_wm_mote mote w cap q motes protocol env
       = (Ok {| wm_commit := c; critic_proposed_seq := None |}, env).
Proof.
  intros Hr Hk Hnd Hf. pose proof Hf as [_ Hc]%find_entry_some.
  destruct (seq_and_ref_committed _ _ Hc) as (r & Hcr & Hsr).
  unfold run_wm_mote. rewrite bool_decide_false by done.
  unfold cbind at 1, serve_if_committed, cask. rewrite (read_committed_run _ l) by done.
  cbn [omap_err obind]. rewrite Hf, Hsr. eexists. split; [|reflexivity]. by split_and!.
Qed.
Lemma not_served mote env l :
  represents env.(env_journal) l -> keyed l ->
  find_entry (is_committed_of mote.(mote_id)) l = None ->
  serve_if_committed mote.(mote_id) env = (Ok None, env).
Proof.
  intros Hr Hk Hf. unfold serve_if_committed, cask. rewrite (read_committed_run _ l) by done.
  cbn [omap_err obind]. by rewrite Hf.
Qed.

Lemma no_slot_run mote w cap q motes protocol env l e :
  represents env.(env_journal) l -> keyed l -> nd_class (def mote) <> Pure ->
  find_entry (is_committed_of mote.(mote_id)) l = None ->
  acquire (env_slots env) w.(WarrantSpec.resource_ceiling) = Err e ->
  run_wm_mote mote w cap q motes protocol env = (Err (ResourceAcquire e), env).
Proof.
  intros Hr Hk Hnd Hf Hacq. unfold run_wm_mote. rewrite bool_decide_false by done.
  unfold cbind at 1. rewrite (not_served mote env l) by done.
  unfold cbind at 1, cmap_err at 1, acquire_slot, czoom, cstep. rewrite Hacq. by destruct env.
Qed.

(** ** The end of a run: the commit stands, whatever is scheduled after it *)
Lemma critic_run mote w motes label env l :
  entries_taken mote w motes -> represents env.(env_journal) l -> keyed l ->
  Z.of_nat (length l) + 1 < MAX_LOG ->
  exists cs j l', schedule_sibling_critic mote motes (warrant_ref_of w) label env = (Ok cs, with_journal j env)
    /\ represents j l' /\ l `prefix_of` l' /\ keyed l'.
Proof.
  intros Ht Hr Hk Hl. unfold schedule_sibling_critic.
  assert (env = with_journal env.(env_journal) env) as Hself by (by destruct env).
  case_match; [exists None, env.(env_journal), l; unfold cret; by rewrite <- Hself|].
  destruct (List.find _ _) as [c|] eqn:Hc;
    [|exists None, env.(env_journal), l; unfold cret; by rewrite <- Hself].
  apply List.find_some in Hc as [Hc _].
  destruct (journal_append_run _ env l Hr (et_critic _ _ _ Ht c Hc) Hl) as (j & Hj & Hr').
  unfold cbind, cmap_err. rewrite Hj. eexists _, j, _. split_and!; [done|done|apply log_append_prefix|].
  by apply log_append_keyed.
Qed.
Lemma finish_run mote w motes label slot base env l x :
  entries_taken mote w motes -> represents env.(env_journal) l -> keyed l ->
  Z.of_nat (length l) + 1 < MAX_LOG -> holding base slot env ->
  find_entry (is_committed_of mote.(mote_id)) l = Some x ->
  exists c env' l', finish_wm mote motes (warrant_ref_of w) label slot (entry_seq x) env = (Ok c, env')
    /\ records mote.(mote_id) x c.(wm_commit) /\ outside env' = outside env
    /\ represents env'.(env_journal) l' /\ l `prefix_of` l' /\ keyed l'.
Proof.
  intros Ht Hr Hk Hl Hh Hf. pose proof Hf as [_ Hc]%find_entry_some.
  destruct (seq_and_ref_committed _ _ Hc) as (r & Hcr & _).
  destruct (critic_run mote w motes label env l) as (cs & j & l' & Hs & Hr' & Hp & Hk'); [done..|].
  assert (holding base slot (with_journal j env)) as (rm & Hrel & _)%release_run by exact Hh.
  unfold finish_wm, cbind at 1, ccatch at 1. rewrite Hs.
  unfold cbind at 1, ccatch at 1, read_committed_result_ref, cask. cbn [env_journal with_journal].
  rewrite (read_committed_run j l') by done. cbn [omap_err obind].
  destruct Hp as [k ->]. rewrite (find_entry_app_some _ _ _ _ Hf), Hcr. cbn [ok_or].
  unfold cbind, cmap_err. rewrite Hrel. cbn [omap_err].
  eexists _, _, _. split_and!; [done|done..|by apply prefix_app_r|done].
Qed.

(** ** A run of an effectful Mote that is not committed *)
Lemma log_append_fresh l id e :
  keyed l -> is_committed_of id e = true -> entry_idempotency_key e = id ->
  find_entry (is_committed_of id) l = None ->
  log_append l e = (set_seq e (Z.of_nat (length l) + 1), l ++ [set_seq e (Z.of_nat (length l) + 1)]).
Proof.
  intros Hk Hc Hkey Hf. unfold log_append. rewrite (derive_key_committed id e Hc).
  destruct (existing_fact l e) as [x|] eqn:Hx; [exfalso|done].
  apply existing_fact_some in Hx as (Hin & _ & Hkind & Hkeys).
  eapply find_entry_none in Hf; [|exact Hin]. rewrite (is_committed_of_kind id e Hc) in Hkind.
  destruct x; try done. specialize (Hk mote_id _ Hin). cbn in *.
  apply bool_decide_eq_false in Hf. apply Hf. rewrite <- Hk by (by apply bool_decide_eq_true). congruence.
Qed.
Lemma find_intent input l id :
  find_entry (is_committed_of id) l = None ->
  find_entry (is_committed_of id) (intent_log input l) = None.
Proof.
  intros Hf. unfold intent_log. case_match; [done| |done]. unfold log_append.
  case_match; cbn [snd]; [done|]. by rewrite find_entry_app_none.
Qed.
Lemma intent_keyed input l : keyed l -> keyed (intent_log input l).
Proof. intros Hk. unfold intent_log. case_match; [done| |done]. by apply log_append_keyed. Qed.
Lemma intent_prefix input l : l `prefix_of` intent_log input l.
Proof. unfold intent_log. case_match; [done|apply log_append_prefix|done]. Qed.

Definition wm_input (mote : Mote) (w : WarrantSpec) (cap : bytes) (q : EffectRequest) : CommitInput :=
  lifecycle_input mote w cap q (str "lifecycle::run_wm_mote") None.
(** A fresh commit holds the reference the effect returned. *)
Lemma commit_result_ok input l d s seq :
  log_wf l -> keyed l -> input.(CommitInput.idempotency_key) = input.(CommitInput.mote).(mote_id) ->
  find_entry (is_committed_of input.(CommitInput.mote).(mote_id)) l = None ->
  (commit_result input l d s).1 = Ok seq ->
  exists h x, d = Ok h /\ readable s h.(BrokerHandle.staged_ref) = true /\ seq = entry_seq x
    /\ committed_ref x = Some h.(BrokerHandle.staged_ref)
    /\ find_entry (is_committed_of input.(CommitInput.mote).(mote_id)) (commit_result input l d s).2 = Some x
    /\ keyed (commit_result input l d s).2.
Proof.
  intros Hwf Hk Hkey Hf. unfold commit_result. destruct d as [h|e|]; [|done..].
  set (r := BrokerHandle.staged_ref h). destruct (readable s r) eqn:Hread; [|done]. cbn [fst snd].
  intros [= <-]. set (id := mote_id _) in *.
  assert (is_committed_of id (committed_entry input r) = true) as Hc by (by apply bool_decide_eq_true).
  exists h, (log_append l (committed_entry input r)).1. split_and!; [done..| | |].
  - by rewrite (log_append_fresh l id).
  - by apply log_append_found.
  - apply log_append_keyed; [done|]. intros id'. cbn. rewrite bool_decide_eq_true. unfold id in *. congruence.
Qed.

(** What is known after the protocol was asked to commit: the effect's outcome
    decides the result, and the log extends the one the protocol left. *)
Definition after_commit (mote : Mote) (out : outcome Z CommitProtocolError * list JournalEntry)
    (res : outcome WmLifecycleCommit LifecycleError) l' : Prop :=
  out.2 `prefix_of` l' /\
  match out.1 with
  | Ok seq => exists c x, res = Ok c /\ find_entry (is_committed_of mote.(mote_id)) out.2 = Some x
                /\ records mote.(mote_id) x c.(wm_commit) /\ keyed l'
  | Err e => res = Err (LifecycleError.CommitProtocol e) /\ l' = out.2
  | Panic => res = Panic /\ l' = out.2
  end.
Lemma wm_run broker mote w cap q motes env l slot rm :
  typed_broker broker -> entries_taken mote w motes ->
  represents env.(env_journal) l -> keyed l -> Z.of_nat (length l) + 4 < MAX_LOG ->
  nd_class (def mote) <> Pure -> room (env_slots env) ->
  acquire (env_slots env) w.(WarrantSpec.resource_ceiling) = Ok (slot, rm) ->
  find_entry (is_committed_of mote.(mote_id)) l = None ->
  let l1 := (log_append l (wm_proposed mote (warrant_ref_of w))).2 in
  let d := dispatch broker mote w cap q (outside env) in
  let out := commit_result (wm_input mote w cap q) (intent_log (wm_input mote w cap q) l1) d.1 d.2.1 in
  exists res env' l',
    run_wm_mote mote w cap q motes (StandardCommitProtocol broker) env = (res, env')
    /\ outside env' = d.2 /\ represents env'.(env_journal) l' /\ after_commit mote out res l'.
Proof.
  intros Htb Ht Hr Hk Hl Hnd Hroom Hacq Hf. cbn zeta. set (input := wm_input mote w cap q).
  set (e := wm_proposed mote (warrant_ref_of w)). set (l1 := (log_append l e).2).
  assert (length l <= length l1 <= length l + 1)%nat as Hl1 by apply log_append_length.
  pose proof (acquire_law _ _ _ _ Hroom Hacq) as [Hn Hheld].
  assert (keyed l1) as Hk1 by (by apply log_append_keyed).
  assert (find_entry (is_committed_of mote.(mote_id)) l1 = None) as Hf1.
  { unfold l1, log_append. case_match; cbn [snd]; [done|]. by rewrite find_entry_app_none. }
  unfold run_wm_mote. rewrite bool_decide_false by done.
  unfold cbind at 1. rewrite (not_served mote env l) by done.
  unfold cbind at 1, cmap_err at 1, acquire_slot, czoom, cstep. rewrite Hacq. cbn [omap_err].
  destruct (journal_append_run e (with_slots rm env) l) as (j1 & Hj1 & Hr1); [done|apply Ht|lia|].
  unfold cbind at 1, ccatch at 1. fold e. rewrite Hj1. cbn [cp_commit StandardCommitProtocol].
  destruct (commit_run broker input (with_journal j1 (with_slots rm env)) l1) as (j2 & Hj2 & Hr2);
    [done|apply Ht|done|lia|].
  assert (log_wf (intent_log input l1)) as Hwf.
  { unfold intent_log. pose proof (represents_wf j1 l1 Hr1). case_match; [done|by apply log_append_wf|done]. }
  change (lifecycle_input _ _ _ _ _ None) with input. unfold cbind at 1, ccatch at 1. rewrite Hj2.
  change (outside (with_journal j1 (with_slots rm env))) with (outside env) in *.
  change (CommitInput.mote input) with mote in *. change (CommitInput.warrant input) with w in *.
  change (CommitInput.capability input) with cap in *. change (CommitInput.effect_request input) with q in *.
  set (d := dispatch broker mote w cap q (outside env)) in *.
  set (out := commit_result input (intent_log input l1) d.1 d.2.1) in *.
  destruct (out.1) as [seq|err|] eqn:Hout.
  - destruct (commit_result_ok input (intent_log input l1) d.1 d.2.1 seq) as (h & x & Hd & Hread & -> & Hcr & Hfx & Hkx);
      [done|by apply intent_keyed|done|by apply find_intent|done|]. fold out in Hfx, Hkx.
    pose proof (commit_result_grows input (intent_log input l1) d.1 d.2.1) as Hg1.
    pose proof (intent_log_grows input l1) as Hg2. fold out in Hg1.
    destruct (finish_run mote w motes [] slot (held (env_slots env))
      (with_journal j2 (with_outside d.2 (with_journal j1 (with_slots rm env)))) out.2 x)
      as (c & env' & l' & Hfin & Hrec & Ho & Hr' & Hp & Hk'); [done|done|done|lia|by split|done|].
    exists (Ok c), env', l'. split_and!; [exact Hfin| |done|].
    + rewrite Ho. by destruct d as [? []].
    + split; [done|]. rewrite Hout. exists c, x. by split_and!.
  - destruct (release_and_fail_run (A := Z) (held (env_slots env)) slot (LifecycleError.CommitProtocol err)
      (with_journal j2 (with_outside d.2 (with_journal j1 (with_slots rm env))))) as (rm' & Hrel & _); [by split|].
    rewrite Hrel. eexists _, _, out.2. split_and!; [done| |done|].
    + by destruct d as [? []].
    + split; [done|]. by rewrite Hout.
  - eexists _, _, out.2. split_and!; [done| |done|].
    + by destruct d as [? []].
    + split; [done|]. by rewrite Hout.
Qed.

(** ** What the projection of a log lets recovery do *)
Section Oracle.
Context (materializer : option Materializer).
Abbreviation folded l s := (fold_entries materializer l State_default = (s, Ok tt)).

Lemma committed_refused l s id x :
  folded l s -> find_entry (is_committed_of id) l = Some x -> projection_oracle s id = false.
Proof.
  intros [_ Hc _ _]%(history_facts_of materializer l s id) [Hin Hx]%find_entry_some.
  apply not_true_is_false. intros (_ & _ & Hn & _)%can_redispatch_mote_info. cbn in Hn.
  assert (is_Some (committed (mote_info s id))) as [? Hs]; [|congruence].
  apply Hc, existsb_exists. exists x. by rewrite <- list_elem_of_In.
Qed.
Lemma terminal_refused l s id :
  folded l s -> existsb (is_terminal_entry id) l = true -> projection_oracle s id = false.
Proof.
  intros [_ _ Ht _]%(history_facts_of materializer l s id) Hx.
  apply not_true_is_false. intros (_ & Hn & Hc & _)%can_redispatch_mote_info. cbn in Hn, Hc.
  rewrite Ht in Hn by done. congruence.
Qed.
Lemma staged_allowed l s id :
  folded l s -> existsb (is_staged_entry id) l = true -> existsb (is_committed_entry id) l = false ->
  existsb (is_terminal_entry id) l = false -> existsb (is_repudiated_entry id) l = false ->
  projection_oracle s id = true.
Proof.
  intros [Hs Hc Ht Hi]%(history_facts_of materializer l s id) Es Ec Et Er.
  apply can_redispatch_mote_info. cbn.
  assert (committed (mote_info s id) = None) as Hn.
  { destruct (committed (mote_info s id)); [|done]. assert (existsb (is_committed_entry id) l = true); [|congruence].
    apply Hc. eauto. }
  rewrite Ht, Hs by done. split_and!; try done. apply not_true_is_false.
  intros (l1 & e & l2 & -> & Hr & _)%Hi; [|done]. rewrite existsb_app in Er. cbn in Er.
  rewrite Hr in Er. by rewrite orb_true_r in Er.
Qed.
Lemma redispatch_refused mote w cap q class motes protocol (oracle : MoteId -> bool) env :
  nd_class (def mote) <> Pure -> oracle mote.(mote_id) = false ->
  redispatch_wm_mote mote w cap q class motes protocol oracle env
  = (Err (LifecycleError.CommitProtocol
            (CommitProtocolError.R13WmReDispatchRefused mote.(mote_id) R13_REASON)), env).
Proof. intros Hnd Ho. unfold redispatch_wm_mote. by rewrite bool_decide_false, Ho by done. Qed.

(** From log [l] on, whatever is appended: running the Mote again returns [c]
    and recovering it is refused, both without changing anything. *)
Definition settled (mote : Mote) (c : LifecycleCommit) l : Prop :=
  forall env2 l2 s w cap q class motes protocol,
    represents env2.(env_journal) (l ++ l2) -> keyed (l ++ l2) -> folded (l ++ l2) s ->
    run_wm_mote mote w cap q motes protocol env2
      = (Ok {| wm_commit := c; critic_proposed_seq := None |}, env2)
    /\ redispatch_wm_mote mote w cap q class motes protocol (projection_oracle s) env2
      = (Err (LifecycleError.CommitProtocol
           (CommitProtocolError.R13WmReDispatchRefused mote.(mote_id) R13_REASON)), env2).
Lemma records_inj id x c c' : records id x c -> records id x c' -> c = c'.
Proof. intros (_ & ? & ? & ?) (_ & ? & ? & ?). destruct c, c'; cbn in *. by simplify_eq. Qed.
Lemma found_settled mote c l x :
  nd_class (def mote) <> Pure -> find_entry (is_committed_of mote.(mote_id)) l = Some x ->
  records mote.(mote_id) x c -> settled mote c l.
Proof.
  intros Hnd Hx Hrec env2 l2 s w cap q class motes protocol Hr2 Hk2 Hs.
  apply (find_entry_app_some _ _ l2) in Hx. split.
  - destruct (served_run mote w cap q motes protocol env2 (l ++ l2) x) as (c' & Hrec' & ->); [done..|].
    by rewrite (records_inj _ _ _ _ Hrec Hrec').
  - apply redispatch_refused; [done|]. by eapply committed_refused.
Qed.
Lemma commit_result_prefix input l d st : l `prefix_of` (commit_result (S := S) input l d st).2.
Proof. unfold commit_result. repeat case_match; cbn [snd]; try done. apply log_append_prefix. Qed.
Lemma proposed_fresh mote wr l :
  find_entry (is_committed_of mote.(mote_id)) l = None ->
  find_entry (is_committed_of mote.(mote_id)) (log_append l (wm_proposed mote wr)).2 = None.
Proof. intros Hf. unfold log_append. case_match; cbn [snd]; [done|]. by rewrite find_entry_app_none. Qed.
Lemma intent_wf input l : log_wf l -> log_wf (intent_log input l).
Proof. intros Hl. unfold intent_log. case_match; [done|by apply log_append_wf|done]. Qed.

(** [C10] Exactly once: a successful run of an effectful Mote either found it
    committed and changed nothing, or dispatched the effect exactly once, and
    then its result is readable from the store; from then on, whatever is
    appended to the journal, running the Mote again returns the same commit and
    recovering it is refused, and neither touches the journal, the store, the
    slots or the world. *)
Theorem effect_fires_once broker mote w cap q motes env l c env1 :
  typed_broker broker -> entries_taken mote w motes ->
  represents env.(env_journal) l -> keyed l -> Z.of_nat (length l) + 4 < MAX_LOG ->
  nd_class (def mote) <> Pure -> room (env_slots env) ->
  run_wm_mote mote w cap q motes (StandardCommitProtocol broker) env = (Ok c, env1) ->
  let d := dispatch broker mote w cap q (outside env) in
  (env1 = env \/
   outside env1 = d.2
   /\ readable env1.(env_store) c.(wm_commit).(commit_result_ref) = true
   /\ exists h, d.1 = Ok h /\ c.(wm_commit).(commit_result_ref) = h.(BrokerHandle.staged_ref))
  /\ exists l1, represents env1.(env_journal) l1 /\ l `prefix_of` l1 /\ settled mote c.(wm_commit) l1.
Proof.
  intros Htb Ht Hr Hk Hl Hnd Hroom Hrun. cbn zeta.
  destruct (find_entry (is_committed_of mote.(mote_id)) l) as [x|] eqn:Hf.
  - destruct (served_run mote w cap q motes (StandardCommitProtocol broker) env l x) as (c' & Hrec & Hrun');
      [done..|]. rewrite Hrun' in Hrun. injection Hrun as <- <-. split; [by left|].
    exists l. split_and!; [done|done|]. by apply (found_settled mote c' l x).
  - destruct (acquire (env_slots env) w.(WarrantSpec.resource_ceiling)) as [[slot rm]|e|] eqn:Hacq;
      [|by rewrite (no_slot_run _ _ _ _ _ _ _ l e) in Hrun|by apply acquire_no_panic in Hacq].
    destruct (wm_run broker mote w cap q motes env l slot rm) as (res & env' & l' & Hrun' & Ho & Hr' & Hp & Hres);
      [done..|]. rewrite Hrun' in Hrun. injection Hrun as -> ->.
    set (l0 := (log_append l _).2) in *. set (input := wm_input mote w cap q) in *.
    set (d := dispatch broker mote w cap q (outside env)) in *.
    destruct (commit_result input (intent_log input l0) d.1 d.2.1).1 as [seq|err|] eqn:Hout;
      [|by destruct Hres..].
    destruct Hres as (c' & x & [= <-] & Hfx & Hrec & Hk').
    destruct (commit_result_ok input (intent_log input l0) d.1 d.2.1 seq) as (h & x' & Hd & Hread & _ & Hcr & Hfx' & _);
      [eapply intent_wf, log_append_wf, represents_wf, Hr|by apply intent_keyed, log_append_keyed|done
      |by apply find_intent, proposed_fresh|done|].
    change (CommitInput.mote input) with mote in Hfx'. assert (x' = x) as -> by congruence.
    assert (c.(wm_commit).(commit_result_ref) = BrokerHandle.staged_ref h) as Hcref
      by (destruct Hrec as (_ & _ & Hrec & _); congruence).
    split.
    + right. split_and!; [done| |eauto]. rewrite Hcref. change (env_store env1) with (outside env1).1. by rewrite Ho.
    + exists l'. split_and!; [done| |].
      * etrans; [apply (log_append_prefix l (wm_proposed mote (warrant_ref_of w)))|].
        etrans; [apply (intent_prefix input)|]. etrans; [apply commit_result_prefix|exact Hp].
      * destruct Hp as [k ->]. apply (found_settled _ _ _ x); [done| |done]. by apply find_entry_app_some.
Qed.

(** ** Recovery *)
Lemma existsb_prefix (p : JournalEntry -> bool) l l' : l `prefix_of` l' -> existsb p l = true -> existsb p l' = true.
Proof. intros [k ->] Hp. by rewrite existsb_app, Hp. Qed.
Lemma terminal_appended l id key reason rep det :
  is_pre_commit_crash reason = false ->
  existsb (is_terminal_entry id) (log_append l (Failed id key 0 reason rep det)).2 = true.
Proof.
  intros Hr. unfold log_append. cbn. rewrite existsb_app. cbn. rewrite Hr, bool_decide_true by done.
  by rewrite orb_true_r.
Qed.
Lemma compensate_or_quarantine_run broker mote w cap q motes ctx class env l :
  typed_broker broker -> entries_taken mote w motes ->
  represents env.(env_journal) l -> Z.of_nat (length l) + 1 < MAX_LOG ->
  let input := lifecycle_input mote w cap q ctx class in
  let c := compensate broker mote w cap q (outside env) in
  exists res env' l',
    compensate_or_quarantine mote mote.(mote_id) (StandardCommitProtocol broker) input env = (res, env')
    /\ outside env' = c.2 /\ env_slots env' = env_slots env /\ represents env'.(env_journal) l'
    /\ l `prefix_of` l'
    /\ match res with
       | Ok (WmRecoveryOutcome.TerminallyFailed id _ _) =>
           id = mote.(mote_id) /\ existsb (is_terminal_entry id) l' = true
       | Ok (WmRecoveryOutcome.Committed _ _) => False
       | _ => l' = l
       end.
Proof.
  intros Htb Ht Hr Hl. cbn zeta. set (input := lifecycle_input mote w cap q ctx class).
  destruct (compensate_run broker input env l) as (j & Hj & Hr'); [done|apply Ht|done|done|].
  unfold compensate_or_quarantine, cbind at 1, cmap_err at 1. cbn [cp_try_compensate StandardCommitProtocol].
  rewrite Hj. change (CommitInput.mote input) with mote in *. change (CommitInput.warrant input) with w in *.
  change (CommitInput.capability input) with cap in *. change (CommitInput.effect_request input) with q in *.
  set (c := compensate broker mote w cap q (outside env)) in *. unfold compensate_result in *.
  assert (Ho : outside (with_journal j (with_outside c.2 env)) = c.2) by (by destruct c as [? []]).
  destruct c.1 as [[h|]|e|]; cbn [omap_err fst snd] in *.
  - case_match; cbn [omap_err fst snd] in *; eexists _, _, _; split_and!; try done.
    + apply log_append_prefix.
    + split; [done|by apply terminal_appended].
  - destruct (journal_append_run (quarantined_entry mote mote.(mote_id)) (with_journal j (with_outside c.2 env)) l)
      as (j' & Hj' & Hr''); [done|apply Ht|done|].
    unfold cbind, cmap_err. rewrite Hj'. cbn [omap_err]. eexists _, _, _. split_and!; try done.
    + apply log_append_prefix.
    + split; [done|by apply terminal_appended].
  - eexists _, _, _. by split_and!.
  - eexists _, _, _. by split_and!.
Qed.

(** Intents are keyed by their Mote too. *)
Definition intents_keyed l : Prop :=
  forall id e, e ∈ l -> is_staged_entry id e = true -> entry_idempotency_key e = id.
Lemma intent_staged mote w cap q l :
  effect_pattern (def mote) = StageThenCommit -> intents_keyed l ->
  existsb (is_staged_entry mote.(mote_id)) (intent_log (wm_input mote w cap q) l) = true.
Proof.
  intros Hp Hk. unfold intent_log. cbn [CommitInput.mote wm_input lifecycle_input]. rewrite Hp.
  set (e := staged_entry _). apply existsb_exists. exists (log_append l e).1.
  split; [apply list_elem_of_In, log_append_in|]. unfold log_append. cbn [derive_key e staged_entry].
  destruct (existing_fact l _) as [x|] eqn:Hx; cbn [fst]; [|by apply bool_decide_eq_true].
  apply existing_fact_some in Hx as (Hin & _ & Hkind & Hkey). destruct x; try done.
  apply bool_decide_eq_true. cbn in *. rewrite <- Hkey. symmetry.
  apply (Hk mote_id _ Hin). by apply bool_decide_eq_true.
Qed.
Lemma nothing_settled mote w cap q l (p : JournalEntry -> bool) :
  (forall a b c d, p (Proposed a b c d 0 (warrant_ref_of w)) = false) -> (forall a b c, p (EffectStaged a b c) = false) ->
  existsb p l = false ->
  existsb p (intent_log (wm_input mote w cap q) (log_append l (wm_proposed mote (warrant_ref_of w))).2) = false.
Proof.
  intros Hpp Hps Hl. unfold intent_log.
  assert (existsb p (log_append l (wm_proposed mote (warrant_ref_of w))).2 = false) as Hl1.
  { unfold log_append. cbn. rewrite existsb_app, Hl. cbn. by rewrite Hpp. }
  case_match; [done| |done]. unfold log_append at 1. case_match; [done|]. cbn [snd].
  rewrite existsb_app, Hl1. cbn. by rewrite Hps.
Qed.

(** Intent before effect: if a stage-then-commit Mote with no commit,
    terminal failure or repudiation on record crashes while its effect is being
    dispatched, the journal already holds its EffectStaged, so the projection
    rebuilt from it lets recovery take the Mote up. *)
Theorem crash_leaves_intent broker mote w cap q motes env l env1 :
  typed_broker broker -> entries_taken mote w motes ->
  represents env.(env_journal) l -> keyed l -> intents_keyed l -> Z.of_nat (length l) + 4 < MAX_LOG ->
  nd_class (def mote) <> Pure -> effect_pattern (def mote) = StageThenCommit -> room (env_slots env) ->
  existsb (is_committed_entry mote.(mote_id)) l = false ->
  existsb (is_terminal_entry mote.(mote_id)) l = false ->
  existsb (is_repudiated_entry mote.(mote_id)) l = false ->
  run_wm_mote mote w cap q motes (StandardCommitProtocol broker) env = (Panic, env1) ->
  outside env1 = (dispatch broker mote w cap q (outside env)).2
  /\ exists l1, represents env1.(env_journal) l1
     /\ existsb (is_staged_entry mote.(mote_id)) l1 = true
     /\ forall s, folded l1 s -> projection_oracle s mote.(mote_id) = true.
Proof.
  intros Htb Ht Hr Hk Hik Hl Hnd Hp Hroom Hc Hte Hre Hrun.
  assert (find_entry (is_committed_of mote.(mote_id)) l = None) as Hf.
  { destruct (find_entry _ l) as [x|] eqn:Hx; [|done]. apply find_entry_some in Hx as [Hin Hx].
    assert (existsb (is_committed_entry mote.(mote_id)) l = true); [|congruence].
    apply existsb_exists. exists x. by rewrite <- list_elem_of_In. }
  destruct (acquire (env_slots env) w.(WarrantSpec.resource_ceiling)) as [[slot rm]|e|] eqn:Hacq;
    [|by rewrite (no_slot_run _ _ _ _ _ _ _ l e) in Hrun|by apply acquire_no_panic in Hacq].
  destruct (wm_run broker mote w cap q motes env l slot rm) as (res & env' & l' & Hrun' & Ho & Hr' & _ & Hres);
    [done..|]. rewrite Hrun' in Hrun. injection Hrun as -> ->. split; [done|]. exists l'. split; [done|].
  set (l0 := (log_append l _).2) in *. set (input := wm_input mote w cap q) in *.
  set (d := dispatch broker mote w cap q (outside env)) in *.
  assert (l' = intent_log input l0) as ->.
  { revert Hres. unfold commit_result. repeat case_match; cbn [fst snd];
      [by intros (? & ? & ? & _)|by intros [? _]..|by intros [_ ?]]. }
  assert (existsb (is_staged_entry mote.(mote_id)) (intent_log input l0) = true) as Hst.
  { apply intent_staged; [done|]. intros id e. unfold l0, log_append. cbn.
    intros [He|He%list_elem_of_singleton]%elem_of_app; [by apply Hik|by subst]. }
  split; [done|]. intros s Hs. apply (staged_allowed _ _ _ Hs); [done|by apply nothing_settled..].
Qed.

(** The end of a recovery that committed: [finish_wm] after a fresh commit. *)
Lemma recovered_run mote w cap q class motes slot base env l d st seq action :
  let input := lifecycle_input mote w cap q (str "lifecycle::redispatch_wm_mote") class in
  let out := commit_result (S := S) input l d st in
  entries_taken mote w motes -> log_wf l -> keyed l ->
  find_entry (is_committed_of mote.(mote_id)) l = None -> nd_class (def mote) <> Pure ->
  represents env.(env_journal) out.2 -> Z.of_nat (length l) + 2 < MAX_LOG -> holding base slot env ->
  out.1 = Ok seq ->
  exists c env' l', (do! commit := finish_wm mote motes (warrant_ref_of w) (str " (recovery)") slot seq in
                     cret (WmRecoveryOutcome.Committed commit action)) env
      = (Ok (WmRecoveryOutcome.Committed c action), env')
    /\ outside env' = outside env /\ represents env'.(env_journal) l' /\ l `prefix_of` l'
    /\ settled mote c.(wm_commit) l'.
Proof.
  cbn zeta. set (input := lifecycle_input mote w cap q _ class). intros Ht Hwf Hk Hf Hnd Hr Hl Hh Hout.
  destruct (commit_result_ok input l d st seq) as (h & x & Hd & Hread & -> & Hcr & Hfx & Hkx); [done..|].
  pose proof (commit_result_grows input l d st) as Hg.
  destruct (finish_run mote w motes (str " (recovery)") slot base env (commit_result input l d st).2 x)
    as (c & env' & l' & Hfin & Hrec & Ho & Hr' & Hp & Hk'); [done..|lia|done|done|].
  exists c, env', l'. unfold cbind at 1. rewrite Hfin. split_and!; [done..| |].
  - etrans; [apply commit_result_prefix|exact Hp].
  - destruct Hp as [k ->]. apply (found_settled _ _ _ x); [done| |done]. by apply find_entry_app_some.
Qed.
Lemma readback_as_commit input l h (st : S) :
  readback_result input l (Ok (Some h)) st
  = (omap_ok Some (commit_result input l (Ok h) st).1, (commit_result input l (Ok h) st).2).
Proof. unfold readback_result, commit_result. by case_match. Qed.

(** What a probing recovery does: readback decides, and the effect is dispatched
    only after the probe has answered that it is not there. *)
Definition probed_recovery broker (mote : Mote) (w : WarrantSpec) (cap : bytes) (q : EffectRequest) env l
    (out : outcome WmRecoveryOutcome LifecycleError * Env J S R W) : Prop :=
  let p := probe_readback broker mote w cap q (outside env) in
  outside out.2 = (match p.1 with Ok None => (dispatch broker mote w cap q p.2).2 | _ => p.2 end)
  /\ exists l', represents out.2.(env_journal) l' /\ l `prefix_of` l'
  /\ match out.1 with
     | Ok (WmRecoveryOutcome.Committed c action) =>
         action = (match p.1 with Ok None => Redispatch | _ => CommitFromReadback end)
         /\ settled mote c.(wm_commit) l'
     | Ok (WmRecoveryOutcome.TerminallyFailed _ _ _) => False
     | _ => True
     end.
Lemma probe_then_redispatch_run broker mote w cap q class motes slot base env l :
  let input := lifecycle_input mote w cap q (str "lifecycle::redispatch_wm_mote") class in
  typed_broker broker -> entries_taken mote w motes ->
  represents env.(env_journal) l -> keyed l -> Z.of_nat (length l) + 4 < MAX_LOG ->
  nd_class (def mote) <> Pure -> holding base slot env ->
  find_entry (is_committed_of mote.(mote_id)) l = None ->
  probed_recovery broker mote w cap q env l
    ((do! found := ccatch (try_commit_from_readback broker input)
                     (fun e => release_and_fail slot (LifecycleError.CommitProtocol e)) in
      do! (seq, action) :=
        match found with
        | Some seq => cret (seq, CommitFromReadback)
        | None =>
            do! seq := ccatch (commit broker input)
                         (fun e => release_and_fail slot (LifecycleError.CommitProtocol e)) in
            cret (seq, Redispatch)
        end in
      do! commit := finish_wm mote motes (warrant_ref_of w) (str " (recovery)") slot seq in
      cret (WmRecoveryOutcome.Committed commit action)) env).
Proof.
  cbn zeta. set (input := lifecycle_input mote w cap q _ class). intros Htb Ht Hr Hk Hl Hnd Hh Hf.
  pose proof (represents_wf _ _ Hr) as Hwf.
  destruct (readback_run broker input env l) as (j & Hj & Hr1); [done|apply Ht|done|lia|].
  change (CommitInput.mote input) with mote in *. change (CommitInput.warrant input) with w in *.
  change (CommitInput.capability input) with cap in *. change (CommitInput.effect_request input) with q in *.
  unfold probed_recovery. set (p := probe_readback broker mote w cap q (outside env)) in *.
  set (env1 := with_journal j (with_outside p.2 env)) in *.
  assert (Ho1 : outside env1 = p.2) by (unfold env1; by destruct p as [? []]).
  assert (Hh1 : holding base slot env1) by exact Hh.
  unfold cbind at 1 5 9, ccatch at 1 3 5. rewrite Hj.
  destruct p.1 as [[h|]|e|] eqn:Hp.
  - rewrite readback_as_commit in *. cbn [fst snd] in *.
    destruct (commit_result input l (Ok h) p.2.1).1 as [seq|err|] eqn:Hout; cbn [omap_ok] in *.
    + destruct (recovered_run mote w cap q class motes slot base env1 l (Ok h) p.2.1 seq CommitFromReadback)
        as (c & env' & l' & Hfin & Ho & Hr' & Hpre & Hs); [done..|lia|done|done|].
      unfold cbind at 1 3 5, cret at 1 3 5. rewrite Hfin. cbn [fst snd]. rewrite Ho. split; [done|].
      exists l'. by split_and!.
    + destruct (release_and_fail_run (A := option Z) base slot (LifecycleError.CommitProtocol err) env1)
        as (rm' & -> & _); [done|]. cbn [fst snd]. split; [done|]. exists (commit_result input l (Ok h) p.2.1).2.
      split_and!; [done|apply commit_result_prefix|done].
    + cbn [fst snd]. split; [done|]. exists (commit_result input l (Ok h) p.2.1).2.
      split_and!; [done|apply commit_result_prefix|done].
  - cbn [readback_result fst snd] in *. rewrite !cbind_assoc.
    destruct (commit_run broker input env1 l) as (j2 & Hj2 & Hr2); [done|apply Ht|done|lia|].
    change (CommitInput.mote input) with mote in *. change (CommitInput.warrant input) with w in *.
    change (CommitInput.capability input) with cap in *. change (CommitInput.effect_request input) with q in *.
    rewrite Ho1 in *. set (d := dispatch broker mote w cap q p.2) in *.
    set (out := commit_result input (intent_log input l) d.1 d.2.1) in *.
    set (env2 := with_journal j2 (with_outside d.2 env1)) in *.
    assert (Ho2 : outside env2 = d.2) by (unfold env2; by destruct d as [? []]).
    assert (Hh2 : holding base slot env2) by exact Hh.
    assert (Hpre : l `prefix_of` out.2) by (etrans; [apply (intent_prefix input)|apply commit_result_prefix]).
    unfold cbind at 1 4 7, ccatch. rewrite Hj2. pose proof (intent_log_grows input l).
    destruct out.1 as [seq|err|] eqn:Hout.
    + destruct (recovered_run mote w cap q class motes slot base env2 (intent_log input l) d.1 d.2.1 seq Redispatch)
        as (c & env' & l' & Hfin & Ho & Hr' & Hpre' & Hs);
        [done|by apply intent_wf|by apply intent_keyed|by apply find_intent|done|done|lia|done|done|].
      unfold cbind at 1 3 5, cret at 1 3 5. rewrite Hfin. cbn [fst snd]. rewrite Ho. split; [done|].
      exists l'. split_and!; [done| |done..]. etrans; [apply (intent_prefix input)|done].
    + destruct (release_and_fail_run (A := Z) base slot (LifecycleError.CommitProtocol err) env2)
        as (rm' & -> & _); [done|]. cbn [fst snd]. split; [done|]. by exists out.2.
    + cbn [fst snd]. split; [done|]. by exists out.2.
  - cbn [readback_result fst snd] in *.
    destruct (release_and_fail_run (A := option Z) base slot (LifecycleError.CommitProtocol (CommitProtocolError.ProbeFailed (mote_id mote) e)) env1)
      as (rm' & Hrel & _); [done|]. cbn in Hrel |- *. rewrite Hrel. cbn [fst snd]. split; [done|]. by exists l.
  - cbn [readback_result fst snd] in *. split; [done|]. by exists l.
Qed.

(** What recovery of an at-least-once effect does: it undoes or quarantines, and
    after that no recovery touches the Mote again. *)
Definition closed_recovery broker (mote : Mote) (w : WarrantSpec) (cap : bytes) (q : EffectRequest) env l
    (out : outcome WmRecoveryOutcome LifecycleError * Env J S R W) : Prop :=
  outside out.2 = (compensate broker mote w cap q (outside env)).2
  /\ exists l', represents out.2.(env_journal) l' /\ l `prefix_of` l'
  /\ match out.1 with
     | Ok (WmRecoveryOutcome.Committed _ _) => False
     | Ok (WmRecoveryOutcome.TerminallyFailed id _ _) =>
         id = mote.(mote_id)
         /\ forall env2 l2 s w' cap' q' class motes protocol,
              folded (l' ++ l2) s ->
              redispatch_wm_mote mote w' cap' q' class motes protocol (projection_oracle s) env2
              = (Err (LifecycleError.CommitProtocol
                        (CommitProtocolError.R13WmReDispatchRefused mote.(mote_id) R13_REASON)), env2)
     | _ => l' = l
     end.

(** [C11] Recovery never fires an effect twice: recovering a Mote under the
    projection of its journal is refused or gets no slot, and changes nothing;
    or, for a class without a closing mechanism, it runs the compensation and
    never the dispatch, and once it has failed the Mote for good every later
    recovery is refused; or it probes first, commits what the probe found
    without dispatching, dispatches (once) only if the probe found nothing, and
    a commit it makes is settled. *)
Theorem recovery_never_refires broker mote w cap q class motes env l s :
  typed_broker broker -> entries_taken mote w motes ->
  represents env.(env_journal) l -> keyed l -> Z.of_nat (length l) + 4 < MAX_LOG ->
  nd_class (def mote) <> Pure -> room (env_slots env) -> folded l s ->
  let out := redispatch_wm_mote mote w cap q class motes (StandardCommitProtocol broker)
               (projection_oracle s) env in
  (out.2 = env /\ is_ok out.1 = false)
  \/ match class with
     | Some IdempotencyClass.AtLeastOnce => closed_recovery broker mote w cap q env l out
     | _ => probed_recovery broker mote w cap q env l out
     end.
Proof.
  intros Htb Ht Hr Hk Hl Hnd Hroom Hs. cbn zeta.
  destruct (projection_oracle s mote.(mote_id)) eqn:Ho; [|left; by rewrite redispatch_refused].
  assert (find_entry (is_committed_of mote.(mote_id)) l = None) as Hf.
  { destruct (find_entry _ l) as [x|] eqn:Hx; [|done]. by rewrite (committed_refused l s _ x Hs Hx) in Ho. }
  remember (redispatch_wm_mote mote w cap q class motes _ _ env) as out eqn:Hrun. revert Hrun.
  unfold redispatch_wm_mote. rewrite bool_decide_false, Ho by done. cbn [negb].
  unfold cbind at 1, cmap_err at 1, acquire_slot, czoom, cstep.
  destruct (acquire (env_slots env) _) as [[slot rm]|e|] eqn:Hacq; cbn [omap_err];
    [|intros ->; left; by destruct env|by apply acquire_no_panic in Hacq].
  pose proof (acquire_law _ _ _ _ Hroom Hacq) as Hheld. intros ->. right.
  assert (Hroute : recovery_route_for class = CompensateOrQuarantine /\ class = Some IdempotencyClass.AtLeastOnce
    \/ recovery_route_for class = ProbeThenRedispatch /\ class <> Some IdempotencyClass.AtLeastOnce)
    by (destruct class as [[]|]; auto).
  destruct Hroute as [[-> Hclass]|[-> Hclass]]; cycle 1.
  - enough (probed_recovery broker mote w cap q env l _) as Hprobed by (destruct class as [[]|]; done || exact Hprobed).
    by apply (probe_then_redispatch_run broker mote w cap q class motes slot (held (env_slots env)) (with_slots rm env)).
  - subst class. set (class := Some IdempotencyClass.AtLeastOnce).
    destruct (compensate_or_quarantine_run broker mote w cap q motes (str "lifecycle::redispatch_wm_mote")
      class (with_slots rm env) l) as (res & env' & l' & Hrun & Hout & Hsl & Hr' & Hp & Hres); [done..|lia|].
    assert (holding (held (env_slots env)) slot env') as Hh' by (unfold holding; rewrite Hsl; exact Hheld).
    remember (then_release slot _ _) as out eqn:Hthen. revert Hthen.
    unfold then_release, cbind at 1, ccatch. rewrite Hrun. unfold closed_recovery.
    destruct res as [o|err|].
    + apply release_run in Hh' as (rm' & Hrel & _). unfold cbind, cignore. rewrite Hrel. intros ->.
      split; [exact Hout|]. exists l'. split_and!; [done..|]. destruct o as [|id n a]; [done|].
      destruct Hres as [-> Hterm]. split; [done|]. intros env2 l2 s2 w' cap' q' class' motes' protocol Hs2.
      apply redispatch_refused; [done|]. apply (terminal_refused _ _ _ Hs2). by rewrite existsb_app, Hterm.
    + destruct (release_and_fail_run (A := WmRecoveryOutcome) _ slot err env' Hh') as (rm' & Hrel & _).
      rewrite Hrel. intros ->. split; [exact Hout|]. exists l'. by split_and!.
    + intros ->. split; [exact Hout|]. exists l'. by split_and!.
Qed.
End Oracle.
End Once.

(** ** Concrete runs *)
Lemma local_broker_typed {S W} `{ContentStore S} (caps : gmap bytes (Capability W)) :
  (forall s b r s', put s b = Ok (r, s') -> array_ok 32 r) -> typed_broker (LocalCapabilityBroker caps).
Proof.
  intros Hput.
  assert (Hstage : forall n v b st, typed_handle (stage (S := S) (W := W) n v b st).1).
  { intros n v b st h. unfold stage, cbind, czoom, cmap_err, cstep.
    destruct (put st.1 b) as [[r s']|e|] eqn:Hp; cbn; [|done..]. intros [= <-]. by eapply Hput. }
  assert (Hopt : forall method m w c q st, typed_handle_opt (local_optional (S := S) method caps m w c q st).1).
  { intros method m w c q st h. unfold local_optional, cbind at 1, clift.
    destruct (precheck caps m w c q) as [cap|e|]; [|done..]. unfold cbind at 1.
    destruct (on_world _ st) as [[[b|]|e|] st1]; [|done..]. unfold cbind at 1.
    pose proof (Hstage (cap_name cap) (cap_version cap) b st1) as Hs.
    destruct (stage _ _ b st1) as [[h'|e|] st2]; [|done..]. intros [= <-]. by apply Hs. }
  split; [|intros; apply Hopt..]. intros m w c q st h Hh.
  change (dispatch _ m w c q st) with (local_dispatch caps m w c q st) in Hh.
  eapply (Hopt (fun c r => do! b := invoke c r in cret (Some b)) m w c q st h).
  rewrite local_dispatch_optional. cbn [fst]. by rewrite Hh.
Qed.

#[local] Existing Instance demo_blake3.
#[local] Existing Instance demo_bincode.
Abbreviation demo_env_t := (Env InMemoryJournal InMemoryContentStore LocalResourceManager (list bytes)).
Definition demo_env : demo_env_t :=
  {| env_journal := InMemoryJournal_new; env_store := InMemoryContentStore_new;
     env_slots := dev_defaults; env_world := [] |}.
Definition demo_broker : CapabilityBroker InMemoryContentStore (list bytes) := LocalCapabilityBroker demo_caps.
Lemma demo_broker_typed : typed_broker demo_broker.
Proof. apply local_broker_typed. intros s b r s' [= <- <-]. split; [apply length_to_le|apply to_le_ok]. Qed.
Lemma demo_entries_taken mote w motes : entries_taken (J := InMemoryJournal) mote w motes.
Proof. by split. Qed.
Lemma demo_room : room dev_defaults.
Proof. split; [|done]. cbn. set_solver. Qed.
Lemma keyed_nil : keyed [].
Proof. intros id e ?%elem_of_nil. done. Qed.

Lemma effect_fires_once_witness :
  exists c env1,
    run_wm_mote (demo_effect_mote StageThenCommit) demo_grant (str "echo") demo_request ∅
      (StandardCommitProtocol demo_broker) demo_env = (Ok c, env1)
    /\ env1.(env_world) = [[7]] /\ c.(wm_commit).(commit_result_ref) = blake3 [7]
    /\ exists l1, represents env1.(env_journal) l1
         /\ settled None (J := InMemoryJournal) (S := InMemoryContentStore) (R := LocalResourceManager)
              (W := list bytes) (demo_effect_mote StageThenCommit) c.(wm_commit) l1.
Proof.
  destruct (run_wm_mote (demo_effect_mote StageThenCommit) demo_grant (str "echo") demo_request ∅
      (StandardCommitProtocol demo_broker) demo_env) as [[c|e|] env1] eqn:Hrun; [|exfalso|exfalso].
  - destruct (effect_fires_once None demo_broker (demo_effect_mote StageThenCommit) demo_grant (str "echo")
      demo_request ∅ demo_env [] c env1) as ([->|(Ho & Hread & h & Hh & Hc)] & l1 & Hl1 & _ & Hs);
      [apply demo_broker_typed|apply demo_entries_taken|apply mem_represents_new|apply keyed_nil|done|done
      |apply demo_room|exact Hrun|exfalso|].
    + apply (f_equal (fun x => env_world x.2)) in Hrun. discriminate Hrun.
    + exists c, env1. split_and!; [done| | |by exists l1].
      * apply (f_equal snd) in Ho. exact Ho.
      * rewrite Hc. cbn in Hh. injection Hh as <-. reflexivity.
  - apply (f_equal (fun x => is_ok x.1)) in Hrun. discriminate Hrun.
  - apply (f_equal (fun x => is_ok x.1)) in Hrun. discriminate Hrun.
Defined.

(** A capability that sends its payload and never returns. *)
Definition crashing_capability : Capability (list bytes) := {|
  cap_name := str "echo"; cap_version := str "1"; supported_patterns := [StageThenCommit];
  required_secret_scope := SecretScope.None;
  invoke := fun r wd => (Panic, wd ++ [EffectRequest.payload r]);
  probe := default_probe; cap_compensate := default_compensate |}.
Definition crashing_broker : CapabilityBroker InMemoryContentStore (list bytes) :=
  LocalCapabilityBroker (register_capability ∅ crashing_capability).
Lemma crashing_broker_typed : typed_broker crashing_broker.
Proof. apply local_broker_typed. intros s b r s' [= <- <-]. split; [apply length_to_le|apply to_le_ok]. Qed.
Lemma crash_leaves_intent_witness :
  exists env1,
    run_wm_mote (demo_effect_mote StageThenCommit) demo_grant (str "echo") demo_request ∅
      (StandardCommitProtocol crashing_broker) demo_env = (Panic, env1)
    /\ env1.(env_world) = [[7]]
    /\ exists l1, represents env1.(env_journal) l1
         /\ existsb (is_staged_entry (replicate 32 3)) l1 = true.
Proof.
  destruct (run_wm_mote (demo_effect_mote StageThenCommit) demo_grant (str "echo") demo_request ∅
      (StandardCommitProtocol crashing_broker) demo_env) as [[c|e|] env1] eqn:Hrun; [exfalso|exfalso|].
  - apply (f_equal (fun x => match x.1 with Panic => true | _ => false end)) in Hrun. discriminate Hrun.
  - apply (f_equal (fun x => match x.1 with Panic => true | _ => false end)) in Hrun. discriminate Hrun.
  - exists env1. split; [done|].
    destruct (crash_leaves_intent None crashing_broker (demo_effect_mote StageThenCommit) demo_grant (str "echo")
      demo_request ∅ demo_env [] env1) as (Ho & l1 & Hl1 & Hs & _);
      [apply crashing_broker_typed|apply demo_entries_taken|apply mem_represents_new|apply keyed_nil
      |by intros id e ?%elem_of_nil|done|done|done|apply demo_room|done..|].
    split; [by apply (f_equal snd) in Ho|by exists l1].
Defined.

(** What the crash left: the intent, and nothing else. *)
Definition crashed_log : list JournalEntry := [EffectStaged (replicate 32 3) (replicate 32 3) 1].
Definition crashed_env : demo_env_t :=
  {| env_journal := {| Journal.state := {| entries := crashed_log; next_seq := 1 |}; watch := {| head := 1 |} |};
     env_store := InMemoryContentStore_new; env_slots := dev_defaults; env_world := [[7]] |}.
Definition crashed_projection : State := (fold_entries None crashed_log State_default).1.
Lemma crashed_represents : represents crashed_env.(env_journal) crashed_log.
Proof.
  split; try done. apply (log_append_wf [] (EffectStaged (replicate 32 3) (replicate 32 3) 0)), log_wf_nil.
Qed.
Lemma recovery_never_refires_witness :
  let out := redispatch_wm_mote (demo_effect_mote StageThenCommit) demo_grant (str "echo") demo_request
               (Some IdempotencyClass.AtLeastOnce) ∅ (StandardCommitProtocol demo_broker)
               (projection_oracle crashed_projection) crashed_env in
  out.1 = Ok (WmRecoveryOutcome.TerminallyFailed (replicate 32 3) 2 Quarantine)
  /\ out.2.(env_world) = [[7]].
Proof.
  cbn zeta.
  destruct (recovery_never_refires None demo_broker (demo_effect_mote StageThenCommit) demo_grant (str "echo")
    demo_request (Some IdempotencyClass.AtLeastOnce) ∅ crashed_env crashed_log crashed_projection)
    as [[_ Hno]|(Ho & _)];
    [apply demo_broker_typed|apply demo_entries_taken|apply crashed_represents| |done|done|apply demo_room
    |reflexivity|discriminate Hno|].
  - by intros id e ->%list_elem_of_singleton.
  - split; [reflexivity|]. by apply (f_equal snd) in Ho.
Defined.
