(* ===== verification/NativeCritic.v ===== *)
(** kx-executor's native critic (native_critic.rs) and the verdict codec it
    commits (kx-critic-types verdict.rs): a critic Mote with a check evaluates
    it on the bytes its producer committed and commits the verdict. *)
From S2P Require Import Prelude Effects Utf8 CriticTypes Mote Entry Journal Warrant Content DemoCodec Refusal ProjState ProjIndex ProjFold ProjHistory Critic Broker CommitProtocol Lifecycle Slots ExactlyOnce.
Import JournalEntry LifecycleError.

(** ** The verdict codec *)
Definition CRITIC_SCHEMA_VERSION : Z := 1.
Inductive VerdictDecodeError := UnknownSchemaVersion (v : Z) | MalformedVerdict.
Definition CriticVerdict_encode `{Bincode CriticVerdict} (v : CriticVerdict) : bytes :=
  to_le 2 CRITIC_SCHEMA_VERSION ++ bincode_encode v.
Definition CriticVerdict_decode `{Bincode CriticVerdict} (b : bytes)
    : outcome CriticVerdict VerdictDecodeError :=
  match b with
  | p0 :: p1 :: body =>
      let version := from_le [p0; p1] in
      if negb (version =? CRITIC_SCHEMA_VERSION) then Err (UnknownSchemaVersion version)
      else match bincode_decode body with
           | None => Err MalformedVerdict
           | Some (verdict, consumed) =>
               if negb (consumed =? length body)%nat then Err MalformedVerdict else Ok verdict
           end
  | _ => Err MalformedVerdict
  end.
Definition content_ref_bytes `{Blake3, Bincode CriticVerdict} (v : CriticVerdict) : bytes :=
  blake3 (CriticVerdict_encode v).

(** ** The run *)
Section Run.
Context `{Blake3} `{!Bincode MoteDef} `{!Bincode WarrantSpec} `{!Bincode CriticVerdict} `{!Scanners}.
Context {J S R W : Type} `{!Journal J} `{!ContentStore S}.
Abbreviation M := (comp (Env J S R W)).

Definition read_committed_ref (id : MoteId) : M (option (Z * ContentRef)) LifecycleError :=
  cask (fun env =>
    let* o := omap_err (JournalAppend ReadCommitted) (read_committed env.(env_journal) id) in
    Ok (seq_and_ref o)).
Definition store_put (b : bytes) : M ContentRef LifecycleError :=
  on_outside (czoom fst (fun s t => (s, t.2))
    (cmap_err (fun _ => Internal PutVerdict) (cstep (fun s => put s b)))).
(** [evaluate] does not fail: it can only abort. *)
Definition evaluated (spec : CheckSpec) (b : bytes) : outcome CriticVerdict LifecycleError :=
  match evaluate spec b with Ok v => Ok v | _ => Panic end.

Definition run_native_critic_mote (mote : Mote) (warrant : WarrantSpec)
    : M LifecycleCommit LifecycleError :=
  match mote.(def).(critic_check) with
  | None => cerr (Internal NoCriticCheck)
  | Some spec =>
  if negb (bool_decide (mote.(def).(nd_class) = Pure)) || mote.(def).(is_topology_shaper)
  then cerr (Internal CriticShape)
  else match mote.(def).(critic_for) with
  | None => cerr (Internal NoCriticFor)
  | Some producer_id =>
  do! committed := read_committed_ref mote.(mote_id) in
  match committed with
  | Some (committed_seq, result_ref) =>
      cret {| committed_seq := committed_seq; commit_result_ref := result_ref;
              commit_mote_id := mote.(mote_id) |}
  | None =>
  do! producer := read_committed_ref producer_id in
  match producer with
  | None => cerr (Internal ProducerNotCommitted)
  | Some (_, producer_ref) =>
      do! producer_bytes := cask (fun env => ok_or (get env.(env_store) producer_ref)
                                               (Internal ReadProducer)) in
      do! verdict := clift (evaluated spec producer_bytes) in
      do! result_ref := store_put (CriticVerdict_encode verdict) in
      let warrant_ref := warrant_ref_of warrant in
      do! _ := cmap_err (JournalAppend WriteProposed)
                 (journal_append (pure_proposed mote warrant_ref)) in
      do! committed := cmap_err (JournalAppend WriteCommitted)
                 (journal_append (pure_committed mote warrant_ref result_ref)) in
      cret {| committed_seq := entry_seq committed; commit_result_ref := result_ref;
              commit_mote_id := mote.(mote_id) |}
  end
  end
  end
  end.
End Run.

Section Codec.
Context `{Blake3} `{!Bincode CriticVerdict}.
Lemma verdict_roundtrip v : CriticVerdict_decode (CriticVerdict_encode v) = Ok v.
Proof.
  unfold CriticVerdict_encode. change (to_le 2 CRITIC_SCHEMA_VERSION) with [1; 0].
  unfold CriticVerdict_decode. cbn [app]. change (from_le [1; 0] =? CRITIC_SCHEMA_VERSION) with true.
  cbn [negb]. by rewrite bincode_decode_encode, Nat.eqb_refl.
Qed.
(** The codec is exact: nothing is accepted with bytes left over. *)
Lemma verdict_decode_exact b v :
  bytes_ok b -> CriticVerdict_decode b = Ok v ->
  exists body, b = to_le 2 CRITIC_SCHEMA_VERSION ++ body /\ bincode_decode body = Some (v, length body).
Proof.
  intros Hb. destruct b as [|p0 [|p1 body]]; [done..|]. cbn [CriticVerdict_decode].
  destruct (Z.eqb_spec (from_le [p0; p1]) CRITIC_SCHEMA_VERSION) as [Hv|]; cbn [negb]; [|done].
  destruct (bincode_decode body) as [[v' n]|] eqn:Hd; [|done].
  destruct (Nat.eqb_spec n (length body)) as [->|]; cbn [negb]; [|done]. intros [= ->].
  exists body. split; [|done]. inversion Hb as [|? ? H0 Hb']; subst. inversion Hb' as [|? ? H1 _]; subst.
  unfold in_width in *. change (to_le 2 CRITIC_SCHEMA_VERSION) with [1; 0].
  unfold CRITIC_SCHEMA_VERSION in Hv. cbn [from_le] in Hv.
  assert (p0 = 1 /\ p1 = 0) as [-> ->] by lia. done.
Qed.
End Codec.

Section Right.
Context `{Blake3} `{!Bincode MoteDef} `{!Bincode WarrantSpec} `{!Bincode CriticVerdict} `{!Scanners}.
Context {J S R W : Type} `{!Journal J} `{!JournalLaws J} `{!ContentStore S} `{!ContentStoreLaws S}.
Implicit Types (env : Env J S R W) (l : list JournalEntry).

(** No stored content has the reference of a verdict it is not. *)
Definition verdicts_distinct (m : gmap bytes bytes) : Prop :=
  forall v b, m !! content_ref_bytes v = Some b -> b = CriticVerdict_encode v.
Lemma or_insert_distinct m v :
  verdicts_distinct m ->
  or_insert (content_ref_bytes v) (CriticVerdict_encode v) m !! content_ref_bytes v
  = Some (CriticVerdict_encode v).
Proof.
  intros Hd. unfold or_insert. destruct (m !! content_ref_bytes v) as [b|] eqn:Hb;
    [by rewrite Hb, (Hd v b)|apply lookup_insert_eq].
Qed.
Lemma read_committed_ref_run env l id :
  represents env.(env_journal) l -> keyed l ->
  read_committed_ref id env = (Ok (seq_and_ref (find_entry (is_committed_of id) l)), env).
Proof. intros Hr Hk. unfold read_committed_ref, cask. by rewrite (read_committed_run _ l) by done. Qed.
Lemma store_put_run env m b :
  holds env.(env_store) m ->
  exists s', store_put b env = (Ok (blake3 b), with_outside (s', env.(env_world)) env)
    /\ holds s' (or_insert (blake3 b) b m).
Proof.
  intros Hs. destruct (put_law _ m b Hs) as (s' & Hp & Hs'). exists s'.
  unfold store_put, on_outside, czoom, cmap_err, cstep. cbn [fst snd outside]. by rewrite Hp.
Qed.

(** The critic's verdict is right and on record: when a native critic Mote
    whose producer has committed readable bytes runs, it commits a verdict that
    is right about exactly those bytes; its encoding is in the store under the
    recorded reference and decodes back to it; the journal has gained only the
    Mote's Proposed and Committed, the world and the slots are untouched; and
    running it again serves the same commit. *)
Theorem native_critic_commits_right_verdict mote w spec producer_id x producer_ref b env l m :
  represents env.(env_journal) l -> keyed l -> Z.of_nat (length l) + 2 < MAX_LOG ->
  holds env.(env_store) m -> verdicts_distinct m ->
  accepts (pure_proposed mote (warrant_ref_of w)) ->
  (forall r, array_ok 32 r -> accepts (pure_committed mote (warrant_ref_of w) r)) ->
  critic_check (def mote) = Some spec -> nd_class (def mote) = Pure ->
  is_topology_shaper (def mote) = false -> critic_for (def mote) = Some producer_id ->
  find_entry (is_committed_of mote.(mote_id)) l = None ->
  find_entry (is_committed_of producer_id) l = Some x -> committed_ref x = Some producer_ref ->
  array_ok 32 producer_ref -> m !! producer_ref = Some b ->
  bytes_ok b -> Z.of_nat (length b) < u64_max -> CheckSpec_ok spec ->
  exists v c env' l',
    run_native_critic_mote mote w env = (Ok c, env') /\ verdict_right spec b v
    /\ c.(commit_result_ref) = content_ref_bytes v
    /\ (exists e, get env'.(env_store) c.(commit_result_ref) = Some e /\ CriticVerdict_decode e = Ok v)
    /\ represents env'.(env_journal) l' /\ length l' = (length l + 2)%nat /\ l `prefix_of` l'
    /\ env'.(env_world) = env.(env_world) /\ env'.(env_slots) = env.(env_slots)
    /\ run_native_critic_mote mote w env' = (Ok c, env').
Proof.
  intros Hr Hk Hl Hs Hd Hap Hac Hspec Hnd Hsh Hcf Hf Hx Hxr Har Hb Hbok Hbl Hsok.
  destruct (evaluate_right spec b Hbok Hbl Hsok) as (v & Hv & Hright).
  destruct (store_put_run env m (CriticVerdict_encode v) Hs) as (s' & Hput & Hs').
  set (env1 := with_outside (s', env.(env_world)) env) in *.
  set (e1 := pure_proposed mote (warrant_ref_of w)) in *.
  set (e2 := pure_committed mote (warrant_ref_of w) (content_ref_bytes v)).
  destruct (journal_append_run e1 env1 l Hr Hap) as (j1 & Hj1 & Hr1); [lia|].
  set (l1 := (log_append l e1).2) in *.
  assert (length l1 = length l + 1)%nat as Hl1 by (unfold l1, log_append; cbn; by rewrite length_app).
  assert (keyed l1) as Hk1 by (by apply log_append_keyed).
  assert (find_entry (is_committed_of mote.(mote_id)) l1 = None) as Hf1.
  { unfold l1, log_append. cbn. by rewrite find_entry_app_none. }
  assert (is_committed_of mote.(mote_id) e2 = true) as Hc2 by (by apply bool_decide_eq_true).
  destruct (journal_append_run e2 (with_journal j1 env1) l1 Hr1) as (j2 & Hj2 & Hr2);
    [apply Hac, blake3_array|lia|].
  pose proof (log_append_fresh l1 mote.(mote_id) e2 Hk1 Hc2 eq_refl Hf1) as Hfresh. rewrite Hfresh in *.
  cbn [fst snd] in *.
  assert (is_committed_of producer_id x = true) as Hxc by (by apply (find_entry_some _ l)).
  destruct (seq_and_ref_committed producer_id x Hxc) as (r & Hr' & Hsr). rewrite Hxr in Hr'. injection Hr' as <-.
  assert (Hshape : negb (bool_decide (nd_class (def mote) = Pure)) || is_topology_shaper (def mote) = false)
    by (by rewrite Hnd, Hsh).
  eexists v, _, (with_journal j2 (with_journal j1 env1)), _. split_and!; [|done|..].
  - unfold run_native_critic_mote. rewrite Hspec, Hshape, Hcf.
    unfold cbind at 1. rewrite (read_committed_ref_run env l) by done. rewrite Hf. cbn [seq_and_ref].
    unfold cbind at 1. rewrite (read_committed_ref_run env l) by done. rewrite Hx, Hsr.
    unfold cbind at 1, cask. rewrite (get_law _ m) by done. rewrite Hb. cbn [ok_or].
    unfold cbind at 1, clift, evaluated. rewrite Hv.
    unfold cbind at 1. rewrite Hput. unfold cbind at 1, cmap_err at 1. fold e1. rewrite Hj1. cbn [omap_err].
    unfold cbind at 1, cmap_err at 1. fold (content_ref_bytes v). fold e2. rewrite Hj2. reflexivity.
  - done.
  - exists (CriticVerdict_encode v). split; [|apply verdict_roundtrip]. cbn [commit_result_ref].
    change (env_store _) with s'. rewrite (get_law _ _ _ Hs') by apply blake3_array. by apply or_insert_distinct.
  - exact Hr2.
  - rewrite length_app, Hl1. cbn. lia.
  - etrans; [apply (log_append_prefix l e1)|]. by apply prefix_app_r.
  - done.
  - done.
  - unfold run_native_critic_mote. rewrite Hspec, Hshape, Hcf. unfold cbind at 1.
    rewrite (read_committed_ref_run _ (l1 ++ [set_seq e2 (Z.of_nat (length l1) + 1)])); [|done|].
    + rewrite find_entry_app_none by done. cbn [find_entry]. by rewrite is_committed_of_set_seq, Hc2.
    + change (l1 ++ [set_seq e2 (Z.of_nat (length l1) + 1)])
        with (set_seq e2 (Z.of_nat (length l1) + 1), l1 ++ [set_seq e2 (Z.of_nat (length l1) + 1)]).2.
      rewrite <- Hfresh. apply log_append_keyed; [done|]. unfold e2. intros id. cbn. by intros ?%bool_decide_eq_true.
Qed.
End Right.

(** ** A concrete critic *)
#[export] Instance SchemaFault_eq_dec : EqDecision SchemaFault.
Proof. solve_decision. Defined.
#[export] Instance CriticReason_eq_dec : EqDecision CriticReason.
Proof. solve_decision. Defined.
#[export] Instance CriticVerdict_eq_dec : EqDecision CriticVerdict.
Proof. solve_decision. Defined.
#[export] Instance SchemaFault_countable : Countable SchemaFault.
Proof.
  apply (inj_countable'
    (fun f => match f with TagMismatch => inl None | NotUtf8 o => inl (Some (inl o)) | NotJson o => inl (Some (inr o))
              | ShapeMismatch a b => inr (a, b) end)
    (fun x : option (Z + Z) + Z * Z =>
       match x with inl None => TagMismatch | inl (Some (inl o)) => NotUtf8 o | inl (Some (inr o)) => NotJson o
       | inr (a, b) => ShapeMismatch a b end)).
  by intros [].
Defined.
#[export] Instance CheckKind_countable : Countable CheckKind.
Proof.
  count (fun k => match k with KSchema => 0 | KDedup => 1 | KStatBounds => 2 | KPiiLeak => 3 | KLlmJudge => 4 end)
    (fun z => if z =? 0 then KSchema else if z =? 1 then KDedup else if z =? 2 then KStatBounds
              else if z =? 3 then KPiiLeak else KLlmJudge).
Defined.
#[export] Instance CriticVerdict_countable : Countable CriticVerdict.
Proof.
  apply (inj_countable'
    (fun v => match v with
              | Valid => inl (inl tt)
              | Invalid (CriticReason.SchemaMismatch t f) => inl (inr (inl (t, f)))
              | Invalid (CriticReason.DuplicateDetected a b) => inl (inr (inr (a, b)))
              | Invalid (CriticReason.StatOutOfBounds s a b c) => inr (inl (inl (s, a, b, c)))
              | Invalid (CriticReason.PiiLeak p a b) => inr (inl (inr (p, a, b)))
              | Invalid (CriticReason.Unparseable k a) => inr (inr (inl (k, a)))
              | Invalid (CriticReason.JudgeRejected a) => inr (inr (inr a))
              end)
    (fun x : (unit + (SchemaTag * SchemaFault + Z * Z)) + ((StatKind * Z * Z * Z + PiiClass * Z * Z) + (CheckKind * Z + Z)) =>
       match x with
       | inl (inl _) => Valid
       | inl (inr (inl (t, f))) => Invalid (CriticReason.SchemaMismatch t f)
       | inl (inr (inr (a, b))) => Invalid (CriticReason.DuplicateDetected a b)
       | inr (inl (inl (s, a, b, c))) => Invalid (CriticReason.StatOutOfBounds s a b c)
       | inr (inl (inr (p, a, b))) => Invalid (CriticReason.PiiLeak p a b)
       | inr (inr (inl (k, a))) => Invalid (CriticReason.Unparseable k a)
       | inr (inr (inr a)) => Invalid (CriticReason.JudgeRejected a)
       end)).
  by intros [|[]].
Defined.
#[local] Existing Instance demo_blake3.
#[local] Existing Instance demo_bincode.
#[local] Existing Instance demo_scanners.
Definition producer_id : MoteId := replicate 32 3.
Definition demo_critic : Mote := {|
  mote_id := replicate 32 4;
  def := {| logic_ref := [1]; model_id := []; prompt_template_hash := []; tool_contract := ∅;
            nd_class := Pure; config_subset := ∅; effect_pattern := IdempotentByConstruction;
            critic_for := Some producer_id; is_topology_shaper := false;
            inference_params := InferenceParams_default; critic_check := Some demo_dedup; schema_version := 4 |};
  input_data_id := []; graph_position := []; Mote.parents := [] |}.
Definition produced : JournalEntry :=
  Committed producer_id producer_id 1 Pure (blake3 demo_payload) [] (replicate 32 0) (replicate 32 0).
Definition critic_env : demo_env_t :=
  {| env_journal := {| Journal.state := {| entries := [produced]; next_seq := 1 |}; watch := {| head := 1 |} |};
     env_store := {| objects := {[ blake3 demo_payload := demo_payload ]} |};
     env_slots := dev_defaults; env_world := [] |}.
(** A verdict starts with its version byte, the payload with a letter. *)
Lemma demo_verdicts_distinct : verdicts_distinct {[ blake3 demo_payload := demo_payload ]}.
Proof.
  intros v b [Hk _]%lookup_singleton_Some. exfalso. apply (f_equal (fun x => nth 0 x 0)) in Hk. revert Hk.
  unfold content_ref_bytes, CriticVerdict_encode. change (to_le 2 CRITIC_SCHEMA_VERSION) with [1; 0].
  cbn [blake3 demo_blake3 app]. rewrite !to_le_S. cbn [nth from_le].
  replace ((1 + 256 * _) mod 256) with 1 by (rewrite Z.mul_comm, Z.mod_add by lia; done).
  by vm_compute.
Qed.
Lemma native_critic_commits_right_verdict_witness :
  exists v c env', run_native_critic_mote demo_critic WarrantSpec.default critic_env = (Ok c, env')
    /\ verdict_right demo_dedup demo_payload v /\ c.(commit_result_ref) = content_ref_bytes v
    /\ run_native_critic_mote demo_critic WarrantSpec.default env' = (Ok c, env').
Proof.
  destruct (native_critic_commits_right_verdict demo_critic WarrantSpec.default demo_dedup producer_id produced
    (blake3 demo_payload) demo_payload critic_env [produced] {[ blake3 demo_payload := demo_payload ]})
    as (v & c & env' & l' & Hrun & Hv & Hc & _ & _ & _ & _ & _ & _ & Hagain).
  - split; try done. apply (log_append_wf [] (set_seq produced 0)), log_wf_nil.
  - intros id e ->%list_elem_of_singleton. cbn. by intros ?%bool_decide_eq_true.
  - done.
  - split; [done|]. intros r b [<- _]%lookup_singleton_Some. split; [apply length_to_le|apply to_le_ok].
  - apply demo_verdicts_distinct.
  - done.
  - done.
  - done.
  - done.
  - done.
  - done.
  - by vm_compute.
  - by vm_compute.
  - done.
  - split; [apply length_to_le|apply to_le_ok].
  - apply lookup_singleton_eq.
  - unfold bytes_ok. apply (bool_decide_unpack _). by vm_compute.
  - by vm_compute.
  - apply (bool_decide_unpack (_ /\ (_ /\ _))). by vm_compute.
  - exists v, c, env'. exact (conj Hrun (conj Hv (conj Hc Hagain))).
Defined.
