(* ===== verification/Wire.v ===== *)
(** kx-proto's conversions between the wire messages and the domain types
    (convert.rs, error.rs). A message is a record with the fields of the schema;
    a protobuf map is a gmap, a repeated field a list, an absent message None. *)
From S2P Require Import Prelude Utf8 CriticTypes Mote ContextItems Warrant DemoCodec.

Module ConvertError.
Inductive ConvertError :=
| BadHashLength (field : bytes) (len : nat)
| MissingField (field : bytes)
| UnspecifiedEnum (enum_name : bytes)
| UnknownEnum (enum_name : bytes) (value : Z)
| OutOfRange (field : bytes) (value : Z)
| MalformedPayload (field : bytes).
End ConvertError.
Abbreviation ConvertError := ConvertError.ConvertError.
Import ConvertError.

(** ** Messages *)
Record WireParent := { wire_parent_id : bytes; wire_edge_kind : Z; wire_non_cascade : bool }.
Record WireInferenceParams := {
  wi_max_output_tokens : Z; wi_temperature_bps : Z; wi_top_p_bps : Z; wi_top_k : Z; wi_seed : Z;
  wi_stop_tokens : list bytes; wi_grammar : option bytes
}.
Record WireMoteDef := {
  wd_logic_ref : bytes; wd_model_id : bytes; wd_prompt_template_hash : bytes; wd_tool_contract : gmap bytes bytes;
  wd_nd_class : Z; wd_config_subset : gmap bytes bytes; wd_effect_pattern : Z; wd_critic_for : option bytes;
  wd_is_topology_shaper : bool; wd_inference_params : option WireInferenceParams; wd_schema_version : Z;
  wd_critic_check : option bytes
}.
Record WireMote := {
  wm_mote_id : bytes; wm_def : option WireMoteDef; wm_input_data_id : bytes; wm_graph_position : bytes;
  wm_parents : list WireParent
}.
Record WireFsMount := { wf_path : bytes; wf_mode : Z }.
Inductive WireScope := ScopeNone | ScopeAllowlist (names : list bytes).
Record WireWarrantSpec := {
  ww_mote_class : Z; ww_nd_class : Z; ww_fs_scope : option (list WireFsMount);
  ww_net_scope : option (option WireScope); ww_syscall_profile_ref : bytes;
  ww_tool_grants : list (bytes * bytes); ww_model_route : option ModelRoute;
  ww_resource_ceiling : option ResourceCeiling; ww_environment_ref : option bytes; ww_executor_class : Z;
  ww_secret_scope : option (option WireScope)
}.

(** ** Helpers *)
Definition wire_hash32 (b : bytes) (field : bytes) : outcome bytes ConvertError :=
  if (length b =? 32)%nat then Ok b else Err (BadHashLength field (length b)).
(** [decode_enum]: [of_wire v] is [None] for a number the schema does not have,
    and [Some None] for the unspecified zero. *)
Definition decode_enum {D} (of_wire : Z -> option (option D)) (value : Z) (enum_name : bytes)
    : outcome D ConvertError :=
  match of_wire value with
  | None => Err (UnknownEnum enum_name value)
  | Some None => Err (UnspecifiedEnum enum_name)
  | Some (Some d) => Ok d
  end.
Fixpoint collect_ok {A B E} (f : A -> outcome B E) (l : list A) : outcome (list B) E :=
  match l with
  | [] => Ok []
  | x :: l => let* y := f x in let* ys := collect_ok f l in Ok (y :: ys)
  end.
(** A [BTreeSet<String>] in order. *)
Definition set_iter (s : gset bytes) : list bytes := btree_keys (gset_to_gmap tt s).

(** ** Enums *)
Definition NdClass_to_wire (d : NdClass) : Z :=
  match d with Pure => 1 | ReadOnlyNondet => 2 | WorldMutating => 3 end.
Definition NdClass_of_wire (v : Z) : option (option NdClass) :=
  if v =? 0 then Some None else if v =? 1 then Some (Some Pure) else if v =? 2 then Some (Some ReadOnlyNondet)
  else if v =? 3 then Some (Some WorldMutating) else None.
Definition EffectPattern_to_wire (d : EffectPattern) : Z :=
  match d with IdempotentByConstruction => 1 | StageThenCommit => 2 | ValidateThenCommit => 3 end.
Definition EffectPattern_of_wire (v : Z) : option (option EffectPattern) :=
  if v =? 0 then Some None else if v =? 1 then Some (Some IdempotentByConstruction)
  else if v =? 2 then Some (Some StageThenCommit) else if v =? 3 then Some (Some ValidateThenCommit) else None.
Definition EdgeKind_to_wire (d : EdgeKind) : Z := match d with Data => 1 | Control => 2 end.
Definition EdgeKind_of_wire (v : Z) : option (option EdgeKind) :=
  if v =? 0 then Some None else if v =? 1 then Some (Some Data) else if v =? 2 then Some (Some Control) else None.
Definition MoteClass_to_wire (d : MoteClass) : Z :=
  match d with MoteClass.Pure => 1 | MoteClass.ReadOnlyNondet => 2 | MoteClass.WorldMutating => 3 end.
Definition MoteClass_of_wire (v : Z) : option (option MoteClass) :=
  if v =? 0 then Some None else if v =? 1 then Some (Some MoteClass.Pure)
  else if v =? 2 then Some (Some MoteClass.ReadOnlyNondet)
  else if v =? 3 then Some (Some MoteClass.WorldMutating) else None.
Definition FsMode_to_wire (d : FsMode) : Z :=
  match d with FsMode.ReadOnly => 1 | FsMode.ReadWrite => 2 | FsMode.ExecOnly => 3 end.
Definition FsMode_of_wire (v : Z) : option (option FsMode) :=
  if v =? 0 then Some None else if v =? 1 then Some (Some FsMode.ReadOnly)
  else if v =? 2 then Some (Some FsMode.ReadWrite) else if v =? 3 then Some (Some FsMode.ExecOnly) else None.
Definition ExecutorClass_to_wire (d : ExecutorClass) : Z :=
  match d with Bwrap => 1 | OciDaemon => 2 | CloudMicroVm => 3 | MacOsSandbox => 4 end.
Definition ExecutorClass_of_wire (v : Z) : option (option ExecutorClass) :=
  if v =? 0 then Some None else if v =? 1 then Some (Some Bwrap) else if v =? 2 then Some (Some OciDaemon)
  else if v =? 3 then Some (Some CloudMicroVm) else if v =? 4 then Some (Some MacOsSandbox) else None.

(** ** Motes *)
Definition InferenceParams_to_wire (d : InferenceParams) : WireInferenceParams := {|
  wi_max_output_tokens := d.(max_output_tokens); wi_temperature_bps := d.(temperature_bps);
  wi_top_p_bps := d.(top_p_bps); wi_top_k := d.(top_k); wi_seed := d.(seed);
  wi_stop_tokens := d.(stop_tokens); wi_grammar := d.(grammar) |}.
Definition InferenceParams_of_wire (p : WireInferenceParams) : outcome InferenceParams ConvertError :=
  Ok {| max_output_tokens := p.(wi_max_output_tokens); temperature_bps := p.(wi_temperature_bps);
        top_p_bps := p.(wi_top_p_bps); top_k := p.(wi_top_k); seed := p.(wi_seed);
        stop_tokens := p.(wi_stop_tokens); grammar := p.(wi_grammar) |}.
Definition parent_to_wire (d : ParentRef) : WireParent := {|
  wire_parent_id := d.(parent_id); wire_edge_kind := EdgeKind_to_wire d.(edge).(kind);
  wire_non_cascade := d.(edge).(non_cascade) |}.
Definition parent_of_wire (p : WireParent) : outcome ParentRef ConvertError :=
  let* parent_id := wire_hash32 p.(wire_parent_id) (str "ParentRef.parent_id") in
  let* kind := decode_enum EdgeKind_of_wire p.(wire_edge_kind) (str "EdgeKind") in
  Ok {| parent_id := parent_id; edge := {| kind := kind; non_cascade := p.(wire_non_cascade) |} |}.

Section Motes.
Context `{Blake3} `{!Bincode MoteDef} `{!Bincode CheckSpec}.
Definition decode_check_spec (b : bytes) : outcome CheckSpec ConvertError :=
  match bincode_decode b with
  | None => Err (MalformedPayload (str "MoteDef.critic_check"))
  | Some (spec, consumed) =>
      if negb (consumed =? length b)%nat then Err (MalformedPayload (str "MoteDef.critic_check")) else Ok spec
  end.
Definition MoteDef_to_wire (d : MoteDef) : WireMoteDef := {|
  wd_logic_ref := d.(logic_ref); wd_model_id := d.(model_id);
  wd_prompt_template_hash := d.(prompt_template_hash); wd_tool_contract := d.(tool_contract);
  wd_nd_class := NdClass_to_wire d.(nd_class); wd_config_subset := d.(config_subset);
  wd_effect_pattern := EffectPattern_to_wire d.(effect_pattern); wd_critic_for := d.(critic_for);
  wd_is_topology_shaper := d.(is_topology_shaper);
  wd_inference_params := Some (InferenceParams_to_wire d.(inference_params));
  wd_schema_version := d.(schema_version); wd_critic_check := bincode_encode <$> d.(critic_check) |}.
(** [opt.map(f).transpose()?] *)
Definition transpose_ok {A B E} (f : A -> outcome B E) (o : option A) : outcome (option B) E :=
  match o with None => Ok None | Some a => let* b := f a in Ok (Some b) end.
Definition MoteDef_of_wire (p : WireMoteDef) : outcome MoteDef ConvertError :=
  let* schema_version :=
    (if (0 <=? p.(wd_schema_version)) && (p.(wd_schema_version) <? 2 ^ 16) then Ok p.(wd_schema_version)
     else Err (OutOfRange (str "MoteDef.schema_version") p.(wd_schema_version))) in
  let* critic_for := transpose_ok (fun b => wire_hash32 b (str "MoteDef.critic_for")) p.(wd_critic_for) in
  let* ip := ok_or p.(wd_inference_params) (MissingField (str "MoteDef.inference_params")) in
  let* inference_params := InferenceParams_of_wire ip in
  let* logic_ref := wire_hash32 p.(wd_logic_ref) (str "MoteDef.logic_ref") in
  let* prompt_template_hash := wire_hash32 p.(wd_prompt_template_hash) (str "MoteDef.prompt_template_hash") in
  let* nd_class := decode_enum NdClass_of_wire p.(wd_nd_class) (str "NdClass") in
  let* effect_pattern := decode_enum EffectPattern_of_wire p.(wd_effect_pattern) (str "EffectPattern") in
  let* critic_check := transpose_ok decode_check_spec p.(wd_critic_check) in
  Ok {| logic_ref := logic_ref; model_id := p.(wd_model_id); prompt_template_hash := prompt_template_hash;
        tool_contract := p.(wd_tool_contract); nd_class := nd_class; config_subset := p.(wd_config_subset);
        effect_pattern := effect_pattern; critic_for := critic_for;
        is_topology_shaper := p.(wd_is_topology_shaper); inference_params := inference_params;
        critic_check := critic_check; schema_version := schema_version |}.
Definition Mote_to_wire (d : Mote) : WireMote := {|
  wm_mote_id := d.(mote_id); wm_def := Some (MoteDef_to_wire d.(def)); wm_input_data_id := d.(input_data_id);
  wm_graph_position := d.(graph_position); wm_parents := parent_to_wire <$> d.(parents) |}.
Definition Mote_of_wire (p : WireMote) : outcome Mote ConvertError :=
  let* d := ok_or p.(wm_def) (MissingField (str "Mote.def")) in
  let* def := MoteDef_of_wire d in
  let* input_data_id := wire_hash32 p.(wm_input_data_id) (str "Mote.input_data_id") in
  let* parents := collect_ok parent_of_wire p.(wm_parents) in
  Ok (Mote_new def input_data_id p.(wm_graph_position) parents).
End Motes.

(** ** Warrants *)
Definition FsScope_to_wire (d : FsScope) : list WireFsMount :=
  (fun '(path, mode) => {| wf_path := from_utf8_lossy path; wf_mode := FsMode_to_wire mode |})
    <$> btree_iter d.(FsScope.mounts).
Fixpoint collect_mounts (acc : gmap bytes FsMode) (l : list WireFsMount) : outcome (gmap bytes FsMode) ConvertError :=
  match l with
  | [] => Ok acc
  | m :: l =>
      let* mode := decode_enum FsMode_of_wire m.(wf_mode) (str "FsMode") in
      collect_mounts (<[m.(wf_path) := mode]> acc) l
  end.
Definition FsScope_of_wire (l : list WireFsMount) : outcome FsScope ConvertError :=
  let* mounts := collect_mounts ∅ l in Ok {| FsScope.mounts := mounts |}.
Definition NetScope_to_wire (d : NetScope) : option WireScope :=
  Some (match d with NetScope.None => ScopeNone | NetScope.EgressAllowlist hosts => ScopeAllowlist (set_iter hosts) end).
Definition NetScope_of_wire (p : option WireScope) : outcome NetScope ConvertError :=
  let* scope := ok_or p (MissingField (str "NetScope.scope")) in
  Ok (match scope with
      | ScopeNone => NetScope.None
      | ScopeAllowlist hosts => NetScope.EgressAllowlist (list_to_set hosts)
      end).
Definition SecretScope_to_wire (d : SecretScope) : option WireScope :=
  Some (match d with SecretScope.None => ScopeNone | SecretScope.AllowList refs => ScopeAllowlist (set_iter refs) end).
Definition SecretScope_of_wire (p : option WireScope) : outcome SecretScope ConvertError :=
  let* scope := ok_or p (MissingField (str "SecretScope.scope")) in
  Ok (match scope with
      | ScopeNone => SecretScope.None
      | ScopeAllowlist names => SecretScope.AllowList (list_to_set names)
      end).
Definition ToolGrant_to_wire (g : ToolGrant) : bytes * bytes := (g.(ToolGrant.tool_id), g.(ToolGrant.tool_version)).
Definition ToolGrant_of_wire (p : bytes * bytes) : ToolGrant :=
  {| ToolGrant.tool_id := p.1; ToolGrant.tool_version := p.2 |}.
(** The derived order of [ToolGrant]. *)
Definition grant_le (a b : ToolGrant) : Prop :=
  if bool_decide (a.(ToolGrant.tool_id) = b.(ToolGrant.tool_id))
  then bytes_le a.(ToolGrant.tool_version) b.(ToolGrant.tool_version) = true
  else bytes_le a.(ToolGrant.tool_id) b.(ToolGrant.tool_id) = true.
#[export] Instance grant_le_dec : RelDecision grant_le.
Proof. intros a b. unfold grant_le. case_bool_decide; apply _. Defined.
Definition WarrantSpec_to_wire (d : WarrantSpec) : WireWarrantSpec := {|
  ww_mote_class := MoteClass_to_wire d.(WarrantSpec.mote_class);
  ww_nd_class := MoteClass_to_wire d.(WarrantSpec.nd_class);
  ww_fs_scope := Some (FsScope_to_wire d.(WarrantSpec.fs_scope));
  ww_net_scope := Some (NetScope_to_wire d.(WarrantSpec.net_scope));
  ww_syscall_profile_ref := d.(WarrantSpec.syscall_profile_ref);
  ww_tool_grants := ToolGrant_to_wire <$> merge_sort grant_le (elements d.(WarrantSpec.tool_grants));
  ww_model_route := Some d.(WarrantSpec.model_route);
  ww_resource_ceiling := Some d.(WarrantSpec.resource_ceiling);
  ww_environment_ref := d.(WarrantSpec.environment_ref);
  ww_executor_class := ExecutorClass_to_wire d.(WarrantSpec.executor_class);
  ww_secret_scope := Some (SecretScope_to_wire d.(WarrantSpec.secret_scope)) |}.
Definition WarrantSpec_of_wire (p : WireWarrantSpec) : outcome WarrantSpec ConvertError :=
  let* environment_ref := transpose_ok (fun b => wire_hash32 b (str "WarrantSpec.environment_ref")) p.(ww_environment_ref) in
  let* mote_class := decode_enum MoteClass_of_wire p.(ww_mote_class) (str "MoteClass") in
  let* nd_class := decode_enum MoteClass_of_wire p.(ww_nd_class) (str "MoteClass") in
  let* fs := ok_or p.(ww_fs_scope) (MissingField (str "WarrantSpec.fs_scope")) in
  let* fs_scope := FsScope_of_wire fs in
  let* net := ok_or p.(ww_net_scope) (MissingField (str "WarrantSpec.net_scope")) in
  let* net_scope := NetScope_of_wire net in
  let* syscall_profile_ref := wire_hash32 p.(ww_syscall_profile_ref) (str "WarrantSpec.syscall_profile_ref") in
  let* model_route := ok_or p.(ww_model_route) (MissingField (str "WarrantSpec.model_route")) in
  let* resource_ceiling := ok_or p.(ww_resource_ceiling) (MissingField (str "WarrantSpec.resource_ceiling")) in
  let* executor_class := decode_enum ExecutorClass_of_wire p.(ww_executor_class) (str "ExecutorClass") in
  let* secret_scope := match p.(ww_secret_scope) with
                       | Some s => SecretScope_of_wire s
                       | None => Ok SecretScope.None
                       end in
  Ok {| WarrantSpec.mote_class := mote_class; WarrantSpec.nd_class := nd_class; WarrantSpec.fs_scope := fs_scope;
        WarrantSpec.net_scope := net_scope; WarrantSpec.syscall_profile_ref := syscall_profile_ref;
        WarrantSpec.tool_grants := list_to_set (ToolGrant_of_wire <$> p.(ww_tool_grants));
        WarrantSpec.model_route := model_route; WarrantSpec.resource_ceiling := resource_ceiling;
        WarrantSpec.environment_ref := environment_ref; WarrantSpec.executor_class := executor_class;
        WarrantSpec.secret_scope := secret_scope;
        WarrantSpec.cost_ceiling := WarrantSpec.default.(WarrantSpec.cost_ceiling);
        WarrantSpec.tls_required := WarrantSpec.default.(WarrantSpec.tls_required) |}.

(** ** Round trips *)
Lemma wire_hash32_ok b f : length b = 32%nat -> wire_hash32 b f = Ok b.
Proof. intros Hb. unfold wire_hash32. by rewrite Hb. Qed.
Lemma wire_hash32_inv b f r : wire_hash32 b f = Ok r -> r = b /\ length b = 32%nat.
Proof. unfold wire_hash32. destruct (Nat.eqb_spec (length b) 32); [|done]. by intros [= ->]. Qed.
Lemma NdClass_wire d f : decode_enum NdClass_of_wire (NdClass_to_wire d) f = Ok d.
Proof. by destruct d. Qed.
Lemma EffectPattern_wire d f : decode_enum EffectPattern_of_wire (EffectPattern_to_wire d) f = Ok d.
Proof. by destruct d. Qed.
Lemma EdgeKind_wire d f : decode_enum EdgeKind_of_wire (EdgeKind_to_wire d) f = Ok d.
Proof. by destruct d. Qed.
Lemma MoteClass_wire d f : decode_enum MoteClass_of_wire (MoteClass_to_wire d) f = Ok d.
Proof. by destruct d. Qed.
Lemma FsMode_wire d f : decode_enum FsMode_of_wire (FsMode_to_wire d) f = Ok d.
Proof. by destruct d. Qed.
Lemma ExecutorClass_wire d f : decode_enum ExecutorClass_of_wire (ExecutorClass_to_wire d) f = Ok d.
Proof. by destruct d. Qed.
Create Rewrite HintDb wire.
#[export] Hint Rewrite NdClass_wire EffectPattern_wire EdgeKind_wire MoteClass_wire FsMode_wire ExecutorClass_wire : wire.

Lemma collect_ok_fmap {A B E} (f : A -> outcome B E) (g : B -> A) l :
  Forall (fun y => f (g y) = Ok y) l -> collect_ok f (g <$> l) = Ok l.
Proof. induction 1 as [|y l Hy _ IH]; [done|]. cbn. rewrite Hy. cbn. cbn in IH. by rewrite IH. Qed.
Lemma collect_ok_inv {A B E} (f : A -> outcome B E) l : forall ys,
  collect_ok f l = Ok ys -> Forall2 (fun x y => f x = Ok y) l ys.
Proof.
  induction l as [|x l IH]; intros ys; cbn [collect_ok]; [by intros [= <-]|].
  intros (y & Hy & Hl)%obind_ok_inv. apply obind_ok_inv in Hl as (zs & Hzs & [= <-]). constructor; [done|by apply IH].
Qed.
Lemma set_iter_list (s : gset bytes) : list_to_set (set_iter s) = s.
Proof.
  apply leibniz_equiv. intros x. rewrite elem_of_list_to_set. unfold set_iter.
  by rewrite elem_of_btree_keys, <- elem_of_dom, dom_gset_to_gmap.
Qed.

Section MoteTrip.
Context `{HB : Blake3} `{!Bincode MoteDef} `{!Bincode CheckSpec}.
(** A definition and a Mote whose fields have their types' widths. *)
Record def_typed (d : MoteDef) : Prop := {
  dt_logic : length d.(logic_ref) = 32%nat;
  dt_prompt : length d.(prompt_template_hash) = 32%nat;
  dt_critic : forall m, d.(critic_for) = Some m -> length m = 32%nat;
  dt_version : 0 <= d.(schema_version) < 2 ^ 16
}.
Record mote_typed (m : Mote) : Prop := {
  mt_def : def_typed m.(def);
  mt_input : length m.(input_data_id) = 32%nat;
  mt_parents : Forall (fun p => length p.(parent_id) = 32%nat) m.(parents);
  mt_id : m.(mote_id) = derive_mote_id (MoteDef_hash m.(def)) m.(input_data_id) m.(graph_position)
}.
Lemma decode_check_spec_encode s : decode_check_spec (bincode_encode s) = Ok s.
Proof. unfold decode_check_spec. by rewrite bincode_decode_encode, Nat.eqb_refl. Qed.
Lemma MoteDef_wire d : def_typed d -> MoteDef_of_wire (MoteDef_to_wire d) = Ok d.
Proof.
  intros [Hl Hp Hc Hv]. unfold MoteDef_of_wire, MoteDef_to_wire. cbn [wd_schema_version wd_critic_for wd_inference_params
    wd_logic_ref wd_prompt_template_hash wd_nd_class wd_effect_pattern wd_critic_check ok_or].
  rewrite (proj2 (andb_true_iff _ _)) by (split; [apply Z.leb_le|apply Z.ltb_lt]; lia). cbn [obind].
  assert (transpose_ok (fun b => wire_hash32 b (str "MoteDef.critic_for")) (critic_for d) = Ok (critic_for d)) as ->.
  { destruct (critic_for d) as [m|]; [|done]. cbn [transpose_ok]. by rewrite wire_hash32_ok by auto. }
  cbn [obind InferenceParams_of_wire]. rewrite !wire_hash32_ok by done. cbn [obind]. autorewrite with wire. cbn [obind].
  assert (transpose_ok decode_check_spec (bincode_encode <$> critic_check d) = Ok (critic_check d)) as ->.
  { destruct (critic_check d) as [s|]; [|done]. cbn [fmap option_fmap option_map transpose_ok].
    by rewrite decode_check_spec_encode. }
  destruct d as [? ? ? ? ? ? ? ? ? [] ? ?]. done.
Qed.
Lemma parent_wire p : length (parent_id p) = 32%nat -> parent_of_wire (parent_to_wire p) = Ok p.
Proof.
  intros Hp. unfold parent_of_wire, parent_to_wire. cbn [wire_parent_id wire_edge_kind wire_non_cascade].
  rewrite wire_hash32_ok by done. cbn [obind]. autorewrite with wire. by destruct p as [? []].
Qed.
Lemma MoteDef_of_wire_typed p d : MoteDef_of_wire p = Ok d -> def_typed d.
Proof.
  unfold MoteDef_of_wire. intros H. ok_inv.
  repeat match goal with
  | G : wire_hash32 _ _ = Ok _ |- _ => apply wire_hash32_inv in G as [-> ?]
  | G : (if ?b then _ else _) = Ok _ |- _ => destruct b eqn:?; [|discriminate G]
  end. ok_inv. split; cbn; try done.
  - intros m ->. match goal with G : transpose_ok _ (wd_critic_for p) = Ok _ |- _ => rename G into Hc end.
    destruct (wd_critic_for p) as [b|]; [|done]. cbn in Hc. apply obind_ok_inv in Hc as (x & Hx & [= <-]).
    by apply wire_hash32_inv in Hx as [-> ?].
  - lia.
Qed.

(** [C31] The wire boundary of a Mote: every well-typed Mote survives the
    crossing unchanged; and whatever bytes a peer sends, what is accepted is a
    well-typed Mote whose identity is derived from its own content, the same
    whatever identity the message claims. *)
Theorem mote_crosses_wire m p claimed :
  (mote_typed m -> Mote_of_wire (Mote_to_wire m) = Ok m)
  /\ (Mote_of_wire p = Ok m -> mote_typed m)
  /\ Mote_of_wire {| wm_mote_id := claimed; wm_def := p.(wm_def); wm_input_data_id := p.(wm_input_data_id);
                     wm_graph_position := p.(wm_graph_position); wm_parents := p.(wm_parents) |}
     = Mote_of_wire p.
Proof.
  split_and!; [| |done].
  - intros [Hd Hi Hp Hid]. unfold Mote_of_wire, Mote_to_wire. cbn [wm_def ok_or obind wm_input_data_id wm_parents].
    rewrite MoteDef_wire by done. cbn [obind]. rewrite wire_hash32_ok by done. cbn [obind].
    rewrite (collect_ok_fmap parent_of_wire parent_to_wire) by (eapply Forall_impl; [exact Hp|]; apply parent_wire).
    cbn [obind wm_graph_position]. unfold Mote_new. rewrite <- Hid. by destruct m.
  - unfold Mote_of_wire. intros H. ok_inv.
    match goal with G : MoteDef_of_wire _ = Ok _ |- _ => apply MoteDef_of_wire_typed in G end.
    match goal with G : wire_hash32 _ _ = Ok _ |- _ => apply wire_hash32_inv in G as [-> ?] end.
    match goal with G : collect_ok _ _ = Ok _ |- _ => apply collect_ok_inv in G; rename G into Hps end.
    split; cbn; try done. clear -Hps. induction Hps as [|x y l l' Hxy _ IH]; constructor; [|done].
    unfold parent_of_wire in Hxy. ok_inv.
    match goal with G : wire_hash32 _ _ = Ok _ |- _ => by apply wire_hash32_inv in G as [-> ?] end.
Qed.
End MoteTrip.

(** ** The warrant *)
(** What of a warrant crosses: the cost ceiling and the TLS flag do not, and the
    receiver takes the defaults. *)
Definition crossed (w : WarrantSpec) : WarrantSpec := {|
  WarrantSpec.mote_class := w.(WarrantSpec.mote_class); WarrantSpec.nd_class := w.(WarrantSpec.nd_class);
  WarrantSpec.fs_scope := w.(WarrantSpec.fs_scope); WarrantSpec.net_scope := w.(WarrantSpec.net_scope);
  WarrantSpec.syscall_profile_ref := w.(WarrantSpec.syscall_profile_ref);
  WarrantSpec.tool_grants := w.(WarrantSpec.tool_grants); WarrantSpec.model_route := w.(WarrantSpec.model_route);
  WarrantSpec.resource_ceiling := w.(WarrantSpec.resource_ceiling);
  WarrantSpec.environment_ref := w.(WarrantSpec.environment_ref);
  WarrantSpec.executor_class := w.(WarrantSpec.executor_class);
  WarrantSpec.secret_scope := w.(WarrantSpec.secret_scope);
  WarrantSpec.cost_ceiling := {| CostCeiling.micro_usd := 0 |}; WarrantSpec.tls_required := true |}.
Record warrant_typed (w : WarrantSpec) : Prop := {
  wt_paths : forall path mode, w.(WarrantSpec.fs_scope).(FsScope.mounts) !! path = Some mode -> utf8_valid path = true;
  wt_syscall : length w.(WarrantSpec.syscall_profile_ref) = 32%nat;
  wt_env : forall r, w.(WarrantSpec.environment_ref) = Some r -> length r = 32%nat;
  wt_cost : 0 <= w.(WarrantSpec.cost_ceiling).(CostCeiling.micro_usd)
}.
Lemma collect_mounts_fmap (l : list (bytes * FsMode)) : forall acc,
  Forall (fun x => from_utf8_lossy x.1 = x.1) l ->
  collect_mounts acc ((fun '(path, mode) => {| wf_path := from_utf8_lossy path; wf_mode := FsMode_to_wire mode |}) <$> l)
  = Ok (foldl (fun m x => <[x.1 := x.2]> m) acc l).
Proof.
  induction l as [|[path mode] l IH]; intros acc Hl; [done|]. apply Forall_cons in Hl as [Hp Hl]. cbn [fst] in Hp.
  rewrite fmap_cons. cbn [collect_mounts wf_mode wf_path]. autorewrite with wire. cbn [obind foldl fst snd].
  rewrite Hp. by apply IH.
Qed.
Lemma foldl_insert_lookup (l : list (bytes * FsMode)) : forall (acc : gmap bytes FsMode) k,
  NoDup l.*1 ->
  foldl (fun m x => <[x.1 := x.2]> m) acc l !! k
  = match list_to_map (M := gmap bytes FsMode) l !! k with Some v => Some v | None => acc !! k end.
Proof.
  induction l as [|[p m] l IH]; intros acc k Hnd; [cbn; by rewrite lookup_empty|]. apply NoDup_cons in Hnd as [Hp Hnd].
  cbn [foldl list_to_map foldr fst snd]. rewrite IH by done. cbn [fst snd uncurry].
  destruct (decide (k = p)) as [->|Hne].
  - rewrite lookup_insert_eq. rewrite (proj1 (not_elem_of_list_to_map _ _) Hp). by rewrite lookup_insert_eq.
  - rewrite !lookup_insert_ne by done. done.
Qed.
Lemma FsScope_wire s :
  (forall path mode, s.(FsScope.mounts) !! path = Some mode -> utf8_valid path = true) ->
  FsScope_of_wire (FsScope_to_wire s) = Ok s.
Proof.
  intros Hv. unfold FsScope_of_wire, FsScope_to_wire. rewrite collect_mounts_fmap.
  - cbn [obind]. destruct s as [m]. cbn [FsScope.mounts] in *. f_equal. f_equal. apply map_eq. intros k.
    assert (Hnd : NoDup (btree_iter m).*1).
    { rewrite btree_iter_perm. apply NoDup_fst_map_to_list. }
    rewrite foldl_insert_lookup, lookup_empty by done.
    rewrite <- (list_to_map_to_list m) at 2.
    rewrite (list_to_map_proper (btree_iter m) (map_to_list m)) by (done || apply btree_iter_perm).
    by destruct (_ !! k).
  - apply Forall_forall. intros [p mode] Hp%elem_of_btree_iter. cbn. apply from_utf8_lossy_valid. by eapply Hv.
Qed.
Lemma tool_grants_wire (g : gset ToolGrant) :
  list_to_set (ToolGrant_of_wire <$> (ToolGrant_to_wire <$> merge_sort grant_le (elements g))) = g.
Proof.
  apply leibniz_equiv. intros x. rewrite elem_of_list_to_set, <- list_fmap_compose, list_elem_of_fmap.
  setoid_rewrite (merge_sort_Permutation grant_le (elements g)). setoid_rewrite elem_of_elements.
  split; [intros ([] & -> & Hy); exact Hy|]. intros Hx. exists x. by destruct x.
Qed.
Lemma warrant_wire w : warrant_typed w -> WarrantSpec_of_wire (WarrantSpec_to_wire w) = Ok (crossed w).
Proof.
  intros [Hp Hs He _]. unfold WarrantSpec_of_wire, WarrantSpec_to_wire.
  cbn [ww_mote_class ww_nd_class ww_fs_scope ww_net_scope ww_syscall_profile_ref ww_tool_grants ww_model_route
       ww_resource_ceiling ww_environment_ref ww_executor_class ww_secret_scope ok_or].
  assert (transpose_ok (fun b => wire_hash32 b (str "WarrantSpec.environment_ref")) w.(WarrantSpec.environment_ref)
          = Ok w.(WarrantSpec.environment_ref)) as ->.
  { destruct (WarrantSpec.environment_ref w) as [r|]; [|done]. cbn [transpose_ok]. by rewrite wire_hash32_ok by auto. }
  autorewrite with wire. cbn [obind]. rewrite FsScope_wire by done. cbn [obind].
  rewrite wire_hash32_ok by done. rewrite tool_grants_wire. unfold crossed.
  destruct w as [? ? ? net ? ? ? ? ? ? sec ? ?]. cbn. by destruct net, sec; cbn; rewrite ?set_iter_list.
Qed.

(** The wire boundary of a warrant never grants more: a warrant with UTF-8
    paths is received as itself except for the cost ceiling and the TLS flag,
    which take their most restrictive values; so what is received is within
    what was sent, equal to it exactly when those two were already at their
    defaults, and a second crossing changes nothing. *)
Theorem warrant_crossing_narrows w :
  warrant_typed w ->
  exists w', WarrantSpec_of_wire (WarrantSpec_to_wire w) = Ok w' /\ warrant_le w' w
    /\ (w' = w <-> w.(WarrantSpec.cost_ceiling).(CostCeiling.micro_usd) = 0 /\ w.(WarrantSpec.tls_required) = true)
    /\ WarrantSpec_of_wire (WarrantSpec_to_wire w') = Ok w'.
Proof.
  intros Hw. exists (crossed w). split_and!; [by apply warrant_wire| | |].
  - destruct (warrant_le_preorder) as [Hrefl _]. destruct (Hrefl w). destruct Hw. split; try done.
  - destruct w as [? ? ? ? ? ? ? ? ? ? ? [cost] tls]. unfold crossed. cbn. split; [by intros [= <- <-]|].
    by intros [-> ->].
  - change (crossed w) with (crossed (crossed w)) at 2. apply warrant_wire. by destruct Hw.
Qed.

(** ** Concrete crossings *)
#[local] Existing Instance demo_blake3.
#[local] Existing Instance demo_bincode.
Definition demo_sent : WarrantSpec := {|
  WarrantSpec.mote_class := MoteClass.Pure; WarrantSpec.nd_class := MoteClass.Pure;
  WarrantSpec.fs_scope := {| FsScope.mounts := {[ str "/tmp" := FsMode.ReadOnly ]} |};
  WarrantSpec.net_scope := NetScope.EgressAllowlist {[ str "a"; str "b" ]};
  WarrantSpec.syscall_profile_ref := replicate 32 0; WarrantSpec.tool_grants := ∅;
  WarrantSpec.model_route := WarrantSpec.default.(WarrantSpec.model_route);
  WarrantSpec.resource_ceiling := ResourceCeiling.zero; WarrantSpec.environment_ref := None;
  WarrantSpec.executor_class := Bwrap; WarrantSpec.secret_scope := SecretScope.None;
  WarrantSpec.cost_ceiling := {| CostCeiling.micro_usd := 5 |}; WarrantSpec.tls_required := false |}.
Lemma warrant_crossing_narrows_witness :
  exists w', WarrantSpec_of_wire (WarrantSpec_to_wire demo_sent) = Ok w' /\ w' <> demo_sent.
Proof.
  destruct (warrant_crossing_narrows demo_sent) as (w' & Hw & _ & Heq & _).
  - split; cbn; [|done|done|lia]. intros path mode [<- _]%lookup_singleton_Some. reflexivity.
  - exists w'. split; [exact Hw|]. intros [[=] _]%Heq.
Defined.
Definition demo_crossing : Mote := Mote_new {|
    logic_ref := replicate 32 1; model_id := str "m"; prompt_template_hash := replicate 32 2; tool_contract := ∅;
    Mote.nd_class := ReadOnlyNondet; config_subset := ∅; Mote.effect_pattern := StageThenCommit;
    Mote.critic_for := None; Mote.is_topology_shaper := false; inference_params := InferenceParams_default;
    critic_check := None; schema_version := 5 |}
  (replicate 32 3) [4] [{| parent_id := replicate 32 6; edge := EdgeMeta_control |}].
Lemma mote_crosses_wire_witness :
  Mote_of_wire (Mote_to_wire demo_crossing) = Ok demo_crossing.
Proof.
  destruct (mote_crosses_wire demo_crossing (Mote_to_wire demo_crossing) []) as [Hm _]. apply Hm.
  split; [split; [reflexivity|reflexivity|intros m [=]|cbn; lia]|reflexivity|by repeat constructor|].
  unfold demo_crossing, Mote_new. cbn [mote_id def input_data_id graph_position]. reflexivity.
Defined.
