(* ===== verification/Digits.v ===== *)
(** Decimal text of integers ([to_string] and [parse] of the standard library). *)
From S2P Require Import Prelude Utf8 CriticTypes Mote Critic.

(** [to_string] of an unsigned integer: twenty digits hold any u64. *)
Fixpoint decimal_fuel (fuel : nat) (n : Z) (acc : bytes) : bytes :=
  match fuel with
  | O => acc
  | Datatypes.S fuel =>
      let acc := (48 + n mod 10) :: acc in
      if n / 10 =? 0 then acc else decimal_fuel fuel (n / 10) acc
  end.
Definition decimal (n : Z) : bytes := decimal_fuel 20 n [].
Definition i64_to_string (n : Z) : bytes := if n <? 0 then 45 :: decimal (- n) else decimal n.

Lemma digit_in_range n : (48 <=? 48 + n mod 10) && (48 + n mod 10 <=? 57) = true.
Proof. pose proof (Z.mod_pos_bound n 10). apply andb_true_iff. split; apply Z.leb_le; lia. Qed.
Lemma parse_digits_app l1 l2 : forall acc,
  parse_digits acc (l1 ++ l2) = match parse_digits acc l1 with Some n => parse_digits n l2 | None => None end.
Proof. induction l1 as [|b l1 IH]; intros acc; [done|]. cbn. by destruct (_ && _). Qed.
(** The digits of [n] come before [acc]. *)
Lemma decimal_fuel_split fuel : forall n acc,
  exists ds, decimal_fuel fuel n acc = ds ++ acc
    /\ (0 <= n < 10 ^ Z.of_nat fuel -> (0 < fuel)%nat -> parse_digits 0 ds = Some n /\ ds <> []).
Proof.
  induction fuel as [|fuel IH]; intros n acc; [exists []; split; [done|lia]|].
  cbn [decimal_fuel]. destruct (IH (n / 10) ((48 + n mod 10) :: acc)) as (ds & -> & Hds).
  pose proof (Z.div_mod n 10 ltac:(lia)) as Hdm. destruct (Z.eqb_spec (n / 10) 0) as [H0|H0].
  - exists [48 + n mod 10]. split; [done|]. intros Hn _. cbn [parse_digits]. rewrite digit_in_range. split; [f_equal; lia|done].
  - exists (ds ++ [48 + n mod 10]). split; [by rewrite <- app_assoc|]. intros Hn _.
    rewrite Nat2Z.inj_succ, Z.pow_succ_r in Hn by lia.
    destruct fuel as [|fuel]; [cbn in Hn; pose proof (Z.div_small n 10); lia|].
    destruct Hds as [Hds Hne].
    { split; [apply Z.div_pos; lia|apply Z.div_lt_upper_bound; lia]. } { lia. }
    rewrite parse_digits_app, Hds. cbn [parse_digits]. rewrite digit_in_range.
    split; [f_equal; lia|]. by destruct ds.
Qed.
Lemma parse_decimal n : 0 <= n < 2 ^ 64 -> parse_digits 0 (decimal n) = Some n /\ decimal n <> [].
Proof.
  intros Hn. unfold decimal. destruct (decimal_fuel_split 20 n []) as (ds & -> & Hds). rewrite app_nil_r.
  apply Hds; [|lia]. split; [lia|]. assert (2 ^ 64 < 10 ^ Z.of_nat 20) by done. lia.
Qed.
Lemma decimal_head n : exists c l, decimal n = c :: l /\ 48 <= c <= 57.
Proof.
  unfold decimal. assert (forall fuel n acc, (exists c l, acc = c :: l /\ 48 <= c <= 57) \/ (0 < fuel)%nat ->
    exists c l, decimal_fuel fuel n acc = c :: l /\ 48 <= c <= 57) as H; [|apply H; right; lia].
  induction fuel as [|fuel IH]; intros m acc Hacc; [destruct Hacc as [?|?]; [done|lia]|]. cbn [decimal_fuel].
  pose proof (Z.mod_pos_bound m 10 ltac:(lia)).
  assert (Hd : exists c l, (48 + m mod 10) :: acc = c :: l /\ 48 <= c <= 57) by (eexists _, _; split; [done|lia]).
  destruct (_ =? 0); [done|]. by apply IH; left.
Qed.
Lemma parse_i64_to_string n : i64_min <= n <= i64_max -> parse_i64 (i64_to_string n) = Some n.
Proof.
  intros Hn. assert (Hb : i64_min = - 2 ^ 63 /\ i64_max = 2 ^ 63 - 1) by done. unfold i64_to_string, parse_i64.
  destruct (Z.ltb_spec n 0) as [Hlt|Hge].
  - destruct (parse_decimal (- n)) as [Hp Hne]; [lia|]. destruct (decimal (- n)) as [|c l] eqn:Hd; [done|].
    rewrite Hp. replace (-1 * - n) with n by lia.
    by rewrite (proj2 (Z.leb_le _ _)), (proj2 (Z.leb_le _ _)) by lia.
  - destruct (parse_decimal n) as [Hp Hne]; [lia|]. destruct (decimal_head n) as (c & l & Hd & Hc). rewrite Hd in *.
    assert (match c :: l with 43 :: l0 => (1, l0) | 45 :: l0 => (-1, l0) | _ => (1, c :: l) end = (1, c :: l)) as ->.
    { destruct c as [|p|p]; try lia. do 6 (destruct p as [p|p|]; try done; try lia). }
    rewrite Hp. rewrite Z.mul_1_l. by rewrite (proj2 (Z.leb_le _ _)), (proj2 (Z.leb_le _ _)) by lia.
Qed.
