(* ===== verification/ParamSchema.v ===== *)
(** kx-tool-registry param_schema.rs: a tool's declared parameters, the repair of
    a model's argument text, and the fail-closed check of the arguments. serde_json
    is foreign code: the class [SerdeJson]. *)
From S2P Require Import Prelude Utf8 CriticTypes Mote Critic Digits.

(** ** Bytes of JSON text *)
Definition DQ : Z := 34.
Definition SQ : Z := 39.
Definition BSL : Z := 92.
Definition is_ascii_whitespace (b : Z) : bool :=
  (b =? 32) || (b =? 9) || (b =? 10) || (b =? 12) || (b =? 13).
Definition is_close (b : Z) : bool := (b =? 125) || (b =? 93).
(** [stack.last() == Some(&b'{')]; the last pushed is the head. *)
Definition in_object (stack : list Z) : bool :=
  match stack with c :: _ => c =? 123 | [] => false end.
Definition pop (stack : list Z) : list Z := match stack with _ :: st => st | [] => [] end.

(** ** The repair
    [escaped] is false whenever the outer loop continues: a string that ends on
    an escape has consumed all bytes. Each inner loop returns what it emits and
    the bytes left. *)
Fixpoint copy_double (escaped : bool) (l : bytes) : bytes * bytes :=
  match l with
  | [] => ([], [])
  | c :: l =>
      if escaped then let '(o, r) := copy_double false l in (c :: o, r)
      else if c =? BSL then let '(o, r) := copy_double true l in (c :: o, r)
      else if c =? DQ then ([c], l)
      else let '(o, r) := copy_double false l in (c :: o, r)
  end.
Fixpoint copy_single (escaped : bool) (l : bytes) : bytes * bytes :=
  match l with
  | [] => ([], [])
  | c :: l =>
      if escaped
      then let '(o, r) := copy_single false l in ((if c =? SQ then [SQ] else [BSL; c]) ++ o, r)
      else if c =? BSL then copy_single true l
      else if c =? SQ then ([DQ], l)
      else if c =? DQ then let '(o, r) := copy_single false l in (BSL :: DQ :: o, r)
      else let '(o, r) := copy_single false l in (c :: o, r)
  end.
Definition ends_key (c : Z) : bool := (c =? 58) || (c =? DQ) || (c =? SQ) || is_ascii_whitespace c.
Fixpoint scan_key (l : bytes) : bytes * bytes :=
  match l with
  | [] => ([], [])
  | c :: r => if ends_key c then ([], l) else let '(k, r) := scan_key r in (c :: k, r)
  end.
Fixpoint escape_key (k : bytes) : bytes :=
  match k with
  | [] => []
  | c :: k => (if c =? BSL then [BSL; c] else [c]) ++ escape_key k
  end.
(** The next byte that [skip] does not skip closes a container. *)
Fixpoint next_closes (skip : Z -> bool) (l : bytes) : bool :=
  match l with
  | [] => false
  | c :: l => if skip c then next_closes skip l else is_close c
  end.
Definition ws_or_comma (c : Z) : bool := is_ascii_whitespace c || (c =? 44).

Fixpoint repair_loop (fuel : nat) (stack : list Z) (expect_key : bool) (l : bytes) : bytes :=
  match fuel, l with
  | S fuel, b :: r =>
      if b =? DQ then let '(o, r) := copy_double false r in b :: o ++ repair_loop fuel stack false r
      else if b =? SQ then let '(o, r) := copy_single false r in DQ :: o ++ repair_loop fuel stack false r
      else if b =? 123 then b :: repair_loop fuel (123 :: stack) true r
      else if b =? 91 then b :: repair_loop fuel (91 :: stack) false r
      else if is_close b then b :: repair_loop fuel (pop stack) false r
      else if b =? 44
      then if next_closes ws_or_comma r then repair_loop fuel stack expect_key r
           else b :: repair_loop fuel stack (in_object stack) r
      else if b =? 58 then b :: repair_loop fuel stack false r
      else if is_ascii_whitespace b then b :: repair_loop fuel stack expect_key r
      else if expect_key
      then let '(k, r) := scan_key l in [DQ] ++ escape_key k ++ [DQ] ++ repair_loop fuel stack false r
      else b :: repair_loop fuel stack expect_key r
  | _, _ => []
  end.
Fixpoint needs_loop (fuel : nat) (stack : list Z) (expect_key : bool) (l : bytes) : bool :=
  match fuel, l with
  | S fuel, b :: r =>
      if b =? SQ then true
      else if b =? DQ then needs_loop fuel stack false (copy_double false r).2
      else if b =? 123 then needs_loop fuel (123 :: stack) true r
      else if b =? 91 then needs_loop fuel (91 :: stack) false r
      else if is_close b then needs_loop fuel (pop stack) false r
      else if b =? 44
      then if next_closes is_ascii_whitespace r then true else needs_loop fuel stack (in_object stack) r
      else if b =? 58 then needs_loop fuel stack false r
      else if is_ascii_whitespace b then needs_loop fuel stack expect_key r
      else if expect_key then true
      else needs_loop fuel stack expect_key r
  | _, _ => false
  end.
Definition needs_lenient_repair (args : bytes) : bool := needs_loop (length args) [] false args.
Definition normalize_lenient_args (args : bytes) : bytes :=
  if negb (needs_lenient_repair args) then args else repair_loop (length args) [] false args.

(** ** Declared parameters *)
Inductive ParamType :=
| Int (min max : option Z)
| Bytes (max_len : nat)
| Str (max_len : nat)
| Bool
| Enum (allowed : gset bytes).
Record ParamSpec := { param_name : bytes; ty : ParamType; required : bool }.
Record InputSchema := { params : list ParamSpec; deny_unknown : bool }.
Module SchemaError.
Inductive SchemaError :=
| NotAnObject
| MissingRequired (name : bytes)
| UnknownParam (name : bytes)
| TypeMismatch (name expected : bytes)
| OutOfRange (name : bytes)
| TooLong (name : bytes) (max : nat)
| NotAllowed (name : bytes)
| Malformed (diagnostic : bytes).
End SchemaError.
Abbreviation SchemaError := SchemaError.SchemaError.

(** [str::trim], by the Unicode property White_Space. *)
Definition is_white_char (c : bytes) : bool :=
  match c with
  | [b] => in_range 9 13 b || (b =? 32)
  | [194; b] => (b =? 133) || (b =? 160)
  | [225; 154; 128] => true
  | [226; 128; b] => in_range 128 138 b || (b =? 168) || (b =? 169) || (b =? 175)
  | [226; 129; 159] => true
  | [227; 128; 128] => true
  | _ => false
  end.
Fixpoint drop_white (cs : list bytes) : list bytes :=
  match cs with
  | c :: rest => if is_white_char c then drop_white rest else cs
  | [] => []
  end.
Definition trim (s : bytes) : bytes :=
  match utf8_chars s with
  | Some cs => concat (rev (drop_white (rev (drop_white cs))))
  | None => s
  end.

(** ** JSON texts
    What serde_json accepts is JSON; the grammar below has every JSON text, and
    takes any run of letters, digits, signs and points for a number or literal. *)
Definition json_ws (l : bytes) : Prop := Forall (fun b => b = 32 \/ b = 9 \/ b = 10 \/ b = 13) l.
Inductive json_chars : bytes -> Prop :=
| chars_nil : json_chars []
| chars_plain c l : c <> DQ -> c <> BSL -> json_chars l -> json_chars (c :: l)
| chars_escape c l : json_chars l -> json_chars (BSL :: c :: l).
Definition json_string (s : bytes) : Prop := exists l, json_chars l /\ s = [DQ] ++ l ++ [DQ].
Definition scalar_byte (b : Z) : Prop :=
  48 <= b <= 57 \/ 65 <= b <= 90 \/ 97 <= b <= 122 \/ b = 43 \/ b = 45 \/ b = 46.
Inductive json_value : bytes -> Prop :=
| value_string s : json_string s -> json_value s
| value_scalar l : l <> [] -> Forall scalar_byte l -> json_value l
| value_object w : json_ws w -> json_value ([123] ++ w ++ [125])
| value_members l : json_members l -> json_value ([123] ++ l ++ [125])
| value_array w : json_ws w -> json_value ([91] ++ w ++ [93])
| value_elements l : json_elements l -> json_value ([91] ++ l ++ [93])
with json_members : bytes -> Prop :=
| members_one m : json_member m -> json_members m
| members_more m l : json_member m -> json_members l -> json_members (m ++ [44] ++ l)
with json_member : bytes -> Prop :=
| member w1 k w2 w3 v w4 :
    json_ws w1 -> json_string k -> json_ws w2 -> json_ws w3 -> json_value v -> json_ws w4 ->
    json_member (w1 ++ k ++ w2 ++ [58] ++ w3 ++ v ++ w4)
with json_elements : bytes -> Prop :=
| elements_one w1 v w2 : json_ws w1 -> json_value v -> json_ws w2 -> json_elements (w1 ++ v ++ w2)
| elements_more w1 v w2 l : json_ws w1 -> json_value v -> json_ws w2 -> json_elements l ->
    json_elements (w1 ++ v ++ w2 ++ [44] ++ l).
Definition json_text (s : bytes) : Prop :=
  exists w1 v w2, json_ws w1 /\ json_value v /\ json_ws w2 /\ s = w1 ++ v ++ w2.

(** ** serde_json *)
Record JsonError := { is_data : bool; to_string : bytes }.
Definition json_plain (s : bytes) : Prop :=
  utf8_valid s = true /\ Forall (fun c => 32 <= c /\ c <> DQ /\ c <> BSL) s.
Class SerdeJson := {
  (** [from_slice::<BTreeMap<String, &RawValue>>]: keys and raw value texts. *)
  from_slice : bytes -> outcome (gmap bytes bytes) JsonError;
  from_str_i64 : bytes -> option Z;
  from_str_string : bytes -> option bytes;
  from_str_bool : bytes -> option bool;
  from_slice_json : forall s m, from_slice s = Ok m -> json_text s;
  from_slice_total : forall s, from_slice s <> Panic;
  from_str_i64_text : forall n, i64_min <= n <= i64_max -> from_str_i64 (i64_to_string n) = Some n;
  from_str_string_text : forall s, json_plain s -> from_str_string ([DQ] ++ s ++ [DQ]) = Some s;
  from_str_bool_text : from_str_bool (str "false") = Some false
}.

Section Validate.
Context `{SerdeJson}.
Definition check_value (name : bytes) (ty : ParamType) (s : bytes) : outcome unit SchemaError :=
  match ty with
  | Int min max =>
      match from_str_i64 s with
      | None => Err (SchemaError.TypeMismatch name (str "integer"))
      | Some v =>
          if (match min with Some lo => v <? lo | None => false end)
             || (match max with Some hi => hi <? v | None => false end)
          then Err (SchemaError.OutOfRange name) else Ok tt
      end
  | Bytes max_len | Str max_len =>
      match from_str_string s with
      | None => Err (SchemaError.TypeMismatch name (str "string"))
      | Some v => if (max_len <? length v)%nat then Err (SchemaError.TooLong name max_len) else Ok tt
      end
  | Bool =>
      match from_str_bool s with
      | None => Err (SchemaError.TypeMismatch name (str "bool"))
      | Some _ => Ok tt
      end
  | Enum allowed =>
      match from_str_string s with
      | None => Err (SchemaError.TypeMismatch name (str "string"))
      | Some v => if bool_decide (v ∈ allowed) then Ok tt else Err (SchemaError.NotAllowed name)
      end
  end.
Definition parse_args (args_bytes : bytes) : outcome (gmap bytes bytes) SchemaError :=
  match args_bytes with
  | [] => Ok ∅
  | _ => omap_err (fun e => if is_data e then SchemaError.NotAnObject else SchemaError.Malformed (to_string e))
           (from_slice args_bytes)
  end.
Fixpoint check_keys (declared : list bytes) (keys : list bytes) : outcome unit SchemaError :=
  match keys with
  | [] => Ok tt
  | key :: keys => if bool_decide (key ∈ declared) then check_keys declared keys else Err (SchemaError.UnknownParam key)
  end.
(** The argument counts as given: present, not null and not the empty string. *)
Definition supplied (map : gmap bytes bytes) (name : bytes) : option bytes :=
  match map !! name with
  | Some raw => let t := trim raw in
                if negb (bool_decide (t = str "null")) && negb (bool_decide (t = [DQ; DQ])) then Some raw else None
  | None => None
  end.
Fixpoint check_params (map : gmap bytes bytes) (specs : list ParamSpec) : outcome unit SchemaError :=
  match specs with
  | [] => Ok tt
  | spec :: specs =>
      let* _ := match supplied map spec.(param_name) with
                | None => if spec.(required) then Err (SchemaError.MissingRequired spec.(param_name)) else Ok tt
                | Some raw => check_value spec.(param_name) spec.(ty) raw
                end in
      check_params map specs
  end.
Definition validate_args (schema : InputSchema) (args_bytes : bytes) : outcome unit SchemaError :=
  let* map := parse_args (normalize_lenient_args args_bytes) in
  let* _ := if schema.(deny_unknown)
            then check_keys (param_name <$> schema.(params)) (btree_keys map) else Ok tt in
  check_params map schema.(params).
End Validate.

(** ** The example shown to a model *)
Definition quote (s : bytes) : bytes := [DQ] ++ s ++ [DQ].
(** A [BTreeSet<String>]'s least member. *)
Definition least (s : gset bytes) : option bytes := head (btree_keys (gset_to_gmap tt s)).
Definition example_value (ty : ParamType) : bytes :=
  match ty with
  | Int (Some lo) _ => i64_to_string lo
  | Int None (Some hi) => if hi <? 0 then i64_to_string hi else str "0"
  | Int None None => str "0"
  | Bytes _ => quote (str "<bytes>")
  | Str _ => quote (str "<string>")
  | Bool => str "false"
  | Enum allowed => match least allowed with Some v => quote v | None => quote (str "<enum>") end
  end.
Fixpoint join (sep : bytes) (parts : list bytes) : bytes :=
  match parts with
  | [] => []
  | [p] => p
  | p :: parts => p ++ sep ++ join sep parts
  end.
Definition example_args_json (schema : InputSchema) : bytes :=
  let required_exists := existsb required schema.(params) in
  [123] ++ join (str ", ")
    ((fun p => quote p.(param_name) ++ str ": " ++ example_value p.(ty))
       <$> List.filter (fun p => negb required_exists || p.(required)) schema.(params)) ++ [125].

(** ** The loops end *)
Lemma copy_double_left l : forall e, (length (copy_double e l).2 <= length l)%nat.
Proof.
  induction l as [|c l IH]; intros e; [done|]. cbn.
  destruct e; [specialize (IH false); destruct (copy_double false l); cbn in *; lia|].
  destruct (c =? BSL); [specialize (IH true); destruct (copy_double true l); cbn in *; lia|].
  destruct (c =? DQ); [cbn; lia|]. specialize (IH false). destruct (copy_double false l); cbn in *; lia.
Qed.
Lemma copy_single_left l : forall e, (length (copy_single e l).2 <= length l)%nat.
Proof.
  induction l as [|c l IH]; intros e; [done|]. cbn.
  destruct e; [specialize (IH false); destruct (copy_single false l); cbn in *; lia|].
  destruct (c =? BSL); [specialize (IH true); lia|]. destruct (c =? SQ); [cbn; lia|]. specialize (IH false).
  destruct (c =? DQ), (copy_single false l); cbn in *; lia.
Qed.
Lemma scan_key_left l : (length (scan_key l).2 <= length l)%nat.
Proof.
  induction l as [|c l IH]; [done|]. cbn. destruct (ends_key c); [done|]. destruct (scan_key l); cbn in *; lia.
Qed.
Lemma scan_key_first c l : ends_key c = false -> (length (scan_key (c :: l)).2 <= length l)%nat.
Proof. intros Hc. cbn. rewrite Hc. pose proof (scan_key_left l). by destruct (scan_key l). Qed.
(** A byte that is none of the marked ones does not end a key. *)
Lemma plain_not_end b :
  (b =? DQ) = false -> (b =? SQ) = false -> (b =? 58) = false -> is_ascii_whitespace b = false -> ends_key b = false.
Proof. intros H1 H2 H3 H4. unfold ends_key. by rewrite H1, H2, H3, H4. Qed.
(** More fuel changes nothing. *)
Lemma repair_fuel f : forall f' st ek l, (length l <= f)%nat -> (length l <= f')%nat ->
  repair_loop f st ek l = repair_loop f' st ek l.
Proof.
  induction f as [|f IH]; intros f' st ek l Hf Hf'; [destruct l, f'; cbn in *; try done; lia|].
  destruct f' as [|f']; [by destruct l; cbn in *; try done; lia|]. destruct l as [|b r]; [done|].
  cbn [length] in *. cbn [repair_loop].
  destruct (b =? DQ) eqn:E1.
  { pose proof (copy_double_left r false). destruct (copy_double false r) as [o r']. cbn in *. by rewrite (IH f') by lia. }
  destruct (b =? SQ) eqn:E2.
  { pose proof (copy_single_left r false). destruct (copy_single false r) as [o r']. cbn in *. by rewrite (IH f') by lia. }
  destruct (b =? 123); [by rewrite (IH f') by lia|]. destruct (b =? 91); [by rewrite (IH f') by lia|].
  destruct (is_close b); [by rewrite (IH f') by lia|].
  destruct (b =? 44); [by destruct (next_closes _ r); rewrite (IH f') by lia|].
  destruct (b =? 58) eqn:E3; [by rewrite (IH f') by lia|].
  destruct (is_ascii_whitespace b) eqn:E4; [by rewrite (IH f') by lia|]. destruct ek; [|by rewrite (IH f') by lia].
  pose proof (scan_key_first b r (plain_not_end b E1 E2 E3 E4)). destruct (scan_key (b :: r)) as [k r']. cbn in *.
  by rewrite (IH f') by lia.
Qed.
Lemma needs_fuel f : forall f' st ek l, (length l <= f)%nat -> (length l <= f')%nat ->
  needs_loop f st ek l = needs_loop f' st ek l.
Proof.
  induction f as [|f IH]; intros f' st ek l Hf Hf'; [destruct l, f'; cbn in *; try done; lia|].
  destruct f' as [|f']; [by destruct l; cbn in *; try done; lia|]. destruct l as [|b r]; [done|].
  cbn [length] in *. cbn [needs_loop]. pose proof (copy_double_left r false).
  repeat (match goal with |- context [if ?b then _ else _] => destruct b end); try done; apply IH; lia.
Qed.

(** ** One step of each loop *)
Definition repair (st : list Z) (ek : bool) (l : bytes) : bytes := repair_loop (length l) st ek l.
Definition needs (st : list Z) (ek : bool) (l : bytes) : bool := needs_loop (length l) st ek l.
Lemma needs_run f st ek l : (length l <= f)%nat -> needs_loop f st ek l = needs st ek l.
Proof. intros. by apply needs_fuel. Qed.
Lemma repair_run f st ek l : (length l <= f)%nat -> repair_loop f st ek l = repair st ek l.
Proof. intros. by apply repair_fuel. Qed.
Lemma needs_cons st ek b r :
  needs st ek (b :: r) =
    if b =? SQ then true
    else if b =? DQ then needs st false (copy_double false r).2
    else if b =? 123 then needs (123 :: st) true r
    else if b =? 91 then needs (91 :: st) false r
    else if is_close b then needs (pop st) false r
    else if b =? 44 then if next_closes is_ascii_whitespace r then true else needs st (in_object st) r
    else if b =? 58 then needs st false r
    else if is_ascii_whitespace b then needs st ek r
    else if ek then true else needs st ek r.
Proof.
  unfold needs at 1. cbn [length needs_loop]. pose proof (copy_double_left r false).
  repeat (match goal with |- context [if ?b then _ else _] => destruct b end); try done; by apply needs_run.
Qed.
Lemma repair_cons st ek b r :
  repair st ek (b :: r) =
    if b =? DQ then b :: (copy_double false r).1 ++ repair st false (copy_double false r).2
    else if b =? SQ then DQ :: (copy_single false r).1 ++ repair st false (copy_single false r).2
    else if b =? 123 then b :: repair (123 :: st) true r
    else if b =? 91 then b :: repair (91 :: st) false r
    else if is_close b then b :: repair (pop st) false r
    else if b =? 44 then if next_closes ws_or_comma r then repair st ek r else b :: repair st (in_object st) r
    else if b =? 58 then b :: repair st false r
    else if is_ascii_whitespace b then b :: repair st ek r
    else if ek then [DQ] ++ escape_key (scan_key (b :: r)).1 ++ [DQ] ++ repair st false (scan_key (b :: r)).2
    else b :: repair st ek r.
Proof.
  unfold repair at 1. cbn [length]. set (l := b :: r). cbn [repair_loop]. unfold l at 1.
  destruct (b =? DQ) eqn:E1.
  { pose proof (copy_double_left r false). destruct (copy_double false r). by rewrite repair_run. }
  destruct (b =? SQ) eqn:E2.
  { pose proof (copy_single_left r false). destruct (copy_single false r). by rewrite repair_run. }
  destruct (b =? 123); [done|]. destruct (b =? 91); [done|]. destruct (is_close b); [done|].
  destruct (b =? 44); [done|]. destruct (b =? 58) eqn:E3; [done|].
  destruct (is_ascii_whitespace b) eqn:E4; [done|]. destruct ek; [|done].
  pose proof (scan_key_first b r (plain_not_end b E1 E2 E3 E4)) as Hk. fold l in Hk. destruct (scan_key l). by rewrite repair_run.
Qed.

(** ** Copied and re-quoted strings read back as one string *)
Lemma copy_double_split l : forall e, (copy_double e l).1 ++ (copy_double e l).2 = l.
Proof.
  induction l as [|c l IH]; intros e; [done|]. cbn.
  destruct e; [specialize (IH false); destruct (copy_double false l); cbn in *; by rewrite IH|].
  destruct (c =? BSL); [specialize (IH true); destruct (copy_double true l); cbn in *; by rewrite IH|].
  destruct (c =? DQ); [done|]. specialize (IH false). destruct (copy_double false l); cbn in *; by rewrite IH.
Qed.
Lemma copy_double_again l t : forall e,
  ((copy_double e l).2 = [] -> t = []) -> copy_double e ((copy_double e l).1 ++ t) = ((copy_double e l).1, t).
Proof.
  induction l as [|c l IH]; intros e Ht; [by rewrite Ht|]. cbn in *.
  destruct e; [specialize (IH false); destruct (copy_double false l); cbn in *; by rewrite IH|].
  destruct (c =? BSL) eqn:E1.
  { specialize (IH true). destruct (copy_double true l). cbn in *. by rewrite E1, IH. }
  destruct (c =? DQ) eqn:E2; [cbn; by rewrite E1, E2|].
  specialize (IH false). destruct (copy_double false l). cbn in *. by rewrite E1, E2, IH.
Qed.
Lemma copy_single_again l t : forall e,
  ((copy_single e l).2 = [] -> t = []) -> copy_double false ((copy_single e l).1 ++ t) = ((copy_single e l).1, t).
Proof.
  induction l as [|c l IH]; intros e Ht; [by rewrite Ht|]. cbn in *.
  destruct e.
  { specialize (IH false). destruct (copy_single false l) as [o r]. cbn in *.
    destruct (c =? SQ); cbn; by rewrite IH. }
  destruct (c =? BSL) eqn:E1; [by apply IH|]. destruct (c =? SQ) eqn:E2; [done|].
  specialize (IH false). destruct (c =? DQ) eqn:E3; destruct (copy_single false l) as [o r]; cbn in *; [by rewrite IH|].
  by rewrite E1, E3, IH.
Qed.
Lemma scan_key_plain l : Forall (fun c => c <> DQ) (scan_key l).1.
Proof.
  induction l as [|c l IH]; [constructor|]. cbn. destruct (ends_key c) eqn:E; [constructor|].
  destruct (scan_key l). cbn in *. constructor; [|done]. intros ->. by vm_compute in E.
Qed.
Lemma escape_key_again k t : Forall (fun c => c <> DQ) k ->
  copy_double false (escape_key k ++ DQ :: t) = (escape_key k ++ [DQ], t).
Proof.
  induction 1 as [|c k Hc Hk IH]; [done|]. cbn [escape_key].
  destruct (c =? BSL) eqn:E; cbn; [by rewrite IH|]. by rewrite E, (proj2 (Z.eqb_neq _ _) Hc), IH.
Qed.

(** ** What is left after a comma *)
Lemma ws_cases c : is_ascii_whitespace c = true -> c = 32 \/ c = 9 \/ c = 10 \/ c = 12 \/ c = 13.
Proof. unfold is_ascii_whitespace. rewrite !orb_true_iff, !Z.eqb_eq. tauto. Qed.
Lemma repair_keeps_open st ek l :
  next_closes ws_or_comma l = false -> next_closes is_ascii_whitespace (repair st ek l) = false.
Proof.
  revert st ek. induction l as [|c l IH]; intros st ek Hn; [done|]. rewrite repair_cons. cbn [next_closes] in Hn.
  destruct (c =? DQ) eqn:E1; [apply Z.eqb_eq in E1; by subst|]. destruct (c =? SQ); [done|].
  destruct (c =? 123) eqn:E2; [apply Z.eqb_eq in E2; by subst|]. destruct (c =? 91) eqn:E3; [apply Z.eqb_eq in E3; by subst|].
  destruct (is_close c) eqn:E4.
  { unfold is_close in E4. apply orb_true_iff in E4. rewrite !Z.eqb_eq in E4. by destruct E4; subst. }
  destruct (c =? 44) eqn:E5.
  { apply Z.eqb_eq in E5; subst. cbn in Hn. by rewrite Hn. }
  destruct (c =? 58) eqn:E6; [apply Z.eqb_eq in E6; by subst|].
  destruct (is_ascii_whitespace c) eqn:E7; [unfold ws_or_comma in Hn; rewrite E7 in Hn; cbn; rewrite E7; by apply IH|].
  destruct ek; [done|]. cbn. by rewrite E7.
Qed.
Lemma no_repair_open st ek l :
  needs st ek l = false -> next_closes is_ascii_whitespace l = false -> next_closes ws_or_comma l = false.
Proof.
  revert st ek. induction l as [|c l IH]; intros st ek Hn Hw; [done|]. cbn [next_closes] in *. unfold ws_or_comma at 1.
  destruct (is_ascii_whitespace c) eqn:E.
  - cbn. apply (IH st ek); [|done]. rewrite needs_cons, E in Hn.
    apply ws_cases in E. by destruct E as [->|[->|[->|[->| ->]]]].
  - destruct (c =? 44) eqn:E2; [|done]. cbn. apply Z.eqb_eq in E2; subst. rewrite needs_cons in Hn. cbn in Hn.
    destruct (next_closes is_ascii_whitespace l); [done|]. by apply (IH st (in_object st)).
Qed.

(** ** The repair is needed only once *)
Lemma repaired_clean n : forall st ek l, (length l <= n)%nat -> needs st ek (repair st ek l) = false.
Proof.
  induction n as [|n IH]; intros st ek [|b r] Hn; cbn [length] in Hn; try done; [lia|].
  assert (Hs : forall st ek l', (length l' <= length r)%nat -> needs st ek (repair st ek l') = false) by (intros; apply IH; lia).
  rewrite repair_cons. destruct (b =? DQ) eqn:E1.
  { apply Z.eqb_eq in E1; subst. rewrite needs_cons. cbn [Z.eqb DQ SQ Pos.eqb].
    rewrite (copy_double_again r) by (by intros ->). apply Hs, copy_double_left. }
  destruct (b =? SQ) eqn:E2.
  { rewrite needs_cons. cbn [Z.eqb DQ SQ Pos.eqb].
    rewrite (copy_single_again r) by (by intros ->). apply Hs, copy_single_left. }
  destruct (b =? 123) eqn:E3; [rewrite needs_cons, E2, E1, E3; by apply Hs|].
  destruct (b =? 91) eqn:E4; [rewrite needs_cons, E2, E1, E3, E4; by apply Hs|].
  destruct (is_close b) eqn:E5; [rewrite needs_cons, E2, E1, E3, E4, E5; by apply Hs|].
  destruct (b =? 44) eqn:E6.
  { destruct (next_closes ws_or_comma r) eqn:Hc; [by apply Hs|].
    rewrite needs_cons, E2, E1, E3, E4, E5, E6, repair_keeps_open by done. by apply Hs. }
  destruct (b =? 58) eqn:E7; [rewrite needs_cons, E2, E1, E3, E4, E5, E6, E7; by apply Hs|].
  destruct (is_ascii_whitespace b) eqn:E8; [rewrite needs_cons, E2, E1, E3, E4, E5, E6, E7, E8; by apply Hs|].
  destruct ek; [|rewrite needs_cons, E2, E1, E3, E4, E5, E6, E7, E8; by apply Hs].
  cbn [app]. rewrite needs_cons. cbn [Z.eqb DQ SQ Pos.eqb]. rewrite (escape_key_again _ _ (scan_key_plain (b :: r))).
  apply Hs, scan_key_first, plain_not_end; done.
Qed.
Lemma clean_unchanged n : forall st ek l, (length l <= n)%nat -> needs st ek l = false -> repair st ek l = l.
Proof.
  induction n as [|n IH]; intros st ek [|b r] Hn Hd; cbn [length] in Hn; try done; [lia|].
  assert (Hs : forall st ek l', (length l' <= length r)%nat -> needs st ek l' = false -> repair st ek l' = l')
    by (intros; apply IH; [lia|done]).
  rewrite needs_cons in Hd. rewrite repair_cons.
  destruct (b =? SQ); [done|]. destruct (b =? DQ).
  { rewrite Hs by (done || apply copy_double_left). by rewrite copy_double_split. }
  destruct (b =? 123); [by rewrite Hs|]. destruct (b =? 91); [by rewrite Hs|]. destruct (is_close b); [by rewrite Hs|].
  destruct (b =? 44).
  { destruct (next_closes is_ascii_whitespace r) eqn:Hw; [done|].
    rewrite (no_repair_open _ _ _ Hd Hw). by rewrite Hs. }
  destruct (b =? 58); [by rewrite Hs|]. destruct (is_ascii_whitespace b); [by rewrite Hs|].
  destruct ek; [done|by rewrite Hs].
Qed.

(** ** JSON is never repaired *)
Lemma json_ws_skip w t (f : bytes -> bool) :
  json_ws w -> (forall c t, is_ascii_whitespace c = true -> f (c :: t) = f t) -> f (w ++ t) = f t.
Proof.
  intros Hw Hf. induction Hw as [|c w Hc _ IH]; [done|]. cbn. rewrite Hf; [exact IH|].
  by destruct Hc as [->|[->|[->| ->]]].
Qed.
Lemma needs_ws st ek w t : json_ws w -> needs st ek (w ++ t) = needs st ek t.
Proof.
  intros Hw. apply (json_ws_skip w t (needs st ek) Hw). intros c r Hc. rewrite needs_cons, Hc.
  apply ws_cases in Hc. by destruct Hc as [->|[->|[->|[->| ->]]]].
Qed.
Lemma open_ws w t : json_ws w -> next_closes is_ascii_whitespace (w ++ t) = next_closes is_ascii_whitespace t.
Proof. intros Hw. apply (json_ws_skip w t _ Hw). intros c r Hc. cbn. by rewrite Hc. Qed.
Lemma json_chars_copy l t : json_chars l -> copy_double false (l ++ DQ :: t) = (l ++ [DQ], t).
Proof.
  induction 1 as [|c l H1 H2 _ IH|c l _ IH]; [done| |]; cbn; [|by rewrite IH].
  by rewrite (proj2 (Z.eqb_neq _ _) H1), (proj2 (Z.eqb_neq _ _) H2), IH.
Qed.
Lemma needs_string st ek s t : json_string s -> needs st ek (s ++ t) = needs st false t.
Proof.
  intros (l & Hl & ->). rewrite <- !app_assoc. cbn [app]. rewrite needs_cons. cbn [Z.eqb DQ SQ Pos.eqb].
  by rewrite json_chars_copy.
Qed.
Lemma scalar_plain c : scalar_byte c ->
  (c =? SQ) = false /\ (c =? DQ) = false /\ (c =? 123) = false /\ (c =? 91) = false /\ is_close c = false
  /\ (c =? 44) = false /\ (c =? 58) = false /\ is_ascii_whitespace c = false.
Proof.
  unfold scalar_byte, is_close, is_ascii_whitespace, SQ, DQ. intros H.
  repeat split; rewrite ?orb_false_iff, ?Z.eqb_neq; lia.
Qed.
Lemma needs_scalar st l t : Forall scalar_byte l -> needs st false (l ++ t) = needs st false t.
Proof.
  induction 1 as [|c l Hc _ IH]; [done|]. cbn [app]. rewrite needs_cons.
  destruct (scalar_plain c Hc) as (-> & -> & -> & -> & -> & -> & -> & ->). exact IH.
Qed.
Lemma value_open v t : json_value v -> next_closes is_ascii_whitespace (v ++ t) = false.
Proof.
  intros [s (l & _ & ->)|l Hl Hs|w _|l _|w _|l _]; try done. destruct Hs as [|c l Hc _]; [done|]. cbn.
  by destruct (scalar_plain c Hc) as (_ & _ & _ & _ & -> & _ & _ & ->).
Qed.
Lemma member_open m t : json_member m -> next_closes is_ascii_whitespace (m ++ t) = false.
Proof. intros [w1 k w2 w3 v w4 H1 (l & _ & ->) _ _ _ _]. by rewrite <- !app_assoc, open_ws. Qed.
Lemma members_open l t : json_members l -> next_closes is_ascii_whitespace (l ++ t) = false.
Proof. intros [m Hm|m l' Hm _]; rewrite <- ?app_assoc; by apply member_open. Qed.
Lemma elements_open l t : json_elements l -> next_closes is_ascii_whitespace (l ++ t) = false.
Proof. intros [w1 v w2 H1 Hv _|w1 v w2 l' H1 Hv _ _]; rewrite <- !app_assoc, open_ws by done; by apply value_open. Qed.

Scheme value_ind_mut := Minimality for json_value Sort Prop
  with members_ind_mut := Minimality for json_members Sort Prop
  with member_ind_mut := Minimality for json_member Sort Prop
  with elements_ind_mut := Minimality for json_elements Sort Prop.
Lemma needs_value v : json_value v -> forall st t, needs st false (v ++ t) = needs st false t.
Proof.
  apply (value_ind_mut
    (fun v => forall st t, needs st false (v ++ t) = needs st false t)
    (fun l => forall st t, needs (123 :: st) true (l ++ t) = needs (123 :: st) false t)
    (fun m => forall st t, needs (123 :: st) true (m ++ t) = needs (123 :: st) false t)
    (fun l => forall st t, needs (91 :: st) false (l ++ t) = needs (91 :: st) false t)).
  - intros s Hs st t. by apply needs_string.
  - intros l _ Hl st t. by apply needs_scalar.
  - intros w Hw st t. rewrite <- !app_assoc. cbn [app]. rewrite needs_cons. cbn [Z.eqb Pos.eqb SQ DQ is_close orb in_object is_ascii_whitespace]. by rewrite needs_ws, needs_cons.
  - intros l _ IH st t. rewrite <- !app_assoc. cbn [app]. rewrite needs_cons. cbn [Z.eqb Pos.eqb SQ DQ is_close orb in_object is_ascii_whitespace]. by rewrite IH, needs_cons.
  - intros w Hw st t. rewrite <- !app_assoc. cbn [app]. rewrite needs_cons. cbn [Z.eqb Pos.eqb SQ DQ is_close orb in_object is_ascii_whitespace]. by rewrite needs_ws, needs_cons.
  - intros l _ IH st t. rewrite <- !app_assoc. cbn [app]. rewrite needs_cons. cbn [Z.eqb Pos.eqb SQ DQ is_close orb in_object is_ascii_whitespace]. by rewrite IH, needs_cons.
  - done.
  - intros m l Hm IHm Hl IHl st t. rewrite <- !app_assoc, IHm. cbn [app]. rewrite needs_cons. cbn [Z.eqb Pos.eqb SQ DQ is_close orb in_object is_ascii_whitespace].
    rewrite members_open by done. apply IHl.
  - intros w1 k w2 w3 v' w4 H1 Hk H2 H3 _ IH H4 st t. rewrite <- !app_assoc, needs_ws, needs_string, needs_ws by done.
    cbn [app]. rewrite needs_cons. cbn [Z.eqb Pos.eqb SQ DQ is_close orb in_object is_ascii_whitespace]. by rewrite needs_ws, IH, needs_ws.
  - intros w1 v' w2 H1 _ IH H2 st t. rewrite <- !app_assoc. by rewrite needs_ws, IH, needs_ws.
  - intros w1 v' w2 l H1 _ IH H2 Hl IHl st t. rewrite <- !app_assoc, needs_ws, IH, needs_ws by done. cbn [app].
    rewrite needs_cons. cbn [Z.eqb Pos.eqb SQ DQ is_close orb in_object is_ascii_whitespace]. rewrite elements_open by done. apply IHl.
Qed.
Lemma json_clean s : json_text s -> needs_lenient_repair s = false.
Proof.
  intros (w1 & v & w2 & H1 & Hv & H2 & ->). change (needs [] false (w1 ++ v ++ w2) = false).
  rewrite needs_ws, needs_value by done. rewrite <- (app_nil_r w2). by rewrite needs_ws.
Qed.
(** The repair of argument text is exact: repairing again changes nothing
    and is never needed, the pre-scan says no exactly when the repair would change
    nothing, and JSON is left as it is. *)
Theorem lenient_repair_exact args :
  normalize_lenient_args (normalize_lenient_args args) = normalize_lenient_args args
  /\ needs_lenient_repair (normalize_lenient_args args) = false
  /\ (needs_lenient_repair args = false <-> repair_loop (length args) [] false args = args)
  /\ (json_text args -> normalize_lenient_args args = args).
Proof.
  assert (Hc : needs_lenient_repair (repair_loop (length args) [] false args) = false).
  { change (needs [] false (repair [] false args) = false). by apply (repaired_clean (length args)). }
  assert (Hn : needs_lenient_repair (normalize_lenient_args args) = false).
  { unfold normalize_lenient_args. destruct (needs_lenient_repair args) eqn:E; [exact Hc|exact E]. }
  split_and!; [|exact Hn| |].
  - unfold normalize_lenient_args at 1. by rewrite Hn.
  - split; [by apply (clean_unchanged (length args))|]. intros He. by rewrite He in Hc.
  - intros Hj. unfold normalize_lenient_args. by rewrite json_clean.
Qed.

Section Accepts.
Context `{SerdeJson}.
(** A raw value is one of its type. *)
Definition fits (ty : ParamType) (raw : bytes) : Prop :=
  match ty with
  | Int min max => exists v, from_str_i64 raw = Some v
      /\ (forall lo, min = Some lo -> lo <= v) /\ (forall hi, max = Some hi -> v <= hi)
  | Bytes max_len | Str max_len => exists v, from_str_string raw = Some v /\ (length v <= max_len)%nat
  | Bool => is_Some (from_str_bool raw)
  | Enum allowed => exists v, from_str_string raw = Some v /\ v ∈ allowed
  end.
Lemma check_value_total name ty raw : check_value name ty raw <> Panic.
Proof. unfold check_value. by repeat case_match. Qed.
Lemma bounds_ok mn mx v :
  (match mn with Some lo => v <? lo | None => false end) || (match mx with Some hi => hi <? v | None => false end) = false
  <-> (forall lo, mn = Some lo -> lo <= v) /\ (forall hi, mx = Some hi -> v <= hi).
Proof.
  rewrite orb_false_iff. f_equiv.
  - destruct mn as [lo|]; [|done]. rewrite Z.ltb_ge. naive_solver.
  - destruct mx as [hi|]; [|done]. rewrite Z.ltb_ge. naive_solver.
Qed.
Lemma check_value_fits name ty raw : check_value name ty raw = Ok tt <-> fits ty raw.
Proof.
  unfold check_value, fits. destruct ty as [mn mx|n|n| |allowed].
  - destruct (from_str_i64 raw) as [v|]; [|naive_solver]. pose proof (bounds_ok mn mx v) as Hb.
    destruct (_ || _); naive_solver.
  - destruct (from_str_string raw) as [v|]; [|naive_solver]. destruct (Nat.ltb_spec n (length v)); [|naive_solver].
    split; [done|]. intros (? & [= <-] & ?). lia.
  - destruct (from_str_string raw) as [v|]; [|naive_solver]. destruct (Nat.ltb_spec n (length v)); [|naive_solver].
    split; [done|]. intros (? & [= <-] & ?). lia.
  - destruct (from_str_bool raw); [naive_solver|]. split; [done|by intros []].
  - destruct (from_str_string raw) as [v|]; [|naive_solver]. case_bool_decide; naive_solver.
Qed.
Lemma check_keys_ok declared keys : check_keys declared keys = Ok tt <-> forall k, k ∈ keys -> k ∈ declared.
Proof.
  induction keys as [|k keys IH]; cbn; [set_solver|]. case_bool_decide; [rewrite IH; set_solver|].
  split; [done|]. intros Hk. exfalso. apply H0, Hk. set_solver.
Qed.
Lemma check_keys_total declared keys : check_keys declared keys <> Panic.
Proof. induction keys as [|k keys IH]; [done|]. cbn. by case_bool_decide. Qed.
(** A value that says the argument is absent: null or the empty string, with white
    space around it or not. *)
Definition white (cs : list bytes) : Prop := Forall (fun c => is_white_char c = true) cs.
Definition marks_absent (t : bytes) : Prop := t = str "null" \/ t = [DQ; DQ].
Definition absent (raw : bytes) : Prop :=
  exists w1 t w2, raw = concat w1 ++ t ++ concat w2 /\ white w1 /\ white w2 /\ marks_absent t.
Lemma white_is_char c : is_white_char c = true -> is_char c.
Proof.
  unfold is_white_char, is_char, cont, in_range. intros Hw. repeat case_match; try done; subst;
    repeat match goal with H : _ || _ = true |- _ => apply orb_true_iff in H as [H|H] | H : _ && _ = true |- _ => apply andb_true_iff in H as [? ?] end;
    rewrite ?Z.eqb_eq, ?Z.leb_le in *; unfold utf8_char_len; repeat case_match; simplify_eq; try done; cbn in *; unfold cont, in_range in *; rewrite ?andb_false_iff, ?Z.leb_le, ?Z.leb_gt, ?Z.ltb_ge, ?Z.ltb_lt in *; try lia.
Qed.
Lemma drop_white_split cs : exists w, cs = w ++ drop_white cs /\ white w.
Proof.
  unfold white. induction cs as [|c cs (w & E & Hw)]; [by exists []|]. cbn. destruct (is_white_char c) eqn:Hc; [|by exists []].
  exists (c :: w). split; [cbn; by f_equal|by constructor].
Qed.
Definition trimmed (cs : list bytes) : list bytes := rev (drop_white (rev (drop_white cs))).
Lemma trimmed_split cs : exists ws, drop_white cs = trimmed cs ++ ws /\ white ws.
Proof.
  unfold trimmed. destruct (drop_white_split (rev (drop_white cs))) as (ws & Hs & Hw). exists (rev ws). split; [|by apply Forall_rev].
  rewrite <- rev_app_distr, <- Hs. symmetry. apply rev_involutive.
Qed.
Lemma drop_white_app w cs : white w -> drop_white (w ++ cs) = drop_white cs.
Proof. induction 1 as [|c w Hc _ IH]; [done|]. cbn. by rewrite Hc. Qed.
Lemma trimmed_around w1 v w2 : white w1 -> white w2 -> drop_white v = v -> drop_white (rev v) = rev v -> v <> [] ->
  trimmed (w1 ++ v ++ w2) = v.
Proof.
  intros H1 H2 Hv Hr Hne. unfold trimmed. rewrite drop_white_app by done. destruct v as [|c v]; [done|]. cbn in Hv |- *.
  destruct (is_white_char c) eqn:Hc; [|clear Hv].
  { exfalso. destruct (drop_white_split v) as (w & E & _). apply (f_equal length) in Hv, E. rewrite length_app in E. cbn in Hv. lia. }
  change (c :: v ++ w2) with ((c :: v) ++ w2). change (rev v ++ [c]) with (rev (c :: v)) in Hr.
  rewrite rev_app_distr, drop_white_app, Hr by (by apply Forall_rev). apply rev_involutive.
Qed.
Lemma trim_around w1 v w2 : white w1 -> white w2 -> drop_white v = v -> drop_white (rev v) = rev v -> v <> [] -> Forall is_char v ->
  trim (concat w1 ++ concat v ++ concat w2) = concat v.
Proof.
  intros H1 H2 Hv Hr Hne Hc. rewrite <- !concat_app. unfold trim. rewrite utf8_chars_concat.
  - by rewrite <- (trimmed_around w1 v w2 H1 H2 Hv Hr Hne) at 2.
  - rewrite !Forall_app. split_and!; [|done|]; eapply Forall_impl; eauto using white_is_char.
Qed.
Lemma trim_absent raw : marks_absent (trim raw) <-> absent raw.
Proof.
  split.
  - intros Hm. destruct (utf8_chars raw) as [cs|] eqn:Hu.
    + unfold trim in Hm. rewrite Hu in Hm. destruct (utf8_chars_sound _ _ Hu) as [_ <-].
      destruct (drop_white_split cs) as (w1 & E1 & H1), (trimmed_split cs) as (w2 & E2 & H2).
      exists w1, (concat (trimmed cs)), w2. split_and!; try done. by rewrite E1 at 1; rewrite E2, !concat_app.
    + exfalso. unfold trim in Hm. rewrite Hu in Hm. by destruct Hm as [-> | ->].
  - intros (w1 & t & w2 & -> & H1 & H2 & Ht). assert (exists v, concat v = t /\ drop_white v = v /\ drop_white (rev v) = rev v /\ v <> [] /\ Forall is_char v) as (v & Hv & ? & ? & ? & ?).
    { destruct Ht as [-> | ->]; [exists [[110];[117];[108];[108]]|exists [[DQ];[DQ]]]; split_and!; try done; by repeat constructor. }
    rewrite <- Hv, trim_around by done. by rewrite Hv.
Qed.
Lemma supplied_spec map name raw : supplied map name = Some raw <-> map !! name = Some raw /\ ~ absent raw.
Proof.
  rewrite <- trim_absent. unfold supplied, marks_absent. destruct (map !! name) as [r|]; [|naive_solver].
  case_bool_decide; cbn; [naive_solver|]. case_bool_decide; cbn; naive_solver.
Qed.
(** The declared parameter is of its type where it is given, and given where it is
    required. *)
Definition meets (map : gmap bytes bytes) (spec : ParamSpec) : Prop :=
  (forall raw, map !! spec.(param_name) = Some raw -> ~ absent raw -> fits spec.(ty) raw)
  /\ (spec.(required) = true -> exists raw, map !! spec.(param_name) = Some raw /\ ~ absent raw).
Lemma check_params_ok map specs : check_params map specs = Ok tt <-> Forall (meets map) specs.
Proof.
  induction specs as [|spec specs IH]; cbn; [by split|]. rewrite Forall_cons, <- IH. unfold meets.
  pose proof (supplied_spec map (param_name spec)) as Hsup. destruct (supplied map _) as [raw|].
  - destruct (proj1 (Hsup raw) eq_refl) as [Hm Ha]. rewrite Hm. pose proof (check_value_fits (param_name spec) (ty spec) raw) as Hf.
    assert (Hfit : check_value (param_name spec) (ty spec) raw = Ok tt
      <-> (forall r, Some raw = Some r -> ~ absent r -> fits (ty spec) r) /\ (required spec = true -> exists r, Some raw = Some r /\ ~ absent r)).
    { rewrite Hf. split; [intros Hfit; split; [by intros ? [= <-]|by exists raw]|intros [Hfit _]; by apply Hfit]. }
    rewrite <- Hfit. destruct (check_value _ _ raw) as [[]|e|]; cbn; [tauto|split; [done|by intros [? _]]..].
  - assert (Hno : forall raw, map !! param_name spec = Some raw -> ~ absent raw -> False) by (intros raw H1 H2; by pose proof (proj2 (Hsup raw) (conj H1 H2))).
    destruct (required spec); cbn; naive_solver.
Qed.
Lemma check_params_total map specs : check_params map specs <> Panic.
Proof.
  induction specs as [|spec specs IH]; [done|]. cbn. destruct (supplied map _) as [raw|].
  - pose proof (check_value_total (param_name spec) (ty spec) raw). by destruct (check_value _ _ raw).
  - by destruct (required spec).
Qed.

Lemma validate_args_total schema args : validate_args schema args <> Panic.
Proof.
  unfold validate_args, parse_args. destruct (normalize_lenient_args args) as [|b l] eqn:E; cbn [obind].
  - destruct (deny_unknown schema); cbn; apply check_params_total.
  - pose proof (from_slice_total (b :: l)). destruct (from_slice (b :: l)) as [m|e|]; [|done..]. cbn.
    pose proof (check_keys_total (param_name <$> params schema) (btree_keys m)).
    destruct (deny_unknown schema); [|by apply check_params_total].
    destruct (check_keys _ _) as [[]|e|]; cbn; [apply check_params_total|done..].
Qed.

(** What the repaired text says: nothing is the empty set of arguments, and
    otherwise the parser must read an object. *)
Definition reads (text : bytes) (map : gmap bytes bytes) : Prop :=
  (text = [] /\ map = ∅) \/ (text <> [] /\ from_slice text = Ok map).
Lemma parse_args_reads text map : parse_args text = Ok map <-> reads text map.
Proof.
  unfold reads. destruct text as [|b l]; cbn [parse_args]; [naive_solver|]. destruct (from_slice (b :: l)); cbn [omap_err]; naive_solver.
Qed.
(** [C34] The argument check is total and fail-closed: it accepts exactly when the
    repaired text is empty, or is read by the JSON parser as an object, whose keys
    are declared where unknown ones are denied, every given argument is of its
    declared type and within its bounds, and every required one is given; null and
    the empty string, white space around them or not, count as not given. Text the
    parser refuses is refused, as no object or as malformed. The verdict is the same
    on the repaired text. *)
Theorem validate_args_accepts schema args :
  validate_args schema args <> Panic
  /\ (validate_args schema args = Ok tt <->
      exists map, reads (normalize_lenient_args args) map
        /\ (schema.(deny_unknown) = true -> forall k, is_Some (map !! k) -> k ∈ (param_name <$> schema.(params)))
        /\ Forall (meets map) schema.(params))
  /\ (forall e, normalize_lenient_args args <> [] -> from_slice (normalize_lenient_args args) = Err e ->
      validate_args schema args = Err (if is_data e then SchemaError.NotAnObject else SchemaError.Malformed (to_string e)))
  /\ validate_args schema (normalize_lenient_args args) = validate_args schema args.
Proof.
  split; [apply validate_args_total|]. unfold validate_args. destruct (lenient_repair_exact args) as (-> & _).
  pose proof (parse_args_reads (normalize_lenient_args args)) as Hreads. split_and!; [|intros e Hne He; destruct (normalize_lenient_args args); [done|]; cbn; by rewrite He|done].
  setoid_rewrite <- Hreads. destruct (parse_args (normalize_lenient_args args)) as [m|e|]; cbn; [|naive_solver..].
  split.
  - intros Hv. exists m. split; [done|]. rewrite <- check_params_ok. destruct (deny_unknown schema); [|done].
    destruct (check_keys _ _) as [[]|e|] eqn:Hk; [|done..]. split; [|exact Hv]. intros _ k Hs.
    by apply (proj1 (check_keys_ok _ _) Hk), elem_of_btree_keys.
  - intros (? & [= <-] & Hk & Hp%check_params_ok). destruct (deny_unknown schema); [|done].
    rewrite (proj2 (check_keys_ok _ _)); [exact Hp|]. intros k Hin. by apply Hk, elem_of_btree_keys.
Qed.

(** The example value of a type is of that type exactly when a short
    enough placeholder fits: a string type below eight bytes, a bytes type below
    seven, crossed integer bounds and an empty enumeration have an example that the
    check refuses. *)
Definition example_fits (ty : ParamType) : Prop :=
  match ty with
  | Int (Some lo) (Some hi) => lo <= hi
  | Int _ _ | Bool => True
  | Bytes n => (7 <= n)%nat
  | Str n => (8 <= n)%nat
  | Enum allowed => allowed <> ∅
  end.
Definition param_typed (ty : ParamType) : Prop :=
  match ty with
  | Int mn mx => (forall n, mn = Some n -> i64_min <= n <= i64_max) /\ (forall n, mx = Some n -> i64_min <= n <= i64_max)
  | Enum allowed => forall v, v ∈ allowed -> json_plain v
  | _ => True
  end.
Lemma least_in s v : least s = Some v -> v ∈ s.
Proof.
  unfold least. destruct (btree_keys _) as [|k ks] eqn:E; [done|]. intros [= <-].
  assert (Hk : k ∈ btree_keys (gset_to_gmap tt s)) by (rewrite E; left).
  apply elem_of_btree_keys in Hk as [u Hu]. by apply lookup_gset_to_gmap_Some in Hu as [? _].
Qed.
Lemma least_none s : least s = None -> s = ∅.
Proof.
  unfold least. destruct (btree_keys _) as [|k ks] eqn:E; [|done]. intros _. apply leibniz_equiv, elem_of_equiv_empty.
  intros v Hv. assert (v ∈ btree_keys (gset_to_gmap tt s)) as Hin; [|rewrite E in Hin; set_solver].
  apply elem_of_btree_keys. exists tt. by apply lookup_gset_to_gmap_Some.
Qed.
Lemma quoted_ok s : json_plain s -> from_str_string (quote s) = Some s.
Proof. apply from_str_string_text. Qed.
Lemma example_value_fits ty : param_typed ty -> (fits ty (example_value ty) <-> example_fits ty).
Proof.
  destruct ty as [mn mx|n|n| |allowed]; cbn [fits example_value example_fits param_typed].
  - intros [H1 H2]. assert (Hz : from_str_i64 (str "0") = Some 0) by (by apply (from_str_i64_text 0)).
    destruct mn as [lo|], mx as [hi|].
    + rewrite from_str_i64_text by auto. naive_solver.
    + rewrite from_str_i64_text by auto. naive_solver lia.
    + destruct (Z.ltb_spec hi 0); [rewrite from_str_i64_text by auto|rewrite Hz]; naive_solver lia.
    + rewrite Hz. naive_solver.
  - intros _. rewrite quoted_ok by (by split; [|repeat constructor]). naive_solver.
  - intros _. rewrite quoted_ok by (by split; [|repeat constructor]). naive_solver.
  - rewrite from_str_bool_text. naive_solver.
  - intros Hp. destruct (least allowed) as [v|] eqn:Hl.
    + pose proof (least_in _ _ Hl) as Hv. rewrite quoted_ok by auto. split; [intros _; set_solver|eauto].
    + apply least_none in Hl as ->. split; [intros (? & _ & ?); set_solver|done].
Qed.
End Accepts.

(** ** A concrete reader *)
Definition demo_object (s : bytes) : outcome (gmap bytes bytes) JsonError :=
  if bool_decide (s = str "{}") then Ok ∅
  else if bool_decide (s = [123] ++ quote (str "n") ++ str ":5}") then Ok {[str "n" := str "5"]}
  else Err {| is_data := false; to_string := str "expected value" |}.
Definition demo_string (s : bytes) : option bytes :=
  let body := removelast (tail s) in
  if bool_decide (s = quote body) then Some body else None.
Definition demo_serde : SerdeJson.
Proof.
  refine {| from_slice := demo_object; from_str_i64 := parse_i64; from_str_string := demo_string;
            from_str_bool := fun s => if bool_decide (s = str "false") then Some false else None |}.
  - intros s m. unfold demo_object. repeat case_bool_decide; [..|done]; intros _; subst.
    + exists [], (str "{}"), []. split_and!; try done; try by apply Forall_nil. apply (value_object []), Forall_nil_2.
    + exists [], ([123] ++ (quote (str "n") ++ str ":5") ++ [125]), []. split_and!; try done; try by apply Forall_nil.
      apply value_members, members_one, (member [] (quote (str "n")) [] [] (str "5") []); try by apply Forall_nil.
      * exists (str "n"). split; [by repeat constructor|done].
      * apply value_scalar; [done|]. apply Forall_singleton. left. by split.
  - intros s. unfold demo_object. by repeat case_bool_decide.
  - apply parse_i64_to_string.
  - intros s _. unfold demo_string. change (tail ([DQ] ++ s ++ [DQ])) with (s ++ [DQ]).
    rewrite removelast_last. by rewrite bool_decide_true.
  - done.
Defined.
Definition demo_schema : InputSchema :=
  {| params := [{| param_name := str "n"; ty := Int (Some 1) (Some 9); required := true |}]; deny_unknown := true |}.
Lemma validate_args_accepts_witness :
  validate_args (H := demo_serde) demo_schema (str "{n:5,}") = Ok tt
  /\ validate_args (H := demo_serde) demo_schema (str "{}") <> Ok tt
  /\ validate_args (H := demo_serde) demo_schema (str "{n") = Err (SchemaError.Malformed (str "expected value")).
Proof.
  split_and!.
  - destruct (validate_args_accepts (H := demo_serde) demo_schema (str "{n:5,}")) as (_ & Hok & _). apply Hok. exists {[str "n" := str "5"]}. split_and!.
    + right. split; [by vm_compute|by vm_compute].
    + intros _ k [v [<- _]%lookup_singleton_Some]. set_solver.
    + apply Forall_singleton. split; cbn [param_name ty required].
      * intros raw [_ <-]%lookup_singleton_Some _. exists 5. split_and!; [by vm_compute|naive_solver lia..].
      * intros _. exists (str "5"). split; [by vm_compute|]. rewrite <- trim_absent. vm_compute. by intros [|].
  - destruct (validate_args_accepts (H := demo_serde) demo_schema (str "{}")) as (_ & Hok & _). intros (m & Hm & _ & Hp)%Hok.
    destruct Hm as [[Hm _]|[_ Hm]]; [by vm_compute in Hm|]. assert (m = ∅) as -> by (vm_compute in Hm; by injection Hm as <-).
    apply Forall_inv, proj2 in Hp. by destruct (Hp eq_refl) as (? & ? & _).
  - destruct (validate_args_accepts (H := demo_serde) demo_schema (str "{n")) as (_ & _ & Herr & _).
    by apply (Herr {| is_data := false; to_string := str "expected value" |}).
Defined.
