(* ===== verification/Text.v ===== *)
(** Rust's [str] operations on byte strings, and JSON values as serde_json holds
    them. A search in a valid text by a valid needle is a search of its bytes, and
    a cut next to an ASCII byte is at a char boundary. *)
From S2P Require Import Prelude Utf8 CriticTypes Mote Critic Digits ParamSchema.

(** ** Searching *)
Definition starts_with (t p : bytes) : bool := bool_decide (take (length p) t = p).
Fixpoint contains_text (t p : bytes) : bool :=
  starts_with t p || match t with [] => false | _ :: t => contains_text t p end.
Definition strip_prefix (t p : bytes) : option bytes :=
  if starts_with t p then Some (drop (length p) t) else None.
Fixpoint find (t p : bytes) : option nat :=
  if starts_with t p then Some O else match t with [] => None | _ :: t => S <$> find t p end.
Fixpoint rfind (t p : bytes) : option nat :=
  match t with
  | [] => if starts_with t p then Some O else None
  | _ :: r => match rfind r p with
              | Some i => Some (S i)
              | None => if starts_with t p then Some O else None
              end
  end.
(** [t.find(c)] for an ASCII char. *)
Fixpoint find_byte (c : Z) (t : bytes) : option nat :=
  match t with
  | [] => None
  | b :: t => if b =? c then Some O else S <$> find_byte c t
  end.
Definition split_once (c : Z) (t : bytes) : option (bytes * bytes) :=
  (fun i => (take i t, drop (S i) t)) <$> find_byte c t.
(** [t.split(pred)]: the pieces between the bytes that [sep] accepts. *)
Fixpoint split_by (sep : Z -> bool) (t : bytes) : list bytes :=
  match t with
  | [] => [[]]
  | b :: t => if sep b then [] :: split_by sep t
              else match split_by sep t with
                   | p :: ps => (b :: p) :: ps
                   | [] => [[b]]
                   end
  end.
Definition split_first (sep : Z -> bool) (t : bytes) : bytes := default t (head (split_by sep t)).
Definition rsplit_once (c : Z) (t : bytes) : option (bytes * bytes) :=
  (fun i => (take i t, drop (S i) t)) <$> rfind t [c].
Definition replace_byte (a b : Z) (t : bytes) : bytes := (fun x => if x =? a then b else x) <$> t.
Definition quoted (b : bytes) : bytes := [34] ++ b ++ [34].

(** ** White space *)
Definition trim_start (s : bytes) : bytes :=
  match utf8_chars s with Some cs => concat (drop_white cs) | None => s end.
(** [s.split_whitespace().count()] *)
Fixpoint words (inside : bool) (cs : list bytes) : nat :=
  match cs with
  | [] => O
  | c :: cs => if is_white_char c then words false cs
               else (if inside then O else 1%nat) + words true cs
  end%nat.
Definition word_count (s : bytes) : nat := match utf8_chars s with Some cs => words false cs | None => O end.
Definition to_ascii_lowercase (s : bytes) : bytes := (fun b => if in_range 65 90 b then b + 32 else b) <$> s.

(** ** JSON values
    A float is kept as its bit pattern. An object's members are in key order, one
    to a key. *)
Inductive Value :=
| Null
| VBool (b : bool)
| VInt (n : Z)
| VFloat (bits : Z)
| VString (s : bytes)
| VArray (l : list Value)
| VObject (m : list (bytes * Value)).
Fixpoint member_insert (k : bytes) (v : Value) (m : list (bytes * Value)) : list (bytes * Value) :=
  match m with
  | [] => [(k, v)]
  | (k', v') :: r => if bool_decide (k = k') then (k, v) :: r
                     else if bytes_le k k' then (k, v) :: m
                     else (k', v') :: member_insert k v r
  end.
Fixpoint member_get (k : bytes) (m : list (bytes * Value)) : option Value :=
  match m with
  | [] => None
  | (k', v) :: m => if bool_decide (k = k') then Some v else member_get k m
  end.
Definition value_get (v : Value) (k : bytes) : option Value :=
  match v with VObject m => member_get k m | _ => None end.
Definition as_str (v : Value) : option bytes := match v with VString s => Some s | _ => None end.
Definition as_array (v : Value) : option (list Value) := match v with VArray l => Some l | _ => None end.
(** serde_json on untyped values: the third-party reader and writer. *)
Class SerdeValue := {
  value_from_slice : bytes -> option Value;
  value_to_vec : Value -> bytes
}.

Lemma starts_with_spec t p : starts_with t p = true <-> exists r, t = p ++ r.
Proof.
  unfold starts_with. rewrite bool_decide_eq_true. split.
  - intros E. exists (drop (length p) t). by rewrite <- E at 1; rewrite take_drop.
  - intros [r ->]. by rewrite take_app_length.
Qed.
Lemma starts_with_app p r : starts_with (p ++ r) p = true.
Proof. apply starts_with_spec. by exists r. Qed.
Lemma strip_prefix_spec t p r : strip_prefix t p = Some r <-> t = p ++ r.
Proof.
  unfold strip_prefix. destruct (starts_with t p) eqn:E.
  - apply starts_with_spec in E as [r' ->]. rewrite drop_app_length. split; [by intros [= ->]|].
    intros ->%app_inv_head. done.
  - split; [done|]. intros ->. by rewrite starts_with_app in E.
Qed.
Lemma drop_white_length cs : (length (concat (drop_white cs)) <= length (concat cs))%nat.
Proof.
  induction cs as [|c cs IH]; [done|]. cbn [drop_white]. destruct (is_white_char c); [|done].
  cbn [concat]. rewrite length_app. lia.
Qed.
Lemma trim_start_length s : (length (trim_start s) <= length s)%nat.
Proof.
  unfold trim_start. destruct (utf8_chars s) as [cs|] eqn:E; [|done].
  apply utf8_chars_sound in E as [_ <-]. apply drop_white_length.
Qed.
Lemma contains_text_app t p r : contains_text (t ++ p ++ r) p = true.
Proof.
  induction t as [|b t IH].
  - cbn [app]. destruct (p ++ r) eqn:E; cbn [contains_text]; rewrite <- E, starts_with_app; done.
  - cbn [app contains_text]. by rewrite IH, orb_true_r.
Qed.
