(* ===== verification/ToolRegistry.v ===== *)
(** kx-tool-registry: tool definitions, their registration and review, resolution
    against a warrant (registry.rs, token.rs, tool_def.rs), and the durable
    registry (sqlite.rs). Canonical bincode is the class [Bincode]; an SQL table is
    the list of its rows. *)
From S2P Require Import Prelude Utf8 CriticTypes Mote Warrant Content Refusal ParamSchema.

(** ** Data *)
Module ToolKind.
Inductive ToolKind :=
| Builtin
| LocalScript (script_ref : ContentRef)
| External (source_url : bytes)
| Mcp (endpoint remote_name : bytes)
| SelfGenerated (generated_at_mote : MoteId).
End ToolKind.
Abbreviation ToolKind := ToolKind.ToolKind.
Module ToolDef.
Record ToolDef := {
  tool_id : bytes;
  tool_version : bytes;
  kind : ToolKind;
  required_capability : ToolRequirement;
  description : bytes;
  idempotency_class : IdempotencyClass;
  input_schema : option InputSchema
}.
End ToolDef.
Abbreviation ToolDef := ToolDef.ToolDef.
Module ToolProvenance.
Inductive ToolProvenance :=
| HumanAuthored (author : bytes)
| SelfGenerated (generating_lineage_warrant : WarrantSpec) (generating_mote : MoteId).
End ToolProvenance.
Abbreviation ToolProvenance := ToolProvenance.ToolProvenance.
Inductive RegistrationStatus := Approved | PendingHumanReview.
Abbreviation RegistrationToken := bytes.
Abbreviation ReviewerId := bytes.
Record ToolResolutionEvent := {
  ev_tool_id : bytes;
  ev_tool_version : bytes;
  resolved_kind : ToolKind;
  resolved_def_hash : ContentRef;
  ev_idempotency_class : IdempotencyClass
}.
Record ResolvedTool := {
  resolved_def : ToolDef;
  event : ToolResolutionEvent;
  event_ref : ContentRef;
  effective_capability : ToolRequirement
}.
Module ResolutionError.
Inductive ResolutionError :=
| NotFound (tool_id tool_version : bytes)
| CapabilityExceedsWarrant (axis : WarrantField)
| McpUnreachable (endpoint : bytes)
| PendingHumanReview (token : RegistrationToken).
End ResolutionError.
Abbreviation ResolutionError := ResolutionError.ResolutionError.
Module RegistrationError.
Inductive RegistrationError :=
| InvalidLineageSubset (axis : WarrantField)
| UnknownToken (token : RegistrationToken)
| AlreadyApproved (token : RegistrationToken)
| NotPendingReview (token : RegistrationToken)
| Storage (message : bytes).
End RegistrationError.
Abbreviation RegistrationError := RegistrationError.RegistrationError.
Record RegistrationRecord := {
  rec_def : ToolDef;
  provenance : ToolProvenance;
  reg_status : RegistrationStatus;
  approved_by : option ReviewerId
}.
(** A [(ToolName, ToolVersion)] key and the order of keys. *)
Abbreviation ToolKey := (bytes * bytes)%type.
Definition tool_key (d : ToolDef) : ToolKey := (d.(ToolDef.tool_id), d.(ToolDef.tool_version)).
Definition toolkey_le (a b : ToolKey) : bool :=
  if bool_decide (a.1 = b.1) then bytes_le a.2 b.2 else bytes_le a.1 b.1.
Record InMemoryToolRegistry := {
  by_key : gmap ToolKey RegistrationRecord;
  by_token : gmap RegistrationToken ToolKey
}.

(** ** The registry trait *)
Class ToolRegistry (R : Type) := {
  lookup_tool : R -> bytes -> bytes -> option ToolDef;
  resolve_tool : R -> ToolGrant -> WarrantSpec -> outcome ResolvedTool ResolutionError;
  register_tool : R -> ToolDef -> ToolProvenance -> outcome RegistrationToken RegistrationError * R;
  approve_registration : R -> RegistrationToken -> ReviewerId -> outcome unit RegistrationError * R
}.

Section Registry.
Context `{Blake3} `{!Bincode ToolDef} `{!Bincode ToolProvenance} `{!Bincode (ToolDef * ToolProvenance)}
  `{!Bincode ToolResolutionEvent}.
Definition registration_token_of (def : ToolDef) (provenance : ToolProvenance) : RegistrationToken :=
  ContentRef_of (bincode_encode (def, provenance)).
Definition to_ref (e : ToolResolutionEvent) : ContentRef := ContentRef_of (bincode_encode e).

Definition tools_new : InMemoryToolRegistry := {| by_key := ∅; by_token := ∅ |}.
Definition initial_status (p : ToolProvenance) : RegistrationStatus :=
  match p with
  | ToolProvenance.HumanAuthored _ => Approved
  | ToolProvenance.SelfGenerated _ _ => PendingHumanReview
  end.
Definition mem_lookup (r : InMemoryToolRegistry) (id version : bytes) : option ToolDef :=
  match r.(by_key) !! (id, version) with
  | Some rec => match rec.(reg_status) with Approved => Some rec.(rec_def) | PendingHumanReview => None end
  | None => None
  end.
Definition mem_resolve (r : InMemoryToolRegistry) (grant : ToolGrant) (warrant : WarrantSpec)
    : outcome ResolvedTool ResolutionError :=
  match r.(by_key) !! (grant.(ToolGrant.tool_id), grant.(ToolGrant.tool_version)) with
  | None => Err (ResolutionError.NotFound grant.(ToolGrant.tool_id) grant.(ToolGrant.tool_version))
  | Some rec =>
      match rec.(reg_status) with
      | PendingHumanReview =>
          Err (ResolutionError.PendingHumanReview (registration_token_of rec.(rec_def) rec.(provenance)))
      | Approved =>
          match check_tool_requirement rec.(rec_def).(ToolDef.required_capability) warrant with
          | Err denied => Err (ResolutionError.CapabilityExceedsWarrant denied.(field))
          | Panic => Panic
          | Ok _ =>
              let event := {| ev_tool_id := grant.(ToolGrant.tool_id); ev_tool_version := grant.(ToolGrant.tool_version);
                              resolved_kind := rec.(rec_def).(ToolDef.kind);
                              resolved_def_hash := ContentRef_of (bincode_encode rec.(rec_def));
                              ev_idempotency_class := rec.(rec_def).(ToolDef.idempotency_class) |} in
              Ok {| resolved_def := rec.(rec_def); event := event; event_ref := to_ref event;
                    effective_capability := rec.(rec_def).(ToolDef.required_capability) |}
          end
      end
  end.
Definition mem_register (r : InMemoryToolRegistry) (def : ToolDef) (p : ToolProvenance)
    : outcome RegistrationToken RegistrationError * InMemoryToolRegistry :=
  let token := registration_token_of def p in
  (Ok token,
   {| by_key := <[tool_key def := {| rec_def := def; provenance := p; reg_status := initial_status p; approved_by := None |}]>
                  r.(by_key);
      by_token := <[token := tool_key def]> r.(by_token) |}).
Definition mem_approve (r : InMemoryToolRegistry) (token : RegistrationToken) (approver : ReviewerId)
    : outcome unit RegistrationError * InMemoryToolRegistry :=
  match r.(by_token) !! token with
  | None => (Err (RegistrationError.UnknownToken token), r)
  | Some key =>
      match r.(by_key) !! key with
      | None => (Panic, r)
      | Some rec =>
          match rec.(reg_status) with
          | Approved => (Err (RegistrationError.AlreadyApproved token), r)
          | PendingHumanReview =>
              match rec.(provenance) with
              | ToolProvenance.HumanAuthored _ => (Err (RegistrationError.NotPendingReview token), r)
              | ToolProvenance.SelfGenerated lineage _ =>
                  match check_tool_requirement rec.(rec_def).(ToolDef.required_capability) lineage with
                  | Err denied => (Err (RegistrationError.InvalidLineageSubset denied.(field)), r)
                  | Panic => (Panic, r)
                  | Ok _ =>
                      (Ok tt,
                       {| by_key := <[key := {| rec_def := rec.(rec_def); provenance := rec.(provenance);
                                                reg_status := Approved; approved_by := Some approver |}]> r.(by_key);
                          by_token := r.(by_token) |})
                  end
              end
          end
      end
  end.
#[export] Instance InMemory_ToolRegistry : ToolRegistry InMemoryToolRegistry := {|
  lookup_tool := mem_lookup; resolve_tool := mem_resolve; register_tool := mem_register; approve_registration := mem_approve |}.
Definition tools_len (r : InMemoryToolRegistry) : nat := size r.(by_key).
(** [by_key.values()] in key order, the approved ones. *)
Definition toolkey_rel {V} (a b : ToolKey * V) : Prop := toolkey_le a.1 b.1 = true.
#[export] Instance toolkey_rel_dec {V} : RelDecision (@toolkey_rel V).
Proof. intros a b. unfold toolkey_rel. apply _. Defined.
Definition approved_defs (r : InMemoryToolRegistry) : list ToolDef :=
  rec_def <$> List.filter (fun rec => match rec.(reg_status) with Approved => true | _ => false end)
                (merge_sort toolkey_rel (map_to_list r.(by_key))).*2.
(** The events of a warrant's grants, in order; the first failure ends it. *)
Definition grant_le (a b : ToolGrant) : Prop :=
  toolkey_le (a.(ToolGrant.tool_id), a.(ToolGrant.tool_version)) (b.(ToolGrant.tool_id), b.(ToolGrant.tool_version)) = true.
#[export] Instance grant_le_dec : RelDecision grant_le.
Proof. intros a b. unfold grant_le. apply _. Defined.
Definition grants_iter (gs : gset ToolGrant) : list ToolGrant := merge_sort grant_le (elements gs).
Fixpoint resolve_all `{!ToolRegistry R} (r : R) (warrant : WarrantSpec) (gs : list ToolGrant)
    : outcome (list ResolvedTool) ResolutionError :=
  match gs with
  | [] => Ok []
  | g :: gs => let* t := resolve_tool r g warrant in
               let* ts := resolve_all r warrant gs in
               Ok (t :: ts)
  end.
Definition resolve_run_versions `{!ToolRegistry R} (r : R) (warrant : WarrantSpec)
    : outcome (list ToolResolutionEvent) ResolutionError :=
  let* ts := resolve_all r warrant (grants_iter warrant.(WarrantSpec.tool_grants)) in Ok (event <$> ts).

(** ** Built-ins *)
Definition builtin_requirement : ToolRequirement := {|
  ToolRequirement.net_scope_required := NetScope.None; ToolRequirement.fs_scope_required := FsScope.empty;
  ToolRequirement.syscall_profile_ref := replicate 32 0; ToolRequirement.min_resource_ceiling := ResourceCeiling.zero |}.
Definition builtin_def (name : bytes) (text : bytes) (class : IdempotencyClass) : ToolDef := {|
  ToolDef.tool_id := name; ToolDef.tool_version := str "1"; ToolDef.kind := ToolKind.Builtin;
  ToolDef.required_capability := builtin_requirement; ToolDef.description := text; ToolDef.idempotency_class := class;
  ToolDef.input_schema := None |}.
Definition builtin_registrations : list (ToolDef * ToolProvenance) :=
  [(builtin_def (str "fs-read")
      (str "Read bytes from a path declared in the warrant's fs_scope. Read-only; naturally idempotent.")
      IdempotencyClass.Readback, ToolProvenance.HumanAuthored (str "kortecx-oss"));
   (builtin_def (str "fs-write")
      (str "Write the complete intended file content to a path declared in the warrant's fs_scope (overwrite-only; no append; staged-intent dispatch).")
      IdempotencyClass.Staged, ToolProvenance.HumanAuthored (str "kortecx-oss"))].
Definition register_each (r : InMemoryToolRegistry) (l : list (ToolDef * ToolProvenance)) : InMemoryToolRegistry :=
  foldl (fun r x => (mem_register r x.1 x.2).2) r l.
Definition with_builtins : InMemoryToolRegistry := register_each tools_new builtin_registrations.

(** ** The durable registry *)
Record ToolRow := {
  row_tool_id : bytes;
  row_name : bytes;
  row_version : bytes;
  row_is_builtin : bool;
  row_server_host : option bytes;
  def_canonical : bytes;
  prov_canonical : bytes
}.
Record SqliteToolRegistry := { conn : list ToolRow; inner : InMemoryToolRegistry }.
Definition tool_id_of (token : RegistrationToken) : bytes := take 16 token.
Definition decode_def (b : bytes) : outcome ToolDef RegistrationError :=
  match bincode_decode b with Some (d, _) => Ok d | None => Err (RegistrationError.Storage (str "decode ToolDef")) end.
Definition decode_prov (b : bytes) : outcome ToolProvenance RegistrationError :=
  match bincode_decode b with Some (p, _) => Ok p | None => Err (RegistrationError.Storage (str "decode ToolProvenance")) end.
Definition row_key (x : ToolRow) : ToolKey := (x.(row_name), x.(row_version)).
(** The two unique columns: the id and the pair of name and version. *)
Definition conflicts (x y : ToolRow) : bool :=
  bool_decide (x.(row_tool_id) = y.(row_tool_id)) || bool_decide (row_key x = row_key y).
Definition make_row (def : ToolDef) (p : ToolProvenance) (is_builtin : bool) (server_host : option bytes) : ToolRow := {|
  row_tool_id := tool_id_of (registration_token_of def p); row_name := def.(ToolDef.tool_id); row_version := def.(ToolDef.tool_version);
  row_is_builtin := is_builtin; row_server_host := server_host; def_canonical := bincode_encode def;
  prov_canonical := bincode_encode p |}.
(** [INSERT OR IGNORE] and [INSERT OR REPLACE]. *)
Definition insert_or_ignore (rows : list ToolRow) (x : ToolRow) : list ToolRow :=
  if existsb (conflicts x) rows then rows else rows ++ [x].
Definition insert_or_replace (rows : list ToolRow) (x : ToolRow) : list ToolRow :=
  List.filter (fun y => negb (conflicts x y)) rows ++ [x].
Definition seed_builtins (rows : list ToolRow) : list ToolRow :=
  foldl (fun rows x => insert_or_ignore rows (make_row x.1 x.2 true None)) rows builtin_registrations.
Definition row_le (x y : ToolRow) : Prop := toolkey_le (row_key x) (row_key y) = true.
#[export] Instance row_le_dec : RelDecision row_le.
Proof. intros x y. unfold row_le. apply _. Defined.
Definition ordered (rows : list ToolRow) : list ToolRow := merge_sort row_le rows.
Fixpoint rebuild_from (r : InMemoryToolRegistry) (rows : list ToolRow) : outcome InMemoryToolRegistry RegistrationError :=
  match rows with
  | [] => Ok r
  | x :: rows =>
      let* def := decode_def x.(def_canonical) in
      let* prov := decode_prov x.(prov_canonical) in
      rebuild_from (mem_register r def prov).2 rows
  end.
Definition rebuild_inner (rows : list ToolRow) : outcome InMemoryToolRegistry RegistrationError :=
  rebuild_from tools_new (ordered rows).
Definition from_conn (rows : list ToolRow) : outcome SqliteToolRegistry RegistrationError :=
  let rows := seed_builtins rows in
  let* inner := rebuild_inner rows in
  Ok {| conn := rows; inner := inner |}.
(** A failed rebuild leaves the written row and the old fold. *)
Definition refold {A} (rows : list ToolRow) (old : InMemoryToolRegistry) (a : A)
    : outcome A RegistrationError * SqliteToolRegistry :=
  match rebuild_inner rows with
  | Ok inner => (Ok a, {| conn := rows; inner := inner |})
  | Err e => (Err e, {| conn := rows; inner := old |})
  | Panic => (Panic, {| conn := rows; inner := old |})
  end.
Definition register_inner (r : SqliteToolRegistry) (def : ToolDef) (p : ToolProvenance) (is_builtin : bool)
    (server_host : option bytes) : outcome RegistrationToken RegistrationError * SqliteToolRegistry :=
  refold (insert_or_replace r.(conn) (make_row def p is_builtin server_host)) r.(inner) (registration_token_of def p).
Definition register_durable (r : SqliteToolRegistry) (def : ToolDef) (p : ToolProvenance) (server_host : option bytes) :=
  register_inner r def p false server_host.
Definition register_server_tool (r : SqliteToolRegistry) (def : ToolDef) (p : ToolProvenance) (server_host : option bytes) :=
  register_inner r def p true server_host.
Definition removable (name version : bytes) (x : ToolRow) : bool :=
  bool_decide (row_key x = (name, version)) && negb x.(row_is_builtin).
Definition deregister (r : SqliteToolRegistry) (name version : bytes)
    : outcome bool RegistrationError * SqliteToolRegistry :=
  let rows := List.filter (fun x => negb (removable name version x)) r.(conn) in
  if (0 <? length r.(conn) - length rows)%nat then refold rows r.(inner) true else (Ok false, r).
Record RegisteredEntry := {
  entry_tool_id : bytes;
  entry_def : ToolDef;
  entry_provenance : ToolProvenance;
  entry_is_builtin : bool;
  entry_server_host : option bytes
}.
Fixpoint decode_rows (rows : list ToolRow) : outcome (list RegisteredEntry) RegistrationError :=
  match rows with
  | [] => Ok []
  | x :: rows =>
      if negb (length x.(row_tool_id) =? 16)%nat then Err (RegistrationError.Storage (str "tool_id is not 16 bytes"))
      else
        let* def := decode_def x.(def_canonical) in
        let* prov := decode_prov x.(prov_canonical) in
        let* out := decode_rows rows in
        Ok ({| entry_tool_id := x.(row_tool_id); entry_def := def; entry_provenance := prov;
               entry_is_builtin := x.(row_is_builtin); entry_server_host := x.(row_server_host) |} :: out)
  end.
Definition toolkey_lt (a b : ToolKey) : bool := toolkey_le a b && negb (bool_decide (a = b)).
Definition discover (r : SqliteToolRegistry) (limit : nat) (after : option ToolKey)
    : outcome (list RegisteredEntry) RegistrationError :=
  decode_rows (take limit (ordered (List.filter (fun x =>
    match after with Some k => toolkey_lt k (row_key x) | None => true end) r.(conn)))).
#[export] Instance Sqlite_ToolRegistry : ToolRegistry SqliteToolRegistry := {|
  lookup_tool r := mem_lookup r.(inner); resolve_tool r := mem_resolve r.(inner);
  register_tool r def p := register_durable r def p None;
  approve_registration r token _ := (Err (RegistrationError.UnknownToken token), r) |}.

(** ** Review *)
Inductive RegistryOp :=
| OpRegister (def : ToolDef) (p : ToolProvenance)
| OpApprove (token : RegistrationToken) (approver : ReviewerId).
Definition tool_op (r : InMemoryToolRegistry) (o : RegistryOp) : InMemoryToolRegistry :=
  match o with
  | OpRegister def p => (mem_register r def p).2
  | OpApprove token who => (mem_approve r token who).2
  end.
Definition run_tool_ops (ops : list RegistryOp) : InMemoryToolRegistry := foldl tool_op tools_new ops.
(** The registration in force under a name and version is the last one. *)
Definition other_key (k : ToolKey) (o : RegistryOp) : Prop := match o with OpRegister d _ => tool_key d <> k | OpApprove _ _ => True end.
Definition current (ops : list RegistryOp) (d : ToolDef) (p : ToolProvenance) : Prop :=
  exists before after, ops = before ++ OpRegister d p :: after /\ Forall (other_key (tool_key d)) after.
(** Since it was registered, an approval was given, for the token of a registration
    under its name and version. *)
Definition approved_since (ops : list RegistryOp) (d : ToolDef) (p : ToolProvenance) : Prop :=
  exists before mid token who rest d0 p0,
    ops = (before ++ OpRegister d p :: mid) ++ OpApprove token who :: rest /\ Forall (other_key (tool_key d)) (mid ++ rest)
    /\ OpRegister d0 p0 ∈ before ++ OpRegister d p :: mid /\ tool_key d0 = tool_key d /\ token = registration_token_of d0 p0.
(** Why a record may be used: a person wrote it, or it stays within the warrant of
    the Mote that generated it and was approved. *)
Definition reviewed (ops : list RegistryOp) (rec : RegistrationRecord) : Prop :=
  match rec.(provenance) with
  | ToolProvenance.HumanAuthored _ => True
  | ToolProvenance.SelfGenerated lineage _ =>
      check_tool_requirement rec.(rec_def).(ToolDef.required_capability) lineage = Ok tt
      /\ approved_since ops rec.(rec_def) rec.(provenance)
  end.
Record registry_ok (ops : list RegistryOp) (r : InMemoryToolRegistry) : Prop := {
  ok_keyed : forall k rec, r.(by_key) !! k = Some rec -> tool_key rec.(rec_def) = k /\ current ops rec.(rec_def) rec.(provenance);
  ok_tokens : forall t k, r.(by_token) !! t = Some k ->
    is_Some (r.(by_key) !! k) /\ exists d p, OpRegister d p ∈ ops /\ tool_key d = k /\ t = registration_token_of d p;
  ok_pending : forall k rec, r.(by_key) !! k = Some rec -> rec.(reg_status) = PendingHumanReview ->
    exists lineage m, rec.(provenance) = ToolProvenance.SelfGenerated lineage m;
  ok_approved : forall k rec, r.(by_key) !! k = Some rec -> rec.(reg_status) = Approved -> reviewed ops rec
}.
Lemma current_mono ops o d p : other_key (tool_key d) o -> current ops d p -> current (ops ++ [o]) d p.
Proof.
  intros Ho (before & after & -> & Hf). exists before, (after ++ [o]). split; [by rewrite <- app_assoc|].
  apply Forall_app. split; [done|by apply Forall_singleton].
Qed.
Lemma reviewed_mono ops o rec : other_key (tool_key rec.(rec_def)) o -> reviewed ops rec -> reviewed (ops ++ [o]) rec.
Proof.
  intros Ho. unfold reviewed. destruct (provenance rec) eqn:Hp; [done|]. intros (Hc & before & mid & t & w & rest & d0 & p0 & -> & Hf & Ha).
  split; [done|]. exists before, mid, t, w, (rest ++ [o]), d0, p0. split_and!; try apply Ha; [by rewrite <- app_assoc|].
  rewrite app_assoc. apply Forall_app. split; [done|by apply Forall_singleton].
Qed.
Lemma elem_of_snoc_l {A} (x y : A) l : x ∈ l -> x ∈ l ++ [y].
Proof. intros Hx. apply elem_of_app. by left. Qed.
Lemma check_tool_total req w : check_tool_requirement req w <> Panic.
Proof. unfold check_tool_requirement. by repeat case_match. Qed.
Lemma register_ok ops r def p : registry_ok ops r -> registry_ok (ops ++ [OpRegister def p]) (mem_register r def p).2.
Proof.
  intros [H1 H2 H3 H4]. split; cbn.
  - intros k rec [[<- <-]|[Hne Hk]]%lookup_insert_Some; cbn; [split; [done|]; exists ops, []; by split|].
    destruct (H1 k rec Hk) as [Hkey Hc]. split; [done|]. apply current_mono; [by rewrite Hkey|done].
  - intros t k [[<- <-]|[Hne Hk]]%lookup_insert_Some.
    + rewrite lookup_insert_eq. split; [by eexists|]. exists def, p. split_and!; [|done..]. apply elem_of_app. right. by apply list_elem_of_singleton.
    + destruct (H2 t k Hk) as [Hs (d & q & Hin & Hd)]. split; [|exists d, q; split; [by apply elem_of_snoc_l|done]].
      destruct (decide (tool_key def = k)) as [->|]; [rewrite lookup_insert_eq; by eexists|by rewrite lookup_insert_ne].
  - intros k rec [[<- <-]|[Hne Hk]]%lookup_insert_Some; [|by eapply H3]. cbn. destruct p; [done|eauto].
  - intros k rec [[<- <-]|[Hne Hk]]%lookup_insert_Some; cbn; [by destruct p|]. intros Hs.
    apply reviewed_mono; [cbn; by rewrite (proj1 (H1 k rec Hk))|by eapply H4].
Qed.
Lemma approve_keeps ops r token who : registry_ok ops r -> registry_ok (ops ++ [OpApprove token who]) r.
Proof.
  intros [H1 H2 H3 H4]. split; [| |done|].
  - intros k rec Hk. destruct (H1 k rec Hk) as [Hkey Hc]. split; [done|by apply current_mono].
  - intros t k Hk. destruct (H2 t k Hk) as [Hs (d & q & Hin & Hd)]. split; [done|]. exists d, q. split; [by apply elem_of_snoc_l|done].
  - intros k rec Hk Hs. apply reviewed_mono; [done|by eapply H4].
Qed.
Lemma approve_run ops r token who : registry_ok ops r ->
  (mem_approve r token who).1 <> Panic
  /\ (mem_approve r token who).1 <> Err (RegistrationError.NotPendingReview token)
  /\ registry_ok (ops ++ [OpApprove token who]) (mem_approve r token who).2.
Proof.
  intros Hr. pose proof (approve_keeps ops r token who Hr) as Hr'. unfold mem_approve.
  destruct (by_token r !! token) as [key|] eqn:Ht; [|done].
  destruct (ok_tokens _ _ Hr _ _ Ht) as [[rec Hk] (d0 & p0 & Hin & Hd0 & Htok)]. rewrite Hk.
  destruct (reg_status rec) eqn:Hst; [done|]. destruct (ok_pending _ _ Hr _ _ Hk Hst) as (lineage & m & Hp). rewrite Hp.
  pose proof (check_tool_total (ToolDef.required_capability (rec_def rec)) lineage).
  destruct (check_tool_requirement _ lineage) as [[]|e|] eqn:Hc; [|done..]. split_and!; [done..|].
  destruct (ok_keyed _ _ Hr _ _ Hk) as [Hkey (before & mid & Hops & Hf)]. destruct Hr' as [H1 H2 H3 H4]. split; cbn.
  - intros k rec' [[<- <-]|[Hne Hk']]%lookup_insert_Some; [|by apply H1]. cbn. rewrite <- Hp. by apply H1.
  - intros t k Htk. destruct (H2 t k Htk) as [Hs Hr2]. split; [|done]. destruct (decide (key = k)) as [->|]; [rewrite lookup_insert_eq; by eexists|].
    by rewrite lookup_insert_ne.
  - intros k rec' [[<- <-]|[Hne Hk']]%lookup_insert_Some; [done|by eapply H3].
  - intros k rec' [[<- <-]|[Hne Hk']]%lookup_insert_Some; [|by eapply H4]. intros _. unfold reviewed. cbn. split; [done|].
    exists before, mid, token, who, [], d0, p0. rewrite <- Hp, <- Hops. split_and!; [done|by rewrite app_nil_r|done|by rewrite Hd0|done].
Qed.
Lemma run_tool_ops_ok ops : registry_ok ops (run_tool_ops ops).
Proof.
  induction ops as [|o ops IH] using rev_ind; [by split|]. unfold run_tool_ops. rewrite foldl_app. cbn.
  destruct o as [def p|token who]; [by apply register_ok|by apply approve_run].
Qed.

(** [C32] Whatever was registered and approved, a tool that resolves for a grant
    is the one last registered under that name and version, fits the warrant, and
    was written by a person, or fits the warrant of the Mote that generated it and
    has been approved since it was registered, by the token of a registration under
    its own name and version (its own, or an earlier one it replaced); the event pins
    its definition, a wider warrant resolves it too, and review never panics nor
    refuses for a registration that needs none. *)
Theorem tools_resolve_reviewed ops g w t token who :
  let r := run_tool_ops ops in
  (mem_resolve r g w = Ok t ->
     exists rec, r.(by_key) !! tool_key t.(resolved_def) = Some rec /\ rec.(rec_def) = t.(resolved_def)
       /\ tool_key t.(resolved_def) = (g.(ToolGrant.tool_id), g.(ToolGrant.tool_version))
       /\ current ops t.(resolved_def) rec.(provenance) /\ reviewed ops rec
       /\ check_tool_requirement t.(resolved_def).(ToolDef.required_capability) w = Ok tt
       /\ t.(event).(resolved_def_hash) = ContentRef_of (bincode_encode t.(resolved_def))
       /\ forall wider, warrant_le w wider -> mem_resolve r g wider = Ok t)
  /\ (mem_approve r token who).1 <> Panic
  /\ (mem_approve r token who).1 <> Err (RegistrationError.NotPendingReview token).
Proof.
  intros r. pose proof (run_tool_ops_ok ops) as Hr. fold r in Hr. split; [|split; by eapply approve_run].
  unfold mem_resolve. destruct (by_key r !! _) as [rec|] eqn:Hk; [|done].
  destruct (reg_status rec) eqn:Hst; [|done].
  destruct (check_tool_requirement _ w) as [[]|e|] eqn:Hc; [|done..]. intros [= <-]. cbn.
  destruct (ok_keyed _ _ Hr _ _ Hk) as [Hkey Hreg]. exists rec. rewrite Hkey. split_and!; try done.
  - by eapply ok_approved.
  - intros wider Hle. by rewrite (check_tool_mono _ w wider Hle Hc).
Qed.

(** A review token outlives its registration: after another registration
    under the same name and version replaced the reviewed one, approving the old
    token makes the replacement usable, though nobody approved its own token. *)
Theorem stale_token_approves_replacement r a pa b lineage m who :
  tool_key a = tool_key b ->
  check_tool_requirement b.(ToolDef.required_capability) lineage = Ok tt ->
  let r2 := (mem_register (mem_register r a pa).2 b (ToolProvenance.SelfGenerated lineage m)).2 in
  mem_lookup r2 b.(ToolDef.tool_id) b.(ToolDef.tool_version) = None
  /\ exists r3, mem_approve r2 (registration_token_of a pa) who = (Ok tt, r3)
       /\ mem_lookup r3 b.(ToolDef.tool_id) b.(ToolDef.tool_version) = Some b.
Proof.
  intros Hk Hc r2. split; [unfold mem_lookup, r2; cbn; fold (tool_key b); by rewrite lookup_insert_eq|].
  unfold mem_approve.
  assert (by_token r2 !! registration_token_of a pa = Some (tool_key b)) as ->.
  { cbn. rewrite Hk. destruct (decide (registration_token_of b (ToolProvenance.SelfGenerated lineage m)
      = registration_token_of a pa)) as [->|]; [apply lookup_insert_eq|].
    rewrite lookup_insert_ne by done. apply lookup_insert_eq. }
  cbn [by_key r2 mem_register snd]. rewrite lookup_insert_eq. cbn. rewrite Hc. eexists. split; [done|].
  unfold mem_lookup. cbn. fold (tool_key b). by rewrite lookup_insert_eq.
Qed.
End Registry.
