(* ===== verification/ToolStore.v ===== *)
(** The durable tool registry serves what the in-memory one would, a restart
    included, and how far built-in tools are protected. *)
From S2P Require Import Prelude Utf8 CriticTypes Mote Warrant Content Refusal DemoCodec ParamSchema ToolRegistry.

Section Store.
Context `{Blake3} `{!Bincode ToolDef} `{!Bincode ToolProvenance} `{!Bincode (ToolDef * ToolProvenance)}
  `{!Bincode ToolResolutionEvent}.

(** One registration: what is registered, whether as a built-in, and the host. *)
Definition Registration : Type := (ToolDef * ToolProvenance) * (bool * option bytes).
Definition reg_key (x : Registration) : ToolKey := tool_key x.1.1.
Definition reg_row (x : Registration) : ToolRow := make_row x.1.1 x.1.2 x.2.1 x.2.2.
Definition reg_record (x : Registration) : RegistrationRecord :=
  {| rec_def := x.1.1; provenance := x.1.2; reg_status := initial_status x.1.2; approved_by := None |}.
Definition reg_entry (x : Registration) : ToolKey * RegistrationRecord := (reg_key x, reg_record x).
Definition reg_id (x : Registration) : bytes := tool_id_of (registration_token_of x.1.1 x.1.2).
(** The 16-byte ids of the registrations tell their names and versions apart. *)
Definition ids_apart (xs : list Registration) : Prop :=
  forall x y, x ∈ xs -> y ∈ xs -> reg_id x = reg_id y -> reg_key x = reg_key y.
Definition put_all (m : gmap ToolKey RegistrationRecord) (xs : list Registration) : gmap ToolKey RegistrationRecord :=
  foldl (fun m x => <[reg_key x := reg_record x]> m) m xs.

Lemma rebuild_from_rows xs : forall r,
  exists r', rebuild_from r (reg_row <$> xs) = Ok r' /\ by_key r' = put_all (by_key r) xs.
Proof.
  induction xs as [|x xs IH]; intros r; [by exists r|]. cbn [fmap list_fmap rebuild_from].
  unfold decode_def, decode_prov. cbn [def_canonical prov_canonical reg_row make_row].
  rewrite !bincode_decode_encode. cbn [obind]. destruct (IH (mem_register r x.1.1 x.1.2).2) as (r' & -> & Hk).
  exists r'. split; [done|]. by rewrite Hk.
Qed.
Lemma put_all_map xs : forall m, NoDup (reg_key <$> xs) -> put_all m xs = list_to_map (reg_entry <$> xs) ∪ m.
Proof.
  induction xs as [|x xs IH]; intros m Hnd; [cbn; by rewrite (left_id ∅ (∪))|].
  cbn [fmap list_fmap] in Hnd. apply NoDup_cons in Hnd as [Hx Hnd]. cbn [put_all foldl fmap list_fmap list_to_map reg_entry foldr].
  fold (put_all (<[reg_key x := reg_record x]> m) xs). rewrite IH by done. cbn.
  rewrite <- insert_union_r; [by rewrite insert_union_l|]. apply not_elem_of_list_to_map_1.
  intros Hin. apply Hx. rewrite <- list_fmap_compose in Hin. exact Hin.
Qed.
Lemma rebuild_rows xs : NoDup (reg_key <$> xs) ->
  exists r, rebuild_inner (reg_row <$> xs) = Ok r /\ by_key r = list_to_map (reg_entry <$> xs).
Proof.
  intros Hnd. unfold rebuild_inner.
  assert (exists ys, ordered (reg_row <$> xs) = reg_row <$> ys /\ xs ≡ₚ ys) as (ys & -> & Hp).
  { apply (Permutation_map_inv reg_row xs (merge_sort_Permutation row_le (reg_row <$> xs))). }
  destruct (rebuild_from_rows ys tools_new) as (r & Hr & Hk).
  exists r. split; [exact Hr|]. rewrite Hk, put_all_map; [|by rewrite <- Hp]. cbn. rewrite (right_id ∅ (∪)).
  apply list_to_map_proper; [|by rewrite Hp]. rewrite <- list_fmap_compose. by rewrite <- Hp.
Qed.

(** ** What the store holds *)
Record stores (sq : SqliteToolRegistry) (xs : list Registration) : Prop := {
  st_conn : sq.(conn) = reg_row <$> xs;
  st_keys : NoDup (reg_key <$> xs);
  st_inner : sq.(inner).(by_key) = list_to_map (reg_entry <$> xs)
}.
Definition other (k : ToolKey) (x : Registration) : bool := negb (bool_decide (reg_key x = k)).
Definition replaced (xs : list Registration) (x : Registration) : list Registration :=
  List.filter (other (reg_key x)) xs ++ [x].
Lemma other_keys k xs y : y ∈ List.filter (other k) xs <-> y ∈ xs /\ reg_key y <> k.
Proof.
  rewrite !list_elem_of_In, filter_In. unfold other. rewrite negb_true_iff, bool_decide_eq_false. done.
Qed.
Lemma NoDup_filter_keys (p : Registration -> bool) xs : NoDup (reg_key <$> xs) -> NoDup (reg_key <$> List.filter p xs).
Proof.
  induction xs as [|x xs IH]; [done|]. rewrite fmap_cons. cbn [List.filter]. intros [Hx Hnd]%NoDup_cons.
  destruct (p x); [|by apply IH]. rewrite fmap_cons. apply NoDup_cons. split; [|by apply IH].
  intros (y & Hy & Hin)%list_elem_of_fmap. apply Hx, list_elem_of_fmap. exists y. split; [done|].
  apply list_elem_of_In, filter_In in Hin as [Hin _]. by apply list_elem_of_In.
Qed.
Lemma key_unique xs x y : NoDup (reg_key <$> xs) -> x ∈ xs -> y ∈ xs -> reg_key x = reg_key y -> x = y.
Proof.
  intros Hnd [i Hi]%list_elem_of_lookup_1 [j Hj]%list_elem_of_lookup_1 Hk.
  assert (i = j) as ->; [|congruence]. apply (NoDup_lookup (reg_key <$> xs) i j (reg_key x) Hnd).
  - by rewrite list_lookup_fmap, Hi.
  - by rewrite list_lookup_fmap, Hj, Hk.
Qed.
Lemma filter_fmap_rows (p : ToolRow -> bool) (q : Registration -> bool) xs :
  (forall y, y ∈ xs -> p (reg_row y) = q y) -> List.filter p (reg_row <$> xs) = reg_row <$> List.filter q xs.
Proof.
  induction xs as [|y xs IH]; intros Hpq; [done|]. cbn. rewrite Hpq by set_solver.
  destruct (q y); cbn; f_equal; apply IH; set_solver.
Qed.
Lemma entries_keys xs : (reg_entry <$> xs).*1 = reg_key <$> xs.
Proof. by rewrite <- list_fmap_compose. Qed.
Lemma entries_lookup xs k rec : NoDup (reg_key <$> xs) ->
  (list_to_map (M := gmap ToolKey RegistrationRecord) (reg_entry <$> xs) !! k = Some rec
   <-> exists x, x ∈ xs /\ reg_key x = k /\ reg_record x = rec).
Proof.
  intros Hnd. rewrite <- elem_of_list_to_map by (by rewrite entries_keys). rewrite list_elem_of_fmap.
  split; [intros (x & [= -> ->] & Hx); eauto|intros (x & Hx & <- & <-); eauto].
Qed.
Lemma conflicts_keys x y : (reg_id x = reg_id y -> reg_key x = reg_key y) ->
  conflicts (reg_row x) (reg_row y) = bool_decide (reg_key y = reg_key x).
Proof.
  intros Hid. unfold conflicts. change (row_key (reg_row ?z)) with (reg_key z). change (row_tool_id (reg_row ?z)) with (reg_id z).
  repeat case_bool_decide; try done; exfalso; naive_solver.
Qed.
Lemma replaced_map xs x : NoDup (reg_key <$> xs) ->
  list_to_map (reg_entry <$> replaced xs x)
  = <[reg_key x := reg_record x]> (list_to_map (reg_entry <$> xs) : gmap ToolKey RegistrationRecord).
Proof.
  intros Hnd. assert (Hr : NoDup (reg_key <$> replaced xs x)).
  { unfold replaced. rewrite fmap_app. apply NoDup_app. split_and!; [by apply NoDup_filter_keys| |repeat constructor; set_solver].
    intros k (y & -> & [_ Hne]%other_keys)%list_elem_of_fmap. set_solver. }
  apply map_eq_iff. intros k. apply option_eq. intros rec. rewrite entries_lookup, lookup_insert_Some, entries_lookup by done.
  unfold replaced. split.
  - intros (y & Hy & Hk & Hrec). apply elem_of_app in Hy as [[Hy Hne]%other_keys| ->%list_elem_of_singleton]; [|by left].
    right. split; [congruence|eauto].
  - intros [[<- <-]|[Hne (y & Hy & Hk & Hrec)]].
    + exists x. split; [set_solver|done].
    + exists y. split; [apply elem_of_app; left; apply other_keys; split; [done|congruence]|done].
Qed.
Lemma refold_rows {A} xs old (a : A) : NoDup (reg_key <$> xs) ->
  exists sq, refold (reg_row <$> xs) old a = (Ok a, sq) /\ stores sq xs.
Proof.
  intros Hnd. unfold refold. destruct (rebuild_rows xs Hnd) as (r & -> & Hk). eexists. split; [done|]. by split.
Qed.
Lemma replaced_nodup xs x : NoDup (reg_key <$> xs) -> NoDup (reg_key <$> replaced xs x).
Proof.
  intros Hnd. unfold replaced. rewrite fmap_app. apply NoDup_app. split_and!; [by apply NoDup_filter_keys| |repeat constructor; set_solver].
  intros k (y & -> & [_ Hne]%other_keys)%list_elem_of_fmap. set_solver.
Qed.
Lemma register_stores sq xs x : stores sq xs -> ids_apart (x :: xs) ->
  exists sq', register_inner sq x.1.1 x.1.2 x.2.1 x.2.2 = (Ok (registration_token_of x.1.1 x.1.2), sq')
    /\ stores sq' (replaced xs x).
Proof.
  intros [Hc Hk Hi] Hids. unfold register_inner, insert_or_replace. rewrite Hc.
  rewrite (filter_fmap_rows _ (other (reg_key x))).
  - change [make_row x.1.1 x.1.2 x.2.1 x.2.2] with (reg_row <$> [x]). rewrite <- fmap_app.
    apply refold_rows. by apply replaced_nodup.
  - intros y Hy. unfold other. f_equal. apply (conflicts_keys x y). apply Hids; set_solver.
Qed.

(** ** Restart *)
Definition builtin_specs : list Registration := (fun x => (x, (true, None))) <$> builtin_registrations.
Lemma seed_present rows : (forall b, b ∈ builtin_specs -> exists y, y ∈ rows /\ row_key y = reg_key b) -> seed_builtins rows = rows.
Proof.
  intros Hb. unfold seed_builtins. change builtin_registrations with ((fst : Registration -> _) <$> builtin_specs).
  assert (Hall : forall bs, (forall b, b ∈ bs -> exists y, y ∈ rows /\ row_key y = reg_key b) ->
    foldl (fun rows x => insert_or_ignore rows (make_row x.1 x.2 true None)) rows (fst <$> bs) = rows); [|by apply Hall].
  induction bs as [|b bs IH]; intros Hbs; [done|]. cbn. destruct (Hbs b) as (y & Hy & Hk); [set_solver|].
  assert (insert_or_ignore rows (make_row b.1.1 b.1.2 true None) = rows) as ->; [|apply IH; set_solver].
  unfold insert_or_ignore. assert (existsb (conflicts (make_row b.1.1 b.1.2 true None)) rows = true) as ->; [|done].
  apply existsb_exists. exists y. split; [by apply list_elem_of_In|]. unfold conflicts.
  apply orb_true_iff. right. by apply bool_decide_eq_true.
Qed.
Lemma builtin_keys : NoDup (reg_key <$> builtin_specs).
Proof. apply (bool_decide_unpack _). by vm_compute. Qed.
Lemma open_fresh : ids_apart builtin_specs -> exists sq, from_conn [] = Ok sq /\ stores sq builtin_specs.
Proof.
  intros Hids. unfold from_conn. assert (seed_builtins [] = reg_row <$> builtin_specs) as ->.
  { unfold seed_builtins, builtin_specs. cbn [foldl builtin_registrations]. unfold insert_or_ignore at 2. cbn [existsb app].
    unfold insert_or_ignore. cbn [existsb]. rewrite orb_false_r.
    pose (b1 := (nth 0 builtin_registrations (builtin_def [] [] IdempotencyClass.Token, ToolProvenance.HumanAuthored []),
                 (true, @None bytes)) : Registration).
    pose (b2 := (nth 1 builtin_registrations (builtin_def [] [] IdempotencyClass.Token, ToolProvenance.HumanAuthored []),
                 (true, @None bytes)) : Registration).
    pose proof (conflicts_keys b2 b1) as Hc. change (conflicts _ _) with (conflicts (reg_row b2) (reg_row b1)).
    rewrite Hc; [by rewrite bool_decide_false|]. apply Hids; unfold b1, b2; cbn; set_solver. }
  destruct (rebuild_rows builtin_specs builtin_keys) as (r & -> & Hk). eexists. split; [done|].
  split; [done|apply builtin_keys|done].
Qed.

(** ** Both registries *)
Definition run_registrations (sq : SqliteToolRegistry) (regs : list Registration) : SqliteToolRegistry :=
  foldl (fun sq x => (register_inner sq x.1.1 x.1.2 x.2.1 x.2.2).2) sq regs.
Lemma replaced_elem xs x y : y ∈ replaced xs x -> y ∈ xs \/ y = x.
Proof. unfold replaced. rewrite elem_of_app, other_keys. set_solver. Qed.
Lemma run_stores regs : forall sq xs, stores sq xs -> ids_apart (xs ++ regs) ->
  exists ys, stores (run_registrations sq regs) ys /\ (forall k, k ∈ reg_key <$> xs -> k ∈ reg_key <$> ys)
    /\ list_to_map (reg_entry <$> ys) = put_all (list_to_map (reg_entry <$> xs)) regs.
Proof.
  induction regs as [|x regs IH]; intros sq xs Hst Hids; [by exists xs|]. cbn [run_registrations foldl].
  destruct (register_stores sq xs x Hst) as (sq' & -> & Hst').
  { intros a b Ha Hb. apply Hids; set_solver. }
  destruct (IH sq' (replaced xs x) Hst') as (ys & Hys & Hk & Hm).
  { intros a b Ha Hb. apply Hids; apply elem_of_app.
    - apply elem_of_app in Ha as [[?| ->]%replaced_elem|?]; set_solver.
    - apply elem_of_app in Hb as [[?| ->]%replaced_elem|?]; set_solver. }
  exists ys. split_and!; [done| |].
  - intros k (y & -> & Hy)%list_elem_of_fmap. apply Hk. unfold replaced. rewrite fmap_app.
    destruct (decide (reg_key y = reg_key x)) as [->|]; [set_solver|].
    apply elem_of_app. left. apply list_elem_of_fmap_2. by apply other_keys.
  - rewrite Hm, replaced_map by apply Hst. done.
Qed.
Lemma register_each_keys regs : forall r, by_key (register_each r regs.*1) = put_all (by_key r) regs.
Proof. induction regs as [|x regs IH]; intros r; [done|]. apply (IH (mem_register r x.1.1 x.1.2).2). Qed.
Definition serves_same {R R'} `{!ToolRegistry R, !ToolRegistry R'} (r : R) (r' : R') : Prop :=
  (forall id version, lookup_tool r id version = lookup_tool r' id version)
  /\ (forall g w, resolve_tool r g w = resolve_tool r' g w).
Lemma same_keys_serve (sq : SqliteToolRegistry) (r : InMemoryToolRegistry) : by_key (inner sq) = by_key r -> serves_same sq r.
Proof. intros Hk. split; cbn; intros; unfold mem_lookup, mem_resolve; by rewrite Hk. Qed.
Lemma reopen_stores sq xs : stores sq xs -> (forall k, k ∈ reg_key <$> builtin_specs -> k ∈ reg_key <$> xs) ->
  exists sq1, from_conn sq.(conn) = Ok sq1 /\ stores sq1 xs.
Proof.
  intros [Hc Hk Hi] Hb. unfold from_conn. rewrite seed_present.
  - rewrite Hc. destruct (rebuild_rows xs Hk) as (r & -> & Hr). eexists. split; [done|]. by split.
  - intros b Hin. destruct (proj1 (list_elem_of_fmap _ _ _) (Hb (reg_key b) (list_elem_of_fmap_2 _ _ _ Hin))) as (y & Hy & Hyin).
    exists (reg_row y). rewrite Hc. split; [by apply list_elem_of_fmap_2|done].
Qed.

(** The durable registry serves exactly what an in-memory registry with
    the built-ins and the same registrations serves, for every lookup and every
    resolution, and still does after it is closed and opened again. *)
Theorem durable_registry_agrees regs :
  ids_apart (builtin_specs ++ regs) ->
  let r := register_each with_builtins regs.*1 in
  exists sq0, from_conn [] = Ok sq0
    /\ serves_same (run_registrations sq0 regs) r
    /\ exists sq1, from_conn (run_registrations sq0 regs).(conn) = Ok sq1 /\ serves_same sq1 r.
Proof.
  intros Hids r. destruct open_fresh as (sq0 & Hopen & Hst); [intros x y ??; apply Hids; set_solver|].
  exists sq0. split; [done|]. destruct (run_stores regs sq0 builtin_specs Hst Hids) as (ys & Hys & Hk & Hm).
  assert (Hr : list_to_map (reg_entry <$> ys) = by_key r).
  { unfold r. rewrite register_each_keys, Hm. by f_equal. }
  split; [apply same_keys_serve; by rewrite (st_inner _ _ Hys)|].
  destruct (reopen_stores _ _ Hys Hk) as (sq1 & Hsq1 & Hst1). exists sq1. split; [done|].
  apply same_keys_serve. by rewrite (st_inner _ _ Hst1).
Qed.

(** ** Removing a tool *)
Definition spared (k : ToolKey) (x : Registration) : bool := negb (bool_decide (reg_key x = k) && negb x.2.1).
Lemma deregister_rows sq xs name version : stores sq xs ->
  List.filter (fun x => negb (removable name version x)) sq.(conn) = reg_row <$> List.filter (spared (name, version)) xs.
Proof. intros [Hc _ _]. rewrite Hc. by apply filter_fmap_rows. Qed.
Lemma filter_all {A} (p : A -> bool) l : (forall x, x ∈ l -> p x = true) -> List.filter p l = l.
Proof.
  induction l as [|x l IH]; intros Hp; [done|]. cbn. rewrite Hp by set_solver. f_equal. apply IH. set_solver.
Qed.
Lemma filter_shorter {A} (p : A -> bool) l x : x ∈ l -> p x = false -> (length (List.filter p l) < length l)%nat.
Proof.
  induction l as [|y l IH]; intros Hx Hp; [set_solver|]. cbn.
  apply elem_of_cons in Hx as [->|Hx]; [rewrite Hp; pose proof (List.filter_length_le p l); lia|].
  specialize (IH Hx Hp). destruct (p y); cbn; lia.
Qed.
(** A built-in cannot be removed, but registering a tool under its name and
    version takes the protection away: the same removal then succeeds and the tool
    is gone. *)
Theorem builtin_displaced_then_removed sq xs x def p host :
  stores sq xs -> x ∈ xs -> x.2.1 = true -> tool_key def = reg_key x ->
  ids_apart (((def, p), (false, host)) :: xs) ->
  let name := def.(ToolDef.tool_id) in let version := def.(ToolDef.tool_version) in
  deregister sq name version = (Ok false, sq)
  /\ exists sq1 sq2, register_durable sq def p host = (Ok (registration_token_of def p), sq1)
       /\ deregister sq1 name version = (Ok true, sq2)
       /\ lookup_tool sq2 name version = None.
Proof.
  intros Hst Hx Hb Hkey Hids name version. assert (Hk : (name, version) = reg_key x) by done. split.
  - unfold deregister. rewrite (deregister_rows sq xs) by done. rewrite filter_all.
    + rewrite (st_conn _ _ Hst), length_fmap, Nat.sub_diag. done.
    + intros y Hy. unfold spared. rewrite Hk. case_bool_decide as He; [|done].
      rewrite (key_unique xs y x) by (done || apply Hst). by rewrite Hb.
  - set (new := ((def, p), (false, host)) : Registration).
    destruct (register_stores sq xs new Hst Hids) as (sq1 & Hreg & Hst1).
    exists sq1. unfold deregister. rewrite (deregister_rows sq1 (replaced xs new)) by done.
    set (ys := List.filter (spared (name, version)) (replaced xs new)).
    assert (Hlen : (length ys < length (replaced xs new))%nat).
    { apply (filter_shorter _ _ new); [unfold replaced; set_solver|]. unfold spared. by rewrite bool_decide_true. }
    rewrite (st_conn _ _ Hst1), !length_fmap, (proj2 (Nat.ltb_lt _ _)) by lia.
    destruct (refold_rows ys (inner sq1) true) as (sq2 & -> & Hst2); [by apply NoDup_filter_keys, replaced_nodup, Hst|].
    exists sq2. split_and!; [exact Hreg|done|]. cbn. unfold mem_lookup. rewrite (st_inner _ _ Hst2).
    destruct (list_to_map _ !! _) as [rec|] eqn:Hl; [exfalso|done].
    apply entries_lookup in Hl as (y & Hy & Hyk & _); [|apply Hst2]. unfold ys in Hy.
    apply list_elem_of_In, filter_In in Hy as [Hy Hs]. unfold spared in Hs. rewrite bool_decide_true in Hs by done.
    apply list_elem_of_In in Hy. unfold replaced in Hy. apply elem_of_app in Hy as [[_ Hne]%other_keys| ->%list_elem_of_singleton]; [|done].
    by apply Hne.
Qed.
End Store.

(** ** Concrete registries *)
#[export] Instance ParamType_eq_dec : EqDecision ParamType.
Proof. solve_decision. Defined.
#[export] Instance ParamType_countable : Countable ParamType.
Proof.
  count (fun t => match t with
                  | Int a b => inl (inl (a, b)) | Bytes n => inl (inr n) | Str n => inr (inl n)
                  | Bool => inr (inr None) | Enum s => inr (inr (Some s)) end)
    (fun x : (option Z * option Z + nat) + (nat + option (gset bytes)) =>
       match x with
       | inl (inl (a, b)) => Int a b | inl (inr n) => Bytes n | inr (inl n) => Str n
       | inr (inr None) => Bool | inr (inr (Some s)) => Enum s end).
Defined.
#[export] Instance ParamSpec_eq_dec : EqDecision ParamSpec.
Proof. solve_decision. Defined.
#[export] Instance ParamSpec_countable : Countable ParamSpec.
Proof.
  apply (inj_countable' (fun p => (param_name p, ty p, required p))
    (fun '(a, b, c) => {| param_name := a; ty := b; required := c |})). by intros [].
Defined.
#[export] Instance InputSchema_eq_dec : EqDecision InputSchema.
Proof. solve_decision. Defined.
#[export] Instance InputSchema_countable : Countable InputSchema.
Proof.
  apply (inj_countable' (fun p => (params p, deny_unknown p)) (fun '(a, b) => {| params := a; deny_unknown := b |})).
  by intros [].
Defined.
#[export] Instance IdempotencyClass_eq_dec : EqDecision IdempotencyClass.
Proof. solve_decision. Defined.
#[export] Instance IdempotencyClass_countable : Countable IdempotencyClass.
Proof.
  count (fun c => match c with IdempotencyClass.Token => 0 | IdempotencyClass.Readback => 1
                             | IdempotencyClass.Staged => 2 | IdempotencyClass.AtLeastOnce => 3 end)
    (fun z => if z =? 0 then IdempotencyClass.Token else if z =? 1 then IdempotencyClass.Readback
              else if z =? 2 then IdempotencyClass.Staged else IdempotencyClass.AtLeastOnce).
Defined.
#[export] Instance ToolKind_eq_dec : EqDecision ToolKind.
Proof. solve_decision. Defined.
#[export] Instance ToolKind_countable : Countable ToolKind.
Proof.
  count (fun t => match t with
                  | ToolKind.Builtin => inl None | ToolKind.LocalScript r => inl (Some r)
                  | ToolKind.External u => inr (inl u) | ToolKind.Mcp e n => inr (inr (inl (e, n)))
                  | ToolKind.SelfGenerated m => inr (inr (inr m)) end)
    (fun x : option bytes + (bytes + (bytes * bytes + bytes)) =>
       match x with
       | inl None => ToolKind.Builtin | inl (Some r) => ToolKind.LocalScript r
       | inr (inl u) => ToolKind.External u | inr (inr (inl (e, n))) => ToolKind.Mcp e n
       | inr (inr (inr m)) => ToolKind.SelfGenerated m end).
Defined.
#[export] Instance ToolRequirement_eq_dec : EqDecision ToolRequirement.
Proof. solve_decision. Defined.
#[export] Instance ToolRequirement_countable : Countable ToolRequirement.
Proof.
  apply (inj_countable' (fun p => (ToolRequirement.net_scope_required p, ToolRequirement.fs_scope_required p,
                                   ToolRequirement.syscall_profile_ref p, ToolRequirement.min_resource_ceiling p))
    (fun '(a, b, c, d) => {| ToolRequirement.net_scope_required := a; ToolRequirement.fs_scope_required := b;
                             ToolRequirement.syscall_profile_ref := c; ToolRequirement.min_resource_ceiling := d |})).
  by intros [].
Defined.
#[export] Instance ToolDef_eq_dec : EqDecision ToolDef.
Proof. solve_decision. Defined.
#[export] Instance ToolDef_countable : Countable ToolDef.
Proof.
  apply (inj_countable' (fun d => (ToolDef.kind d, ToolDef.required_capability d, ToolDef.description d,
                                   ToolDef.input_schema d, ToolDef.tool_version d, ToolDef.tool_id d, ToolDef.idempotency_class d))
    (fun '(a, b, c, d, e, f, g) =>
       {| ToolDef.kind := a; ToolDef.required_capability := b; ToolDef.description := c; ToolDef.input_schema := d;
          ToolDef.tool_version := e; ToolDef.tool_id := f; ToolDef.idempotency_class := g |})).
  by intros [].
Defined.
#[export] Instance ToolProvenance_eq_dec : EqDecision ToolProvenance.
Proof. solve_decision. Defined.
#[export] Instance ToolProvenance_countable : Countable ToolProvenance.
Proof.
  count (fun p => match p with ToolProvenance.HumanAuthored a => inl a | ToolProvenance.SelfGenerated w m => inr (w, m) end)
    (fun x : bytes + WarrantSpec * bytes =>
       match x with inl a => ToolProvenance.HumanAuthored a | inr (w, m) => ToolProvenance.SelfGenerated w m end).
Defined.
#[export] Instance ToolResolutionEvent_eq_dec : EqDecision ToolResolutionEvent.
Proof. solve_decision. Defined.
#[export] Instance ToolResolutionEvent_countable : Countable ToolResolutionEvent.
Proof.
  apply (inj_countable' (fun e => (ev_tool_id e, ev_tool_version e, resolved_kind e, resolved_def_hash e, ev_idempotency_class e))
    (fun '(a, b, c, d, e) => {| ev_tool_id := a; ev_tool_version := b; resolved_kind := c; resolved_def_hash := d;
                                ev_idempotency_class := e |})). by intros [].
Defined.

Definition prefix_blake3 : Blake3.
Proof.
  refine {| blake3 := fun x => (fun b => b mod 256) <$> take 32 (x ++ replicate 32 0) |}.
  intros x. split; [rewrite length_fmap, length_take, length_app, length_replicate; lia|].
  apply Forall_fmap, Forall_true. intros b. unfold u8, compose. pose proof (Z.mod_pos_bound b 256). lia.
Defined.
#[local] Existing Instance prefix_blake3.
#[local] Existing Instance bit_bincode.
(** A tool a model wrote, within the warrant it ran under. *)
Definition demo_tool (text : bytes) : ToolDef := builtin_def (str "emit") text IdempotencyClass.Token.
Definition demo_generated : ToolProvenance := ToolProvenance.SelfGenerated (demo_warrant 1 FsMode.ReadOnly) (replicate 32 4).
Definition demo_tool_ops : list RegistryOp :=
  [OpRegister (demo_tool (str "a")) demo_generated;
   OpApprove (registration_token_of (demo_tool (str "a")) demo_generated) (str "alice")].
Definition demo_emit : ToolGrant := {| ToolGrant.tool_id := str "emit"; ToolGrant.tool_version := str "1" |}.
Lemma tools_resolve_reviewed_witness :
  exists t, mem_resolve (run_tool_ops demo_tool_ops) demo_emit (demo_warrant 5 FsMode.ReadWrite) = Ok t
    /\ t.(resolved_def) = demo_tool (str "a")
    /\ exists rec, reviewed demo_tool_ops rec /\ rec.(rec_def) = t.(resolved_def).
Proof.
  assert (match mem_resolve (run_tool_ops demo_tool_ops) demo_emit (demo_warrant 5 FsMode.ReadWrite) with
          | Ok t => bool_decide (t.(resolved_def) = demo_tool (str "a")) | _ => false end = true) as Hok by (by vm_compute).
  destruct (mem_resolve (run_tool_ops demo_tool_ops) demo_emit (demo_warrant 5 FsMode.ReadWrite)) as [t|e|] eqn:Ht; [|done..].
  apply bool_decide_eq_true in Hok. exists t. split; [done|]. split; [done|].
  destruct (tools_resolve_reviewed demo_tool_ops demo_emit (demo_warrant 5 FsMode.ReadWrite) t [] []) as [Hr _].
  destruct (Hr Ht) as (rec & _ & Hdef & _ & _ & Hrev & _). exists rec. split; [exact Hrev|exact Hdef].
Defined.
Lemma stale_token_approves_replacement_witness :
  exists r3, (mem_approve (mem_register (mem_register tools_new (demo_tool (str "safe")) demo_generated).2
                             (demo_tool (str "other")) demo_generated).2
                (registration_token_of (demo_tool (str "safe")) demo_generated) (str "alice")) = (Ok tt, r3)
    /\ mem_lookup r3 (str "emit") (str "1") = Some (demo_tool (str "other")).
Proof.
  destruct (stale_token_approves_replacement tools_new (demo_tool (str "safe")) demo_generated (demo_tool (str "other"))
    (demo_warrant 1 FsMode.ReadOnly) (replicate 32 4) (str "alice")) as (_ & r3 & H1 & H2); [done|by vm_compute|].
  exists r3. exact (conj H1 H2).
Defined.
Definition demo_regs : list Registration :=
  [((demo_tool (str "a"), ToolProvenance.HumanAuthored (str "ops")), (false, None))].
Lemma demo_ids : ids_apart (builtin_specs ++ demo_regs).
Proof.
  intros x y Hx Hy. apply list_elem_of_In in Hx, Hy. cbn in Hx, Hy.
  destruct Hx as [<-|[<-|[<-|[]]]], Hy as [<-|[<-|[<-|[]]]]; intros Hid; try reflexivity; by vm_compute in Hid.
Qed.
Lemma durable_registry_agrees_witness :
  exists sq0, from_conn [] = Ok sq0
    /\ lookup_tool (run_registrations sq0 demo_regs) (str "emit") (str "1") = Some (demo_tool (str "a")).
Proof.
  destruct (durable_registry_agrees demo_regs demo_ids) as (sq0 & H0 & [Hl _] & _). exists sq0. split; [exact H0|].
  rewrite Hl. by vm_compute.
Defined.
Lemma builtin_displaced_then_removed_witness :
  exists sq sq1 sq2, from_conn [] = Ok sq /\ deregister sq (str "fs-read") (str "1") = (Ok false, sq)
    /\ (exists t, register_durable sq (builtin_def (str "fs-read") (str "mine") IdempotencyClass.Token)
                    (ToolProvenance.HumanAuthored (str "ops")) None = (Ok t, sq1))
    /\ deregister sq1 (str "fs-read") (str "1") = (Ok true, sq2) /\ lookup_tool sq2 (str "fs-read") (str "1") = None.
Proof.
  destruct open_fresh as (sq & Hsq & Hst); [intros x y ??; apply demo_ids; set_solver|].
  destruct (builtin_displaced_then_removed sq builtin_specs
    (builtin_def (str "fs-read")
      (str "Read bytes from a path declared in the warrant's fs_scope. Read-only; naturally idempotent.")
      IdempotencyClass.Readback, ToolProvenance.HumanAuthored (str "kortecx-oss"), (true, None))
    (builtin_def (str "fs-read") (str "mine") IdempotencyClass.Token) (ToolProvenance.HumanAuthored (str "ops")) None Hst)
    as (H1 & sq1 & sq2 & H2 & H3 & H4); [apply (list_elem_of_fmap_2 (fun x => (x, (true, @None bytes)))); left|reflexivity|reflexivity| |].
  - intros x y Hx Hy. apply list_elem_of_In in Hx, Hy. cbn in Hx, Hy.
    destruct Hx as [<-|[<-|[<-|[]]]], Hy as [<-|[<-|[<-|[]]]]; intros Hid; try reflexivity; by vm_compute in Hid.
  - exists sq, sq1, sq2. split_and!; [exact Hsq|exact H1|eexists; exact H2|exact H3|exact H4].
Defined.
