(* ===== verification/Toolcall.v ===== *)
(** kx-toolcall: the gate between a model's text and a tool call (parse.rs,
    types.rs, dedup.rs, and the delimiters of dialect.rs). The typed JSON readers
    are serde_json's: the class [ToolcallJson]. *)
From S2P Require Import Prelude Utf8 CriticTypes Mote Warrant Critic Digits ParamSchema Text ToolRegistry.

(** ** Types *)
Record ToolCall := { call_name : bytes; call_version : bytes; args_bytes : bytes }.
#[export] Instance ToolCall_eq_dec : EqDecision ToolCall.
Proof. solve_decision. Defined.
Module CallError.
Inductive DecodeError :=
| Malformed (diagnostic : bytes)
| UngrantedTool (name version : bytes)
| Ambiguous (name : bytes) (candidates : list bytes)
| Oversize (got : nat) (max : Z).
End CallError.
Abbreviation CallError := CallError.DecodeError.
Record RawToolCall := { raw_call_name : bytes; raw_call_version : bytes; raw_call_args : bytes }.
Record NamedObject := {
  named_name : option bytes; named_args : option bytes; named_arguments : option bytes; named_parameters : option bytes }.
Record NativeCall := { native_name : bytes; native_args : bytes }.
(** serde_json's readers of the shapes below; a raw value is its text. *)
Class ToolcallJson := {
  from_str_envelope : bytes -> option RawToolCall + bytes;
  from_str_named : bytes -> option NamedObject;
  from_str_tool_calls : bytes -> option (list bytes);
  from_str_answer : bytes -> option bytes;
  leading_i64s : bytes -> option (list Z)
}.

(** ** Delimiters *)
Definition GEMMA_TOOL_OPEN : bytes := str "<|tool_call>".
Definition GEMMA_TOOL_CLOSE : bytes := str "<tool_call|>".
Definition GEMMA_CALL_MARKER : bytes := str "call:".
Definition PYTHON_TAG_OPEN : bytes := str "<|python_tag|>".
Definition XML_TOOL_OPEN : bytes := str "<tool_call>".
Definition XML_TOOL_CLOSE : bytes := str "</tool_call>".
Definition ATTEMPTED_CALL_MARKER : bytes := str "tool_call".
Definition FENCE : bytes := str "```".
Definition LBRACE : Z := 123.
Definition RBRACE : Z := 125.
Definition LPAREN : Z := 40.
Definition RPAREN : Z := 41.

(** ** Envelopes *)
Definition max_args_bytes (warrant : WarrantSpec) : Z :=
  Z.min (2 ^ 64 - 1) (4 * warrant.(WarrantSpec.model_route).(ModelRoute.max_output_tokens)).
Fixpoint strip_block (t : bytes) (tags : list (bytes * bytes)) : bytes :=
  match tags with
  | [] => t
  | (open, close) :: tags =>
      match strip_prefix t open with
      | Some rest => match find rest close with
                     | Some i => trim_start (drop (i + length close) rest)
                     | None => []
                     end
      | None => strip_block t tags
      end
  end.
Definition strip_reasoning_preamble (text : bytes) : bytes :=
  strip_block (trim_start text) [(str "<think>", str "</think>"); (str "<|channel>", str "<channel|>")].
Definition strip_code_fence (text : bytes) : bytes :=
  let t := trim text in
  match strip_prefix t FENCE with
  | None => t
  | Some rest =>
      let inner := match find_byte 10 rest with Some nl => drop (S nl) rest | None => rest end in
      match rfind inner FENCE with
      | Some i => trim (take i inner)
      | None => trim inner
      end
  end.
Definition extract_json_envelope (text : bytes) : bytes := strip_code_fence (strip_reasoning_preamble text).

(** ** Balanced spans
    The bytes of the span. The scan starts on [op], so the depth is positive when
    a [cl] is met. *)
Definition MAX_DEPTH : nat := 64.
Fixpoint span_loop (op cl : Z) (depth : nat) (in_str escaped : bool) (l : bytes) : option nat :=
  match l with
  | [] => None
  | b :: l =>
      if in_str
      then S <$> (if escaped then span_loop op cl depth true false l
                  else if b =? BSL then span_loop op cl depth true true l
                  else if b =? DQ then span_loop op cl depth false false l
                  else span_loop op cl depth true false l)
      else if b =? DQ then S <$> span_loop op cl depth true false l
      else if b =? op
      then if (MAX_DEPTH <? S depth)%nat then None else S <$> span_loop op cl (S depth) false false l
      else if b =? cl
      then match depth with
           | S O => Some 1%nat
           | S d => S <$> span_loop op cl d false false l
           | O => None
           end
      else S <$> span_loop op cl depth false false l
  end.
Definition balanced_span (op cl : Z) (s : bytes) : option bytes :=
  match s with
  | b :: _ => if b =? op then (fun n => take n s) <$> span_loop op cl O false false s else None
  | [] => None
  end.
Definition balanced_object (s : bytes) : option bytes := balanced_span LBRACE RBRACE s.
Definition balanced_parens (s : bytes) : option bytes := balanced_span LPAREN RPAREN s.
Definition opens (b : Z) : bool := (b =? LPAREN) || (b =? 91) || (b =? LBRACE).
Definition closes (b : Z) : bool := (b =? RPAREN) || (b =? 93) || (b =? RBRACE).
(** [cur] holds the bytes since the last cut, the latest first. *)
Fixpoint commas_loop (depth : Z) (in_str escaped : bool) (cur : bytes) (l : bytes) : list bytes :=
  match l with
  | [] => [rev cur]
  | b :: l =>
      if in_str
      then if escaped then commas_loop depth true false (b :: cur) l
           else if b =? BSL then commas_loop depth true true (b :: cur) l
           else if b =? DQ then commas_loop depth false false (b :: cur) l
           else commas_loop depth true false (b :: cur) l
      else if b =? DQ then commas_loop depth true false (b :: cur) l
      else if opens b then commas_loop (depth + 1) false false (b :: cur) l
      else if closes b then commas_loop (depth - 1) false false (b :: cur) l
      else if (b =? 44) && (depth =? 0) then rev cur :: commas_loop depth false false [] l
      else commas_loop depth false false (b :: cur) l
  end.
Definition split_top_level_commas (s : bytes) : list bytes := commas_loop 0 false false [] s.

(** ** Names *)
Definition canon (s : bytes) : bytes := replace_byte 95 45 (trim s).
Definition model_name_core (raw_name : bytes) : bytes :=
  canon (split_first (fun b => b =? 58) (split_first (fun b => b =? 64) raw_name)).
Definition id_matches (target tool_id : bytes) : bool :=
  let full := canon tool_id in
  bool_decide (full = target)
  || existsb (fun seg => negb (bool_decide (seg = [])) && bool_decide (seg = target)) (split_by (fun b => b =? 47) full).
Inductive NameResolution := Unique (g : ToolGrant) | Unresolved | AmbiguousName (candidates : list bytes).
Definition resolve_name (raw_name : bytes) (warrant : WarrantSpec) : NameResolution :=
  let target := model_name_core raw_name in
  if bool_decide (target = []) then Unresolved
  else match List.filter (fun g => id_matches target g.(ToolGrant.tool_id)) (grants_iter warrant.(WarrantSpec.tool_grants)) with
       | [] => Unresolved
       | [g] => Unique g
       | many => AmbiguousName (ToolGrant.tool_id <$> many)
       end.
Definition resolve_granted_name (raw_name : bytes) (warrant : WarrantSpec) : option ToolGrant :=
  match resolve_name raw_name warrant with Unique g => Some g | _ => None end.
Definition native_name_resolves_uniquely (tool_id : bytes) (granted_ids : list bytes) : bool :=
  let target := model_name_core tool_id in
  if bool_decide (target = []) then false
  else (length (List.filter (id_matches target) granted_ids) =? 1)%nat.
Definition committed_grant (raw_name : bytes) (warrant : WarrantSpec) : outcome ToolGrant CallError :=
  match resolve_name raw_name warrant with
  | Unique grant => Ok grant
  | AmbiguousName candidates => Err (CallError.Ambiguous raw_name candidates)
  | Unresolved => Err (CallError.UngrantedTool raw_name [])
  end.

(** ** A call within the cap *)
Definition capped_call (grant : ToolGrant) (args : bytes) (max : Z) : outcome ToolCall CallError :=
  if max <? Z.of_nat (length args) then Err (CallError.Oversize (length args) max)
  else Ok {| call_name := grant.(ToolGrant.tool_id); call_version := grant.(ToolGrant.tool_version); args_bytes := args |}.
Definition markerless_call (raw_name args : bytes) (warrant : WarrantSpec) (max : Z) : outcome (option ToolCall) CallError :=
  match resolve_granted_name raw_name warrant with
  | None => Ok None
  | Some grant => let* c := capped_call grant args max in Ok (Some c)
  end.
Definition resolve_native_call (native : NativeCall) (warrant : WarrantSpec) (max : Z) : outcome ToolCall CallError :=
  let* grant := committed_grant native.(native_name) warrant in capped_call grant native.(native_args) max.
Definition resolve_marked_call (raw_name args : bytes) (warrant : WarrantSpec) (max : Z) : outcome ToolCall CallError :=
  let* grant := committed_grant raw_name warrant in capped_call grant args max.

Section Parse.
Context `{SerdeJson} `{SerdeValue} `{ToolcallJson}.

(** ** Arguments *)
Definition args_value_bytes (raw : bytes) : option bytes :=
  let hd := trim_start raw in
  if starts_with hd [LBRACE] then Some raw
  else if starts_with hd [DQ] then from_str_string raw
  else None.
Definition parse_kw_value (v : bytes) : option Value :=
  let v := trim v in
  if bool_decide (v = []) then None else value_from_slice v.
Definition plain_key (key : bytes) : bool :=
  negb (bool_decide (key = []))
  && forallb (fun c => in_range 48 57 c || in_range 65 90 c || in_range 97 122 c || (c =? 95) || (c =? 45)) key.
Fixpoint kwargs (ps : list bytes) (map : list (bytes * Value)) : option (list (bytes * Value)) :=
  match ps with
  | [] => Some map
  | p :: ps =>
      match split_once 61 p with
      | None => None
      | Some (k, v) =>
          let key := trim k in
          if negb (plain_key key) then None
          else match parse_kw_value v with
               | None => None
               | Some value => match member_get key map with
                               | Some _ => None
                               | None => kwargs ps (member_insert key value map)
                               end
               end
      end
  end.
Definition parse_paren_args (inner : bytes) : option bytes :=
  let trimmed := trim inner in
  if bool_decide (trimmed = []) then Some (str "{}")
  else if starts_with trimmed [LBRACE]
  then match balanced_object trimmed with
       | Some obj => if (length obj =? length trimmed)%nat then Some obj else None
       | None => None
       end
  else match kwargs (split_top_level_commas trimmed) [] with
       | Some [] | None => None
       | Some map => Some (value_to_vec (VObject map))
       end.
Definition decode_named_object (obj : bytes) (require_explicit_args : bool) : option (bytes * bytes) :=
  match from_str_named obj with
  | None => None
  | Some parsed =>
      match parsed.(named_name) with
      | None => None
      | Some name =>
          if bool_decide (trim name = []) then None
          else match omap id [parsed.(named_args); parsed.(named_arguments); parsed.(named_parameters)] with
               | [] => if require_explicit_args then None else Some (name, str "{}")
               | [v] => (fun b => (name, b)) <$> args_value_bytes v
               | _ => None
               end
      end
  end.
Definition resolve_envelope_call (raw : RawToolCall) (warrant : WarrantSpec) (max : Z) : outcome ToolCall CallError :=
  let name := raw.(raw_call_name) in
  let version := raw.(raw_call_version) in
  let exact := {| ToolGrant.tool_id := name; ToolGrant.tool_version := version |} in
  let* grant :=
    (if bool_decide (exact ∈ warrant.(WarrantSpec.tool_grants)) then Ok exact
     else if bool_decide (trim version = [])
     then match resolve_name name warrant with
          | Unique g => Ok g
          | AmbiguousName candidates => Err (CallError.Ambiguous name candidates)
          | Unresolved => Err (CallError.UngrantedTool name version)
          end
     else Err (CallError.UngrantedTool name version)) in
  capped_call grant (default raw.(raw_call_args) (args_value_bytes raw.(raw_call_args))) max.

(** ** Native and marked segments *)
Definition native_boundary (s : bytes) : option (nat * bool) :=
  match find_byte LBRACE s, find_byte LPAREN s with
  | Some b, Some p => if (b <=? p)%nat then Some (b, false) else Some (p, true)
  | Some b, None => Some (b, false)
  | None, Some p => Some (p, true)
  | None, None => None
  end.
Definition native_body (after_marker : bytes) : option (bytes * bytes * nat) :=
  match native_boundary after_marker with
  | None => None
  | Some (boundary, is_paren) =>
      let raw_name := trim (take boundary after_marker) in
      let region := drop boundary after_marker in
      if bool_decide (raw_name = []) then None
      else if is_paren : bool
      then match balanced_parens region with
           | None => None
           | Some span => (fun json => (raw_name, json, (boundary + length span)%nat))
                          <$> parse_paren_args (take (length span - 2) (drop 1 span))
           end
      else (fun obj => (raw_name, obj, (boundary + length obj)%nat)) <$> balanced_object region
  end.
(** The text after an opening delimiter and the optional [call:]. *)
Definition after_call_marker (after_open : bytes) : bytes :=
  let ws := trim_start after_open in default ws (strip_prefix ws GEMMA_CALL_MARKER).
Definition extract_gemma_native (text : bytes) : option NativeCall :=
  match strip_prefix (trim_start text) GEMMA_TOOL_OPEN with
  | None => None
  | Some after_open =>
      (fun x => {| native_name := x.1.1; native_args := x.1.2 |}) <$> native_body (after_call_marker after_open)
  end.
Definition gemma_marked_envelope (text : bytes) : option bytes :=
  match strip_prefix (trim_start text) GEMMA_TOOL_OPEN with
  | None => None
  | Some after_open =>
      let after_marker := trim_start (after_call_marker after_open) in
      if starts_with after_marker [LBRACE] then balanced_object after_marker else None
  end.
Definition marked_object (text open : bytes) : option bytes :=
  match strip_prefix (trim_start text) open with
  | None => None
  | Some after => balanced_object (trim_start after)
  end.
Definition skip_close (close : option bytes) (rest : bytes) : bytes :=
  match close with
  | None => rest
  | Some c => match strip_prefix rest c with Some after_close => trim_start after_close | None => rest end
  end.
Fixpoint gemma_loop (fuel : nat) (rest : bytes) : list NativeCall :=
  match fuel, strip_prefix rest GEMMA_TOOL_OPEN with
  | S fuel, Some after_open =>
      let after_marker := after_call_marker after_open in
      match native_body after_marker with
      | None => []
      | Some (raw_name, args, consumed) =>
          {| native_name := raw_name; native_args := args |}
          :: gemma_loop fuel (skip_close (Some GEMMA_TOOL_CLOSE) (trim_start (drop consumed after_marker)))
      end
  | _, _ => []
  end.
Definition collect_gemma_calls (text : bytes) : list NativeCall := gemma_loop (length text) (trim_start text).
Fixpoint marked_loop (fuel : nat) (open : bytes) (close : option bytes) (rest : bytes) : list bytes :=
  match fuel, strip_prefix rest open with
  | S fuel, Some after_open =>
      let after_ws := trim_start after_open in
      match balanced_object after_ws with
      | None => []
      | Some obj => obj :: marked_loop fuel open close (skip_close close (trim_start (drop (length obj) after_ws)))
      end
  | _, _ => []
  end.
Definition collect_marked_objects (text open : bytes) (close : option bytes) : list bytes :=
  marked_loop (length text) open close (trim_start text).

(** ** Shapes without a marker *)
Definition decode_markerless (trimmed : bytes) (warrant : WarrantSpec) (max : Z) : outcome (option ToolCall) CallError :=
  match decode_named_object trimmed true with
  | Some (raw_name, args) => markerless_call raw_name args warrant max
  | None =>
      match from_str_tool_calls trimmed with
      | Some [raw] => match decode_named_object raw true with
                      | Some (raw_name, args) => markerless_call raw_name args warrant max
                      | None => Ok None
                      end
      | _ => Ok None
      end
  end.
Definition decode_markerless_paren (trimmed : bytes) (warrant : WarrantSpec) (max : Z)
    : outcome (option ToolCall) CallError :=
  match find_byte LPAREN trimmed with
  | None => Ok None
  | Some open =>
      let name := trim (take open trimmed) in
      if bool_decide (name = []) || negb (word_count name =? 1)%nat then Ok None
      else match balanced_parens (drop open trimmed) with
           | None => Ok None
           | Some paren =>
               if negb (open + length paren =? length trimmed)%nat then Ok None
               else match parse_paren_args (take (length paren - 2) (drop 1 paren)) with
                    | None => Ok None
                    | Some args_json => markerless_call name args_json warrant max
                    end
           end
  end.

(** ** The decoders *)
Fixpoint marked_arm (trimmed : bytes) (warrant : WarrantSpec) (max : Z) (opens : list bytes)
    : option (outcome ToolCall CallError) :=
  match opens with
  | [] => None
  | open :: opens =>
      match marked_object trimmed open with
      | None => marked_arm trimmed warrant max opens
      | Some obj =>
          match decode_named_object obj false with
          | None => marked_arm trimmed warrant max opens
          | Some (raw_name, args) => Some (resolve_marked_call raw_name args warrant max)
          end
      end
  end.
Definition some_call (r : outcome ToolCall CallError) : outcome (option ToolCall) CallError :=
  let* c := r in Ok (Some c).
(** From the marked arms on: the text is neither native nor a marked envelope. *)
Definition parse_unwrapped (trimmed : bytes) (warrant : WarrantSpec) (max : Z) : outcome (option ToolCall) CallError :=
  match marked_arm trimmed warrant max [PYTHON_TAG_OPEN; XML_TOOL_OPEN] with
  | Some r => some_call r
  | None =>
      if negb (starts_with trimmed [LBRACE]) then decode_markerless_paren trimmed warrant max
      else match from_str_envelope trimmed with
           | inr diagnostic => Err (CallError.Malformed diagnostic)
           | inl None => decode_markerless trimmed warrant max
           | inl (Some raw) => some_call (resolve_envelope_call raw warrant max)
           end
  end.
Definition parse_tool_call (b : bytes) (warrant : WarrantSpec) (max : Z) : outcome (option ToolCall) CallError :=
  if bool_decide (warrant.(WarrantSpec.tool_grants) = ∅) then Ok None
  else if negb (utf8_valid b) then Ok None
  else
    let trimmed := extract_json_envelope b in
    match extract_gemma_native trimmed with
    | Some native => some_call (resolve_native_call native warrant max)
    | None =>
        match gemma_marked_envelope trimmed with
        | Some inner => match from_str_envelope inner with
                        | inl (Some raw) => some_call (resolve_envelope_call raw warrant max)
                        | _ => parse_unwrapped trimmed warrant max
                        end
        | None => parse_unwrapped trimmed warrant max
        end
    end.

Fixpoint each_call {A} (f : A -> outcome ToolCall CallError) (l : list A) : outcome (list ToolCall) CallError :=
  match l with
  | [] => Ok []
  | x :: l => let* c := f x in let* cs := each_call f l in Ok (c :: cs)
  end.
(** The named objects of a marked batch, up to the first that is not one. *)
Fixpoint named_prefix_of (objs : list bytes) : list (bytes * bytes) :=
  match objs with
  | [] => []
  | obj :: objs => match decode_named_object obj false with
                   | None => []
                   | Some x => x :: named_prefix_of objs
                   end
  end.
Fixpoint multi_marked (trimmed : bytes) (warrant : WarrantSpec) (max : Z) (arms : list (bytes * option bytes))
    : outcome (option (list ToolCall)) CallError :=
  match arms with
  | [] => Ok None
  | (open, close) :: arms =>
      let objs := collect_marked_objects trimmed open close in
      if (2 <=? length objs)%nat
      then let* out := each_call (fun x => resolve_marked_call x.1 x.2 warrant max) (named_prefix_of objs) in
           if (2 <=? length out)%nat then Ok (Some out) else multi_marked trimmed warrant max arms
      else multi_marked trimmed warrant max arms
  end.
Fixpoint all_or_nothing (warrant : WarrantSpec) (max : Z) (raws : list bytes) (out : list ToolCall)
    : outcome (list ToolCall) CallError :=
  match raws with
  | [] => Ok out
  | raw :: raws =>
      match decode_named_object raw true with
      | None => Ok []
      | Some (raw_name, args) =>
          let* c := markerless_call raw_name args warrant max in
          match c with
          | Some call => all_or_nothing warrant max raws (out ++ [call])
          | None => Ok []
          end
      end
  end.
Definition try_decode_multi (b : bytes) (warrant : WarrantSpec) (max : Z) : outcome (option (list ToolCall)) CallError :=
  if bool_decide (warrant.(WarrantSpec.tool_grants) = ∅) then Ok None
  else if negb (utf8_valid b) then Ok None
  else
    let trimmed := extract_json_envelope b in
    let gemma := collect_gemma_calls trimmed in
    if (2 <=? length gemma)%nat
    then let* out := each_call (fun native => resolve_native_call native warrant max) gemma in Ok (Some out)
    else
      let* marked := multi_marked trimmed warrant max [(PYTHON_TAG_OPEN, None); (XML_TOOL_OPEN, Some XML_TOOL_CLOSE)] in
      match marked with
      | Some out => Ok (Some out)
      | None =>
          if starts_with trimmed [LBRACE]
          then match from_str_tool_calls trimmed with
               | Some raws => if (2 <=? length raws)%nat
                              then let* out := all_or_nothing warrant max raws [] in Ok (Some out)
                              else Ok None
               | None => Ok None
               end
          else Ok None
      end.
Definition parse_tool_calls (b : bytes) (warrant : WarrantSpec) (max : Z) : outcome (list ToolCall) CallError :=
  let* multi := try_decode_multi b warrant max in
  match multi with
  | Some calls => Ok calls
  | None => let* c := parse_tool_call b warrant max in Ok (option_list c)
  end.

(** ** Answers *)
(** The text of an answer envelope; [None] where the source borrows the bytes. *)
Definition answer_arm (b : bytes) : option bytes :=
  if negb (utf8_valid b) then None
  else
    let trimmed := trim b in
    if negb (starts_with trimmed [LBRACE]) then None else from_str_answer trimmed.
Definition extract_answer (b : bytes) : bytes := default b (answer_arm b).
Definition looks_like_an_attempted_tool_call (b : bytes) (warrant : WarrantSpec) : bool :=
  if bool_decide (warrant.(WarrantSpec.tool_grants) = ∅) then false
  else utf8_valid b && contains_text b ATTEMPTED_CALL_MARKER.
Definition CONTINUATION_OPENERS : list bytes :=
  [str "i will "; str "i'll "; str "let me "; str "i am going to "; str "i'm going to "; str "next, i "].
(** [to_lowercase] is Unicode's. *)
Definition answer_is_a_continuation (to_lowercase : bytes -> bytes) (b : bytes) (warrant : WarrantSpec) : bool :=
  if bool_decide (warrant.(WarrantSpec.tool_grants) = ∅) then false
  else
    let answer := extract_answer b in
    utf8_valid answer && existsb (contains_text (to_lowercase answer)) CONTINUATION_OPENERS.

(** ** Rerank orders *)
Fixpoint permutation_loop (n : nat) (seen : list nat) (arr : list Z) : option (list nat) :=
  match arr with
  | [] => Some []
  | v :: arr =>
      if v <? 0 then None
      else
        let idx := Z.to_nat v in
        if (n <=? idx)%nat || bool_decide (idx ∈ seen) then None
        else cons idx <$> permutation_loop n (idx :: seen) arr
  end.
Definition parse_permutation (text : bytes) (n : nat) : option (list nat) :=
  match leading_i64s (extract_json_envelope text) with
  | None => None
  | Some arr => if negb (length arr =? n)%nat then None else permutation_loop n [] arr
  end.
End Parse.

Definition continuation_answer_reason : bytes :=
  str "you described what you are ABOUT to do instead of doing it. Answering ends the run, "
  ++ str "so there is no turn after your answer and the step you described would never happen. "
  ++ str "Take that step NOW by calling the tool, or give the final result you were asked for.".
Definition unreadable_tool_call_reason : bytes :=
  str "your reply looked like a tool call but could not be read as one. Emit EXACTLY one "
  ++ str "JSON object and nothing else: {" ++ quoted (str "tool_call") ++ str ":{" ++ quoted (str "name") ++ str ":"
  ++ quoted (str "<tool name>") ++ str "," ++ quoted (str "version") ++ str ":" ++ quoted (str "<tool version>")
  ++ str "," ++ quoted (str "args") ++ str ":{ ... }}} — using a name and version from the tool list. "
  ++ str "If you did not mean to call a tool, reply with your final answer as plain text.".

(** ** Repeated calls (dedup.rs) *)
Definition DUPLICATE_REJECT_MARKER : bytes := str "already called this run with identical arguments".
Definition SETTLE_NUDGE_MARKER : bytes := str "your tool-call budget is nearly exhausted. Do NOT call another tool".
Definition is_duplicate_reason (reason : bytes) : bool := contains_text reason DUPLICATE_REJECT_MARKER.
Definition is_duplicate_call (call : ToolCall) (prior : list ToolCall) : bool :=
  existsb (fun p => bool_decide (p.(call_name) = call.(call_name)) && bool_decide (p.(call_version) = call.(call_version))
                    && bool_decide (p.(args_bytes) = call.(args_bytes))) prior.
Definition duplicate_call_reason (call : ToolCall) : bytes :=
  str "the tool `" ++ call.(call_name) ++ str "@" ++ call.(call_version)
  ++ str "` was already called this run with identical arguments — "
  ++ str "use the result you already have, or answer the question directly".
