(* ===== verification/ToolcallFacts.v ===== *)
(** What the tool-call gate promises: nothing but granted tools within the size
    cap, one answer per name, spans that later text cannot extend. *)
From S2P Require Import Prelude Utf8 CriticTypes Mote Warrant Critic Digits ParamSchema Text ToolRegistry Toolcall.

(** ** Names *)
Definition addressed (raw_name : bytes) (g : ToolGrant) : Prop :=
  model_name_core raw_name <> [] /\ id_matches (model_name_core raw_name) g.(ToolGrant.tool_id) = true.
Definition hits (raw_name : bytes) (w : WarrantSpec) : list ToolGrant :=
  List.filter (fun g => id_matches (model_name_core raw_name) g.(ToolGrant.tool_id)) (grants_iter w.(WarrantSpec.tool_grants)).
Lemma elem_of_hits raw_name w g :
  g ∈ hits raw_name w <-> g ∈ w.(WarrantSpec.tool_grants) /\ id_matches (model_name_core raw_name) g.(ToolGrant.tool_id) = true.
Proof.
  unfold hits. rewrite list_elem_of_In, filter_In, <- list_elem_of_In. unfold grants_iter.
  rewrite (merge_sort_Permutation _), elem_of_elements. done.
Qed.
Lemma hits_nodup raw_name w : NoDup (hits raw_name w).
Proof.
  unfold hits. apply NoDup_ListNoDup, List.NoDup_filter, NoDup_ListNoDup.
  unfold grants_iter. rewrite (merge_sort_Permutation _). apply NoDup_elements.
Qed.

(** A name is resolved to a grant exactly when that grant alone is addressed, it
    is ambiguous exactly when several are, and nothing but the addressed grants is
    ever named. *)
Lemma resolve_name_unique raw_name w g :
  resolve_name raw_name w = Unique g <->
  g ∈ w.(WarrantSpec.tool_grants) /\ addressed raw_name g
  /\ forall g', g' ∈ w.(WarrantSpec.tool_grants) -> addressed raw_name g' -> g' = g.
Proof.
  unfold resolve_name, addressed. case_bool_decide as Ht.
  - rewrite Ht. naive_solver.
  - pose proof (elem_of_hits raw_name w) as Hin. pose proof (hits_nodup raw_name w) as Hnd.
    change (List.filter _ _) with (hits raw_name w).
    destruct (hits raw_name w) as [|a [|b l]] eqn:E.
    + split; [done|]. intros (Hg & [_ Hm] & _). exfalso. eapply not_elem_of_nil. by apply Hin.
    + split.
      * intros [= ->]. destruct (proj1 (Hin g)) as [Hg Hm]; [set_solver|]. split_and!; [done..|].
        intros g' Hg' [_ Hm']. apply list_elem_of_singleton, Hin. done.
      * intros (Hg & [_ Hm] & _). f_equal. symmetry. apply list_elem_of_singleton, Hin. done.
    + split; [done|]. intros (Hg & [_ Hm] & Hu). exfalso.
      assert (a = g) as -> by (apply Hu; [apply (Hin a)|split; [done|apply (Hin a)]]; set_solver).
      assert (b = g) as -> by (apply Hu; [apply (Hin b)|split; [done|apply (Hin b)]]; set_solver).
      apply NoDup_cons in Hnd as [Hn _]. set_solver.
Qed.
(** The grammar's predicate is the parser's: a bare granted name is offered
    exactly when the parser resolves it. *)
Theorem native_names_are_the_parsers tool_id w :
  native_name_resolves_uniquely tool_id (ToolGrant.tool_id <$> grants_iter w.(WarrantSpec.tool_grants)) = true
  <-> exists g, g ∈ w.(WarrantSpec.tool_grants)
        /\ committed_grant tool_id w = Ok g
        /\ forall g', g' ∈ w.(WarrantSpec.tool_grants) -> addressed tool_id g' -> g' = g.
Proof.
  transitivity (exists g, resolve_name tool_id w = Unique g).
  - unfold native_name_resolves_uniquely, resolve_name. case_bool_decide; [naive_solver|].
    rewrite Nat.eqb_eq.
    assert (length (List.filter (id_matches (model_name_core tool_id))
              (ToolGrant.tool_id <$> grants_iter (WarrantSpec.tool_grants w))) = length (hits tool_id w)) as ->.
    { unfold hits. induction (grants_iter _) as [|g l IH]; [done|]. cbn. destruct (id_matches _ _); cbn; lia. }
    change (List.filter _ _) with (hits tool_id w).
    destruct (hits tool_id w) as [|a [|b l]]; cbn; naive_solver.
  - unfold committed_grant. split.
    + intros [g Hg]. exists g. rewrite Hg. apply resolve_name_unique in Hg. naive_solver.
    + intros (g & _ & Hc & _). exists g. destruct (resolve_name tool_id w); naive_solver.
Qed.

(** ** Granted and capped *)
Definition granted (w : WarrantSpec) (max : Z) (c : ToolCall) : Prop :=
  {| ToolGrant.tool_id := c.(call_name); ToolGrant.tool_version := c.(call_version) |} ∈ w.(WarrantSpec.tool_grants)
  /\ Z.of_nat (length c.(args_bytes)) <= max.
(** Every value of a result, and no panic. *)
Definition yields {A E} (P : A -> Prop) (m : outcome A E) : Prop :=
  match m with Ok a => P a | Err _ => True | Panic => False end.
Lemma granted_bind {A B E} (P : A -> Prop) (Q : B -> Prop) (m : outcome A E) (k : A -> outcome B E) :
  yields P m -> (forall a, P a -> yields Q (k a)) -> yields Q (let* a := m in k a).
Proof. destruct m; cbn; auto. Qed.
Lemma capped_call_granted w g args max : g ∈ w.(WarrantSpec.tool_grants) -> yields (granted w max) (capped_call g args max).
Proof.
  intros Hg. unfold capped_call. destruct (Z.ltb_spec max (Z.of_nat (length args))); [done|]. split; [by destruct g|done].
Qed.
#[export] Hint Resolve capped_call_granted : core.
Lemma resolve_name_granted n w g : resolve_name n w = Unique g -> g ∈ w.(WarrantSpec.tool_grants).
Proof. intros ?%resolve_name_unique. naive_solver. Qed.
Lemma committed_grant_granted n w : yields (.∈ w.(WarrantSpec.tool_grants)) (committed_grant n w).
Proof. unfold committed_grant. destruct (resolve_name n w) eqn:E; [by eapply resolve_name_granted|done..]. Qed.
Lemma marked_granted n args w max : yields (granted w max) (resolve_marked_call n args w max).
Proof. eapply granted_bind; [apply committed_grant_granted|]. auto. Qed.
Lemma native_granted n w max : yields (granted w max) (resolve_native_call n w max).
Proof. eapply granted_bind; [apply committed_grant_granted|]. auto. Qed.
Definition granted_opt (w : WarrantSpec) (max : Z) (o : option ToolCall) : Prop :=
  match o with Some c => granted w max c | None => True end.
Lemma some_call_granted w max r : yields (granted w max) r -> yields (granted_opt w max) (some_call r).
Proof. intros H. eapply granted_bind; [exact H|]. done. Qed.
Lemma markerless_granted n args w max : yields (granted_opt w max) (markerless_call n args w max).
Proof.
  unfold markerless_call, resolve_granted_name. destruct (resolve_name n w) as [g| |] eqn:E; [|done..].
  eapply granted_bind; [apply capped_call_granted; by eapply resolve_name_granted|]. done.
Qed.
#[export] Hint Resolve marked_granted native_granted markerless_granted some_call_granted : core.

Section Gate.
Context `{SerdeJson} `{SerdeValue} `{ToolcallJson}.
Lemma envelope_granted raw w max : yields (granted w max) (resolve_envelope_call raw w max).
Proof.
  unfold resolve_envelope_call. eapply (granted_bind (.∈ w.(WarrantSpec.tool_grants))); [|auto].
  case_bool_decide; [done|]. case_bool_decide; [|done].
  destruct (resolve_name _ w) eqn:E; [by eapply resolve_name_granted|done..].
Qed.
Hint Resolve envelope_granted : core.
Lemma markerless_shapes_granted t w max :
  yields (granted_opt w max) (decode_markerless t w max) /\ yields (granted_opt w max) (decode_markerless_paren t w max).
Proof. unfold decode_markerless, decode_markerless_paren. split; repeat (case_match; auto; try done). Qed.
Lemma marked_arm_granted t w max os r : marked_arm t w max os = Some r -> yields (granted w max) r.
Proof. induction os as [|o os IH]; cbn; [done|]. repeat case_match; intros; simplify_eq; auto. Qed.
Lemma parse_unwrapped_granted t w max : yields (granted_opt w max) (parse_unwrapped t w max).
Proof.
  unfold parse_unwrapped. destruct (marked_arm _ _ _ _) eqn:E; [eauto using marked_arm_granted|].
  destruct (starts_with _ _); cbn [negb]; [|apply markerless_shapes_granted].
  destruct (from_str_envelope t) as [[raw|]|]; [auto|apply markerless_shapes_granted|done].
Qed.
Lemma parse_tool_call_granted b w max : yields (granted_opt w max) (parse_tool_call b w max).
Proof.
  unfold parse_tool_call. case_bool_decide; [done|]. destruct (utf8_valid b); cbn [negb]; [|done].
  destruct (extract_gemma_native _); [auto|]. destruct (gemma_marked_envelope _) as [inner|]; [|apply parse_unwrapped_granted].
  destruct (from_str_envelope inner) as [[raw|]|]; [auto|apply parse_unwrapped_granted..].
Qed.
Lemma each_call_granted {A} (f : A -> outcome ToolCall CallError) l w max :
  (forall x, yields (granted w max) (f x)) -> yields (Forall (granted w max)) (each_call f l).
Proof.
  intros Hf. induction l as [|x l IH]; cbn [each_call]; [by constructor|].
  eapply granted_bind; [apply Hf|]. intros c Hc. eapply granted_bind; [apply IH|]. intros cs Hcs. by constructor.
Qed.
Lemma all_or_nothing_granted w max raws : forall out, Forall (granted w max) out ->
  yields (Forall (granted w max)) (all_or_nothing w max raws out).
Proof.
  induction raws as [|raw raws IH]; intros out Ho; cbn [all_or_nothing]; [done|].
  destruct (decode_named_object raw true) as [[n a]|]; [|constructor].
  eapply granted_bind; [apply markerless_granted|]. intros [c|] Hc; [|constructor].
  apply IH, Forall_app_2; [done|by constructor].
Qed.

Lemma multi_marked_granted t w max arms :
  yields (fun o => forall cs, o = Some cs -> Forall (granted w max) cs /\ (2 <= length cs)%nat) (multi_marked t w max arms).
Proof.
  induction arms as [|[op cl] arms IH]; cbn [multi_marked]; [done|]. destruct (2 <=? _)%nat; [|done].
  eapply granted_bind; [apply each_call_granted; auto|]. intros out Ho.
  destruct (Nat.leb_spec 2 (length out)); [|done]. intros cs [= <-]. done.
Qed.
Lemma all_or_nothing_length w max raws : forall out,
  yields (fun cs => cs = [] \/ length cs = (length out + length raws)%nat) (all_or_nothing w max raws out).
Proof.
  induction raws as [|raw raws IH]; intros out; cbn [all_or_nothing length]; [right; lia|].
  destruct (decode_named_object raw true) as [[n a]|]; [|by left].
  eapply (granted_bind (fun _ => True)); [by destruct (markerless_call n a w max) eqn:E;
    [| |pose proof (markerless_granted n a w max) as Hp; rewrite E in Hp]|].
  intros [c|] _; [|by left]. specialize (IH (out ++ [c])). destruct (all_or_nothing _ _ _ _); [|done..].
  destruct IH as [->|IH]; [by left|]. right. rewrite IH, length_app. cbn. lia.
Qed.
Lemma each_call_length {A} (f : A -> outcome ToolCall CallError) l cs :
  each_call f l = Ok cs -> length cs = length l.
Proof.
  revert cs. induction l as [|x l IH]; cbn [each_call]; intros cs E; [by simplify_eq|].
  destruct (f x); [|done..]. cbn in E. destruct (each_call f l); [|done..]. cbn in E. simplify_eq. cbn. by rewrite (IH _ eq_refl).
Qed.
Lemma yields_mono {A E} (P Q : A -> Prop) (m : outcome A E) : yields P m -> (forall a, P a -> Q a) -> yields Q m.
Proof. destruct m; cbn; auto. Qed.
(** A batch is of granted calls, and never of exactly one. *)
Lemma try_decode_multi_granted b w max :
  yields (fun o => forall cs, o = Some cs -> Forall (granted w max) cs /\ length cs <> 1%nat) (try_decode_multi b w max).
Proof.
  unfold try_decode_multi. case_bool_decide; [done|]. destruct (utf8_valid b); cbn [negb]; [|done].
  set (t := extract_json_envelope b). destruct (Nat.leb_spec 2 (length (collect_gemma_calls t))).
  - pose proof (each_call_granted (fun n => resolve_native_call n w max) (collect_gemma_calls t) w max) as Hg.
    destruct (each_call _ _) as [cs| |] eqn:E; cbn; [|done|by apply Hg; intros; auto].
    intros ? [= <-]. split; [by apply Hg; intros; auto|]. apply each_call_length in E. lia.
  - eapply granted_bind; [apply multi_marked_granted|]. intros [cs|] Hcs.
    + intros ? [= <-]. destruct (Hcs cs) as [? ?]; [done|]. split; [done|lia].
    + destruct (starts_with t _); [|done]. destruct (from_str_tool_calls t) as [raws|]; [|done].
      destruct (Nat.leb_spec 2 (length raws)); [|done].
      pose proof (all_or_nothing_granted w max raws [] (Forall_nil_2 _)) as Hg.
      pose proof (all_or_nothing_length w max raws []) as Hl.
      destruct (all_or_nothing w max raws []) as [cs| |]; cbn in *; [|done..].
      intros ? [= <-]. split; [done|]. destruct Hl as [->|Hl]; cbn; lia.
Qed.

Lemma parse_tool_calls_granted b w max : yields (Forall (granted w max)) (parse_tool_calls b w max).
Proof.
  eapply granted_bind; [apply try_decode_multi_granted|]. intros [cs|] Hcs; [by apply Hcs|].
  eapply granted_bind; [apply parse_tool_call_granted|]. intros [c|] Hc; cbn; [by constructor|constructor].
Qed.
(** The gate admits nothing the warrant does not grant: whatever text a model
    produces, decoding it never panics, and every call it decodes names a tool and
    version of the warrant's grants and carries arguments within the cap. *)
Theorem decoded_calls_granted b w max :
  parse_tool_calls b w max <> Panic
  /\ forall calls, parse_tool_calls b w max = Ok calls -> Forall (granted w max) calls.
Proof.
  pose proof (parse_tool_calls_granted b w max) as Hy.
  destruct (parse_tool_calls b w max); [|done..]. split; [done|]. by intros ? [= <-].
Qed.
(** One call is decoded the same by both decoders: the batch decoder yields a
    single call exactly when it leaves the text to the single decoder and that
    one yields the call. *)
Theorem single_call_agrees b w max c :
  parse_tool_calls b w max = Ok [c] <->
  try_decode_multi b w max = Ok None /\ parse_tool_call b w max = Ok (Some c).
Proof.
  unfold parse_tool_calls. pose proof (try_decode_multi_granted b w max) as Hm.
  destruct (try_decode_multi b w max) as [[cs|]| |]; cbn; [|..].
  - split; [|naive_solver]. intros [= ->]. by destruct (Hm [c] eq_refl).
  - destruct (parse_tool_call b w max) as [[c'|]| |]; cbn; naive_solver.
  - naive_solver.
  - naive_solver.
Qed.
End Gate.

(** ** Spans *)
Definition spanned (op cl : Z) (depth : nat) (q e : bool) (l : bytes) (n : nat) : Prop :=
  exists o r, l = o ++ r /\ length o = n /\ forall t, span_loop op cl depth q e (o ++ t) = Some n.
Lemma span_loop_spanned op cl l : forall depth q e n,
  span_loop op cl depth q e l = Some n -> spanned op cl depth q e l n.
Proof.
  induction l as [|b l IH]; intros depth q e n E; [done|]. unfold spanned.
  assert (Hs : forall d q' e', (S <$> span_loop op cl d q' e' l) = Some n ->
    exists o r, b :: l = (b :: o) ++ r /\ length (b :: o) = n
      /\ forall t, (S <$> span_loop op cl d q' e' (o ++ t)) = Some n).
  { intros d q' e' (m & Em & ->)%fmap_Some. destruct (IH _ _ _ _ Em) as (o & r & -> & <- & Ht).
    exists o, r. split_and!; [done..|]. intros t. by rewrite Ht. }
  assert (Hk : forall (f : bytes -> option nat), (forall t, span_loop op cl depth q e (b :: t) = f t) ->
    (forall d q' e', (forall t, f t = S <$> span_loop op cl d q' e' t) -> spanned op cl depth q e (b :: l) n)).
  { intros f Hf d q' e' Hd. rewrite Hf, Hd in E. destruct (Hs _ _ _ E) as (o & r & ? & ? & Ht).
    exists (b :: o), r. split_and!; [done..|]. intros t. cbn [app]. by rewrite Hf, Hd. }
  change (spanned op cl depth q e (b :: l) n).
  destruct q; [destruct e; [eapply Hk; [by intros|by intros]|]|].
  - destruct (b =? BSL) eqn:E1, (b =? DQ) eqn:E2;
      (eapply Hk; [by intros|]; intros t; cbn [span_loop]; by rewrite ?E1, ?E2).
  - cbn [span_loop] in E. destruct (b =? DQ) eqn:E2; [eapply Hk; [by intros|]; intros t; cbn [span_loop]; by rewrite E2|].
    destruct (b =? op) eqn:E3.
    { destruct (MAX_DEPTH <? S depth)%nat eqn:E5; [done|].
      eapply Hk; [by intros|]; intros t; cbn [span_loop]; by rewrite E2, E3, E5. }
    destruct (b =? cl) eqn:E4.
    { destruct depth as [|[|d]]; [done| |].
      - simplify_eq. exists [b], l. split_and!; [done..|]. intros t. cbn [app span_loop]. by rewrite E2, E3, E4.
      - eapply Hk; [by intros|]; intros t; cbn [span_loop]; by rewrite E2, E3, E4. }
    eapply Hk; [by intros|]; intros t; cbn [span_loop]; by rewrite E2, E3, E4.
Qed.
Lemma balanced_span_exact op cl s o : balanced_span op cl s = Some o ->
  (exists r, s = o ++ r) /\ (exists r, o = op :: r) /\ forall t, balanced_span op cl (o ++ t) = Some o.
Proof.
  destruct s as [|b s]; cbn [balanced_span]; [done|]. destruct (Z.eqb_spec b op) as [->|]; [|done].
  intros (n & En & ->)%fmap_Some. destruct (span_loop_spanned _ _ _ _ _ _ _ En) as (o & r & Es & <- & Ht).
  rewrite Es, take_app_length. destruct o as [|b o]; [by specialize (Ht []); cbn in Ht|]. injection Es as -> Es.
  split_and!; [by exists r|by exists o|]. intros t. specialize (Ht t). cbn [app balanced_span] in *.
  rewrite Z.eqb_refl, Ht. cbn [fmap option_fmap option_map]. f_equal. exact (take_app_length (b :: o) t).
Qed.
(** The object after a delimiter is a prefix of the text, and it is the same
    whatever follows it: text after the object cannot reach into the arguments. *)
Theorem object_span_stable s o : balanced_object s = Some o ->
  (exists r, s = o ++ r) /\ (exists r, o = LBRACE :: r) /\ forall t, balanced_object (o ++ t) = Some o.
Proof. apply balanced_span_exact. Qed.

(** ** The scans end *)
Section Scans.
Context `{SerdeJson} `{SerdeValue} `{ToolcallJson}.
Lemma skip_close_length c r : (length (skip_close c r) <= length r)%nat.
Proof.
  unfold skip_close. destruct c as [c|]; [|done]. destruct (strip_prefix r c) as [r'|] eqn:E; [|done].
  apply strip_prefix_spec in E as ->. rewrite length_app. pose proof (trim_start_length r'). lia.
Qed.
Lemma after_call_marker_length r : (length (after_call_marker r) <= length r)%nat.
Proof.
  unfold after_call_marker. pose proof (trim_start_length r). destruct (strip_prefix _ _) as [r'|] eqn:E; [|done].
  apply strip_prefix_spec in E. apply (f_equal length) in E. rewrite length_app in E. cbn in *. lia.
Qed.
Lemma strip_prefix_shorter t p r : p <> [] -> strip_prefix t p = Some r -> (length r < length t)%nat.
Proof. intros Hp ->%strip_prefix_spec. rewrite length_app. destruct p; [done|]. cbn. lia. Qed.
Lemma rest_shorter c t : (length (skip_close c (trim_start t)) <= length t)%nat.
Proof. etransitivity; [apply skip_close_length|apply trim_start_length]. Qed.
Lemma drop_white_idem cs : drop_white (drop_white cs) = drop_white cs.
Proof. induction cs as [|c cs IH]; [done|]. cbn [drop_white]. destruct (is_white_char c) eqn:E; [done|]. cbn. by rewrite E. Qed.
Lemma drop_white_suffix cs : exists ws, cs = ws ++ drop_white cs.
Proof.
  induction cs as [|c cs [ws IH]]; [by exists []|]. cbn [drop_white]. destruct (is_white_char c); [|by exists []].
  exists (c :: ws). cbn. by rewrite <- IH.
Qed.
Lemma trim_start_idem t : trim_start (trim_start t) = trim_start t.
Proof.
  unfold trim_start at 2 3. destruct (utf8_chars t) as [cs|] eqn:E; [|unfold trim_start; by rewrite E].
  apply utf8_chars_sound in E as [Hc _]. unfold trim_start. rewrite utf8_chars_concat; [by rewrite drop_white_idem|].
  destruct (drop_white_suffix cs) as [ws Hw]. rewrite Hw in Hc. by apply Forall_app in Hc as [_ ?].
Qed.
Lemma skip_close_trimmed c t : trim_start (skip_close c (trim_start t)) = skip_close c (trim_start t).
Proof.
  unfold skip_close. destruct c as [c|]; [|apply trim_start_idem].
  destruct (strip_prefix _ _); apply trim_start_idem.
Qed.
Lemma gemma_loop_enough fuel : forall rest, (length rest <= fuel)%nat -> gemma_loop fuel rest = gemma_loop (length rest) rest.
Proof.
  induction fuel as [fuel IH] using (well_founded_induction Nat.lt_wf_0). intros rest Hl.
  destruct (strip_prefix rest GEMMA_TOOL_OPEN) as [a|] eqn:E.
  - pose proof (strip_prefix_shorter rest GEMMA_TOOL_OPEN a ltac:(done) E) as Ha. pose proof (after_call_marker_length a) as Hm.
    destruct fuel as [|fuel]; [lia|]. destruct (length rest) as [|n] eqn:En; [lia|]. cbn [gemma_loop]. rewrite E.
    destruct (native_body _) as [[[nm ar] k]|]; [|done]. f_equal.
    pose proof (rest_shorter (Some GEMMA_TOOL_CLOSE) (drop k (after_call_marker a))) as Hr. rewrite length_drop in Hr.
    rewrite (IH fuel) by lia. symmetry. apply IH; lia.
  - destruct fuel, (length rest); cbn [gemma_loop]; by rewrite ?E.
Qed.
Lemma marked_loop_enough op cl fuel : op <> [] -> forall rest, (length rest <= fuel)%nat ->
  marked_loop fuel op cl rest = marked_loop (length rest) op cl rest.
Proof.
  intros Ho. induction fuel as [fuel IH] using (well_founded_induction Nat.lt_wf_0). intros rest Hl.
  destruct (strip_prefix rest op) as [a|] eqn:E.
  - pose proof (strip_prefix_shorter _ _ _ Ho E) as Ha. pose proof (trim_start_length a) as Hm.
    destruct fuel as [|fuel]; [lia|]. destruct (length rest) as [|n] eqn:En; [lia|]. cbn [marked_loop]. rewrite E.
    destruct (balanced_object _) as [obj|]; [|done]. f_equal.
    pose proof (rest_shorter cl (drop (length obj) (trim_start a))) as Hr. rewrite length_drop in Hr.
    rewrite (IH fuel) by lia. symmetry. apply IH; lia.
  - destruct fuel, (length rest); cbn [marked_loop]; by rewrite ?E.
Qed.
(** The scans of a batch end: the bound on their steps, the length of the text, is
    never what stops them, so each collects the segments up to the first text that
    does not open one, one segment after the other. *)
Theorem batch_scans_end text op cl : op <> [] ->
  (forall fuel, (length text <= fuel)%nat ->
     gemma_loop fuel (trim_start text) = collect_gemma_calls text
     /\ marked_loop fuel op cl (trim_start text) = collect_marked_objects text op cl)
  /\ collect_marked_objects text op cl
     = match strip_prefix (trim_start text) op with
       | None => []
       | Some after_open =>
           match balanced_object (trim_start after_open) with
           | None => []
           | Some obj => obj :: collect_marked_objects
                                  (skip_close cl (trim_start (drop (length obj) (trim_start after_open)))) op cl
           end
       end.
Proof.
  intros Ho. pose proof (trim_start_length text) as Ht.
  assert (Hm : forall t, collect_marked_objects t op cl = marked_loop (length (trim_start t)) op cl (trim_start t))
    by (intros t; apply marked_loop_enough; [done|apply trim_start_length]).
  split.
  - intros fuel Hf. unfold collect_gemma_calls, collect_marked_objects. split.
    + rewrite (gemma_loop_enough fuel), (gemma_loop_enough (length text)) by lia. done.
    + rewrite (marked_loop_enough op cl fuel), (marked_loop_enough op cl (length text)) by (done || lia). done.
  - rewrite Hm. destruct (strip_prefix (trim_start text) op) as [a|] eqn:E.
    + pose proof (strip_prefix_shorter _ _ _ Ho E) as Ha. pose proof (trim_start_length a) as Hl.
      destruct (length (trim_start text)) as [|n] eqn:En; [lia|]. cbn [marked_loop]. rewrite E.
      destruct (balanced_object _) as [obj|]; [|done]. f_equal. rewrite Hm, skip_close_trimmed.
      pose proof (rest_shorter cl (drop (length obj) (trim_start a))) as Hr. rewrite length_drop in Hr.
      apply marked_loop_enough; [done|]. lia.
    + destruct (length (trim_start text)); cbn [marked_loop]; by rewrite ?E.
Qed.
End Scans.

(** ** On concrete texts *)
Definition demo_value : SerdeValue :=
  {| value_from_slice := fun b => if bool_decide (b = str "7") then Some (VInt 7) else None;
     value_to_vec := fun _ => str "{}" |}.
#[local] Existing Instance demo_value.
Definition demo_text : bytes := str "<tool_call>{a{b}c}</tool_call> <tool_call>{d}".
Lemma object_span_stable_witness :
  balanced_object (str "{a{b}c}</tool_call>") = Some (str "{a{b}c}")
  /\ balanced_object (str "{a{b}c}" ++ str "}") = Some (str "{a{b}c}").
Proof.
  split; [vm_compute; reflexivity|].
  apply (object_span_stable (str "{a{b}c}</tool_call>")). vm_compute. reflexivity.
Defined.
Lemma batch_scans_end_witness :
  collect_marked_objects demo_text XML_TOOL_OPEN (Some XML_TOOL_CLOSE) = [str "{a{b}c}"; str "{d}"]
  /\ marked_loop 1000 XML_TOOL_OPEN (Some XML_TOOL_CLOSE) (trim_start demo_text)
     = collect_marked_objects demo_text XML_TOOL_OPEN (Some XML_TOOL_CLOSE).
Proof.
  split; [vm_compute; reflexivity|].
  assert (Ho : XML_TOOL_OPEN <> []) by discriminate.
  assert (Hl : (length demo_text <= 1000)%nat) by (vm_compute; lia).
  exact (proj2 (proj1 (batch_scans_end demo_text XML_TOOL_OPEN (Some XML_TOOL_CLOSE) Ho) 1000%nat Hl)).
Defined.
