(* ===== verification/Workers.v ===== *)
(** kx-coordinator's worker bookkeeping: the registry with clock-derived
    liveness (registry.rs), load-aware placement (placement.rs) and the lease
    and retry tables (reschedule.rs). The clock is an argument: what it read. *)
From S2P Require Import Prelude Utf8 CriticTypes Mote Warrant Scheduler.

(** Iteration of a [BTreeMap<WorkerId, _>]: by ascending identifier. *)
Definition id_le {V} (a b : Z * V) : Prop := a.1 <= b.1.
#[export] Instance id_le_dec {V} : RelDecision (@id_le V).
Proof. intros a b. unfold id_le. apply _. Defined.
#[export] Instance id_le_total {V} : Total (@id_le V).
Proof. intros a b. unfold id_le. lia. Qed.
#[export] Instance id_le_trans {V} : Transitive (@id_le V).
Proof. intros a b c. unfold id_le. lia. Qed.
Definition zmap_iter {V} (m : gmap Z V) : list (Z * V) := merge_sort id_le (map_to_list m).
Definition zmap_keys {V} (m : gmap Z V) : list Z := (zmap_iter m).*1.
Definition zmap_values {V} (m : gmap Z V) : list V := (zmap_iter m).*2.

(** ** The registry *)
Inductive WorkerStatus := Live | Dead.
#[export] Instance WorkerStatus_dec : EqDecision WorkerStatus.
Proof. solve_decision. Defined.
Definition is_live (last_seen_ms now_ms timeout_ms : Z) : bool :=
  Z.max 0 (now_ms - last_seen_ms) <=? timeout_ms.
Record WorkerRecord := {
  id : WorkerId;
  executor_class : ExecutorClass;
  endpoint : bytes;
  last_seen_ms : Z;
  last_heartbeat_ms : Z;
  in_flight : Z
}.
Inductive RegistryError := UnknownWorker (w : WorkerId).
Record InMemoryWorkerRegistry := {
  next_id : Z;
  workers : gmap Z WorkerRecord;
  timeout_ms : Z
}.
Definition with_clock_and_timeout (timeout : Z) : InMemoryWorkerRegistry :=
  {| next_id := 0; workers := ∅; timeout_ms := timeout |}.
Definition DEFAULT_LIVENESS_TIMEOUT_MS : Z := 6000.
Definition registry_new : InMemoryWorkerRegistry := with_clock_and_timeout DEFAULT_LIVENESS_TIMEOUT_MS.
Definition register (now : Z) (r : InMemoryWorkerRegistry) (class : ExecutorClass) (ep : bytes)
    : WorkerId * InMemoryWorkerRegistry :=
  let w := r.(next_id) in
  let record := {| id := w; executor_class := class; endpoint := ep; last_seen_ms := now;
                   last_heartbeat_ms := 0; in_flight := 0 |} in
  (w, {| next_id := u64_add r.(next_id) 1; workers := <[w := record]> r.(workers);
         timeout_ms := r.(timeout_ms) |}).
Definition heartbeat (now : Z) (r : InMemoryWorkerRegistry) (worker : WorkerId) (now_ms load : Z)
    : outcome InMemoryWorkerRegistry RegistryError :=
  match r.(workers) !! worker with
  | None => Err (UnknownWorker worker)
  | Some record =>
      let record := {| id := record.(id); executor_class := record.(executor_class);
                       endpoint := record.(endpoint); last_seen_ms := now;
                       last_heartbeat_ms := now_ms; in_flight := load |} in
      Ok {| next_id := r.(next_id); workers := <[worker := record]> r.(workers);
            timeout_ms := r.(timeout_ms) |}
  end.
Definition get_worker (r : InMemoryWorkerRegistry) (worker : WorkerId) : option WorkerRecord :=
  r.(workers) !! worker.
Definition registry_len (r : InMemoryWorkerRegistry) : nat := size r.(workers).
Definition snapshot (r : InMemoryWorkerRegistry) : list WorkerRecord := zmap_values r.(workers).
Definition live_snapshot (now : Z) (r : InMemoryWorkerRegistry) : list WorkerRecord :=
  List.filter (fun w => is_live w.(last_seen_ms) now r.(timeout_ms)) (zmap_values r.(workers)).
Definition status (now : Z) (r : InMemoryWorkerRegistry) (worker : WorkerId) : option WorkerStatus :=
  (fun w => if is_live w.(last_seen_ms) now r.(timeout_ms) then Live else Dead)
    <$> r.(workers) !! worker.

(** ** Placement *)
#[export] Instance ExecutorClass_dec : EqDecision ExecutorClass.
Proof. solve_decision. Defined.
Record LoadAwarePlacement := { candidates : list (WorkerId * Z) }.
Definition LoadAwarePlacement_new (now : Z) (r : InMemoryWorkerRegistry) (class : ExecutorClass)
    : LoadAwarePlacement :=
  {| candidates := merge_sort id_le
       ((fun w => (w.(id), w.(in_flight)))
          <$> List.filter (fun w => bool_decide (w.(executor_class) = class)) (live_snapshot now r)) |}.
Definition shard_index (mote_id : MoteId) (len : nat) : nat :=
  Z.to_nat (from_le (take 8 mote_id) mod Z.of_nat len).
(** [iter().min()] *)
Definition iter_min (l : list Z) : option Z :=
  match l with [] => None | x :: l => Some (foldl Z.min x l) end.
Definition load_place (p : LoadAwarePlacement) (mote_id : MoteId) : outcome WorkerId unit :=
  match p.(candidates) with
  | [] => Ok 0
  | _ =>
      let min_load := default 0 (iter_min p.(candidates).*2) in
      let least_loaded := (List.filter (fun '(_, load) => load =? min_load) p.(candidates)).*1 in
      match least_loaded !! shard_index mote_id (length least_loaded) with
      | Some w => Ok w
      | None => Panic
      end
  end.

(** ** Leases and retries *)
Definition PURE_RETRY_BUDGET : Z := 100.
Record LeaseTracker := {
  leases : gmap Z (gset bytes);
  holders : gmap bytes (gset Z);
  crash_failed : gset bytes;
  attempt_failures : gmap bytes Z
}.
Definition LeaseTracker_default : LeaseTracker :=
  {| leases := ∅; holders := ∅; crash_failed := ∅; attempt_failures := ∅ |}.
Definition held_by_worker (t : LeaseTracker) (w : WorkerId) : gset bytes := default ∅ (t.(leases) !! w).
Definition holders_of (t : LeaseTracker) (m : MoteId) : gset Z := default ∅ (t.(holders) !! m).

(** The loop body of [record_lease]; [forward] is the worker's entry of [leases]. *)
Definition record_one (worker : WorkerId) (t : LeaseTracker) (mote : MoteId) : LeaseTracker :=
  {| leases := <[worker := {[mote]} ∪ held_by_worker t worker]> t.(leases);
     holders := <[mote := {[worker]} ∪ holders_of t mote]> t.(holders);
     crash_failed := t.(crash_failed); attempt_failures := t.(attempt_failures) |}.
Definition record_lease (t : LeaseTracker) (worker : WorkerId) (motes : list MoteId) : LeaseTracker :=
  foldl (record_one worker)
    {| leases := <[worker := held_by_worker t worker]> t.(leases); holders := t.(holders);
       crash_failed := t.(crash_failed); attempt_failures := t.(attempt_failures) |} motes.
Definition rescheduleable (t : LeaseTracker) : gset bytes := t.(crash_failed).
Definition leasing_workers (t : LeaseTracker) : list WorkerId := zmap_keys t.(leases).
Definition is_held_by (t : LeaseTracker) (mote : MoteId) (worker : WorkerId) : bool :=
  match t.(holders) !! mote with Some ws => bool_decide (worker ∈ ws) | None => false end.
Definition is_leased (t : LeaseTracker) (mote : MoteId) : bool :=
  bool_decide (is_Some (t.(holders) !! mote)).
Definition is_leased_by_other (t : LeaseTracker) (mote : MoteId) (worker : WorkerId) : bool :=
  match t.(holders) !! mote with
  | Some ws => existsb (fun w => negb (w =? worker)) (elements ws)
  | None => false
  end.
(** Remove one member from the entry of a table of sets, and the entry when it
    becomes empty. *)
Definition drop_member `{Countable K, Countable V} (k : K) (v : V) (m : gmap K (gset V)) : gmap K (gset V) :=
  match m !! k with
  | Some s => let s := s ∖ {[v]} in if bool_decide (s = ∅) then delete k m else <[k := s]> m
  | None => m
  end.
Definition take_leases (t : LeaseTracker) (worker : WorkerId) : gset bytes * LeaseTracker :=
  let leased := held_by_worker t worker in
  (leased, {| leases := delete worker t.(leases);
              holders := foldl (fun h mote => drop_member mote worker h) t.(holders) (elements leased);
              crash_failed := t.(crash_failed); attempt_failures := t.(attempt_failures) |}).
Definition record_crash (t : LeaseTracker) (mote : MoteId) (budget : Z) : bool * LeaseTracker :=
  let failures := (default 0 (t.(attempt_failures) !! mote) + 1) mod 2 ^ 32 in
  let again := failures <? budget in
  (again, {| leases := t.(leases); holders := t.(holders);
             crash_failed := if again then {[mote]} ∪ t.(crash_failed) else t.(crash_failed) ∖ {[mote]};
             attempt_failures := <[mote := failures]> t.(attempt_failures) |}).
Definition resolve_committed (t : LeaseTracker) (mote : MoteId) : LeaseTracker :=
  {| leases := match t.(holders) !! mote with
               | Some ws => foldl (fun l worker => drop_member worker mote l) t.(leases) (elements ws)
               | None => t.(leases)
               end;
     holders := delete mote t.(holders);
     crash_failed := t.(crash_failed) ∖ {[mote]};
     attempt_failures := delete mote t.(attempt_failures) |}.

(** ** The two lease tables mirror each other *)
Inductive LeaseOp :=
| OpLease (worker : WorkerId) (motes : list MoteId)
| OpTake (worker : WorkerId)
| OpCrash (mote : MoteId)
| OpResolve (mote : MoteId).
Definition lease_op (budget : Z) (t : LeaseTracker) (o : LeaseOp) : LeaseTracker :=
  match o with
  | OpLease w ms => record_lease t w ms
  | OpTake w => (take_leases t w).2
  | OpCrash m => (record_crash t m budget).2
  | OpResolve m => resolve_committed t m
  end.
Definition run_lease_ops (budget : Z) (os : list LeaseOp) : LeaseTracker :=
  foldl (lease_op budget) LeaseTracker_default os.

Record mirror (t : LeaseTracker) : Prop := {
  mi_same : forall w m, m ∈ held_by_worker t w <-> w ∈ holders_of t m;
  mi_holders : forall m ws, t.(holders) !! m = Some ws -> ws <> ∅
}.
Section Drop.
Context `{Countable K, Countable V}.
Implicit Types (m : gmap K (gset V)).
Lemma drop_member_elem k v m k' v' :
  v' ∈ (default ∅ (drop_member k v m !! k') : gset V)
  <-> v' ∈ (default ∅ (m !! k') : gset V) /\ ~ (k' = k /\ v' = v).
Proof.
  unfold drop_member. destruct (m !! k) as [s|] eqn:Hk.
  - destruct (decide (k' = k)) as [->|Hne].
    + rewrite Hk. cbn [default]. case_bool_decide as Hs.
      * rewrite lookup_delete_eq. cbn. set_solver.
      * rewrite lookup_insert_eq. cbn. set_solver.
    + case_bool_decide; [rewrite lookup_delete_ne by done|rewrite lookup_insert_ne by done]; naive_solver.
  - split; [|naive_solver]. intros Hv. split; [done|]. intros [-> _]. rewrite Hk in Hv. set_solver.
Qed.
Lemma drop_member_nonempty k v m k' s :
  (forall s, m !! k' = Some s -> s <> ∅) -> drop_member k v m !! k' = Some s -> s <> ∅.
Proof.
  intros Hm. unfold drop_member. destruct (m !! k) as [s0|]; [|apply Hm].
  case_bool_decide as Hs; [intros [_ ?]%lookup_delete_Some; by apply Hm|].
  intros [[_ <-]|[_ ?]]%lookup_insert_Some; [done|by apply Hm].
Qed.
(** Dropping [v] from the entries [ks], and dropping the members [vs] of one entry. *)
Lemma drop_keys_elem v ks m k' v' :
  v' ∈ (default ∅ (foldl (fun m k => drop_member k v m) m ks !! k') : gset V)
  <-> v' ∈ (default ∅ (m !! k') : gset V) /\ ~ (k' ∈ ks /\ v' = v).
Proof.
  revert m. induction ks as [|k ks IH]; intros m; cbn [foldl]; [set_solver|].
  rewrite IH, drop_member_elem. set_solver.
Qed.
Lemma drop_keys_nonempty v ks m k' s :
  (forall k s, m !! k = Some s -> s <> ∅) ->
  foldl (fun m k => drop_member k v m) m ks !! k' = Some s -> s <> ∅.
Proof.
  revert m. induction ks as [|k ks IH]; intros m Hm; cbn [foldl]; [apply Hm|].
  apply IH. intros k1 s1. apply drop_member_nonempty. apply Hm.
Qed.
End Drop.

Lemma record_one_elem w t m w' m' :
  (m' ∈ held_by_worker (record_one w t m) w' <-> m' ∈ held_by_worker t w' \/ (m' = m /\ w' = w))
  /\ (w' ∈ holders_of (record_one w t m) m' <-> w' ∈ holders_of t m' \/ (m' = m /\ w' = w)).
Proof.
  change (held_by_worker (record_one w t m) w') with (default ∅ (<[w := {[m]} ∪ held_by_worker t w]> t.(leases) !! w') : gset bytes).
  change (holders_of (record_one w t m) m') with (default ∅ (<[m := {[w]} ∪ holders_of t m]> t.(holders) !! m') : gset Z).
  split.
  - destruct (decide (w' = w)) as [->|Hne].
    + rewrite lookup_insert_eq. cbn. set_solver.
    + rewrite lookup_insert_ne by done. unfold held_by_worker. set_solver.
  - destruct (decide (m' = m)) as [->|Hne].
    + rewrite lookup_insert_eq. cbn. set_solver.
    + rewrite lookup_insert_ne by done. unfold holders_of. set_solver.
Qed.
Lemma record_one_mirror w t m : mirror t -> mirror (record_one w t m).
Proof.
  intros [Hs Hh]. split.
  - intros w' m'. destruct (record_one_elem w t m w' m') as [-> ->]. by rewrite Hs.
  - intros m' ws. cbn [record_one holders]. intros [[<- <-]|[_ ?]]%lookup_insert_Some; [set_solver|by eapply Hh].
Qed.
Lemma record_lease_mirror t w ms : mirror t -> mirror (record_lease t w ms).
Proof.
  intros Ht. unfold record_lease.
  assert (mirror {| leases := <[w := held_by_worker t w]> t.(leases); holders := t.(holders);
                    crash_failed := t.(crash_failed); attempt_failures := t.(attempt_failures) |}) as H0.
  { destruct Ht as [Hs Hh]. split; [|done]. intros w' m'. change (holders_of _ m') with (holders_of t m'). rewrite <- Hs.
    change (m' ∈ (default ∅ (<[w := held_by_worker t w]> t.(leases) !! w') : gset bytes) <-> m' ∈ held_by_worker t w').
    destruct (decide (w' = w)) as [->|Hne]; [by rewrite lookup_insert_eq|by rewrite lookup_insert_ne]. }
  revert H0. generalize ({| leases := <[w := held_by_worker t w]> t.(leases); holders := t.(holders);
                    crash_failed := t.(crash_failed); attempt_failures := t.(attempt_failures) |}). clear Ht t.
  induction ms as [|m ms IH]; intros t Ht; [done|]. cbn [foldl]. by apply IH, record_one_mirror.
Qed.
Lemma take_leases_elem t w w' m :
  (m ∈ held_by_worker (take_leases t w).2 w' <-> m ∈ held_by_worker t w' /\ w' <> w)
  /\ (w' ∈ holders_of (take_leases t w).2 m
      <-> w' ∈ holders_of t m /\ ~ (m ∈ held_by_worker t w /\ w' = w)).
Proof.
  change (held_by_worker (take_leases t w).2 w') with (default ∅ (delete w t.(leases) !! w') : gset bytes).
  split.
  - destruct (decide (w' = w)) as [->|Hne].
    + rewrite lookup_delete_eq. cbn. set_solver.
    + rewrite lookup_delete_ne by done. unfold held_by_worker. naive_solver.
  - unfold take_leases, holders_of at 1. cbn [snd holders]. by rewrite drop_keys_elem, elem_of_elements.
Qed.
Lemma take_leases_mirror t w : mirror t -> mirror (take_leases t w).2.
Proof.
  intros [Hs Hh]. split.
  - intros w' m. destruct (take_leases_elem t w w' m) as [-> ->]. rewrite <- Hs. naive_solver.
  - intros m ws. apply drop_keys_nonempty. exact Hh.
Qed.
Lemma resolve_committed_elem t m w' m' :
  mirror t ->
  (m' ∈ held_by_worker (resolve_committed t m) w' <-> m' ∈ held_by_worker t w' /\ m' <> m)
  /\ (w' ∈ holders_of (resolve_committed t m) m' <-> w' ∈ holders_of t m' /\ m' <> m).
Proof.
  intros [Hs _]. unfold resolve_committed, held_by_worker at 1, holders_of at 1. cbn [leases holders]. split.
  - destruct (t.(holders) !! m) as [ws|] eqn:Hm.
    + rewrite drop_keys_elem, elem_of_elements. fold (held_by_worker t w').
      assert (w' ∈ ws <-> m ∈ held_by_worker t w') as Hw by (rewrite Hs; unfold holders_of; by rewrite Hm).
      rewrite Hw. naive_solver.
    + split; [|naive_solver]. intros Hin. split; [done|]. intros ->. apply Hs in Hin.
      unfold holders_of in Hin. rewrite Hm in Hin. set_solver.
  - destruct (decide (m' = m)) as [->|Hne].
    + rewrite lookup_delete_eq. cbn. set_solver.
    + rewrite lookup_delete_ne by done. unfold holders_of. naive_solver.
Qed.
Lemma resolve_committed_mirror t m : mirror t -> mirror (resolve_committed t m).
Proof.
  intros Ht. split.
  - intros w' m'. destruct (resolve_committed_elem t m w' m' Ht) as [-> ->]. by rewrite (mi_same _ Ht).
  - intros m' ws. cbn [resolve_committed holders]. intros [_ ?]%lookup_delete_Some. by eapply (mi_holders _ Ht).
Qed.
Lemma run_lease_ops_mirror budget os : mirror (run_lease_ops budget os).
Proof.
  unfold run_lease_ops. assert (mirror LeaseTracker_default) as H0 by (split; [set_solver|done]).
  revert H0. generalize LeaseTracker_default. induction os as [|o os IH]; intros t Ht; [done|].
  cbn [foldl]. apply IH. destruct o; cbn [lease_op].
  - by apply record_lease_mirror.
  - by apply take_leases_mirror.
  - destruct Ht as [Hs Hh]. by split.
  - by apply resolve_committed_mirror.
Qed.

(** The lease tables agree: after any sequence of leases, reaps, crashes
    and resolutions, a Mote is in a worker's leases exactly when the worker is
    among the Mote's holders, and the admission queries answer from that one
    relation; reaping a worker returns all its leases and leaves it none,
    without touching another worker's, and resolving a Mote frees it from every
    worker at once. *)
Theorem lease_tables_agree budget os :
  let t := run_lease_ops budget os in
  let held w m := m ∈ held_by_worker t w in
  (forall w m, is_held_by t m w = true <-> held w m)
  /\ (forall m, is_leased t m = true <-> exists w, held w m)
  /\ (forall w m, is_leased_by_other t m w = true <-> exists w', w' <> w /\ held w' m)
  /\ (forall w, (take_leases t w).1 = held_by_worker t w
        /\ forall w', held_by_worker (take_leases t w).2 w' ≡ if decide (w' = w) then ∅ else held_by_worker t w')
  /\ (forall m w, held_by_worker (resolve_committed t m) w ≡ held_by_worker t w ∖ {[m]}).
Proof.
  cbn zeta. pose proof (run_lease_ops_mirror budget os) as Hm. set (t := run_lease_ops budget os) in *.
  destruct Hm as [Hs Hh] eqn:E. clear E. split_and!.
  - intros w m. rewrite Hs. unfold is_held_by, holders_of.
    destruct (t.(holders) !! m) as [ws|]; cbn; [by rewrite bool_decide_eq_true|set_solver].
  - intros m. unfold is_leased. rewrite bool_decide_eq_true. setoid_rewrite Hs. unfold holders_of. split.
    + intros [ws Hws]. rewrite Hws. cbn. apply set_choose_L. by eapply Hh.
    + destruct (t.(holders) !! m); [eauto|set_solver].
  - intros w m. unfold is_leased_by_other. setoid_rewrite Hs. unfold holders_of.
    destruct (t.(holders) !! m) as [ws|]; cbn; [|set_solver].
    rewrite existsb_exists. setoid_rewrite <- list_elem_of_In. setoid_rewrite elem_of_elements.
    split; intros (w' & H1 & H2); exists w'; [split; [lia|done]|split; [done|lia]].
  - intros w. split; [done|]. intros w' m. destruct (take_leases_elem t w w' m) as [-> _].
    case_decide; set_solver.
  - intros m w m'. destruct (resolve_committed_elem t m w m') as [-> _]; [by split|]. set_solver.
Qed.

(** ** Retries *)
(** The crashes of [m] since it was last resolved. *)
Definition crash_count (m : MoteId) (os : list LeaseOp) : Z :=
  foldl (fun n o => match o with
                    | OpCrash m' => if decide (m' = m) then n + 1 else n
                    | OpResolve m' => if decide (m' = m) then 0 else n
                    | _ => n
                    end) 0 os.
Lemma crash_count_snoc m os o :
  crash_count m (os ++ [o])
  = match o with
    | OpCrash m' => if decide (m' = m) then crash_count m os + 1 else crash_count m os
    | OpResolve m' => if decide (m' = m) then 0 else crash_count m os
    | _ => crash_count m os
    end.
Proof. unfold crash_count. by rewrite foldl_app. Qed.
Lemma run_lease_ops_snoc budget os o :
  run_lease_ops budget (os ++ [o]) = lease_op budget (run_lease_ops budget os) o.
Proof. unfold run_lease_ops. by rewrite foldl_app. Qed.
Lemma crash_count_bound m os : 0 <= crash_count m os <= Z.of_nat (length os).
Proof.
  induction os as [|o os IH] using rev_ind; [done|]. rewrite crash_count_snoc, length_app. cbn [length].
  destruct o; try case_decide; lia.
Qed.
Lemma record_lease_retries t w ms :
  crash_failed (record_lease t w ms) = crash_failed t
  /\ attempt_failures (record_lease t w ms) = attempt_failures t.
Proof.
  unfold record_lease. set (t0 := Build_LeaseTracker _ _ _ _).
  change (crash_failed t) with (crash_failed t0). change (attempt_failures t) with (attempt_failures t0).
  generalize t0. induction ms as [|m ms IH]; intros t1; [done|]. cbn [foldl]. exact (IH (record_one w t1 m)).
Qed.
Lemma retries_counted budget os m :
  0 < budget < 2 ^ 32 -> Z.of_nat (length os) < 2 ^ 32 ->
  default 0 (attempt_failures (run_lease_ops budget os) !! m) = crash_count m os
  /\ (m ∈ crash_failed (run_lease_ops budget os) <-> 0 < crash_count m os < budget).
Proof.
  intros Hb. induction os as [|o os IH] using rev_ind; [cbn; set_solver by lia|].
  rewrite length_app. cbn [length]. intros Hl. destruct IH as [IHn IHc]; [lia|].
  pose proof (crash_count_bound m os) as Hcc.
  rewrite run_lease_ops_snoc, crash_count_snoc. set (t := run_lease_ops budget os) in *.
  destruct o as [w ms|w|m'|m']; cbn [lease_op].
  - destruct (record_lease_retries t w ms) as [-> ->]. done.
  - done.
  - unfold record_crash. cbn [snd attempt_failures crash_failed]. case_decide as Hm.
    + subst m'. rewrite lookup_insert_eq. cbn [default]. rewrite IHn, Z.mod_small by lia. split; [done|].
      destruct (Z.ltb_spec (crash_count m os + 1) budget); set_solver by lia.
    + rewrite lookup_insert_ne by done. split; [done|]. case_match; set_solver.
  - unfold resolve_committed. cbn [attempt_failures crash_failed]. case_decide as Hm.
    + subst m'. rewrite lookup_delete_eq. split; [done|]. set_solver by lia.
    + rewrite lookup_delete_ne by done. split; [done|]. set_solver.
Qed.

(** Retries are bounded: after any history of leases, reaps, crashes and
    resolutions, a Mote is offered again exactly when it has crashed at least
    once and fewer than [budget] times since it was last resolved; so each crash
    under the budget gives one more attempt, the [budget]-th gives none, and
    there are at most [budget] - 1 retries between two resolutions. *)
Theorem retries_bounded budget os m :
  0 < budget < 2 ^ 32 -> Z.of_nat (length os) + 1 < 2 ^ 32 ->
  let t := run_lease_ops budget os in
  (m ∈ rescheduleable t <-> 0 < crash_count m os < budget)
  /\ ((record_crash t m budget).1 = true <-> crash_count m os + 1 < budget)
  /\ (m ∈ rescheduleable (record_crash t m budget).2 <-> crash_count m os + 1 < budget).
Proof.
  intros Hb Hl. cbn zeta. destruct (retries_counted budget os m) as [Hn Hc]; [done|lia|].
  split; [exact Hc|].
  destruct (retries_counted budget (os ++ [OpCrash m]) m) as [_ Hc']; [done|rewrite length_app; cbn; lia|].
  rewrite run_lease_ops_snoc, crash_count_snoc, decide_True in Hc' by done.
  pose proof (crash_count_bound m os) as Hcc. split.
  - unfold record_crash. cbn [fst]. rewrite Hn, Z.mod_small by lia. by rewrite Z.ltb_lt.
  - unfold rescheduleable. cbn [lease_op] in Hc'. rewrite Hc'. lia.
Qed.
Lemma retries_bounded_witness :
  let t := run_lease_ops 2 [OpLease 1 [[9]]; OpTake 1; OpCrash [9]] in
  [9] ∈ rescheduleable t /\ (record_crash t [9] 2).1 = false.
Proof.
  destruct (retries_bounded 2 [OpLease 1 [[9]]; OpTake 1; OpCrash [9]] [9]) as (H1 & H2 & _); [done|done|].
  split; [by apply H1|]. apply not_true_is_false. intros H%H2. by vm_compute in H.
Defined.

(** ** Placement picks a live, least-loaded worker of the class *)
Inductive RegistryOp :=
| OpRegister (class : ExecutorClass) (ep : bytes)
| OpHeartbeat (worker : WorkerId) (sent_ms load : Z).
(** A refused heartbeat changes nothing; each operation reads the clock. *)
Definition registry_op (r : InMemoryWorkerRegistry) (x : Z * RegistryOp) : InMemoryWorkerRegistry :=
  match x.2 with
  | OpRegister class ep => (register x.1 r class ep).2
  | OpHeartbeat w sent load => match heartbeat x.1 r w sent load with Ok r => r | _ => r end
  end.
Definition own_ids (r : InMemoryWorkerRegistry) : Prop :=
  forall w record, r.(workers) !! w = Some record -> record.(id) = w.
Lemma registry_op_own_ids r x : own_ids r -> own_ids (registry_op r x).
Proof.
  intros Hr. unfold registry_op. destruct x.2 as [class ep|w sent load].
  - intros w rec. cbn. intros [[<- <-]|[_ ?]]%lookup_insert_Some; [done|by apply Hr].
  - unfold heartbeat. destruct (workers r !! w) as [rec0|] eqn:Hw; [|done].
    intros w' rec. cbn. intros [[<- <-]|[_ ?]]%lookup_insert_Some; [cbn; by apply Hr|by apply Hr].
Qed.
Lemma registry_ops_own_ids timeout xs : own_ids (foldl registry_op (with_clock_and_timeout timeout) xs).
Proof.
  assert (own_ids (with_clock_and_timeout timeout)) as H0 by (intros w rec; cbn; by rewrite lookup_empty).
  revert H0. generalize (with_clock_and_timeout timeout).
  induction xs as [|x xs IH]; intros r Hr; [done|]. cbn [foldl]. by apply IH, registry_op_own_ids.
Qed.

Definition live_of (now : Z) (r : InMemoryWorkerRegistry) (class : ExecutorClass) (w : WorkerRecord) : Prop :=
  r.(workers) !! w.(id) = Some w /\ w.(executor_class) = class
  /\ is_live w.(last_seen_ms) now r.(timeout_ms) = true.
Lemma elem_of_zmap_values {V} (m : gmap Z V) v : v ∈ zmap_values m <-> exists k, m !! k = Some v.
Proof.
  unfold zmap_values, zmap_iter. rewrite list_elem_of_fmap. setoid_rewrite merge_sort_Permutation.
  split.
  - intros ([k v'] & -> & H). exists k. by apply elem_of_map_to_list in H.
  - intros [k Hk]. exists (k, v). split; [done|]. by apply elem_of_map_to_list.
Qed.
Lemma elem_of_candidates now r class w load :
  own_ids r ->
  (w, load) ∈ candidates (LoadAwarePlacement_new now r class)
  <-> exists rec, live_of now r class rec /\ rec.(id) = w /\ rec.(in_flight) = load.
Proof.
  intros Hown. unfold LoadAwarePlacement_new, live_of, live_snapshot. cbn [candidates].
  rewrite merge_sort_Permutation, list_elem_of_fmap. split.
  - intros (rec & [= -> ->] & Hrec). rewrite list_elem_of_In, !filter_In, <- list_elem_of_In in Hrec.
    destruct Hrec as [[[k Hk]%elem_of_zmap_values Hl] Hc%bool_decide_eq_true].
    exists rec. split_and!; [|done..]. by rewrite (Hown _ _ Hk).
  - intros (rec & (Hk & Hc & Hl) & <- & <-). exists rec. split; [done|].
    rewrite list_elem_of_In, !filter_In, <- list_elem_of_In. split_and!; [|done|by apply bool_decide_eq_true].
    apply elem_of_zmap_values. eauto.
Qed.
Lemma foldl_min_spec l x : foldl Z.min x l ∈ x :: l /\ forall y, y ∈ x :: l -> foldl Z.min x l <= y.
Proof.
  revert x. induction l as [|z l IH]; intros x; cbn [foldl].
  - split; [set_solver|]. intros y ->%list_elem_of_singleton. lia.
  - destruct (IH (Z.min x z)) as [Hin Hle]. split.
    + apply elem_of_cons in Hin as [->|Hin]; [|set_solver]. destruct (Z.min_spec x z) as [[_ ->]|[_ ->]]; set_solver.
    + intros y [->|[->|Hy]%elem_of_cons]%elem_of_cons.
      * pose proof (Hle (Z.min x z) ltac:(set_solver)). lia.
      * pose proof (Hle (Z.min x z) ltac:(set_solver)). lia.
      * apply Hle. set_solver.
Qed.

Lemma least_loaded_nonempty (c0 : WorkerId * Z) cs :
  exists w, w ∈ (List.filter (fun '(_, load) => load =? foldl Z.min c0.2 cs.*2) (c0 :: cs)).*1.
Proof.
  destruct (foldl_min_spec cs.*2 c0.2) as [Hin _]. change (c0.2 :: cs.*2) with (c0 :: cs).*2 in Hin.
  apply list_elem_of_fmap in Hin as ([w load] & Hl & Hin). exists w. apply list_elem_of_fmap. exists (w, load).
  split; [done|]. rewrite list_elem_of_In, filter_In, <- list_elem_of_In. split; [done|]. cbn in Hl. lia.
Qed.
Lemma shard_index_lt {A} mote_id (l : list A) w : w ∈ l -> (shard_index mote_id (length l) < length l)%nat.
Proof.
  intros Hw. assert (0 < length l)%nat by (destruct l; [set_solver|cbn; lia]). unfold shard_index.
  pose proof (Z.mod_pos_bound (from_le (take 8 mote_id)) (Z.of_nat (length l))). lia.
Qed.
Lemma load_place_total p mote_id : exists w, load_place p mote_id = Ok w.
Proof.
  unfold load_place. destruct (candidates p) as [|c0 cs]; [by eexists|].
  change (default 0 (iter_min (c0 :: cs).*2)) with (foldl Z.min c0.2 cs.*2).
  destruct (least_loaded_nonempty c0 cs) as [w0 Hw]. apply (shard_index_lt mote_id) in Hw.
  apply lookup_lt_is_Some_2 in Hw as [w ->]. by eexists.
Qed.

(** Placement: whatever registrations and heartbeats came before, placing
    a Mote never indexes out of range, and it picks a registered worker of the
    asked class, live at this moment, whose load no live worker of the class
    undercuts; only when there is none does it answer worker 0. *)
Theorem placement_least_loaded timeout xs now class mote_id :
  let r := foldl registry_op (with_clock_and_timeout timeout) xs in
  exists w, load_place (LoadAwarePlacement_new now r class) mote_id = Ok w
    /\ (((forall rec, ~ live_of now r class rec) /\ w = 0)
        \/ exists rec, live_of now r class rec /\ rec.(id) = w
             /\ forall other, live_of now r class other -> rec.(in_flight) <= other.(in_flight)).
Proof.
  cbn zeta. set (r := foldl registry_op _ xs).
  assert (own_ids r) as Hown by apply registry_ops_own_ids.
  pose proof (elem_of_candidates now r class) as Hc. unfold load_place.
  destruct (candidates (LoadAwarePlacement_new now r class)) as [|c0 cs] eqn:Hcs.
  { exists 0. split; [done|]. left. split; [|done]. intros rec Hrec.
    assert ((rec.(id), rec.(in_flight)) ∈ (@nil (WorkerId * Z))) as ?%elem_of_nil; [|done].
    apply Hc; eauto. }
  set (l := c0 :: cs) in *. cbn [fmap list_fmap iter_min].
  change (default 0 (iter_min l.*2)) with (foldl Z.min c0.2 cs.*2).
  destruct (foldl_min_spec cs.*2 c0.2) as [Hin Hle]. set (lo := foldl Z.min c0.2 cs.*2) in *.
  set (least := (List.filter _ l).*1).
  destruct (least_loaded_nonempty c0 cs) as [w0 Hidx]. apply (shard_index_lt mote_id) in Hidx.
  change (List.length _) with (length least) in Hidx.
  apply lookup_lt_is_Some_2 in Hidx as [w Hw]. rewrite Hw. exists w. split; [done|]. right.
  apply list_elem_of_lookup_2, list_elem_of_fmap in Hw as ([w' load] & -> & Hw).
  rewrite list_elem_of_In, filter_In, <- list_elem_of_In in Hw. destruct Hw as [Hw Hload].
  apply Hc in Hw as (rec & Hrec & Hid & Hld); [|done]. exists rec. split_and!; [done..|].
  intros other Hother. assert ((other.(id), other.(in_flight)) ∈ l) as Ho by (apply Hc; eauto).
  assert (lo <= other.(in_flight)); [|lia]. apply Hle. change (c0.2 :: cs.*2) with l.*2.
  apply list_elem_of_fmap. by exists (other.(id), other.(in_flight)).
Qed.
Example placement_of_two :
  let xs := [(0, OpRegister Bwrap []); (0, OpRegister Bwrap []); (10, OpHeartbeat 0 10 3); (10, OpHeartbeat 1 10 1)] in
  let r := foldl registry_op (with_clock_and_timeout 100) xs in
  load_place (LoadAwarePlacement_new 20 r Bwrap) (replicate 32 7) = Ok 1.
Proof. by vm_compute. Qed.

(** A clock that reads zero (or has stepped back) shows every worker as live. *)
Lemma zero_clock_shows_live now last timeout :
  0 <= now <= last -> 0 <= timeout -> is_live last now timeout = true.
Proof. intros H1 H2. unfold is_live. lia. Qed.
