(* ===== verification/Coordinator.v ===== *)
(** kx-coordinator's core: the one thread that writes the journal and keeps the
    projection folded through it (state.rs), the admission of reported commits
    (commit.rs), cascading repudiation (repudiation.rs) and the children of a
    committed shaper (materialize.rs). A reply channel is a number; the clock,
    the nonce source and the role registry are arguments. *)
From S2P Require Import Prelude Effects Utf8 CriticTypes Mote Entry Journal Warrant Content DemoCodec ProjState ProjIndex ProjFold ProjHistory ProjQuery Materializer Scheduler Refusal Checkpoint Recovery ExactlyOnce Wire Workers.
Import JournalEntry.

(** ** Errors *)
(** A journal or projection fault whose rendering is relayed. *)
Inductive Fault := FaultJournal (e : JournalError) | FaultProjection (e : ProjectionError).
Module CoordinatorError.
Inductive CoordinatorError :=
| BadHashLength (field : bytes) (len : nat)
| IdentityMismatch (m : MoteId)
| Convert (e : ConvertError)
| UnknownWorker (worker : WorkerId)
| UnknownMote (m : MoteId)
| NotLeased (mote : MoteId) (worker : WorkerId)
| RunAlreadyStarted
| RunNotRegistered
| SubmissionRefused (e : SubmissionRefusal)
| ReactSeedRefused (why : bytes)
| ResultRefAbsent (m : MoteId)
| TooManyParents (got max : nat)
| DataEdgeNonCascade
| Scheduler (e : SchedulerError)
| Journal (e : JournalError)
| Projection (e : ProjectionError)
| CoreUnavailable
| CommitFailed (e : Fault).
End CoordinatorError.
Abbreviation CoordinatorError := CoordinatorError.CoordinatorError.
Module RepudiationError.
Inductive RepudiationError :=
| TargetNotCommitted (m : MoteId)
| CascadeTooLarge (size ceiling : nat)
| Append (e : Fault)
| CoreUnavailable.
End RepudiationError.
Abbreviation RepudiationError := RepudiationError.RepudiationError.

(** ** Commit admission (commit.rs) *)
Record ReportCommitRequest := {
  rq_mote_id : bytes; rq_idempotency_key : bytes; rq_result_ref : bytes; rq_warrant_ref : bytes;
  rq_mote_def_hash : bytes; rq_nd_class : Z; rq_parents : list WireParent
}.
Record CommitProposal := {
  cp_mote_id : MoteId; cp_idempotency_key : bytes; cp_result_ref : ContentRef;
  cp_warrant_ref : ContentRef; cp_mote_def_hash : bytes; cp_nd_class : NdClass;
  cp_parents : list ParentEntry
}.
Definition hash32 (b : bytes) (field : bytes) : outcome bytes CoordinatorError :=
  if (length b =? 32)%nat then Ok b else Err (CoordinatorError.BadHashLength field (length b)).
(** [ParentRef::try_from(p).map(|pr| ParentEntry::from_parent_ref(&pr))] *)
Definition parent_entry_of_wire (p : WireParent) : outcome ParentEntry ConvertError :=
  let* pr := parent_of_wire p in Ok (ParentEntry.from_parent_ref pr).
Definition assemble (req : ReportCommitRequest) : outcome CommitProposal CoordinatorError :=
  let* mote_id := hash32 req.(rq_mote_id) (str "ReportCommit.mote_id") in
  let* idempotency_key := hash32 req.(rq_idempotency_key) (str "ReportCommit.idempotency_key") in
  if negb (bool_decide (idempotency_key = mote_id)) then Err (CoordinatorError.IdentityMismatch mote_id)
  else
  let* result_ref := hash32 req.(rq_result_ref) (str "ReportCommit.result_ref") in
  let* warrant_ref := hash32 req.(rq_warrant_ref) (str "ReportCommit.warrant_ref") in
  let* mote_def_hash := hash32 req.(rq_mote_def_hash) (str "ReportCommit.mote_def_hash") in
  let* nd_class := omap_err CoordinatorError.Convert (decode_enum NdClass_of_wire req.(rq_nd_class) (str "NdClass")) in
  let* parents := omap_err CoordinatorError.Convert (collect_ok parent_entry_of_wire req.(rq_parents)) in
  if (MAX_PARENTS <? length parents)%nat
  then Err (CoordinatorError.TooManyParents (length parents) MAX_PARENTS)
  else if existsb (fun p => (ParentEntry.edge_kind p =? 0) && negb (ParentEntry.non_cascade p =? 0)) parents
  then Err CoordinatorError.DataEdgeNonCascade
  else Ok {| cp_mote_id := mote_id; cp_idempotency_key := idempotency_key; cp_result_ref := result_ref;
             cp_warrant_ref := warrant_ref; cp_mote_def_hash := mote_def_hash; cp_nd_class := nd_class;
             cp_parents := parents |}.
Definition committed_entry (p : CommitProposal) : JournalEntry :=
  Committed p.(cp_mote_id) p.(cp_idempotency_key) 0 p.(cp_nd_class) p.(cp_result_ref) p.(cp_parents)
    p.(cp_warrant_ref) p.(cp_mote_def_hash).

(** ** Cascading repudiation (repudiation.rs) *)
Definition DEFAULT_CASCADE_CEILING : nat := Z.to_nat 10000.
Definition COORDINATOR_REPUDIATOR_ID : Z := 0.
Record RepudiationOutcome := { ro_target : MoteId; ro_cascade_size : nat }.
Definition repudiated_entry `{Blake3} (target : MoteId) (seq : Z) (reason : RepudiationReason) (by_ : Z)
    : JournalEntry :=
  Repudiated target (repudiation_idempotency_key target seq) 0 seq reason by_.
Definition with_seq (s : State) (c : MoteId) : option (MoteId * Z) := (fun n => (c, n)) <$> committed_seq_of s c.
Definition cascade_repudiation_entries `{Blake3} (graph : State) (target : MoteId)
    (reason : RepudiationReason) (repudiator_id : Z) (ceiling : nat)
    : outcome (list JournalEntry) RepudiationError :=
  match committed_seq_of graph target with
  | None => Err (RepudiationError.TargetNotCommitted target)
  | Some target_seq =>
      match transitive_consumers_impl graph target with
      | None => Panic
      | Some consumers =>
          let downstream := omap (with_seq graph) consumers in
          let size := (1 + length downstream)%nat in
          if (ceiling <? size)%nat then Err (RepudiationError.CascadeTooLarge size ceiling)
          else Ok (repudiated_entry target target_seq reason repudiator_id
                   :: ((fun '(c, n) => repudiated_entry c n RepudiationReason.UpstreamCascade
                                         COORDINATOR_REPUDIATOR_ID) <$> downstream))
      end
  end.

(** ** The state of the core *)
Record Dispatch := {
  submitted : gset bytes;
  defs : gmap bytes (Mote * WarrantSpec);
  tracker : LeaseTracker;
  parked_launches : gmap bytes bytes;
  parked_waits : gmap bytes bytes;
  armed_timers : gmap bytes (Z * Z * Z);
  parked_policied : gmap bytes bytes;
  parked_guards : gmap bytes bytes
}.
Definition set_submitted (f : gset bytes -> gset bytes) (d : Dispatch) : Dispatch :=
  {| submitted := f d.(submitted); defs := d.(defs); tracker := d.(tracker);
     parked_launches := d.(parked_launches); parked_waits := d.(parked_waits);
     armed_timers := d.(armed_timers); parked_policied := d.(parked_policied);
     parked_guards := d.(parked_guards) |}.
Definition set_defs (f : gmap bytes (Mote * WarrantSpec) -> gmap bytes (Mote * WarrantSpec)) (d : Dispatch) : Dispatch :=
  {| submitted := d.(submitted); defs := f d.(defs); tracker := d.(tracker);
     parked_launches := d.(parked_launches); parked_waits := d.(parked_waits);
     armed_timers := d.(armed_timers); parked_policied := d.(parked_policied);
     parked_guards := d.(parked_guards) |}.
Definition set_tracker (f : LeaseTracker -> LeaseTracker) (d : Dispatch) : Dispatch :=
  {| submitted := d.(submitted); defs := d.(defs); tracker := f d.(tracker);
     parked_launches := d.(parked_launches); parked_waits := d.(parked_waits);
     armed_timers := d.(armed_timers); parked_policied := d.(parked_policied);
     parked_guards := d.(parked_guards) |}.
Definition set_timers (f : gmap bytes (Z * Z * Z) -> gmap bytes (Z * Z * Z)) (d : Dispatch) : Dispatch :=
  {| submitted := d.(submitted); defs := d.(defs); tracker := d.(tracker);
     parked_launches := d.(parked_launches); parked_waits := d.(parked_waits);
     armed_timers := f d.(armed_timers); parked_policied := d.(parked_policied);
     parked_guards := d.(parked_guards) |}.
Definition set_waits (f : gmap bytes bytes -> gmap bytes bytes) (d : Dispatch) : Dispatch :=
  {| submitted := d.(submitted); defs := d.(defs); tracker := d.(tracker);
     parked_launches := d.(parked_launches); parked_waits := f d.(parked_waits);
     armed_timers := d.(armed_timers); parked_policied := d.(parked_policied);
     parked_guards := d.(parked_guards) |}.
Record Core (J S : Type) := {
  core_journal : J;
  core_store : option S;
  projection : State;
  folded_through : Z;
  dispatched : Dispatch
}.
Arguments core_journal {J S}. Arguments core_store {J S}. Arguments projection {J S}.
Arguments folded_through {J S}. Arguments dispatched {J S}.

Section Handlers.
Context `{Blake3} `{!Bincode MoteDef} `{!Bincode WarrantSpec} `{!Bincode TopologyDecision}.
Context {J S : Type} `{!Journal J} `{!ContentStore S}.
Abbreviation C := (Core J S).
Abbreviation M := (comp C).

Definition with_core_journal (j : J) (c : C) : C :=
  {| core_journal := j; core_store := c.(core_store); projection := c.(projection);
     folded_through := c.(folded_through); dispatched := c.(dispatched) |}.
Definition with_projection (s : State) (c : C) : C :=
  {| core_journal := c.(core_journal); core_store := c.(core_store); projection := s;
     folded_through := c.(folded_through); dispatched := c.(dispatched) |}.
Definition with_folded (n : Z) (c : C) : C :=
  {| core_journal := c.(core_journal); core_store := c.(core_store); projection := c.(projection);
     folded_through := n; dispatched := c.(dispatched) |}.
Definition with_dispatch (f : Dispatch -> Dispatch) (c : C) : C :=
  {| core_journal := c.(core_journal); core_store := c.(core_store); projection := c.(projection);
     folded_through := c.(folded_through); dispatched := f c.(dispatched) |}.
Definition with_core_store (s : option S) (c : C) : C :=
  {| core_journal := c.(core_journal); core_store := s; projection := c.(projection);
     folded_through := c.(folded_through); dispatched := c.(dispatched) |}.
Definition with_tracker (f : LeaseTracker -> LeaseTracker) (c : C) : C := with_dispatch (set_tracker f) c.

Definition core_append (e : JournalEntry) : M JournalEntry JournalError :=
  czoom core_journal with_core_journal (cstep (fun j => append j e)).
Definition core_append_batch (es : list JournalEntry) : M (list JournalEntry) JournalError :=
  czoom core_journal with_core_journal (cstep (fun j => append_batch j es)).
(** [projection.fold(&entry)]: the coordinator's projection has no materializer. *)
Definition core_fold (e : JournalEntry) : M Z ProjectionError :=
  fun c => let '(s, r) := fold None e c.(projection) in (r, with_projection s c).
(** [if seq > *folded_through { projection.fold(..)?; *folded_through = seq; }] *)
Definition fold_new (e : JournalEntry) : M unit ProjectionError := fun c =>
  if c.(folded_through) <? entry_seq e
  then (do! _ := core_fold e in fun c => (Ok tt, with_folded (entry_seq e) c)) c
  else (Ok tt, c).
(** [if seq > *folded_through && projection.fold(..).is_ok() { *folded_through = seq; }] *)
Definition fold_quietly {E} (e : JournalEntry) : M unit E := fun c =>
  if c.(folded_through) <? entry_seq e
  then match core_fold e c with
       | (Ok _, c) => (Ok tt, with_folded (entry_seq e) c)
       | (Err _, c) => (Ok tt, c)
       | (Panic, c) => (Panic, c)
       end
  else (Ok tt, c).

Definition stage_effect (mote_id : MoteId) (idempotency_key : bytes) : M Z CoordinatorError :=
  do! durable := cmap_err CoordinatorError.Journal
                   (core_append (EffectStaged mote_id idempotency_key 0)) in
  do! _ := cmap_err CoordinatorError.Projection (fold_new durable) in
  cret (entry_seq durable).

Definition register_run (now : Z) (nonce : bytes) (recipe_fingerprint : bytes) : M bytes CoordinatorError := fun c =>
  match c.(projection).(run_registration) with
  | Some reg => (Ok reg.(rr_instance_id), c)
  | None =>
      if negb (c.(folded_through) =? 0) then (Err CoordinatorError.RunAlreadyStarted, c)
      else (do! durable := cmap_err CoordinatorError.Journal
                             (core_append (RunRegistered nonce recipe_fingerprint now 0)) in
            do! _ := cmap_err CoordinatorError.Projection (fold_new durable) in
            cret nonce) c
  end.

(** [for entry in &durable { .. }] *)
Fixpoint fold_all_new (es : list JournalEntry) : M unit ProjectionError :=
  match es with
  | [] => cret tt
  | e :: es => do! _ := fold_new e in fold_all_new es
  end.
Definition repudiate_cascade (target : MoteId) (reason : RepudiationReason) (repudiator_id : Z)
    : M RepudiationOutcome RepudiationError :=
  do! entries := cask (fun c => cascade_repudiation_entries c.(projection) target reason repudiator_id
                                  DEFAULT_CASCADE_CEILING) in
  let cascade_size := (length entries - 1)%nat in
  do! durable := cmap_err (fun e => RepudiationError.Append (FaultJournal e)) (core_append_batch entries) in
  do! _ := cmap_err (fun e => RepudiationError.Append (FaultProjection e)) (fold_all_new durable) in
  cret {| ro_target := target; ro_cascade_size := cascade_size |}.

(** ** Deaths *)
Definition COORDINATOR_REPORTER_ID : Z := 0.
Definition failed_worker_crashed_entry (mote_id : MoteId) : JournalEntry :=
  Failed mote_id mote_id 0 FailureReason.WorkerCrashed COORDINATOR_REPORTER_ID [].
Definition worker_reporter_id (worker : WorkerId) : Z := Z.lor (Z.shiftl 1 64) worker.
(** One Mote of a dead worker; a refused append is logged and skipped. *)
Definition reap_mote {E} (mote_id : MoteId) : M unit E := fun c =>
  if bool_decide (state_of_id c.(projection) mote_id = MoteState.Committed)
  then (Ok tt, with_tracker (fun t => resolve_committed t mote_id) c)
  else match core_append (failed_worker_crashed_entry mote_id) c with
       | (Ok durable, c) =>
           (do! _ := fold_quietly durable in
            fun c => (Ok tt, with_tracker (fun t => (record_crash t mote_id PURE_RETRY_BUDGET).2) c)) c
       | (Err _, c) => (Ok tt, c)
       | (Panic, c) => (Panic, c)
       end.
Fixpoint reap_motes {E} (motes : list MoteId) : M unit E :=
  match motes with
  | [] => cret tt
  | m :: motes => do! _ := reap_mote m in reap_motes motes
  end.
(** A [BTreeSet<MoteId>] in order. *)
Definition mote_set_iter (s : gset bytes) : list MoteId := btree_keys (gset_to_gmap tt s).
Fixpoint reap_workers {E} (now : Z) (registry : InMemoryWorkerRegistry) (ws : list WorkerId) : M unit E :=
  match ws with
  | [] => cret tt
  | worker :: ws =>
      if negb (bool_decide (status now registry worker = Some Dead)) then reap_workers now registry ws
      else
        do! leased := (fun c => let '(leased, t) := take_leases c.(dispatched).(tracker) worker in
                                (Ok leased, with_tracker (fun _ => t) c)) in
        do! _ := reap_motes (mote_set_iter leased) in
        reap_workers now registry ws
  end.
Definition reap_dead_workers {E} (now : Z) (registry : InMemoryWorkerRegistry) : M unit E :=
  fun c => reap_workers now registry (leasing_workers c.(dispatched).(tracker)) c.

Definition dead_letter_failure (mote_id : MoteId) (idempotency_key : bytes) (reason_class : FailureReason)
    (worker : WorkerId) (detail : bytes) : M (Z * bool) CoordinatorError := fun c =>
  match state_of_id c.(projection) mote_id with
  | MoteState.Pending | MoteState.Scheduled =>
      if negb (is_held_by c.(dispatched).(tracker) mote_id worker)
      then (Err (CoordinatorError.NotLeased mote_id worker), c)
      else
        (do! durable := cmap_err CoordinatorError.Journal
                          (core_append (Failed mote_id idempotency_key 0 reason_class
                                          (worker_reporter_id worker) detail)) in
         do! _ := cmap_err CoordinatorError.Projection (fold_new durable) in
         fun c =>
           (Ok (entry_seq durable, true),
            with_dispatch (fun d => set_tracker (fun t => resolve_committed t mote_id)
                                      (set_defs (delete mote_id) (set_submitted (.∖ {[mote_id]}) d))) c)) c
  | _ => (Ok (0, false), with_tracker (fun t => resolve_committed t mote_id) c)
  end.

(** ** Approvals *)
Definition MAX_APPROVAL_TEXT_LEN : nat := 512.
(** [s.chars().take(cap).collect()] of a text, which is valid UTF-8. *)
Definition truncate_for_approval (s : bytes) : bytes :=
  match utf8_chars s with
  | Some cs => if (length cs <=? MAX_APPROVAL_TEXT_LEN)%nat then s else concat (take MAX_APPROVAL_TEXT_LEN cs)
  | None => s
  end.
Definition append_approval {E} (instance_id request_id : bytes) (awaiting : MoteId) (st : ApprovalState)
    : M unit E := fun c =>
  match core_append (Approval instance_id request_id awaiting st 0) c with
  | (Ok durable, c) => fold_quietly durable c
  | (Err _, c) => (Ok tt, c)
  | (Panic, c) => (Panic, c)
  end.
Definition decide_approval {E} (now : Z) (request_id : bytes) (grant : bool) (operator_id : Z) (reason : bytes)
    : M bool E := fun c =>
  match approval_latest_for c.(projection) request_id with
  | Some r =>
      match r.(ApprovalRecord.state) with
      | ApprovalState.Requested _ _ _ _ _ =>
          let reason := truncate_for_approval reason in
          let st := if grant then ApprovalState.Granted operator_id reason now
                    else ApprovalState.Denied operator_id reason now in
          (do! _ := append_approval r.(ApprovalRecord.instance_id) request_id
                      r.(ApprovalRecord.awaiting_mote_id) st in
           cret true) c
      | _ => (Ok false, c)
      end
  | None => (Ok false, c)
  end.
Inductive ApprovalGate := Proceed | Wait | DeadLetter.
Definition approval_gate_decision {E} (now : Z) (instance_id : bytes) (obs_id : MoteId)
    (tool_id tool_version : bytes) : M ApprovalGate E := fun c =>
  let request_id := approval_request_id instance_id obs_id in
  match ApprovalRecord.state <$> approval_latest_for c.(projection) request_id with
  | Some (ApprovalState.Granted _ _ _) => (Ok Proceed, c)
  | Some (ApprovalState.Denied _ _ _) | Some (ApprovalState.Expired _) => (Ok DeadLetter, c)
  | Some (ApprovalState.Requested _ _ _ _ _) => (Ok Wait, c)
  | None =>
      let intent := str "world-mutating tool call: " ++ tool_id ++ str "@" ++ tool_version in
      (do! _ := append_approval instance_id request_id obs_id
                  (ApprovalState.Requested tool_id tool_version (truncate_for_approval intent) 0 now) in
       cret Wait) c
  end.

(** ** Children of a committed shaper (materialize.rs) *)
Record ShaperChild := { sc_register : RegisterMote; sc_mote : Mote; sc_warrant : WarrantSpec }.
Inductive ShaperFault := DecisionAbsent | DecisionMalformed | RoleUnknown | Narrowing (index : nat) (e : NarrowingError).
Fixpoint derive_children (roles : bytes -> option Role) (shaper_mote_id : MoteId) (shaper_def : MoteDef)
    (shaper_result_ref : ContentRef) (shaper_warrant : WarrantSpec) (index : nat)
    (descriptors : list ChildDescriptor) : outcome (list ShaperChild) ShaperFault :=
  match descriptors with
  | [] => Ok []
  | descriptor :: descriptors =>
      let* role := ok_or (roles descriptor.(role_id)) RoleUnknown in
      let* child_warrant := omap_err (Narrowing index) (intersect shaper_warrant role) in
      let child_warrant_ref := Warrant.warrant_ref_of child_warrant in
      let child_def := InheritFromShaperResolver shaper_def descriptor in
      let child_input_data_id := ContentRef_of shaper_result_ref in
      let gp := shaper_mote_id ++ to_le 4 (Z.of_nat index mod 2 ^ 32) in
      let parents := [{| parent_id := shaper_mote_id;
                         edge := {| Mote.kind := Control; non_cascade := false |} |}] in
      let mote := Mote_new child_def child_input_data_id gp parents in
      let register := {|
        RegisterMote.mote_id := mote.(Mote.mote_id);
        RegisterMote.nd_class := child_def.(Mote.nd_class);
        RegisterMote.effect_pattern := child_def.(Mote.effect_pattern);
        RegisterMote.critic_for := None;
        RegisterMote.is_topology_shaper := false;
        RegisterMote.parents := parents;
        RegisterMote.warrant_ref := child_warrant_ref |} in
      let* children := derive_children roles shaper_mote_id shaper_def shaper_result_ref shaper_warrant
                         (Datatypes.S index) descriptors in
      Ok ({| sc_register := register; sc_mote := mote; sc_warrant := child_warrant |} :: children)
  end.
Definition derive_shaper_children (store : S) (roles : bytes -> option Role) (shaper_mote_id : MoteId)
    (shaper_def : MoteDef) (shaper_result_ref : ContentRef) (shaper_warrant : WarrantSpec)
    : outcome (list ShaperChild) ShaperFault :=
  if negb shaper_def.(Mote.is_topology_shaper) then Ok []
  else
    let* payload := ok_or (get store shaper_result_ref) DecisionAbsent in
    let* decision := ok_or (TopologyDecision_decode payload) DecisionMalformed in
    derive_children roles shaper_mote_id shaper_def shaper_result_ref shaper_warrant 0
      decision.(Mote.children).

(** A failed [put] is logged. *)
Definition persist_def (d : MoteDef) (c : C) : C :=
  match c.(core_store) with
  | None => c
  | Some store => match put store (bincode_encode d) with
                  | Ok (_, store) => with_core_store (Some store) c
                  | _ => c
                  end
  end.
Definition admit_child (c : C) (child : ShaperChild) : C :=
  let child_id := child.(sc_mote).(Mote.mote_id) in
  let c := persist_def child.(sc_mote).(def) c in
  let c := with_projection (register_mote child.(sc_register) c.(projection)) c in
  with_dispatch (fun d => set_defs <[child_id := (child.(sc_mote), child.(sc_warrant))]>
                            (set_submitted ({[child_id]} ∪.) d)) c.
Definition materialize_committed_shaper (store : S) (roles : bytes -> option Role) (shaper_mote_id : MoteId)
    (shaper_def : MoteDef) (shaper_warrant : WarrantSpec) (c : C) : C :=
  match result_ref_of c.(projection) shaper_mote_id with
  | None => c
  | Some result_ref =>
      match derive_shaper_children store roles shaper_mote_id shaper_def result_ref shaper_warrant with
      | Ok children => foldl admit_child c children
      | _ => c
      end
  end.

(** ** Group commit *)
Record CommitApplied := { committed_seq : Z; already_committed : bool }.
(** The loop of [apply_batch]; [new_seqs] are the seqs folded in this batch. *)
Fixpoint apply_loop (seq_before : Z) (new_seqs : gset Z) (applied : list CommitApplied) (durable : list JournalEntry)
    : M (list CommitApplied) Fault :=
  match durable with
  | [] => cret applied
  | entry :: durable =>
      let seq := entry_seq entry in
      let is_new := (seq_before <? seq) && negb (bool_decide (seq ∈ new_seqs)) in
      let applied' := applied ++ [{| committed_seq := seq; already_committed := negb is_new |}] in
      if is_new
      then do! _ := cmap_err FaultProjection (core_fold entry) in
           do! _ := (fun c => (Ok tt, with_folded seq c)) in
           apply_loop seq_before ({[seq]} ∪ new_seqs) applied' durable
      else apply_loop seq_before (if seq_before <? seq then {[seq]} ∪ new_seqs else new_seqs) applied' durable
  end.
Definition apply_batch (entries : list JournalEntry) : M (list CommitApplied) Fault := fun c =>
  let seq_before := c.(folded_through) in
  (do! durable := cmap_err FaultJournal (core_append_batch entries) in
   apply_loop seq_before ∅ [] durable) c.

Definition CommitReply : Type := nat * outcome CommitApplied CoordinatorError.
Definition refusal (c : C) (p : CommitProposal) : option CoordinatorError :=
  if negb (bool_decide (p.(cp_mote_id) ∈ c.(dispatched).(submitted)))
  then Some (CoordinatorError.UnknownMote p.(cp_mote_id))
  else match c.(core_store) with
       | Some s => if negb (contains s p.(cp_result_ref))
                   then Some (CoordinatorError.ResultRefAbsent p.(cp_mote_id)) else None
       | None => None
       end.
(** The refused proposals with their replies, and the admitted ones. *)
Fixpoint admit_batch (c : C) (batch : list (CommitProposal * nat))
    : list CommitReply * list (CommitProposal * nat) :=
  match batch with
  | [] => ([], [])
  | (p, reply) :: batch =>
      let '(refused, admitted) := admit_batch c batch in
      match refusal c p with
      | Some e => ((reply, Err e) :: refused, admitted)
      | None => (refused, (p, reply) :: admitted)
      end
  end.
Definition settle_commit (shaper_roles : option (bytes -> option Role)) (c : C) (id : MoteId) : C :=
  let c :=
    match c.(core_store), shaper_roles, c.(dispatched).(defs) !! id with
    | Some store, Some roles, Some (m, w) =>
        if m.(def).(Mote.is_topology_shaper) then materialize_committed_shaper store roles id m.(def) w c else c
    | _, _, _ => c
    end in
  with_dispatch (fun d => set_tracker (fun t => resolve_committed t id) (set_defs (delete id) d)) c.
(** The replies sent, by their channel. *)
Definition flush_commits {E} (shaper_roles : option (bytes -> option Role)) (pending : list (CommitProposal * nat))
    : M (list CommitReply) E := fun c =>
  let '(refused, admitted) := admit_batch c pending in
  match admitted with
  | [] => (Ok refused, c)
  | _ =>
      match apply_batch (committed_entry <$> admitted.*1) c with
      | (Ok applied, c) =>
          (Ok (refused ++ zip admitted.*2 (Ok <$> applied)),
           foldl (settle_commit shaper_roles) c (cp_mote_id <$> admitted.*1))
      | (Err e, c) => (Ok (refused ++ ((fun r => (r, Err (CoordinatorError.CommitFailed e))) <$> admitted.*2)), c)
      | (Panic, c) => (Panic, c)
      end
  end.

(** ** Recovery and reading *)
Definition recover (journal : J) : option (State * Z * gset bytes) :=
  match from_journal None journal with
  | Ok p => match current_seq journal with
            | Ok seq => Some (p, seq, list_to_set (iter_motes p).*1)
            | _ => None
            end
  | _ => None
  end.
(** [core_loop]'s state before its recovery passes. *)
Definition core_start (journal : J) (store : option S) : option C :=
  match recover journal with
  | Some (p, folded_through, submitted) =>
      Some {| core_journal := journal; core_store := store; projection := p; folded_through := folded_through;
              dispatched := {| submitted := submitted; defs := ∅; tracker := LeaseTracker_default;
                               parked_launches := ∅; parked_waits := ∅; armed_timers := ∅;
                               parked_policied := ∅; parked_guards := ∅ |} |}
  | None => None
  end.
Fixpoint collect_committed (max : nat) (since : Z) (current : Z) (out : list JournalEntry) (es : list JournalEntry)
    : list JournalEntry * Z :=
  match es with
  | [] => (out, current)
  | e :: es =>
      match e with
      | Committed _ _ _ _ _ _ _ _ =>
          if (length out =? max)%nat then (out, default since (entry_seq <$> last out))
          else collect_committed max since current (out ++ [e]) es
      | _ => collect_committed max since current out es
      end
  end.
Definition read_committed_since (journal : J) (since_seq : Z) (max : nat)
    : outcome (list JournalEntry * Z) CoordinatorError :=
  let* current := omap_err CoordinatorError.Journal (current_seq journal) in
  if (current <=? since_seq) || (max =? 0)%nat then Ok ([], current)
  else
    let* es := omap_err CoordinatorError.Journal
                 (read_entries_by_seq journal (u64_add since_seq 1) (u64_add current 1)) in
    Ok (collect_committed max since_seq current [] es).

(** ** Leasing after a crash *)
Definition redispatch_admissible (submitted_defs : gmap bytes (Mote * WarrantSpec)) (s : State) (id : MoteId) : bool :=
  match submitted_defs !! id with
  | Some (mote, _) => bool_decide (mote.(def).(Mote.nd_class) = Pure) || can_redispatch_world_effect_id s id
  | None => false
  end.
Definition mote_dispatches_at_least_once (mote : Mote) (s : State) : bool :=
  existsb (fun tool => bool_decide (idempotency_class_for_tool s tool = Some IdempotencyClassTag.AtLeastOnce))
    (btree_keys mote.(def).(tool_contract)).
Definition at_least_once_already_staged (submitted_defs : gmap bytes (Mote * WarrantSpec)) (s : State) (id : MoteId)
    : bool :=
  match submitted_defs !! id with
  | Some (mote, _) => mote_dispatches_at_least_once mote s && can_redispatch_world_effect_id s id
  | None => false
  end.
End Handlers.
