(* ===== verification/CoordSync.v ===== *)
(** The coordinator's projection is the fold of its journal: the invariant of the
    one writer thread, kept by every handler of Coordinator. *)
From S2P Require Import Prelude Effects Utf8 CriticTypes Mote Entry EntryEncode EntryDecode EntryRoundtrip Journal Sqlite Warrant Content DemoCodec ProjState ProjIndex ProjFold ProjHistory ProjQuery Materializer Scheduler Checkpoint Recovery ExactlyOnce Wire Workers Coordinator.
Import JournalEntry.

(** ** Facts of a live projection *)
Lemma no_children regs : children_fresh None regs.
Proof. by intros m a b c d children r [=]. Qed.
Lemma live_mono regs regs' l s : regs ⊆ regs' -> live None regs l s -> live None regs' l s.
Proof. intros Hr. induction 1; [constructor|by econstructor|constructor; [by apply Hr|done]]. Qed.
Lemma live_flags regs l s d : live None regs l s ->
  (is_Some (committed (mote_info s d)) <-> existsb (is_committed_entry d) l = true).
Proof.
  intros (s0 & H0 & Hs)%live_sim; [|apply no_children].
  rewrite (sim_committed_info regs s0 s d Hs).
  destruct (history_facts_of None l s0 d H0) as [_ H2 _ _]. done.
Qed.

Lemma fold_new_commit e s d s' prev ci :
  fold None e s = (s', Ok prev) -> committed (mote_info s d) = None -> committed (mote_info s' d) = Some ci ->
  is_committed_of d e = true /\ ci.(CommittedInfo.seq) = entry_seq e
  /\ committed_ref e = Some ci.(CommittedInfo.result_ref).
Proof.
  intros Hf Hn Hc. pose proof (fold_flags None e s d) as Hfl. rewrite Hf in Hfl. destruct (Hfl eq_refl) as [_ Hfc _ _].
  cbn [fst] in Hfc. destruct (proj1 Hfc (ex_intro _ ci Hc)) as [[x Hx]|He]; [congruence|].
  destruct e; try done. cbn in He. apply bool_decide_eq_true in He. subst.
  split; [by apply bool_decide_eq_true|]. cbn [fold] in Hf. unfold fold_committed in Hf.
  rewrite bool_decide_false in Hf by (rewrite Hn; by intros [? [=]]). injection Hf as <- _.
  change (mote_info (index_committed ?i ?o (bump_seq ?n ?s0)) d) with (mote_info s0 d) in Hc.
  rewrite mote_info_mut, decide_True in Hc by done. cbn in Hc. by injection Hc as <-.
Qed.
Lemma fold_keeps_commit e s d s' prev ci :
  fold None e s = (s', Ok prev) -> committed (mote_info s d) = Some ci ->
  exists ci', committed (mote_info s' d) = Some ci' /\ ci'.(CommittedInfo.seq) = ci.(CommittedInfo.seq)
    /\ ci'.(CommittedInfo.result_ref) = ci.(CommittedInfo.result_ref)
    /\ (ci.(CommittedInfo.repudiated) = true -> ci'.(CommittedInfo.repudiated) = true).
Proof.
  intros Hf Hc. pose proof (fold_committed_case None e s d ci Hc) as Hk. rewrite Hf in Hk. cbn [fst] in Hk.
  destruct Hk as [Hk|(key & n & reason & b & _ & Hk)]; rewrite Hk; eauto.
Qed.
Lemma live_commit_entry regs l s d ci :
  live None regs l s -> committed (mote_info s d) = Some ci ->
  exists x, x ∈ l /\ is_committed_of d x = true /\ entry_seq x = ci.(CommittedInfo.seq)
    /\ committed_ref x = Some ci.(CommittedInfo.result_ref).
Proof.
  intros Hl. revert ci. induction Hl as [|l e s s' prev _ IH Hf|l r s _ _ IH]; intros ci Hc.
  - unfold mote_info in Hc. cbn in Hc. by rewrite lookup_empty in Hc.
  - destruct (committed (mote_info s d)) as [ci0|] eqn:Hc0.
    + destruct (fold_keeps_commit e s d s' prev ci0 Hf Hc0) as (ci' & Hc' & Hseq & Href & _).
      destruct (IH ci0 eq_refl) as (x & Hx & Hr). exists x. split; [set_solver|].
      rewrite Hc in Hc'. injection Hc' as <-. by rewrite Hseq, Href.
    + destruct (fold_new_commit e s d s' prev ci Hf Hc0 Hc) as (H1 & H2 & H3). exists e. split; [set_solver|done].
  - apply IH. destruct (register_flags r s d) as (_ & Hr & _). congruence.
Qed.
Lemma committed_seq_info s d n :
  committed_seq_of s d = Some n <->
  exists ci, committed (mote_info s d) = Some ci /\ ci.(CommittedInfo.seq) = n.
Proof.
  unfold committed_seq_of, mote_info. destruct (motes s !! d) as [i|]; cbn; [|naive_solver].
  destruct (committed i); cbn; naive_solver.
Qed.

(** ** Sets of Motes *)
Lemma size_mote_set s : length (mote_set_iter s) = size s.
Proof.
  unfold mote_set_iter, btree_keys. rewrite length_fmap, btree_iter_perm, length_map_to_list.
  by rewrite <- size_dom, dom_gset_to_gmap.
Qed.
Lemma elem_of_mote_set s m : m ∈ mote_set_iter s <-> m ∈ s.
Proof. unfold mote_set_iter. by rewrite elem_of_btree_keys, <- elem_of_dom, dom_gset_to_gmap. Qed.
Lemma take_held_subseteq t w w' : held_by_worker (take_leases t w).2 w' ⊆ held_by_worker t w'.
Proof. intros m Hm. by apply take_leases_elem in Hm as [? _]. Qed.
Lemma resolve_held_subseteq t m w : held_by_worker (resolve_committed t m) w ⊆ held_by_worker t w.
Proof.
  intros m' Hm. unfold resolve_committed, held_by_worker in Hm. cbn [leases] in Hm.
  destruct (holders t !! m); [|done]. by apply drop_keys_elem in Hm as [? _].
Qed.
Lemma sum_list_fmap_le {A} (f g : A -> nat) l : (forall x, (f x <= g x)%nat) -> (sum_list (f <$> l) <= sum_list (g <$> l))%nat.
Proof. intros Hfg. induction l as [|x l IH]; cbn; [done|]. specialize (Hfg x). cbn in IH. lia. Qed.

(** ** Growth without agent rounds *)
Definition no_round (e : JournalEntry) : bool :=
  match e with ReactRound _ _ _ _ _ _ _ _ _ _ _ _ _ _ _ => false | _ => true end.
Definition grows (l l' : list JournalEntry) : Prop := exists k, l' = l ++ k /\ Forall (fun e => no_round e = true) k.
#[export] Instance grows_preorder : PreOrder grows.
Proof.
  split; [intros l; exists []; by rewrite app_nil_r|]. intros l _ _ (k & -> & Hk) (k' & -> & Hk').
  exists (k ++ k'). rewrite app_assoc. split; [done|by apply Forall_app].
Qed.
Lemma grows_prefix l l' : grows l l' -> l `prefix_of` l'.
Proof. intros (k & -> & _). by exists k. Qed.

Section Sync.
Context `{HB : Blake3} `{!Bincode MoteDef} `{!Bincode WarrantSpec} `{!Bincode TopologyDecision}.
Context {J S : Type} `{!Journal J} `{!JournalLaws J} `{!ContentStore S}.
Abbreviation C := (Core J S).

Lemma log_append_grows l e : no_round e = true -> grows l (log_append l e).2.
Proof.
  intros He. unfold log_append. destruct (existing_fact _ _); [done|]. eexists. split; [done|].
  apply Forall_singleton. by destruct e.
Qed.
Lemma log_append_all_grows es : Forall (fun e => no_round e = true) es -> forall l, grows l (log_append_all l es).2.
Proof.
  induction 1 as [|e es He _ IH]; intros l; [done|]. cbn [log_append_all]. pose proof (log_append_grows l e He) as Hg.
  destruct (log_append l e) as [d l1]. specialize (IH l1). destruct (log_append_all l1 es). by etrans.
Qed.
(** A repudiation names a commit that precedes it. *)
Definition repudiations_named (l : list JournalEntry) : Prop :=
  forall i t key seq n reason by_, l !! i = Some (Repudiated t key seq n reason by_) ->
    exists j e, (j < i)%nat /\ l !! j = Some e /\ is_committed_of t e = true /\ entry_seq e = n.
(** The projection is the fold of [l], with some Motes registered. *)
Record follows (regs : list RegisterMote) (l : list JournalEntry) (c : C) : Prop := {
  fo_wf : log_wf l;
  fo_keyed : keyed l;
  fo_named : repudiations_named l;
  fo_folded : c.(folded_through) = Z.of_nat (length l);
  fo_live : live None regs l c.(projection)
}.
Record in_sync (regs : list RegisterMote) (l : list JournalEntry) (c : C) : Prop := {
  sync_represents : represents c.(core_journal) l;
  sync_follows : follows regs l c
}.
Lemma follows_mono regs regs' l c : regs ⊆ regs' -> follows regs l c -> follows regs' l c.
Proof. intros Hr [H1 H2 H3 H4 H5]. split; try done. by eapply live_mono. Qed.
Lemma in_sync_mono regs regs' l c : regs ⊆ regs' -> in_sync regs l c -> in_sync regs' l c.
Proof. intros Hr [H1 H2]. split; [done|by eapply follows_mono]. Qed.

(** An entry the coordinator may write, one it may offer to a journal, which may
    refuse it, and one the journal takes. *)
Record sane (l : list JournalEntry) (e : JournalEntry) : Prop := {
  sa_key : forall id, is_committed_of id e = true -> entry_idempotency_key e = id;
  sa_named : forall t key seq n reason by_, e = Repudiated t key seq n reason by_ ->
    exists x, x ∈ l /\ is_committed_of t x = true /\ entry_seq x = n
}.
Record offerable (l : list JournalEntry) (e : JournalEntry) : Prop := {
  of_readable : entry_readable e;
  of_sane : sane l e
}.
Record writable (l : list JournalEntry) (e : JournalEntry) : Prop := {
  wr_accepts : accepts e;
  wr_sane : sane l e
}.
Definition room (l : list JournalEntry) (k : nat) : Prop := Z.of_nat (length l + k) < MAX_LOG.

(** The state after folding one durable entry, and several. *)
Definition advance (c : C) (d : JournalEntry) : C :=
  {| core_journal := c.(core_journal); core_store := c.(core_store);
     projection := if c.(folded_through) <? entry_seq d then (fold None d c.(projection)).1 else c.(projection);
     folded_through := Z.max c.(folded_through) (entry_seq d); dispatched := c.(dispatched) |}.
Definition foldable (c : C) (d : JournalEntry) : Prop :=
  c.(folded_through) < entry_seq d -> exists prev, (fold None d c.(projection)).2 = Ok prev.
Lemma writable_sane l es : Forall (writable l) es -> Forall (sane l) es.
Proof. intros Hw. eapply Forall_impl; [exact Hw|]. by intros e []. Qed.
Lemma sane_mono l l' e : l `prefix_of` l' -> sane l e -> sane l' e.
Proof.
  intros [k ->] [H2 H3]. split; try done. intros t key seq n reason by_ He.
  destruct (H3 _ _ _ _ _ _ He) as (x & Hx & Hr). exists x. split; [set_solver|done].
Qed.

Lemma log_append_named l e :
  repudiations_named l -> sane l e -> repudiations_named (log_append l e).2.
Proof.
  intros Hn [_ Hw]. unfold log_append. destruct (existing_fact l (derive_key e)) as [x|]; [done|].
  cbn [snd]. intros i t key seq n reason by_ [Hi|[Hle Hi]]%lookup_app_Some.
  - destruct (Hn _ _ _ _ _ _ _ Hi) as (j & x & Hj & Hx & Hc). exists j, x. split_and!; try apply Hc; [done|].
    by apply lookup_app_l_Some.
  - apply list_lookup_singleton_Some in Hi as [Hi He].
    destruct e; try discriminate He. injection He. intros; subst.
    destruct (Hw _ _ _ _ _ _ eq_refl) as (x & [j Hj]%list_elem_of_lookup_1 & Hx). exists j, x.
    split_and!; try apply Hx; [|by apply lookup_app_l_Some]. apply lookup_lt_Some in Hj. lia.
Qed.
Lemma log_append_cases l e :
  ((log_append l e).1 ∈ l /\ (log_append l e).2 = l)
  \/ (existing_fact l (derive_key e) = None
      /\ (log_append l e).1 = set_seq (derive_key e) (Z.of_nat (length l) + 1)
      /\ (log_append l e).2 = l ++ [(log_append l e).1]).
Proof.
  unfold log_append. destruct (existing_fact l (derive_key e)) as [x|] eqn:Hx; cbn [fst snd]; [left|by right].
  by apply existing_fact_some in Hx as [Hx _].
Qed.
Lemma contiguous_seq_le l e : contiguous l -> e ∈ l -> entry_seq e <= Z.of_nat (length l).
Proof.
  intros Hc [i Hi]%list_elem_of_lookup_1. rewrite (Hc i e Hi). apply lookup_lt_Some in Hi. lia.
Qed.
(** A fresh entry folds. *)
Lemma fresh_folds regs l s e n :
  log_wf l -> keyed l -> live None regs l s -> sane l e -> existing_fact l (derive_key e) = None ->
  exists s' prev, fold None (set_seq (derive_key e) n) s = (s', Ok prev).
Proof.
  intros Hwf Hk Hl [Hkey _] Hx.
  assert (is_ok (fold None (set_seq (derive_key e) n) s).2 = true) as Hok.
  { apply fold_ok_unless; [|by intros ????? [=]]. intros d Hd.
    destruct (committed (mote_info s d)) as [c|] eqn:Hc; [exfalso|done].
    assert (existsb (is_committed_entry d) l = true) as (y & Hy%list_elem_of_In & Hyd)%existsb_exists
      by (eapply live_flags; eauto).
    destruct e; try done. destruct y; try done. cbn [set_seq derive_key is_committed_entry] in Hd, Hyd, Hx.
    apply bool_decide_eq_true in Hd, Hyd. subst.
    eapply existing_fact_none; [exact Hx|done|exact Hy|done|].
    cbn. cbn in Hkey. rewrite (Hkey d) by (by apply bool_decide_eq_true).
    apply (Hk d _ Hy). by apply bool_decide_eq_true. }
  destruct (fold None _ s) as [s' [prev|?|]]; [eauto|done..].
Qed.
Lemma advance_follows regs l c e :
  follows regs l c -> sane l e ->
  follows regs (log_append l e).2 (advance c (log_append l e).1) /\ foldable c (log_append l e).1.
Proof.
  intros [Hwf Hk Hn Hf Hl] Hw.
  assert (Hk' : keyed (log_append l e).2) by (apply log_append_keyed; [done|apply Hw]).
  pose proof (log_append_named l e Hn Hw) as Hn'. pose proof (log_append_wf l e Hwf) as Hwf'.
  destruct (log_append_cases l e) as [[Hin Hl2]|(Hx & H1 & H2)].
  - pose proof (contiguous_seq_le l _ (proj1 Hwf) Hin) as Hle.
    split; [|unfold foldable; lia]. unfold advance. rewrite (proj2 (Z.ltb_ge _ _)), Z.max_l by lia.
    split; cbn [folded_through projection]; rewrite ?Hl2 in *; done.
  - destruct (fresh_folds regs l (projection c) e (Z.of_nat (length l) + 1) Hwf Hk Hl Hw Hx) as (s' & prev & Hs).
    rewrite <- H1 in Hs. set (d := (log_append l e).1) in *.
    assert (Hseq : entry_seq d = Z.of_nat (length l) + 1) by (rewrite H1; apply set_seq_seq).
    split; [|intros _; rewrite Hs; eauto]. unfold advance. rewrite (proj2 (Z.ltb_lt _ _)), Z.max_r by lia.
    split; cbn [folded_through projection]; try done.
    + rewrite H2, length_app. cbn. lia.
    + rewrite H2, Hs. by eapply live_fold.
Qed.

(** ** Appending and folding *)
Lemma core_append_run regs l c e :
  in_sync regs l c -> accepts e -> room l 1 ->
  exists j, core_append e c = (Ok (log_append l e).1, with_core_journal j c) /\ represents j (log_append l e).2.
Proof.
  intros Hs Ha Hroom. unfold room in Hroom.
  destruct (append_law (core_journal c) l e (sync_represents _ _ _ Hs) Ha) as (j & Hj & Hr); [lia|].
  exists j. split; [|done]. unfold core_append, czoom, cstep. by rewrite Hj.
Qed.
Lemma core_fold_run c d :
  foldable c d -> folded_through c < entry_seq d ->
  exists prev, core_fold d c = (Ok prev, with_projection (fold None d c.(projection)).1 c).
Proof.
  intros Hok Hlt. destruct (Hok Hlt) as [prev Hp]. exists prev. unfold core_fold.
  destruct (fold None d (projection c)) as [s r]. cbn in Hp. by subst r.
Qed.
Lemma fold_new_run c d : foldable c d -> fold_new d c = (Ok tt, advance c d).
Proof.
  intros Hok. unfold fold_new, advance.
  destruct (Z.ltb_spec (folded_through c) (entry_seq d)) as [Hlt|Hle].
  - destruct (core_fold_run c d Hok Hlt) as [prev Hp]. unfold cbind. rewrite Hp. by rewrite Z.max_r by lia.
  - rewrite Z.max_l by lia. by destruct c.
Qed.
Lemma fold_quietly_run {E} c d : foldable c d -> fold_quietly (E := E) d c = (Ok tt, advance c d).
Proof.
  intros Hok. unfold fold_quietly, advance.
  destruct (Z.ltb_spec (folded_through c) (entry_seq d)) as [Hlt|Hle].
  - destruct (core_fold_run c d Hok Hlt) as [prev Hp]. rewrite Hp. by rewrite Z.max_r by lia.
  - rewrite Z.max_l by lia. by destruct c.
Qed.
(** Writing one entry: append, then fold, loudly or quietly. *)
Lemma write_run regs l c e :
  in_sync regs l c -> writable l e -> room l 1 ->
  exists j, core_append e c = (Ok (log_append l e).1, with_core_journal j c)
    /\ foldable (with_core_journal j c) (log_append l e).1
    /\ in_sync regs (log_append l e).2 (advance (with_core_journal j c) (log_append l e).1).
Proof.
  intros Hs Hw Hroom. destruct (core_append_run regs l c e Hs (wr_accepts _ _ Hw) Hroom) as (j & Hj & Hr).
  assert (follows regs l (with_core_journal j c)) as Hf by (by destruct Hs as [_ []]).
  destruct (advance_follows _ _ _ e Hf (wr_sane _ _ Hw)) as [Hf' Hok]. exists j. split_and!; [done..|]. by split.
Qed.
(** Offering one: it is written, or refused and nothing changes. *)
Definition offer_ok (regs : list RegisterMote) (l : list JournalEntry) (c : C) (e : JournalEntry) : Prop :=
  (exists j, core_append e c = (Ok (log_append l e).1, with_core_journal j c)
     /\ foldable (with_core_journal j c) (log_append l e).1
     /\ in_sync regs (log_append l e).2 (advance (with_core_journal j c) (log_append l e).1))
  \/ (exists x, core_append e c = (Err x, c) /\ ~ accepts e).
Lemma offer_run `{!JournalTotal J} regs l c e : in_sync regs l c -> offerable l e -> room l 1 -> offer_ok regs l c e.
Proof.
  intros Hs [Hrd Hsa] Hroom. unfold room in Hroom. pose proof (sync_represents _ _ _ Hs) as Hrep.
  destruct (append_total (core_journal c) l e Hrep Hrd) as [(j & Hj & Hr)|(x & Hx)]; [lia| |].
  - left. exists j. assert (follows regs l (with_core_journal j c)) as Hf by (by destruct Hs as [_ []]).
    destruct (advance_follows _ _ _ e Hf Hsa) as [Hf' Hok]. split_and!; [|done|by split].
    unfold core_append, czoom, cstep. by rewrite Hj.
  - right. exists x. split; [unfold core_append, czoom, cstep; rewrite Hx; by destruct c|].
    intros Ha. destruct (append_law (core_journal c) l e Hrep Ha) as (j & Hj & _); [lia|congruence].
Qed.
Lemma write_offer regs l c e : in_sync regs l c -> writable l e -> room l 1 -> offer_ok regs l c e.
Proof. intros Hs Hw Hr. left. by apply write_run. Qed.
Lemma log_append_all_prefix es : forall l, l `prefix_of` (log_append_all l es).2.
Proof.
  induction es as [|e es IH]; intros l; [done|]. cbn [log_append_all]. pose proof (log_append_prefix l e) as Hp.
  destruct (log_append l e) as [d l']. specialize (IH l'). destruct (log_append_all l' es). by etrans.
Qed.
(** Writing a batch. *)
Lemma batch_follows regs es : forall l c,
  follows regs l c -> Forall (sane l) es ->
  follows regs (log_append_all l es).2 (foldl advance c (log_append_all l es).1)
  /\ fold_all_new (log_append_all l es).1 c = (Ok tt, foldl advance c (log_append_all l es).1).
Proof.
  induction es as [|e es IH]; intros l c Hf Hw; [done|]. cbn [log_append_all].
  apply Forall_cons in Hw as [He Hes]. destruct (advance_follows _ _ _ e Hf He) as [Hf' Hok].
  pose proof (log_append_prefix l e) as Hp.
  destruct (log_append l e) as [d l'] eqn:Hd. cbn [fst snd] in *.
  destruct (IH l' (advance c d) Hf') as [IH1 IH2]; [by eapply Forall_impl; [|intros x; by apply sane_mono]|].
  destruct (log_append_all l' es) as [ds l''] eqn:Hds. cbn [fst snd foldl fold_all_new] in *.
  split; [done|]. unfold cbind. by rewrite fold_new_run.
Qed.
Lemma core_append_batch_run regs l c es :
  in_sync regs l c -> Forall (writable l) es -> room l (length es) ->
  exists j, core_append_batch es c = (Ok (log_append_all l es).1, with_core_journal j c)
    /\ represents j (log_append_all l es).2.
Proof.
  intros Hs Hw Hroom. destruct (append_batch_law (core_journal c) l es (sync_represents _ _ _ Hs)) as (j & Hj & Hr).
  - eapply Forall_impl; [done|]. by intros x [].
  - done.
  - exists j. split; [|done]. unfold core_append_batch, czoom, cstep. by rewrite Hj.
Qed.
Lemma advance_side ds : forall c, core_journal (foldl advance c ds) = core_journal c
  /\ core_store (foldl advance c ds) = core_store c /\ dispatched (foldl advance c ds) = dispatched c.
Proof. induction ds as [|d ds IH]; intros c; [done|]. cbn [foldl]. by apply (IH (advance c d)). Qed.
Lemma follows_journal regs l c j : follows regs l c -> follows regs l (with_core_journal j c).
Proof. by intros []. Qed.
(** ** Commands and faults *)
Inductive Command :=
| CmdStage (mote_id : MoteId) (key : bytes)
| CmdRegister (now : Z) (nonce fingerprint : bytes)
| CmdRepudiate (target : MoteId) (reason : RepudiationReason) (by_ : Z)
| CmdReap (now : Z) (registry : InMemoryWorkerRegistry)
| CmdFailure (mote_id : MoteId) (key : bytes) (reason : FailureReason) (worker : WorkerId) (detail : bytes)
| CmdGate (now : Z) (instance_id : bytes) (obs : MoteId) (tool_id tool_version : bytes)
| CmdDecide (now : Z) (request_id : bytes) (grant : bool) (operator_id : Z) (reason : bytes)
| CmdFlush (roles : option (bytes -> option Role)) (pending : list (CommitProposal * nat)).
Definition fault {A} (r : outcome A CoordinatorError) : bool :=
  match r with
  | Err (CoordinatorError.Journal _) | Err (CoordinatorError.Projection _)
  | Err (CoordinatorError.CommitFailed _) | Panic => true
  | _ => false
  end.
Definition repudiation_fault {A} (r : outcome A RepudiationError) : bool :=
  match r with Err (RepudiationError.Append _) | Panic => true | _ => false end.
Definition panics {A} (r : outcome A unit) : bool := match r with Panic => true | _ => false end.
Definition flush_fault (r : outcome (list CommitReply) unit) : bool :=
  match r with Ok replies => existsb (fun x => fault x.2) replies | _ => true end.
(** Whether the command met a fault of the journal or of the projection, and
    the state it leaves. *)
Definition exec (cmd : Command) (c : C) : bool * C :=
  match cmd with
  | CmdStage m k => let '(r, c) := stage_effect m k c in (fault r, c)
  | CmdRegister now nonce fp => let '(r, c) := register_run now nonce fp c in (fault r, c)
  | CmdRepudiate t r b => let '(r, c) := repudiate_cascade t r b c in (repudiation_fault r, c)
  | CmdReap now registry => let '(r, c) := reap_dead_workers now registry c in (panics r, c)
  | CmdFailure m k r w d => let '(r, c) := dead_letter_failure m k r w d c in (fault r, c)
  | CmdGate now i o t v => let '(r, c) := approval_gate_decision now i o t v c in (panics r, c)
  | CmdDecide now q g o r => let '(r, c) := decide_approval now q g o r c in (panics r, c)
  | CmdFlush roles pending => let '(r, c) := flush_commits roles pending c in (flush_fault r, c)
  end.
Definition outstanding (t : LeaseTracker) : nat :=
  sum_list ((fun w => size (held_by_worker t w)) <$> leasing_workers t).
(** The facts of the approval handshake. *)
Definition requested (now : Z) (tool_id tool_version : bytes) : ApprovalState :=
  ApprovalState.Requested tool_id tool_version
    (truncate_for_approval (str "world-mutating tool call: " ++ tool_id ++ str "@" ++ tool_version)) 0 now.
Definition decision (now : Z) (grant : bool) (operator_id : Z) (reason : bytes) : ApprovalState :=
  if grant then ApprovalState.Granted operator_id (truncate_for_approval reason) now
  else ApprovalState.Denied operator_id (truncate_for_approval reason) now.
(** The journal takes what the command writes and has room for it. *)
Definition permitted (l : list JournalEntry) (c : C) (cmd : Command) : Prop :=
  match cmd with
  | CmdStage m k => accepts (EffectStaged m k 0) /\ room l 1
  | CmdRegister now nonce fp => accepts (RunRegistered nonce fp now 0) /\ room l 1
  | CmdRepudiate t r b =>
      forall es, cascade_repudiation_entries c.(projection) t r b DEFAULT_CASCADE_CEILING = Ok es ->
        Forall accepts es /\ room l (length es)
  | CmdReap now registry =>
      (forall w m, m ∈ held_by_worker c.(dispatched).(tracker) w -> accepts (failed_worker_crashed_entry m))
      /\ room l (outstanding c.(dispatched).(tracker))
  | CmdFailure m k r w d => accepts (Failed m k 0 r (worker_reporter_id w) d) /\ room l 1
  | CmdGate now i o t v => accepts (Approval i (approval_request_id i o) o (requested now t v) 0) /\ room l 1
  | CmdDecide now q g o r =>
      (forall a, approval_latest_for c.(projection) q = Some a ->
         accepts (Approval a.(ApprovalRecord.instance_id) q a.(ApprovalRecord.awaiting_mote_id)
                    (decision now g o r) 0)) /\ room l 1
  | CmdFlush roles pending =>
      Forall (fun p => (exists req, assemble req = Ok p.1) /\ accepts (committed_entry p.1)) pending
      /\ room l (length pending)
  end.
(** The outcome of a command that keeps the invariant. *)
Definition kept (regs : list RegisterMote) (l : list JournalEntry) (x : bool * C) : Prop :=
  x.1 = false /\ exists regs' l', in_sync regs' l' x.2 /\ regs ⊆ regs' /\ grows l l'.

Lemma plain_sane l e : (entry_kind e =? KIND_COMMITTED) = false -> (entry_kind e =? KIND_REPUDIATED) = false -> sane l e.
Proof. intros Hc Hr. by split; [destruct e|intros; subst e]. Qed.
Lemma plain_offered l e : entry_readable e -> (entry_kind e =? KIND_COMMITTED) = false -> (entry_kind e =? KIND_REPUDIATED) = false -> offerable l e.
Proof. intros Ha Hc Hr. split; [done|]. by apply plain_sane. Qed.
Lemma writable_plain l e :
  accepts e -> (entry_kind e =? KIND_COMMITTED) = false -> (entry_kind e =? KIND_REPUDIATED) = false -> writable l e.
Proof. intros Ha Hc Hr. split; [done|]. by apply plain_sane. Qed.
Lemma in_sync_dispatch regs l c f : in_sync regs l c -> in_sync regs l (with_dispatch f c).
Proof. by intros [H1 []]. Qed.
Lemma kept_write regs l c e f :
  in_sync regs l c -> writable l e -> room l 1 -> no_round e = true ->
  exists j, core_append e c = (Ok (log_append l e).1, with_core_journal j c)
    /\ fold_new (log_append l e).1 (with_core_journal j c)
       = (Ok tt, advance (with_core_journal j c) (log_append l e).1)
    /\ (forall E, fold_quietly (E := E) (log_append l e).1 (with_core_journal j c)
                  = (Ok tt, advance (with_core_journal j c) (log_append l e).1))
    /\ kept regs l (false, with_dispatch f (advance (with_core_journal j c) (log_append l e).1)).
Proof.
  intros Hs Hw Hr Hn. destruct (write_run regs l c e Hs Hw Hr) as (j & Hj & Hok & Hs'). exists j.
  split_and!; [done|by apply fold_new_run|intros E; by apply fold_quietly_run|].
  split; [done|]. exists regs, (log_append l e).2. split_and!; [by apply in_sync_dispatch|done|by apply log_append_grows].
Qed.
Lemma kept_same regs l c f : in_sync regs l c -> kept regs l (false, with_dispatch f c).
Proof. intros Hs. split; [done|]. exists regs, l. split_and!; [by apply in_sync_dispatch|done..]. Qed.
Lemma with_dispatch_id (c : C) : with_dispatch (fun d => d) c = c.
Proof. by destruct c. Qed.
Ltac write_entry H e f :=
  let j := fresh "j" in let H1 := fresh "Hap" in let H2 := fresh "Hfo" in
  let H3 := fresh "Hfq" in let H4 := fresh "Hk" in
  let Hw := fresh "Hw" in
  match type of H with in_sync _ ?l _ =>
  assert (Hw : writable l e) by (by apply writable_plain);
  edestruct (kept_write _ _ _ e f H Hw) as (j & H1 & H2 & H3 & H4);
  [done|done|
   unfold cbind, cmap_err; rewrite H1; cbn [omap_err]; rewrite ?H2, ?H3; cbn [omap_err];
   rewrite ?with_dispatch_id in H4] end.
Lemma stage_kept regs l c m k : in_sync regs l c -> permitted l c (CmdStage m k) -> kept regs l (exec (CmdStage m k) c).
Proof.
  intros Hs [Ha Hr]. cbn [exec]. unfold stage_effect. write_entry Hs (EffectStaged m k 0) (fun d : Dispatch => d). exact Hk.
Qed.
Lemma register_kept regs l c now nonce fp :
  in_sync regs l c -> permitted l c (CmdRegister now nonce fp) -> kept regs l (exec (CmdRegister now nonce fp) c).
Proof.
  intros Hs [Ha Hr]. cbn [exec]. unfold register_run.
  pose proof (kept_same _ _ _ (fun d => d) Hs) as Hsame. rewrite with_dispatch_id in Hsame.
  destruct (run_registration (projection c)); [done|].
  destruct (negb (folded_through c =? 0)); [done|].
  write_entry Hs (RunRegistered nonce fp now 0) (fun d : Dispatch => d). exact Hk.
Qed.
Lemma failure_kept regs l c m k r w d :
  in_sync regs l c -> permitted l c (CmdFailure m k r w d) -> kept regs l (exec (CmdFailure m k r w d) c).
Proof.
  intros Hs [Ha Hr]. cbn [exec]. unfold dead_letter_failure.
  pose proof (kept_same _ _ _ (fun d => d) Hs) as Hsame. rewrite with_dispatch_id in Hsame.
  assert (Hgo : forall st, kept regs l
    (let '(r, c') := (if negb (is_held_by (tracker (dispatched c)) m w) then (Err (CoordinatorError.NotLeased m w), c)
       else
        (do! durable := cmap_err CoordinatorError.Journal
                          (core_append (Failed m k 0 r (worker_reporter_id w) d)) in
         do! _ := cmap_err CoordinatorError.Projection (fold_new durable) in
         fun c => (Ok (entry_seq durable, true), with_dispatch st c)) c) in (fault r, c'))).
  { intros st. destruct (negb (is_held_by _ _ _)); [done|]. write_entry Hs (Failed m k 0 r (worker_reporter_id w) d) st. exact Hk. }
  destruct (state_of_id (projection c) m); [apply Hgo|apply Hgo|apply kept_same; exact Hs..].
Qed.
Lemma approval_kept {E} regs l c i q m st :
  in_sync regs l c -> accepts (Approval i q m st 0) -> room l 1 ->
  exists c', append_approval (E := E) i q m st c = (Ok tt, c') /\ kept regs l (false, c').
Proof.
  intros Hs Ha Hr. unfold append_approval. write_entry Hs (Approval i q m st 0) (fun d : Dispatch => d). eauto.
Qed.
Lemma gate_kept regs l c now i o t v :
  in_sync regs l c -> permitted l c (CmdGate now i o t v) -> kept regs l (exec (CmdGate now i o t v) c).
Proof.
  intros Hs [Ha Hr]. cbn [exec]. unfold approval_gate_decision.
  pose proof (kept_same _ _ _ (fun d => d) Hs) as Hsame. rewrite with_dispatch_id in Hsame.
  destruct (ApprovalRecord.state <$> _) as [[]|]; try done. unfold cbind.
  match goal with |- context [append_approval ?i ?q ?m ?st] =>
    destruct (approval_kept (E := unit) regs l c i q m st) as (c' & -> & Hk); [done|apply Ha|done|exact Hk] end.
Qed.
Lemma decide_kept regs l c now q g o r :
  in_sync regs l c -> permitted l c (CmdDecide now q g o r) -> kept regs l (exec (CmdDecide now q g o r) c).
Proof.
  intros Hs [Ha Hr]. cbn [exec]. unfold decide_approval.
  pose proof (kept_same _ _ _ (fun d => d) Hs) as Hsame. rewrite with_dispatch_id in Hsame.
  destruct (approval_latest_for _ _) as [a|]; [|done]. specialize (Ha a eq_refl).
  destruct (ApprovalRecord.state a); try done. unfold cbind. fold (decision now g o r).
  match goal with |- context [append_approval ?i ?q ?m ?st] =>
    destruct (approval_kept (E := unit) regs l c i q m st) as (c' & -> & Hk); [done|apply Ha|done|exact Hk] end.
Qed.

(** ** Deaths *)
Lemma room_le l n k : room l n -> (k <= n)%nat -> room l k.
Proof. unfold room. lia. Qed.
Lemma log_append_room l e n : room l (Datatypes.S n) -> room (log_append l e).2 n.
Proof. pose proof (log_append_length l e). unfold room. lia. Qed.
Lemma set_tracker_id (d : Dispatch) : d = set_tracker (fun t => t) d.
Proof. by destruct d. Qed.
Lemma reap_mote_run {E} regs l c m n :
  in_sync regs l c -> offer_ok regs l c (failed_worker_crashed_entry m) -> room l (Datatypes.S n) ->
  exists f l' c', reap_mote (E := E) m c = (Ok tt, c') /\ in_sync regs l' c' /\ room l' n /\ grows l l'
    /\ dispatched c' = set_tracker f (dispatched c)
    /\ (forall w, held_by_worker (f (tracker (dispatched c))) w ⊆ held_by_worker (tracker (dispatched c)) w).
Proof.
  intros Hs Ho Hr. unfold reap_mote. case_bool_decide as Hc.
  - exists (fun t => resolve_committed t m), l, (with_tracker (fun t => resolve_committed t m) c).
    split_and!; [done|by apply in_sync_dispatch|eapply room_le; [done|lia]|done|done|]. intros w.
    apply resolve_held_subseteq.
  - destruct Ho as [(j & Hj & Hok & Hs')|(x & Hx & _)].
    + rewrite Hj. unfold cbind. rewrite fold_quietly_run by done.
      eexists (fun t => (record_crash t m PURE_RETRY_BUDGET).2), _, _.
      split_and!; [done|by apply in_sync_dispatch|by apply log_append_room|by apply log_append_grows|done|done].
    + rewrite Hx. exists (fun t => t), l, c. split_and!; [done|done|eapply room_le; [done|lia]|done|apply set_tracker_id|done].
Qed.
(** Each death can be offered, in any state the reaping reaches. *)
Definition deaths_offered (regs : list RegisterMote) (m : MoteId) : Prop :=
  forall l c, in_sync regs l c -> room l 1 -> offer_ok regs l c (failed_worker_crashed_entry m).
Lemma reap_motes_run {E} regs ms : forall l c n,
  in_sync regs l c -> Forall (deaths_offered regs) ms -> room l (length ms + n) ->
  exists f l' c', reap_motes (E := E) ms c = (Ok tt, c') /\ in_sync regs l' c' /\ room l' n /\ grows l l'
    /\ dispatched c' = set_tracker f (dispatched c)
    /\ (forall w, held_by_worker (f (tracker (dispatched c))) w ⊆ held_by_worker (tracker (dispatched c)) w).
Proof.
  induction ms as [|m ms IH]; intros l c n Hs Ha Hr.
  { exists (fun t => t), l, c. split_and!; try done. apply set_tracker_id. }
  apply Forall_cons in Ha as [Ha Has]. cbn [reap_motes length] in *.
  destruct (reap_mote_run (E := E) regs l c m (length ms + n) Hs) as (f & l1 & c1 & H1 & H2 & H3 & H4 & H5 & H6);
    [apply Ha; [done|eapply room_le; [done|lia]]|done|].
  destruct (IH l1 c1 n H2 Has H3) as (g & l2 & c2 & G1 & G2 & G3 & G4 & G5 & G6).
  exists (fun t => g (f t)), l2, c2. unfold cbind. rewrite H1.
  rewrite H5 in G5, G6. cbn [tracker set_tracker] in G6.
  split_and!; [exact G1|done|done|by etrans|by rewrite G5|]. intros w. etrans; [apply G6|apply H6].
Qed.
Lemma reap_workers_run {E} regs now registry ws : forall l c,
  in_sync regs l c ->
  (forall w m, m ∈ held_by_worker c.(dispatched).(tracker) w -> deaths_offered regs m) ->
  room l (sum_list ((fun w => size (held_by_worker c.(dispatched).(tracker) w)) <$> ws)) ->
  exists l' c', reap_workers (E := E) now registry ws c = (Ok tt, c') /\ in_sync regs l' c' /\ grows l l'.
Proof.
  induction ws as [|w ws IH]; intros l c Hs Ha Hr; [by exists l, c|]. cbn [reap_workers].
  rewrite fmap_cons in Hr. change (sum_list (?x :: ?xs)) with (x + sum_list xs)%nat in Hr.
  destruct (negb _). { apply IH; [done|done|]. eapply room_le; [done|]. lia. }
  destruct (take_leases (tracker (dispatched c)) w) as [leased t] eqn:Ht.
  assert (leased = held_by_worker (tracker (dispatched c)) w /\ t = (take_leases (tracker (dispatched c)) w).2)
    as [-> ->] by (rewrite Ht; by injection Ht).
  unfold cbind at 1. rewrite Ht. clear Ht. unfold cbind.
  set (t1 := (take_leases _ w).2). set (c1 := with_tracker (fun _ => t1) c).
  set (n := sum_list ((fun w => size (held_by_worker t1 w)) <$> ws)).
  destruct (reap_motes_run (E := E) regs (mote_set_iter (held_by_worker (tracker (dispatched c)) w)) l c1 n)
    as (f & l1 & c2 & G1 & G2 & G3 & G4 & G5 & G6).
  - by apply in_sync_dispatch.
  - apply Forall_forall. intros m Hm. apply (Ha w). by apply elem_of_mote_set.
  - eapply room_le; [exact Hr|]. rewrite size_mote_set. apply Nat.add_le_mono_l.
    unfold n. apply sum_list_fmap_le. intros w'. apply subseteq_size, take_held_subseteq.
  - rewrite G1. destruct (IH l1 c2) as (l2 & c3 & K1 & K2 & K3); [done| | |].
    + intros w' m Hm. rewrite G5 in Hm. cbn [tracker set_tracker] in Hm. apply (Ha w').
      apply G6 in Hm. by apply (take_held_subseteq _ w).
    + eapply room_le; [exact G3|]. rewrite G5. apply sum_list_fmap_le. intros w'. apply subseteq_size, G6.
    + exists l2, c3. split_and!; [done..|by etrans].
Qed.
Lemma reap_kept regs l c now registry :
  in_sync regs l c -> permitted l c (CmdReap now registry) -> kept regs l (exec (CmdReap now registry) c).
Proof.
  intros Hs [Ha Hr]. cbn [exec]. unfold reap_dead_workers.
  destruct (reap_workers_run (E := unit) regs now registry (leasing_workers (tracker (dispatched c))) l c Hs) as (l' & c' & -> & Hs' & Hp);
    [|done|].
  { intros w m Hm l0 c0 Hs0 Hr0. apply write_offer; [done| |done]. apply writable_plain; [by eapply Ha|done..]. }
  split; [done|]. eauto.
Qed.

(** ** Group commit *)
(** A durable entry is new when its seq is past everything folded before it. *)
Fixpoint marks (folded : Z) (ds : list JournalEntry) : list CommitApplied :=
  match ds with
  | [] => []
  | d :: ds => {| committed_seq := entry_seq d; already_committed := negb (folded <? entry_seq d) |}
               :: marks (Z.max folded (entry_seq d)) ds
  end.
Lemma length_marks ds : forall n, length (marks n ds) = length ds.
Proof. induction ds as [|d ds IH]; intros n; [done|]. cbn. by rewrite IH. Qed.
Lemma apply_loop_run regs n0 es : forall l c new applied,
  follows regs l c -> Forall (sane l) es -> n0 <= folded_through c ->
  (forall n, n ∈ new <-> n0 < n <= folded_through c) ->
  apply_loop n0 new applied (log_append_all l es).1 c
  = (Ok (applied ++ marks (folded_through c) (log_append_all l es).1), foldl advance c (log_append_all l es).1).
Proof.
  induction es as [|e es IH]; intros l c new applied Hf Hw Hn0 Hnew.
  { cbn. by rewrite app_nil_r. }
  apply Forall_cons in Hw as [He Hes]. destruct (advance_follows _ _ _ e Hf He) as [Hf' Hok].
  assert (entry_seq (log_append l e).1 <= folded_through c + 1) as Hseq.
  { rewrite (fo_folded _ _ _ Hf). destruct (log_append_cases l e) as [[Hin _]|(_ & -> & _)].
    - pose proof (contiguous_seq_le l _ (proj1 (fo_wf _ _ _ Hf)) Hin). lia.
    - by rewrite set_seq_seq. }
  pose proof (log_append_prefix l e) as Hp. cbn [log_append_all].
  destruct (log_append l e) as [d l'] eqn:Hd. cbn [fst snd] in *.
  assert (Hes' : Forall (sane l') es) by (by eapply Forall_impl; [|intros x; by apply sane_mono]).
  pose proof (IH l' (advance c d)) as IH'.
  destruct (log_append_all l' es) as [ds l''] eqn:Hds. cbn [fst snd] in *.
  cbn [apply_loop marks foldl]. set (q := entry_seq d) in *.
  assert (Hisnew : (n0 <? q) && negb (bool_decide (q ∈ new)) = (folded_through c <? q)).
  { apply eq_true_iff_eq. rewrite andb_true_iff, negb_true_iff, bool_decide_eq_false, Hnew, !Z.ltb_lt. lia. }
  rewrite Hisnew. destruct (Z.ltb_spec (folded_through c) q) as [Hlt|Hle]; cbn [negb].
  - destruct (core_fold_run c d Hok Hlt) as [prev Hfold]. unfold cbind, cmap_err. rewrite Hfold. cbn [omap_err].
    assert (Hadv : with_folded q (with_projection (fold None d (projection c)).1 c) = advance c d).
    { unfold advance. fold q. by rewrite (proj2 (Z.ltb_lt _ _) Hlt), Z.max_r by lia. }
    rewrite Hadv, IH'; [by rewrite <- app_assoc|done|done| |].
    + cbn [advance folded_through]. lia.
    + intros n. cbn [advance folded_through]. fold q. rewrite elem_of_union, elem_of_singleton, Hnew. lia.
  - assert (Hadv : advance c d = c).
    { unfold advance. fold q. rewrite (proj2 (Z.ltb_ge _ _) Hle), Z.max_l by lia. by destruct c. }
    rewrite Hadv in IH' |- *. rewrite IH'; [by rewrite <- app_assoc, Z.max_l by lia|by rewrite <- Hadv|done|done|].
    intros n. destruct (Z.ltb_spec n0 q); [|apply Hnew]. rewrite elem_of_union, elem_of_singleton, Hnew. lia.
Qed.
Lemma applied_batch regs l c es j :
  in_sync regs l c -> Forall (sane l) es ->
  core_append_batch es c = (Ok (log_append_all l es).1, with_core_journal j c) -> represents j (log_append_all l es).2 ->
  exists c', apply_batch es c = (Ok (marks (folded_through c) (log_append_all l es).1), c')
    /\ in_sync regs (log_append_all l es).2 c' /\ core_store c' = core_store c /\ dispatched c' = dispatched c.
Proof.
  intros Hs Hw Hj Hrep. unfold apply_batch, cbind, cmap_err. rewrite Hj. cbn [omap_err].
  pose proof (follows_journal _ _ _ j (sync_follows _ _ _ Hs)) as Hf.
  rewrite (apply_loop_run regs _ es l) by (done || set_solver by (cbn; lia)). cbn [app].
  destruct (advance_side (log_append_all l es).1 (with_core_journal j c)) as (Hj' & Hst & Hdi).
  eexists. split_and!; [done| |by rewrite Hst|by rewrite Hdi].
  split; [by rewrite Hj'|]. by apply batch_follows.
Qed.
Lemma apply_batch_run regs l c es :
  in_sync regs l c -> Forall (writable l) es -> room l (length es) ->
  exists c', apply_batch es c = (Ok (marks (folded_through c) (log_append_all l es).1), c')
    /\ in_sync regs (log_append_all l es).2 c' /\ core_store c' = core_store c /\ dispatched c' = dispatched c.
Proof.
  intros Hs Hw Hr. destruct (core_append_batch_run regs l c es Hs Hw Hr) as (j & Hj & Hrep).
  apply writable_sane in Hw. by eapply applied_batch.
Qed.

(** Registrations that keep the fold. *)
Definition same_log (c c' : C) : Prop :=
  forall regs l, in_sync regs l c -> exists regs', regs ⊆ regs' /\ in_sync regs' l c'.
Lemma same_log_refl c : same_log c c.
Proof. intros regs l Hs. by exists regs. Qed.
Lemma same_log_trans c1 c2 c3 : same_log c1 c2 -> same_log c2 c3 -> same_log c1 c3.
Proof.
  intros H12 H23 regs l Hs. destruct (H12 regs l Hs) as (r & Hr & Hs2). destruct (H23 r l Hs2) as (r' & Hr' & Hs3).
  exists r'. split; [by etrans|done].
Qed.
Lemma same_log_foldl {A} (f : C -> A -> C) l : (forall c x, same_log c (f c x)) -> forall c, same_log c (foldl f c l).
Proof.
  intros Hf. induction l as [|x l IH]; intros c; [apply same_log_refl|].
  eapply same_log_trans; [apply (Hf c x)|apply IH].
Qed.
Lemma register_same_log r c : same_log c (with_projection (register_mote r c.(projection)) c).
Proof.
  intros regs l [H1 [G1 G2 G3 G4 G5]]. exists (r :: regs). split; [set_solver|]. split; [done|]. split; try done.
  apply live_register; [set_solver|]. eapply live_mono; [|done]. set_solver.
Qed.
Lemma persist_same_log d c : same_log c (persist_def d c).
Proof.
  unfold persist_def. destruct (core_store c) as [st|]; [|apply same_log_refl].
  destruct (put st _) as [[r st']|?|]; try apply same_log_refl. intros regs l [H1 []]. by exists regs.
Qed.
Lemma dispatch_same_log f c : same_log c (with_dispatch f c).
Proof. intros regs l Hs. exists regs. split; [done|]. by apply in_sync_dispatch. Qed.
Lemma admit_child_same_log c child : same_log c (admit_child c child).
Proof.
  unfold admit_child. eapply same_log_trans; [apply persist_same_log|].
  eapply same_log_trans; [apply register_same_log|apply dispatch_same_log].
Qed.
Lemma settle_commit_same_log roles c m : same_log c (settle_commit roles c m).
Proof.
  unfold settle_commit. eapply same_log_trans; [|apply dispatch_same_log].
  destruct (core_store c), roles, (defs (dispatched c) !! m) as [[mo w]|]; try apply same_log_refl.
  case_match; [|apply same_log_refl]. unfold materialize_committed_shaper.
  repeat case_match; try apply same_log_refl. apply same_log_foldl. apply admit_child_same_log.
Qed.
Lemma assemble_key req p : assemble req = Ok p -> cp_idempotency_key p = cp_mote_id p.
Proof.
  unfold assemble. intros H. ok_inv. case_bool_decide as Hk; [|done]. cbn [negb] in H. ok_inv.
  repeat case_match; try done. by injection H as <-.
Qed.
Lemma commit_sane l req p : assemble req = Ok p -> sane l (committed_entry p).
Proof. intros Hq. split; [|done]. cbn. intros d Hd%bool_decide_eq_true. by rewrite (assemble_key req p Hq). Qed.
Lemma admit_batch_spec (c : C) batch (P : CommitProposal * nat -> Prop) :
  Forall P batch ->
  Forall P (admit_batch c batch).2 /\ (length (admit_batch c batch).2 <= length batch)%nat
  /\ existsb (fun x => fault x.2) (admit_batch c batch).1 = false.
Proof.
  induction 1 as [|[p r] batch Hp _ IH]; [done|]. cbn [admit_batch].
  destruct (admit_batch c batch) as [refused admitted]. cbn [fst snd] in *. destruct IH as (H1 & H2 & H3).
  destruct (refusal c p) as [e|] eqn:He; cbn [fst snd length existsb].
  - split_and!; [done|lia|]. rewrite H3. unfold refusal in He. repeat case_match; simplify_eq; done.
  - split_and!; [by constructor|lia|done].
Qed.
Lemma flush_kept regs l c roles pending :
  in_sync regs l c -> permitted l c (CmdFlush roles pending) -> kept regs l (exec (CmdFlush roles pending) c).
Proof.
  intros Hs [Hp Hr]. cbn [exec]. unfold flush_commits.
  destruct (admit_batch_spec c pending _ Hp) as (Ha & Hlen & Href).
  destruct (admit_batch c pending) as [refused admitted]. cbn [fst snd] in *.
  destruct admitted as [|x xs] eqn:Hadm.
  { unfold flush_fault. rewrite Href. split; [done|]. by exists regs, l. }
  rewrite <- Hadm in *. clear Hadm x xs.
  destruct (apply_batch_run regs l c (committed_entry <$> admitted.*1) Hs) as (c' & Hb & Hs' & _ & _).
  - rewrite <- list_fmap_compose. apply Forall_fmap. eapply Forall_impl; [exact Ha|].
    intros [p r] [[req Hq] Hacc]. split; [done|]. by eapply commit_sane.
  - rewrite !length_fmap. eapply room_le; [exact Hr|lia].
  - rewrite Hb. destruct (same_log_foldl (settle_commit roles) (cp_mote_id <$> admitted.*1)
                            (settle_commit_same_log roles) c' _ _ Hs') as (regs' & Hsub & Hs2).
    split; [|exists regs', (log_append_all l (committed_entry <$> admitted.*1)).2; split_and!; [done|done|]].
    + cbn [fst flush_fault]. rewrite existsb_app. apply orb_false_iff. split; [exact Href|]. apply not_true_is_false.
      intros (x & Hx%list_elem_of_In & Hfx)%existsb_exists. destruct x as [r o].
      apply elem_of_zip_r, list_elem_of_fmap in Hx as (a & -> & _). done.
    + apply log_append_all_grows. by apply Forall_fmap, Forall_true.
Qed.

(** ** Repudiation *)
Lemma with_seq_elem s (cs : list MoteId) d n : (d, n) ∈ omap (with_seq s) cs -> committed_seq_of s d = Some n.
Proof.
  intros (x & _ & Hx)%list_elem_of_omap. unfold with_seq in Hx.
  destruct (committed_seq_of s x) eqn:E; [|done]. cbn in Hx. by simplify_eq.
Qed.
Lemma cascade_entry s t r b ceiling es e :
  cascade_repudiation_entries s t r b ceiling = Ok es -> e ∈ es ->
  exists d n reason by_, e = repudiated_entry d n reason by_ /\ committed_seq_of s d = Some n.
Proof.
  unfold cascade_repudiation_entries. intros H He. repeat case_match; try done. injection H as <-.
  apply elem_of_cons in He as [->|([d n] & -> & Hd)%list_elem_of_fmap]; [eauto 6|].
  apply with_seq_elem in Hd. eauto 6.
Qed.
Lemma cascade_sane regs l c t r b es :
  in_sync regs l c -> cascade_repudiation_entries c.(projection) t r b DEFAULT_CASCADE_CEILING = Ok es -> Forall (sane l) es.
Proof.
  intros Hs He. apply Forall_forall. intros e Hin.
  destruct (cascade_entry _ _ _ _ _ _ _ He Hin) as (d & n & reason & by_ & -> & Hn).
  split; [done|]. intros t' k' s' n' r' b' [= <- _ _ <- _ _].
  apply committed_seq_info in Hn as (ci & Hci & <-).
  destruct (live_commit_entry _ _ _ _ _ (fo_live _ _ _ (sync_follows _ _ _ Hs)) Hci) as (x & Hx & Hc & Hseq & _). eauto.
Qed.
Lemma cascade_writable regs l c t r b es :
  in_sync regs l c -> cascade_repudiation_entries c.(projection) t r b DEFAULT_CASCADE_CEILING = Ok es ->
  Forall accepts es -> Forall (writable l) es.
Proof.
  intros Hs He%(cascade_sane _ _ _ _ _ _ _ Hs) Ha. apply Forall_forall. intros e Hin.
  rewrite Forall_forall in Ha, He. split; auto.
Qed.
Lemma cascade_no_panic s t r b ceiling :
  index_ok s -> cascade_repudiation_entries s t r b ceiling <> Panic.
Proof.
  intros Hi. unfold cascade_repudiation_entries. destruct (committed_seq_of s t); [|done].
  destruct (consumers_of_index s t Hi) as (res & -> & _). by case_match.
Qed.
Lemma sync_index_ok regs l c : in_sync regs l c -> index_ok c.(projection).
Proof. intros [_ [_ _ _ _ Hl]]. by eapply index_ok_reachable, live_reachable. Qed.
Lemma repudiate_run regs l c t r b es :
  in_sync regs l c -> cascade_repudiation_entries c.(projection) t r b DEFAULT_CASCADE_CEILING = Ok es ->
  Forall accepts es -> room l (length es) ->
  exists j, repudiate_cascade t r b c
      = (Ok {| ro_target := t; ro_cascade_size := (length es - 1)%nat |},
         foldl advance (with_core_journal j c) (log_append_all l es).1)
    /\ in_sync regs (log_append_all l es).2 (foldl advance (with_core_journal j c) (log_append_all l es).1).
Proof.
  intros Hs He Ha Hr. pose proof (cascade_writable _ _ _ _ _ _ _ Hs He Ha) as Hw.
  destruct (core_append_batch_run regs l c es Hs Hw Hr) as (j & Hj & Hrep). exists j.
  pose proof (follows_journal _ _ _ j (sync_follows _ _ _ Hs)) as Hf.
  destruct (batch_follows regs es l _ Hf (writable_sane _ _ Hw)) as [Hf' Hrun]. split.
  - unfold repudiate_cascade, cbind, cask, cmap_err. rewrite He, Hj. cbn [omap_err]. by rewrite Hrun.
  - split; [|done]. by destruct (advance_side (log_append_all l es).1 (with_core_journal j c)) as (-> & _).
Qed.
Lemma repudiate_kept regs l c t r b :
  in_sync regs l c -> permitted l c (CmdRepudiate t r b) -> kept regs l (exec (CmdRepudiate t r b) c).
Proof.
  intros Hs Hp. cbn [exec permitted] in *.
  destruct (cascade_repudiation_entries (projection c) t r b DEFAULT_CASCADE_CEILING) as [es|e|] eqn:He.
  - destruct (Hp es eq_refl) as [Ha Hr]. destruct (repudiate_run regs l c t r b es Hs He Ha Hr) as (j & -> & Hs').
    split; [done|]. exists regs, (log_append_all l es).2. split_and!; [done..|]. apply log_append_all_grows, Forall_forall. intros e Hin.
    by destruct (cascade_entry _ _ _ _ _ _ _ He Hin) as (? & ? & ? & ? & -> & _).
  - unfold repudiate_cascade, cbind, cask. rewrite He. pose proof (kept_same _ _ _ (fun d => d) Hs) as Hk.
    rewrite with_dispatch_id in Hk. destruct e; try done. unfold cascade_repudiation_entries in He.
    by repeat case_match.
  - by destruct (cascade_no_panic (projection c) t r b DEFAULT_CASCADE_CEILING (sync_index_ok _ _ _ Hs)).
Qed.
(** ** The writer never leaves its journal *)
Lemma live_of_fold regs l s : fold_entries None l State_default = (s, Ok tt) -> live None regs l s.
Proof.
  revert s. induction l as [|e l IH] using rev_ind; intros s; [intros [= <-]; constructor|].
  rewrite fold_entries_app. destruct (fold_entries None l State_default) as [s0 [[]|?|]] eqn:H0; [|done..].
  cbn [fold_entries]. destruct (fold None e s0) as [s1 [prev|?|]] eqn:H1; [|done..].
  intros [= <-]. by eapply live_fold; [apply IH|].
Qed.
Lemma recover_run j l :
  represents j l -> keyed l -> room l 1 ->
  exists p, recover j = Some (p, Z.of_nat (length l), list_to_set (iter_motes p).*1)
    /\ fold_entries None l State_default = (p, Ok tt).
Proof.
  intros Hr Hk Hroom. unfold room in Hroom. pose proof (represents_wf j l Hr) as Hwf.
  destruct (fold_log None l Hwf (keyed_one_key l Hk)) as (p & Hp & _); [by intros ????? [=]|].
  exists p. split; [|done]. unfold recover, from_journal.
  rewrite (current_seq_law j l Hr). cbn [omap_err obind]. unfold MAX_LOG in *. rewrite u64_add_small by lia.
  rewrite (read_entries_law j l) by (done || unfold MAX_LOG; lia). cbn [omap_err obind].
  rewrite filter_range_all by apply Hwf. by rewrite Hp.
Qed.
Lemma start_sync j st l :
  represents j l -> keyed l -> repudiations_named l -> room l 1 ->
  exists c, core_start j st = Some c /\ in_sync [] l c.
Proof.
  intros Hr Hk Hn Hroom. destruct (recover_run j l Hr Hk Hroom) as (p & Hp & Hf).
  unfold core_start. rewrite Hp. eexists. split; [done|]. split; [done|].
  split; cbn; try done; [by eapply represents_wf|by apply live_of_fold].
Qed.
Lemma exec_kept regs l c cmd : in_sync regs l c -> permitted l c cmd -> kept regs l (exec cmd c).
Proof.
  intros Hs Hp. destruct cmd; [by apply stage_kept|by apply register_kept|by apply repudiate_kept|by apply reap_kept
    |by apply failure_kept|by apply gate_kept|by apply decide_kept|by apply flush_kept].
Qed.
(** One command, whose writes the journal takes. *)
Definition serves (c c' : C) : Prop :=
  exists cmd, (forall l, represents c.(core_journal) l -> permitted l c cmd) /\ c' = (exec cmd c).2.
Lemma serves_sync regs l c c' :
  rtc serves c c' -> in_sync regs l c -> exists regs' l', in_sync regs' l' c' /\ grows l l'.
Proof.
  intros Hst. revert regs l. induction Hst as [c|c c1 c' (cmd & Hp & ->) _ IH]; intros regs l Hs; [by exists regs, l|].
  destruct (exec_kept regs l c cmd Hs) as (_ & regs1 & l1 & Hs1 & _ & Hl1); [apply Hp, Hs|].
  destruct (IH regs1 l1 Hs1) as (r2 & l2 & Hs2 & Hl2). exists r2, l2. split; [done|by etrans].
Qed.
(** What recovery rebuilds from the journal of [c], up to declarations. *)
Definition recovers_to (c : C) : Prop :=
  exists p submitted regs, recover c.(core_journal) = Some (p, c.(folded_through), submitted)
    /\ sim regs p c.(projection) /\ forall d, state_of_id p d = state_of_id c.(projection) d.
Lemma sync_recovers regs l c : in_sync regs l c -> room l 1 -> recovers_to c.
Proof.
  intros [Hr [_ Hk _ Hfo Hl]] Hroom. destruct (recover_run _ l Hr Hk Hroom) as (p & Hp & Hf).
  destruct (live_sim None regs (no_children regs) l _ Hl) as (p' & Hf' & Hsim).
  rewrite Hf in Hf'. injection Hf' as <-.
  exists p, (list_to_set (iter_motes p).*1), regs. split_and!; [by rewrite Hfo|done|].
  intros d. rewrite !state_of_mote_info. pose proof (sim_info _ _ _ Hsim d) as Hi.
  destruct (mote_info (projection c) d), (mote_info p d). unfold set_declared_field in Hi. cbn in Hi.
  injection Hi as -> -> -> -> -> -> -> ->. done.
Qed.

(** One writer, one truth: started from its journal, the coordinator
    serves any sequence of commands (stage, register, commit batches,
    repudiate, reap, dead-letter, approval requests and decisions) without a
    journal or projection fault, the log only grows, its watermark is the
    journal's head, and a restart at any point rebuilds the same run facts and
    the same state of every Mote. *)
Theorem writer_follows_journal j st l c0 c cmd :
  represents j l -> keyed l -> repudiations_named l -> room l 1 -> core_start j st = Some c0 -> rtc serves c0 c ->
  (forall l, represents c.(core_journal) l -> permitted l c cmd) ->
  (exec cmd c).1 = false
  /\ exists l', l `prefix_of` l' /\ represents c.(core_journal) l' /\ c.(folded_through) = Z.of_nat (length l')
     /\ (room l' 1 -> recovers_to c).
Proof.
  intros Hr Hk Hn Hroom Hc0 Hst Hp. destruct (start_sync j st l Hr Hk Hn Hroom) as (c0' & Hc0' & Hs).
  rewrite Hc0 in Hc0'. injection Hc0' as <-.
  destruct (serves_sync [] l c0 c Hst Hs) as (regs & l' & Hs' & Hl').
  split; [apply (exec_kept regs l' c cmd Hs'), Hp, Hs'|]. exists l'.
  split_and!; [by apply grows_prefix|apply Hs'|apply Hs'|]. by apply sync_recovers with (regs := regs).
Qed.

(** ** First wins in a group commit *)
Lemma is_committed_of_entry d e : is_committed_of d e = is_committed_entry d e.
Proof. done. Qed.
Lemma sync_committed regs l c d : follows regs l c ->
  (committed (mote_info (projection c) d) = None <-> forall x, x ∈ l -> is_committed_of d x = false).
Proof.
  intros [_ _ _ _ Hl]. pose proof (live_flags regs l _ d Hl) as Hf.
  rewrite eq_None_not_Some, Hf. split.
  - intros He x Hx. apply not_true_is_false. intros Hc. apply He.
    apply existsb_exists. exists x. split; [by apply list_elem_of_In|done].
  - intros Hall (x & Hx%list_elem_of_In & Hc)%existsb_exists.
    specialize (Hall x Hx). unfold is_committed_of, is_committed_entry in *. congruence.
Qed.
Definition proposes (p : CommitProposal) : Prop := cp_idempotency_key p = cp_mote_id p.
(** Appending one proposal: its durable entry, and whether it is new. *)
Lemma commit_mark l p :
  log_wf l -> keyed l -> proposes p ->
  let out := log_append l (committed_entry p) in
  out.1 ∈ out.2 /\ is_committed_of (cp_mote_id p) out.1 = true /\ keyed out.2 /\ log_wf out.2
  /\ Z.max (Z.of_nat (length l)) (entry_seq out.1) = Z.of_nat (length out.2)
  /\ (Z.of_nat (length l) < entry_seq out.1 <-> forall x, x ∈ l -> is_committed_of (cp_mote_id p) x = false)
  /\ (Z.of_nat (length l) < entry_seq out.1 -> committed_ref out.1 = Some (cp_result_ref p))
  /\ (forall x, x ∈ out.2 -> x ∈ l \/ x = out.1).
Proof.
  intros Hwf Hk Hp out. set (e := committed_entry p) in *.
  assert (is_committed_of (cp_mote_id p) e = true) as Hce by (by apply bool_decide_eq_true).
  pose proof (log_append_found l (cp_mote_id p) e Hwf Hk Hce Hp) as [Hin Hcd]%find_entry_some. fold out in Hin, Hcd.
  split_and!; [done|done| |by apply log_append_wf|..].
  { apply log_append_keyed; [done|]. intros d Hd. cbn in Hd. apply bool_decide_eq_true in Hd. subst. exact Hp. }
  all: destruct (log_append_cases l e) as [[Hdl Hl]|(Hx & Hd & Hl)]; fold out in Hl; [fold out in Hdl|fold out in Hd].
  all: try pose proof (contiguous_seq_le l _ (proj1 Hwf) Hdl) as Hle.
  all: rewrite ?Hl, ?length_app, ?Hd, ?set_seq_seq; cbn [length]; try lia; try done.
  - split; [lia|]. intros Hall. by rewrite (Hall _ Hdl) in Hcd.
  - split; [|lia]. intros _ x Hx'. apply not_true_is_false. intros Hcx.
    eapply existing_fact_none; [exact Hx|done|exact Hx'| |].
    + by rewrite (is_committed_of_kind _ _ Hcx).
    + by rewrite (Hk _ _ Hx' Hcx).
  - by left.
  - intros x [Hx'|Hx'%list_elem_of_singleton]%elem_of_app; [by left|by right].
Qed.
(** What the i-th entry of a batch becomes. *)
Lemma batch_marks ps : forall l,
  log_wf l -> keyed l -> Forall proposes ps ->
  forall i p, ps !! i = Some p ->
  let out := log_append_all l (committed_entry <$> ps) in
  exists d a, d ∈ out.2 /\ marks (Z.of_nat (length l)) out.1 !! i = Some a
    /\ is_committed_of (cp_mote_id p) d = true /\ committed_seq a = entry_seq d
    /\ (already_committed a = false <->
        (forall x, x ∈ l -> is_committed_of (cp_mote_id p) x = false)
        /\ forall k q, (k < i)%nat -> ps !! k = Some q -> cp_mote_id q <> cp_mote_id p)
    /\ (already_committed a = false -> committed_ref d = Some (cp_result_ref p)).
Proof.
  induction ps as [|q ps IH]; intros l Hwf Hk Hps i p Hi; [done|].
  apply Forall_cons in Hps as [Hq Hps]. cbn zeta. rewrite fmap_cons. cbn [log_append_all].
  destruct (commit_mark l q Hwf Hk Hq) as (Hin & Hcd & Hk' & Hwf' & Hmax & Hnew & Href & Hone).
  pose proof (log_append_prefix l (committed_entry q)) as [l2 Hl2].
  destruct (log_append l (committed_entry q)) as [d l'] eqn:Hd. cbn [fst snd] in *.
  specialize (IH l' Hwf' Hk' Hps). pose proof (log_append_all_prefix (committed_entry <$> ps) l') as [l3 Hl3].
  destruct (log_append_all l' (committed_entry <$> ps)) as [ds l''] eqn:Hds. cbn [fst snd] in *.
  destruct i as [|i].
  - injection Hi as <-. eexists d, _. split_and!; [set_solver|done|done|done| |]; cbn [already_committed];
      rewrite negb_false_iff, Z.ltb_lt; [|done]. rewrite Hnew. split; [|by intros [? _]]. intros Hall. split; [done|lia].
  - destruct (IH i p Hi) as (d' & a & H1 & H2 & H3 & H4 & H5 & H6). exists d', a. cbn [marks].
    rewrite Hmax. split_and!; [done..| |done]. rewrite H5. split; intros [Hall Hfst].
    + split; [intros x Hx; apply Hall; set_solver|]. intros k q' Hlt Hk1.
      destruct k as [|k]; [|by apply (Hfst k); [lia|]]. injection Hk1 as <-. intros Heq.
      rewrite <- Heq in Hall. rewrite (Hall d Hin) in Hcd. done.
    + split; [|intros k q' Hlt Hk1; by apply (Hfst (Datatypes.S k)); [lia|]].
      intros x [Hx| ->]%Hone; [by apply Hall|]. apply not_true_is_false. intros Hcp.
      apply (Hfst 0%nat q); [lia|done|]. destruct d; try done. cbn in Hcp, Hcd.
      apply bool_decide_eq_true in Hcp, Hcd. congruence.
Qed.
(** The commit a projection holds is the one the log holds. *)
Lemma sync_commit_of regs l c d x :
  follows regs l c -> x ∈ l -> is_committed_of d x = true ->
  exists ci, committed (mote_info (projection c) d) = Some ci /\ ci.(CommittedInfo.seq) = entry_seq x
    /\ committed_ref x = Some ci.(CommittedInfo.result_ref).
Proof.
  intros [Hwf Hk _ _ Hl] Hx Hcx.
  assert (is_Some (committed (mote_info (projection c) d))) as [ci Hci].
  { apply (live_flags regs l _ d Hl). apply existsb_exists. exists x. split; [by apply list_elem_of_In|done]. }
  destruct (live_commit_entry regs l _ d ci Hl Hci) as (y & Hy & Hcy & Hseq & Href). exists ci.
  by rewrite (keyed_unique l d x y Hwf Hk Hx Hy Hcx Hcy), Hseq, Href.
Qed.
(** The i-th proposal is answered by [a], and holds the commit [a] names. *)
Definition answered (c c' : C) (admitted : list (CommitProposal * nat)) (i : nat) (p : CommitProposal)
    (a : CommitApplied) : Prop :=
  exists ci, committed (mote_info (projection c') (cp_mote_id p)) = Some ci
    /\ ci.(CommittedInfo.seq) = committed_seq a
    /\ (already_committed a = false <->
        committed (mote_info (projection c) (cp_mote_id p)) = None
        /\ forall k q, (k < i)%nat -> admitted !! k = Some q -> cp_mote_id q.1 <> cp_mote_id p)
    /\ (already_committed a = false -> ci.(CommittedInfo.result_ref) = cp_result_ref p).

(** [C28] Group commit, first wins: a flush answers the refused proposals with
    their refusal and every admitted one, in order, with the seq of the commit
    its Mote holds afterwards; a commit is reported as new exactly for the first
    proposal of a Mote that had none, and then its result is that proposal's. *)
Theorem group_commit_first_wins regs l c roles pending :
  in_sync regs l c -> permitted l c (CmdFlush roles pending) ->
  exists applied c', flush_commits (E := unit) roles pending c
      = (Ok ((admit_batch c pending).1 ++ zip (admit_batch c pending).2.*2 (Ok <$> applied)), c')
    /\ length applied = length (admit_batch c pending).2
    /\ forall i p r, (admit_batch c pending).2 !! i = Some (p, r) ->
         exists a, applied !! i = Some a /\ answered c c' (admit_batch c pending).2 i p a.
Proof.
  intros Hs [Hp Hr]. destruct (admit_batch_spec c pending _ Hp) as (Ha & Hlen & _). unfold flush_commits.
  destruct (admit_batch c pending) as [refused admitted]. cbn [fst snd] in *.
  destruct admitted as [|x xs] eqn:Hadm; [by exists [], c; rewrite app_nil_r|]. rewrite <- Hadm in *. clear Hadm x xs.
  assert (Hps : Forall proposes admitted.*1).
  { apply Forall_fmap. eapply Forall_impl; [exact Ha|]. intros [p r] [[req Hq] _]. by apply (assemble_key req). }
  destruct (apply_batch_run regs l c (committed_entry <$> admitted.*1) Hs) as (c1 & Hb & Hs1 & _ & _).
  { rewrite <- list_fmap_compose. apply Forall_fmap. eapply Forall_impl; [exact Ha|].
    intros [p r] [[req Hq] Hacc]. split; [done|]. by eapply commit_sane. }
  { rewrite !length_fmap. eapply room_le; [exact Hr|lia]. }
  rewrite Hb. destruct (same_log_foldl (settle_commit roles) (cp_mote_id <$> admitted.*1)
                          (settle_commit_same_log roles) c1 _ _ Hs1) as (regs' & _ & [_ Hs2]).
  eexists _, _. split_and!; [done| |].
  { rewrite length_marks, log_append_all_len. by rewrite !length_fmap. }
  destruct (sync_follows _ _ _ Hs) as [Hwf Hk _ Hfo _]. intros i p r Hi.
  destruct (batch_marks admitted.*1 l Hwf Hk Hps i p) as (d & a & H1 & H2 & H3 & H4 & H5 & H6);
    [by rewrite list_lookup_fmap, Hi|].
  exists a. rewrite Hfo. split; [done|].
  destruct (sync_commit_of _ _ _ _ d Hs2 H1 H3) as (ci & Hci & Hseq & Href). exists ci.
  split_and!; [done|congruence| |intros Hn; specialize (H6 Hn); congruence].
  rewrite H5, (sync_committed regs l c _ (sync_follows _ _ _ Hs)). apply and_iff_compat_l. split.
  - intros Hfst k [q r'] Hlt Hk1. apply (Hfst k); [done|]. by rewrite list_lookup_fmap, Hk1.
  - intros Hfst k q Hlt Hk1. rewrite list_lookup_fmap in Hk1. destruct (admitted !! k) as [[q' r']|] eqn:E; [|done].
    injection Hk1 as <-. by apply (Hfst k (q', r')).
Qed.
(** ** Commands on a journal that may refuse
    Whatever is refused, a command returns and leaves the core in step. *)
Definition stays (regs : list RegisterMote) (l : list JournalEntry) (c' : C) : Prop :=
  exists regs' l', in_sync regs' l' c' /\ regs ⊆ regs' /\ grows l l'.
Definition survives {A E} (regs : list RegisterMote) (l : list JournalEntry) (x : outcome A E * C) : Prop :=
  x.1 <> Panic /\ stays regs l x.2.
Lemma stays_refl regs l c : in_sync regs l c -> stays regs l c.
Proof. intros Hs. by exists regs, l. Qed.
Lemma survives_same {A E} regs l c (r : outcome A E) f : in_sync regs l c -> r <> Panic -> survives regs l (r, with_dispatch f c).
Proof. intros Hs Hr. split; [done|]. apply stays_refl. by apply in_sync_dispatch. Qed.
Context `{!JournalTotal J}.
(** Append, fold, and go on. *)
Lemma survives_write {A} regs l c e (k : JournalEntry -> comp C A CoordinatorError) :
  in_sync regs l c -> offerable l e -> room l 1 -> no_round e = true ->
  (forall d c', (k d c').1 <> Panic /\ exists f, (k d c').2 = with_dispatch f c') ->
  survives regs l ((do! d := cmap_err CoordinatorError.Journal (core_append e) in
                    do! _ := cmap_err CoordinatorError.Projection (fold_new d) in k d) c).
Proof.
  intros Hs Ho Hr Hn Hk. unfold cbind, cmap_err. destruct (offer_run regs l c e Hs Ho Hr) as [(j & -> & Hok & Hs')|(x & -> & _)]; cbn [omap_err].
  - rewrite fold_new_run by done. cbn [omap_err]. set (d := (log_append l e).1) in *. destruct (Hk d (advance (with_core_journal j c) d)) as (Hp & f & Hf).
    split; [done|]. rewrite Hf. exists regs, (log_append l e).2. split_and!; [by apply in_sync_dispatch|done|by apply log_append_grows].
  - split; [done|]. by apply stays_refl.
Qed.
Lemma stage_survives regs l c m k : in_sync regs l c -> room l 1 -> survives regs l (stage_effect m k c).
Proof.
  intros Hs Hr. apply survives_write; [done|by apply plain_offered|done|done|]. intros d c'. split; [done|]. exists (fun d => d). by rewrite with_dispatch_id.
Qed.
Lemma register_survives regs l c now nonce fp : in_sync regs l c -> room l 1 -> survives regs l (register_run now nonce fp c).
Proof.
  intros Hs Hr. unfold register_run. destruct (run_registration _); [split; [done|by apply stays_refl]|].
  destruct (negb _); [split; [done|by apply stays_refl]|].
  apply survives_write; [done|by apply plain_offered|done|done|]. intros d c'. split; [done|]. exists (fun d => d). by rewrite with_dispatch_id.
Qed.
(** A detail that fits an entry. *)
Definition detail_fits (d : bytes) : Prop := (length d <= MAX_ENTRY_LEN - HEADER_LEN - FAILED_PREFIX_LEN - 2)%nat.
Lemma failure_survives regs l c m k r w d : in_sync regs l c -> detail_fits d -> room l 1 -> survives regs l (dead_letter_failure m k r w d c).
Proof.
  intros Hs Hd Hr. unfold dead_letter_failure.
  assert (Hgo : forall st, survives regs l
    (if negb (is_held_by (tracker (dispatched c)) m w) then (Err (CoordinatorError.NotLeased m w), c)
     else (do! durable := cmap_err CoordinatorError.Journal (core_append (Failed m k 0 r (worker_reporter_id w) d)) in
           do! _ := cmap_err CoordinatorError.Projection (fold_new durable) in
           fun c => (Ok (entry_seq durable, true), with_dispatch st c)) c)).
  { intros st. destruct (negb _); [split; [done|by apply stays_refl]|]. apply survives_write; [done|by apply plain_offered|done|done|].
    intros x c'. split; [done|]. by exists st. }
  destruct (state_of_id _ _); [apply Hgo|apply Hgo|by apply survives_same..].
Qed.
Lemma approval_survives {E} regs l c i q m st : in_sync regs l c -> room l 1 ->
  exists c', append_approval (E := E) i q m st c = (Ok tt, c') /\ stays regs l c'.
Proof.
  intros Hs Hr. unfold append_approval. set (e := Approval i q m st 0).
  destruct (offer_run regs l c e Hs) as [(j & -> & Hok & Hs')|(x & -> & _)]; [by apply plain_offered|done| |].
  - rewrite fold_quietly_run by done. eexists. split; [done|]. exists regs, (log_append l e).2. split_and!; [done|done|by apply log_append_grows].
  - eexists. split; [done|]. by apply stays_refl.
Qed.
Lemma decide_survives {E} regs l c now q g o r : in_sync regs l c -> room l 1 -> survives regs l (decide_approval (E := E) now q g o r c).
Proof.
  intros Hs Hr. unfold decide_approval. destruct (approval_latest_for _ _) as [a|]; [|split; [done|by apply stays_refl]].
  destruct (ApprovalRecord.state a); try (split; [done|by apply stays_refl]). unfold cbind.
  match goal with |- context [append_approval ?i ?q ?m ?st] =>
    destruct (approval_survives (E := E) regs l c i q m st Hs Hr) as (c' & -> & Hk) end. by split.
Qed.
Lemma reap_workers_survives {E} regs now registry l c : in_sync regs l c -> room l (outstanding c.(dispatched).(tracker)) ->
  exists l' c', reap_dead_workers (E := E) now registry c = (Ok tt, c') /\ in_sync regs l' c' /\ grows l l'.
Proof.
  intros Hs Hr. apply reap_workers_run; [done| |done]. intros w m _ l0 c0 Hs0 Hr0. apply offer_run; [done|apply plain_offered; [cbn; lia|done..]|done].
Qed.
Lemma batch_offer regs l c es : in_sync regs l c -> Forall entry_readable es -> room l (length es) ->
  (exists j, core_append_batch es c = (Ok (log_append_all l es).1, with_core_journal j c) /\ represents j (log_append_all l es).2)
  \/ exists x, core_append_batch es c = (Err x, c).
Proof.
  intros Hs Hrd Hr. unfold core_append_batch, czoom, cstep.
  destruct (append_batch_total (core_journal c) l es (sync_represents _ _ _ Hs) Hrd Hr) as [(j & -> & Hrep)|(x & ->)]; [left; by exists j|right].
  exists x. by destruct c.
Qed.
Lemma cascade_readable s t r b ceiling es : cascade_repudiation_entries s t r b ceiling = Ok es -> Forall entry_readable es.
Proof. intros He. apply Forall_forall. intros e Hin. by destruct (cascade_entry _ _ _ _ _ _ _ He Hin) as (d & n & reason & by_ & -> & _). Qed.
Lemma repudiate_survives regs l c t r b : in_sync regs l c ->
  (forall es, cascade_repudiation_entries c.(projection) t r b DEFAULT_CASCADE_CEILING = Ok es -> room l (length es)) ->
  survives regs l (repudiate_cascade t r b c).
Proof.
  intros Hs Hr. unfold repudiate_cascade, cbind, cask, cmap_err.
  pose proof (cascade_no_panic (projection c) t r b DEFAULT_CASCADE_CEILING (sync_index_ok _ _ _ Hs)) as Hnp.
  destruct (cascade_repudiation_entries _ _ _ _ _) as [es|e|] eqn:He; [|split; [done|by apply stays_refl]|done].
  pose proof (cascade_sane _ _ _ _ _ _ _ Hs He) as Hw.
  destruct (batch_offer regs l c es Hs (cascade_readable _ _ _ _ _ _ He) (Hr es eq_refl)) as [(j & -> & Hrep)|(x & ->)]; cbn [omap_err];
    [|split; [done|by apply stays_refl]].
  destruct (batch_follows regs es l _ (follows_journal _ _ _ j (sync_follows _ _ _ Hs)) Hw) as [Hf' ->]. cbn [omap_err]. split; [done|].
  exists regs, (log_append_all l es).2. split_and!; [|done|].
  - split; [|done]. by destruct (advance_side (log_append_all l es).1 (with_core_journal j c)) as (E & _); cbn; rewrite E.
  - apply log_append_all_grows, Forall_forall. intros e Hin. by destruct (cascade_entry _ _ _ _ _ _ _ He Hin) as (? & ? & ? & ? & -> & _).
Qed.
Lemma collect_ok_forall {A B E} (f : A -> outcome B E) (P : B -> Prop) xs : (forall x y, f x = Ok y -> P y) ->
  forall ys, collect_ok f xs = Ok ys -> Forall P ys.
Proof.
  intros Hf. induction xs as [|x xs IH]; cbn [collect_ok]; [by intros ys [= <-]|].
  intros ys (y & Hy & (zs & Hzs & [= <-])%obind_ok_inv)%obind_ok_inv. constructor; [by eapply Hf|by apply IH].
Qed.
Lemma from_parent_ref_legal pr : parent_legal (ParentEntry.from_parent_ref pr).
Proof. destruct pr as [id [[] []]]; split; vm_compute; congruence. Qed.
Lemma commit_readable req p : assemble req = Ok p -> entry_readable (committed_entry p).
Proof.
  unfold assemble. intros H. ok_inv. case_bool_decide as Hk; [|done]. cbn [negb] in H. ok_inv.
  repeat case_match; try done. injection H as <-. cbn [committed_entry entry_readable cp_parents].
  match goal with H : omap_err _ (collect_ok _ _) = Ok _ |- _ => rename H into Hc end.
  destruct (collect_ok _ _) as [ps|?|] eqn:Hps; [|done..]. injection Hc as <-. eapply collect_ok_forall; [|exact Hps].
  intros x y (pr & _ & [= <-])%obind_ok_inv. apply from_parent_ref_legal.
Qed.
(** What a commit that arrived may be answered: a seq is that of its Mote's commit. *)
Definition commit_answer (l : list JournalEntry) (p : CommitProposal) (r : outcome CommitApplied CoordinatorError) : Prop :=
  r <> Panic /\ forall a, r = Ok a -> exists x, x ∈ l /\ is_committed_of (cp_mote_id p) x = true /\ entry_seq x = committed_seq a.
Lemma admitted_answers l (c : C) batch : forall ans,
  Forall2 (fun q r => commit_answer l q.1 r) (admit_batch c batch).2 ans ->
  exists rs, rs ≡ₚ (admit_batch c batch).1 ++ zip (admit_batch c batch).2.*2 ans
    /\ Forall2 (fun q r => r.1 = q.2 /\ commit_answer l q.1 r.2) batch rs.
Proof.
  induction batch as [|[p r] batch IH]; intros ans Ha; [by exists []|]. cbn [admit_batch] in *. destruct (admit_batch c batch) as [refused admitted].
  cbn [fst snd] in *. destruct (refusal c p) as [e|]; cbn [fst snd] in *.
  - destruct (IH ans Ha) as (rs & Hp & Hf). exists ((r, Err e) :: rs). split; [by apply perm_skip|by constructor].
  - inversion Ha as [|? a ? ans' H1 H2]; subst. destruct (IH ans' H2) as (rs & Hp & Hf). exists ((r, a) :: rs).
    split; [|by constructor]. etrans; [apply perm_skip, Hp|apply Permutation_middle].
Qed.
(** A group commit answers every proposal, and with a seq only one that is committed. *)
Lemma flush_runs {E} regs l c roles pending : in_sync regs l c -> Forall (fun p => exists req, assemble req = Ok p.1) pending ->
  room l (length pending) ->
  exists rs c' regs' l', flush_commits (E := E) roles pending c = (Ok rs, c') /\ in_sync regs' l' c' /\ regs ⊆ regs' /\ grows l l'
    /\ exists rs', rs' ≡ₚ rs /\ Forall2 (fun q r => r.1 = q.2 /\ commit_answer l' q.1 r.2) pending rs'.
Proof.
  intros Hs Hp Hr. unfold flush_commits. destruct (admit_batch_spec c pending _ Hp) as (Ha & Hlen & _).
  pose proof (fun l' => admitted_answers l' c pending) as Hans. destruct (admit_batch c pending) as [refused admitted]. cbn [fst snd] in *.
  destruct admitted as [|x xs] eqn:Hadm.
  { exists refused, c, regs, l. split_and!; try done. destruct (Hans l []) as (rs & Hrs & Hf); [constructor|]. rewrite app_nil_r in Hrs. by exists rs. }
  rewrite <- Hadm in *. clear Hadm x xs. set (es := committed_entry <$> admitted.*1).
  assert (Hsane : Forall (sane l) es).
  { unfold es. rewrite <- list_fmap_compose. apply Forall_fmap. eapply Forall_impl; [exact Ha|]. intros [p r] [req Hq]. by eapply commit_sane. }
  destruct (batch_offer regs l c es Hs) as [(j & Hj & Hrep)|(x & Hx)].
  - unfold es. rewrite <- list_fmap_compose. apply Forall_fmap. eapply Forall_impl; [exact Ha|]. intros [p r] [req Hq]. by eapply commit_readable.
  - unfold es. rewrite !length_fmap. eapply room_le; [exact Hr|lia].
  - destruct (applied_batch regs l c es j Hs Hsane Hj Hrep) as (c1 & -> & Hs1 & _ & _).
    destruct (same_log_foldl (settle_commit roles) (cp_mote_id <$> admitted.*1) (settle_commit_same_log roles) c1 _ _ Hs1) as (regs' & Hsub & Hs2).
    eexists _, _, regs', (log_append_all l es).2. split_and!; [done|done|done|apply log_append_all_grows; by apply Forall_fmap, Forall_true|].
    apply Hans. destruct (sync_follows _ _ _ Hs) as [Hwf Hk _ Hfo _]. rewrite Hfo. apply Forall2_fmap_r, Forall2_same_length_lookup_2.
    { rewrite length_marks, log_append_all_len. unfold es. by rewrite !length_fmap. }
    intros i [p r] a Hi Hai. split; [done|]. intros ? [= <-].
    assert (Hps : Forall proposes admitted.*1) by (apply Forall_fmap; eapply Forall_impl; [exact Ha|]; intros [? ?] [req Hq]; by apply (assemble_key req)).
    destruct (batch_marks admitted.*1 l Hwf Hk Hps i p) as (d & a' & H1 & H2 & H3 & H4 & _); [by rewrite list_lookup_fmap, Hi|].
    exists d. split_and!; [done|done|]. fold es in H2. rewrite Hai in H2. injection H2 as <-. congruence.
  - unfold apply_batch, cbind, cmap_err. rewrite Hx. cbn [omap_err]. eexists _, c, regs, l. split_and!; try done.
    destruct (Hans l ((fun _ => Err (CoordinatorError.CommitFailed (FaultJournal x))) <$> admitted)) as (rs & Hrs & Hf).
    { apply Forall2_fmap_r, Forall_Forall2_diag, Forall_true. intros q. by split. }
    exists rs. split; [|done]. rewrite Hrs. f_equiv. clear. induction admitted as [|[p r] admitted IH]; [done|]. cbn. by rewrite IH.
Qed.
End Sync.
