(* ===== verification/Cascade.v ===== *)
(** What the coordinator's repudiation and approval handlers do to the run: the
    cascade reaches every committed consumer and nothing else, and an approval is
    decided once. *)
From S2P Require Import Prelude Effects Utf8 CriticTypes Mote Entry Journal Warrant Content DemoCodec ProjState ProjIndex ProjFold ProjHistory ProjQuery Materializer Scheduler Checkpoint Recovery ExactlyOnce Wire Workers Coordinator CoordSync.
Import JournalEntry.

(** ** A named repudiation holds *)
Lemma named_prefix l k : repudiations_named (l ++ k) -> repudiations_named l.
Proof.
  intros Hn i t key seq n reason by_ Hi.
  destruct (Hn i t key seq n reason by_) as (j & e & Hj & He & Hc); [by apply lookup_app_l_Some|].
  exists j, e. split_and!; try apply Hc; [done|]. apply lookup_app_Some in He as [He|[Hle _]]; [done|].
  apply lookup_lt_Some in Hi. lia.
Qed.
Lemma live_named_commit regs l s i t key seq n reason by_ :
  live None regs l s -> repudiations_named l -> l !! i = Some (Repudiated t key seq n reason by_) ->
  is_Some (committed (mote_info s t)).
Proof.
  intros Hl Hn Hi. destruct (Hn _ _ _ _ _ _ _ Hi) as (j & e & _ & He & Hc & _).
  apply (live_flags regs l s t Hl). apply existsb_exists. exists e.
  split; [by eapply list_elem_of_In, list_elem_of_lookup_2|done].
Qed.
Lemma live_repudiated regs l s d ci i key seq reason by_ :
  live None regs l s -> log_wf l -> keyed l -> repudiations_named l ->
  l !! i = Some (Repudiated d key seq ci.(CommittedInfo.seq) reason by_) ->
  committed (mote_info s d) = Some ci -> ci.(CommittedInfo.repudiated) = true.
Proof.
  intros Hl. revert i ci. induction Hl as [|l e s s' prev Hl IH Hf|l r s _ _ IH]; intros i ci Hwf Hk Hn Hi Hc; [done| |].
  - pose proof (named_prefix _ _ Hn) as Hn'. pose proof (keyed_app _ _ Hk) as Hk'.
    apply lookup_app_Some in Hi as [Hi|[Hle Hi]].
    + destruct (live_named_commit _ _ _ _ _ _ _ _ _ _ Hl Hn' Hi) as [ci0 Hc0].
      destruct (fold_keeps_commit e s d s' prev ci0 Hf Hc0) as (ci' & Hc' & Hseq & _ & Hrep).
      rewrite Hc in Hc'. injection Hc' as <-. apply Hrep. apply (IH i ci0); [|done|done|by rewrite <- Hseq|done].
      destruct Hwf as [Hcon Hu]. split; [by eapply contiguous_prefix|].
      intros a b x y Ha Hb. apply Hu; by apply lookup_app_l_Some.
    + apply list_lookup_singleton_Some in Hi as [Hi0 ->].
      destruct (Hn (length l) d key seq (CommittedInfo.seq ci) reason by_) as (j & x & Hj & Hx & Hcx & Hsx).
      { by rewrite lookup_app_r, Nat.sub_diag by lia. }
      rewrite lookup_app_l in Hx by done.
      assert (is_Some (committed (mote_info s d))) as [ci0 Hc0].
      { apply (live_flags regs l s d Hl), existsb_exists. exists x.
        split; [by eapply list_elem_of_In, list_elem_of_lookup_2|done]. }
      cbn [fold] in Hf. injection Hf as <- _.
      change (mote_info (bump_seq ?n ?s0) d) with (mote_info s0 d) in Hc.
      rewrite mote_info_mut, decide_True in Hc by done. unfold fold_repudiated in Hc. rewrite Hc0 in Hc.
      destruct (Z.eqb_spec (CommittedInfo.seq ci0) (CommittedInfo.seq ci)) as [|Hne]; cbn in Hc;
        [by injection Hc as <-|]. congruence.
  - destruct (register_flags r s d) as (_ & Hr & _). eapply IH; try done. congruence.
Qed.
(** A repudiation that names a commit never makes its Mote inconsistent. *)
Lemma live_consistent regs l s d :
  live None regs l s -> repudiations_named l -> inconsistent (mote_info s d) = false.
Proof.
  induction 1 as [|l e s s' prev Hl IH Hf|l r s _ _ IH]; intros Hn.
  - unfold mote_info. cbn. by rewrite lookup_empty.
  - pose proof (fold_flags None e s d) as Hfl. rewrite Hf in Hfl. destruct (Hfl eq_refl) as [_ _ _ Hi].
    cbn [fst] in Hi. rewrite Hi, IH by (by eapply named_prefix). cbn [orb].
    destruct (is_repudiated_entry d e) eqn:Hr; [|done]. destruct e; try done. cbn in Hr. apply bool_decide_eq_true in Hr. subst.
    destruct (Hn (length l) d idempotency_key seq target_committed_seq reason_class repudiator_id)
      as (j & x & Hj & Hx & Hcx & _).
    { by rewrite lookup_app_r, Nat.sub_diag by lia. }
    rewrite lookup_app_l in Hx by done. rewrite (bool_decide_true _); [by rewrite andb_false_r|].
    apply (live_flags regs l s d Hl), existsb_exists. exists x.
    split; [by eapply list_elem_of_In, list_elem_of_lookup_2|done].
  - destruct (register_flags r s d) as (_ & _ & _ & ->). by apply IH.
Qed.

Section Cascade.
Context `{HB : Blake3} `{!Bincode MoteDef} `{!Bincode WarrantSpec} `{!Bincode TopologyDecision}.
Context {J S : Type} `{!Journal J} `{!JournalLaws J} `{!ContentStore S}.
Abbreviation C := (Core J S).

(** The repudiation keys of a log do not collide. *)
Definition keys_distinct (l : list JournalEntry) : Prop :=
  forall t k s n r b t' k' s' n' r' b',
    Repudiated t k s n r b ∈ l -> Repudiated t' k' s' n' r' b' ∈ l -> k = k' -> t = t' /\ n = n'.
(** A batch entry is in the log afterwards, under its key. *)
Lemma append_all_holds es : forall l d n reason by_,
  repudiated_entry d n reason by_ ∈ es ->
  exists t k s m r b, Repudiated t k s m r b ∈ (log_append_all l es).2 /\ k = repudiation_idempotency_key d n.
Proof.
  induction es as [|e es IH]; intros l d n reason by_ He; [set_solver|]. cbn [log_append_all].
  pose proof (log_append_in l e) as Hin. pose proof (log_append_cases l e) as Hcases.
  destruct (log_append l e) as [x l'] eqn:Hx. specialize (IH l').
  pose proof (log_append_all_prefix es l') as [l3 Hl3]. destruct (log_append_all l' es) as [ds l''] eqn:Hds.
  cbn [fst snd] in *. apply elem_of_cons in He as [<-|He]; [|by eapply IH].
  assert (entry_kind x = KIND_REPUDIATED /\ entry_idempotency_key x = repudiation_idempotency_key d n) as [Hk Hkey].
  { unfold log_append in Hx. destruct (existing_fact l _) as [y|] eqn:Hy; injection Hx as <- _; [|done].
    apply existing_fact_some in Hy as (_ & _ & Hk & Hkey). by rewrite Hk, Hkey. }
  destruct x; try done. eexists _, _, _, _, _, _. split; [|exact Hkey]. rewrite Hl3. apply elem_of_app. left. exact Hin.
Qed.
Lemma append_all_named es : forall l x,
  x ∈ (log_append_all l es).2 -> x ∈ l \/ exists e n, e ∈ es /\ x = set_seq (derive_key e) n.
Proof.
  induction es as [|e es IH]; intros l x; [by left|]. cbn [log_append_all].
  pose proof (log_append_cases l e) as Hcases.
  destruct (log_append l e) as [y l'] eqn:Hy. specialize (IH l' x). destruct (log_append_all l' es) as [ds l''].
  cbn [fst snd] in *. intros [Hx|(e' & n & He' & ->)]%IH; [|right; exists e', n; split; [set_solver|done]].
  destruct Hcases as [[_ ->]|(_ & H1 & H2)]; [by left|]. rewrite H2 in Hx.
  apply elem_of_app in Hx as [Hx| ->%list_elem_of_singleton]; [by left|]. right. eexists e, _. split; [set_solver|done].
Qed.
(** Folding repudiations of other Motes changes nothing of [d]. *)
Lemma batch_unaffected regs d es : forall l (c : C),
  follows regs l c -> Forall (sane l) es ->
  (forall e, e ∈ es -> exists t n r b, e = repudiated_entry t n r b /\ t <> d) ->
  mote_info (projection (foldl advance c (log_append_all l es).1)) d = mote_info (projection c) d.
Proof.
  induction es as [|e es IH]; intros l c Hf Hw Hne; [done|]. cbn [log_append_all].
  apply Forall_cons in Hw as [He Hes]. destruct (advance_follows _ _ _ e Hf He) as [Hf' _].
  pose proof (log_append_prefix l e) as Hp. pose proof (log_append_cases l e) as Hcases.
  destruct (log_append l e) as [x l'] eqn:Hx. cbn [fst snd] in *.
  specialize (IH l' (advance c x) Hf'). destruct (log_append_all l' es) as [ds l'']. cbn [fst snd foldl] in *.
  rewrite IH; [|by eapply Forall_impl; [|intros y; by apply sane_mono]|set_solver]. unfold advance.
  destruct (Z.ltb_spec (folded_through c) (entry_seq x)) as [Hlt|Hle]; [|done]. cbn [projection].
  destruct Hcases as [[Hin _]|(_ & -> & _)].
  - pose proof (contiguous_seq_le l x (proj1 (fo_wf _ _ _ Hf)) Hin). rewrite (fo_folded _ _ _ Hf) in Hlt. lia.
  - destruct (Hne e) as (t & n & r & b & -> & Htd); [set_solver|]. cbn [derive_key repudiated_entry set_seq fold fst].
    change (mote_info (bump_seq ?n ?s0) d) with (mote_info s0 d). rewrite mote_info_mut. by rewrite decide_False.
Qed.
(** The Motes that a repudiation of [t] reaches. *)
Definition downstream (s : State) (t d : MoteId) : Prop :=
  d = t \/ tc (fun p c => exists e, (p, e) ∈ parents_of_id s c /\ should_walk e = true) t d.
Lemma cascade_entries_spec s t r b ceiling es :
  index_ok s -> cascade_repudiation_entries s t r b ceiling = Ok es ->
  (length es <= ceiling)%nat
  /\ (forall d n, downstream s t d -> committed_seq_of s d = Some n ->
        exists reason by_, repudiated_entry d n reason by_ ∈ es)
  /\ forall e, e ∈ es -> exists d n reason by_, e = repudiated_entry d n reason by_ /\ downstream s t d /\ is_Some (committed_seq_of s d).
Proof.
  intros Hi He. unfold cascade_repudiation_entries in He. destruct (committed_seq_of s t) as [tn|] eqn:Ht; [|done].
  destruct (consumers_of_index s t Hi) as (res & Hres & _ & Hel). rewrite Hres in He.
  destruct (Nat.ltb_spec ceiling (1 + length (omap (with_seq s) res))) as [|Hle]; [done|]. injection He as <-.
  split_and!.
  - cbn [length]. rewrite length_fmap. done.
  - intros d n [->|Htc] Hn; [rewrite Ht in Hn; injection Hn as <-; eexists _, _; by left|].
    eexists _, _. right. apply list_elem_of_fmap. exists (d, n). split; [done|]. apply list_elem_of_omap.
    exists d. split; [by apply Hel|]. unfold with_seq. by rewrite Hn.
  - intros e [->|([d n] & -> & (x & Hx & Hw)%list_elem_of_omap)%list_elem_of_fmap]%elem_of_cons.
    + eexists _, _, _, _. split_and!; [done|by left|by rewrite Ht].
    + unfold with_seq in Hw. destruct (committed_seq_of s x) eqn:Hx'; [|done]. cbn in Hw. simplify_eq.
      eexists _, _, _, _. split_and!; [done|right; by apply Hel|by rewrite Hx'].
Qed.

(** After the batch, the Mote of each of its entries is repudiated. *)
Lemma repudiated_by_log regs l (c' : C) es d n reason by_ :
  in_sync regs (log_append_all l es).2 c' -> keys_distinct (l ++ es) ->
  (forall e, e ∈ es -> exists d n reason by_, e = repudiated_entry d n reason by_) ->
  repudiated_entry d n reason by_ ∈ es ->
  (exists x, x ∈ (log_append_all l es).2 /\ is_committed_of d x = true /\ entry_seq x = n) ->
  state_of_id c'.(projection) d = MoteState.Repudiated.
Proof.
  intros [_ Hf] Hkd Hes Hin (x & Hx & Hcx & Hsx).
  destruct (sync_commit_of _ _ _ d x Hf Hx Hcx) as (ci & Hci & Hseq & _).
  destruct (append_all_holds es l d n reason by_ Hin) as (t & k & q & m & r & b & Hl & Hk).
  assert (t = d /\ m = n) as [-> ->].
  { assert (Hnew : repudiated_entry d n reason by_ ∈ l ++ es) by set_solver.
    destruct (append_all_named es l _ Hl) as [Hold|(e & q' & He & Heq)].
    - eapply (Hkd _ k); [apply elem_of_app; left; exact Hold|exact Hnew|exact Hk].
    - destruct (Hes e He) as (d' & n' & r' & b' & ->). cbn in Heq. injection Heq as -> Hk' _ -> _ _.
      eapply (Hkd d'); [apply elem_of_app; right; exact He|exact Hnew|congruence]. }
  destruct Hf as [Hwf Hkey Hnm _ Hl']. pose proof (list_elem_of_lookup_1 _ _ Hl) as [i Hi].
  rewrite state_of_mote_info. unfold info_state. rewrite (live_consistent _ _ _ d Hl' Hnm), Hci.
  rewrite <- Hsx, <- Hseq in Hi. by rewrite (live_repudiated _ _ _ _ _ _ _ _ _ _ Hl' Hwf Hkey Hnm Hi Hci).
Qed.

(** [C29] Poison cascade, end to end: repudiating a committed Mote whose reach is
    within the ceiling, on a journal that takes the batch, writes one batch and
    answers its size; afterwards the target and every committed Mote that depends
    on it through cascading edges is repudiated, and every other Mote, the
    uncommitted ones among its consumers too, is exactly as it was. The keys of
    the repudiations are assumed not to collide (they are digests). *)
Theorem cascade_reaches_all regs l (c : C) t r b es :
  in_sync regs l c -> permitted l c (CmdRepudiate t r b) ->
  cascade_repudiation_entries c.(projection) t r b DEFAULT_CASCADE_CEILING = Ok es -> keys_distinct (l ++ es) ->
  exists c', repudiate_cascade t r b c = (Ok {| ro_target := t; ro_cascade_size := (length es - 1)%nat |}, c')
    /\ (forall d, downstream c.(projection) t d -> is_Some (committed_seq_of c.(projection) d) ->
          state_of_id c'.(projection) d = MoteState.Repudiated)
    /\ (forall d, ~ (downstream c.(projection) t d /\ is_Some (committed_seq_of c.(projection) d)) ->
          mote_info c'.(projection) d = mote_info c.(projection) d).
Proof.
  intros Hs Hp He Hkd. destruct (Hp es He) as [Ha Hr].
  destruct (repudiate_run regs l c t r b es Hs He Ha Hr) as (j & Hrun & Hs').
  pose proof (cascade_sane _ _ _ _ _ _ _ Hs He) as Hw.
  destruct (cascade_entries_spec _ _ _ _ _ _ (sync_index_ok _ _ _ Hs) He) as (_ & Hall & Honly).
  pose proof (follows_journal _ _ _ j (sync_follows _ _ _ Hs)) as Hf.
  eexists. split_and!; [exact Hrun| |].
  - intros d Hd [n Hn]. destruct (Hall d n Hd Hn) as (reason & by_ & Hin).
    eapply repudiated_by_log; [apply Hs'|exact Hkd| |exact Hin|].
    { intros e (d' & n' & r' & b' & -> & _)%Honly. eauto. }
    apply committed_seq_info in Hn as (ci & Hci & <-).
    destruct (live_commit_entry _ _ _ _ _ (fo_live _ _ _ (sync_follows _ _ _ Hs)) Hci) as (x & Hx & Hcx & Hsx & _).
    exists x. split_and!; [|done|done]. destruct (log_append_all_prefix es l) as [k ->]. set_solver.
  - intros d Hd. rewrite (batch_unaffected regs d es l (with_core_journal j c)); [done|done|done|].
    intros e Hin. destruct (Honly e Hin) as (t' & n & r' & b' & -> & Hdn). eexists _, _, _, _. split; [done|].
    by intros ->.
Qed.

(** ** The approval handshake *)
Lemma latest_after_approval i q m st n s :
  approval_latest_for (fold None (Approval i q m st n) s).1 q
  = Some {| ApprovalRecord.instance_id := i; ApprovalRecord.request_id := q;
            ApprovalRecord.awaiting_mote_id := m; ApprovalRecord.state := st; ApprovalRecord.seq := n |}.
Proof.
  cbn [fold fst fold_run_metadata fold_react_metadata]. unfold index_last_approval. cbn [approvals with_approvals].
  rewrite last_snoc. unfold approval_latest_for. cbn [approval_index bump_seq with_approvals approvals].
  rewrite lookup_insert_eq, length_app. cbn [length ApprovalRecord.request_id].
  by rewrite Nat.add_sub, lookup_snoc.
Qed.
(** Recording a step of a handshake. *)
Lemma append_approval_run {E} regs l (c : C) i q m st n :
  in_sync regs l c -> accepts (Approval i q m st 0) -> room l (Datatypes.S n) ->
  exists c' l', append_approval (E := E) i q m st c = (Ok tt, c') /\ in_sync regs l' c' /\ room l' n
    /\ exists k, approval_latest_for c'.(projection) q
         = Some {| ApprovalRecord.instance_id := i; ApprovalRecord.request_id := q;
                   ApprovalRecord.awaiting_mote_id := m; ApprovalRecord.state := st; ApprovalRecord.seq := k |}.
Proof.
  intros Hs Ha Hr. destruct (write_run regs l c (Approval i q m st 0) Hs) as (j & Hj & Hok & Hs');
    [by apply writable_plain|eapply room_le; [done|lia]|].
  eexists _, _. unfold append_approval. rewrite Hj. split_and!; [by apply fold_quietly_run|done|by apply log_append_room|].
  exists (Z.of_nat (length l) + 1).
  change (log_append l (Approval i q m st 0)).1 with (Approval i q m st (Z.of_nat (length l) + 1)).
  unfold advance. cbn [projection with_core_journal entry_seq folded_through]. rewrite (fo_folded _ _ _ (sync_follows _ _ _ Hs)).
  rewrite (proj2 (Z.ltb_lt _ _)) by lia. apply latest_after_approval.
Qed.
(** An approval is asked once and decided once: the first encounter of a
    gated action records the request and waits, a second encounter records
    nothing; an operator's first decision is recorded and settles the gate, and
    any later decision is refused and leaves the coordinator as it was. *)
Theorem approval_decided_once regs l (c : C) now inst obs tool ver now' grant who why :
  let q := approval_request_id inst obs in
  let gate (c : C) := approval_gate_decision (E := unit) now inst obs tool ver c in
  in_sync regs l c -> room l 2 -> approval_latest_for c.(projection) q = None ->
  accepts (Approval inst q obs (requested now tool ver) 0) ->
  accepts (Approval inst q obs (decision now' grant who why) 0) ->
  exists c1 c2, gate c = (Ok Wait, c1) /\ gate c1 = (Ok Wait, c1)
    /\ decide_approval (E := unit) now' q grant who why c1 = (Ok true, c2)
    /\ gate c2 = (Ok (if grant then Proceed else DeadLetter), c2)
    /\ forall now'' grant' who' why', decide_approval (E := unit) now'' q grant' who' why' c2 = (Ok false, c2).
Proof.
  intros q gate Hs Hr Hnone Ha1 Ha2.
  destruct (append_approval_run (E := unit) regs l c inst q obs (requested now tool ver) 1 Hs Ha1 Hr)
    as (c1 & l1 & H1 & Hs1 & Hr1 & k1 & Hq1).
  destruct (append_approval_run (E := unit) regs l1 c1 inst q obs (decision now' grant who why) 0 Hs1 Ha2 Hr1)
    as (c2 & l2 & H2 & Hs2 & _ & k2 & Hq2).
  assert (G1 : gate c = (Ok Wait, c1)).
  { unfold gate, approval_gate_decision. fold q. rewrite Hnone. cbn [fmap option_fmap option_map].
    unfold cbind. fold (requested now tool ver). by rewrite H1. }
  assert (G2 : gate c1 = (Ok Wait, c1)) by (unfold gate, approval_gate_decision; fold q; by rewrite Hq1).
  assert (G3 : decide_approval (E := unit) now' q grant who why c1 = (Ok true, c2)).
  { unfold decide_approval. rewrite Hq1. cbv zeta.
    cbn [ApprovalRecord.state ApprovalRecord.instance_id ApprovalRecord.awaiting_mote_id requested].
    fold (decision now' grant who why). unfold cbind. by rewrite H2. }
  exists c1, c2. split_and!; [done..| |].
  - unfold gate, approval_gate_decision. fold q. rewrite Hq2. unfold decision. by destruct grant.
  - intros. unfold decide_approval. rewrite Hq2. unfold decision. by destruct grant.
Qed.
End Cascade.

(** ** A shaper's children, derived twice *)
Section Shapers.
Context `{HB : Blake3} `{!Bincode MoteDef} `{!Bincode WarrantSpec} `{!Bincode TopologyDecision}.
Context {S : Type} `{!ContentStore S} (store : S) (roles : bytes -> option Role).
Context (decode_text : bytes -> bytes) (narrowing_text : NarrowingError -> bytes).

(** What a worker is handed agrees with what the projection registers. *)
Definition dispatchable (w : WarrantSpec) (c : ShaperChild) : Prop :=
  c.(sc_mote).(Mote.mote_id) = c.(sc_register).(RegisterMote.mote_id)
  /\ c.(sc_register).(RegisterMote.warrant_ref) = Warrant.warrant_ref_of c.(sc_warrant)
  /\ c.(sc_mote).(Mote.parents) = c.(sc_register).(RegisterMote.parents)
  /\ warrant_le c.(sc_warrant) w.
Lemma derive_children_agree id d rr w ds : forall index,
  match derive_children roles id d rr w index ds with
  | Ok cs => materialize_children roles InheritFromShaperResolver narrowing_text id d rr w index ds
             = Ok (sc_register <$> cs) /\ Forall (dispatchable w) cs
  | Err _ => exists e, materialize_children roles InheritFromShaperResolver narrowing_text id d rr w index ds = Err e
  | Panic => False
  end.
Proof.
  induction ds as [|x ds IH]; intros index; cbn [derive_children materialize_children]; [done|].
  destruct (roles (role_id x)) as [role|]; cbn [ok_or obind]; [|by eexists].
  destruct (intersect w role) as [cw|e|] eqn:Hcw; cbn [omap_err obind]; [|by eexists|].
  - specialize (IH (Datatypes.S index)). destruct (derive_children _ _ _ _ _ _ ds) as [cs|e|]; cbn [obind]; [|..|done].
    + destruct IH as [-> Hall]. cbn [obind]. split; [done|]. constructor; [|done].
      split_and!; try done. by eapply intersect_le.
    + destruct IH as [e' ->]. by exists e'.
  - unfold intersect in Hcw. repeat case_match; discriminate Hcw.
Qed.

(** One derivation in two places: the children the coordinator dispatches
    for a committed shaper are exactly the ones the projection's materializer
    registers from the same decision (same identities, edges, classes and
    warrant references, in order, and failing together), each with a Mote and a
    narrowed warrant that match its registration. *)
Theorem shaper_children_agree defs dh id d rr wr wp w :
  defs dh = Some d -> get store wr = Some wp -> decode_warrant wp = Some w ->
  let materialized := try_materialize store defs roles InheritFromShaperResolver decode_text narrowing_text id dh rr wr in
  match derive_shaper_children store roles id d rr w with
  | Ok cs => materialized = Ok (if d.(Mote.is_topology_shaper) then Some (sc_register <$> cs) else None)
             /\ Forall (dispatchable w) cs
  | Err _ => exists e, materialized = Err e
  | Panic => False
  end.
Proof.
  intros Hd Hwp Hw materialized. unfold derive_shaper_children, materialized, try_materialize. rewrite Hd, Hwp. cbn [ok_or].
  destruct (Mote.is_topology_shaper d); cbn [negb]; [|done].
  destruct (get store rr) as [payload|]; cbn [ok_or obind]; [|by eexists].
  destruct (TopologyDecision_decode payload) as [decision|]; cbn [ok_or obind]; [|by eexists].
  rewrite Hw. cbn [ok_or obind]. pose proof (derive_children_agree id d rr w (Mote.children decision) 0) as H0.
  destruct (derive_children _ _ _ _ _ _ _) as [cs|e|]; [|..|done].
  - destruct H0 as [-> Hall]. done.
  - destruct H0 as [e' ->]. by eexists.
Qed.
End Shapers.

(** ** A concrete coordinator *)
#[local] Existing Instance demo_blake3.
#[local] Existing Instance demo_bincode.
Definition Demo : Type := Core InMemoryJournal InMemoryContentStore.
Definition demo_id (n : Z) : MoteId := replicate 32 n.
(** The first commits, the second consumes it. *)
Definition demo_request (n parent : Z) : ReportCommitRequest := {|
  rq_mote_id := demo_id n; rq_idempotency_key := demo_id n; rq_result_ref := replicate 32 (n + 100);
  rq_warrant_ref := replicate 32 8; rq_mote_def_hash := replicate 32 9; rq_nd_class := 1;
  rq_parents := [{| wire_parent_id := demo_id parent; wire_edge_kind := 1; wire_non_cascade := false |}] |}.
Definition demo_proposal (n parent : Z) : CommitProposal := {|
  cp_mote_id := demo_id n; cp_idempotency_key := demo_id n; cp_result_ref := replicate 32 (n + 100);
  cp_warrant_ref := replicate 32 8; cp_mote_def_hash := replicate 32 9; cp_nd_class := Pure;
  cp_parents := [ParentEntry.from_parent_ref {| parent_id := demo_id parent; edge := EdgeMeta_data |}] |}.
Lemma demo_assembled : Forall (fun '(n, parent) => assemble (demo_request n parent) = Ok (demo_proposal n parent))
  [(1, 5); (2, 1); (1, 7); (3, 1)].
Proof. repeat constructor. Qed.
Definition demo_core : Demo := {|
  core_journal := InMemoryJournal_new; core_store := None; projection := State_default; folded_through := 0;
  dispatched := {| submitted := {[demo_id 1; demo_id 2]}; defs := ∅; tracker := LeaseTracker_default;
                   parked_launches := ∅; parked_waits := ∅; armed_timers := ∅;
                   parked_policied := ∅; parked_guards := ∅ |} |}.
Lemma demo_core_sync : in_sync [] [] demo_core.
Proof.
  split; [apply mem_represents_new|]. split; [apply log_wf_nil|apply keyed_nil|by intros i|done|constructor].
Qed.
Definition demo_pending : list (CommitProposal * nat) :=
  [(demo_proposal 1 5, 0%nat); (demo_proposal 2 1, 1%nat); (demo_proposal 1 7, 2%nat); (demo_proposal 3 1, 3%nat)].
Lemma demo_flush_permitted : permitted [] demo_core (CmdFlush None demo_pending).
Proof.
  split; [|done]. pose proof demo_assembled as Ha. rewrite !Forall_cons in Ha. destruct Ha as (H1 & H2 & H3 & H4 & _).
  repeat (apply Forall_cons; split; [split; [eexists; eassumption|done]|]). done.
Qed.
Lemma group_commit_first_wins_witness :
  exists replies c', flush_commits (E := unit) None demo_pending demo_core = (Ok replies, c')
    /\ replies = [(3%nat, Err (CoordinatorError.UnknownMote (demo_id 3)));
                  (0%nat, Ok {| committed_seq := 1; already_committed := false |});
                  (1%nat, Ok {| committed_seq := 2; already_committed := false |});
                  (2%nat, Ok {| committed_seq := 1; already_committed := true |})].
Proof.
  destruct (group_commit_first_wins [] [] demo_core None demo_pending demo_core_sync demo_flush_permitted)
    as (applied & c' & Hf & _ & _).
  eexists _, c'. split; [exact Hf|]. vm_compute in Hf. by injection Hf as ->.
Defined.
Definition demo_started : Demo := {|
  core_journal := InMemoryJournal_new; core_store := None; projection := State_default; folded_through := 0;
  dispatched := {| submitted := ∅; defs := ∅; tracker := LeaseTracker_default;
                   parked_launches := ∅; parked_waits := ∅; armed_timers := ∅;
                   parked_policied := ∅; parked_guards := ∅ |} |}.
Lemma writer_follows_journal_witness :
  exists c : Demo, rtc serves demo_started c /\ (exec (CmdRegister 7 (replicate 16 1) (demo_id 3)) c).1 = false
    /\ c.(folded_through) = 1.
Proof.
  pose (c := (exec (CmdStage (demo_id 4) (demo_id 4)) demo_started).2). exists c.
  assert (Hser : serves demo_started c).
  { exists (CmdStage (demo_id 4) (demo_id 4)). split; [|done]. intros l Hl. split; [done|].
    destruct Hl as [<- _ _ _ _]. done. }
  split; [by apply rtc_once|].
  destruct (writer_follows_journal InMemoryJournal_new None [] demo_started c (CmdRegister 7 (replicate 16 1) (demo_id 3)))
    as [Hf _]; [apply mem_represents_new|apply keyed_nil|by intros i|done|by vm_compute|by apply rtc_once| |done].
  intros l Hl. split; [done|]. destruct Hl as [<- _ _ _ _]. by vm_compute.
Defined.

Definition demo_batch : list JournalEntry := committed_entry <$> [demo_proposal 1 5; demo_proposal 2 1].
Definition demo_log2 : list JournalEntry := (log_append_all [] demo_batch).2.
Definition demo_committed : Demo :=
  foldl advance (with_core_journal (mem_journal demo_log2) demo_core) (log_append_all [] demo_batch).1.
Lemma demo_committed_sync : in_sync [] demo_log2 demo_committed.
Proof.
  assert (Hf : follows [] demo_log2 demo_committed).
  { apply batch_follows; [apply follows_journal, demo_core_sync|].
    repeat constructor; try done; intros d Hd; by apply bool_decide_eq_true in Hd. }
  split; [|done]. split; try done. apply Hf.
Qed.
Definition demo_cascade : list JournalEntry :=
  [repudiated_entry (demo_id 1) 1 RepudiationReason.OperatorAction 5;
   repudiated_entry (demo_id 2) 2 RepudiationReason.UpstreamCascade 0].
Lemma cascade_reaches_all_witness :
  exists c', repudiate_cascade (demo_id 1) RepudiationReason.OperatorAction 5 demo_committed
      = (Ok {| ro_target := demo_id 1; ro_cascade_size := 1 |}, c')
    /\ state_of_id c'.(projection) (demo_id 1) = MoteState.Repudiated.
Proof.
  assert (He : cascade_repudiation_entries demo_committed.(projection) (demo_id 1) RepudiationReason.OperatorAction 5
                 DEFAULT_CASCADE_CEILING = Ok demo_cascade) by (vm_compute; reflexivity).
  destruct (cascade_reaches_all [] demo_log2 demo_committed (demo_id 1) RepudiationReason.OperatorAction 5 demo_cascade)
    as (c' & Hc & Hrep & _).
  - apply demo_committed_sync.
  - intros es Hes. rewrite He in Hes. injection Hes as <-. split; [by repeat constructor|by vm_compute].
  - exact He.
  - intros t k q n r b t' k' q' n' r' b' H1%list_elem_of_In H2%list_elem_of_In Hk. vm_compute in H1, H2.
    destruct H1 as [H1|[H1|[H1|[H1|[]]]]]; try discriminate H1;
      destruct H2 as [H2|[H2|[H2|[H2|[]]]]]; try discriminate H2;
      inversion H1; inversion H2; subst; first [split; reflexivity|discriminate].
  - exists c'. split; [exact Hc|]. apply Hrep; [by left|]. vm_compute. eauto.
Defined.
Lemma approval_decided_once_witness :
  exists c1 c2, approval_gate_decision (E := unit) 3 (replicate 16 1) (demo_id 4) (str "mail") (str "1") demo_core = (Ok Wait, c1)
    /\ decide_approval (E := unit) 4 (approval_request_id (replicate 16 1) (demo_id 4)) true 9 (str "fine") c1 = (Ok true, c2)
    /\ approval_gate_decision (E := unit) 3 (replicate 16 1) (demo_id 4) (str "mail") (str "1") c2 = (Ok Proceed, c2).
Proof.
  destruct (approval_decided_once [] [] demo_core 3 (replicate 16 1) (demo_id 4) (str "mail") (str "1") 4 true 9 (str "fine"))
    as (c1 & c2 & H1 & _ & H2 & H3 & _); [apply demo_core_sync|done|by vm_compute|done|done|].
  by exists c1, c2.
Defined.
Lemma shaper_children_agree_witness :
  exists cs, derive_shaper_children demo_store (fun _ => Some (demo_role 7 FsMode.ReadOnly)) [1] demo_shaper [7]
               (demo_warrant 10 FsMode.ReadWrite) = Ok cs
    /\ demo_materializer [1] [9] [7] [8] = Ok (Some (sc_register <$> cs)) /\ length cs = 1%nat.
Proof.
  pose proof (shaper_children_agree demo_store (fun _ => Some (demo_role 7 FsMode.ReadOnly)) (fun b => b) (fun _ => [])
    (fun _ => Some demo_shaper) [9] [1] demo_shaper [7] [8] (bincode_encode (demo_warrant 10 FsMode.ReadWrite))
    (demo_warrant 10 FsMode.ReadWrite)) as Ha.
  destruct demo_materializes as [reg Hreg]. unfold demo_materializer in Hreg. cbn zeta in Ha.
  rewrite Hreg in Ha.
  destruct (derive_shaper_children _ _ _ _ _ _) as [cs|e|]; cbn [demo_shaper Mote.is_topology_shaper] in Ha.
  - destruct Ha as [Ha _]; [done|by vm_compute| |].
    + unfold decode_warrant. by rewrite bincode_decode_encode.
    + exists cs. split_and!; [done|unfold demo_materializer; by rewrite Hreg|].
      injection Ha as Ha. apply (f_equal length) in Ha. rewrite length_fmap in Ha. by rewrite <- Ha.
  - destruct Ha as [? [=]]; [done|by vm_compute|]. unfold decode_warrant. by rewrite bincode_decode_encode.
  - destruct Ha; [done|by vm_compute|]. unfold decode_warrant. by rewrite bincode_decode_encode.
Defined.
