(* ===== verification/Timers.v ===== *)
(** The steps the coordinator settles itself (kx-coordinator state.rs): durable
    waits, conditional arms and failure-policied launches. Each is parked when it
    is submitted; the settle passes arm timers, skip, mint attempts and commit.
    [now] is the clock's reading in the pass. *)
From S2P Require Import Prelude Effects Utf8 CriticTypes Mote ContextItems Entry Journal Warrant Content DemoCodec ProjState ProjIndex ProjFold ProjHistory ProjQuery Materializer Scheduler Checkpoint Recovery Critic Digits Text ExactlyOnce Wire Workers Coordinator CoordSync.
Import JournalEntry.

(** ** Markers (kx-mote strings.rs) *)
Definition WAIT_DELAY_MS_KEY : bytes := str "kx.wait.delay_ms".
Definition COND_ARM_KEY : bytes := str "kx.cond.arm".
Definition SKIP_GUARD_KEY : bytes := str "kx.cond.skip_guard".
Definition COND_SKIP_SENTINEL : bytes := str "kx-workflow/skip/v1".
Definition FAILURE_MODE_KEY : bytes := str "kx.step.failure_mode".
Definition RETRY_MAX_KEY : bytes := str "kx.step.retry_max".
Definition RETRY_BACKOFF_MS_KEY : bytes := str "kx.step.retry_backoff_ms".
Definition ATTEMPT_KEY : bytes := str "kx.step.attempt".
Definition CONTINUE_FAILED_SENTINEL : bytes := str "kx-workflow/failed/v1".

(** ** Text *)
Definition u64_sat_add (a b : Z) : Z := Z.min (2 ^ 64 - 1) (a + b).
Definition u64_sat_mul (a b : Z) : Z := Z.min (2 ^ 64 - 1) (a * b).
(** [str::parse::<u64>]: an optional plus, then one or more digits, in range. *)
Definition parse_u64 (s : bytes) : option Z :=
  match (match s with 43 :: l => l | _ => s end) with
  | [] => None
  | digits => match parse_digits 0 digits with
              | Some n => if n <? 2 ^ 64 then Some n else None
              | None => None
              end
  end.

(** ** What a step is *)
Definition config (mote : Mote) (key : bytes) : option bytes := mote.(def).(config_subset) !! key.
(** [.get(key).and_then(|v| from_utf8(&v.0).ok()).and_then(|s| s.parse().ok())] *)
Definition config_parse (mote : Mote) (key : bytes) : option Z :=
  match config mote key with
  | Some v => if utf8_valid v then parse_u64 v else None
  | None => None
  end.
Definition config_u64 (mote : Mote) (key : bytes) (dflt : Z) : Z := default dflt (config_parse mote key).
Definition is_wait_step (mote : Mote) : bool :=
  bool_decide (mote.(def).(Mote.nd_class) = Pure) && bool_decide (is_Some (config mote WAIT_DELAY_MS_KEY)).
Definition is_skip_guard (mote : Mote) : bool := bool_decide (is_Some (config mote SKIP_GUARD_KEY)).
Definition is_policied_step (mote : Mote) : bool := bool_decide (is_Some (config mote FAILURE_MODE_KEY)).

(** The parents' scan: whether all are committed, and whether one has failed,
    which ends the scan. *)
Fixpoint scan_parents (s : State) (all_committed : bool) (ps : list ParentRef) : bool * bool :=
  match ps with
  | [] => (all_committed, false)
  | p :: ps =>
      match state_of_id s p.(parent_id) with
      | MoteState.Committed => scan_parents s all_committed ps
      | MoteState.Failed | MoteState.Inconsistent | MoteState.Repudiated => (false, true)
      | _ => scan_parents s false ps
      end
  end.

Section Settle.
Context `{Blake3} `{!Bincode MoteDef} `{!Bincode WarrantSpec} `{!Bincode TopologyDecision}.
Context {J S : Type} `{!Journal J} `{!ContentStore S}.
Abbreviation C := (Core J S).
Abbreviation M := (comp C).

(** [match journal.append(e) { Ok(d) => { fold d quietly; after } Err(_) => log }] *)
Definition append_then {E} (e : JournalEntry) (after : C -> C) : M unit E := fun c =>
  match core_append e c with
  | (Ok durable, c) => (do! _ := fold_quietly durable in fun c => (Ok tt, after c)) c
  | (Err _, c) => (Ok tt, c)
  | (Panic, c) => (Panic, c)
  end.
Definition modify {E} (f : C -> C) : M unit E := fun c => (Ok tt, f c).
Fixpoint each {A E} (step : A -> M unit E) (l : list A) : M unit E :=
  match l with
  | [] => cret tt
  | x :: l => do! _ := step x in each step l
  end.

(** *** Shared endings *)
Definition committed_subject (mote : Mote) (warrant : WarrantSpec) (result_ref : ContentRef) : JournalEntry :=
  Committed mote.(Mote.mote_id) mote.(Mote.mote_id) 0 mote.(def).(Mote.nd_class) result_ref
    (ParentEntry.from_parent_ref <$> mote.(Mote.parents)) (Warrant.warrant_ref_of warrant)
    (MoteDef_hash mote.(def)).
(** The subject leaves the dispatch tables. *)
Definition retire (id : MoteId) (d : Dispatch) : Dispatch :=
  set_tracker (fun t => resolve_committed t id)
    (set_timers (delete id) (set_defs (delete id) (set_submitted (.∖ {[id]}) d))).
Definition synth_commit_subject {E} (mote : Mote) (warrant : WarrantSpec) (result_ref : ContentRef) : M unit E :=
  append_then (committed_subject mote warrant result_ref) (with_dispatch (retire mote.(Mote.mote_id))).
Definition dead_lettered_entry (id : MoteId) : JournalEntry :=
  Failed id id 0 FailureReason.DeadLettered COORDINATOR_REPORTER_ID [].
Definition dead_letter_parked_wait {E} (wait_id : MoteId) : M unit E :=
  append_then (dead_lettered_entry wait_id)
    (with_dispatch (fun d => retire wait_id (set_waits (delete wait_id) d))).
Definition set_policied (f : gmap bytes bytes -> gmap bytes bytes) (d : Dispatch) : Dispatch :=
  {| submitted := d.(submitted); defs := d.(defs); tracker := d.(tracker);
     parked_launches := d.(parked_launches); parked_waits := d.(parked_waits);
     armed_timers := d.(armed_timers); parked_policied := f d.(parked_policied);
     parked_guards := d.(parked_guards) |}.
Definition set_guards (f : gmap bytes bytes -> gmap bytes bytes) (d : Dispatch) : Dispatch :=
  {| submitted := d.(submitted); defs := d.(defs); tracker := d.(tracker);
     parked_launches := d.(parked_launches); parked_waits := d.(parked_waits);
     armed_timers := d.(armed_timers); parked_policied := d.(parked_policied);
     parked_guards := f d.(parked_guards) |}.
(** [store.put(bytes)] by a pass that has a store. *)
Definition store_write (b : bytes) (c : C) : option ContentRef * C :=
  match c.(core_store) with
  | None => (None, c)
  | Some s => match put s b with
              | Ok (r, s) => (Some r, with_core_store (Some s) c)
              | _ => (None, c)
              end
  end.

(** *** Durable waits *)
Definition find_timer (p : TimerRecord -> bool) (s : State) : option TimerRecord := List.find p s.(timers).
Definition timer_of (id : MoteId) (t : TimerRecord) : bool := bool_decide (t.(TimerRecord.subject_mote_id) = id).
Definition timer_entry (inst : bytes) (subject : MoteId) (purpose attempt fire_at : Z) (d : MoteDef) : JournalEntry :=
  TimerArmed inst subject purpose attempt fire_at (MoteDef_hash d) 0.
Definition settle_wait {E} (now : Z) (x : MoteId * bytes) : M unit E := fun c =>
  let '(wait_id, instance_id) := x in
  match c.(dispatched).(defs) !! wait_id with
  | None => (Ok tt, with_dispatch (set_waits (delete wait_id)) c)
  | Some (wait_mote, _) =>
      if negb (bool_decide (state_of_id c.(projection) wait_id = MoteState.Pending))
      then (Ok tt, with_dispatch (set_waits (delete wait_id)) c)
      else
        match find_timer (timer_of wait_id) c.(projection) with
        | Some rec =>
            (Ok tt, with_dispatch (fun d => set_waits (delete wait_id)
               (set_timers <[wait_id := (rec.(TimerRecord.fire_at_unix_ms), rec.(TimerRecord.purpose),
                                         rec.(TimerRecord.attempt))]> d)) c)
        | None =>
            let '(all_committed, parent_terminally_failed) := scan_parents c.(projection) true wait_mote.(Mote.parents) in
            if parent_terminally_failed then dead_letter_parked_wait wait_id c
            else if negb all_committed then (Ok tt, c)
            else
              match config_parse wait_mote WAIT_DELAY_MS_KEY with
              | None => dead_letter_parked_wait wait_id c
              | Some delay_ms =>
                  let fire_at := u64_sat_add now delay_ms in
                  append_then (timer_entry instance_id wait_id 0 0 fire_at wait_mote.(def))
                    (with_dispatch (fun d => set_waits (delete wait_id)
                       (set_timers <[wait_id := (fire_at, 0, 0)]> d))) c
              end
        end
  end.
Definition settle_wait_steps {E} (now : Z) : M unit E := fun c =>
  each (settle_wait now) (btree_iter c.(dispatched).(parked_waits)) c.
(** Recovery's fourth routine: the folded timers of unsettled subjects. *)
Definition unsettled (s : State) (t : TimerRecord) : bool :=
  match state_of_id s t.(TimerRecord.subject_mote_id) with
  | MoteState.Committed | MoteState.Failed | MoteState.Inconsistent | MoteState.Repudiated => false
  | _ => true
  end.
Definition rearm_timers (c : C) : C :=
  with_dispatch (set_timers (fun ts =>
    foldl (fun ts t => <[t.(TimerRecord.subject_mote_id) :=
                          (t.(TimerRecord.fire_at_unix_ms), t.(TimerRecord.purpose), t.(TimerRecord.attempt))]> ts)
      ts (List.filter (unsettled c.(projection)) c.(projection).(timers)))) c.

(** *** Attempts of a policied launch *)
Definition attempt_mote (launch : Mote) (attempt : Z) : Mote :=
  let d := launch.(def) in
  let config_subset := <[ATTEMPT_KEY := decimal attempt]>
    (delete RETRY_BACKOFF_MS_KEY (delete RETRY_MAX_KEY (delete FAILURE_MODE_KEY d.(config_subset)))) in
  Mote_new {| logic_ref := d.(logic_ref); model_id := d.(model_id); prompt_template_hash := d.(prompt_template_hash);
              tool_contract := d.(tool_contract); Mote.nd_class := d.(Mote.nd_class); config_subset := config_subset;
              Mote.effect_pattern := d.(Mote.effect_pattern); Mote.critic_for := d.(Mote.critic_for);
              Mote.is_topology_shaper := d.(Mote.is_topology_shaper); inference_params := d.(inference_params);
              critic_check := d.(critic_check); schema_version := d.(schema_version) |}
    launch.(input_data_id) launch.(graph_position) [].
Definition materialize_react_turn (turn : Mote) (warrant_ref : ContentRef) (warrant : WarrantSpec) (c : C) : C :=
  let c := persist_def turn.(def) c in
  let c := with_projection (register_mote {|
             RegisterMote.mote_id := turn.(Mote.mote_id); RegisterMote.nd_class := turn.(def).(Mote.nd_class);
             RegisterMote.effect_pattern := turn.(def).(Mote.effect_pattern); RegisterMote.critic_for := None;
             RegisterMote.is_topology_shaper := false; RegisterMote.parents := [];
             RegisterMote.warrant_ref := warrant_ref |} c.(projection)) c in
  with_dispatch (fun d => set_defs <[turn.(Mote.mote_id) := (turn, warrant)]>
                            (set_submitted ({[turn.(Mote.mote_id)]} ∪.) d)) c.
Definition mint_attempt (launch_mote : Mote) (launch_warrant : WarrantSpec) (attempt : Z) (c : C) : C :=
  materialize_react_turn (attempt_mote launch_mote attempt) (Warrant.warrant_ref_of launch_warrant) launch_warrant c.

(** *** Firing *)
Definition fire_attempt {E} (x : MoteId * Z * Z) : M unit E := fun c =>
  let '(launch_id, _, attempt) := x in
  let c := with_dispatch (set_timers (delete launch_id)) c in
  if negb (bool_decide (state_of_id c.(projection) launch_id = MoteState.Pending)) then (Ok tt, c)
  else match c.(dispatched).(defs) !! launch_id with
       | None => (Ok tt, c)
       | Some (launch_mote, launch_warrant) => (Ok tt, mint_attempt launch_mote launch_warrant attempt c)
       end.
Definition waited_text (mote : Mote) : bytes :=
  let delay := match config mote WAIT_DELAY_MS_KEY with
               | Some v => if utf8_valid v then v else str "0"
               | None => str "0"
               end in
  str "{" ++ quoted (str "waited_ms") ++ str ":" ++ delay ++ str "}".
Definition lone_parent_result (mote : Mote) (s : State) : option ContentRef :=
  match List.filter (fun p => bool_decide (p.(edge).(Mote.kind) = Data)) mote.(Mote.parents) with
  | [p] => result_ref_of s p.(parent_id)
  | _ => None
  end.
Definition fire_wait {E} (wait_id : MoteId) : M unit E := fun c =>
  if negb (bool_decide (state_of_id c.(projection) wait_id = MoteState.Pending))
  then (Ok tt, with_dispatch (set_timers (delete wait_id)) c)
  else
    match c.(dispatched).(defs) !! wait_id with
    | None => (Ok tt, c)
    | Some (wait_mote, wait_warrant) =>
        let '(o, c) := match lone_parent_result wait_mote c.(projection) with
                       | Some r => (Some r, c)
                       | None => store_write (waited_text wait_mote) c
                       end in
        match o with
        | None => (Ok tt, c)
        | Some result_ref =>
            append_then (committed_subject wait_mote wait_warrant result_ref) (with_dispatch (retire wait_id)) c
        end
    end.
Definition due (now : Z) (d : Dispatch) : list (MoteId * Z * Z) :=
  omap (fun x => if x.2.1.1 <=? now then Some (x.1, x.2.1.2, x.2.2) else None) (btree_iter d.(armed_timers)).
Definition fire_due_timers {E} (now : Z) : M unit E := fun c =>
  let all := due now c.(dispatched) in
  (do! _ := each fire_attempt (List.filter (fun x => x.1.2 =? 1) all) in
   each fire_wait ((List.filter (fun x => x.1.2 =? 0) all).*1.*1)) c.

(** *** Conditional arms *)
Inductive GuardVerdict := Run | Skip | Undecided.
Definition skip_sentinel_ref : ContentRef := ContentRef_of COND_SKIP_SENTINEL.
Fixpoint read_selection (wanted : bytes) (s : State) (store : S) (ps : list ParentRef) : GuardVerdict :=
  match ps with
  | [] => Undecided
  | p :: ps =>
      match result_ref_of s p.(parent_id) with
      | None => read_selection wanted s store ps
      | Some r =>
          match get store r with
          | None => read_selection wanted s store ps
          | Some b =>
              let text := from_utf8_lossy b in
              if starts_with text (str "{" ++ quoted (str "selected") ++ str ":" ++ [34])
              then if contains_text text wanted then Run else Skip
              else read_selection wanted s store ps
          end
      end
  end.
Definition skip_guard_verdict (mote : Mote) (s : State) (store : option S) : GuardVerdict :=
  if existsb (fun p => bool_decide (result_ref_of s p.(parent_id) = Some skip_sentinel_ref)) mote.(Mote.parents)
  then Skip
  else
    match config mote COND_ARM_KEY with
    | None => Run
    | Some arm =>
        match store with
        | None => Undecided
        | Some store =>
            read_selection (quoted (str "selected") ++ str ":" ++ quoted (from_utf8_lossy arm)) s store mote.(Mote.parents)
        end
    end.
Definition skip_guard_cleared (mote : Mote) (s : State) (store : option S) : bool :=
  match skip_guard_verdict mote s store with Run => true | _ => false end.
Definition settle_guard {E} (guard_id : MoteId) : M unit E := fun c =>
  let unpark := with_dispatch (set_guards (delete guard_id)) in
  match c.(dispatched).(defs) !! guard_id with
  | None => (Ok tt, unpark c)
  | Some (guard_mote, guard_warrant) =>
      if negb (bool_decide (state_of_id c.(projection) guard_id = MoteState.Pending)) then (Ok tt, unpark c)
      else
        let '(all_committed, parent_terminally_failed) := scan_parents c.(projection) true guard_mote.(Mote.parents) in
        if parent_terminally_failed
        then (do! _ := dead_letter_parked_wait guard_id in modify unpark) c
        else if negb all_committed then (Ok tt, c)
        else
          match skip_guard_verdict guard_mote c.(projection) c.(core_store) with
          | Run => (Ok tt, unpark c)
          | Undecided => (Ok tt, c)
          | Skip =>
              match store_write COND_SKIP_SENTINEL c with
              | (None, c) => (Ok tt, c)
              | (Some result_ref, c) =>
                  (do! _ := synth_commit_subject guard_mote guard_warrant result_ref in modify unpark) c
              end
          end
  end.
Definition settle_skip_guards {E} : M unit E := fun c =>
  each settle_guard (btree_keys c.(dispatched).(parked_guards)) c.

(** *** Policied launches *)
(** The walk of the attempts [n], [n + 1], .. of [fuel] of them; the result says
    whether an attempt settled the pass. *)
Fixpoint walk_attempts {E} (now : Z) (launch_id : MoteId) (instance_id : bytes) (launch : Mote) (w : WarrantSpec)
    (backoff_ms : Z) (fuel : nat) (n : Z) : M bool E := fun c =>
  match fuel with
  | O => (Ok false, c)
  | Datatypes.S fuel =>
      let a := attempt_mote launch n in
      match state_of_id c.(projection) a.(Mote.mote_id) with
      | MoteState.Committed =>
          match result_ref_of c.(projection) a.(Mote.mote_id) with
          | Some result_ref =>
              (do! _ := synth_commit_subject launch w result_ref in
               do! _ := modify (with_dispatch (set_policied (delete launch_id))) in
               cret true) c
          | None => (Ok true, c)
          end
      | MoteState.Failed | MoteState.Inconsistent | MoteState.Repudiated =>
          walk_attempts now launch_id instance_id launch w backoff_ms fuel (n + 1) c
      | _ =>
          if bool_decide (a.(Mote.mote_id) ∈ c.(dispatched).(submitted))
             || bool_decide (is_Some (c.(dispatched).(defs) !! a.(Mote.mote_id)))
             || bool_decide (is_Some (result_ref_of c.(projection) a.(Mote.mote_id)))
          then (Ok true, c)
          else if n =? 1 then (Ok true, mint_attempt launch w 1 c)
          else
            match find_timer (fun t => timer_of launch_id t && (t.(TimerRecord.purpose) =? 1)
                                       && (t.(TimerRecord.attempt) =? n)) c.(projection) with
            | Some rec =>
                (Ok true, with_dispatch (set_timers <[launch_id := (rec.(TimerRecord.fire_at_unix_ms), 1, n)]>) c)
            | None =>
                let fire_at := u64_sat_add now (u64_sat_mul backoff_ms (2 ^ (n - 2))) in
                (do! _ := append_then (timer_entry instance_id launch_id 1 n fire_at launch.(def))
                            (with_dispatch (set_timers <[launch_id := (fire_at, 1, n)]>)) in
                 cret true) c
            end
      end
  end.
Definition settle_policied {E} (now : Z) (x : MoteId * bytes) : M unit E := fun c =>
  let '(launch_id, instance_id) := x in
  let unpark := with_dispatch (set_policied (delete launch_id)) in
  match c.(dispatched).(defs) !! launch_id with
  | None => (Ok tt, unpark c)
  | Some (launch_mote, launch_warrant) =>
      if negb (bool_decide (state_of_id c.(projection) launch_id = MoteState.Pending)) then (Ok tt, unpark c)
      else
        let '(all_committed, parent_terminally_failed) := scan_parents c.(projection) true launch_mote.(Mote.parents) in
        if parent_terminally_failed
        then (do! _ := dead_letter_parked_wait launch_id in modify unpark) c
        else if negb all_committed then (Ok tt, c)
        else
          let mode := default [] (from_utf8_lossy <$> config launch_mote FAILURE_MODE_KEY) in
          if negb (bool_decide (mode = str "retry")) && negb (bool_decide (mode = str "continue"))
          then (do! _ := dead_letter_parked_wait launch_id in modify unpark) c
          else
            let max_attempts := Z.max 1 (Z.min 16 (config_u64 launch_mote RETRY_MAX_KEY 3)) in
            let backoff_ms := config_u64 launch_mote RETRY_BACKOFF_MS_KEY 1000 in
            (do! settled := walk_attempts now launch_id instance_id launch_mote launch_warrant backoff_ms
                              (Z.to_nat max_attempts) 1 in
             if settled : bool then cret tt
             else if bool_decide (mode = str "continue")
             then fun c => match store_write CONTINUE_FAILED_SENTINEL c with
                           | (None, c) => (Ok tt, c)
                           | (Some result_ref, c) =>
                               (do! _ := synth_commit_subject launch_mote launch_warrant result_ref in modify unpark) c
                           end
             else do! _ := dead_letter_parked_wait launch_id in modify unpark) c
  end.
Definition settle_policied_steps {E} (now : Z) : M unit E := fun c =>
  each (settle_policied now) (btree_iter c.(dispatched).(parked_policied)) c.
End Settle.
