(* ===== verification/TimerFacts.v ===== *)
(** Durable waits, conditional arms and policied launches keep the coordinator in
    step with its journal; a wait fires once, not before its journaled instant,
    also across a restart; a wait whose parent crashed is dead-lettered. *)
From S2P Require Import Prelude Effects Utf8 CriticTypes Mote ContextItems Entry EntryEncode EntryDecode EntryRoundtrip Journal Sqlite Warrant Content DemoCodec ProjState ProjIndex ProjFold ProjHistory ProjQuery Materializer Scheduler Checkpoint Recovery Critic Digits Text ExactlyOnce Wire Workers Coordinator CoordSync Cascade Timers.
Import JournalEntry.

Section Facts.
Context `{HB : Blake3} `{!Bincode MoteDef} `{!Bincode WarrantSpec} `{!Bincode TopologyDecision}.
Context {J S : Type} `{!Journal J} `{!JournalLaws J} `{!ContentStore S}.
Abbreviation C := (Core J S).

Lemma subject_sane l mote w r : sane l (committed_subject mote w r).
Proof. split; [|done]. cbn. by intros id Hid%bool_decide_eq_true. Qed.
Lemma subject_writable l mote w r :
  accepts (committed_subject mote w r) -> writable l (committed_subject mote w r).
Proof. intros Ha. split; [done|]. apply subject_sane. Qed.
Lemma subject_offered l mote w r : offerable l (committed_subject mote w r).
Proof. split; [|apply subject_sane]. cbn. apply Forall_fmap, Forall_true. intros p. apply from_parent_ref_legal. Qed.
Lemma append_then_run {E} regs l (c : C) e f n :
  in_sync regs l c -> writable l e -> room l (Datatypes.S n) ->
  exists c1, append_then (E := E) e f c = (Ok tt, f c1) /\ in_sync regs (log_append l e).2 c1
    /\ room (log_append l e).2 n /\ core_store c1 = core_store c /\ dispatched c1 = dispatched c
    /\ projection c1 = (if folded_through c <? entry_seq (log_append l e).1
                        then (fold None (log_append l e).1 (projection c)).1 else projection c).
Proof.
  intros Hs Hw Hr. destruct (write_run regs l c e Hs Hw) as (j & Hj & Hok & Hs'); [eapply room_le; [done|lia]|].
  eexists. unfold append_then. rewrite Hj. unfold cbind. rewrite fold_quietly_run by done.
  split_and!; [done|done|by apply log_append_room|done..].
Qed.
(** Written, or refused and skipped. *)
Lemma append_then_total `{!JournalTotal J} {E} regs l (c : C) e f n :
  in_sync regs l c -> offerable l e -> room l (Datatypes.S n) ->
  (exists c1, append_then (E := E) e f c = (Ok tt, f c1) /\ in_sync regs (log_append l e).2 c1
     /\ room (log_append l e).2 n /\ core_store c1 = core_store c /\ dispatched c1 = dispatched c
     /\ projection c1 = (if folded_through c <? entry_seq (log_append l e).1
                         then (fold None (log_append l e).1 (projection c)).1 else projection c))
  \/ (append_then (E := E) e f c = (Ok tt, c) /\ ~ accepts e).
Proof.
  intros Hs Ho Hr. unfold append_then.
  destruct (offer_run regs l c e Hs Ho) as [(j & Hj & Hok & Hs')|(x & Hx & Hno)]; [eapply room_le; [done|lia]|left|right].
  - eexists. rewrite Hj. unfold cbind. rewrite fold_quietly_run by done. split_and!; [done|done|by apply log_append_room|done..].
  - by rewrite Hx.
Qed.

(** ** Every pass keeps the writer in step *)
(** The outcome of a step that writes at most one entry, of [n + 1] there is
    room for. *)
Definition once (regs : list RegisterMote) (l : list JournalEntry) (n : nat) (x : outcome unit unit * C) : Prop :=
  exists regs' l' c', x = (Ok tt, c') /\ in_sync regs' l' c' /\ regs ⊆ regs' /\ grows l l' /\ room l' n.
Definition steps_once {A} (step : A -> comp C unit unit) : Prop :=
  forall x regs l c n, in_sync regs l c -> room l (Datatypes.S n) -> once regs l n (step x c).
Lemma once_same regs l n c c' : in_sync regs l c -> room l (Datatypes.S n) -> same_log c c' -> once regs l n (Ok tt, c').
Proof.
  intros Hs Hr Hf. destruct (Hf regs l Hs) as (regs' & Hsub & Hs'). exists regs', l, c'.
  split_and!; try done. eapply room_le; [done|lia].
Qed.
Context `{!JournalTotal J}.
Lemma once_append regs l n c e g :
  in_sync regs l c -> room l (Datatypes.S n) -> offerable l e -> no_round e = true -> once regs l n (append_then e (with_dispatch g) c).
Proof.
  intros Hs Hr Hw Hn.
  destruct (append_then_total (E := unit) regs l c e (with_dispatch g) n Hs Hw Hr) as [(c1 & Hrun & Hs1 & Hr1 & _)|[Hrun _]]; rewrite Hrun.
  - exists regs, (log_append l e).2, (with_dispatch g c1).
    split_and!; try done; [by apply in_sync_dispatch|by apply log_append_grows].
  - exists regs, l, c. split_and!; try done. eapply room_le; [done|lia].
Qed.
Lemma once_then regs l n (m : comp C unit unit) g c :
  once regs l n (m c) -> (forall c, same_log c (g c)) -> once regs l n (cbind m (fun _ => modify g) c).
Proof.
  intros (regs' & l' & c' & Hm & Hs & Hsub & Hl & Hr) Hg. unfold cbind. rewrite Hm.
  destruct (Hg c' regs' l' Hs) as (regs2 & Hsub2 & Hs2). exists regs2, l', (g c'). split_and!; try done. by etrans.
Qed.
Lemma each_once {A} (step : A -> comp C unit unit) xs : steps_once step ->
  forall regs l c n, in_sync regs l c -> room l (length xs + n) -> once regs l n (each step xs c).
Proof.
  intros Hst. induction xs as [|x xs IH]; intros regs l c n Hs Hr.
  { exists regs, l, c. by split_and!. }
  cbn [each length] in *. destruct (Hst x regs l c (length xs + n)%nat Hs Hr) as (r1 & l1 & c1 & H1 & H2 & H3 & H4 & H5).
  unfold cbind. rewrite H1. destruct (IH r1 l1 c1 n H2 H5) as (r2 & l2 & c2 & G1 & G2 & G3 & G4 & G5).
  exists r2, l2, c2. split_and!; try done; by etrans.
Qed.
Lemma store_write_same b (c : C) : same_log c (store_write b c).2.
Proof.
  unfold store_write. destruct (core_store c) as [st|]; [|apply same_log_refl].
  destruct (put st b) as [[r st']|?|]; try apply same_log_refl. intros regs l [H1 []]. by exists regs.
Qed.
Lemma mint_same m w n (c : C) : same_log c (mint_attempt m w n c).
Proof.
  unfold mint_attempt, materialize_react_turn. eapply same_log_trans; [apply persist_same_log|].
  eapply same_log_trans; [apply register_same_log|apply dispatch_same_log].
Qed.

Lemma synth_once regs l n c mote w r :
  in_sync regs l c -> room l (Datatypes.S n) -> once regs l n (synth_commit_subject mote w r c).
Proof. intros. apply once_append; [done|done| |done]. apply subject_offered. Qed.
Lemma dead_letter_once regs l n c m :
  in_sync regs l c -> room l (Datatypes.S n) -> once regs l n (dead_letter_parked_wait m c).
Proof. intros. apply once_append; [done|done| |done]. apply plain_offered; [cbn; lia|done..]. Qed.
(** A store write, then a synthesized commit. *)
Lemma stored_commit_once regs l n c b (k : ContentRef -> comp C unit unit) :
  in_sync regs l c -> room l (Datatypes.S n) ->
  (forall r regs c, in_sync regs l c -> once regs l n (k r c)) ->
  once regs l n (match store_write b c with (None, c) => (Ok tt, c) | (Some r, c) => k r c end).
Proof.
  intros Hs Hr Hk. pose proof (store_write_same b c) as Hst. destruct (store_write b c) as [[r|] c1]; cbn in Hst.
  - destruct (Hst regs l Hs) as (regs1 & Hsub & Hs1).
    destruct (Hk r regs1 c1 Hs1) as (r2 & l2 & c2 & G1 & G2 & G3 & G4 & G5).
    exists r2, l2, c2. split_and!; try done. by etrans.
  - by eapply once_same.
Qed.
Lemma settle_wait_once now : steps_once (settle_wait now).
Proof.
  intros [wait_id inst] regs l c n Hs Hr. unfold settle_wait.
  destruct (defs (dispatched c) !! wait_id) as [[mote w]|]; [|by eapply once_same; [..|apply dispatch_same_log]].
  destruct (negb _); [by eapply once_same; [..|apply dispatch_same_log]|].
  destruct (find_timer _ _); [by eapply once_same; [..|apply dispatch_same_log]|].
  destruct (scan_parents _ _ _) as [ac pf]. destruct pf; [by apply dead_letter_once|].
  destruct ac; [|by eapply once_same; [..|apply same_log_refl]].
  destruct (config_parse _ _); [|by apply dead_letter_once]. apply once_append; [done|done| |done]. apply plain_offered; [cbn; lia|done..].
Qed.
Lemma settle_guard_once : steps_once settle_guard.
Proof.
  intros guard_id regs l c n Hs Hr. unfold settle_guard.
  destruct (defs (dispatched c) !! guard_id) as [[mote w]|]; [|by eapply once_same; [..|apply dispatch_same_log]].
  destruct (negb _); [by eapply once_same; [..|apply dispatch_same_log]|].
  destruct (scan_parents _ _ _) as [ac pf].
  destruct pf; [apply once_then; [by apply dead_letter_once|intros; apply dispatch_same_log]|].
  destruct ac; [|by eapply once_same; [..|apply same_log_refl]].
  destruct (skip_guard_verdict _ _ _); [by eapply once_same; [..|apply dispatch_same_log]| |
    by eapply once_same; [..|apply same_log_refl]].
  apply (stored_commit_once regs l n c COND_SKIP_SENTINEL
    (fun r c => cbind (synth_commit_subject mote w r) (fun _ => modify (with_dispatch (set_guards (delete guard_id)))) c));
    [done|done|].
  intros r regs1 c1 Hs1. apply once_then; [by apply synth_once|intros; apply dispatch_same_log].
Qed.
Lemma walk_once now launch_id inst launch w backoff fuel : forall k regs l n c,
  in_sync regs l c -> room l (Datatypes.S n) ->
  exists b c', walk_attempts (E := unit) now launch_id inst launch w backoff fuel k c = (Ok b, c')
    /\ (if b then once regs l n (Ok tt, c') else c' = c).
Proof.
  induction fuel as [|fuel IH]; intros k regs l n c Hs Hr; cbn [walk_attempts]; [by exists false, c|].
  assert (Hsame : once regs l n (Ok tt, c)) by (eapply once_same; [done|done|apply same_log_refl]).
  set (a := Mote.mote_id (attempt_mote launch k)).
  assert (Hopen : exists b c',
    (if bool_decide (a ∈ submitted (dispatched c)) || bool_decide (is_Some (defs (dispatched c) !! a))
        || bool_decide (is_Some (result_ref_of (projection c) a))
     then (Ok true, c)
     else if k =? 1 then (Ok true, mint_attempt launch w 1 c)
     else match find_timer (fun t => timer_of launch_id t && (t.(TimerRecord.purpose) =? 1)
                                     && (t.(TimerRecord.attempt) =? k)) c.(projection) with
          | Some rec => (Ok true, with_dispatch (set_timers <[launch_id := (rec.(TimerRecord.fire_at_unix_ms), 1, k)]>) c)
          | None =>
              let fire_at := u64_sat_add now (u64_sat_mul backoff (2 ^ (k - 2))) in
              (do! _ := append_then (timer_entry inst launch_id 1 k fire_at launch.(def))
                          (with_dispatch (set_timers <[launch_id := (fire_at, 1, k)]>)) in
               cret (E := unit) true) c
          end) = (Ok b, c') /\ (if b then once regs l n (Ok tt, c') else c' = c)).
  { destruct (_ || _); [by exists true, c|].
    destruct (k =? 1); [eexists true, _; split; [done|]; eapply once_same; [done|done|apply mint_same]|].
    destruct (find_timer _ _); [eexists true, _; split; [done|]; eapply once_same; [done|done|apply dispatch_same_log]|].
    cbv zeta. edestruct (once_append regs l n c) as (r1 & l1 & c1 & H1 & H2 & H3 & H4 & H5); [done|done| | |].
    3: { exists true, c1. unfold cbind. rewrite H1. split; [done|]. exists r1, l1, c1. by split_and!. }
    - apply plain_offered; [cbn; lia|done..].
    - done. }
  destruct (state_of_id (projection c) a) eqn:Hst; try exact Hopen; try (by apply IH).
  destruct (result_ref_of (projection c) a) as [r|]; [|by exists true, c].
  destruct (once_then regs l n (synth_commit_subject launch w r) (with_dispatch (set_policied (delete launch_id))) c)
    as (r1 & l1 & c1 & H1 & H2 & H3 & H4 & H5); [by apply synth_once|intros; apply dispatch_same_log|].
  exists true, c1. split; [|exists r1, l1, c1; by split_and!].
  revert H1. unfold cbind, modify, cret. destruct (synth_commit_subject launch w r c) as [[[]|[]|] c2]; by intros [= ->].
Qed.
Lemma settle_policied_once now : steps_once (settle_policied now).
Proof.
  intros [launch_id inst] regs l c n Hs Hr. unfold settle_policied.
  destruct (defs (dispatched c) !! launch_id) as [[mote w]|]; [|by eapply once_same; [..|apply dispatch_same_log]].
  destruct (negb _); [by eapply once_same; [..|apply dispatch_same_log]|].
  destruct (scan_parents _ _ _) as [ac pf].
  assert (Hdead : once regs l n ((do! _ := dead_letter_parked_wait launch_id in
                                  modify (with_dispatch (set_policied (delete launch_id)))) c)).
  { apply once_then; [by apply dead_letter_once|intros; apply dispatch_same_log]. }
  destruct pf; [exact Hdead|]. destruct ac; [|by eapply once_same; [..|apply same_log_refl]]. cbn [negb].
  cbv zeta. destruct (negb _ && negb _); [exact Hdead|].
  set (fuel := Z.to_nat _). set (backoff := config_u64 mote RETRY_BACKOFF_MS_KEY 1000).
  destruct (walk_once now launch_id inst mote w backoff fuel 1 regs l n c Hs Hr) as (b & c1 & Hw & Hb).
  unfold cbind at 1. rewrite Hw. destruct b; [exact Hb|]. subst c1. case_bool_decide; [|exact Hdead].
  apply (stored_commit_once regs l n c CONTINUE_FAILED_SENTINEL
    (fun r c => cbind (synth_commit_subject mote w r) (fun _ => modify (with_dispatch (set_policied (delete launch_id)))) c));
    [done|done|].
  intros r regs1 c1 Hs1. apply once_then; [by apply synth_once|intros; apply dispatch_same_log].
Qed.
Lemma fire_attempt_once : steps_once fire_attempt.
Proof.
  intros [[launch_id p] attempt] regs l c n Hs Hr. unfold fire_attempt. cbv zeta.
  destruct (negb _); [by eapply once_same; [..|apply dispatch_same_log]|].
  destruct (defs _ !! launch_id) as [[mote w]|]; [|by eapply once_same; [..|apply dispatch_same_log]].
  eapply once_same; [done|done|]. eapply same_log_trans; [apply dispatch_same_log|apply mint_same].
Qed.
Lemma fire_wait_once : steps_once fire_wait.
Proof.
  intros wait_id regs l c n Hs Hr. unfold fire_wait.
  destruct (negb _); [by eapply once_same; [..|apply dispatch_same_log]|].
  destruct (defs _ !! wait_id) as [[mote w]|]; [|by eapply once_same; [..|apply same_log_refl]].
  destruct (lone_parent_result mote (projection c)) as [r|].
  - apply once_append; [done|done| |done]. apply subject_offered.
  - apply (stored_commit_once regs l n c (waited_text mote)
      (fun r => append_then (committed_subject mote w r) (with_dispatch (retire wait_id)))); [done|done|].
    intros r regs1 c1 Hs1. apply once_append; [done|done| |done]. apply subject_offered.
Qed.
Lemma filter_purposes (all : list (MoteId * Z * Z)) :
  (length (List.filter (fun x => x.1.2 =? 1)%Z all) + length (List.filter (fun x => x.1.2 =? 0)%Z all) <= length all)%nat.
Proof.
  induction all as [|[[m p] a] all IH]; [done|]. cbn [List.filter fst snd].
  destruct (Z.eqb_spec p 1), (Z.eqb_spec p 0); cbn [length]; lia.
Qed.
Lemma length_btree_iter {V} (m : gmap bytes V) : length (btree_iter m) = size m.
Proof. by rewrite btree_iter_perm, length_map_to_list. Qed.
Lemma length_omap_le {A B} (f : A -> option B) l : (length (omap f l) <= length l)%nat.
Proof. induction l as [|x l IH]; [done|]. cbn. destruct (f x); [apply le_n_S, IH|apply Nat.le_le_succ_r, IH]. Qed.
Lemma length_due now (d : Dispatch) : (length (due now d) <= size d.(armed_timers))%nat.
Proof. unfold due. rewrite <- length_btree_iter. apply length_omap_le. Qed.

Lemma settle_passes_once regs l c now n : in_sync regs l c ->
  (room l (size c.(dispatched).(parked_waits) + n) -> once regs l n (settle_wait_steps (E := unit) now c))
  /\ (room l (size c.(dispatched).(parked_guards) + n) -> once regs l n (settle_skip_guards (E := unit) c))
  /\ (room l (size c.(dispatched).(parked_policied) + n) -> once regs l n (settle_policied_steps (E := unit) now c))
  /\ (room l (size c.(dispatched).(armed_timers) + n) -> once regs l n (fire_due_timers (E := unit) now c)).
Proof.
  intros Hs. split_and!; intros Hr.
  - apply each_once; [apply settle_wait_once|done|]. by rewrite length_btree_iter.
  - apply each_once; [apply settle_guard_once|done|]. unfold btree_keys. by rewrite length_fmap, length_btree_iter.
  - apply each_once; [apply settle_policied_once|done|]. by rewrite length_btree_iter.
  - unfold fire_due_timers. cbv zeta.
    pose proof (filter_purposes (due now (dispatched c))) as Hp. pose proof (length_due now (dispatched c)) as Hd.
    set (as1 := List.filter (fun x => x.1.2 =? 1) (due now (dispatched c))) in *.
    set (as0 := List.filter (fun x => x.1.2 =? 0) (due now (dispatched c))) in *.
    destruct (each_once fire_attempt as1 fire_attempt_once regs l c (length as0 + n)%nat Hs)
      as (r1 & l1 & c1 & H1 & H2 & H3 & H4 & H5); [eapply room_le; [exact Hr|lia]|].
    unfold cbind. rewrite H1.
    destruct (each_once fire_wait as0.*1.*1 fire_wait_once r1 l1 c1 n H2)
      as (r2 & l2 & c2 & G1 & G2 & G3 & G4 & G5); [by rewrite !length_fmap|].
    exists r2, l2, c2. split_and!; try done; by etrans.
Qed.
(** The coordinator's own steps stay on the journal: whatever it refuses, each
    settle pass (waits, conditional arms, policied launches, due timers) finishes
    whatever the parked steps are, writes at most one fact per step, only extends
    the log, and leaves the projection the fold of it. *)
Theorem settle_passes_follow_journal regs l c now :
  in_sync regs l c ->
  let kept x := exists regs' l' c', x = (Ok tt, c') /\ in_sync regs' l' c' /\ l `prefix_of` l' in
  (room l (size c.(dispatched).(parked_waits)) -> kept (settle_wait_steps (E := unit) now c))
  /\ (room l (size c.(dispatched).(parked_guards)) -> kept (settle_skip_guards (E := unit) c))
  /\ (room l (size c.(dispatched).(parked_policied)) -> kept (settle_policied_steps (E := unit) now c))
  /\ (room l (size c.(dispatched).(armed_timers)) -> kept (fire_due_timers (E := unit) now c)).
Proof.
  intros Hs kept. destruct (settle_passes_once regs l c now 0 Hs) as (H1 & H2 & H3 & H4). rewrite !Nat.add_0_r in *.
  assert (Hk : forall x, once regs l 0 x -> kept x).
  { intros x (r' & l' & c' & G1 & G2 & _ & G4 & _). exists r', l', c'. split_and!; [done|done|by apply grows_prefix]. }
  split_and!; intros Hr; apply Hk; auto.
Qed.
End Facts.

(** ** One wait, from arming to firing *)
Section OneWait.
Context `{HB : Blake3} `{!Bincode MoteDef} `{!Bincode WarrantSpec} `{!Bincode TopologyDecision}.
Context {J S : Type} `{!Journal J} `{!JournalLaws J} `{!ContentStore S}.
Abbreviation C := (Core J S).

Lemma due_elem now d x :
  x ∈ due now d -> exists fire_at, d.(armed_timers) !! x.1.1 = Some (fire_at, x.1.2, x.2) /\ fire_at <= now.
Proof.
  unfold due. intros ([id [[f p] a]] & Hin%elem_of_btree_iter & Hx)%list_elem_of_omap. cbn in Hx.
  destruct (Z.leb_spec f now); [|done]. injection Hx as <-. by exists f.
Qed.
(** Folding a commit that is new makes the Mote Committed with its result. *)
Lemma fold_commit_state id key seq nd r ps w h s :
  committed (mote_info s id) = None -> inconsistent (mote_info s id) = false ->
  state_of_id (fold None (Committed id key seq nd r ps w h) s).1 id = MoteState.Committed
  /\ result_ref_of (fold None (Committed id key seq nd r ps w h) s).1 id = Some r.
Proof.
  intros Hc Hi. cbn [fold]. unfold fold_committed. rewrite bool_decide_false by (rewrite Hc; by intros [? [=]]). cbn [fst].
  rewrite state_of_mote_info. unfold result_ref_of.
  change (mote_info (index_committed ?i ?o (bump_seq ?n ?s0)) id) with (mote_info s0 id).
  change (motes (index_committed ?i ?o (bump_seq ?n ?s0))) with (motes s0).
  rewrite mote_info_mut, decide_True by done. unfold moteinfo_mut, with_motes. cbn [motes]. rewrite lookup_insert_eq.
  unfold info_state. cbn. by rewrite Hi.
Qed.
Lemma pending_uncommitted s id : state_of_id s id = MoteState.Pending ->
  committed (mote_info s id) = None /\ inconsistent (mote_info s id) = false.
Proof.
  rewrite state_of_mote_info. unfold info_state. destruct (inconsistent (mote_info s id)); [done|].
  destruct (committed (mote_info s id)) as [ci|]; [by destruct (CommittedInfo.repudiated ci)|]. done.
Qed.
Lemma fresh_commit regs l (c : C) mote w r :
  in_sync regs l c -> state_of_id (projection c) mote.(Mote.mote_id) = MoteState.Pending ->
  existing_fact l (derive_key (committed_subject mote w r)) = None.
Proof.
  intros Hs [Hc _]%pending_uncommitted. destruct (existing_fact _ _) as [x|] eqn:Hx; [exfalso|done].
  apply existing_fact_some in Hx as (Hin & _ & Hk & Hkey). cbn in Hk, Hkey.
  destruct x; try discriminate Hk. cbn in Hkey.
  pose proof (proj1 (sync_committed regs l c _ (sync_follows _ _ _ Hs)) Hc _ Hin) as Hno.
  pose proof (fo_keyed _ _ _ (sync_follows _ _ _ Hs) mote_id _ Hin (bool_decide_eq_true_2 _ eq_refl)) as Hid.
  cbn in Hid, Hno. apply bool_decide_eq_false in Hno. congruence.
Qed.
(** An entry that is new is appended and folded at the next position. *)
Lemma append_fresh {E} regs l (c : C) e f :
  in_sync regs l c -> writable l e -> room l 1 -> existing_fact l (derive_key e) = None ->
  let d := set_seq (derive_key e) (Z.of_nat (length l) + 1) in
  exists c1, append_then (E := E) e f c = (Ok tt, f c1) /\ in_sync regs (l ++ [d]) c1
    /\ dispatched c1 = dispatched c /\ projection c1 = (fold None d (projection c)).1.
Proof.
  intros Hs Hw Hr Hx d. destruct (append_then_run (E := E) regs l c e f 0 Hs Hw Hr) as (c1 & H1 & H2 & _ & _ & H5 & H6).
  unfold log_append in H2, H6. rewrite Hx in H2, H6. cbn [fst snd] in H2, H6. fold d in H2, H6.
  exists c1. split_and!; try done. rewrite H6. unfold d. rewrite set_seq_seq, (fo_folded _ _ _ (sync_follows _ _ _ Hs)).
  by rewrite (proj2 (Z.ltb_lt _ _)) by lia.
Qed.
(** ** The drain *)
Context `{!JournalTotal J}.
(** What is known of a Mote, its declaration aside: registering it is no news. *)
Definition bare (s : State) (id : MoteId) : MoteInfo := set_declared_field None (mote_info s id).
Lemma bare_results s s' id : bare s' id = bare s id ->
  state_of_id s' id = state_of_id s id /\ result_ref_of s' id = result_ref_of s id.
Proof.
  assert (Hr : forall s, result_ref_of s id = CommittedInfo.result_ref <$> committed (mote_info s id)).
  { intros t. unfold result_ref_of, mote_info. by destruct (motes t !! id). }
  rewrite !state_of_mote_info, !Hr. unfold bare. destruct (mote_info s id), (mote_info s' id). unfold set_declared_field. cbn.
  intros [= -> -> -> -> -> -> -> -> ->]. done.
Qed.
Lemma bare_register r s id : bare (register_mote r s) id = bare s id.
Proof. unfold bare. rewrite mote_info_register. by case_decide. Qed.
Definition results_kept (s s' : State) : Prop := forall id r, result_ref_of s id = Some r -> result_ref_of s' id = Some r.
Lemma lone_kept m s s' r : results_kept s s' -> lone_parent_result m s = Some r -> lone_parent_result m s' = Some r.
Proof. intros Hk. unfold lone_parent_result. destruct (List.filter _ _) as [|p [|? ?]]; [done| |done]. apply Hk. Qed.
(** Every definition is filed under its Mote's id. *)
Definition defs_keyed (c : C) : Prop := forall id m w, c.(dispatched).(defs) !! id = Some (m, w) -> m.(Mote.mote_id) = id.
(** Nothing is news of the other Motes. *)
Definition others_kept (P : MoteId -> Prop) (c c' : C) : Prop :=
  forall id, ~ P id -> bare c'.(projection) id = bare c.(projection) id
    /\ c'.(dispatched).(armed_timers) !! id = c.(dispatched).(armed_timers) !! id
    /\ c'.(dispatched).(defs) !! id = c.(dispatched).(defs) !! id.
(** What a wait that fires between [s] and [s'] commits: its lone data parent's
    result, or the reference of its stored descriptor. *)
Definition wait_result (m : Mote) (s s' : State) (r : ContentRef) : Prop :=
  (forall p, lone_parent_result m s = Some p -> r = p)
  /\ (lone_parent_result m s' = Some r \/ lone_parent_result m s = None /\ exists st st' : S, put st (waited_text m) = Ok (r, st')).
Record fired (id : MoteId) (r : ContentRef) (c' : C) : Prop := {
  fd_committed : state_of_id c'.(projection) id = MoteState.Committed;
  fd_result : result_ref_of c'.(projection) id = Some r;
  fd_timer : c'.(dispatched).(armed_timers) !! id = None;
  fd_defs : c'.(dispatched).(defs) !! id = None
}.
(** A wait the drain could not commit: the journal refused the commit, or there
    is nothing to commit. *)
Definition hindered (m : Mote) (w : WarrantSpec) (c c' : C) : Prop :=
  (exists r, wait_result m c.(projection) c'.(projection) r /\ ~ accepts (committed_subject m w r))
  \/ (lone_parent_result m c.(projection) = None
      /\ (c.(core_store) = None \/ exists st : S, forall x, put st (waited_text m) <> Ok x)).
Definition settled_wait (id : MoteId) (m : Mote) (w : WarrantSpec) (c c' : C) : Prop :=
  (exists r, wait_result m c.(projection) c'.(projection) r /\ fired id r c')
  \/ (bare c'.(projection) id = bare c.(projection) id
      /\ c'.(dispatched).(armed_timers) !! id = c.(dispatched).(armed_timers) !! id
      /\ c'.(dispatched).(defs) !! id = Some (m, w) /\ hindered m w c c').
(** One firing, of the wait [id]. *)
Record fires_one (id : MoteId) (l l' : list JournalEntry) (c c' : C) : Prop := {
  fo_others : others_kept (eq id) c c';
  fo_results : results_kept c.(projection) c'.(projection);
  fo_store : c'.(core_store) = None -> c.(core_store) = None;
  fo_grows : l' = l /\ bare c'.(projection) id = bare c.(projection) id
    \/ state_of_id c.(projection) id = MoteState.Pending /\ exists e, l' = l ++ [e] /\ is_committed_of id e = true;
  fo_settled : forall m w, state_of_id c.(projection) id = MoteState.Pending -> c.(dispatched).(defs) !! id = Some (m, w) ->
    settled_wait id m w c c'
}.
Lemma defs_keyed_one id c c' : others_kept (eq id) c c' ->
  c'.(dispatched).(defs) !! id = None \/ c'.(dispatched).(defs) !! id = c.(dispatched).(defs) !! id -> defs_keyed c -> defs_keyed c'.
Proof.
  intros Ho Hid Hk i m w Hi. destruct (decide (id = i)) as [<-|Hne]; [|apply (Hk i m w); rewrite <- Hi; symmetry; by apply Ho].
  destruct Hid as [Hid|Hid]; [congruence|]. apply (Hk id m w). congruence.
Qed.
Lemma bare_commit id key n nd r ps w h s d : d <> id -> bare (fold None (Committed id key n nd r ps w h) s).1 d = bare s d.
Proof.
  intros Hd. cbn [fold]. unfold fold_committed. unfold bare. case_bool_decide; cbn [fst].
  - by rewrite mote_info_mut, decide_False.
  - change (mote_info (index_committed ?i ?o (bump_seq ?n ?s0)) d) with (mote_info s0 d). by rewrite mote_info_mut, decide_False.
Qed.
(** The commit of a pending wait, taken by the journal. *)
Lemma commit_wait regs l c id m w r :
  in_sync regs l c -> room l 1 -> m.(Mote.mote_id) = id -> state_of_id c.(projection) id = MoteState.Pending ->
  (exists e c', append_then (E := unit) (committed_subject m w r) (with_dispatch (retire id)) c = (Ok tt, c')
     /\ in_sync regs (l ++ [e]) c' /\ is_committed_of id e = true /\ fired id r c' /\ others_kept (eq id) c c'
     /\ results_kept c.(projection) c'.(projection) /\ c'.(core_store) = c.(core_store))
  \/ (append_then (E := unit) (committed_subject m w r) (with_dispatch (retire id)) c = (Ok tt, c) /\ ~ accepts (committed_subject m w r)).
Proof.
  intros Hs Hr Hid Hp. pose proof (fresh_commit regs l c m w r Hs ltac:(by rewrite Hid)) as Hx.
  destruct (append_then_total (E := unit) regs l c (committed_subject m w r) (with_dispatch (retire id)) 0 Hs (subject_offered _ _ _ _) Hr)
    as [(c1 & H1 & H2 & _ & H4 & H5 & H6)|H]; [left|by right].
  unfold log_append in H2, H6. rewrite Hx in H2, H6. cbn [fst snd] in H2, H6.
  rewrite set_seq_seq, (fo_folded _ _ _ (sync_follows _ _ _ Hs)), (proj2 (Z.ltb_lt _ _)) in H6 by lia.
  cbn [derive_key committed_subject set_seq] in H6. rewrite Hid in H6.
  destruct (fold_commit_state id id (Z.of_nat (length l) + 1) (Mote.nd_class (def m)) r
    (ParentEntry.from_parent_ref <$> Mote.parents m) (Warrant.warrant_ref_of w) (MoteDef_hash (def m)) (projection c))
    as [Hc Hres]; [by apply pending_uncommitted..|]. rewrite <- H6 in Hc, Hres.
  eexists _, (with_dispatch (retire id) c1).
  assert (Ho : others_kept (eq id) c (with_dispatch (retire id) c1)).
  { intros d Hd. split_and!.
    - cbn [projection with_dispatch]. rewrite H6. apply bare_commit. congruence.
    - cbn. rewrite H5. by apply lookup_delete_ne.
    - cbn. rewrite H5. by apply lookup_delete_ne. }
  split_and!; [exact H1|by apply in_sync_dispatch|cbn; by apply bool_decide_eq_true| |exact Ho| |exact H4].
  - split; [exact Hc|exact Hres|apply lookup_delete_eq..].
  - intros d r' Hd. destruct (decide (id = d)) as [<-|Hne].
    + apply pending_uncommitted in Hp as [Hn _]. unfold result_ref_of, mote_info in *. destruct (motes (projection c) !! id); cbn in *; [|done].
      by rewrite Hn in Hd.
    + destruct (bare_results _ _ _ (proj1 (Ho d Hne))) as [_ E]. by rewrite E.
Qed.
Lemma fires_nothing id l c : (state_of_id c.(projection) id = MoteState.Pending -> c.(dispatched).(defs) !! id = None) ->
  fires_one id l l c c.
Proof. intros Hn. split; [by intros d Hd|by intros d r|done|by left|]. intros m w Hp. rewrite (Hn Hp). done. Qed.
Lemma fire_wait_one id regs l c n : in_sync regs l c -> room l (Datatypes.S n) -> defs_keyed c ->
  exists regs' l' c', fire_wait (E := unit) id c = (Ok tt, c') /\ in_sync regs' l' c' /\ room l' n /\ fires_one id l l' c c' /\ defs_keyed c'.
Proof.
  intros Hs Hr Hk. assert (Hr0 : room l n) by (eapply room_le; [done|lia]). unfold fire_wait. case_bool_decide as Hp; cbn [negb]; last first.
  { exists regs, l, (with_dispatch (set_timers (delete id)) c). split_and!; [done|by apply in_sync_dispatch|done| |exact Hk].
    split; [|by intros d r|done|by left|done]. intros d Hd. cbn. split_and!; [done|by apply lookup_delete_ne|done]. }
  destruct (defs (dispatched c) !! id) as [[m w]|] eqn:Hd;
    [|exists regs, l, c; split_and!; [done..| |done]; by apply fires_nothing].
  pose proof (Hk _ _ _ Hd) as Hid.
  assert (Hput : forall r c0, same_log c c0 -> projection c0 = projection c -> dispatched c0 = dispatched c ->
    (core_store c0 = None -> core_store c = None) ->
    (forall s', results_kept (projection c) s' -> wait_result m (projection c) s' r) ->
    exists regs' l' c', append_then (E := unit) (committed_subject m w r) (with_dispatch (retire id)) c0 = (Ok tt, c')
      /\ in_sync regs' l' c' /\ room l' n /\ fires_one id l l' c c' /\ defs_keyed c').
  { intros r c0 Hlog Hpj Hds Hst Hres. destruct (Hlog regs l Hs) as (regs0 & _ & Hs0).
    destruct (commit_wait regs0 l c0 id m w r Hs0) as [(e & c' & H1 & H2 & H3 & H4 & H5 & H6 & H7)|[H1 H2]];
      [eapply room_le; [exact Hr|lia]|done|by rewrite Hpj| |].
    - exists regs0, (l ++ [e]), c'. unfold others_kept in H5. rewrite Hpj in H5, H6. rewrite Hds in H5. split_and!; [done|done| | |].
      + unfold room in *. rewrite length_app. cbn [length]. lia.
      + split; [done|done|intros E; apply Hst; congruence|right; split; [done|]; by exists e|].
        intros m' w' _ Hd'. rewrite Hd in Hd'. injection Hd' as <- <-. left. exists r. split; [by apply Hres|done].
      + eapply defs_keyed_one; [exact H5|left; apply H4|done].
    - exists regs0, l, c0. split_and!; [done|done|done| |].
      + split; [intros d _; by rewrite Hpj, Hds|rewrite Hpj; by intros d r'|done|left; by rewrite Hpj|].
        intros m' w' _ Hd'. rewrite Hd in Hd'. injection Hd' as <- <-. right. rewrite Hpj, Hds. split_and!; [done..|]. left. exists r.
        split; [apply Hres; rewrite ?Hpj; by intros d r'|done].
      + unfold defs_keyed. by rewrite Hds. }
  destruct (lone_parent_result m (projection c)) as [r|] eqn:Hl.
  { apply (Hput r c); [apply same_log_refl|done..|]. intros s' Hs'. split; [congruence|left; by apply (lone_kept m (projection c))]. }
  unfold store_write. destruct (core_store c) as [st|] eqn:Hc.
  - destruct (put st (waited_text m)) as [[r st']|x|] eqn:Hw.
    + apply Hput; [|done..|].
      { pose proof (store_write_same (waited_text m) c) as Hsw. unfold store_write in Hsw. by rewrite Hc, Hw in Hsw. }
      intros s' Hs'. split; [congruence|right; split; [done|by exists st, st']].
    + exists regs, l, c. split_and!; [done..| |done]. split; [done|by intros d r|congruence|by left|].
      intros m' w' _ Hd'. rewrite Hd in Hd'. injection Hd' as <- <-. right. split_and!; [done..|]. right. split; [done|]. right. exists st. intros y. by rewrite Hw.
    + exists regs, l, c. split_and!; [done..| |done]. split; [done|by intros d r|congruence|by left|].
      intros m' w' _ Hd'. rewrite Hd in Hd'. injection Hd' as <- <-. right. split_and!; [done..|]. right. split; [done|]. right. exists st. intros y. by rewrite Hw.
  - exists regs, l, c. split_and!; [done..| |done]. split; [done|by intros d r|done|by left|].
    intros m' w' _ Hd'. rewrite Hd in Hd'. injection Hd' as <- <-. right. split_and!; [done..|]. right. split; [done|by left].
Qed.
(** Several firings, of distinct waits. *)
Record fires_all (ids : list MoteId) (k : list JournalEntry) (c c' : C) : Prop := {
  fa_others : others_kept (.∈ ids) c c';
  fa_results : results_kept c.(projection) c'.(projection);
  fa_store : c'.(core_store) = None -> c.(core_store) = None;
  fa_nodup : NoDup (entry_mote_id <$> k);
  fa_commits : forall e, e ∈ k -> entry_mote_id e ∈ ids /\ is_committed_of (entry_mote_id e) e = true
    /\ state_of_id c.(projection) (entry_mote_id e) = MoteState.Pending;
  fa_settled : forall id m w, id ∈ ids -> state_of_id c.(projection) id = MoteState.Pending ->
    c.(dispatched).(defs) !! id = Some (m, w) -> settled_wait id m w c c'
}.
Lemma wait_result_mono m s0 s s' s1 r : results_kept s0 s -> results_kept s' s1 -> wait_result m s s' r -> wait_result m s0 s1 r.
Proof.
  intros H0 H1 [Ha Hb]. split; [intros p Hp; by apply Ha, (lone_kept m s0)|].
  destruct Hb as [Hb|[Hb Hput]]; [left; by apply (lone_kept m s')|right]. split; [|done].
  destruct (lone_parent_result m s0) as [p|] eqn:Hp; [|done]. apply (lone_kept _ _ _ _ H0) in Hp. congruence.
Qed.
Lemma hindered_mono m w (c0 c c' c1 : C) : results_kept c0.(projection) c.(projection) -> results_kept c'.(projection) c1.(projection) ->
  (c.(core_store) = None -> c0.(core_store) = None) -> hindered m w c c' -> hindered m w c0 c1.
Proof.
  intros H0 H1 Hst [(r & Hr & Ha)|[Hl Hp]]; [left; exists r; split; [by eapply wait_result_mono|done]|right].
  split; [|destruct Hp; [left; auto|by right]].
  destruct (lone_parent_result m (projection c0)) as [p|] eqn:Hp0; [|done]. apply (lone_kept _ _ _ _ H0) in Hp0. congruence.
Qed.
(** What happened to a wait stands while others fire. *)
Lemma settled_before id m w (P : MoteId -> Prop) (c c1 c' : C) : others_kept P c1 c' -> ~ P id -> results_kept c1.(projection) c'.(projection) ->
  settled_wait id m w c c1 -> settled_wait id m w c c'.
Proof.
  intros Ho Hid Hk Hs. destruct (Ho id Hid) as (Hb & Ht & Hd). destruct (bare_results _ _ _ Hb) as [E1 E2].
  destruct Hs as [(r & Hr & [F1 F2 F3 F4])|(G1 & G2 & G3 & G4)]; [left|right].
  - exists r. split; [by eapply wait_result_mono; [by intros ? ?|done|]|]. split; congruence.
  - split_and!; try congruence. eapply hindered_mono; [by intros ? ?|exact Hk|done|done].
Qed.
Lemma settled_after id m w (P : MoteId -> Prop) (c c1 c' : C) : others_kept P c c1 -> ~ P id -> results_kept c.(projection) c1.(projection) ->
  (c1.(core_store) = None -> c.(core_store) = None) -> settled_wait id m w c1 c' -> settled_wait id m w c c'.
Proof.
  intros Ho Hid Hk Hst Hs. destruct (Ho id Hid) as (Hb & Ht & Hd).
  destruct Hs as [(r & Hr & Hf)|(G1 & G2 & G3 & G4)]; [left|right].
  - exists r. split; [|done]. eapply wait_result_mono; [exact Hk|by intros ? ?|done].
  - split_and!; try congruence. eapply hindered_mono; [exact Hk|by intros ? ?|done|done].
Qed.
Lemma committed_of_id id e : is_committed_of id e = true -> entry_mote_id e = id.
Proof. destruct e; try done. cbn. by intros H%bool_decide_eq_true. Qed.
Lemma fires_cons id ids l e k (c c1 c' : C) : id ∉ ids -> fires_one id l (l ++ e) c c1 -> fires_all ids k c1 c' -> fires_all (id :: ids) (e ++ k) c c'.
Proof.
  intros Hni [A1 A2 A3 A4 A5] [B1 B2 B3 B4 B5 B6].
  assert (He : e = [] /\ bare c1.(projection) id = bare c.(projection) id
    \/ state_of_id c.(projection) id = MoteState.Pending /\ exists x, e = [x] /\ is_committed_of id x = true).
  { destruct A4 as [[H ?]|(H & x & Hx & ?)]; [left|right].
    - split; [|done]. by apply (app_inv_head l); rewrite app_nil_r.
    - split; [done|]. exists x. by apply app_inv_head in Hx. }
  assert (Hst : forall d, d ∈ ids -> state_of_id c1.(projection) d = state_of_id c.(projection) d).
  { intros d Hd. by apply bare_results, A1; intros <-. }
  split.
  - intros d Hd. destruct (A1 d) as (X1 & X2 & X3); [set_solver|]. destruct (B1 d) as (Y1 & Y2 & Y3); [set_solver|]. split_and!; congruence.
  - intros d r Hd. by apply B2, A2.
  - auto.
  - rewrite fmap_app. apply NoDup_app. split_and!; [|intros d|done].
    + destruct He as [[-> _]|(_ & x & -> & _)]; [constructor|apply NoDup_singleton].
    + destruct He as [[-> _]|(_ & x & -> & Hx)]; [by intros []%elem_of_nil|]. intros Hd%list_elem_of_singleton (y & -> & Hy)%list_elem_of_fmap.
      apply Hni. rewrite <- (committed_of_id _ _ Hx), <- Hd. by apply B5.
  - intros y [Hy|Hy]%elem_of_app.
    + destruct He as [[-> _]|(Hp & x & -> & Hx)]; [by apply elem_of_nil in Hy|]. apply list_elem_of_singleton in Hy as ->.
      rewrite (committed_of_id _ _ Hx). split_and!; [by apply elem_of_cons; left|done..].
    + destruct (B5 y Hy) as (Hi & Hc & Hp). split_and!; [by apply elem_of_cons; right|done|]. by rewrite <- Hst.
  - intros d m w [E|Hd]%elem_of_cons Hp Hdf.
    + subst d. apply (settled_before id m w (.∈ ids) c c1 c'); [done..|]. by apply A5.
    + apply (settled_after d m w (eq id) c c1 c'); [done|by intros <-|done..|]. apply B6; [done|by rewrite Hst|].
      rewrite <- Hdf. by apply A1; intros <-.
Qed.
Lemma each_fires ids : NoDup ids -> forall regs l c n, in_sync regs l c -> room l (length ids + n) -> defs_keyed c ->
  exists regs' k c', each (fire_wait (E := unit)) ids c = (Ok tt, c') /\ in_sync regs' (l ++ k) c' /\ room (l ++ k) n /\ fires_all ids k c c'.
Proof.
  induction 1 as [|id ids Hni _ IH]; intros regs l c n Hs Hr Hk.
  { exists regs, [], c. rewrite app_nil_r. split_and!; [done..|]. split; [by intros d _|by intros d r|done|constructor|by intros e He%elem_of_nil|by intros d m w Hd%elem_of_nil]. }
  cbn [each length] in *. destruct (fire_wait_one id regs l c (length ids + n)%nat Hs Hr Hk) as (r1 & l1 & c1 & H1 & H2 & H3 & H4 & H5).
  unfold cbind. rewrite H1. destruct (IH r1 l1 c1 n H2 H3 H5) as (r2 & k & c2 & G1 & G2 & G3 & G4).
  assert (exists e, l1 = l ++ e) as [e ->].
  { destruct (fo_grows _ _ _ _ _ H4) as [[-> _]|(_ & e & -> & _)]; [exists []; by rewrite app_nil_r|by exists [e]]. }
  exists r2, (e ++ k), c2. rewrite app_assoc. split_and!; [done..|]. by eapply fires_cons.
Qed.
(** The retries of a drain come first: each takes its timer off and mints an
    attempt, which adds a definition and is no news of any Mote. *)
Definition minted (now : Z) (c : C) : C :=
  (each (fire_attempt (E := unit)) (List.filter (fun x => x.1.2 =? 1) (due now c.(dispatched))) c).2.
Lemma mint_bare m w n (c : C) id : bare (mint_attempt m w n c).(projection) id = bare c.(projection) id.
Proof.
  unfold mint_attempt, materialize_react_turn. cbn [projection with_dispatch with_projection]. rewrite bare_register.
  unfold persist_def. destruct (core_store c); [|done]. by destruct (put _ _) as [[]|?|].
Qed.
Lemma mint_store m w n (c : C) : (mint_attempt m w n c).(core_store) = None -> c.(core_store) = None.
Proof.
  unfold mint_attempt, materialize_react_turn. cbn [core_store with_dispatch with_projection]. unfold persist_def.
  destruct (core_store c) eqn:E; [|done]. destruct (put _ _) as [[]|?|]; cbn; congruence.
Qed.
Lemma persist_dispatched d (c : C) : (persist_def d c).(dispatched) = c.(dispatched).
Proof. unfold persist_def. destruct (core_store c); [|done]. by destruct (put _ _) as [[]|?|]. Qed.
Lemma attempts_run xs : forall c, exists c', each (fire_attempt (E := unit)) xs c = (Ok tt, c') /\ same_log c c'
  /\ (forall id, bare c'.(projection) id = bare c.(projection) id)
  /\ (forall id, id ∉ xs.*1.*1 -> c'.(dispatched).(armed_timers) !! id = c.(dispatched).(armed_timers) !! id)
  /\ (c'.(core_store) = None -> c.(core_store) = None) /\ (defs_keyed c -> defs_keyed c').
Proof.
  induction xs as [|[[id p] a] xs IH]; intros c; [exists c; split_and!; try done; apply same_log_refl|]. cbn [each]. unfold cbind.
  assert (exists c1, fire_attempt (E := unit) (id, p, a) c = (Ok tt, c1) /\ same_log c c1
    /\ (forall id, bare c1.(projection) id = bare c.(projection) id)
    /\ c1.(dispatched).(armed_timers) = delete id c.(dispatched).(armed_timers)
    /\ (c1.(core_store) = None -> c.(core_store) = None) /\ (defs_keyed c -> defs_keyed c1)) as (c1 & -> & H1 & H2 & H3 & H4 & H5).
  { unfold fire_attempt. cbv zeta. pose proof (dispatch_same_log (set_timers (delete id)) c) as Hd.
    case_bool_decide as Hp; cbn [negb]; [|eexists; by split_and!].
    destruct (defs _ !! id) as [[m w]|] eqn:E; [|eexists; by split_and!].
    eexists. split_and!; [done|eapply same_log_trans; [exact Hd|apply mint_same]|intros; by rewrite mint_bare| |intros Hst; by apply mint_store in Hst|].
    - unfold mint_attempt, materialize_react_turn. cbn [dispatched with_dispatch with_projection armed_timers set_defs set_submitted].
      by rewrite persist_dispatched.
    - intros Hk i m' w'. unfold mint_attempt, materialize_react_turn. cbn [dispatched with_dispatch with_projection defs set_defs set_submitted].
      rewrite persist_dispatched. intros [[<- [= <- <-]]|[_ Hi]]%lookup_insert_Some; [done|by apply (Hk i m' w')]. }
  destruct (IH c1) as (c' & -> & G1 & G2 & G3 & G4 & G5). exists c'.
  split_and!; [done|by eapply same_log_trans|intros; by rewrite G2| |auto..]. intros i Hi. cbn in Hi.
  apply not_elem_of_cons in Hi as [Hi1 Hi2]. rewrite G3 by done. rewrite H3. by apply lookup_delete_ne.
Qed.
Lemma due_spec now d id p a : (id, p, a) ∈ due now d <-> exists f, d.(armed_timers) !! id = Some (f, p, a) /\ f <= now.
Proof.
  unfold due. rewrite list_elem_of_omap. split.
  - intros ([i [[f p'] a']] & Hin%elem_of_btree_iter & Hx). cbn in Hx. destruct (Z.leb_spec f now); [|done]. injection Hx as <- <- <-. by exists f.
  - intros (f & Hin & Hle). exists (id, (f, p, a)). split; [by apply elem_of_btree_iter|]. cbn. by rewrite (proj2 (Z.leb_le _ _)).
Qed.
Definition waits_due (now : Z) (d : Dispatch) : list MoteId := (List.filter (fun x => x.1.2 =? 0) (due now d)).*1.*1.
Lemma waits_due_elem now d id : id ∈ waits_due now d <-> exists f a, d.(armed_timers) !! id = Some (f, 0, a) /\ f <= now.
Proof.
  unfold waits_due. rewrite !list_elem_of_fmap. split.
  - intros ([i p] & -> & ([[j q] a] & [= -> ->] & [Hin%list_elem_of_In Hp%Z.eqb_eq]%list_elem_of_In%filter_In)%list_elem_of_fmap).
    cbn in *. subst. apply due_spec in Hin as (f & Hf & Hle). by exists f, a.
  - intros (f & a & Hf & Hle). exists (id, 0). split; [done|]. apply list_elem_of_fmap. exists (id, 0, a). split; [done|].
    apply list_elem_of_In, filter_In. split; [|done]. apply list_elem_of_In, due_spec. by exists f.
Qed.
Lemma waits_due_nodup now d : NoDup (waits_due now d).
Proof.
  unfold waits_due, due. pose proof (NoDup_btree_keys d.(armed_timers)) as Hn. unfold btree_keys in Hn.
  induction (btree_iter d.(armed_timers)) as [|[i [[f p] a]] xs IH]; [constructor|].
  cbn in Hn. apply NoDup_cons in Hn as [Hi Hn]. cbn. destruct (f <=? now); [|by apply IH]. cbn. destruct (p =? 0); [|by apply IH].
  cbn. constructor; [|by apply IH]. intros (y & -> & (z & -> & [Hz _]%list_elem_of_In%filter_In)%list_elem_of_fmap)%list_elem_of_fmap.
  apply list_elem_of_In, list_elem_of_omap in Hz as ([j [[f' p'] a']] & Hin & Hz). cbn in Hz. destruct (f' <=? now); [|done]. injection Hz as <-.
  apply Hi, list_elem_of_fmap. by exists (j, (f', p', a')).
Qed.

(** [C30] A durable wait fires once and not early. A drain at [now] returns,
    whatever the journal or the store refuses, and appends only commits of waits
    that were armed at or before [now] and still Pending, one for each. Every other
    Mote keeps its state and its result, and a timer set later than [now] stays
    armed. Each due, pending wait whose definition is on the table (after the
    retries of the same drain are minted) is settled: it is Committed, with its lone
    data parent's result or the reference of its stored descriptor, and is off the
    timers and the definitions, so that no later drain fires it; or the journal
    refused the commit, or there was nothing to commit, and it stays Pending and
    armed. *)
Theorem wait_fires_once regs l (c : C) now :
  in_sync regs l c -> room l (size c.(dispatched).(armed_timers)) -> defs_keyed c ->
  let due_wait id := exists f a, c.(dispatched).(armed_timers) !! id = Some (f, 0, a) /\ f <= now in
  exists regs' k c', fire_due_timers (E := unit) now c = (Ok tt, c') /\ in_sync regs' (l ++ k) c'
    /\ NoDup (entry_mote_id <$> k)
    /\ (forall e, e ∈ k -> is_committed_of (entry_mote_id e) e = true /\ due_wait (entry_mote_id e)
          /\ state_of_id c.(projection) (entry_mote_id e) = MoteState.Pending)
    /\ (forall id, ~ due_wait id -> state_of_id c'.(projection) id = state_of_id c.(projection) id
          /\ result_ref_of c'.(projection) id = result_ref_of c.(projection) id)
    /\ (forall id t, c.(dispatched).(armed_timers) !! id = Some t -> now < t.1.1 -> c'.(dispatched).(armed_timers) !! id = Some t)
    /\ (forall id m w, due_wait id -> state_of_id c.(projection) id = MoteState.Pending ->
          (minted now c).(dispatched).(defs) !! id = Some (m, w) ->
          (exists r, wait_result m c.(projection) c'.(projection) r /\ fired id r c')
          \/ (state_of_id c'.(projection) id = MoteState.Pending
              /\ c'.(dispatched).(armed_timers) !! id = c.(dispatched).(armed_timers) !! id /\ hindered m w c c')).
Proof.
  intros Hs Hr Hk due_wait. unfold fire_due_timers, minted. cbv zeta. pose proof (filter_purposes (due now (dispatched c))) as Hlen.
  pose proof (length_due now (dispatched c)) as Hdl. set (as1 := List.filter (fun x => x.1.2 =? 1) (due now (dispatched c))) in *.
  fold (waits_due now (dispatched c)). destruct (attempts_run as1 c) as (c1 & H1 & H2 & H3 & H4 & H5 & H6).
  unfold cbind. rewrite H1. cbn [snd]. destruct (H2 regs l Hs) as (regs1 & _ & Hs1).
  destruct (each_fires _ (waits_due_nodup now (dispatched c)) regs1 l c1 0 Hs1) as (regs2 & k & c2 & G1 & G2 & _ & [F1 F2 F3 F4 F5 F6]);
    [|by apply H6|].
  { eapply room_le; [exact Hr|]. unfold waits_due. rewrite !length_fmap. lia. }
  assert (Has : forall id, id ∈ as1.*1.*1 -> exists f a, armed_timers (dispatched c) !! id = Some (f, 1, a) /\ f <= now).
  { intros id (y & -> & ([[j q] a] & -> & [Hin Hp%Z.eqb_eq]%list_elem_of_In%filter_In)%list_elem_of_fmap)%list_elem_of_fmap.
    apply list_elem_of_In in Hin. cbn in *. subst. apply due_spec in Hin as (f & Hf & Hle). by exists f, a. }
  assert (Hk1 : results_kept (projection c) (projection c1)).
  { intros id r. by destruct (bare_results _ _ _ (H3 id)) as [_ ->]. }
  exists regs2, k, c2. split_and!; [done|done|done| | | |].
  - intros e He. destruct (F5 e He) as (Hi & Hc & Hp). split_and!; [done|by apply waits_due_elem|]. by rewrite <- (proj1 (bare_results _ _ _ (H3 _))).
  - intros id Hid. apply bare_results. rewrite (proj1 (F1 id ltac:(by rewrite waits_due_elem))). apply H3.
  - intros id t Ht Hlt. destruct (F1 id) as (_ & -> & _); [rewrite waits_due_elem; intros (f & a & Hf & Hle); rewrite Ht in Hf; injection Hf as ->; cbn in Hlt; lia|].
    rewrite H4; [done|]. intros (f & a & Hf & Hle)%Has. rewrite Ht in Hf. injection Hf as ->. cbn in Hlt. lia.
  - intros id m w Hd Hp Hdf. assert (Hnot : id ∉ as1.*1.*1).
    { intros (f & a & Hf & _)%Has. destruct Hd as (f' & a' & Hf' & _). congruence. }
    destruct (F6 id m w) as [(r & Hw & Hfd)|(X1 & X2 & X3 & X4)]; [by apply waits_due_elem|by rewrite (proj1 (bare_results _ _ _ (H3 _)))|done|left|right].
    + exists r. split; [|done]. eapply wait_result_mono; [exact Hk1|by intros ? ?|done].
    + split_and!; [|by rewrite X2, H4|eapply hindered_mono; [exact Hk1|by intros ? ?|done|done]].
      rewrite <- Hp. apply bare_results. by rewrite X1, H3.
Qed.

(** The folded timers re-arm at their last journaled instant. *)
Lemma rearm_one (ts : list TimerRecord) (m : gmap bytes (Z * Z * Z)) rec :
  foldl (fun m t => <[t.(TimerRecord.subject_mote_id) :=
                       (t.(TimerRecord.fire_at_unix_ms), t.(TimerRecord.purpose), t.(TimerRecord.attempt))]> m)
    m (ts ++ [rec]) !! rec.(TimerRecord.subject_mote_id)
  = Some (rec.(TimerRecord.fire_at_unix_ms), rec.(TimerRecord.purpose), rec.(TimerRecord.attempt)).
Proof. rewrite foldl_app. cbn. apply lookup_insert_eq. Qed.
Definition record_of (inst : bytes) (id : MoteId) (fire_at : Z) (d : MoteDef) (n : Z) : TimerRecord := {|
  TimerRecord.instance_id := inst; TimerRecord.subject_mote_id := id; TimerRecord.purpose := 0;
  TimerRecord.attempt := 0; TimerRecord.fire_at_unix_ms := fire_at; TimerRecord.anchor_ref := MoteDef_hash d;
  TimerRecord.seq := n |}.
Lemma find_timer_last id (ts : list TimerRecord) rec :
  List.find (timer_of id) ts = None -> rec.(TimerRecord.subject_mote_id) = id ->
  List.find (timer_of id) (ts ++ [rec]) = Some rec.
Proof.
  intros Hn Hid. induction ts as [|t ts IH]; cbn in *; [unfold timer_of; by rewrite bool_decide_true|].
  destruct (timer_of id t); [done|]. by apply IH.
Qed.

(** A wait's instant survives a restart: arming journals one timer fact at
    the clock plus the delay (saturating), the coordinator that restarts from
    that journal re-arms the wait at the same instant whatever the time is then,
    and settling the re-parked wait again appends nothing. *)
Theorem wait_instant_survives_restart regs l (c : C) now wait_id inst mote w delay (st : option S) :
  in_sync regs l c -> room l 2 -> c.(dispatched).(defs) !! wait_id = Some (mote, w) ->
  state_of_id c.(projection) wait_id = MoteState.Pending -> find_timer (timer_of wait_id) c.(projection) = None ->
  scan_parents c.(projection) true mote.(Mote.parents) = (true, false) ->
  config_parse mote WAIT_DELAY_MS_KEY = Some delay ->
  accepts (timer_entry inst wait_id 0 0 (u64_sat_add now delay) mote.(def)) ->
  let instant := (u64_sat_add now delay, 0, 0) in
  exists c1 c2 : C, settle_wait (E := unit) now (wait_id, inst) c = (Ok tt, c1)
    /\ in_sync regs (l ++ [TimerArmed inst wait_id 0 0 (u64_sat_add now delay) (MoteDef_hash mote.(def))
                             (Z.of_nat (length l) + 1)]) c1
    /\ c1.(dispatched).(armed_timers) !! wait_id = Some instant
    /\ c1.(dispatched).(parked_waits) !! wait_id = None
    /\ core_start c1.(core_journal) st = Some c2
    /\ (rearm_timers c2).(dispatched).(armed_timers) !! wait_id = Some instant
    /\ forall later inst' d, d.(defs) !! wait_id = Some (mote, w) ->
         exists c3, settle_wait (E := unit) later (wait_id, inst') (with_dispatch (fun _ => d) (rearm_timers c2)) = (Ok tt, c3)
           /\ c3.(core_journal) = c1.(core_journal) /\ c3.(dispatched).(armed_timers) !! wait_id = Some instant.
Proof.
  intros Hs Hr Hd Hp Ht Hsc Hcfg Ha instant. set (fire_at := u64_sat_add now delay) in *.
  set (f := with_dispatch (fun d => set_waits (delete wait_id) (set_timers <[wait_id := (fire_at, 0, 0)]> d)) : C -> C).
  destruct (append_fresh (E := unit) regs l c (timer_entry inst wait_id 0 0 fire_at mote.(def)) f)
    as (c1 & H1 & H2 & H3 & H4); [done|by apply writable_plain|by eapply room_le; [exact Hr|lia]|done|].
  set (n := Z.of_nat (length l) + 1) in *. set (rec := record_of inst wait_id fire_at mote.(def) n).
  assert (Htm : timers (projection c1) = timers (projection c) ++ [rec]) by (by rewrite H4).
  assert (Hst : state_of_id (projection c1) wait_id = MoteState.Pending) by (by rewrite H4).
  assert (Hr1 : room (l ++ [set_seq (derive_key (timer_entry inst wait_id 0 0 fire_at mote.(def))) n]) 1).
  { unfold room in *. rewrite length_app. cbn [length]. lia. }
  destruct (sync_recovers _ _ _ H2 Hr1) as (p & sub & regs' & Hrec & Hsim & Hstate).
  assert (Htp : timers p = timers (projection c) ++ [rec]) by (by rewrite <- Htm, (sr_timers _ _ (sim_run _ _ _ Hsim))).
  assert (Hpp : state_of_id p wait_id = MoteState.Pending) by (by rewrite Hstate).
  exists (f c1). eexists. unfold core_start. change (core_journal (f c1)) with (core_journal c1).
  rewrite Hrec. split_and!; [| |apply lookup_insert_eq|apply lookup_delete_eq|done| |].
  - unfold settle_wait. rewrite Hd, bool_decide_true, Ht, Hsc, Hcfg by done. exact H1.
  - by apply in_sync_dispatch.
  - unfold rearm_timers. cbn. rewrite Htp, List.filter_app. cbn [List.filter].
    assert (unsettled p rec = true) as -> by (unfold unsettled; cbn; by rewrite Hpp). apply rearm_one.
  - intros later inst' d Hd'. eexists. unfold settle_wait. cbn [dispatched with_dispatch projection rearm_timers].
    rewrite Hd', bool_decide_true by done. unfold find_timer. rewrite Htp, (find_timer_last _ _ rec Ht) by done.
    cbn [negb]. split_and!; [done|done|apply lookup_insert_eq].
Qed.
End OneWait.

(** ** A concrete wait *)
#[local] Existing Instance demo_blake3.
#[local] Existing Instance demo_bincode.
(** Waits half a second after its one parent. *)
Definition demo_wait (n parent : Z) : Mote := {|
  Mote.mote_id := demo_id n;
  def := {| logic_ref := replicate 32 1; model_id := str "m"; prompt_template_hash := replicate 32 2;
            tool_contract := ∅; Mote.nd_class := Pure; config_subset := {[WAIT_DELAY_MS_KEY := str "500"]};
            Mote.effect_pattern := IdempotentByConstruction; Mote.critic_for := None;
            Mote.is_topology_shaper := false; inference_params := InferenceParams_default; critic_check := None; schema_version := 5 |};
  input_data_id := replicate 32 3; graph_position := []; Mote.parents := [{| parent_id := demo_id parent; edge := EdgeMeta_data |}] |}.
Definition park_wait (n parent : Z) : Demo -> Demo :=
  with_dispatch (fun d => set_waits <[demo_id n := replicate 16 7]>
    (set_defs <[demo_id n := (demo_wait n parent, demo_warrant 10 FsMode.ReadWrite)]> (set_submitted ({[demo_id n]} ∪.) d))).
Definition demo_waiting : Demo := park_wait 3 1 demo_committed.
Lemma demo_waiting_sync : in_sync [] demo_log2 demo_waiting.
Proof. apply in_sync_dispatch, demo_committed_sync. Qed.
Lemma settle_passes_follow_journal_witness :
  exists regs l c', settle_wait_steps (E := unit) 1000 demo_waiting = (Ok tt, c') /\ in_sync regs l c'
    /\ demo_log2 `prefix_of` l.
Proof.
  destruct (settle_passes_follow_journal [] demo_log2 demo_waiting 1000 demo_waiting_sync) as [Hw _].
  destruct Hw as (regs & l & c' & H); [by vm_compute|]. by exists regs, l, c'.
Defined.
(** A drain at 2000: the wait armed at 1500 fires, the one armed at 2500 stays. *)
Definition demo_armed : Demo :=
  with_dispatch (set_timers (fun t => <[demo_id 3 := (1500, 0, 0)]> (<[demo_id 4 := (2500, 0, 0)]> t))) demo_waiting.
Lemma wait_fires_once_witness :
  exists c', fire_due_timers (E := unit) 2000 demo_armed = (Ok tt, c')
    /\ state_of_id c'.(projection) (demo_id 3) = MoteState.Committed
    /\ result_ref_of c'.(projection) (demo_id 3) = Some (replicate 32 101)
    /\ c'.(dispatched).(armed_timers) !! demo_id 4 = Some (2500, 0, 0).
Proof.
  destruct (wait_fires_once [] demo_log2 demo_armed 2000) as (regs & k & c' & H1 & _ & _ & _ & _ & H2 & H3).
  - apply in_sync_dispatch, demo_waiting_sync.
  - by vm_compute.
  - intros id m w Hd.
    change (<[demo_id 3 := (demo_wait 3 1, demo_warrant 10 FsMode.ReadWrite)]> (demo_committed.(dispatched).(defs)) !! id = Some (m, w)) in Hd.
    apply lookup_insert_Some in Hd as [[<- [= <- <-]]|[_ Hn]]; [done|].
    assert (defs (dispatched demo_committed) = ∅) as E by (by vm_compute). by rewrite E, lookup_empty in Hn.
  - exists c'. split; [exact H1|]. destruct (H3 (demo_id 3) (demo_wait 3 1) (demo_warrant 10 FsMode.ReadWrite)) as [(r & [Hr _] & [F1 F2 _ _])|(_ & _ & Hh)].
    + exists 1500, 0. split; [apply lookup_insert_eq|lia].
    + by vm_compute.
    + by vm_compute.
    + split_and!; [done| |by apply (H2 (demo_id 4) (2500, 0, 0))]. rewrite F2. f_equal. apply Hr. by vm_compute.
    + destruct Hh as [(r & _ & Ha)|[Hl _]]; [by destruct Ha|]. by vm_compute in Hl.
Defined.
Lemma wait_instant_survives_restart_witness :
  exists c1 c2 : Demo, settle_wait (E := unit) 1000 (demo_id 3, replicate 16 7) demo_waiting = (Ok tt, c1)
    /\ core_start c1.(core_journal) None = Some c2
    /\ (rearm_timers c2).(dispatched).(armed_timers) !! demo_id 3 = Some (1500, 0, 0).
Proof.
  destruct (wait_instant_survives_restart [] demo_log2 demo_waiting 1000 (demo_id 3) (replicate 16 7) (demo_wait 3 1)
    (demo_warrant 10 FsMode.ReadWrite) 500 None demo_waiting_sync) as (c1 & c2 & H1 & _ & _ & _ & H2 & H3 & _);
    [by vm_compute..|done|]. by exists c1, c2.
Defined.

(** ** A crashed parent *)
(** The worker registered at 0 holds Mote 1, which Mote 3 waits for. *)
Definition demo_worker : WorkerId * InMemoryWorkerRegistry := register 0 registry_new Bwrap (str "w").
Definition demo_leased : Demo :=
  with_tracker (fun t => record_lease t demo_worker.1 [demo_id 1]) (park_wait 3 1 demo_core).
Definition run {A} (m : comp Demo A unit) (c : Demo) : Demo := (m c).2.
(** A parent whose worker crashed is offered for another lease, and may
    still commit; the settle pass already dead-letters the wait on it, which stays
    Failed after the parent commits. *)
Theorem crashed_parent_dead_letters_wait :
  let crashed := run (reap_dead_workers 10000 demo_worker.2) demo_leased in
  let settled := run (settle_wait_steps 10000) crashed in
  let committed := run (flush_commits None [(demo_proposal 1 5, 0%nat)]) settled in
  demo_id 1 ∈ rescheduleable crashed.(dispatched).(tracker)
  /\ state_of_id crashed.(projection) (demo_id 3) = MoteState.Pending
  /\ failure_reason_of crashed.(projection) (demo_id 1) = None
  /\ state_of_id settled.(projection) (demo_id 3) = MoteState.Failed
  /\ failure_reason_of settled.(projection) (demo_id 3) = Some FailureReason.DeadLettered
  /\ state_of_id committed.(projection) (demo_id 1) = MoteState.Committed
  /\ state_of_id committed.(projection) (demo_id 3) = MoteState.Failed.
Proof. cbv zeta. split_and!; by vm_compute. Qed.
