(* ===== verification/ReactShape.v ===== *)
(** The Motes the coordinator builds itself (kx-coordinator react_shape.rs and
    replan_shape.rs): agent turns, tool observations, rerank turns and replan
    shapers. Each is a function of recorded facts, so a restart rebuilds it; the
    domain tags and salts keep the builders' identities apart. *)
From S2P Require Import Prelude Utf8 CriticTypes Mote Entry Content DemoCodec.

(** ** Configuration keys (kx-mote strings.rs) *)
Definition PROMPT_KEY : bytes := str "prompt".
Definition REACT_TURN_KEY : bytes := str "kx.react.turn".
Definition TOOL_ARGS_KEY : bytes := str "kx.tool.args".
Definition CONTEXT_ITEMS_KEY : bytes := str "kx.context.items".
Definition IMAGE_REF_KEY : bytes := str "image_ref".
Definition RERANK_TURN_KEY : bytes := str "kx.rerank.turn".
Definition RERANK_QUERY_KEY : bytes := str "kx.rerank.query".
Definition RERANK_CANDIDATES_KEY : bytes := str "kx.rerank.candidates".
Definition MOTE_DEF_SCHEMA_VERSION : Z := 5.

(** ** Budgets *)
Definition REACT_MAX_TURNS : Z := 32.
Definition REACT_DEFAULT_MAX_TURNS : Z := 16.
Definition REACT_MAX_TOOL_CALLS : Z := 20.
Definition REACT_DEFAULT_MAX_TOOL_CALLS : Z := 20.
Definition MAX_REJECTED_REASON_LEN : nat := 512.
Definition SHAPER_MAX_OUTPUT_TOKENS : Z := 128.

(** ** Instructions *)
Definition newline : bytes := [10].
Definition bounded_reason (reason : bytes) : bytes :=
  if (length (chars reason) <=? MAX_REJECTED_REASON_LEN)%nat then reason
  else concat (take MAX_REJECTED_REASON_LEN (chars reason)).
Definition render_reprompt (base_instruction reason : bytes) : bytes :=
  base_instruction ++ newline ++ newline ++ str "[Your previous tool call was REJECTED: " ++ reason ++ newline
  ++ str "Correct it — call a tool you were granted with arguments that match its "
  ++ str "schema, or answer the question directly if you cannot.]".
Definition render_settle_nudge (base_instruction : bytes) : bytes :=
  base_instruction ++ newline ++ newline ++ str "[You have already gathered tool results, and your "
  ++ str "tool-call budget is nearly exhausted. Do NOT call another tool. Using the "
  ++ str "observations you already have, give your FINAL answer to the question now, "
  ++ str "directly and in prose.]".
Definition render_reprompt_nudged (base_instruction reason : bytes) : bytes :=
  render_reprompt base_instruction reason ++ newline ++ newline
  ++ str "[This is your LAST turn and your tool-call budget is nearly exhausted. "
  ++ str "Do NOT call another tool. Answer the question directly, in prose, using whatever "
  ++ str "you have — and say plainly what you could not determine.]".
Definition render_turn_instruction (base_instruction : bytes) (prev_reject : option bytes) (near_budget : bool) : bytes :=
  match prev_reject, near_budget with
  | Some reason, true => render_reprompt_nudged base_instruction reason
  | Some reason, false => render_reprompt base_instruction reason
  | None, true => render_settle_nudge base_instruction
  | None, false => base_instruction
  end.
Definition failure_reason_token (reason : option FailureReason) : bytes :=
  match FailureReason.as_u8 <$> reason with
  | Some 0 => str "timed-out"
  | Some 1 => str "executor-refused"
  | Some 2 => str "validator-rejected"
  | Some 3 => str "worker-crashed"
  | Some 4 => str "upstream-repudiated"
  | Some 5 => str "unsafe-world-mutating-construction"
  | Some 6 => str "compensated-at-least-once"
  | Some 7 => str "quarantined-at-least-once"
  | Some 8 => str "dead-lettered"
  | _ => str "transient-or-unknown"
  end.
Definition corrected_prompt (base : bytes) (failures : list (MoteId * option FailureReason)) : bytes :=
  base ++ newline ++ newline
  ++ str "The previous attempt left failed step(s). Respond with a `replan` envelope: "
  ++ str "either `next_steps` that retry or replace them (corrected context / a role whose "
  ++ str "authority fits), or `flag_human` with a reason if you cannot fix it within your "
  ++ str "authority. Failed step(s):"
  ++ concat ((fun x : MoteId * option FailureReason =>
       newline ++ str "- step " ++ to_hex x.1 ++ str " failed (reason: " ++ failure_reason_token x.2 ++ str ")")
     <$> failures).

Section Shapes.
Context `{Blake3} `{!Bincode MoteDef}.

(** ** Identity material: a domain tag, then fields of fixed width *)
Definition react_turn_text (instance_id : bytes) (turn : Z) : bytes :=
  str "kx-react-turn" ++ instance_id ++ to_le 4 turn.
Definition react_turn_id_material (instance_id : bytes) (turn : Z) : bytes :=
  ContentRef_of (react_turn_text instance_id turn).
Definition call_suffix (call_index : Z) : bytes := if 0 <? call_index then to_le 4 call_index else [].
Definition react_tool_text (instance_id : bytes) (turn call_index : Z) : bytes :=
  str "kx-react-tool" ++ instance_id ++ to_le 4 turn ++ call_suffix call_index.
Definition react_tool_id_material (instance_id : bytes) (turn call_index : Z) : bytes :=
  ContentRef_of (react_tool_text instance_id turn call_index).
Definition react_turn_text2 (instance_id step_salt : bytes) (turn : Z) : bytes :=
  str "kx-agentic-turn" ++ instance_id ++ step_salt ++ to_le 4 turn.
Definition react_turn_id_material2 (instance_id step_salt : bytes) (turn : Z) : bytes :=
  ContentRef_of (react_turn_text2 instance_id step_salt turn).
Definition react_tool_text2 (instance_id step_salt : bytes) (turn call_index : Z) : bytes :=
  str "kx-agentic-tool" ++ instance_id ++ step_salt ++ to_le 4 turn ++ call_suffix call_index.
Definition react_tool_id_material2 (instance_id step_salt : bytes) (turn call_index : Z) : bytes :=
  ContentRef_of (react_tool_text2 instance_id step_salt turn call_index).
Definition rerank_turn_text (instance_id base_results_ref query_ref : bytes) : bytes :=
  str "kx-rerank-turn" ++ instance_id ++ base_results_ref ++ query_ref.
Definition rerank_turn_id_material (instance_id base_results_ref query_ref : bytes) : bytes :=
  ContentRef_of (rerank_turn_text instance_id base_results_ref query_ref).
Definition replan_shaper_text (round : Z) : bytes := str "kx-replan-round" ++ to_le 4 round.
Definition replan_shaper_id_material (round : Z) : bytes := ContentRef_of (replan_shaper_text round).

(** ** Builders *)
Definition capped (max_output_tokens : Z) : InferenceParams := {|
  Mote.max_output_tokens := max_output_tokens;
  temperature_bps := InferenceParams_default.(temperature_bps); top_p_bps := InferenceParams_default.(top_p_bps);
  top_k := InferenceParams_default.(top_k); seed := InferenceParams_default.(seed);
  stop_tokens := InferenceParams_default.(stop_tokens); grammar := InferenceParams_default.(grammar) |}.
(** The [MoteDef] literal the model-turn builders share, and the tool builders'. *)
Definition turn_def (id_bytes model_id : bytes) (config : gmap bytes bytes) (shaper : bool) (max_output_tokens : Z)
    : MoteDef := {|
  critic_check := None; logic_ref := id_bytes; Mote.model_id := model_id; prompt_template_hash := id_bytes;
  tool_contract := ∅; nd_class := ReadOnlyNondet; config_subset := config;
  effect_pattern := IdempotentByConstruction; critic_for := None; is_topology_shaper := shaper;
  inference_params := capped max_output_tokens; schema_version := MOTE_DEF_SCHEMA_VERSION |}.
Definition tool_def (id_bytes model_id tool_id tool_version : bytes) : MoteDef := {|
  critic_check := None; logic_ref := id_bytes; Mote.model_id := model_id; prompt_template_hash := id_bytes;
  tool_contract := {[tool_id := tool_version]}; nd_class := WorldMutating; config_subset := ∅;
  effect_pattern := StageThenCommit; critic_for := None; is_topology_shaper := false;
  inference_params := InferenceParams_default; schema_version := MOTE_DEF_SCHEMA_VERSION |}.
Definition data_parent (id : MoteId) : ParentRef := {| parent_id := id; edge := EdgeMeta_data |}.

Definition build_react_turn (model_id instruction : bytes) (turn : Z) (instance_id : bytes) (max_output_tokens : Z)
    : Mote :=
  let id_bytes := react_turn_id_material instance_id turn in
  Mote_new (turn_def id_bytes model_id (<[REACT_TURN_KEY := instance_id]> {[PROMPT_KEY := instruction]})
              false max_output_tokens) id_bytes id_bytes [].
Definition build_react_tool (model_id tool_id tool_version : bytes) (turn : Z) (instance_id : bytes) (call_index : Z)
    (turn_mote_id : MoteId) : Mote :=
  let id_bytes := react_tool_id_material instance_id turn call_index in
  Mote_new (tool_def id_bytes model_id tool_id tool_version) id_bytes id_bytes [data_parent turn_mote_id].
Definition build_rerank_turn (model_id instance_id base_results_ref query_ref : bytes) (max_output_tokens : Z) : Mote :=
  let id_bytes := rerank_turn_id_material instance_id base_results_ref query_ref in
  Mote_new (turn_def id_bytes model_id
              (<[RERANK_CANDIDATES_KEY := base_results_ref]>
                 (<[RERANK_QUERY_KEY := query_ref]> {[RERANK_TURN_KEY := instance_id]}))
              false max_output_tokens) id_bytes id_bytes [].
Definition build_agentic_turn (model_id instruction : bytes) (turn : Z) (instance_id step_salt : bytes)
    (max_output_tokens : Z) : Mote :=
  let id_bytes := react_turn_id_material2 instance_id step_salt turn in
  Mote_new (turn_def id_bytes model_id (<[REACT_TURN_KEY := instance_id ++ step_salt]> {[PROMPT_KEY := instruction]})
              false max_output_tokens) id_bytes id_bytes [].
Definition build_agentic_tool (model_id tool_id tool_version : bytes) (turn : Z) (instance_id step_salt : bytes)
    (call_index : Z) (turn_mote_id : MoteId) : Mote :=
  let id_bytes := react_tool_id_material2 instance_id step_salt turn call_index in
  Mote_new (tool_def id_bytes model_id tool_id tool_version) id_bytes id_bytes [data_parent turn_mote_id].
Definition build_chain_turn (model_id instruction : bytes) (turn : Z) (instance_id : bytes) (step_salt : option bytes)
    (max_output_tokens : Z) : Mote :=
  match step_salt with
  | Some salt => build_agentic_turn model_id instruction turn instance_id salt max_output_tokens
  | None => build_react_turn model_id instruction turn instance_id max_output_tokens
  end.
Definition build_chain_tool (model_id tool_id tool_version : bytes) (turn : Z) (instance_id : bytes)
    (step_salt : option bytes) (call_index : Z) (turn_mote_id : MoteId) : Mote :=
  match step_salt with
  | Some salt => build_agentic_tool model_id tool_id tool_version turn instance_id salt call_index turn_mote_id
  | None => build_react_tool model_id tool_id tool_version turn instance_id call_index turn_mote_id
  end.
Definition build_replan_shaper (model_id planning_prompt : bytes) (round : Z) : Mote :=
  let id_bytes := replan_shaper_id_material round in
  Mote_new (turn_def id_bytes model_id {[PROMPT_KEY := planning_prompt]} true SHAPER_MAX_OUTPUT_TOKENS)
    id_bytes id_bytes [].

(** The marker of a turn names its chain (state.rs). *)
Definition decode_react_marker (b : bytes) : option (bytes * option bytes) :=
  if (length b =? INSTANCE_ID_LEN)%nat then Some (b, None)
  else if (length b =? INSTANCE_ID_LEN + 32)%nat
  then Some (take INSTANCE_ID_LEN b, Some (drop INSTANCE_ID_LEN b))
  else None.

(** ** One type for what the coordinator builds *)
Inductive Shape :=
| ShTurn (model_id instruction : bytes) (turn : Z) (instance_id : bytes) (step_salt : option bytes) (tokens : Z)
| ShTool (model_id tool_id tool_version : bytes) (turn : Z) (instance_id : bytes) (step_salt : option bytes)
    (call_index : Z)
| ShRerank (model_id instance_id base_results_ref query_ref : bytes) (tokens : Z)
| ShReplan (model_id planning_prompt : bytes) (round : Z).
Definition shape_mote (parent : MoteId) (s : Shape) : Mote :=
  match s with
  | ShTurn m i t inst salt tokens => build_chain_turn m i t inst salt tokens
  | ShTool m tool v t inst salt k => build_chain_tool m tool v t inst salt k parent
  | ShRerank m inst b q tokens => build_rerank_turn m inst b q tokens
  | ShReplan m p r => build_replan_shaper m p r
  end.
(** The fields have the widths of their types. *)
Definition salt_ok (s : option bytes) : Prop := match s with Some s => length s = 32%nat | None => True end.
Definition shape_ok (s : Shape) : Prop :=
  match s with
  | ShTurn _ _ t inst salt _ => u32 t /\ length inst = INSTANCE_ID_LEN /\ salt_ok salt
  | ShTool _ _ _ t inst salt k => u32 t /\ length inst = INSTANCE_ID_LEN /\ salt_ok salt /\ u32 k
  | ShRerank _ inst b q _ => length inst = INSTANCE_ID_LEN /\ length b = 32%nat /\ length q = 32%nat
  | ShReplan _ _ r => u32 r
  end.
Definition shape_text (s : Shape) : bytes :=
  match s with
  | ShTurn _ _ t inst None _ => react_turn_text inst t
  | ShTurn _ _ t inst (Some salt) _ => react_turn_text2 inst salt t
  | ShTool _ _ _ t inst None k => react_tool_text inst t k
  | ShTool _ _ _ t inst (Some salt) k => react_tool_text2 inst salt t k
  | ShRerank _ inst b q _ => rerank_turn_text inst b q
  | ShReplan _ _ r => replan_shaper_text r
  end.
(** Every text hashed on the way to the identity. *)
Definition hashed_texts (m : Mote) (text : bytes) : list bytes :=
  [text; bincode_encode m.(def); MoteDef_hash m.(def) ++ m.(input_data_id) ++ m.(graph_position)].
Definition digests_distinct (xs : list bytes) : Prop :=
  forall x y, x ∈ xs -> y ∈ xs -> blake3 x = blake3 y -> x = y.

(** ** Identities *)
Lemma to_le_inj a b : u32 a -> u32 b -> to_le 4 a = to_le 4 b -> a = b.
Proof. intros Ha Hb E. rewrite <- (from_to_le 4 a), <- (from_to_le 4 b) by done. by rewrite E. Qed.
Lemma call_suffix_inj a b : u32 a -> u32 b -> call_suffix a = call_suffix b -> a = b.
Proof.
  intros Ha Hb. unfold call_suffix. destruct Ha as [Ha Ha'], Hb as [Hb Hb'].
  destruct (Z.ltb_spec 0 a), (Z.ltb_spec 0 b); intros E; [by apply to_le_inj|done..|lia].
Qed.
Lemma hashed_id (m : Mote) text m' text' :
  m.(mote_id) = derive_mote_id (MoteDef_hash m.(def)) m.(input_data_id) m.(graph_position) ->
  m'.(mote_id) = derive_mote_id (MoteDef_hash m'.(def)) m'.(input_data_id) m'.(graph_position) ->
  m.(input_data_id) = blake3 text -> m'.(input_data_id) = blake3 text' ->
  digests_distinct (hashed_texts m text ++ hashed_texts m' text') -> m.(mote_id) = m'.(mote_id) ->
  m.(def) = m'.(def) /\ text = text'.
Proof.
  intros Em Em' Et Et' Hd E. rewrite Em, Em' in E. unfold derive_mote_id in E.
  apply Hd in E; [|unfold hashed_texts; set_solver..].
  apply app_inj_1 in E as [Ed E]; [|unfold MoteDef_hash; by rewrite !(proj1 (blake3_array _))].
  rewrite Et, Et' in E. apply app_inj_1 in E as [Ei _]; [|by rewrite !(proj1 (blake3_array _))].
  apply Hd in Ei; [|unfold hashed_texts; set_solver..].
  apply Hd in Ed; [|unfold hashed_texts; set_solver..]. split; [|done].
  apply (f_equal bincode_decode) in Ed. rewrite !bincode_decode_encode in Ed. congruence.
Qed.
Lemma shape_mote_id p s : (shape_mote p s).(mote_id)
  = derive_mote_id (MoteDef_hash (shape_mote p s).(def)) (shape_mote p s).(input_data_id)
      (shape_mote p s).(graph_position).
Proof. by destruct s as [? ? ? ? []|? ? ? ? ? []| |]. Qed.
Lemma shape_mote_input p s : (shape_mote p s).(input_data_id) = blake3 (shape_text s).
Proof. by destruct s as [? ? ? ? []|? ? ? ? ? []| |]. Qed.

(** The fields a builder puts outside the material. *)
Definition shape_prompt (s : Shape) : option bytes :=
  match s with ShTurn _ i _ _ _ _ => Some i | ShReplan _ p _ => Some p | _ => None end.
Definition shape_tool (s : Shape) : list (bytes * bytes) :=
  match s with ShTool _ t v _ _ _ _ => [(t, v)] | _ => [] end.
Definition shape_model (s : Shape) : bytes :=
  match s with ShTurn m _ _ _ _ _ | ShTool m _ _ _ _ _ _ | ShRerank m _ _ _ _ | ShReplan m _ _ => m end.
Definition shape_tokens (s : Shape) : Z :=
  match s with
  | ShTurn _ _ _ _ _ n | ShRerank _ _ _ _ n => n
  | ShTool _ _ _ _ _ _ _ => InferenceParams_default.(max_output_tokens)
  | ShReplan _ _ _ => SHAPER_MAX_OUTPUT_TOKENS
  end.
Lemma shape_def_fields p s :
  (shape_mote p s).(def).(model_id) = shape_model s
  /\ (shape_mote p s).(def).(config_subset) !! PROMPT_KEY = shape_prompt s
  /\ map_to_list (shape_mote p s).(def).(tool_contract) = shape_tool s
  /\ (shape_mote p s).(def).(inference_params).(max_output_tokens) = shape_tokens s.
Proof.
  destruct s as [? ? ? ? []|? ? ? ? ? []| |]; split_and!; try done; cbn -[PROMPT_KEY REACT_TURN_KEY];
    try (by rewrite map_to_list_singleton);
    by rewrite ?lookup_insert_ne, ?lookup_singleton_eq, ?lookup_singleton_ne by done.
Qed.
Lemma shape_def_inj p p' a b : (shape_mote p a).(def) = (shape_mote p' b).(def) ->
  shape_model a = shape_model b /\ shape_prompt a = shape_prompt b /\ shape_tool a = shape_tool b
  /\ shape_tokens a = shape_tokens b.
Proof.
  intros E. destruct (shape_def_fields p a) as (<- & <- & <- & <-).
  destruct (shape_def_fields p' b) as (<- & <- & <- & <-). by rewrite E.
Qed.
Ltac split_text E :=
  repeat (apply app_inv_head in E || (apply app_inj_1 in E as [? E]; [|congruence || by rewrite !length_to_le])).
(** The material fixes the builder and the fields in it. *)
Lemma shape_text_inj a b : shape_ok a -> shape_ok b -> shape_text a = shape_text b ->
  shape_model a = shape_model b -> shape_prompt a = shape_prompt b -> shape_tool a = shape_tool b ->
  shape_tokens a = shape_tokens b -> a = b.
Proof.
  destruct a as [m i t inst [salt|] n|m tl v t inst [salt|] k|m inst r q n|m pr r],
    b as [m' i' t' inst' [salt'|] n'|m' tl' v' t' inst' [salt'|] k'|m' inst' r' q' n'|m' pr' r'];
    cbn [shape_ok salt_ok shape_text shape_model shape_prompt shape_tool shape_tokens];
    intros Ha Hb E Hm Hp Ht Hn; destruct_and?; try (exfalso; discriminate E);
    unfold react_turn_text, react_turn_text2, react_tool_text, react_tool_text2, rerank_turn_text, replan_shaper_text in E;
    split_text E;
    repeat match goal with
    | E : to_le 4 _ = to_le 4 _ |- _ => apply to_le_inj in E; [|done..]
    | E : call_suffix _ = call_suffix _ |- _ => apply call_suffix_inj in E; [|done..]
    end; congruence.
Qed.

(** The identities of all the Motes the coordinator builds are apart: turns,
    observations, rerank turns and replan shapers that differ in any field of the
    builder but the parent edge have different identities, if the six texts hashed
    on the way to them have no colliding digests. In particular the calls of one
    batch to the same tool, the chains of two steps, and the builders themselves
    never share an identity. *)
Theorem built_identities_distinct p p' a b :
  shape_ok a -> shape_ok b -> a <> b ->
  digests_distinct (hashed_texts (shape_mote p a) (shape_text a) ++ hashed_texts (shape_mote p' b) (shape_text b)) ->
  (shape_mote p a).(mote_id) <> (shape_mote p' b).(mote_id).
Proof.
  intros Ha Hb Hne Hd E. apply Hne.
  destruct (hashed_id _ _ _ _ (shape_mote_id p a) (shape_mote_id p' b) (shape_mote_input p a)
              (shape_mote_input p' b) Hd E) as [Ed Et].
  destruct (shape_def_inj _ _ _ _ Ed) as (? & ? & ? & ?). by apply shape_text_inj.
Qed.
(** A turn's marker names the turn's chain. *)
Lemma turn_marker m i t inst salt n : length inst = INSTANCE_ID_LEN -> salt_ok salt ->
  (build_chain_turn m i t inst salt n).(def).(config_subset) !! REACT_TURN_KEY ≫= decode_react_marker
  = Some (inst, salt).
Proof.
  intros Hi Hs. destruct salt as [salt|]; cbn in Hs; cbn -[PROMPT_KEY REACT_TURN_KEY]; rewrite lookup_insert_eq;
    cbn -[PROMPT_KEY REACT_TURN_KEY INSTANCE_ID_LEN]; unfold decode_react_marker.
  - rewrite length_app, Hs, Hi. cbn -[take drop]. by rewrite <- Hi, take_app_length, drop_app_length.
  - by rewrite Hi.
Qed.
End Shapes.

(** ** Two calls of one batch *)
Definition mix_blake3 : Blake3.
Proof.
  refine {| blake3 := fun x => to_le 32 (foldl (fun h b => Z.land (h * 31 + b + 1) (2 ^ 40 - 1)) 7 x) |}.
  intros x. split; [apply length_to_le|apply to_le_ok].
Defined.
#[local] Existing Instance mix_blake3.
#[local] Existing Instance bit_bincode.
Definition digests_distinct_b (xs : list bytes) : bool :=
  let hs := (fun x => (x, blake3 x)) <$> xs in
  forallb (fun x => forallb (fun y => negb (bool_decide (x.2 = y.2)) || bool_decide (x.1 = y.1)) hs) hs.
Lemma digests_distinct_b_spec xs : digests_distinct_b xs = true -> digests_distinct xs.
Proof.
  unfold digests_distinct_b. rewrite forallb_forall. intros Hx x y Hin Hin' E.
  specialize (Hx (x, blake3 x) (proj1 (list_elem_of_In _ _) (list_elem_of_fmap_2 _ _ _ Hin))).
  rewrite forallb_forall in Hx.
  specialize (Hx (y, blake3 y) (proj1 (list_elem_of_In _ _) (list_elem_of_fmap_2 _ _ _ Hin'))).
  apply orb_true_iff in Hx as [Hx%negb_true_iff%bool_decide_eq_false|Hx%bool_decide_eq_true]; done.
Qed.
Definition demo_call (index : Z) : Shape :=
  ShTool (str "m") (str "t") (str "1") 3 (replicate 16 5) None index.
Lemma built_identities_distinct_witness :
  (shape_mote [] (demo_call 0)).(mote_id) <> (shape_mote [] (demo_call 1)).(mote_id).
Proof.
  apply (built_identities_distinct [] [] (demo_call 0) (demo_call 1)); [by vm_compute..|done|].
  apply digests_distinct_b_spec. vm_compute. reflexivity.
Defined.
