(* ===== verification/Rerank.v ===== *)
(** The durable rerank of retrieved passages (kx-coordinator state.rs): a model
    proposes an order, the coordinator checks and records it, and delivers the
    passages in that order. The rerank is off the graph: a fact says it is wanted,
    a fact says what came of it. *)
From S2P Require Import Prelude Effects Utf8 CriticTypes Mote ContextItems Entry Journal Warrant Content DemoCodec ProjState ProjIndex ProjFold ProjHistory ProjQuery Materializer Scheduler Checkpoint Recovery Critic Digits ParamSchema Text ToolRegistry Toolcall ToolcallFacts ExactlyOnce Wire Workers Coordinator CoordSync Timers TimerFacts ReactShape.
Import JournalEntry.

(** [KX_SERVE_RAG_LLM_RERANK] as the environment has it. *)
Definition serve_llm_rerank_enabled (env : option bytes) : bool :=
  match env with
  | None => false
  | Some v => bool_decide (to_ascii_lowercase (trim v) ∈ [str "1"; str "true"; str "yes"; str "on"])
  end.
Definition u32_of_len (n : nat) : Z := Z.min (Z.of_nat n) (2 ^ 32 - 1).
Definition is_terminal (st : MoteState) : bool :=
  match st with MoteState.Pending | MoteState.Scheduled => false | _ => true end.
Definition outcome_pending (o : ReRankOutcome) : bool := match o with ReRankOutcome.Pending => true | _ => false end.
Definition has_key (mote : Mote) (key : bytes) : bool := bool_decide (is_Some (config mote key)).
Definition is_chat_rag_rerank_answer (mote : Mote) : bool :=
  bool_decide (mote.(Mote.parents) = []) && bool_decide (mote.(def).(critic_check) = None)
  && negb mote.(def).(is_topology_shaper) && bool_decide (mote.(def).(tool_contract) = ∅)
  && has_key mote PROMPT_KEY && has_key mote CONTEXT_ITEMS_KEY && negb (has_key mote REACT_TURN_KEY)
  && negb (has_key mote RERANK_TURN_KEY) && negb (has_key mote RERANK_CANDIDATES_KEY).
(** One record per rerank whose latest fact is still pending, in order of first
    appearance. *)
Fixpoint frontier_loop (s : State) (seen : gset bytes) (rs : list ReRankRoundRecord) : list ReRankRoundRecord :=
  match rs with
  | [] => []
  | r :: rs =>
      let id := r.(ReRankRoundRecord.rerank_mote_id) in
      if bool_decide (id ∈ seen) then frontier_loop s seen rs
      else match latest_rerank_round s id with
           | Some latest => if outcome_pending latest.(ReRankRoundRecord.outcome)
                            then latest :: frontier_loop s ({[id]} ∪ seen) rs
                            else frontier_loop s ({[id]} ∪ seen) rs
           | None => frontier_loop s ({[id]} ∪ seen) rs
           end
  end.
Definition pending_rerank_frontier (s : State) : list ReRankRoundRecord := frontier_loop s ∅ s.(rerank_rounds).
(** [permutation.iter().map(|&i| l.get(i as usize).cloned()).collect::<Option<Vec<_>>>()] *)
Definition reorder {A} (l : list A) (permutation : list Z) : option (list A) :=
  if negb (length l =? length permutation)%nat then None
  else mapM (fun i => l !! Z.to_nat i) permutation.
Definition reorder_context_items_bundle (bundle : bytes) (permutation : list Z) : option bytes :=
  encode_context_items_ordered <$> reorder (decode_context_items bundle) permutation.

Section Rerank.
Context `{Blake3} `{!Bincode MoteDef} `{!Bincode WarrantSpec} `{!Bincode TopologyDecision}.
Context `{!SerdeValue} `{!ToolcallJson}.
Context {J S : Type} `{!Journal J} `{!ContentStore S}.
Abbreviation C := (Core J S).
Abbreviation M := (comp C).

(** ** Facts *)
Definition rerank_entry (r : ReRankRoundRecord) (o : ReRankOutcome) : JournalEntry :=
  ReRankRound r.(ReRankRoundRecord.round) r.(ReRankRoundRecord.rerank_mote_id) r.(ReRankRoundRecord.instance_id)
    r.(ReRankRoundRecord.base_results_ref) r.(ReRankRoundRecord.query_ref) r.(ReRankRoundRecord.warrant_ref)
    r.(ReRankRoundRecord.model_id) r.(ReRankRoundRecord.candidate_count) o 0.
Definition write_rerank_anchor (rerank_mote : Mote) (instance_id base_results_ref query_ref warrant_ref : bytes)
    (candidate_count : Z) : M unit CoordinatorError := fun c =>
  match latest_rerank_round c.(projection) rerank_mote.(Mote.mote_id) with
  | Some _ => (Ok tt, c)
  | None =>
      (do! durable := cmap_err CoordinatorError.Journal
         (core_append (ReRankRound 0 rerank_mote.(Mote.mote_id) instance_id base_results_ref query_ref warrant_ref
                         rerank_mote.(def).(Mote.model_id) candidate_count ReRankOutcome.Pending 0)) in
       cmap_err CoordinatorError.Projection (fold_new durable)) c
  end.
Definition append_rerank_outcome {E} (anchor : ReRankRoundRecord) (o : ReRankOutcome) : M unit E := fun c =>
  match latest_rerank_round c.(projection) anchor.(ReRankRoundRecord.rerank_mote_id) with
  | Some r => if negb (outcome_pending r.(ReRankRoundRecord.outcome)) then (Ok tt, c)
              else append_then (rerank_entry anchor o) (fun c => c) c
  | None => append_then (rerank_entry anchor o) (fun c => c) c
  end.

(** ** The retrieval observation *)
Definition parse_retrieve_query_and_count (obs_bytes : bytes) : option (bytes * nat) :=
  match value_from_slice obs_bytes with
  | None => None
  | Some v =>
      match value_get v (str "query") ≫= as_str with
      | None => None
      | Some query => (fun l => (query, length l)) <$> (value_get v (str "passages") ≫= as_array)
      end
  end.
Definition reorder_retrieval_observation (obs_bytes : bytes) (permutation : list Z) : option bytes :=
  match value_from_slice obs_bytes with
  | Some (VObject m) =>
      match member_get (str "passages") m ≫= as_array with
      | None => None
      | Some passages => (fun l => value_to_vec (VObject (member_insert (str "passages") (VArray l) m)))
                         <$> reorder passages permutation
      end
  | _ => None
  end.
Definition rerank_delivered_ref (s : State) (store : option S) (instance_id : bytes) (obs_ref : ContentRef)
    : option ContentRef :=
  match store with
  | None => None
  | Some store =>
      match rerank_rounds_of s instance_id with
      | [] => None
      | _ :: _ =>
          match latest_rerank_round_by_base s instance_id obs_ref with
          | None => None
          | Some rr =>
              match rr.(ReRankRoundRecord.outcome) with
              | ReRankOutcome.Reranked permutation =>
                  match get store obs_ref with
                  | None => None
                  | Some obs_bytes => ContentRef_of <$> reorder_retrieval_observation obs_bytes permutation
                  end
              | _ => None
              end
          end
      end
  end.

(** ** Settling *)
(** What a pending round has come to; [None] to look again later. *)
Definition rerank_verdict (s : State) (store : S) (anchor : ReRankRoundRecord) : option ReRankOutcome :=
  let id := anchor.(ReRankRoundRecord.rerank_mote_id) in
  match state_of_id s id with
  | MoteState.Committed =>
      match result_ref_of s id ≫= get store with
      | None => None
      | Some b =>
          Some (match parse_permutation (from_utf8_lossy b) (Z.to_nat anchor.(ReRankRoundRecord.candidate_count)) with
                | Some perm => ReRankOutcome.Reranked (u32_of_len <$> perm)
                | None => ReRankOutcome.FailedClosed
                end)
      end
  | st => if is_terminal st then Some ReRankOutcome.FailedClosed else None
  end.
Definition stage_reordered (anchor : ReRankRoundRecord) (o : ReRankOutcome) (store : S) (c : C) : C :=
  match o with
  | ReRankOutcome.Reranked permutation =>
      match get store anchor.(ReRankRoundRecord.base_results_ref) with
      | None => c
      | Some obs_bytes => match reorder_retrieval_observation obs_bytes permutation with
                          | None => c
                          | Some reordered => (store_write reordered c).2
                          end
      end
  | _ => c
  end.
Definition settle_rerank {E} (anchor : ReRankRoundRecord) : M unit E := fun c =>
  match c.(core_store) with
  | None => (Ok tt, c)
  | Some store =>
      match rerank_verdict c.(projection) store anchor with
      | None => (Ok tt, c)
      | Some o => append_rerank_outcome anchor o (stage_reordered anchor o store c)
      end
  end.
Definition settle_rerank_rounds {E} : M unit E := fun c =>
  each settle_rerank (pending_rerank_frontier c.(projection)) c.
Definition recover_rerank {E} (anchor : ReRankRoundRecord) : M unit E := fun c =>
  match c.(core_store) with
  | None => (Ok tt, c)
  | Some store =>
      if is_terminal (state_of_id c.(projection) anchor.(ReRankRoundRecord.rerank_mote_id)) then (Ok tt, c)
      else match get store anchor.(ReRankRoundRecord.warrant_ref) ≫= decode_warrant with
           | None => (Ok tt, c)
           | Some warrant =>
               let rebuilt := build_rerank_turn anchor.(ReRankRoundRecord.model_id) anchor.(ReRankRoundRecord.instance_id)
                                anchor.(ReRankRoundRecord.base_results_ref) anchor.(ReRankRoundRecord.query_ref)
                                warrant.(WarrantSpec.model_route).(ModelRoute.max_output_tokens) in
               if bool_decide (rebuilt.(Mote.mote_id) = anchor.(ReRankRoundRecord.rerank_mote_id))
               then (Ok tt, materialize_react_turn rebuilt anchor.(ReRankRoundRecord.warrant_ref) warrant c)
               else (Ok tt, c)
           end
  end.
Definition recover_rerank_chain {E} : M unit E := fun c =>
  match c.(core_store) with
  | None => (Ok tt, c)
  | Some _ =>
      match pending_rerank_frontier c.(projection) with
      | [] => (Ok tt, c)
      | pending => (do! _ := each recover_rerank pending in settle_rerank_rounds) c
      end
  end.

(** ** The rerank of a retrieval inside an agent turn
    [true]: the chain waits for the rerank. *)
Definition core_get (r : ContentRef) (c : C) : option bytes := c.(core_store) ≫= fun store : S => get store r.
Definition retrieve_index (calls : list (bytes * bytes)) : option nat :=
  fst <$> list_find (fun x => x = (str "retrieve", str "1")) calls.
Definition maybe_gate_on_rerank {E} (env : option bytes) (anchor : ReactRoundRecord) (turn : Z) (turn_mote_id : MoteId)
    (calls : list (bytes * bytes)) : M bool E := fun c =>
  match c.(core_store) with
  | None => (Ok false, c)
  | Some store =>
      if negb (serve_llm_rerank_enabled env) then (Ok false, c)
      else
        match retrieve_index calls with
        | None => (Ok false, c)
        | Some call_index =>
            let inst := anchor.(ReactRoundRecord.instance_id) in
            let obs := build_chain_tool anchor.(ReactRoundRecord.model_id) (str "retrieve") (str "1") turn inst
                         anchor.(ReactRoundRecord.step_salt) (u32_of_len call_index) turn_mote_id in
            match result_ref_of c.(projection) obs.(Mote.mote_id) with
            | None => (Ok false, c)
            | Some obs_ref =>
                match get store obs_ref ≫= parse_retrieve_query_and_count with
                | None => (Ok false, c)
                | Some (query, n) =>
                    if (n <? 2)%nat then (Ok false, c)
                    else
                      match store_write query c with
                      | (None, c) => (Ok false, c)
                      | (Some query_ref, c) =>
                          match core_get anchor.(ReactRoundRecord.warrant_ref) c ≫= decode_warrant with
                          | None => (Ok false, c)
                          | Some warrant =>
                              let rerank_mote := build_rerank_turn anchor.(ReactRoundRecord.model_id) inst obs_ref query_ref
                                                   warrant.(WarrantSpec.model_route).(ModelRoute.max_output_tokens) in
                              match latest_rerank_round c.(projection) rerank_mote.(Mote.mote_id) with
                              | None =>
                                  match write_rerank_anchor rerank_mote inst obs_ref query_ref
                                          anchor.(ReactRoundRecord.warrant_ref) (u32_of_len n) c with
                                  | (Ok _, c) => (Ok true, materialize_react_turn rerank_mote
                                                             anchor.(ReactRoundRecord.warrant_ref) warrant c)
                                  | (Err _, c) => (Ok false, c)
                                  | (Panic, c) => (Panic, c)
                                  end
                              | Some r => (Ok (outcome_pending r.(ReRankRoundRecord.outcome)), c)
                              end
                          end
                      end
                end
            end
        end
  end.

(** ** The rerank of a grounded answer *)
Definition store_put (b : bytes) (store : S) : option ContentRef * S :=
  match put store b with Ok (r, store) => (Some r, store) | _ => (None, store) end.
Definition passage_value (store : S) (it : ContextItemRef) : Value :=
  VObject [(str "ref", VString (to_hex it.(content_ref)));
           (str "text", VString (default [] (from_utf8_lossy <$> get store it.(content_ref))))].
(** The two references are stored as a side effect of naming the rerank. *)
Definition chat_rag_rerank_prep (mote : Mote) (store : S) : option (ContentRef * ContentRef * Z) * S :=
  match config mote CONTEXT_ITEMS_KEY with
  | None => (None, store)
  | Some bundle =>
      let items := decode_context_items bundle in
      if (length items <? 2)%nat then (None, store)
      else
        match from_utf8_lossy <$> config mote PROMPT_KEY with
        | None => (None, store)
        | Some query =>
            let obs := VObject [(str "passages", VArray (passage_value store <$> items)); (str "query", VString query)] in
            match store_put (value_to_vec obs) store with
            | (None, store) => (None, store)
            | (Some base_results_ref, store) =>
                match store_put query store with
                | (None, store) => (None, store)
                | (Some query_ref, store) => (Some (base_results_ref, query_ref, u32_of_len (length items)), store)
                end
            end
        end
  end.
Record RerankOf := { rk_id : MoteId; rk_base : ContentRef; rk_query : ContentRef; rk_count : Z; rk_instance : bytes }.
Definition answer_rerank (mote : Mote) (warrant : WarrantSpec) (inst base_ref query_ref : bytes) : Mote :=
  build_rerank_turn mote.(def).(Mote.model_id) inst base_ref query_ref
    warrant.(WarrantSpec.model_route).(ModelRoute.max_output_tokens).
Definition chat_rag_rerank_id (mote : Mote) (warrant : WarrantSpec) (s : State) (store : S) : option RerankOf * S :=
  match s.(run_registration) with
  | None => (None, store)
  | Some reg =>
      match chat_rag_rerank_prep mote store with
      | (None, store) => (None, store)
      | (Some (base_ref, query_ref, n), store) =>
          (Some {| rk_id := (answer_rerank mote warrant reg.(rr_instance_id) base_ref query_ref).(Mote.mote_id);
                   rk_base := base_ref; rk_query := query_ref; rk_count := n; rk_instance := reg.(rr_instance_id) |}, store)
      end
  end.
Definition chat_rag_rerank_holds (env : option bytes) (mote : Mote) (warrant : WarrantSpec) (s : State) (store : option S)
    : bool * option S :=
  if negb (serve_llm_rerank_enabled env) || negb (is_chat_rag_rerank_answer mote) then (false, store)
  else
    match store with
    | None => (false, None)
    | Some store =>
        match chat_rag_rerank_id mote warrant s store with
        | (None, store) => (false, Some store)
        | (Some k, store) =>
            (match latest_rerank_round s k.(rk_id) with
             | Some r => outcome_pending r.(ReRankRoundRecord.outcome)
             | None => true
             end, Some store)
        end
    end.
Definition chat_rag_delivered_context (env : option bytes) (mote : Mote) (warrant : WarrantSpec) (s : State)
    (store : option S) : option ContentRef * option S :=
  if negb (serve_llm_rerank_enabled env) || negb (is_chat_rag_rerank_answer mote) then (None, store)
  else
    match store with
    | None => (None, None)
    | Some store =>
        match chat_rag_rerank_id mote warrant s store with
        | (None, store) => (None, Some store)
        | (Some k, store) =>
            (match latest_rerank_round s k.(rk_id) with
             | Some r =>
                 match r.(ReRankRoundRecord.outcome) with
                 | ReRankOutcome.Reranked permutation =>
                     ContentRef_of <$> (config mote CONTEXT_ITEMS_KEY
                                          ≫= fun bundle => reorder_context_items_bundle bundle permutation)
                 | _ => None
                 end
             | None => None
             end, Some store)
        end
    end.
Definition settle_answer {E} (x : Mote * WarrantSpec) : M unit E := fun c =>
  let '(answer, warrant) := x in
  match c.(core_store) with
  | None => (Ok tt, c)
  | Some store =>
      match chat_rag_rerank_id answer warrant c.(projection) store with
      | (None, store) => (Ok tt, with_core_store (Some store) c)
      | (Some k, store) =>
          let c := with_core_store (Some store) c in
          match ReRankRoundRecord.outcome <$> latest_rerank_round c.(projection) k.(rk_id) with
          | None =>
              match store_write (bincode_encode warrant) c with
              | (None, c) => (Ok tt, c)
              | (Some warrant_ref, c) =>
                  let rerank_mote := answer_rerank answer warrant k.(rk_instance) k.(rk_base) k.(rk_query) in
                  match write_rerank_anchor rerank_mote k.(rk_instance) k.(rk_base) k.(rk_query) warrant_ref
                          k.(rk_count) c with
                  | (Ok _, c) => (Ok tt, materialize_react_turn rerank_mote warrant_ref warrant c)
                  | (Err _, c) => (Ok tt, c)
                  | (Panic, c) => (Panic, c)
                  end
              end
          | Some (ReRankOutcome.Reranked permutation) =>
              match config answer CONTEXT_ITEMS_KEY ≫= fun bundle => reorder_context_items_bundle bundle permutation with
              | Some reordered => (Ok tt, (store_write reordered c).2)
              | None => (Ok tt, c)
              end
          | Some _ => (Ok tt, c)
          end
      end
  end.
Definition settle_chat_rag_reranks {E} (env : option bytes) : M unit E := fun c =>
  if negb (serve_llm_rerank_enabled env) then (Ok tt, c)
  else
    match c.(core_store), c.(projection).(run_registration) with
    | Some _, Some _ =>
        each settle_answer
          (List.filter (fun x => is_chat_rag_rerank_answer x.1
                                 && negb (is_terminal (state_of_id c.(projection) x.1.(Mote.mote_id))))
             (btree_values c.(dispatched).(defs))) c
    | _, _ => (Ok tt, c)
    end.
End Rerank.
