(* ===== verification/RerankFacts.v ===== *)
(** A rerank changes the order of the passages and nothing else, is settled once,
    and what an order past the journal's bound does to a held answer. *)
From S2P Require Import Prelude Effects Utf8 CriticTypes Mote ContextItems Entry EntryEncode Journal Sqlite Warrant Content DemoCodec ProjState ProjIndex ProjFold ProjHistory ProjQuery Materializer Scheduler Checkpoint Recovery Critic Digits ParamSchema Text ToolRegistry Toolcall ToolcallFacts ExactlyOnce Wire Workers Coordinator CoordSync Cascade Timers TimerFacts ReactShape Rerank.
Import JournalEntry.

(** ** Orders *)
Lemma permutation_loop_spec n arr : forall seen p,
  permutation_loop n seen arr = Some p <->
  arr = Z.of_nat <$> p /\ NoDup p /\ Forall (fun i => (i < n)%nat /\ i ∉ seen) p.
Proof.
  induction arr as [|v arr IH]; intros seen p; cbn [permutation_loop].
  - split; [intros [= <-]; by repeat constructor|]. intros (Hp & _). by destruct p.
  - destruct (Z.ltb_spec v 0).
    { split; [done|]. intros (Hp & _). destruct p as [|i p]; [done|]. injection Hp as -> _. lia. }
    destruct (Nat.leb_spec n (Z.to_nat v)); cbn [orb].
    { split; [done|]. intros (Hp & _ & Hf). destruct p as [|i p]; [done|]. injection Hp as -> _.
      apply Forall_cons in Hf as [[? _] _]. lia. }
    case_bool_decide as Hs.
    { split; [done|]. intros (Hp & _ & Hf). destruct p as [|i p]; [done|]. injection Hp as -> _.
      apply Forall_cons in Hf as [[_ Hi] _]. by rewrite Nat2Z.id in Hs. }
    rewrite fmap_Some. setoid_rewrite IH. split.
    + intros (q & (-> & Hnd & Hf) & ->). cbn. rewrite Z2Nat.id by lia. split_and!; [done| |].
      * constructor; [|done]. intros Hq. rewrite Forall_forall in Hf. destruct (Hf _ Hq) as [_ Hi]. set_solver.
      * constructor; [done|]. eapply Forall_impl; [exact Hf|]. intros i [? ?]. set_solver.
    + intros (Hp & Hnd & Hf). destruct p as [|i p]; [done|]. cbn in Hp. injection Hp as -> ->. rewrite Nat2Z.id in *.
      apply NoDup_cons in Hnd as [Hi Hnd]. apply Forall_cons in Hf as [[? ?] Hf]. exists p. split_and!; [done..| |done].
      rewrite Forall_forall in *. intros j Hj. destruct (Hf j Hj). split; [done|]. set_solver.
Qed.
Lemma below_permutation p n : NoDup p -> Forall (fun i => (i < n)%nat) p -> length p = n -> p ≡ₚ seq 0 n.
Proof.
  intros Hnd Hf Hl. apply submseteq_length_Permutation; [|rewrite length_seq; lia].
  apply NoDup_submseteq; [done|]. intros i Hi. rewrite Forall_forall in Hf. apply elem_of_seq. specialize (Hf i Hi). lia.
Qed.
(** The order read from a model's text is accepted exactly when its leading JSON
    array is a permutation of the candidates, each once. *)
Theorem parse_permutation_exact `{ToolcallJson} text n p :
  parse_permutation text n = Some p <->
  leading_i64s (extract_json_envelope text) = Some (Z.of_nat <$> p) /\ p ≡ₚ seq 0 n.
Proof.
  unfold parse_permutation. destruct (leading_i64s _) as [arr|]; [|naive_solver].
  destruct (Nat.eqb_spec (length arr) n) as [Hl|Hl]; cbn [negb].
  - rewrite permutation_loop_spec. split.
    + intros (-> & Hnd & Hf). split; [done|]. rewrite length_fmap in Hl. apply below_permutation; [done| |done].
      eapply Forall_impl; [exact Hf|]. by intros i [? _].
    + intros ([= ->] & Hp). split_and!; [done|rewrite Hp; apply NoDup_seq|]. rewrite Hp. apply Forall_forall.
      intros i [_ Hi]%elem_of_seq. split; [lia|set_solver].
  - split; [done|]. intros ([= ->] & Hp). rewrite length_fmap, Hp, length_seq in Hl. done.
Qed.

Definition is_order (p : list Z) (n : nat) : Prop := p ≡ₚ Z.of_nat <$> seq 0 n.
Lemma mapM_perm {A B} (f : A -> option B) p q r : p ≡ₚ q -> mapM f q = Some r -> exists r', mapM f p = Some r' /\ r' ≡ₚ r.
Proof.
  intros Hp. revert r. induction Hp as [|x p q _ IH|x y p|p q t _ IH1 _ IH2]; intros r Hr.
  - by exists r.
  - cbn in *. destruct (f x); [|done]. cbn in *. destruct (mapM f q) as [bs|]; [|done]. cbn in Hr. injection Hr as <-.
    destruct (IH bs eq_refl) as (r2 & -> & Hr2). eexists. split; [done|]. by rewrite Hr2.
  - cbn in *. destruct (f x), (f y), (mapM f p); cbn in *; try done. injection Hr as <-. eexists. split; [done|]. apply Permutation_swap.
  - destruct (IH2 _ Hr) as (r' & Hr' & ?). destruct (IH1 _ Hr') as (r2 & ? & ?). exists r2. split; [done|]. by etrans.
Qed.
Lemma mapM_seq {A} (l : list A) : forall pre, mapM (fun i => (pre ++ l) !! Z.to_nat i) (Z.of_nat <$> seq (length pre) (length l)) = Some l.
Proof.
  induction l as [|x l IH]; intros pre; [done|]. cbn [length seq fmap list_fmap mapM]. rewrite Nat2Z.id.
  rewrite lookup_app_r, Nat.sub_diag by lia. cbn [lookup list_lookup mbind option_bind].
  specialize (IH (pre ++ [x])). rewrite length_app, <- app_assoc in IH. cbn in IH. rewrite Nat.add_comm in IH. cbn in IH.
  change ((pre ++ x :: l)) with (pre ++ [x] ++ l). cbn [app]. by rewrite IH.
Qed.
Lemma reorder_order {A} (l : list A) p : is_order p (length l) -> exists l', reorder l p = Some l' /\ l' ≡ₚ l.
Proof.
  intros Hp. unfold reorder. assert (length l = length p) as ->%Nat.eqb_eq
    by (by rewrite (Permutation_length Hp), length_fmap, length_seq). cbn [negb].
  eapply mapM_perm; [exact Hp|]. apply (mapM_seq l []).
Qed.
Lemma reorder_permutes {A} (l l' : list A) p n : is_order p n -> reorder l p = Some l' -> l' ≡ₚ l.
Proof.
  intros Hp Hr. assert (n = length l) as ->.
  { unfold reorder in Hr. destruct (Nat.eqb_spec (length l) (length p)) as [E|]; [|done].
    by rewrite E, (Permutation_length Hp), length_fmap, length_seq. }
  destruct (reorder_order l p Hp) as (l2 & E & ?). congruence.
Qed.

(** ** The records are the journal's *)
Definition record_of (e : JournalEntry) : option ReRankRoundRecord :=
  match e with
  | ReRankRound round id inst base q w m n o seq => Some {|
      ReRankRoundRecord.round := round; ReRankRoundRecord.rerank_mote_id := id; ReRankRoundRecord.instance_id := inst;
      ReRankRoundRecord.base_results_ref := base; ReRankRoundRecord.query_ref := q; ReRankRoundRecord.warrant_ref := w;
      ReRankRoundRecord.model_id := m; ReRankRoundRecord.candidate_count := n; ReRankRoundRecord.outcome := o;
      ReRankRoundRecord.seq := seq |}
  | _ => None
  end.
Lemma fold_reranks e s s' prev : fold None e s = (s', Ok prev) ->
  rerank_rounds s' = rerank_rounds s ++ option_list (record_of e).
Proof.
  destruct e; cbn [fold record_of option_list]; intros E; try (injection E as <- _; rewrite ?app_nil_r; done).
  all: rewrite app_nil_r.
  - unfold fold_committed in E. repeat case_match; simplify_eq; done.
  - injection E as <- _. cbn [fold_run_metadata fold_react_metadata]. unfold index_last_react_round. by repeat case_match.
  - injection E as <- _. cbn [fold_run_metadata fold_react_metadata]. unfold index_last_approval. by repeat case_match.
Qed.
Lemma live_reranks regs l s : live None regs l s -> rerank_rounds s = omap record_of l.
Proof.
  induction 1 as [|l e s s' prev _ IH E|l r s _ _ IH]; [done| |].
  - rewrite (fold_reranks _ _ _ _ E), IH, omap_app. cbn. by destruct (record_of e).
  - rewrite <- IH. done.
Qed.
Lemma max_by_elem {A} (cmp : A -> A -> comparison) l x : max_by cmp l = Some x -> x ∈ l.
Proof.
  unfold max_by. assert (Hg : forall l acc, foldl (fun acc x => match acc with
    | None => Some x | Some a => match cmp a x with Gt => Some a | _ => Some x end end) acc l = Some x ->
    x ∈ l \/ acc = Some x).
  { clear l. induction l as [|y l IH]; intros acc E; [by right|]. apply IH in E as [E|E]; [left; set_solver|].
    destruct acc as [a|]; [destruct (cmp a y)|]; simplify_eq; (left; set_solver) || by right. }
  intros E. destruct (Hg l None E); [done|done].
Qed.
Lemma max_by_last {A} (cmp : A -> A -> comparison) l x :
  (forall y, y ∈ l -> cmp y x <> Gt) -> max_by cmp (l ++ [x]) = Some x.
Proof.
  intros Hx. unfold max_by. rewrite foldl_app. cbn [foldl].
  change (foldl _ None l) with (max_by cmp l). destruct (max_by cmp l) as [a|] eqn:E; [|done].
  apply max_by_elem in E. specialize (Hx _ E). by destruct (cmp a x).
Qed.
Lemma latest_elem s id r : latest_rerank_round s id = Some r ->
  r ∈ rerank_rounds s /\ r.(ReRankRoundRecord.rerank_mote_id) = id.
Proof.
  intros H%max_by_elem. apply list_elem_of_In, filter_In in H as [H%list_elem_of_In Hid%bool_decide_eq_true]. done.
Qed.
Lemma latest_by_base_elem s inst b r : latest_rerank_round_by_base s inst b = Some r ->
  r ∈ rerank_rounds s /\ r.(ReRankRoundRecord.base_results_ref) = b.
Proof.
  intros H%max_by_elem. apply list_elem_of_In, filter_In in H as [H%list_elem_of_In Hid].
  apply andb_true_iff in Hid as [_ Hid%bool_decide_eq_true]. done.
Qed.
Lemma latest_after s s' r : rerank_rounds s' = rerank_rounds s ++ [r] ->
  (forall y, y ∈ rerank_rounds s -> y.(ReRankRoundRecord.seq) <= r.(ReRankRoundRecord.seq)) ->
  latest_rerank_round s' r.(ReRankRoundRecord.rerank_mote_id) = Some r.
Proof.
  intros E Hle. unfold latest_rerank_round. rewrite E, List.filter_app. cbn [List.filter].
  rewrite bool_decide_true by done. apply max_by_last. intros y Hy%list_elem_of_In%filter_In.
  destruct Hy as [Hy%list_elem_of_In _]. specialize (Hle y Hy). by apply Z.compare_le_iff.
Qed.
Lemma record_seq e r : record_of e = Some r -> r.(ReRankRoundRecord.seq) = entry_seq e.
Proof. destruct e; cbn; intros; by simplify_eq. Qed.
Lemma live_rerank_seq regs l s r : live None regs l s -> log_wf l -> r ∈ rerank_rounds s ->
  r.(ReRankRoundRecord.seq) <= Z.of_nat (length l).
Proof.
  intros Hl [Hc _]. rewrite (live_reranks _ _ _ Hl). intros (e & He & Hr)%list_elem_of_omap.
  rewrite (record_seq _ _ Hr). by apply contiguous_seq_le.
Qed.

(** Every recorded order is one of its candidates. *)
Definition orders_ok (l : list JournalEntry) : Prop :=
  forall e r p, e ∈ l -> record_of e = Some r -> r.(ReRankRoundRecord.outcome) = ReRankOutcome.Reranked p ->
    is_order p (Z.to_nat r.(ReRankRoundRecord.candidate_count)).

Section Facts.
Context `{HB : Blake3} `{!Bincode MoteDef} `{!Bincode WarrantSpec} `{!Bincode TopologyDecision}.
Context `{!SerdeValue} `{!ToolcallJson}.
Context {J S : Type} `{!Journal J} `{!JournalLaws J} `{!ContentStore S}.
Abbreviation C := (Core J S).

(** A delivered rerank is the observation with its passages in another order: the
    same members, the same passages, none lost, repeated or changed. *)
Theorem rerank_delivers_same_passages regs l (c : C) inst obs_ref r :
  in_sync regs l c -> orders_ok l ->
  rerank_delivered_ref c.(projection) c.(core_store) inst obs_ref = Some r ->
  exists obs m passages passages',
    core_get obs_ref c = Some obs /\ value_from_slice obs = Some (VObject m)
    /\ member_get (str "passages") m = Some (VArray passages) /\ passages' ≡ₚ passages
    /\ r = ContentRef_of (value_to_vec (VObject (member_insert (str "passages") (VArray passages') m))).
Proof.
  intros Hs Ho. unfold rerank_delivered_ref, core_get. destruct (core_store c) as [store|]; [|done].
  destruct (rerank_rounds_of _ _); [done|].
  destruct (latest_rerank_round_by_base _ _ _) as [rr|] eqn:El; [|done].
  apply latest_by_base_elem in El as [Hin _].
  rewrite (live_reranks _ _ _ (fo_live _ _ _ (sync_follows _ _ _ Hs))) in Hin.
  apply list_elem_of_omap in Hin as (e & He & Hr).
  destruct (ReRankRoundRecord.outcome rr) as [|p|] eqn:Eo; [done| |done].
  specialize (Ho e rr p He Hr Eo). cbn [mbind option_bind]. destruct (get store obs_ref) as [obs|]; [|done].
  intros (b & Hb & ->)%fmap_Some. unfold reorder_retrieval_observation in Hb.
  destruct (value_from_slice obs) as [[| | | | | |m]|] eqn:Ev; try done.
  destruct (member_get (str "passages") m) as [v|] eqn:Em; [|done]. cbn [mbind option_bind] in Hb.
  destruct v as [| | | | |ps|]; try done. cbn [as_array] in Hb. apply fmap_Some in Hb as (ps' & Hp & ->).
  exists obs, m, ps, ps'. split_and!; try done. by eapply reorder_permutes.
Qed.

Lemma u32_of_len_order p n : (Z.of_nat n < 2 ^ 32) -> p ≡ₚ seq 0 n -> is_order (u32_of_len <$> p) n.
Proof.
  intros Hn Hp. unfold is_order. rewrite <- Hp. apply reflexive_eq, list_fmap_ext. intros i x Hx.
  apply list_elem_of_lookup_2 in Hx. rewrite Hp in Hx. apply elem_of_seq in Hx. unfold u32_of_len. lia.
Qed.
Lemma verdict_order s store anchor p : u32 anchor.(ReRankRoundRecord.candidate_count) ->
  rerank_verdict s store anchor = Some (ReRankOutcome.Reranked p) ->
  is_order p (Z.to_nat anchor.(ReRankRoundRecord.candidate_count)).
Proof.
  intros [Hlo Hhi]. unfold rerank_verdict. destruct (state_of_id s _); try done.
  destruct (result_ref_of s _ ≫= get store) as [b|]; [|done]. destruct (parse_permutation _ _) as [q|] eqn:E; [|done].
  intros [= <-]. apply parse_permutation_exact in E as [_ Hq]. apply u32_of_len_order; [lia|done].
Qed.
Lemma stage_reordered_same anchor o store (c : C) :
  same_log c (stage_reordered anchor o store c) /\ (stage_reordered anchor o store c).(projection) = c.(projection).
Proof.
  unfold stage_reordered. destruct o; try (by split; [apply same_log_refl|]).
  destruct (get store _); [|by split; [apply same_log_refl|]].
  destruct (reorder_retrieval_observation _ _); [|by split; [apply same_log_refl|]].
  split; [apply store_write_same|]. unfold store_write. destruct (core_store c) as [st|]; [|done].
  by destruct (put st _) as [[]|?|].
Qed.
Definition settled (anchor : ReRankRoundRecord) (o : ReRankOutcome) (n : Z) : ReRankRoundRecord := {|
  ReRankRoundRecord.round := anchor.(ReRankRoundRecord.round);
  ReRankRoundRecord.rerank_mote_id := anchor.(ReRankRoundRecord.rerank_mote_id);
  ReRankRoundRecord.instance_id := anchor.(ReRankRoundRecord.instance_id);
  ReRankRoundRecord.base_results_ref := anchor.(ReRankRoundRecord.base_results_ref);
  ReRankRoundRecord.query_ref := anchor.(ReRankRoundRecord.query_ref);
  ReRankRoundRecord.warrant_ref := anchor.(ReRankRoundRecord.warrant_ref);
  ReRankRoundRecord.model_id := anchor.(ReRankRoundRecord.model_id);
  ReRankRoundRecord.candidate_count := anchor.(ReRankRoundRecord.candidate_count);
  ReRankRoundRecord.outcome := o; ReRankRoundRecord.seq := n |}.

(** A pending rerank is settled once: when its Mote has ended, the pass records
    the outcome as one fact, an order recorded is a permutation of the candidates,
    the invariant on recorded orders is kept, and no later outcome is recorded. *)
Theorem rerank_settled_once regs l (c : C) store anchor o :
  in_sync regs l c -> room l 1 -> accepts (rerank_entry anchor o) -> orders_ok l ->
  u32 anchor.(ReRankRoundRecord.candidate_count) -> c.(core_store) = Some store ->
  latest_rerank_round c.(projection) anchor.(ReRankRoundRecord.rerank_mote_id) = Some anchor ->
  anchor.(ReRankRoundRecord.outcome) = ReRankOutcome.Pending ->
  rerank_verdict c.(projection) store anchor = Some o ->
  let n := Z.of_nat (length l) + 1 in
  let l' := l ++ [set_seq (rerank_entry anchor o) n] in
  exists regs' c', settle_rerank (E := unit) anchor c = (Ok tt, c') /\ in_sync regs' l' c' /\ orders_ok l'
    /\ latest_rerank_round c'.(projection) anchor.(ReRankRoundRecord.rerank_mote_id) = Some (settled anchor o n)
    /\ outcome_pending o = false
    /\ forall o', append_rerank_outcome (E := unit) anchor o' c' = (Ok tt, c').
Proof.
  intros Hs Hr Ha Ho Hu Hst Hl Hp Hv n l'. unfold settle_rerank. rewrite Hst, Hv.
  destruct (stage_reordered_same anchor o store c) as [Hsame Hproj].
  set (c0 := stage_reordered anchor o store c) in *. destruct (Hsame regs l Hs) as (regs0 & _ & Hs0).
  assert (Hx : existing_fact l (derive_key (rerank_entry anchor o)) = None) by done.
  destruct (append_fresh (E := unit) regs0 l c0 (rerank_entry anchor o) (fun c => c)) as (c1 & H1 & H2 & _ & H4);
    [done|by apply writable_plain|done|done|].
  change (derive_key (rerank_entry anchor o)) with (rerank_entry anchor o) in *. fold n l' in H2, H4.
  assert (Hrec : rerank_rounds (projection c1) = rerank_rounds (projection c) ++ [settled anchor o n]) by (by rewrite H4, Hproj).
  assert (Hlat : latest_rerank_round (projection c1) (ReRankRoundRecord.rerank_mote_id anchor) = Some (settled anchor o n)).
  { apply (latest_after (projection c) (projection c1) (settled anchor o n)); [done|]. intros y Hy.
    eapply live_rerank_seq in Hy; [|apply (fo_live _ _ _ (sync_follows _ _ _ Hs))|apply (fo_wf _ _ _ (sync_follows _ _ _ Hs))].
    cbn. unfold n. lia. }
  assert (Hnp : outcome_pending o = false).
  { unfold rerank_verdict in Hv. repeat case_match; by simplify_eq. }
  exists regs0, c1. split_and!; [|done| |done|done|].
  - unfold append_rerank_outcome. rewrite Hproj, Hl, Hp. exact H1.
  - intros e r p [He|He%list_elem_of_singleton]%elem_of_app Hre Hop; [by eapply Ho|]. subst e.
    cbn in Hre. injection Hre as <-. cbn in Hop |- *. subst o. by eapply verdict_order.
  - intros o'. unfold append_rerank_outcome. rewrite Hlat. cbn [settled ReRankRoundRecord.outcome]. by rewrite Hnp.
Qed.
End Facts.

(** ** An order longer than the journal takes *)
Section Oversized.
Context `{HB : Blake3} `{!Bincode MoteDef} `{!Bincode WarrantSpec} `{!Bincode TopologyDecision}.
Context `{!SerdeValue} `{!ToolcallJson}.
Context {S : Type} `{!ContentStore S}.
Abbreviation C := (Core SqliteJournal S).
Lemma oversized_unencodable anchor p n : (MAX_RERANK_CANDIDATES < length p)%nat ->
  exists err, encode_entry (set_seq (rerank_entry anchor (ReRankOutcome.Reranked p)) n) = Err err.
Proof.
  intros Hp. cbn [rerank_entry set_seq encode_entry]. unfold encode_rerank_round, push_len_prefixed_str.
  destruct (Z.of_nat (length (ReRankRoundRecord.model_id anchor)) <? 2 ^ 16); cbn [obind]; [|by eexists].
  rewrite (proj2 (Nat.ltb_lt _ _) Hp). by eexists.
Qed.
Lemma oversized_refused (j : SqliteJournal) anchor p :
  (MAX_RERANK_CANDIDATES < length p)%nat ->
  exists err, append j (rerank_entry anchor (ReRankOutcome.Reranked p)) = Err err.
Proof.
  intros Hp. cbn [append SqliteJournal_Journal]. unfold sq_append, append_one.
  change (derive_key (rerank_entry ?a ?o)) with (rerank_entry a o).
  change (is_deduped (entry_kind (rerank_entry ?a ?o))) with false. cbn [obind].
  destruct (2 ^ 63 <=? max_seq (table (Sqlite.conn j)) + 1); [by eexists|].
  destruct (oversized_unencodable anchor p (as_u64 (max_seq (table (Sqlite.conn j)) + 1)) Hp) as [err ->]. by eexists.
Qed.
(** The journal records no order of more than 64 candidates. When a model has
    ordered more, the pass records nothing, the round stays pending, and the lease
    gate goes on holding the answer that waits for it. *)
Theorem oversized_rerank_holds_forever (c : C) store anchor perm b env answer w store' k :
  c.(core_store) = Some store ->
  latest_rerank_round c.(projection) anchor.(ReRankRoundRecord.rerank_mote_id) = Some anchor ->
  anchor.(ReRankRoundRecord.outcome) = ReRankOutcome.Pending ->
  state_of_id c.(projection) anchor.(ReRankRoundRecord.rerank_mote_id) = MoteState.Committed ->
  result_ref_of c.(projection) anchor.(ReRankRoundRecord.rerank_mote_id) ≫= get store = Some b ->
  parse_permutation (from_utf8_lossy b) (Z.to_nat anchor.(ReRankRoundRecord.candidate_count)) = Some perm ->
  (MAX_RERANK_CANDIDATES < length perm)%nat ->
  exists c', settle_rerank (E := unit) anchor c = (Ok tt, c')
    /\ c'.(projection) = c.(projection) /\ c'.(core_journal) = c.(core_journal) /\ c'.(dispatched) = c.(dispatched)
    /\ (serve_llm_rerank_enabled env = true -> is_chat_rag_rerank_answer answer = true ->
        (chat_rag_rerank_id answer w c'.(projection) store').1 = Some k ->
        k.(rk_id) = anchor.(ReRankRoundRecord.rerank_mote_id) ->
        (chat_rag_rerank_holds env answer w c'.(projection) (Some store')).1 = true).
Proof.
  intros Hst Hl Hp Hc Hb Hperm Hlen. unfold settle_rerank. rewrite Hst. unfold rerank_verdict. rewrite Hc, Hb, Hperm.
  set (o := ReRankOutcome.Reranked (u32_of_len <$> perm)).
  assert (Hk : forall c0 : C, c0.(projection) = c.(projection) ->
    append_rerank_outcome (E := unit) anchor o c0 = (Ok tt, c0)).
  { intros c0 Hc0. unfold append_rerank_outcome. rewrite Hc0, Hl, Hp. cbn [outcome_pending negb].
    unfold append_then, core_append, czoom, cstep.
    destruct (oversized_refused (core_journal c0) anchor (u32_of_len <$> perm)) as [err Herr]; [by rewrite length_fmap|].
    fold o in Herr. rewrite Herr. by destruct c0. }
  set (c1 := stage_reordered anchor o store c).
  assert (c1.(projection) = c.(projection) /\ c1.(core_journal) = c.(core_journal) /\ c1.(dispatched) = c.(dispatched))
    as (H1 & H2 & H3).
  { unfold c1, stage_reordered, o. destruct (get store _); [|done]. destruct (reorder_retrieval_observation _ _); [|done].
    unfold store_write. rewrite Hst. by destruct (put store _) as [[]| |]. }
  exists c1. split_and!; [by apply Hk|done..|]. intros He Ha Hid Hk'. unfold chat_rag_rerank_holds. rewrite He, Ha.
  cbn [negb orb]. destruct (chat_rag_rerank_id answer w (projection c1) store') as [[k'|] st']; [|done].
  cbn in Hid. injection Hid as ->. cbn [fst]. rewrite H1, Hk', Hl, Hp. done.
Qed.
End Oversized.

(** ** A concrete rerank *)
#[local] Existing Instance demo_blake3.
#[local] Existing Instance demo_bincode.
Definition demo_passages : Value := VObject [(str "passages", VArray [VInt 1; VInt 2])].
Definition demo_reader : SerdeValue :=
  {| value_from_slice := fun b => if bool_decide (b = str "obs") then Some demo_passages else None;
     value_to_vec := fun v => match v with VObject [(_, VArray [VInt a; VInt b])] => [a; b] | _ => [] end |}.
Definition demo_orders (n : nat) : ToolcallJson := {|
  from_str_envelope := fun _ => inl None; from_str_named := fun _ => None; from_str_tool_calls := fun _ => None;
  from_str_answer := fun _ => None;
  leading_i64s := fun b => if bool_decide (b = str "[order]") then Some (Z.of_nat <$> reverse (seq 0 n)) else None |}.
#[local] Existing Instance demo_reader.
Definition demo_anchor (n : Z) : ReRankRoundRecord := {|
  ReRankRoundRecord.round := 0; ReRankRoundRecord.rerank_mote_id := demo_id 1; ReRankRoundRecord.instance_id := replicate 16 7;
  ReRankRoundRecord.base_results_ref := replicate 32 3; ReRankRoundRecord.query_ref := replicate 32 4;
  ReRankRoundRecord.warrant_ref := replicate 32 5; ReRankRoundRecord.model_id := str "m";
  ReRankRoundRecord.candidate_count := n; ReRankRoundRecord.outcome := ReRankOutcome.Pending; ReRankRoundRecord.seq := 2 |}.
Definition demo_rerank_batch (n : Z) (os : list ReRankOutcome) : list JournalEntry :=
  committed_entry (demo_proposal 1 5) :: (rerank_entry (demo_anchor n) <$> os).
Definition demo_rerank_log (n : Z) (os : list ReRankOutcome) : list JournalEntry :=
  (log_append_all [] (demo_rerank_batch n os)).2.
Definition demo_rerank_store : InMemoryContentStore :=
  {| objects := <[replicate 32 101 := str "[order]"]> {[replicate 32 3 := str "obs"]} |}.
Definition demo_rerank (n : Z) (os : list ReRankOutcome) : Demo :=
  with_core_store (Some demo_rerank_store)
    (foldl advance (with_core_journal (mem_journal (demo_rerank_log n os)) demo_core)
       (log_append_all [] (demo_rerank_batch n os)).1).
Lemma demo_rerank_sync n os : Z.of_nat (length (demo_rerank_log n os)) < MAX_LOG -> in_sync [] (demo_rerank_log n os) (demo_rerank n os).
Proof.
  intros Hlen. assert (Hw : Forall (sane []) (demo_rerank_batch n os)).
  { constructor; [split; [intros d Hd; by apply bool_decide_eq_true in Hd|done]|].
    apply Forall_fmap, Forall_true. intros o. by apply plain_sane. }
  destruct (batch_follows [] (demo_rerank_batch n os) [] (with_core_journal (mem_journal (demo_rerank_log n os)) demo_core))
    as [[H1 H2 H3 H4 H5] _]; [apply follows_journal, demo_core_sync|done|].
  destruct (advance_side (log_append_all [] (demo_rerank_batch n os)).1
    (with_core_journal (mem_journal (demo_rerank_log n os)) demo_core)) as [E _].
  split; [unfold demo_rerank; cbn [with_core_store core_journal]; rewrite E; split; [done..|exact H1]|].
  split; [exact H1|exact H2|exact H3|exact H4|exact H5].
Qed.
Lemma rerank_settled_once_witness :
  exists c', settle_rerank (H1 := demo_orders 2) (E := unit) (demo_anchor 2) (demo_rerank 2 [ReRankOutcome.Pending]) = (Ok tt, c')
    /\ latest_rerank_round c'.(projection) (demo_id 1) = Some (settled (demo_anchor 2) (ReRankOutcome.Reranked [1; 0]) 3).
Proof.
  destruct (rerank_settled_once (H0 := demo_orders 2) [] (demo_rerank_log 2 [ReRankOutcome.Pending])
    (demo_rerank 2 [ReRankOutcome.Pending]) demo_rerank_store (demo_anchor 2) (ReRankOutcome.Reranked [1; 0]))
    as (regs & c' & H1 & _ & _ & H2 & _).
  - by apply demo_rerank_sync.
  - by vm_compute.
  - done.
  - intros e r p He%list_elem_of_In Hr Ho. vm_compute in He. destruct He as [<-|[<-|[]]]; [done|].
    cbn in Hr. injection Hr as <-. done.
  - by vm_compute.
  - done.
  - vm_compute. reflexivity.
  - done.
  - vm_compute. reflexivity.
  - exists c'. split; [exact H1|exact H2].
Defined.
Lemma rerank_delivers_same_passages_witness :
  exists r, rerank_delivered_ref (demo_rerank 2 [ReRankOutcome.Pending; ReRankOutcome.Reranked [1; 0]]).(projection)
              (Some demo_rerank_store) (replicate 16 7) (replicate 32 3) = Some r
    /\ r = ContentRef_of [2; 1]
    /\ exists obs, mem_get demo_rerank_store (replicate 32 3) = Some obs.
Proof.
  exists (ContentRef_of [2; 1]). split; [vm_compute; reflexivity|]. split; [done|].
  destruct (rerank_delivers_same_passages [] (demo_rerank_log 2 [ReRankOutcome.Pending; ReRankOutcome.Reranked [1; 0]])
    (demo_rerank 2 [ReRankOutcome.Pending; ReRankOutcome.Reranked [1; 0]]) (replicate 16 7) (replicate 32 3)
    (ContentRef_of [2; 1])) as (obs & _ & _ & _ & Ho & _).
  - by apply demo_rerank_sync.
  - intros e r p He%list_elem_of_In Hr Ho. vm_compute in He. destruct He as [<-|[<-|[<-|[]]]]; [done|..];
      cbn in Hr; injection Hr as <-; cbn in Ho; [done|]. injection Ho as <-. apply Permutation_swap.
  - vm_compute. reflexivity.
  - exists obs. exact Ho.
Defined.
Definition demo_oversized : Core SqliteJournal InMemoryContentStore := {|
  core_journal := {| Sqlite.conn := {| metadata_schema_version := None; table := [] |}; sq_watch := {| head := 0 |} |};
  core_store := Some demo_rerank_store; projection := (demo_rerank 65 [ReRankOutcome.Pending]).(projection);
  folded_through := 2; dispatched := demo_core.(dispatched) |}.
Lemma oversized_rerank_holds_forever_witness :
  exists c', settle_rerank (H1 := demo_orders 65) (E := unit) (demo_anchor 65) demo_oversized = (Ok tt, c')
    /\ c'.(projection) = demo_oversized.(projection).
Proof.
  destruct (oversized_rerank_holds_forever (H0 := demo_orders 65) demo_oversized demo_rerank_store (demo_anchor 65)
    (reverse (seq 0 65)) (str "[order]") None (build_chain_turn [] [] 0 [] None 0) (demo_warrant 1 FsMode.ReadOnly)
    demo_rerank_store {| rk_id := []; rk_base := []; rk_query := []; rk_count := 0; rk_instance := [] |})
    as (c' & H1 & H2 & _).
  - done.
  - vm_compute. reflexivity.
  - done.
  - vm_compute. reflexivity.
  - vm_compute. reflexivity.
  - vm_compute. reflexivity.
  - vm_compute. lia.
  - exists c'. split; [exact H1|exact H2].
Defined.
