(* ===== verification/Lease.v ===== *)
(** Handing out work (kx-coordinator state.rs, [serve_lease]): which Motes a
    polling worker gets, the arguments of a tool call and the context a Mote runs
    with. *)
From S2P Require Import Prelude Effects Utf8 CriticTypes Mote ContextItems Entry Journal Warrant Content DemoCodec ProjState ProjIndex ProjFold ProjHistory ProjQuery Materializer Scheduler Checkpoint Recovery Critic NativeCritic Digits ParamSchema Text ToolRegistry Toolcall ToolcallFacts ExactlyOnce Wire Workers Coordinator CoordSync Timers TimerFacts ReactShape Rerank.
Import JournalEntry.

(** ** Shapes *)
Definition is_react_observation (mote : Mote) (s : State) : bool :=
  if bool_decide (mote.(def).(tool_contract) = ∅) then false
  else match mote.(Mote.parents) with
       | [p] => is_react_turn_mote s p.(parent_id)
       | _ => false
       end.
Definition is_authored_tool (mote : Mote) (s : State) : bool :=
  negb (bool_decide (mote.(def).(tool_contract) = ∅))
  && bool_decide (mote.(def).(Mote.effect_pattern) = StageThenCommit)
  && has_key mote TOOL_ARGS_KEY && negb (is_react_observation mote s).
Definition is_agentic_launch (mote : Mote) : bool :=
  negb (bool_decide (mote.(def).(tool_contract) = ∅))
  && bool_decide (mote.(def).(Mote.nd_class) = ReadOnlyNondet)
  && bool_decide (mote.(def).(Mote.effect_pattern) = StageThenCommit)
  && has_key mote PROMPT_KEY && negb (has_key mote TOOL_ARGS_KEY).

(** ** Arguments *)
(** The reason of a permanent fault, as the data its text is made of. *)
Inductive ArgFault :=
| NoGrantedCall
| DecodeRejected (e : CallError)
| NoToolRound
| NoCallInBatch
| NotInContract (name : bytes)
| VersionMismatch (name declared called : bytes)
| NotRegistered (name version : bytes)
| SchemaMismatch (name version : bytes) (e : SchemaError)
| EmptyContract
| ManyTools
| ArgsMissing
| NoUrlHost.
Abbreviation ToolArgs := (bytes * NetScope * FsScope)%type.
Inductive ArgResolution :=
| Resolved (args : ToolArgs)
| Transient
| Permanent (reason : ArgFault).

Record LeaseReq := { lr_worker : WorkerId; lr_class : ExecutorClass; lr_max : nat }.
Record LeasedItem := {
  li_mote : Mote;
  li_warrant : WarrantSpec;
  parent_results : list (MoteId * ContentRef);
  tool_args : option ToolArgs;
  context_items : option ContentRef;
  image_ref : option ContentRef
}.
(** [out.sort_by(..); out.dedup_by(|a, b| a.0 == b.0)] *)
Fixpoint dedup_by_id {V} (l : list (bytes * V)) : list (bytes * V) :=
  match l with
  | [] => []
  | a :: l => match dedup_by_id l with
              | b :: r => if bool_decide (a.1 = b.1) then a :: r else a :: b :: r
              | [] => [a]
              end
  end.
(** The latest record of each turn, in the order of first appearance. *)
Fixpoint put_turn (r : ReactRoundRecord) (turns : list ReactRoundRecord) : list ReactRoundRecord :=
  match turns with
  | [] => [r]
  | t :: ts => if t.(ReactRoundRecord.turn) =? r.(ReactRoundRecord.turn)
               then (if t.(ReactRoundRecord.seq) <? r.(ReactRoundRecord.seq) then r else t) :: ts
               else t :: put_turn r ts
  end.
Definition turn_le (a b : ReactRoundRecord) : Prop := a.(ReactRoundRecord.turn) <= b.(ReactRoundRecord.turn).
#[export] Instance turn_le_dec : RelDecision turn_le.
Proof. intros a b. unfold turn_le. apply _. Defined.
Definition branch_calls (b : ReactBranch) : list (bytes * bytes) :=
  match b with
  | ReactBranch.Tool i v => [(i, v)]
  | ReactBranch.ToolBatch calls => calls
  | _ => []
  end.

Section Lease.
Context `{Blake3} `{!Bincode MoteDef} `{!Bincode WarrantSpec} `{!Bincode TopologyDecision} `{!Bincode CriticVerdict}.
Context `{HSJ : SerdeJson} `{HSV : SerdeValue} `{HTJ : ToolcallJson}.
Context {J S R : Type} `{!Journal J} `{!ContentStore S} `{!ToolRegistry R}.
Abbreviation C := (Core J S).

(** ** The ready set behind the critics *)
Definition shared_verdicts (store : S) : VerdictLookup := fun r =>
  match get store r with
  | Some b => match CriticVerdict_decode b with Ok v => Some v | _ => None end
  | None => None
  end.
Definition gated_ready_set (s : State) (store : option S) : list MoteId :=
  match store with
  | Some store => ready_set_auto s (Some (shared_verdicts store))
  | None => ready_set_auto s None
  end.

(** ** Arguments of an observation *)
Fixpoint position_of (mote : Mote) (parent : MoteId) (r : ReactRoundRecord) (i : nat) (calls : list ToolCall) : option ToolCall :=
  match calls with
  | [] => None
  | c :: calls =>
      let candidate := build_chain_tool mote.(def).(Mote.model_id) c.(call_name) c.(call_version) r.(ReactRoundRecord.turn)
        r.(ReactRoundRecord.instance_id) r.(ReactRoundRecord.step_salt) (u32_of_len i) parent in
      if bool_decide (candidate.(Mote.mote_id) = mote.(Mote.mote_id)) then Some c
      else position_of mote parent r (Datatypes.S i) calls
  end.
Definition validated (tools : R) (name version args : bytes) (k : ToolDef -> ArgResolution)
    : outcome ArgResolution unit :=
  match lookup_tool tools name version with
  | None => Ok (Permanent (NotRegistered name version))
  | Some d =>
      match d.(ToolDef.input_schema) with
      | Some schema => match validate_args schema args with
                       | Ok _ => Ok (k d)
                       | Err e => Ok (Permanent (SchemaMismatch name version e))
                       | Panic => Panic
                       end
      | None => Ok (k d)
      end
  end.
Definition fire_call (mote : Mote) (tools : R) (call : ToolCall) : outcome ArgResolution unit :=
  match mote.(def).(tool_contract) !! call.(call_name) with
  | None => Ok (Permanent (NotInContract call.(call_name)))
  | Some declared =>
      if negb (bool_decide (declared = call.(call_version)))
      then Ok (Permanent (VersionMismatch call.(call_name) declared call.(call_version)))
      else validated tools call.(call_name) call.(call_version) call.(args_bytes) (fun d =>
        Resolved (normalize_lenient_args call.(args_bytes), d.(ToolDef.required_capability).(ToolRequirement.net_scope_required),
                  d.(ToolDef.required_capability).(ToolRequirement.fs_scope_required)))
  end.
Definition resolve_tool_args (mote : Mote) (warrant : WarrantSpec) (s : State) (store : option S) (tools : R)
    : outcome ArgResolution unit :=
  match store, hd_error mote.(Mote.parents) with
  | Some store, Some p =>
      let parent := p.(parent_id) in
      match result_ref_of s parent ≫= get store with
      | None => Ok Transient
      | Some raw =>
          match parse_tool_calls raw warrant (max_args_bytes warrant) with
          | Ok [] => Ok (Permanent NoGrantedCall)
          | Ok [call] => fire_call mote tools call
          | Ok calls =>
              let* round := react_tool_round s parent in
              match round with
              | None => Ok (Permanent NoToolRound)
              | Some record =>
                  match position_of mote parent record 0 calls with
                  | None => Ok (Permanent NoCallInBatch)
                  | Some call => fire_call mote tools call
                  end
              end
          | Err e => Ok (Permanent (DecodeRejected e))
          | Panic => Panic
          end
      end
  | _, _ => Ok Transient
  end.

(** ** Arguments of an authored tool step *)
Definition http_request_host (args : bytes) : option bytes :=
  match value_from_slice args ≫= (fun v => value_get v (str "url") ≫= as_str) with
  | None => None
  | Some url =>
      match (match strip_prefix url (str "http://") with
             | Some rest => Some rest
             | None => strip_prefix url (str "https://")
             end) with
      | None => None
      | Some rest =>
          let authority := split_first (fun c => (c =? 47) || (c =? 63) || (c =? 35)) rest in
          let host_port := match rsplit_once 64 authority with Some (_, h) => h | None => authority end in
          let host := match strip_prefix host_port (str "[") with
                      | Some bracketed => split_first (fun c => c =? 93) bracketed
                      | None => match rsplit_once 58 host_port with Some (h, _) => h | None => host_port end
                      end in
          if bool_decide (host = []) then None else Some host
      end
  end.
Definition resolve_authored_tool_args (mote : Mote) (tools : R) : outcome ArgResolution unit :=
  match btree_iter mote.(def).(tool_contract) with
  | [] => Ok (Permanent EmptyContract)
  | _ :: _ :: _ => Ok (Permanent ManyTools)
  | [(name, version)] =>
      match config mote TOOL_ARGS_KEY with
      | None => Ok (Permanent ArgsMissing)
      | Some args =>
          validated tools name version args (fun d =>
            let fs := d.(ToolDef.required_capability).(ToolRequirement.fs_scope_required) in
            if bool_decide (name = str "http")
            then match http_request_host args with
                 | Some host => Resolved (normalize_lenient_args args, NetScope.EgressAllowlist {[host]}, fs)
                 | None => Permanent NoUrlHost
                 end
            else Resolved (normalize_lenient_args args, d.(ToolDef.required_capability).(ToolRequirement.net_scope_required), fs))
      end
  end.

(** ** Context *)
(** What the first turn of the Mote's chain recorded, unless the Mote carries it. *)
Definition from_anchor (key : bytes) (field : ReactRoundRecord -> option ContentRef) (mote : Mote) (s : State)
    : outcome (option ContentRef) unit :=
  if has_key mote key then Ok None
  else match config mote REACT_TURN_KEY ≫= decode_react_marker with
       | None => Ok None
       | Some (instance_id, step_salt) =>
           let* rs := react_rounds_of s instance_id step_salt in
           Ok (List.find (fun r => r.(ReactRoundRecord.turn) =? 0) rs ≫= field)
       end.
Definition resolve_react_context_items : Mote -> State -> outcome (option ContentRef) unit :=
  from_anchor CONTEXT_ITEMS_KEY ReactRoundRecord.context_items_ref.
Definition resolve_react_image_ref : Mote -> State -> outcome (option ContentRef) unit :=
  from_anchor IMAGE_REF_KEY ReactRoundRecord.image_ref.
Definition observation_result (s : State) (store : option S) (instance_id : bytes) (step_salt : option bytes)
    (r : ReactRoundRecord) (i : nat) (call : bytes * bytes) : option (MoteId * ContentRef) :=
  let obs := build_chain_tool r.(ReactRoundRecord.model_id) call.1 call.2 r.(ReactRoundRecord.turn) instance_id step_salt
    (u32_of_len i) r.(ReactRoundRecord.turn_mote_id) in
  (fun obs_ref => (obs.(Mote.mote_id), default obs_ref (rerank_delivered_ref s store instance_id obs_ref)))
    <$> result_ref_of s obs.(Mote.mote_id).
Definition turn_results (s : State) (store : option S) (instance_id : bytes) (step_salt : option bytes)
    (r : ReactRoundRecord) : list (MoteId * ContentRef) :=
  option_list ((fun x => (r.(ReactRoundRecord.turn_mote_id), x)) <$> result_ref_of s r.(ReactRoundRecord.turn_mote_id))
  ++ omap (fun x => x) (imap (observation_result s store instance_id step_salt r) (branch_calls r.(ReactRoundRecord.branch))).
Definition trajectory (s : State) (store : option S) (instance_id : bytes) (step_salt : option bytes) (id : MoteId)
    (rs : list ReactRoundRecord) : list (MoteId * ContentRef) :=
  match List.find (fun r => bool_decide (r.(ReactRoundRecord.turn_mote_id) = id)) rs with
  | None => []
  | Some this =>
      let earlier := List.filter (fun r => r.(ReactRoundRecord.turn) <? this.(ReactRoundRecord.turn)) rs in
      concat (turn_results s store instance_id step_salt
              <$> merge_sort turn_le (foldl (flip put_turn) [] earlier))
  end.
Definition data_results (s : State) (ps : list ParentRef) : list (MoteId * ContentRef) :=
  omap (fun p => match p.(edge).(Mote.kind) with
                 | Data => (fun r => (p.(parent_id), r)) <$> result_ref_of s p.(parent_id)
                 | Control => None
                 end) ps.
Definition parent_context (s : State) (submitted_defs : gmap bytes (Mote * WarrantSpec)) (p : ParentRef)
    : list (MoteId * ContentRef) :=
  match p.(edge).(Mote.kind) with
  | Data => data_results s [p]
  | Control => match submitted_defs !! p.(parent_id) with
               | Some (shaper, _) => data_results s shaper.(Mote.parents)
               | None => []
               end
  end.
Definition resolve_parent_context (mote : Mote) (s : State) (submitted_defs : gmap bytes (Mote * WarrantSpec))
    (store : option S) : outcome (list (MoteId * ContentRef)) unit :=
  match mote.(def).(Mote.critic_for) with
  | Some producer_id => Ok (option_list ((fun r => (producer_id, r)) <$> result_ref_of s producer_id))
  | None =>
      if has_key mote REACT_TURN_KEY
      then match config mote REACT_TURN_KEY ≫= decode_react_marker with
           | None => Ok []
           | Some (instance_id, step_salt) =>
               let* rs := react_rounds_of s instance_id step_salt in
               Ok (trajectory s store instance_id step_salt mote.(Mote.mote_id) rs)
           end
      else Ok (dedup_by_id (merge_sort key_le (concat (parent_context s submitted_defs <$> mote.(Mote.parents)))))
  end.

(** ** Selection *)
Record Selection := { seen : gset bytes; preferred : list MoteId; rest : list MoteId }.
Record LeaseView := {
  lv_state : State;
  lv_defs : gmap bytes (Mote * WarrantSpec);
  lv_tracker : LeaseTracker;
  lv_worker : WorkerId;
  lv_class : ExecutorClass;
  lv_env : option bytes
}.
Abbreviation M := (comp (option S)).
Definition offered (v : LeaseView) (store : option S) : list MoteId :=
  List.filter (fun id => negb (at_least_once_already_staged v.(lv_defs) v.(lv_state) id))
    (gated_ready_set v.(lv_state) store
     ++ List.filter (redispatch_admissible v.(lv_defs) v.(lv_state)) (mote_set_iter (rescheduleable v.(lv_tracker)))).
(** One round of the loop over the candidates. *)
Definition consider (v : LeaseView) (p : LoadAwarePlacement) (sel : Selection) (id : MoteId) : M Selection unit :=
  if bool_decide (id ∈ sel.(seen)) then cret sel
  else
    let sel := {| seen := {[id]} ∪ sel.(seen); preferred := sel.(preferred); rest := sel.(rest) |} in
    if bool_decide (state_of_id v.(lv_state) id = MoteState.Committed) then cret sel
    else if is_leased_by_other v.(lv_tracker) id v.(lv_worker) then cret sel
    else
      match v.(lv_defs) !! id with
      | None => cret sel
      | Some (mote, warrant) =>
          if is_agentic_launch mote then cret sel
          else if is_wait_step mote then cret sel
          else
            do! cleared := cask (fun store => Ok (skip_guard_cleared mote v.(lv_state) store)) in
            if is_skip_guard mote && negb cleared then cret sel
            else if is_policied_step mote then cret sel
            else
              do! holds := (fun store => let '(b, store) := chat_rag_rerank_holds v.(lv_env) mote warrant v.(lv_state) store
                                         in (Ok b, store)) in
              if (holds : bool) then cret sel
              else if bool_decide (warrant.(WarrantSpec.executor_class) = v.(lv_class))
              then
                do! w := clift (load_place p id) in
                if w =? v.(lv_worker)
                then cret {| seen := sel.(seen); preferred := sel.(preferred) ++ [id]; rest := sel.(rest) |}
                else cret {| seen := sel.(seen); preferred := sel.(preferred); rest := sel.(rest) ++ [id] |}
              else cret sel
      end.
Fixpoint consider_all (v : LeaseView) (p : LoadAwarePlacement) (sel : Selection) (ids : list MoteId) : M Selection unit :=
  match ids with
  | [] => cret sel
  | id :: ids => do! sel := consider v p sel id in consider_all v p sel ids
  end.
(** The arguments a Mote is leased with: [None] when it is not leased this time. *)
Definition lease_args (v : LeaseView) (tools : R) (mote : Mote) (warrant : WarrantSpec) (store : option S)
    : outcome (option (option ToolArgs)) unit :=
  if is_react_observation mote v.(lv_state)
  then let* a := resolve_tool_args mote warrant v.(lv_state) store tools in
       Ok (match a with Resolved args => Some (Some args) | _ => None end)
  else if is_authored_tool mote v.(lv_state)
  then let* a := resolve_authored_tool_args mote tools in
       Ok (match a with Resolved args => Some (Some args) | _ => None end)
  else Ok (Some None).
Definition lease_item (v : LeaseView) (tools : R) (id : MoteId) : M (option LeasedItem) unit :=
  match v.(lv_defs) !! id with
  | None => cret None
  | Some (mote, warrant) =>
      do! results := cask (resolve_parent_context mote v.(lv_state) v.(lv_defs)) in
      do! args := cask (lease_args v tools mote warrant) in
      match args with
      | None => cret None
      | Some args =>
          do! delivered := (fun store => let '(r, store) := chat_rag_delivered_context v.(lv_env) mote warrant v.(lv_state) store
                                         in (Ok r, store)) in
          do! items := (match delivered with
                        | Some r => cret (Some r)
                        | None => clift (resolve_react_context_items mote v.(lv_state))
                        end) in
          do! image := clift (resolve_react_image_ref mote v.(lv_state)) in
          cret (Some {| li_mote := mote; li_warrant := warrant; parent_results := results; tool_args := args;
                        context_items := items; image_ref := image |})
      end
  end.
Fixpoint lease_items (v : LeaseView) (tools : R) (ids : list MoteId) : M (list LeasedItem) unit :=
  match ids with
  | [] => cret []
  | id :: ids =>
      do! item := lease_item v tools id in
      do! items := lease_items v tools ids in
      cret (option_list item ++ items)
  end.
Definition lease_ready (v : LeaseView) (now : Z) (registry : InMemoryWorkerRegistry) (max : nat) (tools : R)
    : M (list LeasedItem) unit := fun store =>
  let placement := LoadAwarePlacement_new now registry v.(lv_class) in
  (do! sel := consider_all v placement {| seen := ∅; preferred := []; rest := [] |} (offered v store) in
   lease_items v tools (take max (sel.(preferred) ++ sel.(rest)))) store.
(** [reaped] and [now] are what the clock read for the reap and for the placement. *)
Definition lease_view (env : option bytes) (req : LeaseReq) (c : C) : LeaseView := {|
  lv_state := c.(projection); lv_defs := c.(dispatched).(defs); lv_tracker := c.(dispatched).(tracker);
  lv_worker := req.(lr_worker); lv_class := req.(lr_class); lv_env := env |}.
Definition serve_lease (env : option bytes) (reaped now : Z) (registry : InMemoryWorkerRegistry) (req : LeaseReq) (tools : R)
    : comp C (list LeasedItem * option bytes) unit :=
  do! _ := reap_dead_workers reaped registry in
  fun c =>
    let '(r, store) := lease_ready (lease_view env req c) now registry req.(lr_max) tools c.(core_store) in
    let c := with_core_store store c in
    match r with
    | Ok items =>
        (Ok (items, rr_instance_id <$> c.(projection).(run_registration)),
         with_tracker (fun t => record_lease t req.(lr_worker) ((fun it => it.(li_mote).(Mote.mote_id)) <$> items)) c)
    | Err e => (Err e, c)
    | Panic => (Panic, c)
    end.
End Lease.
