(* ===== verification/LeaseFacts.v ===== *)
(** What a lease promises: the work handed out is runnable, is handed to one
    worker at a time and is not held back when there is room; and what two of its
    choices cost. *)
From S2P Require Import Prelude Effects Utf8 CriticTypes Mote ContextItems Entry Journal Warrant Content DemoCodec ProjState ProjIndex ProjFold ProjHistory ProjQuery Materializer Scheduler Refusal Checkpoint Recovery Critic NativeCritic Digits ParamSchema Text ToolRegistry ToolStore Toolcall ToolcallFacts ExactlyOnce Wire Workers Coordinator CoordSync Cascade Timers TimerFacts ReactShape Rerank Lease.
Import JournalEntry.

Section Facts.
Context `{HB : Blake3} `{!Bincode MoteDef} `{!Bincode WarrantSpec} `{!Bincode TopologyDecision} `{!Bincode CriticVerdict}.
Context `{HSJ : SerdeJson} `{HSV : SerdeValue} `{HTJ : ToolcallJson}.
Context {J S R : Type} `{!Journal J} `{!ContentStore S} `{!ToolRegistry R}.
Abbreviation C := (Core J S).

(** ** The store only grows *)
Definition put_step (st st' : option S) : Prop :=
  exists s s' b r, st = Some s /\ st' = Some s' /\ put s b = Ok (r, s').
Abbreviation grows := (rtc put_step).
Lemma store_put_grows b (s : S) : grows (Some s) (Some (store_put b s).2).
Proof.
  unfold store_put. destruct (put s b) as [[r s']| |] eqn:E; cbn; [|done..]. apply rtc_once. by exists s, s', b, r.
Qed.
Lemma prep_grows mote (s : S) : grows (Some s) (Some (chat_rag_rerank_prep mote s).2).
Proof.
  unfold chat_rag_rerank_prep. destruct (config mote CONTEXT_ITEMS_KEY) as [bundle|]; [|done].
  destruct (_ <? 2)%nat; [done|]. destruct (from_utf8_lossy <$> _) as [query|]; [|done].
  set (o := value_to_vec _). pose proof (store_put_grows o s) as H1. destruct (store_put o s) as [[b|] s1]; [|done].
  pose proof (store_put_grows query s1) as H2. destruct (store_put query s1) as [[q|] s2]; cbn [snd] in *; by etrans.
Qed.
Lemma rerank_id_grows mote w st (s : S) : grows (Some s) (Some (chat_rag_rerank_id mote w st s).2).
Proof.
  unfold chat_rag_rerank_id. destruct (run_registration st) as [reg|]; [|done].
  pose proof (prep_grows mote s) as H1. by destruct (chat_rag_rerank_prep mote s) as [[[[? ?] ?]|] s1].
Qed.
Lemma holds_grows env mote w st (store : option S) : grows store (chat_rag_rerank_holds env mote w st store).2.
Proof.
  unfold chat_rag_rerank_holds. destruct (_ || _); [done|]. destruct store as [s|]; [|done].
  pose proof (rerank_id_grows mote w st s) as H1. by destruct (chat_rag_rerank_id mote w st s) as [[k|] s1].
Qed.
Lemma delivered_grows env mote w st (store : option S) : grows store (chat_rag_delivered_context env mote w st store).2.
Proof.
  unfold chat_rag_delivered_context. destruct (_ || _); [done|]. destruct store as [s|]; [|done].
  pose proof (rerank_id_grows mote w st s) as H1. by destruct (chat_rag_rerank_id mote w st s) as [[k|] s1].
Qed.

(** ** What is leased *)
Record runnable (v : LeaseView) (st0 : option S) (id : MoteId) (mote : Mote) (warrant : WarrantSpec) : Prop := {
  rn_def : v.(lv_defs) !! id = Some (mote, warrant);
  rn_offered : id ∈ gated_ready_set v.(lv_state) st0
    \/ id ∈ rescheduleable v.(lv_tracker) /\ redispatch_admissible v.(lv_defs) v.(lv_state) id = true;
  rn_once : at_least_once_already_staged v.(lv_defs) v.(lv_state) id = false;
  rn_open : state_of_id v.(lv_state) id <> MoteState.Committed;
  rn_free : is_leased_by_other v.(lv_tracker) id v.(lv_worker) = false;
  rn_shape : is_agentic_launch mote = false /\ is_wait_step mote = false /\ is_policied_step mote = false;
  rn_guard : is_skip_guard mote = true -> exists st, grows st0 st /\ skip_guard_cleared mote v.(lv_state) st = true;
  rn_rerank : exists st, grows st0 st /\ (chat_rag_rerank_holds v.(lv_env) mote warrant v.(lv_state) st).1 = false;
  rn_class : warrant.(WarrantSpec.executor_class) = v.(lv_class)
}.
Definition picked (sel : Selection) : list MoteId := sel.(preferred) ++ sel.(rest).
Record selected (v : LeaseView) (st0 : option S) (sel : Selection) (st : option S) : Prop := {
  sl_grows : grows st0 st;
  sl_nodup : NoDup (picked sel);
  sl_seen : forall id, id ∈ picked sel -> id ∈ sel.(seen);
  sl_runnable : forall id, id ∈ picked sel -> exists mote warrant, runnable v st0 id mote warrant
}.
Lemma elem_of_filter_b {A} (f : A -> bool) l x : x ∈ List.filter f l <-> f x = true /\ x ∈ l.
Proof. rewrite !list_elem_of_In, filter_In. tauto. Qed.
Lemma elem_of_offered (v : LeaseView) (st0 : option S) id :
  id ∈ offered v st0 <->
  at_least_once_already_staged v.(lv_defs) v.(lv_state) id = false
  /\ (id ∈ gated_ready_set v.(lv_state) st0
      \/ id ∈ rescheduleable v.(lv_tracker) /\ redispatch_admissible v.(lv_defs) v.(lv_state) id = true).
Proof.
  unfold offered. rewrite elem_of_filter_b, elem_of_app, elem_of_filter_b, negb_true_iff, elem_of_mote_set. tauto.
Qed.
Lemma consider_spec v p sel id st sel' st' :
  consider v p sel id st = (Ok sel', st') ->
  grows st st'
  /\ (sel'.(preferred) = sel.(preferred) /\ sel'.(rest) = sel.(rest) /\ sel.(seen) ⊆ sel'.(seen)
      \/ id ∉ sel.(seen) /\ sel'.(seen) = {[id]} ∪ sel.(seen)
         /\ (sel'.(preferred) = sel.(preferred) ++ [id] /\ sel'.(rest) = sel.(rest)
             \/ sel'.(preferred) = sel.(preferred) /\ sel'.(rest) = sel.(rest) ++ [id])
         /\ forall st0, grows st0 st -> id ∈ offered v st0 -> exists mote warrant, runnable v st0 id mote warrant).
Proof.
  unfold consider. case_bool_decide as Hs; [intros [= <- <-]; split; [done|]; left; set_solver|].
  case_bool_decide as Hc; [intros [= <- <-]; split; [done|]; left; set_solver|].
  destruct (is_leased_by_other _ _ _) eqn:Hl; [intros [= <- <-]; split; [done|]; left; set_solver|].
  destruct (lv_defs v !! id) as [[mote w]|] eqn:Hd; [|intros [= <- <-]; split; [done|]; left; set_solver].
  destruct (is_agentic_launch mote) eqn:Ha; [intros [= <- <-]; split; [done|]; left; set_solver|].
  destruct (is_wait_step mote) eqn:Hw; [intros [= <- <-]; split; [done|]; left; set_solver|].
  unfold cbind at 1, cask. destruct (is_skip_guard mote && _) eqn:Hg; [intros [= <- <-]; split; [done|]; left; set_solver|].
  destruct (is_policied_step mote) eqn:Hp; [intros [= <- <-]; split; [done|]; left; set_solver|].
  unfold cbind at 1. pose proof (holds_grows (lv_env v) mote w (lv_state v) st) as Hgr.
  destruct (chat_rag_rerank_holds _ mote w _ st) as [h st1] eqn:Hh. cbn [snd] in Hgr.
  destruct h; [intros [= <- <-]; split; [done|]; left; set_solver|].
  case_bool_decide as He; [|intros [= <- <-]; split; [done|]; left; set_solver].
  unfold cbind, clift. destruct (load_place p id) as [x| |]; [|done..].
  assert (Hrun : forall st0, grows st0 st -> id ∈ offered v st0 -> exists mote warrant, runnable v st0 id mote warrant).
  { intros st0 H0 [Hat Ho]%elem_of_offered. exists mote, w. split; [done..| | |done].
    - intros Hsg. exists st. split; [done|]. rewrite Hsg in Hg. cbn in Hg. by apply negb_false_iff in Hg.
    - exists st. split; [done|]. by rewrite Hh. }
  destruct (x =? _); intros [= <- <-]; (split; [done|]); right; cbn; split_and!; eauto.
Qed.
Lemma consider_all_spec v p st0 ids : forall sel st sel' st',
  selected v st0 sel st -> (forall id, id ∈ ids -> id ∈ offered v st0) ->
  consider_all v p sel ids st = (Ok sel', st') -> selected v st0 sel' st'.
Proof.
  induction ids as [|id ids IH]; intros sel st sel' st' Hsel Hids; cbn [consider_all].
  { by intros [= <- <-]. }
  intros (sel1 & st1 & H1 & H2)%cbind_ok_inv. eapply IH; [|set_solver|exact H2].
  apply consider_spec in H1 as (Hg & H1). destruct Hsel as [G N Sn Rn].
  destruct H1 as [(Hp & Hr & Hs)|(Hs & Hs' & Hpr & Hrun)].
  { split; unfold picked in *; rewrite ?Hp, ?Hr; [by etrans|done|set_solver|done]. }
  assert (Hperm : picked sel1 ≡ₚ id :: picked sel).
  { unfold picked. destruct Hpr as [[-> ->]|[-> ->]].
    - rewrite <- app_assoc. cbn. by rewrite Permutation_middle.
    - rewrite app_assoc. by rewrite Permutation_app_comm. }
  split; [by etrans|rewrite Hperm; constructor; [set_solver|done]|..]; intros i; rewrite Hperm; rewrite ?Hs'.
  - set_solver.
  - intros [->|Hi]%elem_of_cons; [|by apply Rn]. apply Hrun; [done|]. apply Hids. set_solver.
Qed.
(** An item is the Mote and warrant admitted under its identity, with the
    arguments and context resolved then. *)
Record item_of (v : LeaseView) (tools : R) (st0 : option S) (id : MoteId) (it : LeasedItem) : Prop := {
  it_def : v.(lv_defs) !! id = Some (it.(li_mote), it.(li_warrant));
  it_args : exists st, grows st0 st /\ lease_args v tools it.(li_mote) it.(li_warrant) st = Ok (Some it.(tool_args))
    /\ resolve_parent_context it.(li_mote) v.(lv_state) v.(lv_defs) st = Ok it.(parent_results)
}.
Lemma lease_item_spec v tools id st o st' :
  lease_item v tools id st = (Ok o, st') ->
  grows st st' /\ forall it, o = Some it -> forall st0, grows st0 st -> item_of v tools st0 id it.
Proof.
  unfold lease_item. destruct (lv_defs v !! id) as [[mote w]|] eqn:Hd; [|by intros [= <- <-]].
  unfold cask. intros (results & ? & [= Hres <-] & H1)%cbind_ok_inv.
  apply cbind_ok_inv in H1 as (args & ? & [= Hargs <-] & H1). destruct args as [args|]; [|by injection H1 as <- <-].
  apply cbind_ok_inv in H1 as (r & st1 & Hr & H1).
  pose proof (delivered_grows (lv_env v) mote w (lv_state v) st) as Hg.
  destruct (chat_rag_delivered_context _ mote w _ st) as [r' st'']. injection Hr as -> ->. cbn [snd] in Hg.
  apply cbind_ok_inv in H1 as (items & st2 & Hi & H1). assert (st2 = st1) as ->. { destruct r; by injection Hi. }
  apply cbind_ok_inv in H1 as (img & st3 & [= _ <-] & [= <- <-]). split; [done|].
  intros it [= <-] st0 H0. split; [done|]. by exists st.
Qed.
Lemma lease_items_spec v tools st0 ids : forall st items st',
  grows st0 st -> lease_items v tools ids st = (Ok items, st') ->
  grows st0 st' /\ exists ids', ids' `sublist_of` ids /\ Forall2 (item_of v tools st0) ids' items.
Proof.
  induction ids as [|id ids IH]; intros st items st' H0; cbn [lease_items].
  { intros [= <- <-]. split; [done|]. by exists []. }
  intros (o & st1 & H1 & H2)%cbind_ok_inv. apply cbind_ok_inv in H2 as (its & st2 & H2 & [= <- <-]).
  apply lease_item_spec in H1 as [Hg H1].
  destruct (IH st1 its st2) as (Hg2 & ids' & Hs & Hf); [by etrans|done|]. split; [done|].
  destruct o as [it|]; cbn.
  - exists (id :: ids'). split; [by constructor|]. constructor; [by apply H1|done].
  - exists ids'. split; [by constructor|done].
Qed.
Lemma lease_ready_spec v now registry max tools st items st' :
  lease_ready v now registry max tools st = (Ok items, st') ->
  exists ids, NoDup ids /\ (length ids <= max)%nat
    /\ Forall2 (fun id it => runnable v st id it.(li_mote) it.(li_warrant) /\ item_of v tools st id it) ids items
    /\ grows st st'.
Proof.
  unfold lease_ready. intros (sel & st1 & H1 & H2)%cbind_ok_inv.
  apply (consider_all_spec v _ st) in H1; [|split; [done|constructor|set_solver..]|done]. destruct H1 as [G N Sn Rn].
  eapply (lease_items_spec v tools st) in H2 as (Hg & ids & Hs & Hf); [|done].
  exists ids. split_and!; [| | |done].
  - eapply sublist_NoDup; [|exact Hs]. eapply sublist_NoDup; [done|apply sublist_take].
  - apply sublist_length in Hs. rewrite length_take in Hs. lia.
  - assert (Hi : forall id, id ∈ ids -> id ∈ picked sel).
    { intros id Hid. eapply elem_of_sublist; [by eapply elem_of_sublist|apply sublist_take]. }
    clear Hs. induction Hf as [|id it ids items Hit _ IH]; constructor; [|apply IH; set_solver].
    split; [|done]. destruct (Rn id) as (mote & w & Hr); [set_solver|].
    pose proof (rn_def _ _ _ _ _ Hr) as E. rewrite (it_def _ _ _ _ _ Hit) in E. injection E as <- <-. done.
Qed.
(** [C12] Everything a poll hands out was admitted, is ready or may be dispatched again,
    is committed by nobody, held by no other worker, fits the worker's backend, is
    none of the shapes the coordinator drives itself, and no conditional arm or rerank
    holds it; tool calls go out with the arguments they resolve to, nothing goes out
    twice and no more than was asked for. A Mote whose effect has staged is not handed
    out again if a tool of its contract is recorded as resolved at-least-once (a
    staged Mote with no such record may be). *)
Theorem leased_work_runnable v now registry max tools st items st' :
  lease_ready v now registry max tools st = (Ok items, st') ->
  exists ids, NoDup ids /\ (length ids <= max)%nat
    /\ Forall2 (fun id it => runnable v st id it.(li_mote) it.(li_warrant) /\ item_of v tools st id it) ids items
    /\ grows st st'.
Proof. apply lease_ready_spec. Qed.

(** ** Arguments *)
(** The tool a call fires is registered and takes the arguments as they are sent. *)
Definition fires (tools : R) (name version : bytes) (d : ToolDef) (args : bytes) : Prop :=
  lookup_tool tools name version = Some d
  /\ forall schema, d.(ToolDef.input_schema) = Some schema -> validate_args schema args = Ok tt.
Lemma validated_resolved (tools : R) name version args k a :
  validated tools name version args k = Ok (Resolved a) ->
  exists d, fires tools name version d (normalize_lenient_args args) /\ k d = Resolved a.
Proof.
  unfold validated. destruct (lookup_tool tools name version) as [d|] eqn:Hl; [|done].
  destruct (ToolDef.input_schema d) as [schema|] eqn:Hs.
  - destruct (validate_args schema args) as [[]|e|] eqn:Hv; [|done..]. intros [= Hk]. exists d. split; [|done].
    split; [done|]. rewrite Hs. intros ? [= <-]. revert Hv. unfold validate_args.
    by destruct (lenient_repair_exact args) as (-> & _).
  - intros [= Hk]. exists d. split; [|done]. split; [done|]. by rewrite Hs.
Qed.
Lemma fire_call_resolved mote (tools : R) call args net fs :
  fire_call mote tools call = Ok (Resolved (args, net, fs)) ->
  mote.(def).(tool_contract) !! call.(call_name) = Some call.(call_version)
  /\ args = normalize_lenient_args call.(args_bytes)
  /\ exists d, fires tools call.(call_name) call.(call_version) d args
       /\ net = d.(ToolDef.required_capability).(ToolRequirement.net_scope_required)
       /\ fs = d.(ToolDef.required_capability).(ToolRequirement.fs_scope_required).
Proof.
  unfold fire_call. destruct (_ !! _) as [declared|] eqn:Hc; [|done]. case_bool_decide as Hd; [|done]. cbn [negb].
  intros (d & Hf & [= <- <- <-])%validated_resolved. subst. split_and!; [done..|]. by exists d.
Qed.
Lemma position_of_elem mote parent r calls : forall i c, position_of mote parent r i calls = Some c -> c ∈ calls.
Proof.
  induction calls as [|c calls IH]; intros i c'; cbn [position_of]; [done|]. case_bool_decide; [intros [= <-]; by left|].
  intros Hc. right. by eapply IH.
Qed.
(** A tool call a model made fires with its warrant's leave or not at all: the call
    is one the Mote's warrant grants, at the version the Mote declares, its
    arguments are within the warrant's cap and of the tool's schema as sent, and it
    asks for the network and files the tool declares. *)
Theorem observation_args_granted mote w s (st : option S) (tools : R) args net fs :
  resolve_tool_args mote w s st tools = Ok (Resolved (args, net, fs)) ->
  exists call d, granted w (max_args_bytes w) call
    /\ mote.(def).(tool_contract) !! call.(call_name) = Some call.(call_version)
    /\ args = normalize_lenient_args call.(args_bytes)
    /\ fires tools call.(call_name) call.(call_version) d args
    /\ net = d.(ToolDef.required_capability).(ToolRequirement.net_scope_required)
    /\ fs = d.(ToolDef.required_capability).(ToolRequirement.fs_scope_required).
Proof.
  unfold resolve_tool_args. destruct st as [st|]; [|done]. destruct (hd_error _) as [p|]; [|done].
  destruct (_ ≫= _) as [raw|]; [|done]. pose proof (parse_tool_calls_granted raw w (max_args_bytes w)) as Hy.
  assert (Hfin : forall calls call, Forall (granted w (max_args_bytes w)) calls -> call ∈ calls ->
    fire_call mote tools call = Ok (Resolved (args, net, fs)) ->
    exists call d, granted w (max_args_bytes w) call
      /\ mote.(def).(tool_contract) !! call.(call_name) = Some call.(call_version)
      /\ args = normalize_lenient_args call.(args_bytes) /\ fires tools call.(call_name) call.(call_version) d args
      /\ net = d.(ToolDef.required_capability).(ToolRequirement.net_scope_required)
      /\ fs = d.(ToolDef.required_capability).(ToolRequirement.fs_scope_required)).
  { intros calls call Hg Hc (Hk & Ha & d & Hd)%fire_call_resolved. exists call, d. rewrite Forall_forall in Hg. by split_and!; auto; apply Hd. }
  destruct (parse_tool_calls raw w _) as [[|c [|c' cs]]|e|]; cbn [yields] in Hy; [done| | |done..].
  - apply (Hfin [c] c Hy). set_solver.
  - destruct (react_tool_round s (parent_id p)) as [[r|]| |]; cbn [obind]; [|done..].
    destruct (position_of _ _ r _ _) as [call|] eqn:Hp; [|done]. apply (Hfin _ call Hy). by eapply position_of_elem.
Qed.

(** ** Room for all *)
Lemma from_anchor_total key field mote s : indices_ok s -> exists o, from_anchor key field mote s = Ok o.
Proof.
  intros Hi. unfold from_anchor. destruct (has_key mote key); [by eexists|].
  destruct (_ ≫= _) as [[inst salt]|]; [|by eexists]. rewrite react_rounds_of_scan by done. by eexists.
Qed.
Lemma parent_context_total mote s ds (st : option S) : indices_ok s -> exists l, resolve_parent_context mote s ds st = Ok l.
Proof.
  intros Hi. unfold resolve_parent_context. destruct (Mote.critic_for _); [by eexists|].
  destruct (has_key _ _); [|by eexists]. destruct (_ ≫= _) as [[inst salt]|]; [|by eexists].
  rewrite react_rounds_of_scan by done. by eexists.
Qed.
Lemma validated_total (tools : R) name version args k : exists a, validated tools name version args k = Ok a.
Proof.
  unfold validated. destruct (lookup_tool tools name version) as [d|]; [|by eexists].
  destruct (ToolDef.input_schema d) as [schema|]; [|by eexists]. pose proof (validate_args_total schema args).
  destruct (validate_args schema args); [by eexists..|done].
Qed.
Lemma fire_call_total mote (tools : R) call : exists a, fire_call mote tools call = Ok a.
Proof.
  unfold fire_call. destruct (_ !! _); [|by eexists]. destruct (negb _); [by eexists|]. apply validated_total.
Qed.
Lemma react_tool_round_total s id : indices_ok s -> exists o, react_tool_round s id = Ok o.
Proof.
  intros Hi. unfold react_tool_round. destruct (io_tool s Hi id) as [[-> _]|(i & r & -> & -> & _)]; by eexists.
Qed.
Lemma resolve_tool_args_total mote w s (st : option S) (tools : R) :
  indices_ok s -> exists a, resolve_tool_args mote w s st tools = Ok a.
Proof.
  intros Hi. unfold resolve_tool_args. destruct st as [st|]; [|by eexists]. destruct (hd_error _) as [p|]; [|by eexists].
  destruct (_ ≫= _) as [raw|]; [|by eexists]. pose proof (parse_tool_calls_granted raw w (max_args_bytes w)) as Hy.
  destruct (parse_tool_calls raw w _) as [[|c [|c' cs]]|e|]; [by eexists|apply fire_call_total| |by eexists|done].
  destruct (react_tool_round_total s (parent_id p) Hi) as [[r|] ->]; cbn [obind]; [|by eexists].
  destruct (position_of _ _ _ _ _); [apply fire_call_total|by eexists].
Qed.
Lemma authored_args_total mote (tools : R) : exists a, resolve_authored_tool_args mote tools = Ok a.
Proof.
  unfold resolve_authored_tool_args. destruct (btree_iter _) as [|[n v] [|]]; [by eexists| |by eexists].
  destruct (config _ _); [apply validated_total|by eexists].
Qed.
Lemma lease_args_total v (tools : R) mote w (st : option S) :
  indices_ok v.(lv_state) -> exists a, lease_args v tools mote w st = Ok a.
Proof.
  intros Hi. unfold lease_args. destruct (is_react_observation _ _).
  - destruct (resolve_tool_args_total mote w (lv_state v) st tools Hi) as [a ->]. by eexists.
  - destruct (is_authored_tool _ _); [|by eexists]. destruct (authored_args_total mote tools) as [a ->]. by eexists.
Qed.
(** Without the rerank the store is only read. *)
Section NoRerank.
Context (v : LeaseView) (Henv : serve_llm_rerank_enabled v.(lv_env) = false) (Hidx : indices_ok v.(lv_state)).
Lemma holds_off mote w st (store : option S) : chat_rag_rerank_holds v.(lv_env) mote w st store = (false, store).
Proof. unfold chat_rag_rerank_holds. by rewrite Henv. Qed.
Lemma lease_item_total (tools : R) id (st : option S) : exists o, lease_item v tools id st = (Ok o, st)
  /\ forall mote w args, v.(lv_defs) !! id = Some (mote, w) -> lease_args v tools mote w st = Ok (Some args) ->
       exists it, o = Some it /\ it.(li_mote) = mote /\ it.(li_warrant) = w /\ it.(tool_args) = args.
Proof.
  unfold lease_item. destruct (lv_defs v !! id) as [[mote w]|]; [|by eexists]. unfold cbind, cask, clift.
  destruct (parent_context_total mote (lv_state v) (lv_defs v) st Hidx) as [l ->].
  destruct (lease_args_total v tools mote w st Hidx) as [[a|] Ha]; rewrite Ha; [|exists None; split; [done|]; intros ? ? ? [= <- <-]; by rewrite Ha].
  unfold chat_rag_delivered_context. rewrite Henv. cbn [negb orb].
  destruct (from_anchor_total CONTEXT_ITEMS_KEY ReactRoundRecord.context_items_ref mote (lv_state v) Hidx) as [x Hx].
  destruct (from_anchor_total IMAGE_REF_KEY ReactRoundRecord.image_ref mote (lv_state v) Hidx) as [y Hy].
  unfold resolve_react_context_items, resolve_react_image_ref. rewrite Hx, Hy. eexists. split; [done|].
  intros ? ? ? [= <- <-]. rewrite Ha. intros [= <-]. eexists. split; [done|]. done.
Qed.
Lemma lease_items_total (tools : R) (st : option S) ids : exists items, lease_items v tools ids st = (Ok items, st)
  /\ forall id mote w args, id ∈ ids -> v.(lv_defs) !! id = Some (mote, w) -> lease_args v tools mote w st = Ok (Some args) ->
       exists it, it ∈ items /\ it.(li_mote) = mote /\ it.(li_warrant) = w /\ it.(tool_args) = args.
Proof.
  induction ids as [|id ids (items & IH & Hin)]; cbn [lease_items]; [exists []; split; [done|set_solver]|].
  destruct (lease_item_total tools id st) as (o & Ho & Hit). unfold cbind. rewrite Ho, IH. eexists. split; [done|].
  intros i mote w args [->|Hi]%elem_of_cons Hd Ha.
  - destruct (Hit mote w args Hd Ha) as (it & -> & ?). exists it. split; [|done]. cbn. set_solver.
  - destruct (Hin i mote w args Hi Hd Ha) as (it & ? & ?). exists it. split; [|done]. apply elem_of_app. by right.
Qed.
Definition may_run (st : option S) (id : MoteId) : Prop :=
  exists mote w, runnable v st id mote w /\ (is_skip_guard mote = true -> skip_guard_cleared mote v.(lv_state) st = true).
Lemma consider_total p sel id (st : option S) : exists sel', consider v p sel id st = (Ok sel', st)
  /\ sel'.(seen) = {[id]} ∪ sel.(seen) /\ picked sel ⊆ picked sel'
  /\ (may_run st id -> id ∉ sel.(seen) -> id ∈ picked sel').
Proof.
  unfold consider. case_bool_decide as Hs; [exists sel; split_and!; [done|set_solver..]|].
  assert (Hkeep : forall b : bool, (may_run st id -> b = false) -> b = true ->
    exists sel', @cret (option S) _ unit {| seen := {[id]} ∪ sel.(seen); preferred := preferred sel; rest := rest sel |} st = (Ok sel', st)
      /\ sel'.(seen) = {[id]} ∪ sel.(seen) /\ picked sel ⊆ picked sel' /\ (may_run st id -> id ∉ sel.(seen) -> id ∈ picked sel')).
  { intros b Hb ->. eexists. split; [done|]. split_and!; [done..|]. intros Hm%Hb. done. }
  case_bool_decide as Hc; [apply (Hkeep true); [|done]; intros (? & ? & [] & _); done|].
  destruct (is_leased_by_other _ _ _) eqn:Hl; [apply (Hkeep true); [|done]; intros (? & ? & [] & _); congruence|].
  destruct (lv_defs v !! id) as [[mote w]|] eqn:Hd; [|apply (Hkeep true); [|done]; intros (? & ? & [] & _); congruence].
  assert (Hrun : may_run st id -> runnable v st id mote w /\ (is_skip_guard mote = true -> skip_guard_cleared mote v.(lv_state) st = true)).
  { intros (m' & w' & Hr & Hg). pose proof (rn_def _ _ _ _ _ Hr) as E. rewrite Hd in E. by injection E as <- <-. }
  destruct (is_agentic_launch mote) eqn:Ha; [apply (Hkeep true); [|done]; intros [[] _]%Hrun; naive_solver congruence|].
  destruct (is_wait_step mote) eqn:Hw; [apply (Hkeep true); [|done]; intros [[] _]%Hrun; naive_solver congruence|].
  unfold cbind at 1, cask. destruct (is_skip_guard mote && _) eqn:Hg.
  { apply (Hkeep true); [|done]. intros [_ Hg']%Hrun. apply andb_prop in Hg as [Hg1 Hg2]. by rewrite Hg' in Hg2. }
  destruct (is_policied_step mote) eqn:Hp; [apply (Hkeep true); [|done]; intros [[] _]%Hrun; naive_solver congruence|].
  unfold cbind at 1. rewrite holds_off. case_bool_decide as He; [|apply (Hkeep true); [|done]; intros [[] _]%Hrun; congruence].
  unfold cbind, clift. destruct (load_place_total p id) as [x ->]. unfold picked.
  destruct (x =? _); eexists; (split; [done|]); cbn; split_and!; [done|set_solver..|done|set_solver|set_solver].
Qed.
Lemma consider_all_total p (st : option S) ids : forall sel, exists sel', consider_all v p sel ids st = (Ok sel', st)
  /\ picked sel ⊆ picked sel'
  /\ forall id, (id ∈ sel.(seen) -> may_run st id -> id ∈ picked sel) -> id ∈ ids -> may_run st id -> id ∈ picked sel'.
Proof.
  induction ids as [|i ids IH]; intros sel; cbn [consider_all]; [exists sel; split_and!; [done|done|set_solver]|].
  destruct (consider_total p sel i st) as (sel1 & H1 & Hs & Hp & Hi). destruct (IH sel1) as (sel2 & H2 & Hp2 & Hi2).
  unfold cbind. rewrite H1. exists sel2. split; [done|]. split; [set_solver|].
  intros id Hseen Hin Hm. destruct (decide (id ∈ ids)) as [Hid|Hid].
  - apply Hi2; [|done|done]. rewrite Hs. intros [->%elem_of_singleton|?]%elem_of_union _; [|by apply Hp, Hseen].
    destruct (decide (i ∈ seen sel)); [by apply Hp, Hseen|by apply Hi].
  - assert (id = i) as -> by set_solver. apply Hp2. destruct (decide (i ∈ seen sel)); [by apply Hp, Hseen|by apply Hi].
Qed.
End NoRerank.
Lemma picked_in_defs v (st0 st : option S) sel : selected v st0 sel st -> (length (picked sel) <= size v.(lv_defs))%nat.
Proof.
  intros [_ N _ Rn]. rewrite <- size_dom, <- (size_list_to_set (C := gset bytes)) by done. apply subseteq_size.
  intros id Hid%elem_of_list_to_set. destruct (Rn id Hid) as (m & w & Hr). apply elem_of_dom.
  rewrite (rn_def _ _ _ _ _ Hr). by eexists.
Qed.
(** [C39] A poll never fails, and with room for what is admitted it hands out every
    Mote that may run and whose arguments resolve: nothing runnable waits. *)
Theorem runnable_work_leased v now registry max (tools : R) (st : option S) :
  indices_ok v.(lv_state) -> serve_llm_rerank_enabled v.(lv_env) = false ->
  exists items, lease_ready v now registry max tools st = (Ok items, st)
    /\ ((size v.(lv_defs) <= max)%nat -> forall id mote w args,
        runnable v st id mote w -> (is_skip_guard mote = true -> skip_guard_cleared mote v.(lv_state) st = true) ->
        lease_args v tools mote w st = Ok (Some args) ->
        exists it, it ∈ items /\ it.(li_mote) = mote /\ it.(li_warrant) = w /\ it.(tool_args) = args).
Proof.
  intros Hi He. unfold lease_ready. set (p := LoadAwarePlacement_new _ _ _). set (sel0 := {| seen := _ |}).
  destruct (consider_all_total v He Hi p st (offered v st) sel0) as (sel & Hsel & _ & Hall).
  assert (Hok : selected v st sel st).
  { eapply consider_all_spec; [|by intros ?|exact Hsel]. split; [done|constructor|set_solver..]. }
  set (ids := take max (preferred sel ++ rest sel)). destruct (lease_items_total v He Hi tools st ids) as (items & H1 & H2).
  exists items. split; [unfold cbind; by rewrite Hsel|]. intros Hmax id mote w args Hr Hg Ha.
  eapply H2; [|apply Hr|done]. unfold ids. rewrite take_ge; [|pose proof (picked_in_defs _ _ _ _ Hok); unfold picked in *; lia].
  apply Hall; [done| |by exists mote, w]. apply elem_of_offered. split; apply Hr.
Qed.

(** ** The context of a shaper's child *)
Lemma lone_commit_evicts roles p reply (c : C) a c' :
  flush_commits (E := unit) roles [(p, reply)] c = (Ok [(reply, Ok a)], c') -> c'.(dispatched).(defs) !! p.(cp_mote_id) = None.
Proof.
  unfold flush_commits. cbn [admit_batch]. destruct (refusal c p); [by intros [= ? _]|].
  cbn [fmap list_fmap fst snd]. destruct (apply_batch _ c) as [[applied|e|] c1]; [|by intros [= ? _]|done].
  intros [= _ <-]. cbn [foldl]. unfold settle_commit. cbn. apply lookup_delete_eq.
Qed.
Definition sole_control (child : Mote) (id : MoteId) : Prop :=
  (exists e, child.(Mote.parents) = [{| parent_id := id; edge := e |}] /\ e.(Mote.kind) = Control)
  /\ child.(def).(Mote.critic_for) = None /\ has_key child REACT_TURN_KEY = false.
Lemma sole_control_context child id s ds (st : option S) : sole_control child id ->
  resolve_parent_context child s ds st
  = Ok (dedup_by_id (merge_sort key_le (match ds !! id with
                                        | Some (shaper, _) => data_results s shaper.(Mote.parents)
                                        | None => []
                                        end))).
Proof.
  intros ((e & Hp & Hk) & Hc & Hm). unfold resolve_parent_context. rewrite Hc, Hm, Hp. cbn [fmap list_fmap].
  unfold parent_context. cbn [edge parent_id]. rewrite Hk. cbn [concat]. by rewrite app_nil_r.
Qed.
(** The commit that makes a shaper's children runnable also drops the shaper's
    definition, through which a child's context is looked up: a child leased in the
    same run gets none of the shaper's context, and gets all of it once a restart
    and a new submission have put the definition back. *)
Theorem shaper_context_lost roles p reply (c : C) a c' child (st : option S) :
  flush_commits (E := unit) roles [(p, reply)] c = (Ok [(reply, Ok a)], c') ->
  sole_control child p.(cp_mote_id) ->
  resolve_parent_context child c'.(projection) c'.(dispatched).(defs) st = Ok []
  /\ forall shaper w, resolve_parent_context child c'.(projection) (<[p.(cp_mote_id) := (shaper, w)]> c'.(dispatched).(defs)) st
       = Ok (dedup_by_id (merge_sort key_le (data_results c'.(projection) shaper.(Mote.parents)))).
Proof.
  intros Hf Hc. split.
  - rewrite (sole_control_context child (cp_mote_id p)) by done. by rewrite (lone_commit_evicts _ _ _ _ _ _ Hf).
  - intros shaper w. rewrite (sole_control_context child (cp_mote_id p)) by done. by rewrite lookup_insert_eq.
Qed.
End Facts.

(** ** Concrete leases *)
#[local] Existing Instance demo_blake3.
#[local] Existing Instance demo_bincode.
#[local] Existing Instance demo_serde.
Definition demo_values : SerdeValue := {| value_from_slice := fun _ => None; value_to_vec := fun _ => [] |}.
#[local] Existing Instance demo_values.
Definition demo_calls : ToolcallJson := {|
  from_str_envelope := fun _ => inl None; from_str_named := fun _ => None; from_str_tool_calls := fun _ => None;
  from_str_answer := fun _ => None; leading_i64s := fun _ => None |}.
#[local] Existing Instance demo_calls.
Definition demo_step (n : Z) (contract config : gmap bytes bytes) (effect : EffectPattern) (ps : list ParentRef) : Mote := {|
  Mote.mote_id := demo_id n;
  def := {| logic_ref := []; Mote.model_id := []; prompt_template_hash := []; tool_contract := contract;
            Mote.nd_class := Pure; config_subset := config; Mote.effect_pattern := effect; Mote.critic_for := None;
            Mote.is_topology_shaper := false; inference_params := InferenceParams_default; critic_check := None;
            Mote.schema_version := 5 |};
  input_data_id := []; graph_position := []; Mote.parents := ps |}.
Definition demo_plain : Mote := demo_step 2 ∅ ∅ IdempotentByConstruction [].
(** A step of a tool that is not registered. *)
Definition demo_tool_step : Mote := demo_step 1 {[str "gone" := str "1"]} {[TOOL_ARGS_KEY := []]} StageThenCommit [].
Definition demo_w : WarrantSpec := demo_warrant 1 FsMode.ReadOnly.
Definition register_of (m : Mote) : RegisterMote := {|
  RegisterMote.mote_id := m.(Mote.mote_id); RegisterMote.nd_class := m.(def).(Mote.nd_class);
  RegisterMote.effect_pattern := m.(def).(Mote.effect_pattern); RegisterMote.critic_for := None;
  RegisterMote.is_topology_shaper := false; RegisterMote.parents := m.(Mote.parents); RegisterMote.warrant_ref := [] |}.
Definition demo_admitted (ms : list Mote) : Demo := {|
  core_journal := InMemoryJournal_new; core_store := None;
  projection := foldl (fun s m => register_mote (register_of m) s) State_default ms; folded_through := 0;
  dispatched := {| submitted := ∅; defs := list_to_map ((fun m => (m.(Mote.mote_id), (m, demo_w))) <$> ms);
                   tracker := LeaseTracker_default; parked_launches := ∅; parked_waits := ∅; armed_timers := ∅;
                   parked_policied := ∅; parked_guards := ∅ |} |}.
Definition demo_req (n : nat) : LeaseReq := {| lr_worker := 0; lr_class := demo_w.(WarrantSpec.executor_class); lr_max := n |}.
Definition demo_poll (env : option bytes) (n : nat) : comp Demo (list LeasedItem * option bytes) unit :=
  serve_lease env 0 0 registry_new (demo_req n) tools_new.
Definition demo_lease_view (ms : list Mote) : LeaseView := lease_view None (demo_req 1) (demo_admitted ms).
Lemma demo_plain_runnable ms : ms = [demo_plain] \/ ms = [demo_tool_step; demo_plain] ->
  runnable (demo_lease_view ms) (None : option InMemoryContentStore) (demo_id 2) demo_plain demo_w.
Proof.
  intros [->| ->]; (split; [reflexivity|left; apply list_elem_of_In; vm_compute; tauto|vm_compute; done..| | |done]).
  all: first [intros Hg; vm_compute in Hg; discriminate|exists None; split; [apply rtc_refl|reflexivity]].
Qed.
Definition demo_starved : Demo := demo_admitted [demo_tool_step; demo_plain].
Definition demo_polled : Demo := with_tracker (fun t => record_lease t 0 []) demo_starved.
Lemma demo_starved_poll c : c = demo_starved \/ c = demo_polled ->
  reap_dead_workers (E := unit) 0 registry_new c = (Ok tt, c)
  /\ lease_ready (lease_view None (demo_req 1) c) 0 registry_new 1 tools_new c.(core_store) = (Ok [], None).
Proof. intros [->| ->]; split; first [reflexivity|vm_compute; reflexivity]. Qed.
Lemma demo_lease_again : record_lease (record_lease LeaseTracker_default 0 []) 0 [] = record_lease LeaseTracker_default 0 [].
Proof. vm_compute. reflexivity. Qed.
(** Two Motes are ready: a tool step whose tool is no longer registered and a plain
    one. The first takes the only place asked for, on every poll, and is dropped
    after the places are given out; the plain Mote is never handed out, though a
    poll for two would bring it. *)
Theorem unregistered_tool_starves :
  runnable (lease_view None (demo_req 1) demo_starved) (None : option InMemoryContentStore) (demo_id 2) demo_plain demo_w
  /\ resolve_authored_tool_args demo_tool_step tools_new = Ok (Permanent (NotRegistered (str "gone") (str "1")))
  /\ demo_poll None 1 demo_starved = (Ok ([], None), demo_polled)
  /\ demo_poll None 1 demo_polled = (Ok ([], None), demo_polled)
  /\ exists it, (demo_poll None 2 demo_starved).1 = Ok ([it], None) /\ it.(li_mote) = demo_plain.
Proof.
  split; [exact (demo_plain_runnable _ (or_intror eq_refl))|]. split; [vm_compute; reflexivity|]. split_and!.
  - unfold demo_poll, serve_lease, cbind. destruct (demo_starved_poll demo_starved (or_introl eq_refl)) as [-> H2].
    cbn [lr_max demo_req]. rewrite H2. reflexivity.
  - unfold demo_poll, serve_lease, cbind. destruct (demo_starved_poll demo_polled (or_intror eq_refl)) as [-> H2].
    cbn [lr_max demo_req]. rewrite H2. unfold demo_polled, with_tracker, with_dispatch, set_tracker. cbn -[record_lease].
    rewrite demo_lease_again. reflexivity.
  - exists {| li_mote := demo_plain; li_warrant := demo_w; parent_results := []; tool_args := None; context_items := None;
              image_ref := None |}. split; [vm_compute; reflexivity|done].
Qed.
Definition demo_item : LeasedItem := {| li_mote := demo_plain; li_warrant := demo_w; parent_results := []; tool_args := None;
  context_items := None; image_ref := None |}.
Definition demo_leased : comp (option InMemoryContentStore) (list LeasedItem) unit :=
  lease_ready (demo_lease_view [demo_plain]) 0 registry_new 1 tools_new.
Lemma leased_work_runnable_witness :
  exists ids : list MoteId, demo_leased None = (Ok [demo_item], None) /\ NoDup ids /\ (length ids <= 1)%nat /\ ids <> [].
Proof.
  assert (demo_leased None = (Ok [demo_item], None)) as Hl by (vm_compute; reflexivity).
  destruct (leased_work_runnable (demo_lease_view [demo_plain]) 0 registry_new 1 tools_new None [demo_item] None Hl)
    as (ids & Hn & Hm & Hf & _).
  exists ids. split; [exact Hl|]. split; [exact Hn|]. split; [exact Hm|]. intros E. rewrite E in Hf. by inversion Hf.
Defined.
Lemma runnable_work_leased_witness :
  exists items, demo_leased None = (Ok items, None) /\ exists it, it ∈ items /\ it.(li_mote) = demo_plain.
Proof.
  destruct (runnable_work_leased (demo_lease_view [demo_plain]) 0 registry_new 1 tools_new (None : option InMemoryContentStore))
    as (items & H1 & H2).
  - apply indices_ok_reachable with (materializer := None). exact (rtc_once _ _ (step_register _ (register_of demo_plain) State_default)).
  - reflexivity.
  - exists items. split; [exact H1|]. destruct (H2 ltac:(vm_compute; lia) (demo_id 2) demo_plain demo_w None) as (it & Hi & Hm & _).
    + exact (demo_plain_runnable _ (or_introl eq_refl)).
    + intros Hg. vm_compute in Hg. discriminate Hg.
    + vm_compute. reflexivity.
    + exists it. split; [exact Hi|exact Hm].
Defined.
Definition demo_reader_warrant : WarrantSpec :=
  let w := demo_w in
  {| WarrantSpec.mote_class := w.(WarrantSpec.mote_class); WarrantSpec.nd_class := w.(WarrantSpec.nd_class); WarrantSpec.fs_scope := w.(WarrantSpec.fs_scope); WarrantSpec.net_scope := w.(WarrantSpec.net_scope);
     WarrantSpec.syscall_profile_ref := w.(WarrantSpec.syscall_profile_ref);
     WarrantSpec.tool_grants := {[ {| ToolGrant.tool_id := str "fs-read"; ToolGrant.tool_version := str "1" |} ]};
     WarrantSpec.model_route := w.(WarrantSpec.model_route); WarrantSpec.resource_ceiling := w.(WarrantSpec.resource_ceiling); WarrantSpec.environment_ref := w.(WarrantSpec.environment_ref);
     WarrantSpec.executor_class := w.(WarrantSpec.executor_class); WarrantSpec.secret_scope := w.(WarrantSpec.secret_scope);
     WarrantSpec.cost_ceiling := w.(WarrantSpec.cost_ceiling); WarrantSpec.tls_required := w.(WarrantSpec.tls_required) |}.
Definition demo_observation : Mote :=
  demo_step 9 {[str "fs-read" := str "1"]} ∅ StageThenCommit [{| parent_id := demo_id 1; edge := EdgeMeta_data |}].
Definition demo_call_store : InMemoryContentStore :=
  {| objects := {[replicate 32 101 := GEMMA_TOOL_OPEN ++ str "call:fs-read{}" ++ GEMMA_TOOL_CLOSE]} |}.
Definition demo_tools : InMemoryToolRegistry := {|
  by_key := {[(str "fs-read", str "1") :=
    {| rec_def := builtin_def (str "fs-read") [] IdempotencyClass.Readback; provenance := ToolProvenance.HumanAuthored [];
       reg_status := Approved; approved_by := None |}]}; by_token := ∅ |}.
Lemma observation_args_granted_witness :
  resolve_tool_args demo_observation demo_reader_warrant demo_committed.(projection) (Some demo_call_store) demo_tools
    = Ok (Resolved (str "{}", NetScope.None, FsScope.empty))
  /\ exists call, granted demo_reader_warrant (max_args_bytes demo_reader_warrant) call /\ call.(call_name) <> [].
Proof.
  assert (resolve_tool_args demo_observation demo_reader_warrant demo_committed.(projection) (Some demo_call_store) demo_tools
    = Ok (Resolved (str "{}", NetScope.None, FsScope.empty))) as Hr by (vm_compute; reflexivity).
  split; [exact Hr|].
  destruct (observation_args_granted demo_observation demo_reader_warrant demo_committed.(projection) (Some demo_call_store)
    demo_tools (str "{}") NetScope.None FsScope.empty Hr) as (call & d & Hg & Hc & _).
  exists call. split; [exact Hg|]. intros E. rewrite E in Hc. vm_compute in Hc. discriminate Hc.
Defined.
Definition demo_flush : outcome (list CommitReply) unit * Demo := flush_commits None [(demo_proposal 1 5, 0%nat)] demo_core.
Definition demo_child : Mote := demo_step 8 ∅ ∅ IdempotentByConstruction [{| parent_id := demo_id 1; edge := EdgeMeta_control |}].
Lemma shaper_context_lost_witness :
  resolve_parent_context demo_child demo_flush.2.(projection) demo_flush.2.(dispatched).(defs) (None : option InMemoryContentStore) = Ok [].
Proof.
  destruct (shaper_context_lost None (demo_proposal 1 5) 0 demo_core {| committed_seq := 1; already_committed := false |}
    demo_flush.2 demo_child None) as [H1 _].
  - assert (demo_flush.1 = Ok [(0%nat, Ok {| committed_seq := 1; already_committed := false |})]) as E by (vm_compute; reflexivity).
    rewrite <- E. apply surjective_pairing.
  - split; [exists EdgeMeta_control; done|]. split; [done|]. vm_compute. reflexivity.
  - exact H1.
Defined.
