(* ===== verification/Replan.v ===== *)
(** Re-planning (kx-coordinator state.rs and materialize.rs): when the children of
    a topology shaper have ended and some failed, the coordinator records a round
    with a corrected prompt and dispatches another shaper for it, at most three
    times; a restart rebuilds the chain from the recorded rounds. *)
From S2P Require Import Prelude Effects Utf8 CriticTypes Mote ContextItems Entry Journal Warrant Content DemoCodec ProjState ProjIndex ProjFold ProjHistory ProjQuery Materializer Scheduler Checkpoint Recovery Critic Digits Text ExactlyOnce Wire Workers Coordinator CoordSync Timers TimerFacts ReactShape Rerank.
Import JournalEntry.

Definition MAX_SHAPER_ROUNDS : Z := 4.
(** [failures.sort_by(|a, b| a.0.as_bytes().cmp(b.0.as_bytes()))], identities being distinct. *)
Definition round_failures (s : State) (children : list (MoteId * EdgeMeta)) : list (MoteId * option FailureReason) :=
  merge_sort key_le
    ((fun id => (id, failure_reason_of s id))
     <$> List.filter (fun id => bool_decide (state_of_id s id = MoteState.Failed)) children.*1).
Definition max_round (rounds : list ReplanRoundRecord) : option ReplanRoundRecord :=
  max_by (fun a b => Z.compare a.(ReplanRoundRecord.round) b.(ReplanRoundRecord.round)) rounds.
Definition round_zero (rounds : list ReplanRoundRecord) : option ReplanRoundRecord :=
  List.find (fun r => r.(ReplanRoundRecord.round) =? 0) rounds.
(** The failures the next round is planned for: [None] while there is none to plan. *)
Definition settled_failures (s : State) : option (ReplanRoundRecord * list (MoteId * option FailureReason)) :=
  match max_round s.(replan_rounds) with
  | None => None
  | Some latest =>
      let round := latest.(ReplanRoundRecord.round) in
      let shaper_id := latest.(ReplanRoundRecord.shaper_mote_id) in
      if MAX_SHAPER_ROUNDS <=? round + 1 then None
      else if existsb (fun r => r.(ReplanRoundRecord.round) =? round + 1) s.(replan_rounds) then None
      else if negb (bool_decide (state_of_id s shaper_id = MoteState.Committed)) then None
      else
        let children := children_of s shaper_id in
        if bool_decide (children = []) then None
        else if negb (forallb (fun c => is_terminal (state_of_id s c.1)) children) then None
        else match round_failures s children with
             | [] => None
             | failures => Some (latest, failures)
             end
  end.

Section Replan.
Context `{Blake3} `{!Bincode MoteDef} `{!Bincode WarrantSpec} `{!Bincode TopologyDecision}.
Context {J S : Type} `{!Journal J} `{!ContentStore S}.
Abbreviation C := (Core J S).
Abbreviation M := (comp C).

Definition materialize_replan_shaper (shaper : Mote) (warrant_ref : ContentRef) (warrant : WarrantSpec) (c : C) : C :=
  let c := persist_def shaper.(def) c in
  let c := with_projection (register_mote {|
             RegisterMote.mote_id := shaper.(Mote.mote_id); RegisterMote.nd_class := shaper.(def).(Mote.nd_class);
             RegisterMote.effect_pattern := shaper.(def).(Mote.effect_pattern); RegisterMote.critic_for := None;
             RegisterMote.is_topology_shaper := true; RegisterMote.parents := [];
             RegisterMote.warrant_ref := warrant_ref |} c.(projection)) c in
  with_dispatch (fun d => set_defs <[shaper.(Mote.mote_id) := (shaper, warrant)]>
                            (set_submitted ({[shaper.(Mote.mote_id)]} ∪.) d)) c.
Definition round_entry (anchor : ReplanRoundRecord) (next_round : Z) (shaper_id : MoteId) (corrected_ref : ContentRef)
    (failed_steps : list MoteId) : JournalEntry :=
  ReplanRound next_round shaper_id anchor.(ReplanRoundRecord.base_prompt_ref) corrected_ref
    anchor.(ReplanRoundRecord.warrant_ref) anchor.(ReplanRoundRecord.model_id) failed_steps None 0.
(** The next round, from the run's round 0. *)
Definition plan_round {E} (anchor latest : ReplanRoundRecord) (failures : list (MoteId * option FailureReason))
    : M unit E := fun c =>
  match core_get anchor.(ReplanRoundRecord.base_prompt_ref) c with
  | None => (Ok tt, c)
  | Some base_prompt =>
      if negb (utf8_valid base_prompt) then (Ok tt, c)
      else
        match core_get anchor.(ReplanRoundRecord.warrant_ref) c ≫= decode_warrant with
        | None => (Ok tt, c)
        | Some warrant =>
            let next_round := latest.(ReplanRoundRecord.round) + 1 in
            let corrected := corrected_prompt base_prompt failures in
            match store_write corrected c with
            | (None, c) => (Ok tt, c)
            | (Some corrected_ref, c) =>
                let shaper := build_replan_shaper anchor.(ReplanRoundRecord.model_id) corrected next_round in
                match core_append (round_entry anchor next_round shaper.(Mote.mote_id) corrected_ref failures.*1) c with
                | (Ok durable, c) =>
                    match fold_new durable c with
                    | (Ok _, c) => (Ok tt, materialize_replan_shaper shaper anchor.(ReplanRoundRecord.warrant_ref) warrant c)
                    | (Err _, c) => (Ok tt, c)
                    | (Panic, c) => (Panic, c)
                    end
                | (Err _, c) => (Ok tt, c)
                | (Panic, c) => (Panic, c)
                end
            end
        end
  end.
Definition settle_replan_rounds {E} : M unit E := fun c =>
  match c.(core_store), round_zero c.(projection).(replan_rounds), settled_failures c.(projection) with
  | Some _, Some anchor, Some (latest, failures) => plan_round anchor latest failures c
  | _, _, _ => (Ok tt, c)
  end.

(** ** Recovery *)
Definition rebuild_replan_shaper (store : S) (record : ReplanRoundRecord) : option (Mote * WarrantSpec) :=
  match get store record.(ReplanRoundRecord.corrected_prompt_ref) with
  | None => None
  | Some prompt =>
      if negb (utf8_valid prompt) then None
      else
        match get store record.(ReplanRoundRecord.warrant_ref) ≫= decode_warrant with
        | None => None
        | Some warrant =>
            if negb (bool_decide (Warrant.warrant_ref_of warrant = record.(ReplanRoundRecord.warrant_ref))) then None
            else
              let mote := build_replan_shaper record.(ReplanRoundRecord.model_id) prompt record.(ReplanRoundRecord.round) in
              if bool_decide (mote.(Mote.mote_id) = record.(ReplanRoundRecord.shaper_mote_id)) then Some (mote, warrant)
              else None
        end
  end.
(** Phase A for one round: the children of a committed shaper are registered again. *)
Definition restore_children (roles : bytes -> option Role) (r : ReplanRoundRecord) (c : C) : C :=
  if negb (bool_decide (state_of_id c.(projection) r.(ReplanRoundRecord.shaper_mote_id) = MoteState.Committed)) then c
  else
    match c.(core_store) with
    | None => c
    | Some store =>
        match rebuild_replan_shaper store r with
        | Some (shaper, warrant) => materialize_committed_shaper store roles shaper.(Mote.mote_id) shaper.(def) warrant c
        | None => c
        end
    end.
(** Phase B: the shaper of the latest round, if it is still to run. *)
Definition restore_shaper (r : ReplanRoundRecord) (c : C) : C :=
  if bool_decide (state_of_id c.(projection) r.(ReplanRoundRecord.shaper_mote_id) = MoteState.Committed) then c
  else
    match c.(core_store) with
    | None => c
    | Some store =>
        match rebuild_replan_shaper store r with
        | Some (shaper, warrant) => materialize_replan_shaper shaper r.(ReplanRoundRecord.warrant_ref) warrant c
        | None => c
        end
    end.
Definition recover_replan_chain {E} (roles : option (bytes -> option Role)) : M unit E := fun c =>
  match c.(core_store), roles with
  | Some _, Some roles =>
      let rounds := List.filter (fun r => 1 <=? r.(ReplanRoundRecord.round)) c.(projection).(replan_rounds) in
      match c.(projection).(replan_rounds) with
      | [] => (Ok tt, c)
      | _ =>
          let c := foldl (fun c r => restore_children roles r c) c rounds in
          let c := match max_round rounds with Some latest => restore_shaper latest c | None => c end in
          settle_replan_rounds c
      end
  | _, _ => (Ok tt, c)
  end.
End Replan.
