(* ===== verification/Submit.v ===== *)
(** Admission of work (kx-coordinator state.rs, [submit_and_capture]): the gates a
    submission passes, the swap of a ReAct seed for its first turn, the tables it
    enters, the versions it resolved to and the anchors of the loops it starts.
    Submissions go through the hosted scheduler, whose state is kept beside the
    core's. *)
From S2P Require Import Prelude Effects Utf8 CriticTypes Mote ContextItems Entry Journal Warrant Content DemoCodec ProjState ProjIndex ProjFold ProjHistory ProjQuery Materializer Scheduler Refusal Checkpoint Recovery Critic NativeCritic Digits ParamSchema Text ToolRegistry Toolcall ToolcallFacts ExactlyOnce Wire Workers Coordinator CoordSync Timers TimerFacts ReactShape Rerank Lease.
Import JournalEntry.

Definition REACT_INSTRUCTION_KEY : bytes := str "instruction".
Definition REACT_MAX_TURNS_KEY : bytes := str "max_turns".
Definition REACT_MAX_TOOL_CALLS_KEY : bytes := str "max_tool_calls".
Definition REACT_REQUIRE_APPROVAL_KEY : bytes := str "require_approval".
(** serde_json at the three scalar types a seed's parameters have. *)
Class SerdeScalar := {
  json_string : bytes -> option bytes;
  json_u32 : bytes -> option Z;
  json_bool : bytes -> option bool
}.
(** [KX_SERVE_REQUIRE_APPROVAL] as the environment has it. *)
Definition serve_require_approval_default (env : option bytes) : bool :=
  match env with
  | None => false
  | Some v => bool_decide (to_ascii_lowercase (trim v) ∈ [str "1"; str "true"; str "yes"; str "on"])
  end.
(** kx-content lib.rs: a reference written as a JSON string or as bare digits. *)
Definition from_arg (raw : bytes) : option ContentRef :=
  if utf8_valid raw
  then let s := trim raw in
       let inner := match s with
                    | 34 :: rest => match last rest with
                                    | Some 34 => take (length rest - 1) rest
                                    | _ => s
                                    end
                    | _ => s
                    end in
       from_hex inner
  else None.
Definition tool_kind_tag (k : ToolKind) : ResolvedKindTag :=
  match k with
  | ToolKind.Builtin => ResolvedKindTag.Builtin
  | ToolKind.LocalScript _ => ResolvedKindTag.LocalScript
  | ToolKind.External _ => ResolvedKindTag.External
  | ToolKind.Mcp _ _ => ResolvedKindTag.Mcp
  | ToolKind.SelfGenerated _ => ResolvedKindTag.SelfGenerated
  end.
Definition idempotency_class_tag (class : IdempotencyClass) : IdempotencyClassTag :=
  match class with
  | IdempotencyClass.Token => IdempotencyClassTag.Token
  | IdempotencyClass.Readback => IdempotencyClassTag.Readback
  | IdempotencyClass.Staged => IdempotencyClassTag.Staged
  | IdempotencyClass.AtLeastOnce => IdempotencyClassTag.AtLeastOnce
  end.

(** ** The seed *)
Section Seed.
Context `{SerdeScalar}.
Definition text_param (seed : Mote) (key : bytes) : option bytes :=
  match config seed key with
  | None => None
  | Some raw => match json_string raw with
                | Some s => Some s
                | None => if utf8_valid raw then Some raw else None
                end
  end.
Definition cap_param (seed : Mote) (key : bytes) (dflt : Z) : outcome Z CoordinatorError :=
  match config seed key with
  | None => Ok dflt
  | Some v => match json_u32 v with
              | Some n => Ok n
              | None => Err (CoordinatorError.ReactSeedRefused
                               (str "a react budget cap is not a canonical-JSON unsigned integer"))
              end
  end.
Definition react_seed_params (env : option bytes) (seed : Mote) : outcome (bytes * (Z * Z) * bool) CoordinatorError :=
  match (match text_param seed PROMPT_KEY with Some t => Some t | None => text_param seed REACT_INSTRUCTION_KEY end) with
  | None => Err (CoordinatorError.ReactSeedRefused (str "the seed Mote carries no utf-8 instruction prompt"))
  | Some instruction =>
      let* max_turns := cap_param seed REACT_MAX_TURNS_KEY REACT_DEFAULT_MAX_TURNS in
      let* max_tool_calls := cap_param seed REACT_MAX_TOOL_CALLS_KEY REACT_DEFAULT_MAX_TOOL_CALLS in
      if (max_turns =? 0) || (REACT_MAX_TURNS <? max_turns) || (max_tool_calls =? 0) || (REACT_MAX_TOOL_CALLS <? max_tool_calls)
      then Err (CoordinatorError.ReactSeedRefused
                  (str "react budget caps must satisfy 0 < max_turns <= 32 AND 0 < max_tool_calls <= 20"))
      else
        let* require_approval :=
          match config seed REACT_REQUIRE_APPROVAL_KEY with
          | None => Ok (serve_require_approval_default env)
          | Some v => match json_bool v with
                      | Some b => Ok b
                      | None => Err (CoordinatorError.ReactSeedRefused
                                       (str "the react require_approval posture is not a canonical-JSON boolean"))
                      end
          end in
        Ok (instruction, (max_turns, max_tool_calls), require_approval)
  end.
End Seed.
Definition REACT_ANCHOR_BOUND_KEYS : list bytes := [IMAGE_REF_KEY; CONTEXT_ITEMS_KEY].
Definition seed_anchor_cfg (seed : Mote) : list (bytes * bytes) :=
  omap (fun key => (fun v => (key, v)) <$> config seed key) REACT_ANCHOR_BOUND_KEYS.
Definition with_config (f : gmap bytes bytes -> gmap bytes bytes) (m : Mote) : Mote :=
  let d := m.(def) in
  {| Mote.mote_id := m.(Mote.mote_id); input_data_id := m.(input_data_id); graph_position := m.(graph_position);
     Mote.parents := m.(Mote.parents);
     def := {| logic_ref := d.(logic_ref); Mote.model_id := d.(Mote.model_id); prompt_template_hash := d.(prompt_template_hash);
               tool_contract := d.(tool_contract); Mote.nd_class := d.(Mote.nd_class); config_subset := f d.(config_subset);
               Mote.effect_pattern := d.(Mote.effect_pattern); Mote.critic_for := d.(Mote.critic_for);
               Mote.is_topology_shaper := d.(Mote.is_topology_shaper); inference_params := d.(inference_params);
               critic_check := d.(critic_check); Mote.schema_version := d.(Mote.schema_version) |} |}.
Definition react_anchor_clone (dispatched : Mote) (anchor_cfg : list (bytes * bytes)) : Mote :=
  with_config (fun m => foldl (fun m x => <[x.1 := x.2]> m) m anchor_cfg) dispatched.

Section Submit.
Context `{Blake3} `{!Bincode MoteDef} `{!Bincode WarrantSpec} `{!Bincode TopologyDecision}.
Context `{HSC : SerdeScalar}.
Context {J S R : Type} `{!Journal J} `{!ContentStore S} `{!ToolRegistry R}.
Abbreviation C := (Core J S).
Abbreviation M := (comp C).

(** ** Versions *)
Definition resolve_for_submit (tools : R) (warrant : WarrantSpec)
    : outcome (ToolResolution * list ToolResolutionEvent) CoordinatorError :=
  match resolve_all tools warrant (grants_iter warrant.(WarrantSpec.tool_grants)) with
  | Ok ts => Ok (Refusal.Resolved ((fun t => t.(resolved_def).(ToolDef.idempotency_class)) <$> ts), event <$> ts)
  | Err _ => Ok (Refusal.Unresolved, [])
  | Panic => Panic
  end.
Definition append_run_versions {E} (instance_id warrant_ref model_id : bytes) (capability : option ResolvedCapabilityRecord)
    : M unit E := append_then (RunVersionsResolved instance_id warrant_ref model_id capability 0) (fun c => c).
Definition capability_of (event : ToolResolutionEvent) : ResolvedCapabilityRecord := {|
  Entry.tool_id := event.(ev_tool_id); Entry.tool_version := event.(ev_tool_version);
  Entry.resolved_kind := tool_kind_tag event.(resolved_kind); Entry.resolved_def_hash := event.(resolved_def_hash);
  Entry.idempotency_class := idempotency_class_tag event.(ev_idempotency_class) |}.
Definition capture_run_versions {E} (instance_id : bytes) (warrant : WarrantSpec) (events : list ToolResolutionEvent) : M unit E :=
  let warrant_ref := Warrant.warrant_ref_of warrant in
  let model_id := warrant.(WarrantSpec.model_route).(ModelRoute.model_id) in
  match events with
  | [] => append_run_versions instance_id warrant_ref model_id None
  | _ => each (fun e => append_run_versions instance_id warrant_ref model_id (Some (capability_of e))) events
  end.

(** ** Anchors *)
(** [(store.put(a), store.put(b))], both done before either is looked at. *)
Definition put_both (a b : bytes) (c : C) : option (ContentRef * ContentRef) * C :=
  let '(ra, c) := store_write a c in
  let '(rb, c) := store_write b c in
  (match ra, rb with Some ra, Some rb => Some (ra, rb) | _, _ => None end, c).
Definition write_replan_anchor {E} (shaper_id : MoteId) (shaper_def : MoteDef) (warrant : WarrantSpec) : M unit E := fun c =>
  if negb shaper_def.(Mote.is_topology_shaper) then (Ok tt, c)
  else if existsb (fun r => (r.(ReplanRoundRecord.round) =? 0) && bool_decide (r.(ReplanRoundRecord.shaper_mote_id) = shaper_id))
            c.(projection).(replan_rounds)
  then (Ok tt, c)
  else
    match shaper_def.(config_subset) !! PROMPT_KEY with
    | None => (Ok tt, c)
    | Some prompt =>
        match put_both prompt (bincode_encode warrant) c with
        | (None, c) => (Ok tt, c)
        | (Some (base_ref, warrant_ref), c) =>
            append_then (ReplanRound 0 shaper_id base_ref base_ref warrant_ref shaper_def.(Mote.model_id) [] None 0) (fun c => c) c
        end
    end.
Definition refuse_seed {A} (why : bytes) : M A CoordinatorError := cerr (CoordinatorError.ReactSeedRefused why).
Definition stage_context (turn0 : Mote) : M (option ContentRef) CoordinatorError := fun c =>
  match config turn0 CONTEXT_ITEMS_KEY with
  | None => (Ok None, c)
  | Some items =>
      match store_write items c with
      | (Some r, c) => (Ok (Some r), c)
      | (None, c) => refuse_seed (str "content store fault while staging the react context bundle") c
      end
  end.
Definition anchor_image (turn0 : Mote) : M (option ContentRef) CoordinatorError :=
  match config turn0 IMAGE_REF_KEY with
  | None => cret None
  | Some v => match from_arg v with
              | Some r => cret (Some r)
              | None => refuse_seed (str "image_ref must be a (JSON or raw) string of 64 hex chars")
              end
  end.
Definition anchored (s : State) (instance_id : bytes) (step_salt : option bytes) : outcome bool CoordinatorError :=
  match react_rounds_of s instance_id step_salt with
  | Ok rs => Ok (existsb (fun r => r.(ReactRoundRecord.turn) =? 0) rs)
  | _ => Panic
  end.
Definition write_react_anchor (instance_id : bytes) (step_salt : option bytes) (agentic : bool) (turn0 : Mote)
    (warrant : WarrantSpec) (max_turns max_tool_calls : Z) (require_approval : bool) : M unit CoordinatorError :=
  do! done := cask (fun c => anchored c.(projection) instance_id step_salt) in
  if (done : bool) then cret tt
  else
    match config turn0 PROMPT_KEY with
    | None => refuse_seed (str "turn 0 carries no instruction prompt")
    | Some instruction =>
        do! refs := (fun c => let '(o, c) := put_both instruction (bincode_encode warrant) c in (Ok o, c)) in
        match refs with
        | None => refuse_seed (str "content store fault while writing the react anchor")
        | Some (base_ref, warrant_ref) =>
            do! context_items_ref := stage_context turn0 in
            do! image_ref := anchor_image turn0 in
            do! durable := cmap_err CoordinatorError.Journal
              (core_append (ReactRound 0 turn0.(Mote.mote_id) instance_id base_ref warrant_ref turn0.(def).(Mote.model_id)
                 ReactBranch.Pending max_turns max_tool_calls step_salt agentic context_items_ref image_ref
                 require_approval 0)) in
            cmap_err CoordinatorError.Projection (fold_new durable)
        end
    end.

Definition has_store (c : C) : bool := match c.(core_store) with Some _ => true | None => false end.

(** ** Admission *)
Record SubmitOutcome := { so_mote_id : MoteId; duplicate : bool; so_instance_id : option bytes }.
Abbreviation T := (C * Scheduler LocalPlacement)%type.
Definition on_core {A E} (m : M A E) : comp T A E := czoom fst (fun c t => (c, t.2)) m.
Definition handle_submit (mote : Mote) (warrant : WarrantSpec) (t : T) : SubmitOutcome * T :=
  let mote_id := mote.(Mote.mote_id) in
  let c := persist_def mote.(def) t.1 in
  match submit mote warrant t.2 c.(projection) with
  | Ok (sch, s) =>
      ({| so_mote_id := mote_id; duplicate := false; so_instance_id := None |},
       (with_dispatch (fun d => set_defs <[mote_id := (mote, warrant)]> (set_submitted ({[mote_id]} ∪.) d))
          (with_projection s c), sch))
  | _ => ({| so_mote_id := mote_id; duplicate := true; so_instance_id := None |}, (c, t.2))
  end.
Definition set_launches (f : gmap bytes bytes -> gmap bytes bytes) (d : Dispatch) : Dispatch :=
  {| submitted := d.(submitted); defs := d.(defs); tracker := d.(tracker); parked_launches := f d.(parked_launches);
     parked_waits := d.(parked_waits); armed_timers := d.(armed_timers); parked_policied := d.(parked_policied);
     parked_guards := d.(parked_guards) |}.
Definition noted (b : bool) (f : Dispatch -> Dispatch) (c : C) : C := if b then with_dispatch f c else c.
(** A step of a shape the coordinator drives itself is noted under its run. *)
Definition park (mote : Mote) (instance_id : bytes) (dup : bool) (c : C) : C :=
  let id := mote.(Mote.mote_id) in
  let open := negb (bool_decide (state_of_id c.(projection) id = MoteState.Committed)) in
  let c := noted (is_agentic_launch mote && negb dup) (set_launches <[id := instance_id]>) c in
  let c := noted (is_wait_step mote && open) (set_waits <[id := instance_id]>) c in
  let c := noted (is_skip_guard mote && open) (set_guards <[id := instance_id]>) c in
  noted (is_policied_step mote && open) (set_policied <[id := instance_id]>) c.
Record Seed := { sd_turn : Mote; sd_anchor : Mote; sd_caps : Z * Z; sd_approval : bool; sd_salt : bytes }.
Definition swap_seed (env : option bytes) (instance_id : bytes) (mote : Mote) (warrant : WarrantSpec) (c : C)
    : outcome Seed CoordinatorError :=
  if negb (has_store c)
  then Err (CoordinatorError.ReactSeedRefused
              (str "this coordinator has no content store; the durable ReactRound anchor (crash recovery) is impossible"))
  else
    let* p := react_seed_params env mote in
    let '(instruction, caps, approval) := p in
    let salt := mote.(Mote.mote_id) in
    let turn := build_chain_turn mote.(def).(Mote.model_id) instruction 0 instance_id (Some salt)
                  warrant.(WarrantSpec.model_route).(ModelRoute.max_output_tokens) in
    Ok {| sd_turn := turn; sd_anchor := react_anchor_clone turn (seed_anchor_cfg mote); sd_caps := caps;
          sd_approval := approval; sd_salt := salt |}.
Definition is_resolved (r : ToolResolution) : bool := match r with Refusal.Resolved _ => true | Refusal.Unresolved => false end.
Definition start_loops (instance_id : bytes) (resolution : ToolResolution) (events : list ToolResolutionEvent)
    (mote : Mote) (warrant : WarrantSpec) (seed : option Seed) : M unit CoordinatorError :=
  do! _ := (if is_resolved resolution then capture_run_versions instance_id warrant events else cret tt) in
  do! _ := (fun c => if mote.(def).(Mote.is_topology_shaper) && has_store c
                     then write_replan_anchor mote.(Mote.mote_id) mote.(def) warrant c else (Ok tt, c)) in
  match seed with
  | Some sd => write_react_anchor instance_id (Some sd.(sd_salt)) false sd.(sd_anchor) warrant sd.(sd_caps).1 sd.(sd_caps).2
                 sd.(sd_approval)
  | None => cret tt
  end.
Definition rematerialize (roles : option (bytes -> option Role)) (mote : Mote) (warrant : WarrantSpec) (c : C) : C :=
  match c.(core_store), roles with
  | Some store, Some roles =>
      if mote.(def).(Mote.is_topology_shaper)
         && bool_decide (state_of_id c.(projection) mote.(Mote.mote_id) = MoteState.Committed)
      then materialize_committed_shaper store roles mote.(Mote.mote_id) mote.(def) warrant c else c
  | _, _ => c
  end.
(** From the hosted scheduler on; [seed] is what a ReAct seed was swapped for. *)
Definition admission (roles : option (bytes -> option Role)) (instance_id : bytes) (resolution : ToolResolution)
    (events : list ToolResolutionEvent) (mote : Mote) (warrant : WarrantSpec) (seed : option Seed)
    : comp T SubmitOutcome CoordinatorError :=
  do! dup := (fun t => let '(o, t) := handle_submit mote warrant t in (Ok o.(duplicate), t)) in
  do! _ := (fun t => (Ok tt, (match seed with Some _ => t.1 | None => park mote instance_id dup t.1 end, t.2))) in
  do! _ := (if (dup : bool) then cret tt else on_core (start_loops instance_id resolution events mote warrant seed)) in
  do! _ := (fun t => (Ok tt, (rematerialize roles mote warrant t.1, t.2))) in
  cret {| so_mote_id := mote.(Mote.mote_id); duplicate := dup; so_instance_id := Some instance_id |}.
Definition submit_and_capture (env : option bytes) (roles : option (bytes -> option Role)) (tools : R) (mote : Mote)
    (warrant : WarrantSpec) (accept_at_least_once react_seed : bool) : comp T SubmitOutcome CoordinatorError := fun t =>
  match t.1.(projection).(run_registration) with
  | None => (Err CoordinatorError.RunNotRegistered, t)
  | Some reg =>
      let instance_id := reg.(rr_instance_id) in
      (do! x := clift (resolve_for_submit tools warrant) in
       do! _ := clift (omap_err CoordinatorError.SubmissionRefused
                         (validate_mote_submission mote accept_at_least_once x.1)) in
       do! seed := (fun t => if react_seed
                             then (let* sd := swap_seed env instance_id mote warrant t.1 in Ok (Some sd), t)
                             else (Ok None, t)) in
       admission roles instance_id x.1 x.2 (match seed with Some sd => sd.(sd_turn) | None => mote end) warrant seed) t
  end.
End Submit.
