(* ===== verification/SubmitFacts.v ===== *)
(** What admission promises: a submission keeps the writer in step with its
    journal, a refused one changes nothing and an accepted ReAct seed is anchored;
    and what a seed refused at its anchor leaves behind. *)
From S2P Require Import Prelude Effects Utf8 CriticTypes Mote ContextItems Entry EntryEncode EntryDecode EntryRoundtrip Journal Sqlite Warrant Content DemoCodec ProjState ProjIndex ProjFold ProjHistory ProjQuery Materializer Scheduler Refusal Checkpoint Recovery Critic NativeCritic Digits ParamSchema Text ToolRegistry ToolStore Toolcall ToolcallFacts ExactlyOnce Wire Workers Coordinator CoordSync Cascade Timers TimerFacts ReactShape Rerank Lease Submit.
Import JournalEntry.

Section Facts.
Context `{HB : Blake3} `{!Bincode MoteDef} `{!Bincode WarrantSpec} `{!Bincode TopologyDecision}.
Context `{HSC : SerdeScalar}.
Context {J S R : Type} `{!Journal J} `{!JournalLaws J} `{!ContentStore S} `{!ToolRegistry R}.
Abbreviation C := (Core J S).
Abbreviation T := (C * Scheduler LocalPlacement)%type.

(** ** What a refusal leaves *)
Lemma cbind_no_err {A B E} (m : comp C A E) (k : A -> comp C B E) :
  (forall c err, (m c).1 <> Err err) -> (forall a c err, (k a c).1 <> Err err) -> forall c err, (cbind m k c).1 <> Err err.
Proof.
  intros Hm Hk c err. unfold cbind. specialize (Hm c). destruct (m c) as [[a|e|] c1]; [apply Hk|by destruct (Hm e)|done].
Qed.
Lemma append_then_no_err {E} e f (c : C) err : (append_then (E := E) e f c).1 <> Err err.
Proof.
  unfold append_then. destruct (core_append e c) as [[d|?|] c1]; [|done..]. unfold cbind, fold_quietly.
  destruct (_ <? _); [|done]. by destruct (core_fold d c1) as [[]].
Qed.
Lemma each_no_err {A E} (step : A -> comp C unit E) xs : (forall x c err, (step x c).1 <> Err err) ->
  forall c err, (each step xs c).1 <> Err err.
Proof.
  intros Hs. induction xs as [|x xs IH]; cbn [each]; [done|]. apply cbind_no_err; [apply Hs|by intros _].
Qed.
Lemma capture_no_err {E} inst w events (c : C) err : (capture_run_versions (E := E) inst w events c).1 <> Err err.
Proof.
  unfold capture_run_versions. destruct events; [apply append_then_no_err|]. apply each_no_err. intros. apply append_then_no_err.
Qed.
Lemma write_replan_no_err {E} id d w (c : C) err : (write_replan_anchor (E := E) id d w c).1 <> Err err.
Proof.
  unfold write_replan_anchor. destruct (negb _); [done|]. destruct (existsb _ _); [done|].
  destruct (_ !! _); [|done]. destruct (put_both _ _ c) as [[[]|] c1]; [apply append_then_no_err|done].
Qed.
Lemma start_loops_no_err inst res events mote w (c : C) err : (start_loops inst res events mote w None c).1 <> Err err.
Proof.
  unfold start_loops. revert c err. apply cbind_no_err; [intros c err; destruct (is_resolved res); [apply capture_no_err|done]|].
  intros _. apply cbind_no_err; [|done]. intros c err. destruct (_ && _); [apply write_replan_no_err|done].
Qed.
(** A plain submission that is refused, because no run is registered, its tools do
    not resolve or its shape is unsafe, leaves the core and the scheduler as they
    were. *)
Theorem refused_submission_changes_nothing env roles (tools : R) mote w accept (t t' : T) e :
  submit_and_capture env roles tools mote w accept false t = (Err e, t') -> t' = t.
Proof.
  unfold submit_and_capture. destruct (run_registration _) as [reg|]; [|by intros [= _ <-]].
  unfold cbind at 1, clift. destruct (resolve_for_submit tools w) as [[res events]|?|]; [|by intros [= _ <-]|done].
  unfold cbind at 1. destruct (omap_err _ _) as [[]|?|]; [|by intros [= _ <-]|done].
  unfold cbind at 1, admission. unfold cbind at 1. destruct (handle_submit mote w t) as [o t1]. cbn [fst].
  unfold cbind at 1. destruct (duplicate o); [done|]. unfold cbind, on_core, czoom. cbn [fst snd].
  set (c1 := park _ _ _ _).
  pose proof (start_loops_no_err (rr_instance_id reg) res events mote w c1) as Hne.
  destruct (start_loops _ _ _ _ _ _ c1) as [[]]; [done| |done]. by destruct (Hne e0).
Qed.

(** ** The writer stays in step *)
(** A computation that writes at most [k] entries, does not panic, keeps the core in
    step with its journal and relates the states as [Fr] says. *)
Definition keeps {A E} (Fr : C -> C -> Prop) (k : nat) (m : comp C A E) : Prop :=
  forall regs l c n, in_sync regs l c -> room l (k + n) ->
    exists r c' regs' l', m c = (r, c') /\ r <> Panic /\ Fr c c' /\ in_sync regs' l' c' /\ l `prefix_of` l' /\ room l' n.
Record quiet (c c' : C) : Prop := {
  qt_run : c'.(projection).(run_registration) = c.(projection).(run_registration);
  qt_react : c'.(projection).(react_rounds) = c.(projection).(react_rounds);
  qt_store : has_store c' = has_store c;
  qt_dispatch : c'.(dispatched) = c.(dispatched)
}.
#[local] Instance quiet_preorder : PreOrder quiet.
Proof. split; [by split|]. intros a b c [] []. split; by etrans. Qed.
Lemma keeps_pure {A E} (Fr : C -> C -> Prop) (m : comp C A E) :
  (forall c, (m c).1 <> Panic /\ Fr c (m c).2 /\ same_log c (m c).2) -> keeps Fr 0 m.
Proof.
  intros Hm regs l c n Hs Hr. destruct (Hm c) as (H1 & H2 & H3). destruct (H3 _ _ Hs) as (regs' & _ & Hs').
  exists (m c).1, (m c).2, regs', l. split_and!; try done. by destruct (m c).
Qed.
Lemma in_step_bind {A B E} (Fr : C -> C -> Prop) `{!PreOrder Fr} k1 k2 (m : comp C A E) (k : A -> comp C B E) :
  keeps Fr k1 m -> (forall a, keeps Fr k2 (k a)) -> keeps Fr (k1 + k2) (cbind m k).
Proof.
  intros Hm Hk regs l c n Hs Hr. rewrite <- Nat.add_assoc in Hr.
  destruct (Hm _ _ _ _ Hs Hr) as (r & c1 & regs1 & l1 & E1 & Hp & F1 & Hs1 & P1 & R1). unfold cbind. rewrite E1.
  destruct r as [a|e|]; [| |done].
  - destruct (Hk a _ _ _ _ Hs1 R1) as (r & c2 & regs2 & l2 & -> & ? & ? & ? & ? & ?).
    exists r, c2, regs2, l2. split_and!; try done; by etrans.
  - exists (Err e), c1, regs1, l1. split_and!; try done. eapply room_le; [done|lia].
Qed.
Lemma keeps_le {A E} (Fr : C -> C -> Prop) k k' (m : comp C A E) : (k <= k')%nat -> keeps Fr k m -> keeps Fr k' m.
Proof.
  intros Hk Hm regs l c n Hs Hr. destruct (Hm regs l c (k' - k + n)%nat Hs) as (r & c1 & regs1 & l1 & ? & ? & ? & ? & ? & ?).
  { eapply room_le; [done|lia]. }
  exists r, c1, regs1, l1. split_and!; try done. eapply room_le; [done|lia].
Qed.
Lemma store_write_quiet b (c : C) : quiet c (store_write b c).2.
Proof.
  unfold store_write. destruct (core_store c) as [st|] eqn:Hst; [|done]. destruct (put st b) as [[r st']|?|]; [|done..].
  split; try done. unfold has_store. cbn. by rewrite Hst.
Qed.
Lemma put_both_frame a b (c : C) : quiet c (put_both a b c).2 /\ same_log c (put_both a b c).2.
Proof.
  unfold put_both. pose proof (store_write_quiet a c). pose proof (store_write_same a c).
  destruct (store_write a c) as [ra c1]. pose proof (store_write_quiet b c1). pose proof (store_write_same b c1).
  destruct (store_write b c1) as [rb c2]. cbn [snd] in *. split; [by etrans|by eapply same_log_trans].
Qed.
(** An entry of the run's metadata that is not a ReAct round. *)
Definition plain_metadata (e : JournalEntry) : bool :=
  match e with RunVersionsResolved _ _ _ _ _ | ReplanRound _ _ _ _ _ _ _ _ _ => true | _ => false end.
Lemma fold_plain_metadata e s : plain_metadata e = true ->
  run_registration (fold None e s).1 = run_registration s /\ react_rounds (fold None e s).1 = react_rounds s.
Proof. by destruct e. Qed.

(** On any backend, one that refuses entries included. *)
Context `{!JournalTotal J}.
Lemma append_plain_keeps {E} e : plain_metadata e = true -> keeps quiet 1 (append_then (E := E) e (fun c => c)).
Proof.
  intros He regs l c n Hs Hr. assert (offerable l e) as Hw by (apply plain_offered; by destruct e).
  destruct (append_then_total (E := E) regs l c e (fun c => c) n Hs Hw Hr) as [(c1 & H1 & H2 & H3 & H4 & H5 & H6)|[H1 _]]; last first.
  { exists (Ok tt), c, regs, l. split_and!; try done. eapply room_le; [exact Hr|lia]. }
  exists (Ok tt), c1, regs, (log_append l e).2. split_and!; try done; [|apply log_append_prefix].
  assert (plain_metadata (log_append l e).1 = true) as Hd.
  { destruct (log_append_cases l e) as [[Hin _]|(_ & -> & _)]; [|by destruct e].
    unfold log_append. by destruct e. }
  destruct (fold_plain_metadata _ (projection c) Hd) as [F1 F2]. split; rewrite ?H6; first [done|by case_match|idtac].
  unfold has_store. by rewrite H4.
Qed.
Lemma each_keeps {A E} (step : A -> comp C unit E) xs : (forall x, keeps quiet 1 (step x)) -> keeps quiet (length xs) (each step xs).
Proof.
  intros Hs. induction xs as [|x xs IH]; cbn [each length].
  - apply keeps_pure. intros c. split_and!; [done|done|apply same_log_refl].
  - apply (in_step_bind quiet 1); [done|by intros _].
Qed.
Lemma capture_keeps {E} inst w events : keeps quiet (Datatypes.S (length events)) (capture_run_versions (E := E) inst w events).
Proof.
  unfold capture_run_versions. destruct events as [|e es]; [by apply append_plain_keeps|].
  eapply keeps_le; [|apply each_keeps; intros x; by apply append_plain_keeps]. lia.
Qed.
Lemma in_step_ret {A E} (Fr : C -> C -> Prop) `{!PreOrder Fr} (a : A) : keeps Fr 0 (cret (E := E) a).
Proof. apply keeps_pure. intros c. split_and!; [done|done|apply same_log_refl]. Qed.
Lemma replan_keeps {E} id d w : keeps quiet 1 (write_replan_anchor (E := E) id d w).
Proof.
  intros regs l c n Hs Hr. unfold write_replan_anchor.
  assert (Hskip : exists r c' regs' l', (Ok tt : outcome unit E, c) = (r, c') /\ r <> Panic /\ quiet c c' /\ in_sync regs' l' c' /\ l `prefix_of` l' /\ room l' n).
  { exists (Ok tt), c, regs, l. split_and!; try done. eapply room_le; [done|lia]. }
  destruct (negb _); [done|]. destruct (existsb _ _); [done|]. destruct (_ !! _) as [prompt|]; [|done].
  destruct (put_both_frame prompt (bincode_encode w) c) as [Hq Hl]. destruct (put_both _ _ c) as [o c1]. cbn [snd] in *.
  destruct (Hl _ _ Hs) as (regs1 & _ & Hs1). destruct o as [[b r]|].
  - destruct (append_plain_keeps (E := E) (ReplanRound 0 id b b r (Mote.model_id d) [] None 0) eq_refl regs1 l c1 n Hs1 Hr)
      as (r' & c2 & regs2 & l2 & ? & ? & ? & ? & ? & ?).
    exists r', c2, regs2, l2. split_and!; try done. by etrans.
  - exists (Ok tt), c1, regs1, l. split_and!; try done. eapply room_le; [done|lia].
Qed.

(** ** The anchor of a chain *)
Lemma sync_indices regs l (c : C) : in_sync regs l c -> indices_ok c.(projection).
Proof. intros Hs. eapply indices_ok_reachable, live_reachable, fo_live, sync_follows, Hs. Qed.
Definition has_anchor (s : State) (inst : bytes) (salt : option bytes) : bool :=
  existsb (fun r => on_chain inst salt r && (r.(ReactRoundRecord.turn) =? 0)) s.(react_rounds).
Lemma anchored_scan s inst salt : indices_ok s -> anchored s inst salt = Ok (has_anchor s inst salt).
Proof.
  intros Hi. unfold anchored, has_anchor. rewrite react_rounds_of_scan by done. f_equal.
  induction (react_rounds s) as [|r rs IH]; [done|]. cbn. destruct (on_chain inst salt r); cbn; by rewrite ?IH.
Qed.
Lemma stage_context_frame turn0 (c : C) :
  (stage_context turn0 c).1 <> Panic /\ quiet c (stage_context turn0 c).2 /\ same_log c (stage_context turn0 c).2.
Proof.
  unfold stage_context. destruct (config _ _) as [items|]; [|split_and!; [done|done|apply same_log_refl]].
  pose proof (store_write_quiet items c). pose proof (store_write_same items c).
  by destruct (store_write items c) as [[r|] c1].
Qed.
Lemma anchor_image_frame turn0 (c : C) : (anchor_image turn0 c).1 <> Panic /\ (anchor_image turn0 c).2 = c.
Proof. unfold anchor_image. destruct (config _ _); [|done]. by destruct (from_arg _). Qed.
(** At most one record is new, the first of its chain. *)
Definition one_anchor (s s' : State) : Prop :=
  react_rounds s' = react_rounds s
  \/ exists x, react_rounds s' = react_rounds s ++ [x] /\ x.(ReactRoundRecord.turn) = 0
       /\ x.(ReactRoundRecord.branch) = ReactBranch.Pending
       /\ has_anchor s x.(ReactRoundRecord.instance_id) x.(ReactRoundRecord.step_salt) = false.
Lemma has_anchor_same (s s' : State) inst salt : s'.(react_rounds) = s.(react_rounds) -> has_anchor s' inst salt = has_anchor s inst salt.
Proof. intros E. unfold has_anchor. by rewrite E. Qed.
Lemma one_anchor_between s0 s s' s1 : react_rounds s = react_rounds s0 -> react_rounds s1 = react_rounds s' ->
  one_anchor s s' -> one_anchor s0 s1.
Proof.
  intros E0 E1 [E|(x & E & Ht & Hb & Hn)]; [left; congruence|]. right. exists x. rewrite (has_anchor_same _ _ _ _ E0) in Hn.
  split_and!; [congruence|done..].
Qed.
(** What writing an anchor comes to. *)
Record anchor_run (c : C) (inst : bytes) (salt : option bytes) (l : list JournalEntry) (n : nat)
    (r : outcome unit CoordinatorError) (c' : C) : Prop := {
  ar_total : r <> Panic;
  ar_sync : exists regs' l', in_sync regs' l' c' /\ l `prefix_of` l' /\ room l' n;
  ar_ok : r = Ok tt -> has_anchor c'.(projection) inst salt = true;
  ar_err : forall e, r = Err e -> quiet c c';
  ar_rounds : one_anchor c.(projection) c'.(projection);
  ar_frame : c'.(projection).(run_registration) = c.(projection).(run_registration)
    /\ c'.(dispatched) = c.(dispatched) /\ has_store c' = has_store c
}.
Lemma anchor_run_err (c c' : C) inst salt regs l n (e : CoordinatorError) :
  quiet c c' -> in_sync regs l c' -> room l n -> anchor_run c inst salt l n (Err e) c'.
Proof. intros Hq Hs Hr. split; [done|by exists regs, l|done|done|left; apply Hq|by destruct Hq]. Qed.
Lemma react_round_folds turn id inst br wr model branch mt mc salt ag ci im ap seq s :
  let s' := (fold None (ReactRound turn id inst br wr model branch mt mc salt ag ci im ap seq) s).1 in
  run_registration s' = run_registration s /\ (turn = 0 -> has_anchor s' inst salt = true)
  /\ exists x, react_rounds s' = react_rounds s ++ [x] /\ x.(ReactRoundRecord.turn) = turn /\ x.(ReactRoundRecord.branch) = branch
       /\ x.(ReactRoundRecord.instance_id) = inst /\ x.(ReactRoundRecord.step_salt) = salt.
Proof.
  cbn [fold fold_run_metadata fold_react_metadata fst]. unfold index_last_react_round.
  set (r := {| ReactRoundRecord.turn := turn |}).
  assert (Hex : turn = 0 -> existsb (fun r => on_chain inst salt r && (r.(ReactRoundRecord.turn) =? 0)) (react_rounds s ++ [r]) = true).
  { intros ->. rewrite existsb_app. apply orb_true_iff. right. cbn. unfold on_chain, r. cbn. by rewrite !bool_decide_true. }
  unfold has_anchor. split_and!; [by repeat case_match|intros Ht; by repeat case_match; apply Hex|].
  exists r. by repeat case_match.
Qed.
Lemma write_anchor_runs inst salt agentic turn0 w mt mc ap regs l (c : C) n :
  in_sync regs l c -> room l (1 + n) ->
  exists r c', write_react_anchor inst salt agentic turn0 w mt mc ap c = (r, c') /\ anchor_run c inst salt l n r c'.
Proof.
  intros Hs Hr. assert (Hr' : room l n) by (eapply room_le; [done|lia]). unfold write_react_anchor, cbind at 1, cask.
  rewrite (anchored_scan _ _ _ (sync_indices _ _ _ Hs)). destruct (has_anchor (projection c) inst salt) eqn:Ha.
  { eexists _, _. split; [done|]. split; [done|by exists regs, l|done|done|by left|done]. }
  destruct (config turn0 PROMPT_KEY) as [instruction|]; [|eexists _, _; split; [done|by eapply anchor_run_err]].
  destruct (put_both_frame instruction (bincode_encode w) c) as [Hq Hl]. unfold cbind at 1.
  destruct (put_both _ _ c) as [o c1]. cbn [snd] in *. destruct (Hl _ _ Hs) as (regs1 & _ & Hs1).
  destruct o as [[b wr]|]; [|eexists _, _; split; [done|by eapply anchor_run_err]].
  destruct (stage_context_frame turn0 c1) as (Hp2 & Hq2 & Hl2). unfold cbind at 1.
  destruct (stage_context turn0 c1) as [rc c2]. cbn [fst snd] in *. destruct (Hl2 _ _ Hs1) as (regs2 & _ & Hs2).
  assert (quiet c c2) as Hq' by (by etrans).
  destruct rc as [ci|e|]; [|eexists _, _; split; [done|by eapply anchor_run_err]|done].
  destruct (anchor_image_frame turn0 c2) as (Hp3 & Hc3). unfold cbind at 1.
  destruct (anchor_image turn0 c2) as [ri c3]. cbn [fst snd] in *. subst c3.
  destruct ri as [im|e|]; [|eexists _, _; split; [done|by eapply anchor_run_err]|done].
  set (e := ReactRound _ _ _ _ _ _ _ _ _ _ _ _ _ _ _).
  destruct (offer_run regs2 l c2 e Hs2) as [(j & Hj & Hok & Hs3)|(x & Hx & _)]; [by apply plain_offered|by eapply room_le; [exact Hr|lia]| |];
    unfold cbind, cmap_err; rewrite ?Hj, ?Hx; cbn [omap_err]; [|eexists _, _; split; [done|by eapply anchor_run_err]].
  rewrite fold_new_run by done.
  eexists _, _. split; [done|]. destruct Hq' as [Q1 Q2 Q3 Q4].
  assert (projection (advance (with_core_journal j c2) (log_append l e).1) = (fold None (log_append l e).1 (projection c2)).1) as Hpr.
  { unfold advance. cbn [projection with_core_journal folded_through]. unfold log_append. cbn [e derive_key existing_fact is_deduped fst].
    rewrite (fo_folded _ _ _ (sync_follows _ _ _ Hs2)). by rewrite (proj2 (Z.ltb_lt _ _)) by (cbn; lia). }
  pose proof (react_round_folds 0 (Mote.mote_id turn0) inst b wr (Mote.model_id (def turn0)) ReactBranch.Pending mt mc salt agentic ci im ap
    (Z.of_nat (length l) + 1) (projection c2)) as (F1 & F2 & F3).
  split; [done| | |done| |].
  - exists regs2, (log_append l e).2. split_and!; [done|apply log_append_prefix|by apply log_append_room].
  - intros _. rewrite Hpr. by apply F2.
  - right. destruct F3 as (x & F3 & Ft & Fb & <- & <-). exists x. rewrite Hpr, <- Q2. by split_and!.
  - rewrite Hpr. split_and!; [|done|done]. etrans; [exact F1|done].
Qed.

(** ** The whole submission *)
Lemma resolve_all_length (tools : R) w gs : forall ts, resolve_all tools w gs = Ok ts -> length ts = length gs.
Proof.
  induction gs as [|g gs IH]; intros ts; cbn [resolve_all]; [by intros [= <-]|].
  intros (x & _ & (ys & Hys & [= <-])%obind_ok_inv)%obind_ok_inv. cbn. by rewrite (IH ys).
Qed.
Lemma grants_iter_length gs : length (grants_iter gs) = size gs.
Proof. unfold grants_iter. etrans; [apply Permutation_length, merge_sort_Permutation|done]. Qed.
Lemma handle_submit_frame mote w (t : T) :
  same_log t.1 (handle_submit mote w t).2.1
  /\ (handle_submit mote w t).2.1.(projection).(run_registration) = t.1.(projection).(run_registration)
  /\ (handle_submit mote w t).2.1.(projection).(react_rounds) = t.1.(projection).(react_rounds)
  /\ has_store (handle_submit mote w t).2.1 = has_store t.1
  /\ (handle_submit mote w t).2.2.(pending) !! mote.(Mote.mote_id) <> None
  /\ ((handle_submit mote w t).1.(duplicate) = false ->
      (handle_submit mote w t).2.1.(dispatched).(defs) !! mote.(Mote.mote_id) = Some (mote, w)
      /\ mote.(Mote.mote_id) ∈ (handle_submit mote w t).2.1.(dispatched).(submitted)).
Proof.
  unfold handle_submit. pose proof (persist_same_log (def mote) t.1) as Hl.
  assert (Hq : quiet t.1 (persist_def (def mote) t.1)).
  { unfold persist_def. destruct (core_store t.1) as [st|] eqn:Hst; [|done]. destruct (put st _) as [[r st']|?|]; [|done..].
    split; try done. unfold has_store. cbn. by rewrite Hst. }
  destruct Hq as [Q1 Q2 Q3 Q4]. unfold submit. case_bool_decide as Hd.
  - split_and!; try done. cbn. by destruct Hd as [x ->].
  - cbn [fst snd]. split_and!; try done; [|cbn; by rewrite lookup_insert_eq|].
    + eapply same_log_trans; [exact Hl|]. eapply same_log_trans; [apply register_same_log|apply dispatch_same_log].
    + intros _. cbn. split; [by rewrite lookup_insert_eq|set_solver].
Qed.
Definition same_tables (c c' : C) : Prop :=
  exists f, c' = with_dispatch f c /\ (forall d, (f d).(submitted) = d.(submitted)) /\ (forall d, (f d).(defs) = d.(defs)).
Lemma noted_same b f (c c' : C) : (forall d, (f d).(submitted) = d.(submitted)) -> (forall d, (f d).(defs) = d.(defs)) ->
  same_tables c c' -> same_tables c (noted b f c').
Proof.
  intros Hs Hd (g & -> & H1 & H2). unfold noted. destruct b; [|by exists g].
  exists (fun d => f (g d)). split_and!; [done|intros d; by rewrite Hs|intros d; by rewrite Hd].
Qed.
Lemma park_frame mote inst dup (c : C) : same_tables c (park mote inst dup c).
Proof.
  unfold park. repeat (apply noted_same; [done..|]). exists (fun d => d). by rewrite with_dispatch_id.
Qed.
Lemma rematerialize_frame roles mote w (c : C) :
  same_log c (rematerialize roles mote w c) /\ c.(dispatched).(submitted) ⊆ (rematerialize roles mote w c).(dispatched).(submitted)
  /\ (mote.(def).(Mote.is_topology_shaper) = false -> rematerialize roles mote w c = c).
Proof.
  unfold rematerialize. assert (Hid : same_log c c /\ submitted (dispatched c) ⊆ submitted (dispatched c) /\ (Mote.is_topology_shaper (def mote) = false -> c = c))
    by (split_and!; [apply same_log_refl|done|done]).
  destruct (core_store c) as [st|]; [|done]. destruct roles as [roles|]; [|done].
  destruct (Mote.is_topology_shaper (def mote)); [|done]. destruct (_ && _); [|done].
  split; [|split; [|done]]; unfold materialize_committed_shaper; destruct (result_ref_of _ _); try apply same_log_refl; try done;
    destruct (derive_shaper_children _ _ _ _ _ _) as [children|?|]; try apply same_log_refl; try done.
  - apply same_log_foldl. intros. apply admit_child_same_log.
  - clear. revert c. induction children as [|ch children IH]; intros c; [done|]. cbn [foldl]. etrans; [|apply IH].
    unfold admit_child. cbn. unfold persist_def. destruct (core_store c); [destruct (put _ _) as [[]|?|]|]; cbn; set_solver.
Qed.
Lemma shaper_rounds st roles id d w (c : C) : react_rounds (projection (materialize_committed_shaper st roles id d w c)) = react_rounds (projection c).
Proof.
  unfold materialize_committed_shaper. destruct (result_ref_of _ _); [|done]. destruct (derive_shaper_children _ _ _ _ _ _) as [children|?|]; [|done..].
  revert c. induction children as [|ch children IH]; intros c; [done|]. cbn [foldl]. rewrite IH. unfold admit_child. cbn.
  unfold persist_def. destruct (core_store c); [|done]. by destruct (put _ _) as [[]|?|].
Qed.
Lemma rematerialize_rounds roles mote w (c : C) : react_rounds (projection (rematerialize roles mote w c)) = react_rounds (projection c).
Proof.
  unfold rematerialize. destruct (core_store c); [|done]. destruct roles; [|done]. destruct (_ && _); [|done]. apply shaper_rounds.
Qed.
Lemma start_loops_runs inst res events mote w seed regs l (c : C) n :
  in_sync regs l c -> room l (length events + 3 + n) ->
  exists r c', start_loops inst res events mote w seed c = (r, c') /\ r <> Panic
    /\ (exists regs' l', in_sync regs' l' c' /\ l `prefix_of` l' /\ room l' n)
    /\ c'.(projection).(run_registration) = c.(projection).(run_registration) /\ c'.(dispatched) = c.(dispatched)
    /\ has_store c' = has_store c
    /\ (forall sd, seed = Some sd -> r = Ok tt -> has_anchor c'.(projection) inst (Some sd.(sd_salt)) = true)
    /\ (forall e, r = Err e -> c'.(projection).(react_rounds) = c.(projection).(react_rounds))
    /\ one_anchor c.(projection) c'.(projection).
Proof.
  intros Hs Hr. unfold start_loops.
  assert (H1 : keeps quiet (Datatypes.S (length events)) (if is_resolved res then capture_run_versions (E := CoordinatorError) inst w events else cret tt)).
  { destruct (is_resolved res); [apply capture_keeps|]. eapply keeps_le; [|apply in_step_ret, _]. lia. }
  destruct (H1 regs l c (2 + n)%nat Hs) as (r1 & c1 & regs1 & l1 & E1 & P1 & Q1 & S1 & L1 & R1); [eapply room_le; [exact Hr|lia]|].
  unfold cbind at 1. rewrite E1. destruct r1 as [[]|e|]; [| |done].
  2: { exists (Err e), c1. destruct Q1. split_and!; try done; [|by left]. exists regs1, l1. split_and!; try done. eapply room_le; [done|lia]. }
  assert (H2 : keeps quiet 1 (fun c => if Mote.is_topology_shaper (def mote) && has_store c
      then write_replan_anchor (E := CoordinatorError) (Mote.mote_id mote) (def mote) w c else (Ok tt, c))).
  { intros regs0 l0 c0 n0 Hs0 Hr0. destruct (_ && _); [by eapply replan_keeps|].
    exists (Ok tt), c0, regs0, l0. split_and!; try done. eapply room_le; [done|lia]. }
  destruct (H2 regs1 l1 c1 (1 + n)%nat S1 R1) as (r2 & c2 & regs2 & l2 & E2 & P2 & Q2 & S2 & L2 & R2).
  unfold cbind. rewrite E2. assert (quiet c c2) as [K1 K2 K3 K4] by (by etrans).
  assert (l `prefix_of` l2) as L3 by (by etrans).
  destruct r2 as [[]|e|]; [| |done].
  2: { exists (Err e), c2. split_and!; try done; [|by left]. exists regs2, l2. split_and!; try done. eapply room_le; [done|lia]. }
  destruct seed as [sd|].
  - destruct (write_anchor_runs inst (Some (sd_salt sd)) false (sd_anchor sd) w (sd_caps sd).1 (sd_caps sd).2 (sd_approval sd)
      regs2 l2 c2 n S2 R2) as (r & c3 & E3 & [A1 (regs3 & l3 & A2 & A3 & A4) A5 A6 A10 (A7 & A8 & A9)]).
    exists r, c3. split_and!; [done|done|exists regs3, l3; split_and!; [done|by etrans|done]|by etrans..| | |].
    + intros ? [= <-]. done.
    + intros e He. destruct (A6 e He) as [_ B _ _]. by etrans.
    + by eapply one_anchor_between.
  - exists (Ok tt), c2. split_and!; try done; [|by left]. exists regs2, l2. split_and!; try done. eapply room_le; [done|lia].
Qed.
Lemma obind_total {A B E} (m : outcome A E) (k : A -> outcome B E) :
  m <> Panic -> (forall a, k a <> Panic) -> (let* a := m in k a) <> Panic.
Proof. intros Hm Hk. destruct m; [apply Hk|done..]. Qed.
Lemma validate_total mote accept res : validate_mote_submission mote accept res <> Panic.
Proof.
  unfold validate_mote_submission. repeat (apply obind_total; [|intros _]).
  all: unfold check_r1, check_r7_self, check_r8, check_r14, check_r15, native_judge_shape, native_critic_shape, Refusal.shape_ok,
    check_r10_resolved; by repeat case_match.
Qed.
Lemma swap_seed_total env inst mote w (c : C) : swap_seed env inst mote w c <> Panic.
Proof.
  unfold swap_seed. destruct (negb _); [done|]. apply obind_total; [|by intros [[]]].
  unfold react_seed_params. case_match; [|done]. repeat (apply obind_total; [unfold cap_param; by repeat case_match|intros ?]).
  destruct (_ || _); [done|]. apply obind_total; [by repeat case_match|done].
Qed.
(** The registry answers. *)
Definition answers (tools : R) : Prop := forall g w, resolve_tool tools g w <> Panic.
Lemma resolve_for_submit_runs (tools : R) w : answers tools ->
  exists res events, resolve_for_submit tools w = Ok (res, events) /\ (length events <= size w.(WarrantSpec.tool_grants))%nat.
Proof.
  intros Ha. unfold resolve_for_submit. destruct (resolve_all tools w _) as [ts|e|] eqn:E.
  - eexists _, _. split; [done|]. rewrite length_fmap, (resolve_all_length _ _ _ _ E), grants_iter_length. lia.
  - eexists _, _. split; [done|]. cbn. lia.
  - exfalso. revert E. induction (grants_iter _) as [|g gs IH]; cbn [resolve_all]; [done|].
    pose proof (Ha g w). destruct (resolve_tool tools g w); cbn [obind]; [|done..].
    destruct (resolve_all tools w gs); cbn; [done|done|intros; by apply IH].
Qed.
Lemma chain_turn_plain m i n inst salt tokens : (build_chain_turn m i n inst salt tokens).(def).(Mote.is_topology_shaper) = false.
Proof. by destruct salt. Qed.
Lemma swap_seed_ok env inst mote w (c : C) sd : swap_seed env inst mote w c = Ok sd ->
  sd.(sd_salt) = mote.(Mote.mote_id) /\ sd.(sd_turn).(def).(Mote.is_topology_shaper) = false.
Proof.
  unfold swap_seed. destruct (negb _); [done|]. intros ([[ins caps] ap] & _ & [= <-])%obind_ok_inv. done.
Qed.

(** What a submission comes to: the state it leaves and, where it is accepted, what
    was admitted. *)
Record submitted_run (inst : bytes) (mote : Mote) (react_seed : bool) (l : list JournalEntry) (t : T)
    (r : outcome SubmitOutcome CoordinatorError) (t' : T) : Prop := {
  sb_total : r <> Panic;
  sb_sync : exists regs' l', in_sync regs' l' t'.1 /\ l `prefix_of` l';
  sb_admitted : forall o, r = Ok o -> o.(duplicate) = false -> o.(so_mote_id) ∈ t'.1.(dispatched).(submitted);
  sb_anchored : forall o, r = Ok o -> o.(duplicate) = false -> react_seed = true ->
    has_anchor t'.1.(projection) inst (Some mote.(Mote.mote_id)) = true;
  sb_rounds : one_anchor t.1.(projection) t'.1.(projection)
}.
Lemma refused_run inst mote seed regs l e (t : T) : in_sync regs l t.1 -> submitted_run inst mote seed l t (Err e) t.
Proof. intros Hs. split; [done|by exists regs, l|done|done|by left]. Qed.
(** The tail of a submission: from the admission on. *)
Lemma admission_runs roles inst res events mote w seed salt regs l (t : T) n :
  in_sync regs l t.1 -> room l (length events + 3 + n) ->
  (forall sd, seed = Some sd -> sd.(sd_salt) = salt.(Mote.mote_id) /\ mote.(def).(Mote.is_topology_shaper) = false) ->
  exists r t', admission roles inst res events mote w seed t = (r, t')
    /\ submitted_run inst salt (bool_decide (is_Some seed)) l t r t'.
Proof.
  intros Hs Hr Hseed. unfold admission. destruct (handle_submit_frame mote w t) as (Hl & _ & Hro & _ & _ & Hfresh). unfold cbind at 1.
  destruct (handle_submit mote w t) as [o t1]. cbn [fst snd] in *. destruct (Hl _ _ Hs) as (regs1 & _ & Hs1).
  destruct o as [mid dup iid]. cbn [duplicate] in *. unfold cbind at 1. cbn [fst snd].
  assert (Hc1 : exists c1, match seed with Some _ => t1.1 | None => park mote inst dup t1.1 end = c1
    /\ in_sync regs1 l c1 /\ submitted (dispatched c1) = submitted (dispatched t1.1) /\ react_rounds (projection c1) = react_rounds (projection t1.1)).
  { eexists. split; [done|]. destruct seed; [done|]. destruct (park_frame mote inst dup t1.1) as (f & -> & Hf & _).
    split; [by apply in_sync_dispatch|]. split; [apply Hf|done]. }
  destruct Hc1 as (c1 & -> & Hs2 & Hsub & Hro1). rewrite Hro in Hro1. destruct dup.
  - unfold cbind. eexists _, _. split; [done|]. destruct (rematerialize_frame roles mote w c1) as (Hrl & _ & _).
    destruct (Hrl _ _ Hs2) as (regs2 & _ & Hs3). split; [done|by exists regs2, l|by intros ? [= <-]..|].
    left. cbn [fst]. by rewrite rematerialize_rounds.
  - specialize (Hfresh eq_refl) as [_ Hin].
    destruct (start_loops_runs inst res events mote w seed regs1 l c1 n Hs2 Hr)
      as (r & c2 & E2 & P2 & (regs2 & l2 & S2 & L2 & _) & _ & D2 & _ & A2 & _ & O2).
    unfold cbind, on_core, czoom. cbn [fst snd]. rewrite E2. destruct r as [[]|e|]; [| |done].
    + eexists _, _. split; [done|]. destruct (rematerialize_frame roles mote w c2) as (Hrl & Hsb & Hid).
      destruct (Hrl _ _ S2) as (regs3 & _ & Hs3). split; [done|by exists regs3, l2|..].
      * intros ? [= <-] _. cbn [so_mote_id fst]. apply Hsb. rewrite D2, Hsub. done.
      * intros ? [= <-] _ [sd Hsd]%bool_decide_eq_true. destruct (Hseed sd Hsd) as [Hsalt Hns]. cbn [fst]. rewrite Hid by done.
        rewrite <- Hsalt. by apply A2.
      * eapply one_anchor_between; [exact Hro1|cbn [fst]; apply rematerialize_rounds|exact O2].
    + eexists _, _. split; [done|]. split; [done|by exists regs2, l2|done|done|]. by eapply one_anchor_between.
Qed.
Lemma submission_runs env roles (tools : R) mote w accept react_seed regs l (t : T) reg :
  answers tools -> in_sync regs l t.1 -> room l (size w.(WarrantSpec.tool_grants) + 3) ->
  t.1.(projection).(run_registration) = Some reg ->
  exists r t', submit_and_capture env roles tools mote w accept react_seed t = (r, t')
    /\ submitted_run reg.(rr_instance_id) mote react_seed l t r t'.
Proof.
  intros Ha Hs Hr Hreg. unfold submit_and_capture. rewrite Hreg.
  destruct (resolve_for_submit_runs tools w Ha) as (res & events & Hres & Hlen). unfold cbind at 1, clift. rewrite Hres.
  unfold cbind at 1. cbn [fst snd]. pose proof (validate_total mote accept res) as Hv.
  destruct (validate_mote_submission mote accept res) as [[]|e|]; cbn [omap_err]; [| |done].
  2: { eexists _, _. split; [done|by eapply refused_run]. }
  unfold cbind at 1. assert (Hr' : room l (length events + 3 + 0)) by (eapply room_le; [exact Hr|lia]).
  destruct react_seed; [|by eapply (admission_runs _ _ _ _ _ _ None)].
  pose proof (swap_seed_total env (rr_instance_id reg) mote w t.1) as Ht.
  destruct (swap_seed env _ mote w t.1) as [sd|e|] eqn:Hsd; cbn [obind]; [| |done].
  2: { eexists _, _. split; [done|by eapply refused_run]. }
  eapply (admission_runs _ _ _ _ _ _ (Some sd)); [done|done|]. intros ? [= <-]. by eapply swap_seed_ok.
Qed.
(** [C14] Admission is total and keeps the core in step with its journal, whatever is
    submitted, whatever the journal refuses and however it ends; what it newly accepts
    may be committed, and a ReAct seed it newly accepts has its chain anchored in the
    journal. *)
Theorem submission_follows_journal env roles (tools : R) mote w accept react_seed regs l (t : T) reg :
  answers tools -> in_sync regs l t.1 -> room l (size w.(WarrantSpec.tool_grants) + 3) ->
  t.1.(projection).(run_registration) = Some reg ->
  exists r t', submit_and_capture env roles tools mote w accept react_seed t = (r, t')
    /\ submitted_run reg.(rr_instance_id) mote react_seed l t r t'.
Proof. apply submission_runs. Qed.

(** ** A seed refused at its anchor *)
Lemma bad_image_refused inst salt agentic turn0 w mt mc ap regs l (c : C) v :
  in_sync regs l c -> has_anchor c.(projection) inst salt = false ->
  config turn0 IMAGE_REF_KEY = Some v -> from_arg v = None ->
  exists why c', write_react_anchor inst salt agentic turn0 w mt mc ap c = (Err (CoordinatorError.ReactSeedRefused why), c')
    /\ quiet c c' /\ same_log c c'.
Proof.
  intros Hs Ha Hv Hbad. unfold write_react_anchor, cbind at 1, cask.
  rewrite (anchored_scan _ _ _ (sync_indices _ _ _ Hs)), Ha.
  destruct (config turn0 PROMPT_KEY) as [instruction|]; [|eexists _, _; split; [done|split; [done|apply same_log_refl]]].
  destruct (put_both_frame instruction (bincode_encode w) c) as [Hq Hl]. unfold cbind at 1.
  destruct (put_both _ _ c) as [o c1]. cbn [snd] in *. destruct o as [[b wr]|]; [|eexists _, _; by split].
  destruct (stage_context_frame turn0 c1) as (Hp2 & Hq2 & Hl2). unfold cbind at 1.
  assert (Hse : forall e, (stage_context turn0 c1).1 = Err e -> exists why, e = CoordinatorError.ReactSeedRefused why).
  { unfold stage_context. destruct (config turn0 CONTEXT_ITEMS_KEY) as [b'|]; [|done]. destruct (store_write b' c1) as [[]]; [done|].
    cbn. intros e [= <-]. by eexists. }
  destruct (stage_context turn0 c1) as [rc c2]. cbn [fst snd] in *.
  assert (quiet c c2 /\ same_log c c2) as Hc2 by (split; [by etrans|by eapply same_log_trans]).
  destruct rc as [ci|e|]; [| |done].
  - unfold cbind, anchor_image. rewrite Hv, Hbad. by eexists _, _.
  - destruct (Hse e eq_refl) as [why ->]. by eexists _, _.
Qed.
Lemma anchor_clone_image turn seed v : config seed IMAGE_REF_KEY = Some v ->
  config (react_anchor_clone turn (seed_anchor_cfg seed)) IMAGE_REF_KEY = Some v.
Proof.
  intros Hv. unfold react_anchor_clone, seed_anchor_cfg, REACT_ANCHOR_BOUND_KEYS. cbn [omap list_omap]. rewrite Hv.
  unfold config at 1, with_config. cbn [def config_subset fmap option_fmap option_map].
  destruct (config seed CONTEXT_ITEMS_KEY); cbn [foldl fmap option_fmap option_map fst snd].
  - rewrite lookup_insert_ne by (by vm_compute). apply lookup_insert_eq.
  - apply lookup_insert_eq.
Qed.
Lemma seed_loops_refused inst res events sd w regs l (c : C) v :
  in_sync regs l c -> room l (length events + 2) -> sd.(sd_turn).(def).(Mote.is_topology_shaper) = false ->
  has_anchor c.(projection) inst (Some sd.(sd_salt)) = false ->
  config sd.(sd_anchor) IMAGE_REF_KEY = Some v -> from_arg v = None ->
  exists why c', start_loops inst res events sd.(sd_turn) w (Some sd) c = (Err (CoordinatorError.ReactSeedRefused why), c')
    /\ quiet c c' /\ exists regs' l', in_sync regs' l' c'.
Proof.
  intros Hs Hr Hns Ha Hv Hbad. unfold start_loops. rewrite Hns.
  assert (H1 : keeps quiet (Datatypes.S (length events)) (if is_resolved res then capture_run_versions (E := CoordinatorError) inst w events else cret tt)).
  { destruct (is_resolved res); [apply capture_keeps|]. eapply keeps_le; [|apply in_step_ret, _]. lia. }
  destruct (H1 regs l c 1%nat Hs) as (r1 & c1 & regs1 & l1 & E1 & P1 & Q1 & S1 & L1 & R1); [eapply room_le; [exact Hr|lia]|].
  assert (Hne : forall e, r1 <> Err e).
  { intros e ->. destruct (is_resolved res); [|done]. apply (capture_no_err inst w events c e). by rewrite E1. }
  unfold cbind at 1. rewrite E1. destruct r1 as [[]|e|]; [|by destruct (Hne e)|done]. unfold cbind. cbn [andb].
  destruct (bad_image_refused inst (Some (sd_salt sd)) false (sd_anchor sd) w (sd_caps sd).1 (sd_caps sd).2 (sd_approval sd)
    regs1 l1 c1 v S1) as (why & c2 & -> & Q2 & L2); [rewrite (has_anchor_same (projection c)); [done|apply Q1]|done|done|].
  destruct (L2 _ _ S1) as (regs2 & _ & S2). exists why, c2. split_and!; [done|by etrans|by exists regs2, l1].
Qed.
Lemma handle_submit_known mote w (t : T) : (handle_submit mote w t).1.(duplicate) = bool_decide (is_Some (t.2.(pending) !! mote.(Mote.mote_id)))
  /\ (handle_submit mote w t).1.(so_mote_id) = mote.(Mote.mote_id).
Proof. unfold handle_submit, submit. by case_bool_decide. Qed.
(** A seed whose image reference is malformed passes the gates, is admitted, and only
    then is refused: the client is told so, but the first turn stays among the work
    handed out, without the anchor that its chain needs. Submitting the same seed
    again succeeds as a duplicate, and still writes no anchor. *)
Theorem refused_seed_admitted env roles (tools : R) mote w accept regs l (t : T) reg sd v res events :
  in_sync regs l t.1 -> room l (length events + 2) ->
  t.1.(projection).(run_registration) = Some reg ->
  resolve_for_submit tools w = Ok (res, events) -> validate_mote_submission mote accept res = Ok tt ->
  swap_seed env reg.(rr_instance_id) mote w t.1 = Ok sd ->
  t.2.(pending) !! sd.(sd_turn).(Mote.mote_id) = None ->
  has_anchor t.1.(projection) reg.(rr_instance_id) (Some mote.(Mote.mote_id)) = false ->
  config mote IMAGE_REF_KEY = Some v -> from_arg v = None ->
  exists why t' t'', submit_and_capture env roles tools mote w accept true t = (Err (CoordinatorError.ReactSeedRefused why), t')
    /\ t'.1.(dispatched).(defs) !! sd.(sd_turn).(Mote.mote_id) = Some (sd.(sd_turn), w)
    /\ submit_and_capture env roles tools mote w accept true t'
       = (Ok {| so_mote_id := sd.(sd_turn).(Mote.mote_id); duplicate := true; so_instance_id := Some reg.(rr_instance_id) |}, t'')
    /\ has_anchor t''.1.(projection) reg.(rr_instance_id) (Some mote.(Mote.mote_id)) = false.
Proof.
  intros Hs Hr Hreg Hres Hval Hsd Hnew Ha Hv Hbad.
  destruct (swap_seed_ok _ _ _ _ _ _ Hsd) as [Hsalt Hns].
  assert (Hclone : config (sd_anchor sd) IMAGE_REF_KEY = Some v).
  { revert Hsd. unfold swap_seed. destruct (negb _); [done|]. intros ([[ins caps] ap] & _ & [= <-])%obind_ok_inv. by apply anchor_clone_image. }
  assert (Hgo : forall u : T, has_store u.1 = has_store t.1 -> run_registration (projection u.1) = Some reg ->
    submit_and_capture env roles tools mote w accept true u = admission roles (rr_instance_id reg) res events (sd_turn sd) w (Some sd) u).
  { intros u Hst Hu. unfold submit_and_capture. rewrite Hu. unfold cbind at 1, clift. rewrite Hres. unfold cbind at 1. cbn [fst snd].
    rewrite Hval. cbn [omap_err]. unfold cbind at 1.
    assert (swap_seed env (rr_instance_id reg) mote w u.1 = Ok sd) as -> by (rewrite <- Hsd; unfold swap_seed; by rewrite Hst). done. }
  destruct (handle_submit_frame (sd_turn sd) w t) as (Hl & F1 & F2 & F3 & F4 & F5).
  destruct (handle_submit_known (sd_turn sd) w t) as [Hdup Hmid]. rewrite Hnew, bool_decide_false in Hdup by (by intros []).
  destruct (F5 Hdup) as [F6 _]. destruct (Hl _ _ Hs) as (regs1 & _ & Hs1).
  destruct (seed_loops_refused (rr_instance_id reg) res events sd w regs1 l (handle_submit (sd_turn sd) w t).2.1 v Hs1 Hr Hns)
    as (why & c' & E1 & [Q1 Q2 Q3 Q4] & _); [rewrite Hsalt, (has_anchor_same (projection t.1)); done|done|done|].
  set (t' := (c', (handle_submit (sd_turn sd) w t).2.2) : T).
  destruct (handle_submit_frame (sd_turn sd) w t') as (_ & G1 & G2 & G3 & _ & _).
  destruct (handle_submit_known (sd_turn sd) w t') as [Hdup' Hmid'].
  rewrite bool_decide_true in Hdup' by (cbn [t' snd]; by apply not_eq_None_Some).
  exists why, t', ((handle_submit (sd_turn sd) w t').2.1, (handle_submit (sd_turn sd) w t').2.2). split_and!.
  - rewrite Hgo by done. unfold admission, cbind at 1. rewrite (surjective_pairing (handle_submit (sd_turn sd) w t)).
    rewrite Hdup. unfold cbind, on_core, czoom. cbn [fst snd]. by rewrite E1.
  - cbn [t' fst]. by rewrite Q4.
  - rewrite Hgo; [|cbn [t' fst]; by rewrite Q3, F3|cbn [t' fst]; by rewrite Q1, F1].
    unfold admission, cbind at 1. rewrite (surjective_pairing (handle_submit (sd_turn sd) w t')). rewrite Hdup'.
    unfold cbind, cret. cbn [fst snd]. by rewrite (proj2 (proj2 (rematerialize_frame roles (sd_turn sd) w (handle_submit (sd_turn sd) w t').2.1)) Hns).
  - cbn [fst]. rewrite (has_anchor_same (projection t.1)); [done|]. rewrite G2. cbn [t' fst]. by rewrite Q2, F2.
Qed.
End Facts.

(** ** Concrete submissions *)
#[local] Existing Instance demo_blake3.
#[local] Existing Instance demo_bincode.
Definition demo_scalars : SerdeScalar := {| json_string := fun _ => None; json_u32 := fun _ => None; json_bool := fun _ => None |}.
#[local] Existing Instance demo_scalars.
Lemma mem_answers `{Blake3} `{!Bincode ToolDef} `{!Bincode ToolProvenance} `{!Bincode (ToolDef * ToolProvenance)}
  `{!Bincode ToolResolutionEvent} (r : InMemoryToolRegistry) : answers r.
Proof.
  intros g w. cbn. unfold mem_resolve. destruct (_ !! _) as [rec|]; [|done]. destruct (reg_status rec); [|done].
  destruct (check_tool_requirement _ _) eqn:E; [done..|]. revert E. unfold check_tool_requirement.
  repeat (destruct (negb _); [done|]). by destruct (_ || _).
Qed.
Definition demo_reg_log : list JournalEntry := (log_append_all [] [RunRegistered (replicate 16 7) (replicate 32 0) 0 0]).2.
Definition demo_registered : Demo :=
  with_core_store (Some {| objects := ∅ |})
    (foldl advance (with_core_journal (mem_journal demo_reg_log) demo_core)
       (log_append_all [] [RunRegistered (replicate 16 7) (replicate 32 0) 0 0]).1).
Lemma demo_registered_sync : in_sync [] demo_reg_log demo_registered.
Proof.
  destruct (batch_follows [] [RunRegistered (replicate 16 7) (replicate 32 0) 0 0] []
    (with_core_journal (mem_journal demo_reg_log) demo_core)) as [[H1 H2 H3 H4 H5] _];
    [apply follows_journal, demo_core_sync|repeat constructor; done|].
  split; [split; try done; exact H1|]. split; [exact H1|exact H2|exact H3|exact H4|exact H5].
Qed.
Definition demo_inbox : Demo * Scheduler LocalPlacement := (demo_registered, Scheduler_new Local).
Definition demo_wrnt : WarrantSpec := demo_warrant 1 FsMode.ReadOnly.
Definition demo_seed : Mote := {|
  Mote.mote_id := demo_id 1;
  def := {| logic_ref := []; Mote.model_id := str "m"; prompt_template_hash := []; tool_contract := ∅; Mote.nd_class := Pure;
            config_subset := <[IMAGE_REF_KEY := str "picture"]> {[PROMPT_KEY := str "look"]};
            Mote.effect_pattern := IdempotentByConstruction; Mote.critic_for := None; Mote.is_topology_shaper := false;
            inference_params := InferenceParams_default; critic_check := None; Mote.schema_version := 5 |};
  input_data_id := []; graph_position := []; Mote.parents := [] |}.
Lemma submission_follows_journal_witness :
  exists r t', submit_and_capture None None tools_new demo_seed demo_wrnt false true demo_inbox = (r, t') /\ r <> Panic.
Proof.
  destruct (submission_follows_journal None None tools_new demo_seed demo_wrnt false true [] demo_reg_log demo_inbox
    {| rr_instance_id := replicate 16 7; rr_recipe_fingerprint := replicate 32 0 |}) as (r & t' & H1 & [H2 _ _ _]).
  - apply mem_answers.
  - exact demo_registered_sync.
  - by vm_compute.
  - vm_compute. reflexivity.
  - exists r, t'. split; [exact H1|exact H2].
Defined.
Lemma refused_submission_changes_nothing_witness :
  submit_and_capture None None tools_new demo_seed demo_wrnt false false (demo_core, Scheduler_new Local)
    = (Err CoordinatorError.RunNotRegistered, (demo_core, Scheduler_new Local))
  /\ (demo_core, Scheduler_new Local) = (demo_core, Scheduler_new Local).
Proof.
  assert (submit_and_capture None None tools_new demo_seed demo_wrnt false false (demo_core, Scheduler_new Local)
    = (Err CoordinatorError.RunNotRegistered, (demo_core, Scheduler_new Local))) as E by reflexivity.
  split; [exact E|]. exact (refused_submission_changes_nothing _ _ _ _ _ _ _ _ _ E).
Defined.
Definition demo_swapped : Seed :=
  let turn := build_chain_turn (str "m") (str "look") 0 (replicate 16 7) (Some (demo_id 1)) 8 in
  {| sd_turn := turn; sd_anchor := react_anchor_clone turn (seed_anchor_cfg demo_seed); sd_caps := (16, 20);
     sd_approval := false; sd_salt := demo_id 1 |}.
Lemma refused_seed_admitted_witness :
  exists why t' (t'' : Demo), submit_and_capture None None tools_new demo_seed demo_wrnt false true demo_inbox
      = (Err (CoordinatorError.ReactSeedRefused why), t')
    /\ (submit_and_capture None None tools_new demo_seed demo_wrnt false true t').1
       = Ok {| so_mote_id := demo_swapped.(sd_turn).(Mote.mote_id); duplicate := true; so_instance_id := Some (replicate 16 7) |}
    /\ has_anchor t''.(projection) (replicate 16 7) (Some (demo_id 1)) = false.
Proof.
  destruct (refused_seed_admitted None None tools_new demo_seed demo_wrnt false [] demo_reg_log demo_inbox
    {| rr_instance_id := replicate 16 7; rr_recipe_fingerprint := replicate 32 0 |} demo_swapped (str "picture")
    (Refusal.Resolved []) []) as (why & t' & t'' & H1 & _ & H2 & H3).
  - exact demo_registered_sync.
  - by vm_compute.
  - vm_compute. reflexivity.
  - vm_compute. reflexivity.
  - vm_compute. reflexivity.
  - reflexivity.
  - exact (lookup_empty (M := gmap bytes) _).
  - vm_compute. reflexivity.
  - vm_compute. reflexivity.
  - vm_compute. reflexivity.
  - exists why, t', t''.1. split; [exact H1|]. split; [rewrite H2; reflexivity|exact H3].
Defined.
