(* ===== verification/Pricing.v ===== *)
(** kx-pricing: the spend a run is estimated at, from its turns and tool calls. *)
From S2P Require Import Prelude Utf8 Digits ParamSchema Text Timers.

Definition DEFAULT_PER_TURN_MICRO_USD : Z := 1000.
Definition DEFAULT_PER_TOOL_CALL_MICRO_USD : Z := 500.
Record PriceBook := { per_turn_micro_usd : Z; per_tool_call_micro_usd : Z }.
Definition PriceBook_default : PriceBook := {|
  per_turn_micro_usd := DEFAULT_PER_TURN_MICRO_USD; per_tool_call_micro_usd := DEFAULT_PER_TOOL_CALL_MICRO_USD |}.
Definition estimate_spend (b : PriceBook) (turns tool_calls : Z) : Z :=
  u64_sat_add (u64_sat_mul turns b.(per_turn_micro_usd)) (u64_sat_mul tool_calls b.(per_tool_call_micro_usd)).
(** [var] is the value of the variable, if it is set. *)
Definition parse_env_u64 (var : option bytes) (dflt : Z) : Z :=
  default dflt (var ≫= fun v => parse_u64 (trim v)).
Definition with_env_overrides (per_turn per_tool_call : option bytes) (b : PriceBook) : PriceBook := {|
  per_turn_micro_usd := parse_env_u64 per_turn b.(per_turn_micro_usd);
  per_tool_call_micro_usd := parse_env_u64 per_tool_call b.(per_tool_call_micro_usd) |}.

(** The rates are of a u64. *)
Definition priced (b : PriceBook) : Prop := u64 b.(per_turn_micro_usd) /\ u64 b.(per_tool_call_micro_usd).
(** More turns or calls never cost less, and the estimate is exact until it saturates. *)
Lemma estimate_mono b t t' k k' : priced b -> 0 <= t <= t' -> 0 <= k <= k' ->
  estimate_spend b t k <= estimate_spend b t' k'.
Proof. intros [[H1 _] [H2 _]] Ht Hk. unfold estimate_spend, u64_sat_add, u64_sat_mul. nia. Qed.
Lemma estimate_exact b t k : priced b -> 0 <= t -> 0 <= k ->
  t * b.(per_turn_micro_usd) + k * b.(per_tool_call_micro_usd) < 2 ^ 64 ->
  estimate_spend b t k = t * b.(per_turn_micro_usd) + k * b.(per_tool_call_micro_usd).
Proof. intros [[H1 _] [H2 _]] Ht Hk Hs. unfold estimate_spend, u64_sat_add, u64_sat_mul. nia. Qed.
