(* ===== verification/React.v ===== *)
(** The agent loop (kx-coordinator state.rs, [settle_react_rounds]): a chain of
    model turns, each decoded once into a frozen branch, whose tool calls run as
    observations before the next turn is built; the chain of an agentic step ends
    by committing the step. *)
From S2P Require Import Prelude Effects Utf8 CriticTypes Mote ContextItems Entry Journal Warrant Content DemoCodec ProjState ProjIndex ProjFold ProjHistory ProjQuery Materializer Scheduler Refusal Checkpoint Recovery Critic NativeCritic Digits ParamSchema Text ToolRegistry Toolcall ToolcallFacts ExactlyOnce Wire Workers Coordinator CoordSync Timers TimerFacts ReactShape Rerank Lease Submit Pricing.
Import JournalEntry.
Import ReactRoundRecord (turn, turn_mote_id, branch).

(** ** Texts *)
(** [Display] of [SchemaError]. *)
Definition schema_error_text (e : SchemaError) : bytes :=
  match e with
  | SchemaError.NotAnObject => str "args are not a JSON object"
  | SchemaError.MissingRequired name => str "missing required parameter `" ++ name ++ str "`"
  | SchemaError.UnknownParam name => str "unknown parameter `" ++ name ++ str "` (deny_unknown)"
  | SchemaError.TypeMismatch name expected => str "parameter `" ++ name ++ str "` is not a " ++ expected
  | SchemaError.OutOfRange name => str "parameter `" ++ name ++ str "` is out of range"
  | SchemaError.TooLong name max => str "parameter `" ++ name ++ str "` exceeds max length " ++ decimal (Z.of_nat max)
  | SchemaError.NotAllowed name => str "parameter `" ++ name ++ str "` is not an allowed value"
  | SchemaError.Malformed diagnostic => str "malformed args: " ++ diagnostic
  end.
Definition decode_error_reason (e : CallError) : bytes :=
  match e with
  | CallError.Malformed diagnostic => str "the tool proposal was malformed: " ++ diagnostic
  | CallError.UngrantedTool name version => str "the proposed tool `" ++ name ++ str "@" ++ version ++ str "` is not granted to this run"
  | CallError.Ambiguous name candidates =>
      str "the tool name `" ++ name ++ str "` is ambiguous — use the full id: " ++ join (str " OR ") candidates
  | CallError.Oversize got max =>
      str "the proposed tool arguments are too large (" ++ decimal (Z.of_nat got) ++ str " bytes > " ++ decimal max ++ str " max)"
  end.
(** kx-journal entry.rs *)
Definition class_phrase (reason : option FailureReason) : bytes :=
  match reason with
  | Some FailureReason.ExecutorRefused => str "the runtime refused to dispatch it"
  | Some FailureReason.UnsafeWorldMutatingConstruction => str "the runtime refused it as an unsafe world-mutating construction"
  | Some FailureReason.ValidatorRejected => str "its result failed validation"
  | Some FailureReason.UpstreamRepudiated => str "an input it depended on was withdrawn"
  | Some FailureReason.CompensatedAtLeastOnce => str "it could not be completed safely and was rolled back"
  | Some FailureReason.QuarantinedAtLeastOnce => str "it could not be completed safely and was quarantined for review"
  | _ => str "it failed to run"
  end.
Definition observation_failure_reason (tool_id tool_version : bytes) (reason : option FailureReason) (detail : bytes) : bytes :=
  let lead := str "the tool `" ++ tool_id ++ str "@" ++ tool_version ++ str "` was called but did not complete — "
              ++ class_phrase reason in
  if bool_decide (detail = [])
  then lead ++ str ". Do not call it again with the same arguments; use a "
       ++ str "different tool or different arguments, or answer with what you already have."
  else lead ++ str ": " ++ detail ++ str ". Use that reason to decide what to do next — correct "
       ++ str "the arguments and call it again, use a different tool, or answer with what you already have.".

(** ** Budgets, from the recorded branches *)
Definition call_units (b : ReactBranch) : nat :=
  match b with
  | ReactBranch.Tool _ _ | ReactBranch.Rejected _ => 1
  | ReactBranch.ToolBatch calls => length calls
  | _ => 0
  end.
Definition spent_calls (rounds : list ReactRoundRecord) : Z :=
  u32_of_len (sum_list ((fun r => call_units r.(branch)) <$> rounds)).
Definition u32_sat_add (a b : Z) : Z := Z.min (2 ^ 32 - 1) (a + b).
Definition react_projected_spend_micro_usd (book : PriceBook) (rounds : list ReactRoundRecord) (turn pending_calls : Z) : Z :=
  estimate_spend book (u32_sat_add turn 1) (u32_sat_add (spent_calls rounds) pending_calls).
Definition over_budget (anchor : ReactRoundRecord) (tool_calls turns_used : Z) : bool :=
  (anchor.(ReactRoundRecord.max_tool_calls) <=? tool_calls) || (anchor.(ReactRoundRecord.max_turns) <=? turns_used).
Definition near_budget (anchor : ReactRoundRecord) (tool_calls turns_used : Z) : bool :=
  over_budget anchor (u32_sat_add tool_calls 1) (u32_sat_add turns_used 1).
(** The latest record of a turn, and the reason it was refused for. *)
Definition last_of_turn (rounds : list ReactRoundRecord) (t : Z) : option ReactRoundRecord :=
  max_by (fun a b => Z.compare a.(ReactRoundRecord.seq) b.(ReactRoundRecord.seq))
    (List.filter (fun r => r.(turn) =? t) rounds).
Definition reject_reason (r : ReactRoundRecord) : option bytes :=
  match r.(branch) with ReactBranch.Rejected reason => Some reason | _ => None end.
Definition turn_zero (rounds : list ReactRoundRecord) : option ReactRoundRecord :=
  List.find (fun r => r.(turn) =? 0) rounds.
Definition frontier (rounds : list ReactRoundRecord) : option ReactRoundRecord :=
  max_by (fun a b => then_cmp (Z.compare a.(turn) b.(turn))
                       (Z.compare a.(ReactRoundRecord.seq) b.(ReactRoundRecord.seq))) rounds.
Definition fired (b : ReactBranch) : bool :=
  match b with ReactBranch.Tool _ _ | ReactBranch.ToolBatch _ => true | _ => false end.
(** A failure after which the Mote may still commit. *)
Definition crash_retryable (s : State) (id : MoteId) : bool :=
  bool_decide (state_of_id s id = MoteState.Failed)
  && match failure_reason_of s id with None => true | Some r => is_pre_commit_crash r end.
Definition tool_needs_approval (class : option IdempotencyClass) : bool :=
  match class with Some IdempotencyClass.Staged | Some IdempotencyClass.AtLeastOnce => true | _ => false end.

Inductive ReactChainStatus := Active | Settled.
#[export] Instance ReactChainStatus_eq_dec : EqDecision ReactChainStatus.
Proof. solve_decision. Defined.
Abbreviation ChainKey := (bytes * option bytes)%type.
Record ReactSettleCache := { seen_facts : nat; active : list ChainKey; settled : gset ChainKey }.
Definition ReactSettleCache_default : ReactSettleCache := {| seen_facts := 0; active := []; settled := ∅ |}.
(** The variables of the environment that the passes read. *)
Record ServeEnv := {
  env_rerank : option bytes; env_approval : option bytes; env_per_turn : option bytes; env_per_tool_call : option bytes }.
Definition price_book (env : ServeEnv) : PriceBook :=
  with_env_overrides env.(env_per_turn) env.(env_per_tool_call) PriceBook_default.
(** The chains of the nested index, in the order of its keys: the salt of a chain
    is an [Option], and [None] comes first. *)
Definition salt_key (x : option bytes) : bytes := match x with None => [] | Some s => 0 :: s end.
Definition salt_le (a b : option bytes) : Prop := bytes_le (salt_key a) (salt_key b) = true.
#[export] Instance salt_le_dec : RelDecision salt_le.
Proof. intros a b. unfold salt_le. apply _. Defined.
Definition react_chain_keys (s : State) : list ChainKey :=
  concat ((fun x : bytes * gmap (option bytes) (list nat) =>
             (fun salt => (x.1, salt)) <$> merge_sort salt_le ((map_to_list x.2).*1))
          <$> btree_iter s.(react_index)).

Section React.
Context `{HB : Blake3} `{!Bincode MoteDef} `{!Bincode WarrantSpec} `{!Bincode TopologyDecision}.
Context `{HSJ : SerdeJson} `{HTJ : ToolcallJson} `{HSC : SerdeScalar} `{HSV : SerdeValue}.
Context {J S R : Type} `{!Journal J} `{!ContentStore S} `{!ToolRegistry R}.
(** [str::to_lowercase] of Unicode. *)
Context (to_lowercase : bytes -> bytes).
Abbreviation C := (Core J S).
Abbreviation M := (comp C).

(** ** Facts of a chain *)
Definition chain_rounds {E} (instance_id : bytes) (step_salt : option bytes) : M (list ReactRoundRecord) E := fun c =>
  match react_rounds_of c.(projection) instance_id step_salt with
  | Ok rs => (Ok rs, c)
  | _ => (Panic, c)
  end.
Definition branch_entry (anchor : ReactRoundRecord) (id : MoteId) (t : Z) (b : ReactBranch) : JournalEntry :=
  ReactRound t id anchor.(ReactRoundRecord.instance_id) anchor.(ReactRoundRecord.base_prompt_ref)
    anchor.(ReactRoundRecord.warrant_ref) anchor.(ReactRoundRecord.model_id) b anchor.(ReactRoundRecord.max_turns)
    anchor.(ReactRoundRecord.max_tool_calls) anchor.(ReactRoundRecord.step_salt) anchor.(ReactRoundRecord.is_agentic_launch)
    anchor.(ReactRoundRecord.context_items_ref) anchor.(ReactRoundRecord.image_ref) anchor.(ReactRoundRecord.require_approval) 0.
Definition append_react_branch {E} (anchor : ReactRoundRecord) (id : MoteId) (t : Z) (b : ReactBranch) : M unit E :=
  do! rounds := chain_rounds anchor.(ReactRoundRecord.instance_id) anchor.(ReactRoundRecord.step_salt) in
  if existsb (fun r => (r.(turn) =? t) && bool_decide (r.(branch) = b)) rounds then cret tt
  else append_then (branch_entry anchor id t b) (fun c => c).

(** ** The next turn *)
(** What a branch at the end of the budget is dead-lettered for. *)
Definition answerless (b : ReactBranch) : bool :=
  match b with ReactBranch.Rejected _ | ReactBranch.Tool _ _ | ReactBranch.ToolBatch _ => true | _ => false end.
Definition next_turn_mote (anchor : ReactRoundRecord) (instruction : bytes) (t : Z) (warrant : WarrantSpec) : Mote :=
  build_chain_turn anchor.(ReactRoundRecord.model_id) instruction t anchor.(ReactRoundRecord.instance_id)
    anchor.(ReactRoundRecord.step_salt) warrant.(WarrantSpec.model_route).(ModelRoute.max_output_tokens).
Definition advance_react_chain {E} (anchor : ReactRoundRecord) (rounds : list ReactRoundRecord) (t : Z)
    : M ReactChainStatus E := fun c =>
  if existsb (fun r => r.(turn) =? t + 1) rounds then (Ok Active, c)
  else
    let tool_calls := spent_calls rounds in
    let turns_used := u32_sat_add t 1 in
    let prev_round := last_of_turn rounds t in
    if over_budget anchor tool_calls turns_used
    then
      match prev_round with
      | Some r => if answerless r.(branch)
                  then (do! _ := append_react_branch anchor r.(turn_mote_id) t ReactBranch.DeadLettered in cret Settled) c
                  else (Ok Settled, c)
      | None => (Ok Settled, c)
      end
    else
      match core_get anchor.(ReactRoundRecord.base_prompt_ref) c with
      | None => (Ok Active, c)
      | Some instruction =>
          if negb (utf8_valid instruction) then (Ok Settled, c)
          else
            match core_get anchor.(ReactRoundRecord.warrant_ref) c ≫= decode_warrant with
            | None => (Ok Active, c)
            | Some warrant =>
                let rendered := render_turn_instruction instruction (prev_round ≫= reject_reason)
                                  (near_budget anchor tool_calls turns_used) in
                let next := next_turn_mote anchor rendered (t + 1) warrant in
                (do! _ := append_react_branch anchor next.(Mote.mote_id) (t + 1) ReactBranch.Pending in
                 fun c => (Ok Active, materialize_react_turn next anchor.(ReactRoundRecord.warrant_ref) warrant c)) c
            end
      end.

(** ** The observations of a frozen tool decision *)
Definition materialize_react_tool (obs : Mote) (warrant_ref : ContentRef) (warrant : WarrantSpec) (c : C) : C :=
  let c := persist_def obs.(def) c in
  let c := with_projection (register_mote {|
             RegisterMote.mote_id := obs.(Mote.mote_id); RegisterMote.nd_class := obs.(def).(Mote.nd_class);
             RegisterMote.effect_pattern := obs.(def).(Mote.effect_pattern); RegisterMote.critic_for := None;
             RegisterMote.is_topology_shaper := false; RegisterMote.parents := obs.(Mote.parents);
             RegisterMote.warrant_ref := warrant_ref |} c.(projection)) c in
  with_dispatch (fun d => set_defs <[obs.(Mote.mote_id) := (obs, warrant)]>
                            (set_submitted ({[obs.(Mote.mote_id)]} ∪.) d)) c.
(** [dispatch.submitted.remove(..); dispatch.defs.remove(..); dispatch.tracker.resolve_committed(..)] *)
Definition drop_work (id : MoteId) (d : Dispatch) : Dispatch :=
  set_tracker (fun t => resolve_committed t id) (set_defs (delete id) (set_submitted (.∖ {[id]}) d)).
Definition chain_dead {E} (anchor : ReactRoundRecord) (id : MoteId) (t : Z) (after : C -> C) : M (ReactChainStatus + bool) E :=
  do! _ := append_react_branch anchor id t ReactBranch.DeadLettered in fun c => (Ok (inl Settled), after c).
(** One call of the decision: [inl] ends the pass over the chain, [inr] says whether
    its observation has landed. [now] is the clock reading of the call's gate. *)
Definition progress_call {E} (tools : R) (now : MoteId -> Z) (anchor : ReactRoundRecord) (t : Z) (turn_id : MoteId)
    (warrant : WarrantSpec) (i : nat) (call : bytes * bytes) : M (ReactChainStatus + bool) E := fun c =>
  let '(tool_id, tool_version) := call in
  let obs := build_chain_tool anchor.(ReactRoundRecord.model_id) tool_id tool_version t anchor.(ReactRoundRecord.instance_id)
               anchor.(ReactRoundRecord.step_salt) (u32_of_len i) turn_id in
  let obs_id := obs.(Mote.mote_id) in
  let obs_state := state_of_id c.(projection) obs_id in
  if bool_decide (obs_state = MoteState.Committed) then (Ok (inr true), c)
  else if is_terminal obs_state
  then
    if crash_retryable c.(projection) obs_id then (Ok (inl Active), c)
    else
      let reason := bounded_reason (observation_failure_reason tool_id tool_version (failure_reason_of c.(projection) obs_id)
                                      (failure_detail_of c.(projection) obs_id)) in
      (do! _ := append_react_branch anchor turn_id t (ReactBranch.Rejected reason) in cret (inl Active)) c
  else
    (do! permanent := cask (fun c =>
       if is_leased c.(dispatched).(tracker) obs_id then Ok false
       else match resolve_tool_args obs warrant c.(projection) c.(core_store) tools with
            | Ok (Permanent _) => Ok true
            | Ok _ => Ok false
            | _ => Panic
            end) in
     if (permanent : bool) then chain_dead anchor turn_id t (with_dispatch (drop_work obs_id))
     else
       do! gate := (if anchor.(ReactRoundRecord.require_approval)
                       && tool_needs_approval (ToolDef.idempotency_class <$> lookup_tool tools tool_id tool_version)
                    then approval_gate_decision (now obs_id) anchor.(ReactRoundRecord.instance_id) obs_id tool_id tool_version
                    else cret Proceed) in
       match gate with
       | Wait => cret (inr false)
       | DeadLetter => chain_dead anchor turn_id t (fun c => c)
       | Proceed => fun c => (Ok (inr false), materialize_react_tool obs anchor.(ReactRoundRecord.warrant_ref) warrant c)
       end) c.
Fixpoint progress_calls {E} (tools : R) (now : MoteId -> Z) (anchor : ReactRoundRecord) (t : Z) (turn_id : MoteId)
    (warrant : WarrantSpec) (i : nat) (all_committed : bool) (calls : list (bytes * bytes)) : M (ReactChainStatus + bool) E :=
  match calls with
  | [] => cret (inr all_committed)
  | call :: calls =>
      do! r := progress_call tools now anchor t turn_id warrant i call in
      match r with
      | inl status => cret (inl status)
      | inr landed => progress_calls tools now anchor t turn_id warrant (Datatypes.S i) (all_committed && landed) calls
      end
  end.
Definition progress_tool_batch {E} (env : ServeEnv) (tools : R) (now : MoteId -> Z) (anchor : ReactRoundRecord)
    (rounds : list ReactRoundRecord) (t : Z) (turn_id : MoteId) (calls : list (bytes * bytes)) : M ReactChainStatus E := fun c =>
  match core_get anchor.(ReactRoundRecord.warrant_ref) c ≫= decode_warrant with
  | None => (Ok Active, c)
  | Some warrant =>
      let ceiling := warrant.(WarrantSpec.cost_ceiling).(CostCeiling.micro_usd) in
      if (0 <? ceiling) && (ceiling <? react_projected_spend_micro_usd (price_book env) rounds t 0)
      then (do! _ := append_react_branch anchor turn_id t ReactBranch.DeadLettered in cret Settled) c
      else
        (do! r := progress_calls tools now anchor t turn_id warrant 0 true calls in
         match r with
         | inl status => cret status
         | inr false => cret Active
         | inr true =>
             do! waits := maybe_gate_on_rerank env.(env_rerank) anchor t turn_id calls in
             if (waits : bool) then cret Active else advance_react_chain anchor rounds t
         end) c
  end.

(** ** Decoding a committed turn *)
Fixpoint validated_calls (tools : R) (calls : list ToolCall) : outcome (list (bytes * bytes) + bytes) unit :=
  match calls with
  | [] => Ok (inl [])
  | call :: calls =>
      let name := str "`" ++ call.(call_name) ++ str "@" ++ call.(call_version) ++ str "`" in
      match lookup_tool tools call.(call_name) call.(call_version) with
      | None => Ok (inr (str "the proposed tool " ++ name ++ str " is not granted to this run or is no longer registered"))
      | Some d =>
          let next := let* r := validated_calls tools calls in
                      Ok (match r with inl vs => inl ((call.(call_name), call.(call_version)) :: vs) | inr why => inr why end) in
          match d.(ToolDef.input_schema) with
          | None => next
          | Some schema =>
              match validate_args schema call.(args_bytes) with
              | Ok _ => next
              | Err e => Ok (inr (str "the arguments for " ++ name ++ str " do not match its inputSchema: " ++ schema_error_text e
                                  ++ str ". Expected this shape: " ++ example_args_json schema))
              | Panic => Panic
              end
          end
      end
  end.
Definition rejected (reason : bytes) : ReactBranch := ReactBranch.Rejected (bounded_reason reason).
Definition settle_calls_to_branch (calls : list ToolCall) (raw : bytes) (warrant : WarrantSpec) (tools : R)
    : outcome ReactBranch unit :=
  match calls with
  | [] =>
      Ok (if looks_like_an_attempted_tool_call raw warrant then rejected unreadable_tool_call_reason
          else if answer_is_a_continuation to_lowercase raw warrant then rejected continuation_answer_reason
          else ReactBranch.Answer)
  | _ =>
      let* r := validated_calls tools calls in
      Ok (match r with
          | inr why => rejected why
          | inl [(tool_id, tool_version)] => ReactBranch.Tool tool_id tool_version
          | inl validated =>
              if (MAX_TOOL_BATCH_CALLS <? length validated)%nat
              then rejected (str "the model proposed " ++ decimal (Z.of_nat (length validated))
                             ++ str " tool calls in one turn, exceeding the per-turn batch cap of "
                             ++ decimal (Z.of_nat MAX_TOOL_BATCH_CALLS))
              else ReactBranch.ToolBatch validated
          end)
  end.
(** The calls the earlier turns of the chain fired, decoded again. *)
Definition calls_of_turn (store : S) (s : State) (warrant : WarrantSpec) (r : ReactRoundRecord) : outcome (list ToolCall) unit :=
  match result_ref_of s r.(turn_mote_id) ≫= get store with
  | None => Ok []
  | Some raw => match parse_tool_calls raw warrant (max_args_bytes warrant) with
                | Ok calls => Ok calls
                | Err _ => Ok []
                | Panic => Panic
                end
  end.
Fixpoint calls_of_turns (store : S) (s : State) (warrant : WarrantSpec) (rs : list ReactRoundRecord) : outcome (list ToolCall) unit :=
  match rs with
  | [] => Ok []
  | r :: rs => let* calls := calls_of_turn store s warrant r in
               let* more := calls_of_turns store s warrant rs in
               Ok (calls ++ more)
  end.
Definition collect_prior_fired_calls (store : S) (s : State) (rounds : list ReactRoundRecord) (this_turn : Z)
    (warrant : WarrantSpec) : outcome (list ToolCall) unit :=
  calls_of_turns store s warrant
    (merge_sort turn_le (foldl (flip put_turn) []
       (List.filter (fun r => (r.(turn) <? this_turn) && fired r.(branch)) rounds))).
(** The branch a committed turn is frozen to. *)
Definition decide_branch (store : S) (s : State) (rounds : list ReactRoundRecord) (t : Z) (raw : bytes)
    (warrant : WarrantSpec) (tools : R) : outcome ReactBranch unit :=
  match parse_tool_calls raw warrant (max_args_bytes warrant) with
  | Ok calls =>
      let* duplicate := match calls with
                        | [call] => let* prior := collect_prior_fired_calls store s rounds t warrant in
                                    Ok (if is_duplicate_call call prior then Some call else None)
                        | _ => Ok None
                        end in
      match duplicate with
      | Some call => Ok (rejected (duplicate_call_reason call))
      | None => settle_calls_to_branch calls raw warrant tools
      end
  | Err e => Ok (rejected (decode_error_reason e))
  | Panic => Panic
  end.

(** ** One pass over a chain *)
Definition drive_pending {E} (env : ServeEnv) (tools : R) (now : MoteId -> Z) (instance_id : bytes)
    (step_salt : option bytes) (anchor latest : ReactRoundRecord) (rounds : list ReactRoundRecord)
    : M ReactChainStatus E := fun c =>
  let t := latest.(turn) in
  let id := latest.(turn_mote_id) in
  let turn_state := state_of_id c.(projection) id in
  if negb (is_terminal turn_state) then (Ok Active, c)
  else if negb (bool_decide (turn_state = MoteState.Committed))
  then
    if crash_retryable c.(projection) id then (Ok Active, c)
    else (do! _ := append_react_branch anchor id t ReactBranch.DeadLettered in cret Settled) c
  else
    match c.(core_store), result_ref_of c.(projection) id ≫= (fun r => core_get r c),
          core_get anchor.(ReactRoundRecord.warrant_ref) c ≫= decode_warrant with
    | Some store, Some raw, Some warrant =>
        match decide_branch store c.(projection) rounds t raw warrant tools with
        | Ok b =>
            (do! _ := append_react_branch anchor id t b in
             match b with
             | ReactBranch.Tool tool_id tool_version =>
                 do! rounds := chain_rounds instance_id step_salt in
                 progress_tool_batch env tools now anchor rounds t id [(tool_id, tool_version)]
             | ReactBranch.ToolBatch calls =>
                 do! rounds := chain_rounds instance_id step_salt in
                 progress_tool_batch env tools now anchor rounds t id calls
             | ReactBranch.Rejected _ =>
                 do! rounds := chain_rounds instance_id step_salt in advance_react_chain anchor rounds t
             | _ => cret Settled
             end) c
        | _ => (Panic, c)
        end
    | _, _, _ => (Ok Active, c)
    end.
Definition drive_react_chain {E} (env : ServeEnv) (tools : R) (now : MoteId -> Z) (instance_id : bytes)
    (step_salt : option bytes) : M ReactChainStatus E :=
  do! rounds := chain_rounds instance_id step_salt in
  match turn_zero rounds, frontier rounds with
  | Some anchor, Some latest =>
      let t := latest.(turn) in
      match latest.(branch) with
      | ReactBranch.Answer | ReactBranch.DeadLettered => cret Settled
      | ReactBranch.Rejected _ => advance_react_chain anchor rounds t
      | ReactBranch.Tool tool_id tool_version =>
          progress_tool_batch env tools now anchor rounds t latest.(turn_mote_id) [(tool_id, tool_version)]
      | ReactBranch.ToolBatch calls => progress_tool_batch env tools now anchor rounds t latest.(turn_mote_id) calls
      | ReactBranch.Pending => drive_pending env tools now instance_id step_salt anchor latest rounds
      end
  | _, _ => cret Settled
  end.

(** ** The step a chain was launched for *)
Definition chain_is_agentic_launch {E} (instance_id : bytes) (step_salt : option bytes) : M bool E :=
  do! rounds := chain_rounds instance_id step_salt in
  cret (match turn_zero rounds with Some r => r.(ReactRoundRecord.is_agentic_launch) | None => false end).
Definition retire_launch (id : MoteId) (d : Dispatch) : Dispatch := drop_work id (set_launches (delete id) d).
Definition commit_agentic_launch {E} (launch : Mote) (warrant : WarrantSpec) (result_ref : ContentRef) : M unit E :=
  append_then (committed_subject launch warrant result_ref) (with_dispatch (retire_launch launch.(Mote.mote_id))).
Definition dead_letter_agentic_launch {E} (launch_id : MoteId) : M unit E :=
  append_then (dead_lettered_entry launch_id) (with_dispatch (retire_launch launch_id)).
Definition answer_turn (rounds : list ReactRoundRecord) : option MoteId :=
  turn_mote_id <$> max_by (fun a b => Z.compare a.(turn) b.(turn))
                     (List.filter (fun r => bool_decide (r.(branch) = ReactBranch.Answer)) rounds).
(** What is committed for the answer: the turn's result, or the text of its envelope. *)
Definition served_ref (result_ref : ContentRef) (raw : bytes) (c : C) : ContentRef * C :=
  match answer_arm raw with
  | None => (result_ref, c)
  | Some unwrapped => let '(r, c) := store_write unwrapped c in (default result_ref r, c)
  end.
Definition finalize_agentic_launch {E} (instance_id step_salt : bytes) : M ReactChainStatus E := fun c =>
  if is_terminal (state_of_id c.(projection) step_salt) then (Ok Settled, c)
  else
    match c.(dispatched).(defs) !! step_salt with
    | None => (Ok Active, c)
    | Some (launch, warrant) =>
        (do! rounds := chain_rounds instance_id (Some step_salt) in
         match answer_turn rounds with
         | None => do! _ := dead_letter_agentic_launch step_salt in cret Settled
         | Some id => fun c =>
             match result_ref_of c.(projection) id with
             | None => (Ok Active, c)
             | Some result_ref =>
                 match core_get result_ref c with
                 | None => (Ok Active, c)
                 | Some raw =>
                     let '(served, c) := served_ref result_ref raw c in
                     (do! _ := commit_agentic_launch launch warrant served in cret Settled) c
                 end
             end
         end) c
    end.
Definition settle_react_chain {E} (env : ServeEnv) (tools : R) (now : MoteId -> Z) (instance_id : bytes)
    (step_salt : option bytes) : M ReactChainStatus E :=
  do! status := drive_react_chain env tools now instance_id step_salt in
  match step_salt, status with
  | Some salt, Settled =>
      do! agentic := chain_is_agentic_launch instance_id (Some salt) in
      if (agentic : bool) then finalize_agentic_launch instance_id salt else cret status
  | _, _ => cret status
  end.

(** ** Launching the chain of a step *)
Definition unpark_launch (id : MoteId) (c : C) : C := with_dispatch (set_launches (delete id)) c.
Definition anchor_launch (launch_id : MoteId) (instance_id : bytes) (launch : Mote) (warrant : WarrantSpec)
    (instruction : bytes) (caps : Z * Z) (approval : bool) (c : C) : outcome unit unit * C :=
  let turn0 := build_agentic_turn launch.(def).(Mote.model_id) instruction 0 instance_id launch_id
                 warrant.(WarrantSpec.model_route).(ModelRoute.max_output_tokens) in
  match write_react_anchor instance_id (Some launch_id) true turn0 warrant caps.1 caps.2 approval c with
  | (Ok _, c) => (Ok tt, unpark_launch launch_id
                           (materialize_react_turn turn0 (Warrant.warrant_ref_of warrant) warrant c))
  | (Err _, c) => (Ok tt, c)
  | (Panic, c) => (Panic, c)
  end.
Definition settle_launch (env : ServeEnv) (x : MoteId * bytes) : M unit unit := fun c =>
  let '(launch_id, instance_id) := x in
  match c.(dispatched).(defs) !! launch_id with
  | None => (Ok tt, unpark_launch launch_id c)
  | Some (launch, warrant) =>
      if negb (bool_decide (state_of_id c.(projection) launch_id = MoteState.Pending)) then (Ok tt, unpark_launch launch_id c)
      else
        let '(all_committed, parent_terminally_failed) := scan_parents c.(projection) true launch.(Mote.parents) in
        if parent_terminally_failed
        then (do! _ := dead_letter_agentic_launch launch_id in modify (unpark_launch launch_id)) c
        else if negb all_committed then (Ok tt, c)
        else
          (do! rounds := chain_rounds instance_id (Some launch_id) in
           if existsb (fun r => r.(turn) =? 0) rounds then modify (unpark_launch launch_id)
           else
             match react_seed_params env.(env_approval) launch with
             | Ok (instruction, caps, approval) => anchor_launch launch_id instance_id launch warrant instruction caps approval
             | Err _ => do! _ := dead_letter_agentic_launch launch_id in modify (unpark_launch launch_id)
             | Panic => clift Panic
             end) c
  end.
Definition settle_agentic_launches (env : ServeEnv) : M unit unit := fun c =>
  match c.(core_store) with
  | None => (Ok tt, c)
  | Some _ => each (settle_launch env) (btree_iter c.(dispatched).(parked_launches)) c
  end.

(** ** All chains *)
Fixpoint settle_chains {E} (env : ServeEnv) (tools : R) (now : MoteId -> Z) (keys : list ChainKey)
    : M (list ChainKey * list ChainKey) E :=
  match keys with
  | [] => cret ([], [])
  | key :: keys =>
      do! status := settle_react_chain env tools now key.1 key.2 in
      do! rest := settle_chains env tools now keys in
      cret (match status with Settled => (rest.1, key :: rest.2) | Active => (key :: rest.1, rest.2) end)
  end.
Definition refreshed (s : State) (cache : ReactSettleCache) : list ChainKey :=
  if (length s.(react_rounds) =? cache.(seen_facts))%nat then cache.(active)
  else List.filter (fun key => negb (bool_decide (key ∈ cache.(settled)))) (react_chain_keys s).
Definition settle_react_rounds {E} (env : ServeEnv) (tools : R) (now : MoteId -> Z) (cache : ReactSettleCache)
    : M ReactSettleCache E := fun c =>
  if negb (has_react_turn c.(projection)) then (Ok cache, c)
  else
    match c.(core_store) with
    | None => (Ok cache, c)
    | Some _ =>
        (do! r := settle_chains env tools now (refreshed c.(projection) cache) in
         cask (fun c => Ok {| seen_facts := length c.(projection).(react_rounds); active := r.1;
                              settled := cache.(settled) ∪ list_to_set r.2 |})) c
    end.

(** ** Recovery *)
(** The turn of a pending frontier, built again from the recorded rounds. *)
Definition rebuilt_turn (rounds : list ReactRoundRecord) (latest : ReactRoundRecord) (instruction : bytes) (instance_id : bytes)
    (step_salt : option bytes) (warrant : WarrantSpec) : Mote :=
  let prior := List.filter (fun r => r.(turn) <? latest.(turn)) rounds in
  let near := over_budget latest (u32_sat_add (spent_calls prior) 1) (u32_sat_add latest.(turn) 1) in
  let prev_reject := if latest.(turn) =? 0 then None
                     else last_of_turn prior (latest.(turn) - 1) ≫= reject_reason in
  build_chain_turn latest.(ReactRoundRecord.model_id) (render_turn_instruction instruction prev_reject near) latest.(turn)
    instance_id step_salt warrant.(WarrantSpec.model_route).(ModelRoute.max_output_tokens).
Definition recover_chain {E} (key : ChainKey) : M unit E := fun c =>
  let '(instance_id, step_salt) := key in
  (do! rounds := chain_rounds instance_id step_salt in
   fun c =>
   match frontier rounds with
   | None => (Ok tt, c)
   | Some latest =>
       if negb (bool_decide (latest.(branch) = ReactBranch.Pending))
          || is_terminal (state_of_id c.(projection) latest.(turn_mote_id)) then (Ok tt, c)
       else
         match core_get latest.(ReactRoundRecord.base_prompt_ref) c,
               core_get latest.(ReactRoundRecord.warrant_ref) c ≫= decode_warrant with
         | Some instruction, Some warrant =>
             if negb (utf8_valid instruction) then (Ok tt, c)
             else
               let rebuilt := rebuilt_turn rounds latest instruction instance_id step_salt warrant in
               if bool_decide (rebuilt.(Mote.mote_id) = latest.(turn_mote_id))
               then (Ok tt, materialize_react_turn rebuilt latest.(ReactRoundRecord.warrant_ref) warrant c)
               else (Ok tt, c)
         | _, _ => (Ok tt, c)
         end
   end) c.
Definition recover_react_chain {E} (env : ServeEnv) (tools : R) (now : MoteId -> Z) (cache : ReactSettleCache)
    : M ReactSettleCache E := fun c =>
  if negb (has_react_turn c.(projection)) then (Ok cache, c)
  else
    match c.(core_store) with
    | None => (Ok cache, c)
    | Some _ => (do! _ := each recover_chain (react_chain_keys c.(projection)) in settle_react_rounds env tools now cache) c
    end.
End React.
