(* ===== verification/ReactFacts.v ===== *)
(** What the agent loop promises: a frozen tool decision is granted, registered and
    well-formed and resolves again when its observation is leased; a chain stays
    within its budget; a restart rebuilds the turn in flight; every pass keeps the
    coordinator in step with its journal. *)
From S2P Require Import Prelude Effects Utf8 CriticTypes Mote ContextItems Entry Journal Warrant Content DemoCodec ProjState ProjIndex ProjFold ProjHistory ProjQuery Materializer Scheduler Refusal Checkpoint Recovery Critic NativeCritic Digits ParamSchema Text ToolRegistry ToolStore Toolcall ToolcallFacts ExactlyOnce Wire Workers Coordinator CoordSync Cascade Timers TimerFacts ReactShape Rerank RerankFacts Lease LeaseFacts Submit SubmitFacts Pricing React.
Import JournalEntry.
Import ReactRoundRecord (turn, turn_mote_id, branch).

Lemma bounded_reason_bound r : utf8_valid r = true -> (length (chars (bounded_reason r)) <= MAX_REJECTED_REASON_LEN)%nat.
Proof.
  unfold bounded_reason. destruct (Nat.leb_spec (length (chars r)) MAX_REJECTED_REASON_LEN); [done|]. intros Hv.
  unfold chars in *. unfold utf8_valid in Hv. destruct (utf8_chars r) as [cs|] eqn:E; [|done]. cbn [from_option id] in *.
  apply utf8_chars_sound in E as [Hc _]. rewrite utf8_chars_concat by (by apply Forall_take). unfold from_option, Datatypes.id. rewrite length_take. apply Nat.le_min_l.
Qed.

Section Decisions.
Context `{HB : Blake3} `{!Bincode MoteDef} `{!Bincode WarrantSpec} `{!Bincode TopologyDecision}.
Context `{HSJ : SerdeJson} `{HTJ : ToolcallJson} `{HSC : SerdeScalar} `{HSV : SerdeValue}.
Context {J S R : Type} `{!Journal J} `{!ContentStore S} `{!ToolRegistry R}.
Context (to_lowercase : bytes -> bytes).

(** ** What a turn is frozen to *)
(** A call the registry has a tool for, which takes its arguments. *)
Definition fireable (tools : R) (call : ToolCall) : Prop :=
  exists d, fires tools call.(call_name) call.(call_version) d call.(args_bytes).
Definition named (call : ToolCall) : bytes * bytes := (call.(call_name), call.(call_version)).
Lemma validated_calls_spec (tools : R) calls : exists r, validated_calls tools calls = Ok r
  /\ match r with inl vs => vs = named <$> calls /\ Forall (fireable tools) calls | inr _ => True end.
Proof.
  induction calls as [|call calls (r & IH & Hr)]; [by exists (inl [])|]. cbn [validated_calls].
  destruct (lookup_tool _ _ _) as [d|] eqn:Hl; [|by eexists]. rewrite IH. cbn [obind].
  assert (Hnext : (forall schema, d.(ToolDef.input_schema) = Some schema -> validate_args schema call.(args_bytes) = Ok tt) ->
    exists r', Ok (E := unit) (match r with inl vs => inl (named call :: vs) | inr why => inr why end) = Ok r'
      /\ match r' with inl vs => vs = named <$> call :: calls /\ Forall (fireable tools) (call :: calls) | inr _ => True end).
  { intros Hs. destruct r as [vs|why]; [|by eexists]. destruct Hr as [-> Hf]. eexists. split; [done|]. cbn. split; [done|].
    constructor; [by exists d|done]. }
  destruct (ToolDef.input_schema d) as [schema|] eqn:Hs; [|by apply Hnext].
  pose proof (validate_args_total schema (args_bytes call)) as Ht.
  destruct (validate_args _ _) as [[]|e|] eqn:Hv; [apply Hnext; congruence|by eexists|done].
Qed.
Lemma calls_of_turns_total (store : S) s w rs : exists cs, calls_of_turns store s w rs = Ok cs.
Proof.
  induction rs as [|r rs [cs IH]]; [by eexists|]. cbn [calls_of_turns]. unfold calls_of_turn.
  destruct (_ ≫= _) as [raw|]; cbn [obind]; rewrite ?IH; [|by eexists].
  pose proof (parse_tool_calls_granted raw w (max_args_bytes w)) as Hy.
  destruct (parse_tool_calls _ _ _); cbn [obind]; rewrite ?IH; [by eexists..|done].
Qed.
(** What is known of a turn's output once its branch is recorded. *)
Definition decided (store : S) (s : State) (rounds : list ReactRoundRecord) (t : Z) (raw : bytes) (w : WarrantSpec) (tools : R)
    (b : ReactBranch) : Prop :=
  match b with
  | ReactBranch.Tool i v => exists call prior,
      parse_tool_calls raw w (max_args_bytes w) = Ok [call] /\ named call = (i, v)
      /\ granted w (max_args_bytes w) call /\ fireable tools call
      /\ collect_prior_fired_calls store s rounds t w = Ok prior /\ is_duplicate_call call prior = false
  | ReactBranch.ToolBatch cs => exists calls,
      parse_tool_calls raw w (max_args_bytes w) = Ok calls /\ named <$> calls = cs
      /\ (2 <= length cs <= MAX_TOOL_BATCH_CALLS)%nat
      /\ Forall (granted w (max_args_bytes w)) calls /\ Forall (fireable tools) calls
  | ReactBranch.Answer => parse_tool_calls raw w (max_args_bytes w) = Ok []
      /\ looks_like_an_attempted_tool_call raw w = false /\ answer_is_a_continuation to_lowercase raw w = false
  | ReactBranch.Rejected reason => exists full, reason = bounded_reason full
  | ReactBranch.Pending | ReactBranch.DeadLettered => False
  end.
Lemma decided_by store s rounds t raw w (tools : R) : exists b,
  decide_branch to_lowercase store s rounds t raw w tools = Ok b /\ decided store s rounds t raw w tools b.
Proof.
  unfold decide_branch. pose proof (parse_tool_calls_granted raw w (max_args_bytes w)) as Hy.
  destruct (parse_tool_calls _ _ _) as [calls|e|] eqn:Hp; [|eexists; split; [done|by eexists]|done].
  destruct (validated_calls_spec tools calls) as (r & Hr & Hspec).
  destruct calls as [|call [|call' calls]]; cbn [obind].
  - unfold settle_calls_to_branch. eexists. split; [done|].
    destruct (looks_like_an_attempted_tool_call raw w) eqn:H1; [by eexists|].
    destruct (answer_is_a_continuation _ raw w) eqn:H2; [by eexists|]. done.
  - destruct (calls_of_turns_total store s w (merge_sort turn_le (foldl (flip put_turn) []
       (List.filter (fun r => (r.(turn) <? t) && fired r.(branch)) rounds)))) as [prior Hprior].
    fold (collect_prior_fired_calls store s rounds t w) in Hprior. rewrite Hprior. cbn [obind].
    destruct (is_duplicate_call call prior) eqn:Hd; [eexists; split; [done|by eexists]|].
    unfold settle_calls_to_branch. rewrite Hr. cbn [obind]. destruct r as [vs|why]; [|eexists; split; [done|by eexists]].
    destruct Hspec as [-> Hf]. cbn [fmap list_fmap named]. eexists. split; [done|].
    exists call, prior. split_and!; try done; by apply Forall_singleton.
  - unfold settle_calls_to_branch. rewrite Hr. cbn [obind]. destruct r as [vs|why]; [|eexists; split; [done|by eexists]].
    destruct Hspec as [-> Hf]. cbn [fmap list_fmap]. destruct (named call) as [i v] eqn:Hi.
    destruct (_ <? _)%nat eqn:Hlt; [eexists; split; [done|by eexists]|]. apply Nat.ltb_ge in Hlt. eexists. split; [done|].
    exists (call :: call' :: calls). split_and!; try done; [cbn [fmap list_fmap]; by rewrite Hi|cbn [length]; lia].
Qed.
(** [C18] A committed turn is always decided, and never to fire what it may not: the calls
    of a frozen decision are those its text decodes to, all granted by the warrant
    and within its cap, registered, with arguments that fit their schemas, at most
    20 of them, and a lone call repeats none the chain has fired; it is an answer
    only if no call was attempted or announced. *)
Theorem frozen_calls_valid store s rounds t raw w (tools : R) :
  decide_branch to_lowercase store s rounds t raw w tools <> Panic
  /\ forall b, decide_branch to_lowercase store s rounds t raw w tools = Ok b -> decided store s rounds t raw w tools b.
Proof. destruct (decided_by store s rounds t raw w tools) as (b & -> & Hb). split; [done|]. by intros ? [= <-]. Qed.

(** ** From the frozen decision to the lease *)
Lemma build_chain_tool_shape m i v t inst salt k p : let obs := build_chain_tool m i v t inst salt k p in
  obs.(def).(tool_contract) = {[i := v]} /\ obs.(def).(Mote.model_id) = m /\ obs.(Mote.parents) = [data_parent p].
Proof. by destruct salt. Qed.
Lemma fire_call_fires obs (tools : R) call : obs.(def).(tool_contract) = {[call.(call_name) := call.(call_version)]} ->
  fireable tools call -> exists a, fire_call obs tools call = Ok (Resolved a).
Proof.
  intros Hc (d & Hl & Hs). unfold fire_call, validated. rewrite Hc, lookup_singleton_eq, bool_decide_eq_true_2, Hl by done.
  cbn [negb]. destruct (ToolDef.input_schema d) as [schema|] eqn:Hd; [|by eexists].
  rewrite (Hs schema eq_refl). by eexists.
Qed.
Lemma position_of_here obs p r calls call : forall i k, calls !! k = Some call ->
  (forall j c, calls !! j = Some c ->
     (build_chain_tool obs.(def).(Mote.model_id) c.(call_name) c.(call_version) r.(turn) r.(ReactRoundRecord.instance_id)
        r.(ReactRoundRecord.step_salt) (u32_of_len (i + j)) p).(Mote.mote_id) = obs.(Mote.mote_id) <-> j = k) ->
  position_of obs p r i calls = Some call.
Proof.
  induction calls as [|c calls IH]; intros i k Hk Hd; [done|]. cbn [position_of].
  pose proof (Hd 0%nat c eq_refl) as H0. rewrite Nat.add_0_r in H0. destruct k as [|k].
  - injection Hk as ->. rewrite bool_decide_eq_true_2 by (by apply H0). done.
  - rewrite bool_decide_eq_false_2 by (by rewrite H0). apply (IH _ k); [done|]. intros j c' Hj.
    replace (Datatypes.S i + j)%nat with (i + Datatypes.S j)%nat by lia. rewrite (Hd (Datatypes.S j) c' Hj). lia.
Qed.
(** The observation of a frozen decision can run: as long as the turn's output is
    readable and the registry unchanged, its arguments resolve when it is leased,
    in any later state. For a batch, that is if its observations' identities are
    apart. *)
Theorem frozen_call_resolves store s rounds t raw w (tools : R) b i tool version model inst salt turn_id s' (store' : S) :
  decide_branch to_lowercase store s rounds t raw w tools = Ok b -> branch_calls b !! i = Some (tool, version) ->
  let obs k n v := build_chain_tool model n v t inst salt (u32_of_len k) turn_id in
  result_ref_of s' turn_id ≫= get store' = Some raw ->
  (forall cs, b = ReactBranch.ToolBatch cs ->
     (exists r, react_tool_round s' turn_id = Ok (Some r) /\ r.(turn) = t
                /\ r.(ReactRoundRecord.instance_id) = inst /\ r.(ReactRoundRecord.step_salt) = salt)
     /\ forall j n v, cs !! j = Some (n, v) -> (obs j n v).(Mote.mote_id) = (obs i tool version).(Mote.mote_id) -> j = i) ->
  exists a, resolve_tool_args (obs i tool version) w s' (Some store') tools = Ok (Resolved a).
Proof.
  intros Hb Hi obs Hraw Hbatch. destruct (decided_by store s rounds t raw w tools) as (b' & Hb' & Hd).
  rewrite Hb in Hb'. injection Hb' as <-. destruct (build_chain_tool_shape model tool version t inst salt (u32_of_len i) turn_id)
    as (Hc & Hm & Hp). unfold resolve_tool_args. fold (obs i tool version) in Hc, Hm, Hp. rewrite Hp. cbn [hd_error data_parent parent_id].
  rewrite Hraw. destruct b as [|i0 v0| | |reason|cs]; cbn [branch_calls] in Hi; try done.
  - destruct Hd as (call & prior & Hpar & Hn & _ & Hf & _). rewrite Hpar. destruct i; [|done]. cbn in Hi. injection Hi as -> ->.
    injection Hn as <- <-. by apply fire_call_fires.
  - destruct Hd as (calls & Hpar & <- & Hlen & _ & Hf). rewrite Hpar.
    destruct (Hbatch _ eq_refl) as [(r & Hr & Ht & Hin & Hsa) Hdist].
    apply list_lookup_fmap_Some in Hi as (call & [= -> ->] & Hcall).
    assert (Hpos : position_of (obs i (call_name call) (call_version call)) turn_id r 0 calls = Some call).
    { apply (position_of_here _ _ _ _ _ 0 i); [done|]. intros j c Hj. rewrite Hm, Ht, Hin, Hsa. cbn [Nat.add]. split.
      - intros Heq. apply (Hdist j (call_name c) (call_version c)); [|done]. by rewrite list_lookup_fmap, Hj.
      - intros ->. rewrite Hcall in Hj. injection Hj as ->. done. }
    rewrite length_fmap in Hlen. destruct calls as [|c1 [|c2 calls]]; [cbn in Hlen; lia..|]. rewrite Hr. cbn [obind].
    rewrite Hpos. apply fire_call_fires; [done|]. rewrite Forall_lookup in Hf. by eapply Hf.
Qed.
End Decisions.

(** ** A concrete decision *)
#[local] Existing Instance demo_blake3.
#[local] Existing Instance demo_bincode.
#[local] Existing Instance demo_serde.
#[local] Existing Instance demo_values.
#[local] Existing Instance demo_calls.
Definition demo_output : bytes := GEMMA_TOOL_OPEN ++ str "call:fs-read{}" ++ GEMMA_TOOL_CLOSE.
Lemma frozen_call_resolves_witness :
  decide_branch (fun b => b) demo_call_store demo_committed.(projection) [] 0 demo_output demo_reader_warrant demo_tools
    = Ok (ReactBranch.Tool (str "fs-read") (str "1"))
  /\ exists a, resolve_tool_args (build_chain_tool (str "m") (str "fs-read") (str "1") 0 (replicate 16 7) None 0 (demo_id 1))
                 demo_reader_warrant demo_committed.(projection) (Some demo_call_store) demo_tools = Ok (Resolved a).
Proof.
  assert (E : decide_branch (fun b => b) demo_call_store demo_committed.(projection) [] 0 demo_output demo_reader_warrant demo_tools
    = Ok (ReactBranch.Tool (str "fs-read") (str "1"))) by (vm_compute; reflexivity).
  split; [exact E|].
  exact (frozen_call_resolves (fun b => b) demo_call_store demo_committed.(projection) [] 0 demo_output demo_reader_warrant demo_tools _ 0
    (str "fs-read") (str "1") (str "m") (replicate 16 7) None (demo_id 1) demo_committed.(projection) demo_call_store E eq_refl
    ltac:(vm_compute; reflexivity) ltac:(intros cs [=])).
Defined.
