(* ===== verification/ReactChain.v ===== *)
(** The life of an agent's chain as a state machine: the records of a chain, in the
    order of the journal, are a word of a small grammar, whose length and calls the
    anchor's budget bounds; every pass over the chains keeps all of them in it, and
    a restart rebuilds the turn in flight. *)
From S2P Require Import Prelude Effects Utf8 CriticTypes Mote ContextItems Entry EntryEncode EntryDecode EntryRoundtrip Journal Sqlite Warrant Content DemoCodec ProjState ProjIndex ProjFold ProjHistory ProjQuery Materializer Scheduler Refusal Checkpoint Recovery Critic NativeCritic Digits ParamSchema Text ToolRegistry ToolStore Toolcall ToolcallFacts ExactlyOnce Wire Workers Coordinator CoordSync Cascade Timers TimerFacts ReactShape Rerank RerankFacts Lease LeaseFacts Submit SubmitFacts Pricing React ReactFacts.
Import JournalEntry.
Import ReactRoundRecord (turn, turn_mote_id, branch).
Abbreviation Rec := ReactRoundRecord.

(** ** The grammar of a chain *)
(** What is copied from the anchor to every later record. *)
Definition header (r : Rec) :=
  (r.(ReactRoundRecord.instance_id), r.(ReactRoundRecord.step_salt), r.(ReactRoundRecord.base_prompt_ref),
   r.(ReactRoundRecord.warrant_ref), r.(ReactRoundRecord.model_id), r.(ReactRoundRecord.max_turns),
   r.(ReactRoundRecord.max_tool_calls), r.(ReactRoundRecord.is_agentic_launch), r.(ReactRoundRecord.context_items_ref),
   r.(ReactRoundRecord.image_ref), r.(ReactRoundRecord.require_approval)).
(** How far a turn has come: proposed, fired, refused, over. *)
Definition stage (b : ReactBranch) : nat :=
  match b with
  | ReactBranch.Pending => 0
  | ReactBranch.Tool _ _ | ReactBranch.ToolBatch _ => 1
  | ReactBranch.Rejected _ => 2
  | ReactBranch.Answer | ReactBranch.DeadLettered => 3
  end.
(** A turn ends answered only from its model's output: a fired or refused one can
    be refused or dead-lettered. *)
Definition settles (b b' : ReactBranch) : Prop :=
  (stage b < stage b')%nat /\ (b' = ReactBranch.Answer -> b = ReactBranch.Pending).
(** [lost r]: the journal refused a decision of [r]'s turn. The turn is then carried
    on from its output, and the next may begin with no decision on record. *)
Section Grammar.
Context {lost : Rec -> Prop}.
Record next_round (rs : list Rec) (last r : Rec) : Prop := {
  nr_header : header r = header last;
  nr_later : last.(ReactRoundRecord.seq) < r.(ReactRoundRecord.seq);
  nr_batch : (length (branch_calls r.(branch)) <= MAX_TOOL_BATCH_CALLS)%nat;
  nr_step :
    (r.(turn) = last.(turn) /\ r.(turn_mote_id) = last.(turn_mote_id) /\ settles last.(branch) r.(branch))
    \/ (r.(turn) = last.(turn) + 1 /\ r.(branch) = ReactBranch.Pending /\ (stage last.(branch) < 3)%nat
        /\ ((0 < stage last.(branch))%nat \/ lost last)
        /\ over_budget last (spent_calls rs) (u32_sat_add last.(turn) 1) = false)
}.
Inductive Chain : list Rec -> Prop :=
| chain_none : Chain []
| chain_anchor r : r.(turn) = 0 -> r.(branch) = ReactBranch.Pending -> Chain [r]
| chain_next rs last r : Chain (rs ++ [last]) -> next_round (rs ++ [last]) last r -> Chain ((rs ++ [last]) ++ [r]).

Lemma chain_init rs last r : Chain ((rs ++ [last]) ++ [r]) -> Chain (rs ++ [last]) /\ next_round (rs ++ [last]) last r.
Proof.
  inversion 1 as [E|r0 _ _ E|rs' last' r' Hc Hn E]; [by destruct rs|by destruct rs as [|? []]|].
  apply app_inj_tail in E as [E ->]. apply app_inj_tail in E as [-> ->]. done.
Qed.
(** Induction on a chain by its last record. *)
Lemma chain_last_ind (P : list Rec -> Rec -> Prop) :
  (forall r, r.(turn) = 0 -> r.(branch) = ReactBranch.Pending -> P [] r) ->
  (forall rs last r, Chain (rs ++ [last]) -> next_round (rs ++ [last]) last r -> P rs last -> P (rs ++ [last]) r) ->
  forall rs r, Chain (rs ++ [r]) -> P rs r.
Proof.
  intros H0 H1. induction rs as [|last rs IH] using rev_ind; intros r Hc.
  - inversion Hc as [|r0 ?? E|? ? ? _ _ E]; [by apply H0|by destruct rs as [|? []]].
  - apply chain_init in Hc as [Hc Hn]. apply (H1 rs last r Hc Hn). by apply IH.
Qed.
Definition before (a b : Rec) : Prop := a.(turn) <= b.(turn) /\ a.(ReactRoundRecord.seq) < b.(ReactRoundRecord.seq).
Lemma chain_facts rs r : Chain (rs ++ [r]) ->
  0 <= r.(turn) /\ (forall y, y ∈ rs -> before y r /\ header y = header r /\ 0 <= y.(turn)).
Proof.
  revert rs r. apply chain_last_ind; [intros r -> _; split; [lia|set_solver]|].
  intros rs last r _ [Hh Hs _ Hst] [Hp Hy]. assert (last.(turn) <= r.(turn)) by (destruct Hst as [[-> _]|[-> _]]; lia).
  split; [lia|]. intros y [Hin|Hin%list_elem_of_singleton]%elem_of_app; [|by subst; split_and!].
  destruct (Hy y Hin) as ([? ?] & E & ?). split_and!; [split; lia|congruence|done].
Qed.
Lemma chain_head rs : rs <> [] -> Chain rs -> exists a rs', rs = a :: rs' /\ a.(turn) = 0.
Proof.
  destruct rs as [|x rs _] using rev_ind; [done|]. intros _. revert rs x. apply (chain_last_ind (fun rs x => exists a rs', rs ++ [x] = a :: rs' /\ a.(turn) = 0)).
  - intros r Ht _. by exists r, [].
  - intros rs last r _ _ (a & rs' & -> & Ha). by exists a, (rs' ++ [r]).
Qed.
Lemma chain_turn_zero rs r : Chain (rs ++ [r]) -> exists a, turn_zero (rs ++ [r]) = Some a /\ a.(turn) = 0 /\ header a = header r.
Proof.
  intros Hc. destruct (chain_head (rs ++ [r])) as (a & rs' & E & Ha); [by destruct rs|done|]. exists a. rewrite E. split_and!; [|done|].
  - cbn. by rewrite Ha.
  - assert (a ∈ rs ++ [r]) as [Hin|Hin%list_elem_of_singleton]%elem_of_app by (rewrite E; set_solver); [|by subst].
    by apply (chain_facts _ _ Hc).
Qed.
Lemma chain_frontier rs r : Chain (rs ++ [r]) -> frontier (rs ++ [r]) = Some r.
Proof.
  intros Hc. apply max_by_last. intros y Hy. destruct (proj2 (chain_facts _ _ Hc) y Hy) as [[H1 H2] _]. unfold then_cmp.
  destruct (Z.compare_spec (turn y) (turn r)); [|done|lia]. intros Hg. apply Z.compare_gt_iff in Hg. lia.
Qed.
Lemma chain_last_of_turn rs r : Chain (rs ++ [r]) -> last_of_turn (rs ++ [r]) r.(turn) = Some r.
Proof.
  intros Hc. unfold last_of_turn. rewrite List.filter_app. cbn [List.filter]. rewrite Z.eqb_refl. apply max_by_last.
  intros y [Hy%list_elem_of_In _]%list_elem_of_In%filter_In. destruct (proj2 (chain_facts _ _ Hc) y Hy) as [[_ H] _].
  intros Hg%Z.compare_gt_iff. lia.
Qed.
Lemma chain_no_later rs r : Chain (rs ++ [r]) -> existsb (fun x => x.(turn) =? r.(turn) + 1) (rs ++ [r]) = false.
Proof.
  intros Hc. apply not_true_iff_false. intros (x & Hx%list_elem_of_In & E%Z.eqb_eq)%existsb_exists.
  apply elem_of_app in Hx as [Hx|Hx%list_elem_of_singleton]; [|subst; lia]. destruct (proj2 (chain_facts _ _ Hc) x Hx) as [[? _] _]. lia.
Qed.

Lemma chain_stage rs r : Chain (rs ++ [r]) -> forall y, y ∈ rs -> y.(turn) = r.(turn) -> (stage y.(branch) < stage r.(branch))%nat.
Proof.
  revert rs r. apply (chain_last_ind (fun rs r => forall y, y ∈ rs -> y.(turn) = r.(turn) -> (stage y.(branch) < stage r.(branch))%nat)); [set_solver|].
  intros rs last r Hc [_ _ _ Hst] IH y Hy Ht.
  assert (y.(turn) <= last.(turn)) as Hle.
  { apply elem_of_app in Hy as [Hy|Hy%list_elem_of_singleton]; [|by subst]. destruct (proj2 (chain_facts _ _ Hc) y Hy) as [[? _] _]. lia. }
  destruct Hst as [(E & _ & Hs & _)|(E & _)]; [|lia].
  apply elem_of_app in Hy as [Hy|Hy%list_elem_of_singleton]; [|by subst]. rewrite E in Ht. specialize (IH y Hy Ht). lia.
Qed.

(** ** The budget *)
Lemma over_budget_header a b n m : header a = header b -> over_budget a n m = over_budget b n m.
Proof. intros E. unfold header in E. unfold over_budget. congruence. Qed.
Lemma chain_turn_bound rs r : Chain (rs ++ [r]) -> u32 r.(ReactRoundRecord.max_turns) ->
  r.(turn) < Z.max 1 r.(ReactRoundRecord.max_turns).
Proof.
  revert rs r. apply (chain_last_ind (fun _ r => u32 r.(ReactRoundRecord.max_turns) -> r.(turn) < Z.max 1 r.(ReactRoundRecord.max_turns))).
  - intros r -> _. lia.
  - intros rs last r _ [Hh _ _ Hst] IH. assert (ReactRoundRecord.max_turns r = ReactRoundRecord.max_turns last) as -> by (unfold header in Hh; congruence).
    intros Hu. specialize (IH Hu). destruct Hst as [[-> _]|(-> & _ & _ & _ & Hb)]; [done|].
    unfold over_budget, u32_sat_add in Hb. apply orb_false_iff in Hb as [_ Hb%Z.leb_gt]. destruct Hu. lia.
Qed.
Lemma chain_length rs r : Chain (rs ++ [r]) -> (length (rs ++ [r]) <= 4 * Z.to_nat r.(turn) + stage r.(branch) + 1)%nat.
Proof.
  revert rs r. apply (chain_last_ind (fun rs r => (length (rs ++ [r]) <= 4 * Z.to_nat r.(turn) + stage r.(branch) + 1)%nat)).
  - intros r -> ->. done.
  - intros rs last r Hc [_ _ _ Hst] IH. rewrite length_app. cbn [length]. pose proof (proj1 (chain_facts _ _ Hc)).
    destruct Hst as [(-> & _ & Hs & _)|(-> & -> & Hs & _)]; cbn [stage]; lia.
Qed.
Definition units (rs : list Rec) : nat := sum_list ((fun r => call_units r.(branch)) <$> rs).
Lemma units_snoc rs r : units (rs ++ [r]) = (units rs + call_units r.(branch))%nat.
Proof. unfold units. rewrite fmap_app. induction (_ <$> rs); cbn in *; lia. Qed.
Lemma chain_units rs r : Chain (rs ++ [r]) -> u32 r.(ReactRoundRecord.max_tool_calls) ->
  Z.of_nat (units (rs ++ [r])) <= Z.max 1 r.(ReactRoundRecord.max_tool_calls)
    + match stage r.(branch) with 0%nat => -1 | 1%nat => 19 | _ => 20 end.
Proof.
  revert rs r. apply (chain_last_ind (fun rs r => u32 r.(ReactRoundRecord.max_tool_calls) ->
    Z.of_nat (units (rs ++ [r])) <= Z.max 1 r.(ReactRoundRecord.max_tool_calls)
      + match stage r.(branch) with 0%nat => -1 | 1%nat => 19 | _ => 20 end)).
  - intros r _ Hb _. unfold units. cbn. rewrite Hb. cbn. lia.
  - intros rs last r _ [Hh _ Hn Hst] IH. assert (ReactRoundRecord.max_tool_calls r = ReactRoundRecord.max_tool_calls last) as -> by (unfold header in Hh; congruence).
    intros Hu. specialize (IH Hu). rewrite units_snoc. destruct Hst as [(_ & _ & Hs & _)|(_ & -> & _ & _ & Hb)].
    + unfold MAX_TOOL_BATCH_CALLS in Hn. destruct (branch last), (branch r); cbn in *; lia.
    + unfold over_budget in Hb. apply orb_false_iff in Hb as [Hb%Z.leb_gt _]. unfold spent_calls, u32_of_len in Hb.
      fold (units (rs ++ [last])) in Hb. cbn. destruct Hu. lia.
Qed.
(** At most [max_turns] turns (one at least), four facts for each, and
    [max_tool_calls] calls with one batch above. *)
Definition within_budget (rs : list Rec) (a : Rec) : Prop :=
  let turns := Z.max 1 a.(ReactRoundRecord.max_turns) in
  Forall (fun r => 0 <= r.(turn) < turns) rs /\ Z.of_nat (length rs) <= 4 * turns
  /\ Z.of_nat (units rs) <= Z.max 1 a.(ReactRoundRecord.max_tool_calls) + Z.of_nat MAX_TOOL_BATCH_CALLS.
Lemma chain_bounds rs a : Chain rs -> turn_zero rs = Some a ->
  u32 a.(ReactRoundRecord.max_turns) -> u32 a.(ReactRoundRecord.max_tool_calls) -> within_budget rs a.
Proof.
  unfold within_budget.
  destruct rs as [|r rs _] using rev_ind; [done|]. intros Hc Ha Hu Hv.
  destruct (chain_turn_zero _ _ Hc) as (a' & Ha' & _ & Hh). rewrite Ha in Ha'. injection Ha' as <-. cbv zeta.
  assert (ReactRoundRecord.max_turns a = ReactRoundRecord.max_turns r) as Hm by (unfold header in Hh; congruence).
  assert (ReactRoundRecord.max_tool_calls a = ReactRoundRecord.max_tool_calls r) as Hk by (unfold header in Hh; congruence).
  rewrite Hm in *. rewrite Hk in *. pose proof (chain_turn_bound _ _ Hc Hu) as Ht. destruct (chain_facts _ _ Hc) as [H0 Hy].
  split_and!.
  - apply Forall_app. split; [|by repeat constructor]. apply Forall_forall. intros y Hin. destruct (Hy y Hin) as ([? _] & _ & ?). lia.
  - pose proof (chain_length _ _ Hc). destruct (branch r); cbn [stage] in *; lia.
  - pose proof (chain_units _ _ Hc Hv). unfold MAX_TOOL_BATCH_CALLS. destruct (branch r); cbn [stage] in *; lia.
Qed.

(** Of each turn that is over, the decision is on record, or was lost. *)
Definition accounted (rs : list Rec) : Prop :=
  forall x y, x ∈ rs -> y ∈ rs -> x.(turn) < y.(turn) ->
    exists d, d ∈ rs /\ d.(turn) = x.(turn) /\ ((0 < stage d.(branch))%nat \/ lost d).
Lemma chain_accounted rs : Chain rs -> accounted rs.
Proof.
  destruct rs as [|r rs _] using rev_ind; [by intros _ x y Hx%elem_of_nil|]. revert rs r. apply (chain_last_ind (fun rs r => accounted (rs ++ [r]))).
  - intros r _ _ x y Hx%list_elem_of_singleton Hy%list_elem_of_singleton. subst. lia.
  - intros rs last r Hc [_ _ _ Hst] IH x y Hx Hy Hlt. destruct (chain_facts _ _ Hc) as [_ Hle].
    assert (Hin : forall z, z ∈ rs ++ [last] -> z.(turn) <= last.(turn)).
    { intros z [Hz|Hz%list_elem_of_singleton]%elem_of_app; [|by subst]. by destruct (Hle z Hz) as [[? _] _]. }
    assert (Hl : last ∈ rs ++ [last]) by (apply elem_of_app; right; by apply list_elem_of_singleton).
    assert (Hr : last.(turn) <= r.(turn)) by (destruct Hst as [[-> _]|[-> _]]; lia).
    assert (Hx' : x ∈ rs ++ [last]).
    { apply elem_of_app in Hx as [Hx|Hx%list_elem_of_singleton]; [done|]. subst x.
      apply elem_of_app in Hy as [Hy|Hy%list_elem_of_singleton]; [specialize (Hin y Hy); lia|subst; lia]. }
    assert (Hd : forall z, z ∈ rs ++ [last] -> x.(turn) < z.(turn) ->
      exists d, d ∈ (rs ++ [last]) ++ [r] /\ d.(turn) = x.(turn) /\ ((0 < stage d.(branch))%nat \/ lost d)).
    { intros z Hz Hxz. destruct (IH x z Hx' Hz Hxz) as (d & Hd & He). exists d. split; [by apply elem_of_app; left|done]. }
    apply elem_of_app in Hy as [Hy|Hy%list_elem_of_singleton]; [by apply (Hd y)|subst y].
    destruct (decide (x.(turn) < last.(turn))) as [Hlt'|Hge]; [by apply (Hd last)|].
    specialize (Hin x Hx'). destruct Hst as [(E & _)|(_ & _ & _ & Hlost & _)]; [lia|].
    exists last. split_and!; [by apply elem_of_app; left|lia|done].
Qed.
End Grammar.

(** ** The records are the journal's *)
Definition round_of (e : JournalEntry) : option Rec :=
  match e with
  | ReactRound t id inst br wr m b mt mc salt ag ci im ap seq => Some {|
      turn := t; turn_mote_id := id; ReactRoundRecord.instance_id := inst; ReactRoundRecord.base_prompt_ref := br;
      ReactRoundRecord.warrant_ref := wr; ReactRoundRecord.model_id := m; branch := b; ReactRoundRecord.max_turns := mt;
      ReactRoundRecord.max_tool_calls := mc; ReactRoundRecord.step_salt := salt; ReactRoundRecord.is_agentic_launch := ag;
      ReactRoundRecord.context_items_ref := ci; ReactRoundRecord.image_ref := im; ReactRoundRecord.require_approval := ap;
      ReactRoundRecord.seq := seq |}
  | _ => None
  end.
Lemma fold_rounds e s s' prev : fold None e s = (s', Ok prev) -> react_rounds s' = react_rounds s ++ option_list (round_of e).
Proof.
  destruct e; cbn [fold round_of option_list]; intros E; try (injection E as <- _; rewrite ?app_nil_r; done).
  - rewrite app_nil_r. unfold fold_committed in E. repeat case_match; simplify_eq; done.
  - injection E as <- _. cbn [fold_run_metadata fold_react_metadata]. unfold index_last_react_round. by repeat case_match.
  - injection E as <- _. rewrite app_nil_r. cbn [fold_run_metadata fold_react_metadata]. unfold index_last_approval. by repeat case_match.
Qed.
Lemma live_rounds regs l s : live None regs l s -> react_rounds s = omap round_of l.
Proof.
  induction 1 as [|l e s s' prev _ IH E|l r s _ _ IH]; [done| |].
  - rewrite (fold_rounds _ _ _ _ E), IH, omap_app. cbn. by destruct (round_of e).
  - rewrite <- IH. done.
Qed.
Lemma live_round_seq regs l s r : live None regs l s -> log_wf l -> r ∈ react_rounds s ->
  r.(ReactRoundRecord.seq) <= Z.of_nat (length l).
Proof.
  intros Hl [Hc _]. rewrite (live_rounds _ _ _ Hl). intros (e & He & Hr)%list_elem_of_omap.
  assert (ReactRoundRecord.seq r = entry_seq e) as -> by (destruct e; cbn in Hr; by simplify_eq). by apply contiguous_seq_le.
Qed.
Definition chain_of (s : State) (inst : bytes) (salt : option bytes) : list Rec := List.filter (on_chain inst salt) s.(react_rounds).
Section Runs.
Context `{HB : Blake3} `{!Bincode MoteDef} `{!Bincode WarrantSpec} `{!Bincode TopologyDecision}.
Context `{HSJ : SerdeJson} `{HTJ : ToolcallJson} `{HSC : SerdeScalar} `{HSV : SerdeValue}.
Context {J S R : Type} `{!Journal J} `{!JournalLaws J} `{!ContentStore S} `{!ToolRegistry R}.
Context (to_lowercase : bytes -> bytes).
Abbreviation C := (Core J S).

(** The journal refuses a decision, other than an end, of the turn of [r]. *)
Definition lost (r : Rec) : Prop :=
  exists b, (0 < stage b < 3)%nat /\ ~ accepts (branch_entry r r.(turn_mote_id) r.(turn) b).
Abbreviation Chain := (Chain (lost := lost)).
(** Every chain of the run is in the grammar. *)
Definition chains_ok (s : State) : Prop := forall inst salt, Chain (chain_of s inst salt).
Lemma chains_same s s' : react_rounds s' = react_rounds s -> chains_ok s -> chains_ok s'.
Proof. intros E Hc inst salt. unfold chain_of. rewrite E. apply Hc. Qed.
Lemma chains_add s s' r : react_rounds s' = react_rounds s ++ [r] -> chains_ok s ->
  Chain (chain_of s r.(ReactRoundRecord.instance_id) r.(ReactRoundRecord.step_salt) ++ [r]) -> chains_ok s'.
Proof.
  intros E Hc Hr inst salt. unfold chain_of. rewrite E, List.filter_app. cbn [List.filter]. destruct (on_chain inst salt r) eqn:Ho.
  - unfold on_chain in Ho. apply andb_true_iff in Ho as [<-%bool_decide_eq_true <-%bool_decide_eq_true]. exact Hr.
  - rewrite app_nil_r. apply Hc.
Qed.


(** ** Weakest preconditions
    From a core in step with its journal and room for [k] entries more than [n],
    the run returns, in step, with room for [n], and [Q] holds. *)
Definition runs {A E} (k : nat) (c : C) (run : outcome A E * C) (Q : A -> C -> Prop) : Prop :=
  forall regs l n, in_sync regs l c -> room l (k + n) ->
    exists a c' regs' l', run = (Ok a, c') /\ Q a c' /\ in_sync regs' l' c' /\ l `prefix_of` l' /\ room l' n.
Lemma runs_mono {A E} k k' c (run : outcome A E * C) (Q Q' : A -> C -> Prop) :
  (k <= k')%nat -> (forall a c', Q a c' -> Q' a c') -> runs k c run Q -> runs k' c run Q'.
Proof.
  intros Hk HQ Hm regs l n Hs Hr. destruct (Hm regs l (k' - k + n)%nat Hs) as (a & c' & regs' & l' & ? & ? & ? & ? & ?).
  { eapply room_le; [done|lia]. }
  exists a, c', regs', l'. split_and!; [done|by apply HQ|done|done|]. eapply room_le; [done|lia].
Qed.
Lemma runs_le {A E} k k' c (run : outcome A E * C) (Q : A -> C -> Prop) : (k <= k')%nat -> runs k c run Q -> runs k' c run Q.
Proof. intros Hk. by apply runs_mono. Qed.
Lemma runs_ret {A E} k (a : A) c (Q : A -> C -> Prop) : Q a c -> runs (E := E) k c (Ok a, c) Q.
Proof. intros HQ regs l n Hs Hr. exists a, c, regs, l. split_and!; try done. eapply room_le; [done|lia]. Qed.
Lemma runs_bind {A B E} k1 k2 (m : comp C A E) (f : A -> comp C B E) c (Q : B -> C -> Prop) :
  runs k1 c (m c) (fun a c1 => runs k2 c1 (f a c1) Q) -> runs (k1 + k2) c (cbind m f c) Q.
Proof.
  intros Hm regs l n Hs Hr. rewrite <- Nat.add_assoc in Hr.
  destruct (Hm _ _ _ Hs Hr) as (a & c1 & regs1 & l1 & E1 & Hf & S1 & P1 & R1).
  destruct (Hf _ _ _ S1 R1) as (b & c2 & regs2 & l2 & E2 & HQ & S2 & P2 & R2).
  exists b, c2, regs2, l2. unfold cbind. rewrite E1. split_and!; try done. by etrans.
Qed.
Lemma runs_from {A E} k c c1 (run : outcome A E * C) (Q : A -> C -> Prop) : same_log c c1 -> runs k c1 run Q -> runs k c run Q.
Proof. intros Hl Hm regs l n Hs Hr. destruct (Hl _ _ Hs) as (regs' & _ & Hs'). exact (Hm _ _ _ Hs' Hr). Qed.
Lemma runs_pre {A E} k c (run : outcome A E * C) (Q : A -> C -> Prop) :
  (indices_ok (projection c) -> runs k c run Q) -> runs k c run Q.
Proof. intros H regs l n Hs Hr. exact (H (sync_indices _ _ _ Hs) _ _ _ Hs Hr). Qed.

(** On any backend, one that refuses entries included. *)
Context `{!JournalTotal J}.
(** ** Recording a branch *)
Lemma chain_rounds_run {E} inst salt (c : C) : indices_ok (projection c) ->
  chain_rounds (E := E) inst salt c = (Ok (chain_of (projection c) inst salt), c).
Proof. intros Hi. unfold chain_rounds. by rewrite (react_rounds_of_scan _ _ _ Hi). Qed.
Lemma runs_chain {A E} k inst salt (f : list Rec -> comp C A E) c (Q : A -> C -> Prop) :
  runs k c (f (chain_of (projection c) inst salt) c) Q -> runs k c (cbind (chain_rounds inst salt) f c) Q.
Proof. intros Hf. apply runs_pre. intros Hi. unfold cbind. by rewrite chain_rounds_run. Qed.
Definition record_of_branch (anchor : Rec) (id : MoteId) (t : Z) (b : ReactBranch) (n : Z) : Rec :=
  {| turn := t; turn_mote_id := id; ReactRoundRecord.instance_id := anchor.(ReactRoundRecord.instance_id);
     ReactRoundRecord.base_prompt_ref := anchor.(ReactRoundRecord.base_prompt_ref);
     ReactRoundRecord.warrant_ref := anchor.(ReactRoundRecord.warrant_ref); ReactRoundRecord.model_id := anchor.(ReactRoundRecord.model_id);
     branch := b; ReactRoundRecord.max_turns := anchor.(ReactRoundRecord.max_turns);
     ReactRoundRecord.max_tool_calls := anchor.(ReactRoundRecord.max_tool_calls); ReactRoundRecord.step_salt := anchor.(ReactRoundRecord.step_salt);
     ReactRoundRecord.is_agentic_launch := anchor.(ReactRoundRecord.is_agentic_launch);
     ReactRoundRecord.context_items_ref := anchor.(ReactRoundRecord.context_items_ref); ReactRoundRecord.image_ref := anchor.(ReactRoundRecord.image_ref);
     ReactRoundRecord.require_approval := anchor.(ReactRoundRecord.require_approval); ReactRoundRecord.seq := n |}.
(** The chain [anchor] is of, and what its last record allows next. *)
Abbreviation its_chain s a := (chain_of s a.(ReactRoundRecord.instance_id) a.(ReactRoundRecord.step_salt)).
Definition allowed (rs : list Rec) (last : Rec) (id : MoteId) (t : Z) (b : ReactBranch) : Prop :=
  (length (branch_calls b) <= MAX_TOOL_BATCH_CALLS)%nat
  /\ ((t = last.(turn) /\ id = last.(turn_mote_id) /\ settles last.(branch) b)
      \/ (t = last.(turn) + 1 /\ b = ReactBranch.Pending /\ (stage last.(branch) < 3)%nat
          /\ ((0 < stage last.(branch))%nat \/ lost last)
          /\ over_budget last (spent_calls rs) (u32_sat_add last.(turn) 1) = false)).
Record added (c : C) (anchor : Rec) (rs : list Rec) (last r : Rec) (c' : C) : Prop := {
  ad_rounds : react_rounds (projection c') = react_rounds (projection c) ++ [r];
  ad_chain : its_chain (projection c') anchor = (rs ++ [last]) ++ [r];
  ad_header : header r = header anchor;
  ad_ok : chains_ok (projection c');
  ad_store : core_store c' = core_store c
}.
Lemma allowed_fresh rs last id t b : Chain (rs ++ [last]) -> allowed (rs ++ [last]) last id t b ->
  existsb (fun r => (r.(turn) =? t) && bool_decide (r.(branch) = b)) (rs ++ [last]) = false.
Proof.
  intros Hc [_ Hal]. apply not_true_iff_false.
  intros (y & Hy%list_elem_of_In & [Ht%Z.eqb_eq Hb%bool_decide_eq_true]%andb_true_iff)%existsb_exists.
  destruct Hal as [(-> & _ & Hs & _)|(-> & _)].
  - apply elem_of_app in Hy as [Hy|Hy%list_elem_of_singleton]; [|subst; lia].
    pose proof (chain_stage _ _ Hc y Hy Ht). subst b. lia.
  - pose proof (chain_no_later _ _ Hc) as Hn. apply not_true_iff_false in Hn. apply Hn, existsb_exists.
    exists y. split; [by apply list_elem_of_In|by apply Z.eqb_eq].
Qed.
Lemma branch_entry_header a r id t b : header a = header r -> branch_entry a id t b = branch_entry r id t b.
Proof. unfold header, branch_entry. intros E. f_equal; congruence. Qed.
(** The record is added, or the journal refuses it and nothing changes. *)
Lemma runs_branch {E} anchor rs last id t b c :
  chains_ok (projection c) -> its_chain (projection c) anchor = rs ++ [last] -> header anchor = header last ->
  allowed (rs ++ [last]) last id t b ->
  runs (E := E) 1 c (append_react_branch anchor id t b c) (fun _ c' =>
    (exists n, added c anchor rs last (record_of_branch anchor id t b n) c') \/ (c' = c /\ ~ accepts (branch_entry last id t b))).
Proof.
  intros Hok Hch Hh Hal. assert (Hc : Chain (rs ++ [last])) by (rewrite <- Hch; apply Hok).
  unfold append_react_branch. apply runs_chain. rewrite Hch, (allowed_fresh _ _ _ _ _ Hc Hal).
  intros regs l n Hs Hr. set (e := branch_entry anchor id t b).
  destruct (append_then_total (E := E) regs l c e (fun c => c) n Hs) as [(c1 & H1 & H2 & H3 & H4 & _ & H6)|[H1 Hno]]; [|done| |].
  { apply plain_offered; [|reflexivity..]. destruct Hal as [Hlen _]. by destruct b. }
  2: { exists tt, c, regs, l. split_and!; [done| |done|done|eapply room_le; [exact Hr|lia]]. right. split; [done|].
       by rewrite <- (branch_entry_header anchor). }
  exists tt, c1, regs, (log_append l e).2. split_and!; [done| |done|apply log_append_prefix|done]. left.
  set (k := Z.of_nat (length l) + 1). exists k. set (r := record_of_branch anchor id t b k).
  assert (Hrec : react_rounds (projection c1) = react_rounds (projection c) ++ [r]).
  { rewrite H6. unfold log_append. cbn [e branch_entry derive_key existing_fact is_deduped fst].
    rewrite (fo_folded _ _ _ (sync_follows _ _ _ Hs)). rewrite (proj2 (Z.ltb_lt _ _)) by (cbn; lia).
    by eapply (fold_rounds (set_seq (branch_entry anchor id t b) k)). }
  assert (Hnew : Chain ((rs ++ [last]) ++ [r])).
  { constructor; [done|]. destruct Hal as [Hb Hst]. split; [exact Hh| |exact Hb|exact Hst].
    change (ReactRoundRecord.seq r) with k. assert (last ∈ react_rounds (projection c)) as Hin.
    { assert (last ∈ its_chain (projection c) anchor) as Hin by (rewrite Hch; set_solver).
      unfold chain_of in Hin. by apply list_elem_of_In, filter_In in Hin as [Hin%list_elem_of_In _]. }
    eapply live_round_seq in Hin; [|apply (fo_live _ _ _ (sync_follows _ _ _ Hs))|apply (fo_wf _ _ _ (sync_follows _ _ _ Hs))].
    unfold k. lia. }
  split; [done| |done| |done].
  - unfold chain_of in *. rewrite Hrec, List.filter_app, Hch. cbn [List.filter]. unfold on_chain. cbn. by rewrite !bool_decide_true.
  - eapply chains_add; [exact Hrec|done|]. cbn. by rewrite Hch.
Qed.

(** ** What leaves the rounds alone *)
Definition silent (c c' : C) : Prop :=
  same_log c c' /\ react_rounds (projection c') = react_rounds (projection c).
Lemma silent_refl c : silent c c.
Proof. split; [apply same_log_refl|done]. Qed.
Lemma silent_trans a b c : silent a b -> silent b c -> silent a c.
Proof. intros [? E1] [? E2]. split; [by eapply same_log_trans|by rewrite E2]. Qed.
Lemma silent_dispatch f c : silent c (with_dispatch f c).
Proof. split; [apply dispatch_same_log|done]. Qed.
Lemma silent_persist d c : silent c (persist_def d c).
Proof.
  split; [apply persist_same_log|]. unfold persist_def. destruct (core_store c) as [st|]; [|done]. by destruct (put st _) as [[]|?|].
Qed.
Lemma silent_write b c : silent c (store_write b c).2.
Proof. split; [apply store_write_same|apply qt_react, store_write_quiet]. Qed.
Lemma silent_turn m r w c : silent c (materialize_react_turn m r w c).
Proof.
  unfold materialize_react_turn. eapply silent_trans; [apply silent_persist|]. eapply silent_trans; [|apply silent_dispatch].
  split; [apply register_same_log|done].
Qed.
Lemma silent_tool m r w c : silent c (materialize_react_tool m r w c).
Proof.
  unfold materialize_react_tool. eapply silent_trans; [apply silent_persist|]. eapply silent_trans; [|apply silent_dispatch].
  split; [apply register_same_log|done].
Qed.
Lemma silent_ok c c' : silent c c' -> chains_ok (projection c) -> chains_ok (projection c').
Proof. intros [_ E]. by apply chains_same. Qed.
Lemma runs_silent {A E} k (a : A) c c' (Q : A -> C -> Prop) : silent c c' -> Q a c' -> runs (E := E) k c (Ok a, c') Q.
Proof. intros [Hl _] HQ. eapply runs_from; [done|]. by apply runs_ret. Qed.

(** ** The next turn *)
Definition keeps_chains {A} (_ : A) (c : C) : Prop := chains_ok (projection c).
Lemma added_keeps anchor rs last id t b P c (c' : C) : chains_ok (projection c) ->
  (exists n, added c anchor rs last (record_of_branch anchor id t b n) c') \/ c' = c /\ P -> chains_ok (projection c').
Proof. by intros Hok [(n & [])|[-> _]]. Qed.
(** [anchor] heads the chain [rs ++ [last]]. *)
Record on (s : State) (anchor : Rec) (rs : list Rec) (last : Rec) : Prop := {
  on_ok : chains_ok s;
  on_its : its_chain s anchor = rs ++ [last];
  on_header : header anchor = header last
}.
Lemma on_same anchor rs last c c' : silent c c' -> on (projection c) anchor rs last -> on (projection c') anchor rs last.
Proof. intros [_ E] [H1 H2 H3]. split; [by eapply chains_same|unfold chain_of in *; by rewrite E|done]. Qed.
Lemma on_chain_ok s anchor rs last : on s anchor rs last -> Chain (rs ++ [last]).
Proof. intros [H1 <- _]. apply H1. Qed.
Lemma runs_dead {A E} anchor rs last c (a : A) f : on (projection c) anchor rs last -> (stage last.(branch) < 3)%nat ->
  (forall c, silent c (f c)) ->
  runs (E := E) 1 c ((do! _ := append_react_branch anchor last.(turn_mote_id) last.(turn) ReactBranch.DeadLettered in fun c => (Ok a, f c)) c)
    (fun a' c' => a' = a /\ chains_ok (projection c')).
Proof.
  intros [Hok Hch Hh] Hst Hf. apply (runs_bind 1 0). eapply runs_mono; [reflexivity| |eapply (runs_branch anchor rs last)]; [|done..|].
  - intros [] c1 Had. eapply runs_silent; [apply Hf|]. split; [done|]. eapply silent_ok; [apply Hf|by eapply added_keeps].
  - split; [cbn; lia|]. left. split_and!; [done|done|]. split; [done|by intros [=]].
Qed.
Lemma runs_advance {E} anchor rs last c : on (projection c) anchor rs last -> (stage last.(branch) < 3)%nat ->
  (0 < stage last.(branch))%nat \/ lost last ->
  runs (E := E) 1 c (advance_react_chain anchor (rs ++ [last]) last.(turn) c) keeps_chains.
Proof.
  intros Hon Hst Hpos. pose proof (on_chain_ok _ _ _ _ Hon) as Hc. assert (Hsame : keeps_chains tt c) by apply Hon.
  unfold advance_react_chain. rewrite (chain_no_later _ _ Hc), (chain_last_of_turn _ _ Hc). cbv zeta.
  destruct (over_budget anchor _ _) eqn:Hb.
  - destruct (answerless (branch last)); [|by apply runs_ret].
    eapply runs_mono; [reflexivity| |apply (runs_dead anchor rs last c Settled (fun c => c)); [done|lia|apply silent_refl]]. by intros ?? [_ ?].
  - destruct (core_get _ c) as [instruction|]; [|by apply runs_ret]. destruct (negb _); [by apply runs_ret|].
    destruct (core_get _ c ≫= decode_warrant) as [w|]; [|by apply runs_ret].
    apply (runs_bind 1 0). destruct Hon as [Hok Hch Hh]. eapply runs_mono; [reflexivity| |eapply (runs_branch anchor rs last)]; [|done..|].
    + intros [] c1 Had. eapply runs_silent; [apply silent_turn|]. eapply silent_ok; [apply silent_turn|by eapply added_keeps].
    + split; [cbn; lia|]. right. split_and!; [done..|]. by rewrite <- (over_budget_header anchor last).
Qed.

(** ** The observations of a turn *)
Lemma runs_gate {E} now i o t v c : runs (E := E) 1 c (approval_gate_decision now i o t v c)
  (fun _ c' => react_rounds (projection c') = react_rounds (projection c)).
Proof.
  intros regs l n Hs Hr. unfold approval_gate_decision. cbv zeta.
  assert (Hsame : forall g, exists a c' regs' l', (Ok g : outcome ApprovalGate E, c) = (Ok a, c') /\ react_rounds (projection c') = react_rounds (projection c)
    /\ in_sync regs' l' c' /\ l `prefix_of` l' /\ room l' n).
  { intros g. exists g, c, regs, l. split_and!; try done. eapply room_le; [done|lia]. }
  destruct (ApprovalRecord.state <$> _) as [[]|]; try apply Hsame. unfold append_approval.
  set (e := Approval _ _ _ _ _). unfold cbind.
  destruct (offer_run regs l c e Hs) as [(j & Hj & Hok & Hs')|(x & Hx & _)]; [by apply plain_offered|by eapply room_le; [exact Hr|lia]| |rewrite Hx; apply Hsame].
  rewrite Hj, fold_quietly_run by done.
  eexists _, _, regs, (log_append l e).2. split_and!; [done| |done|apply log_append_prefix|by apply log_append_room].
  unfold advance. cbn [projection with_core_journal folded_through]. case_match; [|done].
  etrans; [by eapply (fold_rounds (log_append l e).1)|]. by rewrite app_nil_r.
Qed.
Definition called (anchor : Rec) (rs : list Rec) (last : Rec) (r : ReactChainStatus + bool) (c : C) : Prop :=
  match r with inl _ => chains_ok (projection c) | inr _ => on (projection c) anchor rs last end.
Lemma on_rounds anchor rs last (c c' : C) : react_rounds (projection c') = react_rounds (projection c) ->
  on (projection c) anchor rs last -> on (projection c') anchor rs last.
Proof. intros E [H1 H2 H3]. split; [by eapply chains_same|unfold chain_of in *; by rewrite E|done]. Qed.
Lemma runs_chain_dead {E} k anchor rs last c f : (1 <= k)%nat -> on (projection c) anchor rs last -> (stage last.(branch) < 3)%nat ->
  (forall c, silent c (f c)) ->
  runs (E := E) k c (chain_dead anchor last.(turn_mote_id) last.(turn) f c) (called anchor rs last).
Proof.
  intros Hk Hon Hst Hf. unfold chain_dead. eapply runs_mono; [exact Hk| |by apply (runs_dead anchor rs last c (inl Settled : ReactChainStatus + bool) f)].
  by intros ? c' [-> H].
Qed.
Lemma runs_call {E} (tools : R) now anchor rs last w i call c : on (projection c) anchor rs last -> (stage last.(branch) <= 1)%nat ->
  runs (E := E) 2 c (progress_call tools now anchor last.(turn) last.(turn_mote_id) w i call c) (called anchor rs last).
Proof.
  intros Hon Hst. unfold progress_call. destruct call as [tool version]. cbv zeta. set (obs := build_chain_tool _ _ _ _ _ _ _ _).
  case_bool_decide; [by apply runs_ret|]. destruct (is_terminal _).
  { destruct (crash_retryable _ _); [apply runs_ret, Hon|]. set (reason := bounded_reason _). destruct Hon as [Hok Hch Hh].
    apply (runs_bind 1 1). eapply (runs_mono 1); [done| |eapply (runs_branch anchor rs last)]; [|done..|].
    - intros [] c1 Had. apply runs_ret. by eapply added_keeps.
    - split; [cbn; lia|]. left. split_and!; [done|done|]. split; [cbn [stage]; lia|by intros [=]]. }
  apply runs_pre. intros Hi. unfold cbind at 1, cask. set (permanent := if is_leased _ _ then _ else _).
  assert (exists b, permanent = Ok b) as [b ->].
  { unfold permanent. destruct (is_leased _ _); [by eexists|].
    destruct (resolve_tool_args_total obs w (projection c) (core_store c) tools Hi) as [[] ->]; by eexists. }
  destruct b; [apply runs_chain_dead; [lia|done|lia|intros; apply silent_dispatch]|].
  apply (runs_bind 1 1). assert (Hgo : forall g c1, react_rounds (projection c1) = react_rounds (projection c) -> runs (E := E) 1 c1
    (match g with
     | Wait => cret (inr false)
     | DeadLetter => chain_dead anchor last.(turn_mote_id) last.(turn) (fun c => c)
     | Proceed => fun c => (Ok (inr false), materialize_react_tool obs anchor.(ReactRoundRecord.warrant_ref) w c)
     end c1) (called anchor rs last)).
  { intros g c1 E1. pose proof (on_rounds _ _ _ _ _ E1 Hon) as Hon1. destruct g.
    - eapply runs_silent; [apply silent_tool|]. eapply on_same; [apply silent_tool|done].
    - by apply runs_ret.
    - apply runs_chain_dead; [lia|done|lia|apply silent_refl]. }
  destruct (_ && _); [|apply runs_ret; by apply (Hgo Proceed)].
  eapply runs_mono; [reflexivity| |apply runs_gate]. intros g c1 E1. by apply Hgo.
Qed.
Lemma runs_calls {E} (tools : R) now anchor rs last w calls : (stage last.(branch) <= 1)%nat ->
  forall i b c, on (projection c) anchor rs last ->
  runs (E := E) (2 * length calls) c (progress_calls tools now anchor last.(turn) last.(turn_mote_id) w i b calls c) (called anchor rs last).
Proof.
  intros Hst. induction calls as [|call calls IH]; intros i b c Hon; cbn [progress_calls]; [by apply runs_ret|].
  replace (2 * length (call :: calls))%nat with (2 + 2 * length calls)%nat by (cbn; lia).
  apply runs_bind. eapply runs_mono; [reflexivity| |by apply runs_call]. intros [st|landed] c1 H1; [by apply runs_ret|by apply IH].
Qed.
Lemma runs_rerank {E} env anchor t id calls c : runs (E := E) 1 c (maybe_gate_on_rerank env anchor t id calls c)
  (fun _ c' => react_rounds (projection c') = react_rounds (projection c)).
Proof.
  unfold maybe_gate_on_rerank. destruct (core_store c) as [store|]; [|by apply runs_ret]. destruct (negb _); [by apply runs_ret|].
  destruct (retrieve_index calls) as [k|]; [|by apply runs_ret]. cbv zeta. set (obs := build_chain_tool _ _ _ _ _ _ _ _).
  destruct (result_ref_of _ _) as [obs_ref|]; [|by apply runs_ret].
  destruct (_ ≫= _) as [[query n]|]; [|by apply runs_ret]. destruct (n <? 2)%nat; [by apply runs_ret|].
  destruct (silent_write query c) as [Hl Er]. destruct (store_write query c) as [[q|] c1]; cbn [snd] in *;
    (eapply runs_from; [exact Hl|]); [|by apply runs_ret]. rewrite <- Er. clear Hl Er.
  destruct (core_get _ c1 ≫= decode_warrant) as [w|]; [|by apply runs_ret]. set (m := build_rerank_turn _ _ _ _ _).
  destruct (latest_rerank_round _ _) eqn:El; [by apply runs_ret|]. unfold write_rerank_anchor. rewrite El.
  intros regs l k' Hs Hr. unfold cbind at 1, cmap_err. set (e := ReRankRound _ _ _ _ _ _ _ _ _ _).
  destruct (offer_run regs l c1 e Hs) as [(j & Hj & Hok & Hs')|(x & Hx & _)]; [by apply plain_offered|by eapply room_le; [exact Hr|lia]| |].
  2: { rewrite Hx. cbn [omap_err]. exists false, c1, regs, l. split_and!; try done. eapply room_le; [exact Hr|lia]. }
  rewrite Hj. cbn [omap_err]. rewrite fold_new_run by done. cbn [omap_err].
  destruct (silent_turn m (ReactRoundRecord.warrant_ref anchor) w (advance (with_core_journal j c1) (log_append l e).1)) as [Hl2 Er2].
  destruct (Hl2 _ _ Hs') as (regs2 & _ & Hs2). eexists _, _, regs2, (log_append l e).2.
  split_and!; [done| |done|apply log_append_prefix|by apply log_append_room]. rewrite Er2.
  unfold advance. cbn [projection with_core_journal folded_through]. case_match; [|done].
  etrans; [by eapply (fold_rounds (log_append l e).1)|]. by rewrite app_nil_r.
Qed.
Lemma runs_batch {E} env (tools : R) now anchor rs last calls c : on (projection c) anchor rs last -> (stage last.(branch) <= 1)%nat ->
  (0 < stage last.(branch))%nat \/ lost last ->
  runs (E := E) (2 * length calls + 2) c (progress_tool_batch env tools now anchor (rs ++ [last]) last.(turn) last.(turn_mote_id) calls c)
    keeps_chains.
Proof.
  intros Hon Hst Hpos. assert (Hsame : keeps_chains tt c) by apply Hon. unfold progress_tool_batch.
  destruct (core_get _ c ≫= decode_warrant) as [w|]; [|by apply runs_ret]. cbv zeta. destruct (_ && _).
  { eapply runs_mono; [| |apply (runs_dead anchor rs last c Settled (fun c => c)); [done|lia|apply silent_refl]]; [lia|by intros ?? [_ ?]]. }
  apply runs_bind. eapply runs_mono; [reflexivity| |by apply runs_calls]. intros [st|[]] c1 H1; [by apply runs_ret| |by apply runs_ret, H1].
  apply (runs_bind 1 1). eapply runs_mono; [reflexivity| |apply runs_rerank]. intros waits c2 E2.
  pose proof (on_rounds _ _ _ _ _ E2 H1) as Hon2. destruct waits; [by apply runs_ret, Hon2|]. apply runs_advance; [done|lia|done].
Qed.

(** ** A pass over one chain *)
Lemma decided_fits store s rounds t raw w (tools : R) b : decided to_lowercase store s rounds t raw w tools b ->
  (0 < stage b)%nat /\ (length (branch_calls b) <= MAX_TOOL_BATCH_CALLS)%nat.
Proof.
  destruct b as [|i v| | |reason|cs]; cbn [decided stage branch_calls]; try done; unfold MAX_TOOL_BATCH_CALLS; try (cbn; lia).
  intros (calls & _ & _ & ? & _). unfold MAX_TOOL_BATCH_CALLS in *. lia.
Qed.
Lemma on_added anchor rs last r (c c' : C) : added c anchor rs last r c' -> on (projection c') anchor (rs ++ [last]) r.
Proof. by intros []. Qed.
Definition pass_room : nat := 2 * MAX_TOOL_BATCH_CALLS + 3.
Lemma runs_pending {E} env (tools : R) now anchor rs last c : on (projection c) anchor rs last -> last.(branch) = ReactBranch.Pending ->
  runs (E := E) pass_room c (drive_pending to_lowercase env tools now anchor.(ReactRoundRecord.instance_id)
    anchor.(ReactRoundRecord.step_salt) anchor last (rs ++ [last]) c) keeps_chains.
Proof.
  intros Hon Hb. assert (Hsame : keeps_chains tt c) by apply Hon. unfold drive_pending. cbv zeta.
  destruct (negb (is_terminal _)); [by apply runs_ret|]. destruct (negb _).
  { destruct (crash_retryable _ _); [by apply runs_ret|].
    eapply runs_mono; [| |apply (runs_dead anchor rs last c Settled (fun c => c)); [done|rewrite Hb; cbn; lia|apply silent_refl]];
      [unfold pass_room; lia|by intros ?? [_ ?]]. }
  destruct (core_store c) as [store|]; [|by apply runs_ret]. destruct (result_ref_of _ _ ≫= _) as [raw|]; [|by apply runs_ret].
  destruct (core_get _ c ≫= decode_warrant) as [w|]; [|by apply runs_ret].
  destruct (decided_by to_lowercase store (projection c) (rs ++ [last]) (turn last) raw w tools) as (b & -> & Hd).
  destruct (decided_fits _ _ _ _ _ _ _ _ Hd) as [Hst Hlen]. unfold pass_room. replace (2 * MAX_TOOL_BATCH_CALLS + 3)%nat with (1 + (2 * MAX_TOOL_BATCH_CALLS + 2))%nat by lia.
  apply runs_bind. destruct Hon as [Hok Hch Hh]. eapply runs_mono; [reflexivity| |eapply (runs_branch anchor rs last)]; [|done..|].
  2: { split; [done|]. left. split_and!; [done|done|]. split; [by rewrite Hb|done]. }
  intros [] c1 Hc1.
  (* the frontier the pass goes on from: the decision, or the turn whose decision was lost *)
  assert (exists rs1 r, on (projection c1) anchor rs1 r /\ r.(turn) = last.(turn) /\ r.(turn_mote_id) = last.(turn_mote_id)
    /\ ((stage b < 3)%nat -> (stage r.(branch) <= stage b)%nat /\ ((0 < stage r.(branch))%nat \/ lost r))) as (rs1 & r & Hon1 & Et & Eid & Hr).
  { destruct Hc1 as [(n & Had)|[-> Hno]].
    - exists (rs ++ [last]), (record_of_branch anchor (turn_mote_id last) (turn last) b n). split_and!; [by eapply on_added|done|done|].
      intros _. cbn. split; [done|by left].
    - exists rs, last. split_and!; [done|done|done|]. intros H3. rewrite Hb. cbn. split; [lia|]. right. by exists b. }
  assert (Hsame1 : keeps_chains tt c1) by apply Hon1.
  assert (Hbatch : forall calls, stage b = 1%nat -> (length calls <= MAX_TOOL_BATCH_CALLS)%nat ->
    runs (E := E) (2 * MAX_TOOL_BATCH_CALLS + 2) c1 (cbind (chain_rounds (ReactRoundRecord.instance_id anchor) (ReactRoundRecord.step_salt anchor))
      (fun rounds => progress_tool_batch env tools now anchor rounds (turn last) (turn_mote_id last) calls) c1) keeps_chains).
  { intros calls Hs1 Hl. apply runs_chain. rewrite (on_its _ _ _ _ Hon1), <- Et, <- Eid. destruct Hr as [Hr1 Hr2]; [lia|].
    eapply runs_le; [|apply (runs_batch env tools now anchor rs1 r calls c1); [done|lia|done]]. lia. }
  destruct b as [|i v| | |reason|cs]; try (by apply runs_ret).
  - apply Hbatch; [done|unfold MAX_TOOL_BATCH_CALLS; cbn; lia].
  - apply runs_chain. rewrite (on_its _ _ _ _ Hon1), <- Et. destruct Hr as [Hr1 Hr2]; [cbn; lia|]. cbn in Hr1.
    eapply runs_le; [|apply (runs_advance anchor rs1 r c1); [done|lia|done]]. lia.
  - by apply Hbatch.
Qed.
Lemma chain_of_empty_or s inst salt : chain_of s inst salt = [] \/ exists rs last, chain_of s inst salt = rs ++ [last].
Proof. destruct (chain_of s inst salt) as [|last rs _] using rev_ind; [by left|right; eauto]. Qed.
Lemma on_anchor (c : C) inst salt rs last : chains_ok (projection c) -> chain_of (projection c) inst salt = rs ++ [last] ->
  exists anchor, turn_zero (rs ++ [last]) = Some anchor /\ on (projection c) anchor rs last
    /\ anchor.(ReactRoundRecord.instance_id) = inst /\ anchor.(ReactRoundRecord.step_salt) = salt.
Proof.
  intros Hok Hch. assert (Hc : Chain (rs ++ [last])) by (rewrite <- Hch; apply Hok).
  destruct (chain_turn_zero _ _ Hc) as (a & Ha & _ & Hh).
  assert (on_chain inst salt a = true) as [<-%bool_decide_eq_true <-%bool_decide_eq_true]%andb_true_iff.
  { apply List.find_some in Ha as [Ha _]. rewrite <- Hch in Ha. by apply filter_In in Ha as [_ ?]. }
  by exists a.
Qed.
Lemma chain_batch rs last : Chain (rs ++ [last]) -> (length (branch_calls last.(branch)) <= MAX_TOOL_BATCH_CALLS)%nat.
Proof.
  revert rs last. apply (chain_last_ind (fun _ last => (length (branch_calls last.(branch)) <= MAX_TOOL_BATCH_CALLS)%nat)).
  - intros r _ ->. cbn. lia.
  - by intros rs last r _ [_ _ H _] _.
Qed.
Lemma runs_drive {E} env (tools : R) now inst salt c : chains_ok (projection c) ->
  runs (E := E) pass_room c (drive_react_chain to_lowercase env tools now inst salt c) keeps_chains.
Proof.
  intros Hok. unfold drive_react_chain. apply runs_chain. destruct (chain_of_empty_or (projection c) inst salt) as [->|(rs & last & Hch)]; [by apply runs_ret|].
  rewrite Hch. destruct (on_anchor c inst salt rs last Hok Hch) as (anchor & -> & Hon & <- & <-).
  pose proof (on_chain_ok _ _ _ _ Hon) as Hc. rewrite (chain_frontier _ _ Hc). pose proof (chain_batch _ _ Hc) as Hl.
  destruct (branch last) as [|i v| | |reason|cs] eqn:Hb; try (by apply runs_ret).
  - eapply runs_le; [|apply (runs_batch env tools now anchor rs last [(i, v)] c); [done|rewrite Hb; cbn; lia..]]. unfold pass_room, MAX_TOOL_BATCH_CALLS. cbn. lia.
  - by apply runs_pending.
  - eapply runs_le; [|apply (runs_advance anchor rs last c); [done|rewrite Hb; cbn; lia..]]. unfold pass_room. lia.
  - eapply runs_le; [|apply (runs_batch env tools now anchor rs last cs c); [done|rewrite Hb; cbn; lia..]]. cbn in Hl. unfold pass_room. lia.
Qed.

(** ** The step a chain was launched for *)
Lemma fold_other e s : round_of e = None -> react_rounds (fold None e s).1 = react_rounds s.
Proof.
  destruct e; cbn [fold round_of]; intros E; try done.
  - unfold fold_committed. by case_bool_decide.
  - cbn [fold_run_metadata fold_react_metadata fst]. unfold index_last_approval. by repeat case_match.
Qed.
Lemma runs_append {E} e f c : round_of e = None -> (forall l, offerable l e) -> (forall c, silent c (f c)) ->
  runs (E := E) 1 c (append_then e f c) (fun _ c' => react_rounds (projection c') = react_rounds (projection c)).
Proof.
  intros He Hw Hf regs l n Hs Hr. destruct (append_then_total (E := E) regs l c e f n Hs (Hw l) Hr) as [(c1 & H1 & H2 & H3 & _ & _ & H6)|[H1 _]].
  2: { exists tt, c, regs, l. split_and!; try done. eapply room_le; [exact Hr|lia]. }
  destruct (Hf c1) as [Hl Er]. destruct (Hl _ _ H2) as (regs' & _ & Hs'). exists tt, (f c1), regs', (log_append l e).2.
  split_and!; try done; [|apply log_append_prefix]. rewrite Er, H6, (fo_folded _ _ _ (sync_follows _ _ _ Hs)).
  destruct (log_append_cases l e) as [[Hin _]|(_ & -> & _)].
  - pose proof (contiguous_seq_le _ _ (proj1 (fo_wf _ _ _ (sync_follows _ _ _ Hs))) Hin). by rewrite (proj2 (Z.ltb_ge _ _)) by lia.
  - rewrite set_seq_seq, (proj2 (Z.ltb_lt _ _)) by lia. apply fold_other. by destruct e.
Qed.
Lemma runs_finalize {E} inst salt c : chains_ok (projection c) ->
  runs (E := E) 1 c (finalize_agentic_launch inst salt c) keeps_chains.
Proof.
  intros Hok. unfold finalize_agentic_launch. destruct (is_terminal _); [by apply runs_ret|].
  destruct (defs _ !! salt) as [[launch w]|]; [|by apply runs_ret]. apply runs_chain.
  destruct (answer_turn _) as [id|].
  - destruct (result_ref_of _ id) as [r|]; [|by apply runs_ret]. destruct (core_get r c) as [raw|]; [|by apply runs_ret].
    assert (Hs : silent c (served_ref r raw c).2).
    { unfold served_ref. destruct (answer_arm raw) as [b|]; [|apply silent_refl]. pose proof (silent_write b c). by destruct (store_write b c). }
    destruct (served_ref r raw c) as [served c1]. cbn [snd] in Hs. eapply runs_from; [apply Hs|]. apply (runs_bind 1 0).
    eapply runs_mono; [reflexivity| |apply runs_append; [done|intros; apply subject_offered|intros; apply silent_dispatch]].
    intros [] c2 E2. apply runs_ret. eapply chains_same; [exact E2|]. by eapply silent_ok.
  - apply (runs_bind 1 0).
    eapply runs_mono; [reflexivity| |apply runs_append; [done|intros; apply plain_offered; [cbn; lia|done..]|intros; apply silent_dispatch]].
    intros [] c2 E2. apply runs_ret. by eapply chains_same.
Qed.
Lemma runs_settle_chain {E} env (tools : R) now inst salt c : chains_ok (projection c) ->
  runs (E := E) (pass_room + 1) c (settle_react_chain to_lowercase env tools now inst salt c) keeps_chains.
Proof.
  intros Hok. unfold settle_react_chain. apply runs_bind. eapply runs_mono; [reflexivity| |by apply runs_drive]. intros st c1 H1.
  destruct salt as [salt|]; [|by apply runs_ret]. destruct st; [by apply runs_ret|]. unfold chain_is_agentic_launch.
  apply runs_pre. intros Hi. unfold cbind at 1 2. rewrite chain_rounds_run by done. cbn [cret].
  destruct (match turn_zero _ with Some _ => _ | None => _ end); [by apply runs_finalize|by apply runs_ret].
Qed.
Lemma runs_settle_chains {E} env (tools : R) now keys : forall c, chains_ok (projection c) ->
  runs (E := E) (length keys * (pass_room + 1)) c (settle_chains to_lowercase env tools now keys c) keeps_chains.
Proof.
  induction keys as [|key keys IH]; intros c Hok; cbn [settle_chains length Nat.mul]; [by apply runs_ret|].
  apply runs_bind. eapply runs_mono; [reflexivity| |by apply runs_settle_chain]. intros st c1 H1.
  rewrite <- (Nat.add_0_r (length keys * _)). apply runs_bind. eapply runs_mono; [reflexivity| |by apply IH]. intros rest c2 H2. by apply runs_ret.
Qed.
Lemma runs_settle {E} env (tools : R) now cache c : chains_ok (projection c) ->
  runs (E := E) (length (refreshed (projection c) cache) * (pass_room + 1)) c (settle_react_rounds to_lowercase env tools now cache c) keeps_chains.
Proof.
  intros Hok. unfold settle_react_rounds. destruct (negb _); [by apply runs_ret|]. destruct (core_store c); [|by apply runs_ret].
  rewrite <- (Nat.add_0_r (length _ * _)). apply runs_bind. eapply runs_mono; [reflexivity| |by apply runs_settle_chains].
  intros r c1 H1. by apply runs_ret.
Qed.

(** ** Launching and recovering *)
Lemma chains_one_anchor s s' : one_anchor s s' -> chains_ok s -> chains_ok s'.
Proof.
  intros [E|(x & E & Ht & Hb & Hn)] Hok; [by eapply chains_same|]. eapply chains_add; [exact E|done|].
  destruct (decide (chain_of s (ReactRoundRecord.instance_id x) (ReactRoundRecord.step_salt x) = [])) as [->|Hne]; [by constructor|].
  destruct (chain_head _ Hne (Hok _ _)) as (a & rs' & Ea & Ha). exfalso. apply not_true_iff_false in Hn. apply Hn, existsb_exists.
  assert (In a (chain_of s (ReactRoundRecord.instance_id x) (ReactRoundRecord.step_salt x))) as [Hin Hon]%filter_In by (rewrite Ea; by left).
  exists a. by rewrite Hon, Ha.
Qed.
Lemma runs_anchor inst salt agentic turn0 w mt mc ap c : chains_ok (projection c) ->
  forall regs l n, in_sync regs l c -> room l (1 + n) ->
  exists r c' regs' l', write_react_anchor inst salt agentic turn0 w mt mc ap c = (r, c') /\ r <> Panic /\ chains_ok (projection c')
    /\ in_sync regs' l' c' /\ l `prefix_of` l' /\ room l' n.
Proof.
  intros Hok regs l n Hs Hr. destruct (write_anchor_runs inst salt agentic turn0 w mt mc ap regs l c n Hs Hr) as (r & c' & E1 & [A1 (regs' & l' & A2 & A3 & A4) _ _ A5 _]).
  exists r, c', regs', l'. split_and!; try done. by eapply chains_one_anchor.
Qed.
Lemma seed_params_total env mote : react_seed_params env mote <> Panic.
Proof.
  unfold react_seed_params. case_match; [|done]. repeat (apply obind_total; [unfold cap_param; by repeat case_match|intros ?]).
  destruct (_ || _); [done|]. apply obind_total; [by repeat case_match|done].
Qed.
Lemma runs_launch env x c : chains_ok (projection c) -> runs 1 c (settle_launch env x c) keeps_chains.
Proof.
  intros Hok. unfold settle_launch. destruct x as [launch_id inst].
  assert (Hunpark : forall c, silent c (unpark_launch launch_id c)) by (intros; apply silent_dispatch).
  assert (Hdone : forall c1, chains_ok (projection c1) -> runs (E := unit) 0 c1 (modify (unpark_launch launch_id) c1) keeps_chains).
  { intros c1 H1. eapply runs_silent; [apply Hunpark|by eapply silent_ok]. }
  assert (Hdead : runs (E := unit) 1 c ((do! _ := dead_letter_agentic_launch launch_id in modify (unpark_launch launch_id)) c) keeps_chains).
  { apply (runs_bind 1 0). eapply runs_mono; [reflexivity| |apply runs_append; [done|intros; apply plain_offered; [cbn; lia|done..]|intros; apply silent_dispatch]].
    intros [] c1 E1. apply Hdone. by eapply chains_same. }
  destruct (defs _ !! launch_id) as [[launch w]|]; [|eapply runs_le; [|by apply Hdone]; lia].
  destruct (negb _); [eapply runs_le; [|by apply Hdone]; lia|]. destruct (scan_parents _ _ _) as [ac pf].
  destruct pf; [exact Hdead|]. destruct (negb ac); [by apply runs_ret|]. apply runs_chain.
  destruct (existsb _ _); [eapply runs_le; [|by apply Hdone]; lia|]. pose proof (seed_params_total (env_approval env) launch) as Ht.
  destruct (react_seed_params _ _) as [[[instruction caps] approval]|e|]; [|exact Hdead|done].
  intros regs l n Hs Hr. unfold anchor_launch. cbv zeta.
  edestruct (runs_anchor inst (Some launch_id)) as (r & c1 & regs1 & l1 & E1 & Hp & H1 & S1 & P1 & R1); [done|done|exact Hr|].
  rewrite E1. destruct r as [[]|e|]; [| |done].
  - set (turn0 := build_agentic_turn _ _ _ _ _ _).
    assert (Hsil : silent c1 (unpark_launch launch_id (materialize_react_turn turn0 (Warrant.warrant_ref_of w) w c1)))
      by (eapply silent_trans; [apply silent_turn|apply Hunpark]).
    destruct (proj1 Hsil _ _ S1) as (regs2 & _ & S2). eexists tt, _, regs2, l1. split_and!; try done. by eapply (silent_ok c1).
  - by exists tt, c1, regs1, l1.
Qed.
Lemma runs_each {A} k (step : A -> comp C unit unit) xs :
  (forall x c, chains_ok (projection c) -> runs k c (step x c) keeps_chains) ->
  forall c, chains_ok (projection c) -> runs (length xs * k) c (each step xs c) keeps_chains.
Proof.
  intros Hst. induction xs as [|x xs IH]; intros c Hok; cbn [each length Nat.mul]; [by apply runs_ret|].
  apply runs_bind. eapply runs_mono; [reflexivity| |by apply Hst]. intros [] c1 H1. by apply IH.
Qed.
(** The chains are those they were. *)
Definition same_chains (c c' : C) : Prop :=
  silent c c' /\ react_index (projection c') = react_index (projection c) /\ has_store c' = has_store c.
Lemma same_chains_refl c : same_chains c c.
Proof. split; [apply silent_refl|done]. Qed.
Lemma same_chains_turn m r w c : same_chains c (materialize_react_turn m r w c).
Proof.
  split; [apply silent_turn|]. unfold materialize_react_turn. cbn. unfold persist_def, has_store. destruct (core_store c) eqn:E; cbn; [|by rewrite E].
  destruct (put _ _) as [[]|?|]; cbn; by rewrite ?E.
Qed.
Lemma recover_chain_same {E} key c : indices_ok (projection c) -> exists c', recover_chain (E := E) key c = (Ok tt, c') /\ same_chains c c'.
Proof.
  intros Hi. unfold recover_chain. destruct key as [inst salt]. unfold cbind. rewrite chain_rounds_run by done.
  assert (Hsame : exists c', (Ok tt : outcome unit E, c) = (Ok tt, c') /\ same_chains c c') by (exists c; split; [done|apply same_chains_refl]).
  destruct (frontier _) as [latest|]; [|done]. destruct (_ || _); [done|]. destruct (core_get _ c) as [i|]; [|done].
  destruct (core_get _ c ≫= decode_warrant) as [w|]; [|done]. destruct (negb _); [done|]. cbv zeta. case_bool_decide; [|done].
  eexists. split; [done|apply same_chains_turn].
Qed.
Lemma runs_recover_chains {E} keys : forall c, runs (E := E) 0 c (each recover_chain keys c) (fun _ c' => same_chains c c').
Proof.
  induction keys as [|key keys IH]; intros c; cbn [each]; [apply runs_ret, same_chains_refl|].
  apply runs_pre. intros Hi. unfold cbind. destruct (recover_chain_same (E := E) key c Hi) as (c1 & -> & [Hl Er] & Ei & Est).
  eapply runs_from; [exact Hl|]. eapply runs_mono; [reflexivity| |apply IH]. intros [] c2 ([Hl2 Er2] & Ei2 & Est2).
  split_and!; [by eapply silent_trans|by rewrite Ei2|by rewrite Est2].
Qed.
Lemma same_refreshed c c' cache : same_chains c c' -> refreshed (projection c') cache = refreshed (projection c) cache.
Proof. intros ([_ Er] & Ei & _). unfold refreshed, react_chain_keys. by rewrite Er, Ei. Qed.
Lemma runs_recover {E} env (tools : R) now cache c : chains_ok (projection c) ->
  runs (E := E) (length (refreshed (projection c) cache) * (pass_room + 1)) c (recover_react_chain to_lowercase env tools now cache c) keeps_chains.
Proof.
  intros Hok. unfold recover_react_chain. destruct (negb _); [by apply runs_ret|]. destruct (core_store c); [|by apply runs_ret].
  apply (runs_bind 0). eapply runs_mono; [reflexivity| |apply runs_recover_chains]. intros [] c1 Hs. rewrite <- (same_refreshed c c1) by done.
  apply runs_settle. eapply silent_ok; [apply Hs|done].
Qed.

(** What a pass leaves: it has returned, the core is in step, the journal has only
    grown, and every chain is in the grammar. *)
Definition passes {A E} (l : list JournalEntry) (run : outcome A E * C) : Prop :=
  exists a c' regs' l', run = (Ok a, c') /\ in_sync regs' l' c' /\ l `prefix_of` l' /\ chains_ok (projection c').
Lemma runs_passes {A E} k c (run : outcome A E * C) regs l : runs k c run keeps_chains -> in_sync regs l c -> room l k -> passes l run.
Proof.
  intros Hm Hs Hr. destruct (Hm regs l 0%nat Hs) as (a & c' & regs' & l' & E1 & HQ & S1 & P1 & _); [by rewrite Nat.add_0_r|].
  by exists a, c', regs', l'.
Qed.

(** ** The turn in flight, across a restart *)
Lemma filter_keeps_all {A} (p : A -> bool) l : (forall x, x ∈ l -> p x = true) -> List.filter p l = l.
Proof. induction l as [|x l IH]; intros H; [done|]. cbn. rewrite (H x) by set_solver. f_equal. apply IH. set_solver. Qed.
Lemma rebuilt_is_next anchor rs last b n instruction w :
  Chain (rs ++ [last]) -> header anchor = header last ->
  let next := next_turn_mote anchor (render_turn_instruction instruction (reject_reason last)
                (near_budget anchor (spent_calls (rs ++ [last])) (last.(turn) + 1))) (last.(turn) + 1) w in
  let r := record_of_branch anchor next.(Mote.mote_id) (last.(turn) + 1) b n in
  rebuilt_turn ((rs ++ [last]) ++ [r]) r instruction anchor.(ReactRoundRecord.instance_id) anchor.(ReactRoundRecord.step_salt) w = next.
Proof.
  intros Hc Hh next r. unfold rebuilt_turn. destruct (chain_facts _ _ Hc) as [H0 Hy].
  assert (List.filter (fun x => x.(turn) <? r.(turn)) ((rs ++ [last]) ++ [r]) = rs ++ [last]) as ->.
  { rewrite List.filter_app. cbn [List.filter]. rewrite Z.ltb_irrefl, app_nil_r. apply filter_keeps_all.
    intros x [Hx|Hx%list_elem_of_singleton]%elem_of_app; apply Z.ltb_lt; cbn; [|subst; lia]. destruct (Hy x Hx) as [[? _] _]. lia. }
  change (turn r) with (turn last + 1). rewrite (proj2 (Z.eqb_neq _ _)) by lia. replace (turn last + 1 - 1) with (turn last) by lia.
  rewrite (chain_last_of_turn _ _ Hc). cbn [mbind option_bind]. done.
Qed.
(** [C19] A turn in flight survives a restart: once [advance_react_chain] has recorded
    and dispatched the next turn, any later core with the same chain and blobs, in
    which the turn has not ended, puts the same Mote back to work. The turn is
    dispatched even when the journal refuses its record; it is put back when the
    journal took it. *)
Theorem turn_in_flight_rebuilt regs l (c : C) anchor rs last instruction w :
  in_sync regs l c -> room l 1 -> on (projection c) anchor rs last -> (0 < stage last.(branch) < 3)%nat ->
  last.(turn) + 1 < 2 ^ 32 -> over_budget anchor (spent_calls (rs ++ [last])) (last.(turn) + 1) = false ->
  core_get anchor.(ReactRoundRecord.base_prompt_ref) c = Some instruction -> utf8_valid instruction = true ->
  core_get anchor.(ReactRoundRecord.warrant_ref) c ≫= decode_warrant = Some w ->
  exists next c1, advance_react_chain (E := unit) anchor (rs ++ [last]) last.(turn) c = (Ok Active, c1)
    /\ c1.(dispatched).(defs) !! next.(Mote.mote_id) = Some (next, w)
    /\ (accepts (branch_entry anchor next.(Mote.mote_id) (last.(turn) + 1) ReactBranch.Pending) ->
         forall regs2 l2 (c2 : C), in_sync regs2 l2 c2 ->
         its_chain (projection c2) anchor = its_chain (projection c1) anchor ->
         core_get anchor.(ReactRoundRecord.base_prompt_ref) c2 = Some instruction ->
         core_get anchor.(ReactRoundRecord.warrant_ref) c2 ≫= decode_warrant = Some w ->
         is_terminal (state_of_id (projection c2) next.(Mote.mote_id)) = false ->
         recover_chain (E := unit) (anchor.(ReactRoundRecord.instance_id), anchor.(ReactRoundRecord.step_salt)) c2
         = (Ok tt, materialize_react_turn next anchor.(ReactRoundRecord.warrant_ref) w c2)).
Proof.
  intros Hs Hr Hon Hst Ht Hb Hi Hu Hw. pose proof (on_chain_ok _ _ _ _ Hon) as Hc. destruct (chain_facts _ _ Hc) as [H0 _].
  assert (Hsat : u32_sat_add (turn last) 1 = turn last + 1) by (unfold u32_sat_add; lia).
  set (next := next_turn_mote anchor (render_turn_instruction instruction (reject_reason last)
                (near_budget anchor (spent_calls (rs ++ [last])) (last.(turn) + 1))) (last.(turn) + 1) w).
  destruct Hon as [Hok Hch Hh].
  destruct (runs_branch (E := unit) anchor rs last (Mote.mote_id next) (turn last + 1) ReactBranch.Pending c Hok Hch Hh) with (regs := regs) (l := l) (n := 0%nat)
    as ([] & c0 & regs0 & l0 & E0 & Had & S0 & _); [|done|by rewrite Nat.add_0_r|].
  { split; [cbn; lia|]. right. split_and!; [done|done|lia|left; lia|]. by rewrite Hsat, <- (over_budget_header anchor last). }
  exists next, (materialize_react_turn next anchor.(ReactRoundRecord.warrant_ref) w c0). split_and!.
  - unfold advance_react_chain. rewrite (chain_no_later _ _ Hc), (chain_last_of_turn _ _ Hc). cbv zeta. rewrite Hsat, Hb, Hi, Hu, Hw. cbn [negb mbind option_bind].
    fold next. unfold cbind. by rewrite E0.
  - unfold materialize_react_turn. cbn. by rewrite lookup_insert_eq.
  - rewrite (branch_entry_header _ _ _ _ _ Hh). intros Hacc regs2 l2 c2 S2 Ech Hi2 Hw2 Hnt. destruct Had as [(n & Had)|[_ Hno]]; [|done]. pose proof (rebuilt_is_next anchor rs last ReactBranch.Pending n instruction w Hc Hh) as Hre.
    cbv zeta in Hre. fold next in Hre. set (r := record_of_branch _ _ _ _ _) in *.
    assert (Hch2 : its_chain (projection c2) anchor = (rs ++ [last]) ++ [r]).
    { rewrite Ech, <- (ad_chain _ _ _ _ _ _ Had). unfold chain_of. by rewrite (proj2 (silent_turn next (ReactRoundRecord.warrant_ref anchor) w c0)). }
    unfold recover_chain, cbind. rewrite (chain_rounds_run _ _ c2 (sync_indices _ _ _ S2)), Hch2.
    assert (Hc2 : Chain ((rs ++ [last]) ++ [r])) by (rewrite <- (ad_chain _ _ _ _ _ _ Had); apply Had).
    rewrite (chain_frontier _ _ Hc2). change (branch r) with ReactBranch.Pending. rewrite bool_decide_true by done.
    change (turn_mote_id r) with (Mote.mote_id next). rewrite Hnt. cbn [negb orb].
    change (ReactRoundRecord.base_prompt_ref r) with (ReactRoundRecord.base_prompt_ref anchor).
    change (ReactRoundRecord.warrant_ref r) with (ReactRoundRecord.warrant_ref anchor).
    rewrite Hi2, Hw2, Hu. cbn [negb]. cbv zeta. by rewrite Hre, bool_decide_true.
Qed.
(** The first turn of a chain whose budget is one turn or one call does not: the
    rebuilt turn is nudged to answer, the recorded one was not, so unless the two
    identities collide the turn is not put back, and the chain stays pending. *)
Theorem first_turn_not_rebuilt regs l (c : C) r instruction w :
  in_sync regs l c ->
  chain_of (projection c) r.(ReactRoundRecord.instance_id) r.(ReactRoundRecord.step_salt) = [r] ->
  r.(turn) = 0 -> r.(ReactRoundRecord.max_turns) = 1 \/ r.(ReactRoundRecord.max_tool_calls) = 1 ->
  core_get r.(ReactRoundRecord.base_prompt_ref) c = Some instruction ->
  core_get r.(ReactRoundRecord.warrant_ref) c ≫= decode_warrant = Some w ->
  let first i := build_chain_turn r.(ReactRoundRecord.model_id) i 0 r.(ReactRoundRecord.instance_id) r.(ReactRoundRecord.step_salt)
                   w.(WarrantSpec.model_route).(ModelRoute.max_output_tokens) in
  r.(turn_mote_id) = (first instruction).(Mote.mote_id) ->
  (first (render_settle_nudge instruction)).(Mote.mote_id) <> (first instruction).(Mote.mote_id) ->
  recover_chain (E := unit) (r.(ReactRoundRecord.instance_id), r.(ReactRoundRecord.step_salt)) c = (Ok tt, c).
Proof.
  intros Hs Hch Ht Hcap Hi Hw first Hid Hne. unfold recover_chain, cbind. rewrite (chain_rounds_run _ _ c (sync_indices _ _ _ Hs)), Hch.
  cbn [frontier max_by foldl]. destruct (_ || _); [done|]. rewrite Hi, Hw. destruct (negb _); [done|]. cbv zeta.
  assert (rebuilt_turn [r] r instruction (ReactRoundRecord.instance_id r) (ReactRoundRecord.step_salt r) w = first (render_settle_nudge instruction)) as ->.
  { unfold rebuilt_turn. cbn [List.filter]. rewrite Z.ltb_irrefl, Ht. cbn [Z.eqb].
    assert (over_budget r (u32_sat_add (spent_calls []) 1) (u32_sat_add 0 1) = true) as ->; [|done].
    unfold over_budget. change (u32_sat_add (spent_calls []) 1) with 1. change (u32_sat_add 0 1) with 1.
    destruct Hcap as [->| ->]; [apply orb_true_r|done]. }
  by rewrite Hid, bool_decide_false.
Qed.
End Runs.

(** ** Concrete chains *)
Definition demo_rec (t : Z) (b : ReactBranch) (n : Z) : Rec :=
  {| turn := t; turn_mote_id := demo_id t; ReactRoundRecord.instance_id := replicate 16 7; ReactRoundRecord.base_prompt_ref := replicate 32 3;
     ReactRoundRecord.warrant_ref := replicate 32 5; ReactRoundRecord.model_id := str "m"; branch := b; ReactRoundRecord.max_turns := 2;
     ReactRoundRecord.max_tool_calls := 3; ReactRoundRecord.step_salt := None; ReactRoundRecord.is_agentic_launch := false;
     ReactRoundRecord.context_items_ref := None; ReactRoundRecord.image_ref := None; ReactRoundRecord.require_approval := false;
     ReactRoundRecord.seq := n |}.
Lemma demo_chain1 {lost} : Chain (lost := lost) [demo_rec 0 ReactBranch.Pending 1; demo_rec 0 (ReactBranch.Rejected (str "no")) 2].
Proof.
  apply (chain_next [] (demo_rec 0 ReactBranch.Pending 1)); [by constructor|]. split; [done|done|vm_compute; lia|].
  left. split_and!; [done|done|]. split; [vm_compute; lia|done].
Qed.
#[local] Existing Instance demo_blake3.
#[local] Existing Instance demo_bincode.
#[local] Existing Instance demo_serde.
#[local] Existing Instance demo_values.
#[local] Existing Instance demo_calls.
#[local] Existing Instance demo_scalars.
Definition demo_chain_entries : list JournalEntry :=
  [branch_entry (demo_rec 0 ReactBranch.Pending 1) (demo_id 0) 0 ReactBranch.Pending;
   branch_entry (demo_rec 0 ReactBranch.Pending 1) (demo_id 0) 0 (ReactBranch.Rejected (str "no"))].
Definition demo_of (es : list JournalEntry) (objects : gmap bytes bytes) : Demo :=
  with_core_store (Some {| objects := objects |})
    (foldl advance (with_core_journal (mem_journal (log_append_all [] es).2) demo_core) (log_append_all [] es).1).
Lemma demo_of_sync es objects : Z.of_nat (length (log_append_all [] es).2) < MAX_LOG ->
  Forall (fun e => (entry_kind e =? KIND_COMMITTED) = false /\ (entry_kind e =? KIND_REPUDIATED) = false) es ->
  in_sync [] (log_append_all [] es).2 (demo_of es objects).
Proof.
  intros Hl He. destruct (batch_follows [] es [] (with_core_journal (mem_journal (log_append_all [] es).2) demo_core)) as [[H1 H2 H3 H4 H5] _].
  - apply follows_journal, demo_core_sync.
  - eapply Forall_impl; [exact He|]. intros e [? ?]. by apply plain_sane.
  - destruct (advance_side (log_append_all [] es).1 (with_core_journal (mem_journal (log_append_all [] es).2) demo_core)) as [E _].
    split; [unfold demo_of; cbn [with_core_store core_journal]; rewrite E; split; [done..|exact H1]|].
    split; [exact H1|exact H2|exact H3|exact H4|exact H5].
Qed.
Definition demo_blobs : gmap bytes bytes := <[replicate 32 5 := bincode_encode demo_w]> {[replicate 32 3 := str "go"]}.
Definition demo_agent : Demo := demo_of demo_chain_entries demo_blobs.
Lemma demo_agent_sync : in_sync [] (log_append_all [] demo_chain_entries).2 demo_agent.
Proof. apply demo_of_sync; [by vm_compute|]. by repeat constructor. Qed.
Lemma demo_agent_rounds : react_rounds (projection demo_agent) = [demo_rec 0 ReactBranch.Pending 1; demo_rec 0 (ReactBranch.Rejected (str "no")) 2].
Proof. vm_compute. reflexivity. Qed.
Lemma demo_agent_ok : chains_ok (J := InMemoryJournal) (projection demo_agent).
Proof.
  intros inst salt. unfold chain_of. rewrite demo_agent_rounds. cbn [List.filter].
  change (on_chain inst salt (demo_rec 0 (ReactBranch.Rejected (str "no")) 2)) with (on_chain inst salt (demo_rec 0 ReactBranch.Pending 1)).
  destruct (on_chain _ _ _); [exact demo_chain1|constructor].
Qed.
Definition demo_env : ServeEnv := {| env_rerank := None; env_approval := None; env_per_turn := None; env_per_tool_call := None |}.
Lemma turn_in_flight_rebuilt_witness :
  exists next (c1 : Demo), advance_react_chain (E := unit) (demo_rec 0 ReactBranch.Pending 1)
      [demo_rec 0 ReactBranch.Pending 1; demo_rec 0 (ReactBranch.Rejected (str "no")) 2] 0 demo_agent = (Ok Active, c1)
    /\ c1.(dispatched).(defs) !! next.(Mote.mote_id) = Some (next, demo_w).
Proof.
  destruct (turn_in_flight_rebuilt (fun b => b) [] (log_append_all [] demo_chain_entries).2 demo_agent (demo_rec 0 ReactBranch.Pending 1)
    [demo_rec 0 ReactBranch.Pending 1] (demo_rec 0 (ReactBranch.Rejected (str "no")) 2) (str "go") demo_w) as (next & c1 & H1 & H2 & _).
  - exact demo_agent_sync.
  - by vm_compute.
  - split; [exact demo_agent_ok| |reflexivity]. unfold chain_of. rewrite demo_agent_rounds. reflexivity.
  - vm_compute. lia.
  - reflexivity.
  - vm_compute. reflexivity.
  - reflexivity.
  - vm_compute. reflexivity.
  - exact (f_equal (fmap fst) (bincode_decode_encode demo_w)).
  - exists next, c1. split; [exact H1|exact H2].
Defined.

(** A codec that numbers the two turns below. *)
Definition tagged_bincode `{B : Bincode A} `{!EqDecision A} (x y : A) : Bincode A.
Proof.
  refine {| bincode_encode := fun a => if bool_decide (a = x) then [1] else if bool_decide (a = y) then [2] else 0 :: bincode_encode a;
            bincode_decode := fun b => match b with
                                       | 0 :: b => (fun r => (r.1, Datatypes.S r.2)) <$> bincode_decode b
                                       | [1] => Some (x, 1%nat)
                                       | [2] => Some (y, 1%nat)
                                       | _ => None
                                       end |}.
  intros a. case_bool_decide; [by subst|]. case_bool_decide; [by subst|]. by rewrite bincode_decode_encode.
Defined.
Definition demo_first (instruction : bytes) : MoteDef :=
  turn_def (react_turn_id_material (replicate 16 7) 0) (str "m") (<[REACT_TURN_KEY := replicate 16 7]> {[PROMPT_KEY := instruction]}) false
    demo_w.(WarrantSpec.model_route).(ModelRoute.max_output_tokens).
Definition demo_tagged : Bincode MoteDef := tagged_bincode (demo_first (str "go")) (demo_first (render_settle_nudge (str "go"))).
Definition demo_single : Rec :=
  {| turn := 0; turn_mote_id := (build_chain_turn (H := demo_blake3) (Bincode0 := demo_tagged) (str "m") (str "go") 0 (replicate 16 7) None
       demo_w.(WarrantSpec.model_route).(ModelRoute.max_output_tokens)).(Mote.mote_id);
     ReactRoundRecord.instance_id := replicate 16 7; ReactRoundRecord.base_prompt_ref := replicate 32 3;
     ReactRoundRecord.warrant_ref := replicate 32 5; ReactRoundRecord.model_id := str "m"; branch := ReactBranch.Pending;
     ReactRoundRecord.max_turns := 1; ReactRoundRecord.max_tool_calls := 3; ReactRoundRecord.step_salt := None;
     ReactRoundRecord.is_agentic_launch := false; ReactRoundRecord.context_items_ref := None; ReactRoundRecord.image_ref := None;
     ReactRoundRecord.require_approval := false; ReactRoundRecord.seq := 1 |}.
Definition demo_single_entries : list JournalEntry := [branch_entry demo_single demo_single.(turn_mote_id) 0 ReactBranch.Pending].
Definition demo_single_agent : Demo := demo_of demo_single_entries demo_blobs.
Lemma first_turn_not_rebuilt_witness :
  recover_chain (Bincode0 := demo_tagged) (E := unit) (replicate 16 7, None) demo_single_agent = (Ok tt, demo_single_agent).
Proof.
  apply (first_turn_not_rebuilt (Bincode0 := demo_tagged) [] (log_append_all [] demo_single_entries).2 demo_single_agent demo_single (str "go") demo_w).
  - apply demo_of_sync; [by vm_compute|]. by repeat constructor.
  - reflexivity.
  - reflexivity.
  - by left.
  - vm_compute. reflexivity.
  - exact (f_equal (fmap fst) (bincode_decode_encode demo_w)).
  - reflexivity.
  - intros E. vm_compute in E. discriminate E.
Defined.
