(* ===== verification/Loop.v ===== *)
(** The owner thread of kx-coordinator (state.rs, [core_loop]): recovery at boot,
    then rounds of draining the inbox in arrival order, with consecutive commits
    grouped into one journal transaction, and running the settle passes. *)
From S2P Require Import Prelude Effects Utf8 CriticTypes Mote ContextItems Entry Journal Warrant Content DemoCodec ProjState ProjIndex ProjFold ProjHistory ProjQuery Materializer Scheduler Refusal Checkpoint Recovery Critic NativeCritic Digits ParamSchema Text ToolRegistry Toolcall ToolcallFacts ExactlyOnce Wire Workers Coordinator CoordSync Timers TimerFacts ReactShape Rerank Lease Replan Submit Pricing React.
Import JournalEntry.

Definition MAX_DRAIN : nat := 256.
Record PendingApprovalView := {
  pv_request_id : bytes; pv_instance_id : bytes; pv_mote_id : MoteId; pv_tool_id : bytes; pv_tool_version : bytes;
  pv_intent : bytes; pv_deadline_unix_ms : Z; pv_created_unix_ms : Z }.
Definition approval_view (r : ApprovalRecord) : option PendingApprovalView :=
  match r.(ApprovalRecord.state) with
  | ApprovalState.Requested tool_id tool_version intent deadline created => Some {|
      pv_request_id := r.(ApprovalRecord.request_id); pv_instance_id := r.(ApprovalRecord.instance_id);
      pv_mote_id := r.(ApprovalRecord.awaiting_mote_id); pv_tool_id := tool_id; pv_tool_version := tool_version;
      pv_intent := intent; pv_deadline_unix_ms := deadline; pv_created_unix_ms := created |}
  | _ => None
  end.
(** [(turns, tool_calls)] of a run. *)
Fixpoint cost_counts (s : State) (instance_id : bytes) (acc : Z * Z) (keys : list ChainKey) : outcome (Z * Z) unit :=
  match keys with
  | [] => Ok acc
  | (inst, salt) :: keys =>
      if negb (bool_decide (inst = instance_id)) then cost_counts s instance_id acc keys
      else
        let* latest := latest_react_round s inst salt in
        let* rounds := react_rounds_of s inst salt in
        let turns := match latest with
                     | Some r => u64_sat_add acc.1 (u64_sat_add r.(ReactRoundRecord.turn) 1)
                     | None => acc.1
                     end in
        let calls := foldl (fun n r => u64_sat_add n (Z.of_nat (call_units r.(ReactRoundRecord.branch)))) acc.2 rounds in
        cost_counts s instance_id (turns, calls) keys
  end.
Definition run_cost_counts (s : State) (instance_id : bytes) : outcome (Z * Z) unit :=
  cost_counts s instance_id (0, 0) (react_chain_keys s).

(** The commands, less their reply channels. *)
Module Command.
Inductive Command :=
| Submit (mote : Mote) (warrant : WarrantSpec) (accept_at_least_once react_seed : bool)
| Commit (proposal : CommitProposal)
| StateOf (mote_id : MoteId)
| CommittedCount
| ReadySet
| LeaseWork (worker : WorkerId) (executor_class : ExecutorClass) (max : nat)
| ReadEntries (since_seq : Z) (max : nat)
| Repudiate (target : MoteId) (reason : RepudiationReason) (repudiator_id : Z)
| ReportEffectStaged (mote_id : MoteId) (idempotency_key : bytes)
| ReportFailure (mote_id : MoteId) (idempotency_key : bytes) (reason_class : FailureReason) (worker : WorkerId) (detail : bytes)
| RegisterRun (recipe_fingerprint : bytes)
| RunRegistration
| RunResolvedVersions
| ListPendingApprovals
| GrantApproval (request_id : bytes) (approver_id : Z) (reason : bytes)
| DenyApproval (request_id : bytes) (denier_id : Z) (reason : bytes)
| RunCostCounts (instance_id : bytes).
End Command.
Abbreviation Command := Command.Command.
(** What is sent on a reply channel. *)
Module Reply.
Inductive Reply :=
| Submit (r : outcome SubmitOutcome CoordinatorError)
| Commit (r : outcome CommitApplied CoordinatorError)
| StateOf (s : MoteState)
| CommittedCount (n : nat)
| ReadySet (ids : list MoteId)
| LeaseWork (work : list LeasedItem * option bytes)
| ReadEntries (r : outcome (list JournalEntry * Z) CoordinatorError)
| Repudiate (r : outcome RepudiationOutcome RepudiationError)
| ReportEffectStaged (r : outcome Z CoordinatorError)
| ReportFailure (r : outcome (Z * bool) CoordinatorError)
| RegisterRun (r : outcome bytes CoordinatorError)
| RunRegistration (r : option ProjState.RunRegistration)
| RunResolvedVersions (r : list ProjState.RunResolvedVersions)
| ListPendingApprovals (views : list PendingApprovalView)
| Approval (decided : bool)
| RunCostCounts (turns tool_calls : Z).
End Reply.
Abbreviation Reply := Reply.Reply.

(** What the clock, the nonce source, the environment and the worker registry answer
    while a command is served or a round's passes run. *)
Record Ambient := {
  am_env : ServeEnv;
  am_clock : Z;
  am_wait_clock : Z;
  am_policied_clock : Z;
  am_timer_clock : Z;
  am_approval_clock : MoteId -> Z;
  am_reap_clock : Z;
  am_lease_clock : Z;
  am_nonce : bytes;
  am_workers : InMemoryWorkerRegistry
}.

Section Loop.
Context `{HB : Blake3} `{!Bincode MoteDef} `{!Bincode WarrantSpec} `{!Bincode TopologyDecision} `{!Bincode CriticVerdict}.
Context `{HSJ : SerdeJson} `{HTJ : ToolcallJson} `{HSC : SerdeScalar} `{HSV : SerdeValue}.
Context {J S R : Type} `{!Journal J} `{!ContentStore S} `{!ToolRegistry R}.
Context (to_lowercase : bytes -> bytes).
Abbreviation C := (Core J S).
Record LoopState := { core : C; scheduler : Scheduler LocalPlacement; react_cache : ReactSettleCache }.
Definition set_core (c : C) (t : LoopState) : LoopState :=
  {| core := c; scheduler := t.(scheduler); react_cache := t.(react_cache) |}.
Definition set_cache (x : ReactSettleCache) (t : LoopState) : LoopState :=
  {| core := t.(core); scheduler := t.(scheduler); react_cache := x |}.
(** A handler of the core alone, whose result is sent as [f] says. *)
Definition answer {A E} (f : outcome A E -> Reply) (m : comp C A E) : comp LoopState Reply unit := fun t =>
  match m t.(core) with
  | (Panic, c) => (Panic, set_core c t)
  | (r, c) => (Ok (f r), set_core c t)
  end.
Definition peek (f : C -> outcome Reply unit) : comp LoopState Reply unit := cask (fun t => f t.(core)).
(** The result of a handler that has no error; [d] is never sent. *)
Definition sent {A} (f : A -> Reply) (d : Reply) (r : outcome A unit) : Reply := match r with Ok a => f a | _ => d end.

Definition handle_command (am : Ambient) (roles : option (bytes -> option Role)) (tools : R) (command : Command)
    : comp LoopState Reply unit :=
  match command with
  | Command.Commit _ => clift Panic
  | Command.Submit mote warrant accept_at_least_once react_seed => fun t =>
      match submit_and_capture am.(am_env).(env_approval) roles tools mote warrant accept_at_least_once react_seed
              (t.(core), t.(scheduler)) with
      | (Panic, (c, sch)) => (Panic, {| core := c; scheduler := sch; react_cache := t.(react_cache) |})
      | (r, (c, sch)) => (Ok (Reply.Submit r), {| core := c; scheduler := sch; react_cache := t.(react_cache) |})
      end
  | Command.StateOf id => peek (fun c => Ok (Reply.StateOf (state_of_id c.(projection) id)))
  | Command.CommittedCount => peek (fun c => Ok (Reply.CommittedCount (count_in_state c.(projection) MoteState.Committed)))
  | Command.ReadySet => peek (fun c => Ok (Reply.ReadySet (gated_ready_set c.(projection) c.(core_store))))
  | Command.LeaseWork worker class max =>
      answer (sent Reply.LeaseWork (Reply.LeaseWork ([], None)))
        (serve_lease am.(am_env).(env_rerank) am.(am_reap_clock) am.(am_lease_clock) am.(am_workers)
           {| lr_worker := worker; lr_class := class; lr_max := max |} tools)
  | Command.ReadEntries since max =>
      peek (fun c => match read_committed_since c.(core_journal) since max with Panic => Panic | r => Ok (Reply.ReadEntries r) end)
  | Command.Repudiate target reason by_ => answer Reply.Repudiate (repudiate_cascade target reason by_)
  | Command.ReportEffectStaged id key => answer Reply.ReportEffectStaged (stage_effect id key)
  | Command.ReportFailure id key reason worker detail => answer Reply.ReportFailure (dead_letter_failure id key reason worker detail)
  | Command.RegisterRun fp => answer Reply.RegisterRun (register_run am.(am_clock) am.(am_nonce) fp)
  | Command.RunRegistration => peek (fun c => Ok (Reply.RunRegistration c.(projection).(run_registration)))
  | Command.RunResolvedVersions => peek (fun c => Ok (Reply.RunResolvedVersions c.(projection).(run_resolved_versions)))
  | Command.ListPendingApprovals =>
      peek (fun c => Ok (Reply.ListPendingApprovals (omap approval_view (pending_approvals c.(projection)))))
  | Command.GrantApproval request_id operator reason =>
      answer (sent Reply.Approval (Reply.Approval false)) (decide_approval am.(am_clock) request_id true operator reason)
  | Command.DenyApproval request_id operator reason =>
      answer (sent Reply.Approval (Reply.Approval false)) (decide_approval am.(am_clock) request_id false operator reason)
  | Command.RunCostCounts inst =>
      peek (fun c => let* n := run_cost_counts c.(projection) inst in Ok (Reply.RunCostCounts n.1 n.2))
  end.

(** ** One round *)
Definition lift_core {A} (m : comp C A unit) : comp LoopState A unit := czoom core set_core m.
Definition flush (roles : option (bytes -> option Role)) (pending : list (CommitProposal * nat))
    : comp LoopState (list (nat * Reply)) unit :=
  do! rs := lift_core (flush_commits roles pending) in cret ((fun x => (x.1, Reply.Commit x.2)) <$> rs).
(** The commands of a round with their reply channels, in arrival order. [pending]
    is empty again after each flush. *)
Fixpoint drain (roles : option (bytes -> option Role)) (tools : R) (pending : list (CommitProposal * nat))
    (commands : list (nat * Ambient * Command)) : comp LoopState (list (nat * Reply)) unit :=
  match commands with
  | [] => flush roles pending
  | (_, _, Command.Commit proposal) as x :: commands => drain roles tools (pending ++ [(proposal, x.1.1)]) commands
  | (channel, am, command) :: commands =>
      do! flushed := flush roles pending in
      do! reply := handle_command am roles tools command in
      do! rest := drain roles tools [] commands in
      cret (flushed ++ (channel, reply) :: rest)
  end.
Definition run_settle_passes (am : Ambient) (tools : R) : comp LoopState unit unit :=
  do! _ := lift_core settle_replan_rounds in
  do! _ := lift_core (settle_agentic_launches am.(am_env)) in
  do! _ := lift_core (settle_wait_steps am.(am_wait_clock)) in
  do! _ := lift_core settle_skip_guards in
  do! _ := lift_core (settle_policied_steps am.(am_policied_clock)) in
  do! _ := lift_core (fire_due_timers am.(am_timer_clock)) in
  do! _ := lift_core settle_rerank_rounds in
  do! _ := lift_core (settle_chat_rag_reranks am.(am_env).(env_rerank)) in
  do! cache := (fun t => lift_core (settle_react_rounds to_lowercase am.(am_env) tools am.(am_approval_clock) t.(react_cache)) t) in
  fun t => (Ok tt, set_cache cache t).
(** What one turn of the loop takes from the inbox: one command, and what else is
    there, up to [MAX_DRAIN]. *)
Definition core_round (roles : option (bytes -> option Role)) (tools : R) (commands : list (nat * Ambient * Command)) (am : Ambient)
    : comp LoopState (list (nat * Reply)) unit :=
  do! replies := drain roles tools [] (take MAX_DRAIN commands) in
  do! _ := run_settle_passes am tools in
  cret replies.

(** ** Boot *)
Definition core_boot (am : Ambient) (roles : option (bytes -> option Role)) (tools : R) (journal : J) (store : option S)
    : option (outcome unit unit * LoopState) :=
  match core_start journal store with
  | None => None
  | Some c =>
      Some ((do! _ := lift_core (recover_replan_chain roles) in
             do! _ := lift_core recover_rerank_chain in
             do! _ := lift_core (settle_chat_rag_reranks am.(am_env).(env_rerank)) in
             do! cache := (fun t => lift_core (recover_react_chain to_lowercase am.(am_env) tools am.(am_approval_clock) t.(react_cache)) t) in
             do! _ := (fun t => (Ok tt, set_cache cache t)) in
             lift_core (modify rearm_timers))
              {| core := c; scheduler := Scheduler_new Local; react_cache := ReactSettleCache_default |})
  end.
End Loop.
