(* ===== verification/Partition.v ===== *)
(** Work is partitioned: from the boot of the owner thread on, over every sequence of
    group commits, commands and settling passes, the agents' included, no Mote is
    leased to two workers. *)
From S2P Require Import Prelude Effects Utf8 CriticTypes Mote ContextItems Entry Journal Warrant Content DemoCodec ProjState ProjIndex ProjFold ProjHistory ProjQuery Materializer Scheduler Refusal Checkpoint Recovery Critic NativeCritic Digits ParamSchema Text ToolRegistry ToolStore Toolcall ToolcallFacts ExactlyOnce Wire Workers Coordinator CoordSync Cascade Timers TimerFacts ReactShape Rerank Lease LeaseFacts Replan Submit SubmitFacts Pricing React Loop.
Import JournalEntry.

(** ** Orderly tables *)
Definition exclusive (t : LeaseTracker) : Prop :=
  forall m w w', w ∈ holders_of t m -> w' ∈ holders_of t m -> w = w'.
Record orderly (d : Dispatch) : Prop := {
  od_keyed : forall id m w, d.(defs) !! id = Some (m, w) -> m.(Mote.mote_id) = id;
  od_mirror : mirror d.(tracker);
  od_exclusive : exclusive d.(tracker)
}.
(** A change of the tables that keeps them so. *)
Definition neat (f : Dispatch -> Dispatch) : Prop := forall d, orderly d -> orderly (f d).
Create HintDb neat.
Lemma neat_id : neat (fun d => d).
Proof. by intros d. Qed.
Lemma neat_comp f g : neat f -> neat g -> neat (fun d => f (g d)).
Proof. intros Hf Hg d Hd. by apply Hf, Hg. Qed.
Lemma neat_tables f : (forall d, (f d).(defs) = d.(defs) /\ (f d).(tracker) = d.(tracker)) -> neat f.
Proof. intros Hf d [H1 H2 H3]. destruct (Hf d) as [E1 E2]. split; rewrite ?E1, ?E2; done. Qed.
Lemma neat_submitted f : neat (set_submitted f).
Proof. by apply neat_tables. Qed.
Lemma neat_timers f : neat (set_timers f).
Proof. by apply neat_tables. Qed.
Lemma neat_waits f : neat (set_waits f).
Proof. by apply neat_tables. Qed.
Lemma neat_policied f : neat (set_policied f).
Proof. by apply neat_tables. Qed.
Lemma neat_guards f : neat (set_guards f).
Proof. by apply neat_tables. Qed.
Lemma neat_launches f : neat (set_launches f).
Proof. by apply neat_tables. Qed.
Lemma neat_delete id : neat (set_defs (delete id)).
Proof. intros d [H1 H2 H3]. split; [|done..]. intros i m w. cbn. intros [_ ?]%lookup_delete_Some. by eapply H1. Qed.
Lemma neat_insert m w : neat (set_defs <[m.(Mote.mote_id) := (m, w)]>).
Proof. intros d [H1 H2 H3]. split; [|done..]. intros i m' w'. cbn. intros [[<- [= <- <-]]|[_ ?]]%lookup_insert_Some; [done|by eapply H1]. Qed.
Lemma neat_tracker f : (forall t, mirror t -> mirror (f t)) ->
  (forall t m w, mirror t -> w ∈ holders_of (f t) m -> w ∈ holders_of t m) -> neat (set_tracker f).
Proof. intros Hm Hh d [H1 H2 H3]. split; [done|by apply Hm|]. intros m w w' ? ?. apply (H3 m); by apply Hh. Qed.
Lemma neat_resolve id : neat (set_tracker (fun t => resolve_committed t id)).
Proof.
  apply neat_tracker; [intros t; apply resolve_committed_mirror|]. intros t m w Ht Hw.
  by apply (resolve_committed_elem t id w m Ht) in Hw as [? _].
Qed.
Lemma neat_crash id b : neat (set_tracker (fun t => (record_crash t id b).2)).
Proof. apply neat_tracker; [|done]. intros t [Hs Hh]. by split. Qed.
Lemma neat_take w : neat (set_tracker (fun t => (take_leases t w).2)).
Proof. apply neat_tracker; [intros t; apply take_leases_mirror|]. intros t m w' _ Hw. by apply (take_leases_elem t w w' m) in Hw as [? _]. Qed.
#[export] Hint Resolve neat_id neat_comp neat_submitted neat_timers neat_waits neat_policied neat_guards neat_launches neat_delete neat_insert neat_resolve neat_crash neat_take : neat.
Lemma neat_retire id : neat (retire id).
Proof. unfold retire. apply (neat_comp (set_tracker _)), (neat_comp (set_timers _)), (neat_comp (set_defs _)); auto with neat. Qed.
Lemma neat_admit m w : neat (fun d => set_defs <[m.(Mote.mote_id) := (m, w)]> (set_submitted ({[m.(Mote.mote_id)]} ∪.) d)).
Proof. apply (neat_comp (set_defs _)); auto with neat. Qed.
#[export] Hint Resolve neat_retire neat_admit : neat.

(** ** Leasing *)
Lemma record_lease_holders t w ms w' m :
  w' ∈ holders_of (record_lease t w ms) m <-> w' ∈ holders_of t m \/ (m ∈ ms /\ w' = w).
Proof.
  unfold record_lease. set (t0 := {| leases := _ |}). change (holders_of t m) with (holders_of t0 m). generalize t0.
  clear. induction ms as [|x ms IH]; intros t; cbn [foldl]; [set_solver|].
  rewrite IH, (proj2 (record_one_elem w t x w' m)). set_solver.
Qed.
Lemma leased_by_other_false t m w w' : is_leased_by_other t m w = false -> w' ∈ holders_of t m -> w' = w.
Proof.
  unfold is_leased_by_other, holders_of. destruct (holders t !! m) as [ws|]; [|set_solver]. cbn. intros He Hw.
  destruct (decide (w' = w)); [done|]. exfalso. revert He. rewrite <- not_true_iff_false, existsb_exists. intros Hn. apply Hn.
  exists w'. split; [by apply list_elem_of_In, elem_of_elements|]. apply negb_true_iff. by apply Z.eqb_neq.
Qed.
Lemma record_lease_orderly d w ms :
  orderly d -> (forall m, m ∈ ms -> is_leased_by_other d.(tracker) m w = false) ->
  orderly (set_tracker (fun t => record_lease t w ms) d).
Proof.
  intros [H1 H2 H3] Hfree. split; [done|by apply record_lease_mirror|]. intros m a b. cbn [tracker set_tracker].
  rewrite !record_lease_holders. intros [Ha|[Hm ->]] [Hb|[Hm' ->]]; [by eapply H3| | |done].
  - by eapply leased_by_other_false; [apply Hfree|].
  - symmetry. by eapply leased_by_other_false; [apply Hfree|].
Qed.

(** ** Handlers *)
Section Handlers.
Context `{HB : Blake3} `{!Bincode MoteDef} `{!Bincode WarrantSpec} `{!Bincode TopologyDecision} `{!Bincode CriticVerdict}.
Context `{HSJ : SerdeJson} `{HSV : SerdeValue} `{HTJ : ToolcallJson} `{HSC : SerdeScalar}.
Context {J S R : Type} `{!Journal J} `{!ContentStore S} `{!ToolRegistry R}.
Abbreviation C := (Core J S).
Abbreviation T := (C * Scheduler LocalPlacement)%type.
Definition tidy (c c' : C) : Prop := orderly c.(dispatched) -> orderly c'.(dispatched).
Definition tidies {A E} (m : comp C A E) : Prop := forall c, tidy c (m c).2.
Lemma tidy_same (c c' : C) : c'.(dispatched) = c.(dispatched) -> tidy c c'.
Proof. intros E. unfold tidy. by rewrite E. Qed.
Lemma tidy_trans (c1 c2 c3 : C) : tidy c1 c2 -> tidy c2 c3 -> tidy c1 c3.
Proof. unfold tidy. auto. Qed.
Lemma tidy_dispatch f (c : C) : neat f -> tidy c (with_dispatch f c).
Proof. intros Hf Hc. by apply Hf. Qed.
Lemma tidy_after f (c c' : C) : neat f -> tidy c c' -> tidy c (with_dispatch f c').
Proof. intros Hf Hc Ho. by apply Hf, Hc. Qed.
Lemma tidies_bind {A B E} (m : comp C A E) (k : A -> comp C B E) : tidies m -> (forall a, tidies (k a)) -> tidies (cbind m k).
Proof. intros Hm Hk c. specialize (Hm c). unfold cbind. destruct (m c) as [[a| |] c1]; [by eapply tidy_trans, Hk|done..]. Qed.
Lemma tidies_map_err {A E F} (f : E -> F) (m : comp C A E) : tidies m -> tidies (cmap_err f m).
Proof. intros Hm c. specialize (Hm c). unfold cmap_err. by destruct (m c). Qed.
Lemma tidies_append e : tidies (core_append e).
Proof. intros c. unfold core_append, czoom, cstep. destruct (append _ _) as [[]| |]; by apply tidy_same. Qed.
Lemma tidies_append_batch es : tidies (core_append_batch es).
Proof. intros c. unfold core_append_batch, czoom, cstep. destruct (append_batch _ _) as [[]| |]; by apply tidy_same. Qed.
Lemma tidies_fold e : tidies (core_fold e).
Proof. intros c. unfold core_fold. destruct (fold _ _ _). by apply tidy_same. Qed.
Lemma tidies_fold_new e : tidies (fold_new e).
Proof. intros c. unfold fold_new. destruct (_ <? _); [|by apply tidy_same]. apply tidies_bind; [apply tidies_fold|]. intros _ c'. by apply tidy_same. Qed.
Lemma tidies_fold_quietly {E} e : tidies (fold_quietly (E := E) e).
Proof.
  intros c. unfold fold_quietly. destruct (_ <? _); [|by apply tidy_same]. pose proof (tidies_fold e c) as Hf.
  destruct (core_fold e c) as [[] c1]; done.
Qed.
Lemma tidies_append_then {E} e f : neat f -> tidies (append_then (E := E) e (with_dispatch f)).
Proof.
  intros Hf c. unfold append_then. pose proof (tidies_append e c) as Ha. destruct (core_append e c) as [[d| |] c1]; [|done..].
  eapply tidy_trans; [exact Ha|]. apply tidies_bind; [apply tidies_fold_quietly|]. intros _ c2. by apply tidy_dispatch.
Qed.
Lemma tidies_append_id {E} e : tidies (append_then (E := E) e (fun c => c)).
Proof.
  intros c. unfold append_then. pose proof (tidies_append e c) as Ha. destruct (core_append e c) as [[d| |] c1]; [|done..].
  eapply tidy_trans; [exact Ha|]. apply tidies_bind; [apply tidies_fold_quietly|]. intros _ c2. by apply tidy_same.
Qed.
Lemma tidies_ret {A E} (a : A) : tidies (cret (E := E) a).
Proof. intros c. by apply tidy_same. Qed.
Lemma tidies_ask {A E} (f : C -> outcome A E) : tidies (cask f).
Proof. intros c. by apply tidy_same. Qed.
Lemma tidies_modify {E} f : neat f -> tidies (modify (E := E) (with_dispatch f)).
Proof. intros Hf c. by apply tidy_dispatch. Qed.
Lemma tidies_each {A E} (step : A -> comp C unit E) xs : (forall x, tidies (step x)) -> tidies (each step xs).
Proof. intros Hs. induction xs as [|x xs IH]; cbn [each]; [apply tidies_ret|]. by apply tidies_bind. Qed.
Lemma tidy_store_write b (c : C) : tidy c (store_write b c).2.
Proof. unfold store_write. destruct (core_store c); [|by apply tidy_same]. destruct (put _ _) as [[]| |]; by apply tidy_same. Qed.
Lemma tidy_persist d (c : C) : tidy c (persist_def d c).
Proof. unfold persist_def. destruct (core_store c); [|by apply tidy_same]. destruct (put _ _) as [[]| |]; by apply tidy_same. Qed.
Lemma tidy_admit d s m w (c : C) :
  tidy c (with_dispatch (fun d => set_defs <[m.(Mote.mote_id) := (m, w)]> (set_submitted ({[m.(Mote.mote_id)]} ∪.) d))
            (with_projection s (persist_def d c))).
Proof. apply tidy_after; [auto with neat|]. eapply tidy_trans; [apply tidy_persist|by apply tidy_same]. Qed.
Lemma tidy_foldl {A} (f : C -> A -> C) xs : (forall c x, tidy c (f c x)) -> forall c, tidy c (foldl f c xs).
Proof. intros Hf. induction xs as [|x xs IH]; intros c; cbn [foldl]; [by apply tidy_same|]. by eapply tidy_trans, IH. Qed.
Lemma tidy_materialize st roles id d w (c : C) : tidy c (materialize_committed_shaper st roles id d w c).
Proof.
  unfold materialize_committed_shaper. destruct (result_ref_of _ _); [|by apply tidy_same].
  destruct (derive_shaper_children _ _ _ _ _ _); [|by apply tidy_same..]. apply tidy_foldl. intros c' x. apply tidy_admit.
Qed.
End Handlers.
Create HintDb tidy.
#[export] Hint Resolve tidies_map_err tidies_append tidies_append_batch tidies_fold tidies_fold_new tidies_fold_quietly tidies_append_then tidies_append_id tidies_ret tidies_ask tidies_modify tidies_each tidy_store_write tidy_dispatch tidy_admit tidy_materialize : tidy.

(** ** The handlers keep the tables so *)
Section Commands.
Context `{HB : Blake3} `{!Bincode MoteDef} `{!Bincode WarrantSpec} `{!Bincode TopologyDecision} `{!Bincode CriticVerdict}.
Context `{HSJ : SerdeJson} `{HSV : SerdeValue} `{HTJ : ToolcallJson} `{HSC : SerdeScalar}.
Context {J S R : Type} `{!Journal J} `{!ContentStore S} `{!ToolRegistry R}.
Context (to_lowercase : bytes -> bytes).
Abbreviation C := (Core J S).
Abbreviation T := (C * Scheduler LocalPlacement)%type.
Ltac bind := repeat (apply tidies_bind; [|intros ?]); auto with tidy neat.
Lemma stage_tidies m k : tidies (stage_effect (J := J) (S := S) m k).
Proof. unfold stage_effect. bind. Qed.
Lemma register_tidies now nonce fp : tidies (register_run (J := J) (S := S) now nonce fp).
Proof.
  intros c. unfold register_run. destruct (run_registration _); [by apply tidy_same|]. destruct (negb _); [by apply tidy_same|]. revert c. bind.
Qed.
Lemma fold_all_tidies es : tidies (fold_all_new (J := J) (S := S) es).
Proof. induction es as [|e es IH]; cbn [fold_all_new]; bind. Qed.
Lemma repudiate_tidies t r b : tidies (repudiate_cascade (J := J) (S := S) t r b).
Proof. unfold repudiate_cascade. bind. apply tidies_map_err, fold_all_tidies. Qed.
Lemma reap_mote_tidies {E} m : tidies (reap_mote (J := J) (S := S) (E := E) m).
Proof.
  intros c. unfold reap_mote. case_bool_decide; [apply tidy_dispatch; auto with neat|].
  pose proof (tidies_append (failed_worker_crashed_entry m) c) as Ha. destruct (core_append _ c) as [[d| |] c1]; [|done..].
  eapply tidy_trans; [exact Ha|]. apply tidies_bind; [auto with tidy|]. intros _ c2. apply tidy_dispatch. auto with neat.
Qed.
Lemma reap_motes_tidies {E} ms : tidies (reap_motes (J := J) (S := S) (E := E) ms).
Proof. induction ms as [|m ms IH]; cbn [reap_motes]; bind. apply reap_mote_tidies. Qed.
Lemma reap_tidies {E} now registry : tidies (reap_dead_workers (J := J) (S := S) (E := E) now registry).
Proof.
  intros c. unfold reap_dead_workers. revert c. assert (H : forall ws, tidies (reap_workers (J := J) (S := S) (E := E) now registry ws)).
  { induction ws as [|w ws IH]; cbn [reap_workers]; [auto with tidy|]. destruct (negb _); [done|].
    bind; [|apply reap_motes_tidies]. intros c Ho. exact (neat_take w _ Ho). }
  intros c. apply H.
Qed.
Lemma failure_tidies m k r w d : tidies (dead_letter_failure (J := J) (S := S) m k r w d).
Proof.
  intros c. unfold dead_letter_failure.
  assert (Hres : tidy c (with_tracker (fun t => resolve_committed t m) c)) by (apply tidy_dispatch; auto with neat).
  assert (Hgo : tidies (do! durable := cmap_err CoordinatorError.Journal
                   (core_append (J := J) (S := S) (Failed m k 0 r (worker_reporter_id w) d)) in
                 do! _ := cmap_err CoordinatorError.Projection (fold_new durable) in
                 fun c => (Ok (entry_seq durable, true),
                   with_dispatch (fun d => set_tracker (fun t => resolve_committed t m)
                                      (set_defs (delete m) (set_submitted (.∖ {[m]}) d))) c))).
  { bind. intros c'. apply tidy_dispatch. apply (neat_comp (set_tracker _)), (neat_comp (set_defs _)); auto with neat. }
  destruct (state_of_id _ _); try exact Hres; destruct (negb _); first [by apply tidy_same|apply Hgo].
Qed.
Lemma approval_tidies {E} i q a st : tidies (append_approval (J := J) (S := S) (E := E) i q a st).
Proof.
  intros c. unfold append_approval. pose proof (tidies_append (Approval i q a st 0) c) as Ha.
  destruct (core_append _ c) as [[d| |] c1]; [|done..]. eapply tidy_trans; [exact Ha|]. apply tidies_fold_quietly.
Qed.
Lemma decide_tidies {E} now q g o r : tidies (decide_approval (J := J) (S := S) (E := E) now q g o r).
Proof.
  intros c. unfold decide_approval. destruct (approval_latest_for _ _) as [x|]; [|by apply tidy_same].
  destruct (ApprovalRecord.state x); try by apply tidy_same. apply tidies_bind; [apply approval_tidies|]. auto with tidy.
Qed.
Lemma gate_tidies {E} now i o t v : tidies (approval_gate_decision (J := J) (S := S) (E := E) now i o t v).
Proof.
  intros c. unfold approval_gate_decision. destruct (_ <$> _) as [[]|]; try by apply tidy_same.
  apply tidies_bind; [apply approval_tidies|]. auto with tidy.
Qed.
Lemma apply_loop_tidies n es : forall seen out, tidies (apply_loop (J := J) (S := S) n seen out es).
Proof.
  induction es as [|e es IH]; intros seen out; cbn [apply_loop]; [auto with tidy|]. destruct (_ && _); [|done].
  bind. intros c. by apply tidy_same.
Qed.
Lemma settle_commit_tidy roles (c : C) id : tidy c (settle_commit roles c id).
Proof.
  unfold settle_commit. apply tidy_after; [apply (neat_comp (set_tracker _)); auto with neat|].
  destruct (core_store c); [|by apply tidy_same]. destruct roles; [|by apply tidy_same].
  destruct (defs (dispatched c) !! id) as [[m w]|]; [|by apply tidy_same]. destruct (Mote.is_topology_shaper _); [|by apply tidy_same].
  apply tidy_materialize.
Qed.
Lemma flush_tidies {E} roles pending : tidies (flush_commits (J := J) (S := S) (E := E) roles pending).
Proof.
  intros c. unfold flush_commits. destruct (admit_batch c pending) as [refused admitted]. destruct admitted as [|a l]; [by apply tidy_same|].
  assert (Ha : tidies (apply_batch (J := J) (S := S) (committed_entry <$> (a :: l).*1))).
  { intros c'. unfold apply_batch. revert c'. intros c'. apply tidies_bind; [auto with tidy|]. intros. apply apply_loop_tidies. }
  specialize (Ha c). destruct (apply_batch _ c) as [[] c1]; [|done..]. eapply tidy_trans; [exact Ha|].
  apply tidy_foldl. intros. apply settle_commit_tidy.
Qed.
(** ** The settling passes *)
Lemma materialize_tidy m r w (c : C) : tidy c (materialize_react_turn m r w c).
Proof. unfold materialize_react_turn. apply tidy_admit. Qed.
Ltac quit := by apply tidy_same.
Lemma dead_letter_tidies {E} id : tidies (dead_letter_parked_wait (J := J) (S := S) (E := E) id).
Proof. unfold dead_letter_parked_wait. apply tidies_append_then. apply (neat_comp (retire id)); auto with neat. Qed.
Lemma synth_tidies {E} m w r : tidies (synth_commit_subject (J := J) (S := S) (E := E) m w r).
Proof. unfold synth_commit_subject. auto with tidy neat. Qed.
Lemma settle_wait_tidies {E} now x : tidies (settle_wait (J := J) (S := S) (E := E) now x).
Proof.
  intros c. unfold settle_wait. destruct x as [id inst].
  destruct (defs (dispatched c) !! id) as [[m w]|]; [|apply tidy_dispatch; auto with neat].
  destruct (negb _); [apply tidy_dispatch; auto with neat|].
  destruct (find_timer _ _); [apply tidy_dispatch, (neat_comp (set_waits _)); auto with neat|].
  destruct (scan_parents _ _ _) as [[] []]; try apply dead_letter_tidies; try quit. cbn [negb].
  destruct (config_parse _ _); [|apply dead_letter_tidies]. apply tidies_append_then, (neat_comp (set_waits _)); auto with neat.
Qed.
Lemma fire_attempt_tidies {E} x : tidies (fire_attempt (J := J) (S := S) (E := E) x).
Proof.
  intros c. unfold fire_attempt. destruct x as [[id p] n]. eapply tidy_trans; [apply (tidy_dispatch (set_timers (delete id))); auto with neat|].
  destruct (negb _); [quit|]. destruct (defs _ !! id) as [[m w]|]; [|quit]. apply materialize_tidy.
Qed.
Lemma fire_wait_tidies {E} id : tidies (fire_wait (J := J) (S := S) (E := E) id).
Proof.
  intros c. unfold fire_wait. destruct (negb _); [apply tidy_dispatch; auto with neat|].
  destruct (defs (dispatched c) !! id) as [[m w]|]; [|quit]. destruct (lone_parent_result _ _).
  - apply tidies_append_then. auto with neat.
  - pose proof (tidy_store_write (waited_text m) c) as Hw. destruct (store_write _ c) as [[r|] c1]; [|done].
    eapply tidy_trans; [exact Hw|]. apply tidies_append_then. auto with neat.
Qed.
Lemma unpark_tidies {E} (m : comp C unit E) f : tidies m -> neat f -> tidies (do! _ := m in modify (with_dispatch f)).
Proof. intros Hm Hf. apply tidies_bind; [done|]. intros _. by apply tidies_modify. Qed.
Lemma settle_guard_tidies {E} id : tidies (settle_guard (J := J) (S := S) (E := E) id).
Proof.
  intros c. unfold settle_guard. assert (Hu : tidy c (with_dispatch (set_guards (delete id)) c)) by (apply tidy_dispatch; auto with neat).
  destruct (defs (dispatched c) !! id) as [[m w]|]; [|done]. destruct (negb _); [done|].
  destruct (scan_parents _ _ _) as [[] []]; try (apply unpark_tidies; [apply dead_letter_tidies|auto with neat]); try quit. cbn [negb].
  destruct (skip_guard_verdict _ _ _); [done| |quit].
  pose proof (tidy_store_write COND_SKIP_SENTINEL c) as Hw. destruct (store_write _ c) as [[r|] c1]; [|done].
  eapply tidy_trans; [exact Hw|]. apply unpark_tidies; [apply synth_tidies|auto with neat].
Qed.
Lemma walk_tidies {E} now id inst m w backoff fuel : forall n, tidies (walk_attempts (J := J) (S := S) (E := E) now id inst m w backoff fuel n).
Proof.
  induction fuel as [|fuel IH]; intros n c; cbn [walk_attempts]; [quit|].
  assert (Hend : tidy c ((if bool_decide (Mote.mote_id (attempt_mote m n) ∈ submitted (dispatched c))
        || bool_decide (is_Some (defs (dispatched c) !! Mote.mote_id (attempt_mote m n)))
        || bool_decide (is_Some (result_ref_of (projection c) (Mote.mote_id (attempt_mote m n))))
      then (Ok true, c)
      else if n =? 1 then (Ok true, mint_attempt m w 1 c)
      else match find_timer (fun t => timer_of id t && (t.(TimerRecord.purpose) =? 1) && (t.(TimerRecord.attempt) =? n)) c.(projection) with
        | Some rec => (Ok true, with_dispatch (set_timers <[id := (rec.(TimerRecord.fire_at_unix_ms), 1, n)]>) c)
        | None => (do! _ := append_then (E := E) (timer_entry inst id 1 n (u64_sat_add now (u64_sat_mul backoff (2 ^ (n - 2)))) m.(def))
                     (with_dispatch (set_timers <[id := (u64_sat_add now (u64_sat_mul backoff (2 ^ (n - 2))), 1, n)]>)) in cret true) c
        end).2)).
  { destruct (_ || _); [quit|]. destruct (n =? 1); [apply materialize_tidy|]. destruct (find_timer _ _); [apply tidy_dispatch; auto with neat|].
    apply tidies_bind; [apply tidies_append_then; auto with neat|]. auto with tidy. }
  destruct (state_of_id _ _); try exact Hend; try apply IH. destruct (result_ref_of _ _); [|quit].
  apply tidies_bind; [apply synth_tidies|]. intros _. apply tidies_bind; [apply tidies_modify; auto with neat|]. auto with tidy.
Qed.
Lemma settle_policied_tidies {E} now x : tidies (settle_policied (J := J) (S := S) (E := E) now x).
Proof.
  intros c. unfold settle_policied. destruct x as [id inst].
  assert (Hu : tidy c (with_dispatch (set_policied (delete id)) c)) by (apply tidy_dispatch; auto with neat).
  assert (Hd : tidies (E := E) (do! _ := dead_letter_parked_wait (J := J) (S := S) id in modify (with_dispatch (set_policied (delete id)))))
    by (apply unpark_tidies; [apply dead_letter_tidies|auto with neat]).
  destruct (defs (dispatched c) !! id) as [[m w]|]; [|done]. destruct (negb _); [done|].
  destruct (scan_parents _ _ _) as [[] []]; try apply Hd; try quit. cbn [negb]. destruct (_ && _); [apply Hd|].
  apply tidies_bind; [apply walk_tidies|]. intros []; [auto with tidy|]. case_bool_decide; [|done]. intros c'.
  pose proof (tidy_store_write CONTINUE_FAILED_SENTINEL c') as Hw. destruct (store_write _ c') as [[r|] c1]; [|done].
  eapply tidy_trans; [exact Hw|]. apply unpark_tidies; [apply synth_tidies|auto with neat].
Qed.
Lemma settle_rerank_tidies {E} a : tidies (settle_rerank (J := J) (S := S) (E := E) a).
Proof.
  intros c. unfold settle_rerank. destruct (core_store c) as [st|]; [|quit]. destruct (rerank_verdict _ _ _) as [o|]; [|quit].
  eapply tidy_trans; [|unfold append_rerank_outcome; destruct (latest_rerank_round _ _); [destruct (negb _); [quit|]|]; apply tidies_append_id].
  unfold stage_reordered. destruct o; try quit. destruct (get _ _); [|quit]. destruct (reorder_retrieval_observation _ _); [|quit].
  apply tidy_store_write.
Qed.
Lemma write_rerank_tidies m inst base q w k : tidies (write_rerank_anchor (J := J) (S := S) m inst base q w k).
Proof. intros c. unfold write_rerank_anchor. destruct (latest_rerank_round _ _); [quit|]. apply tidies_bind; auto with tidy. Qed.
Lemma settle_answer_tidies {E} x : tidies (settle_answer (J := J) (S := S) (E := E) x).
Proof.
  intros c. unfold settle_answer. destruct x as [m w]. destruct (core_store c) as [st|]; [|quit].
  destruct (chat_rag_rerank_id _ _ _ _) as [[k|] st1]; [|quit]. set (c0 := with_core_store (Some st1) c).
  assert (H0 : tidy c c0) by quit. destruct (_ <$> _) as [[]|]; try exact H0.
  - destruct (_ ≫= _); [|done]. eapply tidy_trans; [exact H0|apply tidy_store_write].
  - pose proof (tidy_store_write (bincode_encode w) c0) as Hw. destruct (store_write _ c0) as [[r|] c1]; [|eapply tidy_trans; [exact H0|exact Hw]].
    set (rm := answer_rerank _ _ _ _ _).
    pose proof (write_rerank_tidies rm (rk_instance k) (rk_base k) (rk_query k) r (rk_count k) c1) as Ha.
    destruct (write_rerank_anchor _ _ _ _ _ _ c1) as [[] c2]; cbn [snd] in *;
      (eapply tidy_trans; [exact H0|]; eapply tidy_trans; [exact Hw|]; eapply tidy_trans; [exact Ha|]); try quit.
    apply materialize_tidy.
Qed.

(** ** Submissions and polls *)
Lemma put_both_tidy a b (c : C) : tidy c (put_both a b c).2.
Proof.
  unfold put_both. pose proof (tidy_store_write a c) as H1. destruct (store_write a c) as [ra c1].
  pose proof (tidy_store_write b c1) as H2. destruct (store_write b c1) as [rb c2]. cbn [snd] in *. by eapply tidy_trans, H2.
Qed.
Lemma write_anchor_tidies inst salt ag turn0 w mt mc ap : tidies (write_react_anchor (J := J) (S := S) inst salt ag turn0 w mt mc ap).
Proof.
  unfold write_react_anchor. apply tidies_bind; [auto with tidy|]. intros []; [auto with tidy|].
  destruct (config _ _) as [ins|]; [|intros c; quit]. apply tidies_bind.
  { intros c. pose proof (put_both_tidy ins (bincode_encode w) c) as H1. by destruct (put_both _ _ c). }
  intros [[b wr]|]; [|intros c; quit]. apply tidies_bind.
  { intros c. unfold stage_context. destruct (config _ _) as [items|]; [|quit]. pose proof (tidy_store_write items c) as H1.
    by destruct (store_write items c) as [[]]. }
  intros ci. apply tidies_bind; [|intros im; apply tidies_bind; auto with tidy].
  intros c. unfold anchor_image. destruct (config _ _); [|quit]. destruct (from_arg _); quit.
Qed.
Lemma capture_tidies {E} inst w events : tidies (capture_run_versions (J := J) (S := S) (E := E) inst w events).
Proof. unfold capture_run_versions. destruct events; [apply tidies_append_id|]. apply tidies_each. intros. apply tidies_append_id. Qed.
Lemma replan_tidies {E} id d w : tidies (write_replan_anchor (J := J) (S := S) (E := E) id d w).
Proof.
  intros c. unfold write_replan_anchor. destruct (negb _); [quit|]. destruct (existsb _ _); [quit|]. destruct (_ !! _) as [prompt|]; [|quit].
  pose proof (put_both_tidy prompt (bincode_encode w) c) as H1. destruct (put_both _ _ c) as [[[b r]|] c1]; [|done].
  eapply tidy_trans; [exact H1|]. apply tidies_append_id.
Qed.
Lemma loops_tidies inst res events m w seed : tidies (start_loops (J := J) (S := S) inst res events m w seed).
Proof.
  unfold start_loops. apply tidies_bind; [destruct (is_resolved res); [apply capture_tidies|auto with tidy]|]. intros _.
  apply tidies_bind; [intros c; destruct (_ && _); [apply replan_tidies|quit]|]. intros _.
  destruct seed; [apply write_anchor_tidies|auto with tidy].
Qed.
Lemma handle_submit_tidy m w (t : T) : tidy t.1 (handle_submit m w t).2.1.
Proof.
  unfold handle_submit, submit. case_bool_decide; [apply tidy_persist|]. cbn [fst snd]. apply tidy_admit.
Qed.
Lemma park_tidy m inst dup (c : C) : tidy c (park m inst dup c).
Proof.
  unfold park, noted. destruct (_ && negb dup), (is_wait_step m && _), (is_skip_guard m && _), (is_policied_step m && _).
  all: repeat (apply tidy_after; [auto with neat|]); quit.
Qed.
Lemma rematerialize_tidy roles m w (c : C) : tidy c (rematerialize roles m w c).
Proof.
  unfold rematerialize. destruct (core_store c); [|quit]. destruct roles; [|quit]. destruct (_ && _); [apply tidy_materialize|quit].
Qed.
Lemma submit_tidy env roles (tools : R) m w accept seed (t : T) :
  tidy t.1 (submit_and_capture env roles tools m w accept seed t).2.1.
Proof.
  unfold submit_and_capture. destruct (run_registration _) as [reg|]; [|quit].
  unfold cbind at 1, clift. destruct (resolve_for_submit tools w) as [[res events]| |]; [|quit..].
  unfold cbind at 1. destruct (omap_err _ _) as [[]| |]; [|quit..]. unfold cbind at 1.
  assert (Hgo : forall m' sd, tidy t.1 (admission roles (rr_instance_id reg) res events m' w sd t).2.1).
  { intros m' sd. unfold admission, cbind at 1. pose proof (handle_submit_tidy m' w t) as H1.
    destruct (handle_submit m' w t) as [o t1]. cbn [fst snd] in H1. unfold cbind at 1. cbn [fst snd].
    set (c1 := match sd with Some _ => t1.1 | None => _ end).
    assert (H2 : tidy t.1 c1) by (eapply tidy_trans; [exact H1|]; unfold c1; destruct sd; [quit|apply park_tidy]).
    destruct (duplicate o); [unfold cbind, cret; cbn [fst snd]; eapply tidy_trans; [exact H2|apply rematerialize_tidy]|].
    pose proof (loops_tidies (rr_instance_id reg) res events m' w sd c1) as H3.
    unfold cbind, on_core, czoom. cbn [fst snd]. destruct (start_loops _ _ _ _ _ _ c1) as [[] c2]; cbn [fst snd] in *;
      (eapply tidy_trans; [exact H2|]; eapply tidy_trans; [exact H3|]); try quit. apply rematerialize_tidy. }
  destruct seed; [|apply Hgo]. destruct (swap_seed _ _ _ _ _); [apply Hgo|quit..].
Qed.
Lemma poll_tidies env n1 n2 registry req (tools : R) : tidies (serve_lease (J := J) (S := S) env n1 n2 registry req tools).
Proof.
  unfold serve_lease. apply tidies_bind; [apply reap_tidies|]. intros _ c.
  destruct (lease_ready _ n2 registry _ tools (core_store c)) as [[items| |] st] eqn:Hl; [|quit..].
  intros Ho. apply record_lease_orderly; [exact Ho|]. intros m (it & -> & Hit)%list_elem_of_fmap.
  destruct (lease_ready_spec _ _ _ _ _ _ _ _ Hl) as (ids & _ & _ & Hf & _).
  apply list_elem_of_lookup_1 in Hit as [i Hi]. destruct (Forall2_lookup_r _ _ _ _ _ Hf Hi) as (id & _ & [Hdef _ _ _ Hfree _ _ _ _] & _).
  cbn [lease_view lv_defs lv_tracker lv_worker] in Hdef, Hfree. rewrite (od_keyed _ Ho _ _ _ Hdef). exact Hfree.
Qed.

(** ** Re-planning *)
Lemma shaper_tidy m r w (c : C) : tidy c (materialize_replan_shaper m r w c).
Proof. unfold materialize_replan_shaper. apply tidy_admit. Qed.
Lemma settle_replan_tidies {E} : tidies (settle_replan_rounds (J := J) (S := S) (E := E)).
Proof.
  intros c. unfold settle_replan_rounds. destruct (core_store c); [|quit]. destruct (round_zero _) as [a|]; [|quit].
  destruct (settled_failures _) as [[latest failures]|]; [|quit]. unfold plan_round. destruct (core_get _ c) as [base|]; [|quit].
  destruct (negb _); [quit|]. destruct (_ ≫= _) as [w|]; [|quit]. cbv zeta.
  pose proof (tidy_store_write (corrected_prompt base failures) c) as Hw. destruct (store_write _ c) as [[r|] c1]; [|done].
  eapply tidy_trans; [exact Hw|]. set (e := round_entry _ _ _ _ _). pose proof (tidies_append e c1) as Ha.
  destruct (core_append e c1) as [[d| |] c2]; [|done..]. eapply tidy_trans; [exact Ha|]. pose proof (tidies_fold_new d c2) as Hf.
  destruct (fold_new d c2) as [[] c3]; [|done..]. eapply tidy_trans; [exact Hf|apply shaper_tidy].
Qed.
Lemma recover_replan_tidies {E} roles : tidies (recover_replan_chain (J := J) (S := S) (E := E) roles).
Proof.
  intros c. unfold recover_replan_chain. destruct (core_store c); [|quit]. destruct roles as [roles|]; [|quit]. cbv zeta.
  destruct (replan_rounds (projection c)); [quit|]. set (rounds := List.filter _ _). set (c1 := foldl _ c rounds).
  assert (H1 : tidy c c1).
  { apply tidy_foldl. intros c' x. unfold restore_children. destruct (negb _); [quit|]. destruct (core_store c'); [|quit].
    destruct (rebuild_replan_shaper _ _) as [[]|]; [apply tidy_materialize|quit]. }
  eapply tidy_trans; [exact H1|]. eapply tidy_trans; [|apply settle_replan_tidies]. destruct (max_round rounds) as [x|]; [|quit].
  unfold restore_shaper. case_bool_decide; [quit|]. destruct (core_store c1); [|quit].
  destruct (rebuild_replan_shaper _ _) as [[]|]; [apply shaper_tidy|quit].
Qed.

(** ** Agents *)
Lemma rounds_tidies {E} inst salt : tidies (chain_rounds (J := J) (S := S) (E := E) inst salt).
Proof. intros c. unfold chain_rounds. destruct (react_rounds_of _ _ _); quit. Qed.
Lemma branch_tidies {E} a id t b : tidies (append_react_branch (J := J) (S := S) (E := E) a id t b).
Proof. unfold append_react_branch. apply tidies_bind; [apply rounds_tidies|]. intros rs. destruct (existsb _ _); auto with tidy. Qed.
Lemma then_tidies {A E} (m : comp C unit E) (a : A) f : tidies m -> (forall c, tidy c (f c)) -> tidies (do! _ := m in fun c => (Ok a, f c)).
Proof. intros Hm Hf. apply tidies_bind; [done|]. intros _ c. apply Hf. Qed.
Lemma advance_tidies {E} a rs t : tidies (advance_react_chain (J := J) (S := S) (E := E) a rs t).
Proof.
  intros c. unfold advance_react_chain. destruct (existsb _ _); [quit|]. cbv zeta. destruct (over_budget _ _ _).
  - destruct (last_of_turn rs t) as [r|]; [|quit]. destruct (answerless _); [|quit]. apply tidies_bind; [apply branch_tidies|]. auto with tidy.
  - destruct (core_get _ c); [|quit]. destruct (negb _); [quit|]. destruct (_ ≫= _) as [w|]; [|quit].
    apply then_tidies; [apply branch_tidies|]. intros. apply materialize_tidy.
Qed.
Lemma neat_drop id : neat (drop_work id).
Proof. unfold drop_work. apply (neat_comp (set_tracker _)), (neat_comp (set_defs _)); auto with neat. Qed.
Lemma neat_retire_launch id : neat (retire_launch id).
Proof. unfold retire_launch. apply (neat_comp (drop_work id)); [apply neat_drop|auto with neat]. Qed.
Lemma progress_call_tidies {E} (tools : R) now a t id w i call : tidies (progress_call (J := J) (S := S) (E := E) tools now a t id w i call).
Proof.
  intros c. unfold progress_call. destruct call as [tool version]. cbv zeta. set (obs := build_chain_tool _ _ _ _ _ _ _ _).
  case_bool_decide; [quit|]. destruct (is_terminal _).
  { destruct (crash_retryable _ _); [quit|]. apply tidies_bind; [apply branch_tidies|]. auto with tidy. }
  apply tidies_bind; [auto with tidy|]. intros permanent. destruct permanent.
  { unfold chain_dead. apply then_tidies; [apply branch_tidies|]. intros. apply tidy_dispatch, neat_drop. }
  apply tidies_bind; [destruct (_ && _); [apply gate_tidies|auto with tidy]|]. intros []; [|auto with tidy|].
  - intros c1. unfold materialize_react_tool. apply tidy_admit.
  - unfold chain_dead. apply then_tidies; [apply branch_tidies|]. intros; quit.
Qed.
Lemma progress_calls_tidies {E} (tools : R) now a t id w calls : forall i b,
  tidies (progress_calls (J := J) (S := S) (E := E) tools now a t id w i b calls).
Proof.
  induction calls as [|call calls IH]; intros i b; cbn [progress_calls]; [auto with tidy|].
  apply tidies_bind; [apply progress_call_tidies|]. intros []; [auto with tidy|apply IH].
Qed.
Lemma rerank_gate_tidies {E} env a t id calls : tidies (maybe_gate_on_rerank (J := J) (S := S) (E := E) env a t id calls).
Proof.
  intros c. unfold maybe_gate_on_rerank. destruct (core_store c) as [store|]; [|quit]. destruct (negb _); [quit|].
  destruct (retrieve_index calls) as [k|]; [|quit]. cbv zeta. destruct (result_ref_of _ _) as [r|]; [|quit]. destruct (_ ≫= _) as [[query n]|]; [|quit].
  destruct (n <? 2)%nat; [quit|]. pose proof (tidy_store_write query c) as Hw. destruct (store_write query c) as [[q|] c1]; [|done].
  eapply tidy_trans; [exact Hw|]. destruct (_ ≫= _) as [w|]; [|quit]. set (m := build_rerank_turn _ _ _ _ _).
  destruct (latest_rerank_round _ _); [quit|].
  pose proof (write_rerank_tidies m (ReactRoundRecord.instance_id a) r q (ReactRoundRecord.warrant_ref a) (u32_of_len n) c1) as Ha.
  destruct (write_rerank_anchor _ _ _ _ _ _ c1) as [[] c2]; [|done..]. eapply tidy_trans; [exact Ha|apply materialize_tidy].
Qed.
Lemma batch_tidies {E} env (tools : R) now a rs t id calls : tidies (progress_tool_batch (J := J) (S := S) (E := E) env tools now a rs t id calls).
Proof.
  intros c. unfold progress_tool_batch. destruct (_ ≫= _) as [w|]; [|quit]. cbv zeta. destruct (_ && _).
  { apply tidies_bind; [apply branch_tidies|]. auto with tidy. }
  apply tidies_bind; [apply progress_calls_tidies|]. intros [st|[]]; [auto with tidy| |auto with tidy].
  apply tidies_bind; [apply rerank_gate_tidies|]. intros []; [auto with tidy|apply advance_tidies].
Qed.
Lemma drive_tidies {E} env (tools : R) now inst salt : tidies (drive_react_chain (J := J) (S := S) (E := E) to_lowercase env tools now inst salt).
Proof.
  unfold drive_react_chain. apply tidies_bind; [apply rounds_tidies|]. intros rounds. destruct (turn_zero rounds) as [a|]; [|auto with tidy].
  destruct (frontier rounds) as [latest|]; [|auto with tidy]. cbv zeta.
  destruct (ReactRoundRecord.branch latest); first [apply batch_tidies|apply advance_tidies|by auto with tidy|idtac].
  intros c. unfold drive_pending. cbv zeta. destruct (negb (is_terminal _)); [quit|]. destruct (negb _).
  { destruct (crash_retryable _ _); [quit|]. apply tidies_bind; [apply branch_tidies|]. auto with tidy. }
  destruct (core_store c) as [store|]; [|quit]. destruct (result_ref_of _ _ ≫= _) as [raw|]; [|quit]. destruct (_ ≫= _) as [w|]; [|quit].
  destruct (decide_branch _ _ _ _ _ _ _ _) as [b| |]; [|quit..]. apply tidies_bind; [apply branch_tidies|]. intros _.
  destruct b; try (by auto with tidy); (apply tidies_bind; [apply rounds_tidies|]; intros rs); first [apply batch_tidies|apply advance_tidies].
Qed.
Lemma finalize_tidies {E} inst salt : tidies (finalize_agentic_launch (J := J) (S := S) (E := E) inst salt).
Proof.
  intros c. unfold finalize_agentic_launch. destruct (is_terminal _); [quit|]. destruct (_ !! salt) as [[launch w]|]; [|quit].
  apply tidies_bind; [apply rounds_tidies|]. intros rs. destruct (answer_turn rs) as [id|].
  - intros c1. destruct (result_ref_of _ id) as [r|]; [|quit]. destruct (core_get r c1) as [raw|]; [|quit].
    assert (Hs : tidy c1 (served_ref r raw c1).2).
    { unfold served_ref. destruct (answer_arm raw) as [b|]; [|quit]. pose proof (tidy_store_write b c1). by destruct (store_write b c1). }
    destruct (served_ref r raw c1) as [served c2]. eapply tidy_trans; [exact Hs|]. apply tidies_bind; [|auto with tidy].
    unfold commit_agentic_launch. apply tidies_append_then, neat_retire_launch.
  - apply tidies_bind; [|auto with tidy]. unfold dead_letter_agentic_launch. apply tidies_append_then, neat_retire_launch.
Qed.
Lemma settle_chains_tidies {E} env (tools : R) now keys : tidies (settle_chains (J := J) (S := S) (E := E) to_lowercase env tools now keys).
Proof.
  induction keys as [|[inst salt] keys IH]; cbn [settle_chains]; [auto with tidy|]. apply tidies_bind; [|intros st; apply tidies_bind; [done|auto with tidy]].
  unfold settle_react_chain. apply tidies_bind; [apply drive_tidies|]. intros st. cbn [fst snd]. destruct salt as [salt|]; [|auto with tidy]. destruct st; [auto with tidy|].
  apply tidies_bind; [|intros []; [apply finalize_tidies|auto with tidy]]. unfold chain_is_agentic_launch. apply tidies_bind; [apply rounds_tidies|auto with tidy].
Qed.
Lemma settle_react_tidies {E} env (tools : R) now cache : tidies (settle_react_rounds (J := J) (S := S) (E := E) to_lowercase env tools now cache).
Proof.
  intros c. unfold settle_react_rounds. destruct (negb _); [quit|]. destruct (core_store c); [|quit]. apply tidies_bind; [apply settle_chains_tidies|]. auto with tidy.
Qed.
Lemma launches_tidies env : tidies (settle_agentic_launches (J := J) (S := S) env).
Proof.
  intros c. unfold settle_agentic_launches. destruct (core_store c); [|quit]. apply tidies_each. clear c. intros [id inst] c. unfold settle_launch.
  assert (Hu : forall c, tidy c (unpark_launch (J := J) (S := S) id c)) by (intros; apply tidy_dispatch; auto with neat).
  assert (Hd : tidies (do! _ := dead_letter_agentic_launch (J := J) (S := S) (E := unit) id in modify (unpark_launch id))).
  { apply tidies_bind; [unfold dead_letter_agentic_launch; apply tidies_append_then, neat_retire_launch|]. intros _ c1. apply Hu. }
  destruct (defs _ !! id) as [[launch w]|]; [|apply Hu]. destruct (negb _); [apply Hu|].
  destruct (scan_parents _ _ _) as [ac pf]. destruct pf; [apply Hd|]. destruct (negb ac); [quit|]. apply tidies_bind; [apply rounds_tidies|]. intros rs.
  destruct (existsb _ _); [intros c1; apply Hu|]. destruct (react_seed_params _ _) as [[[ins caps] ap]| |]; [|exact Hd|intros c1; quit].
  intros c1. unfold anchor_launch. cbv zeta. set (turn0 := build_agentic_turn _ _ _ _ _ _).
  pose proof (write_anchor_tidies inst (Some id) true turn0 w caps.1 caps.2 ap c1) as Ha.
  destruct (write_react_anchor _ _ _ _ _ _ _ _ c1) as [[] c2]; [|done..]. eapply tidy_trans; [exact Ha|].
  eapply tidy_trans; [apply materialize_tidy|apply Hu].
Qed.
Lemma recover_rerank_tidies {E} : tidies (recover_rerank_chain (J := J) (S := S) (E := E)).
Proof.
  intros c. unfold recover_rerank_chain. destruct (core_store c); [|quit]. destruct (pending_rerank_frontier _) as [|a l]; [quit|].
  apply tidies_bind; [|intros _ c1; unfold settle_rerank_rounds; apply tidies_each; intros; apply settle_rerank_tidies].
  apply tidies_each. intros x c1. unfold recover_rerank. destruct (core_store c1); [|quit]. destruct (is_terminal _); [quit|].
  destruct (_ ≫= _) as [w|]; [|quit]. cbv zeta. case_bool_decide; [apply materialize_tidy|quit].
Qed.
Lemma recover_react_tidies {E} env (tools : R) now cache : tidies (recover_react_chain (J := J) (S := S) (E := E) to_lowercase env tools now cache).
Proof.
  intros c. unfold recover_react_chain. destruct (negb _); [quit|]. destruct (core_store c); [|quit].
  apply tidies_bind; [|intros _; apply settle_react_tidies]. apply tidies_each. intros [inst salt]. unfold recover_chain.
  apply tidies_bind; [apply rounds_tidies|]. intros rs c1. destruct (frontier rs) as [latest|]; [|quit]. destruct (_ || _); [quit|].
  destruct (core_get _ c1); [|quit]. destruct (_ ≫= _) as [w|]; [|quit]. destruct (negb _); [quit|]. cbv zeta.
  case_bool_decide; [apply materialize_tidy|quit].
Qed.
Lemma answers_tidies {E} env : tidies (settle_chat_rag_reranks (J := J) (S := S) (E := E) env).
Proof.
  intros c. unfold settle_chat_rag_reranks. destruct (negb _); [quit|]. destruct (core_store c); [|quit]. destruct (run_registration _); [|quit].
  apply tidies_each. intros. apply settle_answer_tidies.
Qed.

(** ** Every history *)
Abbreviation L := (LoopState (J := J) (S := S)).
(** What the owner thread does between two states of its inbox: a group commit, a
    command, or one of the nine settling passes. *)
Inductive serve_step : L -> L -> Prop :=
| sv_flush roles pending t : serve_step t (flush roles pending t).2
| sv_command am roles (tools : R) command t : serve_step t (handle_command am roles tools command t).2
| sv_replan t : serve_step t (lift_core settle_replan_rounds t).2
| sv_launches env t : serve_step t (lift_core (settle_agentic_launches env) t).2
| sv_waits now t : serve_step t (lift_core (settle_wait_steps now) t).2
| sv_guards t : serve_step t (lift_core settle_skip_guards t).2
| sv_policied now t : serve_step t (lift_core (settle_policied_steps now) t).2
| sv_timers now t : serve_step t (lift_core (fire_due_timers now) t).2
| sv_reranks t : serve_step t (lift_core settle_rerank_rounds t).2
| sv_answers env t : serve_step t (lift_core (settle_chat_rag_reranks env) t).2
| sv_agents env (tools : R) now cache t : serve_step t (lift_core (settle_react_rounds to_lowercase env tools now cache) t).2.
Definition loop_tidy (t t' : L) : Prop := tidy t.(core) t'.(core).
Lemma lift_tidy {A} (m : comp C A unit) (t : L) : tidies m -> loop_tidy t (lift_core m t).2.
Proof. intros Hm. unfold loop_tidy, lift_core, czoom. pose proof (Hm (core t)) as H. by destruct (m (core t)). Qed.
Lemma answer_tidy {A E} f (m : comp C A E) (t : L) : tidies m -> loop_tidy t (answer f m t).2.
Proof. intros Hm. unfold loop_tidy, answer. pose proof (Hm (core t)) as H. by destruct (m (core t)) as [[] c]. Qed.
Lemma command_tidy am roles (tools : R) command (t : L) : loop_tidy t (handle_command am roles tools command t).2.
Proof.
  destruct command; cbn [handle_command]; try (unfold loop_tidy, peek, cask, clift; quit); try apply answer_tidy.
  - unfold loop_tidy. pose proof (submit_tidy (env_approval (am_env am)) roles tools mote warrant accept_at_least_once react_seed (core t, scheduler t)) as H.
    by destruct (submit_and_capture _ _ _ _ _ _ _ _) as [[] [c sch]].
  - apply poll_tidies.
  - apply repudiate_tidies.
  - apply stage_tidies.
  - apply failure_tidies.
  - apply register_tidies.
  - apply decide_tidies.
  - apply decide_tidies.
Qed.
Lemma flush_tidy roles pending (t : L) : loop_tidy t (flush roles pending t).2.
Proof.
  unfold flush, cbind. pose proof (lift_tidy (flush_commits roles pending) t (flush_tidies roles pending)) as H.
  by destruct (lift_core _ t) as [[] t1].
Qed.
Lemma serve_step_tidy t t' : serve_step t t' -> loop_tidy t t'.
Proof.
  destruct 1; [apply flush_tidy|apply command_tidy|apply lift_tidy..].
  - apply settle_replan_tidies.
  - apply launches_tidies.
  - intros c. unfold settle_wait_steps. apply tidies_each. intros. apply settle_wait_tidies.
  - intros c. unfold settle_skip_guards. apply tidies_each. intros. apply settle_guard_tidies.
  - intros c. unfold settle_policied_steps. apply tidies_each. intros. apply settle_policied_tidies.
  - intros c. unfold fire_due_timers. apply (tidies_bind (each _ _)); [|intros _]; apply tidies_each; intros; [apply fire_attempt_tidies|apply fire_wait_tidies].
  - intros c. unfold settle_rerank_rounds. apply tidies_each. intros. apply settle_rerank_tidies.
  - apply answers_tidies.
  - apply settle_react_tidies.
Qed.
(** Recovery included, the owner thread starts with orderly tables. *)
Lemma boot_orderly am roles (tools : R) journal st r t : core_boot to_lowercase am roles tools journal st = Some (r, t) -> orderly t.(core).(dispatched).
Proof.
  unfold core_boot. destruct (core_start journal st) as [c0|] eqn:H0; [|done]. set (t0 := {| core := c0 |}).
  assert (Ho : orderly t0.(core).(dispatched)).
  { unfold core_start in H0. destruct (recover journal) as [[[p n] sub]|]; [|done]. injection H0 as <-. cbn.
    split; [by intros id m w|split; [set_solver|done]|intros m w w' Hw; by apply elem_of_empty in Hw]. }
  intros [= E]. revert E. unfold cbind.
  pose proof (lift_tidy _ t0 (recover_replan_tidies roles) Ho) as H1. destruct (lift_core _ t0) as [[[]| |] t1]; [|by intros [= _ <-]..].
  pose proof (lift_tidy _ t1 recover_rerank_tidies H1) as H2. destruct (lift_core _ t1) as [[[]| |] t2]; [|by intros [= _ <-]..].
  pose proof (lift_tidy _ t2 (answers_tidies (env_rerank (am_env am))) H2) as H3. destruct (lift_core _ t2) as [[[]| |] t3]; [|by intros [= _ <-]..].
  pose proof (lift_tidy _ t3 (recover_react_tidies (am_env am) tools (am_approval_clock am) (react_cache t3)) H3) as H4.
  destruct (lift_core _ t3) as [[cache| |] t4]; [|by intros [= _ <-]..]. intros [= _ <-].
  apply (lift_tidy (modify rearm_timers) (set_cache cache t4)); [|exact H4]. intros c. apply tidy_dispatch. auto with neat.
Qed.
(** [C13] From the boot of the owner thread on any journal, the recovery of re-plans,
    reranks, agents and timers included, and whatever it then commits, serves
    (submissions, polls, failures, repudiations, approvals) or settles (re-plans,
    launches, waits, guards, policied steps, timers, reranks, answers, agents), in any
    order and whether or not it succeeds: every Mote is leased to at most one worker,
    and is admitted under its own identity. *)
Theorem work_partitioned am roles (tools : R) journal st r t0 t :
  core_boot to_lowercase am roles tools journal st = Some (r, t0) -> rtc serve_step t0 t ->
  (forall m w w', m ∈ held_by_worker t.(core).(dispatched).(tracker) w -> m ∈ held_by_worker t.(core).(dispatched).(tracker) w' -> w = w')
  /\ forall id m w, t.(core).(dispatched).(defs) !! id = Some (m, w) -> m.(Mote.mote_id) = id.
Proof.
  intros H0 Hs. assert (orderly t.(core).(dispatched)) as [H1 H2 H3].
  { apply boot_orderly in H0. induction Hs as [|t t1 t2 Hst _ IH]; [done|]. apply IH. by apply (serve_step_tidy t t1). }
  split; [|exact H1]. intros m w w' Hw Hw'. apply (mi_same _ H2) in Hw, Hw'. by eapply H3.
Qed.
End Commands.

(** ** A history: register, submit, poll *)
#[local] Existing Instance demo_blake3.
#[local] Existing Instance demo_bincode.
#[local] Existing Instance demo_serde.
#[local] Existing Instance demo_values.
#[local] Existing Instance demo_calls.
#[local] Existing Instance demo_scalars.
Definition demo_start : Demo := {|
  core_journal := InMemoryJournal_new; core_store := None; projection := State_default; folded_through := 0;
  dispatched := {| submitted := list_to_set (iter_motes State_default).*1; defs := ∅; tracker := LeaseTracker_default;
                   parked_launches := ∅; parked_waits := ∅; armed_timers := ∅; parked_policied := ∅; parked_guards := ∅ |} |}.
Definition demo_loop0 : LoopState (J := InMemoryJournal) (S := InMemoryContentStore) :=
  {| core := demo_start; scheduler := Scheduler_new Local; react_cache := ReactSettleCache_default |}.
Definition demo_am : Ambient := {|
  am_env := {| env_rerank := None; env_approval := None; env_per_turn := None; env_per_tool_call := None |};
  am_clock := 0; am_wait_clock := 0; am_policied_clock := 0; am_timer_clock := 0; am_approval_clock := fun _ => 0;
  am_reap_clock := 0; am_lease_clock := 0; am_nonce := replicate 16 7; am_workers := registry_new |}.
Definition demo_serve (command : Command) (t : LoopState (J := InMemoryJournal) (S := InMemoryContentStore)) := (handle_command demo_am None tools_new command t).2.
Definition demo_t1 := demo_serve (Command.RegisterRun (replicate 32 0)) demo_loop0.
Definition demo_t2 := demo_serve (Command.Submit demo_plain demo_w false false) demo_t1.
Definition demo_t3 := demo_serve (Command.LeaseWork 0 (WarrantSpec.executor_class demo_w) 4) demo_t2.
Lemma work_partitioned_witness :
  demo_id 2 ∈ held_by_worker demo_t3.(core).(dispatched).(tracker) 0
  /\ forall w, demo_id 2 ∈ held_by_worker demo_t3.(core).(dispatched).(tracker) w -> w = 0.
Proof.
  assert (demo_id 2 ∈ held_by_worker demo_t3.(core).(dispatched).(tracker) 0) as H0.
  { apply (bool_decide_eq_true_1 (demo_id 2 ∈ held_by_worker demo_t3.(core).(dispatched).(tracker) 0)). vm_compute. reflexivity. }
  split; [exact H0|]. intros w Hw.
  destruct (work_partitioned (fun b => b) demo_am None tools_new InMemoryJournal_new (None : option InMemoryContentStore) (Ok tt) demo_loop0 demo_t3)
    as [Hp _].
  - reflexivity.
  - eapply rtc_l; [exact (sv_command (fun b => b) demo_am None tools_new (Command.RegisterRun (replicate 32 0)) demo_loop0)|].
    eapply rtc_l; [exact (sv_command (fun b => b) demo_am None tools_new (Command.Submit demo_plain demo_w false false) demo_t1)|].
    apply rtc_once. exact (sv_command (fun b => b) demo_am None tools_new (Command.LeaseWork 0 (WarrantSpec.executor_class demo_w) 4) demo_t2).
  - exact (Hp _ _ _ Hw H0).
Defined.
