(* ===== verification/LoopFacts.v ===== *)
(** Rounds of the owner thread: a round is a fixed sequence of flushes, handlers and
    passes; each of them returns and keeps the invariant of the writer, and every
    command of a round is answered exactly once. *)
From S2P Require Import Prelude Effects Utf8 CriticTypes Mote ContextItems Entry EntryEncode EntryDecode EntryRoundtrip Journal Sqlite Warrant Content DemoCodec ProjState ProjIndex ProjFold ProjHistory ProjQuery Materializer Scheduler Refusal Checkpoint Recovery Critic NativeCritic Digits ParamSchema Text ToolRegistry ToolStore Toolcall ToolcallFacts ExactlyOnce Wire Workers Coordinator CoordSync Cascade Timers TimerFacts ReactShape Rerank RerankFacts Lease LeaseFacts Replan Submit SubmitFacts Pricing React ReactFacts ReactChain Loop.
Import JournalEntry.
Import ReactRoundRecord (turn, turn_mote_id, branch).

Lemma grows_rounds l l' : grows l l' -> omap round_of l' = omap round_of l.
Proof.
  intros (k & -> & Hk). rewrite omap_app. rewrite <- (app_nil_r (omap round_of l)) at 2. f_equal.
  induction Hk as [|e k He _ IH]; [done|]. cbn. rewrite IH. by destruct e.
Qed.

Section Polls.
Context `{HB : Blake3} `{!Bincode MoteDef} `{!Bincode WarrantSpec} `{!Bincode TopologyDecision} `{!Bincode CriticVerdict}.
Context `{HSJ : SerdeJson} `{HTJ : ToolcallJson} `{HSC : SerdeScalar} `{HSV : SerdeValue}.
Context {S R : Type} `{!ContentStore S} `{!ToolRegistry R}.
(** A computation that always returns. *)
Definition returns {T A E} (m : comp T A E) : Prop := forall t, exists a t', m t = (Ok a, t').
Lemma returns_ret {T A E} (a : A) : returns (T := T) (E := E) (cret a).
Proof. intros t. by eexists _, _. Qed.
Lemma returns_bind {T A B E} (m : comp T A E) (k : A -> comp T B E) : returns m -> (forall a, returns (k a)) -> returns (cbind m k).
Proof. intros Hm Hk t. destruct (Hm t) as (a & t1 & E1). destruct (Hk a t1) as (b & t2 & E2). exists b, t2. unfold cbind. by rewrite E1. Qed.
Lemma returns_ask {T A E} (f : T -> outcome A E) : (forall t, exists a, f t = Ok a) -> returns (cask f).
Proof. intros Hf t. destruct (Hf t) as [a Ha]. exists a, t. unfold cask. by rewrite Ha. Qed.
Lemma returns_lift {T A E} (a : A) : returns (T := T) (E := E) (clift (Ok a)).
Proof. intros t. by eexists _, _. Qed.
Context (v : LeaseView) (Hidx : indices_ok v.(lv_state)).
Lemma consider_returns p sel id : returns (consider (S := S) v p sel id).
Proof.
  unfold consider. repeat (match goal with |- returns (if ?b then _ else _) => destruct b; [apply returns_ret|] end).
  destruct (lv_defs v !! id) as [[mote w]|]; [|apply returns_ret].
  repeat (match goal with |- returns (if ?b then _ else _) => destruct b; [apply returns_ret|] end).
  apply returns_bind; [apply returns_ask; by eexists|]. intros cleared.
  repeat (match goal with |- returns (if ?b then _ else _) => destruct b; [apply returns_ret|] end).
  apply returns_bind; [intros t; destruct (chat_rag_rerank_holds _ _ _ _ t); by eexists _, _|]. intros [|]; [apply returns_ret|].
  case_bool_decide; [|apply returns_ret]. destruct (load_place_total p id) as [x ->]. apply returns_bind; [apply returns_lift|].
  intros y. destruct (y =? _); apply returns_ret.
Qed.
Lemma consider_all_returns p ids : forall sel, returns (consider_all (S := S) v p sel ids).
Proof. induction ids as [|id ids IH]; intros sel; cbn [consider_all]; [apply returns_ret|]. apply returns_bind; [apply consider_returns|done]. Qed.
Lemma lease_item_returns (tools : R) id : returns (lease_item (S := S) v tools id).
Proof.
  unfold lease_item. destruct (lv_defs v !! id) as [[mote w]|]; [|apply returns_ret].
  apply returns_bind; [apply returns_ask; intros st; by apply parent_context_total|]. intros l.
  apply returns_bind; [apply returns_ask; intros st; by apply lease_args_total|]. intros [a|]; [|apply returns_ret].
  apply returns_bind; [intros t; destruct (chat_rag_delivered_context _ _ _ _ t); by eexists _, _|]. intros d.
  destruct (from_anchor_total CONTEXT_ITEMS_KEY ReactRoundRecord.context_items_ref mote (lv_state v) Hidx) as [x Hx].
  destruct (from_anchor_total IMAGE_REF_KEY ReactRoundRecord.image_ref mote (lv_state v) Hidx) as [y Hy].
  unfold resolve_react_context_items, resolve_react_image_ref. rewrite Hx, Hy.
  apply returns_bind; [destruct d; [apply returns_ret|apply returns_lift]|]. intros i.
  apply returns_bind; [apply returns_lift|]. intros im. apply returns_ret.
Qed.
Lemma lease_items_returns (tools : R) ids : returns (lease_items (S := S) v tools ids).
Proof.
  induction ids as [|id ids IH]; cbn [lease_items]; [apply returns_ret|]. apply returns_bind; [apply lease_item_returns|].
  intros o. apply returns_bind; [done|]. intros l. apply returns_ret.
Qed.
Lemma lease_ready_returns now registry max (tools : R) : returns (lease_ready (S := S) v now registry max tools).
Proof.
  intros st. unfold lease_ready. set (placement := LoadAwarePlacement_new _ _ _).
  apply (returns_bind (consider_all v placement {| seen := ∅; preferred := []; rest := [] |} (offered v st))
    (fun sel => lease_items v tools (take max (preferred sel ++ rest sel))));
    [apply consider_all_returns|intros sel; apply lease_items_returns].
Qed.
End Polls.

Section Passes.
Context `{HB : Blake3} `{!Bincode MoteDef} `{!Bincode WarrantSpec} `{!Bincode TopologyDecision} `{!Bincode CriticVerdict}.
Context `{HSJ : SerdeJson} `{HTJ : ToolcallJson} `{HSC : SerdeScalar} `{HSV : SerdeValue}.
Context {J S R : Type} `{!Journal J} `{!JournalLaws J} `{!ContentStore S} `{!ToolRegistry R}.
Context (to_lowercase : bytes -> bytes).
Abbreviation C := (Core J S).
(** On any backend, one that refuses entries included. *)
Context `{!JournalTotal J}.

(** ** The other passes leave the chains alone *)
Definition same_rounds {A} (c : C) (_ : A) (c' : C) : Prop := react_rounds (projection c') = react_rounds (projection c).
Lemma same_rounds_ok {A} (a : A) (c c' : C) : same_rounds c a c' -> chains_ok (projection c) -> keeps_chains a c'.
Proof. apply chains_same. Qed.
(** An entry that is no round, written and folded, or refused. *)
Lemma write_and_fold e (c : C) regs l n : entry_readable e -> round_of e = None -> (entry_kind e =? KIND_COMMITTED) = false ->
  (entry_kind e =? KIND_REPUDIATED) = false -> in_sync regs l c -> room l (1 + n) ->
  (exists d c1 l1, core_append e c = (Ok d, c1) /\ exists c2, fold_new d c1 = (Ok tt, c2)
    /\ in_sync regs l1 c2 /\ l `prefix_of` l1 /\ room l1 n /\ react_rounds (projection c2) = react_rounds (projection c))
  \/ exists x, core_append e c = (Err x, c).
Proof.
  intros Hrd He H1 H2 Hs Hr.
  destruct (offer_run regs l c e Hs) as [(j & Hj & Hok & Hs')|(x & Hx & _)]; [by apply plain_offered|by eapply room_le; [exact Hr|lia]| |right; by exists x].
  left. eexists _, _, (log_append l e).2. split; [exact Hj|]. rewrite fold_new_run by done. eexists. split_and!; [done|done|apply log_append_prefix|by apply log_append_room|].
  unfold advance. cbn [projection with_core_journal folded_through]. rewrite (fo_folded _ _ _ (sync_follows _ _ _ Hs)).
  destruct (log_append_cases l e) as [[Hin _]|(_ & -> & _)].
  - pose proof (contiguous_seq_le _ _ (proj1 (fo_wf _ _ _ (sync_follows _ _ _ Hs))) Hin). by rewrite (proj2 (Z.ltb_ge _ _)) by lia.
  - rewrite set_seq_seq, (proj2 (Z.ltb_lt _ _)) by lia. apply fold_other. by destruct e.
Qed.
Lemma silent_shaper m r w (c : C) : silent c (materialize_replan_shaper m r w c).
Proof.
  unfold materialize_replan_shaper. eapply silent_trans; [apply silent_persist|]. eapply silent_trans; [|apply silent_dispatch].
  split; [apply register_same_log|done].
Qed.
Lemma runs_replan {E} c : runs (E := E) 1 c (settle_replan_rounds c) (same_rounds c).
Proof.
  unfold settle_replan_rounds. destruct (core_store c); [|by apply runs_ret]. destruct (round_zero _) as [anchor|]; [|by apply runs_ret].
  destruct (settled_failures _) as [[latest failures]|]; [|by apply runs_ret]. unfold plan_round.
  destruct (core_get _ c) as [base|]; [|by apply runs_ret]. destruct (negb _); [by apply runs_ret|].
  destruct (_ ≫= _) as [w|]; [|by apply runs_ret]. cbv zeta.
  destruct (silent_write (corrected_prompt base failures) c) as [Hl Er].
  destruct (store_write _ c) as [[r|] c1]; cbn [snd] in *; (eapply runs_from; [exact Hl|]); [|by apply runs_ret].
  intros regs l n Hs Hr. set (shaper := build_replan_shaper _ _ _). set (e := round_entry _ _ _ _ _).
  destruct (write_and_fold e c1 regs l n) as [(d & c2 & l2 & E2 & c3 & E3 & S3 & P3 & R3 & F3)|(x & Hx)]; [done..| |].
  2: { rewrite Hx. exists tt, c1, regs, l. split_and!; try done. eapply room_le; [exact Hr|lia]. }
  rewrite E2, E3.
  destruct (silent_shaper shaper (ReplanRoundRecord.warrant_ref anchor) w c3) as [Hl4 Er4]. destruct (Hl4 _ _ S3) as (regs4 & _ & S4).
  eexists tt, _, regs4, l2. split_and!; try done. unfold same_rounds. by rewrite Er4, F3, Er.
Qed.
Lemma runs_write_rerank m inst base q w k (c : C) regs l n : in_sync regs l c -> room l (1 + n) ->
  exists r c' regs' l', write_rerank_anchor m inst base q w k c = (r, c') /\ r <> Panic
    /\ react_rounds (projection c') = react_rounds (projection c) /\ in_sync regs' l' c' /\ l `prefix_of` l' /\ room l' n.
Proof.
  intros Hs Hr. unfold write_rerank_anchor. destruct (latest_rerank_round _ _).
  { eexists _, c, regs, l. split_and!; try done. eapply room_le; [done|lia]. }
  unfold cbind, cmap_err. set (e := ReRankRound _ _ _ _ _ _ _ _ _ _).
  destruct (write_and_fold e c regs l n) as [(d & c2 & l2 & E2 & c3 & E3 & S3 & P3 & R3 & F3)|(x & Hx)]; [done..| |].
  2: { rewrite Hx. cbn [omap_err]. eexists _, c, regs, l. split_and!; try done. eapply room_le; [exact Hr|lia]. }
  rewrite E2. cbn [omap_err]. rewrite E3. by exists (Ok tt), c3, regs, l2.
Qed.
Lemma runs_settle_rerank anchor c : runs (E := unit) 1 c (settle_rerank anchor c) (same_rounds c).
Proof.
  unfold settle_rerank. destruct (core_store c) as [store|]; [|by apply runs_ret].
  destruct (rerank_verdict _ _ _) as [o|]; [|by apply runs_ret]. destruct (stage_reordered_same anchor o store c) as [Hl Hp].
  set (c0 := stage_reordered anchor o store c) in *. eapply runs_from; [exact Hl|].
  assert (Hap : runs (E := unit) 1 c0 (append_then (rerank_entry anchor o) (fun c => c) c0) (same_rounds c)).
  { eapply runs_mono; [reflexivity| |apply runs_append; [done|intros; by apply plain_offered|apply silent_refl]].
    intros [] c1 E1. unfold same_rounds. by rewrite E1, Hp. }
  unfold append_rerank_outcome. rewrite Hp. destruct (latest_rerank_round _ _) as [r|]; [|exact Hap].
  destruct (negb _); [|exact Hap]. apply runs_ret. unfold same_rounds. by rewrite Hp.
Qed.
Lemma runs_each_same {A} k (step : A -> comp C unit unit) xs : (forall x c, runs k c (step x c) (same_rounds c)) ->
  forall c, runs (length xs * k) c (each step xs c) (same_rounds c).
Proof.
  intros Hst. induction xs as [|x xs IH]; intros c; cbn [each length Nat.mul]; [by apply runs_ret|].
  apply runs_bind. eapply runs_mono; [reflexivity| |apply Hst]. intros [] c1 E1. eapply runs_mono; [reflexivity| |apply IH].
  intros [] c2 E2. unfold same_rounds in *. congruence.
Qed.
Lemma runs_reranks c : runs (E := unit) (length (pending_rerank_frontier (projection c))) c (settle_rerank_rounds c) (same_rounds c).
Proof. unfold settle_rerank_rounds. rewrite <- (Nat.mul_1_r (length _)). apply runs_each_same. intros. apply runs_settle_rerank. Qed.
Lemma rerank_id_silent m w (c : C) store st' k : core_store c = Some store -> chat_rag_rerank_id m w (projection c) store = (k, st') ->
  silent c (with_core_store (Some st') c).
Proof.
  intros _ _. split; [|done]. intros regs l [H1 []]. by exists regs.
Qed.
Lemma runs_answer x c : runs (E := unit) 1 c (settle_answer x c) (same_rounds c).
Proof.
  unfold settle_answer. destruct x as [answer w]. destruct (core_store c) as [store|] eqn:Hst; [|by apply runs_ret].
  destruct (chat_rag_rerank_id answer w (projection c) store) as [k st'] eqn:Hk.
  destruct (rerank_id_silent answer w c store st' k Hst Hk) as [Hl Er]. set (c1 := with_core_store (Some st') c) in *.
  destruct k as [k|]; [|eapply runs_from; [exact Hl|by apply runs_ret]]. cbv zeta. eapply runs_from; [exact Hl|].
  destruct (ReRankRoundRecord.outcome <$> _) as [[|p|]|]; try (by apply runs_ret).
  - destruct (config _ _ ≫= _) as [b|]; [|by apply runs_ret]. destruct (silent_write b c1) as [Hl2 Er2].
    eapply runs_from; [exact Hl2|]. apply runs_ret. unfold same_rounds. by rewrite Er2.
  - destruct (silent_write (bincode_encode w) c1) as [Hl2 Er2]. destruct (store_write _ c1) as [[r|] c2]; cbn [snd] in *;
      (eapply runs_from; [exact Hl2|]); [|apply runs_ret; unfold same_rounds; by rewrite Er2].
    intros regs l n Hs Hr. set (m := answer_rerank _ _ _ _ _).
    destruct (runs_write_rerank m (rk_instance k) (rk_base k) (rk_query k) r (rk_count k) c2 regs l n Hs Hr)
      as (o & c3 & regs3 & l3 & -> & Hp & F3 & S3 & P3 & R3). destruct o as [[]|e|]; [| |done].
    + destruct (silent_turn m r w c3) as [Hl4 Er4]. destruct (Hl4 _ _ S3) as (regs4 & _ & S4). eexists tt, _, regs4, l3.
      split_and!; try done. unfold same_rounds. by rewrite Er4, F3, Er2.
    + eexists tt, c3, regs3, l3. split_and!; try done. unfold same_rounds. by rewrite F3, Er2.
Qed.
Lemma runs_answers env c : runs (E := unit) (size c.(dispatched).(defs)) c (settle_chat_rag_reranks env c) (same_rounds c).
Proof.
  unfold settle_chat_rag_reranks. destruct (negb _); [by apply runs_ret|]. destruct (core_store c); [|by apply runs_ret].
  destruct (run_registration _); [|by apply runs_ret]. set (xs := List.filter _ _).
  apply (runs_le (length xs * 1)); [|apply runs_each_same; intros; apply runs_answer].
  assert (length xs <= length (btree_values (defs (dispatched c))))%nat as Hle by apply filter_length_le.
  unfold btree_values in *. rewrite length_fmap, length_btree_iter in Hle. lia.
Qed.

(** ** A round as a fixed sequence *)
Abbreviation T := (LoopState (J := J) (S := S)).
Inductive Pass := PReplan | PLaunches | PWaits | PGuards | PPolicied | PTimers | PReranks | PAnswers | PRounds.
Definition exec_pass (am : Ambient) (tools : R) (p : Pass) : comp T unit unit :=
  match p with
  | PReplan => lift_core settle_replan_rounds
  | PLaunches => lift_core (settle_agentic_launches am.(am_env))
  | PWaits => lift_core (settle_wait_steps am.(am_wait_clock))
  | PGuards => lift_core settle_skip_guards
  | PPolicied => lift_core (settle_policied_steps am.(am_policied_clock))
  | PTimers => lift_core (fire_due_timers am.(am_timer_clock))
  | PReranks => lift_core settle_rerank_rounds
  | PAnswers => lift_core (settle_chat_rag_reranks am.(am_env).(env_rerank))
  | PRounds => do! cache := (fun t => lift_core (settle_react_rounds to_lowercase am.(am_env) tools am.(am_approval_clock) t.(react_cache)) t) in
               fun t => (Ok tt, set_cache cache t)
  end.
Definition passes_of_round : list Pass := [PReplan; PLaunches; PWaits; PGuards; PPolicied; PTimers; PReranks; PAnswers; PRounds].
Inductive Act :=
| Flush (pending : list (CommitProposal * nat))
| Handle (channel : nat) (am : Ambient) (command : Command)
| Settle (am : Ambient) (p : Pass).
Definition exec_act (roles : option (bytes -> option Role)) (tools : R) (a : Act) : comp T (list (nat * Reply)) unit :=
  match a with
  | Flush pending => flush roles pending
  | Handle channel am command => do! reply := handle_command am roles tools command in cret [(channel, reply)]
  | Settle am p => do! _ := exec_pass am tools p in cret []
  end.
Fixpoint run_acts (roles : option (bytes -> option Role)) (tools : R) (acts : list Act) : comp T (list (nat * Reply)) unit :=
  match acts with
  | [] => cret []
  | a :: acts => do! r := exec_act roles tools a in do! rest := run_acts roles tools acts in cret (r ++ rest)
  end.
Fixpoint plan (pending : list (CommitProposal * nat)) (commands : list (nat * Ambient * Command)) : list Act :=
  match commands with
  | [] => [Flush pending]
  | (channel, am, Command.Commit proposal) :: commands => plan (pending ++ [(proposal, channel)]) commands
  | (channel, am, command) :: commands => Flush pending :: Handle channel am command :: plan [] commands
  end.
Definition round_acts (commands : list (nat * Ambient * Command)) (am : Ambient) : list Act :=
  plan [] (take MAX_DRAIN commands) ++ (Settle am <$> passes_of_round).
Lemma run_acts_app roles tools a1 a2 t : run_acts roles tools (a1 ++ a2) t
  = (do! r1 := run_acts roles tools a1 in do! r2 := run_acts roles tools a2 in cret (r1 ++ r2)) t.
Proof.
  revert t. induction a1 as [|a a1 IH]; intros t; cbn [app run_acts].
  - unfold cbind, cret. by destruct (run_acts _ _ a2 t) as [[]].
  - unfold cbind, cret. destruct (exec_act roles tools a t) as [[r|?|] t1]; [|done..].
    rewrite IH. unfold cbind, cret. destruct (run_acts roles tools a1 t1) as [[r1|?|] t2]; [|done..].
    destruct (run_acts roles tools a2 t2) as [[r2|?|] t3]; [|done..]. by rewrite app_assoc.
Qed.
Lemma drain_planned roles tools commands : forall pending t,
  drain roles tools pending commands t = run_acts roles tools (plan pending commands) t.
Proof.
  induction commands as [|[[channel am] command] commands IH]; intros pending t.
  - cbn [drain plan run_acts exec_act]. unfold cbind at 1. destruct (flush roles pending t) as [[r|?|] t1]; [|done..]. cbn. by rewrite app_nil_r.
  - assert (Hcase : forall m : comp T Reply unit, (do! flushed := flush roles pending in do! reply := m in
        do! rest := drain roles tools [] commands in cret (flushed ++ (channel, reply) :: rest)) t
      = (do! r := flush roles pending in do! rest := (do! r := (do! reply := m in cret [(channel, reply)]) in
           do! rest := run_acts roles tools (plan [] commands) in cret (r ++ rest)) in cret (r ++ rest)) t).
    { intros m. unfold cbind. destruct (flush roles pending t) as [[r|?|] t1]; [|done..]. destruct (m t1) as [[reply|?|] t2]; [|done..].
      cbn [cret]. rewrite IH. destruct (run_acts _ _ _ t2) as [[rest|?|] t3]; done. }
    destruct command; try (apply Hcase). apply IH.
Qed.
Lemma passes_planned roles tools am t : run_acts roles tools (Settle am <$> passes_of_round) t
  = (do! _ := run_settle_passes to_lowercase am tools in cret []) t.
Proof.
  unfold run_settle_passes, passes_of_round. cbn [fmap list_fmap run_acts exec_act exec_pass]. unfold cbind.
  repeat match goal with |- context [lift_core ?m ?t] => destruct (lift_core m t) as [[[]|?|] ?]; [|done..]; cbn [cret] end.
  done.
Qed.
(** The loop's round is its plan. *)
Lemma round_planned roles tools commands am t :
  core_round to_lowercase roles tools commands am t = run_acts roles tools (round_acts commands am) t.
Proof.
  unfold core_round, round_acts. rewrite run_acts_app. unfold cbind. rewrite drain_planned.
  destruct (run_acts roles tools (plan [] (take MAX_DRAIN commands)) t) as [[r|?|] t1]; [|done..].
  rewrite passes_planned. unfold cbind, cret. destruct (run_settle_passes _ am tools t1) as [[[]|?|] t2]; [|done..].
  by rewrite app_nil_r.
Qed.

(** ** The invariant of the loop *)
(** In step with a journal that goes on from [l0], with every chain in its grammar. *)
Definition core_past (l0 : list JournalEntry) (c : C) : Prop :=
  exists regs l, in_sync regs l c /\ chains_ok (projection c) /\ l0 `prefix_of` l.
Definition loop_past (l0 : list JournalEntry) (t : T) : Prop := core_past l0 t.(core).
Definition loop_ok (t : T) : Prop := exists l, represents t.(core).(core_journal) l /\ loop_past l t.
(** At most how many entries an act writes (a read looks one past the end), and that
    the journal has room for them. *)
Definition writes (a : Act) (t : T) : nat :=
  let c := t.(core) in
  match a with
  | Flush pending => length pending
  | Handle _ _ command =>
      match command with
      | Command.Submit _ w _ _ => size w.(WarrantSpec.tool_grants) + 3
      | Command.LeaseWork _ _ _ => outstanding c.(dispatched).(tracker)
      | Command.Repudiate target reason by_ =>
          match cascade_repudiation_entries c.(projection) target reason by_ DEFAULT_CASCADE_CEILING with Ok es => length es | _ => 0 end
      | Command.ReportEffectStaged _ _ | Command.ReportFailure _ _ _ _ _ | Command.RegisterRun _
      | Command.GrantApproval _ _ _ | Command.DenyApproval _ _ _ | Command.ReadEntries _ _ => 1
      | _ => 0
      end
  | Settle _ p =>
      match p with
      | PReplan => 1
      | PLaunches => size c.(dispatched).(parked_launches)
      | PWaits => size c.(dispatched).(parked_waits)
      | PGuards => size c.(dispatched).(parked_guards)
      | PPolicied => size c.(dispatched).(parked_policied)
      | PTimers => size c.(dispatched).(armed_timers)
      | PReranks => length (pending_rerank_frontier c.(projection))
      | PAnswers => size c.(dispatched).(defs)
      | PRounds => length (refreshed c.(projection) t.(react_cache)) * (pass_room + 1)
      end
  end.
Definition fits (a : Act) (t : T) : Prop := forall l, represents t.(core).(core_journal) l -> room l (writes a t).
(** Commits come from the wire, and are flushed, not handled; a sequence number is
    not negative; a failure's detail is cut to fit an entry. *)
Definition proper (a : Act) : Prop :=
  match a with
  | Flush pending => Forall (fun p => exists req, assemble req = Ok p.1) pending
  | Handle _ _ (Command.Commit _) => False
  | Handle _ _ (Command.ReadEntries since _) => 0 <= since
  | Handle _ _ (Command.ReportFailure _ _ _ _ detail) => detail_fits detail
  | _ => True
  end.
(** What an act answers, and what may be sent for it: a reply of the command's kind
    on the command's channel, where a commit's seq is that of its Mote's commit. *)
Definition asks (a : Act) : list (nat * Command) :=
  match a with
  | Flush pending => (fun q => (q.2, Command.Commit q.1)) <$> pending
  | Handle channel _ command => [(channel, command)]
  | Settle _ _ => []
  end.
Definition reply_for (l : list JournalEntry) (command : Command) (reply : Reply) : Prop :=
  match command, reply with
  | Command.Commit p, Reply.Commit r => commit_answer l p r
  | Command.Submit _ _ _ _, Reply.Submit _ | Command.StateOf _, Reply.StateOf _ | Command.CommittedCount, Reply.CommittedCount _
  | Command.ReadySet, Reply.ReadySet _ | Command.LeaseWork _ _ _, Reply.LeaseWork _ | Command.ReadEntries _ _, Reply.ReadEntries _
  | Command.Repudiate _ _ _, Reply.Repudiate _ | Command.ReportEffectStaged _ _, Reply.ReportEffectStaged _
  | Command.ReportFailure _ _ _ _ _, Reply.ReportFailure _ | Command.RegisterRun _, Reply.RegisterRun _
  | Command.RunRegistration, Reply.RunRegistration _ | Command.RunResolvedVersions, Reply.RunResolvedVersions _
  | Command.ListPendingApprovals, Reply.ListPendingApprovals _ | Command.GrantApproval _ _ _, Reply.Approval _
  | Command.DenyApproval _ _ _, Reply.Approval _ | Command.RunCostCounts _, Reply.RunCostCounts _ _ => True
  | _, _ => False
  end.
Definition replied (l : list JournalEntry) (x : nat * Command) (r : nat * Reply) : Prop := r.1 = x.1 /\ reply_for l x.2 r.2.
(** Every question has one answer, in some order. *)
Definition answers_all (l : list JournalEntry) (xs : list (nat * Command)) (rs : list (nat * Reply)) : Prop :=
  exists rs', rs' ≡ₚ rs /\ Forall2 (replied l) xs rs'.
Lemma commit_answer_mono l l' p r : l `prefix_of` l' -> commit_answer l p r -> commit_answer l' p r.
Proof. intros [k ->] [Hp Ha]. split; [done|]. intros a E. destruct (Ha a E) as (x & Hx & H). exists x. split; [by apply elem_of_app; left|done]. Qed.
Lemma answers_mono l l' xs rs : l `prefix_of` l' -> answers_all l xs rs -> answers_all l' xs rs.
Proof.
  intros Hl (rs' & Hp & Hf). exists rs'. split; [done|]. eapply Forall2_impl; [exact Hf|]. intros [ch cmd] [ch' r] [H1 H2]. split; [done|].
  destruct cmd, r; try done. by eapply commit_answer_mono.
Qed.
Lemma answers_app l xs ys rs ss : answers_all l xs rs -> answers_all l ys ss -> answers_all l (xs ++ ys) (rs ++ ss).
Proof. intros (rs' & P1 & F1) (ss' & P2 & F2). exists (rs' ++ ss'). split; [by rewrite P1, P2|by apply Forall2_app]. Qed.
Lemma past_sync regs l (c : C) : in_sync regs l c -> chains_ok (projection c) -> core_past l c.
Proof. intros Hs Hok. by exists regs, l. Qed.
Lemma past_mono l0 l1 (c : C) : l0 `prefix_of` l1 -> core_past l1 c -> core_past l0 c.
Proof. intros Hl (regs & l & Hs & Hok & Hp). exists regs, l. split_and!; [done|done|by etrans]. Qed.
Lemma past_grows regs l regs' l' (c c' : C) : in_sync regs l c -> chains_ok (projection c) -> in_sync regs' l' c' -> grows l l' -> core_past l' c'.
Proof.
  intros Hs Hok Hs' Hg. apply (past_sync regs'); [done|]. eapply chains_same; [|exact Hok].
  rewrite (live_rounds _ _ _ (fo_live _ _ _ (sync_follows _ _ _ Hs))), (live_rounds _ _ _ (fo_live _ _ _ (sync_follows _ _ _ Hs'))).
  by apply grows_rounds.
Qed.
Lemma past_from regs l regs' l' l0 (c c' : C) : in_sync regs l c -> chains_ok (projection c) -> l0 `prefix_of` l ->
  in_sync regs' l' c' -> grows l l' -> core_past l0 c'.
Proof.
  intros Hs Hok Hp Hs' Hg. eapply past_mono; [|exact (past_grows _ _ _ _ _ _ Hs Hok Hs' Hg)]. etrans; [exact Hp|by apply grows_prefix].
Qed.
Lemma past_stays regs l l0 (c c' : C) : in_sync regs l c -> chains_ok (projection c) -> l0 `prefix_of` l -> stays regs l c' -> core_past l0 c'.
Proof. intros Hs Hok Hp (regs' & l' & Hs' & _ & Hg). exact (past_from _ _ _ _ _ _ _ Hs Hok Hp Hs' Hg). Qed.
Lemma past_silent l0 (c c' : C) : silent c c' -> core_past l0 c -> core_past l0 c'.
Proof.
  intros [Hl Er] (regs & l & Hs & Hok & Hp). destruct (Hl _ _ Hs) as (regs' & _ & Hs'). exists regs', l. split_and!; [done|by eapply chains_same|done].
Qed.
Lemma past_runs {A E} l0 k (c : C) (run : outcome A E * C) : runs k c run keeps_chains -> core_past l0 c ->
  (forall l, represents c.(core_journal) l -> room l k) -> exists a c', run = (Ok a, c') /\ core_past l0 c'.
Proof.
  intros Hm (regs & l & Hs & Hok & Hp) Hr. destruct (Hm regs l 0%nat Hs) as (a & c' & regs' & l' & E1 & HQ & S1 & P1 & _).
  { rewrite Nat.add_0_r. apply Hr, Hs. }
  exists a, c'. split; [done|]. exists regs', l'. split_and!; [done|done|by etrans].
Qed.
Lemma runs_keeps {A E} k (c : C) (run : outcome A E * C) : runs k c run (same_rounds c) -> chains_ok (projection c) -> runs k c run keeps_chains.
Proof. intros Hm Hok. eapply runs_mono; [reflexivity| |exact Hm]. intros a c' H. by eapply same_rounds_ok. Qed.
Lemma past_once regs l l0 (c : C) x : in_sync regs l c -> chains_ok (projection c) -> l0 `prefix_of` l -> once regs l 0 x ->
  exists a c', x = (Ok a, c') /\ core_past l0 c'.
Proof. intros Hs Hok Hp (regs' & l' & c' & -> & Hs' & _ & Hg & _). exists tt, c'. split; [done|exact (past_from _ _ _ _ _ _ _ Hs Hok Hp Hs' Hg)]. Qed.

(** ** Passes *)
Lemma lift_past {A} l0 (m : comp C A unit) (t : T) : (exists a c', m t.(core) = (Ok a, c') /\ core_past l0 c') ->
  exists a t', lift_core m t = (Ok a, t') /\ loop_past l0 t'.
Proof. intros (a & c' & E & Hc). exists a, (set_core c' t). unfold lift_core, czoom. by rewrite E. Qed.
Lemma pass_returns l0 am (tools : R) p t : loop_past l0 t -> fits (Settle am p) t ->
  exists a t', exec_pass am tools p t = (Ok a, t') /\ loop_past l0 t'.
Proof.
  intros Hl Hf. pose proof Hl as (regs & l & Hs & Hok & Hp). pose proof (Hf l (sync_represents _ _ _ Hs)) as Hr.
  destruct (settle_passes_once regs l (core t) (am_wait_clock am) 0 Hs) as (W1 & W2 & _ & _).
  destruct (settle_passes_once regs l (core t) (am_policied_clock am) 0 Hs) as (_ & _ & W3 & _).
  destruct (settle_passes_once regs l (core t) (am_timer_clock am) 0 Hs) as (_ & _ & _ & W4). rewrite !Nat.add_0_r in *.
  destruct p; cbn [exec_pass writes] in *; try apply lift_past; try (eapply past_once; [done|done|done|by auto]).
  - eapply past_runs; [apply runs_keeps; [apply runs_replan|done]|done|]. exact Hf.
  - eapply (past_runs _ (size (parked_launches (dispatched (core t))))); [|done|exact Hf].
    unfold settle_agentic_launches. destruct (core_store (core t)); [|by apply runs_ret].
    rewrite <- (Nat.mul_1_r (size _)), <- length_btree_iter. apply runs_each; [|done]. intros x c1 H1. by apply runs_launch.
  - eapply past_runs; [apply runs_keeps; [apply runs_reranks|done]|done|exact Hf].
  - eapply past_runs; [apply runs_keeps; [apply runs_answers|done]|done|exact Hf].
  - destruct (lift_past l0 (settle_react_rounds to_lowercase am.(am_env) tools am.(am_approval_clock) t.(react_cache)) t) as (cache & t1 & E1 & H1).
    { eapply past_runs; [by apply runs_settle|done|exact Hf]. }
    unfold cbind. rewrite E1. by eexists _, _.
Qed.

(** ** Handlers *)
Lemma answer_past {A E} l0 f (m : comp C A E) (t : T) : (exists r c', m t.(core) = (r, c') /\ r <> Panic /\ core_past l0 c') ->
  exists reply t', answer f m t = (Ok reply, t') /\ loop_past l0 t'.
Proof.
  intros (r & c' & E1 & Hp & Hc). unfold answer. rewrite E1. destruct r as [a|e|]; [| |done]; by eexists _, (set_core c' t).
Qed.
Lemma peek_past l0 f (t : T) : (exists r, f t.(core) = Ok r) -> loop_past l0 t -> exists reply t', peek f t = (Ok reply, t') /\ loop_past l0 t'.
Proof. intros [r E] Hl. exists r, t. unfold peek, cask. by rewrite E. Qed.
Lemma survives_past {A E} regs l l0 (c : C) (m : comp C A E) : in_sync regs l c -> chains_ok (projection c) -> l0 `prefix_of` l ->
  survives regs l (m c) -> exists r c', m c = (r, c') /\ r <> Panic /\ core_past l0 c'.
Proof. intros Hs Hok Hp [Hnp Hk]. destruct (m c) as [r c']. exists r, c'. split_and!; [done|done|by eapply past_stays]. Qed.
Lemma read_total j l since max : represents j l -> room l 1 -> 0 <= since -> read_committed_since j since max <> Panic.
Proof.
  intros Hr Hroom H0. unfold room, MAX_LOG in Hroom. unfold read_committed_since. rewrite (current_seq_law j l Hr). cbn [omap_err obind].
  destruct (_ || _) eqn:E; [done|]. apply orb_false_iff in E as [E%Z.leb_gt _].
  rewrite !u64_add_small by lia. rewrite (read_entries_law j l) by (done || unfold MAX_LOG; lia). done.
Qed.
Lemma cost_counts_total s inst keys : indices_ok s -> forall acc, exists n, cost_counts s inst acc keys = Ok n.
Proof.
  intros Hi. induction keys as [|[i salt] keys IH]; intros acc; cbn [cost_counts]; [by eexists|]. destruct (negb _); [apply IH|].
  unfold latest_react_round. rewrite react_rounds_of_scan by done. cbn [obind]. apply IH.
Qed.
Lemma serve_lease_past l0 env n1 n2 workers req (tools : R) (c : C) : core_past l0 c ->
  (forall l, represents c.(core_journal) l -> room l (outstanding c.(dispatched).(tracker))) ->
  exists r c', serve_lease env n1 n2 workers req tools c = (r, c') /\ r <> Panic /\ core_past l0 c'.
Proof.
  intros (regs & l & Hs & Hok & Hp) Hr. unfold serve_lease. unfold cbind at 1.
  destruct (reap_workers_survives (E := unit) regs n1 workers l c Hs) as (l1 & c1 & -> & S1 & G1); [by apply Hr, Hs|].
  destruct (lease_ready_returns (lease_view env req c1) (sync_indices _ _ _ S1) n2 workers (lr_max req) tools (core_store c1)) as (items & st & ->).
  eexists _, _. split_and!; [done|done|]. pose proof (past_from _ _ _ _ _ _ _ Hs Hok Hp S1 G1) as Hc.
  eapply past_silent; [|exact Hc]. eapply silent_trans; [|apply silent_dispatch]. split; [|done]. intros regs2 l2 [H1 []]. by exists regs2.
Qed.
Lemma submit_past l0 env roles (tools : R) mote w accept seed (c : C) sch : answers tools -> core_past l0 c ->
  (forall l, represents c.(core_journal) l -> room l (size w.(WarrantSpec.tool_grants) + 3)) ->
  exists r t', submit_and_capture env roles tools mote w accept seed (c, sch) = (r, t') /\ r <> Panic /\ core_past l0 t'.1.
Proof.
  intros Ha (regs & l & Hs & Hok & Hp) Hr. destruct (run_registration (projection c)) as [reg|] eqn:Hreg.
  - destruct (submission_runs env roles tools mote w accept seed regs l (c, sch) reg Ha Hs (Hr l (sync_represents _ _ _ Hs)) Hreg)
      as (r & t' & E1 & [H1 (regs' & l' & S1 & P1) _ _ H5]). exists r, t'. split_and!; [done|done|]. exists regs', l'.
    split_and!; [done|by eapply chains_one_anchor|by etrans].
  - unfold submit_and_capture. cbn [fst]. rewrite Hreg. eexists _, _. split_and!; [done|done|]. by exists regs, l.
Qed.
Lemma handler_returns l0 am roles (tools : R) channel command t : answers tools -> loop_past l0 t -> proper (Handle channel am command) ->
  fits (Handle channel am command) t -> exists reply t', handle_command am roles tools command t = (Ok reply, t') /\ loop_past l0 t'.
Proof.
  intros Ha Hl Hp Hf. pose proof Hl as (regs & l & Hs & Hok & Hpre). pose proof (Hf l (sync_represents _ _ _ Hs)) as Hr.
  destruct command as [mote w accept seed|p|id| | |worker class max|since max|target reason by_|id key|id key reason worker detail|fp| | | |q op reason|q op reason|inst];
    cbn [handle_command writes proper] in *; try done; try (by apply peek_past; [eexists|]);
    try (by apply answer_past, serve_lease_past); try (apply answer_past; eapply (survives_past regs l); [done|done|done|]).
  - destruct (submit_past l0 (env_approval (am_env am)) roles tools mote w accept seed (core t) (scheduler t) Ha Hl Hf) as (r & [c' sch'] & -> & Hnp & Hc).
    destruct r as [o|e|]; [| |done]; by eexists _, _.
  - apply peek_past; [|done]. pose proof (read_total _ l since max (sync_represents _ _ _ Hs) Hr Hp). destruct (read_committed_since _ _ _); [by eexists..|done].
  - apply repudiate_survives; [done|]. intros es Hes. by rewrite Hes in Hr.
  - by apply stage_survives.
  - by apply failure_survives.
  - by apply register_survives.
  - by apply decide_survives.
  - by apply decide_survives.
  - apply peek_past; [|done]. unfold run_cost_counts. destruct (cost_counts_total (projection (core t)) inst (react_chain_keys (projection (core t)))
      (sync_indices _ _ _ Hs) (0, 0)) as [n ->]. by eexists.
Qed.
(** A handler's reply is of the command's kind. *)
Lemma answer_kind {A E} f (m : comp C A E) (t t' : T) reply : answer f m t = (Ok reply, t') -> exists r, reply = f r.
Proof. unfold answer. destruct (m (core t)) as [[a|e|] c]; intros [= <- _]; by eexists. Qed.
Lemma handler_kind am roles (tools : R) command t reply t' l :
  handle_command am roles tools command t = (Ok reply, t') -> reply_for l command reply.
Proof.
  destruct command; cbn [handle_command]; try done.
  all: try (intros (r & ->)%answer_kind; by destruct r).
  all: try (unfold peek, cask; by intros [= <- _]).
  - destruct (submit_and_capture _ _ _ _ _ _ _ _) as [[o|e|] [c sch]]; by intros [= <- _].
  - unfold peek, cask. destruct (read_committed_since _ _ _); by intros [= <- _].
  - unfold peek, cask, run_cost_counts. destruct (cost_counts _ _ _ _); by intros [= <- _].
Qed.

(** ** Group commits *)
Lemma flush_returns l0 roles pending t : loop_past l0 t -> proper (Flush pending) -> fits (Flush pending) t ->
  exists rs t' l1, flush roles pending t = (Ok rs, t') /\ l0 `prefix_of` l1 /\ loop_past l1 t' /\ answers_all l1 (asks (Flush pending)) rs.
Proof.
  intros (regs & l & Hs & Hok & Hp) Hpr Hf. pose proof (Hf l (sync_represents _ _ _ Hs)) as Hr. cbn [proper writes asks] in *.
  destruct (flush_runs (E := unit) regs l (core t) roles pending Hs Hpr Hr) as (rs & c' & regs' & l' & E & Hs' & _ & Hg & rs' & Hperm & Hans).
  unfold flush, cbind, lift_core, czoom. rewrite E. eexists _, _, l'. split_and!; [done|etrans; [exact Hp|by apply grows_prefix]| |].
  - exact (past_grows _ _ _ _ _ _ Hs Hok Hs' Hg).
  - exists ((fun x => (x.1, Reply.Commit x.2)) <$> rs'). split; [by apply fmap_Permutation|]. apply Forall2_fmap. eapply Forall2_impl; [exact Hans|].
    intros [p ch] [ch' r] [H1 H2]. by split.
Qed.

(** ** Rounds *)
Lemma act_returns l0 roles (tools : R) a t : answers tools -> loop_past l0 t -> proper a -> fits a t ->
  exists rs t' l1, exec_act roles tools a t = (Ok rs, t') /\ l0 `prefix_of` l1 /\ loop_past l1 t' /\ answers_all l1 (asks a) rs.
Proof.
  intros Ha Hl Hp Hf. destruct a as [pending|channel am command|am p]; cbn [exec_act].
  - by apply flush_returns.
  - destruct (handler_returns l0 am roles tools channel command t Ha Hl Hp Hf) as (r & t' & E & H). unfold cbind. rewrite E. eexists _, _, l0.
    split_and!; [done|done|done|]. exists [(channel, r)]. split; [done|]. constructor; [|constructor]. split; [done|by eapply handler_kind].
  - destruct (pass_returns l0 am tools p t Hl Hf) as (r & t' & E & H). unfold cbind. rewrite E. eexists _, _, l0. split_and!; [done|done|done|]. by exists [].
Qed.
(** The journal has room for every act, in the state it is reached in. *)
Fixpoint all_fit (roles : option (bytes -> option Role)) (tools : R) (acts : list Act) (t : T) : Prop :=
  match acts with
  | [] => True
  | a :: acts => fits a t /\ all_fit roles tools acts (exec_act roles tools a t).2
  end.
Lemma acts_return roles (tools : R) acts : answers tools -> Forall proper acts -> forall l0 t, loop_past l0 t -> all_fit roles tools acts t ->
  exists rs t' l1, run_acts roles tools acts t = (Ok rs, t') /\ l0 `prefix_of` l1 /\ loop_past l1 t' /\ answers_all l1 (concat (asks <$> acts)) rs.
Proof.
  intros Ha. induction 1 as [|a acts Hp _ IH]; intros l0 t Hl Hf; cbn [run_acts].
  { eexists _, _, l0. split_and!; [done..|]. by exists []. }
  destruct Hf as [Hf Hfs]. destruct (act_returns l0 roles tools a t Ha Hl Hp Hf) as (r & t1 & l1 & E1 & P1 & H1 & C1).
  unfold cbind. rewrite E1 in *. cbn [snd] in Hfs. destruct (IH l1 t1 H1 Hfs) as (rest & t2 & l2 & E2 & P2 & H2 & C2). rewrite E2.
  eexists _, _, l2. split_and!; [done|by etrans|done|]. cbn [fmap list_fmap concat]. apply answers_app; [by eapply answers_mono|done].
Qed.
(** What the network layer sends: commits it assembled, non-negative cursors, and
    details it has cut to fit an entry. *)
Definition sendable (x : nat * Ambient * Command) : Prop :=
  match x.2 with
  | Command.Commit p => exists req, assemble req = Ok p
  | Command.ReadEntries since _ => 0 <= since
  | Command.ReportFailure _ _ _ _ detail => detail_fits detail
  | _ => True
  end.
Lemma plan_proper commands : Forall sendable commands -> forall pending, Forall (fun p => exists req, assemble req = Ok p.1) pending ->
  Forall proper (plan pending commands).
Proof.
  induction 1 as [|[[channel am] command] commands Hx _ IH]; intros pending Hp; cbn [plan]; [by repeat constructor|].
  destruct command; try (constructor; [done|]; constructor; [done|]; by apply IH).
  apply IH. apply Forall_app. split; [done|]. by repeat constructor.
Qed.
Definition asked (x : nat * Ambient * Command) : nat * Command := (x.1.1, x.2).
Lemma plan_asks commands : forall pending,
  concat (asks <$> plan pending commands) = ((fun q => (q.2, Command.Commit q.1)) <$> pending) ++ (asked <$> commands).
Proof.
  induction commands as [|[[channel am] command] commands IH]; intros pending; cbn [plan fmap list_fmap concat]; [done|].
  destruct command; cbn [fmap list_fmap concat asks]; try (rewrite IH; done).
  rewrite IH, fmap_app, <- app_assoc. done.
Qed.
(** [C15] The owner thread serves every round: whatever commands it drains, in whatever
    order, whatever the settle passes find to do and whatever the journal refuses, the
    round returns; every command is answered exactly once, on its own channel, with a
    reply of its kind, and a commit's seq is that of its Mote's commit in the journal
    after the round; the coordinator stays in step with its journal, and every agent
    chain stays in its grammar and budget. *)
Theorem round_answers_all roles (tools : R) commands am t :
  answers tools -> loop_ok t -> Forall sendable commands -> (length commands <= MAX_DRAIN)%nat ->
  all_fit roles tools (round_acts commands am) t ->
  exists replies t' l', core_round to_lowercase roles tools commands am t = (Ok replies, t') /\ loop_ok t'
    /\ represents t'.(core).(core_journal) l' /\ answers_all l' (asked <$> commands) replies.
Proof.
  intros Ha (l & _ & Hl) Hc Hlen Hf. rewrite round_planned.
  destruct (acts_return roles tools (round_acts commands am) Ha) with (l0 := l) (t := t) as (rs & t' & l1 & E & _ & (regs & l2 & Hs & Hok & Hp) & Hans); [|done|done|].
  { unfold round_acts. rewrite take_ge by done. apply Forall_app. split; [by apply plan_proper|by repeat constructor]. }
  exists rs, t', l2. split_and!; [done| |apply Hs|].
  - exists l2. split; [apply Hs|by apply (past_sync regs)].
  - eapply answers_mono; [exact Hp|]. revert Hans. unfold round_acts. rewrite take_ge by done. rewrite fmap_app, concat_app, plan_asks. cbn. by rewrite app_nil_r.
Qed.

(** ** Restarts *)
Lemma silent_foldl {A} (f : C -> A -> C) xs : (forall c x, silent c (f c x)) -> forall c, silent c (foldl f c xs).
Proof. intros Hf. induction xs as [|x xs IH]; intros c; [apply silent_refl|]. eapply silent_trans; [apply Hf|apply IH]. Qed.
Lemma silent_committed_shaper st roles id d w (c : C) : silent c (materialize_committed_shaper st roles id d w c).
Proof.
  split; [|apply shaper_rounds]. unfold materialize_committed_shaper. destruct (result_ref_of _ _); [|apply same_log_refl].
  destruct (derive_shaper_children _ _ _ _ _ _); [|apply same_log_refl..]. apply same_log_foldl. intros. apply admit_child_same_log.
Qed.
Lemma silent_restore roles r (c : C) : silent c (restore_children roles r c) /\ silent c (restore_shaper r c).
Proof.
  unfold restore_children, restore_shaper. split.
  - destruct (negb _); [apply silent_refl|]. destruct (core_store c); [|apply silent_refl]. destruct (rebuild_replan_shaper _ _) as [[]|]; [|apply silent_refl].
    apply silent_committed_shaper.
  - case_bool_decide; [apply silent_refl|]. destruct (core_store c); [|apply silent_refl]. destruct (rebuild_replan_shaper _ _) as [[]|]; [|apply silent_refl].
    apply silent_shaper.
Qed.
Lemma runs_recover_replan {E} roles c : runs (E := E) 1 c (recover_replan_chain roles c) (same_rounds c).
Proof.
  unfold recover_replan_chain. destruct (core_store c); [|by apply runs_ret]. destruct roles as [roles|]; [|by apply runs_ret]. cbv zeta.
  destruct (replan_rounds (projection c)) as [|r0 rs0]; [by apply runs_ret|]. set (rounds := List.filter _ _).
  set (c1 := foldl _ c rounds). assert (H1 : silent c c1) by (apply silent_foldl; intros; apply silent_restore).
  set (c2 := match max_round rounds with Some latest => restore_shaper latest c1 | None => c1 end).
  assert (H2 : silent c c2) by (unfold c2; destruct (max_round rounds); [eapply silent_trans; [done|apply (silent_restore roles)]|done]).
  eapply runs_from; [apply H2|]. eapply runs_mono; [reflexivity| |apply runs_replan]. intros a c3 E3. unfold same_rounds in *. by rewrite E3, (proj2 H2).
Qed.
Lemma turn_reranks m r w (c : C) : rerank_rounds (projection (materialize_react_turn m r w c)) = rerank_rounds (projection c).
Proof. unfold materialize_react_turn, persist_def. cbn. destruct (core_store c); [|done]. by destruct (put _ _) as [[]|?|]. Qed.
Lemma frontier_same s s' : rerank_rounds s' = rerank_rounds s -> pending_rerank_frontier s = pending_rerank_frontier s'.
Proof.
  intros E. unfold pending_rerank_frontier. rewrite E.
  assert (Hl : forall id, latest_rerank_round s' id = latest_rerank_round s id) by (intros id; unfold latest_rerank_round; by rewrite E).
  generalize (rerank_rounds s) as rs, (∅ : gset bytes). clear E. induction rs as [|r rs IH]; intros seen; [done|].
  cbn [frontier_loop]. by rewrite Hl, !IH.
Qed.
Lemma recover_rerank_run anchor (c : C) : exists c', recover_rerank (E := unit) anchor c = (Ok tt, c') /\ silent c c'
  /\ rerank_rounds (projection c') = rerank_rounds (projection c).
Proof.
  assert (Hsame : exists c', (Ok tt : outcome unit unit, c) = (Ok tt, c') /\ silent c c' /\ rerank_rounds (projection c') = rerank_rounds (projection c))
    by (exists c; split_and!; [done|apply silent_refl|done]).
  unfold recover_rerank. destruct (core_store c); [|done]. destruct (is_terminal _); [done|]. destruct (_ ≫= _) as [w|]; [|done]. cbv zeta.
  case_bool_decide; [|done]. eexists. split_and!; [done|apply silent_turn|apply turn_reranks].
Qed.
Lemma runs_recover_reranks c : runs (E := unit) (length (pending_rerank_frontier (projection c))) c (recover_rerank_chain c) (same_rounds c).
Proof.
  unfold recover_rerank_chain. destruct (core_store c); [|by apply runs_ret]. destruct (pending_rerank_frontier (projection c)) as [|a0 as0] eqn:Hp; [by apply runs_ret|].
  rewrite <- Hp. assert (Hrec : forall xs c0, exists c', each (recover_rerank (E := unit)) xs c0 = (Ok tt, c') /\ silent c0 c'
    /\ rerank_rounds (projection c') = rerank_rounds (projection c0)).
  { induction xs as [|x xs IH]; intros c0; [exists c0; split_and!; [done|apply silent_refl|done]|]. cbn [each].
    destruct (recover_rerank_run x c0) as (c1 & E1 & S1 & R1). destruct (IH c1) as (c2 & E2 & S2 & R2). exists c2. unfold cbind. rewrite E1.
    split_and!; [done|by eapply silent_trans|by rewrite R2]. }
  unfold cbind. destruct (Hrec (pending_rerank_frontier (projection c)) c) as (c1 & -> & [Hl Er] & Rr). eapply runs_from; [exact Hl|].
  assert (pending_rerank_frontier (projection c) = pending_rerank_frontier (projection c1)) as ->
    by (by apply frontier_same).
  eapply runs_mono; [reflexivity| |apply runs_reranks]. intros [] c2 E2. unfold same_rounds in *. by rewrite E2.
Qed.
(** The journal has room for what the recovery settles, in the states it does so. *)
Definition room_for (k : nat) (c : C) : Prop := forall l, represents c.(core_journal) l -> room l k.
Definition boot_fits (am : Ambient) (roles : option (bytes -> option Role)) (c : C) : Prop :=
  room_for 1 c
  /\ let c1 := (recover_replan_chain (E := unit) roles c).2 in
     room_for (length (pending_rerank_frontier (projection c1))) c1
  /\ let c2 := (recover_rerank_chain (E := unit) c1).2 in
     room_for (size c2.(dispatched).(defs)) c2
  /\ let c3 := (settle_chat_rag_reranks (E := unit) am.(am_env).(env_rerank) c2).2 in
     room_for (length (refreshed (projection c3) ReactSettleCache_default) * (pass_room + 1)) c3.
Lemma past_same {A} l0 k (c : C) (run : outcome A unit * C) : runs k c run (same_rounds c) -> core_past l0 c -> room_for k c ->
  exists a, run = (Ok a, run.2) /\ core_past l0 run.2.
Proof.
  intros Hm Hc Hr. assert (Hk : runs k c run keeps_chains) by (destruct Hc as (? & ? & _ & Hok & _); by apply runs_keeps).
  destruct (past_runs l0 k c run Hk Hc Hr) as (a & c' & -> & H). by exists a.
Qed.
End Passes.

(** ** A concrete round *)
#[local] Existing Instance demo_blake3.
#[local] Existing Instance demo_bincode.
#[local] Existing Instance demo_serde.
#[local] Existing Instance demo_values.
#[local] Existing Instance demo_calls.
#[local] Existing Instance demo_scalars.
Definition demo_loop : LoopState (J := InMemoryJournal) (S := InMemoryContentStore) :=
  {| core := demo_core; scheduler := Scheduler_new Local; react_cache := ReactSettleCache_default |}.
Definition demo_ambient : Ambient := {|
  am_env := demo_env; am_clock := 5; am_wait_clock := 5; am_policied_clock := 5; am_timer_clock := 5; am_approval_clock := fun _ => 5;
  am_reap_clock := 5; am_lease_clock := 5; am_nonce := replicate 16 1; am_workers := registry_new |}.
(** Two commits around a read, and a failure report for a Mote the worker does not
    hold. *)
Definition demo_commands : list (nat * Ambient * Command) :=
  [(7%nat, demo_ambient, Command.Commit (demo_proposal 1 5)); (8%nat, demo_ambient, Command.StateOf (demo_id 1));
   (9%nat, demo_ambient, Command.Commit (demo_proposal 2 1));
   (10%nat, demo_ambient, Command.ReportFailure (demo_id 4) (demo_id 4) FailureReason.ExecutorRefused 3 [])].
Lemma demo_loop_ok : loop_ok demo_loop.
Proof. exists []. split; [apply demo_core_sync|]. apply (past_sync []); [exact demo_core_sync|]. intros inst salt. constructor. Qed.
Ltac demo_fits := repeat (split; [let l := fresh in let H := fresh in intros l H; destruct H as [<- _ _ _ _]; vm_compute; reflexivity|]); exact I.
Lemma round_answers_all_witness :
  exists replies t' l', core_round (fun b => b) None tools_new demo_commands demo_ambient demo_loop = (Ok replies, t')
    /\ loop_ok t' /\ represents t'.(core).(core_journal) l' /\ answers_all l' (asked <$> demo_commands) replies.
Proof.
  apply (round_answers_all (fun b => b) None tools_new demo_commands demo_ambient demo_loop).
  - apply mem_answers.
  - exact demo_loop_ok.
  - pose proof demo_assembled as Ha. rewrite !Forall_cons in Ha. destruct Ha as (H1 & H2 & _).
    repeat (apply Forall_cons; split; [cbn; first [exact I|eexists; eassumption|vm_compute; lia]|]). constructor.
  - vm_compute. lia.
  - unfold round_acts. cbn [take plan demo_commands MAX_DRAIN app fmap list_fmap passes_of_round all_fit]. demo_fits.
Defined.
