(* ===== verification/ReplanFacts.v ===== *)
(** Re-planning is bounded and survives a restart: at most three corrective rounds
    are recorded, one a pass, each for the failures of the round before it, and the
    shaper of a recorded round is rebuilt from its record; and what happens to the
    failures of a second shaper. *)
From S2P Require Import Prelude Effects Utf8 CriticTypes Mote ContextItems Entry EntryEncode EntryDecode EntryRoundtrip Journal Sqlite Warrant Content DemoCodec ProjState ProjIndex ProjFold ProjHistory ProjQuery Materializer Scheduler Refusal Checkpoint Recovery Critic NativeCritic Digits ParamSchema Text ToolRegistry ToolStore Toolcall ToolcallFacts ExactlyOnce Wire Workers Coordinator CoordSync Cascade Timers TimerFacts ReactShape Rerank RerankFacts Lease LeaseFacts Replan Submit SubmitFacts.
Import JournalEntry.
Import ReplanRoundRecord (round, shaper_mote_id, failed_steps).
Abbreviation Round := ReplanRoundRecord.

(** ** The recorded rounds *)
Definition corrective (rs : list Round) : list Z := round <$> List.filter (fun r => 1 <=? r.(round)) rs.
Record rounds_ok (rs : list Round) : Prop := {
  ro_bound : Forall (fun r => 0 <= r.(round) < MAX_SHAPER_ROUNDS) rs;
  ro_once : NoDup (corrective rs)
}.
Lemma corrective_at_most_three rs : rounds_ok rs -> (length (corrective rs) <= 3)%nat.
Proof.
  intros [Hb Hn]. assert (Hi : corrective rs ⊆ [1; 2; 3]).
  { intros n (r & -> & Hr)%list_elem_of_fmap. apply list_elem_of_In, filter_In in Hr as [Hr%list_elem_of_In H1%Z.leb_le].
    rewrite Forall_forall in Hb. specialize (Hb r Hr). unfold MAX_SHAPER_ROUNDS in Hb.
    assert (round r = 1 \/ round r = 2 \/ round r = 3) as [->|[->| ->]] by lia; set_solver. }
  apply NoDup_submseteq, submseteq_length in Hi; [done|done].
Qed.
Lemma max_round_spec rs r : max_round rs = Some r -> r ∈ rs /\ forall y, y ∈ rs -> y.(round) <= r.(round).
Proof.
  intros H. split; [by eapply max_by_elem|]. revert r H. unfold max_round, max_by.
  induction rs as [|x rs IH] using rev_ind; intros r H; [done|]. rewrite foldl_app in H. cbn [foldl] in H.
  destruct (foldl _ None rs) as [a|] eqn:E.
  - specialize (IH a eq_refl). intros y [Hy|Hy%list_elem_of_singleton]%elem_of_app; [specialize (IH y Hy)|subst y];
      destruct (Z.compare_spec (round a) (round x)); injection H as <-; lia.
  - injection H as <-. destruct rs as [|y rs]; [set_solver|]. exfalso. revert E. cbn [foldl]. clear.
    revert y. induction rs as [|z rs IH]; intros y; [done|]. cbn [foldl]. destruct (Z.compare _ _); apply IH.
Qed.
Lemma settled_spec s latest failures : settled_failures s = Some (latest, failures) ->
  max_round s.(replan_rounds) = Some latest /\ latest.(round) + 1 < MAX_SHAPER_ROUNDS
  /\ (forall r, r ∈ s.(replan_rounds) -> r.(round) <> latest.(round) + 1)
  /\ state_of_id s latest.(shaper_mote_id) = MoteState.Committed
  /\ (forall c, c ∈ (children_of s latest.(shaper_mote_id)).*1 -> is_terminal (state_of_id s c) = true)
  /\ failures.*1 <> []
  /\ (forall id, id ∈ failures.*1 <-> id ∈ (children_of s latest.(shaper_mote_id)).*1 /\ state_of_id s id = MoteState.Failed).
Proof.
  unfold settled_failures. destruct (max_round _) as [r|]; [|done]. cbv zeta. destruct (Z.leb_spec MAX_SHAPER_ROUNDS (round r + 1)); [done|].
  destruct (existsb _ _) eqn:He; [done|]. case_bool_decide as Hc; [|done]. cbn [negb]. case_bool_decide; [done|].
  destruct (forallb _ _) eqn:Hf; [|done]. cbn [negb].
  assert (Hin : forall id, id ∈ (round_failures s (children_of s (shaper_mote_id r))).*1
    <-> id ∈ (children_of s (shaper_mote_id r)).*1 /\ state_of_id s id = MoteState.Failed).
  { intros id. unfold round_failures. rewrite merge_sort_Permutation, <- list_fmap_compose. cbn. rewrite list_fmap_id.
    rewrite !list_elem_of_In, filter_In, bool_decide_eq_true. done. }
  destruct (round_failures _ _) as [|f fs] eqn:Hr; [done|]. intros [= <- <-]. split_and!; try done.
  - intros y Hy E. apply not_true_iff_false in He. apply He, existsb_exists. exists y. split; [by apply list_elem_of_In|by apply Z.eqb_eq].
  - intros c Hcin. apply list_elem_of_fmap in Hcin as (x & -> & Hx). rewrite forallb_forall in Hf. by apply Hf, list_elem_of_In.
Qed.

Section Facts.
Context `{HB : Blake3} `{!Bincode MoteDef} `{!Bincode WarrantSpec} `{!Bincode TopologyDecision}.
Context {J S : Type} `{!Journal J} `{!JournalLaws J} `{!ContentStore S}.
Abbreviation C := (Core J S).

(** The round after [latest], planned from [anchor]. *)
Definition planned (anchor latest : Round) (failures : list (MoteId * option FailureReason)) (base : bytes) (corrected_ref : ContentRef)
    (n : Z) : Round := {|
  round := latest.(round) + 1;
  shaper_mote_id := (build_replan_shaper anchor.(ReplanRoundRecord.model_id) (corrected_prompt base failures) (latest.(round) + 1)).(Mote.mote_id);
  ReplanRoundRecord.base_prompt_ref := anchor.(ReplanRoundRecord.base_prompt_ref);
  ReplanRoundRecord.corrected_prompt_ref := corrected_ref; ReplanRoundRecord.warrant_ref := anchor.(ReplanRoundRecord.warrant_ref);
  ReplanRoundRecord.model_id := anchor.(ReplanRoundRecord.model_id); failed_steps := failures.*1;
  ReplanRoundRecord.escalation_reason_ref := None; ReplanRoundRecord.seq := n |}.
Lemma write_replans b (c : C) : replan_rounds (projection (store_write b c).2) = replan_rounds (projection c).
Proof. unfold store_write. destruct (core_store c); [|done]. by destruct (put _ _) as [[]|?|]. Qed.
(** The entry of that round. *)
Definition planned_entry (anchor latest : Round) (failures : list (MoteId * option FailureReason)) (base : bytes) (corrected_ref : ContentRef)
    : JournalEntry :=
  round_entry anchor (latest.(round) + 1)
    (build_replan_shaper anchor.(ReplanRoundRecord.model_id) (corrected_prompt base failures) (latest.(round) + 1)).(Mote.mote_id)
    corrected_ref failures.*1.
Lemma shaper_same m r w (c : C) : same_log c (materialize_replan_shaper m r w c).
Proof.
  unfold materialize_replan_shaper. eapply same_log_trans; [apply persist_same_log|]. eapply same_log_trans; [apply register_same_log|apply dispatch_same_log].
Qed.
Lemma shaper_replans m r w (c : C) : replan_rounds (projection (materialize_replan_shaper m r w c)) = replan_rounds (projection c).
Proof. unfold materialize_replan_shaper. cbn. unfold persist_def. destruct (core_store c); [|done]. by destruct (put _ _) as [[]|?|]. Qed.
Context `{!JournalTotal J}.
(** With its blobs in hand, the next round is recorded and its shaper dispatched; or
    the journal refuses the round, and nothing is dispatched. *)
Lemma plan_round_cases {E} anchor latest failures base w corrected_ref regs l (c : C) : in_sync regs l c -> room l 1 ->
  core_get anchor.(ReplanRoundRecord.base_prompt_ref) c = Some base -> utf8_valid base = true ->
  core_get anchor.(ReplanRoundRecord.warrant_ref) c ≫= decode_warrant = Some w ->
  (store_write (corrected_prompt base failures) c).1 = Some corrected_ref ->
  let shaper := build_replan_shaper anchor.(ReplanRoundRecord.model_id) (corrected_prompt base failures) (latest.(round) + 1) in
  exists c' regs' l', plan_round (E := E) anchor latest failures c = (Ok tt, c') /\ in_sync regs' l' c' /\ l `prefix_of` l'
    /\ ((exists n, replan_rounds (projection c') = replan_rounds (projection c) ++ [planned anchor latest failures base corrected_ref n]
          /\ c'.(dispatched).(defs) !! shaper.(Mote.mote_id) = Some (shaper, w))
        \/ replan_rounds (projection c') = replan_rounds (projection c) /\ c'.(dispatched) = c.(dispatched)
           /\ ~ accepts (planned_entry anchor latest failures base corrected_ref)).
Proof.
  intros Hs Hr Hb Hu Hw Hst shaper. unfold plan_round. rewrite Hb, Hu, Hw. cbn [negb]. cbv zeta. fold shaper.
  pose proof (write_replans (corrected_prompt base failures) c) as Er. pose proof (qt_dispatch _ _ (store_write_quiet (corrected_prompt base failures) c)) as Ed.
  pose proof (store_write_same (corrected_prompt base failures) c) as Hl. destruct (Hl _ _ Hs) as (regs1 & _ & S1).
  destruct (store_write _ c) as [r c1]. cbn [fst snd] in *. subst r. set (e := round_entry _ _ _ _ _).
  destruct (offer_run regs1 l c1 e S1) as [(j & Hj & Hok & S2)|(x & Hx & Hno)]; [by apply plain_offered|done| |].
  2: { rewrite Hx. exists c1, regs1, l. split_and!; [done|done|done|]. by right. }
  rewrite Hj, fold_new_run by done. set (c2 := advance _ _) in *.
  assert (Hrec : replan_rounds (projection c2) = replan_rounds (projection c) ++ [planned anchor latest failures base corrected_ref (Z.of_nat (length l) + 1)]).
  { unfold c2, advance, log_append. cbn [e round_entry derive_key existing_fact is_deduped fst with_core_journal projection folded_through].
    rewrite (fo_folded _ _ _ (sync_follows _ _ _ S1)), (proj2 (Z.ltb_lt _ _)) by (cbn; lia). cbn. by rewrite Er. }
  destruct (shaper_same shaper (ReplanRoundRecord.warrant_ref anchor) w c2 _ _ S2) as (regs3 & _ & S3).
  eexists _, regs3, (log_append l e).2. split_and!; [done|done|apply log_append_prefix|]. left. eexists. split; [by rewrite shaper_replans|].
  unfold materialize_replan_shaper. cbn. apply lookup_insert_eq.
Qed.
(** Planning a round records and dispatches nothing, or records the next round. *)
Definition plans_at_most (anchor latest : Round) (failures : list (MoteId * option FailureReason)) (c c' : C) : Prop :=
  (replan_rounds (projection c') = replan_rounds (projection c) /\ c'.(dispatched) = c.(dispatched))
  \/ exists base corrected_ref n, replan_rounds (projection c') = replan_rounds (projection c) ++ [planned anchor latest failures base corrected_ref n].
Lemma plan_round_run {E} anchor latest failures regs l (c : C) : in_sync regs l c -> room l 1 ->
  exists c' regs' l', plan_round (E := E) anchor latest failures c = (Ok tt, c') /\ in_sync regs' l' c' /\ l `prefix_of` l'
    /\ plans_at_most anchor latest failures c c'.
Proof.
  intros Hs Hr. assert (Hskip : exists c' regs' l', (Ok tt : outcome unit E, c) = (Ok tt, c') /\ in_sync regs' l' c' /\ l `prefix_of` l'
    /\ plans_at_most anchor latest failures c c') by (exists c, regs, l; split_and!; [done|done|done|by left]).
  pose proof (fun base w r => plan_round_cases (E := E) anchor latest failures base w r regs l c Hs Hr) as Hrec.
  unfold plan_round in *. destruct (core_get _ c) as [base|]; [|done]. destruct (utf8_valid base) eqn:Hu; [|done]. cbn [negb] in *.
  destruct (_ ≫= _) as [w|]; [|done]. specialize (Hrec base w). cbv zeta in *. rewrite Hu in Hrec. cbn [negb] in Hrec.
  pose proof (write_replans (corrected_prompt base failures) c) as Er. pose proof (qt_dispatch _ _ (store_write_quiet (corrected_prompt base failures) c)) as Ed.
  pose proof (store_write_same (corrected_prompt base failures) c) as Hl. destruct (Hl _ _ Hs) as (regs1 & _ & S1).
  destruct (store_write _ c) as [[r|] c1]; cbn [fst snd] in *; [|exists c1, regs1, l; split_and!; [done|done|done|by left]].
  destruct (Hrec r) as (c' & regs' & l' & E1 & S2 & P2 & Hc); [done..|]. exists c', regs', l'. split_and!; try done.
  destruct Hc as [(n & R2 & _)|(R2 & D2 & _)]; [right; by exists base, r, n|by left].
Qed.
(** [C21] Re-planning is bounded, and driven by failures alone: a pass returns in step
    with the journal, whatever it refuses, and records and dispatches nothing, or
    records one round; that round follows the latest, whose shaper committed and
    whose children all ended, names exactly those that failed, of which there is one
    at least; and in a run there are never more than three corrective rounds, each
    once. *)
Theorem replanning_bounded regs l (c : C) : in_sync regs l c -> room l 1 -> rounds_ok (replan_rounds (projection c)) ->
  exists c' regs' l', settle_replan_rounds (E := unit) c = (Ok tt, c') /\ in_sync regs' l' c' /\ l `prefix_of` l'
    /\ rounds_ok (replan_rounds (projection c')) /\ (length (corrective (replan_rounds (projection c'))) <= 3)%nat
    /\ (replan_rounds (projection c') = replan_rounds (projection c) /\ c'.(dispatched) = c.(dispatched)
        \/ exists r latest, replan_rounds (projection c') = replan_rounds (projection c) ++ [r]
             /\ max_round (replan_rounds (projection c)) = Some latest /\ r.(round) = latest.(round) + 1
             /\ state_of_id (projection c) latest.(shaper_mote_id) = MoteState.Committed
             /\ (forall x, x ∈ (children_of (projection c) latest.(shaper_mote_id)).*1 -> is_terminal (state_of_id (projection c) x) = true)
             /\ r.(failed_steps) <> []
             /\ forall x, x ∈ r.(failed_steps)
                  <-> x ∈ (children_of (projection c) latest.(shaper_mote_id)).*1 /\ state_of_id (projection c) x = MoteState.Failed).
Proof.
  intros Hs Hr Hok. assert (Hskip : exists c' regs' l', (Ok tt : outcome unit unit, c) = (Ok tt, c') /\ in_sync regs' l' c' /\ l `prefix_of` l'
    /\ rounds_ok (replan_rounds (projection c')) /\ (length (corrective (replan_rounds (projection c'))) <= 3)%nat
    /\ replan_rounds (projection c') = replan_rounds (projection c) /\ c'.(dispatched) = c.(dispatched))
    by (exists c, regs, l; split_and!; try done; by apply corrective_at_most_three).
  unfold settle_replan_rounds. destruct (core_store c); [|naive_solver]. destruct (round_zero _) as [anchor|]; [|naive_solver].
  destruct (settled_failures _) as [[latest failures]|] eqn:Hf; [|naive_solver].
  destruct (settled_spec _ _ _ Hf) as (Hm & Hlt & Hnew & Hc & Hterm & Hne & Hin).
  destruct (plan_round_run (E := unit) anchor latest failures regs l c Hs Hr) as (c' & regs' & l' & E1 & S1 & P1 & [[Es Ed]|(base & cr & n & Es)]).
  { exists c', regs', l'. rewrite Es. split_and!; try done; [by apply corrective_at_most_three|by left]. }
  destruct (max_round_spec _ _ Hm) as [Hmin Hmax].
  assert (Hok' : rounds_ok (replan_rounds (projection c'))).
  { rewrite Es. destruct Hok as [Hb Hn]. assert (0 <= round latest) as H0 by (rewrite Forall_forall in Hb; apply (Hb latest Hmin)). split.
    - apply Forall_app. split; [done|]. apply Forall_singleton. cbn. lia.
    - unfold corrective in *. rewrite List.filter_app, fmap_app. cbn [List.filter planned round]. rewrite (proj2 (Z.leb_le _ _)) by lia. cbn [fmap list_fmap round].
      apply NoDup_app. split_and!; [done| |apply NoDup_singleton]. intros x (y & -> & Hy)%list_elem_of_fmap Hx%list_elem_of_singleton.
      apply list_elem_of_In, filter_In in Hy as [Hy%list_elem_of_In _]. by apply (Hnew y Hy). }
  exists c', regs', l'. split_and!; try done; [by apply corrective_at_most_three|]. right. exists (planned anchor latest failures base cr n), latest. by split_and!.
Qed.
(** The shaper of a recorded round is not lost to a restart: as long as the blobs of
    its prompt and warrant are there, it is rebuilt from the record, the same Mote
    that the pass which recorded the round admitted. *)
Theorem recorded_shaper_rebuilt regs l (c : C) anchor latest failures base w corrected_ref (st : S) :
  in_sync regs l c -> room l 1 -> round_zero (replan_rounds (projection c)) = Some anchor ->
  settled_failures (projection c) = Some (latest, failures) ->
  core_get anchor.(ReplanRoundRecord.base_prompt_ref) c = Some base -> utf8_valid base = true ->
  core_get anchor.(ReplanRoundRecord.warrant_ref) c ≫= decode_warrant = Some w ->
  (store_write (corrected_prompt base failures) c).1 = Some corrected_ref ->
  accepts (planned_entry anchor latest failures base corrected_ref) ->
  utf8_valid (corrected_prompt base failures) = true -> Warrant.warrant_ref_of w = anchor.(ReplanRoundRecord.warrant_ref) ->
  get st corrected_ref = Some (corrected_prompt base failures) ->
  get st anchor.(ReplanRoundRecord.warrant_ref) ≫= decode_warrant = Some w ->
  exists c' r shaper, settle_replan_rounds (E := unit) c = (Ok tt, c') /\ replan_rounds (projection c') = replan_rounds (projection c) ++ [r]
    /\ c'.(dispatched).(defs) !! r.(shaper_mote_id) = Some (shaper, w) /\ rebuild_replan_shaper st r = Some (shaper, w).
Proof.
  intros Hs Hr Ha Hf Hb Hu Hw Hst Hacc Hu' Hwr Hg Hgw.
  destruct (plan_round_cases (E := unit) anchor latest failures base w corrected_ref regs l c Hs Hr Hb Hu Hw Hst) as (c' & regs' & l' & E1 & _ & _ & [(n & R1 & D1)|(_ & _ & Hno)]); [|done].
  exists c', (planned anchor latest failures base corrected_ref n), (build_replan_shaper (ReplanRoundRecord.model_id anchor) (corrected_prompt base failures) (round latest + 1)).
  split_and!; [|exact R1|exact D1|].
  - unfold settle_replan_rounds. rewrite Ha, Hf. destruct (core_store c) eqn:Hcs; [exact E1|]. unfold core_get in Hb. rewrite Hcs in Hb. done.
  - unfold rebuild_replan_shaper. cbn [planned ReplanRoundRecord.corrected_prompt_ref ReplanRoundRecord.warrant_ref ReplanRoundRecord.model_id round shaper_mote_id].
    rewrite Hg, Hu', Hgw, Hwr. cbn [negb]. rewrite bool_decide_true by done. cbn [negb]. cbv zeta. by rewrite bool_decide_true.
Qed.
(** With two shapers in a run, the failures of the second are planned with the
    prompt, the model and the authority of the first; and once that round is
    recorded, no failure of either is planned any more. *)
Theorem second_shaper_misplanned regs l (c : C) first second failures base w corrected_ref :
  in_sync regs l c -> room l 1 -> replan_rounds (projection c) = [first; second] -> first.(round) = 0 -> second.(round) = 0 ->
  settled_failures (projection c) = Some (second, failures) ->
  core_get first.(ReplanRoundRecord.base_prompt_ref) c = Some base -> utf8_valid base = true ->
  core_get first.(ReplanRoundRecord.warrant_ref) c ≫= decode_warrant = Some w ->
  (store_write (corrected_prompt base failures) c).1 = Some corrected_ref ->
  accepts (planned_entry first second failures base corrected_ref) ->
  exists c' r, settle_replan_rounds (E := unit) c = (Ok tt, c') /\ replan_rounds (projection c') = [first; second; r]
    /\ (forall x, x ∈ r.(failed_steps) -> x ∈ (children_of (projection c) second.(shaper_mote_id)).*1)
    /\ r.(ReplanRoundRecord.base_prompt_ref) = first.(ReplanRoundRecord.base_prompt_ref)
    /\ r.(ReplanRoundRecord.model_id) = first.(ReplanRoundRecord.model_id)
    /\ r.(ReplanRoundRecord.warrant_ref) = first.(ReplanRoundRecord.warrant_ref)
    /\ forall s latest fs, replan_rounds s = [first; second; r] -> settled_failures s = Some (latest, fs) -> latest = r.
Proof.
  intros Hs Hr Hrs H1 H2 Hf Hb Hu Hw Hst Hacc.
  destruct (plan_round_cases (E := unit) first second failures base w corrected_ref regs l c Hs Hr Hb Hu Hw Hst) as (c' & regs' & l' & E1 & _ & _ & [(n & R1 & _)|(_ & _ & Hno)]); [|done].
  exists c', (planned first second failures base corrected_ref n). destruct (settled_spec _ _ _ Hf) as (_ & _ & _ & _ & _ & _ & Hin).
  split_and!; try done.
  - unfold settle_replan_rounds. rewrite Hf, Hrs. cbn [round_zero List.find]. rewrite H1. cbn [Z.eqb].
    destruct (core_store c) eqn:Hcs; [exact E1|]. unfold core_get in Hb. rewrite Hcs in Hb. done.
  - by rewrite R1, Hrs.
  - intros x Hx. by apply Hin.
  - intros s latest fs Es (Hm & _)%settled_spec. rewrite Es in Hm. unfold max_round, max_by in Hm. cbn [foldl planned round] in Hm.
    rewrite H1, H2 in Hm. cbn in Hm. rewrite H2 in Hm. cbn in Hm. by injection Hm.
Qed.
End Facts.

(** ** A concrete run *)
#[local] Existing Instance demo_blake3.
#[local] Existing Instance demo_bincode.
Definition demo_round_zero (wr : ContentRef) (n : Z) (shaper : MoteId) : Round := {|
  round := 0; shaper_mote_id := shaper; ReplanRoundRecord.base_prompt_ref := replicate 32 3; ReplanRoundRecord.corrected_prompt_ref := replicate 32 3;
  ReplanRoundRecord.warrant_ref := wr; ReplanRoundRecord.model_id := str "m"; failed_steps := [];
  ReplanRoundRecord.escalation_reason_ref := None; ReplanRoundRecord.seq := n |}.
(** A shaper has committed and its one child is dead-lettered. *)
Definition demo_replan_batch (wr : ContentRef) (shapers : list MoteId) : list JournalEntry :=
  committed_entry (demo_proposal 1 5) :: dead_lettered_entry (demo_id 2)
  :: ((fun shaper => ReplanRound 0 shaper (replicate 32 3) (replicate 32 3) wr (str "m") [] None 0) <$> shapers).
Definition demo_replan_log (wr : ContentRef) (shapers : list MoteId) : list JournalEntry := (log_append_all [] (demo_replan_batch wr shapers)).2.
Definition demo_replan_blobs (wr : ContentRef) : gmap bytes bytes := <[replicate 32 3 := str "plan"]> {[wr := bincode_encode demo_w]}.
Definition demo_ended (wr : ContentRef) (shapers : list MoteId) : Demo :=
  with_core_store (Some {| objects := demo_replan_blobs wr |})
    (foldl advance (with_core_journal (mem_journal (demo_replan_log wr shapers)) demo_core) (log_append_all [] (demo_replan_batch wr shapers)).1).
Definition demo_failed_child : Mote := demo_step 2 ∅ ∅ IdempotentByConstruction [{| parent_id := demo_id 1; edge := EdgeMeta_data |}].
Definition demo_replan (wr : ContentRef) (shapers : list MoteId) : Demo :=
  with_projection (register_mote (register_of demo_failed_child) (demo_ended wr shapers).(projection)) (demo_ended wr shapers).
Lemma demo_replan_sync wr shapers : Z.of_nat (length (demo_replan_log wr shapers)) < MAX_LOG ->
  exists regs, in_sync regs (demo_replan_log wr shapers) (demo_replan wr shapers).
Proof.
  intros Hlen. assert (Hw : Forall (sane []) (demo_replan_batch wr shapers)).
  { constructor; [split; [intros d Hd; by apply bool_decide_eq_true in Hd|done]|]. constructor; [by apply plain_sane|].
    apply Forall_fmap, Forall_true. intros o. by apply plain_sane. }
  destruct (batch_follows [] (demo_replan_batch wr shapers) [] (with_core_journal (mem_journal (demo_replan_log wr shapers)) demo_core))
    as [[H1 H2 H3 H4 H5] _]; [apply follows_journal, demo_core_sync|done|].
  destruct (advance_side (log_append_all [] (demo_replan_batch wr shapers)).1
    (with_core_journal (mem_journal (demo_replan_log wr shapers)) demo_core)) as [E _].
  assert (Hs : in_sync [] (demo_replan_log wr shapers) (demo_ended wr shapers)).
  { split; [unfold demo_ended; cbn [with_core_store core_journal]; rewrite E; split; [done..|exact H1]|].
    split; [exact H1|exact H2|exact H3|exact H4|exact H5]. }
  destruct (register_same_log (register_of demo_failed_child) (demo_ended wr shapers) _ _ Hs) as (regs & _ & Hs'). by exists regs.
Qed.
Lemma demo_core_warrant wr shapers : wr <> replicate 32 3 -> core_get wr (demo_replan wr shapers) ≫= decode_warrant = Some demo_w.
Proof.
  intros Hwr. unfold core_get, demo_replan, demo_ended. cbn [with_projection with_core_store core_store mbind option_bind].
  change (get _ wr) with (demo_replan_blobs wr !! wr). unfold demo_replan_blobs. rewrite lookup_insert_ne, lookup_singleton_eq by done.
  cbn [mbind option_bind]. unfold decode_warrant. by rewrite bincode_decode_encode.
Qed.
Lemma demo_core_prompt wr shapers : core_get (replicate 32 3) (demo_replan wr shapers) = Some (str "plan").
Proof. apply lookup_insert_eq. Qed.
Definition demo_failures : list (MoteId * option FailureReason) := [(demo_id 2, Some FailureReason.DeadLettered)].
Lemma demo_lone_rounds wr : replan_rounds (projection (demo_replan wr [demo_id 1])) = [demo_round_zero wr 3 (demo_id 1)]
  /\ settled_failures (projection (demo_replan wr [demo_id 1])) = Some (demo_round_zero wr 3 (demo_id 1), demo_failures).
Proof. split; vm_compute; reflexivity. Qed.
Lemma demo_replan_room wr : room (demo_replan_log wr [demo_id 1]) 1.
Proof. vm_compute. reflexivity. Qed.
Lemma demo_sync wr : exists regs, in_sync regs (demo_replan_log wr [demo_id 1]) (demo_replan wr [demo_id 1]).
Proof. apply demo_replan_sync. vm_compute. reflexivity. Qed.
Definition demo_ref : ContentRef := replicate 32 5.
Lemma replanning_bounded_witness :
  exists c', settle_replan_rounds (E := unit) (demo_replan demo_ref [demo_id 1]) = (Ok tt, c')
    /\ (length (corrective (replan_rounds (projection c'))) <= 3)%nat.
Proof.
  destruct (demo_sync demo_ref) as [regs Hs].
  destruct (replanning_bounded regs (demo_replan_log demo_ref [demo_id 1]) (demo_replan demo_ref [demo_id 1]))
    as (c' & _ & _ & H1 & _ & _ & _ & H2 & _).
  - exact Hs.
  - apply demo_replan_room.
  - rewrite (proj1 (demo_lone_rounds demo_ref)).
    split; [apply Forall_singleton; vm_compute; split; congruence|constructor].
  - exists c'. split; [exact H1|exact H2].
Defined.
(** What the store holds when the coordinator is rebuilt. *)
Definition demo_corrected : bytes := corrected_prompt (str "plan") demo_failures.
Definition demo_rebuilt : InMemoryContentStore :=
  {| objects := <[Warrant.warrant_ref_of demo_w := bincode_encode demo_w]> {[ContentRef_of demo_corrected := demo_corrected]} |}.
Lemma demo_warrant_apart : Warrant.warrant_ref_of demo_w <> replicate 32 3 /\ Warrant.warrant_ref_of demo_w <> ContentRef_of demo_corrected.
Proof. split; apply (bool_decide_unpack _); vm_compute; exact I. Qed.
Lemma recorded_shaper_rebuilt_witness :
  exists (c' : Demo) r shaper, settle_replan_rounds (E := unit) (demo_replan (Warrant.warrant_ref_of demo_w) [demo_id 1]) = (Ok tt, c')
    /\ rebuild_replan_shaper demo_rebuilt r = Some (shaper, demo_w).
Proof.
  destruct (demo_sync (Warrant.warrant_ref_of demo_w)) as [regs Hs]. destruct (demo_lone_rounds (Warrant.warrant_ref_of demo_w)) as [Hr Hf].
  assert (Hz : round_zero (replan_rounds (projection (demo_replan (Warrant.warrant_ref_of demo_w) [demo_id 1])))
               = Some (demo_round_zero (Warrant.warrant_ref_of demo_w) 3 (demo_id 1))) by (rewrite Hr; reflexivity).
  destruct (recorded_shaper_rebuilt regs _ _ _ _ demo_failures (str "plan") demo_w (ContentRef_of demo_corrected) demo_rebuilt
    Hs (demo_replan_room _) Hz Hf) as (c' & r & shaper & H1 & _ & _ & H2).
  - apply demo_core_prompt.
  - reflexivity.
  - apply demo_core_warrant, demo_warrant_apart.
  - reflexivity.
  - exact I.
  - vm_compute. reflexivity.
  - reflexivity.
  - change (objects demo_rebuilt !! ContentRef_of demo_corrected = Some demo_corrected). unfold demo_rebuilt. cbn [objects].
    rewrite lookup_insert_ne by apply demo_warrant_apart. apply lookup_singleton_eq.
  - change (objects demo_rebuilt !! Warrant.warrant_ref_of demo_w ≫= decode_warrant = Some demo_w). unfold demo_rebuilt. cbn [objects].
    rewrite lookup_insert_eq. exact (f_equal (fmap fst) (bincode_decode_encode demo_w)).
  - exists c', r, shaper. split; [exact H1|exact H2].
Defined.
Lemma demo_two_rounds : replan_rounds (projection (demo_replan demo_ref [demo_id 6; demo_id 1]))
    = [demo_round_zero demo_ref 3 (demo_id 6); demo_round_zero demo_ref 4 (demo_id 1)]
  /\ settled_failures (projection (demo_replan demo_ref [demo_id 6; demo_id 1])) = Some (demo_round_zero demo_ref 4 (demo_id 1), demo_failures)
  /\ room (demo_replan_log demo_ref [demo_id 6; demo_id 1]) 1.
Proof. split_and!; vm_compute; reflexivity. Qed.
Lemma second_shaper_misplanned_witness :
  exists (c' : Demo) r, settle_replan_rounds (E := unit) (demo_replan demo_ref [demo_id 6; demo_id 1]) = (Ok tt, c')
    /\ replan_rounds (projection c') = [demo_round_zero demo_ref 3 (demo_id 6); demo_round_zero demo_ref 4 (demo_id 1); r].
Proof.
  destruct demo_two_rounds as (Hr & Hf & Hroom).
  destruct (demo_replan_sync demo_ref [demo_id 6; demo_id 1]) as [regs Hs]; [vm_compute; reflexivity|].
  destruct (second_shaper_misplanned regs _ _ (demo_round_zero demo_ref 3 (demo_id 6)) (demo_round_zero demo_ref 4 (demo_id 1))
    demo_failures (str "plan") demo_w (ContentRef_of demo_corrected) Hs Hroom Hr) as (c' & r & H1 & H2 & _).
  - reflexivity.
  - reflexivity.
  - exact Hf.
  - apply demo_core_prompt.
  - reflexivity.
  - apply demo_core_warrant. discriminate.
  - reflexivity.
  - exact I.
  - exists c', r. split; [exact H1|exact H2].
Defined.
