(* ===== verification/Workflow.v ===== *)
(** kx-workflow: workflows authored as steps and edges (def.rs), and their
    compilation to a graph of Motes in dependency order (compile.rs, error.rs). *)
From S2P Require Import Prelude Utf8 CriticTypes Mote Warrant Content Materializer Digits.

(** ** Workflows as data *)
(** [StepRef]: the index of a step. *)
Abbreviation StepRef := nat.
Module StepRole.
Inductive StepRole :=
| Plain
| Critic (producer : StepRef)
| TopologyShaper
| DeterministicCritic (producer : StepRef) (check : CheckSpec).
End StepRole.
Abbreviation StepRole := StepRole.StepRole.
Module StepDef.
Record StepDef := {
  logic_ref : bytes;
  model_id : bytes;
  prompt_template_hash : bytes;
  tool_contract : gmap bytes bytes;
  nd_class : NdClass;
  config_subset : gmap bytes bytes;
  effect_pattern : EffectPattern;
  inference_params : InferenceParams;
  role : StepRole;
  warrant : WarrantSpec;
  capability : bytes
}.
Definition with_config (c : gmap bytes bytes) (s : StepDef) : StepDef := {|
  logic_ref := s.(logic_ref); model_id := s.(model_id); prompt_template_hash := s.(prompt_template_hash);
  tool_contract := s.(tool_contract); nd_class := s.(nd_class); config_subset := c;
  effect_pattern := s.(effect_pattern); inference_params := s.(inference_params); role := s.(role);
  warrant := s.(warrant); capability := s.(capability) |}.
Definition with_tools (t : gmap bytes bytes) (s : StepDef) : StepDef := {|
  logic_ref := s.(logic_ref); model_id := s.(model_id); prompt_template_hash := s.(prompt_template_hash);
  tool_contract := t; nd_class := s.(nd_class); config_subset := s.(config_subset);
  effect_pattern := s.(effect_pattern); inference_params := s.(inference_params); role := s.(role);
  warrant := s.(warrant); capability := s.(capability) |}.
End StepDef.
Abbreviation StepDef := StepDef.StepDef.
Module StepEdge.
Record StepEdge := { parent : StepRef; child : StepRef; edge : EdgeMeta }.
End StepEdge.
Abbreviation StepEdge := StepEdge.StepEdge.
Module WorkflowDef.
Record WorkflowDef := { steps : list StepDef; edges : list StepEdge; seed : Z }.
End WorkflowDef.
Abbreviation WorkflowDef := WorkflowDef.WorkflowDef.

Module CompileError.
Inductive CompileError :=
| StepIndexOutOfRange (i : nat)
| Cycle (i : nat)
| InvalidCritic (critic producer : nat)
| DuplicateEdge (parent child : nat)
| MalformedTemplate (reason : bytes)
| MissingPlaceholder (name : bytes)
| UnknownParam (name : bytes)
| RenderPromptStep (step : nat) (reason : bytes)
| EmptyRecipe.
End CompileError.
Abbreviation CompileError := CompileError.CompileError.

Definition WorkflowDef_new (seed : Z) : WorkflowDef :=
  {| WorkflowDef.steps := []; WorkflowDef.edges := []; WorkflowDef.seed := seed |}.
Definition set_steps (ss : list StepDef) (wf : WorkflowDef) : WorkflowDef :=
  {| WorkflowDef.steps := ss; WorkflowDef.edges := wf.(WorkflowDef.edges); WorkflowDef.seed := wf.(WorkflowDef.seed) |}.
Definition add_step (step : StepDef) (wf : WorkflowDef) : StepRef * WorkflowDef :=
  (length wf.(WorkflowDef.steps), set_steps (wf.(WorkflowDef.steps) ++ [step]) wf).
Definition add_edge (parent child : StepRef) (edge : EdgeMeta) (wf : WorkflowDef) : outcome WorkflowDef CompileError :=
  let n := length wf.(WorkflowDef.steps) in
  if (n <=? parent)%nat then Err (CompileError.StepIndexOutOfRange parent)
  else if (n <=? child)%nat then Err (CompileError.StepIndexOutOfRange child)
  else if existsb (fun e => (e.(StepEdge.parent) =? parent)%nat && (e.(StepEdge.child) =? child)%nat) wf.(WorkflowDef.edges)
  then Err (CompileError.DuplicateEdge parent child)
  else Ok {| WorkflowDef.steps := wf.(WorkflowDef.steps);
             WorkflowDef.edges := wf.(WorkflowDef.edges) ++
               [{| StepEdge.parent := parent; StepEdge.child := child; StepEdge.edge := edge |}];
             WorkflowDef.seed := wf.(WorkflowDef.seed) |}.
(** [bind_param]: the value of the slot in every step that declares it, and how many do. *)
Definition declares (key : bytes) (s : StepDef) : bool :=
  match s.(StepDef.config_subset) !! key with Some _ => true | None => false end.
Definition put_config (key value : bytes) (s : StepDef) : StepDef :=
  StepDef.with_config (<[key := value]> s.(StepDef.config_subset)) s.
Definition bind_param (name value : bytes) (wf : WorkflowDef) : nat * WorkflowDef :=
  (length (List.filter (declares name) wf.(WorkflowDef.steps)),
   set_steps ((fun s => if declares name s then put_config name value s else s) <$> wf.(WorkflowDef.steps)) wf).
Definition has_parent (wf : WorkflowDef) (i : nat) : bool :=
  existsb (fun e => (e.(StepEdge.child) =? i)%nat) wf.(WorkflowDef.edges).
Definition inject_entry_config (key value : bytes) (wf : WorkflowDef) : nat * WorkflowDef :=
  (length (List.filter (fun i => negb (has_parent wf i)) (seq 0 (length wf.(WorkflowDef.steps)))),
   set_steps (imap (fun i s => if has_parent wf i then s else put_config key value s) wf.(WorkflowDef.steps)) wf).
Definition inject_step_config (step_index : nat) (key value : bytes) (wf : WorkflowDef) : bool * WorkflowDef :=
  match wf.(WorkflowDef.steps) !! step_index with
  | Some s => (true, set_steps (<[step_index := put_config key value s]> wf.(WorkflowDef.steps)) wf)
  | None => (false, wf)
  end.

Module CompiledMote.
Record CompiledMote := { mote : Mote; warrant : WarrantSpec; capability : bytes; step_index : nat }.
End CompiledMote.
Abbreviation CompiledMote := CompiledMote.CompiledMote.
Record CompiledWorkflow := { motes : list CompiledMote; graph : MoteGraph }.

(** ** Vectors: an index out of range panics *)
Definition at_index {A E : Type} (l : list A) (i : nat) : outcome A E :=
  match l !! i with Some x => Ok x | None => Panic end.
Definition update_at {A E : Type} (l : list A) (i : nat) (f : A -> A) : outcome (list A) E :=
  match l !! i with Some x => Ok (<[i := f x]> l) | None => Panic end.

(** ** Adjacency *)
Record Adjacency := { indegree : list nat; children : list (list nat); parents_of : list (list (nat * EdgeMeta)) }.
Definition no_edges (n : nat) : Adjacency :=
  {| indegree := replicate n O; children := replicate n []; parents_of := replicate n [] |}.
Definition add_adjacent (e : StepEdge) (adj : Adjacency) : outcome Adjacency CompileError :=
  let '(p, c) := (e.(StepEdge.parent), e.(StepEdge.child)) in
  let* ch := update_at adj.(children) p (fun l => l ++ [c]) in
  let* ps := update_at adj.(parents_of) c (fun l => l ++ [(p, e.(StepEdge.edge))]) in
  let* ind := update_at adj.(indegree) c Datatypes.S in
  Ok {| indegree := ind; children := ch; parents_of := ps |}.
Fixpoint adjacency_of (n : nat) (es : list StepEdge) (seen : gset (nat * nat)) (adj : Adjacency) : outcome Adjacency CompileError :=
  match es with
  | [] => Ok adj
  | e :: es =>
      let '(p, c) := (e.(StepEdge.parent), e.(StepEdge.child)) in
      if (n <=? p)%nat then Err (CompileError.StepIndexOutOfRange p)
      else if (n <=? c)%nat then Err (CompileError.StepIndexOutOfRange c)
      else if bool_decide ((p, c) ∈ seen) then Err (CompileError.DuplicateEdge p c)
      else let* adj := add_adjacent e adj in adjacency_of n es ({[(p, c)]} ∪ seen) adj
  end.
Definition producer_of (s : StepDef) : option StepRef :=
  match s.(StepDef.role) with
  | StepRole.Critic p | StepRole.DeterministicCritic p _ => Some p
  | _ => None
  end.
Fixpoint check_producers (n : nat) (ss : list StepDef) : outcome unit CompileError :=
  match ss with
  | [] => Ok tt
  | s :: ss =>
      match producer_of s with
      | Some p => if (n <=? p)%nat then Err (CompileError.StepIndexOutOfRange p) else check_producers n ss
      | None => check_producers n ss
      end
  end.
Definition build_adjacency (def : WorkflowDef) (n : nat) : outcome Adjacency CompileError :=
  let* adj := adjacency_of n def.(WorkflowDef.edges) ∅ (no_edges n) in
  let* _ := check_producers n def.(WorkflowDef.steps) in
  Ok adj.

(** ** The topological order *)
(** [BinaryHeap<Reverse<usize>>::pop]: the least element, one occurrence of it removed. *)
Fixpoint pop_min (l : list nat) : option (nat * list nat) :=
  match l with
  | [] => None
  | x :: l =>
      match pop_min l with
      | None => Some (x, [])
      | Some (y, r) => if (x <=? y)%nat then Some (x, l) else Some (y, x :: r)
      end
  end.
(** A decrement below zero overflows. *)
Fixpoint release (cs : list nat) (ind frontier : list nat) : outcome (list nat * list nat) CompileError :=
  match cs with
  | [] => Ok (ind, frontier)
  | c :: cs =>
      let* d := at_index ind c in
      match d with
      | O => Panic
      | Datatypes.S d => release cs (<[c := d]> ind) (if (d =? 0)%nat then frontier ++ [c] else frontier)
      end
  end.
Fixpoint topo_loop (fuel : nat) (adj : Adjacency) (order ind frontier : list nat)
    : outcome (list nat * list nat * list nat) CompileError :=
  match fuel, pop_min frontier with
  | Datatypes.S fuel, Some (node, frontier) =>
      let* cs := at_index adj.(children) node in
      let* r := release (merge_sort Nat.le cs) ind frontier in
      topo_loop fuel adj (order ++ [node]) r.1 r.2
  | _, _ => Ok (order, ind, frontier)
  end.
Definition topo_order (n : nat) (adj : Adjacency) : outcome (list nat) CompileError :=
  let ready i := match adj.(indegree) !! i with Some O => true | _ => false end in
  let* r := topo_loop (Datatypes.S n) adj [] adj.(indegree) (List.filter ready (seq 0 n)) in
  let '(order, ind, _) := r in
  if (length order =? n)%nat then Ok order
  else Err (CompileError.Cycle (default O (List.find (fun i => match ind !! i with Some d => (0 <? d)%nat | None => false end) (seq 0 n)))).

(** ** Motes *)
Section Compile.
Context `{Blake3} `{!Bincode MoteDef}.
Definition resolve_critic (s : StepDef) (step_idx : nat) (mote_ids : list (option MoteId)) : outcome (option MoteId) CompileError :=
  match producer_of s with
  | None => Ok None
  | Some p =>
      let* o := at_index mote_ids p in
      match o with Some id => Ok (Some id) | None => Err (CompileError.InvalidCritic step_idx p) end
  end.
Fixpoint link_parents (step_idx : nat) (ps : list (nat * EdgeMeta)) (mote_ids : list (option MoteId)) : outcome (list ParentRef) CompileError :=
  match ps with
  | [] => Ok []
  | (p, e) :: ps =>
      let* o := at_index mote_ids p in
      match o with
      | None => Err (CompileError.Cycle step_idx)
      | Some id => let* rest := link_parents step_idx ps mote_ids in Ok ({| parent_id := id; edge := e |} :: rest)
      end
  end.
Definition parent_le (a b : ParentRef) : Prop := bytes_le a.(parent_id) b.(parent_id) = true.
#[export] Instance parent_le_dec : RelDecision parent_le.
Proof. intros a b. unfold parent_le. apply _. Defined.
Definition resolve_parents (step_idx : nat) (adj : Adjacency) (mote_ids : list (option MoteId)) : outcome (list ParentRef) CompileError :=
  let* ps := at_index adj.(parents_of) step_idx in
  let* parents := link_parents step_idx ps mote_ids in
  Ok (merge_sort parent_le parents).
Definition mote_def_for (s : StepDef) (critic_for : option MoteId) : MoteDef := {|
  logic_ref := s.(StepDef.logic_ref); model_id := s.(StepDef.model_id);
  prompt_template_hash := s.(StepDef.prompt_template_hash); tool_contract := s.(StepDef.tool_contract);
  nd_class := s.(StepDef.nd_class); config_subset := s.(StepDef.config_subset);
  effect_pattern := s.(StepDef.effect_pattern); Mote.critic_for := critic_for;
  is_topology_shaper := match s.(StepDef.role) with StepRole.TopologyShaper => true | _ => false end;
  inference_params := s.(StepDef.inference_params);
  critic_check := match s.(StepDef.role) with StepRole.DeterministicCritic _ check => Some check | _ => None end;
  schema_version := MOTE_DEF_SCHEMA_VERSION |}.
Definition entrypoint_input_id (seed rank : Z) : bytes :=
  blake3 (str "kx-workflow/input-data-id/entrypoint/v1" ++ to_le 4 seed ++ to_le 8 rank).
Definition child_input_id (parents : list ParentRef) : bytes :=
  blake3 (str "kx-workflow/input-data-id/child/v1"
          ++ concat ((fun p => p.(parent_id) ++ [EdgeKind_as_u8 p.(edge).(kind); if p.(edge).(non_cascade) then 1 else 0]) <$> parents)).
Definition step_mote (def : WorkflowDef) (s : StepDef) (critic_for : option MoteId) (parents : list ParentRef) (rank : Z) : Mote :=
  Mote_new (mote_def_for s critic_for)
    (match parents with [] => entrypoint_input_id def.(WorkflowDef.seed) rank | _ => child_input_id parents end) (to_le 8 rank) parents.
(** One step of the order; [done] are the Motes compiled so far, so its length is the rank. *)
Definition compile_step (def : WorkflowDef) (adj : Adjacency) (step_idx : nat) (mote_ids : list (option MoteId)) (done : list CompiledMote)
    : outcome (list (option MoteId) * CompiledMote) CompileError :=
  let* s := at_index def.(WorkflowDef.steps) step_idx in
  let* critic_for := resolve_critic s step_idx mote_ids in
  let* parents := resolve_parents step_idx adj mote_ids in
  let m := step_mote def s critic_for parents (Z.of_nat (length done)) in
  let* ids := update_at mote_ids step_idx (fun _ => Some m.(mote_id)) in
  Ok (ids, {| CompiledMote.mote := m; CompiledMote.warrant := s.(StepDef.warrant);
              CompiledMote.capability := s.(StepDef.capability); CompiledMote.step_index := step_idx |}).
Fixpoint compile_loop (def : WorkflowDef) (adj : Adjacency) (order : list nat) (mote_ids : list (option MoteId))
    (done : list CompiledMote) : outcome (list CompiledMote) CompileError :=
  match order with
  | [] => Ok done
  | i :: order => let* r := compile_step def adj i mote_ids done in compile_loop def adj order r.1 (done ++ [r.2])
  end.
Definition compile (def : WorkflowDef) : outcome CompiledWorkflow CompileError :=
  let n := length def.(WorkflowDef.steps) in
  let* adj := build_adjacency def n in
  let* order := topo_order n adj in
  let* ms := compile_loop def adj order (replicate n None) [] in
  Ok {| motes := ms; graph := foldl (fun g m => MoteGraph_insert g m.(CompiledMote.mote)) MoteGraph_new ms |}.
End Compile.
