(* ===== verification/WorkflowFacts.v ===== *)
(** The workflow compiler: it accepts exactly the acyclic workflows (with critics
    after their producers), and what it emits is the authored graph, in an order
    in which everything comes after what it depends on. *)
From S2P Require Import Prelude Utf8 CriticTypes Mote Warrant Content Materializer Digits Workflow.
Import StepEdge (parent, child).

Definition pair_of (e : StepEdge) : nat * nat := (e.(parent), e.(child)).
Definition edges_ok (n : nat) (es : list StepEdge) : Prop :=
  Forall (fun e => (e.(parent) < n /\ e.(child) < n)%nat) es /\ NoDup (pair_of <$> es).
(** The declared dependency, and what makes a workflow a DAG. *)
Definition depends (es : list StepEdge) (p c : nat) : Prop := (p, c) ∈ pair_of <$> es.
#[export] Instance depends_dec es p c : Decision (depends es p c).
Proof. unfold depends. apply _. Defined.
Definition acyclic (es : list StepEdge) : Prop := forall i, ~ tc (depends es) i i.

(** ** Edges of data *)
Definition edge_to (p c : nat) : StepEdge := {| StepEdge.parent := p; StepEdge.child := c; StepEdge.edge := EdgeMeta_data |}.
(** ** Workflows built edge by edge *)
Definition link (x : nat * nat) : StepEdge := edge_to x.1 x.2.
Definition wired (ss : list StepDef) (seed : Z) (ps : list (nat * nat)) : WorkflowDef :=
  {| WorkflowDef.steps := ss; WorkflowDef.edges := link <$> ps; WorkflowDef.seed := seed |}.
Definition pairs_ok (n : nat) (ps : list (nat * nat)) : Prop := Forall (fun x => (x.1 < n /\ x.2 < n)%nat) ps /\ NoDup ps.
Lemma pair_of_links (ps : list (nat * nat)) : pair_of <$> (link <$> ps) = ps.
Proof. rewrite <- list_fmap_compose. rewrite <- (list_fmap_id ps) at 2. apply list_fmap_ext. by intros _ [p c] _. Qed.
Lemma links_ok n (ps : list (nat * nat)) : edges_ok n (link <$> ps) <-> pairs_ok n ps.
Proof. unfold edges_ok, pairs_ok. by rewrite pair_of_links, Forall_fmap. Qed.
Lemma pairs_ok_snoc n ps p c : pairs_ok n ps -> (p < n)%nat -> (c < n)%nat -> (p, c) ∉ ps -> pairs_ok n (ps ++ [(p, c)]).
Proof.
  intros [H1 H2] Hp Hc Hno. split; [apply Forall_app; by repeat constructor|]. apply NoDup_app. split_and!; [done| |apply NoDup_singleton].
  by intros x Hx ->%list_elem_of_singleton.
Qed.
Lemma pairs_ok_mid n ps p c rest : pairs_ok n (ps ++ (p, c) :: rest) -> (p < n)%nat /\ (c < n)%nat /\ (p, c) ∉ ps.
Proof.
  intros [Hr Hn]. apply Forall_app in Hr as [_ Hr]. apply Forall_cons in Hr as [[H1 H2] _]. split_and!; [done|done|].
  apply NoDup_app in Hn as (_ & Hn & _). intros Hx. apply (Hn _ Hx). left.
Qed.
Lemma add_edge_wired ss seed ps p c :
  match add_edge p c EdgeMeta_data (wired ss seed ps) with
  | Ok wf => wf = wired ss seed (ps ++ [(p, c)]) /\ (p < length ss)%nat /\ (c < length ss)%nat /\ (p, c) ∉ ps
  | Err _ => ~ ((p < length ss)%nat /\ (c < length ss)%nat /\ (p, c) ∉ ps)
  | Panic => False
  end.
Proof.
  unfold add_edge. cbn [wired WorkflowDef.steps WorkflowDef.edges WorkflowDef.seed].
  destruct (length ss <=? p)%nat eqn:Hp; [apply Nat.leb_le in Hp; lia|]. destruct (length ss <=? c)%nat eqn:Hc; [apply Nat.leb_le in Hc; lia|].
  apply Nat.leb_gt in Hp, Hc. destruct (existsb _ _) eqn:He.
  - apply existsb_exists in He as (e & He & Hx). apply list_elem_of_In, list_elem_of_fmap in He as ([p' c'] & -> & Hin). cbn in Hx.
    apply andb_true_iff in Hx as [->%Nat.eqb_eq ->%Nat.eqb_eq]. tauto.
  - split_and!; [unfold wired; by rewrite fmap_app|done|done|]. intros Hin. apply not_true_iff_false in He. apply He, existsb_exists.
    exists (link (p, c)). split; [by apply list_elem_of_In, list_elem_of_fmap_2|]. cbn. by rewrite !Nat.eqb_refl.
Qed.

(** ** Tables of the first [n] indices *)
Abbreviation table n f := (f <$> seq 0 n).
Lemma table_lookup {A} (f : nat -> A) n i : (i < n)%nat -> table n f !! i = Some (f i).
Proof. intros Hi. rewrite list_lookup_fmap, lookup_seq_lt by done. done. Qed.
Lemma table_update {A} (f g : nat -> A) n i v : (i < n)%nat -> v = g i -> (forall j, j <> i -> g j = f j) ->
  <[i := v]> (table n f) = table n g.
Proof.
  intros Hi -> Hg. apply list_eq. intros j. destruct (decide (j < n)%nat) as [Hj|Hj].
  - destruct (decide (i = j)) as [<-|Hne].
    + rewrite list_lookup_insert_eq by (by rewrite length_fmap, length_seq). by rewrite table_lookup.
    + rewrite list_lookup_insert_ne, !table_lookup by done. by rewrite Hg.
  - rewrite !lookup_ge_None_2; rewrite ?length_insert, ?length_fmap, ?length_seq; [done|lia..].
Qed.
Lemma update_at_table {A E} (f g : nat -> A) n i k : (i < n)%nat -> k (f i) = g i -> (forall j, j <> i -> g j = f j) ->
  update_at (table n f) i k = (Ok (table n g) : outcome _ E).
Proof. intros Hi Hk Hg. unfold update_at. rewrite table_lookup by done. f_equal. by apply table_update. Qed.
Lemma at_index_table {A E} (f : nat -> A) n i : (i < n)%nat -> at_index (table n f) i = (Ok (f i) : outcome _ E).
Proof. intros Hi. unfold at_index. by rewrite table_lookup. Qed.

(** ** The adjacency *)
Definition into (c : nat) (e : StepEdge) : bool := (e.(child) =? c)%nat.
Definition from (p : nat) (e : StepEdge) : bool := (e.(parent) =? p)%nat.
Definition adjacent (n : nat) (es : list StepEdge) : Adjacency := {|
  indegree := table n (fun c => length (List.filter (into c) es));
  children := table n (fun p => child <$> List.filter (from p) es);
  parents_of := table n (fun c => (fun e => (e.(parent), e.(StepEdge.edge))) <$> List.filter (into c) es) |}.
Lemma table_const {A} (x : A) n : replicate n x = table n (fun _ => x).
Proof. generalize 0%nat. induction n as [|n IH]; intros k; [done|]. cbn. by rewrite <- IH. Qed.
Lemma no_edges_adjacent n : no_edges n = adjacent n [].
Proof. unfold no_edges, adjacent. by rewrite !(table_const _ n). Qed.
Lemma filter_snoc_b {A} (p : A -> bool) l x : List.filter p (l ++ [x]) = List.filter p l ++ (if p x then [x] else []).
Proof. rewrite List.filter_app. cbn. by destruct (p x). Qed.
Lemma add_adjacent_spec n es e : (e.(parent) < n)%nat -> (e.(child) < n)%nat ->
  add_adjacent e (adjacent n es) = Ok (adjacent n (es ++ [e])).
Proof.
  intros Hp Hc. unfold add_adjacent. cbn [adjacent children parents_of indegree].
  assert (Hi : forall c, into c e = true <-> c = e.(child)) by (intros c; unfold into; rewrite Nat.eqb_eq; split; congruence).
  assert (Hf : forall p, from p e = true <-> p = e.(parent)) by (intros p; unfold from; rewrite Nat.eqb_eq; split; congruence).
  assert (Hi0 : forall c, c <> e.(child) -> into c e = false) by (intros c Hne; apply not_true_is_false; by rewrite Hi).
  assert (Hf0 : forall p, p <> e.(parent) -> from p e = false) by (intros p Hne; apply not_true_is_false; by rewrite Hf).
  rewrite (update_at_table _ (fun p => child <$> List.filter (from p) (es ++ [e]))); [|done| |].
  2: { by rewrite filter_snoc_b, (proj2 (Hf _)), fmap_app. }
  2: { intros j Hj. by rewrite filter_snoc_b, Hf0, app_nil_r. }
  cbn [obind]. rewrite (update_at_table _ (fun c => (fun e => (e.(parent), e.(StepEdge.edge))) <$> List.filter (into c) (es ++ [e]))); [|done| |].
  2: { by rewrite filter_snoc_b, (proj2 (Hi _)), fmap_app. }
  2: { intros j Hj. by rewrite filter_snoc_b, Hi0, app_nil_r. }
  cbn [obind]. rewrite (update_at_table _ (fun c => length (List.filter (into c) (es ++ [e])))); [done|done| |].
  - rewrite filter_snoc_b, (proj2 (Hi _)), length_app by done. cbn. lia.
  - intros j Hj. by rewrite filter_snoc_b, Hi0, app_nil_r.
Qed.
Lemma adjacency_of_spec n es : forall es0 seen, edges_ok n es0 -> (forall x, x ∈ seen <-> x ∈ pair_of <$> es0) ->
  match adjacency_of n es seen (adjacent n es0) with
  | Ok adj => edges_ok n (es0 ++ es) /\ adj = adjacent n (es0 ++ es)
  | Err _ => ~ edges_ok n (es0 ++ es)
  | Panic => False
  end.
Proof.
  induction es as [|e es IH]; intros es0 seen Hok Hseen; [by rewrite app_nil_r|]. cbn [adjacency_of].
  assert (Hin : edges_ok n (es0 ++ e :: es) -> ((e.(parent) < n)%nat /\ (e.(child) < n)%nat) /\ pair_of e ∉ pair_of <$> es0).
  { intros [Hr Hn]. apply Forall_app in Hr as [_ Hr]. inversion Hr; subst. split; [done|].
    rewrite fmap_app, fmap_cons in Hn. apply NoDup_app in Hn as (_ & Hn & _). intros Hx. apply (Hn _ Hx). left. }
  destruct (n <=? e.(parent))%nat eqn:Hp; [apply Nat.leb_le in Hp; intros H; apply Hin in H; lia|].
  destruct (n <=? e.(child))%nat eqn:Hc; [apply Nat.leb_le in Hc; intros H; apply Hin in H; lia|].
  apply Nat.leb_gt in Hp, Hc. case_bool_decide as Hs; [intros H; apply Hin in H as [_ H]; by apply H, Hseen|].
  rewrite add_adjacent_spec by done. cbn [obind].
  specialize (IH (es0 ++ [e]) ({[(e.(parent), e.(child))]} ∪ seen)). rewrite <- app_assoc in IH. apply IH.
  - destruct Hok as [Hr Hn]. split; [apply Forall_app; by repeat constructor|]. rewrite fmap_app. apply NoDup_app.
    split_and!; [done| |apply NoDup_singleton]. intros x Hx ->%list_elem_of_singleton. by apply Hs, Hseen.
  - intros x. rewrite elem_of_union, elem_of_singleton, Hseen, fmap_app, elem_of_app. cbn [fmap list_fmap]. rewrite list_elem_of_singleton. tauto.
Qed.

(** ** The topological order *)
Lemma pop_min_perm l x r : pop_min l = Some (x, r) -> l ≡ₚ x :: r.
Proof.
  revert x r. induction l as [|y l IH]; intros x r; [done|]. cbn [pop_min]. destruct (pop_min l) as [[z r']|] eqn:E.
  - destruct (_ <=? _)%nat; intros [= <- <-]; [done|]. rewrite (IH z r') by done. apply Permutation_swap.
  - intros [= <- <-]. destruct l; [done|]. cbn in E. destruct (pop_min l) as [[]|]; [by destruct (_ <=? _)%nat|done].
Qed.
Lemma pop_min_none l : pop_min l = None -> l = [].
Proof. destruct l as [|x l]; [done|]. cbn. destruct (pop_min l) as [[]|]; [by destruct (_ <=? _)%nat|done]. Qed.
(** Releasing distinct nodes lowers each by one and adds those that reach zero. *)
Lemma release_spec n cs : forall f fr, NoDup cs -> Forall (fun c => (c < n)%nat /\ (1 <= f c)%nat) cs ->
  release cs (table n f) fr
  = Ok (table n (fun c => if bool_decide (c ∈ cs) then pred (f c) else f c), fr ++ List.filter (fun c => (f c =? 1)%nat) cs).
Proof.
  induction cs as [|c cs IH]; intros f fr Hn Hf; cbn [release].
  - by rewrite app_nil_r.
  - apply NoDup_cons in Hn as [Hc Hn]. apply Forall_cons in Hf as [[Hcn Hc1] Hf]. rewrite at_index_table by done. cbn [obind].
    destruct (f c) as [|d] eqn:Hd; [lia|].
    rewrite (table_update f (fun j => if bool_decide (j = c) then d else f j)); [|done|by rewrite bool_decide_true|].
    2: { intros j Hj. by rewrite bool_decide_false. }
    assert (Hne : forall x, x ∈ cs -> bool_decide (x = c) = false) by (intros x Hx; apply bool_decide_false; by intros ->).
    rewrite IH; [|done|].
    2: { rewrite Forall_forall in Hf |- *. intros x Hx. rewrite Hne by done. by apply Hf. }
    f_equal. f_equal.
    + apply list_fmap_ext. intros i x _. destruct (decide (x = c)) as [->|Hx].
      * rewrite (bool_decide_false (c ∈ cs)), bool_decide_true, (bool_decide_true (c ∈ _)) by (done || left). by rewrite Hd.
      * rewrite (bool_decide_false (x = c)) by done. by rewrite (bool_decide_ext (x ∈ c :: cs) (x ∈ cs)) by set_solver.
    + cbn [List.filter]. rewrite Hd. change (Datatypes.S d =? 1)%nat with (d =? 0)%nat.
      assert (List.filter (fun x => ((if bool_decide (x = c) then d else f x) =? 1)%nat) cs = List.filter (fun x => (f x =? 1)%nat) cs) as ->.
      { apply filter_ext_in. intros x Hx%list_elem_of_In. by rewrite Hne. }
      destruct (d =? 0)%nat; [by rewrite <- app_assoc|done].
Qed.

Section Order.
Context (n : nat) (es : list StepEdge) (Hes : edges_ok n es).
(** The dependencies of [c] that are not yet in the order. *)
Definition waits (order : list nat) (c : nat) (e : StepEdge) : bool := into c e && negb (bool_decide (e.(parent) ∈ order)).
Definition waiting (order : list nat) (c : nat) : nat := length (List.filter (waits order c) es).
Record kahn (order ind frontier : list nat) : Prop := {
  k_ind : ind = table n (waiting order);
  k_nodup : NoDup (order ++ frontier);
  k_ready : forall c, c ∈ order ++ frontier <-> (c < n)%nat /\ waiting order c = O;
  k_topo : forall k c e, order !! k = Some c -> e ∈ es -> e.(child) = c -> e.(parent) ∈ take k order
}.
Lemma count_one {A B} `{!EqDecision B} (f : A -> B) (v : B) l : NoDup (f <$> l) ->
  length (List.filter (fun x => bool_decide (f x = v)) l) = if bool_decide (v ∈ f <$> l) then 1%nat else 0%nat.
Proof.
  induction l as [|x l IH]; cbn [fmap list_fmap List.filter]; intros Hn; [done|]. apply NoDup_cons in Hn as [Hx Hn].
  specialize (IH Hn). destruct (decide (f x = v)) as [<-|Hv]; [rewrite bool_decide_true by done|rewrite bool_decide_false by done].
  - rewrite (bool_decide_true (f x ∈ f x :: _)) by left. rewrite bool_decide_false in IH by done. cbn. by rewrite IH.
  - rewrite IH. by rewrite (bool_decide_ext (v ∈ f x :: (f <$> l)) (v ∈ f <$> l)) by set_solver.
Qed.
Lemma count_split {A} (p q : A -> bool) l :
  length (List.filter p l) = (length (List.filter (fun x => p x && q x) l) + length (List.filter (fun x => p x && negb (q x)) l))%nat.
Proof. induction l as [|x l IH]; [done|]. cbn. destruct (p x), (q x); cbn; lia. Qed.
Lemma waiting_after order x c : x ∉ order ->
  waiting order c = (waiting (order ++ [x]) c + (if bool_decide (depends es x c) then 1 else 0))%nat.
Proof.
  intros Hx. unfold waiting. rewrite (count_split _ (fun e => negb (bool_decide (e.(parent) = x)))). f_equal.
  - f_equal. apply filter_ext. intros e. unfold waits. rewrite <- andb_assoc. f_equal.
    rewrite <- negb_orb. f_equal. apply eq_bool_prop_intro. rewrite orb_True, !bool_decide_spec. set_solver.
  - pose proof (count_one pair_of (x, c) es (proj2 Hes)) as H1.
    trans (length (List.filter (fun e => bool_decide (pair_of e = (x, c))) es)); [|rewrite H1; by repeat case_bool_decide].
    f_equal. apply filter_ext. intros e. unfold waits, into, pair_of.
    rewrite negb_involutive. apply eq_bool_prop_intro. rewrite !andb_True, !bool_decide_spec, negb_True, bool_decide_spec.
    rewrite Is_true_true, Nat.eqb_eq. split; [intros [[-> _] ->]; done|intros [= -> ->]; done].
Qed.
Lemma waiting_dep order x c : x ∉ order -> depends es x c -> (1 <= waiting order c)%nat.
Proof. intros Hx Hd. rewrite (waiting_after order x c Hx), bool_decide_true by done. lia. Qed.
Lemma waiting_zero order c : waiting order c = O -> forall e, e ∈ es -> e.(child) = c -> e.(parent) ∈ order.
Proof.
  intros H0 e He Hc. apply nil_length_inv in H0. destruct (decide (e.(parent) ∈ order)) as [|Hn]; [done|]. exfalso.
  assert (Hf : e ∈ List.filter (waits order c) es).
  { apply list_elem_of_In, filter_In. split; [by apply list_elem_of_In|]. unfold waits, into. rewrite Hc, Nat.eqb_refl. by rewrite bool_decide_false. }
  rewrite H0 in Hf. by apply not_elem_of_nil in Hf.
Qed.
Lemma kahn_below order ind frontier : kahn order ind frontier -> (length order + length frontier <= n)%nat.
Proof.
  intros [_ Hn Hr _]. rewrite <- length_app, <- (length_seq n 0). apply submseteq_length, NoDup_submseteq; [done|].
  intros c Hc. apply Hr in Hc as [Hc _]. apply elem_of_seq. lia.
Qed.
Lemma children_at x : (x < n)%nat -> children (adjacent n es) !! x = Some (child <$> List.filter (from x) es).
Proof. intros Hx. cbn [adjacent children]. by rewrite table_lookup. Qed.
Lemma elem_of_released x c : c ∈ child <$> List.filter (from x) es <-> depends es x c.
Proof.
  unfold depends, pair_of. rewrite !list_elem_of_fmap. split; intros (e & Hc & He).
  - apply list_elem_of_In, filter_In in He as [He Hf]. apply Nat.eqb_eq in Hf. exists e. split; [by subst|by apply list_elem_of_In].
  - injection Hc as -> ->. exists e. split; [done|]. apply list_elem_of_In, filter_In. split; [by apply list_elem_of_In|]. apply Nat.eqb_refl.
Qed.
Lemma NoDup_released x : NoDup (child <$> List.filter (from x) es).
Proof.
  destruct Hes as [_ Hn]. clear Hes. induction es as [|e l IH]; [constructor|]. cbn [List.filter].
  rewrite fmap_cons in Hn. apply NoDup_cons in Hn as [Hx Hn]. destruct (from x e) eqn:Hf; [|by apply IH].
  cbn [fmap list_fmap]. apply NoDup_cons. split; [|by apply IH]. intros (e' & Hc & He)%list_elem_of_fmap. apply Hx.
  apply list_elem_of_In, filter_In in He as [He Hf']. apply Nat.eqb_eq in Hf, Hf'. apply list_elem_of_fmap. exists e'.
  split; [unfold pair_of; congruence|by apply list_elem_of_In].
Qed.
Lemma depends_below x c : depends es x c -> (x < n)%nat /\ (c < n)%nat.
Proof.
  unfold depends. rewrite list_elem_of_fmap. intros (e & [= -> ->] & He). destruct Hes as [Hr _]. rewrite Forall_forall in Hr. by apply Hr.
Qed.
Lemma kahn_step order ind frontier x fr : kahn order ind frontier -> pop_min frontier = Some (x, fr) ->
  exists cs ind' fr', children (adjacent n es) !! x = Some cs /\ release (merge_sort Nat.le cs) ind fr = Ok (ind', fr')
    /\ kahn (order ++ [x]) ind' fr'.
Proof.
  intros [-> Hn Hr Ht] Hp%pop_min_perm. assert (Hx : x ∈ order ++ frontier) by (rewrite Hp; set_solver).
  assert (Hxo : x ∉ order) by (apply NoDup_app in Hn as (_ & Hn & _); intros Ho; apply (Hn x Ho); rewrite Hp; left).
  apply Hr in Hx as [Hxn Hx0]. rewrite (children_at x Hxn). eexists _, _, _. split; [done|].
  set (cs := merge_sort Nat.le _). assert (Hcs : forall c, c ∈ cs <-> depends es x c).
  { intros c. unfold cs. by rewrite merge_sort_Permutation, elem_of_released. }
  assert (Hcn : NoDup cs) by (unfold cs; rewrite merge_sort_Permutation; apply NoDup_released).
  rewrite (release_spec n); [split; [done|]|done|].
  2: { apply Forall_forall. intros c Hc%Hcs. split; [by apply (depends_below x)|by eapply waiting_dep]. }
  pose proof (waiting_after order x) as Hw. assert (Hperm : order ++ frontier ≡ₚ (order ++ [x]) ++ fr) by (by rewrite Hp, <- app_assoc).
  assert (Hnew : forall c, c ∈ List.filter (fun c => (waiting order c =? 1)%nat) cs <-> depends es x c /\ waiting order c = 1%nat).
  { intros c. by rewrite list_elem_of_In, filter_In, <- list_elem_of_In, Nat.eqb_eq, Hcs. }
  split.
  - apply list_fmap_ext. intros i c _. rewrite (Hw c Hxo). case_bool_decide as H1; case_bool_decide as H2; try lia; exfalso; [by apply H2, Hcs|by apply H1, Hcs].
  - rewrite app_assoc, <- Hperm. apply NoDup_app. split_and!; [done| |by apply NoDup_ListNoDup, List.NoDup_filter, NoDup_ListNoDup].
    intros c [_ H0]%Hr [_ H1]%Hnew. lia.
  - intros c. fold cs. rewrite app_assoc, <- Hperm, elem_of_app, Hr, Hnew. specialize (Hw c Hxo). pose proof (depends_below x c) as Hb.
    case_bool_decide as Hd; [|rewrite Hw, Nat.add_0_r; tauto]. split; [intros [[? ?]|[? ?]]; [lia|split; [by apply Hb|lia]]|intros [? ?]; right; split; [done|lia]].
  - intros k c e Hk He Hc. apply lookup_snoc_Some in Hk as [[Hk Hk']|[-> <-]].
    + rewrite take_app_le by lia. by eapply Ht.
    + rewrite take_app_length. by eapply waiting_zero.
Qed.
(** Every node is taken at most once, so [S n] steps empty the frontier. *)
Lemma topo_loop_spec fuel : forall order ind frontier, kahn order ind frontier -> (n < fuel + length order)%nat ->
  exists order' ind', topo_loop fuel (adjacent n es) order ind frontier = Ok (order', ind', []) /\ kahn order' ind' [].
Proof.
  induction fuel as [|fuel IH]; intros order ind frontier Hk Hf; [pose proof (kahn_below _ _ _ Hk); lia|]. cbn [topo_loop].
  destruct (pop_min frontier) as [[x fr]|] eqn:Hp; [|apply pop_min_none in Hp as ->; by exists order, ind].
  destruct (kahn_step _ _ _ _ _ Hk Hp) as (cs & ind' & fr' & Hcs & Hr & Hk'). unfold at_index. rewrite Hcs. cbn [obind]. rewrite Hr. cbn [obind].
  apply IH; [done|]. rewrite length_app. cbn. lia.
Qed.
Lemma kahn_start : kahn [] (indegree (adjacent n es))
  (List.filter (fun i => match indegree (adjacent n es) !! i with Some O => true | _ => false end) (seq 0 n)).
Proof.
  assert (Hw : forall c, waiting [] c = length (List.filter (into c) es)).
  { intros c. unfold waiting. f_equal. apply filter_ext. intros e. unfold waits. by rewrite bool_decide_false, andb_true_r by apply not_elem_of_nil. }
  split; [|cbn [app]..|done].
  - apply list_fmap_ext. intros i c _. by rewrite Hw.
  - apply NoDup_ListNoDup, List.NoDup_filter, NoDup_ListNoDup, NoDup_seq.
  - intros c. rewrite list_elem_of_In, filter_In, <- list_elem_of_In, elem_of_seq. split.
    + intros [Hc H0]. split; [lia|]. cbn [adjacent indegree] in H0. rewrite table_lookup, <- Hw in H0 by lia. by destruct (waiting [] c).
    + intros [Hc H0]. split; [lia|]. cbn [adjacent indegree]. rewrite table_lookup, <- Hw, H0 by lia. done.
Qed.
(** The edges of a complete order go forward, so there is no cycle. *)
Lemma forward_tc order : order ≡ₚ seq 0 n ->
  (forall k c e, order !! k = Some c -> e ∈ es -> e.(child) = c -> e.(parent) ∈ take k order) ->
  forall p c, tc (depends es) p c -> forall i j, order !! i = Some p -> order !! j = Some c -> (i < j)%nat.
Proof.
  intros Hperm Ht. assert (Hn : NoDup order) by (rewrite Hperm; apply NoDup_seq).
  assert (Hone : forall p c, depends es p c -> forall i j, order !! i = Some p -> order !! j = Some c -> (i < j)%nat).
  { intros p c (e & [= -> ->] & He)%list_elem_of_fmap i j Hi Hj. specialize (Ht j _ e Hj He eq_refl).
    apply list_elem_of_lookup in Ht as [k Hk]. apply lookup_take_Some in Hk as [Hk Hkj]. by rewrite (NoDup_lookup _ _ _ _ Hn Hi Hk). }
  intros p c Htc. induction Htc as [p c Hd|p q c Hd Htc IH]; intros i j Hi Hj; [by eapply Hone|].
  assert (Hq : q ∈ order) by (rewrite Hperm; apply elem_of_seq; pose proof (depends_below _ _ Hd); lia).
  apply list_elem_of_lookup in Hq as [k Hk]. specialize (Hone _ _ Hd _ _ Hi Hk). specialize (IH _ _ Hk Hj). lia.
Qed.
Lemma forward_acyclic order : order ≡ₚ seq 0 n ->
  (forall k c e, order !! k = Some c -> e ∈ es -> e.(child) = c -> e.(parent) ∈ take k order) -> acyclic es.
Proof.
  intros Hperm Ht i Hi. assert (Hin : (i < n)%nat) by (inversion Hi as [? ? Hd|? ? ? Hd]; apply (depends_below _ _ Hd)).
  assert (Ho : i ∈ order) by (rewrite Hperm; apply elem_of_seq; lia). apply list_elem_of_lookup in Ho as [k Hk].
  pose proof (forward_tc order Hperm Ht _ _ Hi _ _ Hk Hk). lia.
Qed.
(** Conversely, a node left over has a dependency left over, and so on. *)
Lemma acyclic_complete order ind : acyclic es -> kahn order ind [] -> forall c, (c < n)%nat -> c ∈ order.
Proof.
  intros Hac [_ _ Hr _] c. assert (Hsn : sn (flip (depends es)) c).
  { apply tc_finite_sn.
    - assert (Hflip : forall a b, tc (flip (depends es)) a b -> tc (depends es) b a).
      { induction 1 as [a b Hd|a b d Hd _ IHd]; [by apply tc_once|]. eapply tc_r; [exact IHd|exact Hd]. }
      intros x Hx. by apply (Hac x), Hflip.
    - exists (seq 0 n). intros y Hy. apply elem_of_seq. assert (y < n)%nat; [|lia]. induction Hy as [x y H|]; [apply (depends_below _ _ H)|done]. }
  induction Hsn as [c _ IH]. intros Hc. destruct (decide (c ∈ order)) as [|Hno]; [done|]. exfalso.
  assert (Hw : waiting order c <> O) by (intros H0; apply Hno; rewrite <- (app_nil_r order); by apply Hr).
  unfold waiting in Hw. destruct (List.filter (waits order c) es) as [|e l] eqn:Hf; [done|].
  assert (He : In e (List.filter (waits order c) es)) by (rewrite Hf; by left). apply filter_In in He as [He Hwe].
  unfold waits in Hwe. apply andb_true_iff in Hwe as [Hi Hno'%negb_true_iff%bool_decide_eq_false]. apply Nat.eqb_eq in Hi. apply Hno'.
  assert (Hd : depends es e.(parent) c) by (apply list_elem_of_fmap; exists e; split; [unfold pair_of; congruence|by apply list_elem_of_In]).
  apply IH; [exact Hd|apply (depends_below _ _ Hd)].
Qed.
(** The order exists exactly for a DAG, and then holds each step after its parents. *)
Lemma topo_order_spec :
  match topo_order n (adjacent n es) with
  | Ok order => acyclic es /\ order ≡ₚ seq 0 n
      /\ forall k c e, order !! k = Some c -> e ∈ es -> e.(child) = c -> e.(parent) ∈ take k order
  | Err _ => ~ acyclic es
  | Panic => False
  end.
Proof.
  unfold topo_order. destruct (topo_loop_spec (Datatypes.S n) _ _ _ kahn_start) as (order & ind & -> & Hk); [cbn; lia|]. cbn [obind].
  assert (Hsub : order ⊆+ seq 0 n).
  { apply NoDup_submseteq; [destruct Hk as [_ Hn _ _]; by rewrite app_nil_r in Hn|]. intros c Hc. apply elem_of_seq.
    destruct Hk as [_ _ Hr _]. specialize (Hr c). rewrite app_nil_r in Hr. apply Hr in Hc. lia. }
  destruct (length order =? n)%nat eqn:Hl.
  - apply Nat.eqb_eq in Hl. assert (Hperm : order ≡ₚ seq 0 n) by (apply submseteq_length_Permutation; [done|rewrite length_seq; lia]).
    split_and!; [|done|apply Hk]. by apply (forward_acyclic order); [|apply Hk].
  - apply Nat.eqb_neq in Hl. intros Hac. apply Hl. apply Nat.le_antisymm.
    + apply submseteq_length in Hsub. by rewrite length_seq in Hsub.
    + trans (length (seq 0 n)); [by rewrite length_seq|]. apply submseteq_length, NoDup_submseteq; [apply NoDup_seq|].
      intros c Hc%elem_of_seq. eapply acyclic_complete; [done|done|lia].
Qed.
End Order.

(** ** The Motes *)
Section Compiled.
Context `{Blake3} `{!Bincode MoteDef}.
Import CompiledMote (mote, step_index).
Definition id_of (ms : list CompiledMote) (i : nat) : option MoteId :=
  (fun m => m.(mote).(mote_id)) <$> List.find (fun m => (m.(step_index) =? i)%nat) ms.
(** The Mote of rank [k]: the authored step with its warrant and capability, its
    parents the Motes of its declared dependencies and its critic target the Mote
    of its producer, all of smaller rank. *)
Definition compiled_at (def : WorkflowDef) (ms : list CompiledMote) (k : nat) (m : CompiledMote) : Prop :=
  exists s critic_for links, def.(WorkflowDef.steps) !! m.(step_index) = Some s
    /\ m.(CompiledMote.warrant) = s.(StepDef.warrant) /\ m.(CompiledMote.capability) = s.(StepDef.capability)
    /\ match producer_of s with None => critic_for = None | Some p => critic_for = id_of (take k ms) p /\ critic_for <> None end
    /\ Forall2 (fun e l => id_of (take k ms) e.(parent) = Some l.(parent_id) /\ l.(edge) = e.(StepEdge.edge))
         (List.filter (into m.(step_index)) def.(WorkflowDef.edges)) links
    /\ m.(mote) = step_mote def s critic_for (merge_sort parent_le links) (Z.of_nat k).
Lemma id_of_snoc ms m i : id_of (ms ++ [m]) i
  = match id_of ms i with Some id => Some id | None => if (m.(step_index) =? i)%nat then Some m.(mote).(mote_id) else None end.
Proof.
  unfold id_of. induction ms as [|x ms IH]; cbn [app List.find]; [by destruct (_ =? _)%nat|].
  destruct (x.(step_index) =? i)%nat; [done|exact IH].
Qed.
Lemma id_of_some ms i : (exists id, id_of ms i = Some id) <-> i ∈ step_index <$> ms.
Proof.
  unfold id_of. induction ms as [|m ms IH]; cbn [fmap list_fmap List.find]; [split; [intros [? Hx]; discriminate Hx|intros Hx; by apply not_elem_of_nil in Hx]|].
  destruct (m.(step_index) =? i)%nat eqn:Hm.
  - apply Nat.eqb_eq in Hm. subst i. split; [left|intros _; by eexists].
  - apply Nat.eqb_neq in Hm. rewrite IH, elem_of_cons. naive_solver.
Qed.
Lemma id_of_none ms i : i ∉ step_index <$> ms -> id_of ms i = None.
Proof. intros Hi. destruct (id_of ms i) as [id|] eqn:E; [|done]. destruct Hi. apply id_of_some. by exists id. Qed.
Lemma link_parents_spec i es : forall n ms, Forall (fun e => (e.(parent) < n)%nat /\ e.(parent) ∈ step_index <$> ms) es ->
  exists links, link_parents i ((fun e => (e.(parent), e.(StepEdge.edge))) <$> es) (table n (id_of ms)) = Ok links
    /\ Forall2 (fun e l => id_of ms e.(parent) = Some l.(parent_id) /\ l.(edge) = e.(StepEdge.edge)) es links.
Proof.
  intros n ms. induction es as [|e es IH]; intros Hf; [by exists []|]. apply Forall_cons in Hf as [[Hn He] Hf].
  destruct (IH Hf) as (links & E & Hl). apply id_of_some in He as [id Hid]. cbn [fmap list_fmap link_parents].
  rewrite at_index_table by done. cbn [obind]. rewrite Hid, E. cbn [obind]. eexists. split; [done|]. by constructor.
Qed.
Lemma compile_step_spec def n order k i ms : edges_ok n def.(WorkflowDef.edges) -> length def.(WorkflowDef.steps) = n ->
  order ≡ₚ seq 0 n -> order !! k = Some i -> step_index <$> ms = take k order ->
  (forall e, e ∈ def.(WorkflowDef.edges) -> e.(child) = i -> e.(parent) ∈ take k order) ->
  (forall s p, s ∈ def.(WorkflowDef.steps) -> producer_of s = Some p -> (p < n)%nat) ->
  match compile_step def (adjacent n def.(WorkflowDef.edges)) i (table n (id_of ms)) ms with
  | Ok (ids, m) => ids = table n (id_of (ms ++ [m])) /\ m.(step_index) = i /\ compiled_at def (ms ++ [m]) k m
  | Err e => exists s p, def.(WorkflowDef.steps) !! i = Some s /\ producer_of s = Some p /\ p ∉ take k order /\ e = CompileError.InvalidCritic i p
  | Panic => False
  end.
Proof.
  intros Hes Hn Hperm Hi Hms Hdep Hprod. assert (Hin : (i < n)%nat).
  { assert (H1 : i ∈ order) by (by eapply list_elem_of_lookup_2). rewrite Hperm, elem_of_seq in H1. lia. }
  destruct (lookup_lt_is_Some_2 def.(WorkflowDef.steps) i) as [s Hs]; [by rewrite Hn|].
  assert (Hk : length ms = k). { rewrite <- (length_fmap step_index), Hms, length_take. apply lookup_lt_Some in Hi. lia. }
  assert (Hsi : at_index def.(WorkflowDef.steps) i = (Ok s : outcome _ CompileError)) by (unfold at_index; by rewrite Hs).
  destruct (link_parents_spec i (List.filter (into i) def.(WorkflowDef.edges)) n ms) as (links & Hl & Hf).
  { apply Forall_forall. intros e He. apply list_elem_of_In, filter_In in He as [He%list_elem_of_In Hc%Nat.eqb_eq].
    destruct Hes as [Hr _]. rewrite Forall_forall in Hr. split; [by apply Hr|]. rewrite Hms. by apply Hdep. }
  assert (Hpar : resolve_parents i (adjacent n def.(WorkflowDef.edges)) (table n (id_of ms)) = Ok (merge_sort parent_le links)).
  { unfold resolve_parents. cbn [adjacent parents_of]. rewrite at_index_table by done. cbn [obind]. rewrite Hl. done. }
  assert (Hnew : id_of ms i = None).
  { apply id_of_none. rewrite Hms. intros Hx. assert (Hnd : NoDup order) by (rewrite Hperm; apply NoDup_seq).
    apply list_elem_of_lookup in Hx as [j Hj]. apply lookup_take_Some in Hj as [Hj Hjk]. pose proof (NoDup_lookup _ _ _ _ Hnd Hi Hj). lia. }
  assert (Hend : forall cf, resolve_critic s i (table n (id_of ms)) = Ok cf ->
    match producer_of s with None => cf = None | Some p => cf = id_of ms p /\ cf <> None end ->
    exists m, compile_step def (adjacent n def.(WorkflowDef.edges)) i (table n (id_of ms)) ms = Ok (table n (id_of (ms ++ [m])), m)
      /\ m.(step_index) = i /\ compiled_at def (ms ++ [m]) k m).
  { intros cf Hr Hcf. unfold compile_step. rewrite Hsi. cbn [obind]. rewrite Hr. cbn [obind]. rewrite Hpar. cbn [obind]. set (m := step_mote _ _ _ _ _).
    rewrite (update_at_table _ (fun j => if (i =? j)%nat then Some m.(mote_id) else id_of ms j)); [|done|by rewrite Nat.eqb_refl|].
    2: { intros j Hj. by rewrite (proj2 (Nat.eqb_neq i j)). }
    cbn [obind]. match goal with |- exists _, Ok (_, ?cm) = _ /\ _ => exists cm end. split_and!; [|done|].
    - f_equal. f_equal. apply list_fmap_ext. intros x j _. rewrite id_of_snoc. cbn [step_index mote].
      destruct (i =? j)%nat eqn:Hij; [|by destruct (id_of ms j)]. apply Nat.eqb_eq in Hij. subst j. by rewrite Hnew.
    - exists s, cf, links. cbn [step_index CompiledMote.warrant CompiledMote.capability mote]. rewrite <- Hk, take_app_length.
      by split_and!. }
  destruct (producer_of s) as [p|] eqn:Hp.
  - assert (Hpn : (p < n)%nat) by (eapply Hprod; [by eapply list_elem_of_lookup_2|done]).
    destruct (id_of ms p) as [id|] eqn:Hid.
    + destruct (Hend (Some id)) as (m & E & HE); [|done|by rewrite E].
      unfold resolve_critic. rewrite Hp, at_index_table by done. cbn [obind]. by rewrite Hid.
    + unfold compile_step. rewrite Hsi. cbn [obind]. unfold resolve_critic. rewrite Hp, at_index_table by done. cbn [obind]. rewrite Hid. cbn [obind].
      exists s, p. split_and!; [done|done| |done]. rewrite <- Hms. intros Hx. apply id_of_some in Hx as [? Hx]. congruence.
  - destruct (Hend None) as (m & E & HE); [unfold resolve_critic; by rewrite Hp|done|by rewrite E].
Qed.
Lemma compiled_at_prefix def ms ms' k m : (k <= length ms)%nat -> compiled_at def ms k m -> compiled_at def (ms ++ ms') k m.
Proof. intros Hk. unfold compiled_at. by rewrite take_app_le. Qed.
Lemma compile_loop_spec def n order : edges_ok n def.(WorkflowDef.edges) -> length def.(WorkflowDef.steps) = n -> order ≡ₚ seq 0 n ->
  (forall k c e, order !! k = Some c -> e ∈ def.(WorkflowDef.edges) -> e.(child) = c -> e.(parent) ∈ take k order) ->
  (forall s p, s ∈ def.(WorkflowDef.steps) -> producer_of s = Some p -> (p < n)%nat) ->
  forall rest ms, order = (step_index <$> ms) ++ rest -> (forall k m, ms !! k = Some m -> compiled_at def ms k m) ->
  match compile_loop def (adjacent n def.(WorkflowDef.edges)) rest (table n (id_of ms)) ms with
  | Ok ms' => step_index <$> ms' = order /\ forall k m, ms' !! k = Some m -> compiled_at def ms' k m
  | Err e => exists k i s p, order !! k = Some i /\ def.(WorkflowDef.steps) !! i = Some s /\ producer_of s = Some p /\ p ∉ take k order
               /\ e = CompileError.InvalidCritic i p
  | Panic => False
  end.
Proof.
  intros Hes Hn Hperm Ht Hprod rest. induction rest as [|i rest IH]; intros ms Ho Hms; cbn [compile_loop].
  - rewrite app_nil_r in Ho. done.
  - set (k := length ms). assert (Hi : order !! k = Some i).
    { rewrite Ho, lookup_app_r by (rewrite length_fmap; done). by rewrite length_fmap, Nat.sub_diag. }
    assert (Htk : step_index <$> ms = take k order) by (rewrite Ho; symmetry; apply take_app_length'; by rewrite length_fmap).
    pose proof (compile_step_spec def n order k i ms Hes Hn Hperm Hi Htk (fun e => Ht k i e Hi) Hprod) as Hstep.
    destruct (compile_step _ _ _ _ _) as [[ids m]|e|]; [|destruct Hstep as (s & p & ? & ? & ? & ?); by exists k, i, s, p|done].
    destruct Hstep as (-> & Hm & Hat). cbn [obind fst snd]. apply IH.
    + rewrite Ho, fmap_app. cbn [fmap list_fmap]. by rewrite Hm, <- app_assoc.
    + intros j m' [[Hj Hl]|[Hj <-]]%lookup_snoc_Some; [apply compiled_at_prefix; [unfold k; lia|by apply Hms]|rewrite Hj; exact Hat].
Qed.
Lemma check_producers_spec n ss :
  match check_producers n ss with
  | Ok _ => forall s p, s ∈ ss -> producer_of s = Some p -> (p < n)%nat
  | Err _ => exists s p, s ∈ ss /\ producer_of s = Some p /\ (n <= p)%nat
  | Panic => False
  end.
Proof.
  induction ss as [|s ss IH]; cbn [check_producers]; [by intros s p ?%not_elem_of_nil|]. destruct (producer_of s) as [p|] eqn:Hp.
  - destruct (n <=? p)%nat eqn:Hle; [apply Nat.leb_le in Hle; exists s, p; split_and!; [left|done|done]|]. apply Nat.leb_gt in Hle.
    destruct (check_producers n ss); [|naive_solver set_solver|done]. intros s' p' [->|Hs]%elem_of_cons Hp'; [congruence|by eapply IH].
  - destruct (check_producers n ss); [|naive_solver set_solver|done]. intros s' p' [->|Hs]%elem_of_cons Hp'; [congruence|by eapply IH].
Qed.
Lemma compile_spec def : let n := length def.(WorkflowDef.steps) in let es := def.(WorkflowDef.edges) in
  compile def <> Panic
  /\ (forall cw, compile def = Ok cw ->
        edges_ok n es /\ acyclic es /\ step_index <$> cw.(motes) ≡ₚ seq 0 n
        /\ forall k m, cw.(motes) !! k = Some m -> compiled_at def cw.(motes) k m)
  /\ (edges_ok n es -> acyclic es ->
        (forall i s p, def.(WorkflowDef.steps) !! i = Some s -> producer_of s = Some p -> tc (depends es) p i) ->
        exists cw, compile def = Ok cw).
Proof.
  intros n es. unfold compile, build_adjacency. fold n es.
  pose proof (adjacency_of_spec n es [] ∅ (conj (Forall_nil_2 _) (NoDup_nil_2))) as Hadj. cbn [app] in Hadj. rewrite no_edges_adjacent.
  specialize (Hadj ltac:(set_solver)). destruct (adjacency_of _ _ _ _) as [adj|e|]; [|split_and!; [done|done|tauto]|done].
  destruct Hadj as [Hes ->]. cbn [obind].
  pose proof (check_producers_spec n def.(WorkflowDef.steps)) as Hprod. destruct (check_producers _ _) as [u|e|]; [| |done].
  2: { split_and!; [done|done|]. intros _ _ Hw. exfalso. destruct Hprod as (s & p & Hs & Hp & Hle). apply list_elem_of_lookup in Hs as [i Hi].
       specialize (Hw i s p Hi Hp). assert (p < n)%nat; [|lia]. inversion Hw as [? ? Hd|? ? ? Hd]; apply (depends_below n es Hes _ _ Hd). }
  cbn [obind]. pose proof (topo_order_spec n es Hes) as Hto. destruct (topo_order _ _) as [order|e|]; [|split_and!; [done|done|tauto]|done].
  destruct Hto as (Hac & Hperm & Ht). cbn [obind].
  pose proof (compile_loop_spec def n order Hes eq_refl Hperm Ht Hprod order [] eq_refl) as Hloop. cbv beta in Hloop.
  rewrite (table_const None n). specialize (Hloop ltac:(intros k m Hk; by rewrite lookup_nil in Hk)).
  change (table n (id_of [])) with (table n (fun _ : nat => None : option MoteId)) in Hloop.
  destruct (compile_loop _ _ _ _ _) as [ms|e|]; [| |done].
  - destruct Hloop as [Hidx Hat]. split_and!; [done| |intros; by eexists]. cbn [obind]. intros cw [= <-]. cbn [motes]. split_and!; [done|done|by rewrite Hidx|done].
  - split_and!; [done|done|]. intros _ _ Hw. exfalso. destruct Hloop as (k & i & s & p & Hk & Hs & Hp & Hno & _). specialize (Hw i s p Hs Hp).
    assert (Hpo : p ∈ order).
    { rewrite Hperm. apply elem_of_seq. assert (p < n)%nat; [|lia]. eapply Hprod; [by eapply list_elem_of_lookup_2|done]. }
    apply list_elem_of_lookup in Hpo as [j Hj]. pose proof (forward_tc n es Hes order Hperm Ht _ _ Hw _ _ Hj Hk) as Hlt.
    apply Hno. apply list_elem_of_lookup. exists j. by rewrite lookup_take_lt.
Qed.
(** [C22] Compilation accepts exactly the workflows that are graphs without cycles, if
    critics are wired below their producers. It never panics, and what it emits is
    the authored workflow: every step once, each as [compiled_at] says, after
    everything it depends on. *)
Theorem compile_exactly_dags def : let n := length def.(WorkflowDef.steps) in let es := def.(WorkflowDef.edges) in
  compile def <> Panic
  /\ (forall cw, compile def = Ok cw ->
        edges_ok n es /\ acyclic es /\ step_index <$> cw.(motes) ≡ₚ seq 0 n
        /\ forall k m, cw.(motes) !! k = Some m -> compiled_at def cw.(motes) k m)
  /\ (edges_ok n es -> acyclic es ->
        (forall i s p, def.(WorkflowDef.steps) !! i = Some s -> producer_of s = Some p -> tc (depends es) p i) ->
        exists cw, compile def = Ok cw).
Proof. exact (compile_spec def). Qed.

(** ** What the errors name *)
(** A cycle is reported at the least step that could not be ordered, which may be
    one that only comes after the cycle. *)
Lemma cycle_blames_bystander s seed : producer_of s = None ->
  let es := [edge_to 1 2; edge_to 2 1; edge_to 1 0] in
  compile {| WorkflowDef.steps := [s; s; s]; WorkflowDef.edges := es; WorkflowDef.seed := seed |} = Err (CompileError.Cycle 0)
  /\ ~ tc (depends es) 0%nat 0%nat.
Proof.
  intros Hs es. split.
  - unfold compile, build_adjacency. cbn [WorkflowDef.steps length check_producers]. rewrite Hs. vm_compute. reflexivity.
  - assert (Hno : forall c, ~ depends es 0%nat c) by (intros c Hd; unfold depends in Hd; repeat (apply elem_of_cons in Hd as [Hd|Hd]; [discriminate Hd|]); by apply not_elem_of_nil in Hd).
    intros H0. inversion H0 as [? ? Hd|? ? ? Hd]; by apply Hno in Hd.
Qed.
(** A critic without an edge from its producer is compiled all the same when the
    producer happens to come first. *)
Lemma unwired_critic_compiles s c seed : producer_of s = None -> producer_of c = Some 0%nat ->
  exists cw, compile {| WorkflowDef.steps := [s; c]; WorkflowDef.edges := []; WorkflowDef.seed := seed |} = Ok cw.
Proof.
  intros Hs Hc. unfold compile, build_adjacency. cbn [WorkflowDef.steps WorkflowDef.edges length check_producers adjacency_of obind]. rewrite Hs, Hc.
  cbn [Nat.leb obind]. change (topo_order 2 (no_edges 2)) with (Ok [0; 1]%nat : outcome (list nat) CompileError).
  cbn [obind compile_loop]. unfold compile_step. cbn [at_index lookup list_lookup WorkflowDef.steps obind]. unfold resolve_critic. rewrite Hs, Hc.
  cbn. by eexists.
Qed.
End Compiled.
