(* ===== verification/Prompt.v ===== *)
(** kx-workflow (prompt.rs): prompt templates with named slots, and the pass that
    renders them into the steps of a workflow before it is compiled. *)
From S2P Require Import Prelude Utf8 CriticTypes Mote ContextItems Entry Warrant Content Materializer Critic Digits Wire Workflow.

Definition TEMPLATE_KEY : bytes := str "prompt_template".
Module Segment.
Inductive Segment := Literal (text : bytes) | Slot (name : bytes).
End Segment.
Abbreviation Segment := Segment.Segment.
Import Segment.
Record PromptTemplate := { segments : list Segment; declared : gset bytes }.

(** [Display] of [CompileError]. *)
Definition index_text (i : nat) : bytes := decimal (Z.of_nat i).
Definition compile_error_text (e : CompileError) : bytes :=
  match e with
  | CompileError.StepIndexOutOfRange i => str "step index " ++ index_text i ++ str " is out of range for this workflow"
  | CompileError.Cycle i => str "workflow DAG contains a cycle involving step " ++ index_text i
  | CompileError.InvalidCritic critic producer =>
      str "critic step " ++ index_text critic ++ str " references producer step " ++ index_text producer ++ str ", which does not precede it"
  | CompileError.DuplicateEdge parent child => str "duplicate edge from step " ++ index_text parent ++ str " to step " ++ index_text child
  | CompileError.MalformedTemplate reason => str "malformed prompt template: " ++ reason
  | CompileError.MissingPlaceholder name => str "prompt template placeholder '" ++ name ++ str "' has no bound parameter"
  | CompileError.UnknownParam name => str "prompt parameter '" ++ name ++ str "' names no template placeholder"
  | CompileError.RenderPromptStep step reason => str "prompt render failed at step " ++ index_text step ++ str ": " ++ reason
  | CompileError.EmptyRecipe => str "recipe requires at least one step but none were provided"
  end.

(** ** Parsing *)
Definition OPEN : bytes := str "{".
Definition CLOSE : bytes := str "}".
Definition is_slot_char (c : bytes) : bool :=
  match c with [b] => in_range 48 57 b || in_range 65 90 b || in_range 97 122 b || (b =? 95) | _ => false end.
Definition flush_literal (lit : bytes) (r : list Segment * gset bytes) : list Segment * gset bytes :=
  match lit with [] => r | _ => (Literal lit :: r.1, r.2) end.
Definition malformed {A} (reason : bytes) : outcome A CompileError := Err (CompileError.MalformedTemplate reason).
(** The chars of the source; [lit] is the pending literal, or [slot] the chars of
    the placeholder being read. *)
Fixpoint parse_chars (cs : list bytes) (lit : bytes) (slot : option (list bytes)) : outcome (list Segment * gset bytes) CompileError :=
  match cs, slot with
  | [], None => Ok (flush_literal lit ([], ∅))
  | [], Some name => malformed (str "unterminated placeholder '{" ++ concat name ++ str "'")
  | c :: cs, Some name =>
      if bool_decide (c = CLOSE)
      then
        if bool_decide (name = []) then malformed (str "empty placeholder '{}'")
        else if negb (forallb is_slot_char name)
        then malformed (str "placeholder '" ++ concat name ++ str "' has a character outside [A-Za-z0-9_]")
        else let* r := parse_chars cs [] None in Ok (Slot (concat name) :: r.1, {[concat name]} ∪ r.2)
      else if bool_decide (c = OPEN) then malformed (str "nested '{' inside a placeholder")
      else parse_chars cs [] (Some (name ++ [c]))
  | c :: cs, None =>
      if bool_decide (c = OPEN)
      then match cs with
           | d :: cs' => if bool_decide (d = OPEN) then parse_chars cs' (lit ++ OPEN) None
                         else let* r := parse_chars cs [] (Some []) in Ok (flush_literal lit r)
           | [] => let* r := parse_chars cs [] (Some []) in Ok (flush_literal lit r)
           end
      else if bool_decide (c = CLOSE)
      then match cs with
           | d :: cs' => if bool_decide (d = CLOSE) then parse_chars cs' (lit ++ CLOSE) None
                         else malformed (str "unescaped '}' (use '}}' for a literal brace)")
           | [] => malformed (str "unescaped '}' (use '}}' for a literal brace)")
           end
      else parse_chars cs (lit ++ c) None
  end.
(** A [&str] is valid UTF-8. *)
Definition PromptTemplate_parse (src : bytes) : outcome PromptTemplate CompileError :=
  match utf8_chars src with
  | None => Panic
  | Some cs => let* r := parse_chars cs [] None in Ok {| segments := r.1; declared := r.2 |}
  end.
(** ** Rendering *)
Definition slots (t : PromptTemplate) : list bytes := set_iter t.(declared).
Fixpoint fill (ss : list Segment) (params : gmap bytes bytes) : outcome bytes CompileError :=
  match ss with
  | [] => Ok []
  | Literal l :: ss => let* r := fill ss params in Ok (l ++ r)
  | Slot n :: ss =>
      match params !! n with
      | Some v => let* r := fill ss params in Ok (v ++ r)
      | None => Err (CompileError.MissingPlaceholder n)
      end
  end.
Definition render (t : PromptTemplate) (params : gmap bytes bytes) : outcome bytes CompileError :=
  match List.find (fun k => negb (bool_decide (k ∈ t.(declared)))) (btree_keys params) with
  | Some k => Err (CompileError.UnknownParam k)
  | None =>
      match List.find (fun n => match params !! n with Some _ => false | None => true end) (slots t) with
      | Some n => Err (CompileError.MissingPlaceholder n)
      | None => fill t.(segments) params
      end
  end.
Definition rendered (template : bytes) (params : gmap bytes bytes) : outcome bytes CompileError :=
  let* t := PromptTemplate_parse template in render t params.
Definition put_rendered_prompt (config_subset : gmap bytes bytes) (template : bytes) (params : gmap bytes bytes)
    : outcome (gmap bytes bytes) CompileError :=
  let* r := rendered template params in Ok (<[PROMPT_KEY := r]> config_subset).
Definition render_step (i : nat) (params : gmap bytes bytes) (s : StepDef) : outcome (nat * StepDef) CompileError :=
  match s.(StepDef.config_subset) !! TEMPLATE_KEY with
  | None => Ok (O, s)
  | Some tmpl =>
      if negb (utf8_valid tmpl) then Err (CompileError.RenderPromptStep i (str "template bytes are not valid UTF-8"))
      else
        let* prompt := omap_err (fun e => CompileError.RenderPromptStep i (compile_error_text e)) (rendered tmpl params) in
        Ok (1%nat, StepDef.with_config (delete TEMPLATE_KEY (<[PROMPT_KEY := prompt]> s.(StepDef.config_subset))) s)
  end.
Fixpoint render_steps (i : nat) (params : gmap bytes bytes) (ss : list StepDef) : outcome (nat * list StepDef) CompileError :=
  match ss with
  | [] => Ok (O, [])
  | s :: ss => let* r := render_step i params s in
               let* rest := render_steps (Datatypes.S i) params ss in
               Ok ((r.1 + rest.1)%nat, r.2 :: rest.2)
  end.
Definition render_prompts (def : WorkflowDef) (params : gmap bytes bytes) : outcome (nat * WorkflowDef) CompileError :=
  let* r := render_steps 0 params def.(WorkflowDef.steps) in Ok (r.1, set_steps r.2 def).

(** ** The text of a template *)
Definition chars_of (t : bytes) : list bytes := default [] (utf8_chars t).
Definition escape_char (c : bytes) : list bytes := if bool_decide (c = OPEN \/ c = CLOSE) then [c; c] else [c].
Definition segment_chars (s : Segment) : list bytes :=
  match s with
  | Literal l => concat (escape_char <$> chars_of l)
  | Slot n => OPEN :: chars_of n ++ [CLOSE]
  end.
Definition template_chars (ss : list Segment) : list bytes := concat (segment_chars <$> ss).
Definition template_text (ss : list Segment) : bytes := concat (template_chars ss).
Definition slot_names (ss : list Segment) : gset bytes :=
  list_to_set (omap (fun s => match s with Slot n => Some n | Literal _ => None end) ss).
(** Literals are non-empty text, slots are named, and no literal follows a literal. *)
Definition segment_ok (s : Segment) : Prop :=
  match s with
  | Literal l => utf8_valid l = true /\ l <> []
  | Slot n => utf8_valid n = true /\ n <> [] /\ forallb is_slot_char (chars_of n) = true
  end.
Definition starts_literal (ss : list Segment) : bool := match ss with Literal _ :: _ => true | _ => false end.
Fixpoint separated (ss : list Segment) : Prop :=
  match ss with
  | [] => True
  | s :: ss => (match s with Literal _ => starts_literal ss = false | Slot _ => True end) /\ separated ss
  end.
Definition normal (t : PromptTemplate) : Prop :=
  Forall segment_ok t.(segments) /\ separated t.(segments) /\ t.(declared) = slot_names t.(segments).

Lemma chars_of_concat cs : Forall is_char cs -> chars_of (concat cs) = cs.
Proof. intros H. unfold chars_of. by rewrite utf8_chars_concat. Qed.
Lemma chars_of_valid t : utf8_valid t = true -> Forall is_char (chars_of t) /\ concat (chars_of t) = t.
Proof. unfold utf8_valid, chars_of. destruct (utf8_chars t) eqn:E; [|done]. intros _. by apply utf8_chars_sound. Qed.
Lemma slot_char_plain c : is_slot_char c = true -> c <> OPEN /\ c <> CLOSE.
Proof. intros H. split; intros ->; by vm_compute in H. Qed.
Lemma brace_chars : is_char OPEN /\ is_char CLOSE.
Proof. by split; vm_compute. Qed.
Lemma escape_is_char c : is_char c -> Forall is_char (escape_char c).
Proof. intros H. unfold escape_char. case_bool_decide; by repeat constructor. Qed.

(** *** From segments to text and back *)
Lemma parse_escaped cs : forall rest lit, Forall is_char cs ->
  parse_chars (concat (escape_char <$> cs) ++ rest) lit None = parse_chars rest (lit ++ concat cs) None.
Proof.
  induction cs as [|c cs IH]; intros rest lit Hc; [cbn; by rewrite app_nil_r|]. apply Forall_cons in Hc as [Hc Hcs].
  cbn [fmap list_fmap concat]. unfold escape_char at 1. rewrite <- app_assoc. case_bool_decide as Hb.
  - destruct Hb as [-> | ->]; cbn [app parse_chars].
    + rewrite !(bool_decide_true (OPEN = OPEN)) by done. rewrite IH by done. by rewrite <- app_assoc.
    + rewrite (bool_decide_false (CLOSE = OPEN)), !(bool_decide_true (CLOSE = CLOSE)) by done. rewrite IH by done. by rewrite <- app_assoc.
  - cbn [app parse_chars]. rewrite (bool_decide_false (c = OPEN)), (bool_decide_false (c = CLOSE)) by tauto. rewrite IH by done. by rewrite <- app_assoc.
Qed.
Lemma parse_slot cs : forall acc rest, forallb is_slot_char cs = true -> forallb is_slot_char acc = true -> acc ++ cs <> [] ->
  parse_chars (cs ++ CLOSE :: rest) [] (Some acc)
  = let* r := parse_chars rest [] None in Ok (Slot (concat (acc ++ cs)) :: r.1, {[concat (acc ++ cs)]} ∪ r.2).
Proof.
  induction cs as [|c cs IH]; intros acc rest Hc Ha Hne.
  - rewrite app_nil_r in Hne |- *. cbn [app parse_chars]. rewrite bool_decide_true, bool_decide_false, Ha by done. done.
  - cbn [forallb] in Hc. apply andb_true_iff in Hc as [Hc Hcs]. destruct (slot_char_plain c Hc) as [H1 H2]. cbn [app parse_chars].
    rewrite (bool_decide_false (c = CLOSE)), (bool_decide_false (c = OPEN)) by done. rewrite IH; [by rewrite <- app_assoc|done| |].
    + rewrite forallb_app, Ha. cbn. by rewrite Hc.
    + by destruct acc.
Qed.
Lemma slot_names_cons s ss : slot_names (s :: ss) = match s with Slot n => {[n]} ∪ slot_names ss | Literal _ => slot_names ss end.
Proof. by destruct s. Qed.
Lemma parse_printed ss : forall lit, Forall segment_ok ss -> separated ss -> (lit = [] \/ starts_literal ss = false) ->
  parse_chars (template_chars ss) lit None = Ok (flush_literal lit (ss, slot_names ss)).
Proof.
  induction ss as [|s ss IH]; intros lit Hok Hsep Hlit; [done|]. apply Forall_cons in Hok as [Hs Hok]. destruct Hsep as [H1 Hsep].
  unfold template_chars in *. cbn [fmap list_fmap concat]. destruct s as [l|n]; cbn [segment_chars].
  - destruct Hlit as [->|Hlit]; [|done]. destruct Hs as [Hv Hne]. destruct (chars_of_valid l Hv) as [Hcs Hl].
    rewrite parse_escaped, Hl by done. cbn [app]. rewrite IH; [by destruct l|done..|by right].
  - destruct Hs as (Hv & Hne & Hsc). destruct (chars_of_valid n Hv) as [Hcs Hn]. rewrite <- app_comm_cons, <- app_assoc. cbn [app parse_chars].
    rewrite bool_decide_true by done. destruct (chars_of n) as [|c cs] eqn:Hcn; [cbn in Hn; congruence|].
    assert (Hc1 : c <> OPEN) by (cbn in Hsc; apply andb_true_iff in Hsc as [Hc _]; apply (slot_char_plain c Hc)).
    cbn [app]. rewrite (bool_decide_false (c = OPEN)) by done. rewrite (app_comm_cons cs), parse_slot by done. cbn [app]. rewrite Hn, IH by (done || by left).
    cbn [obind]. by rewrite slot_names_cons.
Qed.
Record parsed (cs : list bytes) (r : list Segment * gset bytes) : Prop := {
  p_text : template_chars r.1 = cs;
  p_ok : Forall segment_ok r.1;
  p_sep : separated r.1;
  p_slots : r.2 = slot_names r.1
}.
Lemma flush_sound lcs cs r : Forall is_char lcs -> parsed cs r -> starts_literal r.1 = false ->
  parsed (concat (escape_char <$> lcs) ++ cs) (flush_literal (concat lcs) r).
Proof.
  intros Hl [H1 H2 H3 H4] Hs. destruct lcs as [|c lcs]; [by split|].
  assert (Hne : concat (c :: lcs) <> []).
  { apply Forall_cons in Hl as [Hc _]. apply utf8_char_len_bound in Hc. intros E. apply (f_equal length) in E. cbn in E. rewrite length_app in E. lia. }
  assert (Hv := utf8_valid_concat _ Hl). assert (Hch := chars_of_concat _ Hl). revert Hne Hv Hch. generalize (concat (c :: lcs)).
  intros t Hne Hv Hch. destruct t as [|b t]; [done|]. cbn [flush_literal]. split; cbn [fst snd]; [|by repeat constructor|by split|done].
  unfold template_chars in *. cbn [fmap list_fmap concat]. unfold segment_chars at 1. by rewrite Hch, H1.
Qed.
Lemma parse_sound k : forall cs, (length cs <= k)%nat -> Forall is_char cs ->
  (forall lcs r, Forall is_char lcs -> parse_chars cs (concat lcs) None = Ok r -> parsed (concat (escape_char <$> lcs) ++ cs) r)
  /\ (forall acc r, Forall is_char acc -> parse_chars cs [] (Some acc) = Ok r -> parsed (OPEN :: acc ++ cs) r /\ starts_literal r.1 = false).
Proof.
  destruct brace_chars as [Ho Hcl]. induction k as [|k IH]; intros [|c cs] Hk Hcs; cbn [length] in Hk; try lia.
  1, 2: split; [intros lcs r Hl [= <-]; apply flush_sound; [done|by split|done]|done].
  apply Forall_cons in Hcs as [Hc Hcs]. destruct (IH cs ltac:(lia) Hcs) as [IH1 IH2]. split.
  - intros lcs r Hl. assert (Hmore : forall d rest r', is_char d -> Forall is_char rest -> (length rest <= k)%nat ->
      parse_chars rest (concat lcs ++ d) None = Ok r' -> parsed (concat (escape_char <$> lcs) ++ escape_char d ++ rest) r').
    { intros d rest r' Hd Hr Hlen E. destruct (IH rest Hlen Hr) as [H1 _]. specialize (H1 (lcs ++ [d]) r').
      rewrite concat_app, fmap_app, concat_app in H1. cbn in H1. rewrite !app_nil_r, <- app_assoc in H1. apply H1; [apply Forall_app; by repeat constructor|done]. }
    cbn [parse_chars]. case_bool_decide as H1; [subst c|].
    + assert (Hslot : obind (parse_chars cs [] (Some [])) (fun r => Ok (flush_literal (concat lcs) r)) = Ok r ->
        parsed (concat (escape_char <$> lcs) ++ OPEN :: cs) r).
      { intros (r' & E & [= <-])%obind_ok_inv. destruct (IH2 [] r' (Forall_nil_2 _) E) as [Hp Hs]. by apply flush_sound. }
      destruct cs as [|d cs']; [exact Hslot|]. case_bool_decide as H2; [subst d|exact Hslot].
      apply Forall_cons in Hcs as [_ Hcs']. apply (Hmore OPEN cs' r Ho Hcs'). cbn in Hk. lia.
    + case_bool_decide as H2; [subst c; destruct cs as [|d cs']; [done|]; case_bool_decide as H3; [subst d|done]|].
      * apply Forall_cons in Hcs as [_ Hcs']. apply (Hmore CLOSE cs' r Hcl Hcs'). cbn in Hk. lia.
      * specialize (Hmore c cs r Hc Hcs ltac:(lia)). unfold escape_char in Hmore at 2. rewrite bool_decide_false in Hmore by tauto. exact Hmore.
  - intros acc r Ha. cbn [parse_chars]. case_bool_decide as H1; [subst c|].
    + case_bool_decide as H2; [done|]. destruct (forallb is_slot_char acc) eqn:Hf; [|done]. cbn [negb].
      intros (r' & E & [= <-])%obind_ok_inv. destruct (IH1 [] r' (Forall_nil_2 _) E) as [P1 P2 P3 P4]. cbn in P1. split; [|done].
      split; cbn [fst snd]; [|constructor; [|done]|done|by rewrite slot_names_cons, P4].
      * unfold template_chars in *. cbn [fmap list_fmap concat segment_chars]. rewrite chars_of_concat, P1 by done. by rewrite <- app_comm_cons, <- app_assoc.
      * split_and!; [by apply utf8_valid_concat| |by rewrite chars_of_concat]. destruct acc as [|a acc]; [done|]. apply Forall_cons in Ha as [Ha _].
        apply utf8_char_len_bound in Ha. intros E0. apply (f_equal length) in E0. cbn in E0. rewrite length_app in E0. lia.
    + case_bool_decide as H2; [done|]. intros E. destruct (IH2 (acc ++ [c]) r) as [Hp Hs]; [apply Forall_app; by repeat constructor|done|].
      by rewrite <- app_assoc in Hp.
Qed.
Lemma parse_no_panic cs : forall lit slot, parse_chars cs lit slot <> Panic.
Proof.
  induction cs as [cs IH] using (induction_ltof1 _ length); unfold ltof in IH. intros lit slot. destruct cs as [|c cs]; [by destruct slot|].
  assert (Hr : forall lit slot, parse_chars cs lit slot <> Panic) by (apply IH; cbn; lia).
  assert (Hb : forall slot (k : list Segment * gset bytes -> list Segment * gset bytes), obind (parse_chars cs [] slot) (fun r => Ok (k r)) <> Panic).
  { intros slot' k. specialize (Hr [] slot'). by destruct (parse_chars cs [] slot'). }
  destruct slot as [name|]; cbn [parse_chars]; repeat case_bool_decide; try done; try (by apply Hr).
  - destruct (negb _); [done|]. apply (Hb None).
  - destruct cs as [|d cs']; [by apply (Hb (Some []))|]. case_bool_decide; [|by apply (Hb (Some []))]. apply IH. cbn. lia.
  - destruct cs as [|d cs']; [done|]. case_bool_decide; [|done]. apply IH. cbn. lia.
Qed.
Lemma template_parsed src t : utf8_valid src = true -> PromptTemplate_parse src = Ok t -> normal t /\ template_text t.(segments) = src.
Proof.
  intros Hv. unfold PromptTemplate_parse. unfold utf8_valid in Hv. destruct (utf8_chars src) as [cs|] eqn:Hcs; [|done].
  destruct (utf8_chars_sound _ _ Hcs) as [Hc Hsrc]. intros (r & E & [= <-])%obind_ok_inv.
  destruct (parse_sound (length cs) cs (le_n _) Hc) as [H1 _].
  destruct (H1 [] r (Forall_nil_2 _) E) as [P1 P2 P3 P4]. split; [done|]. cbn [segments]. unfold template_text. by rewrite P1.
Qed.
(** Templates are exactly the texts of segment lists: a source parses to the
    segments it is the text of, every well-formed list of segments is parsed back
    from its text, with the slots it names, and no other source is accepted. *)
Theorem template_roundtrip src t : utf8_valid src = true ->
  PromptTemplate_parse src = Ok t <-> normal t /\ template_text t.(segments) = src.
Proof.
  intros Hv. split; [by apply template_parsed|]. unfold PromptTemplate_parse. unfold utf8_valid in Hv.
  destruct (utf8_chars src) as [cs|] eqn:Hcs; [|done].
  - intros [(H1 & H2 & H3) <-]. assert (Htc : Forall is_char (template_chars t.(segments))).
    { unfold template_chars. clear -H1. induction H1 as [|s ss Hs _ IH]; [constructor|]. cbn [fmap list_fmap concat]. apply Forall_app. split; [|done].
      destruct s as [l|n]; cbn [segment_chars].
      - destruct Hs as [Hl _]. apply chars_of_valid in Hl as [Hl _]. clear -Hl. induction Hl; [constructor|]. cbn. apply Forall_app. by split; [apply escape_is_char|].
      - destruct Hs as [Hn _]. apply chars_of_valid in Hn as [Hn _]. constructor; [apply brace_chars|]. apply Forall_app. split; [done|]. repeat constructor. }
    unfold template_text in Hcs. rewrite utf8_chars_concat in Hcs by done. injection Hcs as <-.
    rewrite parse_printed by (done || by left). cbn [obind flush_literal fst snd]. rewrite <- H3. by destruct t.
Qed.
Lemma template_roundtrip_witness :
  let t := {| segments := [Literal (str "{a} "); Slot (str "x"); Literal (str "!")]; declared := {[str "x"]} |} in
  PromptTemplate_parse (str "{{a}} {x}!") = Ok t <-> normal t /\ template_text t.(segments) = str "{{a}} {x}!".
Proof. apply template_roundtrip. vm_compute. reflexivity. Defined.

(** *** Rendering *)
Definition substitute (params : gmap bytes bytes) (ss : list Segment) : bytes :=
  concat ((fun s => match s with Literal l => l | Slot n => default [] (params !! n) end) <$> ss).
Lemma fill_spec ss params : slot_names ss ⊆ dom params -> fill ss params = Ok (substitute params ss).
Proof.
  induction ss as [|[l|n] ss IH]; intros Hs; [done| |]; rewrite slot_names_cons in Hs; cbn [fill substitute fmap list_fmap concat].
  - by rewrite IH.
  - assert (Hn : n ∈ dom params) by set_solver. apply elem_of_dom in Hn as [v Hv]. rewrite Hv, IH by set_solver. done.
Qed.
Lemma elem_of_slots t n : n ∈ slots t <-> n ∈ t.(declared).
Proof. unfold slots. rewrite <- (set_iter_list t.(declared)) at 2. by rewrite elem_of_list_to_set. Qed.
Lemma render_spec t params : t.(declared) = slot_names t.(segments) ->
  match render t params with
  | Ok out => dom params = t.(declared) /\ out = substitute params t.(segments)
  | Err (CompileError.UnknownParam k) => k ∈ dom params /\ k ∉ t.(declared)
  | Err (CompileError.MissingPlaceholder n) => dom params ⊆ t.(declared) /\ n ∈ t.(declared) /\ n ∉ dom params
  | _ => False
  end.
Proof.
  intros Hd. unfold render. destruct (List.find _ (btree_keys params)) as [k|] eqn:E1.
  { apply find_some in E1 as [Hk Hb]. apply list_elem_of_In, elem_of_btree_keys, elem_of_dom in Hk. apply negb_true_iff, bool_decide_eq_false in Hb. done. }
  assert (Hsub : dom params ⊆ t.(declared)).
  { intros k Hk. apply elem_of_dom, elem_of_btree_keys, list_elem_of_In in Hk. apply (find_none _ _ E1), negb_false_iff, bool_decide_eq_true in Hk. done. }
  destruct (List.find _ (slots t)) as [n|] eqn:E2.
  { apply find_some in E2 as [Hn Hb]. apply list_elem_of_In, elem_of_slots in Hn. split_and!; [done|done|]. apply not_elem_of_dom. by destruct (params !! n). }
  assert (Hsup : t.(declared) ⊆ dom params).
  { intros n Hn. apply elem_of_slots, list_elem_of_In in Hn. apply (find_none _ _ E2) in Hn. apply elem_of_dom. by destruct (params !! n). }
  rewrite fill_spec by (by rewrite <- Hd). split; [set_solver|done].
Qed.

(** *** The pass over a workflow *)
Definition renders (params : gmap bytes bytes) (tmpl out : bytes) : Prop :=
  exists t, PromptTemplate_parse tmpl = Ok t /\ dom params = t.(declared) /\ out = substitute params t.(segments).
Lemma rendered_spec params tmpl : utf8_valid tmpl = true ->
  match rendered tmpl params with Ok out => renders params tmpl out | Err _ => ~ exists out, renders params tmpl out | Panic => False end.
Proof.
  intros Hv. unfold rendered, renders. destruct (PromptTemplate_parse tmpl) as [t|e|] eqn:Hp; cbn [obind].
  - assert (Hd : t.(declared) = slot_names t.(segments)) by (by apply (template_parsed _ _ Hv Hp)).
    pose proof (render_spec t params Hd) as Hr. destruct (render t params) as [out|e|]; [by exists t| |done].
    intros (out & t' & [= <-] & Hdom & _). destruct e; try done; set_solver.
  - intros (out & t & ? & _). done.
  - unfold PromptTemplate_parse in Hp. unfold utf8_valid in Hv. destruct (utf8_chars tmpl) as [cs|]; [|done]. pose proof (parse_no_panic cs [] None). by destruct (parse_chars cs [] None).
Qed.
Definition rendered_step (params : gmap bytes bytes) (s s' : StepDef) : Prop :=
  match s.(StepDef.config_subset) !! TEMPLATE_KEY with
  | None => s' = s
  | Some tmpl => utf8_valid tmpl = true /\ exists out, renders params tmpl out
      /\ s' = StepDef.with_config (delete TEMPLATE_KEY (<[PROMPT_KEY := out]> s.(StepDef.config_subset))) s
  end.
Lemma render_step_spec i params s :
  match render_step i params s with
  | Ok (k, s') => rendered_step params s s' /\ k = (if declares TEMPLATE_KEY s then 1 else 0)%nat
  | Err (CompileError.RenderPromptStep j _) => j = i /\ ~ exists s', rendered_step params s s'
  | _ => False
  end.
Proof.
  unfold render_step, rendered_step, declares. destruct (_ !! TEMPLATE_KEY) as [tmpl|] eqn:Ht; [|done].
  destruct (utf8_valid tmpl) eqn:Hv; cbn [negb]; [|split; [done|by intros (s' & ? & _)]]. pose proof (rendered_spec params tmpl Hv) as Hr.
  destruct (rendered tmpl params) as [out|e|]; cbn [omap_err obind]; [|split; [done|]|done].
  - split; [split; [done|by exists out]|done].
  - intros (s' & _ & out & Ho & _). apply Hr. by exists out.
Qed.
Lemma rendered_step_again params s s' : rendered_step params s s' -> s'.(StepDef.config_subset) !! TEMPLATE_KEY = None.
Proof.
  unfold rendered_step. destruct (_ !! TEMPLATE_KEY) eqn:Ht; [|by intros ->]. intros (_ & out & _ & ->). apply lookup_delete_eq.
Qed.
Lemma render_steps_spec params ss : forall i,
  match render_steps i params ss with
  | Ok (k, ss') => Forall2 (rendered_step params) ss ss' /\ k = length (List.filter (declares TEMPLATE_KEY) ss)
  | Err (CompileError.RenderPromptStep j _) => exists m s, j = (i + m)%nat /\ ss !! m = Some s /\ (~ exists s', rendered_step params s s')
      /\ Forall (fun s => exists s', rendered_step params s s') (take m ss)
  | _ => False
  end.
Proof.
  induction ss as [|s ss IH]; intros i; cbn [render_steps]; [done|]. pose proof (render_step_spec i params s) as Hs.
  destruct (render_step i params s) as [[k s']|e|]; cbn [obind fst snd]; [|destruct e; try done; destruct Hs as [-> Hs]; by exists O, s; rewrite Nat.add_0_r|done].
  destruct Hs as [Hs ->]. specialize (IH (Datatypes.S i)). destruct (render_steps (Datatypes.S i) params ss) as [[k' ss']|e|]; cbn [obind fst snd]; [| |done].
  - destruct IH as [Hf ->]. split; [by constructor|]. cbn [List.filter]. by destruct (declares TEMPLATE_KEY s).
  - destruct e; try done. destruct IH as (m & s0 & -> & Hm & Hno & Hf). exists (Datatypes.S m), s0. split_and!; [lia|done|done|]. constructor; [by exists s'|done].
Qed.
Lemma render_steps_none params ss : forall i, Forall (fun s => s.(StepDef.config_subset) !! TEMPLATE_KEY = None) ss -> render_steps i params ss = Ok (O, ss).
Proof.
  induction ss as [|s ss IH]; intros i Hf; [done|]. apply Forall_cons in Hf as [Hs Hf]. cbn [render_steps]. unfold render_step. rewrite Hs. cbn [obind]. by rewrite IH.
Qed.
(** The pass renders exactly the steps that carry a template, each from its own
    template with every slot replaced by its parameter and no parameter left over,
    and changes nothing else; a second run finds nothing to do. It fails, naming
    the first step whose template cannot be rendered, and only then. *)
Theorem prompts_rendered def params :
  match render_prompts def params with
  | Ok (n, def') =>
      Forall2 (rendered_step params) def.(WorkflowDef.steps) def'.(WorkflowDef.steps)
      /\ def' = set_steps def'.(WorkflowDef.steps) def
      /\ n = length (List.filter (declares TEMPLATE_KEY) def.(WorkflowDef.steps))
      /\ forall params', render_prompts def' params' = Ok (O, def')
  | Err (CompileError.RenderPromptStep i _) => exists s, def.(WorkflowDef.steps) !! i = Some s /\ (~ exists s', rendered_step params s s')
      /\ Forall (fun s => exists s', rendered_step params s s') (take i def.(WorkflowDef.steps))
  | _ => False
  end.
Proof.
  unfold render_prompts at 1. pose proof (render_steps_spec params def.(WorkflowDef.steps) 0) as Hs.
  destruct (render_steps 0 params _) as [[n ss]|e|]; cbn [obind fst snd]; [| |done].
  - destruct Hs as [Hf ->]. split_and!; [done|done|done|]. intros params'. unfold render_prompts. cbn [set_steps WorkflowDef.steps].
    rewrite render_steps_none; [done|]. apply Forall_forall. intros s' Hs'. apply list_elem_of_lookup in Hs' as [i Hi].
    destruct (Forall2_lookup_r _ _ _ _ _ Hf Hi) as (s & _ & Hr). by eapply rendered_step_again.
  - destruct e; try done. destruct Hs as (m & s & -> & Hs). by exists s.
Qed.
