(* ===== verification/Planner.v ===== *)
(** kx-planner: a model's proposal decoded fail-closed (decode.rs, plan.rs,
    error.rs) and lowered, through the vetted recipes of its roles (role.rs,
    lower.rs), to a workflow or to a topology decision. serde_json is foreign
    code: the class [PlanJson]. *)
From S2P Require Import Prelude Utf8 CriticTypes Mote Warrant Content Materializer Critic Digits ParamSchema Text Toolcall Workflow.

(** ** What a model may propose *)
Module PlanStepKind.
Inductive PlanStepKind := Plain | Critic | DeterministicCritic | TopologyShaper.
End PlanStepKind.
Abbreviation PlanStepKind := PlanStepKind.PlanStepKind.
Module PlanStep.
Record PlanStep := { role : bytes; intent : bytes; kind : PlanStepKind; producer : option nat }.
End PlanStep.
Abbreviation PlanStep := PlanStep.PlanStep.
Module PlanEdge.
Record PlanEdge := { parent : nat; child : nat }.
End PlanEdge.
Abbreviation PlanEdge := PlanEdge.PlanEdge.
Module Plan.
Record Plan := { version : Z; steps : list PlanStep; edges : list PlanEdge }.
End Plan.
Abbreviation Plan := Plan.Plan.
Module LoopProposalWire.
Record LoopProposalWire := { version : Z; next_steps : list PlanStep }.
End LoopProposalWire.
Abbreviation LoopProposalWire := LoopProposalWire.LoopProposalWire.
Module ReplanWire.
Record ReplanWire := { version : Z; next_steps : list PlanStep; flag_human : option bytes }.
End ReplanWire.
Abbreviation ReplanWire := ReplanWire.ReplanWire.
Record LoopProposal := { next_steps : list PlanStep }.
Module ReplanProposal.
Inductive ReplanProposal := Topology (p : LoopProposal) | FlagHuman (reason : bytes).
End ReplanProposal.
Abbreviation ReplanProposal := ReplanProposal.ReplanProposal.
Module PlanError.
Inductive PlanError :=
| Oversize (got max : Z)
| Malformed (diagnostic : bytes)
| UnknownVersion (version : Z)
| EmptyPlan
| TooManySteps (got max : nat)
| TooManyEdges (got max : nat)
| InvalidProducer (step : nat) (producer : option nat)
| UnknownRole (role : bytes)
| UnknownRecipe (role : bytes)
| MissingCheck (role : bytes)
| UngrantableTool (role tool : bytes)
| Ungrantable (role : bytes) (source : NarrowingError)
| Compile (e : CompileError).
End PlanError.
Abbreviation PlanError := PlanError.PlanError.

(** ** Recipes *)
Module RoleRecipe.
Record RoleRecipe := {
  logic_ref : bytes;
  model_id : bytes;
  prompt_template_hash : bytes;
  tool_contract : gmap bytes bytes;
  capability : bytes;
  nd_class : NdClass;
  effect_pattern : EffectPattern;
  inference_params : InferenceParams;
  deterministic_check : option CheckSpec
}.
End RoleRecipe.
Abbreviation RoleRecipe := RoleRecipe.RoleRecipe.
(** The trait [RoleRecipeResolver]. *)
Definition RoleRecipeResolver : Type := bytes -> option RoleRecipe.
(** Its in-memory implementation. *)
Record InMemoryRoleRecipes := { recipes : gmap bytes RoleRecipe }.
Definition InMemoryRoleRecipes_new : InMemoryRoleRecipes := {| recipes := ∅ |}.
Definition register_recipe (role_id : bytes) (recipe : RoleRecipe) (r : InMemoryRoleRecipes) : InMemoryRoleRecipes :=
  {| recipes := <[role_id := recipe]> r.(recipes) |}.
Definition recipes_len (r : InMemoryRoleRecipes) : nat := size r.(recipes).
Definition recipes_is_empty (r : InMemoryRoleRecipes) : bool := (size r.(recipes) =? 0)%nat.
Definition recipe_of (r : InMemoryRoleRecipes) : RoleRecipeResolver := fun role_id => r.(recipes) !! role_id.

(** ** Decoding *)
Definition MAX_PLAN_STEPS : nat := 256.
Definition MAX_PLAN_EDGES : nat := 1024.
Definition MAX_LOOP_STEPS : nat := 64.
Definition MAX_FLAG_HUMAN_BYTES : Z := 1024.
Definition max_plan_bytes (warrant : WarrantSpec) : Z :=
  Z.min (2 ^ 64 - 1) (4 * warrant.(WarrantSpec.model_route).(ModelRoute.max_output_tokens)).
Definition plan_preamble (text : bytes) : bytes :=
  strip_block (trim_start text) [(str "<think>", str "</think>"); (str "<|channel>", str "<channel|>")].
Definition plan_fence (text : bytes) : bytes :=
  let t := trim text in
  match strip_prefix t FENCE with
  | None => t
  | Some rest =>
      let inner := match find_byte 10 rest with Some nl => drop (S nl) rest | None => rest end in
      match rfind inner FENCE with
      | Some i => trim (take i inner)
      | None => trim inner
      end
  end.
Definition plan_envelope (text : bytes) : bytes := plan_fence (plan_preamble text).

(** [serde_json::from_str] at the three envelopes; an error is its message. No
    JSON text is empty. *)
Class PlanJson := {
  plan_of_json : bytes -> Plan + bytes;
  loop_of_json : bytes -> LoopProposalWire + bytes;
  replan_of_json : bytes -> ReplanWire + bytes;
  empty_is_no_json : (exists e, plan_of_json [] = inr e) /\ (exists e, loop_of_json [] = inr e) /\ (exists e, replan_of_json [] = inr e)
}.
Section Decode.
Context `{PlanJson}.
(** The steps the three decoders share: the cap, the UTF-8 check, the parse. *)
Definition parse_envelope {A : Type} (parse : bytes -> A + bytes) (input : bytes) (max : Z) : outcome A PlanError :=
  if max <? Z.of_nat (length input) then Err (PlanError.Oversize (Z.of_nat (length input)) max)
  else if negb (utf8_valid input) then Err (PlanError.Malformed (str "model output was not valid UTF-8"))
  else match parse (plan_envelope input) with inl a => Ok a | inr e => Err (PlanError.Malformed e) end.
Definition decode_plan (input : bytes) (max_plan_bytes : Z) : outcome Plan PlanError :=
  let* plan := parse_envelope plan_of_json input max_plan_bytes in
  if negb (plan.(Plan.version) =? 1) then Err (PlanError.UnknownVersion plan.(Plan.version))
  else if (length plan.(Plan.steps) =? 0)%nat then Err PlanError.EmptyPlan
  else if (MAX_PLAN_STEPS <? length plan.(Plan.steps))%nat then Err (PlanError.TooManySteps (length plan.(Plan.steps)) MAX_PLAN_STEPS)
  else if (MAX_PLAN_EDGES <? length plan.(Plan.edges))%nat then Err (PlanError.TooManyEdges (length plan.(Plan.edges)) MAX_PLAN_EDGES)
  else Ok plan.
Definition decode_loop_proposal (input : bytes) (max_bytes : Z) : outcome LoopProposal PlanError :=
  let* wire := parse_envelope loop_of_json input max_bytes in
  if negb (wire.(LoopProposalWire.version) =? 1) then Err (PlanError.UnknownVersion wire.(LoopProposalWire.version))
  else if (length wire.(LoopProposalWire.next_steps) =? 0)%nat then Err PlanError.EmptyPlan
  else if (MAX_LOOP_STEPS <? length wire.(LoopProposalWire.next_steps))%nat
  then Err (PlanError.TooManySteps (length wire.(LoopProposalWire.next_steps)) MAX_LOOP_STEPS)
  else Ok {| next_steps := wire.(LoopProposalWire.next_steps) |}.
Definition BOTH_ROUTES : bytes := str "a re-plan round must propose next_steps OR flag_human, not both".
Definition decode_replan_proposal (input : bytes) (max_bytes : Z) : outcome ReplanProposal PlanError :=
  let* wire := parse_envelope replan_of_json input max_bytes in
  if negb (wire.(ReplanWire.version) =? 1) then Err (PlanError.UnknownVersion wire.(ReplanWire.version))
  else
    let steps := wire.(ReplanWire.next_steps) in
    match (length steps =? 0)%nat, wire.(ReplanWire.flag_human) with
    | false, None =>
        if (MAX_LOOP_STEPS <? length steps)%nat then Err (PlanError.TooManySteps (length steps) MAX_LOOP_STEPS)
        else Ok (ReplanProposal.Topology {| next_steps := steps |})
    | true, Some reason =>
        if MAX_FLAG_HUMAN_BYTES <? Z.of_nat (length reason)
        then Err (PlanError.Oversize (Z.of_nat (length reason)) MAX_FLAG_HUMAN_BYTES)
        else Ok (ReplanProposal.FlagHuman reason)
    | true, None => Err PlanError.EmptyPlan
    | false, Some _ => Err (PlanError.Malformed BOTH_ROUTES)
    end.
End Decode.

(** ** Lowering *)
Definition seed_from_plan_bytes `{Blake3} (plan_bytes : bytes) : Z := from_le (take 4 (blake3 plan_bytes)).
Section Lower.
Variable parent_warrant : WarrantSpec.
(** The trait [RoleRegistry]. *)
Variable roles : bytes -> option Role.
Variable resolver : RoleRecipeResolver.
Definition grants (w : WarrantSpec) (tool : bytes * bytes) : bool :=
  bool_decide ({| ToolGrant.tool_id := tool.1; ToolGrant.tool_version := tool.2 |} ∈ w.(WarrantSpec.tool_grants)).
Definition resolve_step (role_id : bytes) : outcome (WarrantSpec * RoleRecipe) PlanError :=
  match roles role_id with
  | None => Err (PlanError.UnknownRole role_id)
  | Some role =>
      let* warrant := omap_err (PlanError.Ungrantable role_id) (intersect parent_warrant role) in
      match resolver role_id with
      | None => Err (PlanError.UnknownRecipe role_id)
      | Some recipe =>
          match List.find (fun t => negb (grants warrant t)) (btree_iter recipe.(RoleRecipe.tool_contract)) with
          | Some (name, version) => Err (PlanError.UngrantableTool role_id (name ++ str "@" ++ version))
          | None => Ok (warrant, recipe)
          end
      end
  end.
Definition config_with_intent (intent : bytes) : gmap bytes bytes := {[PROMPT_KEY := intent]}.
Definition valid_producer (step_index : nat) (producer : option nat) : outcome nat PlanError :=
  match producer with
  | Some p => if (p <? step_index)%nat then Ok p else Err (PlanError.InvalidProducer step_index producer)
  | None => Err (PlanError.InvalidProducer step_index producer)
  end.
Definition step_role_for (step_index : nat) (step : PlanStep) (recipe : RoleRecipe) (role_id : bytes) (refs : list StepRef)
    : outcome StepRole PlanError :=
  match step.(PlanStep.kind) with
  | PlanStepKind.Plain => Ok StepRole.Plain
  | PlanStepKind.TopologyShaper => Ok StepRole.TopologyShaper
  | PlanStepKind.Critic =>
      let* producer := valid_producer step_index step.(PlanStep.producer) in
      let* r := at_index refs producer in Ok (StepRole.Critic r)
  | PlanStepKind.DeterministicCritic =>
      let* producer := valid_producer step_index step.(PlanStep.producer) in
      match recipe.(RoleRecipe.deterministic_check) with
      | None => Err (PlanError.MissingCheck role_id)
      | Some check => let* r := at_index refs producer in Ok (StepRole.DeterministicCritic r check)
      end
  end.
Definition step_of_recipe (recipe : RoleRecipe) (intent : bytes) (role : StepRole) (warrant : WarrantSpec) : StepDef := {|
  StepDef.logic_ref := recipe.(RoleRecipe.logic_ref); StepDef.model_id := recipe.(RoleRecipe.model_id);
  StepDef.prompt_template_hash := recipe.(RoleRecipe.prompt_template_hash);
  StepDef.tool_contract := recipe.(RoleRecipe.tool_contract); StepDef.nd_class := recipe.(RoleRecipe.nd_class);
  StepDef.config_subset := config_with_intent intent; StepDef.effect_pattern := recipe.(RoleRecipe.effect_pattern);
  StepDef.inference_params := recipe.(RoleRecipe.inference_params); StepDef.role := role;
  StepDef.warrant := warrant; StepDef.capability := recipe.(RoleRecipe.capability) |}.
(** The first loop of [lower_plan]: the workflow, the references of its steps, the
    edges the critics need. *)
Definition critic_edge (role : StepRole) (step : PlanStep) (i : nat) : list (nat * nat) :=
  match role, step.(PlanStep.producer) with
  | (StepRole.Critic _ | StepRole.DeterministicCritic _ _), Some p => [(p, i)]
  | _, _ => []
  end.
Fixpoint lower_steps (i : nat) (ss : list PlanStep) (wf : WorkflowDef) (refs : list StepRef) (critic_edges : list (nat * nat))
    : outcome (WorkflowDef * list StepRef * list (nat * nat)) PlanError :=
  match ss with
  | [] => Ok (wf, refs, critic_edges)
  | s :: ss =>
      let* r := resolve_step s.(PlanStep.role) in
      let* role := step_role_for i s r.2 s.(PlanStep.role) refs in
      let '(ref, wf) := add_step (step_of_recipe r.2 s.(PlanStep.intent) role r.1) wf in
      lower_steps (Datatypes.S i) ss wf (refs ++ [ref]) (critic_edges ++ critic_edge role s i)
  end.
Fixpoint lower_edges (es : list PlanEdge) (refs : list StepRef) (declared : gset (nat * nat)) (wf : WorkflowDef)
    : outcome (WorkflowDef * gset (nat * nat)) PlanError :=
  match es with
  | [] => Ok (wf, declared)
  | e :: es =>
      match refs !! e.(PlanEdge.parent), refs !! e.(PlanEdge.child) with
      | None, _ => Err (PlanError.Compile (CompileError.StepIndexOutOfRange e.(PlanEdge.parent)))
      | _, None => Err (PlanError.Compile (CompileError.StepIndexOutOfRange e.(PlanEdge.child)))
      | Some parent, Some child =>
          let* wf := omap_err PlanError.Compile (add_edge parent child EdgeMeta_data wf) in
          lower_edges es refs ({[(e.(PlanEdge.parent), e.(PlanEdge.child))]} ∪ declared) wf
      end
  end.
Fixpoint wire_critics (ces : list (nat * nat)) (refs : list StepRef) (declared : gset (nat * nat)) (wf : WorkflowDef)
    : outcome WorkflowDef PlanError :=
  match ces with
  | [] => Ok wf
  | (producer, critic) :: ces =>
      if bool_decide ((producer, critic) ∈ declared) then wire_critics ces refs declared wf
      else
        let* p := at_index refs producer in
        let* c := at_index refs critic in
        let* wf := omap_err PlanError.Compile (add_edge p c EdgeMeta_data wf) in
        wire_critics ces refs declared wf
  end.
Definition lower_plan (plan : Plan) (seed : Z) : outcome WorkflowDef PlanError :=
  let* r := lower_steps 0 plan.(Plan.steps) (WorkflowDef_new seed) [] [] in
  let '(wf, refs, critic_edges) := r in
  let* d := lower_edges plan.(Plan.edges) refs ∅ wf in
  wire_critics critic_edges refs d.2 d.1.
Definition compile_plan `{Blake3, !Bincode MoteDef} (plan : Plan) (seed : Z) : outcome CompiledWorkflow PlanError :=
  let* wf := lower_plan plan seed in omap_err PlanError.Compile (compile wf).
(** The children of a loop round. *)
Fixpoint lower_children (ss : list PlanStep) : outcome (list ChildDescriptor) PlanError :=
  match ss with
  | [] => Ok []
  | s :: ss =>
      match resolver s.(PlanStep.role) with
      | None => Err (PlanError.UnknownRecipe s.(PlanStep.role))
      | Some recipe =>
          let* rest := lower_children ss in
          Ok ({| role_id := s.(PlanStep.role); child_logic_ref := recipe.(RoleRecipe.logic_ref);
                 child_nd_class := recipe.(RoleRecipe.nd_class); child_effect_pattern := recipe.(RoleRecipe.effect_pattern);
                 intent := s.(PlanStep.intent) |} :: rest)
      end
  end.
Definition lower_loop_to_topology_decision (proposal : LoopProposal) : outcome TopologyDecision PlanError :=
  let* children := lower_children proposal.(next_steps) in Ok {| Mote.children := children |}.
End Lower.
