(* ===== verification/PlannerFacts.v ===== *)
(** The planner's promises: a decoded proposal is within its caps, and a plan is
    compiled exactly when its roles, producers and edges allow it, into steps whose
    authority, code and tools come from the registered roles and never from the
    proposal. *)
From S2P Require Import Prelude Utf8 CriticTypes Mote Warrant Content DemoCodec Materializer Critic Digits ParamSchema Text Toolcall ToolcallFacts Workflow WorkflowFacts Planner.

Lemma intersect_no_panic parent role : intersect parent role <> Panic.
Proof. unfold intersect. by repeat (destruct (negb _); [done|]); destruct (_ || _). Qed.
Section Lowered.
Variable parent_warrant : WarrantSpec.
Variable roles : bytes -> option Role.
Variable resolver : RoleRecipeResolver.

(** ** Steps *)
(** What a role resolves to: its warrant under the parent's, its recipe, and every
    tool of the recipe granted. *)
Definition vetted (role_id : bytes) (w : WarrantSpec) (recipe : RoleRecipe) : Prop :=
  (exists role, roles role_id = Some role /\ intersect parent_warrant role = Ok w) /\ resolver role_id = Some recipe
  /\ forall name version, recipe.(RoleRecipe.tool_contract) !! name = Some version ->
       {| ToolGrant.tool_id := name; ToolGrant.tool_version := version |} ∈ w.(WarrantSpec.tool_grants).
Lemma resolve_step_spec role_id :
  match resolve_step parent_warrant roles resolver role_id with
  | Ok (w, recipe) => vetted role_id w recipe
  | Err _ => ~ exists w recipe, vetted role_id w recipe
  | Panic => False
  end.
Proof.
  unfold resolve_step, vetted. destruct (roles role_id) as [role|]; [|by intros (? & ? & (? & ? & _) & _)].
  pose proof (intersect_no_panic parent_warrant role) as Hnp.
  destruct (intersect parent_warrant role) as [w|e|] eqn:Hw; cbn [omap_err obind]; [| |done].
  2: { intros (w & recipe & (role' & [= <-] & ?) & _). congruence. }
  destruct (resolver role_id) as [recipe|]; [|by intros (? & ? & _ & ? & _)].
  destruct (List.find _ _) as [[n v]|] eqn:Hf.
  - apply find_some in Hf as [Hin Hg]. apply list_elem_of_In, elem_of_btree_iter in Hin. apply negb_true_iff, bool_decide_eq_false in Hg.
    intros (w' & recipe' & (role' & [= <-] & Hw') & [= <-] & Ht). rewrite Hw in Hw'. injection Hw' as <-. by apply Hg, Ht.
  - split_and!; [by exists role|done|]. intros n v Hnv. apply elem_of_btree_iter, list_elem_of_In in Hnv. apply (find_none _ _ Hf) in Hnv.
    apply negb_false_iff, bool_decide_eq_true in Hnv. exact Hnv.
Qed.
(** The structural role a proposed kind stands for, at step [i]. *)
Definition structural (i : nat) (s : PlanStep) (recipe : RoleRecipe) (role : StepRole) : Prop :=
  match s.(PlanStep.kind) with
  | PlanStepKind.Plain => role = StepRole.Plain
  | PlanStepKind.TopologyShaper => role = StepRole.TopologyShaper
  | PlanStepKind.Critic => exists p, s.(PlanStep.producer) = Some p /\ (p < i)%nat /\ role = StepRole.Critic p
  | PlanStepKind.DeterministicCritic => exists p check, s.(PlanStep.producer) = Some p /\ (p < i)%nat
      /\ recipe.(RoleRecipe.deterministic_check) = Some check /\ role = StepRole.DeterministicCritic p check
  end.
Lemma step_role_spec i s recipe id :
  match step_role_for i s recipe id (seq 0 i) with
  | Ok role => structural i s recipe role
  | Err _ => ~ exists role, structural i s recipe role
  | Panic => False
  end.
Proof.
  unfold step_role_for, structural, valid_producer. destruct s.(PlanStep.kind); [done| | |done];
    (destruct s.(PlanStep.producer) as [p|]; cbn [obind]; [|naive_solver]);
    (destruct (p <? i)%nat eqn:Hp; cbn [obind]; [apply Nat.ltb_lt in Hp|apply Nat.ltb_ge in Hp; naive_solver lia]).
  - unfold at_index. rewrite lookup_seq_lt by done. cbn [obind]. by exists p.
  - destruct recipe.(RoleRecipe.deterministic_check) as [check|]; [|naive_solver]. unfold at_index. rewrite lookup_seq_lt by done. cbn [obind]. by exists p, check.
Qed.
Definition planned (i : nat) (s : PlanStep) (d : StepDef) : Prop :=
  exists w recipe role, vetted s.(PlanStep.role) w recipe /\ structural i s recipe role
    /\ d = step_of_recipe recipe s.(PlanStep.intent) role w.
Lemma vetted_unique id w1 r1 w2 r2 : vetted id w1 r1 -> vetted id w2 r2 -> w1 = w2 /\ r1 = r2.
Proof. intros [(ro1 & H1 & I1) [H2 _]] [(ro2 & H3 & I2) [H4 _]]. simplify_eq. split; congruence. Qed.

(** The edges the critics need. *)
Definition critic_pair (i : nat) (s : PlanStep) : list (nat * nat) :=
  match s.(PlanStep.kind), s.(PlanStep.producer) with
  | (PlanStepKind.Critic | PlanStepKind.DeterministicCritic), Some p => [(p, i)]
  | _, _ => []
  end.
Fixpoint critic_pairs (i : nat) (ss : list PlanStep) : list (nat * nat) :=
  match ss with [] => [] | s :: ss => critic_pair i s ++ critic_pairs (Datatypes.S i) ss end.
Lemma critic_edge_pair i s recipe role : structural i s recipe role -> critic_edge role s i = critic_pair i s.
Proof.
  unfold structural, critic_edge, critic_pair. destruct s.(PlanStep.kind); [by intros ->| | |by intros ->].
  - by intros (p & -> & _ & ->).
  - by intros (p & check & -> & _ & _ & ->).
Qed.
Fixpoint all_planned (i : nat) (ss : list PlanStep) (ds : list StepDef) : Prop :=
  match ss, ds with
  | [], [] => True
  | s :: ss, d :: ds => planned i s d /\ all_planned (Datatypes.S i) ss ds
  | _, _ => False
  end.
Lemma lower_steps_spec ss : forall i wf ces, length wf.(WorkflowDef.steps) = i ->
  match lower_steps parent_warrant roles resolver i ss wf (seq 0 i) ces with
  | Ok (wf', refs, ces') => exists ds, all_planned i ss ds /\ wf' = set_steps (wf.(WorkflowDef.steps) ++ ds) wf
      /\ refs = seq 0 (i + length ss) /\ ces' = ces ++ critic_pairs i ss
  | Err _ => ~ exists ds, all_planned i ss ds
  | Panic => False
  end.
Proof.
  induction ss as [|s ss IH]; intros i wf ces Hi; cbn [lower_steps].
  { exists []. rewrite !app_nil_r, Nat.add_0_r. split_and!; [done|by destruct wf|done|done]. }
  pose proof (resolve_step_spec s.(PlanStep.role)) as Hv.
  destruct (resolve_step _ _ _ _) as [[w recipe]|e|]; cbn [obind fst snd]; [| |done].
  2: { intros ([|d ds] & Hp); [done|]. destruct Hp as [(w & r & ? & Hp & _) _]. naive_solver. }
  pose proof (step_role_spec i s recipe s.(PlanStep.role)) as Hr. destruct (step_role_for _ _ _ _ _) as [role|e|]; cbn [obind]; [| |done].
  2: { intros ([|d ds] & Hp); [done|]. destruct Hp as [(w' & r' & role & Hp & Hs & _) _]. destruct (vetted_unique _ _ _ _ _ Hv Hp) as [<- <-]. naive_solver. }
  set (d := step_of_recipe _ _ _ _). assert (Hd : planned i s d) by (by exists w, recipe, role).
  cbn [add_step]. rewrite Hi. replace (seq 0 i ++ [i]) with (seq 0 (Datatypes.S i)) by (rewrite seq_S; done).
  specialize (IH (Datatypes.S i) (set_steps (wf.(WorkflowDef.steps) ++ [d]) wf) (ces ++ critic_edge role s i)).
  cbn [set_steps WorkflowDef.steps] in IH. rewrite length_app, Hi in IH. specialize (IH ltac:(cbn; lia)).
  destruct (lower_steps _ _ _ _ _ _ _ _) as [[[wf' refs] ces']|e|]; [| |done].
  - destruct IH as (ds & Ha & -> & -> & ->). exists (d :: ds). split_and!; [done| | |].
    + unfold set_steps. cbn. by rewrite <- app_assoc.
    + f_equal. cbn. lia.
    + rewrite (critic_edge_pair _ _ _ _ Hr), <- app_assoc. done.
  - intros ([|d' ds] & Hp); [done|]. destruct Hp as [_ Hp]. apply IH. by exists ds.
Qed.

(** ** Edges *)
Definition edge_pairs (es : list PlanEdge) : list (nat * nat) := (fun e => (e.(PlanEdge.parent), e.(PlanEdge.child))) <$> es.
Lemma lower_edges_spec ss seed es : forall ps declared, pairs_ok (length ss) ps ->
  match lower_edges es (seq 0 (length ss)) declared (wired ss seed ps) with
  | Ok (wf, declared') => pairs_ok (length ss) (ps ++ edge_pairs es) /\ wf = wired ss seed (ps ++ edge_pairs es)
      /\ declared' = declared ∪ list_to_set (edge_pairs es)
  | Err _ => ~ pairs_ok (length ss) (ps ++ edge_pairs es)
  | Panic => False
  end.
Proof.
  induction es as [|[p c] es IH]; intros ps declared Hok; cbn [lower_edges edge_pairs fmap list_fmap PlanEdge.parent PlanEdge.child].
  { rewrite app_nil_r. split_and!; [done|done|set_solver]. }
  assert (Hseq : forall i, seq 0 (length ss) !! i = if (i <? length ss)%nat then Some i else None).
  { intros i. destruct (i <? length ss)%nat eqn:Hi; [apply Nat.ltb_lt in Hi; by rewrite lookup_seq_lt|]. apply Nat.ltb_ge in Hi.
    apply lookup_ge_None_2. by rewrite length_seq. }
  rewrite !Hseq. destruct (p <? length ss)%nat eqn:Hp; [|intros Hx%pairs_ok_mid; apply Nat.ltb_ge in Hp; lia].
  destruct (c <? length ss)%nat eqn:Hc; [|intros Hx%pairs_ok_mid; apply Nat.ltb_ge in Hc; lia].
  pose proof (add_edge_wired ss seed ps p c) as Hadd. destruct (add_edge _ _ _ _) as [wf|e|]; cbn [omap_err obind]; [| |done].
  2: { intros Hx%pairs_ok_mid. tauto. }
  destruct Hadd as (-> & Hp' & Hc' & Hno). specialize (IH (ps ++ [(p, c)]) ({[(p, c)]} ∪ declared) (pairs_ok_snoc _ _ _ _ Hok Hp' Hc' Hno)).
  rewrite <- app_assoc in IH. destruct (lower_edges _ _ _ _) as [[wf d]|e|]; [|done|done].
  destruct IH as (H1 & -> & ->). split_and!; [done|done|]. cbn [edge_pairs fmap list_fmap list_to_set]. set_solver.
Qed.
Definition undeclared (declared : gset (nat * nat)) (ces : list (nat * nat)) : list (nat * nat) :=
  List.filter (fun x => negb (bool_decide (x ∈ declared))) ces.
Lemma wire_critics_spec ss seed declared ces : pairs_ok (length ss) ces -> forall ps,
  (forall x, x ∈ ces -> x ∉ declared -> x ∉ ps) ->
  wire_critics ces (seq 0 (length ss)) declared (wired ss seed ps) = Ok (wired ss seed (ps ++ undeclared declared ces)).
Proof.
  induction ces as [|[p c] ces IH]; intros [Hr Hn] ps Hps; cbn [wire_critics undeclared List.filter]; [by rewrite app_nil_r|].
  apply Forall_cons in Hr as [[Hp Hc] Hr]. cbn in Hp, Hc. apply NoDup_cons in Hn as [Hx Hn].
  case_bool_decide as Hd; cbn [negb]; [apply IH; [done|set_solver]|].
  unfold at_index. rewrite !lookup_seq_lt by done. cbn [obind]. pose proof (add_edge_wired ss seed ps p c) as Hadd. cbn [Nat.add] in *.
  assert (Hno : (p, c) ∉ ps) by (apply Hps; [left|done]). destruct (add_edge _ _ _ _) as [wf|e|]; [|tauto|done].
  destruct Hadd as (-> & _). cbn [omap_err obind]. rewrite IH; [by rewrite <- app_assoc|done|].
  intros x Hxc Hxd. rewrite elem_of_app, list_elem_of_singleton. intros [?| ->]; [|done]. by eapply Hps; [right|..].
Qed.
Lemma critic_pair_at i s x : x ∈ critic_pair i s -> x.2 = i.
Proof. unfold critic_pair. destruct s.(PlanStep.kind), s.(PlanStep.producer); intros Hx; (by apply not_elem_of_nil in Hx) || by apply list_elem_of_singleton in Hx as ->. Qed.
Lemma critic_pairs_ok ss : forall i ds, all_planned i ss ds -> pairs_ok (i + length ss) (critic_pairs i ss) /\ Forall (fun x => (i <= x.2)%nat) (critic_pairs i ss).
Proof.
  induction ss as [|s ss IH]; intros i [|d ds] Hp; try done; [split; [split|]; constructor|]. destruct Hp as [(w & recipe & role & _ & Hs & _) Hp].
  destruct (IH _ _ Hp) as [[Hr Hn] Hge]. cbn [critic_pairs length]. replace (i + Datatypes.S (length ss))%nat with (Datatypes.S i + length ss)%nat by lia.
  assert (Hone : Forall (fun x => x.1 < i)%nat (critic_pair i s) /\ NoDup (critic_pair i s)).
  { unfold structural, critic_pair in *. destruct s.(PlanStep.kind); [split; constructor|destruct Hs as (p & -> & Hs & _)|destruct Hs as (p & ? & -> & Hs & _)|split; constructor];
    (split; [by repeat constructor|apply NoDup_singleton]). }
  destruct Hone as [Hone Hnd]. rewrite Forall_forall in Hone, Hge. split; [split|].
  - apply Forall_app. split; [|done]. apply Forall_forall. intros x Hx. specialize (Hone x Hx). apply critic_pair_at in Hx. lia.
  - apply NoDup_app. split_and!; [done| |done]. intros x Hx Hy. apply critic_pair_at in Hx. apply Hge in Hy. lia.
  - apply Forall_app. split; apply Forall_forall; intros x Hx; [apply critic_pair_at in Hx; lia|apply Hge in Hx; lia].
Qed.

(** ** Plans *)
Definition plan_pairs (plan : Plan) : list (nat * nat) :=
  edge_pairs plan.(Plan.edges) ++ undeclared (list_to_set (edge_pairs plan.(Plan.edges))) (critic_pairs 0 plan.(Plan.steps)).
(** Every step can be granted and built, and the edges are between steps, each once. *)
Definition lowerable (plan : Plan) : Prop :=
  (exists ds, all_planned 0 plan.(Plan.steps) ds) /\ pairs_ok (length plan.(Plan.steps)) (edge_pairs plan.(Plan.edges)).
Lemma all_planned_length ss : forall i ds, all_planned i ss ds -> length ds = length ss.
Proof. induction ss as [|s ss IH]; intros i [|d ds] Hp; try done. cbn. f_equal. by apply (IH (Datatypes.S i)), Hp. Qed.
Lemma all_planned_lookup ss : forall i ds k d, all_planned i ss ds -> ds !! k = Some d ->
  exists s, ss !! k = Some s /\ planned (i + k) s d /\ forall p, producer_of d = Some p -> (p, i + k)%nat ∈ critic_pairs i ss.
Proof.
  induction ss as [|s ss IH]; intros i [|d0 ds] k d Hp Hk; try done. destruct Hp as [Hs Hp]. destruct k as [|k]; cbn in Hk.
  - injection Hk as ->. exists s. rewrite Nat.add_0_r. split_and!; [done|done|]. intros p Hpr. cbn [critic_pairs]. apply elem_of_app. left.
    destruct Hs as (w & recipe & role & _ & Hs & ->). unfold producer_of, step_of_recipe in Hpr. cbn in Hpr. unfold structural, critic_pair in *.
    destruct s.(PlanStep.kind); [by subst role| | |by subst role].
    + destruct Hs as (q & -> & _ & ->). injection Hpr as <-. left.
    + destruct Hs as (q & check & -> & _ & _ & ->). injection Hpr as <-. left.
  - destruct (IH _ _ _ _ Hp Hk) as (s' & Hs' & Hpl & Hc). exists s'. rewrite <- Nat.add_succ_comm. split_and!; [done|done|].
    intros p Hpr. cbn [critic_pairs]. apply elem_of_app. right. by apply Hc.
Qed.
Lemma undeclared_ok n ps ces : pairs_ok n ps -> pairs_ok n ces -> pairs_ok n (ps ++ undeclared (list_to_set ps) ces).
Proof.
  intros [H1 H2] [H3 H4]. unfold undeclared. assert (Hin : forall x, x ∈ List.filter (fun x => negb (bool_decide (x ∈ (list_to_set ps : gset _)))) ces -> x ∈ ces /\ x ∉ ps).
  { intros x Hx. apply list_elem_of_In, filter_In in Hx as [Hx Hb]. apply list_elem_of_In in Hx. apply negb_true_iff, bool_decide_eq_false in Hb.
    by rewrite elem_of_list_to_set in Hb. }
  rewrite Forall_forall in H3. split.
  - apply Forall_app. split; [done|]. apply Forall_forall. intros x Hx. by apply H3, Hin.
  - apply NoDup_app. split_and!; [done| |by apply NoDup_ListNoDup, List.NoDup_filter, NoDup_ListNoDup]. intros x Hx Hy. by apply Hin in Hy as [_ Hy].
Qed.
Lemma lower_plan_spec plan seed :
  match lower_plan parent_warrant roles resolver plan seed with
  | Ok wf => lowerable plan /\ exists ds, all_planned 0 plan.(Plan.steps) ds /\ wf = wired ds seed (plan_pairs plan)
      /\ pairs_ok (length ds) (plan_pairs plan)
  | Err _ => ~ lowerable plan
  | Panic => False
  end.
Proof.
  unfold lower_plan, lowerable. pose proof (lower_steps_spec plan.(Plan.steps) 0 (WorkflowDef_new seed) [] eq_refl) as Hs. cbn [seq] in Hs.
  destruct (lower_steps _ _ _ _ _ _ _ _) as [[[wf refs] ces]|e|]; cbn [obind]; [|tauto|done].
  destruct Hs as (ds & Hds & -> & -> & ->). pose proof (all_planned_length _ _ _ Hds) as Hlen. cbn [Nat.add app]. rewrite <- Hlen.
  change (set_steps _ (WorkflowDef_new seed)) with (wired ds seed []).
  pose proof (lower_edges_spec ds seed plan.(Plan.edges) [] ∅ (conj (Forall_nil_2 _) (NoDup_nil_2))) as He. cbn [app] in He.
  destruct (lower_edges _ _ _ _) as [[wf d]|e|]; cbn [obind fst snd]; [|tauto|done]. destruct He as (Hok & -> & ->).
  destruct (critic_pairs_ok _ _ _ Hds) as [Hces _]. cbn [Nat.add] in Hces. rewrite <- Hlen in Hces. rewrite union_empty_l_L.
  rewrite wire_critics_spec; [|done|by intros x _ Hx; rewrite elem_of_list_to_set in Hx].
  split; [split; [by exists ds|done]|]. exists ds. split_and!; [done|done|]. by apply undeclared_ok.
Qed.

(** ** The compiled plan *)
Section Compiled.
Context `{Blake3} `{!Bincode MoteDef}.
(** A compiled step: the proposal chose its role, its intent and its place; all
    else is the role's recipe, under the warrant the role has within the parent's. *)
Definition confined (plan : Plan) (m : CompiledMote) : Prop :=
  exists s w recipe role critic_for,
    plan.(Plan.steps) !! m.(CompiledMote.step_index) = Some s
    /\ vetted s.(PlanStep.role) w recipe /\ structural m.(CompiledMote.step_index) s recipe role
    /\ m.(CompiledMote.warrant) = w /\ warrant_le w parent_warrant
    /\ (forall name version, m.(CompiledMote.mote).(def).(tool_contract) !! name = Some version ->
          {| ToolGrant.tool_id := name; ToolGrant.tool_version := version |} ∈ parent_warrant.(WarrantSpec.tool_grants))
    /\ m.(CompiledMote.capability) = recipe.(RoleRecipe.capability)
    /\ m.(CompiledMote.mote).(def) = {|
         logic_ref := recipe.(RoleRecipe.logic_ref); model_id := recipe.(RoleRecipe.model_id);
         prompt_template_hash := recipe.(RoleRecipe.prompt_template_hash); tool_contract := recipe.(RoleRecipe.tool_contract);
         nd_class := recipe.(RoleRecipe.nd_class); config_subset := {[PROMPT_KEY := s.(PlanStep.intent)]};
         effect_pattern := recipe.(RoleRecipe.effect_pattern); Mote.critic_for := critic_for;
         is_topology_shaper := match role with StepRole.TopologyShaper => true | _ => false end;
         inference_params := recipe.(RoleRecipe.inference_params);
         critic_check := match role with StepRole.DeterministicCritic _ check => Some check | _ => None end;
         schema_version := MOTE_DEF_SCHEMA_VERSION |}.
Lemma compiled_confined plan seed ds ms k m : all_planned 0 plan.(Plan.steps) ds -> compiled_at (wired ds seed (plan_pairs plan)) ms k m -> confined plan m.
Proof.
  intros Hds (d & cf & links & Hd & Hw & Hcap & _ & _ & Hm). cbn [wired WorkflowDef.steps] in Hd.
  destruct (all_planned_lookup _ _ _ _ _ Hds Hd) as (s & Hs & (w & recipe & role & Hv & Hr & ->) & _). cbn [Nat.add] in Hr.
  assert (Hle : warrant_le w parent_warrant) by (destruct Hv as [(ro & _ & Hi) _]; by eapply intersect_le).
  exists s, w, recipe, role, cf. split_and!; [done|done|done|done|done| |done|by rewrite Hm].
  rewrite Hm. cbn. intros n v Hnv. destruct Hle as [_ _ _ Ht _ _ _ _ _]. apply Ht. by apply Hv.
Qed.
(** [C23] A plan is compiled exactly when every role it names is registered and can be
    granted under the parent's warrant, critics come after their producers and the
    edges, with the ones critics need, form a DAG. Then each of its steps is one
    Mote, confined to the parent's authority and granted tools and built from the
    recipe of its role, the intent apart. *)
Theorem planned_steps_confined plan seed :
  match compile_plan parent_warrant roles resolver plan seed with
  | Ok cw => lowerable plan /\ acyclic (link <$> plan_pairs plan)
      /\ CompiledMote.step_index <$> cw.(motes) ≡ₚ seq 0 (length plan.(Plan.steps)) /\ Forall (confined plan) cw.(motes)
  | Err _ => ~ (lowerable plan /\ acyclic (link <$> plan_pairs plan))
  | Panic => False
  end.
Proof.
  unfold compile_plan. pose proof (lower_plan_spec plan seed) as Hl. destruct (lower_plan _ _ _ _ _) as [wf|e|]; cbn [obind]; [|tauto|done].
  destruct Hl as (Hlow & ds & Hds & -> & Hok). apply links_ok in Hok. pose proof (all_planned_length _ _ _ Hds) as Hlen.
  destruct (compile_spec (wired ds seed (plan_pairs plan))) as (Hnp & Hgood & Hdag). cbn [wired WorkflowDef.steps WorkflowDef.edges] in Hgood, Hdag.
  destruct (compile (wired ds seed (plan_pairs plan))) as [cw|e|]; cbn [omap_err]; [| |done].
  - destruct (Hgood _ eq_refl) as (_ & Hac & Hidx & Hat). rewrite Hlen in Hidx. split_and!; [done|done|done|]. apply Forall_forall. intros m Hm.
    apply list_elem_of_lookup in Hm as [k Hk]. eapply compiled_confined; [done|by eapply Hat].
  - intros [_ Hac]. destruct Hdag as [cw Hcw]; [done|done| |done]. intros i d p Hi Hp.
    destruct (all_planned_lookup _ _ _ _ _ Hds Hi) as (s & _ & _ & Hc). apply tc_once. unfold depends. rewrite pair_of_links. unfold plan_pairs.
    specialize (Hc p Hp). cbn [Nat.add] in Hc. apply elem_of_app. unfold undeclared.
    destruct (decide ((p, i) ∈ edge_pairs plan.(Plan.edges))) as [|Hno]; [by left|right].
    apply list_elem_of_In, filter_In. split; [by apply list_elem_of_In|]. by rewrite bool_decide_false by (by rewrite elem_of_list_to_set).
Qed.
End Compiled.
End Lowered.

(** ** The children of a loop round *)
Lemma lower_children_spec resolver ss :
  match lower_children resolver ss with
  | Ok cs => Forall2 (fun s c => exists recipe, resolver s.(PlanStep.role) = Some recipe
      /\ c = {| role_id := s.(PlanStep.role); child_logic_ref := recipe.(RoleRecipe.logic_ref); child_nd_class := recipe.(RoleRecipe.nd_class);
                child_effect_pattern := recipe.(RoleRecipe.effect_pattern); intent := s.(PlanStep.intent) |}) ss cs
  | Err _ => exists s, s ∈ ss /\ resolver s.(PlanStep.role) = None
  | Panic => False
  end.
Proof.
  induction ss as [|s ss IH]; cbn [lower_children]; [done|]. destruct (resolver s.(PlanStep.role)) as [recipe|] eqn:Hr; [|exists s; split; [left|done]].
  destruct (lower_children resolver ss) as [cs|e|]; cbn [obind]; [constructor; [by exists recipe|done]| |done].
  destruct IH as (s' & Hs' & Hn). exists s'. split; [by right|done].
Qed.

(** ** Decoding *)
Lemma trim_length s : (length (trim s) <= length s)%nat.
Proof.
  unfold trim. destruct (utf8_chars s) as [cs|] eqn:E; [|done]. apply utf8_chars_sound in E as [_ <-].
  etransitivity; [|apply drop_white_length]. destruct (drop_white_suffix (rev (drop_white cs))) as [ws Hw].
  rewrite <- (rev_involutive (drop_white cs)) at 2. rewrite Hw at 2. rewrite rev_app_distr, concat_app, length_app. lia.
Qed.
Lemma strip_block_length t tags : (length (strip_block t tags) <= length t)%nat.
Proof.
  induction tags as [|[o c] tags IH]; cbn [strip_block]; [done|]. destruct (strip_prefix t o) as [rest|] eqn:E; [|done].
  apply strip_prefix_spec in E as ->. destruct (find rest c) as [i|]; [|cbn; lia].
  etransitivity; [apply trim_start_length|]. rewrite length_drop, length_app. lia.
Qed.
Lemma plan_fence_length t : (length (plan_fence t) <= length t)%nat.
Proof.
  unfold plan_fence. pose proof (trim_length t) as Ht. destruct (strip_prefix (trim t) FENCE) as [rest|] eqn:E; [|done].
  apply strip_prefix_spec in E. rewrite E, length_app in Ht. set (inner := match find_byte 10 rest with Some nl => _ | None => _ end).
  assert (Hi : (length inner <= length rest)%nat) by (subst inner; destruct (find_byte 10 rest); rewrite ?length_drop; lia).
  destruct (rfind inner FENCE) as [i|]; (etransitivity; [apply trim_length|]); rewrite ?length_take; lia.
Qed.
Lemma plan_envelope_length t : (length (plan_envelope t) <= length t)%nat.
Proof.
  unfold plan_envelope, plan_preamble. etransitivity; [apply plan_fence_length|]. etransitivity; [apply strip_block_length|apply trim_start_length].
Qed.
Section Decoded.
Context `{PlanJson}.
(** A text within the cap that parses as [a]. *)
Definition parses {A : Type} (parse : bytes -> A + bytes) (input : bytes) (max : Z) (a : A) : Prop :=
  Z.of_nat (length input) <= max /\ utf8_valid input = true /\ parse (plan_envelope input) = inl a.
Lemma parse_envelope_spec {A} (parse : bytes -> A + bytes) input max :
  match parse_envelope parse input max with
  | Ok a => parses parse input max a
  | Err _ => ~ exists a, parses parse input max a
  | Panic => False
  end.
Proof.
  unfold parse_envelope, parses. destruct (max <? _) eqn:Hm; [apply Z.ltb_lt in Hm; intros (a & ? & _); lia|]. apply Z.ltb_ge in Hm.
  destruct (utf8_valid input); cbn [negb]; [|by intros (a & _ & ? & _)]. destruct (parse (plan_envelope input)) as [a|e]; [done|by intros (a & _ & _ & ?)].
Qed.
Lemma parses_unique {A} (parse : bytes -> A + bytes) input max a b : parses parse input max a -> parses parse input max b -> a = b.
Proof. intros (_ & _ & H1) (_ & _ & H2). congruence. Qed.
Definition small_round (ss : list PlanStep) : Prop := (1 <= length ss <= MAX_LOOP_STEPS)%nat.
Lemma decode_plan_spec input max : decode_plan input max <> Panic /\ forall plan,
  decode_plan input max = Ok plan <-> parses plan_of_json input max plan /\ plan.(Plan.version) = 1
    /\ (1 <= length plan.(Plan.steps) <= MAX_PLAN_STEPS)%nat /\ (length plan.(Plan.edges) <= MAX_PLAN_EDGES)%nat.
Proof.
  unfold decode_plan. pose proof (parse_envelope_spec plan_of_json input max) as H1.
  destruct (parse_envelope _ _ _) as [p|e|]; cbn [obind]; [|naive_solver|done].
  destruct (p.(Plan.version) =? 1) eqn:E1; cbn [negb]; [apply Z.eqb_eq in E1|apply Z.eqb_neq in E1; split; [done|]; intros plan; split; [done|intros (Hp & ? & _); by rewrite (parses_unique _ _ _ _ _ H1 Hp) in E1]].
  destruct (length p.(Plan.steps) =? 0)%nat eqn:E2; [apply Nat.eqb_eq in E2|apply Nat.eqb_neq in E2].
  { split; [done|]. intros plan. split; [done|]. intros (Hp & _ & ? & _). rewrite (parses_unique _ _ _ _ _ H1 Hp) in E2. lia. }
  destruct (MAX_PLAN_STEPS <? _)%nat eqn:E3; [apply Nat.ltb_lt in E3|apply Nat.ltb_ge in E3].
  { split; [done|]. intros plan. split; [done|]. intros (Hp & _ & ? & _). rewrite (parses_unique _ _ _ _ _ H1 Hp) in E3. lia. }
  destruct (MAX_PLAN_EDGES <? _)%nat eqn:E4; [apply Nat.ltb_lt in E4|apply Nat.ltb_ge in E4].
  { split; [done|]. intros plan. split; [done|]. intros (Hp & _ & _ & ?). rewrite (parses_unique _ _ _ _ _ H1 Hp) in E4. lia. }
  split; [done|]. intros plan. split; [intros [= <-]; split_and!; (done || lia)|]. intros (Hp & _). by rewrite (parses_unique _ _ _ _ _ H1 Hp).
Qed.
Lemma decode_loop_spec input max : decode_loop_proposal input max <> Panic /\ forall p,
  decode_loop_proposal input max = Ok p <->
    exists wire, parses loop_of_json input max wire /\ wire.(LoopProposalWire.version) = 1
      /\ small_round wire.(LoopProposalWire.next_steps) /\ p = {| next_steps := wire.(LoopProposalWire.next_steps) |}.
Proof.
  unfold decode_loop_proposal, small_round. pose proof (parse_envelope_spec loop_of_json input max) as H1.
  destruct (parse_envelope _ _ _) as [w|e|]; cbn [obind]; [|naive_solver|done].
  destruct (w.(LoopProposalWire.version) =? 1) eqn:E1; cbn [negb]; [apply Z.eqb_eq in E1|apply Z.eqb_neq in E1].
  2: { split; [done|]. intros p. split; [done|]. intros (w' & Hp & ? & _). by rewrite (parses_unique _ _ _ _ _ H1 Hp) in E1. }
  destruct (length w.(LoopProposalWire.next_steps) =? 0)%nat eqn:E2; [apply Nat.eqb_eq in E2|apply Nat.eqb_neq in E2].
  { split; [done|]. intros p. split; [done|]. intros (w' & Hp & _ & ? & _). rewrite (parses_unique _ _ _ _ _ H1 Hp) in E2. lia. }
  destruct (MAX_LOOP_STEPS <? _)%nat eqn:E3; [apply Nat.ltb_lt in E3|apply Nat.ltb_ge in E3].
  { split; [done|]. intros p. split; [done|]. intros (w' & Hp & _ & ? & _). rewrite (parses_unique _ _ _ _ _ H1 Hp) in E3. lia. }
  split; [done|]. intros p. split; [intros [= <-]; exists w; split_and!; (done || lia)|]. intros (w' & Hp & _ & _ & ->). by rewrite (parses_unique _ _ _ _ _ H1 Hp).
Qed.
Definition replan_wire_ok (wire : ReplanWire) (r : ReplanProposal) : Prop :=
  wire.(ReplanWire.version) = 1
  /\ match r with
     | ReplanProposal.Topology p => wire.(ReplanWire.flag_human) = None /\ small_round p.(next_steps)
         /\ p = {| next_steps := wire.(ReplanWire.next_steps) |}
     | ReplanProposal.FlagHuman reason => wire.(ReplanWire.flag_human) = Some reason /\ wire.(ReplanWire.next_steps) = []
         /\ Z.of_nat (length reason) <= MAX_FLAG_HUMAN_BYTES
     end.
Lemma decode_replan_spec input max : decode_replan_proposal input max <> Panic /\ forall r,
  decode_replan_proposal input max = Ok r <-> exists wire, parses replan_of_json input max wire /\ replan_wire_ok wire r.
Proof.
  unfold decode_replan_proposal. pose proof (parse_envelope_spec replan_of_json input max) as H1.
  destruct (parse_envelope _ _ _) as [w|e|]; cbn [obind]; [|naive_solver|done].
  assert (Hw : forall r, (exists wire, parses replan_of_json input max wire /\ replan_wire_ok wire r) <-> replan_wire_ok w r).
  { intros r. split; [|by exists w]. intros (w' & Hp & Hr). by rewrite (parses_unique _ _ _ _ _ H1 Hp). }
  setoid_rewrite Hw. clear Hw. unfold replan_wire_ok, small_round.
  destruct (w.(ReplanWire.version) =? 1) eqn:E1; cbn [negb]; [apply Z.eqb_eq in E1|apply Z.eqb_neq in E1; naive_solver].
  destruct (length w.(ReplanWire.next_steps) =? 0)%nat eqn:E2; [apply Nat.eqb_eq, nil_length_inv in E2|apply Nat.eqb_neq in E2];
    destruct w.(ReplanWire.flag_human) as [reason|] eqn:E3.
  - destruct (MAX_FLAG_HUMAN_BYTES <? _) eqn:E4; [apply Z.ltb_lt in E4|apply Z.ltb_ge in E4]; (split; [done|]);
      intros [p|r]; (split; [intros [= <-] || done|]); naive_solver lia.
  - split; [done|]. intros [p|r]; (split; [done|]); rewrite E2; [|naive_solver]. intros (_ & _ & Hl & ->). cbn in Hl. lia.
  - split; [done|]. intros [p|r]; (split; [done|]); [naive_solver|]. intros (_ & _ & Hl & _). rewrite Hl in E2. cbn in E2. lia.
  - destruct (MAX_LOOP_STEPS <? _)%nat eqn:E4; [apply Nat.ltb_lt in E4|apply Nat.ltb_ge in E4]; (split; [done|]);
      intros [p|r]; (split; [intros [= <-] || done|]); try naive_solver.
    + intros (_ & _ & Hl & ->). cbn in Hl. lia.
    + split_and!; (done || cbn; lia).
Qed.
(** [C24] A proposal is accepted exactly when it is a JSON envelope of the wanted shape
    within the byte cap, of version 1, with a number of steps and edges within the
    caps; a re-planning round has steps or a short reason for a human and not both.
    Nothing panics, and what is parsed is no longer than what was capped. *)
Theorem proposals_within_caps input max :
  (forall plan, decode_plan input max = Ok plan <-> parses plan_of_json input max plan /\ plan.(Plan.version) = 1
     /\ (1 <= length plan.(Plan.steps) <= MAX_PLAN_STEPS)%nat /\ (length plan.(Plan.edges) <= MAX_PLAN_EDGES)%nat)
  /\ (forall p, decode_loop_proposal input max = Ok p <->
        exists wire, parses loop_of_json input max wire /\ wire.(LoopProposalWire.version) = 1
          /\ small_round wire.(LoopProposalWire.next_steps) /\ p = {| next_steps := wire.(LoopProposalWire.next_steps) |})
  /\ (forall r, decode_replan_proposal input max = Ok r <-> exists wire, parses replan_of_json input max wire /\ replan_wire_ok wire r)
  /\ decode_plan input max <> Panic /\ decode_loop_proposal input max <> Panic /\ decode_replan_proposal input max <> Panic
  /\ (length (plan_envelope input) <= length input)%nat.
Proof.
  destruct (decode_plan_spec input max) as [P1 H1], (decode_loop_spec input max) as [P2 H2], (decode_replan_spec input max) as [P3 H3].
  split_and!; [done..|apply plan_envelope_length].
Qed.
(** An answer whose reasoning is never closed leaves nothing to parse, and is refused. *)
Lemma empty_envelope_refused input max : plan_envelope input = [] ->
  (exists e, decode_plan input max = Err e) /\ (exists e, decode_loop_proposal input max = Err e) /\ exists e, decode_replan_proposal input max = Err e.
Proof.
  intros He. destruct empty_is_no_json as ([e1 H1] & [e2 H2] & [e3 H3]).
  unfold decode_plan, decode_loop_proposal, decode_replan_proposal, parse_envelope. rewrite He, H1, H2, H3.
  destruct (max <? _); [by split_and!; eexists|]. by destruct (negb _); split_and!; eexists.
Qed.
End Decoded.

(** ** Witnesses *)
Definition demo_params : InferenceParams := {| Mote.max_output_tokens := 8; temperature_bps := 0; top_p_bps := 0; top_k := 0; Mote.seed := 0; stop_tokens := []; grammar := None |}.
Definition demo_recipe : RoleRecipe := {|
  RoleRecipe.logic_ref := replicate 32 1; RoleRecipe.model_id := str "m"; RoleRecipe.prompt_template_hash := replicate 32 2;
  RoleRecipe.tool_contract := ∅; RoleRecipe.capability := str "kx-model"; RoleRecipe.nd_class := Pure;
  RoleRecipe.effect_pattern := IdempotentByConstruction; RoleRecipe.inference_params := demo_params;
  RoleRecipe.deterministic_check := None |}.
Definition demo_recipes : InMemoryRoleRecipes := register_recipe (str "r") demo_recipe InMemoryRoleRecipes_new.
Definition demo_roles : InMemoryRoleRegistry := register InMemoryRoleRegistry_new (str "r") (demo_role 7 FsMode.ReadOnly).
Definition demo_step (kind : PlanStepKind) (producer : option nat) : PlanStep :=
  {| PlanStep.role := str "r"; PlanStep.intent := str "write"; PlanStep.kind := kind; PlanStep.producer := producer |}.
Definition demo_plan (es : list PlanEdge) : Plan :=
  {| Plan.version := 1; Plan.steps := [demo_step PlanStepKind.Plain None; demo_step PlanStepKind.Critic (Some 0%nat)]; Plan.edges := es |}.
Definition demo_plan_json : PlanJson.
Proof.
  refine {| plan_of_json := fun t => if bool_decide (t = str "{plan}") then inl (demo_plan []) else inr (str "expected value");
            loop_of_json := fun t => inr (str "expected value");
            replan_of_json := fun t => inr (str "expected value") |}.
  split_and!; by eexists.
Defined.
(** A fenced answer after a block of reasoning. *)
Lemma proposals_within_caps_witness :
  let input := str "<think>a</think> ```json" ++ [10] ++ str "{plan}```" in
  decode_plan (H := demo_plan_json) input 64 = Ok (demo_plan [])
  /\ (1 <= length (demo_plan []).(Plan.steps) <= MAX_PLAN_STEPS)%nat /\ decode_plan (H := demo_plan_json) input 8 <> Ok (demo_plan []).
Proof.
  intros input. assert (H : decode_plan (H := demo_plan_json) input 64 = Ok (demo_plan [])) by (vm_compute; reflexivity).
  destruct (proposals_within_caps (H := demo_plan_json) input 64) as [H1 _]. apply H1 in H as H2. split_and!; [exact H|apply H2..|by vm_compute].
Defined.
(** The critic's edge is added; an edge back to its producer then makes a cycle. *)
Lemma planned_steps_confined_witness :
  let compiled es := compile_plan (H := demo_blake3) (Bincode0 := demo_bincode) (demo_warrant 10 FsMode.ReadWrite) (resolve demo_roles) (recipe_of demo_recipes) (demo_plan es) 7 in
  (exists cw, compiled [] = Ok cw /\ Forall (confined (demo_warrant 10 FsMode.ReadWrite) (resolve demo_roles) (recipe_of demo_recipes) (demo_plan [])) cw.(motes)
     /\ length cw.(motes) = 2%nat)
  /\ compiled [{| PlanEdge.parent := 1; PlanEdge.child := 0 |}] = Err (PlanError.Compile (CompileError.Cycle 0)).
Proof.
  intros compiled. split; [|vm_compute; reflexivity].
  pose proof (planned_steps_confined (H := demo_blake3) (Bincode0 := demo_bincode) (demo_warrant 10 FsMode.ReadWrite) (resolve demo_roles) (recipe_of demo_recipes) (demo_plan []) 7) as H.
  fold (compiled []) in H. assert (Hok : is_ok (compiled []) = true) by (vm_compute; reflexivity). destruct (compiled []) as [cw| |]; [|done..].
  destruct H as (_ & _ & Hi & Hf). exists cw. split_and!; [done|done|]. apply Permutation_length in Hi. by rewrite length_fmap in Hi.
Defined.
