(* ===== verification/Recipes.v ===== *)
(** kx-workflow's authoring library: the step builders (synthesis.rs,
    retrieval.rs), the recipes composed from them (recipes.rs) and the manifests
    recipes are shared by (share.rs). *)
From S2P Require Import Prelude Utf8 CriticTypes Mote Warrant Content Materializer Digits Refusal Workflow WorkflowFacts.

(** ** Steps *)
Definition permissive_warrant (model_id : bytes) : WarrantSpec := {|
  WarrantSpec.mote_class := MoteClass.WorldMutating; WarrantSpec.nd_class := MoteClass.WorldMutating;
  WarrantSpec.fs_scope := FsScope.empty; WarrantSpec.net_scope := NetScope.None;
  WarrantSpec.syscall_profile_ref := replicate 32 0; WarrantSpec.tool_grants := ∅;
  WarrantSpec.model_route := {| ModelRoute.model_id := model_id; ModelRoute.max_input_tokens := 4096;
                                ModelRoute.max_output_tokens := 4096; ModelRoute.max_calls := 16 |};
  WarrantSpec.resource_ceiling := {| ResourceCeiling.cpu_milli := 0; ResourceCeiling.mem_bytes := 0;
    ResourceCeiling.wall_clock_ms := 0; ResourceCeiling.fd_count := 0; ResourceCeiling.disk_bytes := 0 |};
  WarrantSpec.environment_ref := None; WarrantSpec.executor_class := Bwrap;
  WarrantSpec.secret_scope := SecretScope.None; WarrantSpec.cost_ceiling := {| CostCeiling.micro_usd := 0 |};
  WarrantSpec.tls_required := true |}.
Definition step (logic_ref model_id : bytes) (nd : NdClass) (ep : EffectPattern) (role : StepRole) (warrant : WarrantSpec) (capability : bytes)
    : StepDef := {|
  StepDef.logic_ref := logic_ref; StepDef.model_id := model_id; StepDef.prompt_template_hash := replicate 32 0;
  StepDef.tool_contract := ∅; StepDef.nd_class := nd; StepDef.config_subset := ∅; StepDef.effect_pattern := ep;
  StepDef.inference_params := InferenceParams_default; StepDef.role := role; StepDef.warrant := warrant;
  StepDef.capability := capability |}.
Definition generator (logic_ref model_id : bytes) (warrant : WarrantSpec) (capability : bytes) : StepDef :=
  step logic_ref model_id ReadOnlyNondet StageThenCommit StepRole.Plain warrant capability.
Definition rewrite_query (logic_ref model_id : bytes) (warrant : WarrantSpec) (capability : bytes) : StepDef :=
  step logic_ref model_id ReadOnlyNondet StageThenCommit StepRole.Plain warrant capability.
Definition transform (logic_ref model_id : bytes) (warrant : WarrantSpec) (capability : bytes) : StepDef :=
  step logic_ref model_id Pure IdempotentByConstruction StepRole.Plain warrant capability.
Definition tool_step (logic_ref model_id : bytes) (warrant : WarrantSpec) (capability : bytes) : StepDef :=
  step logic_ref model_id WorldMutating StageThenCommit StepRole.Plain warrant capability.
Definition critic (producer : StepRef) (logic_ref model_id : bytes) (warrant : WarrantSpec) (capability : bytes) : StepDef :=
  step logic_ref model_id Pure IdempotentByConstruction (StepRole.Critic producer) warrant capability.
Definition deterministic_critic (producer : StepRef) (check : CheckSpec) (logic_ref model_id : bytes) (warrant : WarrantSpec) (capability : bytes)
    : StepDef :=
  step logic_ref model_id Pure IdempotentByConstruction (StepRole.DeterministicCritic producer check) warrant capability.
(** [debug_assert!] is not compiled into a release build. *)
Definition judge (producer : StepRef) (check : CheckSpec) (logic_ref model_id : bytes) (warrant : WarrantSpec) (capability : bytes) : StepDef :=
  step logic_ref model_id ReadOnlyNondet IdempotentByConstruction (StepRole.DeterministicCritic producer check) warrant capability.
Definition topology_shaper (logic_ref model_id : bytes) (warrant : WarrantSpec) (capability : bytes) : StepDef :=
  step logic_ref model_id ReadOnlyNondet IdempotentByConstruction StepRole.TopologyShaper warrant capability.
Definition retrieval (logic_ref model_id : bytes) (warrant : WarrantSpec) (capability : bytes) : StepDef :=
  step logic_ref model_id ReadOnlyNondet StageThenCommit StepRole.Plain warrant capability.

(** ** Facts of retrieval: the score stays out *)
Module Hit.
Record Hit := { id : ContentRef; score : Z }.
End Hit.
Abbreviation Hit := Hit.Hit.
Definition encode_retrieval_fact (hits : list Hit) : bytes := concat (Hit.id <$> hits).
Definition retrieval_result_ref `{Blake3} (hits : list Hit) : ContentRef := ContentRef_of (encode_retrieval_fact hits).

(** ** Recipes *)
Module WorkerKind.
Inductive WorkerKind := Transform | Generator.
End WorkerKind.
Abbreviation WorkerKind := WorkerKind.WorkerKind.
Definition IMAGE_REF_KEY : bytes := str "image_ref".
Definition RETRIEVAL_MODE_KEY : bytes := str "kx.retrieval.mode".
Abbreviation authored := (outcome WorkflowDef CompileError).
(** Loops of [add_step] and of [add_edge] into one step. *)
Fixpoint add_steps (ss : list StepDef) (wf : WorkflowDef) : list StepRef * WorkflowDef :=
  match ss with
  | [] => ([], wf)
  | s :: ss => let '(r, wf) := add_step s wf in let '(rs, wf) := add_steps ss wf in (r :: rs, wf)
  end.
Fixpoint feed (leaves : list StepRef) (child : StepRef) (wf : WorkflowDef) : authored :=
  match leaves with
  | [] => Ok wf
  | l :: leaves => let* wf := add_edge l child EdgeMeta_data wf in feed leaves child wf
  end.
Definition synthesis_pipeline (seed : Z) (model_id capability gen_logic transform_logic critic_logic : bytes) : authored :=
  let w := permissive_warrant model_id in
  let '(g, wf) := add_step (generator gen_logic model_id w capability) (WorkflowDef_new seed) in
  let '(t, wf) := add_step (transform transform_logic model_id w capability) wf in
  let '(c, wf) := add_step (critic t critic_logic model_id w capability) wf in
  let* wf := add_edge g t EdgeMeta_data wf in
  add_edge t c EdgeMeta_data wf.
Definition fan_in (seed : Z) (model_id capability : bytes) (kind : WorkerKind) (leaf_logics : list bytes) (combine_logic : bytes) : authored :=
  match leaf_logics with
  | [] => Err CompileError.EmptyRecipe
  | _ =>
      let w := permissive_warrant model_id in
      let leaf logic := match kind with
                        | WorkerKind.Transform => transform logic model_id w capability
                        | WorkerKind.Generator => generator logic model_id w capability
                        end in
      let '(leaves, wf) := add_steps (leaf <$> leaf_logics) (WorkflowDef_new seed) in
      let '(combine, wf) := add_step (transform combine_logic model_id w capability) wf in
      feed leaves combine wf
  end.
Definition map_reduce (seed : Z) (model_id capability : bytes) (kind : WorkerKind) (mapper_logics : list bytes) (reduce_logic : bytes) : authored :=
  fan_in seed model_id capability kind mapper_logics reduce_logic.
Definition fan_out_gather (seed : Z) (model_id capability : bytes) (worker_logics : list bytes) (gather_logic : bytes) : authored :=
  fan_in seed model_id capability WorkerKind.Generator worker_logics gather_logic.
Definition rag_pipeline (seed : Z) (model_id capability : bytes) (doc_logics : list bytes) (query_logic assemble_logic : bytes) : authored :=
  match doc_logics with
  | [] => Err CompileError.EmptyRecipe
  | _ =>
      let w := permissive_warrant model_id in
      let '(ingests, wf) := add_steps ((fun logic => generator logic model_id w capability) <$> doc_logics) (WorkflowDef_new seed) in
      let '(query, wf) := add_step (retrieval query_logic model_id w capability) wf in
      let* wf := feed ingests query wf in
      let '(assemble, wf) := add_step (transform assemble_logic model_id w capability) wf in
      add_edge query assemble EdgeMeta_data wf
  end.
Definition rag_pipeline_hybrid (seed : Z) (model_id capability : bytes) (doc_logics : list bytes) (rewrite_logic query_logic : bytes)
    (rerank_logic : option bytes) (assemble_logic : bytes) : authored :=
  match doc_logics with
  | [] => Err CompileError.EmptyRecipe
  | _ =>
      let w := permissive_warrant model_id in
      let '(ingests, wf) := add_steps ((fun logic => generator logic model_id w capability) <$> doc_logics) (WorkflowDef_new seed) in
      let '(rewrite, wf) := add_step (rewrite_query rewrite_logic model_id w capability) wf in
      let query_step := put_config RETRIEVAL_MODE_KEY (str "hybrid") (retrieval query_logic model_id w capability) in
      let '(query, wf) := add_step query_step wf in
      let* wf := feed ingests query wf in
      let* wf := add_edge rewrite query EdgeMeta_data wf in
      let* r := match rerank_logic with
                | Some logic =>
                    let '(rerank, wf) := add_step (generator logic model_id w capability) wf in
                    let* wf := add_edge query rerank EdgeMeta_data wf in Ok (rerank, wf)
                | None => Ok (query, wf)
                end in
      let '(assemble, wf) := add_step (transform assemble_logic model_id w capability) r.2 in
      add_edge r.1 assemble EdgeMeta_data wf
  end.
Fixpoint add_critics (attempts : list StepRef) (mk : StepRef -> StepDef) (wf : WorkflowDef) : outcome (list StepRef * WorkflowDef) CompileError :=
  match attempts with
  | [] => Ok ([], wf)
  | a :: attempts =>
      let '(c, wf) := add_step (mk a) wf in
      let* wf := add_edge a c EdgeMeta_data wf in
      let* r := add_critics attempts mk wf in Ok (c :: r.1, r.2)
  end.
Fixpoint feed_pairs (ps : list (StepRef * StepRef)) (select : StepRef) (wf : WorkflowDef) : authored :=
  match ps with
  | [] => Ok wf
  | (a, c) :: ps =>
      let* wf := add_edge a select EdgeMeta_data wf in
      let* wf := add_edge c select EdgeMeta_data wf in
      feed_pairs ps select wf
  end.
Definition retry_until_critic (seed : Z) (model_id capability : bytes) (attempt_logics : list bytes) (check : CheckSpec)
    (critic_logic select_logic : bytes) : authored :=
  match attempt_logics with
  | [] => Err CompileError.EmptyRecipe
  | _ =>
      let w := permissive_warrant model_id in
      let '(attempts, wf) := add_steps ((fun logic => generator logic model_id w capability) <$> attempt_logics) (WorkflowDef_new seed) in
      let* r := add_critics attempts (fun a => deterministic_critic a check critic_logic model_id w capability) wf in
      let '(critics, wf) := r in
      let '(select, wf) := add_step (transform select_logic model_id w capability) wf in
      feed_pairs (zip attempts critics) select wf
  end.
Definition react_tool_loop (seed : Z) (model_id capability reason_logic act_logic observe_logic : bytes) (tool_contract : gmap bytes bytes) : authored :=
  let w := permissive_warrant model_id in
  let '(reason, wf) := add_step (generator reason_logic model_id w capability) (WorkflowDef_new seed) in
  let '(act, wf) := add_step (StepDef.with_tools tool_contract (generator act_logic model_id w capability)) wf in
  let '(observe, wf) := add_step (transform observe_logic model_id w capability) wf in
  let* wf := add_edge reason act EdgeMeta_data wf in
  add_edge act observe EdgeMeta_data wf.
Definition image_batch_describe_reduce (seed : Z) (model_id capability describe_logic : bytes) (image_refs : list ContentRef) (reduce_logic : bytes)
    : authored :=
  match image_refs with
  | [] => Err CompileError.EmptyRecipe
  | _ =>
      let w := permissive_warrant model_id in
      let describe image := put_config IMAGE_REF_KEY image (generator describe_logic model_id w capability) in
      let '(describes, wf) := add_steps (describe <$> image_refs) (WorkflowDef_new seed) in
      let '(reduce, wf) := add_step (transform reduce_logic model_id w capability) wf in
      feed describes reduce wf
  end.

(** ** Manifests *)
Module Manifest.
Record Manifest := { workflow_seed : Z; mote_ids : list MoteId; step_warrant_refs : list ContentRef; dataset_id : option bytes }.
End Manifest.
Abbreviation Manifest := Manifest.Manifest.
Definition recipe_manifest `{Blake3, !Bincode WarrantSpec} (compiled : CompiledWorkflow) (workflow_seed : Z) : Manifest := {|
  Manifest.workflow_seed := workflow_seed;
  Manifest.mote_ids := (fun m => m.(CompiledMote.mote).(mote_id)) <$> compiled.(Workflow.motes);
  Manifest.step_warrant_refs := (fun m => warrant_ref_of m.(CompiledMote.warrant)) <$> compiled.(Workflow.motes);
  Manifest.dataset_id := None |}.
Definition with_dataset (dataset_id : bytes) (m : Manifest) : Manifest := {|
  Manifest.workflow_seed := m.(Manifest.workflow_seed); Manifest.mote_ids := m.(Manifest.mote_ids);
  Manifest.step_warrant_refs := m.(Manifest.step_warrant_refs); Manifest.dataset_id := Some dataset_id |}.
Definition refs_stream (refs : list bytes) : bytes := to_le 8 (Z.of_nat (length refs)) ++ concat refs.
Definition dataset_stream (d : option bytes) : bytes := match d with Some d => [1] ++ d | None => [0] end.
(** What the hasher of [Manifest::id] is fed. *)
Definition manifest_stream (m : Manifest) : bytes :=
  str "kx-workflow/manifest-id/v2" ++ to_le 4 m.(Manifest.workflow_seed) ++ refs_stream m.(Manifest.mote_ids)
  ++ refs_stream m.(Manifest.step_warrant_refs) ++ dataset_stream m.(Manifest.dataset_id).
Definition manifest_stream_v1 (m : Manifest) : bytes :=
  str "kx-workflow/manifest-id/v1" ++ to_le 4 m.(Manifest.workflow_seed) ++ refs_stream m.(Manifest.mote_ids)
  ++ dataset_stream m.(Manifest.dataset_id).
Definition manifest_id `{Blake3} (m : Manifest) : bytes := blake3 (manifest_stream m).
Definition manifest_id_v1 `{Blake3} (m : Manifest) : bytes := blake3 (manifest_stream_v1 m).
