(* ===== verification/RecipeFacts.v ===== *)
(** The recipes compile, into Motes the gate on single Motes accepts; the gate on
    whole submissions refuses the ones that validate a step. Manifests are
    identified by what they list. *)
From S2P Require Import Prelude Utf8 CriticTypes Mote Warrant Content Materializer Digits Refusal Workflow WorkflowFacts Recipes.

(** ** Workflows whose edges go forward *)
Definition step_safe (s : StepDef) : Prop :=
  s.(StepDef.nd_class) <> WorldMutating
  /\ match s.(StepDef.role) with
     | StepRole.DeterministicCritic _ check => s.(StepDef.nd_class) = if is_llm_judge check then ReadOnlyNondet else Pure
     | _ => True
     end.
Record good (ss : list StepDef) (ps : list (nat * nat)) : Prop := {
  g_forward : Forall (fun x => (x.1 < x.2 < length ss)%nat) ps;
  g_once : NoDup ps;
  g_safe : Forall step_safe ss
}.
Definition critics_wired (ss : list StepDef) (ps : list (nat * nat)) : Prop :=
  forall i s p, ss !! i = Some s -> producer_of s = Some p -> (p, i) ∈ ps.
Lemma forward_links_acyclic n (ps : list (nat * nat)) : Forall (fun x => (x.1 < x.2 < n)%nat) ps -> acyclic (link <$> ps).
Proof.
  intros Hf i Hi. assert (Hlt : forall a b, tc (depends (link <$> ps)) a b -> (a < b)%nat); [|specialize (Hlt i i Hi); lia].
  rewrite Forall_forall in Hf. assert (Hone : forall a b, depends (link <$> ps) a b -> (a < b)%nat).
  { intros a b Hd. unfold depends in Hd. rewrite pair_of_links in Hd. apply Hf in Hd. cbn in Hd. lia. }
  induction 1 as [a b Hd|a b c Hd _ IH]; [by apply Hone|]. apply Hone in Hd. lia.
Qed.
Lemma good_nil : good [] [].
Proof. split; constructor. Qed.
Lemma good_step ss ps s : good ss ps -> step_safe s -> good (ss ++ [s]) ps.
Proof.
  intros [H1 H2 H3] Hs. split; [|done|apply Forall_app; split; [done|by apply Forall_singleton]]. eapply Forall_impl; [exact H1|]. intros x Hx. cbv beta in *. rewrite length_app. lia.
Qed.
Lemma add_step_wired ss seed ps s : add_step s (wired ss seed ps) = (length ss, wired (ss ++ [s]) seed ps).
Proof. done. Qed.
Lemma add_edge_good ss seed ps p c : good ss ps -> (p < c < length ss)%nat -> (p, c) ∉ ps ->
  add_edge p c EdgeMeta_data (wired ss seed ps) = Ok (wired ss seed (ps ++ [(p, c)])) /\ good ss (ps ++ [(p, c)]).
Proof.
  intros [H1 H2 H3] Hc Hno. split.
  - pose proof (add_edge_wired ss seed ps p c) as Ha. destruct (add_edge _ _ _ _); [by destruct Ha as (-> & _)|destruct Ha; split_and!; (done || lia)|done].
  - split; [apply Forall_app; split; [done|by apply Forall_singleton]| |done]. apply NoDup_app. split_and!; [done| |apply NoDup_singleton]. by intros x Hx ->%list_elem_of_singleton.
Qed.
Lemma add_steps_good ls : forall ss seed ps, good ss ps -> Forall step_safe ls ->
  add_steps ls (wired ss seed ps) = (seq (length ss) (length ls), wired (ss ++ ls) seed ps) /\ good (ss ++ ls) ps.
Proof.
  induction ls as [|s ls IH]; intros ss seed ps Hg Hs; [by rewrite app_nil_r|]. apply Forall_cons in Hs as [Hs Hls]. cbn [add_steps]. rewrite add_step_wired.
  destruct (IH (ss ++ [s]) seed ps (good_step _ _ _ Hg Hs) Hls) as [-> Hg']. rewrite length_app, <- app_assoc in *. cbn [length app seq] in *.
  rewrite Nat.add_1_r. done.
Qed.
Lemma feed_good ls : forall c ss seed ps, good ss ps -> NoDup ls -> (forall l, l ∈ ls -> (l < c)%nat /\ (l, c) ∉ ps) -> (c < length ss)%nat ->
  feed ls c (wired ss seed ps) = Ok (wired ss seed (ps ++ ((fun l => (l, c)) <$> ls))) /\ good ss (ps ++ ((fun l => (l, c)) <$> ls)).
Proof.
  induction ls as [|l ls IH]; intros c ss seed ps Hg Hnd Hl Hc; cbn [feed fmap list_fmap]; [by rewrite app_nil_r|]. apply NoDup_cons in Hnd as [Hx Hnd].
  destruct (Hl l ltac:(left)) as [Hlc Hno]. destruct (add_edge_good ss seed ps l c Hg ltac:(lia) Hno) as [-> Hg']. cbn [obind].
  destruct (IH c ss seed _ Hg' Hnd) as [-> Hg'']; [|done|by rewrite <- app_assoc in *].
  intros l' Hl'. destruct (Hl l' ltac:(by right)) as [? Hno']. split; [done|]. rewrite elem_of_app, list_elem_of_singleton. intros [?|[= ->]]; done.
Qed.
(** A step fed by earlier ones. *)
Lemma fed_step s ls ss seed ps : good ss ps -> step_safe s -> NoDup ls -> (forall l, l ∈ ls -> (l < length ss)%nat) ->
  feed ls (length ss) (wired (ss ++ [s]) seed ps) = Ok (wired (ss ++ [s]) seed (ps ++ ((fun l => (l, length ss)) <$> ls)))
  /\ good (ss ++ [s]) (ps ++ ((fun l => (l, length ss)) <$> ls)).
Proof.
  intros Hg Hs Hnd Hl. apply feed_good; [by apply good_step|done| |rewrite length_app; cbn; lia]. intros l Hin. split; [by apply Hl|].
  destruct Hg as [Hf _ _]. rewrite Forall_forall in Hf. intros Hx%Hf. cbn in Hx. lia.
Qed.
Lemma fed_by_one s l ss seed ps : good ss ps -> step_safe s -> (l < length ss)%nat ->
  add_edge l (length ss) EdgeMeta_data (wired (ss ++ [s]) seed ps) = Ok (wired (ss ++ [s]) seed (ps ++ [(l, length ss)]))
  /\ good (ss ++ [s]) (ps ++ [(l, length ss)]).
Proof.
  intros Hg Hs Hl. apply add_edge_good; [by apply good_step|rewrite length_app; cbn; lia|].
  destruct Hg as [Hf _ _]. rewrite Forall_forall in Hf. intros Hx%Hf. cbn in Hx. lia.
Qed.
Lemma add_critics_good mk attempts : forall ss seed ps, good ss ps -> (forall a, step_safe (mk a)) -> (forall a, a ∈ attempts -> (a < length ss)%nat) ->
  add_critics attempts mk (wired ss seed ps)
  = Ok (seq (length ss) (length attempts), wired (ss ++ (mk <$> attempts)) seed (ps ++ zip attempts (seq (length ss) (length attempts))))
  /\ good (ss ++ (mk <$> attempts)) (ps ++ zip attempts (seq (length ss) (length attempts))).
Proof.
  induction attempts as [|a attempts IH]; intros ss seed ps Hg Hmk Ha; cbn [add_critics]; [by rewrite !app_nil_r|]. rewrite add_step_wired.
  destruct (fed_by_one (mk a) a ss seed ps Hg (Hmk a) (Ha a ltac:(left))) as [-> Hg']. cbn [obind].
  destruct (IH (ss ++ [mk a]) seed _ Hg' Hmk) as [-> Hg'']; [intros x Hx; rewrite length_app; specialize (Ha x ltac:(by right)); lia|].
  cbn [obind fst snd]. rewrite length_app, <- !app_assoc in *. cbn [length app fmap list_fmap seq zip zip_with] in *. rewrite Nat.add_1_r in *. done.
Qed.
Lemma feed_pairs_flat ps select : forall wf, feed_pairs ps select wf = feed (concat ((fun x => [x.1; x.2]) <$> ps)) select wf.
Proof.
  induction ps as [|[a c] ps IH]; intros wf; [done|]. cbn [feed_pairs fmap list_fmap concat app feed fst snd].
  destruct (add_edge a select EdgeMeta_data wf) as [wf'|e|]; cbn [obind]; [|done|done]. destruct (add_edge c select EdgeMeta_data wf'); cbn [obind]; [apply IH|done|done].
Qed.

(** ** Compiled recipes *)
Section Compiled.
Context `{Blake3} `{!Bincode MoteDef}.
Definition passes_alone (m : Mote) : Prop := forall accept resolution, validate_mote_submission m accept resolution = Ok tt.
Lemma safe_step_passes def s cf parents rank : step_safe s -> (is_Some (producer_of s) -> is_Some cf) -> (producer_of s = None -> cf = None) ->
  passes_alone (step_mote def s cf parents rank).
Proof.
  intros [Hnd Hrole] Hcf Hcf' accept resolution. unfold validate_mote_submission.
  destruct (proj1 (mote_checks_ok (step_mote def s cf parents rank))) as (-> & -> & -> & -> & ->).
  - split; cbn; [done|done| |].
    + unfold producer_of in *. destruct s.(StepDef.role); try done. by rewrite Hcf'.
    + unfold producer_of in *. destruct s.(StepDef.role); try done. intros c [= <-]. split_and!; [done|by apply Hcf|done].
  - cbn [obind]. unfold check_r10_resolved. cbn. by rewrite bool_decide_false.
Qed.
(** A workflow that compiles, every Mote of which passes the gate on single Motes. *)
Definition runs (wf : WorkflowDef) : Prop :=
  exists cw, compile wf = Ok cw /\ length cw.(Workflow.motes) = length wf.(WorkflowDef.steps)
    /\ Forall (fun m => passes_alone m.(CompiledMote.mote)) cw.(Workflow.motes).
Lemma good_runs ss seed ps : good ss ps -> critics_wired ss ps -> runs (wired ss seed ps).
Proof.
  intros [Hf Hn Hs] Hc. destruct (compile_spec (wired ss seed ps)) as (_ & Hgood & Hdag). cbn [wired WorkflowDef.steps WorkflowDef.edges] in Hgood, Hdag.
  destruct Hdag as [cw Hcw].
  - apply links_ok. split; [|done]. eapply Forall_impl; [exact Hf|]. cbn. lia.
  - by eapply forward_links_acyclic.
  - intros i s p Hi Hp. apply tc_once. unfold depends. rewrite pair_of_links. by eapply Hc.
  - destruct (Hgood cw Hcw) as (_ & _ & Hidx & Hat). exists cw. split_and!; [done| |].
    + apply Permutation_length in Hidx. by rewrite length_fmap, length_seq in Hidx.
    + apply Forall_forall. intros m Hm. apply list_elem_of_lookup in Hm as [k Hk].
      destruct (Hat k m Hk) as (s & cf & links & Hsi & _ & _ & Hcf & _ & ->). cbn [wired WorkflowDef.steps] in Hsi.
      rewrite Forall_forall in Hs. apply safe_step_passes; [apply Hs; by eapply list_elem_of_lookup_2| |].
      * intros [p Hp]. rewrite Hp in Hcf. destruct Hcf as [_ Hcf]. by destruct cf; [eexists|].
      * intros Hp. by rewrite Hp in Hcf.
Qed.
(** A whole submission with a critic of a step that is not world-mutating is refused. *)
Definition refused_whole (wf : WorkflowDef) : Prop :=
  forall cw submission, compile wf = Ok cw ->
    (forall m, m ∈ cw.(Workflow.motes) -> submission.(Refusal.motes) !! m.(CompiledMote.mote).(mote_id) = Some m.(CompiledMote.mote)) ->
    validate_submission submission <> Ok tt.
Lemma validated_refused ss seed ps i s p : Forall step_safe ss -> ss !! i = Some s -> producer_of s = Some p -> refused_whole (wired ss seed ps).
Proof.
  intros Hs Hi Hp cw submission Hcw Hsub Hval. destruct (compile_spec (wired ss seed ps)) as (_ & Hgood & _).
  destruct (Hgood cw Hcw) as (_ & _ & Hidx & Hat). cbn [wired WorkflowDef.steps] in Hidx.
  assert (Hin : i ∈ CompiledMote.step_index <$> cw.(Workflow.motes)) by (rewrite Hidx; apply elem_of_seq; apply lookup_lt_Some in Hi; lia).
  apply list_elem_of_fmap in Hin as (m & -> & Hm). apply list_elem_of_lookup in Hm as [k Hk].
  destruct (Hat k m Hk) as (s' & cf & links & Hsi & _ & _ & Hcf & _ & Hmote). cbn [wired WorkflowDef.steps] in Hsi. rewrite Hi in Hsi. injection Hsi as <-.
  rewrite Hp in Hcf. destruct Hcf as [Hcf Hne]. unfold id_of in Hcf.
  destruct (List.find _ (take k cw.(Workflow.motes))) as [m'|] eqn:Hfind; [|done]. apply find_some in Hfind as [Hm' _]. apply list_elem_of_In in Hm'.
  assert (Hin' : m' ∈ cw.(Workflow.motes)) by (eapply elem_of_submseteq; [exact Hm'|]; apply sublist_submseteq, sublist_take).
  apply list_elem_of_lookup in Hin' as [k' Hk']. destruct (Hat k' m' Hk') as (s' & cf' & links' & Hsi' & _ & _ & _ & _ & Hmote').
  cbn [wired WorkflowDef.steps] in Hsi'. rewrite Forall_forall in Hs. assert (Hs' : step_safe s') by (apply Hs; by eapply list_elem_of_lookup_2).
  unfold validate_submission in Hval. rewrite !obind_unit, !for_each_ok in Hval. destruct Hval as (_ & _ & H457 & _).
  specialize (H457 m.(CompiledMote.mote)). rewrite elem_of_values in H457.
  specialize (H457 (ex_intro _ _ (Hsub m ltac:(by eapply list_elem_of_lookup_2)))). apply check_r4_r5_r7_ok with (t := m'.(CompiledMote.mote).(mote_id)) in H457.
  - destruct H457 as (_ & target & Ht & Hwm). rewrite (Hsub m') in Ht by (by eapply list_elem_of_lookup_2). injection Ht as <-.
    rewrite Hmote' in Hwm. cbn in Hwm. by destruct Hs'.
  - rewrite Hmote. cbn. by rewrite Hcf.
Qed.

(** ** The recipes *)
Definition ready (r : authored) : Prop := exists wf, r = Ok wf /\ runs wf.
Definition refused (r : authored) : Prop := exists wf, r = Ok wf /\ refused_whole wf.
Lemma no_critics ss ps : Forall (fun s => producer_of s = None) ss -> critics_wired ss ps.
Proof. intros Hf i s p Hi Hp. rewrite Forall_forall in Hf. rewrite Hf in Hp; [done|by eapply list_elem_of_lookup_2]. Qed.
Lemma seq_below n : forall l, l ∈ seq 0 n -> (l < n)%nat.
Proof. intros l Hl%elem_of_seq. lia. Qed.
Lemma fan_in_ready seed leaves s : Forall step_safe leaves -> Forall (fun s => producer_of s = None) leaves -> step_safe s -> producer_of s = None ->
  ready (let '(ls, wf) := add_steps leaves (WorkflowDef_new seed) in let '(c, wf) := add_step s wf in feed ls c wf).
Proof.
  intros Hl Hp Hs Hps. change (WorkflowDef_new seed) with (wired [] seed []). destruct (add_steps_good leaves [] seed [] good_nil Hl) as [-> Hg].
  cbn [app length] in *. rewrite add_step_wired.
  destruct (fed_step s (seq 0 (length leaves)) leaves seed [] Hg Hs (NoDup_seq _ _) (seq_below _)) as [-> Hg']. eexists. split; [done|].
  apply good_runs; [done|]. apply no_critics, Forall_app. by split; [|apply Forall_singleton].
Qed.
Lemma fan_in_recipe seed model cap kind logics combine : logics <> [] -> ready (fan_in seed model cap kind logics combine).
Proof.
  intros Hne. unfold fan_in. destruct logics as [|l logics]; [done|]. apply fan_in_ready; [| |done|done]; apply Forall_fmap, Forall_true; by destruct kind.
Qed.
Lemma image_recipe seed model cap logic images reduce : images <> [] -> ready (image_batch_describe_reduce seed model cap logic images reduce).
Proof.
  intros Hne. unfold image_batch_describe_reduce. destruct images as [|i images]; [done|]. apply fan_in_ready; [| |done|done]; by apply Forall_fmap, Forall_true.
Qed.
Lemma rag_recipe seed model cap docs query assemble : docs <> [] -> ready (rag_pipeline seed model cap docs query assemble).
Proof.
  intros Hne. unfold rag_pipeline. destruct docs as [|d docs]; [done|]. set (leaves := _ <$> d :: docs). change (WorkflowDef_new seed) with (wired [] seed []).
  destruct (add_steps_good leaves [] seed [] good_nil) as [-> Hg]; [by apply Forall_fmap, Forall_true|]. cbn [app length] in *. rewrite add_step_wired.
  match goal with |- context [wired (leaves ++ [?q]) seed []] =>
    destruct (fed_step q (seq 0 (length leaves)) leaves seed [] Hg ltac:(done) (NoDup_seq _ _) (seq_below _)) as [-> Hg'] end. cbn [obind]. rewrite add_step_wired.
  match goal with |- context [wired (?ss ++ [?s]) seed ?ps] => destruct (fed_by_one s (length leaves) ss seed ps Hg' ltac:(done)) as [-> Hg''] end.
  { rewrite length_app. cbn. lia. }
  eexists. split; [done|]. apply good_runs; [done|]. apply no_critics. rewrite !Forall_app, !Forall_singleton. split_and!; [by apply Forall_fmap, Forall_true|done|done].
Qed.
Lemma hybrid_recipe seed model cap docs rewrite_logic query rerank assemble : docs <> [] ->
  ready (rag_pipeline_hybrid seed model cap docs rewrite_logic query rerank assemble).
Proof.
  intros Hne. unfold rag_pipeline_hybrid. destruct docs as [|d docs]; [done|]. set (leaves := _ <$> d :: docs).
  assert (Hls : Forall step_safe leaves /\ Forall (fun s => producer_of s = None) leaves) by (split; by apply Forall_fmap, Forall_true).
  clearbody leaves. destruct Hls as [Hls Hlp]. change (WorkflowDef_new seed) with (wired [] seed []).
  destruct (add_steps_good leaves [] seed [] good_nil) as [-> Hg]; [done|]. cbn [app length] in *. rewrite !add_step_wired.
  set (rw := rewrite_query _ _ _ _). set (q := put_config _ _ _). assert (Hg1 : good (leaves ++ [rw]) []) by (by apply good_step).
  assert (Hlen : length (leaves ++ [rw]) = Datatypes.S (length leaves)) by (rewrite length_app; cbn; lia).
  destruct (fed_step q (seq 0 (length leaves)) (leaves ++ [rw]) seed [] Hg1 ltac:(done) (NoDup_seq _ _)) as [-> Hg2]; [intros l Hl%elem_of_seq; lia|].
  cbn [obind app] in Hg2 |- *. destruct (add_edge_good ((leaves ++ [rw]) ++ [q]) seed _ (length leaves) (length (leaves ++ [rw])) Hg2) as [-> Hg3].
  { rewrite (length_app (leaves ++ [rw])), Hlen. cbn. lia. }
  { intros (l & [= <-] & Hl)%list_elem_of_fmap. apply elem_of_seq in Hl. lia. }
  cbn [obind]. assert (Hplain : Forall (fun s => producer_of s = None) ((leaves ++ [rw]) ++ [q])).
  { rewrite !Forall_app, !Forall_singleton. split_and!; done. }
  assert (Hq : (length (leaves ++ [rw]) < length ((leaves ++ [rw]) ++ [q]))%nat) by (rewrite (length_app (leaves ++ [rw])); cbn; lia).
  revert Hg3 Hplain Hq. generalize (length (leaves ++ [rw])). intros nq Hg3. revert Hg3. generalize ((leaves ++ [rw]) ++ [q]). intros ss. match goal with |- good ss ?ps -> _ => generalize ps end.
  intros ps Hg3 Hplain Hq. destruct rerank as [logic|].
  - rewrite add_step_wired. set (rr := generator logic _ _ _). destruct (fed_by_one rr nq ss seed ps Hg3 ltac:(done) Hq) as [-> Hg4]. cbn [obind fst snd]. rewrite add_step_wired.
    set (a := transform _ _ _ _). destruct (fed_by_one a (length ss) (ss ++ [rr]) seed _ Hg4 ltac:(done)) as [-> Hg5]; [rewrite length_app; cbn; lia|].
    eexists. split; [done|]. apply good_runs; [done|]. apply no_critics. by rewrite !Forall_app, !Forall_singleton.
  - cbn [obind fst snd]. rewrite add_step_wired. set (a := transform _ _ _ _). destruct (fed_by_one a nq ss seed ps Hg3 ltac:(done) Hq) as [-> Hg5].
    eexists. split; [done|]. apply good_runs; [done|]. apply no_critics. by rewrite !Forall_app, !Forall_singleton.
Qed.
(** Three steps in a row. *)
Lemma row_built seed (s1 s2 s3 : StepDef) : step_safe s1 -> step_safe s2 -> step_safe s3 ->
  (let* wf := add_edge 0 1 EdgeMeta_data (wired [s1; s2; s3] seed []) in add_edge 1 2 EdgeMeta_data wf) = Ok (wired [s1; s2; s3] seed [(0, 1); (1, 2)]%nat)
  /\ good [s1; s2; s3] [(0, 1); (1, 2)]%nat.
Proof.
  intros H1 H2 H3. assert (Hg : good [s1; s2; s3] []) by (split; [apply Forall_nil_2|apply NoDup_nil_2|by rewrite !Forall_cons, Forall_nil]).
  destruct (add_edge_good [s1; s2; s3] seed [] 0 1 Hg) as [-> Hg1]; [cbn; lia|by intros ?%not_elem_of_nil|]. cbn [obind app] in *.
  apply (add_edge_good [s1; s2; s3] seed [(0, 1)%nat] 1 2 Hg1); [cbn; lia|]. by intros ?%list_elem_of_singleton.
Qed.
Lemma synthesis_recipe seed model cap g t c : ready (synthesis_pipeline seed model cap g t c) /\ refused (synthesis_pipeline seed model cap g t c).
Proof.
  unfold synthesis_pipeline. change (WorkflowDef_new seed) with (wired [] seed []). rewrite !add_step_wired. cbn [app length].
  match goal with |- context [wired [?a; ?b; ?d] seed []] => set (s1 := a); set (s2 := b); set (s3 := d) end.
  destruct (row_built seed s1 s2 s3) as [-> Hg]; [done|done|done|]. split; (eexists; split; [done|]).
  - apply good_runs; [done|]. intros [|[|[|i]]] s p Hi Hp; cbn in Hi; simplify_eq; try done. cbn in Hp. simplify_eq. right. left.
  - by eapply (validated_refused _ _ _ 2 s3 1); [apply Hg|..].
Qed.
Lemma react_recipe seed model cap r a o tools : ready (react_tool_loop seed model cap r a o tools).
Proof.
  unfold react_tool_loop. change (WorkflowDef_new seed) with (wired [] seed []). rewrite !add_step_wired. cbn [app length].
  match goal with |- context [wired [?a; ?b; ?d] seed []] => destruct (row_built seed a b d) as [-> Hg]; [done|done|done|] end.
  eexists. split; [done|]. apply good_runs; [done|]. apply no_critics. by repeat constructor.
Qed.
Lemma flat_pairs n : concat ((fun x => [x.1; x.2]) <$> zip (seq 0 n) (seq n n)) ≡ₚ seq 0 (n + n).
Proof.
  rewrite seq_app. cbn [Nat.add]. generalize 0%nat at 1 2. generalize (seq n n) (length_seq n n). intros l Hl k.
  revert k l Hl. induction n as [|n IH]; intros k [|x l] Hl; try done. cbn [seq zip zip_with fmap list_fmap concat app fst snd].
  rewrite IH by (cbn in Hl; lia). by rewrite Permutation_middle.
Qed.
Lemma retry_recipe seed model cap logics check c sel : logics <> [] -> is_llm_judge check = false ->
  ready (retry_until_critic seed model cap logics check c sel) /\ refused (retry_until_critic seed model cap logics check c sel).
Proof.
  intros Hne Hj. unfold retry_until_critic. destruct logics as [|l0 logics]; [done|]. set (gens := _ <$> l0 :: logics).
  assert (Hgens : Forall step_safe gens /\ Forall (fun s => producer_of s = None) gens) by (split; by apply Forall_fmap, Forall_true).
  assert (Hn0 : (0 < length gens)%nat) by (cbn; lia). clearbody gens. destruct Hgens as [Hgs Hgp]. set (n := length gens).
  change (WorkflowDef_new seed) with (wired [] seed []). destruct (add_steps_good gens [] seed [] good_nil Hgs) as [-> Hg]. cbn [app length] in *. fold n.
  set (mk := fun a => deterministic_critic a check c model (permissive_warrant model) cap).
  assert (Hmk : forall a, step_safe (mk a)) by (intros a; split; [done|cbn; by rewrite Hj]).
  destruct (add_critics_good mk (seq 0 n) gens seed [] Hg Hmk (seq_below n)) as [-> Hg1]. cbn [obind app] in *. fold n in Hg1 |- *. rewrite length_seq in *.
  rewrite add_step_wired, feed_pairs_flat. set (ss := gens ++ (mk <$> seq 0 n)). set (tr := transform _ _ _ _).
  assert (Hss : length ss = (n + n)%nat) by (unfold ss; by rewrite length_app, length_fmap, length_seq).
  destruct (fed_step tr (concat ((fun x => [x.1; x.2]) <$> zip (seq 0 n) (seq n n))) ss seed _ Hg1) as [-> Hg2]; [done| | |].
  { rewrite flat_pairs. apply NoDup_seq. }
  { intros l. rewrite flat_pairs, Hss. apply seq_below. }
  assert (Hcrit : forall k, (k < n)%nat -> ss !! (n + k)%nat = Some (mk k)).
  { intros k Hk. unfold ss. rewrite lookup_app_r by (fold n; lia). fold n. replace (n + k - n)%nat with k by lia. rewrite list_lookup_fmap, lookup_seq_lt by done. done. }
  split; (eexists; split; [done|]).
  - apply good_runs; [done|]. intros i s p Hi Hp. apply elem_of_app. left.
    apply lookup_app_Some in Hi as [Hi|[_ Hi]]; [|destruct (i - length ss)%nat as [|j]; [|destruct j]; cbn in Hi; simplify_eq; done].
    assert (Hin : (n <= i < n + n)%nat).
    { pose proof (lookup_lt_Some _ _ _ Hi) as Hlt. split; [|lia]. destruct (decide (i < n)%nat) as [Hlow|]; [|lia]. unfold ss in Hi. rewrite lookup_app_l in Hi by done.
      rewrite Forall_forall in Hgp. rewrite Hgp in Hp by (by eapply list_elem_of_lookup_2). done. }
    specialize (Hcrit (i - n)%nat ltac:(lia)). replace (n + (i - n))%nat with i in Hcrit by lia. rewrite Hi in Hcrit. injection Hcrit as ->. cbn in Hp. injection Hp as <-.
    apply list_elem_of_lookup. exists (i - n)%nat. apply lookup_zip_with_Some. exists (i - n)%nat, i. rewrite !lookup_seq_lt by lia. split_and!; [done|done|f_equal; lia].
  - eapply (validated_refused _ _ _ (n + 0) (mk 0%nat) 0); [apply Hg2| |done]. rewrite lookup_app_l by lia. by apply Hcrit.
Qed.
(** [C27] Every recipe with at least one worker compiles, to one Mote per step, each of
    which the gate on single Motes accepts whatever its tools are, provided the check
    of a retry-until-critic recipe is not the model-graded one; with no worker it is
    refused as empty. The recipes with critics are refused as a whole all the same
    by the gate on submissions, since what they validate is not world-mutating. *)
Theorem recipes_run seed model cap :
  (forall g t c, ready (synthesis_pipeline seed model cap g t c) /\ refused (synthesis_pipeline seed model cap g t c))
  /\ (forall r a o tools, ready (react_tool_loop seed model cap r a o tools))
  /\ (forall kind l logics a b c check rerank,
        ready (map_reduce seed model cap kind (l :: logics) a) /\ ready (fan_out_gather seed model cap (l :: logics) a)
        /\ ready (rag_pipeline seed model cap (l :: logics) a b) /\ ready (rag_pipeline_hybrid seed model cap (l :: logics) a b rerank c)
        /\ ready (image_batch_describe_reduce seed model cap a (l :: logics) b)
        /\ (is_llm_judge check = false ->
            ready (retry_until_critic seed model cap (l :: logics) check a b) /\ refused (retry_until_critic seed model cap (l :: logics) check a b)))
  /\ (forall kind a b c check rerank, Forall (fun r => r = Err CompileError.EmptyRecipe)
        [map_reduce seed model cap kind [] a; fan_out_gather seed model cap [] a; rag_pipeline seed model cap [] a b;
         rag_pipeline_hybrid seed model cap [] a b rerank c; image_batch_describe_reduce seed model cap a [] b; retry_until_critic seed model cap [] check a b]).
Proof.
  split_and!; [intros; apply synthesis_recipe|intros; apply react_recipe| |intros; by repeat constructor].
  intros kind l logics a b c check rerank. split_and!; [by apply fan_in_recipe|by apply fan_in_recipe|by apply rag_recipe|by apply hybrid_recipe|by apply image_recipe|].
  intros Hj. by apply retry_recipe.
Qed.
End Compiled.

(** ** Manifests *)
Definition refs_ok (refs : list bytes) : Prop := Forall (fun r => length r = 32%nat) refs /\ Z.of_nat (length refs) < 2 ^ 64.
Record manifest_ok (m : Manifest) : Prop := {
  mo_seed : u32 m.(Manifest.workflow_seed);
  mo_ids : refs_ok m.(Manifest.mote_ids);
  mo_warrants : refs_ok m.(Manifest.step_warrant_refs);
  mo_dataset : forall d, m.(Manifest.dataset_id) = Some d -> length d = 32%nat
}.
Lemma concat_refs_inj (rs : list bytes) : forall (rs' : list bytes) (t t' : bytes), Forall (fun r => length r = 32%nat) rs -> Forall (fun r => length r = 32%nat) rs' -> length rs = length rs' ->
  concat rs ++ t = concat rs' ++ t' -> rs = rs' /\ t = t'.
Proof.
  induction rs as [|r rs IH]; intros [|r' rs'] t t' Hr Hr' Hl E; try done. apply Forall_cons in Hr as [Hr Hrs], Hr' as [Hr' Hrs'].
  cbn [concat] in E. rewrite <- !app_assoc in E. apply app_inj_1 in E as [-> E]; [|by rewrite Hr]. cbn in Hl.
  destruct (IH _ _ _ Hrs Hrs' ltac:(lia) E) as [-> ->]. done.
Qed.
Lemma refs_stream_inj rs rs' t t' : refs_ok rs -> refs_ok rs' -> refs_stream rs ++ t = refs_stream rs' ++ t' -> rs = rs' /\ t = t'.
Proof.
  intros [H1 H2] [H3 H4] E. unfold refs_stream in E. rewrite <- !app_assoc in E.
  apply to_le_app_inj in E as [E1 E2]; [|split; [lia|exact H2]|split; [lia|exact H4]]. apply concat_refs_inj in E2; [done|done|done|lia].
Qed.
Lemma dataset_stream_inj d d' : dataset_stream d = dataset_stream d' -> d = d'.
Proof. destruct d, d'; cbn; congruence. Qed.
(** The hashed bytes of a manifest determine it: its seed, its Motes in order, the
    authority of each and the pinned corpus. The superseded scheme leaves out the
    authority and nothing else, and its bytes are never those of the current one. *)
Theorem manifest_stream_exact a b : manifest_ok a -> manifest_ok b ->
  (manifest_stream a = manifest_stream b <-> a = b)
  /\ (manifest_stream_v1 a = manifest_stream_v1 b <->
      (a.(Manifest.workflow_seed), a.(Manifest.mote_ids), a.(Manifest.dataset_id)) = (b.(Manifest.workflow_seed), b.(Manifest.mote_ids), b.(Manifest.dataset_id)))
  /\ manifest_stream a <> manifest_stream_v1 b.
Proof.
  intros [A1 A2 A3 A4] [B1 B2 B3 B4]. destruct a as [sa ia wa da], b as [sb ib wb db]. unfold manifest_stream, manifest_stream_v1. cbn [Manifest.workflow_seed Manifest.mote_ids Manifest.step_warrant_refs Manifest.dataset_id]. split_and!.
  - split; [|by intros [= -> -> -> ->]]. intros E. apply app_inj_1 in E as [_ E]; [|done]. apply to_le_app_inj in E as [-> E]; [|done|done].
    apply refs_stream_inj in E as [-> E]; [|done|done]. apply refs_stream_inj in E as [-> E]; [|done|done]. by apply dataset_stream_inj in E as ->.
  - split; [|by intros [= -> -> ->]]. intros E. apply app_inj_1 in E as [_ E]; [|done]. apply to_le_app_inj in E as [-> E]; [|done|done].
    apply refs_stream_inj in E as [-> E]; [|done|done]. by apply dataset_stream_inj in E as ->.
  - intros E. apply app_inj_1 in E as [E _]; [|done]. done.
Qed.
Lemma manifest_stream_exact_witness :
  let m w := {| Manifest.workflow_seed := 7; Manifest.mote_ids := [replicate 32 1]; Manifest.step_warrant_refs := [replicate 32 w]; Manifest.dataset_id := None |} in
  manifest_stream (m 1) <> manifest_stream (m 2) /\ manifest_stream_v1 (m 1) = manifest_stream_v1 (m 2).
Proof.
  intros m. assert (Hm : forall w, manifest_ok (m w)).
  { intros w. split; [done| | |done]; (split; [by apply Forall_singleton|done]). }
  destruct (manifest_stream_exact (m 1) (m 2) (Hm 1) (Hm 2)) as (H1 & H2 & _). split; [rewrite H1; done|by apply H2].
Defined.
