(* ===== verification/Chunk.v ===== *)
(** kx-chunk (chunk.rs): the document chunker, whose chunks are substrings that
    cover the text. *)
From S2P Require Import Prelude Utf8.

Definition CHUNKER_VERSION : Z := 1.
Definition DEFAULT_MAX_CHARS : nat := 1000.
Definition DEFAULT_OVERLAP_CHARS : nat := 200.
(** Chars are their UTF-8 bytes. *)
Definition SEPARATORS : list (list bytes) := [[[10]; [10]]; [[10]]; [[46]; [32]]; [[32]]].
Record ChunkParams := { max_chars : nat; overlap_chars : nat }.
Definition ChunkParams_default : ChunkParams := {| max_chars := DEFAULT_MAX_CHARS; overlap_chars := DEFAULT_OVERLAP_CHARS |}.
Module Chunk.
Record Chunk := { text : bytes; index : Z; char_start : nat; char_end : nat }.
End Chunk.
Abbreviation Chunk := Chunk.Chunk.
Import Chunk.

(** [chars[i..j]] *)
Definition span (chars : list bytes) (i j : nat) : list bytes := take (j - i) (drop i chars).
Definition chars_slice {E} (chars : list bytes) (i j : nat) : outcome (list bytes) E :=
  if (i <=? j)%nat && (j <=? length chars)%nat then Ok (span chars i j) else Panic.
(** The [while b > start] loop of [find_break]. *)
Fixpoint scan_back {E} (chars : list bytes) (sep : list bytes) (start b : nat) : outcome (option nat) E :=
  match b with
  | O => Ok None
  | S b' =>
      if (start <? b)%nat
      then
        let len := length sep in
        let* hit := if (start + len <=? b)%nat
                    then let* s := chars_slice chars (b - len) b in Ok (bool_decide (s = sep))
                    else Ok false in
        if hit then Ok (Some b) else scan_back chars sep start b'
      else Ok None
  end.
Fixpoint find_in {E} (seps : list (list bytes)) (chars : list bytes) (start hard_end : nat) : outcome nat E :=
  match seps with
  | [] => Ok hard_end
  | sep :: seps =>
      let* b := scan_back chars sep start hard_end in
      match b with Some b => Ok b | None => find_in seps chars start hard_end end
  end.
Definition find_break {E} (chars : list bytes) (start hard_end : nat) : outcome nat E := find_in SEPARATORS chars start hard_end.
Fixpoint chunk_loop {E} (fuel : nat) (chars : list bytes) (max overlap start : nat) (index : Z) : outcome (list Chunk) E :=
  match fuel with
  | O => Ok []
  | S fuel =>
      let n := length chars in
      let hard_end := Nat.min (start + max) n in
      let* e := if (n <=? hard_end)%nat then Ok n else find_break chars start hard_end in
      let* cs := chars_slice chars start e in
      let c := {| text := concat cs; index := index; char_start := start; char_end := e |} in
      if (n <=? e)%nat then Ok [c]
      else
        let next := (e - overlap)%nat in
        let* rest := chunk_loop fuel chars max overlap (if (start <? next)%nat then next else S start) ((index + 1) mod 2 ^ 32) in
        Ok (c :: rest)
  end.
(** A [&str] is valid UTF-8. *)
Definition chunk {E} (t : bytes) (params : ChunkParams) : outcome (list Chunk) E :=
  match utf8_chars t with
  | None => Panic
  | Some chars =>
      let n := length chars in
      if (n =? 0)%nat then Ok []
      else
        let max := Nat.max params.(max_chars) 1 in
        let overlap := Nat.min params.(overlap_chars) (max - 1) in
        if (n <=? max)%nat then Ok [{| text := concat chars; index := 0; char_start := 0; char_end := n |}]
        else chunk_loop (S n) chars max overlap 0 0
  end.

(** ** Chunks cover the text *)
Section Cover.
Variables (chars : list bytes) (max overlap : nat).
Abbreviation n := (length chars).
Record chunk_ok (c : Chunk) : Prop := {
  k_range : (c.(char_start) < c.(char_end) <= n)%nat;
  k_size : (c.(char_end) - c.(char_start) <= max)%nat;
  k_text : c.(text) = concat (span chars c.(char_start) c.(char_end))
}.
(** The chunks from [start], numbered from [i]: each begins where the overlap of the
    one before says, but always further on, and the last ends the text. *)
Fixpoint covers (start : nat) (i : Z) (cs : list Chunk) : Prop :=
  match cs with
  | [] => False
  | c :: cs =>
      chunk_ok c /\ c.(char_start) = start /\ c.(index) = i mod 2 ^ 32
      /\ match cs with
         | [] => c.(char_end) = n
         | _ => (c.(char_end) < n)%nat /\ covers (Nat.max (c.(char_end) - overlap) (S start)) (i + 1) cs
         end
  end.
Lemma scan_back_spec {E} sep start : forall b, sep <> [] -> (b <= n)%nat ->
  exists r, scan_back (E := E) chars sep start b = Ok r /\ match r with Some x => (start < x <= b)%nat | None => True end.
Proof.
  induction b as [|b IH]; intros Hs Hb; cbn [scan_back]; [by exists None|]. destruct (start <? S b)%nat eqn:H1; [|by exists None].
  apply Nat.ltb_lt in H1. destruct (IH Hs ltac:(lia)) as (r & Hr & Hr').
  assert (Hrest : exists r, scan_back (E := E) chars sep start b = Ok r /\ match r with Some x => (start < x <= S b)%nat | None => True end).
  { exists r. split; [done|]. destruct r; [lia|done]. }
  destruct (start + length sep <=? S b)%nat eqn:H2; cbn [obind]; [|exact Hrest]. apply Nat.leb_le in H2. unfold chars_slice.
  rewrite (proj2 (Nat.leb_le (S b - length sep) (S b))), (proj2 (Nat.leb_le (S b) n)) by lia. cbn [andb obind].
  case_bool_decide; [|exact Hrest]. exists (Some (S b)). split; [done|lia].
Qed.
Lemma find_in_spec {E} seps start hard_end : Forall (fun s => s <> []) seps -> (start < hard_end <= n)%nat ->
  exists e, find_in (E := E) seps chars start hard_end = Ok e /\ (start < e <= hard_end)%nat.
Proof.
  intros Hs Hh. induction Hs as [|sep seps Hsep _ IH]; cbn [find_in]; [exists hard_end; split; [done|lia]|].
  destruct (scan_back_spec (E := E) sep start hard_end Hsep ltac:(lia)) as ([x|] & -> & Hx); cbn [obind]; [by exists x|exact IH].
Qed.
Lemma find_break_spec {E} start hard_end : (start < hard_end <= n)%nat ->
  exists e, find_break (E := E) chars start hard_end = Ok e /\ (start < e <= hard_end)%nat.
Proof. apply find_in_spec. by repeat constructor. Qed.
Lemma chars_slice_ok {E} i j : (i <= j <= n)%nat -> chars_slice (E := E) chars i j = Ok (span chars i j).
Proof. intros H. unfold chars_slice. by rewrite (proj2 (Nat.leb_le i j)), (proj2 (Nat.leb_le j n)) by lia. Qed.
Lemma chunk_loop_spec {E} fuel : forall start i, (0 < max)%nat -> (overlap < max)%nat -> (start < n)%nat -> (n < fuel + start)%nat ->
  exists cs, chunk_loop (E := E) fuel chars max overlap start (i mod 2 ^ 32) = Ok cs /\ covers start i cs /\ (length cs + start <= n)%nat.
Proof.
  induction fuel as [|fuel IH]; intros start i Hm Ho Hs Hf; [lia|]. cbn [chunk_loop]. set (hard_end := Nat.min (start + max) n).
  assert (Hend : exists e, (if (n <=? hard_end)%nat then Ok n else find_break (E := E) chars start hard_end) = Ok e /\ (start < e <= n)%nat /\ (e - start <= max)%nat).
  { destruct (n <=? hard_end)%nat eqn:H1; [apply Nat.leb_le in H1; exists n; split; [done|lia]|]. apply Nat.leb_gt in H1.
    destruct (find_break_spec (E := E) start hard_end ltac:(lia)) as (e & -> & He). exists e. split; [done|lia]. }
  destruct Hend as (e & -> & He & Hsz). cbn [obind]. rewrite chars_slice_ok by lia. cbn [obind]. set (c := Build_Chunk _ _ _ _).
  assert (Hc : chunk_ok c) by (split; cbn; (done || lia)). destruct (n <=? e)%nat eqn:H2.
  - apply Nat.leb_le in H2. exists [c]. split_and!; [done|split_and!; [done..|cbn; lia]|cbn; lia].
  - apply Nat.leb_gt in H2. set (next := if (start <? e - overlap)%nat then _ else _).
    assert (Hnext : next = Nat.max (e - overlap) (S start)) by (subst next; destruct (start <? e - overlap)%nat eqn:H3; [apply Nat.ltb_lt in H3|apply Nat.ltb_ge in H3]; lia).
    destruct (IH next (i + 1) Hm Ho ltac:(lia) ltac:(lia)) as (cs & Hcs & Hcov & Hlen). rewrite Zplus_mod_idemp_l, Hcs. cbn [obind].
    exists (c :: cs). split_and!; [done| |cbn; lia]. destruct cs as [|c' cs]; [done|]. do 3 (split; [done|]). split; [cbn; lia|]. cbn [c char_end]. by rewrite <- Hnext.
Qed.
(** The text again: of each chunk what lies beyond the ones before. *)
Fixpoint joined (prev : nat) (cs : list Chunk) : bytes :=
  match cs with
  | [] => []
  | c :: cs => concat (drop (prev - c.(char_start)) (default [] (utf8_chars c.(text)))) ++ joined (Nat.max prev c.(char_end)) cs
  end.
Lemma joined_rest prev e : (prev <= n)%nat -> take (e - prev) (drop prev chars) ++ drop (Nat.max prev e) chars = drop prev chars.
Proof.
  intros Hp. destruct (decide (prev <= e)%nat) as [H|H].
  - rewrite <- (take_drop (e - prev) (drop prev chars)) at 2. f_equal. rewrite drop_drop. f_equal. lia.
  - replace (e - prev)%nat with O by lia. rewrite firstn_O, app_nil_l. f_equal. lia.
Qed.
Lemma covers_joined : Forall is_char chars -> forall cs start i prev, covers start i cs -> (start <= prev <= n)%nat -> joined prev cs = concat (drop prev chars).
Proof.
  intros Hch. induction cs as [|c cs IH]; intros start i prev Hc Hp; [done|]. destruct Hc as ([Hr _ Ht] & Hs & _ & Hrest). cbn [joined]. rewrite Ht, utf8_chars_concat.
  2: { unfold span. by apply Forall_take, Forall_drop. }
  cbn [from_option id]. unfold span, id. rewrite Hs, skipn_firstn_comm, drop_drop. replace (char_end c - start - (prev - start))%nat with (char_end c - prev)%nat by lia.
  replace (start + (prev - start))%nat with prev by lia. rewrite <- (joined_rest prev (char_end c)) at 2 by lia. rewrite concat_app. f_equal.
  destruct cs as [|c' cs].
  - rewrite Hrest. cbn. rewrite drop_ge by lia. done.
  - destruct Hrest as [He Hrest]. eapply IH; [exact Hrest|lia].
Qed.
End Cover.

(** Chunking ends without a fault. Each chunk is a non-empty piece of the text no
    longer than the bound; each begins after the one before began, in its overlap
    or at its end, so nothing of the text is lost, and the chunks put together
    again, without what they share, are the text. There are no more of them than
    the text has chars. *)
Theorem chunks_cover {E} t params : utf8_valid t = true ->
  exists cs, chunk (E := E) t params = Ok cs
    /\ (t = [] -> cs = [])
    /\ (t <> [] -> exists chars, utf8_chars t = Some chars
          /\ covers chars (Nat.max params.(max_chars) 1) (Nat.min params.(overlap_chars) (Nat.max params.(max_chars) 1 - 1)) 0 0 cs
          /\ (length cs <= length chars)%nat /\ joined 0 cs = t).
Proof.
  intros Hv. unfold utf8_valid, chunk in *. destruct (utf8_chars t) as [chars|] eqn:Hc; [|done]. destruct (utf8_chars_sound _ _ Hc) as [Hch Ht].
  set (max := Nat.max params.(max_chars) 1). set (overlap := Nat.min params.(overlap_chars) (max - 1)).
  destruct (length chars =? 0)%nat eqn:H0.
  - apply Nat.eqb_eq, nil_length_inv in H0. subst chars. exists []. cbn in Ht. by split_and!.
  - apply Nat.eqb_neq in H0. assert (Hne : t <> []) by (intros ->; cbn in Hc; injection Hc as <-; done).
    assert (Hres : exists cs, (if (length chars <=? max)%nat then Ok [{| text := concat chars; index := 0; char_start := 0; char_end := length chars |}]
      else chunk_loop (E := E) (S (length chars)) chars max overlap 0 0) = Ok cs /\ covers chars max overlap 0 0 cs /\ (length cs <= length chars)%nat).
    { destruct (length chars <=? max)%nat eqn:H1.
      - apply Nat.leb_le in H1. eexists. split; [done|]. split; [|cbn; lia]. split_and!; [|done|done|done].
        split; cbn; [lia|lia|]. unfold span. rewrite drop_0, Nat.sub_0_r, take_ge by lia. done.
      - apply Nat.leb_gt in H1. destruct (chunk_loop_spec chars max overlap (E := E) (S (length chars)) 0 0) as (cs & Hcs & Hcov & Hlen); [lia..|].
        exists cs. split_and!; [exact Hcs|done|lia]. }
    destruct Hres as (cs & -> & Hcov & Hlen). exists cs. split_and!; [done|done|]. intros _. exists chars. split_and!; [done|done|done|].
    rewrite (covers_joined chars max overlap Hch cs 0 0 0 Hcov) by lia. by rewrite drop_0.
Qed.
Lemma chunks_cover_witness : exists cs, chunk (E := unit) (str "one two. three") {| max_chars := 6; overlap_chars := 2 |} = Ok cs /\ joined 0 cs = str "one two. three".
Proof.
  destruct (chunks_cover (E := unit) (str "one two. three") {| max_chars := 6; overlap_chars := 2 |} ltac:(vm_compute; reflexivity)) as (cs & H1 & _ & H2).
  exists cs. split; [exact H1|]. destruct (H2 ltac:(done)) as (chars & _ & _ & _ & H3). exact H3.
Defined.
(** White space alone is a document like any other. *)
Lemma blank_text_is_chunked : chunk (E := unit) (str " ") ChunkParams_default = Ok [{| text := str " "; index := 0; char_start := 0; char_end := 1 |}].
Proof. vm_compute. reflexivity. Qed.
(** A separator close behind the start of a long window makes chunks that advance by
    one char and end where the first one did. *)
Lemma short_breaks_repeat : exists c1 c2 c3 cs, chunk (E := unit) (str "a" ++ [10; 10] ++ str "bcdefghij") {| max_chars := 8; overlap_chars := 4 |} = Ok (c1 :: c2 :: c3 :: cs)
  /\ (c1.(char_start), c1.(char_end)) = (0, 3)%nat /\ (c2.(char_start), c2.(char_end)) = (1, 3)%nat /\ (c3.(char_start), c3.(char_end)) = (2, 3)%nat.
Proof. vm_compute. by eexists _, _, _, _. Qed.
