(* ===== verification/Normalizer.v ===== *)
(** kx-normalizer (lib.rs): the canonical form a command line has before it is
    fingerprinted. *)
From S2P Require Import Prelude Utf8 CriticTypes Mote Critic Digits ParamSchema Text Toolcall ToolcallFacts.

Inductive RuleSet := CommandLineIntent.
Definition current_version (r : RuleSet) : Z := match r with CommandLineIntent => 1 end.
Inductive NormalizerKind := DeterministicRule (rule_set : RuleSet) (version : Z) | ModelAsMote (mote_id : MoteId).
Module NormalizerError.
Inductive NormalizerError := UnsupportedVersion (rule_set : RuleSet) (version max_supported : Z) | InvalidUtf8.
End NormalizerError.
Abbreviation NormalizerError := NormalizerError.NormalizerError.
(** The loop over the chars of the trimmed text. *)
Fixpoint collapse (prev_was_ws : bool) (cs : list bytes) : bytes :=
  match cs with
  | [] => []
  | c :: cs =>
      if is_white_char c then (if prev_was_ws then collapse true cs else [32] ++ collapse true cs)
      else c ++ collapse false cs
  end.
(** The trimmed text of a [str] is a [str]. *)
Definition command_line_intent_v1 (input : bytes) : outcome bytes NormalizerError :=
  if negb (utf8_valid input) then Err NormalizerError.InvalidUtf8
  else match utf8_chars (trim input) with
       | None => Panic
       | Some [] => Ok []
       | Some cs => Ok (collapse false cs)
       end.
Definition normalize_deterministic (rule_set : RuleSet) (version : Z) (input : bytes) : outcome bytes NormalizerError :=
  match rule_set with
  | CommandLineIntent =>
      if version =? 1 then command_line_intent_v1 input
      else Err (NormalizerError.UnsupportedVersion rule_set version (current_version rule_set))
  end.

(** ** The words of a text *)
Fixpoint text_words (cs : list bytes) : list (list bytes) :=
  match cs with
  | [] => []
  | c :: cs =>
      if is_white_char c then text_words cs
      else match text_words cs, cs with
           | w :: ws, d :: _ => if is_white_char d then [c] :: w :: ws else (c :: w) :: ws
           | _, _ => [[c]]
           end
  end.
Lemma text_words_cons c cs : text_words (c :: cs)
  = if is_white_char c then text_words cs
    else match text_words cs, cs with
         | w :: ws, d :: _ => if is_white_char d then [c] :: w :: ws else (c :: w) :: ws
         | _, _ => [[c]]
         end.
Proof. done. Qed.
Fixpoint join_words (ws : list (list bytes)) : list bytes :=
  match ws with
  | [] => []
  | [w] => w
  | w :: ws => w ++ [[32]] ++ join_words ws
  end.
Definition ends_dark (cs : list bytes) : Prop := match last cs with Some c => is_white_char c = false | None => True end.
Lemma ends_dark_tail c d cs : ends_dark (c :: d :: cs) -> ends_dark (d :: cs).
Proof. done. Qed.
Lemma words_nonempty cs : ends_dark cs -> cs <> [] -> text_words cs <> [].
Proof.
  induction cs as [|c cs IH]; intros Hd Hn; [done|]. cbn [text_words]. destruct (is_white_char c) eqn:Hc.
  - destruct cs as [|d cs]; [cbn in Hd; congruence|]. by apply IH.
  - destruct cs as [|d cs], (text_words _) as [|w ws]; try done. by destruct (is_white_char d).
Qed.
Lemma collapse_words cs : ends_dark cs ->
  collapse true cs = concat (join_words (text_words cs))
  /\ collapse false cs = (if match cs with c :: _ => is_white_char c | [] => false end then [32] else []) ++ concat (join_words (text_words cs)).
Proof.
  induction cs as [|c cs IH]; intros Hd; [done|]. assert (Hd' : ends_dark cs) by (destruct cs; [done|by eapply ends_dark_tail]). destruct (IH Hd') as [IH1 IH2].
  cbn [collapse text_words]. destruct (is_white_char c) eqn:Hc; [by rewrite IH1|]. assert (H : c ++ collapse false cs
    = concat (join_words (match text_words cs, cs with w :: ws, d :: _ => if is_white_char d then [c] :: w :: ws else (c :: w) :: ws | _, _ => [[c]] end))); [|done].
  rewrite IH2. destruct cs as [|d cs]; [done|]. pose proof (words_nonempty (d :: cs) Hd' ltac:(done)) as Hw. destruct (text_words (d :: cs)) as [|w ws]; [done|].
  destruct (is_white_char d); [done|]. destruct ws; cbn; by rewrite ?concat_app.
Qed.
(** Leading and trailing white space holds no word. *)
Lemma words_drop_white cs : text_words (drop_white cs) = text_words cs.
Proof. induction cs as [|c cs IH]; [done|]. cbn [drop_white text_words]. destruct (is_white_char c) eqn:Hc; [done|]. cbn [text_words]. by rewrite Hc. Qed.
Lemma words_snoc_white cs c : is_white_char c = true -> text_words (cs ++ [c]) = text_words cs.
Proof.
  intros Hc. induction cs as [|x cs IH]; cbn [app text_words]; [by rewrite Hc|]. rewrite IH. destruct (is_white_char x); [done|].
  destruct cs as [|d cs]; cbn [app]; [|done]. cbn [text_words]. done.
Qed.
Lemma words_app_white cs ws : Forall (fun c => is_white_char c = true) ws -> text_words (cs ++ ws) = text_words cs.
Proof.
  intros Hw. revert cs. induction Hw as [|c ws Hc _ IH]; intros cs; [by rewrite app_nil_r|]. change (c :: ws) with ([c] ++ ws). rewrite app_assoc, IH. by apply words_snoc_white.
Qed.
Lemma drop_white_head cs : match drop_white cs with c :: _ => is_white_char c = false | [] => True end.
Proof. induction cs as [|c cs IH]; [done|]. cbn [drop_white]. destruct (is_white_char c) eqn:Hc; [done|exact Hc]. Qed.
Lemma trimmed_words cs : text_words (trimmed cs) = text_words cs.
Proof.
  destruct (trimmed_split cs) as (ws & Hs & Hw). rewrite <- (words_drop_white cs), Hs. symmetry. by apply words_app_white.
Qed.
Lemma trimmed_dark cs : ends_dark (trimmed cs) /\ match trimmed cs with c :: _ => is_white_char c = false | [] => True end.
Proof.
  split.
  - unfold trimmed. pose proof (drop_white_head (rev (drop_white cs))) as Hh. unfold ends_dark. destruct (drop_white (rev (drop_white cs))) as [|c r]; [done|].
    cbn [rev]. by rewrite last_snoc.
  - destruct (trimmed_split cs) as (ws & Hs & _). pose proof (drop_white_head cs) as Hh. rewrite Hs in Hh. by destruct (trimmed cs).
Qed.

(** ** The canonical form *)
Lemma drop_white_chars cs : Forall is_char cs -> Forall is_char (drop_white cs).
Proof. intros H. destruct (drop_white_split cs) as (ws & Hs & _). rewrite Hs in H. by apply Forall_app in H as [_ ?]. Qed.
Lemma trimmed_chars cs : Forall is_char cs -> Forall is_char (trimmed cs).
Proof. intros H. unfold trimmed. by apply Forall_rev, drop_white_chars, Forall_rev, drop_white_chars. Qed.
Definition canonical (cs : list bytes) : list bytes := join_words (text_words cs).
Definition well_worded (ws : list (list bytes)) : Prop := Forall (fun w => w <> [] /\ Forall (fun c => is_white_char c = false) w) ws.
Lemma text_words_worded cs : well_worded (text_words cs).
Proof.
  induction cs as [|c cs IH]; cbn [text_words]; [constructor|]. destruct (is_white_char c) eqn:Hc; [done|].
  assert (H1 : well_worded [[c]]) by (apply Forall_singleton; split; [done|by apply Forall_singleton]).
  destruct (text_words cs) as [|w ws]; [done|]. destruct cs as [|d cs]; [done|]. apply Forall_cons in IH as [[Hw1 Hw2] IH].
  destruct (is_white_char d).
  - apply Forall_cons. split; [split; [done|by apply Forall_singleton]|by apply Forall_cons].
  - apply Forall_cons. split; [split; [done|by apply Forall_cons]|done].
Qed.
Lemma word_then w rest : w <> [] -> Forall (fun c => is_white_char c = false) w ->
  text_words (w ++ rest) = match rest with [] => [w] | d :: _ => if is_white_char d then w :: text_words rest else text_words (w ++ rest) end.
Proof.
  intros Hn Hw. destruct rest as [|d rest].
  - rewrite app_nil_r. induction Hw as [|c w Hc Hw IH]; [done|]. rewrite text_words_cons, Hc. destruct w as [|d w]; [done|]. rewrite IH by done.
    apply Forall_cons in Hw as [Hd _]. by rewrite Hd.
  - destruct (is_white_char d) eqn:Hd; [|done]. induction Hw as [|c w Hc Hw IH]; [done|]. rewrite <- app_comm_cons, text_words_cons, Hc. destruct w as [|x w].
    + cbn [app]. destruct (text_words (d :: rest)); [done|by rewrite Hd].
    + rewrite IH by done. rewrite <- app_comm_cons. apply Forall_cons in Hw as [Hx _]. by rewrite Hx.
Qed.
Lemma words_of_joined ws : well_worded ws -> text_words (join_words ws) = ws.
Proof.
  induction 1 as [|w ws [Hn Hw] Hws IH]; [done|]. destruct ws as [|w' ws].
  - cbn [join_words]. rewrite <- (app_nil_r w) at 1. by rewrite word_then.
  - change (join_words (w :: w' :: ws)) with (w ++ [[32]] ++ join_words (w' :: ws)). rewrite word_then by done. cbn [app].
    change (is_white_char [32]) with true. cbv iota. f_equal. cbn [text_words]. change (is_white_char [32]) with true. cbv iota. exact IH.
Qed.
Lemma canonical_chars cs : Forall is_char cs -> Forall is_char (canonical cs).
Proof.
  intros Hcs. unfold canonical. assert (Hw : Forall (Forall is_char) (text_words cs)).
  { induction Hcs as [|c cs Hc Hcs IH]; cbn [text_words]; [constructor|]. destruct (is_white_char c); [done|].
    assert (H1 : Forall (Forall is_char) [[c]]) by (by apply Forall_singleton, Forall_singleton).
    destruct (text_words cs) as [|w ws]; [done|]. destruct cs as [|d cs]; [done|]. apply Forall_cons in IH as [Hw IH].
    destruct (is_white_char d); rewrite !Forall_cons in *; tauto. }
  assert (Hsp : is_char [32]) by (by vm_compute).
  induction Hw as [|w ws Hw Hws IH]; [constructor|]. destruct ws as [|w' ws]; [done|].
  change (join_words (w :: w' :: ws)) with (w ++ [[32]] ++ join_words (w' :: ws)). rewrite !Forall_app, Forall_singleton. done.
Qed.
Lemma normalized_text input cs : utf8_chars input = Some cs -> command_line_intent_v1 input = Ok (concat (canonical cs)).
Proof.
  intros Hc. unfold command_line_intent_v1, utf8_valid, trim. rewrite Hc. cbn [negb]. destruct (utf8_chars_sound _ _ Hc) as [Hch _]. fold (trimmed cs).
  rewrite utf8_chars_concat by (by apply trimmed_chars). destruct (trimmed_dark cs) as [Hd Hh]. destruct (collapse_words (trimmed cs) Hd) as [_ Hcol].
  unfold canonical. rewrite <- trimmed_words. destruct (trimmed cs) as [|c l]; [done|]. rewrite Hcol, Hh. done.
Qed.
(** Version 1 is the one version there is, and it writes a text as its words with
    one space between: normalizing again changes nothing, two texts have the same
    form exactly when they have the same words, and what is not UTF-8 is refused. *)
Theorem canonical_by_words version a b :
  (version <> 1 -> normalize_deterministic CommandLineIntent version a = Err (NormalizerError.UnsupportedVersion CommandLineIntent version 1))
  /\ match utf8_chars a with
     | None => normalize_deterministic CommandLineIntent 1 a = Err NormalizerError.InvalidUtf8
     | Some ca =>
         normalize_deterministic CommandLineIntent 1 a = Ok (concat (canonical ca))
         /\ normalize_deterministic CommandLineIntent 1 (concat (canonical ca)) = Ok (concat (canonical ca))
         /\ forall cb, utf8_chars b = Some cb ->
              (normalize_deterministic CommandLineIntent 1 a = normalize_deterministic CommandLineIntent 1 b <-> text_words ca = text_words cb)
     end.
Proof.
  split; [intros Hv; cbn; by rewrite (proj2 (Z.eqb_neq version 1))|]. cbn [normalize_deterministic]. change (1 =? 1) with true. cbv iota.
  destruct (utf8_chars a) as [ca|] eqn:Ha; [|unfold command_line_intent_v1, utf8_valid; by rewrite Ha].
  destruct (utf8_chars_sound _ _ Ha) as [Hca _]. assert (Hcan : utf8_chars (concat (canonical ca)) = Some (canonical ca)) by (by apply utf8_chars_concat, canonical_chars).
  rewrite (normalized_text a ca Ha), (normalized_text _ _ Hcan). split_and!; [done| |].
  - unfold canonical. by rewrite words_of_joined by apply text_words_worded.
  - intros cb Hb. rewrite (normalized_text b cb Hb). destruct (utf8_chars_sound _ _ Hb) as [Hcb _]. split; [|unfold canonical; by intros ->].
    intros [= E]. assert (E' : canonical ca = canonical cb).
    { apply (f_equal utf8_chars) in E. rewrite !utf8_chars_concat in E by (by apply canonical_chars). congruence. }
    apply (f_equal text_words) in E'. unfold canonical in E'. by rewrite !words_of_joined in E' by apply text_words_worded.
Qed.
