(* ===== verification/Assembler.v ===== *)
(** kx-context-assembler (assemble.rs, types.rs, errors.rs): what a model sees of a
    Mote's dependencies, its attached context and its tools; with kx-content's
    recognition of images (sniff.rs). *)
From S2P Require Import Prelude Utf8 CriticTypes Mote ContextItems Entry Journal Warrant Content ProjState ProjQuery Critic Digits ParamSchema Text ToolRegistry ReactShape.

(** ** Images by their magic bytes *)
Module ImageFormat.
Inductive ImageFormat := Png | Jpeg | Gif | WebP | Bmp.
Definition as_str (f : ImageFormat) : bytes :=
  str match f with Png => "png" | Jpeg => "jpeg" | Gif => "gif" | WebP => "webp" | Bmp => "bmp" end.
End ImageFormat.
Abbreviation ImageFormat := ImageFormat.ImageFormat.
Definition sniff_image_format (b : bytes) : option ImageFormat :=
  if starts_with b [137; 80; 78; 71; 13; 10; 26; 10] then Some ImageFormat.Png
  else if starts_with b [255; 216; 255] then Some ImageFormat.Jpeg
  else if starts_with b (str "GIF8") then Some ImageFormat.Gif
  else if starts_with b (str "BM") then Some ImageFormat.Bmp
  else if (12 <=? length b)%nat && starts_with b (str "RIFF") && bool_decide (take 4 (drop 8 b) = str "WEBP") then Some ImageFormat.WebP
  else None.

(** ** Items *)
Module AssembledItem.
Record AssembledItem := { label : bytes; content : bytes; source_ref : ContentRef }.
End AssembledItem.
Abbreviation AssembledItem := AssembledItem.AssembledItem.
Record AssembledContext := { items : list AssembledItem }.
Definition total_bytes (c : AssembledContext) : nat := list_sum ((fun i => length i.(AssembledItem.content)) <$> c.(items)).
Definition context_len (c : AssembledContext) : nat := length c.(items).
Definition context_is_empty (c : AssembledContext) : bool := (context_len c =? 0)%nat.
Definition context_content_ref `{Blake3} (c : AssembledContext) : ContentRef := blake3 (concat (AssembledItem.content <$> c.(items))).
Module AssemblyError.
Inductive AssemblyError :=
| UpstreamNotCommitted (parent_mote_id : MoteId)
| ContentStoreMiss (content_ref : ContentRef)
| ToolNotResolvable (grant : ToolGrant) (reason : ResolutionError)
| OverflowDecisionRequired (closure_size_bytes window_bytes : nat).
End AssemblyError.
Abbreviation AssemblyError := AssemblyError.AssemblyError.

(** ** The tool menu *)
Definition DESCRIPTION_MAX : nat := 400.
Definition ELLIPSIS : bytes := [226; 128; 166].
(** The first [k] chars of a [str]. *)
Definition first_chars (k : nat) (s : bytes) : bytes := match utf8_chars s with Some cs => concat (take k cs) | None => s end.
Definition chars_count (s : bytes) : nat := match utf8_chars s with Some cs => length cs | None => O end.
Definition cap_description (description : bytes) : bytes :=
  if (chars_count description <=? DESCRIPTION_MAX)%nat then description
  else first_chars DESCRIPTION_MAX description ++ ELLIPSIS.
Definition NL : bytes := [10].
Definition param_line (p : ParamSpec) : bytes :=
  NL ++ str "  - " ++ p.(param_name) ++ str " ("
  ++ str match p.(ty) with Int _ _ => "integer" | Bytes _ => "bytes" | Str _ => "string" | Bool => "bool" | Enum _ => "enum" end
  ++ str ", " ++ str (if p.(required) then "required" else "optional") ++ str ")".
Definition tool_menu_text (grant_id : bytes) (def : ToolDef) : bytes :=
  let head := str "name: " ++ grant_id ++ NL ++ str "version: " ++ def.(ToolDef.tool_version) ++ NL in
  let description := cap_description def.(ToolDef.description) in
  match def.(ToolDef.input_schema) with
  | None => head ++ description
  | Some schema =>
      head ++ description ++ NL ++ str "Inputs:" ++ concat (param_line <$> schema.(params))
      ++ NL ++ str "Example: " ++ example_args_json schema
  end.
Definition menu_entry {R} `{ToolRegistry R} (registry : R) (g : ToolGrant) : bytes :=
  match lookup_tool registry g.(ToolGrant.tool_id) g.(ToolGrant.tool_version) with
  | Some def => tool_menu_text g.(ToolGrant.tool_id) def
  | None =>
      str "name: " ++ g.(ToolGrant.tool_id) ++ NL ++ str "version: " ++ g.(ToolGrant.tool_version) ++ NL
      ++ str "(schema unavailable " ++ [226; 128; 148] ++ str " call as {" ++ quoted (str "tool_call") ++ str ":{" ++ quoted (str "name") ++ str ":"
      ++ quoted g.(ToolGrant.tool_id) ++ str "," ++ quoted (str "version") ++ str ":" ++ quoted g.(ToolGrant.tool_version)
      ++ str "," ++ quoted (str "args") ++ str ":{}}})"
  end.
Definition render_tool_menu {R} `{ToolRegistry R} (gs : gset ToolGrant) (registry : R) : bytes :=
  if bool_decide (gs = ∅) then []
  else str "You can call the following tools:" ++ NL ++ concat ((fun g => NL ++ menu_entry registry g ++ NL) <$> grants_iter gs).

(** ** The rerank turn *)
Definition REASONING_HEADROOM : Z := 512.
Definition rerank_output_cap (n : Z) : Z :=
  Z.min (2 ^ 32 - 1) (Z.min (2 ^ 64 - 1) (Z.min (2 ^ 64 - 1) (n * 6) + REASONING_HEADROOM)).
Definition SNIPPET_MAX : nat := 400.
Definition render_rerank_prompt (query : bytes) (texts : list bytes) : bytes :=
  str "Rank the passages by how well each answers the query. Your entire response must be a single JSON array of the passage indices, most relevant first "
  ++ [226; 128; 148] ++ str " a permutation of 0.." ++ decimal (Z.of_nat (length texts))
  ++ str " with no duplicates (example: [2,0,1]). Output the array FIRST and nothing else: no reasoning, no explanation, no text before or after it."
  ++ NL ++ NL ++ str "Query: " ++ query ++ NL ++ NL ++ str "Passages:" ++ NL
  ++ concat (imap (fun i t => str "[" ++ decimal (Z.of_nat i) ++ str "] " ++ first_chars SNIPPET_MAX t ++ NL) texts).

(** ** Assembly *)
Section Assemble.
Context {S R : Type} `{!ContentStore S} `{!ToolRegistry R}.
Definition id_le (a b : MoteId) : Prop := bytes_le a b = true.
#[export] Instance id_le_dec : RelDecision id_le.
Proof. intros a b. unfold id_le. apply _. Defined.
#[export] Instance id_le_trans : Transitive id_le.
Proof. intros a b c. apply bytes_le_trans. Qed.
#[export] Instance id_le_total : Total id_le.
Proof. intros a b. apply bytes_le_total. Qed.
#[export] Instance id_le_antisymm : AntiSymm eq id_le.
Proof. intros a b. apply bytes_le_antisymm. Qed.
Definition data_parents (mote : Mote) : list MoteId :=
  merge_sort id_le (parent_id <$> List.filter (fun p => bool_decide (p.(edge).(kind) = Data)) mote.(parents)).
Fixpoint parent_items (snapshot : State) (store : S) (ordinal : nat) (ps : list MoteId) : outcome (list AssembledItem) AssemblyError :=
  match ps with
  | [] => Ok []
  | p :: ps =>
      match result_ref_of snapshot p with
      | None => Err (AssemblyError.UpstreamNotCommitted p)
      | Some result_ref =>
          match get store result_ref with
          | None => Err (AssemblyError.ContentStoreMiss result_ref)
          | Some payload =>
              let* rest := parent_items snapshot store (Datatypes.S ordinal) ps in
              Ok ({| AssembledItem.label := str "parent." ++ decimal (Z.of_nat (Datatypes.S ordinal));
                     AssembledItem.content := payload; AssembledItem.source_ref := result_ref |} :: rest)
          end
      end
  end.
Fixpoint context_items (store : S) (its : list ContextItemRef) : outcome (list AssembledItem) AssemblyError :=
  match its with
  | [] => Ok []
  | it :: its =>
      match get store it.(content_ref) with
      | None => Err (AssemblyError.ContentStoreMiss it.(content_ref))
      | Some payload =>
          let* rest := context_items store its in
          Ok ({| AssembledItem.label := str "context." ++ (match it.(name) with [] => take 16 (to_hex it.(content_ref)) | nm => nm end);
                 AssembledItem.content := payload; AssembledItem.source_ref := it.(content_ref) |} :: rest)
      end
  end.
Fixpoint tool_items (registry : R) (warrant : WarrantSpec) (gs : list ToolGrant) : outcome (list AssembledItem) AssemblyError :=
  match gs with
  | [] => Ok []
  | g :: gs =>
      let* resolved := omap_err (AssemblyError.ToolNotResolvable g) (resolve_tool registry g warrant) in
      let* rest := tool_items registry warrant gs in
      Ok ({| AssembledItem.label := str "tool." ++ g.(ToolGrant.tool_id) ++ str "@" ++ g.(ToolGrant.tool_version);
             AssembledItem.content := tool_menu_text g.(ToolGrant.tool_id) resolved.(resolved_def);
             AssembledItem.source_ref := resolved.(event).(resolved_def_hash) |} :: rest)
  end.
Definition is_image (i : AssembledItem) : bool := match sniff_image_format i.(AssembledItem.content) with Some _ => true | None => false end.
Definition text_bytes (its : list AssembledItem) : nat :=
  list_sum ((fun i => length i.(AssembledItem.content)) <$> List.filter (fun i => negb (is_image i)) its).
Definition attached (mote : Mote) : list ContextItemRef :=
  match mote.(def).(config_subset) !! CONTEXT_ITEMS_KEY with Some encoded => decode_context_items encoded | None => [] end.
Definition assemble (mote : Mote) (warrant : WarrantSpec) (snapshot : State) (store : S) (registry : R) (window_bytes : nat)
    : outcome AssembledContext AssemblyError :=
  let* pi := parent_items snapshot store 0 (data_parents mote) in
  let* ci := context_items store (attached mote) in
  let* ti := tool_items registry warrant (grants_iter warrant.(WarrantSpec.tool_grants)) in
  let its := pi ++ ci ++ ti in
  if (window_bytes <? text_bytes its)%nat then Err (AssemblyError.OverflowDecisionRequired (text_bytes its) window_bytes)
  else Ok {| items := its |}.

(** ** What is assembled *)
Definition parent_item (snapshot : State) (store : S) (p : MoteId) (i : AssembledItem) : Prop :=
  result_ref_of snapshot p = Some i.(AssembledItem.source_ref) /\ get store i.(AssembledItem.source_ref) = Some i.(AssembledItem.content).
Definition context_item (store : S) (it : ContextItemRef) (i : AssembledItem) : Prop :=
  i.(AssembledItem.source_ref) = it.(content_ref) /\ get store it.(content_ref) = Some i.(AssembledItem.content).
Definition tool_item (registry : R) (warrant : WarrantSpec) (g : ToolGrant) (i : AssembledItem) : Prop :=
  exists resolved, resolve_tool registry g warrant = Ok resolved
    /\ i.(AssembledItem.content) = tool_menu_text g.(ToolGrant.tool_id) resolved.(resolved_def)
    /\ i.(AssembledItem.source_ref) = resolved.(event).(resolved_def_hash).
Lemma parent_items_spec snapshot store ps : forall k,
  match parent_items snapshot store k ps with
  | Ok its => Forall2 (parent_item snapshot store) ps its
  | Err (AssemblyError.UpstreamNotCommitted p) => p ∈ ps /\ result_ref_of snapshot p = None
  | Err (AssemblyError.ContentStoreMiss r) => (exists p, p ∈ ps /\ result_ref_of snapshot p = Some r) /\ get store r = None
  | _ => False
  end.
Proof.
  induction ps as [|p ps IH]; intros k; cbn [parent_items]; [constructor|]. destruct (result_ref_of snapshot p) as [r|] eqn:Hr; [|split; [left|done]].
  destruct (get store r) as [b|] eqn:Hb; [|split; [exists p; split; [left|done]|done]]. specialize (IH (Datatypes.S k)).
  destruct (parent_items snapshot store (Datatypes.S k) ps) as [its|e|]; cbn [obind]; [by constructor| |done].
  destruct e; try done; [destruct IH; split; [by right|done]|]. destruct IH as [(q & Hq & ?) ?]. split; [exists q; split; [by right|done]|done].
Qed.
Lemma context_items_spec store its :
  match context_items store its with
  | Ok out => Forall2 (context_item store) its out
  | Err (AssemblyError.ContentStoreMiss r) => (exists it, it ∈ its /\ it.(content_ref) = r) /\ get store r = None
  | _ => False
  end.
Proof.
  induction its as [|it its IH]; cbn [context_items]; [constructor|]. destruct (get store it.(content_ref)) as [b|] eqn:Hb; [|split; [exists it; split; [left|done]|done]].
  destruct (context_items store its) as [out|e|]; cbn [obind]; [by constructor| |done]. destruct e; try done. destruct IH as [(q & Hq & ?) ?]. split; [exists q; split; [by right|done]|done].
Qed.
Lemma tool_items_spec registry warrant gs :
  match tool_items registry warrant gs with
  | Ok out => Forall2 (tool_item registry warrant) gs out
  | Err (AssemblyError.ToolNotResolvable g e) => g ∈ gs /\ resolve_tool registry g warrant = Err e
  | Err _ => False
  | Panic => exists g, g ∈ gs /\ resolve_tool registry g warrant = Panic
  end.
Proof.
  induction gs as [|g gs IH]; cbn [tool_items]; [constructor|]. destruct (resolve_tool registry g warrant) as [res|e|] eqn:Hr; cbn [omap_err obind].
  - destruct (tool_items registry warrant gs) as [out|e|]; cbn [obind].
    + constructor; [by exists res|done].
    + destruct e; try done. destruct IH. split; [by right|done].
    + destruct IH as (g' & ? & ?). exists g'. split; [by right|done].
  - split; [left|done].
  - exists g. split; [left|done].
Qed.
(** [C26] The context is the results of the Data parents in the order of their ids, the
    attached items in theirs and the tools of the grants in theirs, each fetched or
    resolved; its text fits the window. Anything missing, unresolvable or too large
    is refused and named, nothing is left out, and the order in which the Mote
    lists its parents does not matter. *)
Theorem context_is_closure mote warrant snapshot store registry window :
  match assemble mote warrant snapshot store registry window with
  | Ok ctx => exists pi ci ti, ctx.(items) = pi ++ ci ++ ti
      /\ Forall2 (parent_item snapshot store) (data_parents mote) pi
      /\ Forall2 (context_item store) (attached mote) ci
      /\ Forall2 (tool_item registry warrant) (grants_iter warrant.(WarrantSpec.tool_grants)) ti
      /\ (text_bytes ctx.(items) <= window)%nat
  | Err (AssemblyError.UpstreamNotCommitted p) => p ∈ data_parents mote /\ result_ref_of snapshot p = None
  | Err (AssemblyError.ContentStoreMiss r) => get store r = None
      /\ ((exists p, p ∈ data_parents mote /\ result_ref_of snapshot p = Some r) \/ exists it, it ∈ attached mote /\ it.(content_ref) = r)
  | Err (AssemblyError.ToolNotResolvable g e) => g ∈ warrant.(WarrantSpec.tool_grants) /\ resolve_tool registry g warrant = Err e
  | Err (AssemblyError.OverflowDecisionRequired size w) => w = window /\ (window < size)%nat
  | Panic => exists g, g ∈ warrant.(WarrantSpec.tool_grants) /\ resolve_tool registry g warrant = Panic
  end
  /\ (forall mote', mote'.(def) = mote.(def) -> mote'.(parents) ≡ₚ mote.(parents) ->
       assemble mote' warrant snapshot store registry window = assemble mote warrant snapshot store registry window)
  /\ (forall p, p ∈ data_parents mote <-> exists x, x ∈ mote.(parents) /\ x.(edge).(kind) = Data /\ x.(parent_id) = p).
Proof.
  split_and!.
  - unfold assemble. pose proof (parent_items_spec snapshot store (data_parents mote) 0) as Hp.
    destruct (parent_items _ _ _ _) as [pi|e|]; cbn [obind]; [|destruct e; try done; destruct Hp; split; [done|by left]|done].
    pose proof (context_items_spec store (attached mote)) as Hc. destruct (context_items _ _) as [ci|e|]; cbn [obind]; [|destruct e; try done; destruct Hc; split; [done|by right]|done].
    assert (Hg : forall g, g ∈ grants_iter warrant.(WarrantSpec.tool_grants) -> g ∈ warrant.(WarrantSpec.tool_grants)).
    { intros g. unfold grants_iter. rewrite merge_sort_Permutation. apply elem_of_elements. }
    pose proof (tool_items_spec registry warrant (grants_iter warrant.(WarrantSpec.tool_grants))) as Ht.
    destruct (tool_items _ _ _) as [ti|e|]; cbn [obind]; [|destruct e; try done; destruct Ht; split; [by apply Hg|done]|destruct Ht as (g & ? & ?); exists g; split; [by apply Hg|done]].
    destruct (window <? _)%nat eqn:Hw; [apply Nat.ltb_lt in Hw; done|]. apply Nat.ltb_ge in Hw. by exists pi, ci, ti.
  - intros mote' Hd Hps. assert (Hdp : data_parents mote' = data_parents mote); [|unfold assemble, attached; by rewrite Hdp, Hd].
    unfold data_parents. apply (StronglySorted_unique id_le).
    + apply StronglySorted_merge_sort; apply _.
    + apply StronglySorted_merge_sort; apply _.
    + rewrite !merge_sort_Permutation. apply fmap_Permutation. induction Hps; cbn [List.filter]; repeat case_bool_decide; try done; (by constructor) || (by etransitivity) || idtac.
  - intros p. unfold data_parents. rewrite merge_sort_Permutation, list_elem_of_fmap. split.
    + intros (x & -> & Hx). apply list_elem_of_In, filter_In in Hx as [Hx Hk]. apply list_elem_of_In in Hx. apply bool_decide_eq_true in Hk. by exists x.
    + intros (x & Hx & Hk & <-). exists x. split; [done|]. apply list_elem_of_In, filter_In. split; [by apply list_elem_of_In|]. by apply bool_decide_eq_true.
Qed.
End Assemble.
(** Text that happens to begin like a bitmap is taken for one, and is not counted
    against the window. *)
Lemma bitmap_text_uncounted :
  let t := str "BMW is a car maker" in
  sniff_image_format t = Some ImageFormat.Bmp
  /\ text_bytes [{| AssembledItem.label := []; AssembledItem.content := t; AssembledItem.source_ref := [] |}] = O.
Proof. vm_compute. done. Qed.
