(* ===== verification/WorkCache.v ===== *)
(** kx-work-cache: the cache of PURE results across runs, by a key that leaves the
    position in the graph out (lib.rs), in memory and in SQLite (in_memory.rs,
    sqlite.rs). *)
From S2P Require Import Prelude Utf8 CriticTypes Mote Content.

(** ** The key of a unit of work *)
Abbreviation WorkFingerprint := bytes.
Definition domain_sep (nd : NdClass) : bytes :=
  str match nd with
      | Pure => "kx-work-cache/v1/pure"
      | ReadOnlyNondet => "kx-work-cache/v1/rond"
      | WorldMutating => "kx-work-cache/v1/wm-FORBIDDEN"
      end.
(** What the hasher is fed. *)
Definition work_stream (nd : NdClass) (mote_def_hash input_data_id : bytes) : bytes := domain_sep nd ++ mote_def_hash ++ input_data_id.
Definition work_fingerprint `{Blake3} (nd : NdClass) (mote_def_hash input_data_id : bytes) : WorkFingerprint :=
  blake3 (work_stream nd mote_def_hash input_data_id).

(** ** The trait and what it promises *)
Class WorkCache (C : Type) := {
  lookup_work : C -> WorkFingerprint -> option ContentRef;
  insert_work : C -> WorkFingerprint -> ContentRef -> NdClass -> MoteId -> C;
  evict_work : C -> WorkFingerprint -> C
}.
(** The first result recorded for a key stays until the key is evicted. *)
Class WorkCacheLaws (C : Type) `{WorkCache C} := {
  caches : C -> gmap bytes bytes -> Prop;
  lookup_work_law : forall c m fp, caches c m -> lookup_work c fp = m !! fp;
  insert_work_law : forall c m fp r nd source, caches c m -> length r = 32%nat -> caches (insert_work c fp r nd source) (or_insert fp r m);
  evict_work_law : forall c m fp, caches c m -> caches (evict_work c fp) (delete fp m)
}.

(** ** In memory *)
Record InMemoryWorkCache := { inner : gmap bytes bytes }.
Definition InMemoryWorkCache_new : InMemoryWorkCache := {| inner := ∅ |}.
Definition work_len (c : InMemoryWorkCache) : nat := size c.(inner).
Definition work_is_empty (c : InMemoryWorkCache) : bool := (work_len c =? 0)%nat.
#[export] Instance InMemory_WorkCache : WorkCache InMemoryWorkCache := {|
  lookup_work c fp := c.(inner) !! fp;
  insert_work c fp r _ _ := {| inner := or_insert fp r c.(inner) |};
  evict_work c fp := {| inner := delete fp c.(inner) |}
|}.

(** ** SQLite
    The table by its rows. A call to SQLite may fail, which [io] says. *)
Module WorkRow.
Record WorkRow := { work_fingerprint : bytes; result_ref : bytes; nd_class : Z; source_mote_id : bytes }.
End WorkRow.
Abbreviation WorkRow := WorkRow.WorkRow.
Record SqliteWorkCache := { rows : list WorkRow }.
Definition SqliteWorkCache_new : SqliteWorkCache := {| rows := [] |}.
Definition nd_class_to_u8 (nd : NdClass) : Z := match nd with Pure => 0 | ReadOnlyNondet => 1 | WorldMutating => 2 end.
Definition has_fp (fp : WorkFingerprint) (r : WorkRow) : bool := bool_decide (r.(WorkRow.work_fingerprint) = fp).
Definition try_lookup (io : bool) (c : SqliteWorkCache) (fp : WorkFingerprint) : outcome (option ContentRef) unit :=
  if io
  then Ok (match List.find (has_fp fp) c.(rows) with
           | Some r => if (length r.(WorkRow.result_ref) =? 32)%nat then Some r.(WorkRow.result_ref) else None
           | None => None
           end)
  else Err tt.
(** [INSERT OR IGNORE] under the primary key. *)
Definition try_insert (io : bool) (c : SqliteWorkCache) (fp : WorkFingerprint) (r : ContentRef) (nd : NdClass) (source : MoteId)
    : outcome SqliteWorkCache unit :=
  if io
  then Ok (if existsb (has_fp fp) c.(rows) then c
           else {| rows := c.(rows) ++ [{| WorkRow.work_fingerprint := fp; WorkRow.result_ref := r; WorkRow.nd_class := nd_class_to_u8 nd;
                                           WorkRow.source_mote_id := source |}] |})
  else Err tt.
Definition try_evict (io : bool) (c : SqliteWorkCache) (fp : WorkFingerprint) : outcome SqliteWorkCache unit :=
  if io then Ok {| rows := List.filter (fun r => negb (has_fp fp r)) c.(rows) |} else Err tt.
(** The trait's methods turn a failure into a miss or into nothing done. *)
Definition sq_lookup (io : bool) (c : SqliteWorkCache) (fp : WorkFingerprint) : option ContentRef :=
  match try_lookup io c fp with Ok hit => hit | _ => None end.
Definition sq_insert (io : bool) (c : SqliteWorkCache) (fp : WorkFingerprint) (r : ContentRef) (nd : NdClass) (source : MoteId) : SqliteWorkCache :=
  match try_insert io c fp r nd source with Ok c => c | _ => c end.
Definition sq_evict (io : bool) (c : SqliteWorkCache) (fp : WorkFingerprint) : SqliteWorkCache :=
  match try_evict io c fp with Ok c => c | _ => c end.
#[export] Instance Sqlite_WorkCache : WorkCache SqliteWorkCache := {|
  lookup_work := sq_lookup true; insert_work := sq_insert true; evict_work := sq_evict true |}.

(** ** The backends keep the promise *)
#[export] Instance InMemory_WorkCacheLaws : WorkCacheLaws InMemoryWorkCache.
Proof. refine {| caches := fun c m => c.(inner) = m |}; by intros; subst. Defined.
Definition table_holds (c : SqliteWorkCache) (m : gmap bytes bytes) : Prop :=
  forall fp, (WorkRow.result_ref <$> List.find (has_fp fp) c.(rows)) = m !! fp /\ forall r, m !! fp = Some r -> length r = 32%nat.
Lemma table_find_app fp l r : List.find (has_fp fp) (l ++ [r]) = match List.find (has_fp fp) l with Some x => Some x | None => if has_fp fp r then Some r else None end.
Proof. induction l as [|x l IH]; [done|]. cbn. by destruct (has_fp fp x). Qed.
Lemma table_find_filter fp fp' l : List.find (has_fp fp) (List.filter (fun r => negb (has_fp fp' r)) l) = if bool_decide (fp = fp') then None else List.find (has_fp fp) l.
Proof.
  induction l as [|x l IH]; [by case_bool_decide|]. cbn [List.filter List.find]. destruct (has_fp fp' x) eqn:Hx; cbn [negb List.find].
  - rewrite IH. apply bool_decide_eq_true in Hx. unfold has_fp at 2. rewrite Hx. repeat case_bool_decide; congruence.
  - destruct (has_fp fp x) eqn:Hy; [|exact IH]. apply bool_decide_eq_true in Hy. apply bool_decide_eq_false in Hx. case_bool_decide; congruence.
Qed.
#[export] Instance Sqlite_WorkCacheLaws : WorkCacheLaws SqliteWorkCache.
Proof.
  refine {| caches := table_holds |}.
  - intros c m fp Hh. cbn. unfold sq_lookup, try_lookup. destruct (Hh fp) as [<- Hl]. destruct (List.find _ _) as [r|]; [|done]. cbn in *.
    by rewrite (Hl _ eq_refl).
  - intros c m fp r nd source Hh Hr fp'. cbn. unfold sq_insert, try_insert, or_insert. destruct (Hh fp) as [Hfp _]. destruct (Hh fp') as [Hfp' Hl].
    destruct (existsb (has_fp fp) c.(rows)) eqn:He.
    + apply existsb_exists in He as (x & Hin & Hx). destruct (List.find (has_fp fp) c.(rows)) eqn:Hf; [|eapply find_none in Hf; [|exact Hin]; congruence].
      cbn in Hfp. rewrite <- Hfp. done.
    + assert (Hnone : List.find (has_fp fp) c.(rows) = None).
      { destruct (List.find _ _) as [x|] eqn:Hf; [|done]. apply find_some in Hf. apply not_true_iff_false in He. exfalso. apply He, existsb_exists. by exists x. }
      rewrite Hnone in Hfp. cbn in Hfp. rewrite <- Hfp. cbn [rows]. rewrite table_find_app. unfold has_fp at 2. cbn [WorkRow.work_fingerprint].
      case_bool_decide as Hd; [subst fp'; rewrite Hnone, lookup_insert_eq; cbn; naive_solver|].
      rewrite lookup_insert_ne by done. destruct (List.find _ _); done.
  - intros c m fp Hh fp'. cbn. rewrite table_find_filter. destruct (Hh fp') as [Hfp Hl]. case_bool_decide; [subst; by rewrite lookup_delete_eq|].
    by rewrite lookup_delete_ne.
Defined.

(** ** What a hit is *)
Inductive WorkOp :=
| RecordWork (nd : NdClass) (mote_def_hash input_data_id : bytes) (r : ContentRef) (source : MoteId)
| EvictWork (nd : NdClass) (mote_def_hash input_data_id : bytes).
Definition work_key (o : WorkOp) : NdClass * bytes * bytes :=
  match o with RecordWork nd d i _ _ | EvictWork nd d i => (nd, d, i) end.
Definition key_stream (k : NdClass * bytes * bytes) : bytes := work_stream k.1.1 k.1.2 k.2.
Definition key_ok (k : NdClass * bytes * bytes) : Prop := length k.1.2 = 32%nat /\ length k.2 = 32%nat.
Section Hits.
Context `{Blake3}.
Definition key_fp (k : NdClass * bytes * bytes) : WorkFingerprint := work_fingerprint k.1.1 k.1.2 k.2.
Definition work_step {C} `{WorkCache C} (c : C) (o : WorkOp) : C :=
  match o with
  | RecordWork nd d i r source => insert_work c (work_fingerprint nd d i) r nd source
  | EvictWork nd d i => evict_work c (work_fingerprint nd d i)
  end.
(** The durable cache with a success for each call. *)
Definition sq_step (c : SqliteWorkCache) (x : WorkOp * bool) : SqliteWorkCache :=
  match x.1 with
  | RecordWork nd d i r source => sq_insert x.2 c (work_fingerprint nd d i) r nd source
  | EvictWork nd d i => sq_evict x.2 c (work_fingerprint nd d i)
  end.
(** The first result recorded under a key since it was last evicted. *)
Fixpoint recorded (fp : WorkFingerprint) (ops : list WorkOp) (now : option ContentRef) : option ContentRef :=
  match ops with
  | [] => now
  | o :: ops =>
      recorded fp ops (if bool_decide (key_fp (work_key o) = fp)
                       then match o with RecordWork _ _ _ r _ => Some (default r now) | EvictWork _ _ _ => None end
                       else now)
  end.
Definition results_ok (ops : list WorkOp) : Prop := Forall (fun o => match o with RecordWork _ _ _ r _ => length r = 32%nat | _ => True end) ops.
Lemma lawful_run {C} `{WorkCacheLaws C} ops : forall c m fp, caches c m -> results_ok ops -> lookup_work (foldl work_step c ops) fp = recorded fp ops (m !! fp).
Proof.
  induction ops as [|o ops IH]; intros c m fp Hc Hr; cbn [foldl recorded]; [by apply lookup_work_law|]. apply Forall_cons in Hr as [Ho Hr].
  destruct o as [nd d i r source|nd d i]; cbn [work_step work_key key_fp fst snd].
  - rewrite (IH _ _ fp (insert_work_law _ _ (work_fingerprint nd d i) r nd source Hc Ho) Hr). f_equal. unfold or_insert, key_fp. cbn [fst snd].
    destruct (m !! work_fingerprint nd d i) as [x|] eqn:Hm.
    + case_bool_decide as Hd; [|done]. rewrite <- Hd, Hm. done.
    + case_bool_decide as Hd; [|by rewrite lookup_insert_ne]. rewrite <- Hd, Hm, lookup_insert_eq. done.
  - rewrite (IH _ _ fp (evict_work_law _ _ (work_fingerprint nd d i) Hc) Hr). f_equal. unfold key_fp. cbn [fst snd].
    case_bool_decide as Hd; [rewrite <- Hd; by rewrite lookup_delete_eq|by rewrite lookup_delete_ne].
Qed.
Lemma key_stream_inj k k' : key_ok k -> key_ok k' -> key_stream k = key_stream k' -> k = k'.
Proof.
  destruct k as [[nd d] i], k' as [[nd' d'] i']. unfold key_ok, key_stream, work_stream. cbn [fst snd]. intros [H1 H2] [H3 H4] E.
  assert (Hnd : nd = nd').
  { pose proof (f_equal length E) as El. rewrite !length_app in El. destruct nd, nd'; try done; (cbn in El; lia) || (exfalso; clear -E; cbn in E; congruence). }
  subst nd'. apply app_inv_head in E. apply app_inj_1 in E as [-> ->]; [done|congruence].
Qed.
Lemma row_was_recorded ops : forall c x,
  x ∈ (foldl sq_step c ops).(rows) -> x ∈ c.(rows)
  \/ exists o io nd d i r source, (o, io) ∈ ops /\ o = RecordWork nd d i r source
       /\ x.(WorkRow.work_fingerprint) = work_fingerprint nd d i /\ x.(WorkRow.result_ref) = r.
Proof.
  induction ops as [|[o io] ops IH]; intros c x Hx; [by left|]. cbn [foldl] in Hx. destruct (IH _ _ Hx) as [Hc|(o' & io' & nd & d & i & r & source & Ho & Hrest)].
  - unfold sq_step in Hc. cbn [fst snd] in Hc. destruct o as [nd d i r source|nd d i]; destruct io; cbn in Hc; try (by left).
    + unfold sq_insert, try_insert in Hc. destruct (existsb _ _); [by left|]. cbn in Hc. apply elem_of_app in Hc as [Hc| ->%list_elem_of_singleton]; [by left|].
      right. eexists _, true, nd, d, i, r, source. split_and!; [left|done|done|done].
    + left. unfold sq_evict, try_evict in Hc. cbn in Hc. apply list_elem_of_In, filter_In in Hc as [Hc _]. by apply list_elem_of_In.
  - right. exists o', io', nd, d, i, r, source. split; [by right|done].
Qed.
(** Both backends answer with the first result recorded under a key since it was
    last evicted. Whatever calls of the durable one fail, a result it serves for
    PURE work was recorded for PURE work of the same definition and input, if no
    other key in use has the same digest: no result of an effect is ever served. *)
Theorem work_cache_serves ops fp :
  (results_ok ops -> lookup_work (foldl work_step InMemoryWorkCache_new ops) fp = recorded fp ops None
                     /\ lookup_work (foldl work_step SqliteWorkCache_new ops) fp = recorded fp ops None)
  /\ forall runs d i r, key_ok (Pure, d, i) -> Forall (fun x => key_ok (work_key x.1)) runs ->
       Forall (fun x => key_fp (work_key x.1) = key_fp (Pure, d, i) -> key_stream (work_key x.1) = key_stream (Pure, d, i)) runs ->
       forall io, sq_lookup io (foldl sq_step SqliteWorkCache_new runs) (work_fingerprint Pure d i) = Some r ->
       exists io' source, (RecordWork Pure d i r source, io') ∈ runs.
Proof.
  split.
  - intros Hr. assert (H1 : caches InMemoryWorkCache_new ∅) by done. assert (H2 : caches SqliteWorkCache_new ∅) by (by intros x).
    by rewrite (lawful_run ops _ _ fp H1 Hr), (lawful_run ops _ _ fp H2 Hr).
  - intros runs d i r Hk Hks Hcol io Hl. unfold sq_lookup, try_lookup in Hl. destruct io; [|done].
    destruct (List.find _ _) as [x|] eqn:Hf; [|done]. destruct (_ =? 32)%nat; [|done]. injection Hl as <-. apply find_some in Hf as [Hx Hfp]. apply bool_decide_eq_true in Hfp.
    apply list_elem_of_In, row_was_recorded in Hx as [Hx|(o & io' & nd & d' & i' & r & source & Ho & -> & Hw & <-)]; [by apply not_elem_of_nil in Hx|].
    rewrite Forall_forall in Hks, Hcol. specialize (Hks _ Ho). specialize (Hcol _ Ho). cbn [fst work_key] in Hks, Hcol.
    assert (E : (nd, d', i') = (Pure, d, i)); [|injection E as -> -> ->; by exists io', source].
    apply key_stream_inj; [done|done|]. apply Hcol. unfold key_fp. cbn [fst snd]. congruence.
Qed.
End Hits.
(** One recorded result, looked up again. *)
Lemma work_cache_serves_witness :
  let d := replicate 32 7 in let i := replicate 32 9 in let r := replicate 32 5 in
  exists io' source, (RecordWork Pure d i r source, io') ∈ [(RecordWork Pure d i r (replicate 32 3), true)].
Proof.
  intros d i r. refine (proj2 (@work_cache_serves demo_blake3 [] []) _ d i r _ _ _ true _).
  - split; vm_compute; done.
  - apply Forall_singleton. split; vm_compute; done.
  - apply Forall_singleton. done.
  - vm_compute. reflexivity.
Defined.
