(* ===== verification/Grants.v ===== *)
(** kx-catalog: grants on catalog assets (action.rs, party.rs, path.rs, grant.rs,
    ledger.rs), the ledger of grant facts in memory (in_memory_ledger.rs) and in
    SQLite (sqlite_grant_ledger.rs, sqlite_util.rs). Authority is not recorded but
    computed: a fact conveys only what an unbroken, unrevoked chain of delegations
    from the owner gives it. *)
From S2P Require Import Prelude Utf8 CriticTypes Mote Content Warrant DemoCodec.

(** ** Catalog actions *)
Module CatalogAction.
Inductive CatalogAction := Read | Use | Register | Delegate.
End CatalogAction.
Abbreviation CatalogAction := CatalogAction.CatalogAction.
#[export] Instance CatalogAction_eq_dec : EqDecision CatalogAction.
Proof. solve_decision. Defined.
#[export] Instance CatalogAction_countable : Countable CatalogAction.
Proof.
  refine (inj_countable' (fun a => match a with CatalogAction.Read => 0 | CatalogAction.Use => 1 | CatalogAction.Register => 2 | CatalogAction.Delegate => 3 end)
    (fun n => match n with 0 => CatalogAction.Read | 1 => CatalogAction.Use | 2 => CatalogAction.Register | _ => CatalogAction.Delegate end) _).
  by intros [].
Defined.
Definition all_actions : gset CatalogAction := {[CatalogAction.Read; CatalogAction.Use; CatalogAction.Register; CatalogAction.Delegate]}.
Module CatalogActionSet.
Inductive CatalogActionSet := None | AllowList (actions : gset CatalogAction).
Definition all : CatalogActionSet := AllowList all_actions.
Definition allow (s : gset CatalogAction) : CatalogActionSet := if bool_decide (s = ∅) then None else AllowList s.
Definition is_subset_of (a parent : CatalogActionSet) : bool :=
  match a, parent with
  | None, _ => true
  | AllowList _, None => false
  | AllowList c, AllowList p => bool_decide (c ⊆ p)
  end.
Definition narrow (a cap : CatalogActionSet) : CatalogActionSet :=
  match a, cap with
  | None, _ | _, None => None
  | AllowList x, AllowList y => allow (x ∩ y)
  end.
Definition union (a b : CatalogActionSet) : CatalogActionSet :=
  match a, b with
  | None, x | x, None => x
  | AllowList x, AllowList y => allow (x ∪ y)
  end.
Definition contains (a : CatalogActionSet) (action : CatalogAction) : bool :=
  match a with None => false | AllowList s => bool_decide (action ∈ s) end.
Definition is_empty (a : CatalogActionSet) : bool := match a with None => true | AllowList _ => false end.
End CatalogActionSet.
Abbreviation CatalogActionSet := CatalogActionSet.CatalogActionSet.
#[export] Instance CatalogActionSet_eq_dec : EqDecision CatalogActionSet.
Proof. solve_decision. Defined.

(** ** Parties and assets *)
Abbreviation PartyId := bytes.
Definition MAX_SEGMENT_LEN : nat := 128.
Module AssetPathError.
Inductive AssetPathError :=
| EmptySegment (which : bytes)
| IllegalChar (which ch : bytes)
| SegmentTooLong (which : bytes) (len : nat)
| LeadingOrTrailingPunct (which : bytes).
End AssetPathError.
Abbreviation AssetPathError := AssetPathError.AssetPathError.
Definition in_class (ch : bytes) : bool :=
  match ch with
  | [c] => ((97 <=? c) && (c <=? 122)) || ((48 <=? c) && (c <=? 57)) || (c =? 46) || (c =? 95) || (c =? 45)
  | _ => false
  end.
Definition is_punct (ch : bytes) : bool := match ch with [c] => (c =? 46) || (c =? 45) | _ => false end.
Definition validate_segment (which seg : bytes) : outcome unit AssetPathError :=
  match seg with
  | [] => Err (AssetPathError.EmptySegment which)
  | _ =>
      if (MAX_SEGMENT_LEN <? length seg)%nat then Err (AssetPathError.SegmentTooLong which (length seg))
      else
        match utf8_chars seg with
        | None => Panic
        | Some chars =>
            match List.find (fun ch => negb (in_class ch)) chars with
            | Some ch => Err (AssetPathError.IllegalChar which ch)
            | None =>
                let first := default [32] (head chars) in
                let last := default [32] (last chars) in
                if is_punct first || is_punct last then Err (AssetPathError.LeadingOrTrailingPunct which) else Ok tt
            end
        end
  end.
Module AssetPath.
Record AssetPath := { namespace : bytes; collection : bytes; name : bytes }.
End AssetPath.
Abbreviation AssetPath := AssetPath.AssetPath.
#[export] Instance AssetPath_eq_dec : EqDecision AssetPath.
Proof. solve_decision. Defined.
Definition AssetPath_new (namespace collection name : bytes) : outcome AssetPath AssetPathError :=
  let* _ := validate_segment (str "namespace") namespace in
  let* _ := validate_segment (str "collection") collection in
  let* _ := validate_segment (str "name") name in
  Ok {| AssetPath.namespace := namespace; AssetPath.collection := collection; AssetPath.name := name |}.
Module AssetRef.
Inductive AssetRef := Path (p : AssetPath) | Signature (h : bytes).
End AssetRef.
Abbreviation AssetRef := AssetRef.AssetRef.
#[export] Instance AssetRef_eq_dec : EqDecision AssetRef.
Proof. solve_decision. Defined.
#[export] Instance AssetRef_countable : Countable AssetRef.
Proof.
  refine (inj_countable' (fun r => match r with AssetRef.Path p => inl (p.(AssetPath.namespace), p.(AssetPath.collection), p.(AssetPath.name)) | AssetRef.Signature h => inr h end)
    (fun x => match x with inl (a, b, c) => AssetRef.Path (AssetPath.Build_AssetPath a b c) | inr h => AssetRef.Signature h end) _).
  by intros [[]|].
Defined.
(** [Display]. *)
Definition asset_text (r : AssetRef) : bytes :=
  match r with
  | AssetRef.Path p => p.(AssetPath.namespace) ++ str "/" ++ p.(AssetPath.collection) ++ str "/" ++ p.(AssetPath.name)
  | AssetRef.Signature h => str "sig:" ++ to_hex h
  end.

(** ** Facts *)
Definition GRANT_SCHEMA_VERSION : Z := 1.
Abbreviation GrantId := bytes.
Abbreviation FactId := bytes.
Module Grant.
Record Grant := {
  schema_version : Z; asset : AssetRef; grantor : PartyId; grantee : PartyId;
  actions : CatalogActionSet; runtime_scope : Role; prior : option GrantId }.
End Grant.
Abbreviation Grant := Grant.Grant.
Definition Grant_root (asset : AssetRef) (grantor grantee : PartyId) (actions : CatalogActionSet) (runtime_scope : Role) : Grant :=
  {| Grant.schema_version := GRANT_SCHEMA_VERSION; Grant.asset := asset; Grant.grantor := grantor; Grant.grantee := grantee;
     Grant.actions := actions; Grant.runtime_scope := runtime_scope; Grant.prior := None |}.
Definition Grant_delegated (prior : GrantId) (asset : AssetRef) (grantor grantee : PartyId) (actions : CatalogActionSet) (runtime_scope : Role) : Grant :=
  {| Grant.schema_version := GRANT_SCHEMA_VERSION; Grant.asset := asset; Grant.grantor := grantor; Grant.grantee := grantee;
     Grant.actions := actions; Grant.runtime_scope := runtime_scope; Grant.prior := Some prior |}.
Module Revocation.
Record Revocation := { grant_id : GrantId; revoker : PartyId }.
End Revocation.
Abbreviation Revocation := Revocation.Revocation.
Module AssetBinding.
Record AssetBinding := { asset : AssetRef; owner : PartyId }.
End AssetBinding.
Abbreviation AssetBinding := AssetBinding.AssetBinding.
Module LedgerFact.
Inductive LedgerFact := Bind (b : AssetBinding) | Grant (g : Grant) | Revoke (r : Revocation).
End LedgerFact.
Abbreviation LedgerFact := LedgerFact.LedgerFact.
#[export] Instance Role_eq_dec : EqDecision Role.
Proof. solve_decision. Defined.
#[export] Instance Grant_eq_dec : EqDecision Grant.
Proof. solve_decision. Defined.
#[export] Instance Revocation_eq_dec : EqDecision Revocation.
Proof. solve_decision. Defined.
#[export] Instance AssetBinding_eq_dec : EqDecision AssetBinding.
Proof. solve_decision. Defined.
#[export] Instance LedgerFact_eq_dec : EqDecision LedgerFact.
Proof. solve_decision. Defined.
Inductive AppendOutcome := Appended (f : FactId) | AlreadyPresent (f : FactId).
Definition outcome_fact_id (o : AppendOutcome) : FactId := match o with Appended f | AlreadyPresent f => f end.
Definition is_appended (o : AppendOutcome) : bool := match o with Appended _ => true | AlreadyPresent _ => false end.
Module StoreError.
Inductive StoreError := Sqlite | SchemaMismatch (expected found : Z) | Corrupt | Decode.
End StoreError.
Abbreviation StoreError := StoreError.StoreError.
(** The text of a storage failure is left out, its cause is kept. *)
Module LedgerError.
Inductive LedgerError := ImmutabilityConflict (fact_id_hex : bytes) | OwnerConflict (why : bytes) | Storage (why : StoreError).
End LedgerError.
Abbreviation LedgerError := LedgerError.LedgerError.

(** ** Selecting a warrant *)
Module GrantWarrant.
Record GrantWarrant := { leaf : GrantId; actions : CatalogActionSet; warrant : WarrantSpec }.
Definition conveys (g : GrantWarrant) (action : CatalogAction) : bool := CatalogActionSet.contains g.(actions) action.
End GrantWarrant.
Abbreviation GrantWarrant := GrantWarrant.GrantWarrant.
Module EffectiveGrants.
Record EffectiveGrants := { per_grant : list (GrantId * CatalogActionSet); actions : CatalogActionSet }.
Definition default : EffectiveGrants := {| per_grant := []; actions := CatalogActionSet.None |}.
Definition from_parts (per_grant : list (GrantId * CatalogActionSet)) : EffectiveGrants :=
  {| per_grant := per_grant;
     actions := foldl (fun acc x => CatalogActionSet.union acc x.2) CatalogActionSet.None per_grant |}.
Definition active (e : EffectiveGrants) : list GrantId := e.(per_grant).*1.
Definition grants_conveying (e : EffectiveGrants) (action : CatalogAction) : list GrantId :=
  (List.filter (fun x => CatalogActionSet.contains x.2 action) e.(per_grant)).*1.
Definition is_empty (e : EffectiveGrants) : bool := match e.(per_grant) with [] => true | _ => false end.
End EffectiveGrants.
Abbreviation EffectiveGrants := EffectiveGrants.EffectiveGrants.
Definition warrant_within (a b : WarrantSpec) : bool :=
  FsScope.is_subset_of a.(WarrantSpec.fs_scope) b.(WarrantSpec.fs_scope)
  && NetScope.is_subset_of a.(WarrantSpec.net_scope) b.(WarrantSpec.net_scope)
  && SecretScope.is_subset_of a.(WarrantSpec.secret_scope) b.(WarrantSpec.secret_scope)
  && bool_decide (a.(WarrantSpec.tool_grants) ⊆ b.(WarrantSpec.tool_grants))
  && ModelRoute.is_within a.(WarrantSpec.model_route) b.(WarrantSpec.model_route)
  && (a.(WarrantSpec.resource_ceiling).(ResourceCeiling.cpu_milli) <=? b.(WarrantSpec.resource_ceiling).(ResourceCeiling.cpu_milli))
  && (a.(WarrantSpec.resource_ceiling).(ResourceCeiling.mem_bytes) <=? b.(WarrantSpec.resource_ceiling).(ResourceCeiling.mem_bytes))
  && (a.(WarrantSpec.resource_ceiling).(ResourceCeiling.wall_clock_ms) <=? b.(WarrantSpec.resource_ceiling).(ResourceCeiling.wall_clock_ms))
  && (a.(WarrantSpec.resource_ceiling).(ResourceCeiling.fd_count) <=? b.(WarrantSpec.resource_ceiling).(ResourceCeiling.fd_count))
  && (a.(WarrantSpec.resource_ceiling).(ResourceCeiling.disk_bytes) <=? b.(WarrantSpec.resource_ceiling).(ResourceCeiling.disk_bytes))
  && (a.(WarrantSpec.cost_ceiling).(CostCeiling.micro_usd) <=? b.(WarrantSpec.cost_ceiling).(CostCeiling.micro_usd))
  && (a.(WarrantSpec.tls_required) || negb b.(WarrantSpec.tls_required))
  && bool_decide (a.(WarrantSpec.mote_class) = b.(WarrantSpec.mote_class))
  && bool_decide (a.(WarrantSpec.nd_class) = b.(WarrantSpec.nd_class))
  && bool_decide (a.(WarrantSpec.syscall_profile_ref) = b.(WarrantSpec.syscall_profile_ref))
  && bool_decide (a.(WarrantSpec.environment_ref) = b.(WarrantSpec.environment_ref))
  && bool_decide (a.(WarrantSpec.executor_class) = b.(WarrantSpec.executor_class)).
(** [Iterator::min_by] on the leaves: the first of the least. *)
Definition min_leaf (l : list GrantWarrant) : option GrantWarrant :=
  match l with
  | [] => None
  | c :: l => Some (foldl (fun best d => if bytes_le best.(GrantWarrant.leaf) d.(GrantWarrant.leaf) then best else d) c l)
  end.
Definition dominated (candidates : list GrantWarrant) (c : GrantWarrant) : bool :=
  existsb (fun d => warrant_within c.(GrantWarrant.warrant) d.(GrantWarrant.warrant)
                    && negb (warrant_within d.(GrantWarrant.warrant) c.(GrantWarrant.warrant))) candidates.
Definition most_permissive (candidates : list GrantWarrant) : option WarrantSpec :=
  GrantWarrant.warrant <$> min_leaf (List.filter (fun c => negb (dominated candidates c)) candidates).

(** A row of the facts table. *)
Module FactRow.
Record FactRow := { seq : Z; fact_id : bytes; kind : Z; fact_bytes : bytes }.
End FactRow.
Abbreviation FactRow := FactRow.FactRow.

(** ** The ledger *)
Definition MAX_DELEGATION_DEPTH : nat := 64.
Section Ledger.
Context `{Blake3} `{!Bincode Grant} `{!Bincode AssetBinding} `{!Bincode LedgerFact}.
Definition grant_id (g : Grant) : GrantId := blake3 (str "kx-catalog/grant/v1" ++ bincode_encode g).
Definition revocation_idempotency_key (gid : GrantId) (revoker : PartyId) : bytes :=
  blake3 (str "kx-catalog/revocation/v1" ++ gid ++ revoker).
Definition revocation_id (r : Revocation) : bytes := revocation_idempotency_key r.(Revocation.grant_id) r.(Revocation.revoker).
Definition binding_id (b : AssetBinding) : FactId := blake3 (str "kx-catalog/asset-binding/v1" ++ bincode_encode b).
Definition fact_id (f : LedgerFact) : FactId :=
  match f with LedgerFact.Bind b => binding_id b | LedgerFact.Grant g => grant_id g | LedgerFact.Revoke r => revocation_id r end.
Definition effective_runtime_warrant (grantor_effective : WarrantSpec) (g : Grant) : outcome WarrantSpec NarrowingError :=
  intersect grantor_effective g.(Grant.runtime_scope).

Record Inner := {
  facts : list LedgerFact; by_id : gmap FactId nat; bindings : gmap AssetRef PartyId; grants : gmap GrantId nat;
  grants_by_grantee_asset : gmap (PartyId * AssetRef) (list GrantId); revoked : gmap GrantId (gset PartyId) }.
Definition Inner_default : Inner :=
  {| facts := []; by_id := ∅; bindings := ∅; grants := ∅; grants_by_grantee_asset := ∅; revoked := ∅ |}.
Definition apply_fact (i : Inner) (f : LedgerFact) : Inner :=
  let pos := length i.(facts) in
  let fs := i.(facts) ++ [f] in
  let ids := <[fact_id f := pos]> i.(by_id) in
  match f with
  | LedgerFact.Bind b =>
      {| facts := fs; by_id := ids; bindings := <[b.(AssetBinding.asset) := b.(AssetBinding.owner)]> i.(bindings); grants := i.(grants);
         grants_by_grantee_asset := i.(grants_by_grantee_asset); revoked := i.(revoked) |}
  | LedgerFact.Grant g =>
      {| facts := fs; by_id := ids; bindings := i.(bindings); grants := <[grant_id g := pos]> i.(grants);
         grants_by_grantee_asset :=
           let k := (g.(Grant.grantee), g.(Grant.asset)) in
           <[k := default [] (i.(grants_by_grantee_asset) !! k) ++ [grant_id g]]> i.(grants_by_grantee_asset);
         revoked := i.(revoked) |}
  | LedgerFact.Revoke r =>
      {| facts := fs; by_id := ids; bindings := i.(bindings); grants := i.(grants);
         grants_by_grantee_asset := i.(grants_by_grantee_asset);
         revoked := let k := r.(Revocation.grant_id) in
           <[k := {[r.(Revocation.revoker)]} ∪ default ∅ (i.(revoked) !! k)]> i.(revoked) |}
  end.
(** [facts\[pos\]]. *)
Definition fact_at {E} (i : Inner) (pos : nat) : outcome LedgerFact E := match i.(facts) !! pos with Some f => Ok f | None => Panic end.
Definition contains_fact {E} (i : Inner) (fid : FactId) : outcome (option LedgerFact) E :=
  match i.(by_id) !! fid with None => Ok None | Some pos => let* f := fact_at i pos in Ok (Some f) end.
Definition owner_of_asset (i : Inner) (asset : AssetRef) : option PartyId := i.(bindings) !! asset.
Definition len_facts (i : Inner) : nat := length i.(facts).
Definition grant_at {E} (i : Inner) (gid : GrantId) : outcome (option Grant) E :=
  match i.(grants) !! gid with
  | None => Ok None
  | Some pos => let* f := fact_at i pos in Ok (match f with LedgerFact.Grant g => Some g | _ => None end)
  end.
Definition is_revoked (i : Inner) (gid : GrantId) (grant : Grant) (owner : option PartyId) : bool :=
  match i.(revoked) !! gid with
  | None => false
  | Some revokers => existsb (fun r => bool_decide (r = grant.(Grant.grantor)) || bool_decide (owner = Some r)) (elements revokers)
  end.
(** The chain above a leaf, the leaf first; [room] is what the depth bound leaves. *)
Fixpoint collect_chain {E : Type} (i : Inner) (room : nat) (seen : gset GrantId) (cur : option GrantId) : outcome (option (list Grant)) E :=
  match cur with
  | None => Ok (Some [])
  | Some id =>
      match room with
      | O => Ok None
      | S room =>
          if bool_decide (id ∈ seen) then Ok None
          else
            let* og := grant_at i id in
            match og with
            | None => Ok None
            | Some g =>
                let* rest := collect_chain i room ({[id]} ∪ seen) g.(Grant.prior) in
                Ok (cons g <$> rest)
            end
      end
  end.
Record ChainFold := { cf_actions : CatalogActionSet; cf_warrant : option WarrantSpec }.
Definition hop_holds (i : Inner) (owner : option PartyId) (parent : option Grant) (parent_actions : CatalogActionSet) (g : Grant) : bool :=
  if is_revoked i (grant_id g) g owner then false
  else
    match g.(Grant.prior) with
    | Some _ =>
        match parent with
        | None => false
        | Some p =>
            if negb (bool_decide (p.(Grant.grantee) = g.(Grant.grantor))) || negb (bool_decide (p.(Grant.asset) = g.(Grant.asset))) then false
            else CatalogActionSet.contains parent_actions CatalogAction.Delegate
        end
    | None => bool_decide (owner = Some g.(Grant.grantor))
    end.
(** The hops from the root, each narrowing the actions and the warrant. *)
Fixpoint fold_hops (i : Inner) (owner : option PartyId) (chain : list Grant) (parent : option Grant)
    (parent_actions : CatalogActionSet) (parent_warrant : option WarrantSpec) : outcome (option ChainFold) NarrowingError :=
  match chain with
  | [] => Ok (Some {| cf_actions := parent_actions; cf_warrant := parent_warrant |})
  | g :: chain =>
      if hop_holds i owner parent parent_actions g then
        let* w := match parent_warrant with
                  | Some pw => let* w := intersect pw g.(Grant.runtime_scope) in Ok (Some w)
                  | None => Ok None
                  end in
        fold_hops i owner chain (Some g) (CatalogActionSet.narrow g.(Grant.actions) parent_actions) w
      else Ok None
  end.
Definition fold_chain (i : Inner) (leaf : GrantId) (owner : option PartyId) (owner_root : option WarrantSpec) : outcome (option ChainFold) NarrowingError :=
  let* chain := collect_chain i MAX_DELEGATION_DEPTH ∅ (Some leaf) in
  match chain with
  | None => Ok None
  | Some chain => fold_hops i owner (rev chain) None CatalogActionSet.all owner_root
  end.

(** ** What a party holds *)
Definition read_owner_of (i : Inner) (asset : AssetRef) : option PartyId := i.(bindings) !! asset.
Fixpoint active_grants {E : Type} (i : Inner) (owner : option PartyId) (gids : list GrantId) : outcome (list (GrantId * CatalogActionSet)) E :=
  match gids with
  | [] => Ok []
  | gid :: gids =>
      match fold_chain i gid owner None with
      | Panic => Panic
      | Ok (Some cf) =>
          let* rest := active_grants i owner gids in
          Ok (if CatalogActionSet.is_empty cf.(cf_actions) then rest else (gid, cf.(cf_actions)) :: rest)
      | _ => active_grants i owner gids
      end
  end.
Definition read_effective_grants {E : Type} (i : Inner) (party : PartyId) (asset : AssetRef) : outcome EffectiveGrants E :=
  match i.(grants_by_grantee_asset) !! (party, asset) with
  | None => Ok EffectiveGrants.default
  | Some gids => let* per := active_grants i (i.(bindings) !! asset) gids in Ok (EffectiveGrants.from_parts per)
  end.
Fixpoint active_warrants (i : Inner) (owner : option PartyId) (owner_root : WarrantSpec) (gids : list GrantId) : outcome (list GrantWarrant) NarrowingError :=
  match gids with
  | [] => Ok []
  | gid :: gids =>
      let* cf := fold_chain i gid owner (Some owner_root) in
      let* rest := active_warrants i owner owner_root gids in
      Ok (match cf with
          | Some {| cf_actions := a; cf_warrant := Some w |} =>
              if CatalogActionSet.is_empty a then rest
              else {| GrantWarrant.leaf := gid; GrantWarrant.actions := a; GrantWarrant.warrant := w |} :: rest
          | _ => rest
          end)
  end.
Definition read_effective_grant_warrants (i : Inner) (party : PartyId) (asset : AssetRef) (owner_root : WarrantSpec) : outcome (list GrantWarrant) NarrowingError :=
  match i.(grants_by_grantee_asset) !! (party, asset) with
  | None => Ok []
  | Some gids => active_warrants i (i.(bindings) !! asset) owner_root gids
  end.

(** The ledger trait; its provided methods are the definitions after it. *)
Class GrantLedger (L : Type) := {
  append_binding : L -> AssetBinding -> outcome (L * AppendOutcome) LedgerError;
  append_grant : L -> Grant -> outcome (L * AppendOutcome) LedgerError;
  append_revocation : L -> Revocation -> outcome (L * AppendOutcome) LedgerError;
  owner_of : L -> AssetRef -> option PartyId;
  effective_grants : L -> PartyId -> AssetRef -> outcome EffectiveGrants NarrowingError;
  effective_grant_warrants : L -> PartyId -> AssetRef -> WarrantSpec -> outcome (list GrantWarrant) NarrowingError;
  list_facts : L -> list LedgerFact;
  ledger_len : L -> nat
}.
Section Provided.
Context {L : Type} `{!GrantLedger L}.
Definition is_authorized (l : L) (party : PartyId) (asset : AssetRef) (action : CatalogAction) : outcome bool NarrowingError :=
  let* e := effective_grants l party asset in Ok (CatalogActionSet.contains e.(EffectiveGrants.actions) action).
Definition resolve_effective_warrant_for (l : L) (party : PartyId) (asset : AssetRef) (action : CatalogAction) (owner_root : WarrantSpec)
    : outcome (option WarrantSpec) NarrowingError :=
  let* candidates := effective_grant_warrants l party asset owner_root in
  Ok (most_permissive (List.filter (fun gw => GrantWarrant.conveys gw action) candidates)).
Definition resolve_effective_warrant (l : L) (party : PartyId) (asset : AssetRef) (owner_root : WarrantSpec) : outcome (option WarrantSpec) NarrowingError :=
  let* candidates := effective_grant_warrants l party asset owner_root in Ok (most_permissive candidates).
Definition ledger_is_empty (l : L) : bool := (ledger_len l =? 0)%nat.
End Provided.

(** ** In memory *)
Record InMemoryGrantLedger := { inner : Inner }.
Definition InMemoryGrantLedger_new : InMemoryGrantLedger := {| inner := Inner_default |}.
(** What an append does before it writes: an answer, or the fact to write. *)
Definition gate_binding (i : Inner) (binding : AssetBinding) : outcome (option AppendOutcome) LedgerError :=
  match owner_of_asset i binding.(AssetBinding.asset) with
  | Some existing =>
      if bool_decide (existing = binding.(AssetBinding.owner)) then Ok (Some (AlreadyPresent (fact_id (LedgerFact.Bind binding))))
      else Err (LedgerError.OwnerConflict (str "asset " ++ asset_text binding.(AssetBinding.asset) ++ str " already bound to a different owner"))
  | None => Ok None
  end.
Definition gate_fact (i : Inner) (f : LedgerFact) : outcome (option AppendOutcome) LedgerError :=
  let* existing := contains_fact i (fact_id f) in
  match existing with
  | Some x => if bool_decide (x = f) then Ok (Some (AlreadyPresent (fact_id f))) else Err (LedgerError.ImmutabilityConflict (to_hex (fact_id f)))
  | None => Ok None
  end.
Definition append_mem (l : InMemoryGrantLedger) (gate : outcome (option AppendOutcome) LedgerError) (f : LedgerFact)
    : outcome (InMemoryGrantLedger * AppendOutcome) LedgerError :=
  let* answer := gate in
  match answer with
  | Some o => Ok (l, o)
  | None => Ok ({| inner := apply_fact l.(inner) f |}, Appended (fact_id f))
  end.
Definition mem_append_binding (l : InMemoryGrantLedger) (b : AssetBinding) := append_mem l (gate_binding l.(inner) b) (LedgerFact.Bind b).
Definition mem_append_grant (l : InMemoryGrantLedger) (g : Grant) := append_mem l (gate_fact l.(inner) (LedgerFact.Grant g)) (LedgerFact.Grant g).
Definition mem_append_revocation (l : InMemoryGrantLedger) (r : Revocation) := append_mem l (gate_fact l.(inner) (LedgerFact.Revoke r)) (LedgerFact.Revoke r).
#[export] Instance InMemory_GrantLedger : GrantLedger InMemoryGrantLedger := {|
  append_binding := mem_append_binding; append_grant := mem_append_grant; append_revocation := mem_append_revocation;
  owner_of l := read_owner_of l.(inner); effective_grants l := read_effective_grants l.(inner);
  effective_grant_warrants l := read_effective_grant_warrants l.(inner);
  list_facts l := l.(inner).(facts); ledger_len l := len_facts l.(inner) |}.

(** ** In SQLite

    The facts table, its rows in the order of [seq]: each insert takes the next
    one. The unique index refuses a second row of a fact id. *)
Definition GRANT_LEDGER_SCHEMA_VERSION : Z := 1.
Record SqliteGrantLedger := { conn : list FactRow; sq_inner : Inner }.
Definition kind_of (f : LedgerFact) : Z := match f with LedgerFact.Bind _ => 0 | LedgerFact.Grant _ => 1 | LedgerFact.Revoke _ => 2 end.
Definition encode_fact (f : LedgerFact) : bytes := bincode_encode f.
Definition next_seq (rows : list FactRow) : Z := foldr (fun r m => Z.max r.(FactRow.seq) m) 0 rows + 1.
(** The schema version row: absent, it is stamped; else it must be this one. *)
Definition init_and_verify (schema_version : Z) (stored : option bytes) : outcome bytes StoreError :=
  let stored := default (to_le 2 schema_version) stored in
  if negb (length stored =? 2)%nat then Err StoreError.Corrupt
  else if negb (from_le stored =? schema_version) then Err (StoreError.SchemaMismatch schema_version (from_le stored))
  else Ok stored.
Fixpoint rebuild_from (i : Inner) (rows : list FactRow) : outcome Inner LedgerError :=
  match rows with
  | [] => Ok i
  | r :: rows =>
      match bincode_decode r.(FactRow.fact_bytes) with
      | Some (f, _) => rebuild_from (apply_fact i f) rows
      | None => Err (LedgerError.Storage StoreError.Decode)
      end
  end.
Definition rebuild (rows : list FactRow) : outcome Inner LedgerError := rebuild_from Inner_default rows.
Definition open_ledger (stored : option bytes) (rows : list FactRow) : outcome SqliteGrantLedger LedgerError :=
  let* _ := omap_err LedgerError.Storage (init_and_verify GRANT_LEDGER_SCHEMA_VERSION stored) in
  let* i := rebuild rows in
  Ok {| conn := rows; sq_inner := i |}.
(** [io]: whether the transaction commits. *)
Definition append_durable (io : bool) (l : SqliteGrantLedger) (f : LedgerFact) : outcome (SqliteGrantLedger * AppendOutcome) LedgerError :=
  if negb io || existsb (fun r => bool_decide (r.(FactRow.fact_id) = fact_id f)) l.(conn) then Err (LedgerError.Storage StoreError.Sqlite)
  else
    let row := {| FactRow.seq := next_seq l.(conn); FactRow.fact_id := fact_id f; FactRow.kind := kind_of f; FactRow.fact_bytes := encode_fact f |} in
    Ok ({| conn := l.(conn) ++ [row]; sq_inner := apply_fact l.(sq_inner) f |}, Appended (fact_id f)).
Definition append_sq (io : bool) (l : SqliteGrantLedger) (gate : outcome (option AppendOutcome) LedgerError) (f : LedgerFact)
    : outcome (SqliteGrantLedger * AppendOutcome) LedgerError :=
  let* answer := gate in
  match answer with Some o => Ok (l, o) | None => append_durable io l f end.
Definition sq_append_binding (io : bool) (l : SqliteGrantLedger) (b : AssetBinding) := append_sq io l (gate_binding l.(sq_inner) b) (LedgerFact.Bind b).
Definition sq_append_grant (io : bool) (l : SqliteGrantLedger) (g : Grant) := append_sq io l (gate_fact l.(sq_inner) (LedgerFact.Grant g)) (LedgerFact.Grant g).
Definition sq_append_revocation (io : bool) (l : SqliteGrantLedger) (r : Revocation) := append_sq io l (gate_fact l.(sq_inner) (LedgerFact.Revoke r)) (LedgerFact.Revoke r).
#[export] Instance Sqlite_GrantLedger : GrantLedger SqliteGrantLedger := {|
  append_binding := sq_append_binding true; append_grant := sq_append_grant true; append_revocation := sq_append_revocation true;
  owner_of l := read_owner_of l.(sq_inner); effective_grants l := read_effective_grants l.(sq_inner);
  effective_grant_warrants l := read_effective_grant_warrants l.(sq_inner);
  list_facts l := l.(sq_inner).(facts); ledger_len l := len_facts l.(sq_inner) |}.
End Ledger.

(** * What the ledger conveys

    Exactly the unbroken, unrevoked chains of
    delegation from an asset's owner, with warrants within the owner's. *)
(** ** Action sets *)
Definition acts (a : CatalogActionSet) : gset CatalogAction := match a with CatalogActionSet.None => ∅ | CatalogActionSet.AllowList s => s end.
Lemma contains_acts a x : CatalogActionSet.contains a x = bool_decide (x ∈ acts a).
Proof. destruct a; [symmetry; by apply bool_decide_false|done]. Qed.
Lemma acts_allow s : acts (CatalogActionSet.allow s) = s.
Proof. unfold CatalogActionSet.allow. by case_bool_decide. Qed.
Lemma acts_narrow a b : acts (CatalogActionSet.narrow a b) = acts a ∩ acts b.
Proof. destruct a, b; cbn [CatalogActionSet.narrow]; rewrite ?acts_allow; cbn [acts]; set_solver. Qed.
Lemma acts_union a b : acts (CatalogActionSet.union a b) = acts a ∪ acts b.
Proof. destruct a, b; cbn [CatalogActionSet.union]; rewrite ?acts_allow; cbn [acts]; set_solver. Qed.
Lemma acts_all a : a ∩ acts CatalogActionSet.all = a.
Proof. apply set_eq. intros []; cbn; set_solver. Qed.
Lemma acts_empty a : CatalogActionSet.is_empty a = true -> acts a = ∅.
Proof. by destruct a. Qed.

(** ** Comparing warrants *)
Lemma warrant_within_spec a b : warrant_within a b = true
  <-> warrant_le a b /\ a.(WarrantSpec.mote_class) = b.(WarrantSpec.mote_class) /\ a.(WarrantSpec.nd_class) = b.(WarrantSpec.nd_class)
      /\ a.(WarrantSpec.environment_ref) = b.(WarrantSpec.environment_ref) /\ a.(WarrantSpec.executor_class) = b.(WarrantSpec.executor_class).
Proof.
  unfold warrant_within. rewrite !andb_true_iff, !bool_decide_eq_true, !Z.leb_le, orb_true_iff, negb_true_iff. split.
  - intros H. destruct_and!. split_and!; try done. split; try done. intros Hb. naive_solver congruence.
  - intros ([] & ? & ? & ? & ?). unfold resources_le in *. destruct_and!. split_and!; try done.
    destruct (WarrantSpec.tls_required a) eqn:?; [by left|right]. destruct (WarrantSpec.tls_required b) eqn:?; [naive_solver|done].
Qed.
Lemma within_refl a : warrant_within a a = true.
Proof. by apply warrant_within_spec. Qed.
Lemma within_trans a b c : warrant_within a b = true -> warrant_within b c = true -> warrant_within a c = true.
Proof.
  rewrite !warrant_within_spec. intros (? & ? & ? & ? & ?) (? & ? & ? & ? & ?). split_and!; try congruence. by etrans.
Qed.
(** A single pass that keeps the candidate unless the next is at least as wide ends
    on one that none is strictly wider than. *)
Lemma greedy_maximal {A} (R : A -> A -> bool) (Hr : forall x, R x x = true) (Ht : forall x y z, R x y = true -> R y z = true -> R x z = true) l : forall c,
  let m := foldl (fun best d => if R best d then d else best) c l in
  m ∈ c :: l /\ R c m = true /\ forall d, d ∈ c :: l -> R m d = true -> R d m = true.
Proof.
  induction l as [|x l IH]; intros c; cbn [foldl].
  - split_and!; [left|apply Hr|]. intros d ->%list_elem_of_singleton _. apply Hr.
  - destruct (R c x) eqn:Hcx.
    + destruct (IH x) as (Hin & Hx & Hmax). split_and!; [by right|by eapply Ht|]. intros d [-> |Hd]%elem_of_cons Hm; [by eapply Ht|by apply Hmax].
    + destruct (IH c) as (Hin & Hx & Hmax). split_and!; [apply elem_of_cons in Hin as [-> |]; set_solver|done|].
      intros d [-> |[-> |Hd]%elem_of_cons]%elem_of_cons Hm; [done| |apply Hmax; [by right|done]].
      exfalso. rewrite (Ht _ _ _ Hx Hm) in Hcx. done.
Qed.
Lemma min_leaf_in l m : min_leaf l = Some m -> m ∈ l.
Proof.
  destruct l as [|c l]; [done|]. cbn. injection 1 as <-. revert c. induction l as [|d l IH]; intros c; cbn [foldl]; [left|].
  destruct (bytes_le _ _); [specialize (IH c)|specialize (IH d)]; set_solver.
Qed.
(** The selection answers exactly when there is a candidate, with one of them that
    none is strictly wider than. *)
Lemma most_permissive_spec l :
  match most_permissive l with
  | Some w => exists c, c ∈ l /\ c.(GrantWarrant.warrant) = w
      /\ forall d, d ∈ l -> warrant_within w d.(GrantWarrant.warrant) = true -> warrant_within d.(GrantWarrant.warrant) w = true
  | None => l = []
  end.
Proof.
  unfold most_permissive. destruct (min_leaf _) as [m|] eqn:Hm; cbn [fmap option_fmap option_map].
  - apply min_leaf_in, list_elem_of_In, filter_In in Hm as [Hin Hd%negb_true_iff]. exists m. split_and!; [by apply list_elem_of_In|done|].
    intros d Hdl Hw. destruct (warrant_within (GrantWarrant.warrant d) _) eqn:Hn; [done|]. exfalso.
    enough (dominated l m = true) by congruence. apply existsb_exists. exists d. split; [by apply list_elem_of_In|]. by rewrite Hw, Hn.
  - destruct l as [|c l]; [done|]. exfalso.
    destruct (greedy_maximal (fun a b => warrant_within (GrantWarrant.warrant a) (GrantWarrant.warrant b)) (fun x => within_refl _) (fun x y z => within_trans _ _ _) l c) as (Hin & _ & Hmax).
    set (m := foldl _ c l) in *. destruct (List.filter (fun x => negb (dominated (c :: l) x)) (c :: l)) as [|y ys] eqn:Hf; [|done].
    assert (Hb : m ∈ List.filter (fun x => negb (dominated (c :: l) x)) (c :: l)); [|rewrite Hf in Hb; by apply not_elem_of_nil in Hb].
    apply list_elem_of_In, filter_In. split; [by apply list_elem_of_In|]. apply negb_true_iff. destruct (dominated _ m) eqn:Hdom; [|done].
    apply existsb_exists in Hdom as (d & Hd & [Hw Hn%negb_true_iff]%andb_true_iff). apply list_elem_of_In in Hd. by rewrite Hmax in Hn.
Qed.

(** ** The indices follow the facts *)
Section Facts.
Context `{Blake3} `{!Bincode Grant} `{!Bincode AssetBinding} `{!Bincode LedgerFact}.
Definition bound (fs : list LedgerFact) (a : AssetRef) (o : PartyId) : Prop := LedgerFact.Bind {| AssetBinding.asset := a; AssetBinding.owner := o |} ∈ fs.
Definition granted (fs : list LedgerFact) (g : Grant) : Prop := LedgerFact.Grant g ∈ fs.
Definition revokes (fs : list LedgerFact) (gid : GrantId) (r : PartyId) : Prop := LedgerFact.Revoke {| Revocation.grant_id := gid; Revocation.revoker := r |} ∈ fs.
Record inner_ok (i : Inner) : Prop := {
  ok_ids fid pos : i.(by_id) !! fid = Some pos -> exists f, i.(facts) !! pos = Some f /\ fact_id f = fid;
  ok_known f : f ∈ i.(facts) -> is_Some (i.(by_id) !! fact_id f);
  ok_bound a o : i.(bindings) !! a = Some o <-> bound i.(facts) a o;
  ok_grant gid pos : i.(grants) !! gid = Some pos -> exists g, i.(facts) !! pos = Some (LedgerFact.Grant g) /\ grant_id g = gid;
  ok_granted g : granted i.(facts) g -> exists pos, i.(grants) !! grant_id g = Some pos /\ i.(facts) !! pos = Some (LedgerFact.Grant g);
  ok_held p a gid : gid ∈ default [] (i.(grants_by_grantee_asset) !! (p, a))
    <-> exists g, granted i.(facts) g /\ grant_id g = gid /\ g.(Grant.grantee) = p /\ g.(Grant.asset) = a;
  ok_revoked gid r : r ∈ default ∅ (i.(revoked) !! gid) <-> revokes i.(facts) gid r
}.
Lemma inner_default_ok : inner_ok Inner_default.
Proof.
  split; cbn; unfold bound, granted, revokes; try (intros *; rewrite ?lookup_empty; cbn); try done; try set_solver.
Qed.
(** What the gates of the appends ensure. *)
Definition fresh (i : Inner) (f : LedgerFact) : Prop :=
  match f with
  | LedgerFact.Bind b => i.(bindings) !! b.(AssetBinding.asset) = None
  | LedgerFact.Grant g => i.(by_id) !! grant_id g = None
  | LedgerFact.Revoke _ => True
  end.
Lemma apply_facts i f : (apply_fact i f).(facts) = i.(facts) ++ [f].
Proof. by destruct f. Qed.
Lemma apply_ids i f : (apply_fact i f).(by_id) = <[fact_id f := length i.(facts)]> i.(by_id).
Proof. by destruct f. Qed.
Lemma not_fresh_grant i g : inner_ok i -> i.(by_id) !! grant_id g = None -> i.(grants) !! grant_id g = None /\ forall g', granted i.(facts) g' -> grant_id g' <> grant_id g.
Proof.
  intros Hi Hn. assert (Hg : forall g', granted (facts i) g' -> grant_id g' <> grant_id g).
  { intros g' Hg' E. destruct (ok_known _ Hi _ Hg') as [x Hx]. cbn [fact_id] in Hx. congruence. }
  split; [|done]. destruct (grants i !! grant_id g) as [pos|] eqn:Hp; [|done].
  destruct (ok_grant _ Hi _ _ Hp) as (g' & Hg' & E). destruct (Hg g'); [|done]. by eapply list_elem_of_lookup_2.
Qed.
Lemma apply_fact_ok i f : inner_ok i -> fresh i f -> inner_ok (apply_fact i f).
Proof.
  intros Hi Hf. assert (Hlook : forall pos x, facts i !! pos = Some x -> (facts i ++ [f]) !! pos = Some x) by (intros; by apply lookup_app_l_Some).
  split; rewrite ?apply_facts, ?apply_ids.
  - intros fid pos [[<- <-]|[Hne Hp]]%lookup_insert_Some; [exists f; split; [by apply list_lookup_middle|done]|].
    destruct (ok_ids _ Hi _ _ Hp) as (x & ? & ?). exists x. auto.
  - intros x [Hx| ->%list_elem_of_singleton]%elem_of_app; [|by rewrite lookup_insert_eq].
    destruct (decide (fact_id f = fact_id x)) as [->|Hne]; [by rewrite lookup_insert_eq|]. rewrite lookup_insert_ne by done. by apply ok_known.
  - intros a o. unfold bound. rewrite elem_of_app, list_elem_of_singleton. fold (bound (facts i) a o).
    destruct f as [[a' o']|g|r]; cbn; [|rewrite (ok_bound _ Hi); naive_solver..].
    cbn in Hf. rewrite lookup_insert_Some, (ok_bound _ Hi). split; [intros [[<- <-]|[? ?]]; auto|].
    intros [Hb|[= -> ->]]; [|by left]. right. split; [|done]. intros ->. apply (ok_bound _ Hi) in Hb. congruence.
  - intros gid pos. destruct f as [b|g|r]; cbn; [|rewrite lookup_insert_Some; intros [[<- <-]|[Hne Hp]]; [exists g; split; [by apply list_lookup_middle|done]|]|];
      try (intros Hp); destruct (ok_grant _ Hi _ _ Hp) as (x & ? & ?); exists x; auto.
  - intros g. unfold granted. rewrite elem_of_app, list_elem_of_singleton. fold (granted (facts i) g). intros [Hg|<-].
    + destruct (ok_granted _ Hi _ Hg) as (pos & Hp & Hl). exists pos. split; [|auto]. destruct f as [b|g'|r]; cbn; try done.
      rewrite lookup_insert_ne; [done|]. intros E. by destruct (proj2 (not_fresh_grant _ _ Hi Hf) g Hg).
    + exists (length (facts i)). cbn. rewrite lookup_insert_eq. split; [done|by apply list_lookup_middle].
  - intros p a gid. unfold granted. setoid_rewrite elem_of_app. setoid_rewrite list_elem_of_singleton. pose proof (ok_held _ Hi p a gid) as Hh. unfold granted in Hh.
    destruct f as [b|g|r]; cbn; [rewrite Hh; naive_solver| |rewrite Hh; naive_solver].
    destruct (decide ((Grant.grantee g, Grant.asset g) = (p, a))) as [E|Hne].
    + injection E as <- <-. rewrite lookup_insert_eq. cbn. rewrite elem_of_app, list_elem_of_singleton, Hh. split.
      * intros [(x & ? & ? & ? & ?)| ->]; [exists x; auto|exists g; auto].
      * intros (x & [Hx|[= ->]] & ? & ? & ?); [left; by exists x|by right].
    + rewrite lookup_insert_ne, Hh by done. split; intros (x & Hx & ? & ? & ?); exists x; [auto|]. destruct Hx as [|[= ->]]; [done|congruence].
  - intros gid r. unfold revokes. rewrite elem_of_app, list_elem_of_singleton. fold (revokes (facts i) gid r). rewrite <- (ok_revoked _ Hi).
    destruct f as [b|g|[gid' r']]; cbn; [naive_solver..|]. destruct (decide (gid' = gid)) as [->|Hne].
    + rewrite lookup_insert_eq. cbn. set_solver.
    + rewrite lookup_insert_ne by done. naive_solver.
Qed.

(** ** Chains of delegation *)
(** A revocation counts when its author issued the grant or owns the asset. *)
Definition revoked_in (fs : list LedgerFact) (a : AssetRef) (g : Grant) : Prop :=
  exists r, revokes fs (grant_id g) r /\ (r = g.(Grant.grantor) \/ bound fs a r).
(** A chain on an asset, the last grant first, and the actions it conveys. *)
Inductive chain_conveys (fs : list LedgerFact) (a : AssetRef) : list Grant -> gset CatalogAction -> Prop :=
| chain_root g : granted fs g -> g.(Grant.prior) = None -> g.(Grant.asset) = a -> bound fs a g.(Grant.grantor) -> ~ revoked_in fs a g ->
    chain_conveys fs a [g] (acts g.(Grant.actions))
| chain_hop g p gs A : chain_conveys fs a (p :: gs) A -> granted fs g -> g.(Grant.prior) = Some (grant_id p) -> g.(Grant.asset) = a ->
    g.(Grant.grantor) = p.(Grant.grantee) -> CatalogAction.Delegate ∈ A -> ~ revoked_in fs a g ->
    chain_conveys fs a (g :: p :: gs) (acts g.(Grant.actions) ∩ A).
(** The grants a walk from [cur] over the priors meets. *)
Fixpoint linked (fs : list LedgerFact) (cur : option GrantId) (gs : list Grant) : Prop :=
  match cur, gs with
  | None, [] => True
  | Some id, g :: gs => granted fs g /\ grant_id g = id /\ linked fs g.(Grant.prior) gs
  | _, _ => False
  end.
Lemma chain_linked fs a gs A : chain_conveys fs a gs A -> exists g gs', gs = g :: gs' /\ linked fs (Some (grant_id g)) gs /\ g.(Grant.asset) = a.
Proof.
  induction 1 as [g Hg Hp Ha|g p gs A Hc IH Hg Hp Ha]; [exists g, []; cbn; by rewrite Hp|].
  exists g, (p :: gs). destruct IH as (p' & gs' & [= -> ->] & Hl & _). cbn [linked] in *. rewrite Hp. auto.
Qed.
Lemma chain_unrevoked fs a gs A g : chain_conveys fs a gs A -> g ∈ gs -> ~ revoked_in fs a g.
Proof. induction 1; intros Hin; [by apply list_elem_of_singleton in Hin as ->|]. apply elem_of_cons in Hin as [->|]; auto. Qed.
Lemma chain_det fs a gs A : chain_conveys fs a gs A -> forall B, chain_conveys fs a gs B -> A = B.
Proof. induction 1 as [g|g p gs A Hc IH]; intros B HB; inversion HB; subst; [done|]. f_equal. by apply IH. Qed.
Section Walk.
Context (i : Inner) (Hi : inner_ok i).
Lemma grant_at_spec {E} gid : exists og, grant_at (E := E) i gid = Ok og
  /\ (forall g, og = Some g <-> granted i.(facts) g /\ grant_id g = gid).
Proof.
  unfold grant_at. destruct (grants i !! gid) as [pos|] eqn:Hp.
  - destruct (ok_grant _ Hi _ _ Hp) as (g & Hg & <-). unfold fact_at. rewrite Hg. cbn. eexists. split; [done|]. intros g'. split.
    + injection 1 as <-. split; [by eapply list_elem_of_lookup_2|done].
    + intros [Hg' E']. destruct (ok_granted _ Hi _ Hg') as (pos' & Hp' & Hl). rewrite E' in Hp'. congruence.
  - eexists. split; [done|]. intros g. split; [done|]. intros [Hg <-]. destruct (ok_granted _ Hi _ Hg) as (pos & ? & _). congruence.
Qed.
Lemma granted_unique g g' : granted i.(facts) g -> granted i.(facts) g' -> grant_id g = grant_id g' -> g = g'.
Proof.
  intros H1 H2 E. destruct (ok_granted _ Hi _ H1) as (p1 & ? & ?), (ok_granted _ Hi _ H2) as (p2 & ? & ?). rewrite E in *. congruence.
Qed.
Lemma linked_det gs : forall cur gs', linked i.(facts) cur gs -> linked i.(facts) cur gs' -> gs = gs'.
Proof.
  induction gs as [|g gs IH]; intros [id|] [|g' gs']; cbn; try done. intros (H1 & E1 & L1) (H2 & E2 & L2).
  assert (g = g') as -> by (apply granted_unique; congruence). f_equal. by eapply IH.
Qed.
Lemma linked_tail gs : forall cur g, linked i.(facts) cur gs -> g ∈ gs -> exists gs', linked i.(facts) (Some (grant_id g)) gs' /\ (length gs' <= length gs)%nat.
Proof.
  induction gs as [|x gs IH]; intros [id|] g; cbn [linked]; try done; [by intros _ ?%not_elem_of_nil|]. intros (Hx & E & Hl) [->|Hin]%elem_of_cons.
  - exists (x :: gs). cbn. auto.
  - destruct (IH _ _ Hl Hin) as (gs' & ? & ?). exists gs'. cbn. split; [done|lia].
Qed.
Lemma linked_distinct id g gs : linked i.(facts) (Some id) (g :: gs) -> forall x, x ∈ gs -> grant_id x <> id.
Proof.
  intros Hl x Hx E. cbn in Hl. destruct Hl as (Hg & Eg & Hl). destruct (linked_tail _ _ _ Hl Hx) as (gs' & Hl' & Hlen).
  rewrite E in Hl'. assert (E' : gs' = g :: gs) by (eapply linked_det; [done|cbn; auto]). subst gs'. cbn in Hlen. lia.
Qed.
(** The walk finds the chain when there is one within the bound, and nothing else. *)
Lemma collect_chain_spec {E} room : forall seen cur, exists r, collect_chain (E := E) i room seen cur = Ok r
  /\ (forall gs, r = Some gs -> linked i.(facts) cur gs /\ (length gs <= room)%nat)
  /\ (forall gs, linked i.(facts) cur gs -> (length gs <= room)%nat -> (forall g, g ∈ gs -> grant_id g ∉ seen) -> r = Some gs).
Proof.
  induction room as [|room IH]; intros seen [id|]; cbn [collect_chain];
    try (eexists; split_and!; [done|by intros gs [= <-]; split; cbn; [|lia]|by intros [|? ?]]).
  - exists None. split_and!; [done..|]. intros [|g gs]; cbn; [done|lia].
  - case_bool_decide as Hs.
    + eexists; split_and!; [done|done|]. intros [|g gs]; cbn; [done|]. intros (_ & E' & _) _ Hn. destruct (Hn g); [left|by rewrite E'].
    + destruct (grant_at_spec (E := E) id) as (og & -> & Hog). cbn [obind]. destruct og as [g|].
      * destruct (IH ({[id]} ∪ seen) (Grant.prior g)) as (r & -> & Hs1 & Hs2). destruct (proj1 (Hog g) eq_refl) as [Hg Eg]. cbn [obind].
        eexists. split_and!; [done| |].
        -- intros gs Hgs. destruct r as [rest|]; [|done]. injection Hgs as <-. destruct (Hs1 rest eq_refl). cbn. split; [auto|lia].
        -- intros [|x gs] Hl Hlen Hn; [done|]. pose proof (linked_distinct _ _ _ Hl) as Hd. cbn in Hl, Hlen. destruct Hl as (Hx & Ex & Hl).
           assert (x = g) as -> by (apply granted_unique; congruence). rewrite (Hs2 gs); [done|done|lia|].
           intros y Hy. apply not_elem_of_union. split; [apply not_elem_of_singleton; by apply Hd|]. apply Hn. by right.
      * eexists. split_and!; [done|done|]. intros [|x gs]; cbn; [done|]. intros (Hx & Ex & _) _ _. discriminate (proj2 (Hog x) (conj Hx Ex)).
Qed.
End Walk.
(** ** Folding a chain *)
Lemma fold_hops_app i owner c1 : forall c2 parent pa pw,
  fold_hops i owner (c1 ++ c2) parent pa pw =
  let* o := fold_hops i owner c1 parent pa pw in
  match o with
  | None => Ok None
  | Some cf => fold_hops i owner c2 (match last c1 with Some g => Some g | None => parent end) cf.(cf_actions) cf.(cf_warrant)
  end.
Proof.
  induction c1 as [|g c1 IH]; intros c2 parent pa pw; cbn [fold_hops app obind]; [done|].
  destruct (hop_holds _ _ _ _ _); [|done]. destruct (match pw with Some _ => _ | None => _ end) as [w|e|]; cbn [obind]; [|done|done].
  rewrite IH. rewrite last_cons. destruct (fold_hops i owner c1 _ _ _) as [[cf|]|e|]; cbn [obind]; try done. by destruct (last c1).
Qed.
Definition scopes (gs : list Grant) : list Role := Grant.runtime_scope <$> rev gs.
Lemma delegate_snoc w l r : delegate w (l ++ [r]) = let* x := delegate w l in intersect x r.
Proof.
  revert w. induction l as [|x l IH]; intros w; cbn [app delegate obind]; [unfold narrow; by destruct (intersect w r)|].
  destruct (narrow w x); cbn [obind]; [apply IH|done|done].
Qed.
Lemma narrow_no_panic w r : intersect w r <> Panic.
Proof. unfold intersect. repeat case_match; done. Qed.
Lemma delegate_no_panic l : forall w, delegate w l <> Panic.
Proof.
  induction l as [|x l IH]; intros w; cbn [delegate]; [done|]. unfold narrow. pose proof (narrow_no_panic w x).
  destruct (intersect w x); cbn [obind]; [apply IH|done|done].
Qed.
Section Fold.
Context (i : Inner) (Hi : inner_ok i) (a : AssetRef).
Abbreviation fs := i.(facts).
Abbreviation owner := (i.(bindings) !! a).
Definition folded (pw : option WarrantSpec) (gs : list Grant) : outcome (option ChainFold) NarrowingError :=
  fold_hops i owner (rev gs) None CatalogActionSet.all pw.
Lemma folded_cons pw g gs :
  folded pw (g :: gs) = let* o := folded pw gs in
  match o with
  | None => Ok None
  | Some cf =>
      if hop_holds i owner (head gs) cf.(cf_actions) g then
        let* w := match cf.(cf_warrant) with Some pw => let* w := intersect pw g.(Grant.runtime_scope) in Ok (Some w) | None => Ok None end in
        Ok (Some {| cf_actions := CatalogActionSet.narrow g.(Grant.actions) cf.(cf_actions); cf_warrant := w |})
      else Ok None
  end.
Proof.
  unfold folded. cbn [rev]. rewrite fold_hops_app. destruct (fold_hops _ _ (rev gs) _ _ _) as [[cf|]|e|]; cbn [obind]; try done. cbn [fold_hops].
  replace (match last (rev gs) with Some g0 => Some g0 | None => None end) with (head gs); [done|].
  destruct gs as [|x gs]; [done|]. cbn [rev head]. by rewrite last_snoc.
Qed.
Lemma is_revoked_spec g : is_revoked i (grant_id g) g owner = true <-> revoked_in fs a g.
Proof.
  unfold is_revoked, revoked_in. setoid_rewrite <- (ok_revoked _ Hi). setoid_rewrite <- (ok_bound _ Hi).
  destruct (revoked i !! grant_id g) as [rs|]; cbn; [|split; [done|intros (r & Hr & _); set_solver]].
  rewrite existsb_exists. setoid_rewrite orb_true_iff. setoid_rewrite bool_decide_eq_true. setoid_rewrite <- list_elem_of_In. setoid_rewrite elem_of_elements. naive_solver.
Qed.
(** The warrant of a folded chain is the owner's narrowed by every scope on the way. *)
Lemma folded_warrant pw gs :
  match folded pw gs with
  | Ok (Some cf) =>
      match pw with
      | Some r => exists w, cf.(cf_warrant) = Some w /\ delegate r (scopes gs) = Ok w
      | None => cf.(cf_warrant) = None
      end
  | Ok None => True
  | Err e => exists r gs', pw = Some r /\ gs' `suffix_of` gs /\ delegate r (scopes gs') = Err e
  | Panic => False
  end.
Proof.
  induction gs as [|g gs IH]; [by destruct pw; [eexists|]|]. rewrite folded_cons. destruct (folded pw gs) as [[cf|]|e|]; cbn [obind]; [|done| |done].
  - destruct (hop_holds _ _ _ _ _); [|done]. destruct pw as [r|]; [|by rewrite IH]. destruct IH as (w & -> & Hd).
    assert (Hs : delegate r (scopes (g :: gs)) = intersect w (Grant.runtime_scope g)).
    { unfold scopes. cbn [rev]. rewrite fmap_app. cbn [fmap list_fmap]. rewrite delegate_snoc. unfold scopes in Hd. by rewrite Hd. }
    pose proof (narrow_no_panic w (Grant.runtime_scope g)). destruct (intersect w _) as [w'|e|]; cbn [obind]; [by exists w'| |done].
    exists r, (g :: gs). split_and!; [done..|by rewrite Hs].
  - destruct IH as (r & gs' & -> & Hsuf & He). exists r, gs'. split_and!; [done|by apply suffix_cons_r|done].
Qed.
Lemma hop_root g pa : granted fs g -> g.(Grant.asset) = a -> g.(Grant.prior) = None ->
  hop_holds i owner None pa g = true <-> chain_conveys fs a [g] (acts g.(Grant.actions)).
Proof.
  intros Hg Ha Hp. unfold hop_holds. rewrite Hp. pose proof (is_revoked_spec g) as Hr. pose proof (ok_bound _ Hi a (Grant.grantor g)) as Hb.
  destruct (is_revoked _ _ _ _) eqn:Er.
  - split; [done|]. inversion 1; subst. destruct Hr as [Hr _]. by specialize (Hr eq_refl).
  - rewrite bool_decide_eq_true, Hb. split; [|by inversion 1]. intros Ho. constructor; try done. rewrite <- Hr. done.
Qed.
Lemma hop_delegated g p gs pa : chain_conveys fs a (p :: gs) (acts pa) -> granted fs g -> g.(Grant.asset) = a -> g.(Grant.prior) = Some (grant_id p) ->
  hop_holds i owner (Some p) pa g = true <-> g.(Grant.grantor) = p.(Grant.grantee) /\ CatalogAction.Delegate ∈ acts pa /\ ~ revoked_in fs a g.
Proof.
  intros Hc Hg Ha Hp. unfold hop_holds. rewrite Hp. pose proof (is_revoked_spec g) as Hr. destruct (chain_linked _ _ _ _ Hc) as (p' & ? & [= -> ->] & _ & Hpa).
  rewrite contains_acts. destruct (is_revoked _ _ _ _) eqn:Er; [naive_solver|]. rewrite (bool_decide_true (Grant.asset p' = _)) by congruence. cbn [negb].
  rewrite orb_false_r. case_bool_decide; cbn [negb]; rewrite ?bool_decide_eq_true; rewrite <- Hr; naive_solver.
Qed.
Lemma hop_other_asset g p pa : g.(Grant.prior) = Some (grant_id p) -> p.(Grant.asset) <> g.(Grant.asset) -> hop_holds i owner (Some p) pa g = false.
Proof.
  intros Hp Ha. unfold hop_holds. rewrite Hp, (bool_decide_false (Grant.asset p = _)) by done. cbn [negb]. rewrite orb_true_r. by destruct (is_revoked _ _ _ _).
Qed.
(** A folded chain conveys; one that does not fold conveys nothing. *)
Lemma folded_chain pw gs : forall g, linked fs (Some (grant_id g)) (g :: gs) -> g.(Grant.asset) = a ->
  match folded pw (g :: gs) with
  | Ok (Some cf) => chain_conveys fs a (g :: gs) (acts cf.(cf_actions))
  | Ok None => forall A, ~ chain_conveys fs a (g :: gs) A
  | _ => True
  end.
Proof.
  induction gs as [|p gs IH]; intros g (Hg & _ & Hl) Ha; rewrite folded_cons.
  - cbn [folded rev fold_hops obind cf_actions cf_warrant head]. assert (Hp : Grant.prior g = None) by (destruct (Grant.prior g); done).
    pose proof (hop_root g CatalogActionSet.all Hg Ha Hp) as Hh. destruct (hop_holds _ _ _ _ _).
    + destruct (match pw with Some _ => _ | None => _ end); cbn [obind]; [|done|done]. cbn [cf_actions]. rewrite acts_narrow, acts_all. by apply Hh.
    + intros A HA. assert (A = acts (Grant.actions g)) as -> by (by inversion HA). apply Hh in HA. done.
  - assert (Hp : Grant.prior g = Some (grant_id p)) by (cbn in Hl; destruct (Grant.prior g); [|done]; destruct Hl as (_ & -> & _); done).
    assert (Hlp : linked fs (Some (grant_id p)) (p :: gs)) by (by rewrite Hp in Hl).
    assert (Hsub : forall A, chain_conveys fs a (g :: p :: gs) A -> Grant.asset p = a /\ exists B, chain_conveys fs a (p :: gs) B
              /\ Grant.grantor g = Grant.grantee p /\ CatalogAction.Delegate ∈ B /\ ~ revoked_in fs a g).
    { intros A HA. inversion HA; subst. split; [|eauto 10]. match goal with X : chain_conveys _ _ (p :: gs) _ |- _ => destruct (chain_linked _ _ _ _ X) as (? & ? & [= <- <-] & _ & ?) end. done. }
    destruct (decide (Grant.asset p = a)) as [Hpa|Hpa].
    + specialize (IH p Hlp Hpa). destruct (folded pw (p :: gs)) as [[cf|]|e|]; cbn [obind]; try done.
      * cbn [head]. pose proof (hop_delegated g p gs _ IH Hg Ha Hp) as Hh. destruct (hop_holds _ _ _ _ _).
        -- destruct (match cf_warrant cf with Some _ => _ | None => _ end); cbn [obind]; [|done|done]. cbn [cf_actions]. rewrite acts_narrow.
           destruct (proj1 Hh eq_refl) as (? & ? & ?). by constructor.
        -- intros A (_ & B & HB & ? & HD & ?)%Hsub. assert (acts (cf_actions cf) = B) as E by (by eapply chain_det). subst B. by discriminate (proj2 Hh).
      * intros A (_ & B & HB & _)%Hsub. by eapply IH.
    + destruct (folded pw (p :: gs)) as [[cf|]|e|]; cbn [obind]; try done; [cbn [head]; rewrite hop_other_asset by (try done; congruence)|]; intros A [? _]%Hsub; done.
Qed.
Lemma fold_chain_spec pw g : granted fs g -> g.(Grant.asset) = a ->
  match fold_chain i (grant_id g) owner pw with
  | Ok (Some cf) => exists gs, chain_conveys fs a (g :: gs) (acts cf.(cf_actions)) /\ (length (g :: gs) <= MAX_DELEGATION_DEPTH)%nat
      /\ match pw with
         | Some r => exists w, cf.(cf_warrant) = Some w /\ delegate r (scopes (g :: gs)) = Ok w
         | None => cf.(cf_warrant) = None
         end
  | Ok None => forall gs A, chain_conveys fs a (g :: gs) A -> (MAX_DELEGATION_DEPTH < length (g :: gs))%nat
  | Err e => exists r gs gs', pw = Some r /\ linked fs (Some (grant_id g)) gs /\ gs' `suffix_of` gs /\ delegate r (scopes gs') = Err e
  | Panic => False
  end.
Proof.
  intros Hg Ha. unfold fold_chain. destruct (collect_chain_spec (E := NarrowingError) i Hi MAX_DELEGATION_DEPTH ∅ (Some (grant_id g))) as (r & -> & Hr1 & Hr2). cbn [obind].
  destruct r as [gs|].
  - destruct (Hr1 gs eq_refl) as [Hl Hlen]. destruct gs as [|x gs]; [done|]. assert (x = g) as -> by (destruct Hl as (? & ? & _); by apply (granted_unique i Hi)).
    pose proof (folded_warrant pw (g :: gs)) as Hw. pose proof (folded_chain pw gs g Hl Ha) as Hc. unfold folded in Hw, Hc.
    destruct (fold_hops _ _ _ _ _ _) as [[cf|]|e|]; [by exists gs| |by destruct Hw as (r & gs' & ? & ? & ?); eauto 10|done].
    intros gs' A HA. destruct (chain_linked _ _ _ _ HA) as (? & ? & [= <- <-] & Hl' & _). assert (g :: gs' = g :: gs) as [= ->] by (by eapply (linked_det i Hi)). by destruct (Hc A).
  - intros gs A HA. destruct (decide (length (g :: gs) <= MAX_DELEGATION_DEPTH)%nat) as [Hlen|]; [|lia].
    destruct (chain_linked _ _ _ _ HA) as (? & ? & [= <- <-] & Hl' & _). discriminate (Hr2 _ Hl' Hlen). set_solver.
Qed.
End Fold.
(** A party holds an action on an asset when some chain within the depth bound
    conveys it to the party. *)
Definition holds (fs : list LedgerFact) (p : PartyId) (a : AssetRef) (act : CatalogAction) : Prop :=
  exists g gs A, chain_conveys fs a (g :: gs) A /\ g.(Grant.grantee) = p /\ (length (g :: gs) <= MAX_DELEGATION_DEPTH)%nat /\ act ∈ A.
Lemma chain_granted fs a g gs A : chain_conveys fs a (g :: gs) A -> granted fs g /\ g.(Grant.asset) = a.
Proof. by inversion 1. Qed.
Lemma parts_actions l act : act ∈ acts (EffectiveGrants.from_parts l).(EffectiveGrants.actions) <-> exists x, x ∈ l /\ act ∈ acts x.2.
Proof.
  cbn [EffectiveGrants.from_parts EffectiveGrants.actions]. enough (H' : forall acc, act ∈ acts (foldl (fun acc x => CatalogActionSet.union acc x.2) acc l) <-> act ∈ acts acc \/ exists x, x ∈ l /\ act ∈ acts x.2).
  { rewrite H'. cbn. set_solver. }
  induction l as [|y l IH]; intros acc; cbn [foldl]; [set_solver|]. rewrite IH, acts_union, elem_of_union. setoid_rewrite elem_of_cons. naive_solver.
Qed.
Section Party.
Context (i : Inner) (Hi : inner_ok i) (a : AssetRef).
Abbreviation fs := i.(facts).
Lemma active_grants_spec {E : Type} gids :
  (forall gid, gid ∈ gids -> exists g, granted fs g /\ grant_id g = gid /\ g.(Grant.asset) = a) ->
  exists per, active_grants (E := E) i (i.(bindings) !! a) gids = Ok per
    /\ forall act, (exists x, x ∈ per /\ act ∈ acts x.2)
         <-> exists g gs A, grant_id g ∈ gids /\ chain_conveys fs a (g :: gs) A /\ (length (g :: gs) <= MAX_DELEGATION_DEPTH)%nat /\ act ∈ A.
Proof.
  induction gids as [|gid gids IH]; intros Hg; cbn [active_grants]; [exists []; split; [done|]; set_solver|].
  destruct IH as (per & Hper & Hspec); [intros ? ?; apply Hg; by right|]. destruct (Hg gid) as (g & Hgr & <- & Ha); [left|].
  pose proof (fold_chain_spec i Hi a None g Hgr Ha) as Hf. destruct (fold_chain _ _ _ _) as [[cf|]|e|]; [| | |done].
  - rewrite Hper. cbn [obind]. destruct Hf as (gs & Hc & Hlen & _). eexists. split; [done|]. intros act.
    assert (Hin : (exists x, x ∈ (if CatalogActionSet.is_empty (cf_actions cf) then per else (grant_id g, cf_actions cf) :: per) /\ act ∈ acts x.2)
                  <-> act ∈ acts (cf_actions cf) \/ exists x, x ∈ per /\ act ∈ acts x.2).
    { destruct (CatalogActionSet.is_empty _) eqn:He; [rewrite (acts_empty _ He); set_solver|]. setoid_rewrite elem_of_cons. naive_solver. }
    rewrite Hin, Hspec. setoid_rewrite elem_of_cons. split; [naive_solver|]. intros (g' & gs' & A & [E'|Hin'] & Hc' & Hlen' & Hact); [left|naive_solver].
    destruct (chain_granted _ _ _ _ _ Hc') as [Hg' _]. assert (g' = g) as -> by (by apply (granted_unique i Hi)).
    destruct (chain_linked _ _ _ _ Hc) as (? & ? & [= <- <-] & Hl & _), (chain_linked _ _ _ _ Hc') as (? & ? & [= <- <-] & Hl' & _).
    assert (g :: gs = g :: gs') as [= ->] by (by eapply (linked_det i Hi)). by rewrite (chain_det _ _ _ _ Hc _ Hc').
  - exists per. split; [done|]. intros act. rewrite Hspec. setoid_rewrite elem_of_cons. split; [naive_solver|].
    intros (g' & gs' & A & [E'|Hin'] & Hc' & Hlen' & Hact); [|naive_solver]. exfalso. destruct (chain_granted _ _ _ _ _ Hc') as [Hg' _].
    assert (g' = g) as -> by (by apply (granted_unique i Hi)). specialize (Hf _ _ Hc'). lia.
  - destruct Hf as (r & ? & ? & ? & _). done.
Qed.
Lemma authorized_spec {E : Type} p : exists e, read_effective_grants (E := E) i p a = Ok e
  /\ forall act, act ∈ acts e.(EffectiveGrants.actions) <-> holds fs p a act.
Proof.
  unfold read_effective_grants. pose proof (ok_held _ Hi p a) as Hh. destruct (_ !! (p, a)) as [gids|]; cbn [default] in Hh.
  - destruct (active_grants_spec (E := E) gids) as (per & -> & Hs); [intros gid (g & ? & ? & ? & ?)%Hh; by exists g|]. cbn [obind]. eexists. split; [done|].
    intros act. rewrite parts_actions, Hs. unfold holds. split; intros (g & gs & A & H1 & H2 & H3 & H4).
    + apply Hh in H1 as (g' & Hg' & E' & <- & _). destruct (chain_granted _ _ _ _ _ H2) as [Hg _]. assert (g' = g) as -> by (by apply (granted_unique i Hi)). by exists g, gs, A.
    + exists g, gs, A. split_and!; [|done..]. apply Hh. destruct (chain_granted _ _ _ _ _ H1). by exists g.
  - eexists. split; [done|]. intros act. cbn. split; [set_solver|]. intros (g & gs & A & H1 & H2 & _). destruct (chain_granted _ _ _ _ _ H1).
    exfalso. apply (not_elem_of_nil (grant_id g)), Hh. by exists g.
Qed.
(** What a candidate is: a chain to the party, with the owner's warrant narrowed
    along it. *)
Definition candidate_of (root : WarrantSpec) (gids : list GrantId) (c : GrantWarrant) (g : Grant) (gs : list Grant) : Prop :=
  grant_id g ∈ gids /\ chain_conveys fs a (g :: gs) (acts c.(GrantWarrant.actions)) /\ (length (g :: gs) <= MAX_DELEGATION_DEPTH)%nat
  /\ delegate root (scopes (g :: gs)) = Ok c.(GrantWarrant.warrant).
Lemma active_warrants_spec root gids :
  (forall gid, gid ∈ gids -> exists g, granted fs g /\ grant_id g = gid /\ g.(Grant.asset) = a) ->
  match active_warrants i (i.(bindings) !! a) root gids with
  | Ok out => (forall c, c ∈ out -> exists g gs, candidate_of root gids c g gs)
      /\ (forall g gs A act, grant_id g ∈ gids -> chain_conveys fs a (g :: gs) A -> (length (g :: gs) <= MAX_DELEGATION_DEPTH)%nat -> act ∈ A ->
           exists c, c ∈ out /\ acts c.(GrantWarrant.actions) = A /\ delegate root (scopes (g :: gs)) = Ok c.(GrantWarrant.warrant))
  | Err e => exists g gs gs', grant_id g ∈ gids /\ linked fs (Some (grant_id g)) gs /\ gs' `suffix_of` gs /\ delegate root (scopes gs') = Err e
  | Panic => False
  end.
Proof.
  induction gids as [|gid gids IH]; intros Hg; cbn [active_warrants]; [split; set_solver|].
  specialize (IH (fun x Hx => Hg x (list_elem_of_further _ _ _ Hx))). destruct (Hg gid) as (g & Hgr & <- & Ha); [left|].
  pose proof (fold_chain_spec i Hi a (Some root) g Hgr Ha) as Hf. destruct (fold_chain _ _ _ _) as [o|e|]; cbn [obind]; [| |done].
  2: { destruct Hf as (r & gs & gs' & [= <-] & ? & ? & ?). exists g, gs, gs'. split_and!; [left|done..]. }
  destruct (active_warrants _ _ _ gids) as [out|e|]; cbn [obind]; [|destruct IH as (x & gs & gs' & ? & ?); exists x, gs, gs'; split; [by right|done]|done].
  destruct IH as [Hsound Hcomp]. assert (Hold : forall c, c ∈ out -> exists g' gs, candidate_of root (grant_id g :: gids) c g' gs).
  { intros c (g' & gs & ? & ?)%Hsound. exists g', gs. split; [by right|done]. }
  destruct o as [[ac ow]|].
  - destruct Hf as (gs & Hc & Hlen & w & Hw & Hd). cbn in Hc, Hw. subst ow. split.
    + intros c Hin. destruct (CatalogActionSet.is_empty ac); [by apply Hold|]. apply elem_of_cons in Hin as [->|Hin]; [|by apply Hold]. exists g, gs. split_and!; [left|done..].
    + intros g' gs' A act [E'|Hin']%elem_of_cons Hc' Hlen' Hact.
      2: { destruct (Hcomp g' gs' A act Hin' Hc' Hlen' Hact) as (c & ? & ?). exists c. split; [|done]. destruct (CatalogActionSet.is_empty ac); [done|by right]. }
      destruct (chain_granted _ _ _ _ _ Hc') as [Hg' _]. assert (g' = g) as -> by (by apply (granted_unique i Hi)).
      destruct (chain_linked _ _ _ _ Hc) as (? & ? & [= <- <-] & Hl & _), (chain_linked _ _ _ _ Hc') as (? & ? & [= <- <-] & Hl' & _).
      assert (g :: gs = g :: gs') as [= ->] by (by eapply (linked_det i Hi)). pose proof (chain_det _ _ _ _ Hc _ Hc') as <-.
      destruct (CatalogActionSet.is_empty ac) eqn:He; [rewrite (acts_empty _ He) in Hact; set_solver|]. eexists. split; [left|done].
  - split; [done|]. intros g' gs' A act [E'|Hin']%elem_of_cons Hc' Hlen' Hact; [|by eapply Hcomp].
    exfalso. destruct (chain_granted _ _ _ _ _ Hc') as [Hg' _]. assert (g' = g) as -> by (by apply (granted_unique i Hi)). specialize (Hf _ _ Hc'). lia.
Qed.
(** The selection over the chains that convey an action. *)
Lemma resolved_spec p act root :
  match (let* cs := read_effective_grant_warrants i p a root in Ok (most_permissive (List.filter (fun gw => GrantWarrant.conveys gw act) cs))) with
  | Ok (Some w) =>
      (exists g gs A, chain_conveys fs a (g :: gs) A /\ g.(Grant.grantee) = p /\ (length (g :: gs) <= MAX_DELEGATION_DEPTH)%nat /\ act ∈ A
                      /\ delegate root (scopes (g :: gs)) = Ok w)
      /\ forall g gs A v, chain_conveys fs a (g :: gs) A -> g.(Grant.grantee) = p -> (length (g :: gs) <= MAX_DELEGATION_DEPTH)%nat -> act ∈ A ->
           delegate root (scopes (g :: gs)) = Ok v -> warrant_within w v = true -> warrant_within v w = true
  | Ok None => ~ holds fs p a act
  | Err e => exists g gs gs', granted fs g /\ g.(Grant.grantee) = p /\ g.(Grant.asset) = a
      /\ linked fs (Some (grant_id g)) gs /\ gs' `suffix_of` gs /\ delegate root (scopes gs') = Err e
  | Panic => False
  end.
Proof.
  unfold read_effective_grant_warrants. pose proof (ok_held _ Hi p a) as Hh.
  assert (Hk : forall g gs A, chain_conveys fs a (g :: gs) A -> Grant.grantee g = p -> grant_id g ∈ default [] (grants_by_grantee_asset i !! (p, a))).
  { intros g gs A Hc Hp. destruct (chain_granted _ _ _ _ _ Hc). apply Hh. by exists g. }
  destruct (_ !! (p, a)) as [gids|]; cbn [default] in Hh, Hk.
  2: { cbn [obind]. intros (g & gs & A & Hc & Hp & _). by apply (Hk _ _ _ Hc), not_elem_of_nil in Hp. }
  pose proof (active_warrants_spec root gids) as Hs. destruct (active_warrants _ _ _ _) as [out|e|]; cbn [obind].
  - destruct Hs as [Hsound Hcomp]; [intros gid (g & ? & ? & ? & ?)%Hh; by exists g|]. pose proof (most_permissive_spec (List.filter (fun gw => GrantWarrant.conveys gw act) out)) as Hm.
    assert (Hin : forall c, c ∈ List.filter (fun gw => GrantWarrant.conveys gw act) out <-> c ∈ out /\ act ∈ acts (GrantWarrant.actions c)).
    { intros c. rewrite list_elem_of_In, filter_In, <- list_elem_of_In. unfold GrantWarrant.conveys. by rewrite contains_acts, bool_decide_eq_true. }
    destruct (most_permissive _) as [w|].
    + destruct Hm as (c & Hc & <- & Hmax). apply Hin in Hc as [Hc Hact]. split.
      * destruct (Hsound _ Hc) as (g & gs & Hgid & Hch & Hlen & Hd). exists g, gs, (acts (GrantWarrant.actions c)). split_and!; try done.
        apply Hh in Hgid as (g' & Hg' & E' & <- & _). destruct (chain_granted _ _ _ _ _ Hch) as [Hg _]. by rewrite (granted_unique i Hi g' g).
      * intros g gs A v Hch Hp Hlen Ha Hd Hw. destruct (Hcomp g gs A act (Hk _ _ _ Hch Hp) Hch Hlen Ha) as (d & Hdo & HA & Hd').
        assert (GrantWarrant.warrant d = v) as <- by congruence. apply Hmax; [|done]. apply Hin. by rewrite HA.
    + intros (g & gs & A & Hch & Hp & Hlen & Ha). destruct (Hcomp g gs A act (Hk _ _ _ Hch Hp) Hch Hlen Ha) as (d & Hdo & HA & _).
      apply (not_elem_of_nil d). rewrite <- Hm. apply Hin. by rewrite HA.
  - destruct Hs as (g & gs & gs' & Hgid & Hl & Hsuf & He); [intros gid (g & ? & ? & ? & ?)%Hh; by exists g|].
    apply Hh in Hgid as (g' & Hg' & E' & ? & ?). exists g', gs, gs'. rewrite E'. done.
  - apply Hs. intros gid (g & ? & ? & ? & ?)%Hh; by exists g.
Qed.
End Party.

(** ** Ledgers *)
Definition gate (i : Inner) (f : LedgerFact) : outcome (option AppendOutcome) LedgerError :=
  match f with LedgerFact.Bind b => gate_binding i b | _ => gate_fact i f end.
Lemma gate_ok i f : inner_ok i -> gate i f <> Panic /\ (gate i f = Ok None -> fresh i f /\ f ∉ i.(facts)).
Proof.
  intros Hi. assert (Hfact : forall E, exists o, contains_fact (E := E) i (fact_id f) = Ok o /\ (o = None -> by_id i !! fact_id f = None)).
  { intros E. unfold contains_fact, fact_at. destruct (by_id i !! fact_id f) as [pos|] eqn:Hp; [|by exists None].
    destruct (ok_ids _ Hi _ _ Hp) as (x & -> & _). by exists (Some x). }
  assert (Hnew : by_id i !! fact_id f = None -> f ∉ facts i) by (intros Hn Hin; destruct (ok_known _ Hi _ Hin); congruence).
  destruct f as [b|g|r]; cbn [gate fresh].
  1: { unfold gate_binding, owner_of_asset. destruct (bindings i !! _) as [o|] eqn:Ho; [by case_bool_decide|]. split; [done|]. intros _. split; [done|].
       intros Hin. destruct b as [a' o']. apply (ok_bound _ Hi) in Hin. cbn in Ho. congruence. }
  all: unfold gate_fact; destruct (Hfact LedgerError) as (o & -> & Ho); cbn [obind]; destruct o as [x|]; [by case_bool_decide|]; specialize (Ho eq_refl); auto.
Qed.
Section Append.
Context {L : Type} `{!GrantLedger L}.
Definition ledger_append (l : L) (f : LedgerFact) : outcome (L * AppendOutcome) LedgerError :=
  match f with LedgerFact.Bind b => append_binding l b | LedgerFact.Grant g => append_grant l g | LedgerFact.Revoke r => append_revocation l r end.
Definition ledger_step (l : L) (f : LedgerFact) : L := match ledger_append l f with Ok (l', _) => l' | _ => l end.
(** What a backend promises: it answers from its facts and their indices, refuses
    or acknowledges what the gate says, and otherwise records the fact. *)
Class GrantLedgerLaws := {
  view : L -> Inner;
  view_owner l a : owner_of l a = read_owner_of (view l) a;
  view_grants l p a : effective_grants l p a = read_effective_grants (view l) p a;
  view_warrants l p a root : effective_grant_warrants l p a root = read_effective_grant_warrants (view l) p a root;
  view_facts l : list_facts l = (view l).(facts);
  append_law l f :
    match ledger_append l f with
    | Ok (l', o) => (gate (view l) f = Ok (Some o) /\ view l' = view l)
                    \/ (gate (view l) f = Ok None /\ view l' = apply_fact (view l) f /\ o = Appended (fact_id f))
    | Err e => gate (view l) f = Err e \/ gate (view l) f = Ok None
    | Panic => gate (view l) f = Panic
    end
}.
End Append.
#[export] Instance InMemory_Laws : GrantLedgerLaws (L := InMemoryGrantLedger).
Proof.
  refine {| view := inner |}; try done. intros l [b|g|r]; cbn; [unfold mem_append_binding|unfold mem_append_grant|unfold mem_append_revocation]; unfold append_mem;
    (destruct (gate_binding _ _) as [[o|]|e|] || destruct (gate_fact _ _) as [[o|]|e|]); cbn; auto.
Defined.
#[export] Instance Sqlite_Laws : GrantLedgerLaws (L := SqliteGrantLedger).
Proof.
  refine {| view := sq_inner |}; try done. intros l [b|g|r]; cbn; [unfold sq_append_binding|unfold sq_append_grant|unfold sq_append_revocation]; unfold append_sq;
    (destruct (gate_binding _ _) as [[o|]|e|] || destruct (gate_fact _ _) as [[o|]|e|]); cbn; auto; unfold append_durable; destruct (negb true || _); cbn; auto.
Defined.
Section Lawful.
Context {L : Type} `{!GrantLedger L} `{!GrantLedgerLaws (L := L)}.
Lemma ledger_step_view (l : L) f : inner_ok (view l) -> inner_ok (view (ledger_step l f)) /\ (view l).(facts) `prefix_of` (view (ledger_step l f)).(facts).
Proof.
  intros Hi. unfold ledger_step. pose proof (append_law l f) as Ha. destruct (ledger_append l f) as [[l' o]|e|]; [|done|done].
  destruct Ha as [[_ ->]|(Hg & -> & _)]; [done|]. destruct (proj2 (gate_ok _ f Hi) Hg). split; [by apply apply_fact_ok|]. rewrite apply_facts. by apply prefix_app_r.
Qed.
Lemma ledger_run_view ops : forall l : L, inner_ok (view l) -> inner_ok (view (foldl ledger_step l ops)) /\ (view l).(facts) `prefix_of` (view (foldl ledger_step l ops)).(facts).
Proof.
  induction ops as [|f ops IH]; intros l Hi; [done|]. cbn [foldl]. destruct (ledger_step_view l f Hi) as [Hi' Hp]. destruct (IH _ Hi'). split; [done|by etrans].
Qed.
Lemma prefix_in fs fs' (f : LedgerFact) : fs `prefix_of` fs' -> f ∈ fs -> f ∈ fs'.
Proof. intros [k ->] Hin. apply elem_of_app. by left. Qed.

(** [C25] A party is authorized for an action on an asset exactly when the facts hold an
    unbroken chain of at most 64 grants that conveys it: from the bound owner, each
    grant on that asset by the grantee of the one before, who held Delegate, none
    revoked by its grantor or the owner. No query fails. *)
Theorem authority_is_delegated (l0 : L) ops p a act : view l0 = Inner_default ->
  let l := foldl ledger_step l0 ops in
  exists b, is_authorized l p a act = Ok b /\ (b = true <-> holds (list_facts l) p a act).
Proof.
  intros H0 l. destruct (ledger_run_view ops l0) as [Hi _]; [rewrite H0; apply inner_default_ok|]. fold l in Hi.
  unfold is_authorized. rewrite view_grants, view_facts. destruct (authorized_spec (E := NarrowingError) (view l) Hi a p) as (e & -> & He). cbn [obind].
  eexists. split; [done|]. rewrite contains_acts, bool_decide_eq_true. apply He.
Qed.
(** The warrant an action runs under is the owner's narrowed along one chain that
    conveys the action, so never wider than the owner's, and no other such chain
    gives a strictly wider one. None is answered exactly when no chain conveys the
    action; a failure means that a recorded grant on the way to the party widens. *)
Theorem granted_warrants_bounded (l0 : L) ops p a act root : view l0 = Inner_default ->
  let l := foldl ledger_step l0 ops in
  match resolve_effective_warrant_for l p a act root with
  | Ok (Some w) => warrant_le w root
      /\ (exists g gs A, chain_conveys (list_facts l) a (g :: gs) A /\ g.(Grant.grantee) = p /\ (length (g :: gs) <= MAX_DELEGATION_DEPTH)%nat /\ act ∈ A
                         /\ delegate root (scopes (g :: gs)) = Ok w)
      /\ forall g gs A v, chain_conveys (list_facts l) a (g :: gs) A -> g.(Grant.grantee) = p -> (length (g :: gs) <= MAX_DELEGATION_DEPTH)%nat -> act ∈ A ->
           delegate root (scopes (g :: gs)) = Ok v -> warrant_within w v = true -> warrant_within v w = true
  | Ok None => ~ holds (list_facts l) p a act
  | Err e => exists g gs gs', granted (list_facts l) g /\ g.(Grant.grantee) = p /\ g.(Grant.asset) = a
      /\ linked (list_facts l) (Some (grant_id g)) gs /\ gs' `suffix_of` gs /\ delegate root (scopes gs') = Err e
  | Panic => False
  end.
Proof.
  intros H0 l. destruct (ledger_run_view ops l0) as [Hi _]; [rewrite H0; apply inner_default_ok|]. fold l in Hi.
  unfold resolve_effective_warrant_for. rewrite view_warrants, view_facts. pose proof (resolved_spec (view l) Hi a p act root) as Hr.
  destruct (obind _ _) as [[w|]|e|]; [|done..]. destruct Hr as [(g & gs & A & ? & ? & ? & ? & Hd) Hmax]. split_and!; [by eapply delegate_le|by exists g, gs, A|done].
Qed.
(** A revocation by the grantor or the owner is final: whatever is recorded later,
    a party is only ever authorized by chains that avoid the revoked grant. *)
Theorem revocation_is_final (l0 : L) ops g r : view l0 = Inner_default ->
  let l := foldl ledger_step l0 ops in
  revokes (list_facts l) (grant_id g) r -> r = g.(Grant.grantor) \/ owner_of l g.(Grant.asset) = Some r ->
  forall later p act, let l' := foldl ledger_step l later in
  is_authorized l' p g.(Grant.asset) act = Ok true ->
  exists x gs A, chain_conveys (list_facts l') g.(Grant.asset) (x :: gs) A /\ x.(Grant.grantee) = p /\ act ∈ A /\ g ∉ x :: gs.
Proof.
  intros H0 l Hr Ho later p act l' Ha. destruct (ledger_run_view ops l0) as [Hi _]; [rewrite H0; apply inner_default_ok|]. fold l in Hi.
  destruct (ledger_run_view later l Hi) as [Hi' Hpre]. fold l' in Hi', Hpre. unfold is_authorized in Ha. rewrite view_grants in Ha.
  destruct (authorized_spec (E := NarrowingError) (view l') Hi' (Grant.asset g) p) as (e & Hre & He). rewrite Hre in Ha. cbn [obind] in Ha. injection Ha as Ha.
  rewrite contains_acts, bool_decide_eq_true, He in Ha. destruct Ha as (x & gs & A & Hc & Hp & _ & Hact). rewrite !view_facts in *. exists x, gs, A. split_and!; try done.
  intros Hin. apply (chain_unrevoked _ _ _ _ _ Hc Hin). exists r. split; [by eapply prefix_in|]. destruct Ho as [->|Ho]; [by left|right].
  rewrite view_owner in Ho. apply (ok_bound _ Hi) in Ho. by eapply prefix_in.
Qed.
End Lawful.

(** ** The durable ledger *)
Definition sq_ledger_append (io : bool) (l : SqliteGrantLedger) (f : LedgerFact) : outcome (SqliteGrantLedger * AppendOutcome) LedgerError :=
  append_sq io l (gate l.(sq_inner) f) f.
Definition sq_ledger_step (l : SqliteGrantLedger) (x : LedgerFact * bool) : SqliteGrantLedger :=
  match sq_ledger_append x.2 l x.1 with Ok (l', _) => l' | _ => l end.
Definition sq_empty : SqliteGrantLedger := {| conn := []; sq_inner := Inner_default |}.
Lemma rebuild_snoc rows r : forall i, rebuild_from i (rows ++ [r]) = let* i := rebuild_from i rows in rebuild_from i [r].
Proof. induction rows as [|x rows IH]; intros i; [done|]. cbn [app rebuild_from]. destruct (bincode_decode _) as [[f n]|]; [apply IH|done]. Qed.
(** The rows are the facts in order. *)
Record table_ok (l : SqliteGrantLedger) : Prop := {
  tb_rebuild : rebuild l.(conn) = Ok l.(sq_inner);
  tb_ids : FactRow.fact_id <$> l.(conn) = fact_id <$> l.(sq_inner).(facts)
}.
Lemma sq_step_ok l x : table_ok l -> table_ok (sq_ledger_step l x).
Proof.
  intros [Hr Hids]. unfold sq_ledger_step, sq_ledger_append, append_sq. destruct (gate _ _) as [[o|]|e|]; cbn [obind]; try done.
  unfold append_durable. destruct (negb _ || _); [done|]. split; cbn [conn sq_inner].
  - unfold rebuild in *. rewrite rebuild_snoc, Hr. cbn. unfold encode_fact. by rewrite bincode_decode_encode.
  - rewrite fmap_app, apply_facts, fmap_app, Hids. done.
Qed.
Lemma sq_ledger_step_true l f : ledger_step l f = sq_ledger_step l (f, true).
Proof. by destruct f. Qed.
Lemma sq_run_ok runs : forall l, table_ok l -> table_ok (foldl sq_ledger_step l runs).
Proof. induction runs as [|x runs IH]; intros l Hl; [done|]. apply IH. by apply sq_step_ok. Qed.
Definition same_ledger (m : InMemoryGrantLedger) (l : SqliteGrantLedger) : Prop := m.(inner) = l.(sq_inner) /\ table_ok l /\ inner_ok l.(sq_inner).
Lemma same_step m l f (ops : list LedgerFact) : (forall x, x ∈ l.(sq_inner).(facts) -> x ∈ ops) -> f ∈ ops ->
  (forall x y, x ∈ ops -> y ∈ ops -> fact_id x = fact_id y -> x = y) -> same_ledger m l ->
  same_ledger (ledger_step m f) (ledger_step l f) /\ (forall x, x ∈ (ledger_step l f).(sq_inner).(facts) -> x ∈ ops).
Proof.
  intros Hin Hf Hinj (Hm & Ht & Hi). pose proof (sq_step_ok l (f, true) Ht) as Ht'. rewrite <- sq_ledger_step_true in Ht'.
  destruct (ledger_step_view (L := SqliteGrantLedger) (GrantLedgerLaws0 := Sqlite_Laws) l f Hi) as [Hi' _]. change (view (ledger_step l f)) with (sq_inner (ledger_step l f)) in Hi'. unfold same_ledger. enough (inner (ledger_step m f) = sq_inner (ledger_step l f) /\ forall x, x ∈ facts (sq_inner (ledger_step l f)) -> x ∈ ops) as [-> ?] by done.
  rewrite sq_ledger_step_true. unfold sq_ledger_step, sq_ledger_append, append_sq. cbn [fst snd].
  assert (Hs : ledger_step m f = match gate (inner m) f with Ok None => {| inner := apply_fact (inner m) f |} | _ => m end).
  { destruct f; cbn [ledger_step ledger_append append_binding append_grant append_revocation InMemory_GrantLedger gate];
      [unfold ledger_step; cbn; unfold mem_append_binding|unfold ledger_step; cbn; unfold mem_append_grant|unfold ledger_step; cbn; unfold mem_append_revocation]; unfold append_mem;
      (destruct (gate_binding _ _) as [[o|]|e|] || destruct (gate_fact _ _) as [[o|]|e|]); done. }
  rewrite Hs, Hm. destruct (gate (sq_inner l) f) as [[o|]|e|] eqn:Hg; cbn [obind]; try done. destruct (proj2 (gate_ok _ f Hi) Hg) as [_ Hnew].
  unfold append_durable. destruct (existsb _ _) eqn:Hdup; cycle 1.
  - cbn [negb orb inner sq_inner]. split; [done|]. intros x. rewrite apply_facts, elem_of_app, list_elem_of_singleton. intros [?| ->]; auto.
  - exfalso. apply existsb_exists in Hdup as (r & Hr & Hid%bool_decide_eq_true). apply Hnew. apply list_elem_of_In in Hr.
    assert (Hx : FactRow.fact_id r ∈ fact_id <$> facts (sq_inner l)) by (rewrite <- (tb_ids _ Ht); by apply list_elem_of_fmap_2).
    apply list_elem_of_fmap in Hx as (x & Ex & Hx). rewrite (Hinj f x); [done|done|by apply Hin|congruence].
Qed.
Lemma same_run (ops : list LedgerFact) : (forall x y, x ∈ ops -> y ∈ ops -> fact_id x = fact_id y -> x = y) ->
  forall todo m l, (forall x, x ∈ l.(sq_inner).(facts) -> x ∈ ops) -> (forall x, x ∈ todo -> x ∈ ops) -> same_ledger m l -> same_ledger (foldl ledger_step m todo) (foldl ledger_step l todo).
Proof.
  intros Hinj. induction todo as [|f todo IH]; intros m l Hl Ht Hs; [done|]. cbn [foldl].
  destruct (same_step m l f ops Hl (Ht f (list_elem_of_here _ _)) Hinj Hs). apply IH; [done| |done]. intros x Hx. apply Ht. by right.
Qed.
Lemma sq_empty_ok : table_ok sq_empty.
Proof. done. Qed.
(** Whatever appends fail, the durable ledger is reopened from its table as it was;
    and with no failure and no colliding ids it answers every query as the
    in-memory ledger does after the same appends. *)
Theorem durable_ledger_agrees :
  (forall runs, let l := foldl sq_ledger_step sq_empty runs in
    open_ledger None l.(conn) = Ok l /\ open_ledger (Some (to_le 2 GRANT_LEDGER_SCHEMA_VERSION)) l.(conn) = Ok l)
  /\ forall ops : list LedgerFact, (forall x y, x ∈ ops -> y ∈ ops -> fact_id x = fact_id y -> x = y) ->
     (foldl ledger_step InMemoryGrantLedger_new ops).(inner) = (foldl ledger_step sq_empty ops).(sq_inner).
Proof.
  split.
  - intros runs l. destruct (sq_run_ok runs sq_empty sq_empty_ok) as [Hr _]. fold l in Hr. split; unfold open_ledger; cbn [omap_err]; (replace (init_and_verify _ _) with (Ok (E := StoreError) (to_le 2 GRANT_LEDGER_SCHEMA_VERSION)) by (by vm_compute)); cbn [omap_err obind]; rewrite Hr; by destruct l.
  - intros ops Hinj. apply (same_run ops Hinj ops InMemoryGrantLedger_new sq_empty); [by intros x ?%not_elem_of_nil|done|].
    split_and!; [done|apply sq_empty_ok|apply inner_default_ok].
Qed.
End Facts.

(** ** A ledger to evaluate *)
#[export] Instance CatalogActionSet_countable : Countable CatalogActionSet.
Proof.
  count (fun s => match s with CatalogActionSet.None => None | CatalogActionSet.AllowList x => Some x end)
    (fun o : option (gset CatalogAction) => match o with None => CatalogActionSet.None | Some x => CatalogActionSet.AllowList x end).
Defined.
#[export] Instance Role_countable : Countable Role.
Proof.
  apply (inj_countable' (fun r => (Role.name r, Role.version r, Role.spec r, Role.description r))
    (fun '(a, b, c, d) => {| Role.name := a; Role.version := b; Role.spec := c; Role.description := d |})). by intros [].
Defined.
#[export] Instance Grant_countable : Countable Grant.
Proof.
  apply (inj_countable' (fun g => (Grant.schema_version g, Grant.asset g, Grant.grantor g, Grant.grantee g, Grant.actions g, Grant.runtime_scope g, Grant.prior g))
    (fun '(a, b, c, d, e, f, g) => {| Grant.schema_version := a; Grant.asset := b; Grant.grantor := c; Grant.grantee := d; Grant.actions := e; Grant.runtime_scope := f; Grant.prior := g |})).
  by intros [].
Defined.
#[export] Instance AssetBinding_countable : Countable AssetBinding.
Proof.
  apply (inj_countable' (fun b => (AssetBinding.asset b, AssetBinding.owner b)) (fun '(a, o) => {| AssetBinding.asset := a; AssetBinding.owner := o |})). by intros [].
Defined.
#[export] Instance Revocation_countable : Countable Revocation.
Proof.
  apply (inj_countable' (fun r => (Revocation.grant_id r, Revocation.revoker r)) (fun '(a, o) => {| Revocation.grant_id := a; Revocation.revoker := o |})). by intros [].
Defined.
#[export] Instance LedgerFact_countable : Countable LedgerFact.
Proof.
  apply (inj_countable' (fun f => match f with LedgerFact.Bind b => inl b | LedgerFact.Grant g => inr (inl g) | LedgerFact.Revoke r => inr (inr r) end)
    (fun s => match s with inl b => LedgerFact.Bind b | inr (inl g) => LedgerFact.Grant g | inr (inr r) => LedgerFact.Revoke r end)). by intros [].
Defined.
(** A hash that reads all of its input. *)
Definition mod_blake3 : Blake3.
Proof.
  refine {| blake3 := fun x => to_le 32 (from_le x mod (2 ^ 255 - 19)) |}. intros x. split; [apply length_to_le|apply to_le_ok].
Defined.
(** A codec that numbers the values of a list and writes any other by a given one. *)
Definition listed_bincode {A} `{!EqDecision A} (base : Bincode A) (l : list A) : Bincode A.
Proof.
  refine {| bincode_encode := fun a => match list_find (eq a) l with Some (n, _) => [0; Z.of_nat n] | None => 1 :: @bincode_encode A base a end;
            bincode_decode := fun b => match b with
              | 0 :: n :: _ => (fun a => (a, 2%nat)) <$> l !! Z.to_nat n
              | 1 :: b => (fun x => (x.1, S x.2)) <$> @bincode_decode A base b
              | _ => None
              end |}.
  intros a. destruct (list_find (eq a) l) as [[n x]|] eqn:Hf.
  - apply list_find_Some in Hf as (Hn & <- & _). by rewrite Nat2Z.id, Hn.
  - by rewrite bincode_decode_encode.
Defined.
#[local] Existing Instance mod_blake3.
Definition demo_asset : AssetRef := AssetRef.Signature (replicate 32 1).
Definition demo_root : WarrantSpec := demo_warrant 10 FsMode.ReadOnly.
Definition demo_admin : PartyId := str "admin".
(** The id of the [n]th grant below. *)
Definition demo_gid (n : Z) : GrantId := blake3 (str "kx-catalog/grant/v1" ++ [0; n]).
Definition demo_use : CatalogActionSet := CatalogActionSet.allow {[CatalogAction.Use]}.
Definition demo_grants : list Grant :=
  [Grant_root demo_asset demo_admin (str "alice") CatalogActionSet.all (demo_role 9 FsMode.ReadOnly);
   Grant_delegated (demo_gid 0) demo_asset (str "alice") (str "bob") demo_use (demo_role 7 FsMode.ReadOnly);
   Grant_root demo_asset demo_admin (str "carol") demo_use (demo_role 9 FsMode.ReadWrite);
   Grant_delegated (demo_gid 2) demo_asset (str "mallory") (str "bob") demo_use (demo_role 7 FsMode.ReadOnly)].
#[local] Instance demo_grant_codec : Bincode Grant := listed_bincode demo_bincode demo_grants.
#[local] Instance demo_binding_codec : Bincode AssetBinding := listed_bincode demo_bincode [{| AssetBinding.asset := demo_asset; AssetBinding.owner := demo_admin |}].
#[local] Instance demo_fact_codec : Bincode LedgerFact := demo_bincode.
Definition demo_ops : list LedgerFact :=
  LedgerFact.Bind {| AssetBinding.asset := demo_asset; AssetBinding.owner := demo_admin |} :: (LedgerFact.Grant <$> demo_grants).
(** The ledger after the first facts. *)
Definition demo_ledger (n : nat) : InMemoryGrantLedger := foldl ledger_step InMemoryGrantLedger_new (take n demo_ops).
Lemma authority_is_delegated_witness :
  is_authorized (demo_ledger 3) (str "bob") demo_asset CatalogAction.Use = Ok true
  /\ exists b, is_authorized (demo_ledger 3) (str "bob") demo_asset CatalogAction.Use = Ok b
      /\ (b = true <-> holds (list_facts (demo_ledger 3)) (str "bob") demo_asset CatalogAction.Use).
Proof.
  split; [vm_compute; reflexivity|]. exact (authority_is_delegated InMemoryGrantLedger_new (take 3 demo_ops) (str "bob") demo_asset CatalogAction.Use eq_refl).
Defined.
Lemma granted_warrants_bounded_witness :
  exists w, resolve_effective_warrant_for (demo_ledger 3) (str "bob") demo_asset CatalogAction.Use demo_root = Ok (Some w) /\ warrant_le w demo_root.
Proof.
  pose proof (granted_warrants_bounded InMemoryGrantLedger_new (take 3 demo_ops) (str "bob") demo_asset CatalogAction.Use demo_root eq_refl) as Hb. cbv zeta in Hb. fold (demo_ledger 3) in Hb.
  destruct (resolve_effective_warrant_for (demo_ledger 3) (str "bob") demo_asset CatalogAction.Use demo_root) as [[w|]|e|] eqn:E; try (vm_compute in E; discriminate).
  exists w. split; [reflexivity|exact (proj1 Hb)].
Defined.
(** The grant between alice and bob is revoked by alice. *)
Definition demo_revocation : LedgerFact := LedgerFact.Revoke {| Revocation.grant_id := demo_gid 1; Revocation.revoker := str "alice" |}.
Lemma revocation_is_final_witness :
  let g := Grant_delegated (demo_gid 0) demo_asset (str "alice") (str "bob") demo_use (demo_role 7 FsMode.ReadOnly) in
  let l := ledger_step (demo_ledger 3) demo_revocation in
  is_authorized l (str "bob") demo_asset CatalogAction.Use = Ok false
  /\ forall later p act, is_authorized (foldl ledger_step l later) p demo_asset act = Ok true ->
      exists x gs A, chain_conveys (list_facts (foldl ledger_step l later)) demo_asset (x :: gs) A /\ x.(Grant.grantee) = p /\ act ∈ A /\ g ∉ x :: gs.
Proof.
  intros g l. split; [vm_compute; reflexivity|].
  refine (revocation_is_final InMemoryGrantLedger_new (take 3 demo_ops ++ [demo_revocation]) g (str "alice") eq_refl _ _).
  - vm_compute. do 3 right. left.
  - left. reflexivity.
Defined.
(** A forged grant that points at a widening one takes the warrant away from the
    party it names, although it conveys nothing. *)
Lemma forged_grant_blocks_resolution :
  (exists w, resolve_effective_warrant_for (demo_ledger 4) (str "bob") demo_asset CatalogAction.Use demo_root = Ok (Some w))
  /\ (exists e, resolve_effective_warrant_for (demo_ledger 5) (str "bob") demo_asset CatalogAction.Use demo_root = Err e)
  /\ effective_grants (demo_ledger 5) (str "bob") demo_asset = effective_grants (demo_ledger 4) (str "bob") demo_asset.
Proof. split_and!; [eexists; vm_compute; reflexivity|eexists; vm_compute; reflexivity|vm_compute; reflexivity]. Qed.
