(* ===== verification/Fleet.v ===== *)
(** kx-fleet: teams and their members (team.rs, membership.rs, ledger.rs, error.rs),
    the membership facts and their fold (membership_inner.rs), in memory and in
    SQLite (in_memory.rs, sqlite_membership_ledger.rs), and the warrant a member
    gets through the grants of its teams (governed.rs). *)
From S2P Require Import Prelude Utf8 CriticTypes Mote Content Warrant DemoCodec Grants.

(** ** Facts *)
Definition FLEET_SCHEMA_VERSION : Z := 1.
Abbreviation MembershipId := bytes.
Module Team.
Record Team := { schema_version : Z; principal : PartyId; owner : PartyId; display_name : bytes }.
Definition found (principal owner : PartyId) (display_name : bytes) : Team :=
  {| schema_version := FLEET_SCHEMA_VERSION; principal := principal; owner := owner; display_name := display_name |}.
End Team.
Abbreviation Team := Team.Team.
Module Admit.
Record Admit := { schema_version : Z; team : PartyId; member : PartyId; admitter : PartyId; role : Role; action_cap : CatalogActionSet }.
Definition new (team member admitter : PartyId) (role : Role) (action_cap : CatalogActionSet) : Admit :=
  {| schema_version := FLEET_SCHEMA_VERSION; team := team; member := member; admitter := admitter; role := role; action_cap := action_cap |}.
End Admit.
Abbreviation Admit := Admit.Admit.
Module Removal.
Record Removal := { schema_version : Z; team : PartyId; member : PartyId; remover : PartyId }.
Definition new (team member remover : PartyId) : Removal :=
  {| schema_version := FLEET_SCHEMA_VERSION; team := team; member := member; remover := remover |}.
End Removal.
Abbreviation Removal := Removal.Removal.
Module Disband.
Record Disband := { schema_version : Z; team : PartyId; by_party : PartyId }.
Definition new (team by_party : PartyId) : Disband := {| schema_version := FLEET_SCHEMA_VERSION; team := team; by_party := by_party |}.
End Disband.
Abbreviation Disband := Disband.Disband.
Module MembershipFact.
Inductive MembershipFact := Found (t : Team) | Admit (a : Admit) | Remove (r : Removal) | Disband (d : Disband).
End MembershipFact.
Abbreviation MembershipFact := MembershipFact.MembershipFact.
#[export] Instance Team_eq_dec : EqDecision Team.
Proof. solve_decision. Defined.
#[export] Instance Admit_eq_dec : EqDecision Admit.
Proof. solve_decision. Defined.
#[export] Instance Removal_eq_dec : EqDecision Removal.
Proof. solve_decision. Defined.
#[export] Instance Disband_eq_dec : EqDecision Disband.
Proof. solve_decision. Defined.
#[export] Instance MembershipFact_eq_dec : EqDecision MembershipFact.
Proof. solve_decision. Defined.

(** ** What the ledger answers *)
Definition MAX_TEAM_MEMBERS_WALK : nat := 64.
Module TeamEdge.
Record TeamEdge := { team : PartyId; role : Role; action_cap : CatalogActionSet; admit_id : MembershipId }.
End TeamEdge.
Abbreviation TeamEdge := TeamEdge.TeamEdge.
Module MemberRole.
Record MemberRole := { member : PartyId; role : Role; action_cap : CatalogActionSet }.
End MemberRole.
Abbreviation MemberRole := MemberRole.MemberRole.
Module MembershipOutcome.
Inductive MembershipOutcome := Appended (f : MembershipId) | AlreadyPresent (f : MembershipId).
Definition membership_id (o : MembershipOutcome) : MembershipId := match o with Appended f | AlreadyPresent f => f end.
Definition is_appended (o : MembershipOutcome) : bool := match o with Appended _ => true | AlreadyPresent _ => false end.
End MembershipOutcome.
Abbreviation MembershipOutcome := MembershipOutcome.MembershipOutcome.
Module MembershipLedgerError.
Inductive MembershipLedgerError := ImmutabilityConflict (id_hex : bytes) | OwnerConflict (why : bytes) | Storage (why : StoreError).
End MembershipLedgerError.
Abbreviation MembershipLedgerError := MembershipLedgerError.MembershipLedgerError.
Module GovernedFleetError.
Inductive GovernedFleetError := Unauthorized (member : bytes) (action : CatalogAction) (asset : bytes) | Narrowing (e : NarrowingError).
End GovernedFleetError.
Abbreviation GovernedFleetError := GovernedFleetError.GovernedFleetError.
(** A [BTreeSet<PartyId>] in its order. *)
Definition party_iter (s : gset PartyId) : list PartyId := stable_sort bytes_le (elements s).
(** [any], which stops at the first hit. *)
Fixpoint oany {A E : Type} (f : A -> outcome bool E) (l : list A) : outcome bool E :=
  match l with
  | [] => Ok false
  | x :: l => let* b := f x in if b then Ok true else oany f l
  end.
Module Membership.
Record Inner := {
  facts : list MembershipFact; by_id : gmap MembershipId nat; owners : gmap PartyId PartyId; foundings : gmap PartyId MembershipId;
  admits_by_team_member : gmap (PartyId * PartyId) (list nat); teams_by_member : gmap PartyId (gset PartyId);
  members_by_team : gmap PartyId (gset PartyId); removed : gmap (PartyId * PartyId) (list nat); disbanded : gmap PartyId (gset PartyId) }.
Definition default : Inner :=
  {| facts := []; by_id := ∅; owners := ∅; foundings := ∅; admits_by_team_member := ∅; teams_by_member := ∅; members_by_team := ∅; removed := ∅; disbanded := ∅ |}.
Definition contains_fact {E} (i : Inner) (fid : MembershipId) : outcome (option MembershipFact) E :=
  match i.(by_id) !! fid with None => Ok None | Some pos => match i.(facts) !! pos with Some f => Ok (Some f) | None => Panic end end.
Definition fact_at {E} (i : Inner) (pos : nat) : outcome MembershipFact E := match i.(facts) !! pos with Some f => Ok f | None => Panic end.
Definition len_facts (i : Inner) : nat := length i.(facts).
End Membership.
Abbreviation Members := Membership.Inner.

(** ** The fold *)
Section Fold.
Context `{Blake3} `{!Bincode Team} `{!Bincode Admit} `{!Bincode Removal} `{!Bincode Disband} `{!Bincode MembershipFact}.
Definition content_id {T} `{!Bincode T} (domain_tag : bytes) (value : T) : bytes := blake3 (domain_tag ++ bincode_encode value).
Definition team_id (t : Team) : MembershipId := blake3 (str "kx-fleet/team/v1" ++ bincode_encode t).
Definition admit_id (a : Admit) : MembershipId := content_id (str "kx-fleet/admit/v1") a.
Definition removal_id (r : Removal) : MembershipId := content_id (str "kx-fleet/removal/v1") r.
Definition disband_id (d : Disband) : MembershipId := content_id (str "kx-fleet/disband/v1") d.
Definition membership_fact_id (f : MembershipFact) : MembershipId :=
  match f with
  | MembershipFact.Found t => team_id t
  | MembershipFact.Admit a => admit_id a
  | MembershipFact.Remove r => removal_id r
  | MembershipFact.Disband d => disband_id d
  end.
Definition apply_membership (i : Members) (f : MembershipFact) : Members :=
  let pos := length i.(Membership.facts) in
  let fid := membership_fact_id f in
  let i' := {| Membership.facts := i.(Membership.facts) ++ [f]; Membership.by_id := <[fid := pos]> i.(Membership.by_id);
               Membership.owners := i.(Membership.owners); Membership.foundings := i.(Membership.foundings);
               Membership.admits_by_team_member := i.(Membership.admits_by_team_member); Membership.teams_by_member := i.(Membership.teams_by_member);
               Membership.members_by_team := i.(Membership.members_by_team); Membership.removed := i.(Membership.removed); Membership.disbanded := i.(Membership.disbanded) |} in
  match f with
  | MembershipFact.Found t =>
      {| Membership.facts := i'.(Membership.facts); Membership.by_id := i'.(Membership.by_id);
         Membership.owners := <[t.(Team.principal) := t.(Team.owner)]> i.(Membership.owners);
         Membership.foundings := <[t.(Team.principal) := fid]> i.(Membership.foundings);
         Membership.admits_by_team_member := i.(Membership.admits_by_team_member); Membership.teams_by_member := i.(Membership.teams_by_member);
         Membership.members_by_team := i.(Membership.members_by_team); Membership.removed := i.(Membership.removed); Membership.disbanded := i.(Membership.disbanded) |}
  | MembershipFact.Admit a =>
      let k := (a.(Admit.team), a.(Admit.member)) in
      {| Membership.facts := i'.(Membership.facts); Membership.by_id := i'.(Membership.by_id);
         Membership.owners := i.(Membership.owners); Membership.foundings := i.(Membership.foundings);
         Membership.admits_by_team_member := <[k := default [] (i.(Membership.admits_by_team_member) !! k) ++ [pos]]> i.(Membership.admits_by_team_member);
         Membership.teams_by_member := <[a.(Admit.member) := {[a.(Admit.team)]} ∪ default ∅ (i.(Membership.teams_by_member) !! a.(Admit.member))]> i.(Membership.teams_by_member);
         Membership.members_by_team := <[a.(Admit.team) := {[a.(Admit.member)]} ∪ default ∅ (i.(Membership.members_by_team) !! a.(Admit.team))]> i.(Membership.members_by_team);
         Membership.removed := i.(Membership.removed); Membership.disbanded := i.(Membership.disbanded) |}
  | MembershipFact.Remove r =>
      let k := (r.(Removal.team), r.(Removal.member)) in
      {| Membership.facts := i'.(Membership.facts); Membership.by_id := i'.(Membership.by_id);
         Membership.owners := i.(Membership.owners); Membership.foundings := i.(Membership.foundings);
         Membership.admits_by_team_member := i.(Membership.admits_by_team_member); Membership.teams_by_member := i.(Membership.teams_by_member);
         Membership.members_by_team := i.(Membership.members_by_team);
         Membership.removed := <[k := default [] (i.(Membership.removed) !! k) ++ [pos]]> i.(Membership.removed); Membership.disbanded := i.(Membership.disbanded) |}
  | MembershipFact.Disband d =>
      {| Membership.facts := i'.(Membership.facts); Membership.by_id := i'.(Membership.by_id);
         Membership.owners := i.(Membership.owners); Membership.foundings := i.(Membership.foundings);
         Membership.admits_by_team_member := i.(Membership.admits_by_team_member); Membership.teams_by_member := i.(Membership.teams_by_member);
         Membership.members_by_team := i.(Membership.members_by_team); Membership.removed := i.(Membership.removed);
         Membership.disbanded := <[d.(Disband.team) := {[d.(Disband.by_party)]} ∪ default ∅ (i.(Membership.disbanded) !! d.(Disband.team))]> i.(Membership.disbanded) |}
  end.
Definition disbanded_authorized (i : Members) (team : PartyId) : bool :=
  match i.(Membership.disbanded) !! team with
  | None => false
  | Some disbanders => existsb (fun d => bool_decide (Some d = i.(Membership.owners) !! team)) (elements disbanders)
  end.
(** The admitters of an edge who are authorized. *)
Fixpoint authorized_admitters {E : Type} (i : Members) (auth : PartyId -> outcome bool E) (positions : list nat) : outcome (gset PartyId) E :=
  match positions with
  | [] => Ok ∅
  | pos :: positions =>
      let* f := Membership.fact_at i pos in
      let* rest := match f with
                   | MembershipFact.Admit a =>
                       let* b := auth a.(Admit.admitter) in
                       let* rest := authorized_admitters i auth positions in
                       Ok (if b then {[a.(Admit.admitter)]} ∪ rest else rest)
                   | _ => authorized_admitters i auth positions
                   end in
      Ok rest
  end.
(** Whether a removal cancels the admit at a position. *)
Definition removal_hits {E : Type} (i : Members) (owner : option PartyId) (admitters : gset PartyId) (admit_pos rpos : nat) : outcome bool E :=
  if (admit_pos <? rpos)%nat then
    let* f := Membership.fact_at i rpos in
    Ok (match f with
        | MembershipFact.Remove r => bool_decide (Some r.(Removal.remover) = owner) || bool_decide (r.(Removal.remover) ∈ admitters)
        | _ => false
        end)
  else Ok false.
Definition admit_is_removed {E : Type} (i : Members) (auth : PartyId -> outcome bool E) (team member : PartyId) (admit_pos : nat) : outcome bool E :=
  match i.(Membership.removed) !! (team, member) with
  | None => Ok false
  | Some removals =>
      let* admitters := authorized_admitters i auth (default [] (i.(Membership.admits_by_team_member) !! (team, member))) in
      oany (removal_hits i (i.(Membership.owners) !! team) admitters admit_pos) removals
  end.
(** The edges of the admits of one member to one team. *)
Fixpoint admit_edges {E : Type} (i : Members) (auth : PartyId -> outcome bool E) (team member : PartyId) (positions : list nat) : outcome (list TeamEdge) E :=
  match positions with
  | [] => Ok []
  | pos :: positions =>
      let* gone := admit_is_removed i auth team member pos in
      if gone then admit_edges i auth team member positions
      else
        let* f := Membership.fact_at i pos in
        match f with
        | MembershipFact.Admit a =>
            let* b := auth a.(Admit.admitter) in
            let* rest := admit_edges i auth team member positions in
            Ok (if b then {| TeamEdge.team := team; TeamEdge.role := a.(Admit.role); TeamEdge.action_cap := a.(Admit.action_cap); TeamEdge.admit_id := admit_id a |} :: rest
                else rest)
        | _ => admit_edges i auth team member positions
        end
  end.
Fixpoint team_edges {E : Type} (i : Members) (auth : PartyId -> PartyId -> outcome bool E) (member : PartyId) (teams : list PartyId) : outcome (list TeamEdge) E :=
  match teams with
  | [] => Ok []
  | team :: teams =>
      if disbanded_authorized i team then team_edges i auth member teams
      else
        match i.(Membership.admits_by_team_member) !! (team, member) with
        | None => team_edges i auth member teams
        | Some positions =>
            let* es := admit_edges i (auth team) team member positions in
            let* rest := team_edges i auth member teams in
            Ok (es ++ rest)
        end
  end.
Definition edge_le (a b : TeamEdge) : bool :=
  if bool_decide (a.(TeamEdge.team) = b.(TeamEdge.team)) then bytes_le a.(TeamEdge.admit_id) b.(TeamEdge.admit_id)
  else bytes_le a.(TeamEdge.team) b.(TeamEdge.team).
Definition delegates (team : PartyId) (es : list TeamEdge) : bool :=
  existsb (fun e => bool_decide (e.(TeamEdge.team) = team) && CatalogActionSet.contains e.(TeamEdge.action_cap) CatalogAction.Delegate) es.
(** [room] is one more than the depths the bound leaves. *)
Fixpoint edges_of {E : Type} (room : nat) (i : Members) (visiting : gset PartyId) (member : PartyId) : outcome (list TeamEdge) E :=
  match room with
  | O => Ok []
  | S room =>
      if bool_decide (member ∈ visiting) then Ok []
      else
        match i.(Membership.teams_by_member) !! member with
        | None => Ok []
        | Some teams =>
            let admitter_authorized (team admitter : PartyId) :=
              if bool_decide (Some admitter = i.(Membership.owners) !! team) then Ok true
              else let* es := edges_of room i ({[member]} ∪ visiting) admitter in Ok (delegates team es) in
            let* out := team_edges i admitter_authorized member (party_iter teams) in
            Ok (stable_sort edge_le out)
        end
  end.
Definition read_member_edges {E : Type} (i : Members) (member : PartyId) : outcome (list TeamEdge) E :=
  edges_of (S MAX_TEAM_MEMBERS_WALK) i ∅ member.
Definition cap_union (es : list TeamEdge) : CatalogActionSet := foldl (fun cap e => CatalogActionSet.union cap e.(TeamEdge.action_cap)) CatalogActionSet.None es.
Definition by_admit (a b : TeamEdge) : bool := bytes_le a.(TeamEdge.admit_id) b.(TeamEdge.admit_id).
Definition merge_member_role {E : Type} (member : PartyId) (edges : list TeamEdge) : outcome MemberRole E :=
  let edges := stable_sort by_admit edges in
  match edges with
  | [] => Panic
  | e :: _ => Ok {| MemberRole.member := member; MemberRole.role := e.(TeamEdge.role); MemberRole.action_cap := cap_union edges |}
  end.
Definition of_team (team : PartyId) (es : list TeamEdge) : list TeamEdge := List.filter (fun e => bool_decide (e.(TeamEdge.team) = team)) es.
Fixpoint members_of {E : Type} (i : Members) (team : PartyId) (members : list PartyId) : outcome (list MemberRole) E :=
  match members with
  | [] => Ok []
  | m :: members =>
      let* es := read_member_edges i m in
      match of_team team es with
      | [] => members_of i team members
      | es => let* r := merge_member_role m es in let* rest := members_of i team members in Ok (r :: rest)
      end
  end.
Definition read_effective_members {E : Type} (i : Members) (team : PartyId) : outcome (list MemberRole) E :=
  match i.(Membership.members_by_team) !! team with None => Ok [] | Some members => members_of i team (party_iter members) end.
Definition read_owner_of_team (i : Members) (team : PartyId) : option PartyId := i.(Membership.owners) !! team.

(** ** The ledger trait *)
Class MembershipLedger (L : Type) := {
  append_founding : L -> Team -> outcome (L * MembershipOutcome) MembershipLedgerError;
  append_admit : L -> Admit -> outcome (L * MembershipOutcome) MembershipLedgerError;
  append_remove : L -> Removal -> outcome (L * MembershipOutcome) MembershipLedgerError;
  append_disband : L -> Disband -> outcome (L * MembershipOutcome) MembershipLedgerError;
  owner_of_team : L -> PartyId -> option PartyId;
  member_edges : forall E : Type, L -> PartyId -> outcome (list TeamEdge) E;
  effective_members : forall E : Type, L -> PartyId -> outcome (list MemberRole) E;
  membership_facts : L -> list MembershipFact;
  membership_len : L -> nat
}.
#[global] Arguments member_edges {L _} {E} l member.
#[global] Arguments effective_members {L _} {E} l team.
Section Provided.
Context {L : Type} `{!MembershipLedger L} {E : Type}.
Definition membership_is_empty (l : L) : bool := (membership_len l =? 0)%nat.
Definition is_member (l : L) (member team : PartyId) : outcome bool E :=
  let* es := member_edges l member in Ok (existsb (fun e => bool_decide (e.(TeamEdge.team) = team)) es).
Definition member_role (l : L) (member team : PartyId) : outcome (option MemberRole) E :=
  let* es := member_edges l member in
  let edges := stable_sort by_admit (of_team team es) in
  Ok (match edges with
      | [] => None
      | e :: _ => Some {| MemberRole.member := member; MemberRole.role := e.(TeamEdge.role); MemberRole.action_cap := cap_union edges |}
      end).
(** [sort] and [dedup], which drops an element equal to the one before it. *)
Fixpoint dedup (l : list PartyId) : list PartyId :=
  match l with
  | x :: ((y :: _) as rest) => if bool_decide (x = y) then dedup rest else x :: dedup rest
  | _ => l
  end.
Definition teams_of (l : L) (member : PartyId) : outcome (list PartyId) E :=
  let* es := member_edges l member in Ok (dedup (stable_sort bytes_le (TeamEdge.team <$> es))).
End Provided.

(** ** In memory *)
Record InMemoryMembershipLedger := { members_inner : Members }.
Definition InMemoryMembershipLedger_new : InMemoryMembershipLedger := {| members_inner := Membership.default |}.
Definition gate_founding (i : Members) (t : Team) : outcome (option MembershipOutcome) MembershipLedgerError :=
  match i.(Membership.owners) !! t.(Team.principal) with
  | Some existing_owner =>
      if bool_decide (existing_owner = t.(Team.owner))
      then Ok (Some (MembershipOutcome.AlreadyPresent (default (team_id t) (i.(Membership.foundings) !! t.(Team.principal)))))
      else Err (MembershipLedgerError.OwnerConflict (str "team " ++ t.(Team.principal) ++ str " already founded with a different owner"))
  | None => Ok None
  end.
Definition gate_membership (i : Members) (f : MembershipFact) : outcome (option MembershipOutcome) MembershipLedgerError :=
  let* existing := Membership.contains_fact i (membership_fact_id f) in
  match existing with
  | Some x => if bool_decide (x = f) then Ok (Some (MembershipOutcome.AlreadyPresent (membership_fact_id f)))
              else Err (MembershipLedgerError.ImmutabilityConflict (to_hex (membership_fact_id f)))
  | None => Ok None
  end.
Definition member_append_mem (l : InMemoryMembershipLedger) (gate : outcome (option MembershipOutcome) MembershipLedgerError) (f : MembershipFact)
    : outcome (InMemoryMembershipLedger * MembershipOutcome) MembershipLedgerError :=
  let* answer := gate in
  match answer with
  | Some o => Ok (l, o)
  | None => Ok ({| members_inner := apply_membership l.(members_inner) f |}, MembershipOutcome.Appended (membership_fact_id f))
  end.
Definition mem_append_founding (l : InMemoryMembershipLedger) (t : Team) := member_append_mem l (gate_founding l.(members_inner) t) (MembershipFact.Found t).
Definition mem_append_admit (l : InMemoryMembershipLedger) (a : Admit) := member_append_mem l (gate_membership l.(members_inner) (MembershipFact.Admit a)) (MembershipFact.Admit a).
Definition mem_append_remove (l : InMemoryMembershipLedger) (r : Removal) := member_append_mem l (gate_membership l.(members_inner) (MembershipFact.Remove r)) (MembershipFact.Remove r).
Definition mem_append_disband (l : InMemoryMembershipLedger) (d : Disband) := member_append_mem l (gate_membership l.(members_inner) (MembershipFact.Disband d)) (MembershipFact.Disband d).
#[export] Instance InMemory_MembershipLedger : MembershipLedger InMemoryMembershipLedger := {|
  append_founding := mem_append_founding; append_admit := mem_append_admit; append_remove := mem_append_remove; append_disband := mem_append_disband;
  owner_of_team l := read_owner_of_team l.(members_inner); member_edges E l := read_member_edges l.(members_inner);
  effective_members E l := read_effective_members l.(members_inner);
  membership_facts l := l.(members_inner).(Membership.facts); membership_len l := Membership.len_facts l.(members_inner) |}.

(** ** In SQLite: the rows in the order of [seq] *)
Definition MEMBERSHIP_LEDGER_SCHEMA_VERSION : Z := 1.
Record SqliteMembershipLedger := { members_conn : list FactRow; members_sq : Members }.
Definition membership_kind (f : MembershipFact) : Z :=
  match f with MembershipFact.Found _ => 0 | MembershipFact.Admit _ => 1 | MembershipFact.Remove _ => 2 | MembershipFact.Disband _ => 3 end.
Fixpoint rebuild_members (i : Members) (rows : list FactRow) : outcome Members MembershipLedgerError :=
  match rows with
  | [] => Ok i
  | r :: rows =>
      match bincode_decode r.(FactRow.fact_bytes) with
      | Some (f, _) => rebuild_members (apply_membership i f) rows
      | None => Err (MembershipLedgerError.Storage StoreError.Decode)
      end
  end.
Definition open_members (stored : option bytes) (rows : list FactRow) : outcome SqliteMembershipLedger MembershipLedgerError :=
  let* _ := omap_err MembershipLedgerError.Storage (init_and_verify MEMBERSHIP_LEDGER_SCHEMA_VERSION stored) in
  let* i := rebuild_members Membership.default rows in
  Ok {| members_conn := rows; members_sq := i |}.
(** [io]: whether the transaction commits. *)
Definition members_append_durable (io : bool) (l : SqliteMembershipLedger) (f : MembershipFact) : outcome (SqliteMembershipLedger * MembershipOutcome) MembershipLedgerError :=
  let fid := membership_fact_id f in
  if negb io || existsb (fun r => bool_decide (r.(FactRow.fact_id) = fid)) l.(members_conn) then Err (MembershipLedgerError.Storage StoreError.Sqlite)
  else
    let row := {| FactRow.seq := next_seq l.(members_conn); FactRow.fact_id := fid; FactRow.kind := membership_kind f; FactRow.fact_bytes := bincode_encode f |} in
    Ok ({| members_conn := l.(members_conn) ++ [row]; members_sq := apply_membership l.(members_sq) f |}, MembershipOutcome.Appended fid).
Definition member_append_sq (io : bool) (l : SqliteMembershipLedger) (gate : outcome (option MembershipOutcome) MembershipLedgerError) (f : MembershipFact)
    : outcome (SqliteMembershipLedger * MembershipOutcome) MembershipLedgerError :=
  let* answer := gate in
  match answer with Some o => Ok (l, o) | None => members_append_durable io l f end.
Definition sq_append_founding (io : bool) (l : SqliteMembershipLedger) (t : Team) := member_append_sq io l (gate_founding l.(members_sq) t) (MembershipFact.Found t).
Definition sq_append_admit (io : bool) (l : SqliteMembershipLedger) (a : Admit) := member_append_sq io l (gate_membership l.(members_sq) (MembershipFact.Admit a)) (MembershipFact.Admit a).
Definition sq_append_remove (io : bool) (l : SqliteMembershipLedger) (r : Removal) := member_append_sq io l (gate_membership l.(members_sq) (MembershipFact.Remove r)) (MembershipFact.Remove r).
Definition sq_append_disband (io : bool) (l : SqliteMembershipLedger) (d : Disband) := member_append_sq io l (gate_membership l.(members_sq) (MembershipFact.Disband d)) (MembershipFact.Disband d).
#[export] Instance Sqlite_MembershipLedger : MembershipLedger SqliteMembershipLedger := {|
  append_founding := sq_append_founding true; append_admit := sq_append_admit true; append_remove := sq_append_remove true; append_disband := sq_append_disband true;
  owner_of_team l := read_owner_of_team l.(members_sq); member_edges E l := read_member_edges l.(members_sq);
  effective_members E l := read_effective_members l.(members_sq);
  membership_facts l := l.(members_sq).(Membership.facts); membership_len l := Membership.len_facts l.(members_sq) |}.
End Fold.

(** ** Warrants through teams *)
Definition MAX_RESOLUTION_STEPS : nat := MAX_TEAM_MEMBERS_WALK * MAX_TEAM_MEMBERS_WALK.
Record GovernedFleet (M G : Type) := { members : M; fleet_grants : G }.
Arguments members {M G}.
Arguments fleet_grants {M G}.
(** The single pass over the candidates in the order of their anchors. *)
Definition anchor_le (x y : bytes * WarrantSpec) : bool := bytes_le x.1 y.1.
Definition most_permissive_path (candidates : list (bytes * WarrantSpec)) : option WarrantSpec :=
  match stable_sort anchor_le candidates with
  | [] => None
  | c :: cs => Some (foldl (fun b c => if warrant_within b.2 c.2 then c else b) c cs).2
  end.
Fixpoint narrow_by (w : WarrantSpec) (roles : list Role) : outcome WarrantSpec NarrowingError :=
  match roles with
  | [] => Ok w
  | r :: roles => let* w := intersect w r in narrow_by w roles
  end.
Section Governed.
Context {M G : Type} `{!MembershipLedger M} `{!GrantLedger G} `{Blake3} `{!Bincode (PartyId * list Role)}.
Definition path_anchor (team : PartyId) (roles : list Role) : bytes := blake3 (str "kx-fleet/path/v1" ++ bincode_encode (team, roles)).
Record Frame := { fr_principal : PartyId; fr_roles : list Role; fr_cap : CatalogActionSet; fr_seen : gset PartyId }.
(** What the walk holds: the stack, its top last, the candidates and the steps taken. *)
Record Walk := { wk_stack : list Frame; wk_candidates : list (bytes * WarrantSpec); wk_steps : nat }.
Section Resolve.
Context (f : GovernedFleet M G) (asset : AssetRef) (action : CatalogAction) (owner_root : WarrantSpec).
Definition path_candidate (team : PartyId) (cap : CatalogActionSet) (roles : list Role) : outcome (option (bytes * WarrantSpec)) NarrowingError :=
  if CatalogActionSet.contains cap action then
    let* ow := resolve_effective_warrant_for f.(fleet_grants) team asset action owner_root in
    match ow with
    | Some team_warrant => let* w := narrow_by team_warrant (rev roles) in Ok (Some (path_anchor team roles, w))
    | None => Ok None
    end
  else Ok None.
Fixpoint walk_edges (fr : Frame) (edges : list TeamEdge) (w : Walk) : outcome Walk NarrowingError :=
  match edges with
  | [] => Ok w
  | e :: edges =>
      if (MAX_RESOLUTION_STEPS <=? w.(wk_steps))%nat then Ok w
      else
        let steps := S w.(wk_steps) in
        let team := e.(TeamEdge.team) in
        if bool_decide (team ∈ fr.(fr_seen)) then walk_edges fr edges {| wk_stack := w.(wk_stack); wk_candidates := w.(wk_candidates); wk_steps := steps |}
        else
          let cap := CatalogActionSet.narrow fr.(fr_cap) e.(TeamEdge.action_cap) in
          let roles := fr.(fr_roles) ++ [e.(TeamEdge.role)] in
          let* c := path_candidate team cap roles in
          walk_edges fr edges
            {| wk_stack := w.(wk_stack) ++ [{| fr_principal := team; fr_roles := roles; fr_cap := cap; fr_seen := {[team]} ∪ fr.(fr_seen) |}];
               wk_candidates := w.(wk_candidates) ++ option_list c; wk_steps := steps |}
  end.
(** One frame is popped each time, and each pushed frame is a step, so the walk ends
    within one more round than the budget. *)
Fixpoint walk (fuel : nat) (w : Walk) : outcome (list (bytes * WarrantSpec)) NarrowingError :=
  match fuel with
  | O => Panic
  | S fuel =>
      match last w.(wk_stack) with
      | None => Ok w.(wk_candidates)
      | Some fr =>
          let w := {| wk_stack := take (length w.(wk_stack) - 1) w.(wk_stack); wk_candidates := w.(wk_candidates); wk_steps := w.(wk_steps) |} in
          if (MAX_TEAM_MEMBERS_WALK <=? length fr.(fr_roles))%nat then walk fuel w
          else
            let* edges := member_edges f.(members) fr.(fr_principal) in
            let* w := walk_edges fr edges w in
            if (MAX_RESOLUTION_STEPS <=? w.(wk_steps))%nat then Ok w.(wk_candidates) else walk fuel w
      end
  end.
Definition resolve_member_warrant (member : PartyId) : outcome (option WarrantSpec) GovernedFleetError :=
  omap_err GovernedFleetError.Narrowing
    (let* cs := walk (S (S MAX_RESOLUTION_STEPS))
       {| wk_stack := [{| fr_principal := member; fr_roles := []; fr_cap := CatalogActionSet.all; fr_seen := ∅ |}]; wk_candidates := []; wk_steps := 0 |} in
     Ok (most_permissive_path cs)).
Definition require_member_warrant (member : PartyId) : outcome WarrantSpec GovernedFleetError :=
  let* ow := resolve_member_warrant member in
  match ow with Some w => Ok w | None => Err (GovernedFleetError.Unauthorized member action (asset_text asset)) end.
(** [is_member_authorized]: the same walk without roles; [Some b] is its answer. *)
Record AuthFrame := { af_principal : PartyId; af_cap : CatalogActionSet; af_seen : gset PartyId }.
Fixpoint auth_edges (fr : AuthFrame) (edges : list TeamEdge) (stack : list AuthFrame) (steps : nat) : outcome (bool + list AuthFrame * nat) NarrowingError :=
  match edges with
  | [] => Ok (inr (stack, steps))
  | e :: edges =>
      if (MAX_RESOLUTION_STEPS <=? steps)%nat then Ok (inl false)
      else
        let team := e.(TeamEdge.team) in
        if bool_decide (team ∈ fr.(af_seen)) then auth_edges fr edges stack (S steps)
        else
          let cap := CatalogActionSet.narrow fr.(af_cap) e.(TeamEdge.action_cap) in
          let* b := if CatalogActionSet.contains cap action then is_authorized f.(fleet_grants) team asset action else Ok false in
          if b then Ok (inl true)
          else auth_edges fr edges (stack ++ [{| af_principal := team; af_cap := cap; af_seen := {[team]} ∪ fr.(af_seen) |}]) (S steps)
  end.
Fixpoint auth_walk (fuel : nat) (stack : list AuthFrame) (steps : nat) : outcome bool NarrowingError :=
  match fuel with
  | O => Panic
  | S fuel =>
      match last stack with
      | None => Ok false
      | Some fr =>
          let stack := take (length stack - 1) stack in
          if (MAX_TEAM_MEMBERS_WALK <=? size fr.(af_seen))%nat then auth_walk fuel stack steps
          else
            let* edges := member_edges f.(members) fr.(af_principal) in
            let* r := auth_edges fr edges stack steps in
            match r with inl b => Ok b | inr (stack, steps) => auth_walk fuel stack steps end
      end
  end.
Definition is_member_authorized (member : PartyId) : outcome bool NarrowingError :=
  auth_walk (S (S MAX_RESOLUTION_STEPS)) [{| af_principal := member; af_cap := CatalogActionSet.all; af_seen := ∅ |}] 0.
End Resolve.
End Governed.

(** * What membership conveys

    Every active edge goes back, by admissions of members
    who could delegate, to the team's owner, and the warrant a member gets through
    its teams is within theirs. *)
Lemma party_iter_in s p : p ∈ party_iter s <-> p ∈ s.
Proof. unfold party_iter. rewrite stable_sort_perm. apply elem_of_elements. Qed.
Section Facts.
Context `{Blake3} `{!Bincode Team} `{!Bincode Admit} `{!Bincode Removal} `{!Bincode Disband} `{!Bincode MembershipFact}.

(** ** What the facts say *)
Definition founded (fs : list MembershipFact) (t o : PartyId) : Prop := exists x, MembershipFact.Found x ∈ fs /\ x.(Team.principal) = t /\ x.(Team.owner) = o.
Definition dissolved (fs : list MembershipFact) (t : PartyId) : Prop := exists d, MembershipFact.Disband d ∈ fs /\ d.(Disband.team) = t /\ founded fs t d.(Disband.by_party).
(** A removal after a position, by a party. *)
Definition removal_after (fs : list MembershipFact) (t m : PartyId) (pos : nat) (r : PartyId) : Prop :=
  exists pos' x, (pos < pos')%nat /\ fs !! pos' = Some (MembershipFact.Remove x) /\ x.(Removal.team) = t /\ x.(Removal.member) = m /\ x.(Removal.remover) = r.
Definition owner_removed (fs : list MembershipFact) (t m : PartyId) (pos : nat) : Prop := exists o, founded fs t o /\ removal_after fs t m pos o.
(** An admission that counts: by the owner, or by a member so admitted who may
    delegate, of a team that stands, and not undone by the owner since. *)
Inductive admitted (fs : list MembershipFact) (t : PartyId) : Admit -> Prop :=
| admitted_by_owner pos a : fs !! pos = Some (MembershipFact.Admit a) -> a.(Admit.team) = t -> founded fs t a.(Admit.admitter) ->
    ~ dissolved fs t -> ~ owner_removed fs t a.(Admit.member) pos -> admitted fs t a
| admitted_by_member pos a b : fs !! pos = Some (MembershipFact.Admit a) -> a.(Admit.team) = t ->
    admitted fs t b -> b.(Admit.member) = a.(Admit.admitter) -> CatalogAction.Delegate ∈ acts b.(Admit.action_cap) ->
    ~ dissolved fs t -> ~ owner_removed fs t a.(Admit.member) pos -> admitted fs t a.
Definition edge_of (a : Admit) : TeamEdge :=
  {| TeamEdge.team := a.(Admit.team); TeamEdge.role := a.(Admit.role); TeamEdge.action_cap := a.(Admit.action_cap); TeamEdge.admit_id := admit_id a |}.

(** ** The indices follow the facts *)
Record members_ok (i : Members) : Prop := {
  mk_ids fid pos : i.(Membership.by_id) !! fid = Some pos -> exists f, i.(Membership.facts) !! pos = Some f /\ membership_fact_id f = fid;
  mk_known f : f ∈ i.(Membership.facts) -> is_Some (i.(Membership.by_id) !! membership_fact_id f);
  mk_owner t o : i.(Membership.owners) !! t = Some o <-> founded i.(Membership.facts) t o;
  mk_admits t m pos : pos ∈ default [] (i.(Membership.admits_by_team_member) !! (t, m))
    <-> exists a, i.(Membership.facts) !! pos = Some (MembershipFact.Admit a) /\ a.(Admit.team) = t /\ a.(Admit.member) = m;
  mk_teams t m : t ∈ default ∅ (i.(Membership.teams_by_member) !! m)
    <-> exists pos a, i.(Membership.facts) !! pos = Some (MembershipFact.Admit a) /\ a.(Admit.team) = t /\ a.(Admit.member) = m;
  mk_removed t m pos : pos ∈ default [] (i.(Membership.removed) !! (t, m))
    <-> exists r, i.(Membership.facts) !! pos = Some (MembershipFact.Remove r) /\ r.(Removal.team) = t /\ r.(Removal.member) = m;
  mk_disbanded t p : p ∈ default ∅ (i.(Membership.disbanded) !! t)
    <-> exists d, MembershipFact.Disband d ∈ i.(Membership.facts) /\ d.(Disband.team) = t /\ d.(Disband.by_party) = p
}.
Lemma members_default_ok : members_ok Membership.default.
Proof.
  split; cbn; unfold founded; intros *; rewrite ?lookup_empty; cbn; try done; try (setoid_rewrite lookup_nil); try set_solver; try (split; [set_solver|naive_solver]).
Qed.
Lemma membership_facts_snoc i f : (apply_membership i f).(Membership.facts) = i.(Membership.facts) ++ [f].
Proof. by destruct f. Qed.
Lemma membership_ids_snoc i f : (apply_membership i f).(Membership.by_id) = <[membership_fact_id f := length i.(Membership.facts)]> i.(Membership.by_id).
Proof. by destruct f. Qed.
(** A new position is the end, an old one is where it was. *)
Lemma snoc_lookup (fs : list MembershipFact) f pos x : (fs ++ [f]) !! pos = Some x <-> fs !! pos = Some x \/ (pos = length fs /\ x = f).
Proof.
  rewrite lookup_app_Some, list_lookup_singleton_Some. split; [|intros [|[-> ->]]; [by left|right; split; [lia|]; split; [lia|done]]].
  intros [|(Hge & Hp & ->)]; [by left|right]. split; [lia|done].
Qed.
Definition founding_fresh (i : Members) (f : MembershipFact) : Prop :=
  match f with MembershipFact.Found t => i.(Membership.owners) !! t.(Team.principal) = None | _ => True end.
Lemma apply_membership_ok i f : members_ok i -> founding_fresh i f -> members_ok (apply_membership i f).
Proof.
  intros Hi Hf. split; rewrite ?membership_facts_snoc, ?membership_ids_snoc.
  - intros fid pos [[<- <-]|[Hne Hp]]%lookup_insert_Some; [exists f; split; [apply snoc_lookup; auto|done]|].
    destruct (mk_ids _ Hi _ _ Hp) as (x & ? & ?). exists x. split; [apply snoc_lookup; by left|done].
  - intros x [Hx| ->%list_elem_of_singleton]%elem_of_app; [|by rewrite lookup_insert_eq].
    destruct (decide (membership_fact_id f = membership_fact_id x)) as [->|Hne]; [by rewrite lookup_insert_eq|]. rewrite lookup_insert_ne by done. by apply mk_known.
  - intros t o. assert (Hfd : founded (Membership.facts i ++ [f]) t o <-> founded (Membership.facts i) t o \/ exists x, f = MembershipFact.Found x /\ Team.principal x = t /\ Team.owner x = o).
    { unfold founded. setoid_rewrite elem_of_app. setoid_rewrite list_elem_of_singleton. naive_solver. }
    rewrite Hfd, <- (mk_owner _ Hi). destruct f as [x|a|r|d]; cbn; [|naive_solver..]. cbn in Hf. rewrite lookup_insert_Some. split.
    + intros [[<- <-]|[? ?]]; [right; by exists x|by left].
    + intros [Ho|(y & [= <-] & <- & <-)]; [right; split; [|done]; intros <-; congruence|by left].
  - intros t m pos. setoid_rewrite snoc_lookup. pose proof (mk_admits _ Hi t m pos) as Hh. destruct f as [x|a|r|d]; cbn; try (rewrite Hh; naive_solver).
    destruct (decide ((Admit.team a, Admit.member a) = (t, m))) as [E|Hne].
    + injection E as <- <-. rewrite lookup_insert_eq. cbn. rewrite elem_of_app, list_elem_of_singleton, Hh. split; [intros [(y & ? & ?)| ->]; eauto 10|].
      intros (y & [?|[-> [= ->]]] & ? & ?); [left; eauto|by right].
    + rewrite lookup_insert_ne, Hh by done. split; intros (y & Hy & ? & ?); exists y; [auto|]. destruct Hy as [|[-> [= ->]]]; [auto|congruence].
  - intros t m. setoid_rewrite snoc_lookup. pose proof (mk_teams _ Hi t m) as Hh. destruct f as [x|a|r|d]; cbn; try (rewrite Hh; naive_solver).
    destruct (decide (Admit.member a = m)) as [<-|Hne].
    + rewrite lookup_insert_eq. cbn. rewrite elem_of_union, elem_of_singleton, Hh. split; [intros [->|(pos & y & ? & ?)]; [by eauto 10|eauto 10]|].
      intros (pos & y & [?|[-> [= ->]]] & <- & ?); [right; eauto|by left].
    + rewrite lookup_insert_ne, Hh by done. split; intros (pos & y & Hy & ? & ?); exists pos, y; [auto|]. destruct Hy as [|[-> [= ->]]]; [auto|congruence].
  - intros t m pos. setoid_rewrite snoc_lookup. pose proof (mk_removed _ Hi t m pos) as Hh. destruct f as [x|a|r|d]; cbn; try (rewrite Hh; naive_solver).
    destruct (decide ((Removal.team r, Removal.member r) = (t, m))) as [E|Hne].
    + injection E as <- <-. rewrite lookup_insert_eq. cbn. rewrite elem_of_app, list_elem_of_singleton, Hh. split; [intros [(y & ? & ?)| ->]; eauto 10|].
      intros (y & [?|[-> [= ->]]] & ? & ?); [left; eauto|by right].
    + rewrite lookup_insert_ne, Hh by done. split; intros (y & Hy & ? & ?); exists y; [auto|]. destruct Hy as [|[-> [= ->]]]; [auto|congruence].
  - intros t p. setoid_rewrite elem_of_app. setoid_rewrite list_elem_of_singleton. pose proof (mk_disbanded _ Hi t p) as Hh. destruct f as [x|a|r|d]; cbn; try (rewrite Hh; naive_solver).
    destruct (decide (Disband.team d = t)) as [<-|Hne].
    + rewrite lookup_insert_eq. cbn. rewrite elem_of_union, elem_of_singleton, Hh. naive_solver.
    + rewrite lookup_insert_ne, Hh by done. split; intros (y & Hy & ? & ?); exists y; [auto|]. destruct Hy as [|[= ->]]; [auto|congruence].
Qed.

(** ** Active edges *)
Section Edges.
Context (i : Members) (Hi : members_ok i).
Abbreviation fs := i.(Membership.facts).
Lemma disbanded_spec t : disbanded_authorized i t = true <-> dissolved fs t.
Proof.
  unfold disbanded_authorized, dissolved. pose proof (mk_disbanded _ Hi t) as Hd. setoid_rewrite <- (mk_owner _ Hi).
  destruct (Membership.disbanded i !! t) as [s|]; cbn in Hd.
  - rewrite existsb_exists. setoid_rewrite bool_decide_eq_true. setoid_rewrite <- list_elem_of_In. setoid_rewrite elem_of_elements. setoid_rewrite Hd. naive_solver.
  - split; [done|]. intros (d & Hin & Ht & _). assert (Hp : Disband.by_party d ∈ (∅ : gset PartyId)) by (apply Hd; eauto). set_solver.
Qed.
(** What is known of the check of an admitter. *)
Definition auth_ok {E : Type} (t : PartyId) (auth : PartyId -> outcome bool E) : Prop :=
  forall p, exists b, auth p = Ok b
    /\ (founded fs t p -> b = true)
    /\ (b = true -> founded fs t p \/ exists x, admitted fs t x /\ x.(Admit.member) = p /\ CatalogAction.Delegate ∈ acts x.(Admit.action_cap)).
Lemma authorized_admitters_ok {E : Type} t (auth : PartyId -> outcome bool E) positions : auth_ok t auth -> Forall (fun pos => is_Some (fs !! pos)) positions ->
  exists s, authorized_admitters i auth positions = Ok s
    /\ forall p, p ∈ s -> exists pos a, pos ∈ positions /\ fs !! pos = Some (MembershipFact.Admit a) /\ a.(Admit.admitter) = p.
Proof.
  intros Ha. induction 1 as [|pos positions [f Hp] _ (s & Hs & Hin)]; cbn [authorized_admitters]; [exists ∅; split; [done|set_solver]|].
  unfold Membership.fact_at. rewrite Hp. cbn [obind]. rewrite Hs. destruct f as [x|a|r|d]; cbn [obind].
  2: destruct (Ha (Admit.admitter a)) as (b & -> & _); cbn [obind]; destruct b.
  2: { eexists. split; [done|]. intros p [->%elem_of_singleton|(pos' & a' & ? & ?)%Hin]%elem_of_union; [exists pos, a; split_and!; [left|done..]|exists pos', a'; split; [by right|done]]. }
  all: exists s; split; [done|]; intros p (pos' & a' & ? & ?)%Hin; exists pos', a'; split; [by right|done].
Qed.
Lemma removal_scan {E : Type} owner s pos rs : Forall (fun p => exists r, fs !! p = Some (MembershipFact.Remove r)) rs ->
  exists b, oany (E := E) (removal_hits i owner s pos) rs = Ok b
    /\ (b = true <-> exists pos' x, pos' ∈ rs /\ (pos < pos')%nat /\ fs !! pos' = Some (MembershipFact.Remove x) /\ (owner = Some (Removal.remover x) \/ Removal.remover x ∈ s)).
Proof.
  induction 1 as [|rpos rs (r & Hr) _ (b & Hb & Hiff)]; cbn [oany]; [exists false; split; [done|]; split; [done|]; by intros (? & ? & ?%not_elem_of_nil & _)|].
  unfold removal_hits at 1, Membership.fact_at. rewrite Hr. cbn [obind]. rewrite Hb. setoid_rewrite elem_of_cons. destruct (pos <? rpos)%nat eqn:Hlt; cbn [obind].
  - apply Nat.ltb_lt in Hlt. destruct (bool_decide _ || bool_decide _) eqn:Hor.
    + exists true. split; [done|]. split; [intros _|done]. exists rpos, r. apply orb_true_iff in Hor. rewrite !bool_decide_eq_true in Hor. naive_solver.
    + exists b. split; [done|]. rewrite Hiff. apply orb_false_iff in Hor. rewrite !bool_decide_eq_false in Hor. naive_solver.
  - apply Nat.ltb_ge in Hlt. exists b. split; [done|]. rewrite Hiff. split; [naive_solver|]. intros (p' & x & [->|Hin] & ? & ?); [lia|eauto].
Qed.
(** An admission that stands was not undone by the owner; one that does not was undone
    by the owner or by a party who admitted the member too. *)
Lemma admit_is_removed_ok {E : Type} t m (auth : PartyId -> outcome bool E) pos : auth_ok t auth ->
  exists b, admit_is_removed i auth t m pos = Ok b
    /\ (b = false -> ~ owner_removed fs t m pos)
    /\ (b = true -> exists r, removal_after fs t m pos r
          /\ (founded fs t r \/ exists a, MembershipFact.Admit a ∈ fs /\ a.(Admit.team) = t /\ a.(Admit.member) = m /\ a.(Admit.admitter) = r)).
Proof.
  intros Ha. unfold admit_is_removed. pose proof (mk_removed _ Hi t m) as Hr. destruct (Membership.removed i !! (t, m)) as [rs|]; cbn [default] in Hr.
  2: { exists false. split_and!; [done| |done]. intros _ (o & _ & pos' & x & _ & Hx & <- & <- & _). apply (not_elem_of_nil pos'), Hr. eauto. }
  pose proof (mk_admits _ Hi t m) as Hm. set (ps := default [] _) in *.
  destruct (authorized_admitters_ok t auth ps Ha) as (s & -> & Hs); [apply Forall_forall; intros x (a & -> & _)%Hm; eauto|]. cbn [obind].
  destruct (removal_scan (E := E) (Membership.owners i !! t) s pos rs) as (b & Hb & Hiff); [apply Forall_forall; intros x (r & ? & _)%Hr; eauto|].
  exists b. split_and!; [done| |].
  - intros -> (o & Ho & pos' & x & Hlt & Hx & Ht & Hmm & <-). apply (mk_owner _ Hi) in Ho. enough (false = true) by done. apply Hiff. exists pos', x. split_and!; [apply Hr; eauto|done|done|by left].
  - intros (pos' & x & Hin & Hlt & Hx & Hor)%Hiff. apply Hr in Hin as (x' & Hx' & Ht & Hmm). assert (x' = x) as -> by congruence.
    exists (Removal.remover x). split; [by exists pos', x|]. destruct Hor as [Ho|(p' & a & Hp' & Hpa & <-)%Hs]; [left; by apply (mk_owner _ Hi)|right].
    apply Hm in Hp' as (a' & Ha' & ? & ?). assert (a' = a) as -> by congruence. exists a. split_and!; [by eapply list_elem_of_lookup_2|done..].
Qed.
Lemma admit_edges_ok {E : Type} t m (auth : PartyId -> outcome bool E) positions : auth_ok t auth -> ~ dissolved fs t ->
  Forall (fun pos => exists a, fs !! pos = Some (MembershipFact.Admit a) /\ a.(Admit.team) = t /\ a.(Admit.member) = m) positions ->
  exists es, admit_edges i auth t m positions = Ok es
    /\ (forall e, e ∈ es -> exists a, admitted fs t a /\ a.(Admit.member) = m /\ e = edge_of a)
    /\ (forall pos a, pos ∈ positions -> fs !! pos = Some (MembershipFact.Admit a) -> founded fs t a.(Admit.admitter) ->
         (forall r, removal_after fs t m pos r -> False) -> edge_of a ∈ es).
Proof.
  intros Ha Hd. induction 1 as [|pos positions (a & Hp & Ht & Hm) _ (es & Hes & Hin & Hown)]; cbn [admit_edges]; [exists []; split_and!; [done|set_solver|set_solver]|].
  destruct (admit_is_removed_ok t m auth pos Ha) as (gone & -> & Hno & Hyes). cbn [obind]. rewrite Hes. unfold Membership.fact_at. rewrite Hp. cbn [obind].
  destruct gone.
  - exists es. split_and!; [done|done|]. intros pos' a' [->|Hin']%elem_of_cons Hp' Hf Hnr; [|by eapply Hown]. destruct (Hyes eq_refl) as (r & Hr & _). by destruct (Hnr r).
  - destruct (Ha (Admit.admitter a)) as (b & -> & Hb1 & Hb2). cbn [obind]. eexists. split; [done|].
    assert (He : {| TeamEdge.team := t; TeamEdge.role := Admit.role a; TeamEdge.action_cap := Admit.action_cap a; TeamEdge.admit_id := admit_id a |} = edge_of a) by (by unfold edge_of; rewrite Ht).
    rewrite He. split.
    + intros e He'. destruct b; [|by apply Hin]. apply elem_of_cons in He' as [->|He']; [|by apply Hin]. exists a. split_and!; try done.
      destruct (Hb2 eq_refl) as [Hf|(x & Hx & Hxm & Hxd)]; [eapply admitted_by_owner|eapply admitted_by_member]; try done; rewrite Hm; auto.
    + intros pos' a' [->|Hin']%elem_of_cons Hp' Hf Hnr; [|destruct b; [right|]; by eapply Hown]. assert (a' = a) as -> by congruence. rewrite (Hb1 Hf). left.
Qed.
Lemma team_edges_ok {E : Type} m (auth : PartyId -> PartyId -> outcome bool E) teams : (forall t, auth_ok t (auth t)) ->
  exists es, team_edges i auth m teams = Ok es
    /\ (forall e, e ∈ es -> exists a, admitted fs e.(TeamEdge.team) a /\ a.(Admit.member) = m /\ e = edge_of a)
    /\ (forall t pos a, t ∈ teams -> fs !! pos = Some (MembershipFact.Admit a) -> a.(Admit.team) = t -> a.(Admit.member) = m -> founded fs t a.(Admit.admitter) ->
         ~ dissolved fs t -> (forall r, removal_after fs t m pos r -> False) -> edge_of a ∈ es).
Proof.
  intros Ha. induction teams as [|t teams (es & Hes & Hin & Hown)]; cbn [team_edges]; [exists []; split_and!; [done|set_solver|set_solver]|].
  rewrite Hes. pose proof (disbanded_spec t) as Hd. destruct (disbanded_authorized i t).
  { exists es. split_and!; [done|done|]. intros t' pos a [->|Hin']%elem_of_cons; [|by eapply Hown]. intros _ _ _ _ Hn. by destruct Hn, Hd; auto. }
  assert (Hnd : ~ dissolved fs t) by (intros Hx; by apply Hd in Hx). pose proof (mk_admits _ Hi t m) as Hm.
  destruct (Membership.admits_by_team_member i !! (t, m)) as [ps|]; cbn [default] in Hm.
  - destruct (admit_edges_ok t m (auth t) ps (Ha t) Hnd) as (es' & -> & Hin' & Hown'); [apply Forall_forall; intros x Hx; by apply Hm|]. cbn [obind].
    eexists. split_and!; [done| |].
    + intros e [(a & Hadm & Hma & ->)%Hin'|]%elem_of_app; [|by apply Hin]. exists a. split_and!; [|done..]. cbn. assert (Admit.team a = t) as -> by (by destruct Hadm). done.
    + intros t' pos a [->|Hin2]%elem_of_cons Hp Ht Hma Hf Hn Hnr; apply elem_of_app; [left|right; by eapply Hown]. eapply Hown'; try done. apply Hm. eauto.
  - exists es. split_and!; [done|done|]. intros t' pos a [->|Hin']%elem_of_cons Hp Ht Hma; [|by eapply Hown]. intros _ _ _. exfalso. apply (not_elem_of_nil pos), Hm. eauto.
Qed.
Lemma edges_of_ok {E : Type} room : forall visiting m, exists es, edges_of (E := E) room i visiting m = Ok es
  /\ (forall e, e ∈ es -> exists a, admitted fs e.(TeamEdge.team) a /\ a.(Admit.member) = m /\ e = edge_of a)
  /\ (forall t pos a, (0 < room)%nat -> m ∉ visiting -> fs !! pos = Some (MembershipFact.Admit a) -> a.(Admit.team) = t -> a.(Admit.member) = m ->
       founded fs t a.(Admit.admitter) -> ~ dissolved fs t -> (forall r, removal_after fs t m pos r -> False) -> edge_of a ∈ es).
Proof.
  induction room as [|room IH]; intros visiting m; cbn [edges_of]; [exists []; split_and!; [done|set_solver|lia]|].
  case_bool_decide as Hv; [exists []; split_and!; [done|set_solver|done]|]. pose proof (mk_teams _ Hi) as Ht. specialize (fun t => Ht t m).
  destruct (Membership.teams_by_member i !! m) as [ts|]; cbn [default] in Ht.
  2: { exists []. split_and!; [done|set_solver|]. intros t pos a _ _ Hp <- Hma. exfalso. apply (not_elem_of_empty (C := gset PartyId) (Admit.team a)), Ht. eauto. }
  match goal with |- context [team_edges i ?f m _] => set (auth := f) end.
  destruct (team_edges_ok m auth (party_iter ts)) as (es & -> & Hin & Hown).
  { intros t p. unfold auth. case_bool_decide as Ho; [exists true; split_and!; [done|done|]; intros _; left; by apply (mk_owner _ Hi)|].
    destruct (IH ({[m]} ∪ visiting) p) as (es & -> & Hin & _). cbn [obind]. eexists. split_and!; [done| |].
    - intros Hf. destruct Ho. symmetry. by apply (mk_owner _ Hi).
    - unfold delegates. intros (e & He & [Het Hd]%andb_true_iff)%existsb_exists. apply bool_decide_eq_true in Het. subst t. apply list_elem_of_In in He.
      destruct (Hin _ He) as (a & Hadm & Hma & ->). right. exists a. split_and!; [done..|]. rewrite contains_acts in Hd. by apply bool_decide_eq_true in Hd. }
  cbn [obind]. eexists. split_and!; [done| |].
  - intros e He. apply Hin. by rewrite stable_sort_perm in He.
  - intros t pos a _ _ Hp Hta Hma Hf Hn Hnr. rewrite stable_sort_perm. eapply Hown; try done. apply party_iter_in, Ht. eauto.
Qed.
End Edges.

(** ** Ledgers *)
Definition member_gate (i : Members) (f : MembershipFact) : outcome (option MembershipOutcome) MembershipLedgerError :=
  match f with MembershipFact.Found t => gate_founding i t | _ => gate_membership i f end.
Lemma member_gate_ok i f : members_ok i -> member_gate i f <> Panic /\ (member_gate i f = Ok None -> founding_fresh i f).
Proof.
  intros Hi. assert (Hfact : forall E, exists o, Membership.contains_fact (E := E) i (membership_fact_id f) = Ok o).
  { intros E. unfold Membership.contains_fact. destruct (Membership.by_id i !! membership_fact_id f) as [pos|] eqn:Hp; [|by eexists].
    destruct (mk_ids _ Hi _ _ Hp) as (x & -> & _). by eexists. }
  destruct f as [t|a|r|d]; cbn [member_gate founding_fresh].
  1: { unfold gate_founding. destruct (Membership.owners i !! _); [by case_bool_decide|done]. }
  all: unfold gate_membership; destruct (Hfact MembershipLedgerError) as (o & ->); cbn [obind]; destruct o; [by case_bool_decide|done].
Qed.
Section Append.
Context {L : Type} `{!MembershipLedger L}.
Definition member_append (l : L) (f : MembershipFact) : outcome (L * MembershipOutcome) MembershipLedgerError :=
  match f with
  | MembershipFact.Found t => append_founding l t
  | MembershipFact.Admit a => append_admit l a
  | MembershipFact.Remove r => append_remove l r
  | MembershipFact.Disband d => append_disband l d
  end.
Definition member_step (l : L) (f : MembershipFact) : L := match member_append l f with Ok (l', _) => l' | _ => l end.
(** What a backend promises. *)
Class MembershipLedgerLaws := {
  mview : L -> Members;
  mview_owner l t : owner_of_team l t = read_owner_of_team (mview l) t;
  mview_edges {E : Type} l m : member_edges (E := E) l m = read_member_edges (mview l) m;
  mview_facts l : membership_facts l = (mview l).(Membership.facts);
  member_append_law l f :
    match member_append l f with
    | Ok (l', o) => (member_gate (mview l) f = Ok (Some o) /\ mview l' = mview l)
                    \/ (member_gate (mview l) f = Ok None /\ mview l' = apply_membership (mview l) f /\ o = MembershipOutcome.Appended (membership_fact_id f))
    | Err e => member_gate (mview l) f = Err e \/ member_gate (mview l) f = Ok None
    | Panic => member_gate (mview l) f = Panic
    end
}.
End Append.
#[export] Instance InMemory_MLaws : MembershipLedgerLaws (L := InMemoryMembershipLedger).
Proof.
  refine {| mview := members_inner |}; try done.
  intros l [t|a|r|d]; cbn; [unfold mem_append_founding|unfold mem_append_admit|unfold mem_append_remove|unfold mem_append_disband]; unfold member_append_mem;
    (destruct (gate_founding _ _) as [[o|]|e|] || destruct (gate_membership _ _) as [[o|]|e|]); cbn; auto.
Defined.
#[export] Instance Sqlite_MLaws : MembershipLedgerLaws (L := SqliteMembershipLedger).
Proof.
  refine {| mview := members_sq |}; try done.
  intros l [t|a|r|d]; cbn; [unfold sq_append_founding|unfold sq_append_admit|unfold sq_append_remove|unfold sq_append_disband]; unfold member_append_sq;
    (destruct (gate_founding _ _) as [[o|]|e|] || destruct (gate_membership _ _) as [[o|]|e|]); cbn; auto; unfold members_append_durable; destruct (negb true || _); cbn; auto.
Defined.
Section Lawful.
Context {L : Type} `{!MembershipLedger L} `{!MembershipLedgerLaws (L := L)}.
Lemma member_run_ok ops : forall l : L, members_ok (mview l) -> members_ok (mview (foldl member_step l ops)).
Proof.
  induction ops as [|f ops IH]; intros l Hi; [done|]. cbn [foldl]. apply IH. unfold member_step. pose proof (member_append_law l f) as Ha.
  destruct (member_append l f) as [[l' o]|e|]; [|done|done]. destruct Ha as [[_ ->]|(Hg & -> & _)]; [done|]. apply apply_membership_ok; [done|]. by apply (member_gate_ok _ f Hi).
Qed.
(** [C40] Every active edge of a member is an admission on record that goes back to
    the team's owner: by the owner, or by a member so admitted whose cap holds
    Delegate; no disbanding of the team by its owner is on record, and no later
    removal of the member by the owner. (What is recorded is the ledger's facts: a removal identical to
    an earlier one is acknowledged and not recorded, [repeated_removal_ignored].) An
    admission by the owner of a standing team that nobody undid is an edge. No query
    fails. *)
Theorem membership_from_owner (l0 : L) ops m : mview l0 = Membership.default ->
  let l := foldl member_step l0 ops in
  let fs := membership_facts l in
  exists es, member_edges (E := unit) l m = Ok es
    /\ (forall e, e ∈ es -> exists a, admitted fs e.(TeamEdge.team) a /\ a.(Admit.member) = m /\ e = edge_of a)
    /\ (forall pos a, fs !! pos = Some (MembershipFact.Admit a) -> a.(Admit.member) = m -> founded fs a.(Admit.team) a.(Admit.admitter) ->
         ~ dissolved fs a.(Admit.team) -> (forall r, ~ removal_after fs a.(Admit.team) m pos r) -> edge_of a ∈ es).
Proof.
  intros H0 l fs. assert (Hi : members_ok (mview l)) by (apply member_run_ok; rewrite H0; apply members_default_ok).
  unfold fs. rewrite mview_edges, mview_facts. destruct (edges_of_ok (E := unit) (mview l) Hi (S MAX_TEAM_MEMBERS_WALK) ∅ m) as (es & Hes & Hin & Hown).
  exists es. split_and!; [done|done|]. intros pos a Hp Hma Hf Hd Hr. eapply Hown; try done. lia.
Qed.
(** A removal is recorded once: the same party's second removal of a member from a
    team is acknowledged or refused, but changes nothing, also when the member was
    admitted again in between. *)
Theorem repeated_removal_ignored (l0 : L) ops r m : mview l0 = Membership.default ->
  let l := foldl member_step l0 ops in
  MembershipFact.Remove r ∈ membership_facts l ->
  member_edges (E := unit) (member_step l (MembershipFact.Remove r)) m = member_edges (E := unit) l m.
Proof.
  intros H0 l Hin. assert (Hi : members_ok (mview l)) by (apply member_run_ok; rewrite H0; apply members_default_ok).
  rewrite !mview_edges. enough (E : mview (member_step l (MembershipFact.Remove r)) = mview l) by (by rewrite E). unfold member_step. pose proof (member_append_law l (MembershipFact.Remove r)) as Ha.
  destruct (member_append l _) as [[l' o]|e|]; [|done|done]. destruct Ha as [[_ ->]|(Hg & _)]; [done|]. exfalso. cbn [member_gate] in Hg. unfold gate_membership, Membership.contains_fact in Hg.
  rewrite mview_facts in Hin. destruct (mk_known _ Hi _ Hin) as [pos Hp]. rewrite Hp in Hg. destruct (mk_ids _ Hi _ _ Hp) as (x & Hx & _). rewrite Hx in Hg. cbn [obind] in Hg. by case_bool_decide.
Qed.
End Lawful.
(** ** The durable ledger *)
Definition sq_member_step (l : SqliteMembershipLedger) (x : MembershipFact * bool) : SqliteMembershipLedger :=
  match member_append_sq x.2 l (member_gate l.(members_sq) x.1) x.1 with Ok (l', _) => l' | _ => l end.
Definition members_empty : SqliteMembershipLedger := {| members_conn := []; members_sq := Membership.default |}.
Lemma rebuild_members_snoc rows r : forall i, rebuild_members i (rows ++ [r]) = let* i := rebuild_members i rows in rebuild_members i [r].
Proof. induction rows as [|x rows IH]; intros i; [done|]. cbn [app rebuild_members]. destruct (bincode_decode _) as [[f n]|]; [apply IH|done]. Qed.
(** Whatever appends fail, the ledger is reopened from its table as it was, the
    positions that order admissions and removals included. *)
Theorem members_reopened runs : let l := foldl sq_member_step members_empty runs in
  open_members None l.(members_conn) = Ok l /\ open_members (Some (to_le 2 MEMBERSHIP_LEDGER_SCHEMA_VERSION)) l.(members_conn) = Ok l.
Proof.
  intros l. assert (Hr : rebuild_members Membership.default (members_conn l) = Ok (members_sq l)).
  { unfold l. assert (H0 : rebuild_members Membership.default (members_conn members_empty) = Ok (members_sq members_empty)) by done. revert H0. generalize members_empty.
    induction runs as [|x runs IH]; intros l0 H0; [done|]. cbn [foldl]. apply IH. unfold sq_member_step, member_append_sq. destruct (member_gate _ _) as [[o|]|e|]; cbn [obind]; try done.
    unfold members_append_durable. destruct (negb _ || _); [done|]. cbn [members_conn members_sq]. rewrite rebuild_members_snoc, H0. cbn. by rewrite bincode_decode_encode. }
  split; unfold open_members; (replace (init_and_verify _ _) with (Ok (E := StoreError) (to_le 2 MEMBERSHIP_LEDGER_SCHEMA_VERSION)) by (by vm_compute)); cbn [omap_err obind]; rewrite Hr; by destruct l.
Qed.
End Facts.

(** ** Warrants through teams *)
Lemma narrow_by_delegate w roles : narrow_by w roles = delegate w roles.
Proof. revert w. induction roles as [|r roles IH]; intros w; [done|]. cbn. unfold narrow. destruct (intersect w r); cbn; [apply IH|done|done]. Qed.
Lemma most_permissive_path_spec cs :
  match most_permissive_path cs with
  | Some w => exists c, c ∈ cs /\ c.2 = w /\ forall d, d ∈ cs -> warrant_within w d.2 = true -> warrant_within d.2 w = true
  | None => cs = []
  end.
Proof.
  unfold most_permissive_path. pose proof (stable_sort_perm anchor_le cs) as Hp. destruct (stable_sort anchor_le cs) as [|c l]; [by apply Permutation_nil in Hp|].
  destruct (greedy_maximal (fun a b : bytes * WarrantSpec => warrant_within a.2 b.2) (fun x => within_refl _) (fun x y z => within_trans _ _ _) l c) as (Hin & _ & Hmax).
  set (m := foldl _ c l) in *. exists m. split_and!; [by rewrite <- Hp|done|]. intros d Hd. rewrite <- Hp in Hd. by apply Hmax.
Qed.
Section Paths.
Context {M G : Type} `{!MembershipLedger M} `{!GrantLedger G} `{Blake3} `{!Bincode (PartyId * list Role)}.
Context (f : GovernedFleet M G) (asset : AssetRef) (action : CatalogAction) (root : WarrantSpec).
Definition edge_at (p : PartyId) (e : TeamEdge) : Prop := exists es, member_edges (E := NarrowingError) f.(members) p = Ok es /\ e ∈ es.
(** A path of edges upward from a member to a team. *)
Inductive reaches (m : PartyId) : PartyId -> list TeamEdge -> Prop :=
| reach_one e : edge_at m e -> reaches m e.(TeamEdge.team) [e]
| reach_more t es e : reaches m t es -> edge_at t e -> reaches m e.(TeamEdge.team) (es ++ [e]).
Abbreviation team_warrant t := (resolve_effective_warrant_for f.(fleet_grants) t asset action root).
Definition conveyed (es : list TeamEdge) : Prop := forall e, e ∈ es -> action ∈ acts e.(TeamEdge.action_cap).
Definition cand_ok (m : PartyId) (c : bytes * WarrantSpec) : Prop :=
  exists t es tw, reaches m t es /\ conveyed es /\ team_warrant t = Ok (Some tw) /\ delegate tw (rev (TeamEdge.role <$> es)) = Ok c.2.
Definition above (m p : PartyId) (es : list TeamEdge) : Prop := (es = [] /\ p = m) \/ reaches m p es.
Lemma above_edge m p es e : above m p es -> edge_at p e -> reaches m e.(TeamEdge.team) (es ++ [e]).
Proof. intros [[-> ->]|Hr] He; [by apply reach_one|by eapply reach_more]. Qed.
Definition frame_ok (m : PartyId) (fr : Frame) : Prop :=
  exists es, above m fr.(fr_principal) es /\ fr.(fr_roles) = TeamEdge.role <$> es /\ (action ∈ acts fr.(fr_cap) -> conveyed es).
Definition walk_ok (m : PartyId) (w : Walk) : Prop := Forall (frame_ok m) w.(wk_stack) /\ Forall (cand_ok m) w.(wk_candidates).
Context (Hteam : forall t, team_warrant t <> Panic).
Lemma path_candidate_ok m p es e cap : above m p es -> edge_at p e -> (action ∈ acts cap -> conveyed (es ++ [e])) ->
  match path_candidate f asset action root e.(TeamEdge.team) cap (TeamEdge.role <$> (es ++ [e])) with
  | Ok (Some c) => cand_ok m c
  | Ok None => action ∉ acts cap \/ team_warrant e.(TeamEdge.team) = Ok None
  | Err _ => True
  | Panic => False
  end.
Proof.
  intros Ha He Hc. unfold path_candidate. rewrite contains_acts. case_bool_decide as Hact; [|by left]. specialize (Hteam (TeamEdge.team e)).
  destruct (team_warrant (TeamEdge.team e)) as [[tw|]|x|] eqn:Ht; cbn [obind]; [|by right|done|done]. rewrite narrow_by_delegate.
  pose proof (delegate_no_panic (rev (TeamEdge.role <$> (es ++ [e]))) tw). destruct (delegate tw _) as [w|x|] eqn:Hd; cbn [obind]; [|done|done].
  exists (TeamEdge.team e), (es ++ [e]), tw. split_and!; [by eapply above_edge|by apply Hc|done|done].
Qed.
Lemma walk_edges_ok m fr edges : forall w, frame_ok m fr -> (forall e, e ∈ edges -> edge_at fr.(fr_principal) e) -> walk_ok m w ->
  match walk_edges f asset action root fr edges w with
  | Ok w' => walk_ok m w' /\ (length w'.(wk_stack) + w.(wk_steps) <= length w.(wk_stack) + w'.(wk_steps))%nat /\ (w.(wk_steps) <= w'.(wk_steps))%nat
      /\ (w.(wk_steps) <= MAX_RESOLUTION_STEPS -> w'.(wk_steps) <= MAX_RESOLUTION_STEPS)%nat /\ w.(wk_candidates) ⊆ w'.(wk_candidates)
      /\ (fr.(fr_seen) = ∅ -> w'.(wk_candidates) = [] -> forall e, e ∈ take (MAX_RESOLUTION_STEPS - w.(wk_steps)) edges ->
          action ∈ acts (CatalogActionSet.narrow fr.(fr_cap) e.(TeamEdge.action_cap)) -> team_warrant e.(TeamEdge.team) = Ok None)
  | Err _ => True
  | Panic => False
  end.
Proof.
  induction edges as [|e edges IH]; intros w Hfr He Hw; cbn [walk_edges]; [split_and!; try done; intros _ _ e; rewrite take_nil; by intros ?%not_elem_of_nil|].
  destruct (MAX_RESOLUTION_STEPS <=? wk_steps w)%nat eqn:Hb.
  { apply Nat.leb_le in Hb. split_and!; try done. intros _ _ x. replace (MAX_RESOLUTION_STEPS - wk_steps w)%nat with 0%nat by lia. by intros ?%not_elem_of_nil. }
  apply Nat.leb_gt in Hb. assert (Htake : take (MAX_RESOLUTION_STEPS - wk_steps w) (e :: edges) = e :: take (MAX_RESOLUTION_STEPS - S (wk_steps w)) edges).
  { replace (MAX_RESOLUTION_STEPS - wk_steps w)%nat with (S (MAX_RESOLUTION_STEPS - S (wk_steps w))) by lia. done. }
  assert (He' : forall x, x ∈ edges -> edge_at (fr_principal fr) x) by (intros x Hx; apply He; by right). case_bool_decide as Hseen.
  - match goal with |- context [walk_edges _ _ _ _ fr edges ?w0] => specialize (IH w0 Hfr He' Hw) end. destruct (walk_edges _ _ _ _ _ _ _) as [w'|x|]; [|done|done]. cbn [wk_stack wk_candidates wk_steps] in IH.
    destruct IH as (? & ? & ? & ? & ? & Hnone). split_and!; [done|lia|lia|lia|done|]. intros Hs. rewrite Hs in Hseen. by apply not_elem_of_empty in Hseen.
  - destruct Hfr as (es & Hab & Hro & Hca). set (cap := CatalogActionSet.narrow _ _).
    assert (Hcap : action ∈ acts cap -> conveyed (es ++ [e])).
    { unfold cap. rewrite acts_narrow, elem_of_intersection. intros [H1 H2] x [Hx| ->%list_elem_of_singleton]%elem_of_app; [by apply (Hca H1)|done]. }
    pose proof (path_candidate_ok m _ es e cap Hab (He _ (list_elem_of_here _ _)) Hcap) as Hpc. rewrite fmap_app in Hpc. cbn [fmap list_fmap] in Hpc. rewrite <- Hro in Hpc.
    destruct (path_candidate _ _ _ _ _ _ _) as [c|x|]; cbn [obind]; [|done|done].
    match goal with |- context [walk_edges _ _ _ _ fr edges ?w0] => assert (Hpush : walk_ok m w0); [|specialize (IH w0 (ex_intro _ es (conj Hab (conj Hro Hca))) He' Hpush)] end.
    { split; cbn [wk_stack wk_candidates]; apply Forall_app; (split; [apply Hw|]); [apply Forall_singleton|destruct c; [by apply Forall_singleton|constructor]].
      exists (es ++ [e]). split_and!; [right; eapply above_edge; [done|apply He; left]|by rewrite fmap_app, Hro|done]. }
    destruct (walk_edges _ _ _ _ _ _ _) as [w'|x|]; [|done|done]. destruct IH as (? & Hlen & ? & ? & Hsub & Hnone).
    cbn [wk_stack wk_candidates wk_steps] in *. rewrite length_app in Hlen. cbn [length] in Hlen. split_and!; [done|lia|lia|lia|intros d Hd; apply Hsub, elem_of_app; by left|].
    intros Hs Hnil x Hx. rewrite Htake in Hx. apply elem_of_cons in Hx as [->|Hx]; [|by apply Hnone]. intros Hact. destruct c as [c|]; [|by destruct Hpc].
    exfalso. rewrite Hnil in Hsub. apply (not_elem_of_nil c), Hsub, elem_of_app. right. left.
Qed.
Context (Hedges : forall p, exists es, member_edges (E := NarrowingError) f.(members) p = Ok es).
Lemma last_split {A} (l : list A) x : last l = Some x -> l = take (length l - 1) l ++ [x].
Proof. intros [l' ->]%last_Some. rewrite length_app. cbn [length]. replace (length l' + 1 - 1)%nat with (length l') by lia. by rewrite take_app_length. Qed.
(** The walk ends, whatever it meets, with candidates only. *)
Lemma walk_runs m fuel : forall w, walk_ok m w -> (w.(wk_steps) <= MAX_RESOLUTION_STEPS)%nat -> (length w.(wk_stack) + (MAX_RESOLUTION_STEPS - w.(wk_steps)) < fuel)%nat ->
  match walk f asset action root fuel w with
  | Ok cs => Forall (cand_ok m) cs /\ w.(wk_candidates) ⊆ cs
  | Err _ => True
  | Panic => False
  end.
Proof.
  induction fuel as [|fuel IH]; intros w Hw Hs Hf; [lia|]. cbn [walk]. destruct (last (wk_stack w)) as [fr|] eqn:Hl; [|by split; [apply Hw|]].
  apply last_split in Hl. assert (Hlen : (length (take (length (wk_stack w) - 1) (wk_stack w)) = length (wk_stack w) - 1)%nat) by (rewrite length_take; lia).
  assert (Hpos : (0 < length (wk_stack w))%nat) by (rewrite Hl, length_app; cbn; lia). destruct Hw as [Hst Hca]. rewrite Hl in Hst. apply Forall_app in Hst as [Hst Hfr]. rewrite Forall_singleton in Hfr.
  set (w0 := {| wk_stack := _; wk_candidates := _; wk_steps := _ |}). assert (Hw0 : walk_ok m w0) by done. destruct (MAX_TEAM_MEMBERS_WALK <=? length (fr_roles fr))%nat.
  - specialize (IH w0 Hw0). cbn [wk_stack wk_candidates wk_steps w0] in IH. apply IH; [done|lia].
  - destruct (Hedges (fr_principal fr)) as (es & He). rewrite He. cbn [obind].
    pose proof (walk_edges_ok m fr es w0 Hfr (fun e Hin => ex_intro _ es (conj He Hin)) Hw0) as Hwe. destruct (walk_edges _ _ _ _ _ _ _) as [w'|x|]; cbn [obind]; [|done|done].
    destruct Hwe as (Hw' & Hl' & Hst' & Hm & Hsub & _). cbn [wk_stack wk_candidates wk_steps w0] in *. destruct (MAX_RESOLUTION_STEPS <=? wk_steps w')%nat eqn:Hb; [by split; [apply Hw'|]|].
    apply Nat.leb_gt in Hb. specialize (IH w' Hw' ltac:(lia) ltac:(lia)). destruct (walk _ _ _ _ _ _) as [cs|x|]; [|done|done]. destruct IH as [? Hsub']. split; [done|]. by intros d Hd; apply Hsub', Hsub.
Qed.
(** The first frame, whose edges are all tried while the budget lasts. *)
Lemma walk_first m : let w := {| wk_stack := [{| fr_principal := m; fr_roles := []; fr_cap := CatalogActionSet.all; fr_seen := ∅ |}]; wk_candidates := []; wk_steps := 0 |} in
  match walk f asset action root (S (S MAX_RESOLUTION_STEPS)) w with
  | Ok cs => Forall (cand_ok m) cs
      /\ (cs = [] -> forall es e, member_edges (E := NarrowingError) f.(members) m = Ok es -> e ∈ take MAX_RESOLUTION_STEPS es ->
          action ∈ acts e.(TeamEdge.action_cap) -> team_warrant e.(TeamEdge.team) = Ok None)
  | Err _ => True
  | Panic => False
  end.
Proof.
  intros w. assert (Hfr : frame_ok m {| fr_principal := m; fr_roles := []; fr_cap := CatalogActionSet.all; fr_seen := ∅ |}).
  { exists []. split_and!; [by left|done|]. by intros _ e ?%not_elem_of_nil. }
  destruct (Hedges m) as (es & He). remember (S MAX_RESOLUTION_STEPS) as fuel eqn:Hfuel. cbn [walk wk_stack w last fr_roles fr_principal]. cbn [length Nat.leb MAX_TEAM_MEMBERS_WALK]. rewrite He. cbn [obind].
  set (w0 := {| wk_stack := _; wk_candidates := _; wk_steps := _ |}). assert (Hw0 : walk_ok m w0) by (split; constructor).
  pose proof (walk_edges_ok m _ es w0 Hfr (fun e Hin => ex_intro _ es (conj He Hin)) Hw0) as Hwe. destruct (walk_edges _ _ _ _ _ _ _) as [w'|x|]; cbn [obind]; [|done|done].
  destruct Hwe as (Hw' & Hl' & Hst' & Hm & Hsub & Hnone). cbn [wk_stack wk_candidates wk_steps w0 w take Nat.sub length] in *. rewrite Nat.sub_0_r in Hnone.
  assert (Hdirect : wk_candidates w' = [] -> forall es' e, Ok (E := NarrowingError) es = Ok es' -> e ∈ take MAX_RESOLUTION_STEPS es' -> action ∈ acts (TeamEdge.action_cap e) -> team_warrant (TeamEdge.team e) = Ok None).
  { intros Hnil es' e He' Hin Hact. injection He' as <-. apply Hnone; [done|done|done|]. cbn [fr_cap]. rewrite acts_narrow, (comm_L (∩)). by rewrite acts_all. }
  destruct (MAX_RESOLUTION_STEPS <=? wk_steps w')%nat eqn:Hb; [split; [apply Hw'|exact Hdirect]|]. apply Nat.leb_gt in Hb.
  pose proof (walk_runs m fuel w' Hw' ltac:(lia)) as Hr. cbn [length take Nat.sub] in Hl'. destruct (walk _ _ _ _ fuel w') as [cs|x|]; [|done|apply Hr; lia].
  destruct Hr as [? Hsub']; [lia|]. split; [done|]. intros ->. apply Hdirect. destruct (wk_candidates w') as [|c l]; [done|]. exfalso. apply (not_elem_of_nil c), Hsub'. left.
Qed.
(** The walk that only asks whether a path authorizes. *)
Definition aframe_ok (m : PartyId) (fr : AuthFrame) : Prop := exists es, above m fr.(af_principal) es /\ (action ∈ acts fr.(af_cap) -> conveyed es).
Definition path_to (m : PartyId) : Prop := exists t es, reaches m t es /\ conveyed es /\ is_authorized f.(fleet_grants) t asset action = Ok true.
Context (Hauth : forall t, exists b, is_authorized f.(fleet_grants) t asset action = Ok b).
Lemma auth_edges_ok m fr edges : forall stack steps, aframe_ok m fr -> (forall e, e ∈ edges -> edge_at fr.(af_principal) e) -> Forall (aframe_ok m) stack -> (steps <= MAX_RESOLUTION_STEPS)%nat ->
  exists r, auth_edges f asset action fr edges stack steps = Ok r
    /\ match r with
       | inl b => b = true -> path_to m
       | inr (stack', steps') => Forall (aframe_ok m) stack' /\ (length stack' + steps <= length stack + steps')%nat /\ (steps' <= MAX_RESOLUTION_STEPS)%nat
       end
    /\ (fr.(af_seen) = ∅ -> r <> inl true -> forall e, e ∈ take (MAX_RESOLUTION_STEPS - steps) edges ->
        action ∈ acts (CatalogActionSet.narrow fr.(af_cap) e.(TeamEdge.action_cap)) -> is_authorized f.(fleet_grants) e.(TeamEdge.team) asset action = Ok false).
Proof.
  induction edges as [|e edges IH]; intros stack steps Hfr He Hst Hs; cbn [auth_edges].
  { eexists. split_and!; [done|split_and!; [done|lia|lia]|]. intros _ _ e. rewrite take_nil. by intros ?%not_elem_of_nil. }
  destruct (MAX_RESOLUTION_STEPS <=? steps)%nat eqn:Hb.
  { apply Nat.leb_le in Hb. eexists. split_and!; [done|done|]. intros _ _ x. replace (MAX_RESOLUTION_STEPS - steps)%nat with 0%nat by lia. by intros ?%not_elem_of_nil. }
  apply Nat.leb_gt in Hb. replace (take (MAX_RESOLUTION_STEPS - steps) (e :: edges)) with (e :: take (MAX_RESOLUTION_STEPS - S steps) edges)
    by (replace (MAX_RESOLUTION_STEPS - steps)%nat with (S (MAX_RESOLUTION_STEPS - S steps)) by lia; done).
  assert (He' : forall x, x ∈ edges -> edge_at (af_principal fr) x) by (intros x Hx; apply He; by right). case_bool_decide as Hseen.
  - destruct (IH stack (S steps) Hfr He' Hst ltac:(lia)) as (r & -> & Hr & _). exists r. split_and!; [done| |by intros Hz; rewrite Hz in Hseen; apply not_elem_of_empty in Hseen].
    destruct r as [b|[st' n']]; [done|]. destruct Hr as (? & ? & ?). split_and!; [done|lia|lia].
  - destruct Hfr as (es & Hab & Hca). set (cap := CatalogActionSet.narrow _ _).
    assert (Hcap : action ∈ acts cap -> conveyed (es ++ [e])).
    { unfold cap. rewrite acts_narrow, elem_of_intersection. intros [H1 H2] x [Hx| ->%list_elem_of_singleton]%elem_of_app; [by apply (Hca H1)|done]. }
    assert (Hreach : reaches m (TeamEdge.team e) (es ++ [e])) by (eapply above_edge; [done|apply He; left]).
    destruct (Hauth (TeamEdge.team e)) as (b & Hb'). rewrite contains_acts, Hb'.
    set (st := stack ++ _). assert (Hst' : Forall (aframe_ok m) st) by (apply Forall_app; split; [done|]; apply Forall_singleton; exists (es ++ [e]); split; [by right|done]).
    destruct (IH st (S steps) (ex_intro _ es (conj Hab Hca)) He' Hst' ltac:(lia)) as (r & Hr & Hr1 & Hr2).
    assert (Hnext : match r with inl b => b = true -> path_to m | inr (stack', steps') => Forall (aframe_ok m) stack' /\ (length stack' + steps <= length stack + steps')%nat /\ (steps' <= MAX_RESOLUTION_STEPS)%nat end).
    { destruct r as [?|[st' n']]; [done|]. destruct Hr1 as (? & Hl & ?). unfold st in Hl. rewrite length_app in Hl. cbn [length] in Hl. split_and!; [done|lia|lia]. }
    case_bool_decide as Hact; cbn [obind]; [destruct b|].
    + eexists. split_and!; [done| |done]. intros _. exists (TeamEdge.team e), (es ++ [e]). auto.
    + rewrite Hr. exists r. split_and!; [done|done|]. intros Hz Hn x [->|Hx]%elem_of_cons; [done|by apply Hr2].
    + rewrite Hr. exists r. split_and!; [done|done|]. intros Hz Hn x [->|Hx]%elem_of_cons; [done|by apply Hr2].
Qed.
Lemma auth_walk_ok m fuel : forall stack steps, Forall (aframe_ok m) stack -> (steps <= MAX_RESOLUTION_STEPS)%nat -> (length stack + (MAX_RESOLUTION_STEPS - steps) < fuel)%nat ->
  exists b, auth_walk f asset action fuel stack steps = Ok b /\ (b = true -> path_to m).
Proof.
  induction fuel as [|fuel IH]; intros stack steps Hst Hs Hf; [lia|]. cbn [auth_walk]. destruct (last stack) as [fr|] eqn:Hl; [|by exists false].
  apply last_split in Hl. assert (Hpos : (0 < length stack)%nat) by (rewrite Hl, length_app; cbn; lia).
  assert (Hlen : (length (take (length stack - 1) stack) = length stack - 1)%nat) by (rewrite length_take; lia). rewrite Hl in Hst. apply Forall_app in Hst as [Hst Hfr]. rewrite Forall_singleton in Hfr.
  destruct (MAX_TEAM_MEMBERS_WALK <=? size (af_seen fr))%nat; [apply IH; [done|done|lia]|]. destruct (Hedges (af_principal fr)) as (es & He). rewrite He. cbn [obind].
  destruct (auth_edges_ok m fr es _ steps Hfr (fun e Hin => ex_intro _ es (conj He Hin)) Hst Hs) as (r & -> & Hr & _). cbn [obind].
  destruct r as [b|[st' n']]; [by exists b|]. destruct Hr as (? & ? & ?). apply IH; [done|done|lia].
Qed.
Lemma auth_first m : exists b, is_member_authorized f asset action m = Ok b /\ (b = true -> path_to m)
  /\ (b = false -> forall es e, member_edges (E := NarrowingError) f.(members) m = Ok es -> e ∈ take MAX_RESOLUTION_STEPS es ->
       action ∈ acts e.(TeamEdge.action_cap) -> is_authorized f.(fleet_grants) e.(TeamEdge.team) asset action = Ok false).
Proof.
  unfold is_member_authorized. set (fr := {| af_principal := m; af_cap := CatalogActionSet.all; af_seen := ∅ |}).
  assert (Hfr : aframe_ok m fr) by (exists []; split; [by left|by intros _ e ?%not_elem_of_nil]). destruct (Hedges m) as (es & He).
  remember (S MAX_RESOLUTION_STEPS) as fuel eqn:Hfuel. cbn [auth_walk last fr af_seen af_principal length Nat.sub take]. rewrite size_empty. cbn [Nat.leb MAX_TEAM_MEMBERS_WALK].
  destruct (auth_edges_ok m fr es [] 0 Hfr (fun e Hin => ex_intro _ es (conj He Hin)) (Forall_nil_2 _) ltac:(lia)) as (r & Hr & Hr1 & Hr2). rewrite He. cbn [obind]. fold fr. rewrite Hr. cbn [obind].
  assert (Hdirect : r <> inl true -> forall es' e, Ok (E := NarrowingError) es = Ok es' -> e ∈ take MAX_RESOLUTION_STEPS es' -> action ∈ acts (TeamEdge.action_cap e) -> is_authorized (fleet_grants f) (TeamEdge.team e) asset action = Ok false).
  { intros Hn es' e [= <-] Hin Hact. rewrite Nat.sub_0_r in Hr2. apply Hr2; [done|done|done|]. cbn [af_cap fr]. rewrite acts_narrow, (comm_L (∩)). by rewrite acts_all. }
  destruct r as [b|[st n]].
  - exists b. split_and!; [done|done|]. intros ->. by apply Hdirect.
  - destruct Hr1 as (Hst & Hlen & Hn). cbn [length] in Hlen. destruct (auth_walk_ok m fuel st n Hst Hn ltac:(lia)) as (b & -> & Hb). exists b. split_and!; [done|done|]. intros _. by apply Hdirect.
Qed.
End Paths.
Section Composed.
Context `{Blake3} `{!Bincode Team} `{!Bincode Admit} `{!Bincode Removal} `{!Bincode Disband} `{!Bincode MembershipFact}.
Context `{!Bincode Grant} `{!Bincode AssetBinding} `{!Bincode LedgerFact} `{!Bincode (PartyId * list Role)}.
Context {M G : Type} `{!MembershipLedger M} `{!GrantLedger G} `{!MembershipLedgerLaws (L := M)} `{!GrantLedgerLaws (L := G)}.
(** [C33] The warrant a member gets through its teams is that of a team which holds the
    action, narrowed by the role of every membership on a path of edges up to it, each
    of which conveys the action: so it is within the team's and within the owner's.
    None is answered only if no team the member is directly in, with a cap that
    conveys the action, holds it (among the first 4096 edges). Both walks end and
    never panic, and the boolean one answers yes only on such a path. *)
Theorem member_warrants_bounded (lm0 : M) mops (lg0 : G) gops asset action root m :
  mview lm0 = Membership.default -> view lg0 = Inner_default ->
  let lm := foldl member_step lm0 mops in
  let lg := foldl ledger_step lg0 gops in
  let f := {| members := lm; fleet_grants := lg |} in
  match resolve_member_warrant f asset action root m with
  | Ok (Some w) => warrant_le w root
      /\ exists t es tw, reaches f m t es /\ conveyed action es /\ holds (list_facts lg) t asset action
           /\ resolve_effective_warrant_for lg t asset action root = Ok (Some tw) /\ delegate tw (rev (TeamEdge.role <$> es)) = Ok w /\ warrant_le w tw
  | Ok None => forall es e, member_edges (E := NarrowingError) lm m = Ok es -> e ∈ take MAX_RESOLUTION_STEPS es ->
      action ∈ acts e.(TeamEdge.action_cap) -> ~ holds (list_facts lg) e.(TeamEdge.team) asset action
  | Err e => exists x, e = GovernedFleetError.Narrowing x
  | Panic => False
  end
  /\ exists b, is_member_authorized f asset action m = Ok b
      /\ (b = true -> exists t es, reaches f m t es /\ conveyed action es /\ holds (list_facts lg) t asset action)
      /\ (b = false -> forall es e, member_edges (E := NarrowingError) lm m = Ok es -> e ∈ take MAX_RESOLUTION_STEPS es ->
           action ∈ acts e.(TeamEdge.action_cap) -> ~ holds (list_facts lg) e.(TeamEdge.team) asset action).
Proof.
  intros Hm0 Hg0 lm lg f. assert (Hmi : members_ok (mview lm)) by (apply member_run_ok; rewrite Hm0; apply members_default_ok).
  destruct (ledger_run_view gops lg0) as [Hgi _]; [rewrite Hg0; apply inner_default_ok|]. fold lg in Hgi.
  assert (Hedges : forall p, exists es, member_edges (E := NarrowingError) (members f) p = Ok es).
  { intros p. cbn [members f]. rewrite mview_edges. destruct (edges_of_ok (E := NarrowingError) (mview lm) Hmi (S MAX_TEAM_MEMBERS_WALK) ∅ p) as (es & Hes & _). by exists es. }
  assert (Hres : forall t, match resolve_effective_warrant_for lg t asset action root with
     | Ok (Some w) => warrant_le w root /\ holds (list_facts lg) t asset action | Ok None => ~ holds (list_facts lg) t asset action | Err _ => True | Panic => False end).
  { intros t. unfold resolve_effective_warrant_for. rewrite view_warrants, view_facts. pose proof (resolved_spec (view lg) Hgi asset t action root) as Hr.
    destruct (obind _ _) as [[w|]|e|]; [|done..]. destruct Hr as [(g & gs & A & ? & ? & ? & ? & Hd) _]. split; [by eapply delegate_le|by exists g, gs, A]. }
  assert (Hauth : forall t, exists b, is_authorized lg t asset action = Ok b /\ (b = true <-> holds (list_facts lg) t asset action)).
  { intros t. unfold is_authorized. rewrite view_grants, view_facts. destruct (authorized_spec (E := NarrowingError) (view lg) Hgi asset t) as (e & -> & He). cbn [obind].
    eexists. split; [done|]. rewrite contains_acts, bool_decide_eq_true. apply He. }
  split.
  - assert (Hteam : forall t, resolve_effective_warrant_for (fleet_grants f) t asset action root <> Panic).
    { intros t E. specialize (Hres t). cbn [fleet_grants f] in E. by rewrite E in Hres. }
    unfold resolve_member_warrant. pose proof (walk_first f asset action root Hteam Hedges m) as Hw. cbv zeta in Hw. destruct (walk _ _ _ _ _ _) as [cs|e|]; cbn [obind omap_err]; [|by eexists|done].
    destruct Hw as [Hcs Hnone]. pose proof (most_permissive_path_spec cs) as Hmp. destruct (most_permissive_path cs) as [w|].
    + destruct Hmp as (c & Hc & <- & _). rewrite Forall_forall in Hcs. destruct (Hcs _ Hc) as (t & es & tw & Hr & Hcv & Ht & Hd). cbn [fleet_grants f] in Ht.
      specialize (Hres t). rewrite Ht in Hres. destruct Hres as [Hle Hh]. pose proof (delegate_le _ _ _ Hd). split; [by etrans|]. by exists t, es, tw.
    + intros es e He Hin Hact. specialize (Hnone Hmp es e He Hin Hact). cbn [fleet_grants f] in Hnone. specialize (Hres (TeamEdge.team e)). by rewrite Hnone in Hres.
  - destruct (auth_first f asset action Hedges (fun t => match Hauth t with ex_intro _ b (conj E _) => ex_intro _ b E end) m) as (b & Hb & Htrue & Hfalse).
    exists b. split_and!; [done| |].
    + intros (t & es & Hr & Hcv & Ha)%Htrue. cbn [fleet_grants f] in Ha. exists t, es. split_and!; [done..|]. destruct (Hauth t) as (b' & Hb' & Hiff). rewrite Ha in Hb'. injection Hb' as <-. by apply Hiff.
    + intros Hbf es e He Hin Hact. specialize (Hfalse Hbf es e He Hin Hact). cbn [fleet_grants f] in Hfalse. destruct (Hauth (TeamEdge.team e)) as (b' & Hb' & Hiff).
      rewrite Hfalse in Hb'. injection Hb' as <-. rewrite <- Hiff. done.
Qed.
End Composed.

(** ** A fleet to evaluate *)
#[export] Instance Team_countable : Countable Team.
Proof.
  apply (inj_countable' (fun t => (Team.schema_version t, Team.principal t, Team.owner t, Team.display_name t))
    (fun '(a, b, c, d) => {| Team.schema_version := a; Team.principal := b; Team.owner := c; Team.display_name := d |})). by intros [].
Defined.
#[export] Instance Admit_countable : Countable Admit.
Proof.
  apply (inj_countable' (fun a => (Admit.schema_version a, Admit.team a, Admit.member a, Admit.admitter a, Admit.role a, Admit.action_cap a))
    (fun '(a, b, c, d, e, f) => {| Admit.schema_version := a; Admit.team := b; Admit.member := c; Admit.admitter := d; Admit.role := e; Admit.action_cap := f |})). by intros [].
Defined.
#[export] Instance Removal_countable : Countable Removal.
Proof.
  apply (inj_countable' (fun r => (Removal.schema_version r, Removal.team r, Removal.member r, Removal.remover r))
    (fun '(a, b, c, d) => {| Removal.schema_version := a; Removal.team := b; Removal.member := c; Removal.remover := d |})). by intros [].
Defined.
#[export] Instance Disband_countable : Countable Disband.
Proof.
  apply (inj_countable' (fun d => (Disband.schema_version d, Disband.team d, Disband.by_party d))
    (fun '(a, b, c) => {| Disband.schema_version := a; Disband.team := b; Disband.by_party := c |})). by intros [].
Defined.
#[export] Instance MembershipFact_countable : Countable MembershipFact.
Proof.
  apply (inj_countable' (fun f => match f with MembershipFact.Found t => inl t | MembershipFact.Admit a => inr (inl a) | MembershipFact.Remove r => inr (inr (inl r)) | MembershipFact.Disband d => inr (inr (inr d)) end)
    (fun s => match s with inl t => MembershipFact.Found t | inr (inl a) => MembershipFact.Admit a | inr (inr (inl r)) => MembershipFact.Remove r | inr (inr (inr d)) => MembershipFact.Disband d end)). by intros [].
Defined.
Definition demo_team : PartyId := str "team".
Definition demo_founding : Team := Team.found demo_team demo_admin (str "the team").
Definition demo_admits : list Admit :=
  [Admit.new demo_team (str "alice") demo_admin (demo_role 7 FsMode.ReadOnly) demo_use; Admit.new demo_team (str "alice") demo_admin (demo_role 5 FsMode.ReadOnly) demo_use].
Definition demo_removal : Removal := Removal.new demo_team (str "alice") demo_admin.
Definition demo_team_grant : Grant := Grant_root demo_asset demo_admin demo_team CatalogActionSet.all (demo_role 9 FsMode.ReadOnly).
#[local] Existing Instance mod_blake3.
#[local] Instance demo_founding_codec : Bincode Team := listed_bincode demo_bincode [demo_founding].
#[local] Instance demo_admit_codec : Bincode Admit := listed_bincode demo_bincode demo_admits.
#[local] Instance demo_removal_codec : Bincode Removal := listed_bincode demo_bincode [demo_removal].
#[local] Instance demo_disband_codec : Bincode Disband := demo_bincode.
#[local] Instance demo_membership_codec : Bincode MembershipFact := demo_bincode.
#[local] Instance demo_team_grant_codec : Bincode Grant := listed_bincode demo_bincode [demo_team_grant].
#[local] Instance demo_team_binding_codec : Bincode AssetBinding := listed_bincode demo_bincode [{| AssetBinding.asset := demo_asset; AssetBinding.owner := demo_admin |}].
#[local] Instance demo_team_fact_codec : Bincode LedgerFact := demo_bincode.
#[local] Instance demo_path_codec : Bincode (PartyId * list Role) := listed_bincode demo_bincode [(demo_team, [demo_role 7 FsMode.ReadOnly])].
(** Alice is admitted, removed, admitted again under another role, and removed again. *)
Definition demo_history : list MembershipFact :=
  [MembershipFact.Found demo_founding; MembershipFact.Admit (Admit.new demo_team (str "alice") demo_admin (demo_role 7 FsMode.ReadOnly) demo_use);
   MembershipFact.Remove demo_removal; MembershipFact.Admit (Admit.new demo_team (str "alice") demo_admin (demo_role 5 FsMode.ReadOnly) demo_use)].
Definition demo_members (n : nat) : InMemoryMembershipLedger := foldl member_step InMemoryMembershipLedger_new (take n demo_history).
Lemma members_start_empty : mview InMemoryMembershipLedger_new = Membership.default.
Proof. reflexivity. Qed.
Lemma membership_from_owner_witness :
  is_member (E := unit) (demo_members 2) (str "alice") demo_team = Ok true
  /\ exists es, member_edges (E := unit) (demo_members 2) (str "alice") = Ok es
      /\ forall e, e ∈ es -> exists a, admitted (membership_facts (demo_members 2)) e.(TeamEdge.team) a /\ a.(Admit.member) = str "alice" /\ e = edge_of a.
Proof.
  split; [vm_compute; reflexivity|]. destruct (membership_from_owner InMemoryMembershipLedger_new (take 2 demo_history) (str "alice") members_start_empty) as (es & Hes & Hin & _). exists es. split; [exact Hes|exact Hin].
Defined.
(** After her second removal by the owner alice is still a member. *)
Lemma repeated_removal_ignored_witness :
  is_member (E := unit) (demo_members 3) (str "alice") demo_team = Ok false
  /\ is_member (E := unit) (member_step (demo_members 4) (MembershipFact.Remove demo_removal)) (str "alice") demo_team = Ok true.
Proof.
  split; [vm_compute; reflexivity|]. unfold is_member.
  pose proof (repeated_removal_ignored InMemoryMembershipLedger_new (take 4 demo_history) demo_removal (str "alice") members_start_empty) as Hr. cbv zeta in Hr. fold (demo_members 4) in Hr.
  rewrite Hr; [vm_compute; reflexivity|]. vm_compute. do 2 right. left.
Defined.
(** Admitting alice again exactly as before does not bring her back. *)
Lemma same_readmission_ignored :
  is_member (E := unit) (member_step (demo_members 3) (MembershipFact.Admit (Admit.new demo_team (str "alice") demo_admin (demo_role 7 FsMode.ReadOnly) demo_use))) (str "alice") demo_team = Ok false.
Proof. vm_compute. reflexivity. Qed.
Definition demo_fleet_ops : list LedgerFact := [LedgerFact.Bind {| AssetBinding.asset := demo_asset; AssetBinding.owner := demo_admin |}; LedgerFact.Grant demo_team_grant].
Lemma ledger_start_empty : view InMemoryGrantLedger_new = Inner_default.
Proof. reflexivity. Qed.
Definition demo_fleet : GovernedFleet InMemoryMembershipLedger InMemoryGrantLedger :=
  {| members := foldl member_step InMemoryMembershipLedger_new (take 2 demo_history); fleet_grants := foldl ledger_step InMemoryGrantLedger_new demo_fleet_ops |}.
Lemma member_warrants_bounded_witness :
  exists w, resolve_member_warrant demo_fleet demo_asset CatalogAction.Use demo_root (str "alice") = Ok (Some w) /\ warrant_le w demo_root.
Proof.
  destruct (member_warrants_bounded InMemoryMembershipLedger_new (take 2 demo_history) InMemoryGrantLedger_new demo_fleet_ops demo_asset CatalogAction.Use demo_root (str "alice")
              members_start_empty ledger_start_empty) as [Hb _].
  fold demo_fleet in Hb. destruct (resolve_member_warrant demo_fleet demo_asset CatalogAction.Use demo_root (str "alice")) as [[w|]|e|] eqn:E; try (vm_compute in E; discriminate).
  exists w. split; [reflexivity|exact (proj1 Hb)].
Defined.
(** Of two incomparable warrants that none is wider than, the one with the larger
    anchor is chosen when a narrower one comes first. *)
Lemma path_choice_not_least :
  let b := demo_warrant 5 FsMode.ReadOnly in let m1 := demo_warrant 3 FsMode.ReadWrite in let m2 := demo_warrant 9 FsMode.ReadOnly in
  most_permissive_path [([1], b); ([2], m1); ([3], m2)] = Some m2 /\ warrant_within m1 m2 = false /\ warrant_within m2 m1 = false /\ warrant_within m1 b = false.
Proof. vm_compute. done. Qed.
